(* ===== verification/_CoqProject ===== *)
-Q . S2P
Prelude.v
SlotRegistry.v
SlotAllocator.v
StartHandshake.v
HookControl.v
HookStatus.v
Doubles.v
HookModel.v
HookPolicy.v
HookLifecycle.v
LifecycleProofs.v
LifecycleProtocol.v
LifecycleOutcomes.v
Heartbeat.v
HeartbeatProofs.v
Invocations.v
InvocationProofs.v
FastLifetime.v
ThreadPause.v
TargetSelector.v
EnvParser.v
ReportModel.v
DetachHelper.v
DetachHelperProofs.v
DetachHelperWrites.v
DetachHelperSession.v
DetachPlan.v
DetachPlanProofs.v
DetachController.v
DetachTransactions.v
DetachGuarantees.v
DetachBatch.v
ExecMemory.v
ExecMemoryProofs.v
MpiTeardown.v
StatGuard.v
StatGuardProofs.v
MemLog.v
MemLogProofs.v
MemRadix.v
MemRadixProofs.v
MemTracking.v
MemTrackingProofs.v
MemTrackingSystem.v
MemTrackingTeardown.v
ExecEnv.v
ExecChild.v
ExecEnvProofs.v
ExecChildProofs.v
ExecSearch.v
ExecSearchProofs.v
SignalPolicy.v
SignalPolicyProofs.v
SignalCalls.v
SignalLease.v
SignalGuarantees.v
SignalTheorems.v
SignalLedger.v
SignalLedgerProofs.v
SignalLedgerSteps.v
SocketWire.v
ReportSnapshot.v
SocketGather.v
SocketGatherProofs.v
RuntimeConfig.v
SocketSetup.v
SocketRelease.v
SocketReleaseSteps.v
SocketTransport.v
SocketTheorems.v
ParentRegistry.v
ParentRegistryProofs.v
ParentRegistryCrash.v
ProcessFilter.v
GumPrologue.v
GumPrologueProofs.v
GumAttach.v
TargetConfig.v
RuntimeGate.v
RuntimeGateProofs.v
