(* ===== verification/Prelude.v ===== *)
(** * PEAK verification development

    PEAK is a preloaded profiler: it hooks target functions through Gum
    listeners, detaches hooks whose measurement cost is too high, reattaches
    them when the budget allows it, and prints a report at exit.  This library
    models its C core under [src/] as executable Rocq functions and proves what
    makes each part correct.

    ** How the program is put together

    Callbacks run in application threads and only touch lock-free words: the
    packed control word of their hook and the published status cells.  A
    controller thread, under a lock, owns the hook tables: it takes requests
    (API, detach count, heartbeat), prepares a mutation with the detach
    controller (which may hold the threads from a helper process), pauses the
    tracked threads with signals otherwise, runs the Gum transaction, finishes
    the mutation, resumes the threads and publishes the new hook state.  The
    thread slots the callbacks use as array indexes come from the pthread slot
    registry; a created thread and its creator agree on the slot through a
    start handshake.  Target lists and settings are parsed from the
    environment, processes that should not be profiled are recognised, and a
    target is hooked only when its first instructions allow it.  One thread
    activates the runtime and one tears it down; at exit the ranks of a job
    gather one report over MPI or sockets and agree whether it counts.

    ** Files and sources

    - [SlotRegistry]: every operation of [src/pthread_slot_registry.c] as an
      atomic function on the registry record (each runs under the registry's
      mutex), NULL arguments and failing allocation included; the invariant [wf].
      [SlotAllocator]: sequences of calls, the abstract FIFO allocator and the
      refinement.  [StartHandshake]: [publish_ready] and [wait_ready] of the same
      file as interleaved atomic steps with timeouts and cancellation.
    - [HookControl]: the packed per-hook word of [src/general_listener.c]
      (state, request bit, crossing bit, generation), its compare-exchange
      operations on both sides, and their interleavings as a step relation.
    - [HookStatus]: the chunked mirror of hook states read without locks.
    - [Doubles]: C doubles as the Standard Library's binary64 specification.
    - [HookModel]: the row of the hook tables ([hook]), the controller's state
      ([world]), the external components as oracles ([environment]: clock,
      detach controller, Gum, pausing, thread snapshot), the events they see,
      the state-and-exit monad [M] and its program logic.
    - [HookPolicy]: retry delays and the guarded arithmetic of the
      profile-time estimates.
    - [HookLifecycle]: the controller's operations, in source order: requests,
      [set_state], retry bookkeeping, detach, reattach and shutdown of one hook,
      batch collection and processing, one pass of [process_pending].
    - [LifecycleProofs], [LifecycleProtocol], [LifecycleOutcomes]: sequences
      of operations and the theorems about them.
    - [Heartbeat], [HeartbeatProofs]: [peak_heartbeat_monitor] of
      [src/general_listener.c]: sampling, per-target and global detach
      decisions, the budgeted reattach decision, the adaptive sleep; other
      threads run arbitrary lifecycle operations between its locked sections.
    - [Invocations], [InvocationProofs]: the measuring callbacks of
      [src/general_listener.c]: the invocation stack of a thread, direct and
      generic enter and leave, reaping of unwound frames, the statistics slots,
      the checkpoint shadow, the retirement of a slot.
    - [FastLifetime]: closing the direct dispatch of a hook, between the
      threads, the controller and the trampoline counter of
      [cmake/peak-gum/gum_peak_pc_api.c], one atomic access at a time.
    - [ThreadPause]: the signal handshake that stops and resumes a thread.
    - [TargetSelector]: [src/utils/target_selector_syntax.c].
    - [EnvParser]: the unsigned and boolean settings of
      [src/utils/env_parser.c].
    - [ReportModel]: [src/general_listener/report_maxima.c] and
      [src/general_listener/report_model.c].
    - [DetachHelper], [DetachHelperProofs], [DetachHelperWrites],
      [DetachHelperSession]: the process [src/detach_helper.c] that holds the
      threads with ptrace, evacuates them from patched code and releases them.
    - [DetachPlan], [DetachPlanProofs]: the part of [src/detach_controller.c]
      that decides from program counters and patches whether and how code may
      be changed.  [DetachController]: its transactions, composed with the
      helper; [DetachTransactions], [DetachGuarantees], [DetachBatch]: their
      theorems, and the interface [BatchPreparation] of the lifecycle discharged.
    - [SignalPolicy], [SignalCalls]: [src/signal_policy.c], the leased real-time
      signal, its migration, the wrapped signal functions and raw system calls,
      and the stop handler of [src/detach_controller.c] on it.
      [SignalPolicyProofs], [SignalLease], [SignalGuarantees], [SignalTheorems]:
      the invariant of the lease under every call and what follows.
      [SignalLedger], [SignalLedgerProofs], [SignalLedgerSteps]: the ledger of
      stop packets of [src/detach_controller.c], its operations and their
      interleaving with senders and handlers.
    - [StatGuard], [StatGuardProofs]: [src/filesystem_stat_guard.c], one atomic
      access at a time.  [MpiTeardown]: [src/mpi_teardown_guard.c].
    - [MemLog], [MemRadix], [MemTracking] with their proof files,
      [MemTrackingSystem], [MemTrackingTeardown]: the logs, the lock-free radix
      tree of live blocks and the tracking hooks of
      [src/malloc_interceptor.c], alone and interleaved.
    - [ExecMemory]: [src/exec_memory.c], the check of arguments before an exec.
      [ExecEnv], [ExecChild], [ExecSearch]: the environment of the new program
      (allocating and for a child without allocation), the searches along PATH
      and the argument lists of [src/exec_interceptor.c]; each with its proofs.
    - [RuntimeConfig]: [src/general_listener/runtime_config.c], settings, time
      budgets, rank and size.  [ReportSnapshot]:
      [src/general_listener/report_snapshot.c].
    - [SocketWire], [SocketGather], [SocketSetup], [SocketRelease],
      [SocketTransport]: [src/general_listener/socket_report_transport.c], the
      bytes on the wire, the root's gather loop, addresses and admission, the
      release handshake and the sessions of a rank.  [SocketGatherProofs],
      [SocketReleaseSteps], [SocketTheorems]: the loops over what they receive
      and the handshake as interleaved steps over a network that loses frames.
    - [ParentRegistry]: [src/utils/parent_registry.c] over a directory of names,
      inodes and link counts, where each system call works, fails or is the
      last one of the process.  [ParentRegistryProofs]: its text.
      [ParentRegistryCrash]: a program logic for crashes and its theorems.
    - [ProcessFilter]: [src/utils/process_filter.c].
    - [GumPrologue], [GumAttach]: [src/unsafe_gum_prologue.c] and
      [src/general_listener/attach_policy.c], the instruction decoder, the
      patterns, the policy and the plan of an attach.  [GumPrologueProofs]: the
      instructions of the architecture and the decoder on them.
    - [TargetConfig]: [src/utils/target_config.c] and the composition of the
      target list in [src/peak.c], with failing allocations.
    - [RuntimeGate], [RuntimeGateProofs]: activation, exec checkpoints, exit and
      finalization of [src/peak.c], one atomic access at a time.

    ** What the theorems show

    - Controller: after any operations, callback exchanges included, the
      state array, legacy flags, packed word and lock-free mirror agree
      ([published_state_consistent]); every mutation is properly bracketed and every
      thread sent a STOP is unpaused but for those whose wait failed
      ([mutations_follow_protocol], [failed_wait_stays_paused]); the exact outcome of a
      detach and a reattach request on every branch, abandonment after the retry
      budget, no transient state at rest, and which hooks a batch takes.
    - Heartbeat: it keeps the same invariants whatever other threads do in
      between ([heartbeat_keeps_invariants]), requests the largest contributors
      and no more than needed ([global_detach_outcome]), reattaches within its
      time budget ([reattach_within_budget]) and never changes a hook itself.
      [qsort] is a parameter with the class [Qsort] as its contract.
    - Callbacks: a sequence of well-nested call trees is measured exactly
      ([call_trees_measured]); the frames in flight of every listener are
      counted exactly through non-local exits ([fast_active_balanced]);
      retirement loses no call ([retire_conserves_calls]); a first call that
      recurses leaves the least time at zero ([recursive_first_call_min_zero]).
    - Direct-dispatch detach: every open frame is counted once in the
      trampoline counter and given back once ([detach_counts_frames]), and the
      controller's wait ends ([close_wait_ends]).
    - Control word and mirror: no initial crossing is lost, stale snapshots
      are rejected, publications decode; the mirror is one growing array and a
      reader never sees a published cell change by growth.
    - Slot registry: well-formedness under all call sequences, refinement of the
      FIFO allocator, tokens that never come back to life, exclusive retirement,
      coverage of the reclaim scan, snapshots; agreement of the handshake.
    - Pausing: deadlines, release by the session's CONT only, and two
      divergences of the code from its intent.
    - Detach helper and controller: threads are held exactly while a mutation is
      active, prepared threads are clear of the code that changes, a failed
      preparation restores everything, detach and reattach give the original
      code back, evacuation and the table of held threads, the results of a
      batch.  Where the helper cannot list the threads it may keep some of them:
      the statements name this case ([failed_stop_can_keep_threads]).
    - Signals: the lease always has PEAK's handler and no call of the application
      reaches the kernel with the leased signal in it
      ([lease_always_protected], [claimed_signal_released]); for the application
      [sigaction] is that of a process without PEAK ([sigaction_transparent]);
      a migration goes to a free unblocked signal; cookies authenticate exactly;
      a race between a reservation and a new handler ([handler_lost_in_race]).
      A packet that PEAK sent and that meets the controller's handler is never
      taken for a foreign signal, however senders, handlers and retirements
      interleave; one that meets the protective handler is, which needs a move
      back to a signal used before ([own_packets_never_unexpected]).
    - Stat guard and MPI: a granted stop excludes calls and the gate reopens;
      abandoned requests are kept and close the guard.
    - Memory: the tracked total is that of the live blocks under any
      interleaving, with the log its events and those a full log dropped, which
      are none before its capacity ([tracking_accounts_exactly]); no access after the tree is released, the tree is a map,
      log slots are within bounds, replay accounts exactly.
    - Exec: the preflight's VALID is right, and its INVALID unless the list of
      mappings has long lines or cannot be read ([exec_args_answer_exact],
      [long_line_not_seen]); the new environment has exactly the expected value for
      every name but for a duplicate LD_PRELOAD entry ([exec_env_exact],
      [duplicate_preload_lost]), the child's builder agrees with it where its
      buffers suffice ([child_env_agrees]), and the two searches are the reference
      search but for a denied permission the fallback may lose
      ([path_searches_agree], [fallback_loses_eacces]).
    - Sockets: a prepared report is the sum of exactly one complete report of
      every rank, decoded from the bytes its connection received
      ([aggregate_is_the_sum]); root and peers never disagree on the
      decision ([release_agreement]); admission leaves a whole phase to every
      peer ([admission_fits_budget]); what is sent is read back
      ([wire_round_trip]); a gather that failed polls on, and the order of
      arrival shows in the capabilities.
    - Runtime: in every interleaving the teardown runs at most once, with no
      activation and no checkpoint beside it ([teardown_runs_alone]).
    - Parent registry: entries survive failures and deaths at any call
      ([registry_crash_safe]) and a process without failures always gets its
      answer ([registry_recovers]).  Process filter: one decision per process
      ([decision_made_once]).
    - Attach: on entries made of instructions the decoder knows, up to the first
      one of another form, a target is refused for exactly the stated reasons
      ([attach_decision_exact]); PLT thunks on
      AArch64 are recognised exactly ([plt_thunk_exact]).
    - Targets: the configured list is what the three sources ask for, each once,
      and prefixes of it when memory is short; a list of selectors with matching
      brackets is cut into just these ([configured_targets_exact]).
    - Parsing and reports: soundness and totality of the scanner and its
      equality with [strchr] on plain text; the exact language of unsigned
      settings; maxima that do not depend on arrival order; clamping of times.

    ** Bounds and fuel

    Counters whose width matters keep it (+u64, [UINT32_MAX]).  Loops are
    structural except: the allocation loop of [reserve] (fuel [S count], each
    iteration grows the capacity), the flush (100 attempts and a last one, as in
    the source), the scanner (the characters left) and the offset search ([S] of
    the length; each round consumes a character), the helper's stop rounds
    ([STOP_ROUNDS], one more than the time limit allows at its poll interval),
    its reads and writes (the bytes left), the string and array checks of the exec
    preflight (their limits in the source), the token loops (the length of the
    string), the child's environment loops (its 256 slots), the PATH searches ([S]
    of the length of PATH), the compaction of logs (the claimed slots), the payload
    of a connection (its bytes), temporary files of the registry (128 attempts, as
    in the source), decimal numbers (20 digits, enough for 64 bits), prefixes of
    an instruction (the bytes that may be looked at), the scan of a prologue
    (5 bytes; each round consumes one), the tokens of a target list ([S] of the
    length) and the doubling of its capacity (64 rounds overflow it).  A loop
    that waits for other threads consumes a list of what it sees and is blocked
    at its end.  No theorem assumes that fuel
    suffices: results are stated for the fuel the definitions fix.  The
    generation of the control word has 58 bits and the registry's generation 64;
    the theorems that need no wrap-around say so.

    ** What is not modelled

    Code outside [src/] is a parameter: Gum, the kernel's answers, the clock,
    the allocator's failures.  The lifecycle model sees the detach controller
    through oracles; the contract a batch relies on is the class
    [BatchPreparation], which [DetachBatch] proves of the controller.  In the
    controller's model the in-process signal backend, the start of the helper,
    the fork handlers and the threads that wait at the gate are oracles or left
    out.  Locks are modelled as atomicity of the operations they cover, and the
    interleaving models assume sequential consistency.  In the registry runs of
    the check are serialised by its lock, calls that fail do not claim that a
    name exists or is missing, and /proc is fixed while a run looks at it.  In the
    socket model what arrives is a list; connecting, binding and resolving names
    are answers.  The instructions of [GumPrologueProofs] are the 64-bit forms
    the decoder knows; other forms are [foreign], and those it mis-sizes are named
    there.  In the runtime
    model the bodies of the activation and of the teardown are single points.  A
    callback is one step of its thread.  What the delivery of a signal does is
    modelled for the stop packets only.  Traces, diagnostics and test probes change no state and are left
    out.  Not modelled:
    the controller's thread loop, dynamic attachment and table growth, the
    pthread, dlopen, MPI and CUDA interceptors and the JIT provider (interposed
    calls whose work is in the libraries they wrap), the attachment of the
    allocator and exec hooks, the MPI transport, the formatting of reports,
    checkpoints and file names, the resolution of targets, real-number settings
    and the macOS backend. *)

From Stdlib Require Import ZArith Lia.
From stdpp Require Export base tactics numbers list option gmap.

#[global] Open Scope Z_scope.

(** ** Machine integers

    A C unsigned integer of width [w] is a [Z]; the operations that can wrap
    write the reduction out.  Array indexes and counters whose bound the
    component's invariant proves are [nat]. *)

Declare Scope peak_scope.
Delimit Scope peak_scope with peak.

Definition UINT64_MAX : Z := 2 ^ 64 - 1.
Definition UINT32_MAX : Z := 2 ^ 32 - 1.
Definition INT_MAX : Z := 2 ^ 31 - 1.
Definition SIZE_MAX : Z := UINT64_MAX.

Definition wrap (w x : Z) : Z := x mod 2 ^ w.

Notation "x +u64 y" := (wrap 64 (x + y)) (at level 50, left associativity) : peak_scope.
Notation "x -u64 y" := (wrap 64 (x - y)) (at level 50, left associativity) : peak_scope.
#[global] Open Scope peak_scope.

Definition is_u64 (x : Z) : Prop := 0 <= x <= UINT64_MAX.

Lemma wrap_range w x : 0 <= w -> 0 <= wrap w x < 2 ^ w.
Proof. intros. apply Z.mod_pos_bound. lia. Qed.

Lemma wrap_small w x : 0 <= x < 2 ^ w -> wrap w x = x.
Proof. apply Z.mod_small. Qed.

Lemma wrap_idemp w x : wrap w (wrap w x) = wrap w x.
Proof. unfold wrap. by rewrite Zmod_mod. Qed.

(** ** Automation *)

Create HintDb peak.

(** Splits the boolean tests of the code into the propositions they decide. *)
Ltac breflect :=
  repeat match goal with
  | H : andb _ _ = true |- _ => apply andb_true_iff in H; destruct H
  | H : orb _ _ = false |- _ => apply orb_false_iff in H; destruct H
  | H : negb _ = true |- _ => apply negb_true_iff in H
  | H : negb _ = false |- _ => apply negb_false_iff in H
  | H : Z.eqb _ _ = true |- _ => apply Z.eqb_eq in H
  | H : Z.eqb _ _ = false |- _ => apply Z.eqb_neq in H
  | H : Z.ltb _ _ = true |- _ => apply Z.ltb_lt in H
  | H : Z.ltb _ _ = false |- _ => apply Z.ltb_ge in H
  | H : Z.leb _ _ = true |- _ => apply Z.leb_le in H
  | H : Z.leb _ _ = false |- _ => apply Z.leb_gt in H
  | H : Nat.eqb _ _ = true |- _ => apply Nat.eqb_eq in H
  | H : Nat.eqb _ _ = false |- _ => apply Nat.eqb_neq in H
  | H : Nat.ltb _ _ = true |- _ => apply Nat.ltb_lt in H
  | H : Nat.ltb _ _ = false |- _ => apply Nat.ltb_ge in H
  | H : Nat.leb _ _ = true |- _ => apply Nat.leb_le in H
  | H : Nat.leb _ _ = false |- _ => apply Nat.leb_gt in H
  end.

(** Case analysis on the next test or match of the goal. *)
Ltac branch :=
  match goal with
  | |- context [match ?x with _ => _ end] =>
      lazymatch x with
      | context [match _ with _ => _ end] => fail
      | _ => destruct x eqn:?
      end
  end.

Ltac branch_in H :=
  match type of H with
  | context [match ?x with _ => _ end] =>
      lazymatch x with
      | context [match _ with _ => _ end] => fail
      | _ => destruct x eqn:?
      end
  end.

(** ** Lists used as C arrays *)

(** The number of cells of an array that satisfy a test. *)
Fixpoint countb {A} (p : A -> bool) (l : list A) : nat :=
  match l with
  | [] => 0
  | x :: l => Nat.b2n (p x) + countb p l
  end%nat.

Lemma countb_insert {A} (p : A -> bool) (l : list A) i x y :
  l !! i = Some x ->
  (countb p (<[i:=y]> l) + Nat.b2n (p x) = countb p l + Nat.b2n (p y))%nat.
Proof.
  revert i. induction l as [|z l IH]; intros [|i] Hx; simplify_eq/=; [lia|].
  specialize (IH _ Hx). lia.
Qed.

Lemma countb_le_length {A} (p : A -> bool) (l : list A) :
  (countb p l <= length l)%nat.
Proof. induction l as [|x l IH]; simpl; [lia|]. destruct (p x); simpl; lia. Qed.

Lemma countb_pos {A} (p : A -> bool) (l : list A) i x :
  l !! i = Some x -> p x = true -> (0 < countb p l)%nat.
Proof.
  revert i. induction l as [|z l IH]; intros [|i] Hx Hp; simplify_eq/=.
  - rewrite Hp. simpl. lia.
  - specialize (IH _ Hx Hp). lia.
Qed.

Lemma countb_replicate {A} (p : A -> bool) n x :
  p x = false -> countb p (replicate n x) = 0%nat.
Proof. intros Hp. induction n; simpl; [done|]. by rewrite Hp, IHn. Qed.

Lemma lookup_insert_cases {A} (l : list A) i j x y :
  <[i:=x]> l !! j = Some y ->
  (i = j /\ y = x /\ (i < length l)%nat) \/ (i <> j /\ l !! j = Some y).
Proof.
  intros H. destruct (decide (i = j)) as [->|Hne].
  - left. pose proof (lookup_lt_Some _ _ _ H) as Hlt.
    rewrite length_insert in Hlt. rewrite list_lookup_insert_eq in H by done.
    by simplify_eq.
  - right. by rewrite list_lookup_insert_ne in H.
Qed.

(** ** Sums over lists *)

Fixpoint total {A} (g : A -> Z) (l : list A) : Z :=
  match l with [] => 0 | x :: l => g x + total g l end.

Lemma total_insert {A} (g : A -> Z) l i x y : l !! i = Some x -> total g (<[i := y]> l) = total g l - g x + g y.
Proof.
  revert i; induction l as [|z l IH]; intros [|i] H; simplify_eq/=; [lia|].
  rewrite (IH i H); lia.
Qed.

Lemma total_nonneg {A} (g : A -> Z) l : (forall x, 0 <= g x) -> 0 <= total g l.
Proof. intros H; induction l as [|x l IH]; simpl; [lia|specialize (H x); lia]. Qed.

Lemma total_member {A} (g : A -> Z) l i x : (forall x, 0 <= g x) -> l !! i = Some x -> g x <= total g l.
Proof.
  intros H; revert i; induction l as [|z l IH]; intros [|i] Hi; simplify_eq/=.
  - pose proof (total_nonneg g l H); lia.
  - specialize (IH i Hi); specialize (H z); lia.
Qed.

(** The same when only the members are known to be nonnegative. *)
Lemma total_member_in {A} (g : A -> Z) l i x : (forall x, x ∈ l -> 0 <= g x) -> l !! i = Some x -> g x <= total g l.
Proof.
  intros H Hi; assert (Hs : total g l = total (fun y => Z.max 0 (g y)) l).
  { clear Hi; induction l as [|y l IH]; [reflexivity|]; simpl; rewrite IH by (intros z Hz; apply H; right; exact Hz).
    pose proof (H y ltac:(left)); lia. }
  pose proof (total_member (fun y => Z.max 0 (g y)) l i x ltac:(intros; lia) Hi); simpl in *; lia.
Qed.

Lemma total_two {A} (g : A -> Z) l i j x y :
  (forall x, 0 <= g x) -> l !! i = Some x -> l !! j = Some y -> i <> j -> g x + g y <= total g l.
Proof.
  intros H; revert i j; induction l as [|z l IH]; intros [|i] [|j] Hi Hj Hne; simplify_eq/=.
  - pose proof (total_member g l j y H Hj); lia.
  - pose proof (total_member g l i x H Hi); lia.
  - specialize (IH i j Hi Hj ltac:(congruence)); specialize (H z); lia.
Qed.

Lemma total_replicate {A} (g : A -> Z) n x : g x = 0 -> total g (replicate n x) = 0.
Proof. intros H; induction n; simpl; lia. Qed.

(** ** Ring-buffer arithmetic *)

Lemma mod_add_inj (h n a b : nat) :
  (a < n)%nat -> (b < n)%nat ->
  ((h + a) mod n = (h + b) mod n)%nat -> a = b.
Proof.
  intros Ha Hb H.
  pose proof (Nat.div_mod_eq (h + a) n). pose proof (Nat.div_mod_eq (h + b) n).
  destruct (Nat.lt_trichotomy ((h + a) / n) ((h + b) / n)) as [?|[?|?]]; nia.
Qed.

Lemma mod_add_shift (h n k : nat) :
  n <> 0%nat -> (((h + 1) mod n + k) mod n = (h + S k) mod n)%nat.
Proof.
  intros Hn. rewrite Nat.Div0.add_mod_idemp_l. f_equal. lia.
Qed.

(** A duplicate-free list of numbers below [n] has at most [n] elements. *)
Lemma NoDup_bounded_length (l : list nat) n :
  NoDup l -> (forall x, x ∈ l -> (x < n)%nat) -> (length l <= n)%nat.
Proof.
  intros Hnd Hb. rewrite <- (length_seq n 0).
  apply submseteq_length, NoDup_submseteq; [done|].
  intros x Hx. apply elem_of_seq. specialize (Hb x Hx). lia.
Qed.
