(* ===== verification/SlotRegistry.v ===== *)
(** * The pthread slot registry

    Models [src/pthread_slot_registry.c]: the allocation-free table that gives
    every live pthread a statistics slot, with a FIFO ring of reusable slots,
    generation-stamped tokens, a two-phase retirement protocol and the
    exit-pending accounting of detached threads.  Every entry point of the C
    file takes the registry mutex for its whole body, so each operation is one
    atomic function on the registry state.  [NULL] pointers are [None];
    [pthread_t] and [pid_t] values are integers; [pthread_equal] is equality of
    [pthread_t] values; the result of [pthread_mutex_init] is an argument. *)

From S2P Require Import Prelude.

Definition PEAK_PTHREAD_SLOT_REGISTRY_MAX_CAPACITY : nat := 4096.

Record PeakPthreadSlotToken := mkToken {
  slot : nat;
  generation : Z
}.

Record PeakPthreadSlotRegistryEntry := mkEntry {
  tid : Z;
  token : PeakPthreadSlotToken;
  kernel_tid : Z;
  occupied : bool;
  detached : bool;
  final_destructor_pass : bool;
  exit_pending : bool;
  retiring : bool
}.

Record PeakPthreadDetachedCandidate := mkCandidate {
  candidate_token : PeakPthreadSlotToken;
  candidate_kernel_tid : Z
}.

Record PeakPthreadSlotRegistry := mkRegistry {
  entries : list PeakPthreadSlotRegistryEntry;
  reusable : list nat;
  reusable_head : nat;
  reusable_count : nat;
  next_slot : nat;
  capacity : nat;
  reclaim_cursor : nat;
  exit_pending_count : nat;
  max_exit_pending_count : nat;
  next_generation : Z;
  initialized : bool
}.

#[export] Instance token_eq_dec : EqDecision PeakPthreadSlotToken.
Proof. solve_decision. Defined.
#[export] Instance entry_eq_dec : EqDecision PeakPthreadSlotRegistryEntry.
Proof. solve_decision. Defined.

(** ** Field updates of the C structs *)

Definition zero_token := mkToken 0 0.
Definition zero_entry := mkEntry 0 zero_token 0 false false false false false.
Definition zero_registry :=
  mkRegistry (replicate PEAK_PTHREAD_SLOT_REGISTRY_MAX_CAPACITY zero_entry)
             (replicate PEAK_PTHREAD_SLOT_REGISTRY_MAX_CAPACITY 0%nat)
             0 0 0 0 0 0 0 0 false.

Definition set_entries (r : PeakPthreadSlotRegistry) x :=
  mkRegistry x (reusable r) (reusable_head r) (reusable_count r) (next_slot r)
    (capacity r) (reclaim_cursor r) (exit_pending_count r)
    (max_exit_pending_count r) (next_generation r) (initialized r).
Definition set_reusable (r : PeakPthreadSlotRegistry) ring head count :=
  mkRegistry (entries r) ring head count (next_slot r)
    (capacity r) (reclaim_cursor r) (exit_pending_count r)
    (max_exit_pending_count r) (next_generation r) (initialized r).
Definition set_next_slot (r : PeakPthreadSlotRegistry) x :=
  mkRegistry (entries r) (reusable r) (reusable_head r) (reusable_count r) x
    (capacity r) (reclaim_cursor r) (exit_pending_count r)
    (max_exit_pending_count r) (next_generation r) (initialized r).
Definition set_reclaim_cursor (r : PeakPthreadSlotRegistry) x :=
  mkRegistry (entries r) (reusable r) (reusable_head r) (reusable_count r)
    (next_slot r) (capacity r) x (exit_pending_count r)
    (max_exit_pending_count r) (next_generation r) (initialized r).
Definition set_exit_pending (r : PeakPthreadSlotRegistry) count maximum :=
  mkRegistry (entries r) (reusable r) (reusable_head r) (reusable_count r)
    (next_slot r) (capacity r) (reclaim_cursor r) count maximum
    (next_generation r) (initialized r).
Definition set_next_generation (r : PeakPthreadSlotRegistry) x :=
  mkRegistry (entries r) (reusable r) (reusable_head r) (reusable_count r)
    (next_slot r) (capacity r) (reclaim_cursor r) (exit_pending_count r)
    (max_exit_pending_count r) x (initialized r).
Definition set_initialized (r : PeakPthreadSlotRegistry) x :=
  mkRegistry (entries r) (reusable r) (reusable_head r) (reusable_count r)
    (next_slot r) (capacity r) (reclaim_cursor r) (exit_pending_count r)
    (max_exit_pending_count r) (next_generation r) x.

Definition set_kernel_tid (e : PeakPthreadSlotRegistryEntry) x :=
  mkEntry (tid e) (token e) x (occupied e) (detached e)
    (final_destructor_pass e) (exit_pending e) (retiring e).
Definition set_detached (e : PeakPthreadSlotRegistryEntry) x :=
  mkEntry (tid e) (token e) (kernel_tid e) (occupied e) x
    (final_destructor_pass e) (exit_pending e) (retiring e).
Definition set_final_destructor_pass (e : PeakPthreadSlotRegistryEntry) x :=
  mkEntry (tid e) (token e) (kernel_tid e) (occupied e) (detached e)
    x (exit_pending e) (retiring e).
Definition set_entry_exit_pending (e : PeakPthreadSlotRegistryEntry) x :=
  mkEntry (tid e) (token e) (kernel_tid e) (occupied e) (detached e)
    (final_destructor_pass e) x (retiring e).
Definition set_retiring (e : PeakPthreadSlotRegistryEntry) x :=
  mkEntry (tid e) (token e) (kernel_tid e) (occupied e) (detached e)
    (final_destructor_pass e) (exit_pending e) x.

(** [&registry->entries[index]]: an entry pointer is its index. *)
Definition entry_at (r : PeakPthreadSlotRegistry) (i : nat) :=
  default zero_entry (entries r !! i).
Definition put_entry (r : PeakPthreadSlotRegistry) (i : nat) e :=
  set_entries r (<[i:=e]> (entries r)).

(** ** Internal helpers *)

Definition tid_is (t : Z) (e : PeakPthreadSlotRegistryEntry) : Prop :=
  occupied e = true /\ tid e = t.

Definition find_unlocked (r : PeakPthreadSlotRegistry) (t : Z) : option nat :=
  fst <$> list_find (tid_is t) (take (capacity r) (entries r)).

Definition find_token_unlocked (r : PeakPthreadSlotRegistry)
    (k : PeakPthreadSlotToken) : option nat :=
  if (capacity r <=? slot k)%nat then None
  else
    let e := entry_at r (slot k) in
    if negb (occupied e) || negb (generation (token e) =? generation k)
    then None else Some (slot k).

Definition discard_unlocked (r : PeakPthreadSlotRegistry) (i : nat) :=
  let e := entry_at r i in
  let r1 :=
    if exit_pending e && negb (exit_pending_count r =? 0)%nat
    then set_exit_pending r (exit_pending_count r - 1) (max_exit_pending_count r)
    else r in
  put_entry r1 i (mkEntry (tid e) (token e) 0 false false false false false).

Definition update_exit_pending_unlocked (r : PeakPthreadSlotRegistry) (i : nat)
    : PeakPthreadSlotRegistry * bool :=
  let e := entry_at r i in
  if exit_pending e || retiring e || negb (detached e)
     || negb (final_destructor_pass e) || (kernel_tid e <=? 0)
  then (r, false)
  else
    let r1 := put_entry r i (set_entry_exit_pending e true) in
    let count := S (exit_pending_count r1) in
    let maximum :=
      if (max_exit_pending_count r1 <? count)%nat then count
      else max_exit_pending_count r1 in
    (set_exit_pending r1 count maximum, true).

Definition enqueue_reusable_unlocked (r : PeakPthreadSlotRegistry) (s : nat) :=
  let reusable_tail :=
    ((reusable_head r + reusable_count r) mod capacity r)%nat in
  set_reusable r (<[reusable_tail:=s]> (reusable r)) (reusable_head r)
    (S (reusable_count r)).

(** ** Entry points *)

Definition init (registry : option PeakPthreadSlotRegistry) (cap : nat)
    (mutex_init_ok : bool) : bool * option PeakPthreadSlotRegistry :=
  match registry with
  | None => (false, None)
  | Some r =>
      if (PEAK_PTHREAD_SLOT_REGISTRY_MAX_CAPACITY <? cap)%nat then (false, Some r)
      else
        let z := zero_registry in
        if negb mutex_init_ok then (false, Some z)
        else
          (true, Some (mkRegistry (entries z) (reusable z) (reusable_head z)
                         (reusable_count z) (next_slot z) cap (reclaim_cursor z)
                         (exit_pending_count z) (max_exit_pending_count z)
                         (next_generation z) true))
  end.

Definition destroy (registry : option PeakPthreadSlotRegistry)
    : option PeakPthreadSlotRegistry :=
  match registry with
  | None => None
  | Some r => if negb (initialized r) then Some r else Some (set_initialized r false)
  end.

(** [++registry->next_generation], skipping zero when it wraps. *)
Definition advance_generation (g : Z) : Z :=
  let g1 := g +u64 1 in if g1 =? 0 then g1 +u64 1 else g1.

(** The slot choice of [reserve_insert]: the oldest reusable slot, else the
    next never-used one. *)
Definition take_slot (r : PeakPthreadSlotRegistry)
    : option (nat * PeakPthreadSlotRegistry) :=
  if negb (reusable_count r =? 0)%nat then
    let s := default 0%nat (reusable r !! reusable_head r) in
    Some (s, set_reusable r (reusable r)
               ((reusable_head r + 1) mod capacity r)%nat
               (reusable_count r - 1)%nat)
  else if (next_slot r <? capacity r)%nat then
    Some (next_slot r, set_next_slot r (S (next_slot r)))
  else None.

Definition discard_opt (r : PeakPthreadSlotRegistry) (old : option nat) :=
  match old with Some i => discard_unlocked r i | None => r end.

Definition insert_unlocked (r : PeakPthreadSlotRegistry) (s : nat) (t : Z)
    : PeakPthreadSlotRegistry * PeakPthreadSlotToken :=
  let g := advance_generation (next_generation r) in
  let k := mkToken s g in
  let r1 := set_next_generation r g in
  (put_entry r1 s (mkEntry t k 0 true false false false false), k).

Definition reserve_insert (registry : option PeakPthreadSlotRegistry) (t : Z)
    (token_out : option PeakPthreadSlotToken)
    : bool * option PeakPthreadSlotRegistry * option PeakPthreadSlotToken :=
  match registry, token_out with
  | Some r, Some _ =>
      if negb (initialized r) then (false, registry, token_out)
      else
        let old_entry := find_unlocked r t in
        match take_slot r with
        | Some (s, r1) =>
            let r2 := discard_opt r1 old_entry in
            let '(r3, k) := insert_unlocked r2 s t in
            (true, Some r3, Some k)
        | None => (false, Some (discard_opt r old_entry), token_out)
        end
  | _, _ => (false, registry, token_out)
  end.

Definition capture (registry : option PeakPthreadSlotRegistry) (t : Z)
    (token_out : option PeakPthreadSlotToken)
    : bool * option PeakPthreadSlotToken :=
  match registry, token_out with
  | Some r, Some _ =>
      if negb (initialized r) then (false, token_out)
      else
        match find_unlocked r t with
        | Some i =>
            if negb (retiring (entry_at r i)) then (true, Some (token (entry_at r i)))
            else (false, token_out)
        | None => (false, token_out)
        end
  | _, _ => (false, token_out)
  end.

Definition remove_unlocked (r : PeakPthreadSlotRegistry) (i : nat) (reuse : bool) :=
  let r1 :=
    if reuse then enqueue_reusable_unlocked r (slot (token (entry_at r i))) else r in
  discard_unlocked r1 i.

Definition compare_remove (registry : option PeakPthreadSlotRegistry) (t g : Z)
    (reuse : bool) : bool * option PeakPthreadSlotRegistry :=
  match registry with
  | None => (false, None)
  | Some r =>
      if negb (initialized r) then (false, Some r)
      else
        match find_unlocked r t with
        | None => (false, Some r)
        | Some i =>
            if retiring (entry_at r i) || negb (generation (token (entry_at r i)) =? g)
            then (false, Some r)
            else (true, Some (remove_unlocked r i reuse))
        end
  end.

Definition compare_remove_token (registry : option PeakPthreadSlotRegistry)
    (k : PeakPthreadSlotToken) (reuse : bool)
    : bool * option PeakPthreadSlotRegistry :=
  match registry with
  | None => (false, None)
  | Some r =>
      if negb (initialized r) then (false, Some r)
      else
        match find_token_unlocked r k with
        | None => (false, Some r)
        | Some i =>
            if retiring (entry_at r i) then (false, Some r)
            else (true, Some (remove_unlocked r i reuse))
        end
  end.

Definition begin_retire (registry : option PeakPthreadSlotRegistry)
    (k : PeakPthreadSlotToken) : bool * option PeakPthreadSlotRegistry :=
  match registry with
  | None => (false, None)
  | Some r =>
      if negb (initialized r) then (false, Some r)
      else
        match find_token_unlocked r k with
        | None => (false, Some r)
        | Some i =>
            if retiring (entry_at r i) then (false, Some r)
            else (true, Some (put_entry r i (set_retiring (entry_at r i) true)))
        end
  end.

Definition complete_retire (registry : option PeakPthreadSlotRegistry)
    (k : PeakPthreadSlotToken) (reuse : bool)
    : bool * option PeakPthreadSlotRegistry :=
  match registry with
  | None => (false, None)
  | Some r =>
      if negb (initialized r) then (false, Some r)
      else
        match find_token_unlocked r k with
        | None => (false, Some r)
        | Some i =>
            if negb (retiring (entry_at r i)) then (false, Some r)
            else (true, Some (remove_unlocked r i reuse))
        end
  end.

Definition defer_retire (registry : option PeakPthreadSlotRegistry)
    (k : PeakPthreadSlotToken) : bool * option PeakPthreadSlotRegistry :=
  match registry with
  | None => (false, None)
  | Some r =>
      if negb (initialized r) then (false, Some r)
      else
        match find_token_unlocked r k with
        | None => (false, Some r)
        | Some i =>
            if negb (retiring (entry_at r i)) then (false, Some r)
            else (true, Some (put_entry r i (set_retiring (entry_at r i) false)))
        end
  end.

Definition mark_kernel_tid (registry : option PeakPthreadSlotRegistry)
    (k : PeakPthreadSlotToken) (ktid : Z)
    : bool * option PeakPthreadSlotRegistry :=
  match registry with
  | None => (false, None)
  | Some r =>
      if negb (initialized r) || (ktid <=? 0) then (false, Some r)
      else
        match find_token_unlocked r k with
        | None => (false, Some r)
        | Some i =>
            let r1 := put_entry r i (set_kernel_tid (entry_at r i) ktid) in
            let '(r2, _) := update_exit_pending_unlocked r1 i in
            (true, Some r2)
        end
  end.

(** The boolean after the registry is [*became_exit_pending], [None] when the
    caller passes a null pointer. *)
Definition mark_detached (registry : option PeakPthreadSlotRegistry) (t g : Z)
    (became_exit_pending : option bool)
    : bool * option PeakPthreadSlotRegistry * option bool :=
  let cleared := (fun _ => false) <$> became_exit_pending in
  match registry with
  | None => (false, None, cleared)
  | Some r =>
      if negb (initialized r) then (false, Some r, cleared)
      else
        match find_unlocked r t with
        | Some i =>
            if generation (token (entry_at r i)) =? g then
              let r1 := put_entry r i (set_detached (entry_at r i) true) in
              let '(r2, became) := update_exit_pending_unlocked r1 i in
              (true, Some r2, (fun _ => became) <$> became_exit_pending)
            else (false, Some r, cleared)
        | None => (false, Some r, cleared)
        end
  end.

Definition mark_final_destructor (registry : option PeakPthreadSlotRegistry)
    (k : PeakPthreadSlotToken) (became_exit_pending : option bool)
    : bool * option PeakPthreadSlotRegistry * option bool :=
  let cleared := (fun _ => false) <$> became_exit_pending in
  match registry with
  | None => (false, None, cleared)
  | Some r =>
      if negb (initialized r) then (false, Some r, cleared)
      else
        match find_token_unlocked r k with
        | Some i =>
            let r1 := put_entry r i (set_final_destructor_pass (entry_at r i) true) in
            let '(r2, became) := update_exit_pending_unlocked r1 i in
            (true, Some r2, (fun _ => became) <$> became_exit_pending)
        | None => (false, Some r, cleared)
        end
  end.

(** The [while (examined < limit)] scan: [fuel] counts the iterations left. *)
Fixpoint scan_exit_pending (r : PeakPthreadSlotRegistry) (fuel examined : nat)
    : list PeakPthreadDetachedCandidate :=
  match fuel with
  | O => []
  | S fuel =>
      let e := entry_at r ((reclaim_cursor r + examined) mod capacity r)%nat in
      if occupied e && exit_pending e && negb (retiring e)
      then mkCandidate (token e) (kernel_tid e) :: scan_exit_pending r fuel (S examined)
      else scan_exit_pending r fuel (S examined)
  end.

(** Returns the written prefix of [candidates] (its length is the C return
    value), [*entries_examined] and the registry. *)
Definition snapshot_exit_pending (registry : option PeakPthreadSlotRegistry)
    (candidates_given : bool) (budget : nat)
    : list PeakPthreadDetachedCandidate * nat * option PeakPthreadSlotRegistry :=
  match registry with
  | None => ([], 0%nat, None)
  | Some r =>
      if negb (initialized r) || negb candidates_given || (budget =? 0)%nat
         || (capacity r =? 0)%nat
      then ([], 0%nat, Some r)
      else
        let limit := if (budget <? capacity r)%nat then budget else capacity r in
        let found := scan_exit_pending r limit 0 in
        (found, limit,
         Some (set_reclaim_cursor r ((reclaim_cursor r + limit) mod capacity r)%nat))
  end.

Definition exit_pending_counts (registry : option PeakPthreadSlotRegistry)
    : nat * nat :=
  match registry with
  | None => (0, 0)%nat
  | Some r =>
      if negb (initialized r) then (0, 0)%nat
      else (exit_pending_count r, max_exit_pending_count r)
  end.

Definition quarantine (registry : option PeakPthreadSlotRegistry) (t : Z)
    : bool * option PeakPthreadSlotRegistry :=
  match registry with
  | None => (false, None)
  | Some r =>
      if negb (initialized r) then (false, Some r)
      else
        match find_unlocked r t with
        | Some i => (true, Some (discard_unlocked r i))
        | None => (false, Some r)
        end
  end.

Definition contains (registry : option PeakPthreadSlotRegistry) (t : Z) : bool :=
  fst (capture registry t (Some zero_token)).

(** The copy loop of [snapshot]: [room] is the room left in the output arrays. *)
Fixpoint copy_occupied (l : list PeakPthreadSlotRegistryEntry) (room : nat)
    : list (Z * nat) * bool :=
  match l with
  | [] => ([], true)
  | e :: l =>
      if negb (occupied e) then copy_occupied l room
      else
        match room with
        | O => let '(out, _) := copy_occupied l O in (out, false)
        | S room =>
            let '(out, all) := copy_occupied l room in
            ((tid e, slot (token e)) :: out, all)
        end
  end.

(** [arrays_given] is false when [tids] or [slots] is a null pointer. *)
Definition snapshot (registry : option PeakPthreadSlotRegistry)
    (arrays_given : bool) (room : nat) : list (Z * nat) * bool :=
  match registry with
  | None => ([], true)
  | Some r =>
      if negb (initialized r) then ([], true)
      else
        copy_occupied (take (capacity r) (entries r))
          (if arrays_given then room else 0%nat)
  end.

(** ** The invariant *)

(** The logical content of the ring, oldest slot first. *)
Definition ring_cell (r : PeakPthreadSlotRegistry) (k : nat) : nat :=
  default 0%nat (reusable r !! ((reusable_head r + k) mod capacity r)%nat).
Definition ring (r : PeakPthreadSlotRegistry) : list nat :=
  ring_cell r <$> seq 0 (reusable_count r).

Definition pending_ok (e : PeakPthreadSlotRegistryEntry) : Prop :=
  exit_pending e = true ->
  occupied e = true /\ detached e = true /\ final_destructor_pass e = true /\
  0 < kernel_tid e.

Record wf (r : PeakPthreadSlotRegistry) : Prop := {
  wf_capacity : (capacity r <= PEAK_PTHREAD_SLOT_REGISTRY_MAX_CAPACITY)%nat;
  wf_entries : length (entries r) = PEAK_PTHREAD_SLOT_REGISTRY_MAX_CAPACITY;
  wf_reusable : length (reusable r) = PEAK_PTHREAD_SLOT_REGISTRY_MAX_CAPACITY;
  wf_next : (next_slot r <= capacity r)%nat;
  wf_head : (reusable_head r = 0 \/ reusable_head r < capacity r)%nat;
  wf_ring_nodup : NoDup (ring r);
  wf_ring_free : forall s, s ∈ ring r ->
    (s < next_slot r)%nat /\ occupied (entry_at r s) = false;
  wf_occupied : forall i e, entries r !! i = Some e -> occupied e = true ->
    (i < next_slot r)%nat /\ slot (token e) = i /\
    0 < generation (token e) <= UINT64_MAX;
  wf_tid : forall i j ei ej, entries r !! i = Some ei -> entries r !! j = Some ej ->
    occupied ei = true -> occupied ej = true -> tid ei = tid ej -> i = j;
  wf_pending : forall i e, entries r !! i = Some e -> pending_ok e;
  wf_count : exit_pending_count r = countb exit_pending (entries r);
  wf_max : (exit_pending_count r <= max_exit_pending_count r
            <= PEAK_PTHREAD_SLOT_REGISTRY_MAX_CAPACITY)%nat;
  wf_generation : 0 <= next_generation r <= UINT64_MAX
}.

(** ** Lemmas on the primitives *)

Lemma entry_at_Some r i e : entries r !! i = Some e -> entry_at r i = e.
Proof. intros H. unfold entry_at. by rewrite H. Qed.

Lemma entry_at_occupied r i :
  occupied (entry_at r i) = true -> entries r !! i = Some (entry_at r i).
Proof. unfold entry_at. by destruct (entries r !! i). Qed.

Lemma entry_at_put_ne r i j e : i <> j -> entry_at (put_entry r i e) j = entry_at r j.
Proof. intros H. unfold entry_at, put_entry. simpl. by rewrite list_lookup_insert_ne. Qed.

Lemma entry_at_put_eq r i e x :
  entries r !! i = Some x -> entry_at (put_entry r i e) i = e.
Proof.
  intros H. apply entry_at_Some. simpl. apply list_lookup_insert_eq.
  eapply lookup_lt_Some, H.
Qed.

Lemma set_exit_pending_id r :
  set_exit_pending r (exit_pending_count r) (max_exit_pending_count r) = r.
Proof. by destruct r. Qed.

Lemma find_unlocked_Some r t i :
  find_unlocked r t = Some i ->
  (i < capacity r)%nat /\ entries r !! i = Some (entry_at r i) /\
  occupied (entry_at r i) = true /\ tid (entry_at r i) = t.
Proof.
  unfold find_unlocked. intros H.
  apply fmap_Some in H as ([j e] & H & ->). simpl.
  apply list_find_Some in H as (Hl & [Ho Ht] & _).
  apply lookup_take_Some in Hl as [Hl ?].
  by rewrite (entry_at_Some _ _ _ Hl).
Qed.

Lemma find_unlocked_None r t i e :
  find_unlocked r t = None -> (i < capacity r)%nat ->
  entries r !! i = Some e -> occupied e = true -> tid e <> t.
Proof.
  unfold find_unlocked. intros H Hi He Ho Ht.
  rewrite fmap_None, list_find_None, Forall_lookup in H.
  apply (H i e); [|done]. by apply lookup_take_Some.
Qed.

Lemma find_token_Some r k i :
  find_token_unlocked r k = Some i <->
  i = slot k /\ (slot k < capacity r)%nat /\
  occupied (entry_at r (slot k)) = true /\
  generation (token (entry_at r (slot k))) = generation k.
Proof.
  unfold find_token_unlocked. split.
  - intros H. repeat branch_in H; simplify_eq. breflect. done.
  - intros (-> & Hc & Ho & Hg). rewrite Ho, Hg, Z.eqb_refl. simpl.
    by destruct (Nat.leb_spec (capacity r) (slot k)); [lia|].
Qed.

Lemma wf_occupied_lt r i : wf r -> occupied (entry_at r i) = true -> (i < capacity r)%nat.
Proof.
  intros W H. pose proof (wf_next _ W).
  destruct (wf_occupied _ W _ _ (entry_at_occupied _ _ H) H). lia.
Qed.

Lemma ring_length r : length (ring r) = reusable_count r.
Proof. unfold ring. by rewrite length_fmap, length_seq. Qed.

Lemma ring_count_le r : wf r -> (reusable_count r <= next_slot r)%nat.
Proof.
  intros W. rewrite <- ring_length.
  apply NoDup_bounded_length; [apply W|]. intros x Hx. by apply W in Hx as [? _].
Qed.

(** Writing an entry that keeps its owner, with the pending count adjusted. *)
Lemma wf_put r i e e' c m :
  wf r -> entries r !! i = Some e ->
  (occupied e' = true -> occupied e = true) ->
  tid e' = tid e -> token e' = token e -> pending_ok e' ->
  (c + Nat.b2n (exit_pending e) = exit_pending_count r + Nat.b2n (exit_pending e'))%nat ->
  (c <= m <= PEAK_PTHREAD_SLOT_REGISTRY_MAX_CAPACITY)%nat ->
  wf (set_exit_pending (put_entry r i e') c m).
Proof.
  intros W He Ho Ht Hk Hp Hc Hm. pose proof W as [].
  constructor; simpl; try done.
  - by rewrite length_insert.
  - intros s Hs. destruct (wf_ring_free0 s Hs) as [? Hf]. split; [done|].
    change (occupied (entry_at (put_entry r i e') s) = false).
    destruct (decide (i = s)) as [->|?]; [|by rewrite entry_at_put_ne].
    rewrite (entry_at_put_eq _ _ _ _ He).
    rewrite (entry_at_Some _ _ _ He) in Hf. destruct (occupied e'); [|done]. by rewrite Ho in Hf.
  - intros j x Hx Hox. apply lookup_insert_cases in Hx as [(<- & -> & _)|[? Hx]];
      [|by apply wf_occupied0].
    rewrite Hk. by apply wf_occupied0, Ho.
  - intros a b ea eb Ha Hb Hoa Hob Hab.
    apply lookup_insert_cases in Ha as [(<- & -> & _)|[? Ha]],
      Hb as [(<- & -> & _)|[? Hb]]; [done|..|by eapply wf_tid0];
      rewrite Ht in Hab; eauto.
  - intros j x Hx. apply lookup_insert_cases in Hx as [(<- & -> & _)|[? Hx]]; eauto.
  - pose proof (countb_insert exit_pending _ _ _ e' He). lia.
Qed.

Lemma wf_put_flag r i e' :
  wf r -> occupied (entry_at r i) = true ->
  tid e' = tid (entry_at r i) -> token e' = token (entry_at r i) ->
  exit_pending e' = exit_pending (entry_at r i) -> pending_ok e' ->
  wf (put_entry r i e').
Proof.
  intros W Ho Ht Hk Hx Hp. rewrite <- (set_exit_pending_id (put_entry r i e')).
  eapply wf_put; eauto using entry_at_occupied; simpl.
  - by rewrite Hx.
  - apply W.
Qed.

Lemma wf_pending_at r i :
  wf r -> occupied (entry_at r i) = true -> pending_ok (entry_at r i).
Proof. intros W H. exact (wf_pending _ W i _ (entry_at_occupied _ _ H)). Qed.

(** [discard] in closed form: the pending count drops exactly when the entry
    was pending, the guard against underflow never firing. *)
Lemma discard_eq r i :
  wf r ->
  discard_unlocked r i =
    set_exit_pending
      (put_entry r i (mkEntry (tid (entry_at r i)) (token (entry_at r i))
                        0 false false false false false))
      (exit_pending_count r - Nat.b2n (exit_pending (entry_at r i)))
      (max_exit_pending_count r).
Proof.
  intros W. unfold discard_unlocked.
  destruct (exit_pending (entry_at r i)) eqn:Hp; simpl.
  - destruct (Nat.eqb_spec (exit_pending_count r) 0) as [H0|_]; [|done].
    exfalso. rewrite (wf_count _ W) in H0. unfold entry_at in Hp.
    destruct (entries r !! i) as [e|] eqn:He; [|done].
    pose proof (countb_pos _ _ _ _ He Hp). lia.
  - rewrite Nat.sub_0_r. by destruct r.
Qed.

Lemma wf_discard r i :
  wf r -> occupied (entry_at r i) = true -> wf (discard_unlocked r i).
Proof.
  intros W Ho. rewrite discard_eq by done.
  eapply wf_put; simpl; eauto using entry_at_occupied.
  - done.
  - destruct (exit_pending (entry_at r i)) eqn:Hp; simpl; [|lia].
    rewrite (wf_count _ W).
    pose proof (countb_pos _ _ _ _ (entry_at_occupied _ _ Ho) Hp). lia.
  - pose proof (wf_max _ W). lia.
Qed.

Lemma wf_update r i :
  wf r -> occupied (entry_at r i) = true ->
  wf (update_exit_pending_unlocked r i).1.
Proof.
  intros W Ho. unfold update_exit_pending_unlocked.
  destruct (exit_pending (entry_at r i)) eqn:Hx; [done|].
  branch; [done|]. simpl.
  eapply wf_put; simpl; eauto using entry_at_occupied.
  - intros _. breflect. done.
  - rewrite Hx. simpl. lia.
  - pose proof (countb_insert exit_pending _ _ _
      (set_entry_exit_pending (entry_at r i) true) (entry_at_occupied _ _ Ho)) as Hc.
    rewrite Hx in Hc. simpl in Hc. rewrite <- (wf_count _ W) in Hc.
    pose proof (countb_le_length exit_pending
      (<[i:=set_entry_exit_pending (entry_at r i) true]> (entries r))) as Hl.
    rewrite length_insert, (wf_entries _ W) in Hl.
    pose proof (wf_max _ W). destruct (Nat.ltb_spec (max_exit_pending_count r)
      (S (exit_pending_count r))); lia.
Qed.

(** *** The ring is a FIFO queue *)

Lemma ring_enqueue r s :
  length (reusable r) = PEAK_PTHREAD_SLOT_REGISTRY_MAX_CAPACITY ->
  (capacity r <= PEAK_PTHREAD_SLOT_REGISTRY_MAX_CAPACITY)%nat ->
  (reusable_count r < capacity r)%nat ->
  ring (enqueue_reusable_unlocked r s) = ring r ++ [s].
Proof.
  intros Hlen Hcap Hc. unfold ring. simpl reusable_count.
  rewrite seq_S, fmap_app, Nat.add_0_l. f_equal.
  - apply list_fmap_ext. intros k x Hx. apply lookup_seq in Hx as [-> Hk].
    unfold ring_cell. simpl. rewrite list_lookup_insert_ne; [done|].
    intros E. apply mod_add_inj in E; lia.
  - simpl. unfold ring_cell. simpl. rewrite list_lookup_insert_eq; [done|].
    pose proof (Nat.mod_upper_bound (reusable_head r + reusable_count r) (capacity r)).
    lia.
Qed.

Lemma ring_dequeue r :
  capacity r <> 0%nat -> (0 < reusable_count r)%nat ->
  (reusable_head r < capacity r)%nat ->
  ring r = default 0%nat (reusable r !! reusable_head r) ::
    ring (set_reusable r (reusable r) ((reusable_head r + 1) mod capacity r)%nat
            (reusable_count r - 1)%nat).
Proof.
  intros Hcap Hc Hh. unfold ring. simpl.
  destruct (reusable_count r) as [|n] eqn:E; [lia|].
  simpl. rewrite Nat.sub_0_r. f_equal.
  - unfold ring_cell. rewrite Nat.add_0_r, Nat.mod_small by done. done.
  - rewrite <- fmap_S_seq, <- list_fmap_compose. apply list_fmap_ext.
    intros k x _. unfold ring_cell. simpl. by rewrite mod_add_shift.
Qed.

Lemma wf_enqueue r s :
  wf r -> (s < next_slot r)%nat -> occupied (entry_at r s) = false -> s ∉ ring r ->
  wf (enqueue_reusable_unlocked r s) /\
  ring (enqueue_reusable_unlocked r s) = ring r ++ [s].
Proof.
  intros W Hs Ho Hn. pose proof W as [].
  assert (reusable_count r < capacity r)%nat as Hc.
  { enough (S (reusable_count r) <= next_slot r)%nat by lia.
    rewrite <- ring_length. change (length (s :: ring r) <= next_slot r)%nat.
    apply NoDup_bounded_length; [by constructor|].
    intros x Hx. inv Hx; [done|]. by apply wf_ring_free0. }
  pose proof (ring_enqueue r s wf_reusable0 wf_capacity0 Hc) as Hr.
  split; [|done]. constructor; simpl; try done.
  - by rewrite length_insert.
  - rewrite Hr. apply NoDup_app; split_and!; [done| |apply NoDup_singleton].
    intros x Hx Hx'. apply list_elem_of_singleton in Hx' as ->. done.
  - intros x. rewrite Hr, elem_of_app, list_elem_of_singleton.
    intros [Hx | ->]; [by apply wf_ring_free0|done].
Qed.

Lemma remove_eq r i reuse :
  remove_unlocked r i reuse =
    (if reuse
     then enqueue_reusable_unlocked (discard_unlocked r i) (slot (token (entry_at r i)))
     else discard_unlocked r i).
Proof.
  unfold remove_unlocked, discard_unlocked. destruct reuse; [|done].
  simpl. change (entry_at (enqueue_reusable_unlocked r ?s) i) with (entry_at r i).
  by destruct (_ && _).
Qed.

Lemma discard_frame r i :
  next_slot (discard_unlocked r i) = next_slot r /\
  ring (discard_unlocked r i) = ring r /\
  capacity (discard_unlocked r i) = capacity r /\
  next_generation (discard_unlocked r i) = next_generation r /\
  initialized (discard_unlocked r i) = initialized r /\
  entries (discard_unlocked r i) =
    <[i:=mkEntry (tid (entry_at r i)) (token (entry_at r i)) 0 false false false false
           false]> (entries r).
Proof. unfold discard_unlocked. by destruct (_ && _). Qed.

Lemma discard_not_occupied r i j :
  occupied (entry_at (discard_unlocked r i) j) = true ->
  i <> j /\ entry_at (discard_unlocked r i) j = entry_at r j.
Proof.
  unfold entry_at. destruct (discard_frame r i) as (_&_&_&_&_&->). intros Ho.
  destruct (decide (i = j)) as [->|?].
  - exfalso. destruct (decide (j < length (entries r))%nat).
    + by rewrite list_lookup_insert_eq in Ho.
    + by rewrite lookup_ge_None_2 in Ho by (rewrite length_insert; lia).
  - by rewrite list_lookup_insert_ne.
Qed.

Lemma wf_remove r i reuse :
  wf r -> occupied (entry_at r i) = true -> wf (remove_unlocked r i reuse).
Proof.
  intros W Ho. rewrite remove_eq. pose proof (wf_discard r i W Ho) as Wd.
  destruct reuse; [|done].
  destruct (wf_occupied _ W _ _ (entry_at_occupied _ _ Ho) Ho) as (Hlt & -> & _).
  destruct (discard_frame r i) as (Hn & Hr & _).
  apply wf_enqueue; [done|by rewrite Hn| |].
  - destruct (occupied (entry_at (discard_unlocked r i) i)) eqn:E; [|done].
    by apply discard_not_occupied in E as [? _].
  - rewrite Hr. intros Hin. apply (wf_ring_free _ W) in Hin as [_ Hf]. congruence.
Qed.

Lemma wf_take r s r1 :
  wf r -> take_slot r = Some (s, r1) ->
  wf r1 /\ entries r1 = entries r /\ capacity r1 = capacity r /\
  next_generation r1 = next_generation r /\ initialized r1 = initialized r /\
  (s < next_slot r1)%nat /\ (s ∉ ring r1) /\ occupied (entry_at r s) = false.
Proof.
  intros W Ht. pose proof W as []. pose proof (ring_count_le r W).
  unfold take_slot in Ht. destruct (Nat.eqb_spec (reusable_count r) 0) as [E|E];
    simpl in Ht.
  - destruct (Nat.ltb_spec (next_slot r) (capacity r)); [|done]. simplify_eq/=.
    assert (occupied (entry_at r (next_slot r)) = false) as Hfree.
    { destruct (occupied (entry_at r (next_slot r))) eqn:Ho; [|done].
      destruct (wf_occupied0 _ _ (entry_at_occupied _ _ Ho) Ho). lia. }
    split_and!; try done; try lia.
    + constructor; simpl; try done.
      * intros x Hx. destruct (wf_ring_free0 x Hx). split; [lia|done].
      * intros i e He Ho. destruct (wf_occupied0 i e He Ho). split; [lia|done].
    + intros Hin. apply wf_ring_free0 in Hin. lia.
  - simplify_eq/=.
    pose proof (ring_dequeue r ltac:(lia) ltac:(lia) ltac:(lia)) as Hr.
    pose proof wf_ring_nodup0 as Hnd. rewrite Hr in Hnd. apply NoDup_cons in Hnd as [Hn Hnd].
    assert (forall x, x ∈ ring (set_reusable r (reusable r)
        ((reusable_head r + 1) mod capacity r)%nat (reusable_count r - 1)%nat) ->
        x ∈ ring r) as Hsub by (intros x Hx; rewrite Hr; by constructor).
    destruct (wf_ring_free0 (default 0%nat (reusable r !! reusable_head r))) as [Hlt Hf].
    { rewrite Hr. constructor. }
    split_and!; try done. constructor; simpl; try done.
    + right. apply Nat.mod_upper_bound. lia.
    + intros x Hx. by apply wf_ring_free0, Hsub.
Qed.

Lemma advance_generation_range g :
  0 <= g <= UINT64_MAX ->
  0 < advance_generation g <= UINT64_MAX /\
  (g < UINT64_MAX -> advance_generation g = g + 1).
Proof.
  unfold advance_generation, wrap, UINT64_MAX. intros Hg.
  destruct (decide (g = 2 ^ 64 - 1)) as [->|?]; [split; [by vm_compute|lia]|].
  rewrite (Z.mod_small (g + 1)) by lia.
  destruct (Z.eqb_spec (g + 1) 0); [lia|]. lia.
Qed.

Lemma wf_insert r s t :
  wf r -> (s < next_slot r)%nat -> s ∉ ring r -> occupied (entry_at r s) = false ->
  (forall i e, entries r !! i = Some e -> occupied e = true -> tid e <> t) ->
  wf (insert_unlocked r s t).1.
Proof.
  intros W Hs Hn Hf Ht. pose proof W as [].
  destruct (advance_generation_range _ wf_generation0) as [Hg _].
  assert (exists e, entries r !! s = Some e) as [e He].
  { apply lookup_lt_is_Some. lia. }
  assert (exit_pending e = false) as Hx.
  { destruct (exit_pending e) eqn:Hx; [|done].
    destruct (wf_pending0 s e He Hx) as [Ho _].
    rewrite (entry_at_Some _ _ _ He) in Hf. congruence. }
  constructor; simpl; try done.
  - by rewrite length_insert.
  - intros x Hx'. destruct (wf_ring_free0 x Hx'). split; [done|].
    change (occupied (entry_at (put_entry r s (mkEntry t (mkToken s
      (advance_generation (next_generation r))) 0 true false false false false)) x) = false).
    rewrite entry_at_put_ne; [done|]. intros ->. done.
  - intros j x Hj Ho. apply lookup_insert_cases in Hj as [(<- & -> & _)|[? Hj]]; eauto.
  - intros a b ea eb Ha Hb Hoa Hob Hab.
    apply lookup_insert_cases in Ha as [(<- & -> & _)|[? Ha]],
      Hb as [(<- & -> & _)|[? Hb]]; simpl in Hab; [done|..|by eapply wf_tid0].
    + by destruct (Ht b eb).
    + by destruct (Ht a ea).
  - intros j x Hj. apply lookup_insert_cases in Hj as [(<- & -> & _)|[? Hj]]; [done|eauto].
  - pose proof (countb_insert exit_pending _ _ _ (mkEntry t (mkToken s
      (advance_generation (next_generation r))) 0 true false false false false) He) as H.
    rewrite Hx in H. simpl in H. lia.
  - lia.
Qed.

(** ** Operations as one step relation *)

Inductive registry_op :=
  | OpReserve (t : Z)
  | OpCompareRemove (t g : Z) (reuse : bool)
  | OpCompareRemoveToken (k : PeakPthreadSlotToken) (reuse : bool)
  | OpBeginRetire (k : PeakPthreadSlotToken)
  | OpCompleteRetire (k : PeakPthreadSlotToken) (reuse : bool)
  | OpDeferRetire (k : PeakPthreadSlotToken)
  | OpMarkKernelTid (k : PeakPthreadSlotToken) (ktid : Z)
  | OpMarkDetached (t g : Z)
  | OpMarkFinalDestructor (k : PeakPthreadSlotToken)
  | OpSnapshotExitPending (budget : nat)
  | OpQuarantine (t : Z).

(** The registry after one call made on a non-null registry pointer. *)
Definition apply_op (o : registry_op) (r : PeakPthreadSlotRegistry)
    : PeakPthreadSlotRegistry :=
  default r
    match o with
    | OpReserve t => (reserve_insert (Some r) t (Some zero_token)).1.2
    | OpCompareRemove t g b => (compare_remove (Some r) t g b).2
    | OpCompareRemoveToken k b => (compare_remove_token (Some r) k b).2
    | OpBeginRetire k => (begin_retire (Some r) k).2
    | OpCompleteRetire k b => (complete_retire (Some r) k b).2
    | OpDeferRetire k => (defer_retire (Some r) k).2
    | OpMarkKernelTid k z => (mark_kernel_tid (Some r) k z).2
    | OpMarkDetached t g => (mark_detached (Some r) t g (Some false)).1.2
    | OpMarkFinalDestructor k => (mark_final_destructor (Some r) k (Some false)).1.2
    | OpSnapshotExitPending n => (snapshot_exit_pending (Some r) true n).2
    | OpQuarantine t => (quarantine (Some r) t).2
    end.

Definition run_ops (os : list registry_op) (r : PeakPthreadSlotRegistry) :=
  foldl (fun r o => apply_op o r) r os.

Definition reserves (os : list registry_op) : nat :=
  countb (fun o => match o with OpReserve _ => true | _ => false end) os.

Lemma zero_entry_at i : entry_at zero_registry i = zero_entry.
Proof.
  unfold entry_at, zero_registry, entries.
  destruct (replicate _ _ !! i) eqn:E; [|done]. by apply lookup_replicate in E as [-> _].
Qed.

Lemma wf_init cap :
  (cap <= PEAK_PTHREAD_SLOT_REGISTRY_MAX_CAPACITY)%nat ->
  exists r, init (Some zero_registry) cap true = (true, Some r) /\ wf r /\
            capacity r = cap /\ initialized r = true /\ next_generation r = 0.
Proof.
  intros Hc. unfold init.
  destruct (Nat.ltb_spec PEAK_PTHREAD_SLOT_REGISTRY_MAX_CAPACITY cap); [lia|].
  eexists. split; [done|]. split; [|done].
  assert (forall i e, replicate PEAK_PTHREAD_SLOT_REGISTRY_MAX_CAPACITY zero_entry !! i
            = Some e -> e = zero_entry) as Hz.
  { intros i e He. by apply lookup_replicate in He as [-> _]. }
  constructor; cbn [entries reusable reusable_head reusable_count next_slot capacity
    exit_pending_count max_exit_pending_count next_generation zero_registry]; try done.
  - lia.
  - by left.
  - constructor.
  - intros s Hs. by apply not_elem_of_nil in Hs.
  - intros i e He Ho. by rewrite (Hz i e He) in Ho.
  - intros i j ei ej He _ Ho. by rewrite (Hz i ei He) in Ho.
  - intros i e He Ho. by rewrite (Hz i e He) in Ho.
  - lia.
Qed.

Lemma wf_reserve r t :
  wf r -> exists r', (reserve_insert (Some r) t (Some zero_token)).1.2 = Some r' /\ wf r'.
Proof.
  intros W. unfold reserve_insert. destruct (initialized r); simpl; [|eauto].
  assert (forall r, wf r -> wf (discard_opt r (find_unlocked r t))) as Wd.
  { intros q Wq. unfold discard_opt. destruct (find_unlocked q t) eqn:E; [|done].
    apply find_unlocked_Some in E as (_ & _ & Ho & _). by apply wf_discard. }
  destruct (take_slot r) as [[s r1]|] eqn:Et; simpl; [|eauto].
  destruct (wf_take _ _ _ W Et) as (W1 & He & Hcap & _ & _ & Hs & Hn & Hf).
  assert (find_unlocked r t = find_unlocked r1 t) as Hfind.
  { unfold find_unlocked. by rewrite He, Hcap. }
  eexists. split; [done|]. rewrite Hfind. unfold discard_opt.
  destruct (find_unlocked r1 t) as [i|] eqn:Ei.
  - pose proof (find_unlocked_Some _ _ _ Ei) as (_ & Hi & Ho & Hti).
    destruct (discard_frame r1 i) as (En & Er & _ & _ & _ & Ee).
    apply wf_insert; [by apply wf_discard|by rewrite En|by rewrite Er| |].
    + destruct (occupied (entry_at (discard_unlocked r1 i) s)) eqn:E; [|done].
      apply discard_not_occupied in E as E'. destruct E' as [_ E'].
      rewrite E' in E. unfold entry_at in *. rewrite He in E. congruence.
    + rewrite Ee. intros j e Hj Hoj Htj.
      apply lookup_insert_cases in Hj as [(<- & -> & _)|[Hne Hj]]; [done|].
      apply Hne. eapply (wf_tid _ W1); eauto. congruence.
  - apply wf_insert; try done.
    + unfold entry_at in *. by rewrite He.
    + intros i e Hi Ho. apply (find_unlocked_None r1 t i e); try done.
      destruct (wf_occupied _ W1 i e Hi Ho). pose proof (wf_next _ W1). lia.
Qed.

(** A located entry is occupied: what the two lookups promise the operations. *)
Lemma find_occupied r t i :
  find_unlocked r t = Some i -> occupied (entry_at r i) = true.
Proof. intros H. by apply find_unlocked_Some in H as (_ & _ & ? & _). Qed.

Lemma find_token_occupied r k i :
  find_token_unlocked r k = Some i -> occupied (entry_at r i) = true.
Proof. intros H. by apply find_token_Some in H as (-> & _ & ? & _). Qed.

#[export] Hint Resolve find_occupied find_token_occupied wf_remove wf_discard
  wf_pending_at entry_at_occupied : peak.

Lemma wf_mark r i e' :
  wf r -> occupied (entry_at r i) = true -> occupied e' = true ->
  tid e' = tid (entry_at r i) -> token e' = token (entry_at r i) ->
  exit_pending e' = exit_pending (entry_at r i) -> pending_ok e' ->
  wf (update_exit_pending_unlocked (put_entry r i e') i).1.
Proof.
  intros W Ho Ho' Ht Hk Hx Hp. apply wf_update.
  - by apply wf_put_flag.
  - rewrite (entry_at_put_eq _ _ _ _ (entry_at_occupied _ _ Ho)). done.
Qed.

Lemma wf_cursor r x : wf r -> wf (set_reclaim_cursor r x).
Proof. intros []. by constructor. Qed.

Lemma wf_apply_op o r : wf r -> wf (apply_op o r).
Proof.
  intros W. destruct o; unfold apply_op;
    [destruct (wf_reserve r t W) as (r' & -> & ?); done|..];
    unfold compare_remove, compare_remove_token, begin_retire, complete_retire,
      defer_retire, mark_kernel_tid, mark_detached, mark_final_destructor,
      snapshot_exit_pending, quarantine;
    repeat (branch; try done); simpl; eauto with peak; try (by apply wf_cursor).
  all: try (apply wf_put_flag; simpl; eauto with peak; apply (wf_pending_at r);
            eauto with peak).
  all: match goal with
    | H : update_exit_pending_unlocked (put_entry ?r ?i ?e) _ = (?q, _) |- wf ?q =>
        pose proof (wf_mark r i e W ltac:(eauto with peak)) as Hm; rewrite H in Hm;
        apply Hm; simpl; eauto with peak; intros Hx;
        destruct (wf_pending_at r i W ltac:(eauto with peak) Hx) as (?&?&?&?)
    end; simpl; breflect; done.
Qed.

Lemma wf_run_ops os r : wf r -> wf (run_ops os r).
Proof.
  revert r. induction os as [|o os IH]; intros r W; [done|].
  apply IH. by apply wf_apply_op.
Qed.
