(* ===== verification/SlotAllocator.v ===== *)
(** * The slot registry as an abstract slot allocator

    The contract the pthread listener relies on: a slot is handed out in FIFO
    order from the recycled slots and otherwise from the never-used ones, a
    thread owns at most one slot, and a token identifies one ownership period.
    The refinement theorem relates every state-changing operation of
    [SlotRegistry] to this contract; the token, retirement and reclaim-scan
    theorems are stated over arbitrary operation sequences. *)

From S2P Require Import Prelude SlotRegistry.

#[local] Arguments discard_unlocked : simpl never.

(** ** The abstract allocator *)

Record allocator := mkAllocator {
  live : gmap nat PeakPthreadSlotRegistryEntry;
  free : list nat;
  fresh : nat;
  limit : nat;
  last_generation : Z
}.

Definition occupied_entry (e : PeakPthreadSlotRegistryEntry) :=
  if occupied e then Some e else None.

Definition abstract (r : PeakPthreadSlotRegistry) : allocator :=
  mkAllocator (omap occupied_entry (map_seq 0 (entries r) : gmap nat _)) (ring r)
    (next_slot r) (capacity r) (next_generation r).

(** Ends every ownership period of thread [t]. *)
Definition drop_tid (t : Z) (m : gmap nat PeakPthreadSlotRegistryEntry) :=
  filter (fun ie => tid (ie.2) <> t) m.

Definition new_owner (t : Z) (s : nat) (g : Z) :=
  mkEntry t (mkToken s g) 0 true false false false false.

Definition spec_reserve (a : allocator) (t : Z)
    : option PeakPthreadSlotToken * allocator :=
  let g := advance_generation (last_generation a) in
  let m := drop_tid t (live a) in
  match free a with
  | s :: free' =>
      (Some (mkToken s g), mkAllocator (<[s:=new_owner t s g]> m) free' (fresh a) (limit a) g)
  | [] =>
      if (fresh a <? limit a)%nat
      then (Some (mkToken (fresh a) g),
            mkAllocator (<[fresh a:=new_owner t (fresh a) g]> m) [] (S (fresh a)) (limit a) g)
      else (None, mkAllocator m [] (fresh a) (limit a) (last_generation a))
  end.

(** Ends the ownership period of slot [s], recycling it or retiring it for good. *)
Definition spec_release (a : allocator) (s : nat) (reuse : bool) : allocator :=
  mkAllocator (delete s (live a)) (if reuse then free a ++ [s] else free a)
    (fresh a) (limit a) (last_generation a).

Definition spec_owner (a : allocator) (k : PeakPthreadSlotToken)
    : option PeakPthreadSlotRegistryEntry :=
  match live a !! slot k with
  | Some e => if generation (token e) =? generation k then Some e else None
  | None => None
  end.

Definition spec_complete_retire (a : allocator) (k : PeakPthreadSlotToken)
    (reuse : bool) : bool * allocator :=
  match spec_owner a k with
  | Some e => if retiring e then (true, spec_release a (slot k) reuse) else (false, a)
  | None => (false, a)
  end.

Definition spec_remove_token (a : allocator) (k : PeakPthreadSlotToken)
    (reuse : bool) : bool * allocator :=
  match spec_owner a k with
  | Some e => if retiring e then (false, a) else (true, spec_release a (slot k) reuse)
  | None => (false, a)
  end.

(** Whether thread [t] owns a slot. *)
Definition owns (t : Z) (m : gmap nat PeakPthreadSlotRegistryEntry) : bool :=
  negb (size (filter (fun ie => tid (ie.2) = t) m) =? 0)%nat.
Definition spec_quarantine (a : allocator) (t : Z) : bool * allocator :=
  (owns t (live a), mkAllocator (drop_tid t (live a)) (free a) (fresh a) (limit a) (last_generation a)).

(** ** The abstraction function *)

Lemma live_lookup r i :
  live (abstract r) !! i = (entries r !! i) ≫= occupied_entry.
Proof. simpl. by rewrite lookup_omap, lookup_map_seq_0. Qed.

Lemma live_lookup_at r i :
  live (abstract r) !! i =
    if occupied (entry_at r i) then Some (entry_at r i) else None.
Proof.
  rewrite live_lookup. unfold entry_at, occupied_entry.
  by destruct (entries r !! i) as [e|].
Qed.

Lemma live_entry_eq r r' :
  (forall i, occupied (entry_at r' i) = occupied (entry_at r i) /\
             (occupied (entry_at r i) = true -> entry_at r' i = entry_at r i)) ->
  live (abstract r') = live (abstract r).
Proof.
  intros H. apply map_eq. intros i. rewrite !live_lookup_at.
  destruct (H i) as [-> He]. destruct (occupied (entry_at r i)); [|done].
  by rewrite He.
Qed.

Lemma live_discard r i :
  live (abstract (discard_unlocked r i)) = delete i (live (abstract r)).
Proof.
  apply map_eq. intros j. rewrite lookup_delete.
  destruct (discard_frame r i) as (_&_&_&_&_&He).
  rewrite !live_lookup, He. case_decide as Hij; [subst j|by rewrite list_lookup_insert_ne].
  destruct (decide (i < length (entries r))%nat).
  - by rewrite list_lookup_insert_eq.
  - by rewrite lookup_ge_None_2 by (rewrite length_insert; lia).
Qed.

Lemma abstract_discard r i :
  abstract (discard_unlocked r i) = spec_release (abstract r) i false.
Proof.
  pose proof (live_discard r i) as Hl.
  destruct (discard_frame r i) as (H1&H2&H3&H4&_).
  unfold spec_release, abstract in *. simpl in *. by rewrite Hl, H1, H2, H3, H4.
Qed.

Lemma abstract_remove r i reuse :
  wf r -> occupied (entry_at r i) = true ->
  abstract (remove_unlocked r i reuse) = spec_release (abstract r) i reuse.
Proof.
  intros W Ho. rewrite remove_eq.
  destruct (wf_occupied _ W _ _ (entry_at_occupied _ _ Ho) Ho) as (Hlt & Hslot & _).
  rewrite Hslot. destruct reuse; [|apply abstract_discard].
  pose proof (wf_discard r i W Ho) as Wd. destruct (discard_frame r i) as (Hn & Hr & _).
  destruct (wf_enqueue (discard_unlocked r i) i Wd) as [_ Hring].
  { by rewrite Hn. }
  { destruct (occupied (entry_at (discard_unlocked r i) i)) eqn:E; [|done].
    by apply discard_not_occupied in E as [? _]. }
  { rewrite Hr. intros Hin. apply (wf_ring_free _ W) in Hin as [_ Hf]. congruence. }
  pose proof (live_discard r i) as Hl. destruct (discard_frame r i) as (H1&H2&H3&H4&_).
  unfold spec_release, abstract in *. simpl in *. by rewrite Hring, Hl, H1, H2, H3, H4.
Qed.

Lemma drop_tid_discard r t :
  wf r -> live (abstract (discard_opt r (find_unlocked r t))) =
          drop_tid t (live (abstract r)).
Proof.
  intros W. apply map_eq. intros j. unfold drop_tid. rewrite map_lookup_filter.
  assert (forall e, live (abstract r) !! j = Some e ->
            entries r !! j = Some e /\ occupied e = true) as Hlive.
  { intros e. rewrite live_lookup. unfold occupied_entry.
    destruct (entries r !! j) as [x|]; [|done]. simpl.
    destruct (occupied x) eqn:?; [|done]. intros. by simplify_eq. }
  unfold discard_opt. destruct (find_unlocked r t) as [i|] eqn:Ei.
  - rewrite live_discard, lookup_delete.
    apply find_unlocked_Some in Ei as (_ & Hi & Ho & Ht).
    case_decide as Hij; [subst j|].
    + destruct (live (abstract r) !! i) as [e|] eqn:El; [|done].
      destruct (Hlive e eq_refl) as [He _]. rewrite Hi in He. simplify_eq.
      simpl. by rewrite option_guard_False by (intros ?; done).
    + destruct (live (abstract r) !! j) as [e|] eqn:El; [|done]. simpl.
      rewrite option_guard_True; [done|]. intros Hte. apply Hij.
      destruct (Hlive e eq_refl) as [He Hoe]. eapply (wf_tid _ W); eauto. simpl in Hte. congruence.
  - destruct (live (abstract r) !! j) as [e|] eqn:El; [|done]. simpl.
    rewrite option_guard_True; [done|]. destruct (Hlive e eq_refl) as [He Hoe].
    apply (find_unlocked_None r t j e); try done.
    destruct (wf_occupied _ W j e He Hoe). pose proof (wf_next _ W). lia.
Qed.

Lemma find_unlocked_owns r t :
  wf r -> owns t (live (abstract r)) = bool_decide (is_Some (find_unlocked r t)).
Proof.
  intros W. unfold owns. destruct (find_unlocked r t) as [i|] eqn:Ei.
  - rewrite bool_decide_true by done. apply negb_true_iff, Nat.eqb_neq. intros E%map_size_empty_iff.
    apply find_unlocked_Some in Ei as (_ & Hi & Ho & Ht).
    assert (filter (fun ie => tid (ie.2) = t) (live (abstract r)) !! i = Some (entry_at r i)) as Hl.
    { apply map_lookup_filter_Some. split; [|done]. rewrite live_lookup, Hi. cbn. unfold occupied_entry. by rewrite Ho. }
    by rewrite E in Hl.
  - rewrite bool_decide_false by (by intros [? [=]]). apply negb_false_iff, Nat.eqb_eq, map_size_empty_iff.
    apply map_empty. intros j. apply map_lookup_filter_None. right. intros e Hj. cbn. rewrite live_lookup in Hj. unfold occupied_entry in Hj.
    destruct (entries r !! j) as [x|] eqn:He; [|done]. cbn in Hj. destruct (occupied x) eqn:Ho; [|done].
    injection Hj as <-. apply (find_unlocked_None r t j x); try done.
    destruct (wf_occupied _ W j x He Ho). pose proof (wf_next _ W). lia.
Qed.

Lemma live_insert r s t :
  (s < length (entries r))%nat ->
  live (abstract (insert_unlocked r s t).1) =
    <[s:=new_owner t s (advance_generation (next_generation r))]> (live (abstract r)).
Proof.
  intros Hs. apply map_eq. intros j. rewrite lookup_insert, !live_lookup. simpl.
  case_decide as Hj; [subst j; by rewrite list_lookup_insert_eq|].
  by rewrite list_lookup_insert_ne.
Qed.

Lemma take_slot_ring r :
  wf r ->
  match take_slot r with
  | Some (s, r1) =>
      (ring r = s :: ring r1 /\ next_slot r1 = next_slot r) \/
      (ring r = [] /\ ring r1 = [] /\ s = next_slot r /\ next_slot r1 = S (next_slot r) /\
       (next_slot r < capacity r)%nat)
  | None => ring r = [] /\ next_slot r = capacity r
  end.
Proof.
  intros W. pose proof (ring_count_le r W). pose proof (wf_next _ W).
  pose proof (wf_head _ W). unfold take_slot.
  destruct (Nat.eqb_spec (reusable_count r) 0) as [E|E]; simpl.
  - assert (ring r = []) as Hr by (unfold ring; by rewrite E).
    destruct (Nat.ltb_spec (next_slot r) (capacity r)); simpl.
    + by right.
    + split; [done|lia].
  - left. split; [|done]. apply ring_dequeue; lia.
Qed.

(** What [reserve_insert] does to the allocator, on every branch. *)
Lemma abstract_reserve r t :
  wf r -> initialized r = true ->
  exists r',
    reserve_insert (Some r) t (Some zero_token) =
      (bool_decide (is_Some (spec_reserve (abstract r) t).1), Some r',
       Some (default zero_token (spec_reserve (abstract r) t).1)) /\
    abstract r' = (spec_reserve (abstract r) t).2 /\ initialized r' = true.
Proof.
  intros W Hi. unfold reserve_insert. rewrite Hi. simpl.
  pose proof (take_slot_ring r W) as Ht.
  pose proof (drop_tid_discard r t W) as Hd.
  destruct (take_slot r) as [[s r1]|] eqn:Et.
  - destruct (wf_take r s r1 W Et) as (W1 & He & Hcap & Hg & Hinit & Hs & _ & _).
    assert (find_unlocked r t = find_unlocked r1 t) as Hf
      by (unfold find_unlocked; by rewrite He, Hcap).
    assert (live (abstract r1) = live (abstract r)) as Hl1
      by (unfold abstract; simpl; by rewrite He).
    pose proof (drop_tid_discard r1 t W1) as Hd1. rewrite Hl1, <- Hf in Hd1.
    set (r2 := discard_opt r1 (find_unlocked r t)) in *.
    assert (ring r2 = ring r1 /\ next_slot r2 = next_slot r1 /\ capacity r2 = capacity r1 /\
            next_generation r2 = next_generation r1 /\ initialized r2 = initialized r1 /\
            length (entries r2) = length (entries r1)) as (R1&R2&R3&R4&R5&R6).
    { subst r2. unfold discard_opt. destruct (find_unlocked r t) as [i|]; [|done].
      destruct (discard_frame r1 i) as (->&->&->&->&->&->). by rewrite length_insert. }
    pose proof (live_insert r2 s t) as Hins.
    rewrite R6, He, (wf_entries _ W) in Hins.
    specialize (Hins ltac:(pose proof (wf_next _ W1); pose proof (wf_capacity _ W1); lia)).
    rewrite Hd1, R4, Hg in Hins.
    exists (insert_unlocked r2 s t).1. unfold spec_reserve. simpl in *.
    destruct Ht as [[Hr Hn]|(Hr & Hr1 & -> & Hn & Hlt)]; rewrite Hr; simpl.
    + split_and!; [by rewrite R4, Hg| |by rewrite R5, Hinit].
      unfold abstract in *. simpl in *. rewrite Hins.
      change (ring (put_entry (set_next_generation r2 ?g) s ?e)) with (ring r2).
      by rewrite R1, R2, R3, R4, Hg, Hcap, Hn.
    + destruct (Nat.ltb_spec (next_slot r) (capacity r)); [|lia]. simpl.
      split_and!; [by rewrite R4, Hg| |by rewrite R5, Hinit].
      unfold abstract in *. simpl in *. rewrite Hins.
      change (ring (put_entry (set_next_generation r2 ?g) ?s ?e)) with (ring r2).
      by rewrite R1, R2, R3, R4, Hg, Hcap, Hn, Hr1.
  - destruct Ht as [Hr Hn]. exists (discard_opt r (find_unlocked r t)).
    unfold spec_reserve. simpl. rewrite Hr. destruct (Nat.ltb_spec (next_slot r) (capacity r));
      [lia|]. simpl in *. split_and!; [done| |].
    + unfold abstract in *. simpl in *. rewrite Hd. unfold discard_opt.
      destruct (find_unlocked r t) as [i|]; [|by rewrite Hr].
      destruct (discard_frame r i) as (->&->&->&->&_). by rewrite Hr.
    + unfold discard_opt. destruct (find_unlocked r t) as [i|]; [|done].
      by destruct (discard_frame r i) as (_&_&_&_&->&_).
Qed.

Lemma find_token_owner r k :
  wf r ->
  match find_token_unlocked r k with
  | Some i => i = slot k /\ occupied (entry_at r i) = true /\
              spec_owner (abstract r) k = Some (entry_at r i)
  | None => spec_owner (abstract r) k = None
  end.
Proof.
  intros W. unfold spec_owner. rewrite live_lookup_at.
  destruct (find_token_unlocked r k) as [i|] eqn:E.
  - apply find_token_Some in E as (-> & _ & Ho & Hg). by rewrite Ho, Hg, Z.eqb_refl.
  - destruct (occupied (entry_at r (slot k))) eqn:Ho; [|done].
    destruct (Z.eqb_spec (generation (token (entry_at r (slot k)))) (generation k)) as [Hg|];
      [|done].
    assert (find_token_unlocked r k = Some (slot k)); [|congruence].
    apply find_token_Some. split_and!; try done. by eapply wf_occupied_lt.
Qed.

(** ** Tokens over operation sequences *)

(** [r'] has no owner that [r] does not have, and allocated nothing. *)
Record no_new_owner (r r' : PeakPthreadSlotRegistry) : Prop := {
  nno_capacity : capacity r' = capacity r;
  nno_generation : next_generation r' = next_generation r;
  nno_initialized : initialized r' = initialized r;
  nno_owner : forall i, occupied (entry_at r' i) = true ->
    occupied (entry_at r i) = true /\ token (entry_at r' i) = token (entry_at r i)
}.

#[export] Instance no_new_owner_preorder : PreOrder no_new_owner.
Proof.
  split.
  - intros r. by constructor.
  - intros r1 r2 r3 [A1 A2 A3 A4] [B1 B2 B3 B4]. constructor; try congruence.
    intros i Hi. destruct (B4 i Hi) as [Ho ->]. by apply A4.
Qed.

Lemma no_new_owner_put r i e' :
  occupied (entry_at r i) = true -> token e' = token (entry_at r i) ->
  no_new_owner r (put_entry r i e').
Proof.
  intros Ho Hk. constructor; try done. intros j Hj.
  destruct (decide (i = j)) as [<-|?]; [|by rewrite entry_at_put_ne in * by done].
  by rewrite (entry_at_put_eq _ _ _ _ (entry_at_occupied _ _ Ho)).
Qed.

Lemma no_new_owner_discard r i : no_new_owner r (discard_unlocked r i).
Proof.
  destruct (discard_frame r i) as (_&_&?&?&?&_). constructor; try done.
  intros j Hj. pose proof (discard_not_occupied r i j Hj) as [_ He]. by rewrite He in *.
Qed.

Lemma no_new_owner_remove r i reuse : no_new_owner r (remove_unlocked r i reuse).
Proof.
  rewrite remove_eq. destruct reuse; [|apply no_new_owner_discard].
  destruct (no_new_owner_discard r i). by constructor.
Qed.

Lemma no_new_owner_update r i :
  occupied (entry_at r i) = true ->
  no_new_owner r (update_exit_pending_unlocked r i).1.
Proof.
  intros Ho. unfold update_exit_pending_unlocked. branch; [done|].
  destruct (no_new_owner_put r i (set_entry_exit_pending (entry_at r i) true)); try done.
Qed.

Lemma no_new_owner_mark r i e' r2 b :
  occupied (entry_at r i) = true -> occupied e' = true ->
  token e' = token (entry_at r i) ->
  update_exit_pending_unlocked (put_entry r i e') i = (r2, b) -> no_new_owner r r2.
Proof.
  intros Ho Ho' Hk Hu. transitivity (put_entry r i e'); [by apply no_new_owner_put|].
  pose proof (no_new_owner_update (put_entry r i e') i) as H.
  rewrite (entry_at_put_eq _ _ _ _ (entry_at_occupied _ _ Ho)), Hu in H. by apply H.
Qed.

#[export] Hint Resolve no_new_owner_put no_new_owner_discard no_new_owner_remove : peak.

Lemma classic_reserve o :
  (exists t, o = OpReserve t) \/ (forall t, o <> OpReserve t).
Proof. destruct o; eauto. Qed.

Lemma no_new_owner_apply_op o r :
  (forall t, o <> OpReserve t) -> no_new_owner r (apply_op o r).
Proof.
  intros Hno. destruct o; unfold apply_op; [by destruct (Hno t)|..];
    unfold compare_remove, compare_remove_token, begin_retire, complete_retire,
      defer_retire, mark_kernel_tid, mark_detached, mark_final_destructor,
      snapshot_exit_pending, quarantine;
    repeat (branch; try done); simpl; eauto with peak.
  all: eapply no_new_owner_mark; [..|eassumption]; simpl; eauto with peak.
Qed.

Lemma initialized_apply_op o r : initialized (apply_op o r) = initialized r.
Proof.
  destruct o as [t| | | | | | | | | |]; [|apply no_new_owner_apply_op; done..].
  unfold apply_op, reserve_insert. destruct (initialized r) eqn:Hi; [|done].
  assert (forall q old, initialized (discard_opt q old) = initialized q) as Hd.
  { intros q [i|]; [|done]. by destruct (discard_frame q i) as (_&_&_&_&?&_). }
  simpl. destruct (take_slot r) as [[s r1]|] eqn:Et; simpl; rewrite Hd; [|done].
  unfold take_slot in Et. repeat branch_in Et; by simplify_eq.
Qed.

(** A reservation leaves the owners of other slots alone and stamps the new
    owner with the advanced generation. *)
Lemma reserve_owner r t k e :
  wf r -> initialized r = true ->
  spec_owner (abstract (apply_op (OpReserve t) r)) k = Some e ->
  spec_owner (abstract r) k = Some e \/
  (generation k = advance_generation (next_generation r) /\
   next_generation (apply_op (OpReserve t) r) = generation k).
Proof.
  intros W Hi. destruct (abstract_reserve r t W Hi) as (r' & E & Ha & _).
  unfold apply_op. rewrite E. simpl.
  change (next_generation r') with (last_generation (abstract r')).
  rewrite Ha. unfold spec_owner, spec_reserve.
  intros H.
  assert (forall m s g, match <[s:=new_owner t s g]> (drop_tid t m) !! slot k with
     | Some e => if generation (token e) =? generation k then Some e else None
     | None => None end = Some e ->
     (m !! slot k = Some e /\ generation (token e) = generation k) \/ generation k = g)
    as Hins.
  { intros m s g. rewrite lookup_insert. case_decide.
    - simpl. destruct (Z.eqb_spec g (generation k)); [by right|done].
    - unfold drop_tid. rewrite map_lookup_filter.
      destruct (m !! slot k) as [x|]; [|done]. simpl. case_guard; simpl; [|done].
      destruct (Z.eqb_spec (generation (token x)) (generation k)); [|done].
      intros. simplify_eq. auto. }
  assert (forall m, match drop_tid t m !! slot k with
     | Some e => if generation (token e) =? generation k then Some e else None
     | None => None end = Some e ->
     m !! slot k = Some e /\ generation (token e) = generation k) as Hdrop.
  { intros m. unfold drop_tid. rewrite map_lookup_filter.
    destruct (m !! slot k) as [x|]; [|done]. simpl. case_guard; simpl; [|done].
    destruct (Z.eqb_spec (generation (token x)) (generation k)); [|done].
    intros. by simplify_eq. }
  assert (forall e', live (abstract r) !! slot k = Some e' /\
     generation (token e') = generation k -> e' = e ->
     match live (abstract r) !! slot k with
     | Some e => if generation (token e) =? generation k then Some e else None
     | None => None end = Some e) as Hgoal.
  { intros e' [-> Hg] ->. by rewrite Hg, Z.eqb_refl. }
  destruct (free (abstract r)); [destruct (_ <? _)%nat|]; simpl in *.
  - apply Hins in H as [H|H]; [left; by eapply Hgoal|by right].
  - left. apply Hdrop in H. by eapply Hgoal.
  - apply Hins in H as [H|H]; [left; by eapply Hgoal|by right].
Qed.

Lemma generation_apply_op o r :
  wf r -> initialized r = true ->
  next_generation (apply_op o r) = next_generation r \/
  ((exists t, o = OpReserve t) /\
   next_generation (apply_op o r) = advance_generation (next_generation r)).
Proof.
  intros W Hi. destruct o as [t| | | | | | | | | |];
    [|left; apply no_new_owner_apply_op; done..].
  destruct (abstract_reserve r t W Hi) as (r' & E & Ha & _).
  unfold apply_op. rewrite E. simpl.
  change (next_generation r') with (last_generation (abstract r')). rewrite Ha.
  unfold spec_reserve. destruct (free (abstract r)); [destruct (_ <? _)%nat|]; simpl; eauto.
Qed.

Definition token_dead (r : PeakPthreadSlotRegistry) (k : PeakPthreadSlotToken) : Prop :=
  find_token_unlocked r k = None.

Lemma dead_apply_op o r k :
  wf r -> initialized r = true -> token_dead r k ->
  generation k <= next_generation r ->
  next_generation r + Z.of_nat (reserves [o]) <= UINT64_MAX ->
  token_dead (apply_op o r) k.
Proof.
  intros W Hi Hd Hk Hg. unfold token_dead in *.
  pose proof (find_token_owner r k W) as Hr. rewrite Hd in Hr.
  pose proof (find_token_owner (apply_op o r) k (wf_apply_op o r W)) as Hr'.
  destruct (find_token_unlocked (apply_op o r) k) as [i|] eqn:E; [|done].
  exfalso. destruct Hr' as (-> & Ho & Hown).
  destruct (classic_reserve o) as [[t ->]|Hne].
  - apply reserve_owner in Hown as [Hown|[Hown _]]; [congruence| |done|done].
    destruct (advance_generation_range (next_generation r)) as [_ Hadv];
      [apply W|]. change (reserves [OpReserve t]) with 1%nat in Hg. rewrite Hadv in Hown by lia. lia.
  - destruct (no_new_owner_apply_op o r Hne) as [Hc _ _ Hown'].
    destruct (Hown' _ Ho) as [Ho' Hk'].
    assert (find_token_unlocked r k = Some (slot k)); [|congruence].
    apply find_token_Some. apply find_token_Some in E as (_ & ? & _ & Hgen).
    split_and!; try done; congruence.
Qed.

Lemma reserves_cons o os : reserves (o :: os) = (reserves [o] + reserves os)%nat.
Proof. unfold reserves. simpl. lia. Qed.

Lemma generation_step o r :
  wf r -> initialized r = true ->
  next_generation r + Z.of_nat (reserves [o]) <= UINT64_MAX ->
  next_generation r <= next_generation (apply_op o r)
    <= next_generation r + Z.of_nat (reserves [o]).
Proof.
  intros W Hi Hb. destruct (generation_apply_op o r W Hi) as [->|[[t ->] ->]]; [lia|].
  change (reserves [OpReserve t]) with 1%nat in *.
  destruct (advance_generation_range (next_generation r)) as [_ H];
    [apply W|]. rewrite H by lia. lia.
Qed.

(** No owner carries a generation that was not issued yet. *)
Definition owners_issued (r : PeakPthreadSlotRegistry) : Prop :=
  forall k e, spec_owner (abstract r) k = Some e -> generation k <= next_generation r.

Lemma owners_issued_step o r :
  wf r -> initialized r = true ->
  next_generation r + Z.of_nat (reserves [o]) <= UINT64_MAX ->
  owners_issued r -> owners_issued (apply_op o r).
Proof.
  intros W Hi Hb Hk k e He. pose proof (generation_step o r W Hi Hb) as Hg.
  destruct (classic_reserve o) as [[t ->]|Hne].
  - apply reserve_owner in He as [He|[_ He]]; try done; [|lia].
    apply Hk in He. lia.
  - destruct (no_new_owner_apply_op o r Hne) as [Hc Hgen _ Hown]. rewrite Hgen.
    apply (Hk k (entry_at r (slot k))). unfold spec_owner in *.
    rewrite live_lookup_at in *.
    destruct (occupied (entry_at (apply_op o r) (slot k))) eqn:Ho; [|done].
    destruct (Hown _ Ho) as [-> Ht]. rewrite Ht in He. by destruct (_ =? _).
Qed.

Lemma run_reachable os r :
  wf r -> initialized r = true -> owners_issued r ->
  next_generation r + Z.of_nat (reserves os) <= UINT64_MAX ->
  wf (run_ops os r) /\ initialized (run_ops os r) = true /\ owners_issued (run_ops os r) /\
  next_generation (run_ops os r) <= next_generation r + Z.of_nat (reserves os).
Proof.
  revert r. induction os as [|o os IH]; intros r W Hi Hk Hb.
  - split_and!; try done. simpl. lia.
  - rewrite reserves_cons in *. pose proof (generation_step o r W Hi ltac:(lia)).
    destruct (IH (apply_op o r)) as (?&?&?&?); auto using wf_apply_op.
    + by rewrite initialized_apply_op.
    + apply owners_issued_step; try done. lia.
    + lia.
    + split_and!; try done. simpl. lia.
Qed.

Lemma dead_run os r k :
  wf r -> initialized r = true -> token_dead r k -> generation k <= next_generation r ->
  next_generation r + Z.of_nat (reserves os) <= UINT64_MAX ->
  token_dead (run_ops os r) k /\ initialized (run_ops os r) = true.
Proof.
  revert r. induction os as [|o os IH]; intros r W Hi Hd Hk Hb; [done|].
  rewrite reserves_cons in Hb. pose proof (generation_step o r W Hi ltac:(lia)).
  apply IH; auto using wf_apply_op.
  - by rewrite initialized_apply_op.
  - apply dead_apply_op; try done. lia.
  - lia.
  - lia.
Qed.

Lemma owners_issued_initial cap :
  (cap <= PEAK_PTHREAD_SLOT_REGISTRY_MAX_CAPACITY)%nat ->
  forall r, init (Some zero_registry) cap true = (true, Some r) -> owners_issued r.
Proof.
  intros Hc r Hr k e. unfold spec_owner. rewrite live_lookup_at.
  unfold init in Hr. destruct (_ <? _)%nat; [done|]. injection Hr as <-.
  match goal with |- context [entry_at ?q ?i] =>
    change (entry_at q i) with (entry_at zero_registry i) end.
  by rewrite zero_entry_at.
Qed.

(** ** Lookups by thread, retirement and the reclaim scan *)

Lemma find_unlocked_live r t i :
  wf r ->
  find_unlocked r t = Some i <-> exists e, live (abstract r) !! i = Some e /\ tid e = t.
Proof.
  intros W. split.
  - intros (_ & He & Ho & Ht)%find_unlocked_Some. exists (entry_at r i).
    by rewrite live_lookup_at, Ho.
  - intros (e & He & Ht). rewrite live_lookup_at in He.
    destruct (occupied (entry_at r i)) eqn:Ho; [|done]. simplify_eq.
    pose proof (wf_occupied_lt r i W Ho).
    destruct (find_unlocked r (tid (entry_at r i))) as [j|] eqn:E.
    + apply find_unlocked_Some in E as (_ & Hj & Hoj & Htj). f_equal.
      eapply (wf_tid _ W); eauto with peak.
    + by destruct (find_unlocked_None r _ i (entry_at r i) E H (entry_at_occupied _ _ Ho) Ho).
Qed.

Lemma capture_live r t z :
  wf r -> initialized r = true ->
  capture (Some r) t (Some z) =
    match find_unlocked r t ≫= fun i => live (abstract r) !! i with
    | Some e => if retiring e then (false, Some z) else (true, Some (token e))
    | None => (false, Some z)
    end.
Proof.
  intros W Hi. unfold capture. rewrite Hi. simpl.
  destruct (find_unlocked r t) as [i|] eqn:E; [|done]. simpl.
  apply find_unlocked_Some in E as (_ & _ & Ho & _).
  change (omap occupied_entry (map_seq 0 (entries r)) !! i) with (live (abstract r) !! i).
  rewrite live_lookup_at, Ho. by destruct (retiring (entry_at r i)).
Qed.

(** What a reservation leaves visible to lookups by thread. *)
Lemma capture_reserve r r' s t t' z g :
  wf r -> wf r' -> initialized r = true -> initialized r' = true ->
  live (abstract r') = <[s:=new_owner t s g]> (drop_tid t (live (abstract r))) ->
  live (abstract r) !! s = None ->
  capture (Some r') t' (Some z) =
    if decide (t' = t) then (true, Some (mkToken s g))
    else capture (Some r) t' (Some z).
Proof.
  intros W W' Hi Hi' Hl Hs. rewrite !capture_live by done. rewrite Hl.
  assert (forall i, <[s:=new_owner t s g]> (drop_tid t (live (abstract r))) !! i =
    if decide (s = i) then Some (new_owner t s g) else drop_tid t (live (abstract r)) !! i)
    as Hlook by (intros i; by rewrite lookup_insert).
  case_decide as Ht.
  - subst t'. assert (find_unlocked r' t = Some s) as ->; [|simpl; by rewrite lookup_insert_eq].
    apply find_unlocked_live; [done|]. exists (new_owner t s g).
    by rewrite Hl, lookup_insert_eq.
  - assert (find_unlocked r' t' = find_unlocked r t') as ->.
    { apply option_eq. intros i. rewrite !find_unlocked_live by done. rewrite Hl, Hlook.
      unfold drop_tid. split.
      - intros (e & He & <-). case_decide; [by simplify_eq/=|].
        apply map_lookup_filter_Some in He as [He _]. eauto.
      - intros (e & He & <-). exists e. case_decide as Hsi; [subst; congruence|].
        split; [|done]. by apply map_lookup_filter_Some. }
    destruct (find_unlocked r t') as [i|] eqn:E; [|done]. cbn -[abstract].
    apply find_unlocked_live in E as (e & He & Hte); [|done].
    rewrite Hlook. case_decide as Hsi; [subst; congruence|].
    unfold drop_tid. rewrite He.
    assert (filter (fun ie => tid ie.2 <> t) (live (abstract r)) !! i = Some e) as ->;
      [|done].
    apply map_lookup_filter_Some. split; [done|]. simpl. congruence.
Qed.

Definition reported (e : PeakPthreadSlotRegistryEntry) : bool :=
  occupied e && exit_pending e && negb (retiring e).

Lemma scan_window r fuel j k :
  (j <= k < j + fuel)%nat ->
  reported (entry_at r ((reclaim_cursor r + k) mod capacity r)%nat) = true ->
  let e := entry_at r ((reclaim_cursor r + k) mod capacity r)%nat in
  mkCandidate (token e) (kernel_tid e) ∈ scan_exit_pending r fuel j.
Proof.
  revert j. induction fuel as [|fuel IH]; intros j Hk Hr; [lia|]. simpl.
  destruct (decide (j = k)) as [->|?].
  - unfold reported in Hr. rewrite Hr. constructor.
  - specialize (IH (S j) ltac:(lia) Hr). destruct (_ && _); [by constructor|done].
Qed.

(** [n] consecutive reclaim scans with the same budget. *)
Fixpoint scan_rounds (n budget : nat) (r : PeakPthreadSlotRegistry)
    : list PeakPthreadDetachedCandidate :=
  match n with
  | O => []
  | S n =>
      let '(found, _, r') := snapshot_exit_pending (Some r) true budget in
      found ++ scan_rounds n budget (default r r')
  end.

Lemma scan_rounds_window n b r k :
  initialized r = true -> (0 < b)%nat -> (0 < capacity r)%nat ->
  (k < n * Nat.min b (capacity r))%nat ->
  reported (entry_at r ((reclaim_cursor r + k) mod capacity r)%nat) = true ->
  let e := entry_at r ((reclaim_cursor r + k) mod capacity r)%nat in
  mkCandidate (token e) (kernel_tid e) ∈ scan_rounds n b r.
Proof.
  revert r k. induction n as [|n IH]; intros r k Hi Hb Hcap Hk Hr; [simpl in Hk; lia|].
  cbn [scan_rounds snapshot_exit_pending]. rewrite Hi. simpl.
  destruct (Nat.eqb_spec b 0), (Nat.eqb_spec (capacity r) 0); try lia. simpl.
  set (lim := if (b <? capacity r)%nat then b else capacity r).
  assert (lim = Nat.min b (capacity r)) as Hlim.
  { unfold lim. destruct (Nat.ltb_spec b (capacity r)); lia. }
  rewrite <- Hlim in *. apply elem_of_app.
  destruct (decide (k < lim)%nat).
  - left. apply scan_window; [lia|done].
  - right.
    set (r' := set_reclaim_cursor r ((reclaim_cursor r + lim) mod capacity r)%nat).
    assert ((reclaim_cursor r' + (k - lim)) mod capacity r' =
            (reclaim_cursor r + k) mod capacity r)%nat as Hshift.
    { simpl. rewrite Nat.Div0.add_mod_idemp_l. f_equal. lia. }
    specialize (IH r' (k - lim)%nat). simpl in IH. simpl in Hshift.
    change (entry_at r' ?i) with (entry_at r i) in IH. rewrite Hshift, <- Hlim in IH.
    apply IH; try done. lia.
Qed.

(** ** Properties *)

Definition initial (cap : nat) : PeakPthreadSlotRegistry :=
  default zero_registry (init (Some zero_registry) cap true).2.

Lemma initial_ok cap :
  (cap <= PEAK_PTHREAD_SLOT_REGISTRY_MAX_CAPACITY)%nat ->
  init (Some zero_registry) cap true = (true, Some (initial cap)) /\
  wf (initial cap) /\ capacity (initial cap) = cap /\ initialized (initial cap) = true /\
  next_generation (initial cap) = 0.
Proof.
  intros H. destruct (wf_init cap H) as (r & E & W & ? & ? & ?).
  unfold initial. by rewrite E.
Qed.

Lemma initial_small_wf : wf (initial 3).
Proof. apply initial_ok. unfold PEAK_PTHREAD_SLOT_REGISTRY_MAX_CAPACITY. lia. Qed.

Lemma init_any r cap :
  init (Some r) cap true = init (Some zero_registry) cap true \/
  (init (Some r) cap true).1 = false.
Proof. unfold init. destruct (_ <? _)%nat; auto. Qed.

(** from a successful initialisation, every sequence of registry calls
    keeps the registry well formed: the reusable ring holds distinct,
    unoccupied, previously issued slots, occupied entries own their own index
    with a nonzero generation and distinct threads, and the exit-pending
    counter equals the number of exit-pending entries. *)
Theorem slot_registry_invariant r cap r0 os :
  init (Some r) cap true = (true, Some r0) -> wf (run_ops os r0).
Proof.
  intros H. apply wf_run_ops.
  destruct (init_any r cap) as [E|E]; [|by rewrite H in E].
  rewrite E in H. destruct (decide (cap <= PEAK_PTHREAD_SLOT_REGISTRY_MAX_CAPACITY)%nat)
    as [Hc|Hc].
  - destruct (initial_ok cap Hc) as (Hi & W & _). rewrite Hi in H. by simplify_eq.
  - exfalso. unfold init in H.
    destruct (Nat.ltb_spec PEAK_PTHREAD_SLOT_REGISTRY_MAX_CAPACITY cap); [done|lia].
Qed.

Definition demo_ops : list registry_op :=
  [OpReserve 7; OpReserve 9; OpMarkKernelTid (mkToken 0 1) 70; OpMarkDetached 7 1;
   OpMarkFinalDestructor (mkToken 0 1); OpSnapshotExitPending 2;
   OpBeginRetire (mkToken 0 1); OpCompleteRetire (mkToken 0 1) true; OpReserve 11].

Lemma slot_registry_invariant_witness :
  init (Some zero_registry) 3 true = (true, Some (initial 3)) /\
  wf (run_ops demo_ops (initial 3)).
Proof.
  split; [reflexivity|]. apply (slot_registry_invariant zero_registry 3). reflexivity.
Defined.

(** C30: the registry implements the abstract FIFO slot allocator: every
    reservation, token removal, completed retirement and quarantine, on every
    branch and with its return value, acts on the abstract state as the
    allocator's operation does. *)
Theorem slot_registry_refines_allocator r :
  wf r -> initialized r = true ->
  (forall t, exists r',
     reserve_insert (Some r) t (Some zero_token) =
       (bool_decide (is_Some (spec_reserve (abstract r) t).1), Some r',
        Some (default zero_token (spec_reserve (abstract r) t).1)) /\
     abstract r' = (spec_reserve (abstract r) t).2) /\
  (forall k reuse, exists r',
     compare_remove_token (Some r) k reuse =
       ((spec_remove_token (abstract r) k reuse).1, Some r') /\
     abstract r' = (spec_remove_token (abstract r) k reuse).2) /\
  (forall k reuse, exists r',
     complete_retire (Some r) k reuse =
       ((spec_complete_retire (abstract r) k reuse).1, Some r') /\
     abstract r' = (spec_complete_retire (abstract r) k reuse).2) /\
  (forall t, exists r',
     quarantine (Some r) t = ((spec_quarantine (abstract r) t).1, Some r') /\
     abstract r' = (spec_quarantine (abstract r) t).2).
Proof.
  intros W Hi. split_and!.
  - intros t. destruct (abstract_reserve r t W Hi) as (r' & ? & ? & _). eauto.
  - intros k reuse. unfold compare_remove_token, spec_remove_token. rewrite Hi. simpl.
    pose proof (find_token_owner r k W) as Hf. destruct (find_token_unlocked r k) as [i|];
      [|rewrite Hf; eauto]. destruct Hf as (-> & Ho & ->).
    destruct (retiring _); simpl; eauto using abstract_remove.
  - intros k reuse. unfold complete_retire, spec_complete_retire. rewrite Hi. simpl.
    pose proof (find_token_owner r k W) as Hf. destruct (find_token_unlocked r k) as [i|];
      [|rewrite Hf; eauto]. destruct Hf as (-> & Ho & ->).
    destruct (retiring _); simpl; eauto using abstract_remove.
  - intros t. unfold quarantine. rewrite Hi. cbn [negb].
    exists (discard_opt r (find_unlocked r t)). split.
    { unfold discard_opt, spec_quarantine. cbn [fst]. rewrite find_unlocked_owns by done. by destruct (find_unlocked r t). }
    unfold spec_quarantine. cbn [snd]. rewrite <- drop_tid_discard by done. unfold discard_opt.
    destruct (find_unlocked r t) as [i|]; [|done].
    destruct (discard_frame r i) as (H1&H2&H3&H4&_).
    unfold abstract. cbn [live free fresh limit last_generation].
    by rewrite H1, H2, H3, H4.
Qed.

Lemma slot_registry_refines_allocator_witness :
  abstract (apply_op (OpReserve 9) (initial 3)) =
    (spec_reserve (abstract (initial 3)) 9).2.
Proof.
  destruct (slot_registry_refines_allocator (initial 3) initial_small_wf eq_refl) as [H _].
  destruct (H 9) as (r' & E & Ha). unfold apply_op. rewrite E. exact Ha.
Defined.

(** What every token operation answers for a token that is not live. *)
Lemma dead_token_refused r k :
  initialized r = true -> token_dead r k ->
  (forall b, compare_remove_token (Some r) k b = (false, Some r)) /\
  begin_retire (Some r) k = (false, Some r) /\
  (forall b, complete_retire (Some r) k b = (false, Some r)) /\
  defer_retire (Some r) k = (false, Some r) /\
  (forall z, mark_kernel_tid (Some r) k z = (false, Some r)) /\
  (forall p, mark_final_destructor (Some r) k p = (false, Some r, (fun _ => false) <$> p)).
Proof.
  intros Hi Hd. unfold compare_remove_token, begin_retire, complete_retire, defer_retire,
    mark_kernel_tid, mark_final_destructor, token_dead in *. rewrite Hi, Hd. simpl.
  split_and!; try done. intros z. by destruct (z <=? 0).
Qed.

(** a token whose retirement completed is refused by every token operation
    from then on, whatever calls happen in between, recycling of its slot
    included, as long as fewer than [2^64] reservations are made in all: a
    recycled slot never honours the token of an earlier owner. *)
Theorem retired_token_never_valid_again cap os1 os2 k reuse r2 :
  (cap <= PEAK_PTHREAD_SLOT_REGISTRY_MAX_CAPACITY)%nat ->
  complete_retire (Some (run_ops os1 (initial cap))) k reuse = (true, Some r2) ->
  Z.of_nat (reserves os1 + reserves os2) <= UINT64_MAX ->
  let r3 := run_ops os2 r2 in
  (forall b, compare_remove_token (Some r3) k b = (false, Some r3)) /\
  begin_retire (Some r3) k = (false, Some r3) /\
  (forall b, complete_retire (Some r3) k b = (false, Some r3)) /\
  defer_retire (Some r3) k = (false, Some r3) /\
  (forall z, mark_kernel_tid (Some r3) k z = (false, Some r3)) /\
  (forall p, mark_final_destructor (Some r3) k p = (false, Some r3, (fun _ => false) <$> p)).
Proof.
  intros Hc Hr Hb. destruct (initial_ok cap Hc) as (Hini & W0 & _ & Hi0 & Hg0).
  destruct (run_reachable os1 (initial cap) W0 Hi0) as (W1 & Hi1 & Hk1 & Hg1);
    [by eapply owners_issued_initial|lia|].
  rewrite Hg0 in Hg1. set (r1 := run_ops os1 (initial cap)) in *.
  clearbody r1. clear Hini W0 Hi0 Hg0. unfold complete_retire in Hr. rewrite Hi1 in Hr. simpl in Hr. pose proof (find_token_owner r1 k W1) as Hf.
  destruct (find_token_unlocked r1 k) as [i|]; [|done]. destruct Hf as (-> & Ho & Hown).
  apply Hk1 in Hown. destruct (retiring (entry_at r1 (slot k))); [|done].
  injection Hr as <-.
  destruct (no_new_owner_remove r1 (slot k) reuse) as [_ Hg Hi _].
  pose proof (wf_remove r1 (slot k) reuse W1 Ho) as W2.
  destruct (dead_run os2 (remove_unlocked r1 (slot k) reuse) k) as [Hd Hi3];
    [done|by rewrite Hi| |lia|lia|by apply dead_token_refused].
  unfold token_dead. pose proof (find_token_owner _ k W2) as Hf.
  destruct (find_token_unlocked _ k); [|done]. destruct Hf as (-> & _ & Hf).
  rewrite abstract_remove in Hf by done. unfold spec_owner, spec_release in Hf. simpl in Hf.
  by rewrite lookup_delete_eq in Hf.
Qed.

(** Thread 7 reserves slot 0 of a one-slot registry and retires it; the slot
    is then recycled for thread 5. *)
#[local] Abbreviation demo_before :=
  (run_ops [OpReserve 7; OpBeginRetire (mkToken 0 1)] (initial 1)).
Definition demo_retired := run_ops [OpCompleteRetire (mkToken 0 1) true] demo_before.

Lemma demo_retired_eq :
  complete_retire (Some demo_before) (mkToken 0 1) true = (true, Some demo_retired).
Proof. vm_compute. reflexivity. Qed.

Lemma retired_token_never_valid_again_witness :
  let r3 := run_ops [OpReserve 5] demo_retired in
  begin_retire (Some r3) (mkToken 0 1) = (false, Some r3) /\
  capture (Some r3) 5 (Some zero_token) = (true, Some (mkToken 0 2)).
Proof.
  split; [|vm_compute; reflexivity].
  exact (proj1 (proj2 (retired_token_never_valid_again 1
    [OpReserve 7; OpBeginRetire (mkToken 0 1)] [OpReserve 5] (mkToken 0 1) true demo_retired
    ltac:(unfold PEAK_PTHREAD_SLOT_REGISTRY_MAX_CAPACITY; lia) demo_retired_eq
    ltac:(vm_compute; discriminate)))).
Defined.

(** a successful reservation hands out a slot in range that nobody owned;
    afterwards looking the thread up returns exactly the reserved token, and
    the lookup of every other thread is unchanged. *)
Theorem reserve_capture_roundtrip r t r' k z :
  wf r -> initialized r = true ->
  reserve_insert (Some r) t (Some zero_token) = (true, Some r', Some k) ->
  capture (Some r') t (Some z) = (true, Some k) /\
  (slot k < capacity r)%nat /\ occupied (entry_at r (slot k)) = false /\
  (forall t', t' <> t -> capture (Some r') t' (Some z) = capture (Some r) t' (Some z)).
Proof.
  intros W Hi Hr. destruct (abstract_reserve r t W Hi) as (q & E & Ha & Hiq).
  destruct (wf_reserve r t W) as (q' & Eq' & Wq). rewrite E in Eq', Hr.
  injection Hr as Hok -> Hkey. injection Eq' as <-.
  assert (exists g, live (abstract r') = <[slot k:=new_owner t (slot k) g]>
            (drop_tid t (live (abstract r))) /\ k = mkToken (slot k) g /\
            (slot k < capacity r)%nat /\ occupied (entry_at r (slot k)) = false)
    as (g & Hl & Hk & Hlt & Hf).
  { clear E. rewrite Ha. apply bool_decide_eq_true in Hok. unfold spec_reserve in *. pose proof (take_slot_ring r W) as Ht.
    pose proof (wf_next _ W).
    destruct (free (abstract r)) as [|s fr] eqn:Efree;
      [destruct (Nat.ltb_spec (fresh (abstract r)) (limit (abstract r)))|];
      simpl in *; [|by destruct Hok|]; subst k; simpl.
    - exists (advance_generation (next_generation r)). split_and!; try done.
      destruct (occupied (entry_at r (next_slot r))) eqn:Ho; [|done].
      destruct (wf_occupied _ W _ _ (entry_at_occupied _ _ Ho) Ho). lia.
    - exists (advance_generation (next_generation r)).
      destruct (wf_ring_free _ W s) as [? ?]; [rewrite Efree; constructor|].
      split_and!; try done. lia. }
  assert (live (abstract r) !! slot k = None) as Hn by (by rewrite live_lookup_at, Hf).
  split_and!; try done.
  - rewrite (capture_reserve r r' (slot k) t t z g) by done.
    rewrite decide_True by done. by rewrite <- Hk.
  - intros t' Hne. rewrite (capture_reserve r r' (slot k) t t' z g) by done.
    by rewrite decide_False.
Qed.

Lemma reserve_capture_roundtrip_witness :
  capture (Some (apply_op (OpReserve 7) (initial 3))) 7 (Some zero_token) =
    (true, Some (mkToken 0 1)).
Proof.
  apply (reserve_capture_roundtrip (initial 3) 7 _ _ zero_token initial_small_wf eq_refl).
  vm_compute. reflexivity.
Defined.

Lemma put_entry_back r i e1 e :
  entries r !! i = Some e -> put_entry (put_entry r i e1) i e = r.
Proof.
  intros He. unfold put_entry, set_entries. simpl.
  rewrite list_insert_insert_eq, list_insert_id by done. by destruct r.
Qed.

(** [begin_retire] takes exclusive ownership of a live token: until the
    retirement is completed or deferred the token cannot be retired again or
    removed, by token or by thread, and its thread no longer captures it;
    [defer_retire] restores the registry exactly and [complete_retire]
    succeeds, releasing the slot. *)
Theorem begin_retire_exclusive r k r' z :
  wf r -> initialized r = true -> begin_retire (Some r) k = (true, Some r') ->
  let t := tid (entry_at r (slot k)) in
  begin_retire (Some r') k = (false, Some r') /\
  (forall b, compare_remove_token (Some r') k b = (false, Some r')) /\
  (forall g b, compare_remove (Some r') t g b = (false, Some r')) /\
  capture (Some r') t (Some z) = (false, Some z) /\
  defer_retire (Some r') k = (true, Some r) /\
  (forall b, exists r'', complete_retire (Some r') k b = (true, Some r'') /\
     abstract r'' = spec_release (abstract r') (slot k) b).
Proof.
  intros W Hi Hr. unfold begin_retire in Hr. rewrite Hi in Hr. simpl in Hr.
  destruct (find_token_unlocked r k) as [i|] eqn:Ef; [|done].
  destruct (proj1 (find_token_Some _ _ _) Ef) as (-> & Hlt & Ho & Hg).
  destruct (retiring (entry_at r (slot k))) eqn:Hret; [done|]. injection Hr as <-.
  set (e := entry_at r (slot k)) in *. set (r' := put_entry r (slot k) (set_retiring e true)).
  pose proof (entry_at_put_eq r (slot k) (set_retiring e true) _ (entry_at_occupied _ _ Ho))
    as He'. fold r' in He'.
  assert (wf r') as W' by (apply wf_put_flag; try done; by apply (wf_pending_at r)).
  assert (find_token_unlocked r' k = Some (slot k)) as Ef'.
  { apply find_token_Some. rewrite He'. by split_and!. }
  assert (find_unlocked r' (tid e) = Some (slot k)) as Et'.
  { apply find_unlocked_live; [done|]. exists (set_retiring e true).
    rewrite live_lookup_at, He'. simpl. by rewrite Ho. }
  assert (initialized r' = true) as Hi' by done.
  unfold begin_retire, compare_remove_token, compare_remove, capture, defer_retire,
    complete_retire. rewrite Hi', Ef', Et', He'. simpl.
  split_and!; try done.
  - do 2 f_equal. apply put_entry_back. rewrite entry_at_occupied by done.
    fold e. f_equal. clearbody e. destruct e. simpl in *. by subst.
  - intros b. eexists. split; [done|]. apply abstract_remove; [done|]. by rewrite He'.
Qed.

Lemma begin_retire_exclusive_witness :
  let r := run_ops [OpReserve 7] (initial 3) in
  defer_retire (Some (apply_op (OpBeginRetire (mkToken 0 1)) r)) (mkToken 0 1) =
    (true, Some r).
Proof.
  apply (begin_retire_exclusive (run_ops [OpReserve 7] (initial 3)) (mkToken 0 1) _
           zero_token).
  - apply wf_run_ops, initial_small_wf.
  - vm_compute. reflexivity.
  - vm_compute. reflexivity.
Defined.

(** the reclaim scan is fair: consecutive scans whose budgets add up to
    the capacity report every exit-pending thread that is not being retired,
    wherever the rotating cursor started. *)
Theorem reclaim_scan_covers r n b i :
  wf r -> initialized r = true -> (0 < b)%nat -> (capacity r <= n * b)%nat ->
  reported (entry_at r i) = true ->
  mkCandidate (token (entry_at r i)) (kernel_tid (entry_at r i)) ∈ scan_rounds n b r.
Proof.
  intros W Hi Hb Hn Hr. pose proof Hr as Ho. unfold reported in Ho. breflect.
  pose proof (wf_occupied_lt r i W H) as Hlt. set (cap := capacity r) in *.
  set (k := ((i + cap - reclaim_cursor r mod cap) mod cap)%nat).
  assert ((reclaim_cursor r + k) mod cap = i)%nat as Hk.
  { unfold k. rewrite Nat.Div0.add_mod_idemp_r.
    pose proof (Nat.mod_upper_bound (reclaim_cursor r) cap ltac:(lia)).
    rewrite <- Nat.Div0.add_mod_idemp_l.
    replace (reclaim_cursor r mod cap + (i + cap - reclaim_cursor r mod cap))%nat
      with (i + 1 * cap)%nat by lia.
    rewrite Nat.Div0.mod_add, Nat.mod_small by lia. done. }
  assert (k < cap)%nat by (apply Nat.mod_upper_bound; lia).
  rewrite <- Hk in Hr |- *. apply scan_rounds_window; try done; fold cap; [lia|].
  destruct (Nat.min_spec b cap) as [[? ->]|[? ->]]; [lia|]. destruct n; simpl in *; lia.
Qed.

Lemma reclaim_scan_covers_witness :
  let r := run_ops [OpReserve 7; OpReserve 9; OpMarkKernelTid (mkToken 1 2) 70;
                    OpMarkDetached 9 2; OpMarkFinalDestructor (mkToken 1 2)] (initial 3) in
  mkCandidate (token (entry_at r 1)) (kernel_tid (entry_at r 1)) ∈ scan_rounds 3 1 r.
Proof.
  apply reclaim_scan_covers.
  - apply wf_run_ops, initial_small_wf.
  - vm_compute. reflexivity.
  - lia.
  - vm_compute. lia.
  - vm_compute. reflexivity.
Defined.

Definition owner_pair (e : PeakPthreadSlotRegistryEntry) : option (Z * nat) :=
  if occupied e then Some (tid e, slot (token e)) else None.
Definition owner_pairs (r : PeakPthreadSlotRegistry) : list (Z * nat) :=
  omap owner_pair (take (capacity r) (entries r)).

Lemma copy_occupied_spec l room :
  copy_occupied l room =
    (take room (omap owner_pair l), (length (omap owner_pair l) <=? room)%nat).
Proof.
  revert room. induction l as [|e l IH]; intros room; simpl.
  - by rewrite take_nil.
  - assert (owner_pair e = if occupied e then Some (tid e, slot (token e)) else None)
      as -> by done. destruct (occupied e); simpl; [|apply IH].
    destruct room; simpl; rewrite IH; simpl; [by rewrite take_0|done].
Qed.

(** the thread snapshot returns the first [room] owners in slot order and
    reports completeness exactly when all owners fit. *)
Theorem snapshot_complete_iff r room :
  initialized r = true ->
  snapshot (Some r) true room =
    (take room (owner_pairs r), (length (owner_pairs r) <=? room)%nat).
Proof. intros Hi. unfold snapshot. rewrite Hi. apply copy_occupied_spec. Qed.

Lemma snapshot_complete_iff_witness :
  snapshot (Some (run_ops [OpReserve 7; OpReserve 9] (initial 3))) true 1 =
    (take 1 (owner_pairs (run_ops [OpReserve 7; OpReserve 9] (initial 3))),
     (length (owner_pairs (run_ops [OpReserve 7; OpReserve 9] (initial 3))) <=? 1)%nat).
Proof. apply snapshot_complete_iff. vm_compute. reflexivity. Defined.
