(* ===== verification/StartHandshake.v ===== *)
(** * The thread-start handshake

    Models the second half of [src/pthread_slot_registry.c]: a creating thread
    publishes that a new thread's slot is ready while the new thread waits for
    that publication with a deadline.  The creator runs [publish_ready], the
    new thread [wait_ready]; both act on one atomic word and share the start
    gate's mutex and condition variable.  The two calls are step relations over
    a shared state, one constructor per atomic action of the C code. *)

From S2P Require Import Prelude.

Inductive PeakPthreadStartHandshakeState :=
  | PEAK_PTHREAD_START_PENDING
  | PEAK_PTHREAD_START_READY
  | PEAK_PTHREAD_START_ABANDONED.

#[export] Instance handshake_eq_dec : EqDecision PeakPthreadStartHandshakeState.
Proof. solve_decision. Defined.

(** [atomic_compare_exchange_strong(state, &PENDING, desired)]. *)
Definition cas_pending (state desired : PeakPthreadStartHandshakeState)
    : bool * PeakPthreadStartHandshakeState :=
  match state with
  | PEAK_PTHREAD_START_PENDING => (true, desired)
  | s => (false, s)
  end.

(** ** Gate readiness and the deadline (Linux) *)

(** [peak_pthread_start_gate_initialize]: the arguments are whether
    [pthread_condattr_init], [pthread_condattr_setclock] and
    [pthread_cond_init] succeed; the result is [peak_pthread_start_gate_ready]. *)
Definition start_gate_initialize (condattr_init_ok setclock_ok cond_init_ok : bool) : bool :=
  if negb condattr_init_ok then false
  else if setclock_ok then cond_init_ok else false.

Record timespec := mkTimespec { tv_sec : Z; tv_nsec : Z }.

(** [peak_pthread_start_deadline]: [now] is [None] when [clock_gettime] fails. *)
Definition start_deadline (now : option timespec) (timeout_ms : Z) : option timespec :=
  match now with
  | None => None
  | Some d =>
      let sec := tv_sec d + timeout_ms / 1000 in
      let nsec := tv_nsec d + (timeout_ms mod 1000) * 1000000 in
      if 1000000000 <=? nsec
      then Some (mkTimespec (sec + 1) (nsec - 1000000000))
      else Some (mkTimespec sec nsec)
  end.

Definition timespec_ns (t : timespec) : Z := tv_sec t * 1000000000 + tv_nsec t.

(** ** The two parties as step relations *)

Inductive party := Creator | Waiter.
#[export] Instance party_eq_dec : EqDecision party.
Proof. solve_decision. Defined.

(** Program points of [publish_ready]. *)
Inductive publisher_pc :=
  | PubStart
  | PubCas            (** gate unusable or lock failed: bare compare-exchange *)
  | PubLocked         (** holds the gate mutex, about to compare-exchange *)
  | PubUnlock (published : bool)
  | PubDone (published : bool).

(** Program points of [wait_ready]. *)
Inductive waiter_pc :=
  | WaitStart         (** the first load of the state *)
  | WaitGate          (** pending: timeout, gate, deadline and lock tests *)
  | WaitBail          (** a test failed: abandon without the lock *)
  | WaitBailLoad
  | WaitLoop          (** holds the mutex, tests the loop condition *)
  | WaitTimed         (** inside the timed wait, mutex released *)
  | WaitAbandon       (** timed wait returned an error, mutex held *)
  | WaitResult        (** after the loop, mutex held *)
  | WaitUnlock (result : PeakPthreadStartHandshakeState)
  | WaitCancel        (** cancelled in the wait: cleanup handler, mutex held *)
  | WaitDone (result : PeakPthreadStartHandshakeState)
  | WaitCancelled.

Record handshake := mkHandshake {
  word : PeakPthreadStartHandshakeState;
  holder : option party;
  pub : publisher_pc;
  wai : waiter_pc
}.

Definition handshake_start :=
  mkHandshake PEAK_PTHREAD_START_PENDING None PubStart WaitStart.

Inductive step : handshake -> handshake -> Prop :=
  (* publish_ready *)
  | PubNoGate w h x : step (mkHandshake w h PubStart x) (mkHandshake w h PubCas x)
  | PubBare w h x : step (mkHandshake w h PubCas x)
      (mkHandshake (cas_pending w PEAK_PTHREAD_START_READY).2 h
         (PubDone (cas_pending w PEAK_PTHREAD_START_READY).1) x)
  | PubLock w x : step (mkHandshake w None PubStart x)
      (mkHandshake w (Some Creator) PubLocked x)
  | PubLockedCas w h x : step (mkHandshake w h PubLocked x)
      (mkHandshake (cas_pending w PEAK_PTHREAD_START_READY).2 h
         (PubUnlock (cas_pending w PEAK_PTHREAD_START_READY).1) x)
  | PubRelease w b x : step (mkHandshake w (Some Creator) (PubUnlock b) x)
      (mkHandshake w None (PubDone b) x)
  (* wait_ready *)
  | WaitAlready w h p : w <> PEAK_PTHREAD_START_PENDING ->
      step (mkHandshake w h p WaitStart) (mkHandshake w h p (WaitDone w))
  | WaitPending h p :
      step (mkHandshake PEAK_PTHREAD_START_PENDING h p WaitStart)
           (mkHandshake PEAK_PTHREAD_START_PENDING h p WaitGate)
  | WaitGateFails w h p :
      step (mkHandshake w h p WaitGate) (mkHandshake w h p WaitBail)
  | WaitBailCas w h p :
      step (mkHandshake w h p WaitBail)
        (mkHandshake (cas_pending w PEAK_PTHREAD_START_ABANDONED).2 h p WaitBailLoad)
  | WaitBailReturn w h p :
      step (mkHandshake w h p WaitBailLoad) (mkHandshake w h p (WaitDone w))
  | WaitLock w p :
      step (mkHandshake w None p WaitGate) (mkHandshake w (Some Waiter) p WaitLoop)
  | WaitBlock p :
      step (mkHandshake PEAK_PTHREAD_START_PENDING (Some Waiter) p WaitLoop)
           (mkHandshake PEAK_PTHREAD_START_PENDING None p WaitTimed)
  | WaitLeave w p : w <> PEAK_PTHREAD_START_PENDING ->
      step (mkHandshake w (Some Waiter) p WaitLoop)
           (mkHandshake w (Some Waiter) p WaitResult)
  | WaitWoken w p :
      step (mkHandshake w None p WaitTimed) (mkHandshake w (Some Waiter) p WaitLoop)
  | WaitTimedOut w p :
      step (mkHandshake w None p WaitTimed) (mkHandshake w (Some Waiter) p WaitAbandon)
  | WaitAbandonCas w h p :
      step (mkHandshake w h p WaitAbandon)
        (mkHandshake (cas_pending w PEAK_PTHREAD_START_ABANDONED).2 h p WaitResult)
  | WaitLoadResult w h p :
      step (mkHandshake w h p WaitResult) (mkHandshake w h p (WaitUnlock w))
  | WaitRelease w p v :
      step (mkHandshake w (Some Waiter) p (WaitUnlock v))
           (mkHandshake w None p (WaitDone v))
  | WaitCancelRequest w p :
      step (mkHandshake w None p WaitTimed) (mkHandshake w (Some Waiter) p WaitCancel)
  | WaitCancelCleanup w p :
      step (mkHandshake w (Some Waiter) p WaitCancel)
        (mkHandshake (cas_pending w PEAK_PTHREAD_START_ABANDONED).2 None p WaitCancelled).

Definition published (p : publisher_pc) : option bool :=
  match p with PubUnlock b | PubDone b => Some b | _ => None end.

(** The publisher's compare-exchange won exactly when the word is [READY]. *)
Definition word_agrees (s : handshake) : Prop :=
  match published (pub s) with
  | Some true => word s = PEAK_PTHREAD_START_READY
  | Some false => word s = PEAK_PTHREAD_START_ABANDONED
  | None => word s <> PEAK_PTHREAD_START_READY
  end.

Definition waiter_saw (s : handshake) : Prop :=
  match wai s with
  | WaitBailLoad | WaitResult => word s <> PEAK_PTHREAD_START_PENDING
  | WaitUnlock v | WaitDone v => v = word s /\ v <> PEAK_PTHREAD_START_PENDING
  | WaitCancelled => word s <> PEAK_PTHREAD_START_PENDING
  | _ => True
  end.

Definition mutex_ok (s : handshake) : Prop :=
  (holder s = Some Creator <->
     match pub s with PubLocked | PubUnlock _ => True | _ => False end) /\
  (holder s = Some Waiter <->
     match wai s with
     | WaitLoop | WaitAbandon | WaitResult | WaitUnlock _ | WaitCancel => True
     | _ => False
     end).

Definition handshake_inv (s : handshake) : Prop :=
  word_agrees s /\ waiter_saw s /\ mutex_ok s.

Lemma handshake_inv_step s s' : handshake_inv s -> step s s' -> handshake_inv s'.
Proof.
  intros (Hw & Hs & Hm) Hstep. unfold handshake_inv, word_agrees, waiter_saw, mutex_ok in *.
  destruct Hstep; simpl in *; split_and!; try tauto;
    repeat (match goal with
    | w : PeakPthreadStartHandshakeState |- _ => destruct w
    | b : bool |- _ => destruct b
    | p : publisher_pc |- _ => destruct p
    | x : waiter_pc |- _ => destruct x
    end; simpl in *; try done); try (intuition congruence).
Qed.

Lemma handshake_inv_reachable s : rtc step handshake_start s -> handshake_inv s.
Proof.
  intros H. assert (handshake_inv handshake_start) as Hi.
  { unfold handshake_inv, word_agrees, waiter_saw, mutex_ok. simpl. naive_solver. }
  revert Hi. induction H as [|a b c Hab _ IH]; [done|]. eauto using handshake_inv_step.
Qed.

(** C37: in every interleaving of the creator and the waiting thread, timeouts
    and cancellation included, a finished wait never reports [PENDING], and it
    reports [READY] exactly when the creator's publication is reported as
    successful: the two threads always agree on who owns the slot. *)
Theorem start_handshake_agreement s v :
  rtc step handshake_start s -> wai s = WaitDone v ->
  v <> PEAK_PTHREAD_START_PENDING /\
  (forall b, pub s = PubDone b -> (v = PEAK_PTHREAD_START_READY <-> b = true)) /\
  (published (pub s) = None -> v = PEAK_PTHREAD_START_ABANDONED).
Proof.
  intros Hr Hv. destruct (handshake_inv_reachable s Hr) as (Hw & Hs & _).
  unfold word_agrees, waiter_saw in *. rewrite Hv in Hs. destruct Hs as [-> Hs].
  split_and!; [done| |].
  - intros b Hb. rewrite Hb in Hw. simpl in Hw. destruct b; split; congruence.
  - intros Hn. rewrite Hn in Hw. by destruct (word s).
Qed.

(** The waiter blocks, the creator publishes under the lock, the waiter wakes. *)
Definition handshake_ready : handshake :=
  mkHandshake PEAK_PTHREAD_START_READY None (PubDone true)
    (WaitDone PEAK_PTHREAD_START_READY).

Lemma handshake_ready_reachable : rtc step handshake_start handshake_ready.
Proof.
  eapply rtc_l; [apply WaitPending|]. eapply rtc_l; [apply WaitLock|].
  eapply rtc_l; [apply WaitBlock|]. eapply rtc_l; [apply PubLock|].
  eapply rtc_l; [apply PubLockedCas|]. eapply rtc_l; [apply PubRelease|].
  eapply rtc_l; [apply WaitWoken|]. eapply rtc_l; [by apply WaitLeave|].
  eapply rtc_l; [apply WaitLoadResult|]. eapply rtc_l; [apply WaitRelease|].
  apply rtc_refl.
Qed.

Lemma start_handshake_agreement_witness :
  PEAK_PTHREAD_START_READY <> PEAK_PTHREAD_START_PENDING.
Proof.
  exact (proj1 (start_handshake_agreement handshake_ready _ handshake_ready_reachable
    eq_refl)).
Defined.

(** the handshake deadline is normalised and is exactly [timeout_ms]
    milliseconds after the clock reading. *)
Theorem start_deadline_exact now timeout_ms :
  0 <= tv_nsec now < 1000000000 -> 0 <= timeout_ms <= UINT32_MAX ->
  exists d, start_deadline (Some now) timeout_ms = Some d /\
    0 <= tv_nsec d < 1000000000 /\
    timespec_ns d = timespec_ns now + timeout_ms * 1000000.
Proof.
  intros Hn Ht. unfold start_deadline, timespec_ns.
  pose proof (Z.mod_pos_bound timeout_ms 1000 ltac:(lia)).
  pose proof (Z.div_mod timeout_ms 1000 ltac:(lia)).
  branch; breflect; eexists; (split; [reflexivity|]); simpl; lia.
Qed.

Lemma start_deadline_exact_witness :
  exists d, start_deadline (Some (mkTimespec 5 999999999)) 2500 = Some d /\
    0 <= tv_nsec d < 1000000000 /\
    timespec_ns d = timespec_ns (mkTimespec 5 999999999) + 2500 * 1000000.
Proof. apply start_deadline_exact; vm_compute; split; congruence. Defined.
