(* ===== verification/HookControl.v ===== *)
(** * The packed callback control word of a hook

    Models the lock-free word [callback_hook_control] of a general listener in
    [src/general_listener.c]: the hook state in the low four bits, the
    detach-count request bit, the initial-crossing bit and a lifecycle
    generation above them.  Application callbacks publish detach requests with
    a single compare-exchange; the controller publishes state transitions with
    a compare-exchange loop.  Words are 64-bit integers and every C expression
    on them is written with its bit operations; the interleavings of callback
    and controller are explicit. *)

From S2P Require Import Prelude.

(** [PeakHookState], with the values of the C enumeration. *)
Inductive PeakHookState :=
  | PEAK_HOOK_UNRESOLVED
  | PEAK_HOOK_ATTACHED
  | PEAK_HOOK_DETACH_REQUESTED
  | PEAK_HOOK_DETACHING
  | PEAK_HOOK_DETACHED
  | PEAK_HOOK_REATTACH_REQUESTED
  | PEAK_HOOK_REATTACHING
  | PEAK_HOOK_SHUTDOWN.

#[export] Instance hook_state_eq_dec : EqDecision PeakHookState.
Proof. solve_decision. Defined.

Definition hook_state_value (s : PeakHookState) : Z :=
  match s with
  | PEAK_HOOK_UNRESOLVED => 0
  | PEAK_HOOK_ATTACHED => 1
  | PEAK_HOOK_DETACH_REQUESTED => 2
  | PEAK_HOOK_DETACHING => 3
  | PEAK_HOOK_DETACHED => 4
  | PEAK_HOOK_REATTACH_REQUESTED => 5
  | PEAK_HOOK_REATTACHING => 6
  | PEAK_HOOK_SHUTDOWN => 7
  end.

Definition PEAK_CALLBACK_HOOK_STATE_MASK : Z := 0x0f.
Definition PEAK_CALLBACK_DETACH_COUNT_REQUEST_BIT : Z := 0x10.
Definition PEAK_CALLBACK_INITIAL_DETACH_COUNT_CROSSING_BIT : Z := 0x20.
Definition PEAK_CALLBACK_HOOK_CONTROL_LOW_MASK : Z :=
  Z.lor (Z.lor PEAK_CALLBACK_HOOK_STATE_MASK PEAK_CALLBACK_DETACH_COUNT_REQUEST_BIT)
    PEAK_CALLBACK_INITIAL_DETACH_COUNT_CROSSING_BIT.
Definition PEAK_CALLBACK_HOOK_GENERATION_INCREMENT : Z := 0x40.

(** The C operator [~] on [unsigned long long]. *)
Definition not64 (x : Z) : Z := UINT64_MAX - x.

Definition callback_hook_state (control : Z) : Z :=
  Z.land control PEAK_CALLBACK_HOOK_STATE_MASK.

Definition hook_state_is (control : Z) (s : PeakHookState) : bool :=
  callback_hook_state control =? hook_state_value s.

Definition generation_bits (control : Z) : Z :=
  Z.land control (not64 PEAK_CALLBACK_HOOK_CONTROL_LOW_MASK).

Definition first_attached_generation_is_adjacent (unresolved attached : Z) : bool :=
  hook_state_is unresolved PEAK_HOOK_UNRESOLVED &&
  hook_state_is attached PEAK_HOOK_ATTACHED &&
  (generation_bits attached =?
     (generation_bits unresolved +u64 PEAK_CALLBACK_HOOK_GENERATION_INCREMENT)).

(** [atomic_compare_exchange_strong]: success flag, the word and the updated
    [expected]. *)
Definition cas (word expected desired : Z) : bool * Z * Z :=
  if word =? expected then (true, desired, expected) else (false, word, word).

(** ** Callback side *)

(** Returns the success flag and the word. *)
Definition try_publish_detach_count_request_snapshot (word control : Z) : bool * Z :=
  if negb (hook_state_is control PEAK_HOOK_ATTACHED)
     || negb (Z.land control PEAK_CALLBACK_DETACH_COUNT_REQUEST_BIT =? 0)
  then (false, word)
  else
    let desired := Z.lor control PEAK_CALLBACK_DETACH_COUNT_REQUEST_BIT in
    let '(ok, word', _) := cas word control desired in (ok, word').

(** Returns the success flag, the word and the updated [*control]. *)
Definition try_publish_initial_detach_count_crossing_snapshot (word control : Z)
    : bool * Z * Z :=
  if negb (hook_state_is control PEAK_HOOK_UNRESOLVED)
     || negb (Z.land control
                (Z.lor PEAK_CALLBACK_DETACH_COUNT_REQUEST_BIT
                   PEAK_CALLBACK_INITIAL_DETACH_COUNT_CROSSING_BIT) =? 0)
  then (false, word, control)
  else
    cas word control (Z.lor control PEAK_CALLBACK_INITIAL_DETACH_COUNT_CROSSING_BIT).

(** ** Controller side *)

(** The value one iteration of the state-writer loop computes from [control]. *)
Definition state_publication (control : Z) (state : PeakHookState) : bool * Z :=
  let generation := generation_bits control +u64 PEAK_CALLBACK_HOOK_GENERATION_INCREMENT in
  let carried_initial_crossing :=
    bool_decide (state = PEAK_HOOK_ATTACHED) &&
    hook_state_is control PEAK_HOOK_UNRESOLVED &&
    negb (Z.land control PEAK_CALLBACK_INITIAL_DETACH_COUNT_CROSSING_BIT =? 0) in
  (carried_initial_crossing,
   Z.lor (Z.lor generation (hook_state_value state))
     (if carried_initial_crossing then PEAK_CALLBACK_DETACH_COUNT_REQUEST_BIT else 0)).

(** The loop of [publish_callback_hook_state].  [failures] lists, for every
    failed weak compare-exchange, the word the failure loaded; the last
    exchange succeeds on the word it expected.  Returns the carried flag and
    the published word. *)
Fixpoint publish_callback_hook_state (control : Z) (state : PeakHookState)
    (failures : list Z) : bool * Z :=
  match failures with
  | [] => state_publication control state
  | observed :: failures => publish_callback_hook_state observed state failures
  end.

(** Returns the success flag and the word; the word read is the word exchanged
    unless [interference] replaced it in between. *)
Definition take_detach_count_request (loaded word : Z) : bool * Z :=
  if negb (hook_state_is loaded PEAK_HOOK_ATTACHED)
     || (Z.land loaded PEAK_CALLBACK_DETACH_COUNT_REQUEST_BIT =? 0)
  then (false, word)
  else
    let desired := Z.land loaded (not64 PEAK_CALLBACK_DETACH_COUNT_REQUEST_BIT) in
    let '(ok, word', _) := cas word loaded desired in (ok, word').

(** ** The packed layout *)

(** The four fields of a control word. *)
Record control_fields := mkFields {
  f_generation : Z;
  f_crossing : bool;
  f_request : bool;
  f_state : PeakHookState
}.

Definition low_bits (x r : bool) (s : PeakHookState) : Z :=
  Z.b2z x * 32 + Z.b2z r * 16 + hook_state_value s.

Definition pack (f : control_fields) : Z :=
  64 * f_generation f + low_bits (f_crossing f) (f_request f) (f_state f).

Definition fields_ok (f : control_fields) : Prop := 0 <= f_generation f < 2 ^ 58.

Lemma low_bits_range x r s : 0 <= low_bits x r s < 64.
Proof. unfold low_bits. destruct x, r, s; simpl; lia. Qed.

Lemma land_low g l m :
  0 <= g -> 0 <= l < 64 -> 0 <= m < 64 -> Z.land (64 * g + l) m = Z.land l m.
Proof.
  intros Hg Hl Hm.
  assert (m = Z.land 63 m) as Hm'.
  { rewrite Z.land_comm. change 63 with (Z.ones 6). rewrite Z.land_ones by lia.
    by rewrite Z.mod_small. }
  rewrite Hm' at 1. rewrite Z.land_assoc. f_equal.
  change 63 with (Z.ones 6). rewrite Z.land_ones by lia.
  change (2 ^ 6) with 64. rewrite Z.mul_comm, Z.add_comm, Z.mod_add by lia.
  by apply Z.mod_small.
Qed.

Lemma land_high g l : 0 <= g -> 0 <= l < 64 -> Z.land (64 * g) l = 0.
Proof.
  intros Hg Hl. replace (64 * g) with (64 * g + 0) by lia.
  by rewrite land_low by lia.
Qed.

Lemma lor_high g l :
  0 <= g -> 0 <= l < 64 -> 64 * g + l = Z.lor (64 * g) l.
Proof.
  intros Hg Hl. rewrite Z.add_nocarry_lxor.
  - apply Z.lxor_lor, land_high; lia.
  - apply land_high; lia.
Qed.

Lemma lor_low g l m :
  0 <= g -> 0 <= l < 64 -> 0 <= m < 64 ->
  Z.lor (64 * g + l) m = 64 * g + Z.lor l m.
Proof.
  intros Hg Hl Hm. assert (0 <= Z.lor l m < 64).
  { split; [by apply Z.lor_nonneg; lia|]. change 64 with (2 ^ 6).
    apply Z.log2_lt_cancel. rewrite Z.log2_lor, Z.log2_pow2 by lia.
    destruct (decide (l = 0)) as [->|], (decide (m = 0)) as [->|]; simpl; try lia;
      repeat (apply Z.max_lub_lt); try (apply Z.log2_lt_pow2; lia); lia. }
  by rewrite !lor_high, Z.lor_assoc by lia.
Qed.

Lemma ldiff_low g l m :
  0 <= g -> 0 <= l < 64 -> 0 <= m < 64 ->
  Z.ldiff (64 * g + l) m = 64 * g + Z.ldiff l m.
Proof.
  intros Hg Hl Hm. assert (0 <= Z.ldiff l m < 64).
  { split; [by apply Z.ldiff_nonneg; lia|].
    assert (Z.ldiff l m = Z.ldiff l m mod 2 ^ 6) as ->; [|apply Z.mod_pos_bound; lia].
    rewrite <- Z.land_ones by lia. apply Z.bits_inj'. intros n Hn.
    rewrite Z.land_spec, Z.ldiff_spec. destruct (decide (n < 6)).
    - by rewrite Z.ones_spec_low, andb_true_r by lia.
    - rewrite <- (Z.mod_small l (2 ^ 6)) by lia. by rewrite Z.mod_pow2_bits_high by lia. }
  rewrite !lor_high by lia. apply Z.bits_inj'. intros n Hn.
  pose proof (f_equal (fun z => Z.testbit z n) (land_high g m Hg Hm)) as Hz.
  simpl in Hz. rewrite Z.land_spec, Z.bits_0 in Hz.
  rewrite Z.ldiff_spec, !Z.lor_spec, Z.ldiff_spec.
  by destruct (Z.testbit (64 * g) n), (Z.testbit m n), (Z.testbit l n).
Qed.

Lemma land_not_low g l :
  0 <= g < 2 ^ 58 -> 0 <= l < 64 -> generation_bits (64 * g + l) = 64 * g.
Proof.
  intros Hg Hl. unfold generation_bits.
  change (not64 PEAK_CALLBACK_HOOK_CONTROL_LOW_MASK) with (Z.shiftl (Z.ones 58) 6).
  apply Z.bits_inj'. intros n Hn. rewrite Z.land_spec.
  destruct (decide (n < 6)).
  - rewrite Z.shiftl_spec_low by lia. rewrite andb_false_r.
    replace (64 * g) with (Z.shiftl g 6) by (rewrite Z.shiftl_mul_pow2 by lia; lia).
    by rewrite Z.shiftl_spec_low by lia.
  - rewrite Z.shiftl_spec by lia.
    replace (64 * g + l) with (l + g * 2 ^ 6) by lia.
    replace (64 * g) with (Z.shiftl g 6) by (rewrite Z.shiftl_mul_pow2 by lia; lia).
    rewrite Z.shiftl_spec by lia.
    replace (Z.testbit (l + g * 2 ^ 6) n) with (Z.testbit g (n - 6)).
    2: { replace n with (n - 6 + 6) at 2 by lia. rewrite <- Z.div_pow2_bits by lia.
         rewrite Z.div_add, Z.div_small by lia. by rewrite Z.add_0_l. }
    destruct (decide (n - 6 < 58)).
    + rewrite Z.ones_spec_low by lia. by rewrite andb_true_r.
    + rewrite Z.ones_spec_high, andb_false_r by lia.
      rewrite <- (Z.mod_small g (2 ^ 58)) by lia. symmetry.
      apply Z.mod_pow2_bits_high. lia.
Qed.

(** ** The code's bit operations on packed words *)

Lemma pack_state f s :
  fields_ok f -> hook_state_is (pack f) s = bool_decide (f_state f = s).
Proof.
  intros Hf. unfold hook_state_is, callback_hook_state, pack,
    PEAK_CALLBACK_HOOK_STATE_MASK. destruct f as [g x r s']; unfold fields_ok in *; simpl in *.
  rewrite land_low; [|lia|apply low_bits_range|lia].
  destruct x, r, s', s; reflexivity.
Qed.

Lemma pack_request f :
  fields_ok f ->
  (Z.land (pack f) PEAK_CALLBACK_DETACH_COUNT_REQUEST_BIT =? 0) = negb (f_request f).
Proof.
  intros Hf. unfold pack. destruct f as [g x r s]; unfold fields_ok in *; simpl in *.
  unfold PEAK_CALLBACK_DETACH_COUNT_REQUEST_BIT.
  rewrite land_low; [|lia|apply low_bits_range|lia]. destruct x, r, s; reflexivity.
Qed.

Lemma pack_crossing f :
  fields_ok f ->
  (Z.land (pack f) PEAK_CALLBACK_INITIAL_DETACH_COUNT_CROSSING_BIT =? 0) = negb (f_crossing f).
Proof.
  intros Hf. unfold pack. destruct f as [g x r s]; unfold fields_ok in *; simpl in *.
  unfold PEAK_CALLBACK_INITIAL_DETACH_COUNT_CROSSING_BIT.
  rewrite land_low; [|lia|apply low_bits_range|lia]. destruct x, r, s; reflexivity.
Qed.

Lemma pack_callback_bits f :
  fields_ok f ->
  (Z.land (pack f) (Z.lor PEAK_CALLBACK_DETACH_COUNT_REQUEST_BIT
     PEAK_CALLBACK_INITIAL_DETACH_COUNT_CROSSING_BIT) =? 0)
  = negb (f_request f) && negb (f_crossing f).
Proof.
  intros Hf. unfold pack. destruct f as [g x r s]; unfold fields_ok in *; simpl in *.
  change (Z.lor _ _) with 48.
  rewrite land_low; [|lia|apply low_bits_range|lia]. destruct x, r, s; reflexivity.
Qed.

Lemma pack_generation f : fields_ok f -> generation_bits (pack f) = 64 * f_generation f.
Proof. intros Hf. apply land_not_low; [apply Hf|apply low_bits_range]. Qed.

Lemma pack_set_request f :
  fields_ok f ->
  Z.lor (pack f) PEAK_CALLBACK_DETACH_COUNT_REQUEST_BIT =
    pack (mkFields (f_generation f) (f_crossing f) true (f_state f)).
Proof.
  intros Hf. unfold pack. destruct f as [g x r s]; unfold fields_ok in *; simpl in *.
  unfold PEAK_CALLBACK_DETACH_COUNT_REQUEST_BIT.
  rewrite lor_low; [|lia|apply low_bits_range|lia]. f_equal. destruct x, r, s; reflexivity.
Qed.

Lemma pack_set_crossing f :
  fields_ok f ->
  Z.lor (pack f) PEAK_CALLBACK_INITIAL_DETACH_COUNT_CROSSING_BIT =
    pack (mkFields (f_generation f) true (f_request f) (f_state f)).
Proof.
  intros Hf. unfold pack. destruct f as [g x r s]; unfold fields_ok in *; simpl in *.
  unfold PEAK_CALLBACK_INITIAL_DETACH_COUNT_CROSSING_BIT.
  rewrite lor_low; [|lia|apply low_bits_range|lia]. f_equal. destruct x, r, s; reflexivity.
Qed.

Lemma pack_range f : fields_ok f -> 0 <= pack f <= UINT64_MAX.
Proof.
  intros Hf. unfold pack, fields_ok, UINT64_MAX in *.
  pose proof (low_bits_range (f_crossing f) (f_request f) (f_state f)). lia.
Qed.

Lemma pack_clear_request f :
  fields_ok f ->
  Z.land (pack f) (not64 PEAK_CALLBACK_DETACH_COUNT_REQUEST_BIT) =
    pack (mkFields (f_generation f) (f_crossing f) false (f_state f)).
Proof.
  intros Hf. pose proof (pack_range f Hf) as Hr. unfold UINT64_MAX in Hr.
  assert (Z.land (pack f) (not64 PEAK_CALLBACK_DETACH_COUNT_REQUEST_BIT) =
          Z.ldiff (pack f) PEAK_CALLBACK_DETACH_COUNT_REQUEST_BIT) as ->.
  { change (not64 PEAK_CALLBACK_DETACH_COUNT_REQUEST_BIT)
      with (Z.ldiff (Z.ones 64) PEAK_CALLBACK_DETACH_COUNT_REQUEST_BIT).
    apply Z.bits_inj'. intros n Hn. rewrite Z.land_spec, !Z.ldiff_spec.
    destruct (decide (n < 64)); [by rewrite Z.ones_spec_low by lia|].
    rewrite <- (Z.mod_small (pack f) (2 ^ 64)) by lia.
    by rewrite Z.mod_pow2_bits_high by lia. }
  unfold pack. destruct f as [g x r s]; unfold fields_ok in *; simpl in *.
  unfold PEAK_CALLBACK_DETACH_COUNT_REQUEST_BIT. rewrite ldiff_low;
    [|lia|apply low_bits_range|lia]. f_equal. destruct x, r, s; reflexivity.
Qed.

Lemma pack_inj f1 f2 : fields_ok f1 -> fields_ok f2 -> pack f1 = pack f2 -> f1 = f2.
Proof.
  intros H1 H2 E. pose proof (pack_generation f1 H1) as G1.
  rewrite E, (pack_generation f2 H2) in G1. unfold pack in E.
  destruct f1 as [g1 x1 r1 s1], f2 as [g2 x2 r2 s2]; simpl in *.
  assert (g1 = g2) as -> by lia. assert (low_bits x1 r1 s1 = low_bits x2 r2 s2) as El by lia.
  unfold low_bits in El. f_equal; destruct x1, r1, s1, x2, r2, s2; simpl in El; (done || lia).
Qed.

#[export] Instance control_fields_eq_dec : EqDecision control_fields.
Proof. solve_decision. Defined.

Lemma pack_eqb f1 f2 :
  fields_ok f1 -> fields_ok f2 -> (pack f1 =? pack f2) = bool_decide (f1 = f2).
Proof.
  intros H1 H2. case_bool_decide as E; [subst; apply Z.eqb_refl|].
  apply Z.eqb_neq. intros E'. by apply pack_inj in E'.
Qed.

(** The next lifecycle generation, in the 58 bits the word has for it. *)
Definition next_gen (g : Z) : Z := (g + 1) mod 2 ^ 58.

Lemma next_gen_ok g x r s : fields_ok (mkFields (next_gen g) x r s).
Proof. apply Z.mod_pos_bound. lia. Qed.

Definition carries (f : control_fields) (s : PeakHookState) : bool :=
  bool_decide (s = PEAK_HOOK_ATTACHED) && bool_decide (f_state f = PEAK_HOOK_UNRESOLVED)
  && f_crossing f.

Lemma publication_pack f s :
  fields_ok f ->
  state_publication (pack f) s =
    (carries f s, pack (mkFields (next_gen (f_generation f)) false (carries f s) s)).
Proof.
  intros Hf. unfold state_publication. rewrite pack_generation, pack_state, pack_crossing by done.
  rewrite negb_involutive. fold (carries f s). f_equal.
  assert (wrap 64 (64 * f_generation f + PEAK_CALLBACK_HOOK_GENERATION_INCREMENT) =
          64 * next_gen (f_generation f)) as ->.
  { unfold wrap, next_gen, PEAK_CALLBACK_HOOK_GENERATION_INCREMENT.
    replace (64 * f_generation f + 64) with (64 * (f_generation f + 1)) by lia.
    change (2 ^ 64) with (64 * 2 ^ 58). by rewrite Z.mul_mod_distr_l by lia. }
  pose proof (next_gen_ok (f_generation f) false false s) as Hg. unfold fields_ok in Hg.
  simpl in Hg. unfold pack. simpl.
  assert (0 <= hook_state_value s < 64) by (destruct s; simpl; lia).
  rewrite <- lor_high by lia.
  rewrite lor_low; [|lia|lia|destruct (carries f s); cbv; split; congruence].
  f_equal. by destruct (carries f s), s.
Qed.

(** ** Evolution of a word under callbacks and the controller *)

(** [evolve n w w']: any interleaving of callback exchanges, request takes and
    [n] state publications leads from [w] to [w']. *)
Inductive evolve : nat -> Z -> Z -> Prop :=
  | EvolveRefl w : evolve 0 w w
  | EvolveRequest n w w' c :
      evolve n w w' -> evolve n w (try_publish_detach_count_request_snapshot w' c).2
  | EvolveCrossing n w w' c :
      evolve n w w' ->
      evolve n w (try_publish_initial_detach_count_crossing_snapshot w' c).1.2
  | EvolveTake n w w' c :
      evolve n w w' -> evolve n w (take_detach_count_request c w').2
  | EvolvePublish n w w' s :
      evolve n w w' -> evolve (S n) w (state_publication w' s).2.

Lemma request_snapshot_word f c :
  fields_ok f ->
  exists f', fields_ok f' /\ f_generation f' = f_generation f /\
    (try_publish_detach_count_request_snapshot (pack f) c).2 = pack f'.
Proof.
  intros Hf. unfold try_publish_detach_count_request_snapshot, cas.
  branch; [eauto|]. destruct (Z.eqb_spec (pack f) c) as [<-|]; simpl; [|eauto].
  rewrite pack_set_request by done.
  refine (ex_intro _ (mkFields _ _ _ _) (conj _ (conj _ eq_refl))); [exact Hf|done].
Qed.

Lemma crossing_snapshot_word f c :
  fields_ok f ->
  exists f', fields_ok f' /\ f_generation f' = f_generation f /\
    (try_publish_initial_detach_count_crossing_snapshot (pack f) c).1.2 = pack f'.
Proof.
  intros Hf. unfold try_publish_initial_detach_count_crossing_snapshot, cas.
  branch; [eauto|]. destruct (Z.eqb_spec (pack f) c) as [<-|]; simpl; [|eauto].
  rewrite pack_set_crossing by done.
  refine (ex_intro _ (mkFields _ _ _ _) (conj _ (conj _ eq_refl))); [exact Hf|done].
Qed.

Lemma take_word f c :
  fields_ok f ->
  exists f', fields_ok f' /\ f_generation f' = f_generation f /\
    (take_detach_count_request c (pack f)).2 = pack f'.
Proof.
  intros Hf. unfold take_detach_count_request, cas.
  branch; [eauto|]. destruct (Z.eqb_spec (pack f) c) as [<-|]; simpl; [|eauto].
  rewrite pack_clear_request by done.
  refine (ex_intro _ (mkFields _ _ _ _) (conj _ (conj _ eq_refl))); [exact Hf|done].
Qed.

Lemma evolve_generation n w w' f :
  evolve n w w' -> w = pack f -> fields_ok f ->
  exists f', w' = pack f' /\ fields_ok f' /\
    f_generation f' = (f_generation f + Z.of_nat n) mod 2 ^ 58.
Proof.
  intros He -> Hf. remember (pack f) as w eqn:Ew. induction He; subst w.
  - exists f. split_and!; try done. rewrite Z.add_0_r. by rewrite Z.mod_small.
  - destruct IHHe as (f' & -> & Hf' & Hg); [done|].
    destruct (request_snapshot_word f' c Hf') as (f'' & ? & ? & ->).
    exists f''. split_and!; try done. congruence.
  - destruct IHHe as (f' & -> & Hf' & Hg); [done|].
    destruct (crossing_snapshot_word f' c Hf') as (f'' & ? & ? & ->).
    exists f''. split_and!; try done. congruence.
  - destruct IHHe as (f' & -> & Hf' & Hg); [done|].
    destruct (take_word f' c Hf') as (f'' & ? & ? & ->).
    exists f''. split_and!; try done. congruence.
  - destruct IHHe as (f' & -> & Hf' & Hg); [done|]. rewrite publication_pack by done.
    eexists. split_and!; [done|apply next_gen_ok|]. simpl. unfold next_gen. rewrite Hg.
    rewrite Z.add_mod_idemp_l by lia. f_equal. lia.
Qed.

Lemma generation_moved n w w' f :
  evolve n w w' -> w = pack f -> fields_ok f -> 0 < Z.of_nat n < 2 ^ 58 -> w' <> w.
Proof.
  intros He -> Hf Hn E. destruct (evolve_generation n _ _ f He eq_refl Hf) as (f' & -> & Hf' & Hg).
  apply pack_inj in E; [|done|done]. subst f'. unfold fields_ok in Hf.
  destruct (decide (f_generation f + Z.of_nat n < 2 ^ 58)).
  - rewrite Z.mod_small in Hg by lia. lia.
  - replace (f_generation f + Z.of_nat n)
      with (f_generation f + Z.of_nat n - 2 ^ 58 + 1 * 2 ^ 58) in Hg by lia.
    rewrite Z.mod_add, Z.mod_small in Hg by lia. lia.
Qed.


(** ** The callback of a threshold crossing, one atomic step at a time *)

Inductive callback_pc :=
  | CbStart (current_num_calls : Z)
  | CbCrossing (control : Z)
  | CbRequest (control : Z)
  | CbDone (published : bool).

#[export] Instance callback_pc_eq_dec : EqDecision callback_pc.
Proof. solve_decision. Defined.

(** [try_publish_detach_count_request], up to and including its next access to
    the shared word.  [CbStart] tests the threshold and loads the word,
    [CbCrossing] is the exchange that records an UNRESOLVED crossing and the
    decisions that follow it, [CbRequest] the exchange on an ATTACHED
    snapshot. *)
Definition try_publish_detach_count_request (peak_detach_count word : Z) (pc : callback_pc)
    : Z * callback_pc :=
  match pc with
  | CbStart current_num_calls =>
      if negb (current_num_calls =? peak_detach_count) then (word, CbDone false)
      else
        let control := word in
        if hook_state_is control PEAK_HOOK_ATTACHED then (word, CbRequest control)
        else if negb (hook_state_is control PEAK_HOOK_UNRESOLVED) then (word, CbDone false)
        else (word, CbCrossing control)
  | CbCrossing unresolved_control =>
      let '(ok, word', control) :=
        try_publish_initial_detach_count_crossing_snapshot word unresolved_control in
      if ok then (word', CbDone false)
      else if negb (first_attached_generation_is_adjacent unresolved_control control)
      then (word', CbDone false)
      else (word', CbRequest control)
  | CbRequest control =>
      let '(ok, word') := try_publish_detach_count_request_snapshot word control in
      (word', CbDone ok)
  | CbDone b => (word, CbDone b)
  end.

(** The state writer that publishes the first ATTACHED state. *)
Inductive writer_pc :=
  | WrIdle
  | WrLoaded (control : Z)
  | WrDone (carried : bool).

Record attach_race := mkRace {
  race_word : Z;
  race_writer : writer_pc;
  race_callbacks : list callback_pc
}.

(** One atomic step of the race: some callback moves, the writer loads, its
    weak exchange fails (spuriously or not) and reloads, or succeeds. *)
Inductive race_step (count : Z) : attach_race -> attach_race -> Prop :=
  | RaceCallback w wr cbs i pc w' pc' :
      cbs !! i = Some pc ->
      try_publish_detach_count_request count w pc = (w', pc') ->
      race_step count (mkRace w wr cbs) (mkRace w' wr (<[i:=pc']> cbs))
  | RaceLoad w cbs :
      race_step count (mkRace w WrIdle cbs) (mkRace w (WrLoaded w) cbs)
  | RaceCasFail w c cbs :
      race_step count (mkRace w (WrLoaded c) cbs) (mkRace w (WrLoaded w) cbs)
  | RaceCas c cbs carried w' :
      state_publication c PEAK_HOOK_ATTACHED = (carried, w') ->
      race_step count (mkRace c (WrLoaded c) cbs) (mkRace w' (WrDone carried) cbs).

Definition is_done (pc : callback_pc) : bool :=
  match pc with CbDone _ => true | _ => false end.
Definition done_true (pc : callback_pc) : bool :=
  match pc with CbDone b => b | _ => false end.

Section Race.
Context (count g : Z) (Hg : 0 <= g < 2 ^ 58).

Let W0 := pack (mkFields g false false PEAK_HOOK_UNRESOLVED).
Let W0x := pack (mkFields g true false PEAK_HOOK_UNRESOLVED).
Let A := pack (mkFields (next_gen g) false false PEAK_HOOK_ATTACHED).
Let Ar := pack (mkFields (next_gen g) false true PEAK_HOOK_ATTACHED).

(** The program counters a callback can have at each value of the word. *)
Definition callback_at_W0 (pc : callback_pc) : Prop :=
  pc = CbStart count \/ pc = CbCrossing W0.
Definition callback_at_W0x (pc : callback_pc) : Prop :=
  callback_at_W0 pc \/ pc = CbCrossing W0x \/ pc = CbDone false.
Definition callback_at_A (pc : callback_pc) : Prop :=
  callback_at_W0 pc \/ pc = CbRequest A.
Definition callback_at_Ar (pc : callback_pc) : Prop :=
  callback_at_W0x pc \/ callback_at_A pc \/ pc = CbRequest Ar \/ pc = CbDone true.

Definition race_inv (r : attach_race) : Prop :=
  let '(mkRace w wr cbs) := r in
  (w = W0 /\ (wr = WrIdle \/ wr = WrLoaded W0) /\ Forall callback_at_W0 cbs) \/
  (w = W0x /\ (wr = WrIdle \/ wr = WrLoaded W0 \/ wr = WrLoaded W0x) /\
     Forall callback_at_W0x cbs /\ countb done_true cbs = 0%nat) \/
  (w = A /\ wr = WrDone false /\ Forall callback_at_A cbs) \/
  (w = Ar /\ exists c, wr = WrDone c /\ Forall callback_at_Ar cbs /\
     (countb done_true cbs + Nat.b2n c = 1)%nat).

Lemma race_words_ok x r s g' : g' = g \/ g' = next_gen g -> fields_ok (mkFields g' x r s).
Proof. intros [->| ->]; [exact Hg|apply next_gen_ok]. Qed.

Lemma next_gen_ne : next_gen g <> g.
Proof.
  unfold next_gen. destruct (decide (g + 1 < 2 ^ 58)).
  - rewrite Z.mod_small by lia. lia.
  - replace (g + 1) with (2 ^ 58) by lia. rewrite Z.mod_same by lia. lia.
Qed.

Lemma adjacent_pack x r x' r' s' :
  first_attached_generation_is_adjacent
    (pack (mkFields g x r PEAK_HOOK_UNRESOLVED)) (pack (mkFields (next_gen g) x' r' s'))
  = bool_decide (s' = PEAK_HOOK_ATTACHED).
Proof.
  unfold first_attached_generation_is_adjacent.
  rewrite !pack_state, !pack_generation by (apply race_words_ok; auto). simpl.
  destruct (decide (s' = PEAK_HOOK_ATTACHED)) as [->|Hs].
  - rewrite bool_decide_eq_true_2 by done. simpl. apply Z.eqb_eq.
    unfold wrap, next_gen, PEAK_CALLBACK_HOOK_GENERATION_INCREMENT.
    replace (64 * g + 64) with (64 * (g + 1)) by lia.
    change (2 ^ 64) with (64 * 2 ^ 58). by rewrite Z.mul_mod_distr_l by lia.
  - by rewrite bool_decide_eq_false_2.
Qed.

Lemma snapshot_request_pack f c :
  fields_ok f -> fields_ok c ->
  try_publish_detach_count_request_snapshot (pack f) (pack c) =
    if bool_decide (f = c) && bool_decide (f_state c = PEAK_HOOK_ATTACHED)
       && negb (f_request c)
    then (true, pack (mkFields (f_generation c) (f_crossing c) true (f_state c)))
    else (false, pack f).
Proof.
  intros Hf Hc. unfold try_publish_detach_count_request_snapshot, cas.
  rewrite pack_state, pack_request, negb_involutive, pack_set_request, pack_eqb by done.
  repeat case_bool_decide; simpl; by destruct (f_request c).
Qed.

Lemma snapshot_crossing_pack f c :
  fields_ok f -> fields_ok c ->
  try_publish_initial_detach_count_crossing_snapshot (pack f) (pack c) =
    if bool_decide (f_state c = PEAK_HOOK_UNRESOLVED) && negb (f_request c)
       && negb (f_crossing c)
    then if bool_decide (f = c)
         then (true, pack (mkFields (f_generation c) true (f_request c) (f_state c)), pack c)
         else (false, pack f, pack f)
    else (false, pack f, pack c).
Proof.
  intros Hf Hc. unfold try_publish_initial_detach_count_crossing_snapshot, cas.
  rewrite pack_state, pack_callback_bits, pack_set_crossing, pack_eqb by done.
  repeat case_bool_decide; simpl; by destruct (f_request c), (f_crossing c).
Qed.

Lemma adjacent_same f f' :
  fields_ok f -> fields_ok f' -> f_state f' = PEAK_HOOK_UNRESOLVED ->
  first_attached_generation_is_adjacent (pack f) (pack f') = false.
Proof.
  intros Hf Hf' Hs. unfold first_attached_generation_is_adjacent.
  rewrite (pack_state f') by done. rewrite Hs. simpl. by rewrite andb_false_r.
Qed.

(** Evaluates one callback step on the four words of the race. *)
Ltac race_eval H :=
  unfold try_publish_detach_count_request in H; unfold W0, W0x, A, Ar in *;
  repeat first
    [ rewrite Z.eqb_refl in H
    | rewrite snapshot_request_pack in H by (apply race_words_ok; auto)
    | rewrite snapshot_crossing_pack in H by (apply race_words_ok; auto)
    | rewrite adjacent_pack in H
    | rewrite adjacent_same in H by (try (apply race_words_ok; auto); done)
    | rewrite !pack_state in H by (apply race_words_ok; auto)
    | progress simpl in H
    | rewrite bool_decide_eq_true_2 in H by done
    | rewrite bool_decide_eq_false_2 in H
        by (let E := fresh in intros E; injection E; intros; try done;
            pose proof next_gen_ne; congruence) ];
  simplify_eq.

Lemma step_W0 pc w' pc' :
  callback_at_W0 pc -> try_publish_detach_count_request count W0 pc = (w', pc') ->
  (w' = W0 /\ callback_at_W0 pc') \/ (w' = W0x /\ pc' = CbDone false).
Proof. intros [->| ->] H; race_eval H; unfold callback_at_W0; tauto. Qed.

Lemma step_W0x pc w' pc' :
  callback_at_W0x pc -> try_publish_detach_count_request count W0x pc = (w', pc') ->
  w' = W0x /\ callback_at_W0x pc' /\ done_true pc' = done_true pc.
Proof.
  intros [[->| ->]|[->| ->]] H; race_eval H; unfold callback_at_W0x; simpl; tauto.
Qed.

Lemma step_A pc w' pc' :
  callback_at_A pc -> try_publish_detach_count_request count A pc = (w', pc') ->
  done_true pc = false /\
  ((w' = A /\ callback_at_A pc') \/ (w' = Ar /\ pc' = CbDone true)).
Proof.
  intros [[->| ->]| ->] H; race_eval H; unfold callback_at_A; simpl; tauto.
Qed.

Lemma step_Ar pc w' pc' :
  callback_at_Ar pc -> try_publish_detach_count_request count Ar pc = (w', pc') ->
  w' = Ar /\ callback_at_Ar pc' /\ done_true pc' = done_true pc.
Proof.
  intros [[[->| ->]|[->| ->]]|[[[->| ->]| ->]|[->| ->]]] H; race_eval H;
    unfold callback_at_Ar, callback_at_A, callback_at_W0x, callback_at_W0; simpl; tauto.
Qed.

Lemma done_true_W0 cbs : Forall callback_at_W0 cbs -> countb done_true cbs = 0%nat.
Proof. induction 1 as [|pc cbs [->| ->] _ IH]; simpl; [done|exact IH..]. Qed.

Lemma done_true_A cbs : Forall callback_at_A cbs -> countb done_true cbs = 0%nat.
Proof. induction 1 as [|pc cbs [[->| ->]| ->] _ IH]; simpl; [done|exact IH..]. Qed.

Lemma race_inv_callback w wr cbs i pc w' pc' :
  race_inv (mkRace w wr cbs) -> cbs !! i = Some pc ->
  try_publish_detach_count_request count w pc = (w', pc') ->
  race_inv (mkRace w' wr (<[i:=pc']> cbs)).
Proof.
  intros Hinv Hi Hstep. pose proof (countb_insert done_true cbs i pc pc' Hi) as Hc.
  destruct Hinv as [(->&Hw&HF)|[(->&Hw&HF&H0)|[(->&Hw&HF)|(->&c&Hw&HF&H0)]]];
    pose proof (Forall_lookup_1 _ _ _ _ HF Hi) as Hpc; simpl.
  - pose proof (done_true_W0 _ HF).
    destruct (step_W0 _ _ _ Hpc Hstep) as [[-> Hpc']|[-> ->]].
    + left. split_and!; try done. by apply Forall_insert.
    + right; left. split_and!; [done|tauto| |].
      * apply Forall_insert; [|by right; right].
        eapply Forall_impl; [exact HF|]. intros ??. by left.
      * destruct Hpc as [->| ->]; simpl in *; lia.
  - destruct (step_W0x _ _ _ Hpc Hstep) as (->&Hpc'&E). right; left.
    split_and!; try done; [by apply Forall_insert|]. rewrite E in Hc. lia.
  - pose proof (done_true_A _ HF).
    destruct (step_A _ _ _ Hpc Hstep) as [E [[-> Hpc']|[-> ->]]].
    + right; right; left. split_and!; try done. by apply Forall_insert.
    + right; right; right. split; [done|]. exists false. split_and!; [done| |].
      * apply Forall_insert; [|by right; right; right].
        eapply Forall_impl; [exact HF|]. intros ??. by right; left.
      * rewrite E in Hc. simpl in *. lia.
  - destruct (step_Ar _ _ _ Hpc Hstep) as (->&Hpc'&E). right; right; right.
    split; [done|]. exists c. split_and!; [done|by apply Forall_insert|].
    rewrite E in Hc. lia.
Qed.

Lemma publication_W0 :
  state_publication W0 PEAK_HOOK_ATTACHED = (false, A).
Proof. unfold W0. by rewrite publication_pack by (apply race_words_ok; auto). Qed.

Lemma publication_W0x :
  state_publication W0x PEAK_HOOK_ATTACHED = (true, Ar).
Proof. unfold W0x. by rewrite publication_pack by (apply race_words_ok; auto). Qed.

Lemma W0x_ne_W0 : W0x <> W0.
Proof. unfold W0x, W0. intros E. apply pack_inj in E; [done|apply race_words_ok; auto..]. Qed.

Lemma race_inv_step r r' : race_inv r -> race_step count r r' -> race_inv r'.
Proof.
  intros Hinv Hs. destruct Hs as [w wr cbs i pc w' pc' Hi Hst|w cbs|w c cbs|c cbs b w' Hp].
  - by eapply race_inv_callback.
  - destruct Hinv as [(->&Hw&HF)|[(->&Hw&HF&H0)|[(->&Hw&HF)|(->&c&Hw&HF&H0)]]]; try done.
    + left. split_and!; auto.
    + right; left. split_and!; auto.
  - destruct Hinv as [(->&Hw&HF)|[(->&Hw&HF&H0)|[(->&Hw&HF)|(->&c'&Hw&HF&H0)]]]; try done.
    + left. split_and!; auto.
    + right; left. split_and!; auto.
  - destruct Hinv as [(->&Hw&HF)|[(->&Hw&HF&H0)|[(->&Hw&HF)|(->&c'&Hw&HF&H0)]]]; try done.
    + rewrite publication_W0 in Hp. simplify_eq. right; right; left. split_and!; try done.
      eapply Forall_impl; [exact HF|]. intros ??. by left.
    + rewrite publication_W0x in Hp. simplify_eq. right; right; right. split; [done|].
      exists true. split_and!; [done| |simpl; lia].
      eapply Forall_impl; [exact HF|]. intros ??. by left.
Qed.

Lemma race_inv_reachable r0 r :
  rtc (race_step count) r0 r -> race_inv r0 ->
  race_inv r /\ length (race_callbacks r) = length (race_callbacks r0).
Proof.
  induction 1 as [r0|r0 r1 r2 Hs Hrest IH]; intros Hi; [done|].
  destruct IH as [Hf ->]; [by eapply race_inv_step|].
  split; [done|]. destruct Hs; simpl; by rewrite ?length_insert.
Qed.

Lemma race_inv_init cbs :
  Forall (fun pc => pc = CbStart count) cbs -> race_inv (mkRace W0 WrIdle cbs).
Proof.
  intros H. left. split_and!; auto. eapply Forall_impl; [exact H|]. intros ??. by left.
Qed.

Lemma race_inv_final cbs w c :
  race_inv (mkRace w (WrDone c) cbs) -> forallb is_done cbs = true -> cbs <> [] ->
  w = Ar /\ (countb done_true cbs + Nat.b2n c = 1)%nat.
Proof.
  intros Hinv Hd Hne.
  destruct Hinv as [(->&Hw&HF)|[(->&Hw&HF&H0)|[(->&Hw&HF)|(->&c'&Hw&HF&H0)]]]; simplify_eq.
  - destruct Hw; done.
  - destruct Hw as [|[|]]; done.
  - destruct cbs as [|pc cbs]; [done|]. apply Forall_cons in HF as [Hpc _].
    destruct Hpc as [[->| ->]| ->]; done.
  - done.
Qed.
End Race.

(** The number of own steps a callback still makes. *)
Definition callback_rank (pc : callback_pc) : nat :=
  match pc with CbStart _ => 3 | CbCrossing _ => 2 | CbRequest _ => 1 | CbDone _ => 0 end.

Lemma callback_rank_decreases count w pc :
  is_done pc = false ->
  (callback_rank (try_publish_detach_count_request count w pc).2 < callback_rank pc)%nat.
Proof.
  intros H. destruct pc; simpl in *; repeat (branch; simpl); try lia; done.
Qed.

(** ** Words as the code sees them *)

Definition valid_word (w : Z) : Prop := is_u64 w /\ callback_hook_state w <= 7.

Definition state_of_value (v : Z) : PeakHookState :=
  if v =? 0 then PEAK_HOOK_UNRESOLVED else if v =? 1 then PEAK_HOOK_ATTACHED
  else if v =? 2 then PEAK_HOOK_DETACH_REQUESTED else if v =? 3 then PEAK_HOOK_DETACHING
  else if v =? 4 then PEAK_HOOK_DETACHED else if v =? 5 then PEAK_HOOK_REATTACH_REQUESTED
  else if v =? 6 then PEAK_HOOK_REATTACHING else PEAK_HOOK_SHUTDOWN.

Lemma valid_word_packed w : valid_word w -> exists f, fields_ok f /\ w = pack f.
Proof.
  intros [Hw Hs]. unfold is_u64, UINT64_MAX in Hw. unfold callback_hook_state in Hs.
  change PEAK_CALLBACK_HOOK_STATE_MASK with (Z.ones 4) in Hs.
  rewrite Z.land_ones in Hs by lia. change (2 ^ 4) with 16 in Hs.
  pose proof (Z.div_mod w 16 ltac:(lia)) as E1. pose proof (Z.mod_pos_bound w 16 ltac:(lia)).
  pose proof (Z.div_mod (w / 16) 4 ltac:(lia)) as E2.
  pose proof (Z.mod_pos_bound (w / 16) 4 ltac:(lia)).
  set (b := w / 16 mod 4) in *. set (v := w mod 16) in *. set (g := w / 16 / 4) in *.
  exists (mkFields g (2 <=? b) ((b =? 1) || (b =? 3)) (state_of_value v)).
  split; [unfold fields_ok; simpl; lia|]. unfold pack, low_bits; simpl.
  assert (hook_state_value (state_of_value v) = v) as ->.
  { assert (v = 0 \/ v = 1 \/ v = 2 \/ v = 3 \/ v = 4 \/ v = 5 \/ v = 6 \/ v = 7)
      as [->|[->|[->|[->|[->|[->|[->| ->]]]]]]] by lia; reflexivity. }
  assert (b = 0 \/ b = 1 \/ b = 2 \/ b = 3) as [E|[E|[E|E]]] by lia;
    rewrite E in *; simpl; lia.
Qed.

Lemma publish_loop_last w s failures :
  publish_callback_hook_state w s failures = state_publication (List.last failures w) s.
Proof.
  revert w. induction failures as [|o failures IH]; intros w; [done|].
  simpl publish_callback_hook_state. rewrite IH. destruct failures as [|o' failures]; [done|].
  f_equal. clear. revert o' w o. induction failures as [|z l IH]; intros; [done|]. apply (IH z).
Qed.

Lemma pack_valid f : fields_ok f -> valid_word (pack f).
Proof.
  intros Hf. split; [apply pack_range, Hf|]. unfold callback_hook_state, pack,
    PEAK_CALLBACK_HOOK_STATE_MASK. destruct f as [g x r s]; unfold fields_ok in *; simpl in *.
  rewrite land_low; [|lia|apply low_bits_range|lia]. destruct x, r, s; vm_compute; congruence.
Qed.

(** ** Properties *)

(** the state writer's compare-exchange loop, after any number of failed
    exchanges, publishes a word that decodes to exactly the new state, to the
    next generation of the word it replaced, with no crossing bit, and with
    the request bit set exactly when the writer reports that it carried an
    initial crossing, that is when the first ATTACHED state replaces an
    UNRESOLVED word whose crossing bit is set. *)
Theorem publish_state_decodes w s failures carried w' :
  valid_word (List.last failures w) ->
  publish_callback_hook_state w s failures = (carried, w') ->
  valid_word w' /\
  (forall s', hook_state_is w' s' = bool_decide (s = s')) /\
  generation_bits w' =
    wrap 64 (generation_bits (List.last failures w) + PEAK_CALLBACK_HOOK_GENERATION_INCREMENT) /\
  Z.land w' PEAK_CALLBACK_INITIAL_DETACH_COUNT_CROSSING_BIT = 0 /\
  (Z.land w' PEAK_CALLBACK_DETACH_COUNT_REQUEST_BIT <> 0 <-> carried = true) /\
  (carried = true <->
     s = PEAK_HOOK_ATTACHED /\
     hook_state_is (List.last failures w) PEAK_HOOK_UNRESOLVED = true /\
     Z.land (List.last failures w) PEAK_CALLBACK_INITIAL_DETACH_COUNT_CROSSING_BIT <> 0).
Proof.
  rewrite publish_loop_last. generalize (List.last failures w). clear. intros c Hc Hp.
  destruct (valid_word_packed c Hc) as (f & Hf & ->).
  rewrite publication_pack in Hp by done. injection Hp as <- <-.
  pose proof (next_gen_ok (f_generation f) false (carries f s) s) as Hf'.
  split_and!.
  - by apply pack_valid.
  - intros s'. by rewrite pack_state.
  - rewrite !pack_generation by done. simpl.
    unfold wrap, next_gen, PEAK_CALLBACK_HOOK_GENERATION_INCREMENT.
    replace (64 * f_generation f + 64) with (64 * (f_generation f + 1)) by lia.
    change (2 ^ 64) with (64 * 2 ^ 58). by rewrite Z.mul_mod_distr_l by lia.
  - apply Z.eqb_eq. by rewrite pack_crossing.
  - rewrite <- Z.eqb_neq, pack_request by done. simpl. by destruct (carries f s).
  - rewrite <- Z.eqb_neq, pack_crossing, pack_state by done. unfold carries.
    rewrite !andb_true_iff, negb_false_iff, !bool_decide_eq_true. tauto.
Qed.

Lemma publish_state_decodes_witness :
  Z.land (publish_callback_hook_state 0 PEAK_HOOK_ATTACHED [0x20]).2
    PEAK_CALLBACK_INITIAL_DETACH_COUNT_CROSSING_BIT = 0.
Proof.
  apply (publish_state_decodes 0 PEAK_HOOK_ATTACHED [0x20] true 0x51);
    [vm_compute; repeat split; congruence|reflexivity].
Defined.

(** no exchange on a stale snapshot succeeds.  If between a callback's (or
    the controller's) load of a word and its exchange the state writer has
    published at least once, and fewer than 2^58 times, then whatever other
    exchanges were interleaved, publishing a request, recording a crossing and
    taking a request from that snapshot all fail and leave the word alone,
    even when the hook is back in the same state. *)
Theorem stale_snapshot_rejected n w w' :
  valid_word w -> evolve n w w' -> 0 < Z.of_nat n < 2 ^ 58 ->
  try_publish_detach_count_request_snapshot w' w = (false, w') /\
  (try_publish_initial_detach_count_crossing_snapshot w' w).1 = (false, w') /\
  take_detach_count_request w w' = (false, w').
Proof.
  intros Hw He Hn. destruct (valid_word_packed w Hw) as (f & Hf & ->).
  pose proof (generation_moved n _ _ f He eq_refl Hf Hn) as Hne. apply Z.eqb_neq in Hne.
  unfold try_publish_detach_count_request_snapshot,
    try_publish_initial_detach_count_crossing_snapshot, take_detach_count_request, cas.
  rewrite Hne. split_and!; by branch.
Qed.

Lemma stale_snapshot_rejected_witness :
  let w := 0x41 in
  let w1 := (state_publication w PEAK_HOOK_DETACHED).2 in
  let w2 := (state_publication w1 PEAK_HOOK_ATTACHED).2 in
  hook_state_is w PEAK_HOOK_ATTACHED = true /\ hook_state_is w2 PEAK_HOOK_ATTACHED = true /\
  try_publish_detach_count_request_snapshot w2 w = (false, w2).
Proof.
  intros w w1 w2. split; [reflexivity|]. split; [reflexivity|].
  apply (stale_snapshot_rejected 2 w w2); [vm_compute; repeat split; congruence| |lia].
  apply (EvolvePublish 1 w w1 PEAK_HOOK_ATTACHED).
  apply (EvolvePublish 0 w w PEAK_HOOK_DETACHED), EvolveRefl.
Defined.

(** C17: a threshold crossing that races with the first ATTACHED publication is
    neither lost nor duplicated.  Any number of callbacks that reach the
    detach count on a hook of any generation, interleaved in any order with
    the state writer, whose weak exchange may fail at will: once the writer
    and all callbacks are done, the word is ATTACHED in the next generation
    with its request bit set, and exactly one party reports having published
    the request, one callback or the writer. *)
Theorem initial_crossing_not_lost count g cbs r :
  0 <= g < 2 ^ 58 -> cbs <> [] -> Forall (fun pc => pc = CbStart count) cbs ->
  rtc (race_step count)
    (mkRace (pack (mkFields g false false PEAK_HOOK_UNRESOLVED)) WrIdle cbs) r ->
  forall carried, race_writer r = WrDone carried -> forallb is_done (race_callbacks r) = true ->
  race_word r = pack (mkFields (next_gen g) false true PEAK_HOOK_ATTACHED) /\
  (countb done_true (race_callbacks r) + Nat.b2n carried = 1)%nat.
Proof.
  intros Hg Hne Hcbs Hr carried Hw Hd.
  destruct (race_inv_reachable count g Hg _ _ Hr) as [Hinv Hlen]; [by apply race_inv_init|].
  destruct r as [w wr cbs']; simpl in *. subst wr.
  eapply race_inv_final; [exact Hinv|done|]. intros ->. by destruct cbs.
Qed.

(** Two callbacks: the first records the crossing before the writer's load, the
    second loads the UNRESOLVED word and loses its exchange. *)
Lemma initial_crossing_not_lost_witness :
  exists r, rtc (race_step 5)
    (mkRace (pack (mkFields 7 false false PEAK_HOOK_UNRESOLVED)) WrIdle [CbStart 5; CbStart 5]) r /\
  race_word r = pack (mkFields 8 false true PEAK_HOOK_ATTACHED) /\
  countb done_true (race_callbacks r) = 0%nat.
Proof.
  assert (Hr : rtc (race_step 5)
    (mkRace (pack (mkFields 7 false false PEAK_HOOK_UNRESOLVED)) WrIdle [CbStart 5; CbStart 5])
    (mkRace 0x211 (WrDone true) [CbDone false; CbDone false])).
  { change (pack _) with 0x1c0.
    apply (rtc_l _ _ (mkRace 0x1c0 (WrIdle) [CbCrossing 0x1c0; CbStart 5]));
      [apply (RaceCallback 5 0x1c0 (WrIdle) [CbStart 5; CbStart 5] 0 (CbStart 5) 0x1c0 (CbCrossing 0x1c0)); reflexivity|].
    apply (rtc_l _ _ (mkRace 0x1c0 (WrIdle) [CbCrossing 0x1c0; CbCrossing 0x1c0]));
      [apply (RaceCallback 5 0x1c0 (WrIdle) [CbCrossing 0x1c0; CbStart 5] 1 (CbStart 5) 0x1c0 (CbCrossing 0x1c0)); reflexivity|].
    apply (rtc_l _ _ (mkRace 0x1e0 (WrIdle) [CbDone false; CbCrossing 0x1c0]));
      [apply (RaceCallback 5 0x1c0 (WrIdle) [CbCrossing 0x1c0; CbCrossing 0x1c0] 0 (CbCrossing 0x1c0) 0x1e0 (CbDone false)); reflexivity|].
    apply (rtc_l _ _ (mkRace 0x1e0 (WrLoaded 0x1e0) [CbDone false; CbCrossing 0x1c0]));
      [apply RaceLoad|].
    apply (rtc_l _ _ (mkRace 0x211 (WrDone true) [CbDone false; CbCrossing 0x1c0]));
      [by apply RaceCas|].
    apply (rtc_l _ _ (mkRace 0x211 (WrDone true) [CbDone false; CbRequest 0x211]));
      [apply (RaceCallback 5 0x211 (WrDone true) [CbDone false; CbCrossing 0x1c0] 1 (CbCrossing 0x1c0) 0x211 (CbRequest 0x211)); reflexivity|].
    apply (rtc_l _ _ (mkRace 0x211 (WrDone true) [CbDone false; CbDone false]));
      [apply (RaceCallback 5 0x211 (WrDone true) [CbDone false; CbRequest 0x211] 1 (CbRequest 0x211) 0x211 (CbDone false)); reflexivity|].
    apply rtc_refl. }
  eexists. split; [exact Hr|].
  destruct (initial_crossing_not_lost 5 7 [CbStart 5; CbStart 5] _ ltac:(lia) ltac:(discriminate)
    ltac:(repeat constructor) Hr true eq_refl eq_refl) as [H1 H2].
  split; [exact H1|reflexivity].
Defined.
