(* ===== verification/HookStatus.v ===== *)
(** * The published hook-status cells

    Models the status mirror of [src/general_listener.c]: a linked list of
    64-cell chunks, newest first, that the lifecycle writer grows and stores
    into and that [peak_general_listener_hook_state] reads without the lock.
    [calloc] is an oracle over its call index, so every allocation may fail.
    The list of chunks is refined to one flat array of states. *)

From S2P Require Import Prelude HookControl.

Definition PEAK_HOOK_STATUS_CHUNK_SIZE : nat := 64.

Record PeakHookStatusChunk := mkChunk {
  base : nat;
  states : list PeakHookState
}.

(** [root] is the chain of [next] pointers from [peak_hook_status_root]. *)
Record hook_status := mkStatus {
  root : list PeakHookStatusChunk;
  capacity : nat;
  published_count : nat
}.

Definition initial_status : hook_status := mkStatus [] 0 0.

Fixpoint chunk_for (hook_id : nat) (chunk : list PeakHookStatusChunk)
    : option PeakHookStatusChunk :=
  match chunk with
  | [] => None
  | c :: next =>
      if (base c <=? hook_id)%nat && (hook_id - base c <? PEAK_HOOK_STATUS_CHUNK_SIZE)%nat
      then Some c else chunk_for hook_id next
  end.

(** Frees the chunks in front of [old_root]; returns how many. *)
Fixpoint release_until (new_root old_root : list PeakHookStatusChunk) : nat :=
  if (length new_root =? length old_root)%nat then 0
  else match new_root with [] => 0 | _ :: next => S (release_until next old_root) end.

(** What a call of [reserve] reports besides the new state: its result and the
    numbers of chunks allocated and freed. *)
Record reserve_result := mkReserve {
  reserved : bool;
  chunks_allocated : nat;
  chunks_freed : nat
}.

(** The allocation loop.  Every iteration grows the capacity, so [count]
    iterations are enough. *)
Fixpoint reserve_loop (fuel : nat) (calloc : nat -> bool) (count : nat)
    (old_root new_root : list PeakHookStatusChunk) (new_capacity allocated : nat)
    : reserve_result * option (list PeakHookStatusChunk * nat) :=
  match fuel with
  | O => (mkReserve false allocated 0, None)
  | S fuel =>
      if (new_capacity <? count)%nat then
        if calloc allocated then
          let chunk := mkChunk new_capacity
            (replicate PEAK_HOOK_STATUS_CHUNK_SIZE PEAK_HOOK_UNRESOLVED) in
          reserve_loop fuel calloc count old_root (chunk :: new_root)
            (new_capacity + PEAK_HOOK_STATUS_CHUNK_SIZE)%nat (S allocated)
        else (mkReserve false allocated (release_until new_root old_root), None)
      else (mkReserve true allocated 0, Some (new_root, new_capacity))
  end.

Definition reserve (calloc : nat -> bool) (count : nat) (s : hook_status)
    : reserve_result * hook_status :=
  if Z.of_nat count >? SIZE_MAX - (Z.of_nat PEAK_HOOK_STATUS_CHUNK_SIZE - 1)
  then (mkReserve false 0 0, s)
  else
    match reserve_loop (S count) calloc count (root s) (root s) (capacity s) 0 with
    | (r, Some (new_root, new_capacity)) =>
        (r, mkStatus new_root new_capacity (published_count s))
    | (r, None) => (r, s)
    end.

Definition reset_cells (limit : nat) (cells : list PeakHookState) : list PeakHookState :=
  replicate (limit `min` length cells) PEAK_HOOK_UNRESOLVED ++ drop limit cells.

Fixpoint reset_chunks (count : nat) (chunk : list PeakHookStatusChunk)
    : list PeakHookStatusChunk :=
  match chunk with
  | [] => []
  | c :: next =>
      (if (base c <? count)%nat then
         let limit := (count - base c)%nat in
         let limit := if (PEAK_HOOK_STATUS_CHUNK_SIZE <? limit)%nat
                      then PEAK_HOOK_STATUS_CHUNK_SIZE else limit in
         mkChunk (base c) (reset_cells limit (states c))
       else c) :: reset_chunks count next
  end.

Definition reset_prefix (count : nat) (s : hook_status) : hook_status :=
  mkStatus (reset_chunks count (root s)) (capacity s) (published_count s).

Fixpoint store_in (hook_id : nat) (state : PeakHookState) (chunk : list PeakHookStatusChunk)
    : option (list PeakHookStatusChunk) :=
  match chunk with
  | [] => None
  | c :: next =>
      if (base c <=? hook_id)%nat && (hook_id - base c <? PEAK_HOOK_STATUS_CHUNK_SIZE)%nat
      then Some (mkChunk (base c) (<[hook_id - base c := state]> (states c))%nat :: next)
      else next' ← store_in hook_id state next; Some (c :: next')
  end.

(** [None] is [g_error]: the process aborts. *)
Definition store (hook_id : nat) (state : PeakHookState) (s : hook_status)
    : option hook_status :=
  r ← store_in hook_id state (root s); Some (mkStatus r (capacity s) (published_count s)).

Definition publish_count (count : nat) (s : hook_status) : hook_status :=
  mkStatus (root s) (capacity s) count.

(** [peak_general_listener_hook_state].  A cell outside its chunk is never read. *)
Definition hook_state (hook_id : nat) (s : hook_status) : PeakHookState :=
  if (published_count s <=? hook_id)%nat then PEAK_HOOK_UNRESOLVED
  else match chunk_for hook_id (root s) with
       | None => PEAK_HOOK_UNRESOLVED
       | Some c => default PEAK_HOOK_UNRESOLVED (states c !! (hook_id - base c)%nat)
       end.

(** ** The flat array *)

(** Chunks are contiguous and full, the newest at the top. *)
Fixpoint chunks_ok (chunks : list PeakHookStatusChunk) (cap : nat) : Prop :=
  match chunks with
  | [] => cap = 0%nat
  | c :: next =>
      cap = (base c + PEAK_HOOK_STATUS_CHUNK_SIZE)%nat /\
      length (states c) = PEAK_HOOK_STATUS_CHUNK_SIZE /\ chunks_ok next (base c)
  end.

Fixpoint flat (chunks : list PeakHookStatusChunk) : list PeakHookState :=
  match chunks with [] => [] | c :: next => flat next ++ states c end.

Definition cells (s : hook_status) : list PeakHookState := flat (root s).

Definition wf (s : hook_status) : Prop :=
  chunks_ok (root s) (capacity s) /\ (published_count s <= capacity s)%nat.

Lemma flat_length chunks cap : chunks_ok chunks cap -> length (flat chunks) = cap.
Proof.
  revert cap. induction chunks as [|c next IH]; intros cap; simpl; [by intros ->|].
  intros (-> & Hl & Hn). rewrite length_app, (IH _ Hn). lia.
Qed.

Lemma chunk_for_flat chunks cap i :
  chunks_ok chunks cap ->
  match chunk_for i chunks with
  | Some c => flat chunks !! i = states c !! (i - base c)%nat /\ (i < cap)%nat
  | None => (cap <= i)%nat
  end.
Proof.
  revert cap. induction chunks as [|c next IH]; intros cap; simpl; [intros ->; lia|].
  intros (-> & Hl & Hn). pose proof (flat_length _ _ Hn) as Hfl.
  destruct (_ && _) eqn:E; breflect.
  - split; [|lia]. rewrite lookup_app_r by lia. by rewrite Hfl.
  - specialize (IH _ Hn). apply andb_false_iff in E.
    destruct (chunk_for i next) as [c'|]; [destruct IH as [IH1 IH2]|].
    + split; [|lia]. by rewrite lookup_app_l by lia.
    + destruct E; breflect; lia.
Qed.

Lemma store_in_flat chunks cap i st :
  chunks_ok chunks cap ->
  match store_in i st chunks with
  | Some chunks' => (i < cap)%nat /\ chunks_ok chunks' cap /\ flat chunks' = <[i:=st]> (flat chunks)
  | None => (cap <= i)%nat
  end.
Proof.
  revert cap. induction chunks as [|c next IH]; intros cap; simpl; [intros ->; lia|].
  intros (-> & Hl & Hn). pose proof (flat_length _ _ Hn) as Hfl.
  destruct (_ && _) eqn:E; breflect; simpl.
  - split_and!; [lia|done|by rewrite length_insert|done|].
    rewrite insert_app_r_alt by lia. by rewrite Hfl.
  - specialize (IH _ Hn). apply andb_false_iff in E.
    destruct (store_in i st next) as [next'|]; simpl.
    + destruct IH as (Hi & Hok & ->). split_and!; try done; [lia|].
      by rewrite insert_app_l by lia.
    + destruct E; breflect; lia.
Qed.

Lemma reset_cells_length limit l : (limit <= length l)%nat -> length (reset_cells limit l) = length l.
Proof. intros. unfold reset_cells. rewrite length_app, length_replicate, length_drop. lia. Qed.

Lemma reset_chunks_flat chunks cap count :
  chunks_ok chunks cap ->
  chunks_ok (reset_chunks count chunks) cap /\
  flat (reset_chunks count chunks) = reset_cells count (flat chunks).
Proof.
  revert cap. induction chunks as [|c next IH]; intros cap; simpl.
  - intros ->. split; [done|]. unfold reset_cells. simpl. by rewrite Nat.min_0_r, drop_nil.
  - intros (-> & Hl & Hn). destruct (IH _ Hn) as [Hok ->].
    pose proof (flat_length _ _ Hn) as Hfl. unfold PEAK_HOOK_STATUS_CHUNK_SIZE in *.
    set (limit := if (64 <? count - base c)%nat then 64%nat else (count - base c)%nat).
    assert (limit = 64 `min` (count - base c))%nat as Hlim.
    { unfold limit. destruct (Nat.ltb_spec 64 (count - base c)); lia. }
    destruct (Nat.ltb_spec (base c) count); simpl.
    + split_and!; try done; [rewrite reset_cells_length by lia; lia|].
      unfold reset_cells. rewrite (drop_ge (flat next)) by lia.
      rewrite app_nil_r, length_app, drop_app_ge, Hfl, Hl, app_assoc by lia.
      rewrite <- replicate_add. f_equal; [f_equal; lia|].
      destruct (decide (count - base c <= 64)%nat).
      * f_equal. lia.
      * rewrite !drop_ge by lia. done.
    + split_and!; try done. unfold reset_cells.
      rewrite length_app, drop_app_le, app_assoc by lia. f_equal. f_equal. f_equal. lia.
Qed.

Lemma release_until_count extra old_root :
  release_until (extra ++ old_root) old_root = length extra.
Proof.
  induction extra as [|c extra IH].
  - simpl. destruct old_root; simpl; [done|]. by rewrite Nat.eqb_refl.
  - change (release_until ((c :: extra) ++ old_root) old_root) with
      (if (length ((c :: extra) ++ old_root) =? length old_root)%nat then 0%nat
       else S (release_until (extra ++ old_root) old_root)).
    rewrite IH, (proj2 (Nat.eqb_neq _ _)); [done|]. rewrite length_app. simpl. lia.
Qed.

Lemma reserve_loop_flat fuel calloc count old extra cap allocated r res :
  chunks_ok (extra ++ old) cap -> allocated = length extra ->
  (0 < fuel)%nat -> (count < fuel + cap)%nat ->
  reserve_loop fuel calloc count old (extra ++ old) cap allocated = (r, res) ->
  match res with
  | Some (new_root, new_cap) =>
      reserved r = true /\ chunks_freed r = 0%nat /\ chunks_ok new_root new_cap /\
      (count <= new_cap)%nat /\ (cap <= new_cap <= cap `max` (count + 63))%nat /\
      flat new_root =
        flat (extra ++ old) ++ replicate (new_cap - cap) PEAK_HOOK_UNRESOLVED
  | None =>
      reserved r = false /\ chunks_freed r = chunks_allocated r /\
      calloc (chunks_allocated r) = false
  end.
Proof.
  revert extra cap allocated. induction fuel as [|fuel IH]; intros extra cap allocated Hok Ha H0 Hf;
    [lia|].
  simpl. destruct (Nat.ltb_spec cap count) as [Hlt|Hge].
  + destruct (calloc allocated) eqn:Ec.
    * intros H.
      apply (IH (mkChunk cap (replicate 64 PEAK_HOOK_UNRESOLVED) :: extra)) in H;
          [|by split_and!|simpl; congruence|lia|
            unfold PEAK_HOOK_STATUS_CHUNK_SIZE; lia].
        destruct res as [[new_root new_cap]|]; [|done].
        destruct H as (?&?&?&?&?&Hfl). unfold PEAK_HOOK_STATUS_CHUNK_SIZE in *.
        split_and!; try done; try lia. rewrite Hfl.
        cbn [flat app states]. rewrite <- app_assoc. f_equal.
        rewrite <- (replicate_add 64). f_equal. lia.
      * intros [= <- <-]. simpl. rewrite release_until_count. auto.
    + intros [= <- <-]. split_and!; try done; [lia|].
      by rewrite Nat.sub_diag, app_nil_r.
Qed.

Lemma reserve_flat calloc count s r s' :
  wf s -> reserve calloc count s = (r, s') ->
  if reserved r
  then wf s' /\ (count <= capacity s')%nat /\ published_count s' = published_count s /\
       chunks_freed r = 0%nat /\
       cells s' = cells s ++ replicate (capacity s' - capacity s) PEAK_HOOK_UNRESOLVED
  else s' = s /\ chunks_freed r = chunks_allocated r.
Proof.
  intros [Hok Hp]. unfold reserve. destruct (_ >? _); [by intros [= <- <-]|].
  destruct (reserve_loop _ _ _ _ _ _ _) as [r0 res] eqn:E.
  apply (reserve_loop_flat _ _ _ _ []) in E; [|done|done|lia|lia].
  destruct res as [[new_root new_cap]|]; intros [= <- <-].
  - destruct E as (-> & -> & Hok' & Hc & [Hge _] & Hfl). unfold wf, cells. simpl.
    split_and!; try done. lia.
  - by destruct E as (-> & -> & _).
Qed.

Lemma store_flat i st s :
  wf s ->
  match store i st s with
  | Some s' => (i < capacity s)%nat /\ wf s' /\ capacity s' = capacity s /\
      published_count s' = published_count s /\ cells s' = <[i:=st]> (cells s)
  | None => (capacity s <= i)%nat
  end.
Proof.
  intros [Hok Hp]. unfold store. pose proof (store_in_flat _ _ i st Hok) as H.
  destruct (store_in i st (root s)) as [r|]; simpl; [|done].
  destruct H as (? & ? & ?). by split_and!.
Qed.

Lemma reset_prefix_flat count s :
  wf s -> wf (reset_prefix count s) /\
  cells (reset_prefix count s) = reset_cells count (cells s).
Proof.
  intros [Hok Hp]. destruct (reset_chunks_flat _ _ count Hok) as [H1 H2]. by split.
Qed.

Lemma hook_state_flat i s :
  wf s ->
  hook_state i s =
    if (i <? published_count s)%nat then default PEAK_HOOK_UNRESOLVED (cells s !! i)
    else PEAK_HOOK_UNRESOLVED.
Proof.
  intros [Hok Hp]. unfold hook_state.
  destruct (Nat.leb_spec (published_count s) i), (Nat.ltb_spec i (published_count s));
    try lia; [done|].
  pose proof (chunk_for_flat _ _ i Hok) as Hc. unfold cells.
  destruct (chunk_for i (root s)) as [c|]; [|lia]. by destruct Hc as [-> _].
Qed.

(** ** Properties *)

(** the chunked status mirror implements one growing array of states.  On
    a well-formed mirror: [reserve] either fails, changes nothing and frees
    every chunk it allocated, or appends UNRESOLVED cells up to the requested
    count; [store] updates exactly one cell and aborts exactly when the index
    has no cell; [reset_prefix] clears exactly the first [count] cells; the
    lock-free reader returns the cell of a published index and UNRESOLVED
    otherwise.  Every operation preserves well-formedness. *)
Theorem status_mirror_refines_array calloc count i st s :
  wf s ->
  (let '(r, s') := reserve calloc count s in
   if reserved r
   then wf s' /\ (count <= capacity s')%nat /\
        cells s' = cells s ++ replicate (capacity s' - capacity s) PEAK_HOOK_UNRESOLVED
   else s' = s /\ chunks_freed r = chunks_allocated r) /\
  match store i st s with
  | Some s' => wf s' /\ (i < length (cells s))%nat /\ cells s' = <[i:=st]> (cells s)
  | None => (length (cells s) <= i)%nat
  end /\
  wf (reset_prefix count s) /\ cells (reset_prefix count s) = reset_cells count (cells s) /\
  hook_state i s =
    (if (i <? published_count s)%nat then default PEAK_HOOK_UNRESOLVED (cells s !! i)
     else PEAK_HOOK_UNRESOLVED).
Proof.
  intros Hwf. assert (length (cells s) = capacity s) as Hlen by apply (flat_length _ _ (proj1 Hwf)).
  split_and!; [| |by apply reset_prefix_flat|by apply reset_prefix_flat|by apply hook_state_flat].
  - destruct (reserve calloc count s) as [r s'] eqn:E. pose proof (reserve_flat _ _ _ _ _ Hwf E) as H.
    destruct (reserved r); [|done]. by destruct H as (? & ? & _ & _ & ?).
  - pose proof (store_flat i st s Hwf) as H. rewrite Hlen.
    destruct (store i st s); [|done]. by destruct H as (? & ? & _ & _ & ?).
Qed.

Lemma status_mirror_refines_array_witness :
  let s := (reserve (fun _ => true) 65 initial_status).2 in
  wf s /\ (forall s', store 64 PEAK_HOOK_ATTACHED s = Some s' ->
    cells s' = <[64%nat:=PEAK_HOOK_ATTACHED]> (cells s)).
Proof.
  intros s. assert (wf s) as Hs by (vm_compute; repeat split; lia).
  split; [exact Hs|]. intros s' E.
  pose proof (status_mirror_refines_array (fun _ => true) 0 64 PEAK_HOOK_ATTACHED s Hs) as H.
  rewrite E in H. apply H.
Defined.

(** growing the mirror and publishing the larger count never changes what a
    concurrent reader sees: between the chunk publication and the count
    publication, and after both, every index that was published before still
    reads the same state, and the newly published indexes read UNRESOLVED. *)
Theorem reserve_publish_stable calloc count s r s' :
  wf s -> (published_count s <= count)%nat ->
  (forall i, (published_count s <= i)%nat -> (i < capacity s)%nat ->
     cells s !! i = Some PEAK_HOOK_UNRESOLVED) ->
  reserve calloc count s = (r, s') -> reserved r = true ->
  wf (publish_count count s') /\
  (forall i, hook_state i s' = hook_state i s) /\
  (forall i, hook_state i (publish_count count s') = hook_state i s).
Proof.
  intros Hwf Hle Hun E Hr. pose proof (reserve_flat _ _ _ _ _ Hwf E) as H. rewrite Hr in H.
  destruct H as (Hwf' & Hc & Hp & _ & Hcells).
  assert (length (cells s) = capacity s) as Hlen by apply (flat_length _ _ (proj1 Hwf)).
  assert (wf (publish_count count s')) as Hwf'' by (split; [apply Hwf'|done]).
  assert (forall i, (i < published_count s)%nat -> cells s' !! i = cells s !! i) as Hold.
  { intros i Hi. rewrite Hcells. rewrite lookup_app_l; [done|]. destruct Hwf. lia. }
  split_and!; [done| |]; intros i; rewrite !hook_state_flat by done; simpl; rewrite ?Hp.
  - destruct (Nat.ltb_spec i (published_count s)); [|done]. by rewrite Hold.
  - change (cells (publish_count count s')) with (cells s').
    destruct (Nat.ltb_spec i (published_count s)) as [Hi|Hi].
    + rewrite (proj2 (Nat.ltb_lt _ _)) by lia. by rewrite Hold.
    + destruct (Nat.ltb_spec i count); [|done]. rewrite Hcells.
      destruct (decide (i < capacity s)%nat).
      * rewrite lookup_app_l by lia. by rewrite Hun.
      * rewrite lookup_app_r by lia. rewrite lookup_replicate_2 by lia. done.
Qed.

Lemma reserve_publish_stable_witness :
  let s := publish_count 1 (reserve (fun _ => true) 1 initial_status).2 in
  wf s /\ (forall i, hook_state i (publish_count 70 (reserve (fun _ => true) 70 s).2) = hook_state i s).
Proof.
  intros s. assert (wf s) as Hs by (vm_compute; repeat split; lia).
  split; [exact Hs|]. refine (proj2 (proj2 (reserve_publish_stable (fun _ => true) 70 s
    (reserve (fun _ => true) 70 s).1 _ Hs _ _ _ _))).
  - vm_compute. lia.
  - intros i _ Hi. exact (lookup_replicate_2 64 PEAK_HOOK_UNRESOLVED i Hi).
  - by destruct (reserve (fun _ => true) 70 s).
  - reflexivity.
Defined.
