(* ===== verification/Doubles.v ===== *)
(** * C doubles

    IEEE 754 binary64 values and the operators the sources apply to them, on
    the Standard Library's executable specification floats (round to nearest,
    ties to even; the only rounding mode the program runs in).  Comparisons
    with a NaN are false, as in C. *)

From Stdlib Require Import SpecFloat.
From S2P Require Import Prelude.

Abbreviation double := spec_float.

#[export] Instance double_eq_dec : EqDecision double.
Proof. solve_decision. Defined.

Definition dadd : double -> double -> double := SFadd 53 1024.
Definition dsub : double -> double -> double := SFsub 53 1024.
Definition dmul : double -> double -> double := SFmul 53 1024.
Definition ddiv : double -> double -> double := SFdiv 53 1024.
Definition dlt : double -> double -> bool := SFltb.
Definition dle : double -> double -> bool := SFleb.
Definition deq : double -> double -> bool := SFeqb.

(** Conversion of an integer, rounded to nearest. *)
Definition of_Z (z : Z) : double := binary_normalize 53 1024 z 0 false.

(** The literal [m / 10^k]: correctly rounded as long as both parts are exact. *)
Definition dlit (m k : Z) : double := ddiv (of_Z m) (of_Z (10 ^ k)).

Definition d0 : double := S754_zero false.
Definition DBL_MAX : double := SFmax_float 53 1024.
Definition is_nan (x : double) : bool := negb (deq x x).

(** C [float]s: binary32 values, their product and their conversion. *)
Abbreviation float := spec_float.
Definition fmul : float -> float -> float := SFmul 24 128.
Definition of_float (x : float) : double :=
  match x with
  | S754_finite s m e => binary_normalize 53 1024 (cond_Zopp s (Zpos m)) e s
  | _ => x
  end.

Definition to_float (x : double) : float :=
  match x with
  | S754_finite s m e => binary_normalize 24 128 (cond_Zopp s (Zpos m)) e s
  | _ => x
  end.

(** C's conversion of a double comparison chain: [a > b] is [dlt b a]. *)
Definition dgt (x y : double) : bool := dlt y x.
Definition dge (x y : double) : bool := dle y x.

(** ** The comparisons are a total preorder on the numbers *)

(** The position of a number on the line: sign class, exponent, mantissa. *)
Definition line (x : double) : Z * (Z * Z) :=
  match x with
  | S754_nan => (0, (0, 0))
  | S754_infinity true => (-2, (0, 0))
  | S754_infinity false => (2, (0, 0))
  | S754_zero _ => (0, (0, 0))
  | S754_finite true m e => (-1, (- e, - Zpos m))
  | S754_finite false m e => (1, (e, Zpos m))
  end.

Definition line_lt (a b : Z * (Z * Z)) : Prop :=
  a.1 < b.1 \/ (a.1 = b.1 /\ (a.2.1 < b.2.1 \/ (a.2.1 = b.2.1 /\ a.2.2 < b.2.2))).

Definition line_eq (a b : Z * (Z * Z)) : Prop :=
  a.1 = b.1 /\ a.2.1 = b.2.1 /\ a.2.2 = b.2.2.

Definition number (x : double) : Prop := x <> S754_nan.

Lemma dcompare_line x y :
  number x -> number y ->
  match SFcompare x y with
  | Some Lt => line_lt (line x) (line y)
  | Some Eq => line_eq (line x) (line y)
  | Some Gt => line_lt (line y) (line x)
  | None => False
  end.
Proof.
  unfold number, line_lt, line_eq. intros Hx Hy.
  destruct x as [[]|[]| |[] mx ex], y as [[]|[]| |[] my ey]; simpl; try done; try lia.
  all: destruct (Z.compare_spec ex ey) as [->|?|?]; simpl; try lia.
  all: change (Pos.compare_cont Eq mx my) with (Pos.compare mx my);
       destruct (Pos.compare_spec mx my) as [->|?|?]; simpl; lia.
Qed.

Lemma dlt_line x y : number x -> number y -> dlt x y = true <-> line_lt (line x) (line y).
Proof.
  intros Hx Hy. pose proof (dcompare_line x y Hx Hy) as H. unfold dlt, SFltb.
  destruct (SFcompare x y) as [[]|]; unfold line_lt, line_eq in *; split; (done || lia).
Qed.

Lemma dle_line x y :
  number x -> number y ->
  dle x y = true <-> (line_lt (line x) (line y) \/ line_eq (line x) (line y)).
Proof.
  intros Hx Hy. pose proof (dcompare_line x y Hx Hy) as H. unfold dle, SFleb.
  destruct (SFcompare x y) as [[]|]; unfold line_lt, line_eq in *; split;
    try done; try lia; tauto.
Qed.

Lemma deq_line x y : number x -> number y -> deq x y = true <-> line_eq (line x) (line y).
Proof.
  intros Hx Hy. pose proof (dcompare_line x y Hx Hy) as H. unfold deq, SFeqb.
  destruct (SFcompare x y) as [[]|]; unfold line_lt, line_eq in *; split; (done || lia).
Qed.

Lemma dlt_numbers x y : dlt x y = true -> number x /\ number y.
Proof. unfold number. by destruct x, y. Qed.

Lemma dle_numbers x y : dle x y = true -> number x /\ number y.
Proof. unfold number. by destruct x, y. Qed.

Ltac to_line :=
  repeat match goal with
  | H : dlt ?x ?y = true |- _ =>
      let H1 := fresh in pose proof (dlt_numbers x y H) as [? ?];
      rewrite (dlt_line x y) in H by assumption
  | H : dle ?x ?y = true |- _ =>
      let H1 := fresh in pose proof (dle_numbers x y H) as [? ?];
      rewrite (dle_line x y) in H by assumption
  | H : dlt ?x ?y = false |- _ =>
      apply not_true_iff_false in H; rewrite (dlt_line x y) in H by assumption
  | H : dle ?x ?y = false |- _ =>
      apply not_true_iff_false in H; rewrite (dle_line x y) in H by assumption
  | |- dlt ?x ?y = true => rewrite (dlt_line x y) by assumption
  | |- dle ?x ?y = true => rewrite (dle_line x y) by assumption
  end; unfold line_lt, line_eq in *.

Lemma dle_refl x : number x -> dle x x = true.
Proof. intros. to_line. lia. Qed.

Lemma dle_trans x y z : dle x y = true -> dle y z = true -> dle x z = true.
Proof. intros H1 H2. to_line. lia. Qed.

Lemma dlt_dle x y : dlt x y = true -> dle x y = true.
Proof. intros H. to_line. lia. Qed.

Lemma dlt_dle_trans x y z : dlt x y = true -> dle y z = true -> dlt x z = true.
Proof. intros H1 H2. to_line. lia. Qed.

Lemma not_dlt_dle x y : number x -> number y -> dlt x y = false -> dle y x = true.
Proof. intros Hx Hy H. to_line. lia. Qed.

Lemma number_iff x : number x <-> is_nan x = false.
Proof.
  unfold is_nan. rewrite negb_false_iff. split.
  - intros Hx. rewrite deq_line by done. unfold line_eq. lia.
  - intros H ->. discriminate.
Qed.

#[export] Hint Resolve dle_refl dlt_dle dle_trans : peak.

(** ** Finite checks used across the sources *)

(** [peak_general_listener_positive_finite]. *)
Definition positive_finite (value : double) : bool :=
  dgt value d0 && deq value value && dle value DBL_MAX.

(** [peak_general_listener_nonnegative_finite]. *)
Definition nonnegative_finite (value : double) : bool :=
  dge value d0 && deq value value && dle value DBL_MAX.

Lemma positive_finite_shape x :
  positive_finite x = true -> exists m e, x = S754_finite false m e.
Proof.
  unfold positive_finite. destruct x as [[]|[]| |[] m e]; simpl; try done; eauto.
Qed.

Lemma positive_finite_nonnegative x : positive_finite x = true -> nonnegative_finite x = true.
Proof.
  unfold positive_finite, nonnegative_finite, dgt, dge. intros H. breflect.
  rewrite H0, H1, (dlt_dle d0 x) by done. done.
Qed.

Lemma nonnegative_finite_cases x :
  nonnegative_finite x = true -> (exists s, x = S754_zero s) \/ positive_finite x = true.
Proof.
  unfold nonnegative_finite, positive_finite, dge, dgt. intros H. breflect.
  rewrite H0, H1. destruct x as [s|[]| |[] m e]; simpl in *; try done; eauto.
Qed.
