(* ===== verification/HookModel.v ===== *)
(** * The controller's hook table

    The state of the hook controller of [src/general_listener.c]: the per-hook
    arrays, which the source allocates, grows and frees together, are one list
    of records; the globals are the fields of [world].  Everything the
    controller calls outside that state (the safe-detach controller, Gum, the
    thread snapshot, thread pausing, the clock, the listeners' counters) is an
    oracle over a call counter, so a theorem about an operation holds for every
    sequence of answers.  Effects are recorded as a trace of events.  A call
    that ends the process ([_exit], [g_error]) yields [Exited]. *)

From S2P Require Import Prelude HookControl HookStatus Doubles.

Inductive PeakDetachOperation :=
  | PEAK_DETACH_OPERATION_ATTACH
  | PEAK_DETACH_OPERATION_DETACH
  | PEAK_DETACH_OPERATION_REATTACH
  | PEAK_DETACH_OPERATION_SHUTDOWN
  | PEAK_DETACH_OPERATION_REPLACE
  | PEAK_DETACH_OPERATION_REVERT.

#[export] Instance detach_operation_eq_dec : EqDecision PeakDetachOperation.
Proof. solve_decision. Defined.

Inductive PeakDetachStatus :=
  | PEAK_DETACH_STATUS_SAFE
  | PEAK_DETACH_STATUS_COMPATIBILITY_ALLOWED
  | PEAK_DETACH_STATUS_DISABLED
  | PEAK_DETACH_STATUS_UNSUPPORTED
  | PEAK_DETACH_STATUS_MISSING_GUM_API
  | PEAK_DETACH_STATUS_PERMISSION_DENIED
  | PEAK_DETACH_STATUS_TIMEOUT
  | PEAK_DETACH_STATUS_CLASSIFY_FAILED
  | PEAK_DETACH_STATUS_ERROR
  | PEAK_DETACH_STATUS_FILESYSTEM_STAT_BUSY.

#[export] Instance detach_status_eq_dec : EqDecision PeakDetachStatus.
Proof. solve_decision. Defined.

Inductive PeakHookRequestSource :=
  | PEAK_HOOK_REQUEST_SOURCE_NONE
  | PEAK_HOOK_REQUEST_SOURCE_API
  | PEAK_HOOK_REQUEST_SOURCE_DETACH_COUNT
  | PEAK_HOOK_REQUEST_SOURCE_PER_TARGET_HEARTBEAT
  | PEAK_HOOK_REQUEST_SOURCE_GLOBAL_HEARTBEAT.

(** The six [peak_hook_pending_request_*] arrays. *)
Record request_context := mkRequest {
  request_source : PeakHookRequestSource;
  request_calls : Z;
  request_ratio : double;
  request_global_overhead : double;
  request_total_time : double;
  request_rate : double
}.

(** One index of the controller-owned arrays.  [address] and [listener] are
    pointers, 0 for NULL; [control] is the listener's packed word;
    [need_detach] and [detached] are the legacy flags [peak_need_detach] and
    [peak_detached]; the [listener_*] and [gum_*] flags are the
    [array_listener_*] arrays. *)
Record hook := mkHook {
  address : Z;
  listener : Z;
  control : Z;
  state : PeakHookState;
  need_detach : bool;
  detached : bool;
  listener_detached : bool;
  listener_reattached : bool;
  listener_revisited : bool;
  gum_detached : bool;
  gum_detach_flushed : bool;
  last_detach_time : double;
  next_retry_time : double;
  pending_observed_time : double;
  retry_count : Z;
  last_retry_status : PeakDetachStatus;
  request : request_context;
  detach_profile_seconds : double;
  reattach_request_calls : Z;
  reattach_request_calls_valid : bool;
  cached_sample_calls : Z;
  cached_sample_profile_seconds : double;
  cached_sample_valid : bool;
  heartbeat_overhead : double
}.

Definition set_address (v : Z) (h : hook) : hook :=
  mkHook v (listener h) (control h) (state h) (need_detach h) (detached h)
    (listener_detached h) (listener_reattached h) (listener_revisited h) (gum_detached h)
    (gum_detach_flushed h) (last_detach_time h) (next_retry_time h)
    (pending_observed_time h) (retry_count h) (last_retry_status h) (request h)
    (detach_profile_seconds h) (reattach_request_calls h) (reattach_request_calls_valid h)
    (cached_sample_calls h) (cached_sample_profile_seconds h) (cached_sample_valid h)
    (heartbeat_overhead h).

Definition set_listener (v : Z) (h : hook) : hook :=
  mkHook (address h) v (control h) (state h) (need_detach h) (detached h)
    (listener_detached h) (listener_reattached h) (listener_revisited h) (gum_detached h)
    (gum_detach_flushed h) (last_detach_time h) (next_retry_time h)
    (pending_observed_time h) (retry_count h) (last_retry_status h) (request h)
    (detach_profile_seconds h) (reattach_request_calls h) (reattach_request_calls_valid h)
    (cached_sample_calls h) (cached_sample_profile_seconds h) (cached_sample_valid h)
    (heartbeat_overhead h).

Definition set_control (v : Z) (h : hook) : hook :=
  mkHook (address h) (listener h) v (state h) (need_detach h) (detached h)
    (listener_detached h) (listener_reattached h) (listener_revisited h) (gum_detached h)
    (gum_detach_flushed h) (last_detach_time h) (next_retry_time h)
    (pending_observed_time h) (retry_count h) (last_retry_status h) (request h)
    (detach_profile_seconds h) (reattach_request_calls h) (reattach_request_calls_valid h)
    (cached_sample_calls h) (cached_sample_profile_seconds h) (cached_sample_valid h)
    (heartbeat_overhead h).

Definition set_state (v : PeakHookState) (h : hook) : hook :=
  mkHook (address h) (listener h) (control h) v (need_detach h) (detached h)
    (listener_detached h) (listener_reattached h) (listener_revisited h) (gum_detached h)
    (gum_detach_flushed h) (last_detach_time h) (next_retry_time h)
    (pending_observed_time h) (retry_count h) (last_retry_status h) (request h)
    (detach_profile_seconds h) (reattach_request_calls h) (reattach_request_calls_valid h)
    (cached_sample_calls h) (cached_sample_profile_seconds h) (cached_sample_valid h)
    (heartbeat_overhead h).

Definition set_need_detach (v : bool) (h : hook) : hook :=
  mkHook (address h) (listener h) (control h) (state h) v (detached h) (listener_detached h)
    (listener_reattached h) (listener_revisited h) (gum_detached h) (gum_detach_flushed h)
    (last_detach_time h) (next_retry_time h) (pending_observed_time h) (retry_count h)
    (last_retry_status h) (request h) (detach_profile_seconds h) (reattach_request_calls h)
    (reattach_request_calls_valid h) (cached_sample_calls h)
    (cached_sample_profile_seconds h) (cached_sample_valid h) (heartbeat_overhead h).

Definition set_detached (v : bool) (h : hook) : hook :=
  mkHook (address h) (listener h) (control h) (state h) (need_detach h) v
    (listener_detached h) (listener_reattached h) (listener_revisited h) (gum_detached h)
    (gum_detach_flushed h) (last_detach_time h) (next_retry_time h)
    (pending_observed_time h) (retry_count h) (last_retry_status h) (request h)
    (detach_profile_seconds h) (reattach_request_calls h) (reattach_request_calls_valid h)
    (cached_sample_calls h) (cached_sample_profile_seconds h) (cached_sample_valid h)
    (heartbeat_overhead h).

Definition set_listener_detached (v : bool) (h : hook) : hook :=
  mkHook (address h) (listener h) (control h) (state h) (need_detach h) (detached h) v
    (listener_reattached h) (listener_revisited h) (gum_detached h) (gum_detach_flushed h)
    (last_detach_time h) (next_retry_time h) (pending_observed_time h) (retry_count h)
    (last_retry_status h) (request h) (detach_profile_seconds h) (reattach_request_calls h)
    (reattach_request_calls_valid h) (cached_sample_calls h)
    (cached_sample_profile_seconds h) (cached_sample_valid h) (heartbeat_overhead h).

Definition set_listener_reattached (v : bool) (h : hook) : hook :=
  mkHook (address h) (listener h) (control h) (state h) (need_detach h) (detached h)
    (listener_detached h) v (listener_revisited h) (gum_detached h) (gum_detach_flushed h)
    (last_detach_time h) (next_retry_time h) (pending_observed_time h) (retry_count h)
    (last_retry_status h) (request h) (detach_profile_seconds h) (reattach_request_calls h)
    (reattach_request_calls_valid h) (cached_sample_calls h)
    (cached_sample_profile_seconds h) (cached_sample_valid h) (heartbeat_overhead h).

Definition set_listener_revisited (v : bool) (h : hook) : hook :=
  mkHook (address h) (listener h) (control h) (state h) (need_detach h) (detached h)
    (listener_detached h) (listener_reattached h) v (gum_detached h) (gum_detach_flushed h)
    (last_detach_time h) (next_retry_time h) (pending_observed_time h) (retry_count h)
    (last_retry_status h) (request h) (detach_profile_seconds h) (reattach_request_calls h)
    (reattach_request_calls_valid h) (cached_sample_calls h)
    (cached_sample_profile_seconds h) (cached_sample_valid h) (heartbeat_overhead h).

Definition set_gum_detached (v : bool) (h : hook) : hook :=
  mkHook (address h) (listener h) (control h) (state h) (need_detach h) (detached h)
    (listener_detached h) (listener_reattached h) (listener_revisited h) v
    (gum_detach_flushed h) (last_detach_time h) (next_retry_time h)
    (pending_observed_time h) (retry_count h) (last_retry_status h) (request h)
    (detach_profile_seconds h) (reattach_request_calls h) (reattach_request_calls_valid h)
    (cached_sample_calls h) (cached_sample_profile_seconds h) (cached_sample_valid h)
    (heartbeat_overhead h).

Definition set_gum_detach_flushed (v : bool) (h : hook) : hook :=
  mkHook (address h) (listener h) (control h) (state h) (need_detach h) (detached h)
    (listener_detached h) (listener_reattached h) (listener_revisited h) (gum_detached h) v
    (last_detach_time h) (next_retry_time h) (pending_observed_time h) (retry_count h)
    (last_retry_status h) (request h) (detach_profile_seconds h) (reattach_request_calls h)
    (reattach_request_calls_valid h) (cached_sample_calls h)
    (cached_sample_profile_seconds h) (cached_sample_valid h) (heartbeat_overhead h).

Definition set_last_detach_time (v : double) (h : hook) : hook :=
  mkHook (address h) (listener h) (control h) (state h) (need_detach h) (detached h)
    (listener_detached h) (listener_reattached h) (listener_revisited h) (gum_detached h)
    (gum_detach_flushed h) v (next_retry_time h) (pending_observed_time h) (retry_count h)
    (last_retry_status h) (request h) (detach_profile_seconds h) (reattach_request_calls h)
    (reattach_request_calls_valid h) (cached_sample_calls h)
    (cached_sample_profile_seconds h) (cached_sample_valid h) (heartbeat_overhead h).

Definition set_next_retry_time (v : double) (h : hook) : hook :=
  mkHook (address h) (listener h) (control h) (state h) (need_detach h) (detached h)
    (listener_detached h) (listener_reattached h) (listener_revisited h) (gum_detached h)
    (gum_detach_flushed h) (last_detach_time h) v (pending_observed_time h) (retry_count h)
    (last_retry_status h) (request h) (detach_profile_seconds h) (reattach_request_calls h)
    (reattach_request_calls_valid h) (cached_sample_calls h)
    (cached_sample_profile_seconds h) (cached_sample_valid h) (heartbeat_overhead h).

Definition set_pending_observed_time (v : double) (h : hook) : hook :=
  mkHook (address h) (listener h) (control h) (state h) (need_detach h) (detached h)
    (listener_detached h) (listener_reattached h) (listener_revisited h) (gum_detached h)
    (gum_detach_flushed h) (last_detach_time h) (next_retry_time h) v (retry_count h)
    (last_retry_status h) (request h) (detach_profile_seconds h) (reattach_request_calls h)
    (reattach_request_calls_valid h) (cached_sample_calls h)
    (cached_sample_profile_seconds h) (cached_sample_valid h) (heartbeat_overhead h).

Definition set_retry_count (v : Z) (h : hook) : hook :=
  mkHook (address h) (listener h) (control h) (state h) (need_detach h) (detached h)
    (listener_detached h) (listener_reattached h) (listener_revisited h) (gum_detached h)
    (gum_detach_flushed h) (last_detach_time h) (next_retry_time h)
    (pending_observed_time h) v (last_retry_status h) (request h) (detach_profile_seconds h)
    (reattach_request_calls h) (reattach_request_calls_valid h) (cached_sample_calls h)
    (cached_sample_profile_seconds h) (cached_sample_valid h) (heartbeat_overhead h).

Definition set_last_retry_status (v : PeakDetachStatus) (h : hook) : hook :=
  mkHook (address h) (listener h) (control h) (state h) (need_detach h) (detached h)
    (listener_detached h) (listener_reattached h) (listener_revisited h) (gum_detached h)
    (gum_detach_flushed h) (last_detach_time h) (next_retry_time h)
    (pending_observed_time h) (retry_count h) v (request h) (detach_profile_seconds h)
    (reattach_request_calls h) (reattach_request_calls_valid h) (cached_sample_calls h)
    (cached_sample_profile_seconds h) (cached_sample_valid h) (heartbeat_overhead h).

Definition set_request (v : request_context) (h : hook) : hook :=
  mkHook (address h) (listener h) (control h) (state h) (need_detach h) (detached h)
    (listener_detached h) (listener_reattached h) (listener_revisited h) (gum_detached h)
    (gum_detach_flushed h) (last_detach_time h) (next_retry_time h)
    (pending_observed_time h) (retry_count h) (last_retry_status h) v
    (detach_profile_seconds h) (reattach_request_calls h) (reattach_request_calls_valid h)
    (cached_sample_calls h) (cached_sample_profile_seconds h) (cached_sample_valid h)
    (heartbeat_overhead h).

Definition set_detach_profile_seconds (v : double) (h : hook) : hook :=
  mkHook (address h) (listener h) (control h) (state h) (need_detach h) (detached h)
    (listener_detached h) (listener_reattached h) (listener_revisited h) (gum_detached h)
    (gum_detach_flushed h) (last_detach_time h) (next_retry_time h)
    (pending_observed_time h) (retry_count h) (last_retry_status h) (request h) v
    (reattach_request_calls h) (reattach_request_calls_valid h) (cached_sample_calls h)
    (cached_sample_profile_seconds h) (cached_sample_valid h) (heartbeat_overhead h).

Definition set_reattach_request_calls (v : Z) (h : hook) : hook :=
  mkHook (address h) (listener h) (control h) (state h) (need_detach h) (detached h)
    (listener_detached h) (listener_reattached h) (listener_revisited h) (gum_detached h)
    (gum_detach_flushed h) (last_detach_time h) (next_retry_time h)
    (pending_observed_time h) (retry_count h) (last_retry_status h) (request h)
    (detach_profile_seconds h) v (reattach_request_calls_valid h) (cached_sample_calls h)
    (cached_sample_profile_seconds h) (cached_sample_valid h) (heartbeat_overhead h).

Definition set_reattach_request_calls_valid (v : bool) (h : hook) : hook :=
  mkHook (address h) (listener h) (control h) (state h) (need_detach h) (detached h)
    (listener_detached h) (listener_reattached h) (listener_revisited h) (gum_detached h)
    (gum_detach_flushed h) (last_detach_time h) (next_retry_time h)
    (pending_observed_time h) (retry_count h) (last_retry_status h) (request h)
    (detach_profile_seconds h) (reattach_request_calls h) v (cached_sample_calls h)
    (cached_sample_profile_seconds h) (cached_sample_valid h) (heartbeat_overhead h).

Definition set_cached_sample_calls (v : Z) (h : hook) : hook :=
  mkHook (address h) (listener h) (control h) (state h) (need_detach h) (detached h)
    (listener_detached h) (listener_reattached h) (listener_revisited h) (gum_detached h)
    (gum_detach_flushed h) (last_detach_time h) (next_retry_time h)
    (pending_observed_time h) (retry_count h) (last_retry_status h) (request h)
    (detach_profile_seconds h) (reattach_request_calls h) (reattach_request_calls_valid h) v
    (cached_sample_profile_seconds h) (cached_sample_valid h) (heartbeat_overhead h).

Definition set_cached_sample_profile_seconds (v : double) (h : hook) : hook :=
  mkHook (address h) (listener h) (control h) (state h) (need_detach h) (detached h)
    (listener_detached h) (listener_reattached h) (listener_revisited h) (gum_detached h)
    (gum_detach_flushed h) (last_detach_time h) (next_retry_time h)
    (pending_observed_time h) (retry_count h) (last_retry_status h) (request h)
    (detach_profile_seconds h) (reattach_request_calls h) (reattach_request_calls_valid h)
    (cached_sample_calls h) v (cached_sample_valid h) (heartbeat_overhead h).

Definition set_cached_sample_valid (v : bool) (h : hook) : hook :=
  mkHook (address h) (listener h) (control h) (state h) (need_detach h) (detached h)
    (listener_detached h) (listener_reattached h) (listener_revisited h) (gum_detached h)
    (gum_detach_flushed h) (last_detach_time h) (next_retry_time h)
    (pending_observed_time h) (retry_count h) (last_retry_status h) (request h)
    (detach_profile_seconds h) (reattach_request_calls h) (reattach_request_calls_valid h)
    (cached_sample_calls h) (cached_sample_profile_seconds h) v (heartbeat_overhead h).

Definition set_heartbeat_overhead (v : double) (h : hook) : hook :=
  mkHook (address h) (listener h) (control h) (state h) (need_detach h) (detached h)
    (listener_detached h) (listener_reattached h) (listener_revisited h) (gum_detached h)
    (gum_detach_flushed h) (last_detach_time h) (next_retry_time h)
    (pending_observed_time h) (retry_count h) (last_retry_status h) (request h)
    (detach_profile_seconds h) (reattach_request_calls h) (reattach_request_calls_valid h)
    (cached_sample_calls h) (cached_sample_profile_seconds h) (cached_sample_valid h) v.

(** ** The world *)

(** A tracked thread as the controller holds it: the arrays [tid_keys],
    [mapped_ids], [pause_session_ids] and [pause_status]. *)
Record tracked_thread := mkThread {
  tid_key : Z;
  mapped_id : nat;
  pause_session_id : Z;
  pause_status : Z
}.

Record PeakDetachBatchResult := mkBatchResult {
  prepared : bool;
  uses_physical_patch : bool;
  batch_result_status : PeakDetachStatus
}.

Inductive event :=
  | EvWake
  | EvModuleMutationBegin
  | EvModuleMutationEnd
  | EvPrepare (hook_id : nat) (op : PeakDetachOperation) (ok : bool)
  | EvFinish (ok : bool)
  | EvPrepareBatch (hook_ids : list nat) (prepared_count : nat)
  | EvPause (tid session : Z) (status : Z)
  | EvUnpause (tid session : Z)
  | EvFastDetach (hook_id : nat) (ok : bool)
  | EvGumDetach (hook_id : nat)
  | EvGumAttach (hook_id : nat) (ok : bool)
  | EvGumFlush (ok : bool).

#[export] Instance event_eq_dec : EqDecision event.
Proof. solve_decision. Defined.

Record world := mkWorld {
  hooks : list hook;
  status : hook_status;
  mpi_finalize_requested : bool;
  batch_cursor : nat;
  next_batch_id : Z;
  ticks : nat;
  events : list event
}.

(** The answers of everything outside the controller, by call index, and the
    configuration the controller reads. *)
Record environment := mkEnv {
  env_second : nat -> double;
  env_prepare : nat -> bool * PeakDetachStatus;
  env_threads_held : nat -> bool;
  env_physical_patch : nat -> bool;
  env_finish : nat -> bool;
  env_prepare_batch : nat -> list nat -> list PeakDetachBatchResult * nat;
  env_strict_batch_supported : bool;
  env_pause : nat -> Z * Z;
  env_prepare_fast_detach : nat -> bool;
  env_gum_flush : nat -> bool;
  env_gum_attach_ok : nat -> bool;
  env_total_calls : nat -> Z;
  env_snapshot_threads : nat -> list (Z * nat) * bool;
  env_main_time : double;
  env_general_overhead : double;
  env_reattach_cooldown_s : double;
  env_max_retry_count : Z;
  env_max_pending_age_s : double;
  env_max_num_threads : nat;
  env_controller_tid : Z
}.

(** ** The controller monad *)

Inductive outcome (A : Type) :=
  | Done (a : A) (w : world)
  | Exited (w : world).
Arguments Done {A} a w.
Arguments Exited {A} w.

Definition M (A : Type) : Type := world -> outcome A.

Definition ret {A} (a : A) : M A := fun w => Done a w.
Definition bind {A B} (m : M A) (k : A -> M B) : M B := fun w =>
  match m w with Done a w' => k a w' | Exited w' => Exited w' end.
Definition exit_process {A} : M A := fun w => Exited w.

Declare Scope ctl_scope.
Delimit Scope ctl_scope with ctl.
Bind Scope ctl_scope with M.
Notation "'let*' x := m 'in' k" := (bind m (fun x => k))
  (at level 10, x pattern, m at level 100, k at level 200) : ctl_scope.
Notation "m ;; k" := (bind m (fun _ => k))
  (at level 100, k at level 200, right associativity) : ctl_scope.
#[global] Open Scope ctl_scope.

Definition gets {A} (f : world -> A) : M A := fun w => Done (f w) w.

Definition with_hooks (hs : list hook) (w : world) : world :=
  mkWorld hs (status w) (mpi_finalize_requested w) (batch_cursor w) (next_batch_id w)
    (ticks w) (events w).
Definition with_status (s : hook_status) (w : world) : world :=
  mkWorld (hooks w) s (mpi_finalize_requested w) (batch_cursor w) (next_batch_id w)
    (ticks w) (events w).
Definition with_batch_cursor (c : nat) (w : world) : world :=
  mkWorld (hooks w) (status w) (mpi_finalize_requested w) c (next_batch_id w)
    (ticks w) (events w).
Definition with_next_batch_id (b : Z) (w : world) : world :=
  mkWorld (hooks w) (status w) (mpi_finalize_requested w) (batch_cursor w) b
    (ticks w) (events w).

(** Updates the entry of one hook; an index out of range is left alone. *)
Definition update_hook (hook_id : nat) (f : hook -> hook) : M unit := fun w =>
  Done tt (with_hooks (alter f hook_id (hooks w)) w).

(** Reads the entry of a hook known to be in range. *)
Definition get_hook (hook_id : nat) : M (option hook) := gets (fun w => hooks w !! hook_id).

Definition emit (e : event) : M unit := fun w =>
  Done tt (mkWorld (hooks w) (status w) (mpi_finalize_requested w) (batch_cursor w)
             (next_batch_id w) (ticks w) (events w ++ [e])).

(** Consults an oracle at the current call index. *)
Definition ask {A} (f : nat -> A) : M A := fun w =>
  Done (f (ticks w))
    (mkWorld (hooks w) (status w) (mpi_finalize_requested w) (batch_cursor w)
       (next_batch_id w) (S (ticks w)) (events w)).

(** [peak_hook_status_store]: exits when the cell is missing. *)
Definition status_store (hook_id : nat) (st : PeakHookState) : M unit := fun w =>
  match store hook_id st (status w) with
  | Some s => Done tt (with_status s w)
  | None => Exited w
  end.

(** ** Program logic

    [spec P m Q E]: started in a world satisfying [P], [m] ends in [Q] when it
    returns and in [E] when it ends the process. *)
Definition spec {A} (P : world -> Prop) (m : M A) (Q : A -> world -> Prop)
    (E : world -> Prop) : Prop :=
  forall w, P w -> match m w with Done a w' => Q a w' | Exited w' => E w' end.

Definition preserves {A} (P : world -> Prop) (m : M A) : Prop :=
  spec P m (fun _ => P) (fun _ => True).

Lemma spec_ret {A} (P : world -> Prop) (Q : A -> world -> Prop) E a :
  (forall w, P w -> Q a w) -> spec P (ret a) Q E.
Proof. intros H w Hw. by apply H. Qed.

Lemma spec_bind {A B} P (m : M A) (k : A -> M B) R Q E :
  spec P m R E -> (forall a, spec (R a) (k a) Q E) -> spec P (bind m k) Q E.
Proof.
  intros Hm Hk w Hw. unfold bind. specialize (Hm w Hw). destruct (m w); [by apply Hk|done].
Qed.

Lemma spec_conseq {A} (P P' : world -> Prop) (m : M A) (Q Q' : A -> world -> Prop)
    (E E' : world -> Prop) :
  spec P m Q E -> (forall w, P' w -> P w) -> (forall a w, Q a w -> Q' a w) ->
  (forall w, E w -> E' w) -> spec P' m Q' E'.
Proof.
  intros Hm HP HQ HE w Hw. specialize (Hm w (HP w Hw)). destruct (m w); auto.
Qed.

Lemma spec_exit {A} (P : world -> Prop) (Q : A -> world -> Prop) (E : world -> Prop) :
  (forall w, P w -> E w) -> spec P exit_process Q E.
Proof. intros H w Hw. by apply H. Qed.

Lemma preserves_ret {A} P (a : A) : preserves P (ret a).
Proof. by apply spec_ret. Qed.

Lemma preserves_bind {A B} P (m : M A) (k : A -> M B) :
  preserves P m -> (forall a, preserves P (k a)) -> preserves P (bind m k).
Proof. intros Hm Hk. eapply spec_bind; [exact Hm|exact Hk]. Qed.

Lemma preserves_exit {A} P : preserves P (exit_process : M A).
Proof. by apply spec_exit. Qed.

Lemma preserves_gets {A} P (f : world -> A) : preserves P (gets f).
Proof. intros w Hw. exact Hw. Qed.

#[export] Hint Resolve preserves_ret preserves_bind preserves_exit preserves_gets : peak.
