(* ===== verification/HookPolicy.v ===== *)
(** * Numeric policy of the hook controller

    The guarded floating-point helpers of [src/general_listener.c] and the
    profile-time estimates the controller keeps per hook. *)

From Stdlib Require Import SpecFloat.
From S2P Require Import Prelude HookControl HookStatus Doubles HookModel.

Definition status_is_retryable (status : PeakDetachStatus) : bool :=
  match status with
  | PEAK_DETACH_STATUS_FILESYSTEM_STAT_BUSY
  | PEAK_DETACH_STATUS_TIMEOUT
  | PEAK_DETACH_STATUS_CLASSIFY_FAILED
  | PEAK_DETACH_STATUS_ERROR => true
  | _ => false
  end.

(** The output parameter of the helpers is the [Some] of an option. *)
Definition add_nonnegative_finite (lhs rhs : double) : option double :=
  if negb (nonnegative_finite lhs) || negb (nonnegative_finite rhs)
     || dgt lhs (dsub DBL_MAX rhs)
  then None else Some (dadd lhs rhs).

Definition subtract_nonnegative_finite (value amount : double) : option double :=
  if negb (nonnegative_finite value) || negb (nonnegative_finite amount) || dgt amount value
  then None
  else
    let result := dsub value amount in
    if negb (nonnegative_finite result) then None else Some result.

Definition multiply_nonnegative_finite (lhs rhs : double) : option double :=
  if negb (nonnegative_finite lhs) || negb (nonnegative_finite rhs)
     || (dgt rhs d0 && dgt lhs (ddiv DBL_MAX rhs))
  then None
  else
    let result := dmul lhs rhs in
    if negb (nonnegative_finite result) then None else Some result.

Definition multiply_positive_finite (lhs rhs : double) : option double :=
  if negb (positive_finite lhs) || negb (positive_finite rhs) || dgt lhs (ddiv DBL_MAX rhs)
  then None
  else
    let result := dmul lhs rhs in
    if negb (positive_finite result) then None else Some result.

Definition control_risk_seconds (local_mpi_ranks : Z) (raw_control_seconds : double) : double :=
  match multiply_nonnegative_finite raw_control_seconds (of_Z local_mpi_ranks) with
  | None => DBL_MAX
  | Some risk_control_seconds => risk_control_seconds
  end.

Definition profile_seconds_floor (general_overhead : double) : double :=
  if positive_finite general_overhead then general_overhead else dlit 1 12.

Definition saved_detach_profile_seconds (general_overhead : double) (saved : option double)
    (fallback_seconds : double) : double :=
  match saved with
  | Some s => if positive_finite s then s
              else if positive_finite fallback_seconds then fallback_seconds
              else profile_seconds_floor general_overhead
  | None => if positive_finite fallback_seconds then fallback_seconds
            else profile_seconds_floor general_overhead
  end.

(** [saved] is the hook's entry, [None] when the index is out of range. *)
Definition projected_detach_profile_seconds (general_overhead : double) (saved : option double)
    (current_profile_seconds : double) : double :=
  let have_current := positive_finite current_profile_seconds in
  let saved_seconds := default d0 saved in
  let have_saved := match saved with Some s => positive_finite s | None => false end in
  if have_saved && have_current then
    if dgt saved_seconds current_profile_seconds then saved_seconds else current_profile_seconds
  else if have_saved then saved_seconds
  else if have_current then current_profile_seconds
  else profile_seconds_floor general_overhead.

Definition historical_profile_rate (projected_seconds elapsed_seconds : double) : double :=
  if negb (positive_finite projected_seconds) || negb (positive_finite elapsed_seconds)
     || deq projected_seconds DBL_MAX
  then DBL_MAX
  else
    let rate := ddiv projected_seconds elapsed_seconds in
    if positive_finite rate then rate else DBL_MAX.

Definition next_observation_lease_seconds (request_rate observation_horizon_seconds : double)
    : double :=
  if negb (positive_finite request_rate) || negb (positive_finite observation_horizon_seconds)
     || deq request_rate DBL_MAX
  then DBL_MAX
  else match multiply_positive_finite request_rate observation_horizon_seconds with
       | None => DBL_MAX
       | Some lease_seconds => lease_seconds
       end.

(** One step of [heartbeat_overhead_seconds]: the sum over published hooks,
    skipping a term that is not positive finite or would overflow. *)
Definition heartbeat_overhead_term (seconds : double) (h : hook) : double :=
  if negb (address h =? 0) && negb (listener h =? 0) &&
     positive_finite (heartbeat_overhead h) &&
     dle seconds (dsub DBL_MAX (heartbeat_overhead h))
  then dadd seconds (heartbeat_overhead h) else seconds.

Definition heartbeat_overhead_seconds (hs : list hook) : double :=
  fold_left heartbeat_overhead_term hs d0.

Definition profile_seconds_for_calls (general_overhead : double) (h : hook) (calls : Z) : double :=
  dadd (dmul (of_Z calls) general_overhead) (heartbeat_overhead h).

(** The part of [note_detach_profile_seconds] after the sample refresh:
    [sample] is the refreshed profile time, when there was one. *)
Definition detach_profile_estimate (general_overhead : double) (h : hook) (sample : option double)
    : double :=
  let have_detached_sample := bool_decide (is_Some sample) in
  let fallback_seconds := default d0 sample in
  let profile_seconds :=
    default d0 (multiply_positive_finite (request_ratio (request h))
                  (request_total_time (request h))) in
  let fallback_seconds :=
    if negb have_detached_sample && positive_finite general_overhead &&
       dle (of_Z (request_calls (request h))) (ddiv DBL_MAX general_overhead)
    then dmul (of_Z (request_calls (request h))) general_overhead else fallback_seconds in
  let fallback_seconds :=
    if negb have_detached_sample && positive_finite (heartbeat_overhead h) &&
       dle fallback_seconds (dsub DBL_MAX (heartbeat_overhead h))
    then dadd fallback_seconds (heartbeat_overhead h) else fallback_seconds in
  let fallback_seconds :=
    if negb (positive_finite fallback_seconds) && positive_finite (detach_profile_seconds h)
    then detach_profile_seconds h else fallback_seconds in
  if positive_finite profile_seconds then profile_seconds
  else saved_detach_profile_seconds general_overhead (Some (detach_profile_seconds h))
         fallback_seconds.

(** ** Retry schedule *)

Definition peak_controller_retry_base_delay : double := dlit 1 3.
Definition peak_controller_retry_max_delay : double := dlit 50 3.

(** The delay [note_retry] computes from the current retry count. *)
Definition retry_delay (retry_count : Z) : double :=
  let shift := if retry_count <? 6 then retry_count else 6 in
  let delay := dmul peak_controller_retry_base_delay (of_Z (Z.shiftl 1 shift)) in
  if dgt delay peak_controller_retry_max_delay then peak_controller_retry_max_delay else delay.

(** ** Lemmas *)

Lemma profile_seconds_floor_positive overhead :
  positive_finite (profile_seconds_floor overhead) = true.
Proof. unfold profile_seconds_floor. by branch. Qed.

Lemma saved_detach_profile_seconds_positive overhead saved fallback :
  positive_finite (saved_detach_profile_seconds overhead saved fallback) = true.
Proof.
  unfold saved_detach_profile_seconds. pose proof (profile_seconds_floor_positive overhead).
  by repeat branch.
Qed.

#[export] Hint Resolve profile_seconds_floor_positive saved_detach_profile_seconds_positive : peak.

Lemma multiply_positive_finite_positive x y z :
  multiply_positive_finite x y = Some z -> positive_finite z = true.
Proof.
  unfold multiply_positive_finite. branch; [done|]. destruct (positive_finite (dmul x y)) eqn:E; simpl; [|done].
  by intros [= <-].
Qed.

Lemma retry_delay_late n : 6 <= n -> retry_delay n = peak_controller_retry_max_delay.
Proof. intros Hn. unfold retry_delay. destruct (Z.ltb_spec n 6); [lia|]. reflexivity. Qed.

(** ** Properties *)

(** the numeric helpers never let a NaN, an infinity or a negative value
    out: products and differences that succeed are in range, and every
    estimate they feed (floor, saved and projected detach profile, historical
    rate, observation lease, the estimate stored at detach) is a positive
    finite double, whatever the inputs. *)
Theorem estimates_positive_finite overhead h saved sample x y :
  (forall z, multiply_positive_finite x y = Some z -> positive_finite z = true) /\
  (forall z, multiply_nonnegative_finite x y = Some z -> nonnegative_finite z = true) /\
  (forall z, subtract_nonnegative_finite x y = Some z -> nonnegative_finite z = true) /\
  positive_finite (saved_detach_profile_seconds overhead saved x) = true /\
  positive_finite (projected_detach_profile_seconds overhead saved x) = true /\
  positive_finite (historical_profile_rate x y) = true /\
  positive_finite (next_observation_lease_seconds x y) = true /\
  positive_finite (detach_profile_estimate overhead h sample) = true.
Proof.
  split_and!.
  - intros z. apply multiply_positive_finite_positive.
  - intros z. unfold multiply_nonnegative_finite. branch; [done|]. branch; [done|].
    intros [= <-]. by breflect.
  - intros z. unfold subtract_nonnegative_finite. branch; [done|]. branch; [done|].
    intros [= <-]. by breflect.
  - auto with peak.
  - unfold projected_detach_profile_seconds. destruct saved as [s|]; simpl.
    + destruct (positive_finite s) eqn:Es, (positive_finite x) eqn:Ex; simpl; auto with peak.
      by branch.
    + destruct (positive_finite x) eqn:Ex; simpl; auto with peak.
  - unfold historical_profile_rate. branch; [done|]. by branch.
  - unfold next_observation_lease_seconds. branch; [done|].
    destruct (multiply_positive_finite x y) eqn:E; [|done].
    by eapply multiply_positive_finite_positive.
  - unfold detach_profile_estimate. branch; auto with peak.
Qed.

(** the retry backoff is exactly 1, 2, 4, 8, 16, 32 milliseconds and then
    50 milliseconds for ever: it never exceeds the maximum delay and never
    decreases. *)
Theorem retry_backoff_schedule :
  map (fun n => deq (retry_delay n) (dlit (2 ^ n) 3)) [0; 1; 2; 3; 4; 5] = replicate 6 true /\
  (forall n, 6 <= n -> retry_delay n = dlit 50 3) /\
  (forall n m, 0 <= n <= m -> dle (retry_delay n) (retry_delay m) = true) /\
  (forall n, 0 <= n -> dle (retry_delay n) (dlit 50 3) = true).
Proof.
  assert (forall n, 0 <= n -> dle (retry_delay n) (dlit 50 3) = true) as Hmax.
  { intros n Hn. destruct (decide (6 <= n)); [by rewrite retry_delay_late|].
    assert (n = 0 \/ n = 1 \/ n = 2 \/ n = 3 \/ n = 4 \/ n = 5) as [->|[->|[->|[->|[->| ->]]]]]
      by lia; vm_compute; done. }
  split_and!; [vm_compute; done|apply retry_delay_late| |done].
  intros n m Hnm. destruct (decide (6 <= m)); [rewrite (retry_delay_late m) by done; apply Hmax; lia|].
  assert (n = 0 \/ n = 1 \/ n = 2 \/ n = 3 \/ n = 4 \/ n = 5) as Hn by lia.
  assert (m = 0 \/ m = 1 \/ m = 2 \/ m = 3 \/ m = 4 \/ m = 5) as Hm by lia.
  destruct Hn as [->|[->|[->|[->|[->| ->]]]]], Hm as [->|[->|[->|[->|[->| ->]]]]];
    (lia || vm_compute; done).
Qed.
