(* ===== verification/HookLifecycle.v ===== *)
(** * The hook lifecycle controller

    The operations of the hook controller of [src/general_listener.c] on the
    state of [HookModel]: requests, state publication, retry bookkeeping, the
    detach, reattach and shutdown of one hook, the batch and the per-hook
    processing of pending requests.  Each definition keeps the order of the
    source's state changes and external calls.  Diagnostic output and traces
    have no effect on the state and are left out. *)

From Stdlib Require Import SpecFloat.
From S2P Require Import Prelude HookControl HookStatus Doubles HookModel HookPolicy.

Definition hook_published (h : hook) : bool := negb (address h =? 0) && negb (listener h =? 0).

Definition hook_is_published (hook_id : nat) (w : world) : bool :=
  match hooks w !! hook_id with Some h => hook_published h | None => false end.

Definition set_legacy_flags (nd d : bool) (h : hook) : hook := set_detached d (set_need_detach nd h).

(** The switch of [publish_legacy_flags]. *)
Definition legacy_flags (st : PeakHookState) : bool * bool :=
  match st with
  | PEAK_HOOK_DETACH_REQUESTED | PEAK_HOOK_DETACHING => (true, false)
  | PEAK_HOOK_DETACHED | PEAK_HOOK_REATTACH_REQUESTED
  | PEAK_HOOK_REATTACHING | PEAK_HOOK_SHUTDOWN => (false, true)
  | PEAK_HOOK_UNRESOLVED | PEAK_HOOK_ATTACHED => (false, false)
  end.

Definition publish_legacy_flags (hook_id : nat) : M unit :=
  update_hook hook_id
    (fun h => let '(nd, d) := legacy_flags (state h) in set_legacy_flags nd d h).

Definition controller_wake : M unit := emit EvWake.

(** The whole of [set_state]: array, packed word, legacy flags, wake, mirror. *)
Definition set_hook_state (hook_id : nat) (st : PeakHookState) : M unit :=
  let* entry := get_hook hook_id in
  match entry with
  | None => ret tt
  | Some _ =>
      update_hook hook_id (set_state st) ;;
      let* entry := get_hook hook_id in
      let* carried :=
        match entry with
        | Some h =>
            if negb (listener h =? 0) then
              let '(carried, word) := state_publication (control h) st in
              update_hook hook_id (set_control word) ;; ret carried
            else ret false
        | None => ret false
        end in
      publish_legacy_flags hook_id ;;
      (if carried : bool then controller_wake else ret tt) ;;
      status_store hook_id st
  end.

Definition no_request : request_context :=
  mkRequest PEAK_HOOK_REQUEST_SOURCE_NONE 0 d0 d0 d0 d0.

Definition clear_pending_request_context (hook_id : nat) : M unit :=
  update_hook hook_id (set_request no_request).

Definition set_pending_request_context (hook_id : nat) (r : request_context) : M unit :=
  update_hook hook_id (set_request r).

Definition reset_retry (hook_id : nat) : M unit :=
  update_hook hook_id (fun h =>
    set_pending_observed_time d0
      (set_last_retry_status PEAK_DETACH_STATUS_SAFE
         (set_retry_count 0 (set_next_retry_time d0 h)))) ;;
  clear_pending_request_context hook_id.

Definition mark_pending_started (hook_id : nat) (now : double) : M unit :=
  update_hook hook_id (fun h =>
    if dgt (pending_observed_time h) d0 then h else set_pending_observed_time now h).

Definition note_detach_success (hook_id : nat) (now : double) : M unit :=
  update_hook hook_id (set_last_detach_time now).

Definition note_reattach_success (hook_id : nat) : M unit :=
  update_hook hook_id (fun h =>
    let h := if reattach_request_calls_valid h &&
                (reattach_request_calls h <? request_calls (request h))
             then set_listener_revisited true h else h in
    set_reattach_request_calls_valid true
      (set_reattach_request_calls (request_calls (request h)) h)).

Definition pending_age (h : hook) (now : double) : double :=
  if dle (pending_observed_time h) d0 then d0 else dsub now (pending_observed_time h).

Definition retry_ready (h : hook) (now : double) : bool :=
  dle (next_retry_time h) d0 || dle (next_retry_time h) now.

Inductive PeakGeneralShutdownFailureBucket :=
  | PEAK_GENERAL_SHUTDOWN_FAILURE_NONE
  | PEAK_GENERAL_SHUTDOWN_FAILURE_PREPARE
  | PEAK_GENERAL_SHUTDOWN_FAILURE_SNAPSHOT_UNSAFE
  | PEAK_GENERAL_SHUTDOWN_FAILURE_PAUSE_FAILED.

Section Controller.
Context (env : environment).

Definition peak_second : M double := ask (env_second env).

Definition reattach_cooldown_ready (hook_id : nat) (now : double) (w : world) : bool :=
  match hooks w !! hook_id with
  | None => true
  | Some h =>
      if dle (env_reattach_cooldown_s env) d0 || dle (last_detach_time h) d0 then true
      else dge (dsub now (last_detach_time h)) (env_reattach_cooldown_s env)
  end.

Definition note_retry (hook_id : nat) (status : PeakDetachStatus) : M unit :=
  let* entry := get_hook hook_id in
  match entry with
  | None => ret tt
  | Some h =>
      if negb (status_is_retryable status) then ret tt
      else
        let count := retry_count h in
        let delay := retry_delay count in
        (if count <? UINT32_MAX
         then update_hook hook_id (set_retry_count (count + 1)) else ret tt) ;;
        let* now := peak_second in
        update_hook hook_id (set_next_retry_time (dadd now delay)) ;;
        update_hook hook_id (set_last_retry_status status)
  end.

Definition retry_budget_exceeded (hook_id : nat) (now : double) (w : world) : bool :=
  match hooks w !! hook_id with
  | None => false
  | Some h =>
      if (0 <? env_max_retry_count env) && (env_max_retry_count env <=? retry_count h)
      then true
      else dgt (env_max_pending_age_s env) d0 &&
           dge (pending_age h now) (env_max_pending_age_s env)
  end.

(** ** Sample cache *)

Definition cache_hook_sample (hook_id : nat) (calls : Z) (profile_seconds : double) : M unit :=
  update_hook hook_id (fun h =>
    set_cached_sample_valid true
      (set_cached_sample_profile_seconds profile_seconds (set_cached_sample_calls calls h))).

Definition try_hook_sample_cache (hook_id : nat) : M (option (Z * double)) :=
  gets (fun w =>
    match hooks w !! hook_id with
    | Some h => if cached_sample_valid h
                then Some (cached_sample_calls h, cached_sample_profile_seconds h) else None
    | None => None
    end).

Definition refresh_hook_sample_cache (hook_id : nat) : M (option (Z * double)) :=
  let* entry := get_hook hook_id in
  match entry with
  | None => ret None
  | Some h =>
      if (address h =? 0) || (listener h =? 0) then ret None
      else
        let* total_num_calls := ask (env_total_calls env) in
        let profile_seconds :=
          profile_seconds_for_calls (env_general_overhead env) h total_num_calls in
        cache_hook_sample hook_id total_num_calls profile_seconds ;;
        ret (Some (total_num_calls, profile_seconds))
  end.

Definition note_detach_profile_seconds (hook_id : nat) : M unit :=
  let* entry := get_hook hook_id in
  match entry with
  | None => ret tt
  | Some _ =>
      let* sample := refresh_hook_sample_cache hook_id in
      update_hook hook_id (fun h =>
        set_detach_profile_seconds
          (detach_profile_estimate (env_general_overhead env) h (snd <$> sample)) h)
  end.

(** ** Requests *)

Definition request_detach_with_context (hook_id : nat) (r : request_context) : M bool :=
  let* finalizing := gets mpi_finalize_requested in
  if finalizing : bool then ret false
  else
    let* published := gets (hook_is_published hook_id) in
    if negb published then ret false
    else
      let* entry := get_hook hook_id in
      match state <$> entry with
      | Some PEAK_HOOK_ATTACHED =>
          reset_retry hook_id ;;
          let* now := peak_second in
          mark_pending_started hook_id now ;;
          set_pending_request_context hook_id r ;;
          set_hook_state hook_id PEAK_HOOK_DETACH_REQUESTED ;;
          ret true
      | Some PEAK_HOOK_DETACH_REQUESTED | Some PEAK_HOOK_DETACHING => ret true
      | _ => ret false
      end.

Definition api_request (calls : Z) : request_context :=
  mkRequest PEAK_HOOK_REQUEST_SOURCE_API calls d0 d0 d0 d0.

Definition request_detach_unlocked (hook_id : nat) : M bool :=
  request_detach_with_context hook_id (api_request 0).

Definition unflushed (h : hook) : bool := gum_detached h && negb (gum_detach_flushed h).

Definition request_reattach_with_context (hook_id : nat) (r : request_context) : M bool :=
  let* finalizing := gets mpi_finalize_requested in
  if finalizing : bool then ret false
  else
    let* published := gets (hook_is_published hook_id) in
    if negb published then ret false
    else
      let* entry := get_hook hook_id in
      match entry with
      | None => ret false
      | Some h =>
          match state h with
          | PEAK_HOOK_DETACHED =>
              if unflushed h then ret false
              else
                reset_retry hook_id ;;
                let* now := peak_second in
                mark_pending_started hook_id now ;;
                set_pending_request_context hook_id r ;;
                set_hook_state hook_id PEAK_HOOK_REATTACH_REQUESTED ;;
                ret true
          | PEAK_HOOK_REATTACH_REQUESTED | PEAK_HOOK_REATTACHING => ret true
          | _ => ret false
          end
      end.

(** The sample is only consulted for a DETACHED hook; no sample, no request. *)
Definition request_reattach_unlocked (hook_id : nat) : M bool :=
  let* entry := get_hook hook_id in
  let* calls :=
    match state <$> entry with
    | Some PEAK_HOOK_DETACHED =>
        let* fresh := refresh_hook_sample_cache hook_id in
        match fresh with
        | Some (calls, _) => ret (Some calls)
        | None =>
            let* cached := try_hook_sample_cache hook_id in
            ret (fst <$> cached)
        end
    | _ => ret (Some 0)
    end in
  match calls with
  | None => ret false
  | Some calls => request_reattach_with_context hook_id (api_request calls)
  end.

Definition wake_if (accepted : bool) : M bool :=
  (if accepted then controller_wake else ret tt) ;; ret accepted.

Definition request_detach (hook_id : nat) : M bool :=
  let* accepted := request_detach_unlocked hook_id in wake_if accepted.

Definition request_reattach (hook_id : nat) : M bool :=
  let* accepted := request_reattach_unlocked hook_id in wake_if accepted.

Definition mark_attached (hook_id : nat) : M unit := set_hook_state hook_id PEAK_HOOK_ATTACHED.

(** ** Mutation of one hook *)

Definition may_pause (t : tracked_thread) : bool :=
  (mapped_id t <? env_max_num_threads env)%nat && negb (tid_key t =? env_controller_tid env).

(** Returns whether every thread paused, and the threads with their sessions. *)
Fixpoint pause_called_threads (threads : list tracked_thread)
    : M (bool * list tracked_thread) :=
  match threads with
  | [] => ret (true, [])
  | t :: threads =>
      let* (ok, t) :=
        if may_pause t then
          let* (status, session) := ask (env_pause env) in
          emit (EvPause (tid_key t) session status) ;;
          ret (status =? 0, mkThread (tid_key t) (mapped_id t) session status)
        else ret (true, t) in
      let* (rest_ok, rest) := pause_called_threads threads in
      ret (ok && rest_ok, t :: rest)
  end.

Definition must_resume (t : tracked_thread) : bool :=
  may_pause t && ((pause_status t =? 0) || (pause_status t =? 1)) && (0 <=? pause_session_id t).

Fixpoint resume_called_threads (threads : list tracked_thread) : M unit :=
  match threads with
  | [] => ret tt
  | t :: threads =>
      (if must_resume t then emit (EvUnpause (tid_key t) (pause_session_id t)) else ret tt) ;;
      resume_called_threads threads
  end.

Definition snapshot_is_safe (threads : list tracked_thread) (snapshot_complete : bool) : bool :=
  snapshot_complete &&
  forallb (fun t => mapped_id t <? env_max_num_threads env)%nat threads.

Definition prepare_hook_mutation (hook_id : nat) (operation : PeakDetachOperation)
    : M (bool * PeakDetachStatus) :=
  emit EvModuleMutationBegin ;;
  let* (ok, status) := ask (env_prepare env) in
  emit (EvPrepare hook_id operation ok) ;;
  (if ok : bool then ret tt else emit EvModuleMutationEnd) ;;
  ret (ok, status).

(** [finish] followed by the abort every caller makes when it fails. *)
Definition finish_hook_mutation_or_exit : M unit :=
  let* ok := ask (env_finish env) in
  emit (EvFinish ok) ;;
  emit EvModuleMutationEnd ;;
  if ok : bool then ret tt else exit_process.

Definition handle_prepare_failure (hook_id : nat) (stable_state : PeakHookState)
    (status : PeakDetachStatus) : M bool :=
  let leave := reset_retry hook_id ;; set_hook_state hook_id stable_state ;; ret false in
  if status_is_retryable status then
    note_retry hook_id status ;;
    let* now := peak_second in
    let* exceeded := gets (retry_budget_exceeded hook_id now) in
    if negb exceeded then ret true else leave
  else leave.

(** The bounded flush: 100 attempts and a last one. *)
Fixpoint flush_attempts (attempts : nat) : M bool :=
  let* ok := ask (env_gum_flush env) in
  emit (EvGumFlush ok) ;;
  match attempts with
  | O => ret ok
  | S attempts => if ok : bool then ret true else flush_attempts attempts
  end.
Definition flush_teardown : M bool := flush_attempts 100.

(** [prepare_fast_detach], which must succeed, and the Gum transaction. *)
Definition gum_detach_or_exit (hook_id : nat) : M unit :=
  let* ok := ask (env_prepare_fast_detach env) in
  emit (EvFastDetach hook_id ok) ;;
  if negb ok then exit_process else emit (EvGumDetach hook_id).

Definition detach_and_flush (hook_id : nat) : M unit :=
  gum_detach_or_exit hook_id ;;
  update_hook hook_id (set_gum_detached true) ;;
  let* flushed := flush_teardown in
  update_hook hook_id (set_gum_detach_flushed flushed).

Definition gum_attach (hook_id : nat) : M bool :=
  let* ok := ask (env_gum_attach_ok env) in
  emit (EvGumAttach hook_id ok) ;; ret ok.

(** The epilogue shared by the snapshot and pause failures. *)
Definition abandon_to (hook_id : nat) (stable_state : PeakHookState) : M bool :=
  reset_retry hook_id ;; set_hook_state hook_id stable_state ;; ret false.

Definition finish_detach (hook_id : nat) : M unit :=
  update_hook hook_id (set_listener_detached true) ;;
  let* now := peak_second in
  note_detach_success hook_id now ;;
  note_detach_profile_seconds hook_id ;;
  set_hook_state hook_id PEAK_HOOK_DETACHED ;;
  reset_retry hook_id.

Definition finish_reattach (hook_id : nat) : M unit :=
  update_hook hook_id (set_gum_detached false) ;;
  update_hook hook_id (set_gum_detach_flushed true) ;;
  update_hook hook_id (set_listener_reattached true) ;;
  set_hook_state hook_id PEAK_HOOK_ATTACHED ;;
  note_reattach_success hook_id ;;
  reset_retry hook_id.

Definition hook_state_equals (hook_id : nat) (st : PeakHookState) (w : world) : bool :=
  match hooks w !! hook_id with Some h => bool_decide (state h = st) | None => false end.

Definition detach_if_requested (hook_id : nat) (threads : list tracked_thread)
    (snapshot_complete : bool) : M bool :=
  let* requested := gets (fun w =>
    hook_is_published hook_id w && hook_state_equals hook_id PEAK_HOOK_DETACH_REQUESTED w) in
  if negb requested then ret false
  else
    let* (ok, prepare_status) := prepare_hook_mutation hook_id PEAK_DETACH_OPERATION_DETACH in
    if negb ok then
      handle_prepare_failure hook_id PEAK_HOOK_ATTACHED prepare_status ;; ret false
    else
      let* helper_holds_threads := ask (env_threads_held env) in
      let* helper_applied_physical_patch := ask (env_physical_patch env) in
      if negb helper_holds_threads && negb (snapshot_is_safe threads snapshot_complete) then
        finish_hook_mutation_or_exit ;; abandon_to hook_id PEAK_HOOK_ATTACHED
      else
        set_hook_state hook_id PEAK_HOOK_DETACHING ;;
        let* (all_paused, threads) :=
          if negb helper_holds_threads then pause_called_threads threads
          else ret (true, threads) in
        if negb all_paused then
          finish_hook_mutation_or_exit ;;
          resume_called_threads threads ;;
          abandon_to hook_id PEAK_HOOK_ATTACHED
        else
          (if negb helper_applied_physical_patch then detach_and_flush hook_id else ret tt) ;;
          finish_hook_mutation_or_exit ;;
          (if negb helper_holds_threads then resume_called_threads threads else ret tt) ;;
          finish_detach hook_id ;;
          ret true.

Definition reattach_if_requested (hook_id : nat) (threads : list tracked_thread)
    (snapshot_complete : bool) : M bool :=
  let* requested := gets (fun w =>
    hook_is_published hook_id w && hook_state_equals hook_id PEAK_HOOK_REATTACH_REQUESTED w) in
  if negb requested then ret false
  else
    let* (ok, prepare_status) := prepare_hook_mutation hook_id PEAK_DETACH_OPERATION_REATTACH in
    if negb ok then
      handle_prepare_failure hook_id PEAK_HOOK_DETACHED prepare_status ;; ret false
    else
      let* helper_holds_threads := ask (env_threads_held env) in
      let* helper_applied_physical_patch := ask (env_physical_patch env) in
      if negb helper_holds_threads && negb (snapshot_is_safe threads snapshot_complete) then
        finish_hook_mutation_or_exit ;; abandon_to hook_id PEAK_HOOK_DETACHED
      else
        set_hook_state hook_id PEAK_HOOK_REATTACHING ;;
        let* (all_paused, threads) :=
          if negb helper_holds_threads then pause_called_threads threads
          else ret (true, threads) in
        if negb all_paused then
          finish_hook_mutation_or_exit ;;
          resume_called_threads threads ;;
          abandon_to hook_id PEAK_HOOK_DETACHED
        else
          let* attached :=
            if negb helper_applied_physical_patch then gum_attach hook_id else ret true in
          finish_hook_mutation_or_exit ;;
          (if negb helper_holds_threads then resume_called_threads threads else ret tt) ;;
          if negb attached then abandon_to hook_id PEAK_HOOK_DETACHED
          else finish_reattach hook_id ;; ret true.

(** ** Shutdown of one hook *)

(** The snapshot check and the pause of the two shutdown branches report a
    failure through [failure]; the result is the returned flag and the note. *)
Definition shutdown_hook (hook_id : nat) (threads : list tracked_thread)
    (snapshot_complete : bool)
    : M (bool * option (PeakGeneralShutdownFailureBucket * PeakDetachStatus)) :=
  let done_ := set_hook_state hook_id PEAK_HOOK_SHUTDOWN ;;
               reset_retry hook_id ;; ret (true, None) in
  let* entry := get_hook hook_id in
  let* published := gets (hook_is_published hook_id) in
  match entry with
  | None => set_hook_state hook_id PEAK_HOOK_SHUTDOWN ;; ret (true, None)
  | Some h =>
      if negb published then set_hook_state hook_id PEAK_HOOK_SHUTDOWN ;; ret (true, None)
      else if (bool_decide (state h = PEAK_HOOK_DETACHED) ||
               bool_decide (state h = PEAK_HOOK_REATTACH_REQUESTED)) && negb (gum_detached h)
      then
        let* (ok, prepare_status) := prepare_hook_mutation hook_id PEAK_DETACH_OPERATION_SHUTDOWN in
        if negb ok then ret (false, Some (PEAK_GENERAL_SHUTDOWN_FAILURE_PREPARE, prepare_status))
        else
          let* held := ask (env_threads_held env) in
          if negb held && negb (snapshot_is_safe threads snapshot_complete) then
            finish_hook_mutation_or_exit ;;
            ret (false, Some (PEAK_GENERAL_SHUTDOWN_FAILURE_SNAPSHOT_UNSAFE,
                              PEAK_DETACH_STATUS_CLASSIFY_FAILED))
          else
            gum_detach_or_exit hook_id ;;
            update_hook hook_id (set_gum_detached true) ;;
            update_hook hook_id (set_gum_detach_flushed false) ;;
            finish_hook_mutation_or_exit ;;
            done_
      else if negb (bool_decide (state h = PEAK_HOOK_DETACHED)) &&
              negb (bool_decide (state h = PEAK_HOOK_REATTACH_REQUESTED)) &&
              negb (bool_decide (state h = PEAK_HOOK_SHUTDOWN))
      then
        let* (ok, prepare_status) := prepare_hook_mutation hook_id PEAK_DETACH_OPERATION_SHUTDOWN in
        if negb ok then ret (false, Some (PEAK_GENERAL_SHUTDOWN_FAILURE_PREPARE, prepare_status))
        else
          let* held := ask (env_threads_held env) in
          if negb held && negb (snapshot_is_safe threads snapshot_complete) then
            finish_hook_mutation_or_exit ;;
            ret (false, Some (PEAK_GENERAL_SHUTDOWN_FAILURE_SNAPSHOT_UNSAFE,
                              PEAK_DETACH_STATUS_CLASSIFY_FAILED))
          else
            set_hook_state hook_id PEAK_HOOK_DETACHING ;;
            let* (all_paused, threads) :=
              if negb held then pause_called_threads threads else ret (true, threads) in
            if negb all_paused then
              finish_hook_mutation_or_exit ;;
              resume_called_threads threads ;;
              ret (false, Some (PEAK_GENERAL_SHUTDOWN_FAILURE_PAUSE_FAILED,
                                PEAK_DETACH_STATUS_ERROR))
            else
              (if negb (gum_detached h) then
                 gum_detach_or_exit hook_id ;;
                 update_hook hook_id (set_gum_detached true) ;;
                 update_hook hook_id (set_gum_detach_flushed false)
               else ret tt) ;;
              finish_hook_mutation_or_exit ;;
              (if negb held then resume_called_threads threads else ret tt) ;;
              done_
      else done_
  end.

(** ** Batches *)

Definition PEAK_GENERAL_CONTROLLER_MAX_BATCH_CANDIDATES : nat := 64.

Record PeakGeneralBatchCandidate := mkCandidate {
  candidate_hook_id : nat;
  candidate_operation : PeakDetachOperation;
  candidate_stable_state : PeakHookState
}.

Definition is_requested (st : PeakHookState) : bool :=
  bool_decide (st = PEAK_HOOK_DETACH_REQUESTED) ||
  bool_decide (st = PEAK_HOOK_REATTACH_REQUESTED).

Definition has_pending (w : world) : bool := existsb (fun h => is_requested (state h)) (hooks w).

(** The tests of one iteration of [collect_batch], [None] for [continue]. *)
Definition batch_candidate (now : double) (i : nat) (h : hook)
    : option PeakGeneralBatchCandidate :=
  if negb (is_requested (state h)) || negb (retry_ready h now) || negb (hook_published h)
  then None
  else if bool_decide (state h = PEAK_HOOK_DETACH_REQUESTED)
  then Some (mkCandidate i PEAK_DETACH_OPERATION_DETACH PEAK_HOOK_ATTACHED)
  else if unflushed h then None
  else Some (mkCandidate i PEAK_DETACH_OPERATION_REATTACH PEAK_HOOK_DETACHED).

(** The scan: [offset] counts up to [total], [room] candidates still fit. *)
Fixpoint collect_from (remaining : nat) (now : double) (start total offset room : nat)
    : M (list PeakGeneralBatchCandidate) :=
  match remaining with
  | O => ret []
  | S remaining =>
      if (offset <? total)%nat && (0 <? room)%nat then
        let i := ((start + offset) mod total)%nat in
        let* entry := get_hook i in
        match h ← entry; batch_candidate now i h with
        | None => collect_from remaining now start total (S offset) room
        | Some c =>
            mark_pending_started i now ;;
            let* rest := collect_from remaining now start total (S offset) (pred room) in
            ret (c :: rest)
        end
      else ret []
  end.

Definition collect_batch (now : double) (max_candidates : nat)
    : M (list PeakGeneralBatchCandidate) :=
  let* total := gets (fun w => length (hooks w)) in
  let* cursor := gets batch_cursor in
  let start := if (0 <? total)%nat then (cursor mod total)%nat else 0%nat in
  let* candidates := collect_from total now start total 0 max_candidates in
  match last candidates with
  | Some c =>
      (fun w => Done candidates
         (with_batch_cursor ((candidate_hook_id c + 1) mod total)%nat w))
  | None => ret candidates
  end.

Definition allocate_batch_id : M Z := fun w =>
  let id := next_batch_id w in
  let next := wrap 32 (id + 1) in
  let '(id, next) := if id =? 0 then (next, wrap 32 (next + 1)) else (id, next) in
  let next := if next =? 0 then 1 else next in
  Done id (with_next_batch_id next w).

(** The mutation of one candidate between batch preparation and finish;
    returns [mutation_ok]. *)
Definition batch_mutate (c : PeakGeneralBatchCandidate) (r : PeakDetachBatchResult) : M bool :=
  let hook_id := candidate_hook_id c in
  if negb (prepared r) then ret true
  else if bool_decide (candidate_operation c = PEAK_DETACH_OPERATION_DETACH) then
    set_hook_state hook_id PEAK_HOOK_DETACHING ;;
    (if negb (uses_physical_patch r) then detach_and_flush hook_id else ret tt) ;;
    ret true
  else
    set_hook_state hook_id PEAK_HOOK_REATTACHING ;;
    (if negb (uses_physical_patch r) then gum_attach hook_id else ret true).

(** The publication of one candidate after the batch finished. *)
Definition batch_publish (c : PeakGeneralBatchCandidate) (r : PeakDetachBatchResult)
    (mutation_ok : bool) : M unit :=
  let hook_id := candidate_hook_id c in
  if negb (prepared r) then ret tt
  else if bool_decide (candidate_operation c = PEAK_DETACH_OPERATION_DETACH) then
    finish_detach hook_id
  else if negb mutation_ok then
    reset_retry hook_id ;; set_hook_state hook_id PEAK_HOOK_DETACHED
  else finish_reattach hook_id.

Definition batch_failure (c : PeakGeneralBatchCandidate) (r : PeakDetachBatchResult) : M unit :=
  if prepared r then ret tt
  else handle_prepare_failure (candidate_hook_id c) (candidate_stable_state c)
         (batch_result_status r) ;; ret tt.

Definition batch := list (PeakGeneralBatchCandidate * PeakDetachBatchResult).

Fixpoint mutate_all (b : batch) : M (list bool) :=
  match b with
  | [] => ret []
  | (c, r) :: b =>
      let* ok := batch_mutate c r in
      let* rest := mutate_all b in
      ret (ok :: rest)
  end.

Fixpoint publish_all (b : batch) (oks : list bool) : M unit :=
  match b, oks with
  | (c, r) :: b, ok :: oks => batch_publish c r ok ;; publish_all b oks
  | _, _ => ret tt
  end.

Fixpoint fail_all (b : batch) : M unit :=
  match b with
  | [] => ret tt
  | (c, r) :: b => batch_failure c r ;; fail_all b
  end.

Definition process_pending_batch : M bool :=
  let* now := peak_second in
  let* candidates := collect_batch now PEAK_GENERAL_CONTROLLER_MAX_BATCH_CANDIDATES in
  match candidates with
  | [] => ret false
  | _ =>
      let* _ := allocate_batch_id in
      emit EvModuleMutationBegin ;;
      let ids := map candidate_hook_id candidates in
      let* (results, prepared_count) := ask (fun t => env_prepare_batch env t ids) in
      emit (EvPrepareBatch ids prepared_count) ;;
      let b := zip candidates results in
      let* oks := mutate_all b in
      (if (0 <? prepared_count)%nat then
         finish_hook_mutation_or_exit ;;
         publish_all b oks
       else emit EvModuleMutationEnd) ;;
      fail_all b ;;
      ret (0 <? prepared_count)%nat
  end.

(** ** Processing of pending requests *)

Definition publish_detach_count_request (hook_id : nat) : M unit :=
  let* entry := get_hook hook_id in
  match entry with
  | None => ret tt
  | Some h =>
      if listener h =? 0 then ret tt
      else
        let '(taken, word) := take_detach_count_request (control h) (control h) in
        update_hook hook_id (set_control word) ;;
        if negb taken then ret tt
        else
          let* total_num_calls := ask (env_total_calls env) in
          let* now := peak_second in
          request_detach_with_context hook_id
            (mkRequest PEAK_HOOK_REQUEST_SOURCE_DETACH_COUNT total_num_calls d0 d0
               (dsub now (env_main_time env)) d0) ;;
          ret tt
  end.

Fixpoint for_each (ids : list nat) (f : nat -> M unit) : M unit :=
  match ids with
  | [] => ret tt
  | i :: ids => f i ;; for_each ids f
  end.

Definition publish_detach_count_requests : M unit :=
  let* count := gets (fun w => length (hooks w)) in
  for_each (seq 0 count) publish_detach_count_request.

Definition process_pending_hook (now : double) (i : nat) : M bool :=
  let* entry := get_hook i in
  match entry with
  | None => ret false
  | Some h =>
      if negb (is_requested (state h)) || negb (retry_ready h now) then ret false
      else
        let* (snapshot, snapshot_complete) := ask (env_snapshot_threads env) in
        let threads := map (fun t => mkThread t.1 t.2 (-1) (-1)) snapshot in
        if bool_decide (state h = PEAK_HOOK_DETACH_REQUESTED)
        then detach_if_requested i threads snapshot_complete
        else reattach_if_requested i threads snapshot_complete
  end.

Fixpoint process_pending_hooks (now : double) (ids : list nat) : M bool :=
  match ids with
  | [] => ret false
  | i :: ids =>
      let* did := process_pending_hook now i in
      let* rest := process_pending_hooks now ids in
      ret (did || rest)
  end.

Definition process_pending : M bool :=
  let* now := peak_second in
  let* finalizing := gets mpi_finalize_requested in
  if finalizing : bool then ret false
  else
    publish_detach_count_requests ;;
    if env_strict_batch_supported env then process_pending_batch
    else
      let* count := gets (fun w => length (hooks w)) in
      process_pending_hooks now (seq 0 count).

End Controller.
