(* ===== verification/LifecycleProofs.v ===== *)
(** * Invariants of the hook lifecycle controller

    Proofs about [HookLifecycle]: the consistency of the four publications of
    a hook's state, the bracketing protocol of physical mutations, the outcome
    of every per-hook operation, the retry budget, and batch selection. *)

From Stdlib Require Import SpecFloat.
From S2P Require Import Prelude HookControl HookStatus Doubles HookModel HookPolicy HookLifecycle.

#[local] Opaque state_publication.

(** ** Tactics of the program logic *)

(** One step of a [preserves] proof; leaves of the program come from the
    [lifecycle] database. *)
Create HintDb lifecycle.
#[export] Hint Resolve preserves_ret preserves_exit preserves_gets : lifecycle.

Ltac preserve_step :=
  first
    [ progress intros
    | solve [eauto with lifecycle]
    | apply preserves_bind
    | match goal with
      | |- preserves _ (match ?x with _ => _ end) => destruct x
      | |- preserves _ (let '(_, _) := ?x in _) => destruct x
      end ].
Ltac preserve := repeat preserve_step.

(** ** Consistency of the published state *)

(** An update that leaves the four publications of the state alone. *)
Definition neutral (f : hook -> hook) : Prop := forall h,
  state (f h) = state h /\ need_detach (f h) = need_detach h /\ detached (f h) = detached h /\
  listener (f h) = listener h /\ control (f h) = control h.

Definition hook_consistent (s : hook_status) (i : nat) (h : hook) : Prop :=
  (need_detach h, detached h) = legacy_flags (state h) /\
  valid_word (control h) /\
  (listener h <> 0 -> hook_state_is (control h) (state h) = true) /\
  cells s !! i = Some (state h).

Definition consistent (w : world) : Prop :=
  HookStatus.wf (status w) /\ published_count (status w) = length (hooks w) /\
  forall i h, hooks w !! i = Some h -> hook_consistent (status w) i h.

Lemma consistent_same w w' :
  hooks w' = hooks w -> status w' = status w -> consistent w -> consistent w'.
Proof. intros Hh Hs. unfold consistent. by rewrite Hh, Hs. Qed.

Lemma preserves_emit e : preserves consistent (emit e).
Proof. intros w. simpl. by apply consistent_same. Qed.

Lemma preserves_ask {A} (f : nat -> A) : preserves consistent (ask f).
Proof. intros w. simpl. by apply consistent_same. Qed.

Lemma preserves_update i f : neutral f -> preserves consistent (update_hook i f).
Proof.
  intros Hf w (Hwf & Hn & Hall). simpl. unfold consistent. simpl.
  split_and!; [done|by rewrite length_alter|]. intros j h Hj.
  destruct (decide (i = j)) as [->|Hne].
  - rewrite list_lookup_alter_eq in Hj. apply fmap_Some in Hj as (h0 & Hj & ->).
    specialize (Hall _ _ Hj). destruct (Hf h0) as (E1 & E2 & E3 & E4 & E5).
    unfold hook_consistent in *. by rewrite E1, E2, E3, E4, E5.
  - rewrite list_lookup_alter_ne in Hj by done. by apply Hall.
Qed.

(** What [set_hook_state] makes of one entry. *)
Definition entered (st : PeakHookState) (h : hook) : hook :=
  let h := set_state st h in
  let h := if negb (listener h =? 0) then set_control (state_publication (control h) st).2 h
           else h in
  let '(nd, d) := legacy_flags st in set_legacy_flags nd d h.

Lemma alter_alter (f g : hook -> hook) i (l : list hook) :
  alter g i (alter f i l) = alter (fun h => g (f h)) i l.
Proof.
  apply list_eq. intros j. destruct (decide (i = j)) as [->|Hne].
  - rewrite !list_lookup_alter_eq. by destruct (l !! j).
  - by rewrite !list_lookup_alter_ne.
Qed.

Lemma alter_at (f g : hook -> hook) i (l : list hook) h :
  l !! i = Some h -> f h = g h -> alter f i l = alter g i l.
Proof.
  intros Hi E. apply list_eq. intros j. destruct (decide (i = j)) as [->|Hne].
  - rewrite !list_lookup_alter_eq, Hi. simpl. by rewrite E.
  - by rewrite !list_lookup_alter_ne.
Qed.

(** [set_hook_state] in one step: the new entry, the wake, the mirror. *)
Lemma set_hook_state_eq i st w h :
  hooks w !! i = Some h ->
  let wake := if negb (listener h =? 0) && (state_publication (control h) st).1
              then [EvWake] else [] in
  set_hook_state i st w =
    let w' := mkWorld (alter (entered st) i (hooks w)) (status w) (mpi_finalize_requested w)
                (batch_cursor w) (next_batch_id w) (ticks w) (events w ++ wake) in
    match store i st (status w) with
    | Some s => Done tt (with_status s w')
    | None => Exited w'
    end.
Proof.
  intros Hi wake. unfold set_hook_state, bind, get_hook, gets, update_hook. simpl. rewrite Hi. simpl.
  rewrite list_lookup_alter_eq, Hi. simpl.
  destruct (Z.eqb_spec (listener h) 0) as [E|E]; simpl.
  - unfold publish_legacy_flags, update_hook, ret, status_store, wake. simpl.
    rewrite app_nil_r. rewrite alter_alter.
    rewrite (alter_at _ (entered st) i (hooks w) h Hi);
      [by destruct (store i st (status w)), w|].
    unfold entered. simpl. by rewrite (proj2 (Z.eqb_eq _ _) E).
  - destruct (state_publication (control h) st) as [carried word] eqn:Ep.
    unfold publish_legacy_flags, update_hook, ret, controller_wake, emit, status_store, wake. simpl.
    rewrite !alter_alter.
    rewrite (alter_at _ (entered st) i (hooks w) h Hi);
      [by destruct carried; simpl; rewrite ?app_nil_r; destruct (store i st (status w)), w|].
    unfold entered. simpl. rewrite (proj2 (Z.eqb_neq _ _) E). simpl. by rewrite Ep.
Qed.

Lemma set_hook_state_none i st w : hooks w !! i = None -> set_hook_state i st w = Done tt w.
Proof. intros Hi. unfold set_hook_state, bind, get_hook, gets. by rewrite Hi. Qed.

Lemma entered_consistent st h :
  valid_word (control h) ->
  (need_detach (entered st h), detached (entered st h)) = legacy_flags (state (entered st h)) /\
  state (entered st h) = st /\ valid_word (control (entered st h)) /\
  listener (entered st h) = listener h /\
  (listener h <> 0 -> hook_state_is (control (entered st h)) st = true).
Proof.
  intros Hv. unfold entered. simpl.
  destruct (valid_word_packed _ Hv) as (f & Hf & Ef).
  destruct (legacy_flags st) as [nd d] eqn:El.
  destruct (Z.eqb_spec (listener h) 0) as [E|E]; simpl.
  - split_and!; try done.
  - rewrite Ef, publication_pack by done. simpl.
    pose proof (next_gen_ok (f_generation f) false (carries f st) st) as Hok.
    split_and!; try done; [by apply pack_valid|]. intros _. rewrite pack_state by done.
    by apply bool_decide_eq_true.
Qed.

Lemma consistent_store w i st h :
  consistent w -> hooks w !! i = Some h ->
  exists s, store i st (status w) = Some s /\ HookStatus.wf s /\
    published_count s = published_count (status w) /\ cells s = <[i:=st]> (cells (status w)).
Proof.
  intros (Hwf & Hn & Hall) Hi. pose proof (store_flat i st _ Hwf) as H.
  destruct (store i st (status w)) as [s|].
  - destruct H as (_ & ? & _ & ? & ?). eauto.
  - exfalso. pose proof (lookup_lt_Some _ _ _ Hi). destruct Hwf as [_ Hp]. lia.
Qed.

Lemma preserves_set_hook_state i st : preserves consistent (set_hook_state i st).
Proof.
  intros w Hc. destruct (hooks w !! i) as [h|] eqn:Hi; [|by rewrite set_hook_state_none].
  rewrite (set_hook_state_eq i st w h Hi). simpl.
  destruct (consistent_store w i st h Hc Hi) as (s & -> & Hs & Hp & Hcells). simpl.
  destruct Hc as (Hwf & Hn & Hall). unfold consistent. simpl.
  split_and!; [done|by rewrite length_alter, Hp|]. intros j h' Hj.
  assert (i < length (cells (status w)))%nat as Hlt.
  { destruct (Hall _ _ Hi) as (_ & _ & _ & Hcell). by apply lookup_lt_Some in Hcell. }
  destruct (decide (i = j)) as [->|Hne].
  - rewrite list_lookup_alter_eq, Hi in Hj. simpl in Hj. simplify_eq.
    destruct (Hall _ _ Hi) as (_ & Hv & _ & _).
    destruct (entered_consistent st h Hv) as (E1 & E2 & E3 & E4 & E5).
    unfold hook_consistent. rewrite E4, E2 in *. split_and!; try done.
    rewrite Hcells. by apply list_lookup_insert_eq.
  - rewrite list_lookup_alter_ne in Hj by done. destruct (Hall _ _ Hj) as (? & ? & ? & ?).
    unfold hook_consistent. rewrite Hcells. by rewrite list_lookup_insert_ne.
Qed.

Ltac neutral := intros ?; repeat (branch || simpl); done.

#[export] Hint Resolve preserves_emit preserves_ask preserves_set_hook_state : lifecycle.
#[export] Hint Extern 1 (preserves consistent (update_hook _ _)) =>
  apply preserves_update; neutral : lifecycle.

Lemma preserves_with_batch_cursor {A} (a : A) c :
  preserves consistent (fun w => Done a (with_batch_cursor c w)).
Proof. intros w. simpl. by apply consistent_same. Qed.

Lemma preserves_allocate_batch_id : preserves consistent allocate_batch_id.
Proof. intros w Hw. unfold allocate_batch_id. repeat branch; simplify_eq; by eapply consistent_same. Qed.
#[export] Hint Resolve preserves_with_batch_cursor preserves_allocate_batch_id : lifecycle.

(** A word update that keeps the state field keeps consistency. *)
Lemma preserves_set_control i h word :
  spec (fun w => consistent w /\ hooks w !! i = Some h /\
          valid_word word /\
          (hook_state_is (control h) (state h) = true -> hook_state_is word (state h) = true))
    (update_hook i (set_control word)) (fun _ => consistent) (fun _ => True).
Proof.
  intros w ((Hwf & Hn & Hall) & Hi & Hv & Hs). simpl. unfold consistent. simpl.
  split_and!; [done|by rewrite length_alter|]. intros j h' Hj.
  destruct (decide (i = j)) as [->|Hne].
  - rewrite list_lookup_alter_eq, Hi in Hj. simpl in Hj. simplify_eq.
    destruct (Hall _ _ Hi) as (? & ? & ? & ?). unfold hook_consistent. simpl. by split_and!; auto.
  - rewrite list_lookup_alter_ne in Hj by done. by apply Hall.
Qed.

Lemma take_word_keeps c :
  valid_word c ->
  valid_word (take_detach_count_request c c).2 /\
  (forall s, hook_state_is (take_detach_count_request c c).2 s = hook_state_is c s).
Proof.
  intros Hc. destruct (valid_word_packed c Hc) as (f & Hf & ->).
  unfold take_detach_count_request, cas. branch; [done|]. rewrite Z.eqb_refl. simpl.
  rewrite pack_clear_request by done.
  assert (fields_ok (mkFields (f_generation f) (f_crossing f) false (f_state f))) as Hf' by exact Hf.
  split; [by apply pack_valid|]. intros s. by rewrite !pack_state.
Qed.

Section Consistency.
Context (env : environment).

Lemma preserves_reset_retry i : preserves consistent (reset_retry i).
Proof. unfold reset_retry, clear_pending_request_context. preserve. Qed.
#[local] Hint Resolve preserves_reset_retry : lifecycle.

Lemma preserves_note_retry i st : preserves consistent (note_retry env i st).
Proof. unfold note_retry, get_hook, peak_second. preserve. Qed.
#[local] Hint Resolve preserves_note_retry : lifecycle.

Lemma preserves_handle_prepare_failure i s st :
  preserves consistent (handle_prepare_failure env i s st).
Proof. unfold handle_prepare_failure, peak_second. preserve. Qed.
#[local] Hint Resolve preserves_handle_prepare_failure : lifecycle.

Lemma preserves_refresh i : preserves consistent (refresh_hook_sample_cache env i).
Proof. unfold refresh_hook_sample_cache, get_hook, cache_hook_sample. preserve. Qed.
#[local] Hint Resolve preserves_refresh : lifecycle.

Lemma preserves_request_detach i r : preserves consistent (request_detach_with_context env i r).
Proof.
  unfold request_detach_with_context, get_hook, peak_second, mark_pending_started,
    set_pending_request_context. preserve.
Qed.
#[local] Hint Resolve preserves_request_detach : lifecycle.

Lemma preserves_request_reattach i : preserves consistent (request_reattach env i).
Proof.
  unfold request_reattach, request_reattach_unlocked, request_reattach_with_context, get_hook,
    peak_second, mark_pending_started, set_pending_request_context, wake_if, controller_wake,
    try_hook_sample_cache. preserve.
Qed.

Lemma preserves_pause ts : preserves consistent (pause_called_threads env ts).
Proof. induction ts; simpl; preserve. Qed.
Lemma preserves_resume ts : preserves consistent (resume_called_threads env ts).
Proof. induction ts; simpl; preserve. Qed.
Lemma preserves_flush n : preserves consistent (flush_attempts env n).
Proof. induction n; simpl; preserve. Qed.
#[local] Hint Resolve preserves_pause preserves_resume preserves_flush : lifecycle.

Lemma preserves_finish : preserves consistent (finish_hook_mutation_or_exit env).
Proof. unfold finish_hook_mutation_or_exit. preserve. Qed.
Lemma preserves_prepare i op : preserves consistent (prepare_hook_mutation env i op).
Proof. unfold prepare_hook_mutation. preserve. Qed.
Lemma preserves_gum_detach i : preserves consistent (gum_detach_or_exit env i).
Proof. unfold gum_detach_or_exit. preserve. Qed.
Lemma preserves_gum_attach i : preserves consistent (gum_attach env i).
Proof. unfold gum_attach. preserve. Qed.
Lemma preserves_abandon i st : preserves consistent (abandon_to i st).
Proof. unfold abandon_to. preserve. Qed.
#[local] Hint Resolve preserves_finish preserves_prepare preserves_gum_detach
  preserves_gum_attach preserves_abandon : lifecycle.

Lemma preserves_detach_and_flush i : preserves consistent (detach_and_flush env i).
Proof. unfold detach_and_flush, flush_teardown. preserve. Qed.
Lemma preserves_finish_detach i : preserves consistent (finish_detach env i).
Proof.
  unfold finish_detach, peak_second, note_detach_success, note_detach_profile_seconds, get_hook.
  preserve.
Qed.
Lemma preserves_finish_reattach i : preserves consistent (finish_reattach i).
Proof. unfold finish_reattach, note_reattach_success. preserve. Qed.
#[local] Hint Resolve preserves_detach_and_flush preserves_finish_detach
  preserves_finish_reattach : lifecycle.

Lemma preserves_detach i ts c : preserves consistent (detach_if_requested env i ts c).
Proof. unfold detach_if_requested. preserve. Qed.
Lemma preserves_reattach i ts c : preserves consistent (reattach_if_requested env i ts c).
Proof. unfold reattach_if_requested. preserve. Qed.
Lemma preserves_shutdown i ts c : preserves consistent (shutdown_hook env i ts c).
Proof. unfold shutdown_hook, get_hook. preserve. Qed.
#[local] Hint Resolve preserves_detach preserves_reattach : lifecycle.

Lemma preserves_collect n now start total offset room :
  preserves consistent (collect_from n now start total offset room).
Proof.
  revert offset room. induction n; intros; simpl; unfold get_hook, mark_pending_started; preserve.
Qed.
#[local] Hint Resolve preserves_collect : lifecycle.

Lemma preserves_mutate_all b : preserves consistent (mutate_all env b).
Proof. induction b as [|[c r] b IH]; simpl; unfold batch_mutate; preserve. Qed.
Lemma preserves_publish_all b oks : preserves consistent (publish_all env b oks).
Proof.
  revert oks. induction b as [|[c r] b IH]; intros [|ok oks]; simpl; unfold batch_publish; preserve.
Qed.
Lemma preserves_fail_all b : preserves consistent (fail_all env b).
Proof. induction b as [|[c r] b IH]; simpl; unfold batch_failure; preserve. Qed.
#[local] Hint Resolve preserves_mutate_all preserves_publish_all preserves_fail_all : lifecycle.

Lemma preserves_process_pending_batch : preserves consistent (process_pending_batch env).
Proof. unfold process_pending_batch, peak_second, collect_batch. preserve. Qed.

Lemma preserves_publish_count_request i :
  preserves consistent (publish_detach_count_request env i).
Proof.
  intros w Hc. unfold publish_detach_count_request, bind at 1, get_hook, gets.
  destruct (hooks w !! i) as [h|] eqn:Hi; [|done]. destruct (listener h =? 0); [done|].
  destruct Hc as (Hwf & Hn & Hall). destruct (Hall _ _ Hi) as (_ & Hv & _ & _).
  destruct (take_word_keeps _ Hv) as [Hv' Hs].
  destruct (take_detach_count_request (control h) (control h)) as [taken word]. simpl in *.
  eapply (spec_bind _ _ _ (fun _ => consistent) (fun _ => consistent) (fun _ => True));
    [apply (preserves_set_control i h word)| |].
  - intros []. change (preserves consistent
      (if negb taken then ret tt else
         let* total_num_calls := ask (env_total_calls env) in
         let* now := peak_second env in
         request_detach_with_context env i
           (mkRequest PEAK_HOOK_REQUEST_SOURCE_DETACH_COUNT total_num_calls d0 d0
              (dsub now (env_main_time env)) d0) ;; ret tt)).
    unfold peak_second. preserve.
  - split_and!; try done. by rewrite Hs.
Qed.
#[local] Hint Resolve preserves_process_pending_batch preserves_publish_count_request : lifecycle.

Lemma preserves_for_each ids f :
  (forall i, preserves consistent (f i)) -> preserves consistent (for_each ids f).
Proof. intros Hf. induction ids; simpl; preserve; auto. Qed.

Lemma preserves_process_pending_hooks now ids :
  preserves consistent (process_pending_hooks env now ids).
Proof. induction ids; simpl; unfold process_pending_hook, get_hook; preserve. Qed.
#[local] Hint Resolve preserves_process_pending_hooks : lifecycle.

Lemma preserves_process_pending : preserves consistent (process_pending env).
Proof.
  unfold process_pending, peak_second, publish_detach_count_requests. preserve.
  apply preserves_for_each. preserve.
Qed.
End Consistency.

(** ** Sequences of operations *)

(** A hook entry as [peak_general_listener_attach] allocates it. *)
Definition fresh_hook (target : Z * Z) : hook :=
  mkHook target.1 target.2 0 PEAK_HOOK_UNRESOLVED false false false false false false false
    d0 d0 d0 0 PEAK_DETACH_STATUS_SAFE no_request d0 0 false 0 d0 false d0.

(** The allocation of the tables at attach: status cells reserved, cleared and
    published; [None] is [g_error]. *)
Definition attach_tables (calloc : nat -> bool) (targets : list (Z * Z)) (s : hook_status)
    : option world :=
  let count := length targets in
  let '(r, s) := reserve calloc count s in
  if reserved r then
    Some (mkWorld (map fresh_hook targets) (publish_count count (reset_prefix count s))
            false 0 1 0 [])
  else None.

Inductive lifecycle_op :=
  | OpRequestDetach (i : nat)
  | OpRequestReattach (i : nat)
  | OpMarkAttached (i : nat)
  | OpProcessPending
  | OpShutdown (i : nat) (threads : list tracked_thread) (snapshot_complete : bool)
  | OpCallbackRequest (i : nat) (snapshot : Z)
  | OpCallbackCrossing (i : nat) (snapshot : Z)
  | OpMpiFinalize.

Definition run_op (env : environment) (op : lifecycle_op) : M unit :=
  match op with
  | OpRequestDetach i => request_detach env i ;; ret tt
  | OpRequestReattach i => request_reattach env i ;; ret tt
  | OpMarkAttached i => mark_attached i
  | OpProcessPending => process_pending env ;; ret tt
  | OpShutdown i threads complete => shutdown_hook env i threads complete ;; ret tt
  | OpCallbackRequest i c =>
      update_hook i (fun h =>
        set_control (try_publish_detach_count_request_snapshot (control h) c).2 h)
  | OpCallbackCrossing i c =>
      update_hook i (fun h =>
        set_control (try_publish_initial_detach_count_crossing_snapshot (control h) c).1.2 h)
  | OpMpiFinalize => fun w =>
      Done tt (mkWorld (hooks w) (status w) true (batch_cursor w) (next_batch_id w) (ticks w)
                 (events w))
  end.

Fixpoint run_ops (env : environment) (ops : list lifecycle_op) : M unit :=
  match ops with
  | [] => ret tt
  | op :: ops => run_op env op ;; run_ops env ops
  end.

Lemma request_word_keeps c snapshot :
  valid_word c ->
  valid_word (try_publish_detach_count_request_snapshot c snapshot).2 /\
  (forall s, hook_state_is (try_publish_detach_count_request_snapshot c snapshot).2 s =
             hook_state_is c s).
Proof.
  intros Hc. unfold try_publish_detach_count_request_snapshot, cas. branch; [done|].
  destruct (Z.eqb_spec c snapshot) as [<-|]; simpl; [|done].
  destruct (valid_word_packed c Hc) as (f & Hf & ->). rewrite pack_set_request by done.
  assert (fields_ok (mkFields (f_generation f) (f_crossing f) true (f_state f))) as Hf' by exact Hf.
  split; [by apply pack_valid|]. intros s. by rewrite !pack_state.
Qed.

Lemma crossing_word_keeps c snapshot :
  valid_word c ->
  valid_word (try_publish_initial_detach_count_crossing_snapshot c snapshot).1.2 /\
  (forall s, hook_state_is (try_publish_initial_detach_count_crossing_snapshot c snapshot).1.2 s =
             hook_state_is c s).
Proof.
  intros Hc. unfold try_publish_initial_detach_count_crossing_snapshot, cas. branch; [done|].
  destruct (Z.eqb_spec c snapshot) as [<-|]; simpl; [|done].
  destruct (valid_word_packed c Hc) as (f & Hf & ->). rewrite pack_set_crossing by done.
  assert (fields_ok (mkFields (f_generation f) true (f_request f) (f_state f))) as Hf' by exact Hf.
  split; [by apply pack_valid|]. intros s. by rewrite !pack_state.
Qed.

Lemma preserves_callback i (g : Z -> Z) :
  (forall c, valid_word c -> valid_word (g c) /\ forall s, hook_state_is (g c) s = hook_state_is c s) ->
  preserves consistent (update_hook i (fun h => set_control (g (control h)) h)).
Proof.
  intros Hg w (Hwf & Hn & Hall). simpl. unfold consistent. simpl.
  split_and!; [done|by rewrite length_alter|]. intros j h' Hj.
  destruct (decide (i = j)) as [->|Hne].
  - rewrite list_lookup_alter_eq in Hj. apply fmap_Some in Hj as (h & Hj & ->).
    destruct (Hall _ _ Hj) as (? & Hv & ? & ?). destruct (Hg _ Hv) as [Hv' Hs].
    unfold hook_consistent. simpl. by rewrite Hs.
  - rewrite list_lookup_alter_ne in Hj by done. by apply Hall.
Qed.

Lemma preserves_run_op env op : preserves consistent (run_op env op).
Proof.
  destruct op; simpl.
  - unfold request_detach, request_detach_unlocked, wake_if, controller_wake.
    pose proof preserves_request_detach. preserve.
  - pose proof preserves_request_reattach. preserve.
  - unfold mark_attached. preserve.
  - pose proof preserves_process_pending. preserve.
  - pose proof preserves_shutdown. preserve.
  - apply (preserves_callback i (fun c => (try_publish_detach_count_request_snapshot c snapshot).2)).
    intros c. apply request_word_keeps.
  - apply (preserves_callback i
      (fun c => (try_publish_initial_detach_count_crossing_snapshot c snapshot).1.2)).
    intros c. apply crossing_word_keeps.
  - intros w. by apply consistent_same.
Qed.

Lemma preserves_run_ops env ops : preserves consistent (run_ops env ops).
Proof.
  induction ops; simpl; [apply preserves_ret|].
  apply preserves_bind; [apply preserves_run_op|]. by intros [].
Qed.

Lemma attach_tables_consistent calloc targets s w :
  HookStatus.wf s -> attach_tables calloc targets s = Some w -> consistent w.
Proof.
  intros Hs. unfold attach_tables. destruct (reserve calloc (length targets) s) as [r s1] eqn:E.
  pose proof (reserve_flat _ _ _ _ _ Hs E) as H. destruct (reserved r); [|done].
  destruct H as (Hs1 & Hcap & _ & _ & _). intros [= <-].
  destruct (reset_prefix_flat (length targets) s1 Hs1) as [Hs2 Hcells].
  unfold consistent. simpl. split_and!; [by split; [apply Hs2|]|by rewrite length_map|].
  intros i h Hi. apply list_lookup_fmap_Some in Hi as (t & -> & Hi).
  unfold hook_consistent. simpl. split_and!; [done|by vm_compute|done|].
  change (cells (publish_count _ _)) with (cells (reset_prefix (length targets) s1)).
  rewrite Hcells. unfold reset_cells. pose proof (lookup_lt_Some _ _ _ Hi).
  assert (length (cells s1) = capacity s1) as Hl by apply (flat_length _ _ (proj1 Hs1)).
  rewrite lookup_app_l by (rewrite length_replicate; lia).
  by rewrite lookup_replicate_2 by lia.
Qed.
