(* ===== verification/LifecycleProtocol.v ===== *)
(** * The mutation protocol of the hook controller

    Every physical change of a hook goes through the safe-detach controller:
    module mutation begins, the mutation is prepared, threads are paused, Gum
    is called, the mutation is finished, module mutation ends, and the paused
    threads are resumed.  The protocol is an automaton over the event trace;
    the theorems show that no sequence of controller operations leaves it. *)

From Stdlib Require Import SpecFloat.
From S2P Require Import Prelude HookControl HookStatus Doubles HookModel HookPolicy HookLifecycle LifecycleProofs.

Inductive phase := Idle | Opened | Refused | Prepared | Finished.

(** [outstanding]: the pause sessions that are owed a resume, oldest first. *)
Record proto := mkProto { ph : phase; outstanding : list (Z * Z) }.

(** [pthread_pause_mapped] stores the session once its STOP is queued, and
    returns 0 or 1 when the wait for the acknowledgement ended with it or with
    the timeout, -1 when the wait failed.  The thread stops in all three cases;
    a resume is owed in the first two. *)
Definition stop_queued (session : Z) : bool := 0 <=? session.
Definition wait_answered (st : Z) : bool := (st =? 0) || (st =? 1).
Definition resume_owed (session st : Z) : bool := wait_answered st && stop_queued session.

Definition proto_step (s : proto) (e : event) : option proto :=
  match ph s, e with
  | _, EvWake => Some s
  | Idle, EvModuleMutationBegin =>
      match outstanding s with [] => Some (mkProto Opened []) | _ => None end
  | Opened, EvPrepare _ _ ok => Some (mkProto (if ok then Prepared else Refused) (outstanding s))
  | Opened, EvPrepareBatch _ n =>
      Some (mkProto (if (0 <? n)%nat then Prepared else Refused) (outstanding s))
  | Prepared, EvPause tid session st =>
      Some (mkProto Prepared
              (if resume_owed session st then outstanding s ++ [(tid, session)]
               else outstanding s))
  | Prepared, EvFastDetach _ _ | Prepared, EvGumDetach _
  | Prepared, EvGumAttach _ _ | Prepared, EvGumFlush _ => Some s
  | Prepared, EvFinish _ => Some (mkProto Finished (outstanding s))
  | Refused, EvModuleMutationEnd | Finished, EvModuleMutationEnd =>
      Some (mkProto Idle (outstanding s))
  | Idle, EvUnpause tid session =>
      match outstanding s with
      | (tid', session') :: rest =>
          if (tid =? tid') && (session =? session') then Some (mkProto Idle rest) else None
      | [] => None
      end
  | _, _ => None
  end.

Definition trace_state (trace : list event) : option proto :=
  foldl (fun s e => s' ← s; proto_step s' e) (Some (mkProto Idle [])) trace.

Lemma trace_state_snoc trace e :
  trace_state (trace ++ [e]) = s' ← trace_state trace; proto_step s' e.
Proof. unfold trace_state. by rewrite foldl_app. Qed.

(** The threads of a trace: a STOP was queued for them; the wait of their pause
    failed; they were unpaused. *)
Definition queued_stop (e : event) : list (Z * Z) :=
  match e with EvPause tid session _ => if stop_queued session then [(tid, session)] else [] | _ => [] end.
Definition failed_wait (e : event) : list (Z * Z) :=
  match e with
  | EvPause tid session st => if stop_queued session && negb (wait_answered st) then [(tid, session)] else []
  | _ => []
  end.
Definition unpaused (e : event) : list (Z * Z) :=
  match e with EvUnpause tid session => [(tid, session)] | _ => [] end.

(** Every queued STOP of a trace of the protocol was unpaused, is owed a resume
    or belongs to a failed wait. *)
Lemma queued_accounted trace : forall s,
  trace_state trace = Some s ->
  flat_map queued_stop trace ≡ₚ flat_map unpaused trace ++ outstanding s ++ flat_map failed_wait trace.
Proof.
  induction trace as [|e trace IH] using rev_ind; intros s Hs; [unfold trace_state in Hs; by simplify_eq/=|].
  rewrite trace_state_snoc in Hs. apply bind_Some in Hs as (s0 & Hs0 & He). specialize (IH s0 Hs0).
  rewrite !flat_map_app, IH. simpl. rewrite !app_nil_r. clear IH Hs0.
  destruct s0 as [p o]. unfold proto_step in He. simpl in *.
  destruct e; destruct p; try done; simplify_eq/=; rewrite ?app_nil_r; try done.
  - by destruct o; simplify_eq/=.
  - unfold resume_owed. destruct (stop_queued session), (wait_answered status); simpl;
      rewrite ?app_nil_r; solve_Permutation.
  - destruct o as [|[tid' session'] o]; [done|]. destruct (Z.eqb_spec tid tid'); [|done].
    destruct (Z.eqb_spec session session'); [|done]. simplify_eq/=. solve_Permutation.
Qed.

(** The process ends only after a failed finish or a failed fast-detach
    preparation, and the trace up to there follows the protocol. *)
Definition exit_ok (w : world) : Prop :=
  trace_state (events w) <> None /\
  exists pre, events w = pre ++ [EvFinish false; EvModuleMutationEnd] \/
              exists i, events w = pre ++ [EvFastDetach i false].

Definition at_phase (p : phase) (o : list (Z * Z)) (w : world) : Prop :=
  consistent w /\ trace_state (events w) = Some (mkProto p o).

(** A step that changes neither the phase nor the outstanding sessions. *)
Definition quiet {A} (m : M A) : Prop :=
  forall p o, spec (at_phase p o) m (fun _ => at_phase p o) exit_ok.

Lemma quiet_ret {A} (a : A) : quiet (ret a).
Proof. intros p o. by apply spec_ret. Qed.
Lemma quiet_gets {A} (f : world -> A) : quiet (gets f).
Proof. intros p o w Hw. exact Hw. Qed.
Lemma quiet_bind {A B} (m : M A) (k : A -> M B) :
  quiet m -> (forall a, quiet (k a)) -> quiet (bind m k).
Proof. intros Hm Hk p o. eapply spec_bind; [apply Hm|]. intros a. apply Hk. Qed.
Lemma quiet_ask {A} (f : nat -> A) : quiet (ask f).
Proof. intros p o w [Hc Hp]. split; [by eapply consistent_same|done]. Qed.
Lemma quiet_update i f : neutral f -> quiet (update_hook i f).
Proof. intros Hf p o w [Hc Hp]. split; [by apply (preserves_update i f Hf w)|done]. Qed.

Lemma spec_emit p o e p' o' :
  proto_step (mkProto p o) e = Some (mkProto p' o') ->
  spec (at_phase p o) (emit e) (fun _ => at_phase p' o') exit_ok.
Proof.
  intros He w [Hc Hp]. split; [by eapply consistent_same|]. simpl.
  by rewrite trace_state_snoc, Hp.
Qed.

Lemma quiet_wake : quiet controller_wake.
Proof. intros p o. apply spec_emit. by destruct p. Qed.

Lemma quiet_set_hook_state i st : quiet (set_hook_state i st).
Proof.
  intros p o w [Hc Hp]. pose proof (preserves_set_hook_state i st w Hc) as Hpres.
  destruct (hooks w !! i) as [h|] eqn:Hi; [|by rewrite set_hook_state_none].
  rewrite (set_hook_state_eq i st w h Hi) in *. simpl in *.
  destruct (consistent_store w i st h Hc Hi) as (s & Es & _). rewrite Es in *.
  split; [done|]. simpl. branch; [|by rewrite app_nil_r].
  rewrite trace_state_snoc, Hp. by destruct p.
Qed.

Lemma quiet_with_batch_cursor {A} (a : A) c : quiet (fun w => Done a (with_batch_cursor c w)).
Proof. intros p o w [Hc Hp]. split; [by eapply consistent_same|done]. Qed.

Lemma quiet_allocate_batch_id : quiet allocate_batch_id.
Proof.
  intros p o w [Hc Hp]. unfold allocate_batch_id. repeat branch; simplify_eq;
    (split; [by eapply consistent_same|done]).
Qed.

Create HintDb quiet.
#[export] Hint Resolve quiet_ret quiet_gets quiet_ask quiet_wake quiet_set_hook_state
  quiet_with_batch_cursor quiet_allocate_batch_id : quiet.
#[export] Hint Extern 1 (quiet (update_hook _ _)) => apply quiet_update; neutral : quiet.

Ltac quiet_step :=
  first
    [ progress intros
    | solve [eauto with quiet]
    | apply quiet_bind
    | match goal with
      | |- quiet (match ?x with _ => _ end) => destruct x
      end ].
Ltac quiet := repeat quiet_step.

Section Protocol.
Context (env : environment).

Lemma quiet_reset_retry i : quiet (reset_retry i).
Proof. unfold reset_retry, clear_pending_request_context. quiet. Qed.
#[local] Hint Resolve quiet_reset_retry : quiet.

Lemma quiet_note_retry i st : quiet (note_retry env i st).
Proof. unfold note_retry, get_hook, peak_second. quiet. Qed.
#[local] Hint Resolve quiet_note_retry : quiet.

Lemma quiet_handle_prepare_failure i s st : quiet (handle_prepare_failure env i s st).
Proof. unfold handle_prepare_failure, peak_second. quiet. Qed.

Lemma quiet_refresh i : quiet (refresh_hook_sample_cache env i).
Proof. unfold refresh_hook_sample_cache, get_hook, cache_hook_sample. quiet. Qed.
#[local] Hint Resolve quiet_handle_prepare_failure quiet_refresh : quiet.

Lemma quiet_request_detach i r : quiet (request_detach_with_context env i r).
Proof.
  unfold request_detach_with_context, get_hook, peak_second, mark_pending_started,
    set_pending_request_context. quiet.
Qed.
#[local] Hint Resolve quiet_request_detach : quiet.

Lemma quiet_request_reattach i : quiet (request_reattach env i).
Proof.
  unfold request_reattach, request_reattach_unlocked, request_reattach_with_context, get_hook,
    peak_second, mark_pending_started, set_pending_request_context, wake_if,
    try_hook_sample_cache. quiet.
Qed.

Lemma quiet_abandon i st : quiet (abandon_to i st).
Proof. unfold abandon_to. quiet. Qed.
Lemma quiet_finish_detach i : quiet (finish_detach env i).
Proof.
  unfold finish_detach, peak_second, note_detach_success, note_detach_profile_seconds, get_hook.
  quiet.
Qed.
Lemma quiet_finish_reattach i : quiet (finish_reattach i).
Proof. unfold finish_reattach, note_reattach_success. quiet. Qed.
#[local] Hint Resolve quiet_abandon quiet_finish_detach quiet_finish_reattach : quiet.

Lemma quiet_collect n now start total offset room :
  quiet (collect_from n now start total offset room).
Proof.
  revert offset room. induction n; intros; simpl; unfold get_hook, mark_pending_started; quiet.
Qed.
Lemma quiet_publish_all b oks : quiet (publish_all env b oks).
Proof.
  revert oks. induction b as [|[c r] b IH]; intros [|ok oks]; simpl; unfold batch_publish; quiet.
Qed.
Lemma quiet_fail_all b : quiet (fail_all env b).
Proof. induction b as [|[c r] b IH]; simpl; unfold batch_failure; quiet. Qed.
#[local] Hint Resolve quiet_collect quiet_publish_all quiet_fail_all : quiet.

Lemma quiet_publish_count_request i : quiet (publish_detach_count_request env i).
Proof.
  intros p o w [Hc Hp]. unfold publish_detach_count_request, bind at 1, get_hook, gets.
  destruct (hooks w !! i) as [h|] eqn:Hi; [|done]. destruct (listener h =? 0); [done|].
  pose proof Hc as (_ & _ & Hall). destruct (Hall _ _ Hi) as (_ & Hv & _ & _).
  destruct (take_word_keeps _ Hv) as [Hv' Hs].
  destruct (take_detach_count_request (control h) (control h)) as [taken word]. simpl in *.
  assert (quiet (if negb taken then ret tt else
         let* total_num_calls := ask (env_total_calls env) in
         let* now := peak_second env in
         request_detach_with_context env i
           (mkRequest PEAK_HOOK_REQUEST_SOURCE_DETACH_COUNT total_num_calls d0 d0
              (dsub now (env_main_time env)) d0) ;; ret tt)) as Hq
    by (unfold peak_second; quiet).
  apply (spec_bind (fun w => at_phase p o w /\ hooks w !! i = Some h) _ _
    (fun _ => at_phase p o)); [|intros []; apply Hq|done].
  intros w' [[Hc' Hp'] Hi']. split; [|done].
  apply (preserves_set_control i h word w'). split_and!; try done. by rewrite Hs.
Qed.
#[local] Hint Resolve quiet_publish_count_request : quiet.

Lemma quiet_for_each ids f : (forall i, quiet (f i)) -> quiet (for_each ids f).
Proof. intros Hf. induction ids; simpl; quiet; auto. Qed.

(** ** Phased steps *)

(** The sessions the controller must resume. *)
Definition sessions (ts : list tracked_thread) : list (Z * Z) :=
  map (fun t => (tid_key t, pause_session_id t)) (List.filter (must_resume env) ts).

Lemma spec_prepare i op :
  spec (at_phase Idle []) (prepare_hook_mutation env i op)
    (fun r => at_phase (if r.1 then Prepared else Idle) []) exit_ok.
Proof.
  unfold prepare_hook_mutation.
  eapply spec_bind; [by apply (spec_emit _ _ _ Opened [])|]. intros [].
  eapply spec_bind; [apply quiet_ask|]. intros [ok st].
  eapply spec_bind; [by apply (spec_emit _ _ _ (if ok then Prepared else Refused) [])|].
  intros []. eapply (spec_bind _ _ _ (fun _ => at_phase (if ok then Prepared else Idle) [])).
  - destruct ok; [apply quiet_ret|by apply spec_emit].
  - intros []. by apply spec_ret.
Qed.

Lemma spec_finish o :
  spec (at_phase Prepared o) (finish_hook_mutation_or_exit env)
    (fun _ => at_phase Idle o) exit_ok.
Proof.
  intros w [Hc Hp]. unfold finish_hook_mutation_or_exit, bind, ask, emit, ret, exit_process. simpl.
  assert (forall ok, trace_state ((events w ++ [EvFinish ok]) ++ [EvModuleMutationEnd]) =
            Some (mkProto Idle o)) as Ht by (intros ok; by rewrite !trace_state_snoc, Hp).
  destruct (env_finish env (ticks w)); [split; [by eapply consistent_same|by apply Ht]|].
  split; simpl; [by rewrite Ht|]. exists (events w). left. by rewrite <- app_assoc.
Qed.

Lemma spec_pause ts o :
  spec (at_phase Prepared o) (pause_called_threads env ts)
    (fun r => at_phase Prepared (o ++ sessions r.2)) exit_ok.
Proof.
  revert o. induction ts as [|t ts IH]; intros o; simpl.
  - apply spec_ret. intros w. unfold sessions. simpl. by rewrite app_nil_r.
  - eapply (spec_bind _ _ _ (fun r => at_phase Prepared (o ++ sessions [r.2]))).
    + destruct (may_pause env t) eqn:Em.
      * eapply spec_bind; [apply quiet_ask|]. intros [st session].
        eapply spec_bind; [by apply (spec_emit _ _ _ Prepared
          (if resume_owed session st then o ++ [(tid_key t, session)] else o))|].
        intros []. apply spec_ret. intros w Hw. unfold sessions. simpl.
        unfold must_resume, may_pause in *. simpl. rewrite Em. simpl.
        unfold resume_owed, wait_answered, stop_queued in Hw. destruct (_ && (0 <=? session)); simpl in *;
          by rewrite ?app_nil_r.
      * apply spec_ret. intros w Hw. unfold sessions. simpl. unfold must_resume.
        rewrite Em. simpl. by rewrite app_nil_r.
    + intros [ok t']. eapply spec_bind; [apply IH|]. intros [ok' ts']. apply spec_ret.
      intros w Hw. simpl in *. replace (sessions (t' :: ts')) with (sessions [t'] ++ sessions ts').
      { by rewrite app_assoc. }
      unfold sessions. simpl. by destruct (must_resume env t').
Qed.

Lemma spec_resume ts :
  spec (at_phase Idle (sessions ts)) (resume_called_threads env ts)
    (fun _ => at_phase Idle []) exit_ok.
Proof.
  induction ts as [|t ts IH]; simpl; [by apply spec_ret|].
  apply (spec_bind _ _ _ (fun _ => at_phase Idle (sessions ts))); [|intros []; apply IH].
  unfold sessions. simpl. destruct (must_resume env t) eqn:Em; simpl.
  - apply spec_emit. unfold proto_step. simpl. by rewrite !Z.eqb_refl.
  - apply spec_ret. done.
Qed.

Lemma spec_gum_detach i o :
  spec (at_phase Prepared o) (gum_detach_or_exit env i) (fun _ => at_phase Prepared o) exit_ok.
Proof.
  intros w [Hc Hp]. unfold gum_detach_or_exit, bind, ask, emit, exit_process. simpl.
  destruct (env_prepare_fast_detach env (ticks w)); simpl.
  - split; [by eapply consistent_same|]. simpl. by rewrite !trace_state_snoc, Hp.
  - split; simpl; [by rewrite trace_state_snoc, Hp|]. eauto.
Qed.

Lemma spec_flush n o :
  spec (at_phase Prepared o) (flush_attempts env n) (fun _ => at_phase Prepared o) exit_ok.
Proof.
  induction n; simpl; (eapply spec_bind; [apply quiet_ask|]; intros ok);
    (eapply spec_bind; [by apply (spec_emit _ _ _ Prepared o)|]; intros []).
  - by apply spec_ret.
  - destruct ok; [by apply spec_ret|done].
Qed.

Lemma spec_detach_and_flush i o :
  spec (at_phase Prepared o) (detach_and_flush env i) (fun _ => at_phase Prepared o) exit_ok.
Proof.
  unfold detach_and_flush. eapply spec_bind; [apply spec_gum_detach|]. intros [].
  eapply spec_bind; [apply quiet_update; neutral|]. intros [].
  eapply spec_bind; [apply spec_flush|]. intros fl. apply quiet_update; neutral.
Qed.

Lemma spec_gum_attach i o :
  spec (at_phase Prepared o) (gum_attach env i) (fun _ => at_phase Prepared o) exit_ok.
Proof.
  unfold gum_attach. eapply spec_bind; [apply quiet_ask|]. intros ok.
  eapply spec_bind; [by apply (spec_emit _ _ _ Prepared o)|]. intros []. by apply spec_ret.
Qed.

(** Pausing and resuming around a mutation: with the helper holding the
    threads nothing is paused. *)
Lemma spec_pause_unless (held : bool) ts :
  spec (at_phase Prepared [])
    (if negb held then pause_called_threads env ts else ret (true, ts))
    (fun r w => (held = true -> r.1 = true) /\
                at_phase Prepared (if held then [] else sessions r.2) w) exit_ok.
Proof.
  destruct held; simpl; [by apply spec_ret|].
  eapply spec_conseq; [apply (spec_pause ts [])|..]; done.
Qed.

Lemma spec_resume_unless (held : bool) ts :
  spec (at_phase Idle (if held then [] else sessions ts))
    (if negb held then resume_called_threads env ts else ret tt)
    (fun _ => at_phase Idle []) exit_ok.
Proof. destruct held; simpl; [by apply spec_ret|apply spec_resume]. Qed.

Lemma spec_pure {A} (phi : Prop) P (m : M A) Q E :
  (phi -> spec P m Q E) -> spec (fun w => phi /\ P w) m Q E.
Proof. intros H w [Hphi Hw]. by apply H. Qed.

Lemma spec_if {A} (b : bool) P (m : M A) Q E :
  spec P m (fun _ => Q) E -> (forall w, P w -> Q w) -> forall a,
  spec P (if b then m else ret a) (fun _ => Q) E.
Proof. intros Hm HPQ a. destruct b; [done|]. by apply spec_ret. Qed.

(** Steps through one bind. *)
Ltac seqs lem := eapply spec_bind; [apply lem|]; intros ?; simpl.

Lemma spec_detach i ts c :
  spec (at_phase Idle []) (detach_if_requested env i ts c) (fun _ => at_phase Idle []) exit_ok.
Proof.
  unfold detach_if_requested. seqs @quiet_gets.
  destruct (negb a); [apply quiet_ret|].
  eapply spec_bind; [apply spec_prepare|]. intros [[] st]; simpl.
  2: { seqs quiet_handle_prepare_failure. apply quiet_ret. }
  eapply spec_bind; [apply quiet_ask|]. intros held.
  eapply spec_bind; [apply quiet_ask|]. intros physical.
  destruct (_ && _); [seqs spec_finish; apply quiet_abandon|].
  seqs quiet_set_hook_state. eapply spec_bind; [apply spec_pause_unless|]. intros [ok ts']. simpl.
  apply spec_pure. intros Hheld. destruct ok; simpl.
  - eapply spec_bind; [apply spec_if; [apply spec_detach_and_flush|done]|]. intros [].
    seqs spec_finish. eapply spec_bind; [apply spec_resume_unless|]. intros [].
    seqs quiet_finish_detach. apply quiet_ret.
  - destruct held; [by specialize (Hheld eq_refl)|].
    seqs spec_finish. seqs spec_resume. apply quiet_abandon.
Qed.

Lemma spec_reattach i ts c :
  spec (at_phase Idle []) (reattach_if_requested env i ts c) (fun _ => at_phase Idle []) exit_ok.
Proof.
  unfold reattach_if_requested. seqs @quiet_gets.
  destruct (negb a); [apply quiet_ret|].
  eapply spec_bind; [apply spec_prepare|]. intros [[] st]; simpl.
  2: { seqs quiet_handle_prepare_failure. apply quiet_ret. }
  eapply spec_bind; [apply quiet_ask|]. intros held.
  eapply spec_bind; [apply quiet_ask|]. intros physical.
  destruct (_ && _); [seqs spec_finish; apply quiet_abandon|].
  seqs quiet_set_hook_state. eapply spec_bind; [apply spec_pause_unless|]. intros [ok ts']. simpl.
  apply spec_pure. intros Hheld. destruct ok; simpl.
  - eapply spec_bind; [apply spec_if; [apply spec_gum_attach|done]|]. intros attached.
    seqs spec_finish. eapply spec_bind; [apply spec_resume_unless|]. intros [].
    destruct (negb attached); [apply quiet_abandon|].
    seqs quiet_finish_reattach. apply quiet_ret.
  - destruct held; [by specialize (Hheld eq_refl)|].
    seqs spec_finish. seqs spec_resume. apply quiet_abandon.
Qed.

Lemma spec_gum_detach_marked i o :
  spec (at_phase Prepared o)
    (gum_detach_or_exit env i ;; update_hook i (set_gum_detached true) ;;
     update_hook i (set_gum_detach_flushed false)) (fun _ => at_phase Prepared o) exit_ok.
Proof.
  seqs spec_gum_detach. eapply spec_bind; [apply quiet_update; neutral|]. intros [].
  apply quiet_update; neutral.
Qed.

Lemma spec_shutdown i ts c :
  spec (at_phase Idle []) (shutdown_hook env i ts c) (fun _ => at_phase Idle []) exit_ok.
Proof.
  unfold shutdown_hook. seqs @quiet_gets. seqs @quiet_gets.
  assert (forall r : bool * option (PeakGeneralShutdownFailureBucket * PeakDetachStatus),
    quiet (set_hook_state i PEAK_HOOK_SHUTDOWN ;; reset_retry i ;; ret r)) as Hdone by quiet.
  assert (forall r : bool * option (PeakGeneralShutdownFailureBucket * PeakDetachStatus),
    quiet (set_hook_state i PEAK_HOOK_SHUTDOWN ;; ret r)) as Hskip by quiet.
  destruct a as [h|]; [|apply Hskip]. destruct (negb a0); [apply Hskip|].
  destruct (_ && negb (gum_detached h)); [|destruct (_ && _); [|apply Hdone]].
  - eapply spec_bind; [apply spec_prepare|]. intros [[] st]; simpl; [|apply quiet_ret].
    eapply spec_bind; [apply quiet_ask|]. intros held.
    destruct (_ && _); [seqs spec_finish; apply quiet_ret|].
    seqs spec_gum_detach. eapply spec_bind; [apply quiet_update; neutral|]. intros [].
    eapply spec_bind; [apply quiet_update; neutral|]. intros [].
    seqs spec_finish. apply Hdone.
  - eapply spec_bind; [apply spec_prepare|]. intros [[] st]; simpl; [|apply quiet_ret].
    eapply spec_bind; [apply quiet_ask|]. intros held.
    destruct (_ && _); [seqs spec_finish; apply quiet_ret|].
    seqs quiet_set_hook_state. eapply spec_bind; [apply spec_pause_unless|]. intros [ok ts'].
    simpl. apply spec_pure. intros Hheld. destruct ok; simpl.
    + eapply spec_bind; [apply spec_if; [apply spec_gum_detach_marked|done]|]. intros [].
      seqs spec_finish. eapply spec_bind; [apply spec_resume_unless|]. intros []. apply Hdone.
    + destruct held; [by specialize (Hheld eq_refl)|].
      seqs spec_finish. seqs spec_resume. apply quiet_ret.
Qed.

Lemma spec_process_pending_hooks now ids :
  spec (at_phase Idle []) (process_pending_hooks env now ids) (fun _ => at_phase Idle []) exit_ok.
Proof.
  induction ids as [|i ids IH]; simpl; [apply quiet_ret|].
  eapply (spec_bind _ _ _ (fun _ => at_phase Idle [])).
  - unfold process_pending_hook. seqs @quiet_gets. destruct a as [h|]; [|apply quiet_ret].
    destruct (_ || _); [apply quiet_ret|]. eapply spec_bind; [apply quiet_ask|].
    intros [snapshot complete]. destruct (bool_decide _); [apply spec_detach|apply spec_reattach].
  - intros did. seqs IH. apply quiet_ret.
Qed.

Lemma spec_mutate_all b :
  spec (at_phase Prepared []) (mutate_all env b) (fun _ => at_phase Prepared []) exit_ok.
Proof.
  induction b as [|[c r] b IH]; simpl; [apply quiet_ret|].
  eapply (spec_bind _ _ _ (fun _ => at_phase Prepared [])).
  - unfold batch_mutate. destruct (negb (prepared r)); [apply quiet_ret|].
    destruct (bool_decide _); seqs quiet_set_hook_state.
    + eapply spec_bind; [apply spec_if; [apply spec_detach_and_flush|done]|]. intros [].
      apply quiet_ret.
    + apply spec_if; [apply spec_gum_attach|done].
  - intros ok. seqs IH. apply quiet_ret.
Qed.

Lemma mutate_none b :
  countb prepared b.*2 = 0%nat -> quiet (mutate_all env b).
Proof.
  induction b as [|[c r] b IH]; simpl; [intros; apply quiet_ret|].
  destruct (prepared r) eqn:Er; simpl; [done|]. intros Hb. unfold batch_mutate. rewrite Er. simpl.
  apply quiet_bind; [apply quiet_ret|]. intros ok.
  apply quiet_bind; [by apply IH|]. intros. apply quiet_ret.
Qed.
End Protocol.

(** What the batch preparation of the safe-detach controller promises: one
    result per request, and the count of the prepared ones. *)
Class BatchPreparation (env : environment) : Prop := {
  batch_results_length : forall t ids,
    length (env_prepare_batch env t ids).1 = length ids;
  batch_prepared_count : forall t ids,
    (env_prepare_batch env t ids).2 = countb prepared (env_prepare_batch env t ids).1
}.

Section Runs.
Context (env : environment) `{!BatchPreparation env}.

Lemma quiet_collect_batch now n : quiet (collect_batch now n).
Proof.
  unfold collect_batch. pose proof quiet_collect. quiet.
Qed.

Lemma spec_process_pending_batch :
  spec (at_phase Idle []) (process_pending_batch env) (fun _ => at_phase Idle []) exit_ok.
Proof.
  unfold process_pending_batch, peak_second. eapply spec_bind; [apply quiet_ask|]. intros now.
  eapply spec_bind; [apply quiet_collect_batch|]. intros candidates.
  destruct candidates as [|c0 cs]; [apply quiet_ret|].
  set (candidates := c0 :: cs). set (ids := map candidate_hook_id candidates).
  eapply spec_bind; [apply quiet_allocate_batch_id|]. intros _id. cbv beta.
  eapply spec_bind; [by apply (spec_emit _ _ _ Opened [])|]. intros [].
  eapply (spec_bind _ _ _ (fun r w => (length r.1 = length ids /\ r.2 = countb prepared r.1) /\
                                      at_phase Opened [] w)).
  { intros w Hw. unfold ask. simpl. split; [|by apply (quiet_ask (fun _ => tt) _ _ w Hw)].
    split; [apply batch_results_length|apply batch_prepared_count]. }
  intros [results n]. simpl. apply spec_pure. intros [Hlen ->].
  set (phase := if (0 <? countb prepared results)%nat then Prepared else Refused).
  eapply spec_bind; [by apply (spec_emit _ _ _ phase [])|]. intros [].
  assert ((zip candidates results).*2 = results) as Hz.
  { apply snd_zip. rewrite Hlen. unfold ids. by rewrite length_map. }
  eapply (spec_bind _ _ _ (fun _ => at_phase phase [])).
  { unfold phase. destruct (Nat.ltb_spec 0 (countb prepared results)).
    - apply spec_mutate_all.
    - apply mutate_none. change (countb prepared (zip candidates results).*2 = 0%nat).
      rewrite Hz. lia. }
  intros oks. eapply (spec_bind _ _ _ (fun _ => at_phase Idle [])).
  { unfold phase. destruct (0 <? countb prepared results)%nat.
    - eapply spec_bind; [apply spec_finish|]. intros []. apply quiet_publish_all.
    - by apply spec_emit. }
  intros []. eapply spec_bind; [apply quiet_fail_all|]. intros []. apply quiet_ret.
Qed.

Lemma spec_process_pending :
  spec (at_phase Idle []) (process_pending env) (fun _ => at_phase Idle []) exit_ok.
Proof.
  unfold process_pending, peak_second. eapply spec_bind; [apply quiet_ask|]. intros now.
  eapply spec_bind; [apply quiet_gets|]. intros finalizing.
  destruct finalizing; [apply quiet_ret|].
  eapply (spec_bind _ _ _ (fun _ => at_phase Idle [])).
  { unfold publish_detach_count_requests. eapply spec_bind; [apply quiet_gets|]. intros n.
    apply quiet_for_each. intros i. apply quiet_publish_count_request. }
  intros []. destruct (env_strict_batch_supported env); [apply spec_process_pending_batch|].
  eapply spec_bind; [apply quiet_gets|]. intros n. apply spec_process_pending_hooks.
Qed.

Lemma spec_run_op op :
  spec (at_phase Idle []) (run_op env op) (fun _ => at_phase Idle []) exit_ok.
Proof.
  destruct op as [i|i|i| |i ts c|i c|i c|]; simpl.
  - unfold request_detach, request_detach_unlocked, wake_if.
    assert (forall b, quiet (let* accepted := request_detach_with_context env i (api_request b) in
      (if accepted : bool then controller_wake else ret tt) ;; ret accepted)) as Hq.
    { intros b. pose proof quiet_request_detach. quiet. }
    eapply spec_bind; [apply Hq|]. intros. apply quiet_ret.
  - eapply spec_bind; [apply quiet_request_reattach|]. intros. apply quiet_ret.
  - apply quiet_set_hook_state.
  - eapply spec_bind; [apply spec_process_pending|]. intros. apply quiet_ret.
  - eapply spec_bind; [apply spec_shutdown|]. intros. apply quiet_ret.
  - intros w [Hc Hp]. split; [|done]. by apply (preserves_run_op env (OpCallbackRequest i c) w).
  - intros w [Hc Hp]. split; [|done]. by apply (preserves_run_op env (OpCallbackCrossing i c) w).
  - intros w [Hc Hp]. split; [|done]. by eapply consistent_same.
Qed.

Lemma spec_run_ops ops :
  spec (at_phase Idle []) (run_ops env ops) (fun _ => at_phase Idle []) exit_ok.
Proof.
  induction ops as [|op ops IH]; simpl; [apply quiet_ret|].
  eapply spec_bind; [apply spec_run_op|]. intros []. exact IH.
Qed.
End Runs.

(** What consistency means for a reader. *)
Lemma consistent_hook w i h :
  consistent w -> hooks w !! i = Some h ->
  (need_detach h, detached h) = legacy_flags (state h) /\
  (listener h <> 0 -> hook_state_is (control h) (state h) = true) /\
  hook_state i (status w) = state h.
Proof.
  intros (Hwf & Hn & Hall) Hi. destruct (Hall i h Hi) as (Hf & _ & Hw & Hcell).
  split_and!; try done. rewrite hook_state_flat by done.
  pose proof (lookup_lt_Some _ _ _ Hi). rewrite (proj2 (Nat.ltb_lt _ _)) by lia.
  by rewrite Hcell.
Qed.

Lemma attach_tables_at_phase calloc targets s w :
  HookStatus.wf s -> attach_tables calloc targets s = Some w -> at_phase Idle [] w.
Proof.
  intros Hs Ha. split; [by eapply attach_tables_consistent|].
  unfold attach_tables in Ha. destruct (reserve _ _ _) as [r s1].
  destruct (reserved r); [|done]. by injection Ha as <-.
Qed.

(** ** Properties *)

(** C1: the published state of every hook stays consistent.  From freshly
    allocated tables, after any sequence of requests, activations, controller
    passes, shutdowns and callback exchanges, with any answers of the detach
    controller, Gum, the threads and the clock: the legacy flags are those of
    the hook's state, the packed word decodes to that state, and the lock-free
    status reader returns it. *)
Theorem published_state_consistent env calloc targets s w ops w' :
  HookStatus.wf s -> attach_tables calloc targets s = Some w ->
  run_ops env ops w = Done tt w' ->
  forall i h, hooks w' !! i = Some h ->
  (need_detach h, detached h) = legacy_flags (state h) /\
  (listener h <> 0 -> hook_state_is (control h) (state h) = true) /\
  hook_state i (status w') = state h.
Proof.
  intros Hs Ha Hr i h Hi. apply attach_tables_consistent in Ha; [|done].
  pose proof (preserves_run_ops env ops w Ha) as Hc. rewrite Hr in Hc. by apply consistent_hook.
Qed.

(** C6: no sequence of controller operations leaves the mutation protocol.
    When it returns, module mutation is closed: every mutation was prepared,
    finished and closed exactly once, Gum was called only between preparation
    and finish, and the threads were unpaused in order after the finish.  A
    thread that was sent a STOP was unpaused with the same session, except
    exactly those whose pause reported a failed wait (neither acknowledged nor
    timed out), for which the controller does not call [pthread_unpause].  When
    the process ends, it does so only because a finish or a fast-detach
    preparation failed, and the trace up to that point follows the protocol. *)
Theorem mutations_follow_protocol env `{!BatchPreparation env} calloc targets s w ops :
  HookStatus.wf s -> attach_tables calloc targets s = Some w ->
  match run_ops env ops w with
  | Done _ w' =>
      trace_state (events w') = Some (mkProto Idle []) /\
      flat_map queued_stop (events w') ≡ₚ
        flat_map unpaused (events w') ++ flat_map failed_wait (events w')
  | Exited w' => exit_ok w'
  end.
Proof.
  intros Hs Ha. pose proof (attach_tables_at_phase _ _ _ _ Hs Ha) as Hw.
  pose proof (spec_run_ops env ops w Hw) as H. destruct (run_ops env ops w); [|done].
  destruct H as [_ H]. split; [exact H|]. exact (queued_accounted _ _ H).
Qed.

(** A concrete environment: every preparation, finish, pause and Gum call
    succeeds, two tracked threads, batches unsupported. *)
Definition demo_env : environment :=
  mkEnv (fun t => of_Z (Z.of_nat t)) (fun _ => (true, PEAK_DETACH_STATUS_SAFE))
    (fun _ => false) (fun _ => false) (fun _ => true)
    (fun _ ids => (map (fun _ => mkBatchResult true false PEAK_DETACH_STATUS_SAFE) ids, length ids))
    false (fun t => (0, Z.of_nat t)) (fun _ => true) (fun _ => true) (fun _ => true) (fun _ => 9)
    (fun _ => ([(100, 0%nat); (101, 1%nat)], true)) d0 d0 d0 300 (of_Z 30) 8 100.

#[export] Instance demo_batch_preparation : BatchPreparation demo_env.
Proof.
  split; intros t ids; simpl; [apply length_map|].
  induction ids as [|i ids IH]; simpl; [done|]. by rewrite IH.
Qed.

Definition demo_world : world :=
  default (mkWorld [] initial_status false 0 1 0 [])
    (attach_tables (fun _ => true) [(4096, 8192); (4112, 8256)] initial_status).

Definition demo_ops : list lifecycle_op :=
  [OpMarkAttached 0; OpMarkAttached 1; OpRequestDetach 1; OpProcessPending;
   OpRequestReattach 1; OpProcessPending].

Lemma initial_status_wf : HookStatus.wf initial_status.
Proof. split; [done|]. simpl. lia. Qed.

Lemma published_state_consistent_witness :
  exists w', run_ops demo_env demo_ops demo_world = Done tt w' /\
  forall i h, hooks w' !! i = Some h -> hook_state i (status w') = state h.
Proof.
  eexists. split; [vm_compute; reflexivity|]. intros i h Hi.
  eapply (published_state_consistent demo_env (fun _ => true) [(4096, 8192); (4112, 8256)]
    initial_status demo_world demo_ops);
    [apply initial_status_wf|reflexivity|vm_compute; reflexivity|exact Hi].
Defined.

Lemma mutations_follow_protocol_witness :
  match run_ops demo_env demo_ops demo_world with
  | Done _ w' =>
      trace_state (events w') = Some (mkProto Idle []) /\
      flat_map queued_stop (events w') ≡ₚ
        flat_map unpaused (events w') ++ flat_map failed_wait (events w')
  | Exited w' => exit_ok w'
  end.
Proof.
  apply (mutations_follow_protocol demo_env (fun _ => true) [(4096, 8192); (4112, 8256)]
    initial_status demo_world demo_ops); [apply initial_status_wf|reflexivity].
Defined.

(** The tracked thread is sent its STOP, but the wait for its acknowledgement
    fails. *)
Definition failing_wait_env : environment :=
  mkEnv (env_second demo_env) (env_prepare demo_env) (env_threads_held demo_env)
    (env_physical_patch demo_env) (env_finish demo_env) (env_prepare_batch demo_env)
    (env_strict_batch_supported demo_env) (fun t => (-1, Z.of_nat t))
    (env_prepare_fast_detach demo_env) (env_gum_flush demo_env) (env_gum_attach_ok demo_env)
    (env_total_calls demo_env) (env_snapshot_threads demo_env) d0 d0 d0 300 (of_Z 30) 8 100.

(** The exception is real: when the wait for the acknowledgement fails, the
    detach is given up and the thread, whose STOP is queued, is never
    unpaused. *)
Theorem failed_wait_stays_paused :
  exists w', run_ops failing_wait_env [OpMarkAttached 0; OpRequestDetach 0; OpProcessPending] demo_world = Done tt w' /\
  flat_map queued_stop (events w') <> [] /\ flat_map unpaused (events w') = [].
Proof. eexists. split; [vm_compute; reflexivity|]. by split. Qed.
