(* ===== verification/LifecycleOutcomes.v ===== *)
(** * Outcomes of the controller operations

    What each operation on a hook does to that hook, and that it does nothing
    to the others; the retry budget; the batch. *)

From Stdlib Require Import SpecFloat.
From S2P Require Import Prelude HookControl HookStatus Doubles HookModel HookPolicy HookLifecycle LifecycleProofs LifecycleProtocol.

#[local] Opaque state_publication.

(** ** One hook changes *)

(** The table is [hs] with entry [i] replaced by [h]. *)
Definition one (i : nat) (hs : list hook) (h : hook) (w : world) : Prop :=
  (i < length hs)%nat /\ hooks w = <[i:=h]> hs.

Abbreviation anywhere := (fun _ : world => True).

Lemma one_lookup i hs h w : one i hs h w -> hooks w !! i = Some h.
Proof. intros [Hlt ->]. by apply list_lookup_insert_eq. Qed.

Lemma one_intro i w h : hooks w !! i = Some h -> one i (hooks w) h w.
Proof.
  intros Hi. split; [by apply lookup_lt_Some in Hi|]. by rewrite list_insert_id.
Qed.

Lemma one_emit i hs h e : spec (one i hs h) (emit e) (fun _ => one i hs h) anywhere.
Proof. by intros w Hw. Qed.
Lemma one_ask {A} i hs h (f : nat -> A) : spec (one i hs h) (ask f) (fun _ => one i hs h) anywhere.
Proof. by intros w Hw. Qed.
Lemma one_get i hs h :
  spec (one i hs h) (get_hook i) (fun r w => r = Some h /\ one i hs h w) anywhere.
Proof. intros w Hw. simpl. split; [by eapply one_lookup|done]. Qed.
Lemma one_gets {A} i hs h (f : world -> A) (P : A -> Prop) :
  (forall w, one i hs h w -> P (f w)) ->
  spec (one i hs h) (gets f) (fun r w => P r /\ one i hs h w) anywhere.
Proof. intros HP w Hw. simpl. auto. Qed.
Lemma one_update i hs h f :
  spec (one i hs h) (update_hook i f) (fun _ => one i hs (f h)) anywhere.
Proof.
  intros w [Hlt Hw]. split; [done|]. simpl. rewrite Hw.
  apply list_eq. intros j. destruct (decide (i = j)) as [->|Hne].
  - rewrite list_lookup_alter_eq, !list_lookup_insert_eq by done. done.
  - by rewrite list_lookup_alter_ne, !list_lookup_insert_ne.
Qed.
Lemma one_set_state i hs h st :
  spec (one i hs h) (set_hook_state i st) (fun _ => one i hs (entered st h)) anywhere.
Proof.
  intros w Hw. rewrite (set_hook_state_eq i st w h) by (by eapply one_lookup). simpl.
  destruct (store i st (status w)); [|done].
  pose proof (one_update i hs h (entered st) w Hw) as H. exact H.
Qed.

(** The retry state a settled hook is left with. *)
Definition retry_cleared (h : hook) : hook :=
  set_request no_request
    (set_pending_observed_time d0
       (set_last_retry_status PEAK_DETACH_STATUS_SAFE
          (set_retry_count 0 (set_next_retry_time d0 h)))).

Lemma one_reset_retry i hs h :
  spec (one i hs h) (reset_retry i) (fun _ => one i hs (retry_cleared h)) anywhere.
Proof.
  unfold reset_retry. eapply spec_bind; [apply one_update|]. intros [].
  exact (one_update i hs _ (set_request no_request)).
Qed.

Lemma one_ret {A} i hs h (a : A) : spec (one i hs h) (ret a) (fun r w => r = a /\ one i hs h w) anywhere.
Proof. by apply spec_ret. Qed.

Section Outcomes.
Context (env : environment).

Lemma one_abandon i hs h st :
  spec (one i hs h) (abandon_to i st)
    (fun r w => r = false /\ one i hs (entered st (retry_cleared h)) w) anywhere.
Proof.
  unfold abandon_to. eapply spec_bind; [apply one_reset_retry|]. intros [].
  eapply spec_bind; [apply one_set_state|]. intros []. apply one_ret.
Qed.

(** The entry [note_retry] leaves when the clock reads [now]. *)
Definition retried (now : double) (status : PeakDetachStatus) (h : hook) : hook :=
  let count := retry_count h in
  let h' := if count <? UINT32_MAX then set_retry_count (count + 1) h else h in
  set_last_retry_status status (set_next_retry_time (dadd now (retry_delay count)) h').

Lemma one_note_retry i hs h st :
  status_is_retryable st = true ->
  spec (one i hs h) (note_retry env i st)
    (fun _ w => exists now, one i hs (retried now st h) w) anywhere.
Proof.
  intros Hst. unfold note_retry. eapply spec_bind; [apply one_get|]. intros r.
  apply spec_pure. intros ->. rewrite Hst. simpl.
  eapply (spec_bind _ _ _ (fun _ => one i hs
    (if retry_count h <? UINT32_MAX then set_retry_count (retry_count h + 1) h else h))).
  { destruct (retry_count h <? UINT32_MAX); [apply one_update|by apply spec_ret]. }
  intros []. eapply spec_bind; [apply one_ask|]. intros now. cbv beta.
  eapply spec_bind; [apply one_update|]. intros [].
  eapply spec_conseq; [apply one_update|done| |done]. intros ? w Hw. by exists now.
Qed.

(** Whether the retry budget of [h] is spent at time [now]. *)
Definition budget_spent (h : hook) (now : double) : bool :=
  if (0 <? env_max_retry_count env) && (env_max_retry_count env <=? retry_count h) then true
  else dgt (env_max_pending_age_s env) d0 && dge (pending_age h now) (env_max_pending_age_s env).

(** The two results of a failed preparation. *)
Definition failure_outcome (stable : PeakHookState) (st : PeakDetachStatus) (h : hook)
    (b : bool) (h' : hook) : Prop :=
  if status_is_retryable st then
    exists t now, let hr := retried t st h in
      if budget_spent hr now then b = false /\ h' = entered stable (retry_cleared hr)
      else b = true /\ h' = hr
  else b = false /\ h' = entered stable (retry_cleared h).

Lemma one_handle_prepare_failure i hs h stable st :
  spec (one i hs h) (handle_prepare_failure env i stable st)
    (fun b w => exists h', failure_outcome stable st h b h' /\ one i hs h' w) anywhere.
Proof.
  unfold handle_prepare_failure, failure_outcome. destruct (status_is_retryable st) eqn:Es.
  - eapply spec_bind; [by apply one_note_retry|]. intros [] w [t Hw]. revert w Hw.
    change (spec (one i hs (retried t st h))
      (let* now := peak_second env in
       let* exceeded := gets (retry_budget_exceeded env i now) in
       if negb exceeded then ret true
       else reset_retry i ;; set_hook_state i stable ;; ret false)
      (fun b w => exists h', (exists t now, if budget_spent (retried t st h) now
         then b = false /\ h' = entered stable (retry_cleared (retried t st h))
         else b = true /\ h' = retried t st h) /\ one i hs h' w) anywhere).
    eapply spec_bind; [apply one_ask|]. intros now. cbv beta.
    eapply spec_bind; [apply (one_gets _ _ _ _ (fun b => b = budget_spent (retried t st h) now))|].
    { intros w Hw. unfold retry_budget_exceeded. by rewrite (one_lookup _ _ _ _ Hw). }
    intros b. apply spec_pure. intros ->.
    destruct (budget_spent (retried t st h) now) eqn:Eb; simpl.
    + eapply spec_bind; [apply one_reset_retry|]. intros [].
      eapply spec_bind; [apply one_set_state|]. intros []. apply spec_ret. intros w Hw.
      eexists. split; [|exact Hw]. exists t, now. by rewrite Eb.
    + apply spec_ret. intros w Hw. eexists. split; [|exact Hw]. exists t, now. by rewrite Eb.
  - eapply spec_conseq; [apply (one_abandon i hs h stable)|done| |done].
    intros b w [-> Hw]. eauto.
Qed.

Lemma one_pause i hs h ts :
  spec (one i hs h) (pause_called_threads env ts) (fun _ => one i hs h) anywhere.
Proof.
  induction ts as [|t ts IH]; simpl; [by apply spec_ret|].
  eapply (spec_bind _ _ _ (fun _ => one i hs h)).
  - destruct (may_pause env t); [|by apply spec_ret].
    eapply spec_bind; [apply one_ask|]. intros [? ?].
    eapply spec_bind; [apply one_emit|]. intros []. by apply spec_ret.
  - intros [? ?]. eapply spec_bind; [apply IH|]. intros [? ?]. by apply spec_ret.
Qed.

Lemma one_resume i hs h ts :
  spec (one i hs h) (resume_called_threads env ts) (fun _ => one i hs h) anywhere.
Proof.
  induction ts as [|t ts IH]; simpl; [by apply spec_ret|].
  eapply (spec_bind _ _ _ (fun _ => one i hs h)); [|intros []; apply IH].
  destruct (must_resume env t); [apply one_emit|by apply spec_ret].
Qed.

Lemma one_finish i hs h :
  spec (one i hs h) (finish_hook_mutation_or_exit env) (fun _ => one i hs h) anywhere.
Proof.
  unfold finish_hook_mutation_or_exit. eapply spec_bind; [apply one_ask|]. intros ok.
  eapply spec_bind; [apply one_emit|]. intros []. eapply spec_bind; [apply one_emit|]. intros [].
  destruct ok; [by apply spec_ret|by apply spec_exit].
Qed.

Lemma one_prepare i hs h j op :
  spec (one i hs h) (prepare_hook_mutation env j op) (fun _ => one i hs h) anywhere.
Proof.
  unfold prepare_hook_mutation. eapply spec_bind; [apply one_emit|]. intros [].
  eapply spec_bind; [apply one_ask|]. intros [ok st].
  eapply spec_bind; [apply one_emit|]. intros [].
  eapply (spec_bind _ _ _ (fun _ => one i hs h)); [|intros []; by apply spec_ret].
  destruct ok; [by apply spec_ret|apply one_emit].
Qed.

Lemma one_gum_detach i hs h j :
  spec (one i hs h) (gum_detach_or_exit env j) (fun _ => one i hs h) anywhere.
Proof.
  unfold gum_detach_or_exit. eapply spec_bind; [apply one_ask|]. intros ok.
  eapply spec_bind; [apply one_emit|]. intros [].
  destruct ok; [apply one_emit|by apply spec_exit].
Qed.

Lemma one_flush i hs h n :
  spec (one i hs h) (flush_attempts env n) (fun _ => one i hs h) anywhere.
Proof.
  induction n as [|n IH]; simpl; (eapply spec_bind; [apply one_ask|]; intros ok);
    (eapply spec_bind; [apply one_emit|]; intros []); [by apply spec_ret|].
  destruct ok; [by apply spec_ret|done].
Qed.

(** A Gum detach records itself and whether it was flushed. *)
Lemma one_detach_and_flush i hs h :
  spec (one i hs h) (detach_and_flush env i)
    (fun _ w => exists fl, one i hs (set_gum_detach_flushed fl (set_gum_detached true h)) w)
    anywhere.
Proof.
  unfold detach_and_flush. eapply spec_bind; [apply one_gum_detach|]. intros [].
  eapply spec_bind; [apply one_update|]. intros [].
  eapply spec_bind; [apply one_flush|]. intros fl. cbv beta.
  eapply spec_conseq; [apply one_update|done| |done]. intros ? w Hw. by exists fl.
Qed.

Lemma one_gum_attach i hs h j :
  spec (one i hs h) (gum_attach env j) (fun _ => one i hs h) anywhere.
Proof.
  unfold gum_attach. eapply spec_bind; [apply one_ask|]. intros ok.
  eapply spec_bind; [apply one_emit|]. intros []. by apply spec_ret.
Qed.

(** What [finish_detach] leaves, given the refreshed sample. *)
Definition detach_finished (h h' : hook) : Prop :=
  state h' = PEAK_HOOK_DETACHED /\ listener_detached h' = true /\
  gum_detached h' = gum_detached h /\ gum_detach_flushed h' = gum_detach_flushed h /\
  positive_finite (detach_profile_seconds h') = true /\
  retry_count h' = 0 /\ next_retry_time h' = d0 /\ request h' = no_request /\
  pending_observed_time h' = d0.

Definition sampled (s : option (Z * double)) (h : hook) : hook :=
  match s with
  | Some (calls, profile) =>
      set_cached_sample_valid true
        (set_cached_sample_profile_seconds profile (set_cached_sample_calls calls h))
  | None => h
  end.

Lemma one_refresh i hs h :
  spec (one i hs h) (refresh_hook_sample_cache env i)
    (fun r => one i hs (sampled r h)) anywhere.
Proof.
  unfold refresh_hook_sample_cache. eapply spec_bind; [apply one_get|]. intros r.
  apply spec_pure. intros ->. destruct (_ || _); [by apply spec_ret|].
  eapply spec_bind; [apply one_ask|]. intros calls. cbv beta.
  eapply spec_bind; [apply one_update|]. intros []. by apply spec_ret.
Qed.

Lemma detach_profile_estimate_positive overhead h sample :
  positive_finite (detach_profile_estimate overhead h sample) = true.
Proof. unfold detach_profile_estimate. branch; auto with peak. Qed.

Lemma entered_fields st h :
  state (entered st h) = st /\ listener_detached (entered st h) = listener_detached h /\
  listener_reattached (entered st h) = listener_reattached h /\
  gum_detached (entered st h) = gum_detached h /\
  gum_detach_flushed (entered st h) = gum_detach_flushed h /\
  detach_profile_seconds (entered st h) = detach_profile_seconds h /\
  retry_count (entered st h) = retry_count h /\
  next_retry_time (entered st h) = next_retry_time h /\
  request (entered st h) = request h /\ address (entered st h) = address h /\
  listener (entered st h) = listener h /\
  pending_observed_time (entered st h) = pending_observed_time h.
Proof. unfold entered. simpl. by destruct (legacy_flags st), (negb _). Qed.

#[local] Opaque entered.

Lemma one_finish_detach i hs h :
  spec (one i hs h) (finish_detach env i)
    (fun _ w => exists h', detach_finished h h' /\ one i hs h' w) anywhere.
Proof.
  unfold finish_detach. eapply spec_bind; [apply one_update|]. intros [].
  eapply spec_bind; [apply one_ask|]. intros now. cbv beta.
  eapply spec_bind; [apply one_update|]. intros [].
  unfold note_detach_profile_seconds.
  eapply (spec_bind _ _ _ (fun _ w => exists h1, one i hs h1 w /\
    listener_detached h1 = true /\ gum_detached h1 = gum_detached h /\
    gum_detach_flushed h1 = gum_detach_flushed h /\
    positive_finite (detach_profile_seconds h1) = true)).
  { eapply spec_bind; [apply one_get|]. intros r. apply spec_pure. intros ->.
    eapply spec_bind; [apply one_refresh|]. intros sample. cbv beta.
    eapply spec_conseq; [apply one_update|done| |done]. intros ? w Hw.
    eexists. split; [exact Hw|]. simpl.
    split_and!; [by destruct sample as [[]|]..|apply detach_profile_estimate_positive]. }
  intros [] w (h1 & Hw & H1 & H2 & H3 & H4). revert w Hw.
  change (spec (one i hs h1) (set_hook_state i PEAK_HOOK_DETACHED ;; reset_retry i)
    (fun _ w => exists h', detach_finished h h' /\ one i hs h' w) anywhere).
  eapply spec_bind; [apply one_set_state|]. intros [].
  eapply spec_conseq; [apply one_reset_retry|done| |done]. intros ? w Hw.
  eexists. split; [|exact Hw]. unfold detach_finished, retry_cleared. simpl.
  destruct (entered_fields PEAK_HOOK_DETACHED h1) as (E1&E2&_&E3&E4&E5&_).
  rewrite E1, E2, E3, E4, E5. by split_and!.
Qed.

Definition reattach_finished (h' : hook) : Prop :=
  state h' = PEAK_HOOK_ATTACHED /\ listener_reattached h' = true /\ gum_detached h' = false /\
  retry_count h' = 0 /\ next_retry_time h' = d0 /\ request h' = no_request /\
  pending_observed_time h' = d0 /\ reattach_request_calls_valid h' = true.

Lemma one_finish_reattach i hs h :
  spec (one i hs h) (finish_reattach i)
    (fun _ w => exists h', reattach_finished h' /\ one i hs h' w) anywhere.
Proof.
  unfold finish_reattach. do 3 (eapply spec_bind; [apply one_update|]; intros []).
  eapply spec_bind; [apply one_set_state|]. intros [].
  eapply spec_bind; [apply one_update|]. intros [].
  eapply spec_conseq; [apply one_reset_retry|done| |done]. intros ? w Hw.
  eexists. split; [|exact Hw]. unfold reattach_finished, retry_cleared.
  set (h0 := set_listener_reattached true _).
  destruct (entered_fields PEAK_HOOK_ATTACHED h0) as (E1&_&E2&E3&_).
  simpl. destruct (_ && _); simpl; rewrite E1, E2, E3; by split_and!.
Qed.

(** The entry is left in [st] with its retry state cleared and its Gum flags
    as they were. *)
Definition settled (st : PeakHookState) (h h' : hook) : Prop :=
  state h' = st /\ gum_detached h' = gum_detached h /\
  gum_detach_flushed h' = gum_detach_flushed h /\
  retry_count h' = 0 /\ next_retry_time h' = d0 /\ request h' = no_request /\
  pending_observed_time h' = d0.

(** A failed preparation of a request: retried later, or settled. *)
Definition retried_or_settled (st : PeakHookState) (h h' : hook) : Prop :=
  (exists t status, status_is_retryable status = true /\ h' = retried t status h) \/
  settled st h h'.

Lemma settled_cleared st h h0 :
  gum_detached h = gum_detached h0 -> gum_detach_flushed h = gum_detach_flushed h0 ->
  settled st h0 (entered st (retry_cleared h)).
Proof.
  intros H1 H2. unfold settled.
  destruct (entered_fields st (retry_cleared h)) as (E1&_&_&E2&E3&_&E4&E5&E6&_&_&E7).
  rewrite E1, E2, E3, E4, E5, E6, E7. by split_and!.
Qed.

Lemma failure_retried_or_settled st status h b h' :
  failure_outcome st status h b h' -> retried_or_settled st h h'.
Proof.
  unfold failure_outcome, retried_or_settled. destruct (status_is_retryable status) eqn:Es.
  - intros (t & now & H). destruct (budget_spent _ _); destruct H as [_ ->]; [right|left; eauto].
    apply settled_cleared; unfold retried; simpl; by branch.
  - intros [_ ->]. right. by apply settled_cleared.
Qed.

(** Result of [detach_if_requested] on a requested hook. *)
Definition detach_outcome (h : hook) (b : bool) (h' : hook) : Prop :=
  (b = true /\ exists hd, detach_finished hd h' /\
     (gum_detached hd = true \/
      gum_detached hd = gum_detached h /\ gum_detach_flushed hd = gum_detach_flushed h)) \/
  (b = false /\ retried_or_settled PEAK_HOOK_ATTACHED h h').

Lemma one_detach i hs h ts c :
  hook_published h = true -> state h = PEAK_HOOK_DETACH_REQUESTED ->
  spec (one i hs h) (detach_if_requested env i ts c)
    (fun b w => exists h', detach_outcome h b h' /\ one i hs h' w) anywhere.
Proof.
  intros Hpub Hst. unfold detach_if_requested.
  eapply spec_bind; [apply (one_gets _ _ _ _ (fun b => b = true))|].
  { intros w Hw. unfold hook_is_published, hook_state_equals.
    rewrite (one_lookup _ _ _ _ Hw), Hpub, Hst. done. }
  intros r. apply spec_pure. intros ->. simpl.
  eapply spec_bind; [apply one_prepare|]. intros [ok st]. destruct ok; simpl.
  2: { eapply spec_bind; [apply one_handle_prepare_failure|]. intros b. apply spec_ret.
       intros w (h' & Hf & Hw). exists h'. split; [|done]. right. split; [done|].
       by eapply failure_retried_or_settled. }
  eapply spec_bind; [apply one_ask|]. intros held. cbv beta.
  eapply spec_bind; [apply one_ask|]. intros physical. cbv beta.
  assert (forall g, gum_detached g = gum_detached h -> gum_detach_flushed g = gum_detach_flushed h ->
    spec (one i hs g) (abandon_to i PEAK_HOOK_ATTACHED)
      (fun b w => exists h', detach_outcome h b h' /\ one i hs h' w) anywhere) as Hab.
  { intros g G1 G2. eapply spec_conseq; [apply one_abandon|done| |done].
    intros b w [-> Hw]. eexists. split; [|exact Hw]. right. split; [done|]. right.
    by apply settled_cleared. }
  destruct (_ && _).
  { eapply spec_bind; [apply one_finish|]. intros []. by apply Hab. }
  eapply spec_bind; [apply one_set_state|]. intros [].
  set (hd := entered PEAK_HOOK_DETACHING h).
  destruct (entered_fields PEAK_HOOK_DETACHING h) as (D1&_&_&D2&D3&_).
  eapply (spec_bind _ _ _ (fun _ => one i hs hd)).
  { destruct held; simpl; [by apply spec_ret|apply one_pause]. }
  intros [all_paused ts']. destruct all_paused; simpl.
  2: { eapply spec_bind; [apply one_finish|]. intros [].
       eapply spec_bind; [apply one_resume|]. intros []. by apply Hab. }
  eapply (spec_bind _ _ _ (fun _ w => exists h1, (gum_detached h1 = true \/
      gum_detached h1 = gum_detached h /\ gum_detach_flushed h1 = gum_detach_flushed h) /\
      one i hs h1 w)).
  { destruct physical; simpl.
    - apply spec_ret. intros w Hw. exists hd. eauto.
    - eapply spec_conseq; [apply one_detach_and_flush|done| |done].
      intros ? w [fl Hw]. eexists. split; [|exact Hw]. by left. }
  intros [] w (h1 & G & Hw). revert w Hw.
  change (spec (one i hs h1)
    (finish_hook_mutation_or_exit env ;;
     (if negb held then resume_called_threads env ts' else ret tt) ;;
     finish_detach env i ;; ret true)
    (fun b w => exists h', detach_outcome h b h' /\ one i hs h' w) anywhere).
  eapply spec_bind; [apply one_finish|]. intros [].
  eapply (spec_bind _ _ _ (fun _ => one i hs h1)).
  { destruct held; simpl; [by apply spec_ret|apply one_resume]. }
  intros []. eapply spec_bind; [apply one_finish_detach|]. intros []. apply spec_ret.
  intros w (h' & Hf & Hw). exists h'. split; [|done]. left. eauto.
Qed.

Definition reattach_outcome (h : hook) (b : bool) (h' : hook) : Prop :=
  (b = true /\ reattach_finished h') \/ (b = false /\ retried_or_settled PEAK_HOOK_DETACHED h h').

Lemma one_reattach i hs h ts c :
  hook_published h = true -> state h = PEAK_HOOK_REATTACH_REQUESTED ->
  spec (one i hs h) (reattach_if_requested env i ts c)
    (fun b w => exists h', reattach_outcome h b h' /\ one i hs h' w) anywhere.
Proof.
  intros Hpub Hst. unfold reattach_if_requested.
  eapply spec_bind; [apply (one_gets _ _ _ _ (fun b => b = true))|].
  { intros w Hw. unfold hook_is_published, hook_state_equals.
    rewrite (one_lookup _ _ _ _ Hw), Hpub, Hst. done. }
  intros r. apply spec_pure. intros ->. simpl.
  eapply spec_bind; [apply one_prepare|]. intros [ok st]. destruct ok; simpl.
  2: { eapply spec_bind; [apply one_handle_prepare_failure|]. intros b. apply spec_ret.
       intros w (h' & Hf & Hw). exists h'. split; [|done]. right. split; [done|].
       by eapply failure_retried_or_settled. }
  eapply spec_bind; [apply one_ask|]. intros held. cbv beta.
  eapply spec_bind; [apply one_ask|]. intros physical. cbv beta.
  assert (forall g, gum_detached g = gum_detached h -> gum_detach_flushed g = gum_detach_flushed h ->
    spec (one i hs g) (abandon_to i PEAK_HOOK_DETACHED)
      (fun b w => exists h', reattach_outcome h b h' /\ one i hs h' w) anywhere) as Hab.
  { intros g G1 G2. eapply spec_conseq; [apply one_abandon|done| |done].
    intros b w [-> Hw]. eexists. split; [|exact Hw]. right. split; [done|]. right.
    by apply settled_cleared. }
  destruct (_ && _).
  { eapply spec_bind; [apply one_finish|]. intros []. by apply Hab. }
  eapply spec_bind; [apply one_set_state|]. intros [].
  destruct (entered_fields PEAK_HOOK_REATTACHING h) as (D1&_&_&D2&D3&_).
  eapply (spec_bind _ _ _ (fun _ => one i hs (entered PEAK_HOOK_REATTACHING h))).
  { destruct held; simpl; [by apply spec_ret|apply one_pause]. }
  intros [all_paused ts']. destruct all_paused; simpl.
  2: { eapply spec_bind; [apply one_finish|]. intros [].
       eapply spec_bind; [apply one_resume|]. intros []. by apply Hab. }
  eapply (spec_bind _ _ _ (fun _ => one i hs (entered PEAK_HOOK_REATTACHING h))).
  { destruct physical; simpl; [by apply spec_ret|apply one_gum_attach]. }
  intros attached. eapply spec_bind; [apply one_finish|]. intros [].
  eapply (spec_bind _ _ _ (fun _ => one i hs (entered PEAK_HOOK_REATTACHING h))).
  { destruct held; simpl; [by apply spec_ret|apply one_resume]. }
  intros []. destruct attached; simpl; [|by apply Hab].
  eapply spec_bind; [apply one_finish_reattach|]. intros []. apply spec_ret.
  intros w (h' & Hf & Hw). exists h'. split; [|done]. left. eauto.
Qed.
End Outcomes.

(** ** Totality *)

(** Steps that cannot end the process on consistent tables. *)
Definition total {A} (m : M A) : Prop :=
  spec consistent m (fun _ => consistent) (fun _ => False).

Lemma total_ret {A} (a : A) : total (ret a).
Proof. by apply spec_ret. Qed.
Lemma total_bind {A B} (m : M A) (k : A -> M B) :
  total m -> (forall a, total (k a)) -> total (bind m k).
Proof. intros Hm Hk. eapply spec_bind; [apply Hm|]. intros a. apply Hk. Qed.
Lemma total_gets {A} (f : world -> A) : total (gets f).
Proof. by intros w Hw. Qed.
Lemma total_ask {A} (f : nat -> A) : total (ask f).
Proof. intros w Hw. by eapply consistent_same. Qed.
Lemma total_update i f : neutral f -> total (update_hook i f).
Proof. intros Hf w Hw. by apply (preserves_update i f Hf w). Qed.
Lemma total_set_hook_state i st : total (set_hook_state i st).
Proof.
  intros w Hc. pose proof (preserves_set_hook_state i st w Hc) as Hpres.
  destruct (hooks w !! i) as [h|] eqn:Hi; [|by rewrite set_hook_state_none].
  rewrite (set_hook_state_eq i st w h Hi) in *. simpl in *.
  destruct (consistent_store w i st h Hc Hi) as (s & Es & _). by rewrite Es in *.
Qed.

Create HintDb total.
#[export] Hint Resolve total_ret total_gets total_ask total_set_hook_state : total.
#[export] Hint Extern 1 (total (update_hook _ _)) => apply total_update; neutral : total.
Ltac total :=
  repeat first
    [ progress intros | solve [eauto with total] | apply total_bind
    | match goal with |- total (match ?x with _ => _ end) => destruct x end ].

Lemma total_handle_prepare_failure env i stable st : total (handle_prepare_failure env i stable st).
Proof.
  unfold handle_prepare_failure, note_retry, reset_retry, clear_pending_request_context, get_hook,
    peak_second. total.
Qed.

Lemma spec_total {A} (P : world -> Prop) (m : M A) Q w :
  total m -> consistent w -> spec P m Q anywhere -> P w ->
  exists a w', m w = Done a w' /\ consistent w' /\ Q a w'.
Proof.
  intros Ht Hc Hs Hw. specialize (Ht w Hc). specialize (Hs w Hw).
  destruct (m w); [|done]. eauto.
Qed.

(** ** The retry budget *)

(** Consecutive failed preparations of one request: the controller tries again
    for as long as the failure handler says so. *)
Fixpoint fail_repeatedly (env : environment) (n : nat) (i : nat) (stable : PeakHookState)
    (st : PeakDetachStatus) : M bool :=
  match n with
  | O => ret true
  | S n =>
      let* again := handle_prepare_failure env i stable st in
      if again : bool then fail_repeatedly env n i stable st else ret false
  end.

Lemma settled_retried st t status h h' :
  settled st (retried t status h) h' -> settled st h h'.
Proof. unfold settled, retried. destruct (retry_count h <? UINT32_MAX); simpl; tauto. Qed.

Lemma one_fail_repeatedly env n i hs h stable st :
  0 < env_max_retry_count env <= UINT32_MAX -> 0 <= retry_count h ->
  (0 < n)%nat -> env_max_retry_count env - retry_count h <= Z.of_nat n ->
  spec (one i hs h) (fail_repeatedly env n i stable st)
    (fun b w => b = false /\ exists h', settled stable h h' /\ one i hs h' w) anywhere.
Proof.
  intros Hmax. revert h. induction n as [|n IH]; intros h Hc Hn Hle; [lia|]. simpl.
  eapply spec_bind; [apply one_handle_prepare_failure|]. intros again w (h1 & Hf & Hw). revert w Hw.
  change (spec (one i hs h1) (if again then fail_repeatedly env n i stable st else ret false)
    (fun b w => b = false /\ exists h', settled stable h h' /\ one i hs h' w) anywhere).
  unfold failure_outcome in Hf. destruct (status_is_retryable st).
  - destruct Hf as (t & now & Hf). destruct (budget_spent env (retried t st h) now) eqn:Eb;
      destruct Hf as [-> ->].
    + apply spec_ret. intros w Hw. split; [done|]. eexists. split; [|exact Hw].
      apply (settled_retried stable t st). by apply settled_cleared.
    + unfold budget_spent in Eb.
      assert (0 <= retry_count h <= retry_count (retried t st h) /\
              retry_count (retried t st h) < env_max_retry_count env /\
              (retry_count h < UINT32_MAX -> retry_count (retried t st h) = retry_count h + 1))
        as (Hge & Hlt & Hinc).
      { destruct (0 <? env_max_retry_count env) eqn:E1; [|breflect; lia].
        destruct (env_max_retry_count env <=? retry_count (retried t st h)) eqn:E2;
          [discriminate Eb|].
        breflect. unfold retried in *. simpl in *.
        destruct (Z.ltb_spec (retry_count h) UINT32_MAX); simpl in *; lia. }
      pose proof (Hinc ltac:(lia)) as Hnext.
      eapply spec_conseq; [apply (IH (retried t st h)); lia|done| |done].
      intros b w (-> & h' & Hs & Hw). split; [done|]. exists h'. split; [|done].
      by eapply settled_retried.
  - destruct Hf as [-> ->]. apply spec_ret. intros w Hw. split; [done|].
    eexists. split; [|exact Hw]. by apply settled_cleared.
Qed.

Lemma total_fail_repeatedly env n i stable st : total (fail_repeatedly env n i stable st).
Proof.
  induction n as [|n IH]; simpl; [apply total_ret|].
  apply total_bind; [apply total_handle_prepare_failure|]. intros []; [done|apply total_ret].
Qed.

(** ** Properties of single-hook operations *)

(** a detach of a requested hook ends in exactly one of three ways and
    touches no other hook: it succeeds and the hook is DETACHED with its
    retry state and request cleared, a positive finite profile estimate and,
    unless the helper patched the code, its Gum detach recorded; it is
    abandoned and the hook is ATTACHED again with its Gum flags unchanged; or
    the failed preparation is retryable and the request stands with one more
    retry.  No path leaves the hook DETACHING. *)
Theorem detach_request_outcome env i w h ts c :
  hooks w !! i = Some h -> hook_published h = true -> state h = PEAK_HOOK_DETACH_REQUESTED ->
  match detach_if_requested env i ts c w with
  | Done b w' => exists h', hooks w' = <[i:=h']> (hooks w) /\ detach_outcome h b h'
  | Exited _ => True
  end.
Proof.
  intros Hi Hpub Hst.
  pose proof (one_detach env i (hooks w) h ts c Hpub Hst w (one_intro _ _ _ Hi)) as H.
  destruct (detach_if_requested env i ts c w); [|done]. destruct H as (h' & Ho & [_ Hw]). eauto.
Qed.

(** a reattach of a requested hook ends in exactly one of three ways and
    touches no other hook: ATTACHED with the reattach recorded and the Gum
    detach cleared, DETACHED with its Gum flags unchanged, or still requested
    with one more retry. *)
Theorem reattach_request_outcome env i w h ts c :
  hooks w !! i = Some h -> hook_published h = true -> state h = PEAK_HOOK_REATTACH_REQUESTED ->
  match reattach_if_requested env i ts c w with
  | Done b w' => exists h', hooks w' = <[i:=h']> (hooks w) /\ reattach_outcome h b h'
  | Exited _ => True
  end.
Proof.
  intros Hi Hpub Hst.
  pose proof (one_reattach env i (hooks w) h ts c Hpub Hst w (one_intro _ _ _ Hi)) as H.
  destruct (reattach_if_requested env i ts c w); [|done]. destruct H as (h' & Ho & [_ Hw]). eauto.
Qed.

(** retrying is bounded.  On consistent tables, with a maximum retry count
    in range, a request whose preparation keeps failing is given up after at
    most [max - retry_count] further failures (one at least): the failure
    handler then returns FALSE, the hook is in its stable state with the retry
    state cleared, and no other hook has changed. *)
Theorem failing_request_abandoned env n i w h stable st :
  consistent w -> hooks w !! i = Some h -> 0 <= retry_count h ->
  0 < env_max_retry_count env <= UINT32_MAX -> (0 < n)%nat ->
  env_max_retry_count env - retry_count h <= Z.of_nat n ->
  exists w' h', fail_repeatedly env n i stable st w = Done false w' /\
    settled stable h h' /\ hooks w' = <[i:=h']> (hooks w) /\ consistent w'.
Proof.
  intros Hc Hi Hr Hmax Hn Hle.
  destruct (spec_total _ _ _ w (total_fail_repeatedly env n i stable st) Hc
    (one_fail_repeatedly env n i (hooks w) h stable st Hmax Hr Hn Hle) (one_intro _ _ _ Hi))
    as (b & w' & Hw & Hc' & -> & h' & Hs & [_ Hh]). eauto 10.
Qed.

(** Two attached hooks, the second one requested to detach. *)
Definition demo_requested : world :=
  match run_ops demo_env [OpMarkAttached 0; OpMarkAttached 1; OpRequestDetach 1] demo_world with
  | Done _ w => w
  | Exited w => w
  end.
Definition demo_hook (w : world) : hook := default (fresh_hook (0, 0)) (hooks w !! 1%nat).

(** The same hook detached, then requested to reattach. *)
Definition demo_reattach : world :=
  match run_ops demo_env [OpProcessPending; OpRequestReattach 1] demo_requested with
  | Done _ w => w
  | Exited w => w
  end.

Lemma detach_request_outcome_witness :
  match detach_if_requested demo_env 1 [] true demo_requested with
  | Done b w' => exists h', hooks w' = <[1%nat:=h']> (hooks demo_requested) /\
      detach_outcome (demo_hook demo_requested) b h'
  | Exited _ => True
  end.
Proof.
  apply (detach_request_outcome demo_env 1 demo_requested (demo_hook demo_requested));
    vm_compute; reflexivity.
Defined.

Lemma reattach_request_outcome_witness :
  match reattach_if_requested demo_env 1 [] true demo_reattach with
  | Done b w' => exists h', hooks w' = <[1%nat:=h']> (hooks demo_reattach) /\
      reattach_outcome (demo_hook demo_reattach) b h'
  | Exited _ => True
  end.
Proof.
  apply (reattach_request_outcome demo_env 1 demo_reattach (demo_hook demo_reattach));
    vm_compute; reflexivity.
Defined.

Lemma demo_requested_consistent : consistent demo_requested.
Proof.
  pose proof (preserves_run_ops demo_env [OpMarkAttached 0; OpMarkAttached 1; OpRequestDetach 1]
    demo_world (attach_tables_consistent (fun _ => true) [(4096, 8192); (4112, 8256)]
      initial_status demo_world initial_status_wf eq_refl)) as H.
  unfold demo_requested. destruct (run_ops _ _ _) eqn:E; [exact H|vm_compute in E; discriminate].
Qed.

Lemma failing_request_abandoned_witness :
  exists w' h', fail_repeatedly demo_env 300 1 PEAK_HOOK_ATTACHED PEAK_DETACH_STATUS_TIMEOUT
      demo_requested = Done false w' /\
    settled PEAK_HOOK_ATTACHED (demo_hook demo_requested) h' /\
    hooks w' = <[1%nat:=h']> (hooks demo_requested) /\ consistent w'.
Proof.
  apply (failing_request_abandoned demo_env 300 1 demo_requested (demo_hook demo_requested)
    PEAK_HOOK_ATTACHED PEAK_DETACH_STATUS_TIMEOUT).
  - apply demo_requested_consistent.
  - vm_compute; reflexivity.
  - vm_compute; discriminate.
  - vm_compute; split; [reflexivity|discriminate].
  - lia.
  - vm_compute; discriminate.
Defined.

(** ** Quiescence *)

Definition transient (st : PeakHookState) : bool :=
  bool_decide (st = PEAK_HOOK_DETACHING) || bool_decide (st = PEAK_HOOK_REATTACHING).

(** Only hooks of [X] are in a transient state. *)
Definition resting_except (X : list nat) (w : world) : Prop :=
  forall i h, hooks w !! i = Some h -> transient (state h) = true -> i ∈ X.

Definition restful {A} (m : M A) : Prop :=
  forall X, spec (resting_except X) m (fun _ => resting_except X) anywhere.

Lemma restful_ret {A} (a : A) : restful (ret a).
Proof. intros X. by apply spec_ret. Qed.
Lemma restful_bind {A B} (m : M A) (k : A -> M B) :
  restful m -> (forall a, restful (k a)) -> restful (bind m k).
Proof. intros Hm Hk X. eapply spec_bind; [apply Hm|]. intros a. apply Hk. Qed.
Lemma restful_gets {A} (f : world -> A) : restful (gets f).
Proof. by intros X w Hw. Qed.
Lemma restful_ask {A} (f : nat -> A) : restful (ask f).
Proof. by intros X w Hw. Qed.
Lemma restful_emit e : restful (emit e).
Proof. by intros X w Hw. Qed.
Lemma restful_exit {A} : restful (exit_process : M A).
Proof. by intros X w Hw. Qed.
Lemma restful_with_batch_cursor {A} (a : A) c : restful (fun w => Done a (with_batch_cursor c w)).
Proof. by intros X w Hw. Qed.
Lemma restful_allocate_batch_id : restful allocate_batch_id.
Proof. intros X w Hw. unfold allocate_batch_id. repeat branch; by simplify_eq. Qed.
Lemma restful_update i f : (forall h, state (f h) = state h) -> restful (update_hook i f).
Proof.
  intros Hf X w Hw j h Hj Ht. simpl in Hj. destruct (decide (i = j)) as [->|Hne].
  - rewrite list_lookup_alter_eq in Hj. apply fmap_Some in Hj as (h0 & Hj & ->).
    rewrite Hf in Ht. eauto.
  - rewrite list_lookup_alter_ne in Hj by done. eauto.
Qed.

(** Entering a state that is not transient takes the hook out of [X]. *)
Lemma rest_enter i st X :
  transient st = false ->
  spec (resting_except (i :: X)) (set_hook_state i st) (fun _ => resting_except X) anywhere.
Proof.
  intros Ht w Hw. destruct (hooks w !! i) as [h|] eqn:Hi.
  - rewrite (set_hook_state_eq i st w h Hi). simpl. destruct (store i st (status w)); [|done].
    intros j h' Hj Ht'. simpl in Hj. destruct (decide (i = j)) as [->|Hne].
    + rewrite list_lookup_alter_eq, Hi in Hj. simpl in Hj. simplify_eq.
      destruct (entered_fields st h) as (E & _). rewrite E in Ht'. congruence.
    + rewrite list_lookup_alter_ne in Hj by done.
      specialize (Hw j h' Hj Ht'). apply elem_of_cons in Hw as [->|]; done.
  - rewrite set_hook_state_none by done. intros j h' Hj Ht'.
    specialize (Hw j h' Hj Ht'). apply elem_of_cons in Hw as [->|]; [congruence|done].
Qed.

Lemma restful_weaken X Y w : resting_except X w -> X ⊆ Y -> resting_except Y w.
Proof. intros Hw HXY i h Hi Ht. eauto. Qed.

Lemma restful_enter i st : transient st = false -> restful (set_hook_state i st).
Proof.
  intros Ht X. eapply spec_conseq; [apply (rest_enter i st X Ht)| |done..].
  intros w Hw. eapply restful_weaken; [done|]. set_solver.
Qed.

Lemma rest_start i st X :
  spec (resting_except X) (set_hook_state i st) (fun _ => resting_except (i :: X)) anywhere.
Proof.
  intros w Hw. destruct (hooks w !! i) as [h|] eqn:Hi.
  - rewrite (set_hook_state_eq i st w h Hi). simpl. destruct (store i st (status w)); [|done].
    intros j h' Hj Ht'. simpl in Hj. destruct (decide (i = j)) as [->|Hne]; [set_solver|].
    rewrite list_lookup_alter_ne in Hj by done. specialize (Hw j h' Hj Ht'). set_solver.
  - rewrite set_hook_state_none by done. eapply restful_weaken; [done|]. set_solver.
Qed.

Create HintDb restful.
#[export] Hint Resolve restful_ret restful_gets restful_ask restful_emit restful_exit
  restful_with_batch_cursor restful_allocate_batch_id : restful.
#[export] Hint Extern 1 (restful (update_hook _ _)) =>
  apply restful_update; intros ?; repeat (branch || simpl); done : restful.
#[export] Hint Extern 1 (restful (set_hook_state _ _)) => apply restful_enter; done : restful.
Ltac restful :=
  repeat first
    [ progress intros | solve [eauto with restful] | apply restful_bind
    | match goal with |- restful (match ?x with _ => _ end) => destruct x end ].

Section Quiescence.
Context (env : environment).

Lemma restful_reset_retry i : restful (reset_retry i).
Proof. unfold reset_retry, clear_pending_request_context. restful. Qed.
#[local] Hint Resolve restful_reset_retry : restful.

Lemma restful_handle_prepare_failure i stable st :
  transient stable = false -> restful (handle_prepare_failure env i stable st).
Proof.
  intros Hs. unfold handle_prepare_failure, note_retry, get_hook, peak_second.
  pose proof (restful_enter i stable Hs). restful.
Qed.

Lemma restful_refresh i : restful (refresh_hook_sample_cache env i).
Proof. unfold refresh_hook_sample_cache, get_hook, cache_hook_sample. restful. Qed.
#[local] Hint Resolve restful_refresh : restful.

Lemma restful_request_detach i r : restful (request_detach_with_context env i r).
Proof.
  unfold request_detach_with_context, get_hook, peak_second, mark_pending_started,
    set_pending_request_context. restful.
Qed.
#[local] Hint Resolve restful_request_detach : restful.

Lemma restful_request_reattach i : restful (request_reattach env i).
Proof.
  unfold request_reattach, request_reattach_unlocked, request_reattach_with_context, get_hook,
    peak_second, mark_pending_started, set_pending_request_context, wake_if, controller_wake,
    try_hook_sample_cache. restful.
Qed.

Lemma restful_pause ts : restful (pause_called_threads env ts).
Proof. induction ts; simpl; restful. Qed.
Lemma restful_resume ts : restful (resume_called_threads env ts).
Proof. induction ts; simpl; restful. Qed.
Lemma restful_flush n : restful (flush_attempts env n).
Proof. induction n; simpl; restful. Qed.
#[local] Hint Resolve restful_pause restful_resume restful_flush : restful.

Lemma restful_finish : restful (finish_hook_mutation_or_exit env).
Proof. unfold finish_hook_mutation_or_exit. restful. Qed.
Lemma restful_detach_and_flush i : restful (detach_and_flush env i).
Proof. unfold detach_and_flush, gum_detach_or_exit, flush_teardown. restful. Qed.
Lemma restful_gum_attach i : restful (gum_attach env i).
Proof. unfold gum_attach. restful. Qed.
#[local] Hint Resolve restful_finish restful_detach_and_flush restful_gum_attach : restful.

Lemma restful_collect n now start total offset room :
  restful (collect_from n now start total offset room).
Proof.
  revert offset room. induction n; intros; simpl; unfold get_hook, mark_pending_started; restful.
Qed.

Lemma rest_finish_detach i X :
  spec (resting_except (i :: X)) (finish_detach env i) (fun _ => resting_except X) anywhere.
Proof.
  unfold finish_detach. eapply spec_bind; [apply restful_update; done|]. intros [].
  eapply spec_bind; [apply restful_ask|]. intros now. cbv beta.
  eapply spec_bind; [apply restful_update; done|]. intros [].
  eapply spec_bind. { unfold note_detach_profile_seconds, get_hook.
    match goal with |- spec _ ?m _ _ => assert (restful m) as Hr by restful end. apply Hr. }
  intros []. eapply spec_bind; [by apply rest_enter|]. intros []. apply restful_reset_retry.
Qed.

Lemma rest_finish_reattach i X :
  spec (resting_except (i :: X)) (finish_reattach i) (fun _ => resting_except X) anywhere.
Proof.
  unfold finish_reattach. do 3 (eapply spec_bind; [apply restful_update; done|]; intros []).
  eapply spec_bind; [by apply rest_enter|]. intros [].
  eapply spec_bind; [apply restful_update; intros h; by branch|]. intros [].
  apply restful_reset_retry.
Qed.

(** The ids of the prepared candidates of a batch. *)
Definition prepared_ids (b : batch) : list nat :=
  map (fun cr => candidate_hook_id cr.1) (List.filter (fun cr => prepared cr.2) b).

Lemma rest_batch_mutate c r X :
  spec (resting_except X) (batch_mutate env c r)
    (fun _ => resting_except (if prepared r then candidate_hook_id c :: X else X)) anywhere.
Proof.
  unfold batch_mutate. destruct (prepared r); simpl; [|by apply spec_ret].
  destruct (bool_decide _); (eapply spec_bind; [apply rest_start|]; intros []).
  - eapply (spec_bind _ _ _ (fun _ => resting_except (candidate_hook_id c :: X))).
    { destruct (negb _); [apply restful_detach_and_flush|by apply spec_ret]. }
    intros []. by apply spec_ret.
  - destruct (negb _); [apply restful_gum_attach|by apply spec_ret].
Qed.

Lemma rest_mutate_all b X :
  spec (resting_except X) (mutate_all env b)
    (fun oks w => length oks = length b /\ resting_except (prepared_ids b ++ X) w) anywhere.
Proof.
  revert X. induction b as [|[c r] b IH]; intros X; simpl; [by apply spec_ret|].
  eapply spec_bind; [apply rest_batch_mutate|]. intros ok. cbv beta.
  eapply spec_bind; [apply IH|]. intros oks. apply spec_pure. intros Hl. apply spec_ret.
  intros w Hw. simpl. split; [congruence|]. eapply restful_weaken; [exact Hw|].
  unfold prepared_ids. simpl. destruct (prepared r); simpl; intros j;
    rewrite ?elem_of_cons, ?elem_of_app, ?elem_of_cons; tauto.
Qed.

Lemma rest_batch_publish c r ok X :
  spec (resting_except (if prepared r then candidate_hook_id c :: X else X))
    (batch_publish env c r ok) (fun _ => resting_except X) anywhere.
Proof.
  unfold batch_publish. destruct (prepared r); simpl; [|by apply spec_ret].
  destruct (bool_decide _); [apply rest_finish_detach|]. destruct ok; simpl.
  - apply rest_finish_reattach.
  - eapply spec_bind; [apply restful_reset_retry|]. intros []. by apply rest_enter.
Qed.

Lemma rest_publish_all b oks X :
  length oks = length b ->
  spec (resting_except (prepared_ids b ++ X)) (publish_all env b oks)
    (fun _ => resting_except X) anywhere.
Proof.
  revert oks X. induction b as [|[c r] b IH]; intros [|ok oks] X Hl; try done; simpl.
  - by apply spec_ret.
  - apply (spec_bind _ _ _ (fun _ => resting_except (prepared_ids b ++ X)));
      [|intros []; apply IH; simpl in Hl; lia].
    eapply spec_conseq; [apply (rest_batch_publish c r ok (prepared_ids b ++ X))| |done..]. intros w Hw.
    eapply restful_weaken; [exact Hw|]. unfold prepared_ids. simpl.
    destruct (prepared r); simpl; intros j;
    rewrite ?elem_of_cons, ?elem_of_app, ?elem_of_cons; tauto.
Qed.

Definition stable_candidates (cs : list PeakGeneralBatchCandidate) : Prop :=
  Forall (fun c => transient (candidate_stable_state c) = false) cs.

Lemma restful_fail_all b : stable_candidates b.*1 -> restful (fail_all env b).
Proof.
  induction b as [|[c r] b IH]; intros Hs; simpl; [apply restful_ret|].
  apply Forall_cons in Hs as [Hc Hs]. apply restful_bind; [|intros; by apply IH].
  unfold batch_failure. destruct (prepared r); [apply restful_ret|].
  apply restful_bind; [by apply restful_handle_prepare_failure|]. intros. apply restful_ret.
Qed.

Lemma batch_candidate_stable now i h c :
  batch_candidate now i h = Some c -> transient (candidate_stable_state c) = false.
Proof. unfold batch_candidate. repeat branch; intros; by simplify_eq. Qed.

Lemma collect_stable n now start total offset room X :
  spec (resting_except X) (collect_from n now start total offset room)
    (fun cs w => stable_candidates cs /\ resting_except X w) anywhere.
Proof.
  revert offset room. induction n as [|n IH]; intros offset room; simpl.
  { apply spec_ret. intros w Hw. split; [constructor|done]. }
  destruct (_ && _).
  2: { apply spec_ret. intros w Hw. split; [constructor|done]. }
  eapply spec_bind; [apply restful_gets|]. intros entry. cbv beta.
  destruct (entry ≫= _) as [c|] eqn:E; [|apply IH].
  eapply spec_bind; [apply restful_update; intros h; by branch|]. intros [].
  eapply spec_bind; [apply IH|]. intros cs. apply spec_pure. intros Hcs. apply spec_ret.
  intros w Hw. split; [|done]. constructor; [|done].
  apply bind_Some in E as (h & _ & E). by eapply batch_candidate_stable.
Qed.

Lemma collect_batch_stable now m X :
  spec (resting_except X) (collect_batch now m)
    (fun cs w => stable_candidates cs /\ resting_except X w) anywhere.
Proof.
  unfold collect_batch. eapply spec_bind; [apply restful_gets|]. intros total. cbv beta.
  eapply spec_bind; [apply restful_gets|]. intros cursor. cbv beta.
  eapply spec_bind; [apply collect_stable|]. intros cs. apply spec_pure. intros Hcs.
  destruct (last cs); [by intros w Hw|by apply spec_ret].
Qed.
End Quiescence.

Section QuiescentRuns.
Context (env : environment) `{!BatchPreparation env}.

Lemma prepared_ids_none b : countb prepared b.*2 = 0%nat -> prepared_ids b = [].
Proof.
  induction b as [|[c r] b IH]; simpl; [done|]. unfold prepared_ids. simpl.
  destruct (prepared r); simpl; [done|]. exact IH.
Qed.

Lemma rest_process_pending_batch :
  spec (resting_except []) (process_pending_batch env) (fun _ => resting_except []) anywhere.
Proof.
  unfold process_pending_batch, peak_second. eapply spec_bind; [apply restful_ask|]. intros now.
  eapply spec_bind; [apply collect_batch_stable|]. intros candidates.
  apply spec_pure. intros Hstable. destruct candidates as [|c0 cs]; [apply restful_ret|].
  set (candidates := c0 :: cs) in *. set (ids := map candidate_hook_id candidates).
  eapply spec_bind; [apply restful_allocate_batch_id|]. intros _id. cbv beta.
  eapply spec_bind; [apply restful_emit|]. intros [].
  eapply (spec_bind _ _ _ (fun r w => (length r.1 = length ids /\ r.2 = countb prepared r.1) /\
                                      resting_except [] w)).
  { intros w Hw. unfold ask. simpl. split; [|done].
    split; [apply batch_results_length|apply batch_prepared_count]. }
  intros [results n]. simpl. apply spec_pure. intros [Hlen ->].
  eapply spec_bind; [apply restful_emit|]. intros [].
  assert (length results = length candidates) as Hlen'
    by (rewrite Hlen; unfold ids; by rewrite length_map).
  assert ((zip candidates results).*2 = results) as Hz by (apply snd_zip; lia).
  assert ((zip candidates results).*1 = candidates) as Hz1 by (apply fst_zip; lia).
  eapply spec_bind; [apply (rest_mutate_all env (zip candidates results) [])|]. intros oks.
  apply spec_pure. intros Hoks.
  eapply (spec_bind _ _ _ (fun _ => resting_except [])).
  { destruct (Nat.ltb_spec 0 (countb prepared results)).
    - eapply spec_bind; [apply restful_finish|]. intros []. by apply rest_publish_all.
    - rewrite prepared_ids_none by (rewrite Hz; lia). apply restful_emit. }
  intros []. apply (spec_bind _ _ _ (fun _ => resting_except []));
    [|intros []; apply restful_ret].
  apply restful_fail_all. change (stable_candidates (zip candidates results).*1).
  by rewrite Hz1.
Qed.

Lemma rest_process_pending_hook now i :
  spec (resting_except []) (process_pending_hook env now i) (fun _ => resting_except []) anywhere.
Proof.
  intros w Hw. unfold process_pending_hook, bind at 1, get_hook, gets.
  destruct (hooks w !! i) as [h|] eqn:Hi; [|done].
  destruct (_ || _) eqn:Eg; [done|]. breflect.
  unfold bind, ask. destruct (env_snapshot_threads env (ticks w)) as [snapshot complete].
  set (w1 := mkWorld _ _ _ _ _ _ _). set (ts := map _ snapshot).
  assert (hooks w1 !! i = Some h) as Hi1 by done.
  assert (forall (m : M bool) R, spec (one i (hooks w) h) m
    (fun b v => exists h', R b h' /\ one i (hooks w) h' v) anywhere ->
    (forall b h', R b h' -> transient (state h') = false) ->
    match m w1 with Done _ v => resting_except [] v | Exited _ => True end) as Hone.
  { intros m R Hm HR. specialize (Hm w1 (one_intro _ w1 _ Hi1)).
    destruct (m w1) as [b v|]; [|done]. destruct Hm as (h' & Hr & [Hlt Hv]).
    intros j hj Hj Ht. rewrite Hv in Hj. apply lookup_insert_cases in Hj as [(-> & -> & _)|[_ Hj]].
    - rewrite (HR _ _ Hr) in Ht. done.
    - by apply (Hw j hj). }
  assert (forall st h', transient st = false -> is_requested (state h) = true ->
    retried_or_settled st h h' -> transient (state h') = false) as Hrs.
  { intros st h' Hst Hreq [(t & status & _ & ->)|(-> & _)]; [|done].
    unfold retried. destruct (_ <? _); simpl; destruct (state h); done. }
  destruct (hook_published h) eqn:Hpub.
  - destruct (bool_decide (state h = PEAK_HOOK_DETACH_REQUESTED)) eqn:Ed.
    + apply bool_decide_eq_true in Ed. eapply Hone; [by apply one_detach|].
      intros b h' [(_ & hd & (-> & _) & _)|(_ & Hr)]; [done|].
      by apply (Hrs PEAK_HOOK_ATTACHED).
    + eapply Hone; [apply one_reattach; [done|]|].
      { apply bool_decide_eq_false in Ed. unfold is_requested in H.
        destruct (state h); done. }
      intros b h' [(_ & -> & _)|(_ & Hr)]; [done|]. by apply (Hrs PEAK_HOOK_DETACHED).
  - destruct (bool_decide _);
      unfold detach_if_requested, reattach_if_requested, bind, gets, hook_is_published;
      rewrite Hi1, Hpub; exact Hw.
Qed.

Lemma rest_process_pending :
  spec (resting_except []) (process_pending env) (fun _ => resting_except []) anywhere.
Proof.
  unfold process_pending, peak_second. eapply spec_bind; [apply restful_ask|]. intros now.
  eapply spec_bind; [apply restful_gets|]. intros finalizing.
  destruct finalizing; [apply restful_ret|].
  eapply (spec_bind _ _ _ (fun _ => resting_except [])).
  { unfold publish_detach_count_requests. eapply spec_bind; [apply restful_gets|]. intros n.
    generalize (seq 0 n). intros ids. induction ids as [|i ids IH]; simpl; [apply restful_ret|].
    apply (spec_bind _ _ _ (fun _ => resting_except [])); [|intros []; exact IH].
    unfold publish_detach_count_request, get_hook, peak_second.
    match goal with |- spec _ ?m _ _ => assert (restful m) as Hr end; [|apply Hr].
    pose proof restful_request_detach. restful. }
  intros []. destruct (env_strict_batch_supported env); [apply rest_process_pending_batch|].
  eapply spec_bind; [apply restful_gets|]. intros n. generalize (seq 0 n). intros ids.
  induction ids as [|i ids IH]; simpl; [apply restful_ret|].
  eapply spec_bind; [apply rest_process_pending_hook|]. intros did.
  eapply spec_bind; [apply IH|]. intros rest. apply restful_ret.
Qed.

Definition is_shutdown (op : lifecycle_op) : bool :=
  match op with OpShutdown _ _ _ => true | _ => false end.

Lemma rest_run_op op :
  is_shutdown op = false ->
  spec (resting_except []) (run_op env op) (fun _ => resting_except []) anywhere.
Proof.
  intros Hop. destruct op as [i|i|i| |i ts c|i c|i c|]; try done; simpl.
  - unfold request_detach, request_detach_unlocked, wake_if, controller_wake.
    match goal with |- spec _ ?m _ _ => assert (restful m) as Hr end; [|apply Hr].
    pose proof restful_request_detach. restful.
  - eapply spec_bind; [apply restful_request_reattach|]. intros. apply restful_ret.
  - by apply restful_enter.
  - eapply spec_bind; [apply rest_process_pending|]. intros. apply restful_ret.
  - by apply restful_update.
  - by apply restful_update.
  - by intros w Hw.
Qed.

Lemma rest_run_ops ops :
  forallb (fun op => negb (is_shutdown op)) ops = true ->
  spec (resting_except []) (run_ops env ops) (fun _ => resting_except []) anywhere.
Proof.
  induction ops as [|op ops IH]; simpl; intros Hops; [apply restful_ret|]. breflect.
  eapply spec_bind; [by apply rest_run_op|]. intros []. by apply IH.
Qed.
End QuiescentRuns.

(** outside shutdown no operation leaves a hook in a transient state.  From
    freshly allocated tables, after any sequence of requests, activations,
    callbacks and controller passes, batched or not, with any answers of the
    environment that respect the batch contract, every hook is in a state
    other than DETACHING and REATTACHING. *)
Theorem no_transient_state_at_rest env `{!BatchPreparation env} calloc targets s w ops w' :
  attach_tables calloc targets s = Some w ->
  forallb (fun op => negb (is_shutdown op)) ops = true ->
  run_ops env ops w = Done tt w' ->
  forall i h, hooks w' !! i = Some h ->
  state h <> PEAK_HOOK_DETACHING /\ state h <> PEAK_HOOK_REATTACHING.
Proof.
  intros Ha Hops Hr i h Hi.
  assert (resting_except [] w) as Hw.
  { unfold attach_tables in Ha. destruct (reserve _ _ _) as [r s1]. destruct (reserved r); [|done].
    injection Ha as <-. intros j hj Hj Ht. simpl in Hj.
    apply list_lookup_fmap_Some in Hj as (t & -> & _). done. }
  pose proof (rest_run_ops env ops Hops w Hw) as H. rewrite Hr in H.
  specialize (H i h Hi). split; intros E; rewrite E in H; specialize (H eq_refl);
    by apply not_elem_of_nil in H.
Qed.

Lemma no_transient_state_at_rest_witness :
  exists w', run_ops demo_env demo_ops demo_world = Done tt w' /\
  forall i h, hooks w' !! i = Some h ->
  state h <> PEAK_HOOK_DETACHING /\ state h <> PEAK_HOOK_REATTACHING.
Proof.
  eexists. split; [vm_compute; reflexivity|]. intros i h Hi.
  eapply (no_transient_state_at_rest demo_env (fun _ => true) [(4096, 8192); (4112, 8256)]
    initial_status demo_world demo_ops); [reflexivity|reflexivity|vm_compute; reflexivity|exact Hi].
Defined.

(** ** Batch selection *)

Definition candidate_at (now : double) (hs : list hook) (i : nat)
    : option PeakGeneralBatchCandidate :=
  h ← hs !! i; batch_candidate now i h.

(** The indices of the table in the order of the scan. *)
Definition scan_order (start total : nat) (offset count : nat) : list nat :=
  map (fun k => ((start + k) mod total)%nat) (seq offset count).

Lemma candidate_at_mark now i (hs : list hook) j :
  candidate_at now (alter (fun h =>
    if dgt (pending_observed_time h) d0 then h else set_pending_observed_time now h) i hs) j =
  candidate_at now hs j.
Proof.
  unfold candidate_at. destruct (decide (i = j)) as [->|Hne].
  - rewrite list_lookup_alter_eq. destruct (hs !! j) as [h|]; simpl; [|done]. by branch.
  - by rewrite list_lookup_alter_ne.
Qed.

Lemma collect_from_eq remaining now start total offset room w :
  (offset + remaining)%nat = total ->
  exists w', collect_from remaining now start total offset room w =
    Done (take room (omap (candidate_at now (hooks w)) (scan_order start total offset remaining))) w' /\
    batch_cursor w' = batch_cursor w /\ length (hooks w') = length (hooks w).
Proof.
  revert offset room w. induction remaining as [|remaining IH]; intros offset room w Ht; simpl.
  { eexists. by rewrite take_nil. }
  rewrite (proj2 (Nat.ltb_lt offset total)) by lia. simpl.
  destruct (Nat.ltb_spec 0 room) as [Hroom|Hroom].
  2: { assert (room = 0%nat) as -> by lia. eexists. by rewrite take_0. }
  unfold bind, get_hook, gets. fold (candidate_at now (hooks w) ((start + offset) mod total)%nat).
  destruct (candidate_at now (hooks w) ((start + offset) mod total)%nat) as [c|] eqn:Ec.
  - unfold mark_pending_started, update_hook.
    set (w1 := with_hooks _ w).
    destruct (IH (S offset) (pred room) w1) as (w' & -> & Hcur & Hlen); [lia|]. simpl.
    eexists. split_and!; [|by rewrite Hcur|by rewrite Hlen; apply length_alter].
    destruct room as [|room]; [lia|]. simpl. do 3 f_equal.
    apply list_omap_ext, Forall_Forall2_diag, Forall_forall. intros j _. unfold w1. simpl.
    apply candidate_at_mark.
  - apply IH. lia.
Qed.

Lemma scan_order_nodup start total : NoDup (scan_order start total 0 total).
Proof.
  unfold scan_order. apply NoDup_fmap_2_strong; [|apply NoDup_seq].
  intros x y Hx Hy E. rewrite elem_of_seq in Hx, Hy. by apply (mod_add_inj start total) in E; lia.
Qed.

Lemma candidate_at_id now hs i c : candidate_at now hs i = Some c -> candidate_hook_id c = i.
Proof.
  unfold candidate_at. destruct (hs !! i) as [h|]; simpl; [|done].
  unfold batch_candidate. repeat branch; intros; by simplify_eq.
Qed.

Lemma omap_candidates_nodup now hs l :
  NoDup l -> NoDup (map candidate_hook_id (omap (candidate_at now hs) l)).
Proof.
  induction 1 as [|i l Hi Hl IH]; simpl; [constructor|].
  destruct (candidate_at now hs i) as [c|] eqn:Ec; simpl; [|done]. constructor; [|done].
  rewrite (candidate_at_id _ _ _ _ Ec). intros Hin.
  apply list_elem_of_fmap in Hin as (c' & -> & Hc').
  apply list_elem_of_omap in Hc' as (j & Hj & Ej).
  rewrite (candidate_at_id _ _ _ _ Ej) in Hi. done.
Qed.

(** a batch is exactly the first [max] eligible hooks in cyclic order from
    the cursor: requested, past their retry time, published and, for a
    reattach, not waiting for an unflushed Gum detach.  It never holds more
    than [max] candidates nor the same hook twice, it holds every eligible
    hook when there is room, and the cursor moves just past the last hook
    taken, or stays when none was eligible. *)
Theorem batch_selection_exact now max w :
  let total := length (hooks w) in
  let start := if (0 <? total)%nat then (batch_cursor w mod total)%nat else 0%nat in
  let eligible := omap (candidate_at now (hooks w)) (scan_order start total 0 total) in
  exists w', collect_batch now max w = Done (take max eligible) w' /\
    (length (take max eligible) <= max)%nat /\
    NoDup (map candidate_hook_id (take max eligible)) /\
    ((length (take max eligible) < max)%nat -> take max eligible = eligible) /\
    batch_cursor w' =
      match last (take max eligible) with
      | Some c => ((candidate_hook_id c + 1) mod total)%nat
      | None => batch_cursor w
      end.
Proof.
  intros total start eligible.
  destruct (collect_from_eq total now start total 0 max w) as (w1 & Ec & Hcur & Hlen); [done|].
  fold eligible in Ec. set (cs := take max eligible) in *.
  assert (collect_batch now max w =
    match last cs with
    | Some c => Done cs (with_batch_cursor ((candidate_hook_id c + 1) mod total)%nat w1)
    | None => Done cs w1
    end) as ->.
  { unfold collect_batch, bind, gets. fold total start. rewrite Ec. by destruct (last cs). }
  assert (length cs <= max)%nat as Hmax by (unfold cs; rewrite length_take; lia).
  assert (NoDup (map candidate_hook_id cs)) as Hnd.
  { pose proof (omap_candidates_nodup now (hooks w) _ (scan_order_nodup start total)) as Hn.
    fold eligible in Hn. rewrite <- (take_drop max eligible), map_app in Hn.
    by apply NoDup_app in Hn as [Hn _]. }
  assert (length cs < max -> cs = eligible)%nat as Hall.
  { unfold cs. rewrite length_take. intros Hlt. apply take_ge. lia. }
  destruct (last cs); eexists; split_and!; done.
Qed.

(** once MPI finalisation is requested the controller changes nothing: a
    detach request is refused with the world untouched, a controller pass does
    no work and produces no event, and a reattach request is refused leaving
    every hook's state, the published cells and the trace as they were. *)
Theorem finalizing_refuses env w i :
  mpi_finalize_requested w = true ->
  request_detach env i w = Done false w /\
  (exists w', process_pending env w = Done false w' /\ hooks w' = hooks w /\
     status w' = status w /\ events w' = events w) /\
  (exists w', request_reattach env i w = Done false w' /\
     map state (hooks w') = map state (hooks w) /\ status w' = status w /\ events w' = events w).
Proof.
  intros Hm. split_and!.
  - unfold request_detach, request_detach_unlocked, request_detach_with_context, wake_if, bind, gets.
    by rewrite Hm.
  - unfold process_pending, peak_second, bind, ask, gets. simpl. rewrite Hm. eauto.
  - unfold request_reattach, request_reattach_unlocked, request_reattach_with_context, wake_if,
      refresh_hook_sample_cache, try_hook_sample_cache, cache_hook_sample, get_hook, bind, gets,
      ask, ret, update_hook.
    assert (forall f, (forall h, state (f h) = state h) ->
      map state (alter f i (hooks w)) = map state (hooks w)) as Halter.
    { intros f Hf. apply list_eq. intros j. rewrite !list_lookup_fmap.
      destruct (decide (i = j)) as [->|Hne]; [|by rewrite list_lookup_alter_ne].
      rewrite list_lookup_alter_eq. destruct (hooks w !! j); simpl; [|done]. by rewrite Hf. }
    destruct (hooks w !! i) as [h|] eqn:Hi; simpl; [|rewrite Hm; eauto].
    destruct (state h); rewrite ?Hi; simpl; rewrite ?Hm; eauto.
    destruct (_ || _); simpl; rewrite ?Hi; simpl.
    + destruct (cached_sample_valid h); simpl; rewrite ?Hm; eauto.
    + rewrite Hm. eexists. split; [done|]. simpl. split_and!; try done. by apply Halter.
Qed.

Lemma finalizing_refuses_witness :
  let w := mkWorld (hooks demo_requested) (status demo_requested) true 0 1 0 [] in
  request_detach demo_env 1 w = Done false w.
Proof.
  intros w. exact (proj1 (finalizing_refuses demo_env w 1 eq_refl)).
Defined.
