(* ===== verification/Heartbeat.v ===== *)
(** * The heartbeat monitor

    Models [peak_heartbeat_monitor] of [src/general_listener.c] and its
    helpers: the sampling of every hook, the per-target and the global detach
    decision, the budgeted reattach decision and the adaptive sleep.  The
    monitor's per-hook arrays are one list of [sample] records; the locked
    sections are atomic, and what other threads do between them is an
    arbitrary list of lifecycle operations per gap ([hb_other]).  The
    accounting of the detach controller, the thread CPU clock and the C
    library's [qsort] are parameters. *)

From Stdlib Require Import SpecFloat.
From S2P Require Import Prelude HookControl HookStatus Doubles HookModel HookPolicy HookLifecycle LifecycleProofs.

(** ** Data *)

Definition PEAK_HEARTBEAT_MIN_OBSERVATION_US : Z := 10000.
Definition PEAK_GLOBAL_DETACH_MIN_CALLS : Z := 2.

Record PeakHeartbeatArgs := mkHeartbeatArgs {
  heartbeat_time : Z;
  check_interval : Z;
  hb_min_us : Z;
  hb_max_us : Z;
  hb_k_err : double;
  hb_k_rate : double;
  hb_ema_a : double
}.

Record OverheadEntry := mkEntry {
  index : nat;
  entry_ratio : double;
  entry_rate : double;
  entry_lifetime : double
}.

(** The comparators of the two [qsort] calls. *)
Definition compare_ratio_de (x y : OverheadEntry) : Z :=
  if dlt (entry_ratio x) (entry_ratio y) then 1
  else if dgt (entry_ratio x) (entry_ratio y) then -1
  else if dlt (entry_rate x) (entry_rate y) then 1
  else if dgt (entry_rate x) (entry_rate y) then -1
  else if (index x <? index y)%nat then -1
  else if (index y <? index x)%nat then 1 else 0.

Definition compare_rate_inc (x y : OverheadEntry) : Z :=
  if dlt (entry_rate x) (entry_rate y) then -1
  else if dgt (entry_rate x) (entry_rate y) then 1
  else if dlt (entry_ratio x) (entry_ratio y) then -1
  else if dgt (entry_ratio x) (entry_ratio y) then 1
  else if (index x <? index y)%nat then -1
  else if (index y <? index x)%nat then 1 else 0.

Definition clipd (x lo hi : double) : double :=
  if dlt x lo then lo else if dgt x hi then hi else x.

Record PeakDetachAccountingSnapshot := mkAccounting {
  completed_stop_window_count : Z;
  failed_stop_window_count : Z;
  stop_window_wall_ns : Z
}.

Definition zero_accounting_snapshot : PeakDetachAccountingSnapshot := mkAccounting 0 0 0.

Definition accounting_snapshot_is_finite (a : PeakDetachAccountingSnapshot) : bool :=
  negb (completed_stop_window_count a =? UINT64_MAX) &&
  negb (failed_stop_window_count a =? UINT64_MAX) &&
  negb (stop_window_wall_ns a =? UINT64_MAX).

Definition count_since_baseline (count baseline_count : Z) : Z :=
  if baseline_count =? 0 then count
  else if baseline_count <? count then count - baseline_count else 0.

(** The configuration and the answers of what the monitor calls.  The ratios
    and factors are C [float]s. *)
Record heartbeat_env := mkHeartbeatEnv {
  hb_args : PeakHeartbeatArgs;
  local_mpi_ranks : Z;
  target_profile_ratio : float;
  global_target_ratio : float;
  peak_global_detach_factor : float;
  peak_global_reattach_factor : float;
  enable_per_target_heartbeat : bool;
  enable_global_heartbeat : bool;
  enable_reattach : bool;
  control_baseline_valid : bool;
  control_baseline_ns : Z;
  hb_accounting : nat -> option PeakDetachAccountingSnapshot;
  hb_last_stop_window_us : nat -> double;
  hb_thread_cpu : nat -> option (Z * Z);
  hb_qsort : (OverheadEntry -> OverheadEntry -> Z) -> list OverheadEntry -> list OverheadEntry;
  hb_other : nat -> list lifecycle_op
}.

(** One index of the monitor's arrays. *)
Record sample := mkSample {
  calls_snapshot : Z;
  profile_seconds_snapshot : double;
  lifetime_snapshot : double;
  ratio_snapshot : double;
  rate_snapshot : double;
  previous_calls : Z;
  previous_time : double;
  recent_baseline_ready : bool
}.

Record monitor := mkMonitor {
  samples : list sample;
  heartbeat_counter : Z;
  prev_global_overhead : double;
  prev_global_time : double;
  ema_global_rate : double;
  management_cpu_ns : Z
}.

Definition empty_sample (time : double) (ready : bool) : sample := mkSample 0 d0 d0 d0 d0 0 time ready.
Definition no_sample : sample := empty_sample d0 false.

(** The sums of the sampling pass. *)
Record sums := mkSums {
  profile_spent_seconds : double;
  attached_recent_sum : double;
  attached_lifetime_sum : double
}.

Definition dmax (a b : double) : double := if dgt a b then a else b.
Definition at_least_zero (x : double) : double := if dlt x d0 then d0 else x.
Definition d1e6 : double := of_Z 1000000.
Definition d1e9 : double := of_Z 1000000000.

(** ** Management CPU time *)

Definition timespec_to_ns_saturating (value : Z * Z) : Z :=
  let '(tv_sec, tv_nsec) := value in
  if (tv_sec <? 0) || (tv_nsec <? 0) then 0
  else if UINT64_MAX / 1000000000 <? tv_sec then UINT64_MAX
  else
    let seconds := tv_sec * 1000000000 in
    if UINT64_MAX - seconds <? tv_nsec then UINT64_MAX else seconds + tv_nsec.

Definition monotonic_delta_ns (current previous : Z) : Z :=
  if previous <=? current then current - previous else 0.

(** The compare-exchange loop as one atomic addition. *)
Definition management_cpu_add_saturating (observed delta_ns : Z) : Z :=
  if negb (delta_ns =? 0) && negb (observed =? UINT64_MAX) then
    if UINT64_MAX - observed <? delta_ns then UINT64_MAX else observed + delta_ns
  else observed.

Section Monitor.
Context (env : environment) (hb : heartbeat_env).

Definition thread_cpu_ns : M (option Z) :=
  let* value := ask (hb_thread_cpu hb) in ret (timespec_to_ns_saturating <$> value).

(** [previous] is the pair of output parameters: the reading, when valid. *)
Definition management_cpu_checkpoint (total : Z) (previous : option Z) : M (Z * option Z) :=
  let* current := thread_cpu_ns in
  match current with
  | None => ret (total, previous)
  | Some current_ns =>
      ret (match previous with
           | Some previous_ns =>
               management_cpu_add_saturating total (monotonic_delta_ns current_ns previous_ns)
           | None => total
           end, Some current_ns)
  end.

(** ** Accounting *)

Definition accounting_snapshot : M (bool * PeakDetachAccountingSnapshot) :=
  let* candidate := ask (hb_accounting hb) in
  match candidate with
  | Some a => if accounting_snapshot_is_finite a then ret (true, a)
              else ret (false, zero_accounting_snapshot)
  | None => ret (false, zero_accounting_snapshot)
  end.

Definition runtime_accounting_snapshot : M (bool * PeakDetachAccountingSnapshot) :=
  let* (current_valid, a) := accounting_snapshot in
  if negb current_valid || negb (control_baseline_valid hb)
  then ret (false, zero_accounting_snapshot) else ret (true, a).

Definition control_wall_ns_since_heartbeat (a : PeakDetachAccountingSnapshot) : Z :=
  count_since_baseline (stop_window_wall_ns a) (control_baseline_ns hb).

(** ** Sampling *)

Definition sample_can_reuse_cache (st : PeakHookState) : bool :=
  match st with
  | PEAK_HOOK_DETACHED | PEAK_HOOK_REATTACH_REQUESTED => true
  | _ => false
  end.

Definition attached_for_policy (h : hook) : bool := bool_decide (state h = PEAK_HOOK_ATTACHED).

(** The new sample of a hook whose call count and profile time are known. *)
Definition take_sample (now total_execution_time : double) (reused : bool) (s : sample)
    (total_num_calls : Z) (hook_profile_spent_seconds : double) : sample :=
  let ratio := ddiv hook_profile_spent_seconds total_execution_time in
  let recent_rate :=
    if negb reused && recent_baseline_ready s then
      let dt := dsub now (previous_time s) in
      let dt := if dle dt (dlit 1 12) then dlit 1 12 else dt in
      let recent_calls :=
        if previous_calls s <=? total_num_calls then total_num_calls - previous_calls s
        else total_num_calls in
      ddiv (dmul (of_Z recent_calls) (env_general_overhead env)) dt
    else d0 in
  mkSample total_num_calls hook_profile_spent_seconds ratio ratio recent_rate
    total_num_calls now true.

Definition sample_hook (now total_execution_time : double) (i : nat) (s : sample) (acc : sums)
    : M (sample * sums) :=
  let* entry := get_hook i in
  match entry with
  | Some h =>
      if negb (hook_published h) then
        update_hook i (set_cached_sample_valid false) ;;
        ret (empty_sample now false, acc)
      else
        let reuse_cached_sample := sample_can_reuse_cache (state h) in
        let* cached := if reuse_cached_sample then try_hook_sample_cache i else ret None in
        let* have_sample :=
          match cached with
          | Some c => ret (Some c)
          | None => refresh_hook_sample_cache env i
          end in
        match have_sample with
        | None => ret (empty_sample now false, acc)
        | Some (calls, profile) =>
            let s := take_sample now total_execution_time reuse_cached_sample s calls profile in
            let acc :=
              mkSums (dadd (profile_spent_seconds acc) profile)
                (if attached_for_policy h then dadd (attached_recent_sum acc) (rate_snapshot s)
                 else attached_recent_sum acc)
                (if attached_for_policy h then dadd (attached_lifetime_sum acc) (ratio_snapshot s)
                 else attached_lifetime_sum acc) in
            ret (s, acc)
        end
  | None => ret (empty_sample now false, acc)
  end.

Fixpoint sample_hooks (now total_execution_time : double) (i : nat) (ss : list sample) (acc : sums)
    : M (list sample * sums) :=
  match ss with
  | [] => ret ([], acc)
  | s :: ss =>
      let* (s, acc) := sample_hook now total_execution_time i s acc in
      let* (ss, acc) := sample_hooks now total_execution_time (S i) ss acc in
      ret (s :: ss, acc)
  end.

Definition sample_of (ss : list sample) (i : nat) : sample := default no_sample (ss !! i).

(** ** Detach decisions *)

(** The two sums projected for the attached hooks, [reduced_*] in the global
    section. *)
Record projection := mkProjection { recent_sum : double; lifetime_sum : double }.

Definition pressure (p : projection) : double := dmax (recent_sum p) (lifetime_sum p).

Definition project (p : projection) (rate lifetime : double) : projection :=
  mkProjection (at_least_zero (dsub (recent_sum p) rate))
    (at_least_zero (dsub (lifetime_sum p) lifetime)).

Definition detach_context (source : PeakHookRequestSource) (s : sample)
    (profile_global_overhead total_execution_time : double) : request_context :=
  mkRequest source (calls_snapshot s) (lifetime_snapshot s) profile_global_overhead
    total_execution_time (rate_snapshot s).

Definition published_attached (i : nat) (w : world) : bool :=
  match hooks w !! i with
  | Some h => hook_published h && attached_for_policy h
  | None => false
  end.

(** The loop body of the per-target section; returns whether a request was
    accepted. *)
Definition per_target_detach_hook (profile_global_overhead total_execution_time : double)
    (i : nat) (s : sample) (p : projection) : M (bool * projection) :=
  let* attached := gets (published_attached i) in
  if attached && (PEAK_GLOBAL_DETACH_MIN_CALLS <=? calls_snapshot s) &&
     dgt (ratio_snapshot s) (of_float (target_profile_ratio hb))
  then
    let* accepted := request_detach_with_context env i
      (detach_context PEAK_HOOK_REQUEST_SOURCE_PER_TARGET_HEARTBEAT s
         profile_global_overhead total_execution_time) in
    if accepted : bool then ret (true, project p (rate_snapshot s) (ratio_snapshot s))
    else ret (false, p)
  else ret (false, p).

Fixpoint per_target_detach (profile_global_overhead total_execution_time : double)
    (i : nat) (ss : list sample) (p : projection) : M (bool * projection) :=
  match ss with
  | [] => ret (false, p)
  | s :: ss =>
      let* (accepted, p) := per_target_detach_hook profile_global_overhead total_execution_time i s p in
      let* (rest, p) := per_target_detach profile_global_overhead total_execution_time (S i) ss p in
      ret (accepted || rest, p)
  end.

(** One candidate of the global section, [None] for [continue]. *)
Definition global_candidate (i : nat) (s : sample) (w : world) : option OverheadEntry :=
  if negb (published_attached i w) || (calls_snapshot s <? PEAK_GLOBAL_DETACH_MIN_CALLS) then None
  else
    let contribution := dmax (rate_snapshot s) (ratio_snapshot s) in
    if dle contribution d0 then None
    else Some (mkEntry i contribution (rate_snapshot s) (ratio_snapshot s)).

Fixpoint global_candidates (i : nat) (ss : list sample) (w : world) : list OverheadEntry :=
  match ss with
  | [] => []
  | s :: ss =>
      match global_candidate i s w with
      | Some e => e :: global_candidates (S i) ss w
      | None => global_candidates (S i) ss w
      end
  end.

Definition sort_entries (compare : OverheadEntry -> OverheadEntry -> Z) (l : list OverheadEntry)
    : list OverheadEntry :=
  if (1 <? length l)%nat then hb_qsort hb compare l else l.

Fixpoint global_detach_loop (profile_global_overhead total_execution_time : double)
    (ss : list sample) (entries : list OverheadEntry) (p : projection)
    (reduced_global_overhead : double) : M (bool * projection) :=
  match entries with
  | [] => ret (false, p)
  | e :: entries =>
      let again := global_detach_loop profile_global_overhead total_execution_time ss entries in
      if dle reduced_global_overhead (of_float (global_target_ratio hb)) then ret (false, p)
      else if dle (entry_ratio e) d0 then ret (false, p)
      else
        let* attached := gets (published_attached (index e)) in
        if negb attached then again p reduced_global_overhead
        else
          let* accepted := request_detach_with_context env (index e)
            (detach_context PEAK_HOOK_REQUEST_SOURCE_GLOBAL_HEARTBEAT (sample_of ss (index e))
               profile_global_overhead total_execution_time) in
          if accepted : bool then
            let p := project p (entry_rate e) (entry_lifetime e) in
            let* (_, p) := again p (pressure p) in ret (true, p)
          else again p reduced_global_overhead
  end.

Definition global_detach (profile_global_overhead total_execution_time : double)
    (ss : list sample) (p : projection) : M (bool * projection) :=
  let projected_global_overhead := pressure p in
  if dgt projected_global_overhead
       (of_float (fmul (global_target_ratio hb) (peak_global_detach_factor hb)))
  then
    let* candidates := gets (global_candidates 0 ss) in
    global_detach_loop profile_global_overhead total_execution_time ss
      (sort_entries compare_ratio_de candidates) p projected_global_overhead
  else ret (false, p).

(** ** Reattach decision *)

Definition accounting_coherent (before_valid after_valid : bool)
    (before after : PeakDetachAccountingSnapshot) : bool :=
  before_valid && after_valid &&
  (completed_stop_window_count before <? UINT64_MAX - 1) &&
  (failed_stop_window_count before <? UINT64_MAX - 1) &&
  (stop_window_wall_ns before <? UINT64_MAX - 1) &&
  (completed_stop_window_count after <? UINT64_MAX - 1) &&
  (failed_stop_window_count after <? UINT64_MAX - 1) &&
  (stop_window_wall_ns after <? UINT64_MAX - 1) &&
  (completed_stop_window_count before =? completed_stop_window_count after) &&
  (failed_stop_window_count before =? failed_stop_window_count after) &&
  (stop_window_wall_ns before =? stop_window_wall_ns after).

(** The guarded chain of [reattach_budget_ok]: the headroom and the predicted
    stop time of a batch, when every step succeeds. *)
Definition budget_chain (profile_spent control_spent last_stop total_execution_time : double)
    : option (double * double) :=
  let target := of_float (global_target_ratio hb) in
  let factor := of_float (peak_global_reattach_factor hb) in
  let ranks := of_Z (local_mpi_ranks hb) in
  if (enable_per_target_heartbeat hb || enable_global_heartbeat hb) &&
     positive_finite total_execution_time && nonnegative_finite target &&
     nonnegative_finite factor && nonnegative_finite profile_spent &&
     nonnegative_finite control_spent && nonnegative_finite last_stop
  then
    control_risk ← multiply_nonnegative_finite control_spent ranks;
    predicted_batch_stop ← multiply_nonnegative_finite last_stop ranks;
    spent ← add_nonnegative_finite profile_spent control_risk;
    gate ← multiply_nonnegative_finite factor target;
    headroom ← multiply_nonnegative_finite target total_execution_time;
    headroom ← subtract_nonnegative_finite headroom profile_spent;
    headroom ← subtract_nonnegative_finite headroom control_risk;
    let risk_spent_ratio := ddiv spent total_execution_time in
    if nonnegative_finite risk_spent_ratio && dle risk_spent_ratio gate
    then Some (headroom, predicted_batch_stop) else None
  else None.

Definition reattach_budget (profile_spent total_execution_time : double)
    : M (option (double * double)) :=
  let* (before_valid, before) := runtime_accounting_snapshot in
  let* last_stop_us := ask (hb_last_stop_window_us hb) in
  let* (after_valid, after) := runtime_accounting_snapshot in
  ret (if accounting_coherent before_valid after_valid before after
       then budget_chain profile_spent
              (ddiv (of_Z (control_wall_ns_since_heartbeat after)) d1e9)
              (ddiv last_stop_us d1e6) total_execution_time
       else None).

Definition horizon : double := ddiv (of_Z (hb_max_us (hb_args hb))) d1e6.

(** What the scan over the hooks accumulates. *)
Record reattach_scan := mkReattachScan {
  pending_mutation_count : nat;
  projected_pending_reattach_seconds : double;
  scan_budget_ok : bool;
  detached_entries : list OverheadEntry
}.

Definition is_transient (st : PeakHookState) : bool :=
  match st with
  | PEAK_HOOK_DETACH_REQUESTED | PEAK_HOOK_DETACHING
  | PEAK_HOOK_REATTACH_REQUESTED | PEAK_HOOK_REATTACHING => true
  | _ => false
  end.

Definition is_reattaching (st : PeakHookState) : bool :=
  match st with
  | PEAK_HOOK_REATTACH_REQUESTED | PEAK_HOOK_REATTACHING => true
  | _ => false
  end.

(** The time a pending reattach may spend until the next observation. *)
Definition pending_lease (total_execution_time : double) (h : hook) (s : sample) : double :=
  let projected_seconds :=
    projected_detach_profile_seconds (env_general_overhead env)
      (Some (detach_profile_seconds h)) (profile_seconds_snapshot s) in
  let pending_rate :=
    if positive_finite (request_rate (request h)) then request_rate (request h)
    else historical_profile_rate projected_seconds total_execution_time in
  next_observation_lease_seconds pending_rate horizon.

Definition still_detached (h : hook) : bool :=
  detached h && negb (need_detach h) && bool_decide (state h = PEAK_HOOK_DETACHED).

Definition eligible (projected_ratio : double) : bool :=
  (enable_per_target_heartbeat hb && dle projected_ratio (of_float (target_profile_ratio hb)))
  || enable_global_heartbeat hb.

Definition scan_hook (now total_execution_time : double) (w : world) (i : nat) (s : sample)
    (acc : reattach_scan) : reattach_scan :=
  match hooks w !! i with
  | None => acc
  | Some h =>
      if negb (hook_published h) then acc
      else
        let pending := (pending_mutation_count acc + (if is_transient (state h) then 1 else 0))%nat in
        let '(projected, ok) :=
          if is_reattaching (state h) then
            let lease := pending_lease total_execution_time h s in
            if deq lease DBL_MAX then (projected_pending_reattach_seconds acc, false)
            else match add_nonnegative_finite (projected_pending_reattach_seconds acc) lease with
                 | Some sum => (sum, scan_budget_ok acc)
                 | None => (projected_pending_reattach_seconds acc, false)
                 end
          else (projected_pending_reattach_seconds acc, scan_budget_ok acc) in
        let projected_seconds :=
          projected_detach_profile_seconds (env_general_overhead env)
            (Some (detach_profile_seconds h)) (profile_seconds_snapshot s) in
        let projected_ratio := ddiv projected_seconds total_execution_time in
        mkReattachScan pending projected ok
          (if still_detached h && reattach_cooldown_ready env i now w && eligible projected_ratio
           then detached_entries acc ++
                [mkEntry i projected_seconds (last_detach_time h) projected_ratio]
           else detached_entries acc)
  end.

Fixpoint scan_hooks (now total_execution_time : double) (w : world) (i : nat) (ss : list sample)
    (acc : reattach_scan) : reattach_scan :=
  match ss with
  | [] => acc
  | s :: ss => scan_hooks now total_execution_time w (S i) ss
                 (scan_hook now total_execution_time w i s acc)
  end.

(** Batches needed for a number of mutations. *)
Definition batch_windows (count : nat) : nat :=
  ((count + PEAK_GENERAL_CONTROLLER_MAX_BATCH_CANDIDATES - 1) /
   PEAK_GENERAL_CONTROLLER_MAX_BATCH_CANDIDATES)%nat.

(** The cost of admitting one more reattach after [count] mutations. *)
Definition candidate_seconds (predicted_batch_stop : double) (count : nat) (request_rate : double)
    : double :=
  let lease := next_observation_lease_seconds request_rate horizon in
  let extra_stop :=
    default DBL_MAX
      (multiply_nonnegative_finite
         (of_Z (Z.of_nat (batch_windows (S count) - batch_windows count))) predicted_batch_stop) in
  if deq lease DBL_MAX then DBL_MAX
  else default DBL_MAX (add_nonnegative_finite lease extra_stop).

(** The headroom left by admitting one more candidate, [None] to skip it. *)
Definition headroom_after (predicted_batch_stop : double) (count : nat) (request_rate headroom : double)
    : option double :=
  let candidate := candidate_seconds predicted_batch_stop count request_rate in
  if deq candidate DBL_MAX then None else subtract_nonnegative_finite headroom candidate.

Definition still_candidate (now : double) (e : OverheadEntry) (w : world) : bool :=
  match hooks w !! index e with
  | Some h => hook_published h && still_detached h && reattach_cooldown_ready env (index e) now w
              && eligible (entry_lifetime e)
  | None => false
  end.

Definition reattach_source (projected_ratio : double) : PeakHookRequestSource :=
  if enable_per_target_heartbeat hb && dle projected_ratio (of_float (target_profile_ratio hb))
  then PEAK_HOOK_REQUEST_SOURCE_PER_TARGET_HEARTBEAT
  else PEAK_HOOK_REQUEST_SOURCE_GLOBAL_HEARTBEAT.

(** The admission loop; [count] is [pending_mutation_count + admitted_count].
    Returns the admitted hooks in order and the headroom left. *)
Fixpoint reattach_loop (now total_execution_time spent_ratio predicted_batch_stop : double)
    (ss : list sample) (entries : list OverheadEntry) (count : nat) (headroom : double)
    : M (list nat * double) :=
  match entries with
  | [] => ret ([], headroom)
  | e :: entries =>
      let again := reattach_loop now total_execution_time spent_ratio predicted_batch_stop ss entries in
      if negb (dgt headroom d0) then ret ([], headroom)
      else
        let* candidate := gets (still_candidate now e) in
        if negb candidate then again count headroom
        else
          let request_rate := historical_profile_rate (entry_ratio e) total_execution_time in
          match headroom_after predicted_batch_stop count request_rate headroom with
          | None => again count headroom
          | Some remaining =>
              let* accepted := request_reattach_with_context env (index e)
                (mkRequest (reattach_source (entry_lifetime e)) (calls_snapshot (sample_of ss (index e)))
                   (ddiv (entry_ratio e) total_execution_time) spent_ratio total_execution_time
                   request_rate) in
              if negb accepted then again count headroom
              else
                let* (admitted, headroom) := again (S count) remaining in
                ret (index e :: admitted, headroom)
          end
  end.

(** The locked part of the section, with the budget that opened it. *)
Definition reattach_locked (now total_execution_time spent_ratio headroom predicted_batch_stop : double)
    (ss : list sample) : M (list nat * double) :=
  let* scan := gets (fun w => scan_hooks now total_execution_time w 0 ss
                                (mkReattachScan 0 d0 true [])) in
  match
    (if scan_budget_ok scan && negb (deq (projected_pending_reattach_seconds scan) DBL_MAX) then
       headroom ← subtract_nonnegative_finite headroom (projected_pending_reattach_seconds scan);
       pending_stop ← multiply_nonnegative_finite
         (of_Z (Z.of_nat (batch_windows (pending_mutation_count scan)))) predicted_batch_stop;
       headroom ← subtract_nonnegative_finite headroom pending_stop;
       if dgt headroom d0 then Some headroom else None
     else None)
  with
  | None => ret ([], headroom)
  | Some headroom =>
      reattach_loop now total_execution_time spent_ratio predicted_batch_stop ss
        (sort_entries compare_rate_inc (detached_entries scan)) (pending_mutation_count scan) headroom
  end.

(** Returns whether a request was accepted. *)
Definition reattach_section (now total_execution_time spent_ratio profile_spent : double)
    (ss : list sample) : M bool :=
  let* budget := reattach_budget profile_spent total_execution_time in
  match budget with
  | None => ret false
  | Some (headroom, predicted_batch_stop) =>
      let* (admitted, _) :=
        reattach_locked now total_execution_time spent_ratio headroom predicted_batch_stop ss in
      ret (match admitted with [] => false | _ => true end)
  end.

(** ** The sleep *)

Definition min_detach_observation_time : double :=
  ddiv (of_Z (Z.max (Z.max (heartbeat_time (hb_args hb)) (hb_min_us (hb_args hb)))
                PEAK_HEARTBEAT_MIN_OBSERVATION_US)) d1e6.

Definition initial_sleep : double :=
  clipd (of_Z (heartbeat_time (hb_args hb))) (of_Z (hb_min_us (hb_args hb)))
    (of_Z (hb_max_us (hb_args hb))).

(** The smoothed growth rate of the overhead after an iteration. *)
Definition next_ema (now profile_global_overhead : double) (m : monitor) : double :=
  let gdt := dsub now (prev_global_time m) in
  let gdt := if dle gdt (dlit 1 12) then dlit 1 12 else gdt in
  let global_rate := ddiv (dsub profile_global_overhead (prev_global_overhead m)) gdt in
  dadd (dmul (hb_ema_a (hb_args hb)) global_rate)
    (dmul (dsub (of_Z 1) (hb_ema_a (hb_args hb))) (ema_global_rate m)).

Definition overhead_error (profile_global_overhead : double) : double :=
  at_least_zero
    (if dgt (of_float (global_target_ratio hb)) d0
     then dsub (ddiv profile_global_overhead (of_float (global_target_ratio hb))) (of_Z 1)
     else d0).

(** The clipped interval, in microseconds, before rounding. *)
Definition sleep_interval (profile_global_overhead ema : double) : double :=
  let args := hb_args hb in
  let scale :=
    ddiv (of_Z 1)
      (dadd (dadd (of_Z 1) (dmul (hb_k_err args) (overhead_error profile_global_overhead)))
         (dmul (hb_k_rate args) ema)) in
  clipd (dmul (of_Z (heartbeat_time args)) scale) (of_Z (hb_min_us args)) (of_Z (hb_max_us args)).

(** The conversion of a double to an integer type truncates; [None] where C
    leaves it undefined: not a number, or out of the 64-bit range. *)
Definition truncate (x : double) : option Z :=
  match x with
  | S754_zero _ => Some 0
  | S754_finite s m e =>
      let magnitude := Z.shiftl (Zpos m) e in
      if s then if magnitude <=? 2 ^ 63 then Some (- magnitude) else None
      else if magnitude <? 2 ^ 63 then Some magnitude else None
  | _ => None
  end.

(** [(unsigned int)sleep_us]. *)
Definition sleep_us (interval : double) : option Z :=
  z ← truncate (dadd interval (dlit 5 1)); Some (wrap 32 z).

(** ** One iteration *)

(** The arrays follow the hook table, which only grows. *)
Definition grow_samples (now : double) (count : nat) (ss : list sample) : list sample :=
  ss ++ replicate (count - length ss) (empty_sample now false).

Definition others (n : nat) : M unit := run_ops env (hb_other hb n).

(** Returns the monitor's next state and the time to sleep. *)
Definition heartbeat_iteration (gap : nat) (m : monitor) : M (monitor * option Z) :=
  let* cpu := thread_cpu_ns in
  let counter := wrap 32 (heartbeat_counter m + 1) in
  let* now := peak_second env in
  let* count := gets (fun w => length (hooks w)) in
  let ss := grow_samples now count (samples m) in
  let total_execution_time := dsub now (env_main_time env) in
  let total_execution_time :=
    if dle total_execution_time d0 then dlit 1 12 else total_execution_time in
  let ready := dge total_execution_time min_detach_observation_time in
  let* (ss, acc) := sample_hooks now total_execution_time 0 ss (mkSums d0 d0 d0) in
  others gap ;;
  let* (_, accounting) := runtime_accounting_snapshot in
  let control_spent := ddiv (of_Z (control_wall_ns_since_heartbeat accounting)) d1e9 in
  let* (management, cpu) := management_cpu_checkpoint (management_cpu_ns m) cpu in
  let spent_ratio :=
    ddiv (dadd (profile_spent_seconds acc) control_spent) total_execution_time in
  let p := mkProjection (attached_recent_sum acc) (attached_lifetime_sum acc) in
  let profile_global_overhead := pressure p in
  let* (woken1, p) :=
    if ready && enable_per_target_heartbeat hb
    then per_target_detach profile_global_overhead total_execution_time 0 ss p
    else ret (false, p) in
  others (S gap) ;;
  let* (woken2, _) :=
    if ready && enable_global_heartbeat hb
    then global_detach profile_global_overhead total_execution_time ss p
    else ret (false, p) in
  others (S (S gap)) ;;
  let* woken3 :=
    if ready && enable_reattach hb && negb (check_interval (hb_args hb) =? 0) &&
       (counter mod check_interval (hb_args hb) =? 0)
    then reattach_section now total_execution_time spent_ratio (profile_spent_seconds acc) ss
    else ret false in
  (if woken1 || woken2 || woken3 then controller_wake else ret tt) ;;
  let ema := next_ema now profile_global_overhead m in
  let* (management, _) := management_cpu_checkpoint management cpu in
  ret (mkMonitor ss counter profile_global_overhead now ema management,
       sleep_us (sleep_interval profile_global_overhead ema)).

(** [n] iterations of the loop, until [heartbeat_running] is cleared; other
    threads run in the gaps and while the monitor sleeps. *)
Fixpoint heartbeat_loop (n gap : nat) (m : monitor) : M monitor :=
  match n with
  | O => ret m
  | S n =>
      let* (m, _) := heartbeat_iteration gap m in
      others (S (S (S gap))) ;;
      heartbeat_loop n (4 + gap) m
  end.

Definition heartbeat_monitor (n : nat) : M (monitor * double) :=
  let* now0 := peak_second env in
  let* count := gets (fun w => length (hooks w)) in
  let* m := heartbeat_loop n 0
    (mkMonitor (replicate count (empty_sample now0 true)) 0 d0 now0 d0 0) in
  let* final := gets (fun w => heartbeat_overhead_seconds (hooks w)) in
  ret (m, final).
End Monitor.
