(* ===== verification/HeartbeatProofs.v ===== *)
(** * Properties of the heartbeat monitor

    The monitor keeps the controller's invariants under any interleaving with
    other threads, does nothing but request, detaches the largest
    contributors first and no more than needed, and reattaches within its
    time budget. *)

From Stdlib Require Import SpecFloat.
From stdpp Require Import sorting.
From S2P Require Import Prelude HookControl HookStatus Doubles HookModel HookPolicy HookLifecycle LifecycleProofs LifecycleProtocol LifecycleOutcomes Heartbeat.

#[local] Opaque state_publication.

(** ** The contract of [qsort] *)

(** What C promises of [qsort]: the elements are permuted, and sorted when the
    comparator orders them consistently. *)
Class Qsort (hb : heartbeat_env) : Prop := {
  qsort_permutes : forall cmp l, hb_qsort hb cmp l ≡ₚ l;
  qsort_sorts : forall cmp l,
    (forall x y, x ∈ l -> y ∈ l -> cmp x y <= 0 \/ cmp y x <= 0) ->
    (forall x y z, x ∈ l -> y ∈ l -> z ∈ l -> cmp x y <= 0 -> cmp y z <= 0 -> cmp x z <= 0) ->
    StronglySorted (fun x y => cmp x y <= 0) (hb_qsort hb cmp l)
}.

Lemma sort_entries_permutes hb `{!Qsort hb} cmp l : sort_entries hb cmp l ≡ₚ l.
Proof. unfold sort_entries. case_match; [apply qsort_permutes|done]. Qed.

Lemma sort_entries_sorts hb `{!Qsort hb} (cmp : OverheadEntry -> OverheadEntry -> Z) l :
  (forall x y, x ∈ l -> y ∈ l -> cmp x y <= 0 \/ cmp y x <= 0) ->
  (forall x y z, x ∈ l -> y ∈ l -> z ∈ l -> cmp x y <= 0 -> cmp y z <= 0 -> cmp x z <= 0) ->
  StronglySorted (fun x y => cmp x y <= 0) (sort_entries hb cmp l).
Proof.
  intros Htot Htr. unfold sort_entries. destruct (Nat.ltb_spec 1 (length l)).
  - by apply qsort_sorts.
  - destruct l as [|x [|y l]]; simpl in *; [constructor| |lia]. repeat constructor.
Qed.

(** ** Requests *)

Lemma bind_gets {A B} (f : world -> A) (k : A -> M B) w : bind (gets f) k w = k (f w) w.
Proof. done. Qed.

Section Requests.
Context (env : environment).

(** The entry an accepted request leaves, at clock reading [now]. *)
Definition requested (st : PeakHookState) (r : request_context) (now : double) (h : hook) : hook :=
  let h := retry_cleared h in
  let h := if dgt (pending_observed_time h) d0 then h else set_pending_observed_time now h in
  entered st (set_request r h).

Lemma requested_state st r now h : state (requested st r now h) = st.
Proof.
  unfold requested. destruct (entered_fields st (set_request r
    (if dgt (pending_observed_time (retry_cleared h)) d0 then retry_cleared h
     else set_pending_observed_time now (retry_cleared h)))) as [E _]. exact E.
Qed.

(** The part both requests share. *)
Definition enter_request (i : nat) (st : PeakHookState) (r : request_context) : M bool :=
  reset_retry i ;;
  let* now := peak_second env in
  mark_pending_started i now ;;
  set_pending_request_context i r ;;
  set_hook_state i st ;;
  ret true.

Lemma one_enter_request i hs h st r :
  spec (one i hs h) (enter_request i st r)
    (fun b w => b = true /\ exists now, one i hs (requested st r now h) w) anywhere.
Proof.
  unfold enter_request. eapply spec_bind; [apply one_reset_retry|]. intros [].
  eapply spec_bind; [apply one_ask|]. intros now. cbv beta.
  eapply spec_bind; [apply one_update|]. intros [].
  eapply spec_bind; [apply one_update|]. intros [].
  eapply spec_bind; [apply one_set_state|]. intros [].
  apply spec_ret. intros w Hw. split; [done|]. by exists now.
Qed.

Lemma total_enter_request i st r : total (enter_request i st r).
Proof.
  unfold enter_request, reset_retry, clear_pending_request_context, peak_second,
    mark_pending_started, set_pending_request_context. total.
Qed.

Definition not_finalizing (w : world) : Prop := mpi_finalize_requested w = false.

Lemma enter_request_keeps_mpi i st r : preserves not_finalizing (enter_request i st r).
Proof.
  intros w Hw. unfold enter_request, reset_retry, clear_pending_request_context, peak_second,
    mark_pending_started, set_pending_request_context, bind, update_hook, ask, ret. simpl.
  set (w1 := with_hooks _ _).
  assert (not_finalizing w1) as H1 by done. destruct (hooks w1 !! i) as [h|] eqn:Hi.
  - rewrite (set_hook_state_eq i st w1 h Hi). simpl. by destruct (store i st _).
  - by rewrite set_hook_state_none.
Qed.

Lemma enter_request_accepts i st r w h :
  consistent w -> not_finalizing w -> hooks w !! i = Some h ->
  exists now w', enter_request i st r w = Done true w' /\ consistent w' /\ not_finalizing w' /\
    hooks w' = <[i:=requested st r now h]> (hooks w).
Proof.
  intros Hc Hm Hi.
  destruct (spec_total _ _ _ w (total_enter_request i st r) Hc
    (one_enter_request i (hooks w) h st r) (one_intro _ _ _ Hi))
    as (b & w' & E & Hc' & -> & now & _ & Hh).
  pose proof (enter_request_keeps_mpi i st r w Hm) as Hm'. rewrite E in Hm'.
  exists now, w'. done.
Qed.

Lemma request_detach_accepts i r w h :
  consistent w -> not_finalizing w -> hooks w !! i = Some h ->
  hook_published h = true -> state h = PEAK_HOOK_ATTACHED ->
  exists now w', request_detach_with_context env i r w = Done true w' /\ consistent w' /\
    not_finalizing w' /\
    hooks w' = <[i:=requested PEAK_HOOK_DETACH_REQUESTED r now h]> (hooks w).
Proof.
  intros Hc Hm Hi Hp Hs. unfold request_detach_with_context.
  rewrite bind_gets, Hm. cbv iota. rewrite bind_gets. unfold hook_is_published at 1. rewrite Hi, Hp.
  cbn [negb]. unfold get_hook. rewrite bind_gets, Hi. cbn [fmap option_fmap option_map]. rewrite Hs.
  by apply enter_request_accepts.
Qed.

(** A reattach request of a detached hook is refused exactly when its Gum
    teardown has not been flushed. *)
Lemma request_reattach_answer i r w h :
  consistent w -> not_finalizing w -> hooks w !! i = Some h ->
  hook_published h = true -> state h = PEAK_HOOK_DETACHED ->
  if unflushed h then request_reattach_with_context env i r w = Done false w
  else exists now w', request_reattach_with_context env i r w = Done true w' /\ consistent w' /\
    not_finalizing w' /\
    hooks w' = <[i:=requested PEAK_HOOK_REATTACH_REQUESTED r now h]> (hooks w).
Proof.
  intros Hc Hm Hi Hp Hs.
  assert (request_reattach_with_context env i r w =
    (if unflushed h then ret false else enter_request i PEAK_HOOK_REATTACH_REQUESTED r) w) as ->.
  { unfold request_reattach_with_context.
    rewrite bind_gets, Hm. cbv iota. rewrite bind_gets. unfold hook_is_published at 1. rewrite Hi, Hp.
    cbn [negb]. unfold get_hook. rewrite bind_gets, Hi. cbv iota. by rewrite Hs. }
  destruct (unflushed h); [done|]. by apply enter_request_accepts.
Qed.
End Requests.

(** ** The global detach decision *)

Section Global.
Context (env : environment) (hb : heartbeat_env) (overhead total_time : double) (ss : list sample).

Definition target : double := of_float (global_target_ratio hb).

(** The projection after requesting the entries of [l]. *)
Definition projected (p : projection) (l : list OverheadEntry) : projection :=
  foldl (fun p e => project p (entry_rate e) (entry_lifetime e)) p l.

Definition global_request (now : double) (e : OverheadEntry) (h : hook) : hook :=
  requested PEAK_HOOK_DETACH_REQUESTED
    (detach_context PEAK_HOOK_REQUEST_SOURCE_GLOBAL_HEARTBEAT (sample_of ss (index e))
       overhead total_time) now h.

(** The requests made for [taken] between two worlds, and nothing else. *)
Definition requested_exactly (taken : list OverheadEntry) (w w' : world) : Prop :=
  (forall i, i ∉ map index taken -> hooks w' !! i = hooks w !! i) /\
  (forall e, e ∈ taken -> exists h now, hooks w !! index e = Some h /\
     state h = PEAK_HOOK_ATTACHED /\ hooks w' !! index e = Some (global_request now e h)).

Definition candidate_entry (w : world) (e : OverheadEntry) : Prop :=
  published_attached (index e) w = true /\ dle (entry_ratio e) d0 = false.

Lemma published_attached_hook i w :
  published_attached i w = true ->
  exists h, hooks w !! i = Some h /\ hook_published h = true /\ state h = PEAK_HOOK_ATTACHED.
Proof.
  unfold published_attached, attached_for_policy. destruct (hooks w !! i) as [h|]; [|done].
  intros [? H%bool_decide_eq_true]%andb_true_iff. eauto.
Qed.

Lemma requested_exactly_cons e h now taken w w1 w' :
  hooks w !! index e = Some h -> state h = PEAK_HOOK_ATTACHED ->
  hooks w1 = <[index e:=global_request now e h]> (hooks w) ->
  index e ∉ map index taken -> requested_exactly taken w1 w' -> requested_exactly (e :: taken) w w'.
Proof.
  intros Hh Hs H1 Hn [Hout Hin]. split.
  - simpl. intros i [Hne Hi]%not_elem_of_cons. rewrite Hout, H1 by done.
    by apply list_lookup_insert_ne.
  - intros e' [->|He']%elem_of_cons.
    + exists h, now. split_and!; [done|done|]. rewrite Hout, H1 by done.
      apply list_lookup_insert_eq. by eapply lookup_lt_Some.
    + destruct (Hin e' He') as (h' & now' & Hh' & Hs' & Hw'). exists h', now'. split_and!; [|done|done].
      rewrite H1, list_lookup_insert_ne in Hh'; [done|]. intros Heq. apply Hn. rewrite Heq.
      by apply list_elem_of_fmap_2.
Qed.

Lemma global_loop_outcome entries p w :
  consistent w -> not_finalizing w -> NoDup (map index entries) ->
  Forall (candidate_entry w) entries ->
  exists taken rest w', entries = taken ++ rest /\
    global_detach_loop env hb overhead total_time ss entries p (pressure p) w =
      Done (negb (bool_decide (taken = [])), projected p taken) w' /\
    consistent w' /\ not_finalizing w' /\
    (rest = [] \/ dle (pressure (projected p taken)) target = true) /\
    (forall k, (k < length taken)%nat -> dle (pressure (projected p (take k taken))) target = false) /\
    requested_exactly taken w w'.
Proof.
  revert p w. induction entries as [|e entries IH]; intros p w Hc Hm Hnd Hall.
  - exists [], [], w. split_and!; try done; [by left|intros k; simpl; lia|by split; [|intros e ?%elem_of_nil]].
  - apply NoDup_cons in Hnd as [Hni Hnd]. apply Forall_cons in Hall as [[Hatt Hpos] Hall].
    cbn [global_detach_loop]. fold target. destruct (dle (pressure p) target) eqn:Ep.
    { exists [], (e :: entries), w.
      split_and!; try done; [by right|intros k; simpl; lia|by split; [|intros ? ?%elem_of_nil]]. }
    rewrite Hpos, bind_gets, Hatt. cbn [negb].
    destruct (published_attached_hook _ _ Hatt) as (h & Hh & Hp & Hs).
    destruct (request_detach_accepts env (index e)
      (detach_context PEAK_HOOK_REQUEST_SOURCE_GLOBAL_HEARTBEAT (sample_of ss (index e))
         overhead total_time) w h Hc Hm Hh Hp Hs) as (now & w1 & E & Hc1 & Hm1 & H1).
    destruct (IH (project p (entry_rate e) (entry_lifetime e)) w1 Hc1 Hm1 Hnd)
      as (taken & rest & w' & -> & E' & Hc' & Hm' & Hstop & Hmin & Hex).
    { eapply Forall_impl; [|intros e' He'; exact He']. rewrite Forall_forall in *. intros e' He'.
      destruct (Hall e' He') as [Ha ?]. split; [|done]. unfold published_attached in *.
      rewrite H1, list_lookup_insert_ne; [done|]. intros Heq. apply Hni. rewrite Heq.
      by apply list_elem_of_fmap_2. }
    exists (e :: taken), rest, w'. split_and!; try done.
    + unfold bind at 1. rewrite E. cbv iota beta. unfold bind. rewrite E'. done.
    + intros [|k]; simpl; [done|]. intros Hk. apply Hmin. lia.
    + eapply requested_exactly_cons; try done. intros (x & Ex & Hx)%list_elem_of_fmap. apply Hni.
      rewrite Ex. apply list_elem_of_fmap_2, elem_of_app. by left.
Qed.

(** The candidates are distinct hooks. *)
Lemma global_candidates_spec w i l :
  Forall (fun e => (i <= index e)%nat) (global_candidates i l w) /\
  NoDup (map index (global_candidates i l w)) /\
  Forall (candidate_entry w) (global_candidates i l w).
Proof.
  revert i. induction l as [|s l IH]; intros i; simpl; [by split_and!; constructor|].
  destruct (IH (S i)) as (Hge & Hnd & Hall).
  assert (Forall (fun e => (i <= index e)%nat) (global_candidates (S i) l w)) as Hge'.
  { eapply Forall_impl; [exact Hge|]. simpl. lia. }
  unfold global_candidate. destruct (_ || _) eqn:E1; [done|].
  destruct (dle _ d0) eqn:E2; [done|]. simpl. breflect. split_and!.
  - constructor; [simpl; lia|done].
  - constructor; [|done]. rewrite list_elem_of_fmap. intros (e & Heq & He).
    rewrite Forall_forall in Hge. specialize (Hge e He). lia.
  - constructor; [|done]. by split.
Qed.

(** The candidate entries carry the numbers of their samples. *)
Definition number_entry (e : OverheadEntry) : Prop := number (entry_ratio e) /\ number (entry_rate e).

Lemma global_candidates_numbers w i l :
  Forall (fun s => number (rate_snapshot s) /\ number (ratio_snapshot s)) l ->
  Forall number_entry (global_candidates i l w).
Proof.
  intros Hl. revert i. induction Hl as [|s l [Hr Ho] _ IH]; intros i; simpl; [done|].
  unfold global_candidate. destruct (_ || _); [done|]. destruct (dle _ d0); [done|].
  constructor; [|done]. split; simpl; [|done]. unfold dmax. by destruct (dgt _ _).
Qed.

Lemma compare_ratio_de_le x y :
  number_entry x -> number_entry y ->
  compare_ratio_de x y <= 0 <->
  line_lt (line (entry_ratio y)) (line (entry_ratio x)) \/
  (line_eq (line (entry_ratio x)) (line (entry_ratio y)) /\
   (line_lt (line (entry_rate y)) (line (entry_rate x)) \/
    (line_eq (line (entry_rate x)) (line (entry_rate y)) /\ (index x <= index y)%nat))).
Proof.
  intros [Hx1 Hx2] [Hy1 Hy2]. unfold compare_ratio_de, dgt.
  pose proof (dlt_line _ _ Hx1 Hy1) as L1. pose proof (dlt_line _ _ Hy1 Hx1) as L2.
  pose proof (dlt_line _ _ Hx2 Hy2) as L3. pose proof (dlt_line _ _ Hy2 Hx2) as L4.
  destruct (dlt (entry_ratio x) (entry_ratio y)), (dlt (entry_ratio y) (entry_ratio x)),
    (dlt (entry_rate x) (entry_rate y)), (dlt (entry_rate y) (entry_rate x)),
    (Nat.ltb_spec (index x) (index y)), (Nat.ltb_spec (index y) (index x));
    unfold line_lt, line_eq in *; lia.
Qed.

Lemma detach_order_sorted `{!Qsort hb} l :
  Forall number_entry l ->
  StronglySorted (fun x y => compare_ratio_de x y <= 0) (sort_entries hb compare_ratio_de l).
Proof.
  intros Hn. rewrite Forall_forall in Hn. apply (sort_entries_sorts hb compare_ratio_de l).
  - intros x y Hx Hy. rewrite !compare_ratio_de_le by auto. unfold line_lt, line_eq. lia.
  - intros x y z Hx Hy Hz. rewrite !compare_ratio_de_le by auto. unfold line_lt, line_eq. lia.
Qed.

Lemma detach_order_dominates `{!Qsort hb} l taken rest :
  Forall number_entry l -> sort_entries hb compare_ratio_de l = taken ++ rest ->
  forall e e', e ∈ taken -> e' ∈ rest -> dle (entry_ratio e') (entry_ratio e) = true.
Proof.
  intros Hn Hs e e' He He'. pose proof (detach_order_sorted l Hn) as Hsort.
  assert (Forall number_entry (taken ++ rest)) as Hn'.
  { rewrite <- Hs, sort_entries_permutes by done. done. }
  rewrite Hs in Hsort. rewrite Forall_forall in Hn'.
  assert (number_entry e /\ number_entry e') as [He1 He2].
  { split; apply Hn', elem_of_app; auto. }
  pose proof (StronglySorted_app_1_elem_of _ _ _ e e' Hsort He He') as Hle. simpl in Hle.
  rewrite compare_ratio_de_le in Hle by done. destruct He1, He2.
  rewrite dle_line by done. unfold line_lt, line_eq in *. lia.
Qed.
End Global.

(** C8: the global detach decision.  When the projected overhead does not
    exceed the detach threshold, nothing happens.  Otherwise the section
    returns and has requested the detach of exactly the first hooks of the
    sorted candidates, each attached before, and of no other hook; it stopped
    because the projected overhead fell to the target or every candidate was
    requested, and no candidate was requested once the overhead was at the
    target.  When the samples are numbers, every requested hook contributes at
    least as much as every candidate left alone. *)
Theorem global_detach_outcome env hb `{!Qsort hb} overhead total_time ss p w :
  consistent w -> mpi_finalize_requested w = false ->
  let threshold := of_float (fmul (global_target_ratio hb) (peak_global_detach_factor hb)) in
  let entries := sort_entries hb compare_ratio_de (global_candidates 0 ss w) in
  let section := global_detach env hb overhead total_time ss p w in
  (dlt threshold (pressure p) = false -> section = Done (false, p) w) /\
  (dlt threshold (pressure p) = true ->
   exists taken rest w', entries = taken ++ rest /\
     section = Done (negb (bool_decide (taken = [])), projected p taken) w' /\ consistent w' /\
     (rest = [] \/ dle (pressure (projected p taken)) (target hb) = true) /\
     (forall k, (k < length taken)%nat ->
        dle (pressure (projected p (take k taken))) (target hb) = false) /\
     requested_exactly overhead total_time ss taken w w' /\
     (Forall (fun s => number (rate_snapshot s) /\ number (ratio_snapshot s)) ss ->
      forall e e', e ∈ taken -> e' ∈ rest -> dle (entry_ratio e') (entry_ratio e) = true)).
Proof.
  intros Hc Hm. simpl. unfold global_detach, dgt. split; intros Ht; rewrite Ht; [done|].
  rewrite bind_gets. destruct (global_candidates_spec w 0 ss) as (_ & Hnd & Hall).
  pose proof (sort_entries_permutes hb compare_ratio_de (global_candidates 0 ss w)) as Hperm.
  destruct (global_loop_outcome env hb overhead total_time ss
    (sort_entries hb compare_ratio_de (global_candidates 0 ss w)) p w Hc Hm)
    as (taken & rest & w' & Hs & E & Hc' & _ & Hstop & Hmin & Hex).
  - eapply (NoDup_Permutation_proper _ (map index (global_candidates 0 ss w))); [|done].
    by apply fmap_Permutation.
  - by rewrite Hperm.
  - exists taken, rest, w'. split_and!; try done. intros Hn.
    apply (detach_order_dominates hb (global_candidates 0 ss w) taken rest); [|done].
    by apply global_candidates_numbers.
Qed.

(** ** The reattach decision *)

Section Reattach.
Context (env : environment) (hb : heartbeat_env) (now total_time spent_ratio predicted : double)
  (ss : list sample).

Definition reattach_rate (e : OverheadEntry) : double :=
  historical_profile_rate (entry_ratio e) total_time.

(** The headroom left after admitting requests with the given rates, one after
    the other, [None] when one of them does not fit. *)
Fixpoint charge (count : nat) (rates : list double) (headroom : double) : option double :=
  match rates with
  | [] => Some headroom
  | r :: rates => left ← headroom_after hb predicted count r headroom; charge (S count) rates left
  end.

(** A hook the monitor may reattach, and what the request makes of it. *)
Definition reattached (w w' : world) (e : OverheadEntry) : Prop :=
  exists h h', hooks w !! index e = Some h /\ state h = PEAK_HOOK_DETACHED /\
    hook_published h = true /\ unflushed h = false /\
    reattach_cooldown_ready env (index e) now w = true /\ eligible hb (entry_lifetime e) = true /\
    hooks w' !! index e = Some h' /\ state h' = PEAK_HOOK_REATTACH_REQUESTED /\
    request_rate (request h') = reattach_rate e.

Definition reattached_exactly (taken : list OverheadEntry) (w w' : world) : Prop :=
  (forall i, i ∉ map index taken -> hooks w' !! i = hooks w !! i) /\
  Forall (reattached w w') taken /\ NoDup (map index taken).

Lemma still_candidate_hook e w :
  still_candidate env hb now e w = true ->
  exists h, hooks w !! index e = Some h /\ state h = PEAK_HOOK_DETACHED /\
    hook_published h = true /\ reattach_cooldown_ready env (index e) now w = true /\
    eligible hb (entry_lifetime e) = true.
Proof.
  unfold still_candidate, still_detached. destruct (hooks w !! index e) as [h|]; [|done].
  intros H. breflect. exists h. split_and!; try done. by eapply bool_decide_eq_true.
Qed.

Lemma cooldown_local i w w' :
  hooks w' !! i = hooks w !! i ->
  reattach_cooldown_ready env i now w' = reattach_cooldown_ready env i now w.
Proof. intros H. unfold reattach_cooldown_ready. by rewrite H. Qed.

Lemma requested_rate st r t h : request_rate (request (requested st r t h)) = request_rate r.
Proof.
  unfold requested. set (h1 := if dgt _ _ then _ else _).
  by destruct (entered_fields st (set_request r h1)) as (_ & _ & _ & _ & _ & _ & _ & _ & -> & _).
Qed.

Lemma reattached_exactly_nil w : reattached_exactly [] w w.
Proof. split_and!; [done|constructor|constructor]. Qed.

Lemma reattached_exactly_cons e h r t taken w w1 w' :
  hooks w !! index e = Some h -> state h = PEAK_HOOK_DETACHED -> hook_published h = true ->
  unflushed h = false -> reattach_cooldown_ready env (index e) now w = true ->
  eligible hb (entry_lifetime e) = true -> request_rate r = reattach_rate e ->
  hooks w1 = <[index e:=requested PEAK_HOOK_REATTACH_REQUESTED r t h]> (hooks w) ->
  reattached_exactly taken w1 w' -> reattached_exactly (e :: taken) w w'.
Proof.
  intros Hh Hs Hp Hu Hcd Hel Hr H1 (Hout & Hall & Hnd).
  assert (hooks w1 !! index e = Some (requested PEAK_HOOK_REATTACH_REQUESTED r t h)) as Hnew.
  { rewrite H1. apply list_lookup_insert_eq. by eapply lookup_lt_Some. }
  assert (index e ∉ map index taken) as Hni.
  { intros (x & Ex & Hx)%list_elem_of_fmap. rewrite Forall_forall in Hall.
    destruct (Hall x Hx) as (hx & _ & Hhx & Hsx & _). rewrite <- Ex, Hnew in Hhx.
    injection Hhx as <-. by rewrite requested_state in Hsx. }
  split_and!.
  - simpl. intros i [Hne Hi]%not_elem_of_cons. rewrite Hout, H1 by done.
    by apply list_lookup_insert_ne.
  - constructor.
    + exists h, (requested PEAK_HOOK_REATTACH_REQUESTED r t h). rewrite Hout, requested_state,
        requested_rate by done. split_and!; done.
    + eapply Forall_impl; [apply Forall_and; split; [exact Hall|]|].
      { apply Forall_forall. intros x Hx. apply (list_elem_of_fmap_2 index) in Hx. exact Hx. }
      intros x [(hx & hx' & A & B) Hx]. exists hx, hx'.
      assert (hooks w1 !! index x = hooks w !! index x) as Ew.
      { rewrite H1. apply list_lookup_insert_ne. intros Heq. apply Hni. by rewrite Heq. }
      rewrite <- Ew, <- (cooldown_local _ w w1) by done. done.
  - simpl. by constructor.
Qed.

Lemma reattach_loop_outcome entries count headroom w :
  consistent w -> not_finalizing w ->
  exists taken left w',
    reattach_loop env hb now total_time spent_ratio predicted ss entries count headroom w =
      Done (map index taken, left) w' /\ consistent w' /\ not_finalizing w' /\
    taken `sublist_of` entries /\ charge count (map reattach_rate taken) headroom = Some left /\
    reattached_exactly taken w w'.
Proof.
  revert count headroom w. induction entries as [|e entries IH]; intros count headroom w Hc Hm.
  { exists [], headroom, w. split_and!; try done. apply reattached_exactly_nil. }
  cbn [reattach_loop]. destruct (dgt headroom d0); cbn [negb].
  2:{ exists [], headroom, w. split_and!; try done; [apply sublist_nil_l|apply reattached_exactly_nil]. }
  assert (exists taken left w',
    reattach_loop env hb now total_time spent_ratio predicted ss entries count headroom w =
      Done (map index taken, left) w' /\ consistent w' /\ not_finalizing w' /\
    taken `sublist_of` e :: entries /\ charge count (map reattach_rate taken) headroom = Some left /\
    reattached_exactly taken w w') as Hskip.
  { destruct (IH count headroom w Hc Hm) as (taken & left & w' & E & H1 & H2 & Hsub & H3).
    exists taken, left, w'. split_and!; try apply H3; try done. by apply sublist_cons. }
  rewrite bind_gets. destruct (still_candidate env hb now e w) eqn:Ecand; cbn [negb]; [|exact Hskip].
  fold (reattach_rate e).
  destruct (headroom_after hb predicted count (reattach_rate e) headroom) as [remaining|] eqn:Eadm; [|exact Hskip].
  destruct (still_candidate_hook e w Ecand) as (h & Hh & Hs & Hp & Hcd & Hel).
  match goal with |- context [request_reattach_with_context env (index e) ?r] => set (req := r) end.
  pose proof (request_reattach_answer env (index e) req w h Hc Hm Hh Hp Hs) as Hans.
  destruct (unflushed h) eqn:Eu.
  { unfold bind at 1. rewrite Hans. cbn [negb]. exact Hskip. }
  destruct Hans as (t & w1 & E1 & Hc1 & Hm1 & H1).
  destruct (IH (S count) remaining w1 Hc1 Hm1) as (taken & left & w' & E & Hc' & Hm' & Hsub & Hch & Hex).
  exists (e :: taken), left, w'. split_and!; try done.
  - unfold bind at 1. rewrite E1. cbn [negb]. unfold bind. rewrite E. done.
  - by apply sublist_skip.
  - simpl. by rewrite Eadm.
  - apply (reattached_exactly_cons e h req t taken w w1 w'); done.
Qed.
End Reattach.

Lemma subtract_nonnegative_finite_some value amount r :
  subtract_nonnegative_finite value amount = Some r ->
  r = dsub value amount /\ nonnegative_finite r = true /\ nonnegative_finite amount = true /\
  dle amount value = true.
Proof.
  unfold subtract_nonnegative_finite. cbv zeta. destruct (_ || _ || _) eqn:E1; [done|].
  destruct (negb (nonnegative_finite (dsub value amount))) eqn:E2; [done|].
  intros [= <-]. breflect. split_and!; try done.
  apply not_dlt_dle; [| |done]; match goal with |- number ?x => destruct x; try done end.
Qed.

Lemma charge_nonnegative hb predicted count rates headroom left :
  nonnegative_finite headroom = true -> charge hb predicted count rates headroom = Some left ->
  nonnegative_finite left = true.
Proof.
  revert count headroom. induction rates as [|r rates IH]; intros count headroom Hn; simpl;
    [by intros [= <-]|].
  destruct (headroom_after hb predicted count r headroom) as [x|] eqn:E; [|done]. simpl. apply IH.
  unfold headroom_after in E. destruct (deq _ _); [done|]. by apply subtract_nonnegative_finite_some in E as (_ & ? & _).
Qed.

Lemma add_nonnegative_finite_some x y r : add_nonnegative_finite x y = Some r -> r = dadd x y.
Proof. unfold add_nonnegative_finite. destruct (_ || _ || _); [done|]. by intros [= <-]. Qed.

Lemma multiply_nonnegative_finite_some x y r : multiply_nonnegative_finite x y = Some r -> r = dmul x y.
Proof.
  unfold multiply_nonnegative_finite. cbv zeta. destruct (_ || _ || _); [done|].
  destruct (negb (nonnegative_finite (dmul x y))); [done|]. by intros [= <-].
Qed.

(** What an open budget means. *)
Definition within_budget (hb : heartbeat_env) (profile total_time headroom : double) : Prop :=
  exists control_risk,
    dle (ddiv (dadd profile control_risk) total_time)
      (dmul (of_float (peak_global_reattach_factor hb)) (target hb)) = true /\
    headroom = dsub (dsub (dmul (target hb) total_time) profile) control_risk /\
    nonnegative_finite headroom = true.

Lemma budget_chain_within hb profile control last total_time headroom predicted :
  budget_chain hb profile control last total_time = Some (headroom, predicted) ->
  within_budget hb profile total_time headroom.
Proof.
  unfold budget_chain. destruct (_ && _); [|done].
  destruct (multiply_nonnegative_finite control _) as [risk|] eqn:E1; [|done].
  destruct (multiply_nonnegative_finite last _) as [pred|] eqn:E2; [|done]. simpl.
  destruct (add_nonnegative_finite profile risk) as [spent|] eqn:E3; [|done]. simpl.
  destruct (multiply_nonnegative_finite _ (of_float (global_target_ratio hb))) as [gate|] eqn:E4; [|done].
  simpl. destruct (multiply_nonnegative_finite _ total_time) as [room|] eqn:E5; [|done]. simpl.
  destruct (subtract_nonnegative_finite room profile) as [room1|] eqn:E6; [|done]. simpl.
  destruct (subtract_nonnegative_finite room1 risk) as [room2|] eqn:E7; [|done]. simpl.
  destruct (_ && _) eqn:E8; [|done]. intros [= <- <-]. breflect.
  apply multiply_nonnegative_finite_some in E4 as ->, E5 as ->.
  apply add_nonnegative_finite_some in E3 as ->.
  apply subtract_nonnegative_finite_some in E6 as (-> & _), E7 as (-> & ? & _).
  exists risk. done.
Qed.

Definition same_tables (w w' : world) : Prop :=
  hooks w' = hooks w /\ status w' = status w /\
  mpi_finalize_requested w' = mpi_finalize_requested w /\ events w' = events w.

Lemma runtime_accounting_same hb w :
  exists r w', runtime_accounting_snapshot hb w = Done r w' /\ same_tables w w'.
Proof.
  unfold runtime_accounting_snapshot, accounting_snapshot, bind, ask, ret. simpl.
  destruct (hb_accounting hb (ticks w)) as [a|]; [destruct (accounting_snapshot_is_finite a)|];
    simpl; try destruct (negb (control_baseline_valid hb)); simpl; eexists _, _; split; done.
Qed.

Lemma reattach_budget_same hb profile total_time w :
  exists budget w', reattach_budget hb profile total_time w = Done budget w' /\ same_tables w w' /\
    forall headroom predicted, budget = Some (headroom, predicted) ->
      within_budget hb profile total_time headroom.
Proof.
  unfold reattach_budget, bind.
  destruct (runtime_accounting_same hb w) as ([v1 a1] & w1 & -> & Hs1). cbv iota beta.
  unfold ask at 1. set (w2 := mkWorld _ _ _ _ _ _ _).
  destruct (runtime_accounting_same hb w2) as ([v2 a2] & w3 & -> & Hs3). cbv iota beta.
  eexists _, w3. split; [reflexivity|]. split.
  - destruct Hs1 as (? & ? & ? & ?), Hs3 as (? & ? & ? & ?). unfold same_tables, w2 in *. simpl in *.
    split_and!; congruence.
  - intros headroom predicted. destruct (accounting_coherent v1 v2 a1 a2); [|done].
    apply budget_chain_within.
Qed.

Lemma scan_hooks_local env hb now total_time w w' i ss acc :
  hooks w' = hooks w -> scan_hooks env hb now total_time w' i ss acc =
    scan_hooks env hb now total_time w i ss acc.
Proof.
  intros Hh. revert i acc. induction ss as [|s ss IH]; intros i acc; simpl; [done|]. rewrite IH.
  f_equal. unfold scan_hook. rewrite Hh. destruct (hooks w !! i) as [h|] eqn:E; [|done].
  rewrite (cooldown_local env now i w w') by (by rewrite Hh). done.
Qed.

(** What the locked part of the section has done: the requests for [taken],
    paid from [headroom] after the mutations already pending. *)
Definition reattach_paid (env : environment) (hb : heartbeat_env) (now total_time headroom
    predicted : double) (ss : list sample) (taken : list OverheadEntry) (w : world) : Prop :=
  let scan := scan_hooks env hb now total_time w 0 ss (mkReattachScan 0 d0 true []) in
  exists pending_stop room room' left,
    subtract_nonnegative_finite headroom (projected_pending_reattach_seconds scan) = Some room /\
    multiply_nonnegative_finite (of_Z (Z.of_nat (batch_windows (pending_mutation_count scan))))
      predicted = Some pending_stop /\
    subtract_nonnegative_finite room pending_stop = Some room' /\
    charge hb predicted (pending_mutation_count scan) (map (reattach_rate total_time) taken) room' =
      Some left /\
    nonnegative_finite left = true /\
    (forall e, e ∈ taken -> e ∈ detached_entries scan).

Lemma reattach_locked_outcome env hb `{!Qsort hb} now total_time spent_ratio headroom predicted ss w :
  consistent w -> not_finalizing w ->
  exists taken left w',
    reattach_locked env hb now total_time spent_ratio headroom predicted ss w =
      Done (map index taken, left) w' /\ consistent w' /\ not_finalizing w' /\
    reattached_exactly env hb now total_time taken w w' /\
    (taken = [] \/ reattach_paid env hb now total_time headroom predicted ss taken w).
Proof.
  intros Hc Hm. unfold reattach_locked. rewrite bind_gets.
  set (scan := scan_hooks env hb now total_time w 0 ss _).
  assert (exists taken left w', (ret ([], headroom) : M (list nat * double)) w =
      Done (map index taken, left) w' /\ consistent w' /\ not_finalizing w' /\
    reattached_exactly env hb now total_time taken w w' /\
    (taken = [] \/ reattach_paid env hb now total_time headroom predicted ss taken w)) as Hstop.
  { exists [], headroom, w. split_and!; try done; [apply reattached_exactly_nil|by left]. }
  destruct (_ && negb _); [|exact Hstop].
  destruct (subtract_nonnegative_finite headroom _) as [room|] eqn:E1; [|exact Hstop]. cbn [mbind option_bind].
  destruct (multiply_nonnegative_finite _ predicted) as [stop|] eqn:E2; [|exact Hstop]. cbn [mbind option_bind].
  destruct (subtract_nonnegative_finite room stop) as [room'|] eqn:E3; [|exact Hstop]. cbn [mbind option_bind].
  destruct (dgt room' d0) eqn:E4; [|exact Hstop].
  destruct (reattach_loop_outcome env hb now total_time spent_ratio predicted ss
    (sort_entries hb compare_rate_inc (detached_entries scan)) (pending_mutation_count scan) room' w
    Hc Hm) as (taken & left & w' & E & Hc' & Hm' & Hsub & Hch & Hex).
  exists taken, left, w'. split_and!; try done. right. exists stop, room, room', left.
  split_and!; try done.
  - eapply charge_nonnegative; [|exact Hch]. by apply subtract_nonnegative_finite_some in E3 as (_ & ? & _).
  - intros e He. rewrite <- (sort_entries_permutes hb compare_rate_inc).
    by eapply elem_of_sublist.
Qed.

(** reattachment stays within its budget.  The section always returns.
    Either it requests nothing, or the accounting was coherent and the time
    already spent, stop-time risk included, is at most the reattach factor
    times the target; then the requested hooks are candidates of the scan,
    distinct, each detached, flushed, past its cooldown and eligible before and
    REATTACH_REQUESTED after, no other hook changes, and their leases and extra
    stop windows, charged one after the other to the headroom left by the
    mutations already pending, fit without going below zero. *)
Theorem reattach_within_budget env hb `{!Qsort hb} now total_time spent_ratio profile ss w :
  consistent w -> mpi_finalize_requested w = false ->
  exists taken w',
    reattach_section env hb now total_time spent_ratio profile ss w =
      Done (negb (bool_decide (taken = []))) w' /\ consistent w' /\
    reattached_exactly env hb now total_time taken w w' /\
    (taken = [] \/ exists headroom predicted,
       within_budget hb profile total_time headroom /\
       reattach_paid env hb now total_time headroom predicted ss taken w).
Proof.
  intros Hc Hm. unfold reattach_section.
  destruct (reattach_budget_same hb profile total_time w) as (budget & w1 & E & Hsame & Hbudget).
  unfold bind at 1. rewrite E.
  destruct Hsame as (Hh & Hst & Hmpi & _).
  assert (consistent w1) as Hc1 by (by eapply consistent_same).
  assert (not_finalizing w1) as Hm1 by (unfold not_finalizing; congruence).
  destruct budget as [[headroom predicted]|].
  - destruct (reattach_locked_outcome env hb now total_time spent_ratio headroom predicted ss w1 Hc1 Hm1)
      as (taken & left & w' & E' & Hc' & _ & (Hout & Hall & Hnd) & Hpaid).
    exists taken, w'. unfold bind. rewrite E'. split_and!; [by destruct taken|done| |].
    + split_and!; [by intros i Hi; rewrite Hout, Hh| |done].
      eapply Forall_impl; [exact Hall|]. intros e (h & h' & A & B & C & D & F & G).
      exists h, h'. rewrite <- (cooldown_local env now _ w w1) by (by rewrite Hh).
      rewrite <- Hh. done.
    + destruct Hpaid as [->|Hpaid]; [by left|right]. exists headroom, predicted.
      split; [by apply (Hbudget _ predicted)|]. unfold reattach_paid in *.
      by rewrite (scan_hooks_local env hb now total_time w w1) in Hpaid.
  - exists [], w1. split_and!; try done; [|by left]. split_and!; [|constructor|constructor].
    intros i _. by rewrite Hh.
Qed.

(** ** The monitor only requests *)

Definition request_step (before after : PeakHookState) : Prop :=
  after = before \/
  (before = PEAK_HOOK_ATTACHED /\ after = PEAK_HOOK_DETACH_REQUESTED) \/
  (before = PEAK_HOOK_DETACHED /\ after = PEAK_HOOK_REATTACH_REQUESTED).

(** A hook before and after: at most a request, no physical change. *)
Definition hook_requested (h h' : hook) : Prop :=
  request_step (state h) (state h') /\ address h' = address h /\ listener h' = listener h /\
  gum_detached h' = gum_detached h /\ gum_detach_flushed h' = gum_detach_flushed h /\
  listener_detached h' = listener_detached h /\ listener_reattached h' = listener_reattached h.

Definition only_requests (w w' : world) : Prop :=
  Forall2 hook_requested (hooks w) (hooks w') /\
  exists n, events w' = events w ++ replicate n EvWake.

Lemma hook_requested_trans h1 h2 h3 :
  hook_requested h1 h2 -> hook_requested h2 h3 -> hook_requested h1 h3.
Proof.
  intros (S1 & ? & ? & ? & ? & ? & ?) (S2 & ? & ? & ? & ? & ? & ?). unfold hook_requested.
  split; [|split_and!; congruence]. unfold request_step in *.
  destruct S1 as [E|[[E1 E]|[E1 E]]]; rewrite E in S2; intuition congruence.
Qed.

#[export] Instance only_requests_preorder : PreOrder only_requests.
Proof.
  split.
  - intros w. split; [|exists 0%nat; by rewrite app_nil_r].
    apply Forall_Forall2_diag, Forall_true. intros h. by repeat split; left.
  - intros w1 w2 w3 [H1 [n1 E1]] [H2 [n2 E2]]. split.
    + eapply Forall2_trans; [|exact H1|exact H2]. apply hook_requested_trans.
    + exists (n1 + n2)%nat. by rewrite E2, E1, replicate_add, app_assoc.
Qed.

(** Steps of the monitor. *)
Definition requesting {A} (m : M A) : Prop := forall w,
  match m w with Done _ w' => only_requests w w' | Exited _ => True end.

Lemma requesting_same {A} (m : M A) :
  (forall w, exists a w', m w = Done a w' /\ hooks w' = hooks w /\ events w' = events w) ->
  requesting m.
Proof.
  intros H w. destruct (H w) as (a & w' & -> & Hh & He).
  destruct (reflexivity (R:=only_requests) w) as [H1 H2]. unfold only_requests. by rewrite Hh, He.
Qed.
Lemma requesting_ret {A} (a : A) : requesting (ret a).
Proof. apply requesting_same. intros w. by exists a, w. Qed.
Lemma requesting_gets {A} (f : world -> A) : requesting (gets f).
Proof. apply requesting_same. intros w. by exists (f w), w. Qed.
Lemma requesting_ask {A} (f : nat -> A) : requesting (ask f).
Proof. apply requesting_same. intros w. by eexists _, _. Qed.
Lemma requesting_bind {A B} (m : M A) (k : A -> M B) :
  requesting m -> (forall a, requesting (k a)) -> requesting (bind m k).
Proof.
  intros Hm Hk w. specialize (Hm w). unfold bind. destruct (m w) as [a w1|]; [|done].
  specialize (Hk a w1). destruct (k a w1) as [b w2|]; [|done]. by etrans.
Qed.
Lemma requesting_wake : requesting controller_wake.
Proof.
  intros w. simpl. destruct (reflexivity (R:=only_requests) w) as [H1 _]. split; [done|]. by exists 1%nat.
Qed.

Lemma Forall2_alter_requested f i (hs : list hook) :
  (forall h, hs !! i = Some h -> hook_requested h (f h)) ->
  Forall2 hook_requested hs (alter f i hs).
Proof.
  intros Hf. apply Forall2_same_length_lookup. split; [by rewrite length_alter|].
  intros j h h' Hj Hj'. destruct (decide (i = j)) as [->|Hne].
  - rewrite list_lookup_alter_eq, Hj in Hj'. simplify_eq/=. by apply Hf.
  - rewrite list_lookup_alter_ne, Hj in Hj' by done. simplify_eq. by repeat split; left.
Qed.

Lemma requesting_update i f : (forall h, hook_requested h (f h)) -> requesting (update_hook i f).
Proof.
  intros Hf w. simpl. split; [by apply Forall2_alter_requested|]. exists 0%nat. by rewrite app_nil_r.
Qed.

Ltac hook_kept := intros ?; repeat (branch || simpl); repeat split; try done; by left.

Create HintDb requesting.
#[export] Hint Resolve requesting_ret requesting_gets requesting_ask requesting_wake : requesting.
#[export] Hint Extern 1 (requesting (update_hook _ _)) => apply requesting_update; hook_kept : requesting.
Ltac requesting :=
  repeat first
    [ progress intros | solve [eauto with requesting] | apply requesting_bind
    | match goal with |- requesting (match ?x with _ => _ end) => destruct x end ].

(** Entering a requested state is a request when the hook is in the state the
    request leaves. *)
Lemma requesting_enter env i st r w h :
  hooks w !! i = Some h -> request_step (state h) st ->
  match enter_request env i st r w with Done _ w' => only_requests w w' | Exited _ => True end.
Proof.
  intros Hi Hst.
  pose proof (one_enter_request env i (hooks w) h st r w (one_intro _ _ _ Hi)) as Hone.
  assert (match enter_request env i st r w with
          | Done _ w' => exists n, events w' = events w ++ replicate n EvWake | Exited _ => True end) as Hev.
  { unfold enter_request, reset_retry, clear_pending_request_context, peak_second,
      mark_pending_started, set_pending_request_context, bind, update_hook, ask, ret. simpl.
    set (w1 := with_hooks _ _). change (events w) with (events w1).
    destruct (hooks w1 !! i) as [h1|] eqn:Hi1.
    - rewrite (set_hook_state_eq i st w1 h1 Hi1). simpl. destruct (store i st _); [|done]. simpl.
      destruct (_ && _); [by exists 1%nat|by exists 0%nat].
    - rewrite set_hook_state_none by done. exists 0%nat. by rewrite app_nil_r. }
  destruct (enter_request env i st r w) as [b w'|]; [|done].
  destruct Hone as (_ & now & Hlt & Hh). split; [|done]. rewrite Hh.
  apply Forall2_same_length_lookup. split; [by rewrite length_insert|]. intros j hj hj' Hj Hj'.
  apply lookup_insert_cases in Hj' as [(-> & -> & _)|[_ Hj']].
  - simplify_eq. unfold requested. set (h1 := if dgt _ _ then _ else _).
    destruct (entered_fields st (set_request r h1)) as (E1 & E2 & E3 & E4 & E5 & _ & _ & _ & _ & E6 & E7 & _).
    unfold hook_requested. rewrite E1, E2, E3, E4, E5, E6, E7. unfold h1.
    by destruct (dgt _ _); simpl.
  - simplify_eq. by repeat split; left.
Qed.

Section Monitoring.
Context (env : environment) (hb : heartbeat_env).

Lemma requesting_request_detach i r : requesting (request_detach_with_context env i r).
Proof.
  intros w. unfold request_detach_with_context. rewrite bind_gets.
  destruct (mpi_finalize_requested w); [by simpl|]. rewrite bind_gets.
  destruct (negb _); [by simpl|]. unfold get_hook. rewrite bind_gets.
  destruct (hooks w !! i) as [h|] eqn:Hi; cbn [fmap option_fmap option_map]; [|by simpl].
  destruct (state h) eqn:Hs; try (by simpl).
  apply (requesting_enter env i PEAK_HOOK_DETACH_REQUESTED r w h Hi). right. by left.
Qed.

Lemma requesting_request_reattach i r : requesting (request_reattach_with_context env i r).
Proof.
  intros w. unfold request_reattach_with_context. rewrite bind_gets.
  destruct (mpi_finalize_requested w); [by simpl|]. rewrite bind_gets.
  destruct (negb _); [by simpl|]. unfold get_hook. rewrite bind_gets.
  destruct (hooks w !! i) as [h|] eqn:Hi; [|by simpl].
  destruct (state h) eqn:Hs; try (by simpl). destruct (unflushed h); [by simpl|].
  apply (requesting_enter env i PEAK_HOOK_REATTACH_REQUESTED r w h Hi). right. by right.
Qed.
#[local] Hint Resolve requesting_request_detach requesting_request_reattach : requesting.

Lemma requesting_refresh i : requesting (refresh_hook_sample_cache env i).
Proof. unfold refresh_hook_sample_cache, get_hook, cache_hook_sample. requesting. Qed.
#[local] Hint Resolve requesting_refresh : requesting.

Lemma requesting_sample_hooks now t i l acc : requesting (sample_hooks env now t i l acc).
Proof.
  revert i acc. induction l as [|s l IH]; intros i acc; simpl; [requesting|].
  unfold sample_hook, get_hook, try_hook_sample_cache. requesting.
Qed.

Lemma requesting_per_target o t i l p : requesting (per_target_detach env hb o t i l p).
Proof.
  revert i p. induction l as [|s l IH]; intros i p; simpl; [requesting|].
  unfold per_target_detach_hook. requesting.
Qed.

Lemma requesting_global o t ss l p x : requesting (global_detach_loop env hb o t ss l p x).
Proof. revert p x. induction l as [|e l IH]; intros p x; simpl; requesting. Qed.
#[local] Hint Resolve requesting_sample_hooks requesting_per_target requesting_global : requesting.

Lemma requesting_reattach_loop now t sr pr ss l c h :
  requesting (reattach_loop env hb now t sr pr ss l c h).
Proof. revert c h. induction l as [|e l IH]; intros c h; simpl; requesting. Qed.
#[local] Hint Resolve requesting_reattach_loop : requesting.

Lemma requesting_accounting : requesting (runtime_accounting_snapshot hb).
Proof. unfold runtime_accounting_snapshot, accounting_snapshot. requesting. Qed.
Lemma requesting_checkpoint n p : requesting (management_cpu_checkpoint hb n p).
Proof. unfold management_cpu_checkpoint, thread_cpu_ns. requesting. Qed.
#[local] Hint Resolve requesting_accounting requesting_checkpoint : requesting.

Lemma requesting_reattach_section now t sr pr ss :
  requesting (reattach_section env hb now t sr pr ss).
Proof. unfold reattach_section, reattach_budget, reattach_locked. requesting. Qed.
#[local] Hint Resolve requesting_reattach_section : requesting.

Lemma requesting_iteration gap m :
  (forall n, hb_other hb n = []) -> requesting (heartbeat_iteration env hb gap m).
Proof.
  intros Ho. assert (forall n, requesting (others env hb n)) as Hothers.
  { intros n. unfold others. rewrite Ho. apply requesting_ret. }
  unfold heartbeat_iteration, thread_cpu_ns, peak_second, global_detach. requesting.
Qed.

Lemma requesting_loop n gap m :
  (forall n, hb_other hb n = []) -> requesting (heartbeat_loop env hb n gap m).
Proof.
  intros Ho. revert gap m. induction n as [|n IH]; intros gap m; simpl; [requesting|].
  apply requesting_bind; [by apply requesting_iteration|]. intros [m' sl].
  apply requesting_bind; [unfold others; rewrite Ho; apply requesting_ret|]. intros []. apply IH.
Qed.
End Monitoring.

(** the monitor only asks.  Whatever its samples, settings and the answers
    it gets, as long as no other thread intervenes, any number of heartbeats
    leaves every hook in the state it had, or moves it from ATTACHED to
    DETACH_REQUESTED or from DETACHED to REATTACH_REQUESTED; it changes no
    address, listener or Gum state, and the only event is waking the
    controller. *)
Theorem heartbeat_only_requests env hb n w r w' :
  (forall k, hb_other hb k = []) -> heartbeat_monitor env hb n w = Done r w' ->
  only_requests w w'.
Proof.
  intros Ho E. assert (requesting (heartbeat_monitor env hb n)) as H.
  { unfold heartbeat_monitor, peak_second. pose proof (requesting_loop env hb). requesting. }
  specialize (H w). by rewrite E in H.
Qed.

(** ** Interleaving with the controller *)

(** Steps that keep the tables consistent and the trace between mutations. *)
Definition calm {A} (m : M A) : Prop :=
  spec (at_phase Idle []) m (fun _ => at_phase Idle []) exit_ok.

Lemma calm_quiet {A} (m : M A) : quiet m -> calm m.
Proof. intros H. apply H. Qed.
Lemma calm_bind {A B} (m : M A) (k : A -> M B) : calm m -> (forall a, calm (k a)) -> calm (bind m k).
Proof. intros Hm Hk. eapply spec_bind; [exact Hm|]. exact Hk. Qed.

Create HintDb calm.
Ltac calm :=
  repeat first
    [ progress intros
    | solve [eauto with calm]
    | solve [apply calm_quiet; eauto with quiet]
    | apply calm_bind
    | match goal with |- calm (match ?x with _ => _ end) => destruct x end ].

Section Interleaving.
Context (env : environment) `{!BatchPreparation env} (hb : heartbeat_env).

#[local] Hint Resolve quiet_request_detach quiet_refresh : quiet.

Lemma quiet_request_reattach_with_context i r : quiet (request_reattach_with_context env i r).
Proof.
  unfold request_reattach_with_context, reset_retry, clear_pending_request_context, get_hook,
    peak_second, mark_pending_started, set_pending_request_context. quiet.
Qed.
#[local] Hint Resolve quiet_request_reattach_with_context : quiet.

Lemma quiet_sample_hooks now t i l acc : quiet (sample_hooks env now t i l acc).
Proof.
  revert i acc. induction l as [|s l IH]; intros i acc; simpl; [quiet|].
  unfold sample_hook, get_hook, try_hook_sample_cache. quiet.
Qed.
Lemma quiet_per_target o t i l p : quiet (per_target_detach env hb o t i l p).
Proof.
  revert i p. induction l as [|s l IH]; intros i p; simpl; [quiet|].
  unfold per_target_detach_hook. quiet.
Qed.
Lemma quiet_global o t ss l p x : quiet (global_detach_loop env hb o t ss l p x).
Proof. revert p x. induction l as [|e l IH]; intros p x; simpl; quiet. Qed.
Lemma quiet_reattach_loop now t sr pr ss l c h : quiet (reattach_loop env hb now t sr pr ss l c h).
Proof. revert c h. induction l as [|e l IH]; intros c h; simpl; quiet. Qed.
Lemma quiet_accounting : quiet (runtime_accounting_snapshot hb).
Proof. unfold runtime_accounting_snapshot, accounting_snapshot. quiet. Qed.
Lemma quiet_checkpoint n p : quiet (management_cpu_checkpoint hb n p).
Proof. unfold management_cpu_checkpoint, thread_cpu_ns. quiet. Qed.
#[local] Hint Resolve quiet_sample_hooks quiet_per_target quiet_global quiet_reattach_loop
  quiet_accounting quiet_checkpoint : quiet.

Lemma quiet_reattach_section now t sr pr ss : quiet (reattach_section env hb now t sr pr ss).
Proof. unfold reattach_section, reattach_budget, reattach_locked. quiet. Qed.
#[local] Hint Resolve quiet_reattach_section : quiet.

Lemma calm_others n : calm (others env hb n).
Proof. apply spec_run_ops. exact _. Qed.
#[local] Hint Resolve calm_others : calm.

Lemma calm_iteration gap m : calm (heartbeat_iteration env hb gap m).
Proof. unfold heartbeat_iteration, thread_cpu_ns, peak_second, global_detach. calm. Qed.
#[local] Hint Resolve calm_iteration : calm.

Lemma calm_loop n gap m : calm (heartbeat_loop env hb n gap m).
Proof. revert gap m. induction n as [|n IH]; intros gap m; simpl; calm. Qed.
#[local] Hint Resolve calm_loop : calm.

Lemma calm_monitor n : calm (heartbeat_monitor env hb n).
Proof. unfold heartbeat_monitor, peak_second. calm. Qed.
End Interleaving.

(** C7: the heartbeat thread keeps the controller's invariants.  From freshly
    allocated tables, after any operations, any number of heartbeats, with
    arbitrary controller, callback and API operations of other threads between
    its locked sections and while it sleeps: when it returns, no mutation is
    open, no thread is paused, and flags, packed word and lock-free mirror of
    every hook agree; when the process ends, a finish or a fast-detach
    preparation had failed. *)
Theorem heartbeat_keeps_invariants env `{!BatchPreparation env} hb calloc targets s w ops n :
  HookStatus.wf s -> attach_tables calloc targets s = Some w ->
  match (run_ops env ops ;; heartbeat_monitor env hb n) w with
  | Done _ w' =>
      trace_state (events w') = Some (mkProto Idle []) /\
      forall i h, hooks w' !! i = Some h ->
        (need_detach h, detached h) = legacy_flags (state h) /\
        (listener h <> 0 -> hook_state_is (control h) (state h) = true) /\
        hook_state i (status w') = state h
  | Exited w' => exit_ok w'
  end.
Proof.
  intros Hs Ha.
  assert (at_phase Idle [] w) as Hw by (by eapply attach_tables_at_phase).
  assert (calm (run_ops env ops ;; heartbeat_monitor env hb n)) as Hcalm.
  { apply calm_bind; [apply spec_run_ops; exact _|]. intros []. by apply calm_monitor. }
  specialize (Hcalm w Hw). destruct ((run_ops env ops ;; heartbeat_monitor env hb n) w) as [r w'|w'];
    [|done].
  destruct Hcalm as [Hc Ht]. split; [done|]. intros i h Hi. by apply consistent_hook.
Qed.

(** ** A concrete monitor *)

(** Insertion sort by a comparator, one implementation of [qsort]. *)
Fixpoint insert_entry (cmp : OverheadEntry -> OverheadEntry -> Z) (x : OverheadEntry)
    (l : list OverheadEntry) : list OverheadEntry :=
  match l with
  | [] => [x]
  | y :: l' => if cmp x y <=? 0 then x :: l else y :: insert_entry cmp x l'
  end.

Definition insertion_sort (cmp : OverheadEntry -> OverheadEntry -> Z) (l : list OverheadEntry) :=
  foldr (insert_entry cmp) [] l.

Lemma insert_entry_permutes cmp x l : insert_entry cmp x l ≡ₚ x :: l.
Proof.
  induction l as [|y l IH]; simpl; [done|]. destruct (_ <=? 0); [done|]. rewrite IH. by constructor.
Qed.

Lemma insertion_sort_permutes cmp l : insertion_sort cmp l ≡ₚ l.
Proof.
  induction l as [|x l IH]; simpl; [done|]. rewrite insert_entry_permutes.
  by apply Permutation_cons.
Qed.

Lemma insert_entry_sorted (cmp : OverheadEntry -> OverheadEntry -> Z) x l :
  (forall y, y ∈ l -> cmp x y <= 0 \/ cmp y x <= 0) ->
  (forall y z, y ∈ l -> z ∈ l -> cmp x y <= 0 -> cmp y z <= 0 -> cmp x z <= 0) ->
  StronglySorted (fun x y => cmp x y <= 0) l ->
  StronglySorted (fun x y => cmp x y <= 0) (insert_entry cmp x l).
Proof.
  intros Htot Htr Hs. induction Hs as [|y l Hs IH Hy]; simpl; [repeat constructor|].
  destruct (Z.leb_spec (cmp x y) 0) as [Hle|Hgt].
  - constructor; [by constructor|]. constructor; [done|]. rewrite Forall_forall in *.
    intros z Hz. apply (Htr y z); [by left|by right|done|by apply Hy].
  - constructor.
    + apply IH; [intros z Hz; apply Htot; by right|].
      intros a b Ha Hb. apply Htr; by right.
    + rewrite insert_entry_permutes. constructor; [|done].
      destruct (Htot y); [by left|lia|done].
Qed.

Lemma insertion_sort_sorts (cmp : OverheadEntry -> OverheadEntry -> Z) l :
  (forall x y, x ∈ l -> y ∈ l -> cmp x y <= 0 \/ cmp y x <= 0) ->
  (forall x y z, x ∈ l -> y ∈ l -> z ∈ l -> cmp x y <= 0 -> cmp y z <= 0 -> cmp x z <= 0) ->
  StronglySorted (fun x y => cmp x y <= 0) (insertion_sort cmp l).
Proof.
  induction l as [|x l IH]; intros Htot Htr; simpl; [constructor|].
  apply insert_entry_sorted.
  - intros y Hy. rewrite insertion_sort_permutes in Hy. apply Htot; [by left|by right].
  - intros y z Hy Hz. rewrite insertion_sort_permutes in Hy, Hz. apply Htr; [by left|by right|by right].
  - apply IH; [intros a b Ha Hb; apply Htot; by right|].
    intros a b c Ha Hb Hc. apply Htr; by right.
Qed.

Definition flit (m k : Z) : float :=
  SFdiv 24 128 (binary_normalize 24 128 m 0 false) (binary_normalize 24 128 (10 ^ k) 0 false).

Definition demo_hb : heartbeat_env :=
  mkHeartbeatEnv (mkHeartbeatArgs 100000 1 10000 500000 (of_Z 3) (dlit 8 1) (dlit 3 1)) 2
    (flit 1 1) (flit 1 1) (flit 12 1) (flit 85 2) true true true true 0
    (fun _ => Some (mkAccounting 1 0 1000)) (fun _ => of_Z 100) (fun t => Some (Z.of_nat t, 0))
    insertion_sort (fun _ => []).

#[export] Instance demo_qsort : Qsort demo_hb.
Proof. split; [apply insertion_sort_permutes|apply insertion_sort_sorts]. Qed.

Definition demo_run (ops : list lifecycle_op) : world :=
  match run_ops demo_env ops demo_world with Done _ w => w | Exited w => w end.

Lemma demo_run_consistent ops w :
  run_ops demo_env ops demo_world = Done tt w -> consistent (demo_run ops).
Proof.
  intros E. pose proof (preserves_run_ops demo_env ops
    demo_world (attach_tables_consistent (fun _ => true) [(4096, 8192); (4112, 8256)]
      initial_status demo_world initial_status_wf eq_refl)) as H.
  unfold demo_run. by rewrite E in *.
Qed.

Definition demo_attached : world := demo_run [OpMarkAttached 0; OpMarkAttached 1].
Definition demo_detached : world :=
  demo_run [OpMarkAttached 0; OpMarkAttached 1; OpRequestDetach 1; OpProcessPending].

Definition demo_samples : list sample :=
  [mkSample 9 d0 (dlit 2 1) (dlit 2 1) (dlit 1 1) 9 d0 true;
   mkSample 9 d0 (dlit 4 1) (dlit 4 1) (dlit 3 1) 9 d0 true].

Lemma global_detach_outcome_witness :
  exists taken rest w', sort_entries demo_hb compare_ratio_de
      (global_candidates 0 demo_samples demo_attached) = taken ++ rest /\
    global_detach demo_env demo_hb d0 (of_Z 9) demo_samples
      (mkProjection (dlit 4 1) (dlit 45 2)) demo_attached =
      Done (negb (bool_decide (taken = [])), projected (mkProjection (dlit 4 1) (dlit 45 2)) taken) w' /\
    requested_exactly d0 (of_Z 9) demo_samples taken demo_attached w'.
Proof.
  destruct (proj2 (global_detach_outcome demo_env demo_hb d0 (of_Z 9) demo_samples
    (mkProjection (dlit 4 1) (dlit 45 2)) demo_attached
    ltac:(eapply demo_run_consistent; vm_compute; reflexivity) eq_refl)
    ltac:(vm_compute; reflexivity)) as (taken & rest & w' & H1 & H2 & _ & _ & _ & H3 & _).
  exists taken, rest, w'. split; [exact H1|]. split; [exact H2|exact H3].
Defined.

Lemma reattach_within_budget_witness :
  exists taken w', reattach_section demo_env demo_hb (of_Z 100) (of_Z 100) d0 d0 demo_samples demo_detached =
      Done (negb (bool_decide (taken = []))) w' /\
    reattached_exactly demo_env demo_hb (of_Z 100) (of_Z 100) taken demo_detached w'.
Proof.
  destruct (reattach_within_budget demo_env demo_hb (of_Z 100) (of_Z 100) d0 d0 demo_samples demo_detached
    ltac:(eapply demo_run_consistent; vm_compute; reflexivity) eq_refl)
    as (taken & w' & H1 & _ & H2 & _).
  exists taken, w'. split; [exact H1|exact H2].
Defined.

(** The reattach section of this example does request a hook. *)
Example demo_reattaches :
  match reattach_section demo_env demo_hb (of_Z 100) (of_Z 100) d0 d0 demo_samples demo_detached with
  | Done b w => b = true /\ map state (hooks w) = [PEAK_HOOK_ATTACHED; PEAK_HOOK_REATTACH_REQUESTED]
  | Exited _ => False
  end.
Proof. vm_compute. split; reflexivity. Qed.

Example demo_detaches :
  match global_detach demo_env demo_hb d0 (of_Z 9) demo_samples
      (mkProjection (dlit 4 1) (dlit 45 2)) demo_attached with
  | Done (b, _) w => b = true /\ map state (hooks w) = [PEAK_HOOK_ATTACHED; PEAK_HOOK_DETACH_REQUESTED]
  | Exited _ => False
  end.
Proof. vm_compute. split; reflexivity. Qed.

Lemma heartbeat_only_requests_witness :
  exists r w', heartbeat_monitor demo_env demo_hb 3 demo_attached = Done r w' /\
    only_requests demo_attached w'.
Proof.
  destruct (heartbeat_monitor demo_env demo_hb 3 demo_attached) as [r w'|w'] eqn:E.
  - exists r, w'. split; [reflexivity|].
    exact (heartbeat_only_requests demo_env demo_hb 3 demo_attached r w' (fun _ => eq_refl) E).
  - vm_compute in E. discriminate.
Defined.

Lemma heartbeat_keeps_invariants_witness :
  match (run_ops demo_env demo_ops ;; heartbeat_monitor demo_env demo_hb 2) demo_world with
  | Done _ w' => trace_state (events w') = Some (mkProto Idle [])
  | Exited w' => exit_ok w'
  end.
Proof.
  pose proof (heartbeat_keeps_invariants demo_env demo_hb (fun _ => true)
    [(4096, 8192); (4112, 8256)] initial_status demo_world demo_ops 2 initial_status_wf eq_refl) as H.
  destruct ((run_ops demo_env demo_ops ;; heartbeat_monitor demo_env demo_hb 2) demo_world);
    [exact (proj1 H)|exact H].
Defined.
