(* ===== verification/Invocations.v ===== *)
(** * Invocation callbacks of one thread

    Models the measuring side of [src/general_listener.c]: the thread-local
    invocation stack, the direct ([fast]) and the generic enter and leave
    callbacks, the frames discarded by a non-local exit, the statistics slot
    of the thread in every listener, the exec-checkpoint shadow and the
    retirement of a slot.  A callback runs as one step: every slot has one
    writer, and the words other threads touch are modelled in [HookControl] and
    [FastLifetime].  The stack is the list of the live entries, innermost
    first; readings of the clock, addresses and Gum's answers are inputs. *)

From Stdlib Require Import SpecFloat.
From S2P Require Import Prelude HookControl Doubles.

(** ** Data *)

Record PeakGeneralInvocationEntry := mkInvocation {
  inv_listener : Z;
  function_context : Z;
  caller_return_address : Z;
  stack_address : Z;
  gum_stack_depth : Z;
  start_ns : Z;
  child_time : double;
  fast_dispatch : bool
}.

Record PeakGeneralThreadState := mkThreadState {
  stack : list PeakGeneralInvocationEntry;
  capacity : nat;
  self_mapped_id : nat;
  self_mapped_valid : bool;
  initialized : bool;
  in_callback : bool;
  dropped_thread_noted : bool;
  fast_ignore_level : Z
}.

Definition level (ts : PeakGeneralThreadState) : nat := length (stack ts).

Record PeakInvocationData := mkInvocationData {
  start_time : double;
  stack_level : nat;
  priv_initialized : bool
}.

(** One padded statistics slot of a listener. *)
Record slot_stats := mkStats {
  num_calls : Z;
  total_time : double;
  exclusive_time : double;
  max_time : float;
  min_time : float;
  fast_active : Z
}.

Record PeakGeneralListenerCheckpointShadow := mkShadow {
  sequence : Z;
  invalid : bool;
  completed_calls : Z;
  shadow_total_time : double;
  shadow_exclusive_time : double;
  shadow_max_time : float;
  shadow_min_time : float
}.

(** The aggregate of retired slots. *)
Record retired_stats := mkRetired {
  retired_num_calls : Z;
  retired_thread_count : Z;
  retired_total_time : double;
  retired_exclusive_time : double;
  retired_max_total_time : double;
  retired_min_total_time : double;
  retired_max_time : float;
  retired_min_time : float
}.

Record PeakGeneralListener := mkListener {
  callback_hook_control : Z;
  fast_lifetime_closing : bool;
  slots : list slot_stats;
  checkpoint_shadow : option (list PeakGeneralListenerCheckpointShadow);
  retired : retired_stats
}.

(** The thread's state, the listeners it can reach (by pointer), the counters
    of dropped work, the controller wakes and the fast invocations handed back
    to Gum (function context and listener). *)
Record callbacks := mkCallbacks {
  thread_data : PeakGeneralThreadState;
  listeners : gmap Z PeakGeneralListener;
  dropped_calls : Z;
  dropped_threads : Z;
  wakes : nat;
  released : list (Z * Z)
}.

(** What the callbacks read outside this state. *)
Record callback_env := mkCallbackEnv {
  callbacks_suspended : bool;
  thread_excluded : bool;
  current_thread_slot : option nat;
  peak_max_num_threads : nat;
  peak_detach_count : Z;
  unwind_frame_is_live : Z -> Z -> bool;
  stack_entry_matches : Z -> Z -> Z -> bool
}.

Definition INLINE_ENTRIES : nat := 16.
Definition G_MAXUINT : Z := UINT32_MAX.

(** ** Updates *)

Definition with_stack (s : list PeakGeneralInvocationEntry) (ts : PeakGeneralThreadState) :=
  mkThreadState s (capacity ts) (self_mapped_id ts) (self_mapped_valid ts) (initialized ts)
    (in_callback ts) (dropped_thread_noted ts) (fast_ignore_level ts).
Definition with_in_callback (b : bool) (ts : PeakGeneralThreadState) :=
  mkThreadState (stack ts) (capacity ts) (self_mapped_id ts) (self_mapped_valid ts)
    (initialized ts) b (dropped_thread_noted ts) (fast_ignore_level ts).

Definition with_thread (ts : PeakGeneralThreadState) (cb : callbacks) : callbacks :=
  mkCallbacks ts (listeners cb) (dropped_calls cb) (dropped_threads cb) (wakes cb) (released cb).
Definition with_listeners (ls : gmap Z PeakGeneralListener) (cb : callbacks) : callbacks :=
  mkCallbacks (thread_data cb) ls (dropped_calls cb) (dropped_threads cb) (wakes cb) (released cb).
Definition set_stack (s : list PeakGeneralInvocationEntry) (cb : callbacks) : callbacks :=
  with_thread (with_stack s (thread_data cb)) cb.
Definition set_in_callback (b : bool) (cb : callbacks) : callbacks :=
  with_thread (with_in_callback b (thread_data cb)) cb.
Definition with_wake (cb : callbacks) : callbacks :=
  mkCallbacks (thread_data cb) (listeners cb) (dropped_calls cb) (dropped_threads cb)
    (S (wakes cb)) (released cb).
Definition with_release (r : Z * Z) (cb : callbacks) : callbacks :=
  mkCallbacks (thread_data cb) (listeners cb) (dropped_calls cb) (dropped_threads cb)
    (wakes cb) (released cb ++ [r]).

Definition with_slots (ss : list slot_stats) (l : PeakGeneralListener) :=
  mkListener (callback_hook_control l) (fast_lifetime_closing l) ss (checkpoint_shadow l) (retired l).
Definition with_control (c : Z) (l : PeakGeneralListener) :=
  mkListener c (fast_lifetime_closing l) (slots l) (checkpoint_shadow l) (retired l).
Definition with_shadow (s : option (list PeakGeneralListenerCheckpointShadow)) (l : PeakGeneralListener) :=
  mkListener (callback_hook_control l) (fast_lifetime_closing l) (slots l) s (retired l).
Definition with_retired (r : retired_stats) (l : PeakGeneralListener) :=
  mkListener (callback_hook_control l) (fast_lifetime_closing l) (slots l) (checkpoint_shadow l) r.

Definition update_listener (self : Z) (f : PeakGeneralListener -> PeakGeneralListener)
    (cb : callbacks) : callbacks := with_listeners (alter f self (listeners cb)) cb.
Definition update_slot (self : Z) (index : nat) (f : slot_stats -> slot_stats) (cb : callbacks)
    : callbacks := update_listener self (fun l => with_slots (alter f index (slots l)) l) cb.

(** The thread's slot in a listener. *)
Definition slot_of (self : Z) (index : nat) (cb : callbacks) : option slot_stats :=
  l ← listeners cb !! self; slots l !! index.

Definition with_active (n : Z) (s : slot_stats) : slot_stats :=
  mkStats (num_calls s) (total_time s) (exclusive_time s) (max_time s) (min_time s) n.

(** ** Frames in flight *)

Definition fast_active_add (self : Z) (index : nat) (cb : callbacks) : bool * callbacks :=
  match slot_of self index cb with
  | Some s => if fast_active s =? G_MAXUINT then (false, cb)
              else (true, update_slot self index (with_active (fast_active s + 1)) cb)
  | None => (true, cb)
  end.

Definition active_minus (s : slot_stats) : slot_stats :=
  if 0 <? fast_active s then with_active (fast_active s - 1) s else s.

Definition fast_active_remove (self : Z) (index : nat) (cb : callbacks) : callbacks :=
  update_slot self index active_minus cb.

Definition is_closing (self : Z) (cb : callbacks) : bool :=
  match listeners cb !! self with Some l => fast_lifetime_closing l | None => false end.

(** The outcome of [fast_abandon_remove]: the frame is removed, and must be
    released when the listener is closing. *)
Definition fast_abandon_remove (self : Z) (index : nat) (cb : callbacks) : bool * callbacks :=
  (is_closing self cb, fast_active_remove self index cb).

Definition abandon_entry (entry : PeakGeneralInvocationEntry) (cb : callbacks) : callbacks :=
  if fast_dispatch entry && negb (inv_listener entry =? 0) then
    let '(release_required, cb) :=
      fast_abandon_remove (inv_listener entry) (self_mapped_id (thread_data cb)) cb in
    if release_required : bool
    then with_release (function_context entry, inv_listener entry) cb else cb
  else cb.

(** Abandons the entries of [s] while [dead] holds of the innermost one. *)
Fixpoint abandon_while (dead : PeakGeneralInvocationEntry -> bool)
    (s : list PeakGeneralInvocationEntry) (cb : callbacks) : callbacks :=
  match s with
  | [] => set_stack [] cb
  | e :: s' => if dead e then abandon_while dead s' (abandon_entry e (set_stack s' cb))
               else set_stack s cb
  end.

Definition abandon_frames (dead : PeakGeneralInvocationEntry -> bool) (cb : callbacks) : callbacks :=
  abandon_while dead (stack (thread_data cb)) cb.

Definition thread_state_release_frames (cb : callbacks) : callbacks :=
  let cb := abandon_frames (fun _ => true) cb in
  let ts := thread_data cb in
  with_thread (mkThreadState [] INLINE_ENTRIES (self_mapped_id ts) (self_mapped_valid ts)
                 (initialized ts) false (dropped_thread_noted ts) (fast_ignore_level ts)) cb.

Definition thread_state_destroy (cb : callbacks) : callbacks :=
  let cb := thread_state_release_frames cb in
  let ts := thread_data cb in
  with_thread (mkThreadState (stack ts) (capacity ts) (self_mapped_id ts) false false
                 (in_callback ts) false (fast_ignore_level ts)) cb.

Definition release_current_thread_state (cb : callbacks) : callbacks :=
  if initialized (thread_data cb) then thread_state_destroy cb else cb.

Definition release_current_thread_frames_preserve_slot (cb : callbacks) : callbacks :=
  if initialized (thread_data cb) then thread_state_release_frames cb else cb.

Definition with_ignore (n : Z) (cb : callbacks) : callbacks :=
  let ts := thread_data cb in
  with_thread (mkThreadState (stack ts) (capacity ts) (self_mapped_id ts) (self_mapped_valid ts)
                 (initialized ts) (in_callback ts) (dropped_thread_noted ts) n) cb.

Definition fast_ignore_current_thread (cb : callbacks) : callbacks :=
  with_ignore (wrap 32 (fast_ignore_level (thread_data cb) + 1)) cb.

Definition fast_unignore_current_thread (cb : callbacks) : callbacks :=
  let n := fast_ignore_level (thread_data cb) in
  if 0 <? n then with_ignore (n - 1) cb else cb.

Section Callbacks.
Context (env : callback_env).

(** [SIZE_MAX] for the slot of an unmapped thread is never used as an index. *)
Definition thread_state_initialize (cb : callbacks) : callbacks :=
  let ts := thread_data cb in
  if initialized ts then cb
  else
    let '(mapped_tid, mapped_found) :=
      match current_thread_slot env with
      | Some t => if (peak_max_num_threads env <=? t)%nat then (0%nat, false) else (t, true)
      | None => (0%nat, false)
      end in
    with_thread (mkThreadState [] INLINE_ENTRIES mapped_tid mapped_found true (in_callback ts)
                   false (fast_ignore_level ts)) cb.

Definition note_dropped_current_thread (cb : callbacks) : callbacks :=
  let ts := thread_data cb in
  let noted := dropped_thread_noted ts in
  mkCallbacks
    (mkThreadState (stack ts) (capacity ts) (self_mapped_id ts) (self_mapped_valid ts)
       (initialized ts) (in_callback ts) true (fast_ignore_level ts))
    (listeners cb) (dropped_calls cb +u64 1)
    (if noted then dropped_threads cb else dropped_threads cb +u64 1) (wakes cb) (released cb).

(** ** The stack *)

Definition push_capacity (ts : PeakGeneralThreadState) : nat :=
  if (level ts =? capacity ts)%nat then (capacity ts * 2)%nat else capacity ts.

Definition push_invocation (e : PeakGeneralInvocationEntry) (cb : callbacks) : callbacks :=
  let ts := thread_data cb in
  with_thread (mkThreadState (e :: stack ts) (push_capacity ts) (self_mapped_id ts)
                 (self_mapped_valid ts) (initialized ts) (in_callback ts)
                 (dropped_thread_noted ts) (fast_ignore_level ts)) cb.

Definition fresh_priv : PeakInvocationData := mkInvocationData d0 0 false.

(** Returns the success flag and the child time of the popped entry. *)
Definition pop_invocation (priv : PeakInvocationData) (cb : callbacks)
    : bool * double * PeakInvocationData * callbacks :=
  let ts := thread_data cb in
  let cleared := mkInvocationData (start_time priv) 0 false in
  if negb (priv_initialized priv) || (level ts =? 0)%nat || (stack_level priv =? 0)%nat
     || (level ts <? stack_level priv)%nat
  then (false, d0, cleared, cb)
  else
    let above := (level ts - stack_level priv)%nat in
    let cb := fold_left (fun cb e => abandon_entry e cb) (take above (stack ts)) cb in
    match drop above (stack ts) with
    | e :: rest => (true, child_time e, cleared, abandon_entry e (set_stack rest cb))
    | [] => (false, d0, cleared, cb)
    end.

(** ** Statistics *)

Definition num_calls_increment (s : slot_stats) : slot_stats :=
  mkStats (num_calls s +u64 1) (total_time s) (exclusive_time s) (max_time s) (min_time s)
    (fast_active s).

Definition exclusive_duration (total_duration child_duration : double) : double :=
  if dge child_duration total_duration then d0 else dsub total_duration child_duration.

(** The updates a completed call makes to its slot. *)
Definition record_duration (duration exclusive : double) (s : slot_stats) : slot_stats :=
  mkStats (num_calls s) (dadd (total_time s) duration) (dadd (exclusive_time s) exclusive)
    (if dgt duration (of_float (max_time s)) then to_float duration else max_time s)
    (if dlt duration (of_float (min_time s)) || (num_calls s =? 1) then to_float duration
     else min_time s)
    (fast_active s).

(** Adds a completed call to the innermost remaining entry. *)
Definition charge_parent (duration : double) (s : list PeakGeneralInvocationEntry)
    : list PeakGeneralInvocationEntry :=
  match s with
  | [] => []
  | e :: s => mkInvocation (inv_listener e) (function_context e) (caller_return_address e)
                (stack_address e) (gum_stack_depth e) (start_ns e)
                (dadd (child_time e) duration) (fast_dispatch e) :: s
  end.

Definition shadow_completed (duration exclusive : double)
    (sh : PeakGeneralListenerCheckpointShadow) (observed : Z) : PeakGeneralListenerCheckpointShadow :=
  let calls := completed_calls sh +u64 1 in
  mkShadow (observed +u64 2) (invalid sh) calls (dadd (shadow_total_time sh) duration)
    (dadd (shadow_exclusive_time sh) exclusive)
    (if calls =? 1 then to_float duration
     else if dgt duration (of_float (shadow_max_time sh)) then to_float duration
     else shadow_max_time sh)
    (if calls =? 1 then to_float duration
     else if dlt duration (of_float (shadow_min_time sh)) then to_float duration
     else shadow_min_time sh).

Definition shadow_invalidate (sh : PeakGeneralListenerCheckpointShadow) :=
  mkShadow (sequence sh) true (completed_calls sh) (shadow_total_time sh)
    (shadow_exclusive_time sh) (shadow_max_time sh) (shadow_min_time sh).

(** The attempts of [checkpoint_shadow_update].  [seen] lists the sequence
    words loaded by failed exchanges; without interference it is empty. *)
Fixpoint shadow_attempts (attempts : nat) (observed : Z) (seen : list Z) (duration exclusive : double)
    (sh : PeakGeneralListenerCheckpointShadow) : PeakGeneralListenerCheckpointShadow :=
  match attempts with
  | O => shadow_invalidate sh
  | S attempts =>
      if invalid sh then sh
      else if Z.odd observed then shadow_invalidate sh
      else match seen with
           | [] => shadow_completed duration exclusive sh observed
           | word :: seen =>
               if Z.odd word then shadow_invalidate sh
               else shadow_attempts attempts word seen duration exclusive sh
           end
  end.

Definition checkpoint_shadow_update (duration exclusive : double)
    (sh : PeakGeneralListenerCheckpointShadow) : PeakGeneralListenerCheckpointShadow :=
  if invalid sh then sh else shadow_attempts 2 (sequence sh) [] duration exclusive sh.

Definition update_shadow (self : Z) (index : nat) (duration exclusive : double) (cb : callbacks)
    : callbacks :=
  update_listener self (fun l =>
    match checkpoint_shadow l with
    | None => l
    | Some shs => with_shadow (Some (alter (checkpoint_shadow_update duration exclusive) index shs)) l
    end) cb.

(** A completed call: its slot, the parent's child time, the shadow. *)
Definition complete_call (self : Z) (index : nat) (duration exclusive : double) (cb : callbacks)
    : callbacks :=
  update_shadow self index duration exclusive
    (set_stack (charge_parent duration (stack (thread_data cb)))
       (update_slot self index (record_duration duration exclusive) cb)).

(** ** The detach-count request of a call *)

(** [try_publish_detach_count_request] on a word no other thread changes. *)
Definition try_publish_request (word current_num_calls : Z) : bool * Z :=
  if negb (current_num_calls =? peak_detach_count env) then (false, word)
  else if hook_state_is word PEAK_HOOK_ATTACHED
  then try_publish_detach_count_request_snapshot word word
  else if negb (hook_state_is word PEAK_HOOK_UNRESOLVED) then (false, word)
  else
    let '(ok, word', control) := try_publish_initial_detach_count_crossing_snapshot word word in
    if ok then (false, word')
    else if negb (first_attached_generation_is_adjacent word control) then (false, word')
    else try_publish_detach_count_request_snapshot word' control.

(** Counts a call and publishes its request. *)
Definition count_call (self : Z) (index : nat) (cb : callbacks) : callbacks :=
  let cb := update_slot self index num_calls_increment cb in
  match listeners cb !! self, slot_of self index cb with
  | Some l, Some s =>
      let '(published, word) := try_publish_request (callback_hook_control l) (num_calls s) in
      let cb := update_listener self (with_control word) cb in
      if published then with_wake cb else cb
  | _, _ => cb
  end.

(** ** Direct dispatch *)

Inductive GumPeakFastEnterResult :=
  | GUM_PEAK_FAST_ENTER_SKIP
  | GUM_PEAK_FAST_ENTER_FALLBACK
  | GUM_PEAK_FAST_ENTER_INVOKE.

(** Whether the innermost entry was unwound, seen from a new frame. *)
Definition fast_unwound (new_stack_address : Z) (e : PeakGeneralInvocationEntry) : bool :=
  if fast_dispatch e then
    negb ((stack_address e =? 0) || (new_stack_address <? stack_address e) ||
          ((stack_address e =? new_stack_address) &&
           unwind_frame_is_live env (function_context e) (stack_address e)))
  else negb (stack_entry_matches env (gum_stack_depth e) (function_context e) (stack_address e)).

Definition fast_reap_unwound (new_stack_address : Z) (cb : callbacks) : callbacks :=
  abandon_frames (fast_unwound new_stack_address) cb.

Definition known_unwound (e : PeakGeneralInvocationEntry) : bool :=
  if fast_dispatch e then
    negb ((stack_address e =? 0) ||
          unwind_frame_is_live env (function_context e) (stack_address e))
  else negb (stack_entry_matches env (gum_stack_depth e) (function_context e) (stack_address e)).

Definition reap_known_unwound (cb : callbacks) : callbacks := abandon_frames known_unwound cb.

Definition fast_on_enter (self ctx sp return_address depth now_ns : Z) (cb : callbacks)
    : GumPeakFastEnterResult * callbacks :=
  let ts := thread_data cb in
  if in_callback ts || thread_excluded env || negb (fast_ignore_level ts =? 0)
     || callbacks_suspended env
  then (GUM_PEAK_FAST_ENTER_SKIP, cb)
  else if negb (initialized ts) then (GUM_PEAK_FAST_ENTER_FALLBACK, cb)
  else if negb (self_mapped_valid ts)
  then (GUM_PEAK_FAST_ENTER_SKIP, note_dropped_current_thread cb)
  else
    let cb := set_in_callback true cb in
    let index := self_mapped_id ts in
    let '(added, cb) := fast_active_add self index cb in
    if negb added then (GUM_PEAK_FAST_ENTER_FALLBACK, set_in_callback false cb)
    else
      let cb := fast_reap_unwound sp cb in
      let cb := push_invocation (mkInvocation self ctx return_address sp depth now_ns d0 true) cb in
      let cb := count_call self index cb in
      (GUM_PEAK_FAST_ENTER_INVOKE, set_in_callback false cb).

Definition NANOSECOND : double := dlit 1 9.

Definition fast_duration (start_ns end_ns : Z) : double :=
  dmul (of_Z (end_ns -u64 start_ns)) NANOSECOND.

Definition leave_matches (self ctx sp : Z) (e : PeakGeneralInvocationEntry) : bool :=
  (inv_listener e =? self) && (function_context e =? ctx) && (stack_address e =? sp).

(** Returns whether the frame must be released, its Gum depth and its return
    address (before pointer signing on aarch64). *)
Definition fast_on_leave (self ctx sp end_ns : Z) (cb : callbacks)
    : (bool * Z * option Z) * callbacks :=
  let ts := thread_data cb in
  if in_callback ts || negb (initialized ts) then ((false, 0, None), cb)
  else
    let cb := abandon_frames (fun e => negb (leave_matches self ctx sp e)) (set_in_callback true cb) in
    match stack (thread_data cb) with
    | [] => ((false, 0, None), set_in_callback false cb)
    | entry :: rest =>
        let cb := set_stack rest cb in
        let self := inv_listener entry in
        let index := self_mapped_id ts in
        let cb :=
          if negb (callbacks_suspended env) then
            let duration := fast_duration (start_ns entry) end_ns in
            complete_call self index duration (exclusive_duration duration (child_time entry)) cb
          else cb in
        let cb := fast_active_remove self index cb in
        ((is_closing self cb, gum_stack_depth entry, Some (caller_return_address entry)),
         set_in_callback false cb)
    end.

Definition fast_is_direct_leave (self ctx sp : Z) (cb : callbacks) : bool :=
  initialized (thread_data cb) &&
  existsb (fun e => leave_matches self ctx sp e && fast_dispatch e) (stack (thread_data cb)).

(** ** Generic dispatch *)

(** [listener] 0 is NULL.  The fields a generic entry leaves stale (return
    address and start) are 0 here. *)
Definition on_enter (listener ctx sp depth : Z) (now : double) (priv : PeakInvocationData)
    (cb : callbacks) : PeakInvocationData * callbacks :=
  if listener =? 0 then (priv, cb)
  else
    let priv := mkInvocationData (start_time priv) 0 false in
    if in_callback (thread_data cb) || thread_excluded env || callbacks_suspended env then (priv, cb)
    else
      let cb := thread_state_initialize (set_in_callback true cb) in
      if negb (self_mapped_valid (thread_data cb))
      then (priv, set_in_callback false (note_dropped_current_thread cb))
      else
        let index := self_mapped_id (thread_data cb) in
        let cb := push_invocation (mkInvocation listener ctx 0 sp depth 0 d0 false) cb in
        let stack_level := level (thread_data cb) in
        let cb := count_call listener index cb in
        (mkInvocationData now stack_level true, set_in_callback false cb).

Definition on_leave (listener : Z) (now : double) (priv : PeakInvocationData) (cb : callbacks)
    : PeakInvocationData * callbacks :=
  let ts := thread_data cb in
  if negb (priv_initialized priv) || in_callback ts then (priv, cb)
  else
    let cleared := mkInvocationData (start_time priv) 0 false in
    if listener =? 0 then
      (cleared,
       match stack ts with
       | e :: rest => if initialized ts then abandon_entry e (set_stack rest cb) else cb
       | [] => cb
       end)
    else if callbacks_suspended env then
      let '(_, _, priv, cb) := pop_invocation priv cb in (priv, cb)
    else
      let duration := dsub now (start_time priv) in
      let '(popped, child_duration, priv, cb) := pop_invocation priv (set_in_callback true cb) in
      if negb popped then (priv, set_in_callback false cb)
      else
        (priv, set_in_callback false
           (complete_call listener (self_mapped_id ts) duration
              (exclusive_duration duration child_duration) cb)).
End Callbacks.

(** ** Retirement of a slot *)

Definition zero_stats (active : Z) : slot_stats := mkStats 0 d0 d0 d0 d0 active.

Definition retire_into (s : slot_stats) (r : retired_stats) : retired_stats :=
  if num_calls s =? 0 then r
  else
    let count := if retired_thread_count r =? UINT64_MAX then retired_thread_count r
                 else retired_thread_count r + 1 in
    mkRetired (retired_num_calls r +u64 num_calls s) count
      (dadd (retired_total_time r) (total_time s))
      (dadd (retired_exclusive_time r) (exclusive_time s))
      (if dgt (total_time s) (retired_max_total_time r) then total_time s else retired_max_total_time r)
      (if dlt (total_time s) (retired_min_total_time r) || (count =? 1) then total_time s
       else retired_min_total_time r)
      (if dgt (max_time s) (retired_max_time r) then max_time s else retired_max_time r)
      (if dlt (min_time s) (retired_min_time r) || (count =? 1) then min_time s
       else retired_min_time r).

(** The shadow of a retired slot, [None] when its sequence is busy. *)
Definition reset_shadow (sh : PeakGeneralListenerCheckpointShadow)
    : option PeakGeneralListenerCheckpointShadow :=
  if Z.odd (sequence sh) then None
  else Some (mkShadow (sequence sh +u64 2) false 0 d0 d0 d0 d0).

(** Returns whether the slot may be reused. *)
Definition retire_listener_slot (slot : nat) (l : PeakGeneralListener) : bool * PeakGeneralListener :=
  match slots l !! slot with
  | None => (true, l)
  | Some s =>
      let l := with_retired (retire_into s (retired l)) l in
      let l := with_slots (<[slot:=zero_stats (fast_active s)]> (slots l)) l in
      match checkpoint_shadow l with
      | None => (true, l)
      | Some shs =>
          match shs !! slot with
          | None => (true, l)
          | Some sh =>
              match reset_shadow sh with
              | Some sh' => (true, with_shadow (Some (<[slot:=sh']> shs)) l)
              | None => (false, l)
              end
          end
      end
  end.

(** A hook of the table: its address (0 for NULL) and its listener. *)
Definition hook_row := (Z * option PeakGeneralListener)%type.

Definition retire_row (slot : nat) (h : hook_row) : bool * hook_row :=
  match h with
  | (address, Some l) =>
      if address =? 0 then (true, h)
      else let '(ok, l) := retire_listener_slot slot l in (ok, (address, Some l))
  | (_, None) => (true, h)
  end.

Definition retire_current_thread_slot (slot : nat) (hooks : list hook_row) : bool * list hook_row :=
  (forallb (fun h => (retire_row slot h).1) hooks, map (fun h => (retire_row slot h).2) hooks).

(** [peak_general_listener_total_calls]. *)
Definition total_calls (l : PeakGeneralListener) : Z :=
  fold_left (fun calls s => calls +u64 num_calls s) (slots l) (retired_num_calls (retired l)).
