(* ===== verification/InvocationProofs.v ===== *)
(** * Properties of the invocation callbacks

    A well-nested tree of calls, run through the direct callbacks, records in
    every slot exactly what the tree says; frames in flight are counted
    exactly; retirement loses nothing. *)

From Stdlib Require Import SpecFloat.
From S2P Require Import Prelude HookControl Doubles Invocations.

(** ** Slots *)

Lemma slot_of_update self index f self' j cb :
  slot_of self' j (update_slot self index f cb) =
    if decide (self' = self /\ j = index) then f <$> slot_of self' j cb else slot_of self' j cb.
Proof.
  unfold slot_of, update_slot, update_listener. simpl.
  destruct (decide (self' = self)) as [->|Hne].
  - rewrite lookup_alter_eq. destruct (listeners cb !! self) as [l|]; simpl; [|by destruct (decide _)].
    destruct (decide (j = index)) as [->|Hj].
    + rewrite list_lookup_alter_eq. by rewrite decide_True.
    + rewrite list_lookup_alter_ne by done. rewrite decide_False by tauto. done.
  - rewrite lookup_alter_ne by done. rewrite decide_False by tauto. done.
Qed.

(** Updates of a listener that leave its slots alone. *)
Lemma slot_of_listener self f self' j cb :
  (forall l, slots (f l) = slots l) -> slot_of self' j (update_listener self f cb) = slot_of self' j cb.
Proof.
  intros Hf. unfold slot_of, update_listener. simpl. destruct (decide (self' = self)) as [->|Hne].
  - rewrite lookup_alter_eq. destruct (listeners cb !! self) as [l|]; simpl; [|done]. by rewrite Hf.
  - by rewrite lookup_alter_ne.
Qed.

Lemma slot_of_shadow self index d x self' j cb :
  slot_of self' j (update_shadow self index d x cb) = slot_of self' j cb.
Proof. apply slot_of_listener. intros l. by destruct (checkpoint_shadow l). Qed.

(** Everything of the thread but its stack. *)
Definition same_thread (cb cb' : callbacks) : Prop :=
  let ts := thread_data cb in
  let ts' := thread_data cb' in
  self_mapped_id ts' = self_mapped_id ts /\ self_mapped_valid ts' = self_mapped_valid ts /\
  initialized ts' = initialized ts /\ in_callback ts' = in_callback ts /\
  fast_ignore_level ts' = fast_ignore_level ts.

Lemma set_stack_id cb : set_stack (stack (thread_data cb)) cb = cb.
Proof. by destruct cb as [[]]. Qed.

Lemma abandon_frames_none dead cb :
  match stack (thread_data cb) with [] => True | e :: _ => dead e = false end ->
  abandon_frames dead cb = cb.
Proof.
  unfold abandon_frames. destruct (stack (thread_data cb)) as [|e s] eqn:E; simpl.
  - intros _. by rewrite <- E, set_stack_id.
  - intros ->. by rewrite <- E, set_stack_id.
Qed.

Lemma count_call_effect env self index cb :
  thread_data (count_call env self index cb) = thread_data cb /\
  (forall self' j, slot_of self' j (count_call env self index cb) =
     if decide (self' = self /\ j = index) then num_calls_increment <$> slot_of self' j cb
     else slot_of self' j cb).
Proof.
  unfold count_call. set (cb1 := update_slot self index num_calls_increment cb).
  assert (thread_data cb1 = thread_data cb) as Ht by done.
  assert (forall self' j, slot_of self' j cb1 =
    if decide (self' = self /\ j = index) then num_calls_increment <$> slot_of self' j cb
    else slot_of self' j cb) as Hs by (intros; apply slot_of_update).
  destruct (listeners cb1 !! self) as [l|]; [|done]. destruct (slot_of self index cb1) as [s|]; [|done].
  destruct (try_publish_request env _ _) as [published word].
  assert (forall self' j, slot_of self' j (update_listener self (with_control word) cb1) =
    slot_of self' j cb1) as Hl by (intros; by apply slot_of_listener).
  destruct published; split; try done; intros self' j; rewrite <- Hs; apply Hl.
Qed.

(** ** Call trees *)

Record frame := mkFrame {
  f_self : Z;
  f_context : Z;
  f_sp : Z;
  f_return : Z;
  f_depth : Z;
  f_start : Z;
  f_end : Z
}.

Inductive call := Call (f : frame) (children : list call).

Definition root (c : call) : frame := match c with Call f _ => f end.

Fixpoint call_rect' (P : call -> Prop)
    (IH : forall f cs, Forall P cs -> P (Call f cs)) (c : call) : P c :=
  match c with
  | Call f cs => IH f cs ((fix go cs := match cs as cs return Forall P cs with
                           | [] => Forall_nil_2 P
                           | c :: cs => Forall_cons_2 P c cs (call_rect' P IH c) (go cs)
                           end) cs)
  end.

(** The callbacks of a tree, in the order they happen. *)
Fixpoint run_call (env : callback_env) (c : call) (cb : callbacks) : callbacks :=
  match c with
  | Call f cs =>
      let cb := (fast_on_enter env (f_self f) (f_context f) (f_sp f) (f_return f) (f_depth f)
                   (f_start f) cb).2 in
      let cb := fold_left (fun cb c => run_call env c cb) cs cb in
      (fast_on_leave env (f_self f) (f_context f) (f_sp f) (f_end f) cb).2
  end.

Definition duration (c : call) : double := fast_duration (f_start (root c)) (f_end (root c)).
Definition children_time (cs : list call) : double := fold_left (fun t c => dadd t (duration c)) cs d0.
Definition exclusive (c : call) : double :=
  match c with Call f cs => exclusive_duration (duration c) (children_time cs) end.

(** What one slot sees of a tree. *)
Inductive slot_event := SEnter | SLeave (duration exclusive : double).

Definition slot_step (s : slot_stats) (e : slot_event) : slot_stats :=
  match e with
  | SEnter => num_calls_increment (with_active (fast_active s + 1) s)
  | SLeave d x => active_minus (record_duration d x s)
  end.

Fixpoint slot_events (self : Z) (c : call) : list slot_event :=
  match c with
  | Call f cs =>
      (if decide (f_self f = self) then [SEnter] else []) ++
      concat (map (slot_events self) cs) ++
      (if decide (f_self f = self) then [SLeave (duration c) (exclusive c)] else [])
  end.

Definition slot_after (self : Z) (c : call) (s : slot_stats) : slot_stats :=
  fold_left slot_step (slot_events self c) s.

(** Stack addresses decrease inwards. *)
Fixpoint nested_below (limit : Z) (c : call) : Prop :=
  match c with
  | Call f cs => 0 < f_sp f < limit /\ fold_right (fun c P => nested_below (f_sp f) c /\ P) True cs
  end.

Fixpoint height (c : call) : Z :=
  match c with Call f cs => 1 + fold_right Z.max 0 (map height cs) end.

Fixpoint frames (c : call) : list frame :=
  match c with Call f cs => f :: concat (map frames cs) end.

(** An address the innermost live frame is above. *)
Definition stack_above (sp : Z) (cb : callbacks) : Prop :=
  match stack (thread_data cb) with
  | [] => True
  | e :: _ => fast_dispatch e = true /\ sp <= stack_address e
  end.

Definition ready (env : callback_env) (index : nat) (cb : callbacks) : Prop :=
  callbacks_suspended env = false /\ thread_excluded env = false /\
  self_mapped_id (thread_data cb) = index /\ self_mapped_valid (thread_data cb) = true /\
  initialized (thread_data cb) = true /\ in_callback (thread_data cb) = false /\
  fast_ignore_level (thread_data cb) = 0.

(** Room for [n] more frames in the counters of the thread's slots. *)
Definition active_room (index : nat) (n : Z) (cb : callbacks) : Prop :=
  forall self s, slot_of self index cb = Some s -> 0 <= fast_active s /\ fast_active s + n <= G_MAXUINT.

Lemma slot_events_active self c s :
  0 <= fast_active s ->
  fast_active (fold_left slot_step (slot_events self c) s) = fast_active s.
Proof.
  revert s. induction c as [f cs IH] using call_rect'. intros s Hs. cbn [slot_events].
  rewrite !fold_left_app.
  assert (forall s, 0 <= fast_active s ->
    fast_active (fold_left slot_step (concat (map (slot_events self) cs)) s) = fast_active s) as Hcs.
  { clear s Hs. induction IH as [|c cs Hc _ IHcs]; intros s Hs; simpl; [done|].
    rewrite fold_left_app, IHcs by (rewrite Hc; done). by apply Hc. }
  destruct (decide (f_self f = self)); simpl; [|by apply Hcs].
  unfold active_minus. simpl. rewrite Hcs by (simpl; lia). simpl.
  rewrite (proj2 (Z.ltb_lt _ _)) by lia. simpl. lia.
Qed.

Lemma option_fmap_fmap {A B C} (f : A -> B) (g : B -> C) (o : option A) :
  g <$> (f <$> o) = (fun x => g (f x)) <$> o.
Proof. by destruct o. Qed.

Lemma enter_effect env index f limit s cb :
  ready env index cb -> 0 < f_sp f < limit -> stack_above limit cb ->
  slot_of (f_self f) index cb = Some s -> fast_active s < G_MAXUINT ->
  let cb' := (fast_on_enter env (f_self f) (f_context f) (f_sp f) (f_return f) (f_depth f)
                (f_start f) cb).2 in
  ready env index cb' /\
  stack (thread_data cb') =
    mkInvocation (f_self f) (f_context f) (f_return f) (f_sp f) (f_depth f) (f_start f) d0 true
      :: stack (thread_data cb) /\
  (forall self j, slot_of self j cb' =
     if decide (self = f_self f /\ j = index) then (fun s => slot_step s SEnter) <$> slot_of self j cb
     else slot_of self j cb).
Proof.
  intros (Es & Ee & Ei & Ev & En & Ec & Eg) Hsp Habove Hslot Hact. unfold fast_on_enter.
  rewrite Ec, Ee, Eg, Es, En, Ev. cbn [negb orb Z.eqb]. rewrite Ei.
  set (cb1 := set_in_callback true cb).
  assert (slot_of (f_self f) index cb1 = Some s) as Hslot1 by done.
  unfold fast_active_add. rewrite Hslot1, (proj2 (Z.eqb_neq _ _)) by lia. cbn [negb].
  set (cb2 := update_slot (f_self f) index (with_active (fast_active s + 1)) cb1).
  unfold fast_reap_unwound. rewrite (abandon_frames_none _ cb2).
  2:{ change (stack (thread_data cb2)) with (stack (thread_data cb)). unfold stack_above in Habove.
      destruct (stack (thread_data cb)) as [|e r]; [done|]. destruct Habove as [Hf Ha].
      unfold fast_unwound. rewrite Hf. rewrite (proj2 (Z.ltb_lt (f_sp f) (stack_address e))) by lia.
      by rewrite orb_true_r. }
  set (cb3 := push_invocation _ cb2).
  destruct (count_call_effect env (f_self f) index cb3) as [Ht Hs]. cbn [snd].
  split; [|split].
  - unfold ready, set_in_callback, with_thread, with_in_callback. simpl. rewrite Ht. simpl. done.
  - unfold set_in_callback, with_thread. simpl. by rewrite Ht.
  - intros self j. change (slot_of self j (set_in_callback false (count_call env (f_self f) index cb3)))
      with (slot_of self j (count_call env (f_self f) index cb3)). rewrite Hs.
    change (slot_of self j cb3) with (slot_of self j cb2). unfold cb2. rewrite slot_of_update.
    change (slot_of self j cb1) with (slot_of self j cb).
    destruct (decide (self = f_self f /\ j = index)) as [[-> ->]|]; [|done].
    rewrite Hslot. done.
Qed.

Lemma leave_effect env index f e rest cb :
  ready env index cb -> stack (thread_data cb) = e :: rest ->
  inv_listener e = f_self f -> function_context e = f_context f -> stack_address e = f_sp f ->
  start_ns e = f_start f ->
  let cb' := (fast_on_leave env (f_self f) (f_context f) (f_sp f) (f_end f) cb).2 in
  let d := fast_duration (f_start f) (f_end f) in
  ready env index cb' /\ stack (thread_data cb') = charge_parent d rest /\
  (forall self j, slot_of self j cb' =
     if decide (self = f_self f /\ j = index)
     then (fun s => slot_step s (SLeave d (exclusive_duration d (child_time e)))) <$> slot_of self j cb
     else slot_of self j cb).
Proof.
  intros (Es & Ee & Ei & Ev & En & Ec & Eg) Est E1 E2 E3 E4. unfold fast_on_leave.
  rewrite Ec, En. cbn [negb orb]. rewrite (abandon_frames_none _ (set_in_callback true cb)).
  2:{ simpl. rewrite Est. unfold leave_matches. by rewrite E1, E2, E3, !Z.eqb_refl. }
  change (stack (thread_data (set_in_callback true cb))) with (stack (thread_data cb)).
  rewrite Est, Es, Ei, E1, E4. cbn [negb].
  set (d := fast_duration (f_start f) (f_end f)). set (x := exclusive_duration d (child_time e)).
  set (cb1 := set_stack rest (set_in_callback true cb)). cbn [snd].
  split; [|split].
  - unfold ready. simpl. done.
  - done.
  - intros self j.
    change (slot_of self j (set_in_callback false (fast_active_remove (f_self f) index
      (complete_call (f_self f) index d x cb1))))
      with (slot_of self j (fast_active_remove (f_self f) index (complete_call (f_self f) index d x cb1))).
    unfold fast_active_remove. rewrite slot_of_update. unfold complete_call. rewrite slot_of_shadow.
    change (slot_of self j (set_stack (charge_parent d (stack (thread_data cb1)))
      (update_slot (f_self f) index (record_duration d x) cb1)))
      with (slot_of self j (update_slot (f_self f) index (record_duration d x) cb1)).
    rewrite slot_of_update. change (slot_of self j cb1) with (slot_of self j cb).
    destruct (decide (self = f_self f /\ j = index)) as [[-> ->]|]; [|done].
    by rewrite option_fmap_fmap.
Qed.

Definition with_child (t : double) (e : PeakGeneralInvocationEntry) : PeakGeneralInvocationEntry :=
  mkInvocation (inv_listener e) (function_context e) (caller_return_address e) (stack_address e)
    (gum_stack_depth e) (start_ns e) t (fast_dispatch e).

Definition known (index : nat) (fs : list frame) (cb : callbacks) : Prop :=
  forall f, f ∈ fs -> is_Some (slot_of (f_self f) index cb).

(** The slots after the events [ev] of the thread's index. *)
Definition slots_after (index : nat) (ev : Z -> list slot_event) (cb cb' : callbacks) : Prop :=
  forall self j, slot_of self j cb' =
    if decide (j = index) then fold_left slot_step (ev self) <$> slot_of self j cb
    else slot_of self j cb.

Lemma slots_after_known index ev fs cb cb' :
  slots_after index ev cb cb' -> known index fs cb -> known index fs cb'.
Proof.
  intros Hs Hk f Hf. rewrite Hs, decide_True by done. destruct (Hk f Hf) as [s ->]. by eexists.
Qed.

Lemma slots_after_trans index ev1 ev2 cb1 cb2 cb3 :
  slots_after index ev1 cb1 cb2 -> slots_after index ev2 cb2 cb3 ->
  slots_after index (fun self => ev1 self ++ ev2 self) cb1 cb3.
Proof.
  intros H1 H2 self j. rewrite H2. destruct (decide (j = index)) as [->|Hne].
  - rewrite H1, decide_True by done. rewrite option_fmap_fmap.
    destruct (slot_of self index cb1); simpl; [|done]. by rewrite fold_left_app.
  - by rewrite H1, decide_False.
Qed.

(** What running a tree does, for any state it can run from. *)
Definition runs_exactly (env : callback_env) (index : nat) (c : call) : Prop :=
  forall limit cb, ready env index cb -> nested_below limit c -> stack_above limit cb ->
    known index (frames c) cb -> active_room index (height c) cb ->
    ready env index (run_call env c cb) /\
    stack (thread_data (run_call env c cb)) = charge_parent (duration c) (stack (thread_data cb)) /\
    slots_after index (fun self => slot_events self c) cb (run_call env c cb).

Lemma slots_after_room index n m c cb cb' :
  slots_after index (fun self => slot_events self c) cb cb' -> m <= n ->
  active_room index n cb -> active_room index m cb'.
Proof.
  intros Hs Hm Hr self s Hself. rewrite Hs, decide_True in Hself by done.
  apply fmap_Some in Hself as (s0 & H0 & ->). destruct (Hr self s0 H0) as [Ha Hb].
  rewrite slot_events_active by done. lia.
Qed.

Lemma run_children env index sp cs : Forall (runs_exactly env index) cs ->
  forall e rest cb, ready env index cb -> stack (thread_data cb) = e :: rest ->
    fast_dispatch e = true -> stack_address e = sp ->
    fold_right (fun c P => nested_below sp c /\ P) True cs ->
    known index (concat (map frames cs)) cb ->
    active_room index (fold_right Z.max 0 (map height cs)) cb ->
    let cb' := fold_left (fun cb c => run_call env c cb) cs cb in
    ready env index cb' /\
    stack (thread_data cb') =
      with_child (fold_left (fun t c => dadd t (duration c)) cs (child_time e)) e :: rest /\
    slots_after index (fun self => concat (map (slot_events self) cs)) cb cb'.
Proof.
  induction 1 as [|c cs Hc _ IH]; intros e rest cb Hr Hst Hf Ha Hn Hk Hroom; simpl.
  - split_and!; [done|by rewrite Hst; destruct e|]. intros self j.
    destruct (decide (j = index)); [|done]. by destruct (slot_of self j cb).
  - destruct Hn as [Hn1 Hn2].
    destruct (Hc sp cb Hr Hn1) as (Hr1 & Hst1 & Hs1).
    { unfold stack_above. rewrite Hst. split; [done|lia]. }
    { intros f Hf1. apply Hk. simpl. apply elem_of_app. by left. }
    { intros self s Hself. destruct (Hroom self s Hself) as [? ?]. simpl in *. lia. }
    rewrite Hst in Hst1. simpl in Hst1.
    destruct (IH (with_child (dadd (child_time e) (duration c)) e) rest (run_call env c cb) Hr1 Hst1 Hf Ha Hn2)
      as (Hr2 & Hst2 & Hs2).
    { eapply slots_after_known; [exact Hs1|]. intros f Hf1. apply Hk. simpl. apply elem_of_app. by right. }
    { eapply slots_after_room; [exact Hs1| |exact Hroom]. simpl. lia. }
    split_and!; [done|done|]. by eapply slots_after_trans.
Qed.

(** One event of one listener. *)
Lemma slots_after_at (index : nat) (self0 self : Z) (j : nat) (e : slot_event) (o : option slot_stats) :
  (if decide (self = self0 /\ j = index) then (fun s => slot_step s e) <$> o else o) =
  (if decide (j = index)
   then fold_left slot_step (if decide (self0 = self) then [e] else []) <$> o else o).
Proof.
  destruct (decide (j = index)) as [->|Hj].
  - destruct (decide (self0 = self)) as [->|Hne].
    + by rewrite decide_True.
    + rewrite decide_False by (intros [? ?]; congruence). by destruct o.
  - by rewrite decide_False by (intros [? ?]; congruence).
Qed.

Lemma run_call_exact env index c : runs_exactly env index c.
Proof.
  induction c as [f cs IH] using call_rect'. intros limit cb Hr [Hsp Hn] Habove Hk Hroom.
  destruct (Hk f) as [s Hs]; [by left|].
  assert (0 <= fold_right Z.max 0 (map height cs)) as Hpos by (clear; induction cs; simpl; lia).
  destruct (Hroom _ _ Hs) as [Hs0 Hs1]. simpl in Hs1.
  destruct (enter_effect env index f limit s cb Hr Hsp Habove Hs ltac:(lia)) as (Hr1 & Hst1 & Hsl1).
  cbn [run_call]. set (cb1 := (fast_on_enter _ _ _ _ _ _ _ cb).2) in *.
  assert (slots_after index (fun self => if decide (f_self f = self) then [SEnter] else []) cb cb1) as Ha1.
  { intros self j. rewrite Hsl1. by apply slots_after_at. }
  destruct (run_children env index (f_sp f) cs IH _ _ cb1 Hr1 Hst1 eq_refl eq_refl Hn)
    as (Hr2 & Hst2 & Ha2).
  { eapply slots_after_known; [exact Ha1|]. intros f' Hf'. apply Hk. by right. }
  { intros self s1 Hself. rewrite Ha1, decide_True in Hself by done.
    apply fmap_Some in Hself as (s0 & H0 & ->). destruct (Hroom _ _ H0) as [? Hle]. simpl in Hle.
    destruct (decide (f_self f = self)); simpl; lia. }
  set (cb2 := fold_left _ cs cb1) in *.
  destruct (leave_effect env index f _ _ cb2 Hr2 Hst2 eq_refl eq_refl eq_refl eq_refl) as (Hr3 & Hst3 & Hsl3).
  split_and!; [done|exact Hst3|].
  assert (slots_after index (fun self => if decide (f_self f = self)
    then [SLeave (duration (Call f cs)) (exclusive (Call f cs))] else []) cb2
    (fast_on_leave env (f_self f) (f_context f) (f_sp f) (f_end f) cb2).2) as Ha3.
  { intros self j. rewrite Hsl3. by apply slots_after_at. }
  exact (slots_after_trans _ _ _ _ _ _ Ha1 (slots_after_trans _ _ _ _ _ _ Ha2 Ha3)).
Qed.

(** ** What a tree records *)

(** The completed calls of a listener, in order of completion: duration and
    exclusive duration. *)
Fixpoint completed (self : Z) (c : call) : list (double * double) :=
  match c with
  | Call f cs =>
      concat (map (completed self) cs) ++
      (if decide (f_self f = self) then [(duration c, exclusive c)] else [])
  end.

Fixpoint call_count (self : Z) (c : call) : Z :=
  match c with
  | Call f cs =>
      (if decide (f_self f = self) then 1 else 0) + fold_right Z.add 0 (map (call_count self) cs)
  end.

Definition max_step (m : float) (d : double) : float :=
  if dgt d (of_float m) then to_float d else m.

(** The statistics that do not depend on when a call is counted. *)
Definition recorded (cs : list (double * double)) (s s' : slot_stats) : Prop :=
  total_time s' = fold_left dadd (map fst cs) (total_time s) /\
  exclusive_time s' = fold_left dadd (map snd cs) (exclusive_time s) /\
  max_time s' = fold_left max_step (map fst cs) (max_time s).

Lemma recorded_app cs1 cs2 s1 s2 s3 :
  recorded cs1 s1 s2 -> recorded cs2 s2 s3 -> recorded (cs1 ++ cs2) s1 s3.
Proof.
  intros (A1 & B1 & C1) (A2 & B2 & C2). unfold recorded.
  by rewrite !map_app, !fold_left_app, A2, B2, C2, A1, B1, C1.
Qed.

Lemma active_minus_stats s :
  num_calls (active_minus s) = num_calls s /\ total_time (active_minus s) = total_time s /\
  exclusive_time (active_minus s) = exclusive_time s /\ max_time (active_minus s) = max_time s /\
  min_time (active_minus s) = min_time s.
Proof. unfold active_minus. by destruct (0 <? fast_active s). Qed.

Lemma leave_recorded d x s : recorded [(d, x)] s (slot_step s (SLeave d x)).
Proof.
  unfold slot_step. destruct (active_minus_stats (record_duration d x s)) as (_ & E1 & E2 & E3 & _).
  unfold recorded. rewrite E1, E2, E3. done.
Qed.

Lemma slot_after_recorded self c s : recorded (completed self c) s (slot_after self c s).
Proof.
  unfold slot_after. revert s. induction c as [f cs IH] using call_rect'. intros s.
  cbn [slot_events completed]. rewrite !fold_left_app.
  assert (forall s, recorded (concat (map (completed self) cs)) s
    (fold_left slot_step (concat (map (slot_events self) cs)) s)) as Hcs.
  { clear s. induction IH as [|c cs Hc _ IHcs]; intros s; simpl; [done|].
    rewrite fold_left_app. eapply recorded_app; [apply Hc|apply IHcs]. }
  destruct (decide (f_self f = self)).
  - eapply recorded_app; [|apply leave_recorded]. destruct (Hcs (slot_step s SEnter)) as (A & B & C).
    done.
  - rewrite app_nil_r. apply Hcs.
Qed.

Lemma call_count_nonneg self c : 0 <= call_count self c.
Proof.
  induction c as [f cs IH] using call_rect'. cbn [call_count].
  assert (0 <= fold_right Z.add 0 (map (call_count self) cs)) by (induction IH; simpl; lia).
  destruct (decide _); lia.
Qed.

Lemma wrap_wrap_add a b : wrap 64 (wrap 64 a + b) = wrap 64 (a + b).
Proof. unfold wrap. by rewrite Zplus_mod_idemp_l. Qed.

Lemma leave_num_calls s d x : num_calls (slot_step s (SLeave d x)) = num_calls s.
Proof. apply (active_minus_stats (record_duration d x s)). Qed.
Lemma enter_num_calls s : num_calls (slot_step s SEnter) = num_calls s +u64 1.
Proof. done. Qed.

Lemma slot_after_num_calls self c s :
  is_u64 (num_calls s) -> num_calls (slot_after self c s) = num_calls s +u64 call_count self c.
Proof.
  unfold slot_after. intros Hu. assert (num_calls s = wrap 64 (num_calls s)) as Hw.
  { symmetry. apply wrap_small. unfold is_u64, UINT64_MAX in Hu. lia. }
  revert s Hu Hw. induction c as [f cs IH] using call_rect'. intros s Hu Hw.
  cbn [slot_events call_count]. rewrite !fold_left_app.
  assert (forall s, num_calls s = wrap 64 (num_calls s) ->
    num_calls (fold_left slot_step (concat (map (slot_events self) cs)) s) =
    num_calls s +u64 fold_right Z.add 0 (map (call_count self) cs)) as Hcs.
  { clear s Hu Hw. induction IH as [|c cs Hc _ IHcs]; intros s Hw; simpl.
    - by rewrite Z.add_0_r.
    - assert (is_u64 (num_calls s)) as Hu.
      { rewrite Hw. pose proof (wrap_range 64 (num_calls s) ltac:(lia)). unfold is_u64, UINT64_MAX. lia. }
      rewrite fold_left_app, IHcs, Hc by (try done; rewrite Hc by done; by rewrite wrap_idemp).
      rewrite wrap_wrap_add. f_equal. lia. }
  destruct (decide (f_self f = self)); cbn [fold_left].
  - rewrite leave_num_calls, Hcs by (rewrite enter_num_calls; by rewrite wrap_idemp).
    rewrite enter_num_calls, wrap_wrap_add. f_equal. lia.
  - by rewrite Hcs.
Qed.

(** ** The least time of a recursive first call *)

(** A double without the minus sign, zeros and NaN apart. *)
Definition not_negative (x : double) : Prop :=
  match x with S754_finite true _ _ | S754_infinity true => False | _ => True end.

Lemma not_negative_dlt x : not_negative x -> dlt x d0 = false.
Proof. by destruct x as [[]|[]| |[] m e]. Qed.

Lemma binary_round_aux_sign p q m e l : not_negative (binary_round_aux p q false m e l).
Proof.
  unfold binary_round_aux. destruct (shr_fexp p q m e l) as [mrs' e'].
  destruct (shr_fexp p q _ e' loc_Exact) as [mrs'' e'']. simpl.
  destruct (shr_m mrs''); try done. by destruct (e'' <=? q - p).
Qed.

Lemma of_Z_not_negative z : 0 <= z -> not_negative (of_Z z).
Proof.
  intros Hz. unfold of_Z, binary_normalize. destruct z; [done| |lia].
  unfold binary_round. destruct (shl_align _ _ _). apply binary_round_aux_sign.
Qed.

Lemma dmul_nanosecond x : not_negative x -> not_negative (dmul x NANOSECOND).
Proof.
  intros Hx. assert (exists m e, NANOSECOND = S754_finite false m e) as (m & e & ->).
  { vm_compute. by eexists _, _. }
  destruct x as [[]|[]| |[] mx ex]; try done. apply binary_round_aux_sign.
Qed.

Lemma fast_duration_not_negative a b : dlt (fast_duration a b) d0 = false.
Proof.
  apply not_negative_dlt, dmul_nanosecond, of_Z_not_negative.
  pose proof (wrap_range 64 (b - a) ltac:(lia)). lia.
Qed.

(** Once a call is counted and still open, a whole further tree leaves an
    unset least time unset. *)
Lemma slot_after_min self c s :
  1 <= num_calls s -> num_calls s + call_count self c <= UINT64_MAX -> min_time s = d0 ->
  min_time (slot_after self c s) = d0.
Proof.
  unfold slot_after. revert s. induction c as [f cs IH] using call_rect'. intros s Hn Hle Hm.
  cbn [slot_events call_count] in *. rewrite !fold_left_app.
  pose proof (fun c => call_count_nonneg self c) as Hpos.
  assert (forall s, 1 <= num_calls s ->
    num_calls s + fold_right Z.add 0 (map (call_count self) cs) <= UINT64_MAX -> min_time s = d0 ->
    num_calls s <= num_calls (fold_left slot_step (concat (map (slot_events self) cs)) s) /\
    min_time (fold_left slot_step (concat (map (slot_events self) cs)) s) = d0) as Hcs.
  { clear s Hn Hle Hm. induction IH as [|c cs Hc _ IHcs]; intros s Hn Hle Hm; [done|].
    cbn [map concat fold_right] in *. rewrite fold_left_app. pose proof (Hpos c).
    assert (0 <= fold_right Z.add 0 (map (call_count self) cs)) by (clear -Hpos; induction cs; simpl; [lia|specialize (Hpos a); lia]).
    assert (num_calls (fold_left slot_step (slot_events self c) s) = num_calls s + call_count self c) as E.
    { change (fold_left slot_step (slot_events self c) s) with (slot_after self c s).
      rewrite slot_after_num_calls by (unfold is_u64; lia). apply wrap_small. unfold UINT64_MAX in *. lia. }
    destruct (IHcs (fold_left slot_step (slot_events self c) s)) as [H1 H2]; [lia|lia|apply Hc; lia||done|].
    split; [lia|done]. }
  assert (0 <= fold_right Z.add 0 (map (call_count self) cs)) by (clear -Hpos; induction cs; simpl; [lia|specialize (Hpos a); lia]).
  destruct (decide (f_self f = self)); [|by apply Hcs].
  cbn [fold_left]. set (s1 := slot_step s SEnter).
  assert (num_calls s1 = num_calls s + 1) as E1.
  { unfold s1. rewrite enter_num_calls. apply wrap_small. unfold UINT64_MAX in *. lia. }
  destruct (Hcs s1) as [H1 H2]; [lia|lia|done|].
  set (s2 := fold_left slot_step _ s1) in *. unfold slot_step.
  destruct (active_minus_stats (record_duration (duration (Call f cs)) (exclusive (Call f cs)) s2))
    as (_ & _ & _ & _ & ->).
  cbn [min_time record_duration]. rewrite H2, (proj2 (Z.eqb_neq (num_calls s2) 1)) by lia.
  change (of_float d0) with d0. unfold duration. by rewrite fast_duration_not_negative.
Qed.

(** ** Frames in flight *)

Definition in_flight (self : Z) (s : list PeakGeneralInvocationEntry) : Z :=
  Z.of_nat (countb (fun e => fast_dispatch e && (inv_listener e =? self)) s).

(** The counter of every listener is its number of live direct frames. *)
Definition balanced (index : nat) (cb : callbacks) : Prop :=
  self_mapped_id (thread_data cb) = index /\ initialized (thread_data cb) = true /\
  forall self s, self <> 0 -> slot_of self index cb = Some s ->
    fast_active s = in_flight self (stack (thread_data cb)).

Lemma in_flight_cons self e s :
  in_flight self (e :: s) =
    (if fast_dispatch e && (inv_listener e =? self) then 1 else 0) + in_flight self s.
Proof. unfold in_flight. simpl. destruct (_ && _); simpl; lia. Qed.

Lemma in_flight_nonneg self s : 0 <= in_flight self s.
Proof. unfold in_flight. lia. Qed.

(** A state balanced for the stack [s]. *)
Definition balanced_for (index : nat) (s : list PeakGeneralInvocationEntry) (cb : callbacks) : Prop :=
  self_mapped_id (thread_data cb) = index /\ initialized (thread_data cb) = true /\
  forall self st, self <> 0 -> slot_of self index cb = Some st -> fast_active st = in_flight self s.

Lemma balanced_for_same index s cb cb' :
  self_mapped_id (thread_data cb') = self_mapped_id (thread_data cb) ->
  initialized (thread_data cb') = initialized (thread_data cb) ->
  (forall self, (fast_active <$> slot_of self index cb') = (fast_active <$> slot_of self index cb)) ->
  balanced_for index s cb -> balanced_for index s cb'.
Proof.
  intros H1 H2 H3 (A & B & C). split_and!; [congruence|congruence|]. intros self st Hz Hst.
  specialize (H3 self). rewrite Hst in H3. destruct (slot_of self index cb) as [st0|] eqn:E; [|done].
  simpl in H3. injection H3 as ->. by apply C.
Qed.

Lemma active_removed index self e s cb :
  fast_dispatch e && (inv_listener e =? self) = true -> self <> 0 -> balanced_for index (e :: s) cb ->
  balanced_for index s (fast_active_remove self index cb).
Proof.
  intros He Hz (A & B & C). split_and!; [done|done|]. intros self' st Hz' Hst.
  unfold fast_active_remove in Hst. rewrite slot_of_update in Hst.
  pose proof (in_flight_nonneg self' s).
  destruct (decide (self' = self /\ index = index)) as [[-> _]|Hne].
  - apply fmap_Some in Hst as (st0 & H0 & ->). specialize (C self st0 Hz H0).
    rewrite in_flight_cons, He in C. unfold active_minus. rewrite (proj2 (Z.ltb_lt _ _)) by lia.
    simpl. lia.
  - specialize (C self' st Hz' Hst). rewrite in_flight_cons in C.
    apply andb_true_iff in He as [Hf Hl]. apply Z.eqb_eq in Hl.
    replace (inv_listener e =? self') with false in C; [by rewrite andb_false_r in C|].
    symmetry. apply Z.eqb_neq. intros Heq. apply Hne. split; congruence.
Qed.

Lemma not_counted index e s cb :
  fast_dispatch e && negb (inv_listener e =? 0) = false ->
  balanced_for index (e :: s) cb -> balanced_for index s cb.
Proof.
  intros He (A & B & C). split_and!; [done|done|]. intros self st Hz Hst.
  rewrite (C self st Hz Hst), in_flight_cons. apply andb_false_iff in He as [->|He]; [done|].
  apply negb_false_iff, Z.eqb_eq in He. rewrite He.
  rewrite (proj2 (Z.eqb_neq 0 self)) by congruence. by rewrite andb_false_r.
Qed.

Lemma abandon_entry_balanced index e s cb :
  balanced_for index (e :: s) cb -> balanced_for index s (abandon_entry e cb).
Proof.
  intros Hb. unfold abandon_entry. destruct (fast_dispatch e && _) eqn:E.
  - pose proof Hb as (A & _). apply andb_true_iff in E as [Hf Hl]. breflect. rewrite A.
    assert (balanced_for index s (fast_active_remove (inv_listener e) index cb)) as H.
    { apply (active_removed index _ e); [by rewrite Hf, Z.eqb_refl|done|done]. }
    unfold fast_abandon_remove. destruct (is_closing _ _); [|done].
    eapply balanced_for_same; [..|exact H]; done.
  - by eapply not_counted.
Qed.

Lemma balanced_set_stack index s cb : balanced_for index s cb -> balanced index (set_stack s cb).
Proof. intros (A & B & C). by split_and!. Qed.

Lemma balanced_iff index cb : balanced index cb <-> balanced_for index (stack (thread_data cb)) cb.
Proof. done. Qed.

Fixpoint drop_while {A} (p : A -> bool) (l : list A) : list A :=
  match l with
  | [] => []
  | x :: l' => if p x then drop_while p l' else l
  end.

(** [t]: frames counted besides the stack. *)
Lemma abandon_while_balanced index dead s t cb :
  balanced_for index (s ++ t) cb ->
  balanced_for index (drop_while dead s ++ t) (abandon_while dead s cb) /\
  stack (thread_data (abandon_while dead s cb)) = drop_while dead s.
Proof.
  revert cb. induction s as [|e s IH]; intros cb Hb; cbn [abandon_while drop_while]; [by split|].
  destruct (dead e); [|by split].
  apply IH, abandon_entry_balanced. by eapply balanced_for_same; [..|exact Hb].
Qed.

Lemma abandon_frames_balanced index dead cb :
  balanced index cb ->
  balanced index (abandon_frames dead cb) /\
  stack (thread_data (abandon_frames dead cb)) = drop_while dead (stack (thread_data cb)).
Proof.
  intros Hb. unfold abandon_frames.
  destruct (abandon_while_balanced index dead (stack (thread_data cb)) [] cb) as [H1 H2];
    [by rewrite app_nil_r|].
  rewrite app_nil_r, <- H2 in H1. by split.
Qed.

Lemma abandon_list_balanced index l rest cb :
  balanced_for index (l ++ rest) cb ->
  balanced_for index rest (fold_left (fun cb e => abandon_entry e cb) l cb).
Proof.
  revert cb. induction l as [|e l IH]; intros cb Hb; simpl; [done|].
  by apply IH, abandon_entry_balanced.
Qed.

Lemma count_call_balanced env index self i s cb :
  balanced_for index s cb -> balanced_for index s (count_call env self i cb).
Proof.
  destruct (count_call_effect env self i cb) as [Ht Hs]. apply balanced_for_same; [by rewrite Ht..|].
  intros self'. rewrite Hs. destruct (decide _); [|done]. by destruct (slot_of self' index cb).
Qed.

Lemma complete_call_balanced index self i d x cb :
  balanced index cb -> balanced index (complete_call self i d x cb).
Proof.
  intros Hb. unfold complete_call. set (s := stack (thread_data cb)) in *.
  assert (balanced_for index (charge_parent d s) (update_slot self i (record_duration d x) cb)) as H.
  { assert (forall self', in_flight self' (charge_parent d s) = in_flight self' s) as Hf.
    { intros self'. by destruct s. }
    destruct Hb as (A & B & C). split_and!; [done|done|]. intros self' st Hz Hst. rewrite Hf.
    rewrite slot_of_update in Hst. destruct (decide _); [|by apply C].
    apply fmap_Some in Hst as (st0 & H0 & ->). by apply (C self' st0). }
  eapply (balanced_for_same index _ (set_stack (charge_parent d s)
    (update_slot self i (record_duration d x) cb))); [done|done| |exact H].
  intros self'. by rewrite slot_of_shadow.
Qed.

Lemma pop_invocation_balanced index priv cb :
  balanced index cb -> balanced index (pop_invocation priv cb).2.
Proof.
  intros Hb. unfold pop_invocation. destruct (_ || _) eqn:Eg; [done|].
  unfold level in *. breflect. set (above := (_ - _)%nat). set (s := stack (thread_data cb)) in *.
  assert (balanced_for index (take above s ++ drop above s) cb) as Hb0 by (by rewrite take_drop).
  apply abandon_list_balanced in Hb0. set (cb1 := fold_left _ _ cb) in *.
  destruct (drop above s) as [|e rest] eqn:E; cbn [snd].
  - exfalso. apply (f_equal length) in E. rewrite length_drop in E. simpl in E. subst cb1 above s. lia.
  - pose proof (abandon_entry_balanced index e rest (set_stack rest cb1)) as Hb1.
    assert (balanced_for index rest (abandon_entry e (set_stack rest cb1))) as Hb2 by (by apply Hb1).
    assert (stack (thread_data (abandon_entry e (set_stack rest cb1))) = rest) as Es.
    { unfold abandon_entry. destruct (_ && _); [|done]. unfold fast_abandon_remove.
      by destruct (is_closing _ _). }
    unfold balanced. rewrite Es. exact Hb2.
Qed.

(** The callbacks of a thread, with what Gum guarantees: a direct leave is
    reported for a frame that was entered directly.  The environment may differ
    at every step. *)
Inductive callback_step (cb : callbacks) : callbacks -> Prop :=
  | step_fast_enter env self ctx sp ra depth now :
      is_Some (slot_of self (self_mapped_id (thread_data cb)) cb) ->
      callback_step cb (fast_on_enter env self ctx sp ra depth now cb).2
  | step_fast_leave env self ctx sp now :
      match drop_while (fun e => negb (leave_matches self ctx sp e)) (stack (thread_data cb)) with
      | e :: _ => fast_dispatch e = true /\ inv_listener e <> 0
      | [] => True
      end ->
      callback_step cb (fast_on_leave env self ctx sp now cb).2
  | step_enter env listener ctx sp depth now priv :
      callback_step cb (on_enter env listener ctx sp depth now priv cb).2
  | step_leave env listener now priv :
      callback_step cb (on_leave env listener now priv cb).2
  | step_reap env : callback_step cb (reap_known_unwound env cb)
  | step_ignore : callback_step cb (fast_ignore_current_thread cb)
  | step_unignore : callback_step cb (fast_unignore_current_thread cb)
  | step_release : callback_step cb (release_current_thread_frames_preserve_slot cb).

Lemma in_flight_app self s t : in_flight self (s ++ t) = in_flight self s + in_flight self t.
Proof.
  induction s as [|e s IH]; [done|]. cbn [app]. rewrite !in_flight_cons, IH. lia.
Qed.

Lemma fast_enter_balanced env index self ctx sp ra depth now cb :
  is_Some (slot_of self index cb) ->
  balanced index cb -> balanced index (fast_on_enter env self ctx sp ra depth now cb).2.
Proof.
  intros [s Es] Hb. unfold fast_on_enter. destruct (_ || _ || _ || _); [done|].
  destruct (negb (initialized _)); [done|]. destruct (negb (self_mapped_valid _)); [done|].
  pose proof Hb as (A & _). rewrite A. set (cb1 := set_in_callback true cb).
  assert (balanced index cb1) as Hb1 by done.
  unfold fast_active_add. change (slot_of self index cb1) with (slot_of self index cb). rewrite Es.
  destruct (fast_active s =? G_MAXUINT); [done|]. cbn [negb snd].
  set (cb2 := update_slot _ _ _ cb1). set (e0 := mkInvocation self ctx ra sp depth now d0 true).
  assert (balanced_for index (stack (thread_data cb2) ++ [e0]) cb2) as Hb2.
  { destruct Hb1 as (B & C & D). split_and!; [done|done|]. intros self' st Hz Hst.
    rewrite in_flight_app, in_flight_cons. cbn [fast_dispatch inv_listener e0 andb].
    unfold cb2 in Hst. rewrite slot_of_update in Hst.
    change (stack (thread_data cb2)) with (stack (thread_data cb1)).
    destruct (decide (self' = self /\ index = index)) as [[-> _]|Hne].
    - change (slot_of self index cb1) with (slot_of self index cb) in Hst. rewrite Es in Hst.
      injection Hst as <-. rewrite Z.eqb_refl. cbn [fast_active with_active].
      rewrite (D self s Hz Es). unfold in_flight at 3. simpl. lia.
    - rewrite (D self' st Hz Hst). rewrite (proj2 (Z.eqb_neq self self')) by (intros ->; by apply Hne).
      unfold in_flight at 3. simpl. lia. }
  unfold fast_reap_unwound, abandon_frames.
  destruct (abandon_while_balanced index (fast_unwound env sp) _ [e0] cb2 Hb2) as [(B & C & D) Hst].
  set (cb3 := abandon_while _ _ cb2) in *.
  assert (balanced_for index (e0 :: stack (thread_data cb3)) (push_invocation e0 cb3)) as Hb4.
  { split_and!; [done|done|]. intros self' st Hz Hs'. rewrite (D self' st Hz Hs').
    rewrite Hst, in_flight_app, !in_flight_cons. change (in_flight self' []) with 0. cbn [fast_dispatch inv_listener e0 andb]. lia. }
  apply (count_call_balanced env index self index) in Hb4.
  destruct (count_call_effect env self index (push_invocation e0 cb3)) as [Ht _].
  destruct Hb4 as (E & F & G). split_and!; [done|done|]. simpl. by rewrite Ht.
Qed.

Lemma fast_leave_balanced env index self ctx sp now cb :
  match drop_while (fun e => negb (leave_matches self ctx sp e)) (stack (thread_data cb)) with
  | e :: _ => fast_dispatch e = true /\ inv_listener e <> 0
  | [] => True
  end ->
  balanced index cb -> balanced index (fast_on_leave env self ctx sp now cb).2.
Proof.
  intros Hguard Hb. unfold fast_on_leave. destruct (_ || _); [done|].
  set (cb1 := set_in_callback true cb).
  destruct (abandon_frames_balanced index (fun e => negb (leave_matches self ctx sp e)) cb1) as [Hb2 Hst2];
    [done|].
  set (cb2 := abandon_frames _ cb1) in *. rewrite Hst2.
  change (stack (thread_data cb1)) with (stack (thread_data cb)) in *.
  destruct (drop_while _ _) as [|e rest]; [done|]. destruct Hguard as [Hf Hz]. cbn [snd].
  pose proof Hb as (A & _). rewrite A.
  set (cb3 := if negb _ then _ else _).
  assert (exists rest', (forall x, in_flight x rest' = in_flight x rest) /\
    stack (thread_data cb3) = rest' /\ balanced_for index (e :: rest) cb3) as (rest' & Hin & Hst3 & Hb3).
  { assert (balanced_for index (e :: rest) (set_stack rest cb2)) as H0.
    { destruct Hb2 as (B & C & D). rewrite Hst2 in D. by split_and!. }
    unfold cb3. destruct (negb _); [|by exists rest].
    eexists (charge_parent _ rest). split_and!; [intros x; by destruct rest|done|].
    eapply balanced_for_same; [..|exact H0]; [done|done|]. intros x. unfold complete_call.
    rewrite slot_of_shadow. change (slot_of x index (set_stack ?s ?c)) with (slot_of x index c).
    rewrite slot_of_update. change (slot_of x index (set_stack rest cb2)) with (slot_of x index cb2).
    destruct (decide _); [|done]. by destruct (slot_of x index cb2). }
  assert (balanced_for index rest (fast_active_remove (inv_listener e) index cb3)) as (B & C & D).
  { apply (active_removed index _ e); [by rewrite Hf, Z.eqb_refl|done|done]. }
  split_and!; [done|done|]. intros x st Hx Hs.
  change (stack (thread_data (set_in_callback false (fast_active_remove (inv_listener e) index cb3))))
    with (stack (thread_data cb3)). rewrite Hst3, Hin. by apply D.
Qed.

Lemma enter_balanced env index listener ctx sp depth now priv cb :
  balanced index cb -> balanced index (on_enter env listener ctx sp depth now priv cb).2.
Proof.
  intros Hb. unfold on_enter. destruct (listener =? 0); [done|].
  destruct (_ || _ || _); [done|]. pose proof Hb as (A & B & C).
  assert (thread_state_initialize env (set_in_callback true cb) = set_in_callback true cb) as ->.
  { unfold thread_state_initialize. simpl. by rewrite B. }
  destruct (negb (self_mapped_valid _)); [done|]. set (cb1 := set_in_callback true cb).
  set (e0 := mkInvocation listener ctx 0 sp depth 0 d0 false). cbn [snd].
  set (i := self_mapped_id (thread_data cb1)).
  assert (balanced_for index (e0 :: stack (thread_data cb)) (push_invocation e0 cb1)) as Hb1.
  { split_and!; [done|done|]. intros self st Hz Hst. rewrite in_flight_cons. by apply C. }
  apply (count_call_balanced env index listener i) in Hb1.
  destruct (count_call_effect env listener i (push_invocation e0 cb1)) as [Ht _].
  destruct Hb1 as (E & F & G). split_and!; [done|done|]. simpl. by rewrite Ht.
Qed.

Lemma balanced_in_callback index b cb : balanced index cb -> balanced index (set_in_callback b cb).
Proof. done. Qed.

Lemma abandon_entry_stack e cb : stack (thread_data (abandon_entry e cb)) = stack (thread_data cb).
Proof.
  unfold abandon_entry. destruct (_ && _); [|done]. unfold fast_abandon_remove.
  by destruct (is_closing _ _).
Qed.

Lemma leave_balanced env index listener now priv cb :
  balanced index cb -> balanced index (on_leave env listener now priv cb).2.
Proof.
  intros Hb. unfold on_leave. destruct (_ || _); [done|]. destruct (listener =? 0).
  - cbn [snd]. destruct (stack (thread_data cb)) as [|e rest] eqn:E; [done|].
    destruct (initialized _); [|done]. unfold balanced. rewrite abandon_entry_stack.
    apply abandon_entry_balanced. destruct Hb as (A & B & C). rewrite E in C. by split_and!.
  - destruct (callbacks_suspended env).
    + pose proof (pop_invocation_balanced index priv cb Hb) as Hp.
      by destruct (pop_invocation priv cb) as [[[? ?] ?] ?].
    + pose proof (pop_invocation_balanced index priv (set_in_callback true cb) Hb) as Hp.
      destruct (pop_invocation priv (set_in_callback true cb)) as [[[popped child] priv'] cb'].
      destruct popped; cbn [negb snd] in *; [|done].
      by apply balanced_in_callback, complete_call_balanced.
Qed.

Lemma drop_while_all {A} (l : list A) : drop_while (fun _ => true) l = [].
Proof. by induction l. Qed.

Lemma release_frames_balanced index cb :
  balanced index cb ->
  balanced index (thread_state_release_frames cb) /\
  stack (thread_data (thread_state_release_frames cb)) = [].
Proof.
  intros Hb. destruct (abandon_frames_balanced index (fun _ => true) cb Hb) as [(A & B & C) Hst].
  rewrite drop_while_all in Hst. rewrite Hst in C. by split_and!.
Qed.

Lemma callback_step_balanced index cb cb' :
  callback_step cb cb' -> balanced index cb -> balanced index cb'.
Proof.
  intros Hstep Hb. pose proof Hb as (A & B & _). destruct Hstep.
  - apply fast_enter_balanced; [by rewrite <- A|done].
  - by apply fast_leave_balanced.
  - by apply enter_balanced.
  - by apply leave_balanced.
  - by apply abandon_frames_balanced.
  - done.
  - unfold fast_unignore_current_thread. by destruct (0 <? _).
  - unfold release_current_thread_frames_preserve_slot. rewrite B. by apply release_frames_balanced.
Qed.

(** Frames in flight are counted exactly.  Whatever sequence of direct and
    generic enters and leaves, reaps of unwound frames, pause-ignore brackets
    and slot-preserving releases a mapped thread runs, under whatever answers
    of the environment at each of them, the [fast_active] counter of its slot
    in every listener is the number of that listener's direct frames on its
    stack, and releasing the thread state brings every counter to zero: no
    frame is lost to a non-local exit and none is removed twice. *)
Theorem fast_active_balanced index cb cb' :
  balanced index cb -> rtc callback_step cb cb' ->
  balanced index cb' /\
  forall self s, self <> 0 -> slot_of self index (release_current_thread_state cb') = Some s ->
    fast_active s = 0.
Proof.
  intros Hb Hr. assert (balanced index cb') as Hb'.
  { induction Hr as [|x y z Hxy _ IH]; [done|]. by eapply IH, callback_step_balanced. }
  split; [done|]. intros self s Hz Hs. pose proof Hb' as (_ & B & _).
  unfold release_current_thread_state in Hs. rewrite B in Hs.
  destruct (release_frames_balanced index cb' Hb') as [(_ & _ & C) Hst]. rewrite Hst in C.
  by apply (C self s).
Qed.

(** ** Sequences of trees *)

Definition run_calls (env : callback_env) (cs : list call) (cb : callbacks) : callbacks :=
  fold_left (fun cb c => run_call env c cb) cs cb.

(** Trees a thread can run one after the other from [cb]. *)
Record runnable (env : callback_env) (index : nat) (limit : Z) (cs : list call) (cb : callbacks)
    : Prop := mkRunnable {
  run_ready : ready env index cb;
  run_nested : Forall (nested_below limit) cs;
  run_above : stack_above limit cb;
  run_known : known index (concat (map frames cs)) cb;
  run_room : active_room index (fold_right Z.max 0 (map height cs)) cb
}.

Lemma run_calls_exact env index limit cs cb :
  runnable env index limit cs cb ->
  ready env index (run_calls env cs cb) /\
  stack (thread_data (run_calls env cs cb)) =
    fold_left (fun s c => charge_parent (duration c) s) cs (stack (thread_data cb)) /\
  slots_after index (fun self => concat (map (slot_events self) cs)) cb (run_calls env cs cb).
Proof.
  revert cb. induction cs as [|c cs IH]; intros cb [Hr Hn Ha Hk Hroom]; cbn [run_calls fold_left map concat].
  - split_and!; [done|done|]. intros self j. destruct (decide (j = index)); [|done].
    by destruct (slot_of self j cb).
  - apply Forall_cons in Hn as [Hn1 Hn2].
    destruct (run_call_exact env index c limit cb Hr Hn1 Ha) as (Hr1 & Hst1 & Hs1).
    { intros f Hf. apply Hk. simpl. apply elem_of_app. by left. }
    { intros self s Hself. destruct (Hroom self s Hself) as [? ?]. simpl in *. lia. }
    destruct (IH (run_call env c cb)) as (Hr2 & Hst2 & Hs2).
    { split; [done|done| | |].
      - unfold stack_above in *. rewrite Hst1. by destruct (stack (thread_data cb)).
      - eapply slots_after_known; [exact Hs1|]. intros f Hf. apply Hk. simpl. apply elem_of_app. by right.
      - eapply slots_after_room; [exact Hs1| |exact Hroom]. simpl. lia. }
    rewrite Hst1 in Hst2. split_and!; [done|done|]. by eapply slots_after_trans.
Qed.

(** The slot after a sequence of trees. *)
Lemma events_recorded self cs s :
  recorded (concat (map (completed self) cs)) s
    (fold_left slot_step (concat (map (slot_events self) cs)) s).
Proof.
  revert s. induction cs as [|c cs IH]; intros s; simpl; [done|]. rewrite fold_left_app.
  eapply recorded_app; [apply slot_after_recorded|apply IH].
Qed.

Definition calls_count (self : Z) (cs : list call) : Z :=
  fold_right Z.add 0 (map (call_count self) cs).

Lemma calls_count_nonneg self cs : 0 <= calls_count self cs.
Proof.
  unfold calls_count. induction cs as [|c cs IH]; simpl; [lia|].
  pose proof (call_count_nonneg self c). lia.
Qed.

Lemma events_num_calls self cs s :
  is_u64 (num_calls s) ->
  num_calls (fold_left slot_step (concat (map (slot_events self) cs)) s) =
    num_calls s +u64 calls_count self cs.
Proof.
  unfold calls_count. revert s. induction cs as [|c cs IH]; intros s Hs; simpl.
  - rewrite Z.add_0_r, wrap_small; [done|]. unfold is_u64, UINT64_MAX in Hs. lia.
  - rewrite fold_left_app. pose proof (slot_after_num_calls self c s Hs) as E. unfold slot_after in E.
    rewrite IH, E.
    + rewrite wrap_wrap_add. f_equal. lia.
    + rewrite E. pose proof (wrap_range 64 (num_calls s + call_count self c) ltac:(lia)).
      unfold is_u64, UINT64_MAX. lia.
Qed.

Lemma events_active self cs s :
  0 <= fast_active s ->
  fast_active (fold_left slot_step (concat (map (slot_events self) cs)) s) = fast_active s.
Proof.
  revert s. induction cs as [|c cs IH]; intros s Hs; simpl; [done|].
  rewrite fold_left_app, IH; rewrite slot_events_active; done.
Qed.

(** C9: Well-nested calls are measured exactly.  For any sequence of call trees
    (nested direct calls of any listeners, at decreasing stack addresses) run
    through the enter and leave callbacks of a mapped thread, the stack ends as
    it began, its innermost frame charged with the time of each tree; the
    thread's slot of every listener counts every call of that listener (modulo
    2^64), accumulates the duration of each as total, the duration less that of
    its direct children as exclusive, keeps the largest, in the order the calls
    complete, and has no frame more in flight; the slots of other threads are
    untouched. *)
Theorem call_trees_measured env index limit cs cb :
  runnable env index limit cs cb ->
  let cb' := run_calls env cs cb in
  stack (thread_data cb') =
    fold_left (fun s c => charge_parent (duration c) s) cs (stack (thread_data cb)) /\
  (forall self j, j <> index -> slot_of self j cb' = slot_of self j cb) /\
  forall self s, slot_of self index cb = Some s -> is_u64 (num_calls s) ->
    exists s', slot_of self index cb' = Some s' /\
      num_calls s' = num_calls s +u64 calls_count self cs /\
      recorded (concat (map (completed self) cs)) s s' /\
      fast_active s' = fast_active s.
Proof.
  intros Hrun. destruct (run_calls_exact env index limit cs cb Hrun) as (_ & Hst & Hs).
  split_and!; [done| |].
  - intros self j Hj. by rewrite Hs, decide_False.
  - intros self s Hself Hu. eexists. rewrite Hs, decide_True, Hself by done. split; [done|].
    split_and!; [by apply events_num_calls|apply events_recorded|].
    apply events_active. by destruct (run_room _ _ _ _ _ Hrun self s Hself).
Qed.

Lemma events_min self cs s :
  1 <= num_calls s -> num_calls s + calls_count self cs <= UINT64_MAX -> min_time s = d0 ->
  min_time (fold_left slot_step (concat (map (slot_events self) cs)) s) = d0.
Proof.
  unfold calls_count. revert s. induction cs as [|c cs IH]; intros s Hn Hle Hm; [done|].
  cbn [map concat fold_right] in *. rewrite fold_left_app.
  pose proof (call_count_nonneg self c). pose proof (calls_count_nonneg self cs). unfold calls_count in *.
  pose proof (slot_after_num_calls self c s ltac:(unfold is_u64; lia)) as E.
  rewrite wrap_small in E by (unfold UINT64_MAX in *; lia). unfold slot_after in E.
  apply IH; [lia|lia|]. apply slot_after_min; [done|lia|done].
Qed.

Lemma no_events self c : call_count self c = 0 -> slot_events self c = [].
Proof.
  induction c as [f cs IH] using call_rect'. cbn [call_count slot_events].
  pose proof (calls_count_nonneg self cs) as Hp. unfold calls_count in Hp.
  destruct (decide (f_self f = self)); [lia|]. rewrite Z.add_0_l, app_nil_r. simpl. clear Hp.
  induction IH as [|c cs Hc _ IHcs]; [done|]. simpl. intros H0.
  pose proof (call_count_nonneg self c). pose proof (calls_count_nonneg self cs) as Hp.
  unfold calls_count in Hp. rewrite Hc by lia. apply IHcs. lia.
Qed.

Lemma no_calls_events self cs : calls_count self cs = 0 -> concat (map (slot_events self) cs) = [].
Proof.
  unfold calls_count. induction cs as [|c cs IH]; [done|]. simpl. intros H0.
  pose proof (call_count_nonneg self c). pose proof (calls_count_nonneg self cs) as Hp.
  unfold calls_count in Hp. rewrite no_events by lia. apply IH. lia.
Qed.

(** A first call, entered on a fresh slot. *)
Lemma first_call_min f cs s :
  num_calls s = 0 -> min_time s = d0 -> 1 + calls_count (f_self f) cs <= UINT64_MAX ->
  min_time (slot_after (f_self f) (Call f cs) s) =
    if decide (calls_count (f_self f) cs = 0) then to_float (duration (Call f cs)) else d0.
Proof.
  intros Hn Hm Hle. set (self := f_self f) in *. unfold slot_after. cbn [slot_events].
  fold self. rewrite !(decide_True (P := self = self)) by done. rewrite !fold_left_app. cbn [fold_left].
  set (s1 := slot_step s SEnter). pose proof (calls_count_nonneg self cs).
  assert (num_calls s1 = 1) as E1 by (unfold s1; rewrite enter_num_calls, Hn; done).
  assert (min_time s1 = d0) as M1 by done.
  set (s2 := fold_left slot_step _ s1).
  unfold slot_step.
  destruct (active_minus_stats (record_duration (duration (Call f cs)) (exclusive (Call f cs)) s2))
    as (_ & _ & _ & _ & ->). cbn [min_time record_duration].
  destruct (decide (calls_count self cs = 0)) as [E|Hne].
  - unfold s2. rewrite no_calls_events by done. cbn [fold_left]. by rewrite E1, orb_true_r.
  - assert (num_calls s2 = 1 + calls_count self cs) as E2.
    { unfold s2. rewrite events_num_calls, E1, wrap_small; [done| |]; unfold is_u64, UINT64_MAX in *; lia. }
    assert (min_time s2 = d0) as M2 by (apply events_min; [lia|rewrite E1; lia|done]).
    rewrite E2, M2, (proj2 (Z.eqb_neq _ 1)) by lia. change (of_float d0) with d0.
    unfold duration. by rewrite fast_duration_not_negative.
Qed.

(** The least time of a function whose first call recurses.  On a fresh
    slot, a first call that does not call its own function again records its
    duration as the least time; when it does call it again (at any depth), the
    least time stays at its initial zero, after that call and after every
    later one, whatever the durations: the callbacks recognise the first
    completed call by [num_calls == 1], but calls are counted on entry. *)
Theorem recursive_first_call_min_zero env index limit f cs later cb s :
  runnable env index limit (Call f cs :: later) cb ->
  slot_of (f_self f) index cb = Some s -> num_calls s = 0 -> min_time s = d0 ->
  calls_count (f_self f) (Call f cs :: later) <= UINT64_MAX ->
  exists s1 s2,
    slot_of (f_self f) index (run_call env (Call f cs) cb) = Some s1 /\
    slot_of (f_self f) index (run_calls env (Call f cs :: later) cb) = Some s2 /\
    (calls_count (f_self f) cs = 0 -> min_time s1 = to_float (duration (Call f cs))) /\
    (calls_count (f_self f) cs <> 0 -> min_time s1 = d0 /\ min_time s2 = d0).
Proof.
  intros Hrun Hs Hn Hm Hle. set (self := f_self f) in *.
  destruct (run_calls_exact env index limit _ cb Hrun) as (_ & _ & H2).
  destruct Hrun as [Hr Hne Ha Hk Hroom]. apply Forall_cons in Hne as [Hn1 _].
  destruct (run_call_exact env index (Call f cs) limit cb Hr Hn1 Ha) as (_ & _ & H1).
  { intros f' Hf'. apply Hk. cbn [map concat]. apply elem_of_app. by left. }
  { intros self' s' Hself'. destruct (Hroom self' s' Hself') as [? ?]. simpl in *. lia. }
  pose proof (calls_count_nonneg self cs). pose proof (calls_count_nonneg self later).
  assert (calls_count self (Call f cs :: later) = 1 + calls_count self cs + calls_count self later) as Ec.
  { unfold calls_count. cbn [map fold_right call_count]. fold self.
    rewrite (decide_True (P := self = self)) by done. lia. }
  rewrite Ec in Hle.
  pose proof (first_call_min f cs s Hn Hm ltac:(fold self; lia)) as Hmin. fold self in Hmin.
  eexists _, _. rewrite H1, H2, !(decide_True (P := index = index)), Hs by done.
  split; [reflexivity|]. split; [reflexivity|]. fold (slot_after self (Call f cs) s). split.
  - intros E. by rewrite Hmin, decide_True.
  - intros E. rewrite decide_False in Hmin by done. split; [done|]. cbn [map concat].
    rewrite fold_left_app. fold (slot_after self (Call f cs) s).
    assert (num_calls (slot_after self (Call f cs) s) = 1 + calls_count self cs) as En.
    { rewrite slot_after_num_calls, Hn by (unfold is_u64; rewrite Hn; done). cbn [call_count]. fold self.
      rewrite (decide_True (P := self = self)) by done. apply wrap_small. unfold calls_count, UINT64_MAX in *. lia. }
    apply events_min; [lia|lia|done].
Qed.

(** ** Retirement *)

Definition slots_calls (ss : list slot_stats) : Z := fold_right (fun s n => num_calls s + n) 0 ss.

Lemma total_calls_sum l :
  is_u64 (retired_num_calls (retired l)) ->
  total_calls l = retired_num_calls (retired l) +u64 slots_calls (slots l).
Proof.
  intros Hu. unfold total_calls. generalize (retired_num_calls (retired l)) Hu. clear Hu.
  induction (slots l) as [|s ss IH]; intros a Ha; simpl.
  - rewrite Z.add_0_r, wrap_small; [done|]. unfold is_u64, UINT64_MAX in Ha. lia.
  - rewrite IH by (pose proof (wrap_range 64 (a + num_calls s) ltac:(lia)); unfold is_u64, UINT64_MAX; lia).
    rewrite wrap_wrap_add. f_equal. lia.
Qed.

Lemma slots_calls_insert ss i s s' :
  ss !! i = Some s -> slots_calls (<[i:=s']> ss) = slots_calls ss - num_calls s + num_calls s'.
Proof.
  revert i. induction ss as [|x ss IH]; intros [|i] E; simplify_eq/=; [lia|]. rewrite (IH i E). lia.
Qed.

(** The retired count gains what the slot loses. *)
Lemma retire_into_calls s r :
  is_u64 (retired_num_calls r) ->
  is_u64 (retired_num_calls (retire_into s r)) /\
  retired_num_calls (retire_into s r) = retired_num_calls r +u64 num_calls s.
Proof.
  intros Hu. assert (retired_num_calls (retire_into s r) = retired_num_calls r +u64 num_calls s) as E.
  { unfold retire_into. destruct (Z.eqb_spec (num_calls s) 0) as [->|]; [|done].
    rewrite Z.add_0_r, wrap_small; [done|]. unfold is_u64, UINT64_MAX in Hu. lia. }
  split; [|done]. rewrite E. pose proof (wrap_range 64 (retired_num_calls r + num_calls s) ltac:(lia)).
  unfold is_u64, UINT64_MAX. lia.
Qed.

(** What retiring a slot does to a listener. *)
Lemma retire_listener_slot_effect slot l s :
  slots l !! slot = Some s ->
  slots (retire_listener_slot slot l).2 = <[slot:=zero_stats (fast_active s)]> (slots l) /\
  retired (retire_listener_slot slot l).2 = retire_into s (retired l).
Proof.
  intros E. unfold retire_listener_slot. rewrite E.
  destruct (checkpoint_shadow _) as [shs|]; [|done].
  destruct (shs !! slot) as [sh|]; [|done]. by destruct (reset_shadow sh).
Qed.

Lemma retire_total_calls slot l :
  is_u64 (retired_num_calls (retired l)) -> total_calls (retire_listener_slot slot l).2 = total_calls l.
Proof.
  intros Hu. destruct (slots l !! slot) as [s|] eqn:E.
  - destruct (retire_listener_slot_effect slot l s E) as [E1 E2].
    destruct (retire_into_calls s (retired l) Hu) as [Hu' E3].
    rewrite !total_calls_sum, E1, E2, E3, wrap_wrap_add by (by rewrite ?E2).
    rewrite (slots_calls_insert _ _ s) by done. f_equal. simpl. lia.
  - unfold retire_listener_slot. by rewrite E.
Qed.

(** The slot's shadow is being written. *)
Definition shadow_busy (slot : nat) (l : PeakGeneralListener) : Prop :=
  is_Some (slots l !! slot) /\
  exists shs sh, checkpoint_shadow l = Some shs /\ shs !! slot = Some sh /\ Z.odd (sequence sh) = true.

Lemma retire_reusable slot l : (retire_listener_slot slot l).1 = true <-> ~ shadow_busy slot l.
Proof.
  unfold retire_listener_slot, shadow_busy. destruct (slots l !! slot) as [s|] eqn:E; simpl.
  2:{ split; [|done]. intros _ [[x Hx] _]. done. }
  destruct (checkpoint_shadow l) as [shs|] eqn:E1.
  2:{ split; [|done]. intros _ [_ (? & ? & ? & _)]. done. }
  destruct (shs !! slot) as [sh|] eqn:E2.
  2:{ split; [|done]. intros _ [_ (? & ? & ? & ? & _)]. simplify_eq. }
  unfold reset_shadow. destruct (Z.odd (sequence sh)) eqn:E3; simpl.
  - split; [done|]. intros H. exfalso. apply H. split; [done|]. by eexists _, _.
  - split; [|done]. intros _ [_ (? & ? & ? & ? & ?)]. simplify_eq. congruence.
Qed.

(** What the report reads of a row: its address and its number of calls. *)
Definition row_calls (h : hook_row) : Z * option Z := (h.1, total_calls <$> h.2).

Definition rows_u64 (hooks : list hook_row) : Prop :=
  forall a l, (a, Some l) ∈ hooks -> is_u64 (retired_num_calls (retired l)).

Lemma retire_row_calls slot h :
  (forall l, h.2 = Some l -> is_u64 (retired_num_calls (retired l))) ->
  row_calls (retire_row slot h).2 = row_calls h.
Proof.
  destruct h as [a [l|]]; intros Hu; [|done]. unfold retire_row. destruct (a =? 0); [done|].
  pose proof (retire_total_calls slot l (Hu l eq_refl)) as E.
  destruct (retire_listener_slot slot l) as [ok l']. simpl in *. unfold row_calls. simpl. by rewrite E.
Qed.

Lemma retire_row_slot slot a l :
  a <> 0 -> exists l', (retire_row slot (a, Some l)).2 = (a, Some l') /\
    slots l' !! slot = (fun s => zero_stats (fast_active s)) <$> slots l !! slot /\
    (forall j, j <> slot -> slots l' !! j = slots l !! j).
Proof.
  intros Ha. unfold retire_row. rewrite (proj2 (Z.eqb_neq _ _)) by done.
  destruct (slots l !! slot) as [s|] eqn:E.
  - destruct (retire_listener_slot_effect slot l s E) as [E1 _].
    destruct (retire_listener_slot slot l) as [ok l']. exists l'. simpl in *. rewrite E1.
    split; [done|]. split; [apply list_lookup_insert_eq; by eapply lookup_lt_Some|].
    intros j Hj. by rewrite list_lookup_insert_ne.
  - unfold retire_listener_slot. rewrite E. by exists l.
Qed.

Lemma retire_row_reusable slot h :
  (retire_row slot h).1 = true <-> (forall a l, h = (a, Some l) -> a <> 0 -> ~ shadow_busy slot l).
Proof.
  destruct h as [a [l|]]; simpl; [|by split].
  destruct (Z.eqb_spec a 0) as [->|Ha]; simpl.
  - split; [|done]. intros _ a' l' [= <- <-]. done.
  - pose proof (retire_reusable slot l) as E. destruct (retire_listener_slot slot l) as [ok l'].
    simpl in *. rewrite E. split; [by intros H ? ? [= <- <-]|]. intros H. by eapply H.
Qed.

(** C16: Retiring the slot of an exiting thread loses no call.  Every hook of
    the table keeps its address and its reported number of calls (modulo 2^64);
    in every attached hook the slot is zeroed, its frames in flight kept, and
    the slots of other threads are untouched; and the slot is declared
    reusable exactly when no attached hook has its checkpoint shadow of that
    slot in the middle of an update. *)
Theorem retire_conserves_calls slot hooks :
  rows_u64 hooks ->
  let '(reusable, hooks') := retire_current_thread_slot slot hooks in
  map row_calls hooks' = map row_calls hooks /\
  (forall a l, (a, Some l) ∈ hooks -> a <> 0 -> exists l', (a, Some l') ∈ hooks' /\
     slots l' !! slot = (fun s => zero_stats (fast_active s)) <$> slots l !! slot /\
     (forall j, j <> slot -> slots l' !! j = slots l !! j)) /\
  (reusable = true <-> forall a l, (a, Some l) ∈ hooks -> a <> 0 -> ~ shadow_busy slot l).
Proof.
  intros Hu. simpl. split_and!.
  - rewrite map_map. apply map_ext_in. intros [a o] Hin. apply retire_row_calls. simpl. intros l ->.
    apply (Hu a). by apply list_elem_of_In.
  - intros a l Hin Ha. destruct (retire_row_slot slot a l Ha) as (l' & E & Hs). exists l'. split; [|done].
    rewrite <- E. by apply (list_elem_of_fmap_2 (fun h => (retire_row slot h).2)).
  - rewrite forallb_forall. split.
    + intros H a l Hin. apply list_elem_of_In, H in Hin. by apply (proj1 (retire_row_reusable slot _) Hin).
    + intros H h Hin. apply retire_row_reusable. intros a l ->. apply H. by apply list_elem_of_In.
Qed.

(** ** A thread with two listeners *)

Definition demo_stats : slot_stats := mkStats 0 d0 d0 d0 d0 0.
Definition demo_shadow : PeakGeneralListenerCheckpointShadow := mkShadow 0 false 0 d0 d0 d0 d0.
Definition demo_retired : retired_stats := mkRetired 0 0 d0 d0 d0 d0 d0 d0.
Definition demo_listener : PeakGeneralListener :=
  mkListener 1 false [demo_stats; demo_stats] (Some [demo_shadow; demo_shadow]) demo_retired.
Definition demo_thread : PeakGeneralThreadState := mkThreadState [] 16 1 true true false false 0.
Definition demo_callbacks : callbacks :=
  mkCallbacks demo_thread {[10 := demo_listener; 20 := demo_listener]} 0 0 0 [].
Definition demo_env : callback_env :=
  mkCallbackEnv false false (Some 1%nat) 2 1000 (fun _ _ => true) (fun _ _ _ => true).

(** A call of listener 10 that calls 20, which calls 10 again. *)
Definition demo_inner : call := Call (mkFrame 10 100 7000 1 0 3000 4000) [].
Definition demo_middle : call := Call (mkFrame 20 200 8000 1 0 2000 6000) [demo_inner].
Definition demo_outer : frame := mkFrame 10 100 9000 1 0 1000 9000.

Lemma demo_slots self j s :
  slot_of self j demo_callbacks = Some s -> s = demo_stats.
Proof.
  unfold slot_of. intros E. apply bind_Some in E as (l & El & Es).
  assert (l = demo_listener) as ->.
  { unfold demo_callbacks in El. simpl in El. apply lookup_insert_Some in El as [[_ <-]|[_ El]]; [done|].
    by apply lookup_singleton_Some in El as [_ <-]. }
  destruct j as [|[|j]]; simpl in Es; [congruence|congruence|]. by rewrite lookup_nil in Es.
Qed.

Lemma demo_runnable :
  runnable demo_env 1 10000 [Call demo_outer [demo_middle]; demo_inner] demo_callbacks.
Proof.
  split.
  - done.
  - repeat constructor.
  - done.
  - intros f Hf. simpl in Hf. repeat (apply elem_of_cons in Hf as [->|Hf]; [by eexists|]).
    by apply elem_of_nil in Hf.
  - intros self s Hs. by apply demo_slots in Hs as ->.
Qed.

Lemma demo_balanced : balanced 1 demo_callbacks.
Proof. split_and!; [done|done|]. intros self s _ Hs. by apply demo_slots in Hs as ->. Qed.

(** Direct enters of both listeners, a reap, and the leave of the outer frame:
    the inner one is abandoned. *)
Definition demo_after : callbacks :=
  let cb := (fast_on_enter demo_env 10 100 9000 1 0 1000 demo_callbacks).2 in
  let cb := (fast_on_enter demo_env 20 200 8000 1 0 2000 cb).2 in
  (fast_on_leave demo_env 10 100 9000 9000 cb).2.

Lemma demo_steps : rtc callback_step demo_callbacks demo_after.
Proof.
  eapply rtc_l; [apply (step_fast_enter _ demo_env 10 100 9000 1 0 1000); by eexists|].
  eapply rtc_l; [apply (step_fast_enter _ demo_env 20 200 8000 1 0 2000); by eexists|].
  eapply rtc_l; [apply (step_fast_leave _ demo_env 10 100 9000 9000); by vm_compute|]. done.
Qed.

Lemma call_trees_measured_witness :
  slot_of 10 1 demo_callbacks = Some demo_stats /\
  exists s', slot_of 10 1 (run_calls demo_env [Call demo_outer [demo_middle]; demo_inner]
                             demo_callbacks) = Some s' /\
    num_calls s' = 3 /\ fast_active s' = 0.
Proof.
  split; [vm_compute; reflexivity|].
  destruct (call_trees_measured demo_env 1 10000 _ demo_callbacks demo_runnable) as (_ & _ & H).
  destruct (H 10 demo_stats) as (s' & E & En & _ & Ea); [vm_compute; reflexivity|done|].
  exists s'. split; [exact E|]. split; [|exact Ea].
  rewrite En. vm_compute. reflexivity.
Defined.

Lemma recursive_first_call_min_zero_witness :
  calls_count 10 [demo_middle] <> 0 /\
  exists s2, slot_of 10 1 (run_calls demo_env [Call demo_outer [demo_middle]; demo_inner]
                             demo_callbacks) = Some s2 /\ min_time s2 = d0.
Proof.
  split; [vm_compute; discriminate|].
  destruct (recursive_first_call_min_zero demo_env 1 10000 demo_outer [demo_middle] [demo_inner]
    demo_callbacks demo_stats demo_runnable) as (s1 & s2 & _ & E & _ & H);
    [vm_compute; reflexivity|reflexivity|reflexivity|vm_compute; discriminate|].
  exists s2. split; [exact E|]. apply H. vm_compute. discriminate.
Defined.

Lemma fast_active_balanced_witness :
  stack (thread_data demo_after) = [] /\ balanced 1 demo_after.
Proof.
  split; [vm_compute; reflexivity|].
  apply (fast_active_balanced 1 demo_callbacks demo_after demo_balanced demo_steps).
Defined.

Definition demo_used : PeakGeneralListener :=
  mkListener 1 false [mkStats 3 d0 d0 d0 d0 0; mkStats 7 d0 d0 d0 d0 1]
    (Some [demo_shadow; demo_shadow]) (mkRetired 5 1 d0 d0 d0 d0 d0 d0).

Lemma demo_rows_u64 : rows_u64 [(5, Some demo_used)].
Proof. intros a l Hin. apply list_elem_of_singleton in Hin. injection Hin as -> ->. done. Qed.

Lemma retire_conserves_calls_witness :
  rows_u64 [(5, Some demo_used)] /\
  map row_calls [(5, Some demo_used)] = [(5, Some 15)] /\
  map row_calls (retire_current_thread_slot 1 [(5, Some demo_used)]).2 =
    map row_calls [(5, Some demo_used)].
Proof.
  split; [exact demo_rows_u64|]. split; [vm_compute; reflexivity|].
  exact (proj1 (retire_conserves_calls 1 [(5, Some demo_used)] demo_rows_u64)).
Defined.
