(* ===== verification/FastLifetime.v ===== *)
(** * Closing the direct dispatch of a listener

    Models the detach protocol of direct dispatch, shared by
    [src/general_listener.c] ([fast_abandon_remove], [abandon_entry],
    [fast_active_close], [fast_active_reset]) and
    [cmake/peak-gum/gum_peak_pc_api.c] ([prepare_fast_detach],
    [release_fast_invocation], [enable_fast_listener]), as an interleaving of
    the atomic accesses of the threads and of the controller.  Every thread
    owns one word of [fast_active], its direct frames.  The controller closes
    the listener, waits for the threads that committed to a removal, sums the
    words, adds the sum to Gum's trampoline counter and publishes
    [release_required]; from then on every frame that ends decrements the
    counter.  Normal enters and leaves are kept out of the closing window by
    the mutation guard, which holds the threads inside the trampolines and the
    dispatch sections: here they are steps of an open or of a seeded listener
    only. *)

From S2P Require Import Prelude HookControl.

(** ** State *)

(** Where a thread is: inside [fast_abandon_remove] ([LoopTop] to
    [AwaitingRelease]); in [release_fast_invocation], before its test of
    [context->destroyed] ([Releasing]) or of [enabled] and the count
    ([Counting]); in [end_invocation] after [on_leave], before the count
    ([LeaveCounting]) or before the test of [destroyed] ([LeaveClearing]); or
    about to decrement the trampoline counter ([Dropping]). *)
Inductive frame_pc :=
  | Outside
  | LoopTop
  | Announcing
  | Announced
  | Committed
  | Leaving
  | Retracting
  | AwaitingRelease
  | Releasing
  | Counting
  | LeaveCounting
  | LeaveClearing
  | Dropping.

#[export] Instance frame_pc_eq_dec : EqDecision frame_pc.
Proof. solve_decision. Defined.

(** A thread and its word of [fast_active]. *)
Record dispatcher := mkDispatcher {
  pc : frame_pc;
  active : Z
}.

(** The controller in [prepare_fast_detach], with the number of words summed
    and the sum so far, or the result of [fast_active_close]. *)
Inductive closer_pc :=
  | CloserIdle
  | CloserWaiting
  | CloserSumming (i : nat) (total : Z)
  | CloserDone (seed : Z)
  | CloserRefused
  | CloserSeeded.

#[export] Instance closer_pc_eq_dec : EqDecision closer_pc.
Proof. solve_decision. Defined.

(** [usage] is [trampoline_usage_counter]; [others] the part of it that
    generic invocations own.  [redirect] tells whether [write_redirect_data] is
    still the listener, [enabled] is the listener's flag of that name and
    [destroyed] the function context's, which Gum sets. *)
Record lifetime := mkLifetime {
  closing : bool;
  abandoners : Z;
  release_required : bool;
  redirect : bool;
  usage : Z;
  others : Z;
  closer : closer_pc;
  threads : list dispatcher;
  enabled : bool;
  destroyed : bool
}.

Definition with_thread_at (i : nat) (t : dispatcher) (g : lifetime) : lifetime :=
  mkLifetime (closing g) (abandoners g) (release_required g) (redirect g) (usage g) (others g)
    (closer g) (<[i:=t]> (threads g)) (enabled g) (destroyed g).
Definition with_abandoners (n : Z) (g : lifetime) : lifetime :=
  mkLifetime (closing g) n (release_required g) (redirect g) (usage g) (others g) (closer g) (threads g)
    (enabled g) (destroyed g).
Definition with_redirect (b : bool) (g : lifetime) : lifetime :=
  mkLifetime (closing g) (abandoners g) (release_required g) b (usage g) (others g) (closer g) (threads g)
    (enabled g) (destroyed g).
Definition with_usage (n : Z) (g : lifetime) : lifetime :=
  mkLifetime (closing g) (abandoners g) (release_required g) (redirect g) n (others g) (closer g) (threads g)
    (enabled g) (destroyed g).
Definition with_closer (c : closer_pc) (g : lifetime) : lifetime :=
  mkLifetime (closing g) (abandoners g) (release_required g) (redirect g) (usage g) (others g) c (threads g)
    (enabled g) (destroyed g).

Definition slot_removed (n : Z) : Z := if 0 <? n then n - 1 else n.

Definition active_words (g : lifetime) : list Z := active <$> threads g.

(** The loops of [fast_active_count] and [fast_active_close]. *)
Definition sum_words (ws : list Z) (total : Z) : Z := fold_left (fun total w => total +u64 w) ws total.

Definition clamp_count (total : Z) : Z := if total <=? UINT32_MAX then total else UINT32_MAX.

Definition fast_active_count (g : lifetime) : Z := clamp_count (sum_words (active_words g) 0).

(** ** A thread that abandons a frame, one atomic access at a time *)

(** [release_fast_invocation], and the end of [end_invocation], which counts
    before it reads [destroyed].  The frames they count can only have gone down,
    so that a count is one step. *)
Definition release_frame (i : nat) (t : dispatcher) (g : lifetime) : option lifetime :=
  let goto p := with_thread_at i (mkDispatcher p (active t)) in
  match pc t with
  | Releasing => Some (goto (if destroyed g then Dropping else Counting) g)
  | Counting =>
      Some (goto Dropping (if negb (enabled g) && (fast_active_count g =? 0) then with_redirect false g else g))
  | LeaveCounting =>
      Some (goto (if negb (enabled g) && (fast_active_count g =? 0) then LeaveClearing else Dropping) g)
  | LeaveClearing => Some (goto Dropping (if destroyed g then g else with_redirect false g))
  | Dropping => Some (goto Outside (with_usage (usage g - 1) g))
  | _ => None
  end.

(** [None] while the thread spins or is outside. *)
Definition abandon_step (i : nat) (t : dispatcher) (g : lifetime) : option lifetime :=
  let goto p := with_thread_at i (mkDispatcher p (active t)) in
  match pc t with
  | Outside => None
  | LoopTop => Some (goto (if closing g then AwaitingRelease else Announcing) g)
  | Announcing => Some (goto Announced (with_abandoners (wrap 32 (abandoners g + 1)) g))
  | Announced => Some (goto (if closing g then Retracting else Committed) g)
  | Committed => Some (with_thread_at i (mkDispatcher Leaving (slot_removed (active t))) g)
  | Leaving => Some (goto Outside (with_abandoners (wrap 32 (abandoners g - 1)) g))
  | Retracting => Some (goto LoopTop (with_abandoners (wrap 32 (abandoners g - 1)) g))
  | AwaitingRelease =>
      if release_required g
      then Some (with_thread_at i (mkDispatcher Releasing (slot_removed (active t))) g) else None
  | Releasing | Counting | LeaveCounting | LeaveClearing | Dropping => release_frame i t g
  end.

(** ** [prepare_fast_detach] *)

(** What it does with the count of [fast_active_close]. *)
Definition seed_usage (seed : Z) (g : lifetime) : lifetime :=
  if (0 <=? usage g) && (seed <=? INT_MAX - usage g)
  then mkLifetime (closing g) (abandoners g) true (if seed =? 0 then false else redirect g)
         (usage g + seed) (others g) CloserSeeded (threads g) (enabled g) (destroyed g)
  else with_closer CloserRefused g.

(** [None] while the controller spins or is done, and on a destroyed context,
    which [peak_gum_find_context] does not return.  A refused detach, with the
    counter about to overflow, is not followed further. *)
Definition close_step (g : lifetime) : option lifetime :=
  match closer g with
  | CloserIdle =>
      if destroyed g then None
      else Some (mkLifetime true (abandoners g) (release_required g) (redirect g) (usage g) (others g)
                   CloserWaiting (threads g) false (destroyed g))
  | CloserWaiting => if abandoners g =? 0 then Some (with_closer (CloserSumming 0 0) g) else None
  | CloserSumming i total =>
      match threads g !! i with
      | Some t => Some (with_closer (CloserSumming (S i) (total +u64 active t)) g)
      | None => Some (with_closer (CloserDone (clamp_count total)) g)
      end
  | CloserDone seed => Some (seed_usage seed g)
  | CloserRefused | CloserSeeded => None
  end.

(** ** Enabling again *)

Definition fast_active_reset (g : lifetime) : lifetime :=
  mkLifetime false 0 (release_required g) (redirect g) (usage g) (others g) (closer g)
    (map (fun t => mkDispatcher (pc t) 0) (threads g)) (enabled g) (destroyed g).

(** [enable_fast_listener] on a context that is not destroyed and that the
    trampoline counter shows unused. *)
Definition enable_fast_listener (g : lifetime) : option lifetime :=
  if negb (destroyed g) && (usage g =? 0) then
    let g := fast_active_reset g in
    Some (mkLifetime (closing g) (abandoners g) false true (usage g) (others g) CloserIdle (threads g)
            true (destroyed g))
  else None.

(** ** Normal dispatch *)

Definition enter_frame (i : nat) (t : dispatcher) (g : lifetime) : option lifetime :=
  if bool_decide (pc t = Outside) && negb (active t =? UINT32_MAX)
  then Some (with_thread_at i (mkDispatcher Outside (active t + 1)) g) else None.

(** A leave of a closing listener has a frame to release. *)
Definition leave_frame (i : nat) (t : dispatcher) (g : lifetime) : option lifetime :=
  if bool_decide (pc t = Outside) && (0 <? active t)
  then Some (with_thread_at i (mkDispatcher (if closing g then LeaveCounting else Outside)
                                 (slot_removed (active t))) g)
  else None.

Definition begin_abandon (i : nat) (t : dispatcher) (g : lifetime) : option lifetime :=
  if bool_decide (pc t = Outside) && (0 <? active t)
  then Some (with_thread_at i (mkDispatcher LoopTop (active t)) g) else None.

(** A generic invocation takes or gives back the trampoline. *)
Definition with_other (d : Z) (g : lifetime) : lifetime :=
  mkLifetime (closing g) (abandoners g) (release_required g) (redirect g) (usage g + d) (others g + d)
    (closer g) (threads g)
    (enabled g) (destroyed g).

(** Gum destroys the function context. *)
Definition destroy_context (g : lifetime) : lifetime :=
  mkLifetime (closing g) (abandoners g) (release_required g) (redirect g) (usage g) (others g) (closer g)
    (threads g) (enabled g) true.

(** ** Interleavings *)

(** Threads that abandon frames. *)
Inductive thread_step (g g' : lifetime) : Prop :=
  | ts_begin i t : threads g !! i = Some t -> begin_abandon i t g = Some g' -> thread_step g g'
  | ts_abandon i t : threads g !! i = Some t -> abandon_step i t g = Some g' -> thread_step g g'.

Inductive lifetime_step (g g' : lifetime) : Prop :=
  | ls_thread : thread_step g g' -> lifetime_step g g'
  | ls_close : close_step g = Some g' -> lifetime_step g g'
  | ls_enter i t : closer g = CloserIdle -> threads g !! i = Some t ->
      enter_frame i t g = Some g' -> lifetime_step g g'
  | ls_leave i t : closer g = CloserIdle \/ closer g = CloserSeeded -> threads g !! i = Some t ->
      leave_frame i t g = Some g' -> lifetime_step g g'
  | ls_enable : closer g = CloserSeeded -> enable_fast_listener g = Some g' -> lifetime_step g g'
  | ls_other_enter : usage g < INT_MAX -> g' = with_other 1 g -> lifetime_step g g'
  | ls_other_leave : 0 < others g -> g' = with_other (-1) g -> lifetime_step g g'
  | ls_destroy : g' = destroy_context g -> lifetime_step g g'.

(** A listener of [n] words, attached and unused. *)
Definition fresh_lifetime (n : nat) : lifetime :=
  mkLifetime false 0 false true 0 0 CloserIdle (replicate n (mkDispatcher Outside 0)) true false.

(** ** Frames and readers *)

(** The thread has a frame of its word to remove. *)
Definition holds_frame (p : frame_pc) : bool :=
  match p with
  | LoopTop | Announcing | Announced | Committed | Retracting | AwaitingRelease => true
  | _ => false
  end.

(** It is counted by [fast_lifetime_abandoners]. *)
Definition is_reader (t : dispatcher) : bool :=
  match pc t with Announced | Committed | Leaving | Retracting => true | _ => false end.

(** It has removed a frame it has still to give back to Gum. *)
Definition is_releasing (t : dispatcher) : bool :=
  match pc t with Releasing | Counting | LeaveCounting | LeaveClearing | Dropping => true | _ => false end.

(** It may still clear the redirection. *)
Definition may_clear (t : dispatcher) : bool :=
  match pc t with Releasing | Counting | LeaveCounting | LeaveClearing => true | _ => false end.

Definition total_active (g : lifetime) : Z := fold_right Z.add 0 (active_words g).
Definition releasing (g : lifetime) : Z := Z.of_nat (countb is_releasing (threads g)).
Definition seeded (c : closer_pc) : bool := match c with CloserSeeded => true | _ => false end.

(** The controller has seen no reader since it closed. *)
Definition waited (c : closer_pc) : bool :=
  match c with CloserIdle | CloserWaiting => false | _ => true end.

Record thread_ok (c : closer_pc) (t : dispatcher) : Prop := mkThreadOk {
  ok_range : 0 <= active t <= UINT32_MAX;
  ok_frame : holds_frame (pc t) = true -> 0 < active t;
  ok_releasing : is_releasing t = true -> c = CloserSeeded;
  ok_awaiting : pc t = AwaitingRelease -> c <> CloserIdle;
  ok_committed : waited c = true -> pc t <> Committed /\ pc t <> Leaving
}.

Record lifetime_inv (n : nat) (g : lifetime) : Prop := mkLifetimeInv {
  inv_length : length (threads g) = n;
  inv_threads : Forall (thread_ok (closer g)) (threads g);
  inv_readers : abandoners g = Z.of_nat (countb is_reader (threads g));
  inv_closing : closing g = negb (bool_decide (closer g = CloserIdle));
  inv_release : release_required g = seeded (closer g);
  inv_others : 0 <= others g;
  inv_usage : usage g = others g + (if seeded (closer g) then total_active g + releasing g else 0);
  inv_sum : match closer g with
            | CloserSumming i total =>
                (i <= n)%nat /\ total = fold_right Z.add 0 (take i (active_words g))
            | CloserDone seed => seed = clamp_count (total_active g)
            | _ => True
            end;
  inv_redirect : closer g = CloserSeeded -> destroyed g = false -> redirect g = true ->
    0 < total_active g + Z.of_nat (countb may_clear (threads g));
  inv_enabled : enabled g = bool_decide (closer g = CloserIdle)
}.

(** ** Sums *)

Lemma sum_insert (ws : list Z) i w w' :
  ws !! i = Some w -> fold_right Z.add 0 (<[i:=w']> ws) = fold_right Z.add 0 ws - w + w'.
Proof.
  revert i. induction ws as [|x ws IH]; intros [|i] E; simplify_eq/=; [lia|]. rewrite (IH i E). lia.
Qed.

Lemma total_at i t t' g :
  threads g !! i = Some t ->
  total_active (with_thread_at i t' g) = total_active g - active t + active t'.
Proof.
  intros E. unfold total_active, active_words. simpl. rewrite list_fmap_insert.
  apply sum_insert. by rewrite list_lookup_fmap, E.
Qed.

Lemma words_at i t t' g :
  threads g !! i = Some t -> active t' = active t ->
  active_words (with_thread_at i t' g) = active_words g.
Proof.
  intros E Ea. unfold active_words. simpl. rewrite list_fmap_insert.
  apply list_insert_id. by rewrite list_lookup_fmap, E, Ea.
Qed.

(** [countb_insert] over the integers. *)
Lemma count_at (p : dispatcher -> bool) i t t' ts :
  ts !! i = Some t ->
  Z.of_nat (countb p (<[i:=t']> ts)) =
    Z.of_nat (countb p ts) - (if p t then 1 else 0) + (if p t' then 1 else 0).
Proof.
  intros E. pose proof (countb_insert p ts i t t' E) as H.
  destruct (p t), (p t'); simpl in H; lia.
Qed.

Lemma words_bounded c ts :
  Forall (thread_ok c) ts ->
  0 <= fold_right Z.add 0 (active <$> ts) <= Z.of_nat (length ts) * UINT32_MAX.
Proof. induction 1 as [|t ts [? _ _ _ _] _ IH]; csimpl; [done|]. unfold UINT32_MAX in *. lia. Qed.

(** A thread that moves, with its own word. *)
Lemma threads_ok_at c i t' ts :
  Forall (thread_ok c) ts -> thread_ok c t' -> Forall (thread_ok c) (<[i:=t']> ts).
Proof. intros H Ht. by apply Forall_insert. Qed.

Lemma reader_present (ts : list dispatcher) i t :
  ts !! i = Some t -> is_reader t = true -> 0 < Z.of_nat (countb is_reader ts).
Proof. intros E H. pose proof (countb_pos is_reader ts i t E H). lia. Qed.

Lemma readers_bounded (ts : list dispatcher) : Z.of_nat (countb is_reader ts) <= Z.of_nat (length ts).
Proof. pose proof (countb_le_length is_reader ts). lia. Qed.

(** A step of one thread keeps the invariant when its new state is fine, the
    readers are counted and, once the seed is published, a frame leaves the
    words only for a release. *)
Lemma inv_at n i t t' g g' :
  lifetime_inv n g -> threads g !! i = Some t -> threads g' = <[i:=t']> (threads g) ->
  closing g' = closing g -> release_required g' = release_required g ->
  others g' = others g -> closer g' = closer g ->
  thread_ok (closer g) t' ->
  abandoners g' = abandoners g - (if is_reader t then 1 else 0) + (if is_reader t' then 1 else 0) ->
  (waited (closer g) = true -> closer g <> CloserSeeded -> active t' = active t) ->
  (closer g <> CloserSeeded -> usage g' = usage g) ->
  (closer g = CloserSeeded ->
     usage g' = usage g - active t + active t' - (if is_releasing t then 1 else 0)
                + (if is_releasing t' then 1 else 0)) ->
  destroyed g' = destroyed g -> enabled g' = enabled g ->
  (closer g = CloserSeeded -> destroyed g = false -> redirect g' = true -> redirect g = true /\
     (active t + (if may_clear t then 1 else 0) <= active t' + (if may_clear t' then 1 else 0) \/
      0 < total_active g - active t + active t')) ->
  lifetime_inv n g'.
Proof.
  intros [L T R C Q O U S D N] E Et Ec Er Eo Ek Hok Ha Hw Hu0 Hu1 Edes Een Hd.
  assert (total_active g' = total_active g - active t + active t') as Htot.
  { rewrite <- (total_at i t t' g E). unfold total_active, active_words. by rewrite Et. }
  assert (active t' = active t -> active_words g' = active_words g) as Hwords.
  { intros Ea. rewrite <- (words_at i t t' g E Ea). unfold active_words. by rewrite Et. }
  split; rewrite ?Ek, ?Ec, ?Er, ?Eo, ?Et, ?Een; try done.
  - by rewrite length_insert.
  - by apply threads_ok_at.
  - rewrite (count_at _ _ t t') by done. lia.
  - unfold releasing in *. rewrite Et, (count_at _ _ t t') by done. destruct (closer g) eqn:Eg; simpl in *;
      try (rewrite Hu0 by done; lia). specialize (Hu1 eq_refl). lia.
  - destruct (closer g) eqn:Eg; try done.
    + rewrite Hwords by (by apply Hw). done.
    + rewrite Htot, Hw by done. rewrite S. f_equal. lia.
  - rewrite Edes. intros Hs Hx Hr. destruct (Hd Hs Hx Hr) as [Hr0 Hor]. specialize (D Hs Hx Hr0).
    pose proof (count_at may_clear i t t' (threads g) E) as Hc.
    rewrite Htot. simpl in Hc. lia.
Qed.

Lemma sum_words_exact c ts a :
  Forall (thread_ok c) ts -> 0 <= a -> a + fold_right Z.add 0 (active <$> ts) < 2 ^ 64 ->
  sum_words (active <$> ts) a = a + fold_right Z.add 0 (active <$> ts).
Proof.
  intros H. revert a. induction H as [|t ts Ht Hts IH]; intros a Ha Hlt; csimpl in *; [lia|].
  pose proof (words_bounded c ts Hts). destruct (ok_range _ _ Ht). unfold sum_words in *. simpl.
  rewrite wrap_small by lia. rewrite IH by lia. lia.
Qed.

(** The reader count is 32 bits wide: fewer threads than that. *)
Definition few_threads (n : nat) : Prop := Z.of_nat n < UINT32_MAX.

Lemma total_bounded n g :
  few_threads n -> lifetime_inv n g -> 0 <= total_active g /\ total_active g + UINT32_MAX < 2 ^ 64.
Proof.
  intros Hn [L T _ _ _ _ _ _ _ _]. pose proof (words_bounded _ _ T). unfold few_threads in Hn.
  unfold total_active, active_words. unfold UINT32_MAX in *. rewrite L in *. nia.
Qed.

Lemma fast_active_count_zero n g :
  few_threads n -> lifetime_inv n g -> (fast_active_count g =? 0) = (total_active g =? 0).
Proof.
  intros Hn Hi. destruct (total_bounded n g Hn Hi) as [H0 H1]. pose proof Hi as [L T _ _ _ _ _ _ _ _].
  unfold fast_active_count, clamp_count. unfold active_words. unfold total_active, active_words in *.
  rewrite (sum_words_exact (closer g)), Z.add_0_l by (try done; unfold UINT32_MAX in *; lia).
  destruct (Z.leb_spec (fold_right Z.add 0 (active <$> threads g)) UINT32_MAX); [done|].
  unfold UINT32_MAX in *. rewrite !(proj2 (Z.eqb_neq _ _)) by lia. done.
Qed.

(** Discharges the conditions of [inv_at] at a concrete step. *)
Ltac at_step :=
  intros; unfold slot_removed, is_reader, is_releasing, may_clear in *; simpl in *;
  repeat match goal with
         | H : pc _ = _ |- _ => rewrite H in *
         | H : closer _ = _ |- _ => rewrite H in *
         | H : ?a = ?a -> _ |- _ => specialize (H eq_refl)
         | |- context [0 <? ?a] => rewrite (proj2 (Z.ltb_lt 0 a)) by lia
         end; simpl in *; try done; try congruence; try lia.

Ltac at_moves :=
  match goal with
  | E : threads ?g !! ?i = Some ?t |- lifetime_inv ?n _ =>
      eapply (inv_at n i t _ g); try reflexivity; try done; at_step
  end; try (split; at_step; fail); try (split; [done|]; left; lia).

Lemma closing_cases n g :
  lifetime_inv n g ->
  (closing g = true /\ closer g <> CloserIdle) \/ (closing g = false /\ closer g = CloserIdle).
Proof.
  intros Hi. pose proof (inv_closing n g Hi) as C. 
  destruct (decide (closer g = CloserIdle)) as [E|E].
  - rewrite bool_decide_eq_true_2 in C by done. by right.
  - rewrite bool_decide_eq_false_2 in C by done. by left.
Qed.

Lemma abandon_step_inv n i t g g' :
  few_threads n -> lifetime_inv n g -> threads g !! i = Some t -> abandon_step i t g = Some g' ->
  lifetime_inv n g'.
Proof.
  intros Hn Hi E Hstep. pose proof Hi as [L T R C Q O U S D N].
  pose proof (proj1 (Forall_lookup _ _) T i t E) as [K1 K2 K3 K4 K5].
  pose proof (readers_bounded (threads g)) as Hrb. rewrite L in Hrb.
  pose proof Hn as Hn0. unfold few_threads, UINT32_MAX in Hn0.
  pose proof (reader_present (threads g) i t E) as Hrp. unfold is_reader in Hrp.
  pose proof (fast_active_count_zero n g Hn Hi) as Hz.
  pose proof (total_bounded n g Hn Hi) as Htb.
  pose proof (closing_cases n g Hi) as Hc. clear T C.
  unfold abandon_step, release_frame in Hstep. destruct (pc t) eqn:Ep; try discriminate Hstep.
  - destruct Hc as [[Ec Hc]|[Ec Hc]]; rewrite Ec in Hstep; injection Hstep as <-; at_moves.
  - injection Hstep as <-; at_moves. rewrite wrap_small; lia.
  - destruct Hc as [[Ec Hc]|[Ec Hc]]; rewrite Ec in Hstep; injection Hstep as <-; at_moves.
  - assert (closer g = CloserIdle \/ closer g = CloserWaiting) as [Ek|Ek].
    { destruct (closer g); try (by left); try (by right); by destruct (K5 eq_refl). }
    all: injection Hstep as <-; at_moves.
  - injection Hstep as <-; at_moves. rewrite wrap_small; lia.
  - injection Hstep as <-; at_moves. rewrite wrap_small; lia.
  - destruct (release_required g) eqn:Er; [|discriminate Hstep]. injection Hstep as <-.
    assert (closer g = CloserSeeded) as Ek by (by destruct (closer g)). at_moves.
  - pose proof (K3 ltac:(unfold is_releasing; by rewrite Ep)) as Ek.
    destruct (destroyed g) eqn:Edes; injection Hstep as <-; at_moves.
  - pose proof (K3 ltac:(unfold is_releasing; by rewrite Ep)) as Ek. rewrite Ek in N. simpl in N.
    rewrite Hz, N in Hstep. destruct (Z.eqb_spec (total_active g) 0); injection Hstep as <-; at_moves.
  - pose proof (K3 ltac:(unfold is_releasing; by rewrite Ep)) as Ek. rewrite Ek in N. simpl in N.
    rewrite Hz, N in Hstep. destruct (Z.eqb_spec (total_active g) 0); injection Hstep as <-; at_moves.
  - pose proof (K3 ltac:(unfold is_releasing; by rewrite Ep)) as Ek.
    destruct (destroyed g) eqn:Edes; injection Hstep as <-; at_moves.
  - injection Hstep as <-; at_moves.
Qed.

Lemma begin_abandon_inv n i t g g' :
  lifetime_inv n g -> threads g !! i = Some t -> begin_abandon i t g = Some g' -> lifetime_inv n g'.
Proof.
  intros Hi E Hstep. pose proof Hi as [L T R C Q O U S D N].
  pose proof (proj1 (Forall_lookup _ _) T i t E) as [K1 K2 K3 K4 K5].
  unfold begin_abandon in Hstep. destruct (bool_decide (pc t = Outside)) eqn:Ep; [|done].
  destruct (Z.ltb_spec 0 (active t)); [|done]. apply bool_decide_eq_true in Ep.
  injection Hstep as <-. clear T C. at_moves.
Qed.

Lemma enter_frame_inv n i t g g' :
  lifetime_inv n g -> threads g !! i = Some t -> closer g = CloserIdle ->
  enter_frame i t g = Some g' -> lifetime_inv n g'.
Proof.
  intros Hi E Ek Hstep. pose proof Hi as [L T R C Q O U S D N].
  pose proof (proj1 (Forall_lookup _ _) T i t E) as [K1 K2 K3 K4 K5].
  unfold enter_frame in Hstep. destruct (bool_decide (pc t = Outside)) eqn:Ep; [|done].
  destruct (Z.eqb_spec (active t) UINT32_MAX); [done|]. apply bool_decide_eq_true in Ep.
  injection Hstep as <-. clear T C. at_moves.
Qed.

Lemma leave_frame_inv n i t g g' :
  lifetime_inv n g -> threads g !! i = Some t -> closer g = CloserIdle \/ closer g = CloserSeeded ->
  leave_frame i t g = Some g' -> lifetime_inv n g'.
Proof.
  intros Hi E Ek Hstep. pose proof Hi as [L T R C Q O U S D N].
  pose proof (proj1 (Forall_lookup _ _) T i t E) as [K1 K2 K3 K4 K5].
  unfold leave_frame in Hstep. destruct (bool_decide (pc t = Outside)) eqn:Ep; [|done].
  destruct (Z.ltb_spec 0 (active t)); [|done]. apply bool_decide_eq_true in Ep.
  pose proof (closing_cases n g Hi) as Hc. clear T C.
  destruct Hc as [[Ec Hc]|[Ec Hc]]; rewrite Ec in Hstep; injection Hstep as <-.
  - destruct Ek as [Ek|Ek]; [done|]. at_moves.
  - at_moves.
Qed.

(** Steps that leave the threads alone. *)
Lemma threads_ok_closer c c' ts :
  Forall (thread_ok c) ts -> (c = CloserSeeded -> c' = CloserSeeded) -> c' <> CloserIdle ->
  (waited c' = true -> waited c = true \/ countb is_reader ts = 0%nat) ->
  Forall (thread_ok c') ts.
Proof.
  intros H Hs Hi Hw. apply Forall_lookup. intros i t E.
  destruct (proj1 (Forall_lookup _ _) H i t E) as [K1 K2 K3 K4 K5]. split; auto.
  intros Hw'. destruct (Hw Hw') as [Hc|Hc]; [by apply K5|].
  pose proof (countb_pos is_reader ts i t E) as Hp.
  split; intros Ep; assert (is_reader t = true) as Hr by (unfold is_reader; by rewrite Ep);
    specialize (Hp Hr); lia.
Qed.

Lemma clamp_below total bound :
  0 <= total -> clamp_count total <= bound -> bound <= INT_MAX -> clamp_count total = total.
Proof.
  unfold clamp_count, UINT32_MAX, INT_MAX. destruct (Z.leb_spec total (2 ^ 32 - 1)); [done|]. lia.
Qed.

Lemma take_S_sum (ws : list Z) i w :
  ws !! i = Some w -> fold_right Z.add 0 (take (S i) ws) = fold_right Z.add 0 (take i ws) + w.
Proof.
  revert i. induction ws as [|x ws IH]; intros [|i] E; simplify_eq/=; [lia|].
  rewrite (IH i E). lia.
Qed.

Lemma take_sum_bounded c i ts :
  Forall (thread_ok c) ts -> 0 <= fold_right Z.add 0 (take i (active <$> ts)) <=
    fold_right Z.add 0 (active <$> ts).
Proof.
  intros H. revert i. induction H as [|t ts [K _ _ _ _] Hts IH]; intros [|i]; csimpl; try lia.
  - pose proof (words_bounded c ts Hts). lia.
  - specialize (IH i). lia.
Qed.

Lemma close_step_inv n g g' :
  few_threads n -> lifetime_inv n g -> close_step g = Some g' -> lifetime_inv n g'.
Proof.
  intros Hn Hi Hstep. pose proof Hi as [L T R C Q O U S D N].
  destruct (total_bounded n g Hn Hi) as [Ht0 Ht1].
  unfold close_step in Hstep. destruct (closer g) as [| |j total|seed| |] eqn:Ek; try discriminate Hstep.
  - destruct (destroyed g); [done|]. injection Hstep as <-. split; simpl; try done.
    eapply threads_ok_closer; [exact T|done..].
  - destruct (Z.eqb_spec (abandoners g) 0) as [Ea|]; [|done]. injection Hstep as <-.
    split; simpl; try done.
    + eapply threads_ok_closer; [exact T|done|done|]. intros _. right. lia.
    + split; [lia|done].
  - destruct S as [Hj Hs]. destruct (threads g !! j) as [t|] eqn:Et; injection Hstep as <-.
    + pose proof (lookup_lt_Some _ _ _ Et). assert (active_words g !! j = Some (active t)) as Ew
        by (unfold active_words; by rewrite list_lookup_fmap, Et).
      split; simpl; try done.
      * eapply threads_ok_closer; [exact T|done|done|by left].
      * split; [lia|]. change (active_words _) with (active_words g).
        rewrite (take_S_sum _ _ (active t)), <- Hs by done. apply wrap_small.
        pose proof (proj1 (Forall_lookup _ _) T j t Et) as [K _ _ _ _].
        pose proof (take_sum_bounded _ j (threads g) T). unfold total_active, active_words in *. lia.
    + split; simpl; try done; [eapply threads_ok_closer; [exact T|done|done|by left]|].
      rewrite Hs. apply lookup_ge_None in Et. change (total_active _) with (total_active g).
      unfold total_active. rewrite take_ge; [done|]. unfold active_words. by rewrite length_fmap.
  - unfold seed_usage in Hstep. destruct (_ && _) eqn:Eg; injection Hstep as <-.
    + breflect. simpl in U. pose proof (clamp_below (total_active g) (INT_MAX - usage g)) as Hcl.
      rewrite S in *. rewrite Hcl in * by lia.
      assert (releasing g = 0) as Hr.
      { unfold releasing. destruct (countb is_releasing (threads g)) eqn:Ec; [done|]. exfalso.
        assert (Forall (fun t => is_releasing t = false) (threads g)) as Hf.
        { eapply Forall_impl; [exact T|]. intros t [_ _ K _ _]. destruct (is_releasing t); [|done].
          by specialize (K eq_refl). }
        clear -Hf Ec. induction Hf; simpl in *; [done|]. rewrite H in Ec. simpl in Ec. auto. }
      split; simpl; try done.
      * eapply threads_ok_closer; [exact T|done|done|by left].
      * change (total_active _) with (total_active g). change (releasing _) with (releasing g). lia.
      * intros _ _. destruct (Z.eqb_spec (total_active g) 0); [done|]. intros _.
        change (total_active _) with (total_active g). lia.
    + split; simpl; try done. eapply threads_ok_closer; [exact T|done|done|by left].
Qed.

(** When no frame is left, every thread is outside. *)
Lemma all_outside n g :
  lifetime_inv n g -> closer g = CloserSeeded -> total_active g + releasing g = 0 ->
  Forall (fun t => t = mkDispatcher Outside 0) (threads g).
Proof.
  intros [_ T _ _ _ _ _ _ _ _] Ek. unfold total_active, active_words, releasing. rewrite Ek in T.
  induction T as [|t ts [K1 K2 K3 K4 K5] Hts IH]; [done|]. csimpl. intros H0.
  pose proof (words_bounded _ ts Hts). destruct (K5 eq_refl) as [K6 K7].
  constructor; [|apply IH; lia]. assert (active t = 0) as Ea by lia.
  assert (is_releasing t = false) as Er by (destruct (is_releasing t); simpl in *; [lia|done]).
  destruct t as [p a]. simpl in *. subst a.
  destruct p; simpl in *; try done; specialize (K2 eq_refl); lia.
Qed.

Lemma outside_replicate ts :
  Forall (fun t => t = mkDispatcher Outside 0) ts -> ts = replicate (length ts) (mkDispatcher Outside 0).
Proof. induction 1 as [|t ts -> _ IH]; [done|]. simpl. by rewrite <- IH. Qed.

Lemma fresh_inv n : lifetime_inv n (fresh_lifetime n).
Proof.
  split; simpl; try done.
  - apply length_replicate.
  - apply Forall_replicate. by split.
  - by rewrite countb_replicate.
Qed.

Lemma enable_inv n g g' :
  lifetime_inv n g -> closer g = CloserSeeded -> enable_fast_listener g = Some g' ->
  g' = fresh_lifetime n.
Proof.
  intros Hi Ek Hstep. unfold enable_fast_listener in Hstep.
  destruct (destroyed g) eqn:Edes; [done|].
  destruct (Z.eqb_spec (usage g) 0) as [Eu|]; [|done]. injection Hstep as <-.
  pose proof (all_outside n g Hi Ek) as Ho. pose proof Hi as [L T R C Q O U S D N].
  pose proof (words_bounded _ _ T). rewrite Ek in U. simpl in U. unfold releasing in *.
  unfold total_active, active_words in *. rewrite (outside_replicate (threads g)) by (apply Ho; lia).
  unfold fresh_lifetime. rewrite L. f_equal; simpl; [lia|lia| |done].
  change (map ?f ?l) with (f <$> l). by rewrite fmap_replicate.
Qed.

Lemma other_inv n d g :
  lifetime_inv n g -> 0 <= others g + d -> lifetime_inv n (with_other d g).
Proof.
  intros [L T R C Q O U S D N] Hd. split; try done. unfold with_other. simpl.
  change (total_active _) with (total_active g). change (releasing _) with (releasing g).
  rewrite U. lia.
Qed.

Lemma thread_step_inv n g g' :
  few_threads n -> lifetime_inv n g -> thread_step g g' -> lifetime_inv n g'.
Proof.
  intros Hn Hi [i t E Hs|i t E Hs].
  - by eapply begin_abandon_inv.
  - by eapply abandon_step_inv.
Qed.

Lemma lifetime_step_inv n g g' :
  few_threads n -> lifetime_inv n g -> lifetime_step g g' -> lifetime_inv n g'.
Proof.
  intros Hn Hi Hstep. destruct Hstep.
  - by eapply thread_step_inv.
  - by eapply close_step_inv.
  - by eapply enter_frame_inv.
  - by eapply leave_frame_inv.
  - rewrite (enable_inv n g g') by done. apply fresh_inv.
  - subst g'. apply other_inv; [done|]. pose proof (inv_others n g Hi). lia.
  - subst g'. apply other_inv; [done|]. lia.
  - subst g'. by destruct Hi.
Qed.

Lemma reachable_inv n g : few_threads n -> rtc lifetime_step (fresh_lifetime n) g -> lifetime_inv n g.
Proof.
  intros Hn. assert (forall g0, lifetime_inv n g0 -> rtc lifetime_step g0 g -> lifetime_inv n g) as H.
  { intros g0 H0 Hr. induction Hr as [|x y z Hxy _ IH]; [done|]. by eapply IH, lifetime_step_inv. }
  apply H, fresh_inv.
Qed.

(** C10: The detach of a direct hook counts every frame exactly once.  Over any
    interleaving of entering, leaving and abandoning threads with the closing
    controller, generic invocations and re-enabling: once the detach is
    prepared, Gum's trampoline counter is the generic uses plus the direct
    frames still open or being released, so it cannot drop to the generic uses
    while a direct frame can still run through the trampoline; and when the
    last frame is given back the counter is exactly the generic uses, the
    redirection is cleared unless Gum has destroyed the function context
    meanwhile, which it may do at any point, and all threads are outside. *)
Theorem detach_counts_frames n g :
  few_threads n -> rtc lifetime_step (fresh_lifetime n) g -> closer g = CloserSeeded ->
  usage g = others g + total_active g + releasing g /\
  0 <= total_active g /\
  (usage g = others g ->
     (destroyed g = false -> redirect g = false) /\ Forall (fun t => t = mkDispatcher Outside 0) (threads g)).
Proof.
  intros Hn Hr Ek. pose proof (reachable_inv n g Hn Hr) as Hi. pose proof Hi as [L T R C Q O U S D N].
  destruct (total_bounded n g Hn Hi) as [Ht0 _].
  assert (usage g = others g + total_active g + releasing g) as Eu.
  { rewrite U, Ek. simpl. lia. }
  split_and!; [done|done|]. intros E. assert (0 <= releasing g) by (unfold releasing; lia).
  assert (total_active g + releasing g = 0) as Hz by lia. pose proof (all_outside n g Hi Ek Hz) as Ho.
  split; [|done]. intros Hx. destruct (redirect g) eqn:Er; [|done]. exfalso. specialize (D Ek Hx eq_refl).
  replace (countb _ (threads g)) with 0%nat in D; [lia|].
  rewrite (outside_replicate _ Ho), countb_replicate; done.
Qed.

(** ** The wait of the controller *)

(** The steps a thread can still take while the listener is closing. *)
Definition pc_weight (p : frame_pc) : nat :=
  match p with
  | AwaitingRelease => 0
  | LoopTop => 1
  | Outside | Retracting => 2
  | Leaving => 3
  | Committed => 4
  | Announced => 3
  | Announcing => 4
  | Dropping => 3
  | Releasing | Counting | LeaveCounting | LeaveClearing => 4
  end%nat.

Definition wait_measure (g : lifetime) : nat :=
  fold_right (fun t n => (pc_weight (pc t) + n)%nat) 0%nat (threads g).

Lemma weight_at i t t' (ts : list dispatcher) :
  ts !! i = Some t ->
  (fold_right (fun t n => (pc_weight (pc t) + n)%nat) 0%nat (<[i:=t']> ts) + pc_weight (pc t) =
   fold_right (fun t n => (pc_weight (pc t) + n)%nat) 0%nat ts + pc_weight (pc t'))%nat.
Proof.
  revert i. induction ts as [|x ts IH]; intros [|i] E; simplify_eq/=; [lia|]. specialize (IH i E). lia.
Qed.

Lemma wait_measure_bound g : (wait_measure g <= 4 * length (threads g))%nat.
Proof.
  unfold wait_measure. induction (threads g) as [|t ts IH]; simpl; [lia|].
  assert (pc_weight (pc t) <= 4)%nat by (destruct (pc t); simpl; lia). lia.
Qed.

(** A thread's step while the controller waits. *)
Lemma waiting_step n g g' :
  lifetime_inv n g -> closer g = CloserWaiting -> thread_step g g' ->
  closer g' = CloserWaiting /\ length (threads g') = length (threads g) /\
  (wait_measure g' < wait_measure g)%nat.
Proof.
  intros Hi Ek Hstep. destruct (closing_cases n g Hi) as [[Ec _]|[_ ?]]; [|congruence].
  destruct Hstep as [i t E Hs|i t E Hs]; pose proof (fun t' => weight_at i t t' (threads g) E) as Hw.
  - unfold begin_abandon in Hs. destruct (bool_decide (pc t = Outside)) eqn:Ep; [|done].
    apply bool_decide_eq_true in Ep. destruct (0 <? active t); [|done]. injection Hs as <-.
    simpl. rewrite length_insert. split_and!; [done|done|]. unfold wait_measure. simpl.
    specialize (Hw (mkDispatcher LoopTop (active t))). rewrite Ep in Hw. simpl in Hw. lia.
  - pose proof (inv_release n g Hi) as Q. rewrite Ek in Q. simpl in Q.
    pose proof (ok_releasing _ _ (proj1 (Forall_lookup _ _) (inv_threads n g Hi) i t E)) as K.
    rewrite Ek in K. unfold is_releasing in K.
    unfold abandon_step in Hs. rewrite ?Ec, ?Q in Hs.
    destruct (pc t) eqn:Ep; try discriminate Hs; try discriminate (K eq_refl); injection Hs as <-;
      simpl; rewrite length_insert; (split_and!; [done|done|]); unfold wait_measure; simpl;
      match goal with |- context [<[i:=?t']> _] => specialize (Hw t') end;
      simpl in Hw; lia.
Qed.

(** C11: Closing a hook never hangs on its threads.  While the controller waits
    for the threads inside an abandonment, any of their steps brings them
    closer to being out: at most four steps per thread can happen before none
    is left to take, and as long as the reader count is not zero some thread
    has a step, whatever the others do; with the count at zero the controller
    goes on. *)
Theorem close_wait_ends n g :
  few_threads n -> rtc lifetime_step (fresh_lifetime n) g -> closer g = CloserWaiting ->
  (forall k g', nsteps thread_step k g g' ->
     (k <= 4 * n)%nat /\ closer g' = CloserWaiting /\
     (abandoners g' <> 0 -> exists g'', thread_step g' g'')) /\
  (abandoners g = 0 -> is_Some (close_step g)).
Proof.
  intros Hn Hr Ek. pose proof (reachable_inv n g Hn Hr) as Hi. split.
  - intros k g' Hk.
    assert (lifetime_inv n g' /\ closer g' = CloserWaiting /\ (wait_measure g' + k <= wait_measure g)%nat)
      as (Hi' & Ek' & Hm).
    { clear Hr. induction Hk as [g|k g1 g2 g3 H12 _ IH]; [split_and!; [done|done|lia]|].
      destruct (waiting_step n g1 g2 Hi Ek H12) as (Ek2 & _ & Hlt).
      destruct IH as (A & B & D); [done|by eapply thread_step_inv|]. split_and!; [done|done|lia]. }
    pose proof (wait_measure_bound g). rewrite (inv_length n g Hi) in *.
    split_and!; [lia|done|]. intros Ha. pose proof (inv_readers n g' Hi') as R.
    assert (exists i t, threads g' !! i = Some t /\ is_reader t = true) as (i & t & E & Ht).
    { rewrite R in Ha. clear -Ha. induction (threads g') as [|t ts IH]; simpl in *; [done|].
      destruct (is_reader t) eqn:Et; [by exists 0%nat, t|].
      destruct IH as (i & t' & E & Ht'); [done|]. by exists (S i), t'. }
    destruct (pc t) eqn:Ep; unfold is_reader in Ht; rewrite Ep in Ht; try discriminate Ht;
      eexists; eapply (ts_abandon _ _ i t); try done; unfold abandon_step; rewrite Ep; reflexivity.
  - intros Ha. unfold close_step. rewrite Ek, Ha. by eexists.
Qed.

(** ** A run *)

Inductive op := OpEnter (i : nat) | OpLeave (i : nat) | OpBegin (i : nat) | OpAbandon (i : nat) | OpClose.

Definition do_op (o : op) (g : lifetime) : option lifetime :=
  match o with
  | OpEnter i => t ← threads g !! i; if decide (closer g = CloserIdle) then enter_frame i t g else None
  | OpLeave i => t ← threads g !! i; if decide (closer g = CloserSeeded) then leave_frame i t g else None
  | OpBegin i => t ← threads g !! i; begin_abandon i t g
  | OpAbandon i => t ← threads g !! i; abandon_step i t g
  | OpClose => close_step g
  end.

Definition run_ops (os : list op) (g : lifetime) : option lifetime :=
  fold_left (fun g o => g ≫= do_op o) os (Some g).

Lemma do_op_step o g g' : do_op o g = Some g' -> lifetime_step g g'.
Proof.
  destruct o as [i|i|i|i|]; simpl; [| | | |apply ls_close]; intros E; apply bind_Some in E as (t & Et & E).
  - destruct (decide _); [|done]. by eapply ls_enter.
  - destruct (decide _); [|done]. eapply ls_leave; [by right|done|done].
  - by eapply ls_thread, ts_begin.
  - by eapply ls_thread, ts_abandon.
Qed.

Lemma run_ops_reach os g g' : run_ops os g = Some g' -> rtc lifetime_step g g'.
Proof.
  unfold run_ops. revert g. induction os as [|o os IH]; intros g; simpl; [by intros [= <-]|].
  destruct (do_op o g) as [g1|] eqn:E.
  - intros H. eapply rtc_l; [by eapply do_op_step|by apply IH].
  - clear. intros H. exfalso. induction os; simpl in H; [done|]. by apply IHos.
Qed.

(** Two threads with a frame each: the first is caught between its
    announcement and its commitment by the close and retracts; the second
    leaves normally after the seed. *)
Definition demo_before : list op :=
  [OpEnter 0; OpEnter 1; OpBegin 0; OpAbandon 0; OpAbandon 0; OpClose].
Definition demo_after : list op :=
  [OpAbandon 0; OpAbandon 0; OpAbandon 0; OpClose; OpClose; OpClose; OpClose; OpClose;
   OpLeave 1; OpAbandon 1; OpAbandon 1; OpAbandon 0; OpAbandon 0; OpAbandon 0; OpAbandon 0].

Definition demo_waiting : lifetime :=
  mkLifetime true 1 false true 0 0 CloserWaiting [mkDispatcher Announced 1; mkDispatcher Outside 1]
    false false.
Definition demo_ended : lifetime :=
  mkLifetime true 0 true false 0 0 CloserSeeded [mkDispatcher Outside 0; mkDispatcher Outside 0]
    false false.

Lemma demo_waiting_reached : rtc lifetime_step (fresh_lifetime 2) demo_waiting.
Proof. apply (run_ops_reach demo_before). vm_compute. reflexivity. Qed.

Lemma demo_ended_reached : rtc lifetime_step (fresh_lifetime 2) demo_ended.
Proof. apply (run_ops_reach (demo_before ++ demo_after)). vm_compute. reflexivity. Qed.

Lemma detach_counts_frames_witness :
  closer demo_ended = CloserSeeded /\ usage demo_ended = others demo_ended /\ redirect demo_ended = false.
Proof.
  assert (few_threads 2) as Hn by (vm_compute; reflexivity).
  destruct (detach_counts_frames 2 demo_ended Hn demo_ended_reached) as (_ & _ & H); [reflexivity|].
  split; [reflexivity|]. split; [reflexivity|]. apply H; reflexivity.
Defined.

Lemma close_wait_ends_witness :
  closer demo_waiting = CloserWaiting /\ abandoners demo_waiting = 1 /\
  exists g'', thread_step demo_waiting g''.
Proof.
  assert (few_threads 2) as Hn by (vm_compute; reflexivity).
  destruct (close_wait_ends 2 demo_waiting Hn demo_waiting_reached) as [H _]; [reflexivity|].
  split; [reflexivity|]. split; [reflexivity|].
  destruct (H 0%nat demo_waiting) as (_ & _ & Hs); [constructor|]. apply Hs. vm_compute. discriminate.
Defined.
