(* ===== verification/ThreadPause.v ===== *)
(** * Pausing application threads by signal

    The signal pause of [src/general_listener.c] (Linux): the controller queues
    a STOP signal carrying a session id, the handler in the target thread
    acknowledges it through a pipe and waits for a CONT signal with that id or
    a later one.  System calls are oracles that return what their manual pages
    document; waits are loops over the sequence of their results. *)

From S2P Require Import Prelude.

Record timespec := mkTimespec { tv_sec : Z; tv_nsec : Z }.

Definition NSEC : Z := 1000000000.

Definition ts_ns (t : timespec) : Z := tv_sec t * NSEC + tv_nsec t.
Definition normalised (t : timespec) : Prop := 0 <= tv_nsec t < NSEC.

(** The addition of an interval to a clock reading, with one carry. *)
Definition timespec_add (t : timespec) (interval_ns : Z) : timespec :=
  let sec := tv_sec t + interval_ns / NSEC in
  let nsec := tv_nsec t + interval_ns mod NSEC in
  if NSEC <=? nsec then mkTimespec (sec + 1) (nsec - NSEC) else mkTimespec sec nsec.

(** [pthread_pause_deadline_ms]: milliseconds to the deadline, rounded up. *)
Definition pause_deadline_ms (now deadline : timespec) : Z :=
  let remaining_ns := (tv_sec deadline - tv_sec now) * NSEC + (tv_nsec deadline - tv_nsec now) in
  if remaining_ns <=? 0 then 0
  else
    let remaining_ms := Z.quot (remaining_ns + 999999) 1000000 in
    if INT_MAX <? remaining_ms then INT_MAX else remaining_ms.

(** ** Waiting for the acknowledgement *)

(** One attempt to read the acknowledgement pipe, and what follows it. *)
Inductive ack_read :=
  | AckSession (id : Z)          (* a whole id was read *)
  | AckInterrupted               (* EINTR *)
  | AckEmpty (now : timespec) (poll_ret : Z) (poll_interrupted : bool)
  | AckBroken.                   (* end of file, short read or another error *)

(** [pthread_pause_wait_for_ack] over the results of its system calls; [None]
    while it still waits. *)
Fixpoint pause_wait_for_ack (pipe_open : bool) (session_id : Z) (deadline : timespec)
    (reads : list ack_read) : option Z :=
  if negb pipe_open then Some (-1)
  else match reads with
  | [] => None
  | r :: reads =>
      let next := pause_wait_for_ack pipe_open session_id deadline reads in
      match r with
      | AckSession id => if id =? session_id then Some 0 else next
      | AckInterrupted => next
      | AckEmpty now poll_ret poll_interrupted =>
          if pause_deadline_ms now deadline <=? 0 then Some 1
          else if 0 <? poll_ret then next
          else if poll_ret =? 0 then Some 1
          else if poll_interrupted then next
          else Some (-1)
      | AckBroken => Some (-1)
      end
  end.

(** ** The signal handler *)

(** A result of [sigtimedwait] on the CONT signal. *)
Inductive cont_wait :=
  | ContSignal (cont_id : Z)
  | ContInterrupted
  | ContTimedOut.

(** The wait of a stopped thread; returns the thread's [last_cont_id] when the
    thread goes on, [None] while it waits. *)
Fixpoint wait_for_cont (session_id last_cont_id : Z) (waits : list cont_wait) : option Z :=
  match waits with
  | [] => None
  | ContSignal cont_id :: waits =>
      let last := if last_cont_id <? cont_id then cont_id else last_cont_id in
      if session_id <=? cont_id then Some last else wait_for_cont session_id last waits
  | ContInterrupted :: waits => wait_for_cont session_id last_cont_id waits
  | ContTimedOut :: _ => Some last_cont_id
  end.

Inductive pause_signal := SigStop (session_id : Z) | SigCont (session_id : Z) | SigOther.

(** [pthread_pause_handler]: the acknowledgements written, and the thread's
    [last_cont_id] when the handler returns. *)
Definition pause_handler (pipe_open : bool) (last_cont_id : Z) (s : pause_signal)
    (waits : list cont_wait) : list Z * option Z :=
  match s with
  | SigStop session_id =>
      let acks := if pipe_open then [session_id] else [] in
      if session_id <=? last_cont_id then (acks, Some last_cont_id)
      else (acks, wait_for_cont session_id last_cont_id waits)
  | SigCont session_id =>
      ([], Some (if last_cont_id <? session_id then session_id else last_cont_id))
  | SigOther => ([], Some last_cont_id)
  end.

(** The timeout the handler passes to [sigtimedwait] at clock reading [now]. *)
Definition cont_wait_timeout (now : timespec) (sig_cont_wait_interval : Z) : timespec :=
  timespec_add now sig_cont_wait_interval.

(** ** Controller side *)

(** What the queueing loop sees of one call: the return value of
    [pthread_sigqueue] and the value of [errno] after it. *)
Record sigqueue_result := mkSigqueue { sq_return : Z; sq_errno : Z }.

Definition EAGAIN : Z := 11.

(** [while (pthread_sigqueue(...) == -1) { if (errno != EAGAIN) return -1; usleep }]:
    [Some true] queued, [Some false] given up, [None] while it retries.  The
    number of calls made is the second component. *)
Fixpoint queue_signal (results : list sigqueue_result) : option bool * nat :=
  match results with
  | [] => (None, 0%nat)
  | r :: results =>
      if sq_return r =? -1 then
        if negb (sq_errno r =? EAGAIN) then (Some false, 1%nat)
        else let '(res, n) := queue_signal results in (res, S n)
      else (Some true, 1%nat)
  end.

(** [pthread_unpause]. *)
Definition pthread_unpause (results : list sigqueue_result) : option Z :=
  match queue_signal results with
  | (Some true, _) => Some 0
  | (Some false, _) => Some (-1)
  | (None, _) => None
  end.

(** Wrap-around of an atomic [int]. *)
Definition wrap_int (x : Z) : Z := (x + 2 ^ 31) mod 2 ^ 32 - 2 ^ 31.

(** [pthread_pause_mapped]: the returned status, the session id handed out and
    the new session counter. *)
Definition pthread_pause_mapped (max_num_threads mapped_id : nat) (session_counter : Z)
    (results : list sigqueue_result) (now : timespec) (stop_ack_wait_interval : Z)
    (pipe_open : bool) (reads : list ack_read) : option (Z * Z) * Z :=
  let session_id := session_counter in
  let counter := wrap_int (session_counter + 1) in
  (if (max_num_threads <=? mapped_id)%nat then Some (-1, -1)
   else match queue_signal results with
        | (None, _) => None
        | (Some false, _) => Some (-1, -1)
        | (Some true, _) =>
            let deadline := timespec_add now stop_ack_wait_interval in
            st ← pause_wait_for_ack pipe_open session_id deadline reads; Some (st, session_id)
        end, counter).

(** ** Lemmas *)

Lemma timespec_add_ns t n :
  normalised t -> 0 <= n ->
  ts_ns (timespec_add t n) = ts_ns t + n /\ normalised (timespec_add t n).
Proof.
  unfold normalised, ts_ns, timespec_add. intros Ht Hn.
  pose proof (Z.div_mod n NSEC ltac:(done)). pose proof (Z.mod_pos_bound n NSEC ltac:(done)).
  unfold NSEC in *. destruct (Z.leb_spec 1000000000 (tv_nsec t + n mod 1000000000)); simpl; lia.
Qed.

Lemma wait_for_cont_monotone session last waits r :
  wait_for_cont session last waits = Some r -> last <= r.
Proof.
  revert last. induction waits as [|w waits IH]; intros last; [done|]. simpl.
  destruct w as [id| |]; [|apply IH|by intros [= <-]].
  destruct (Z.ltb_spec last id), (Z.leb_spec session id); intros Hr; simplify_eq; try lia;
    apply IH in Hr; lia.
Qed.

(** ** Properties *)

(** the acknowledgement deadline is exact and rounds up: the wait handed to
    [poll] is 0 exactly when the deadline has passed, otherwise the least
    number of milliseconds that reaches the deadline, capped at INT_MAX; and
    the deadline computed from a normalised clock reading is exactly the
    interval later. *)
Theorem pause_deadline_exact now interval :
  normalised now -> 0 <= interval ->
  ts_ns (timespec_add now interval) = ts_ns now + interval /\
  forall t, normalised t ->
    let ms := pause_deadline_ms t (timespec_add now interval) in
    0 <= ms <= INT_MAX /\
    (ms = 0 <-> ts_ns now + interval <= ts_ns t) /\
    (0 < ms < INT_MAX ->
       (ms - 1) * 1000000 < ts_ns now + interval - ts_ns t <= ms * 1000000).
Proof.
  intros Hn Hi. destruct (timespec_add_ns now interval Hn Hi) as [E _]. split; [done|].
  intros t Ht. rewrite <- E. generalize (timespec_add now interval). intros d.
  unfold pause_deadline_ms, ts_ns. set (r := (tv_sec d - tv_sec t) * NSEC + _).
  replace (tv_sec d * NSEC + tv_nsec d) with (tv_sec t * NSEC + tv_nsec t + r) by (unfold r; lia).
  generalize (tv_sec t * NSEC + tv_nsec t). intros z. unfold INT_MAX.
  destruct (Z.leb_spec r 0); [lia|].
  assert (Z.quot (r + 999999) 1000000 = (r + 999999) / 1000000) as -> by (apply Z.quot_div_nonneg; lia).
  pose proof (Z.div_mod (r + 999999) 1000000 ltac:(done)).
  pose proof (Z.mod_pos_bound (r + 999999) 1000000 ltac:(done)).
  destruct (Z.ltb_spec (2 ^ 31 - 1) ((r + 999999) / 1000000)); lia.
Qed.

Lemma pause_deadline_exact_witness :
  pause_deadline_ms (mkTimespec 5 0) (timespec_add (mkTimespec 5 999999999) 1500000) = 1002 /\
  ts_ns (timespec_add (mkTimespec 5 999999999) 1500000) = 6001499999.
Proof.
  split; [reflexivity|].
  exact (proj1 (pause_deadline_exact (mkTimespec 5 999999999) 1500000
    ltac:(vm_compute; split; [discriminate|reflexivity]) ltac:(vm_compute; discriminate))).
Defined.

(** a stopped thread is released by a CONT of its session whatever the
    order of delivery.  The handler of a STOP acknowledges it and returns at
    once when a CONT of that session or a later one was handled before; while
    it waits, CONTs of earlier sessions do not release it and are remembered;
    the first CONT of its session or a later one releases it; and
    [last_cont_id] never decreases. *)
Theorem stop_released_by_cont session last cont waits :
  session <= cont ->
  (last < session ->
     pause_handler true (default last (pause_handler true last (SigCont cont) []).2)
       (SigStop session) [] =
     ([session], Some cont)) /\
  (forall early, Forall (fun w => w = ContInterrupted \/ exists id, w = ContSignal id /\ id < session) early ->
     last < session ->
     pause_handler true last (SigStop session) early = ([session], None) /\
     (pause_handler true last (SigStop session) (early ++ ContSignal cont :: waits)).2 =
       Some cont) /\
  (forall s r, (pause_handler true last s waits).2 = Some r -> last <= r).
Proof.
  intros Hc. split_and!.
  - intros Hl. simpl. destruct (Z.ltb_spec last cont); [|lia]. simpl.
    destruct (Z.leb_spec session cont); [done|lia].
  - intros early He Hl. simpl. destruct (Z.leb_spec session last); [lia|]. simpl. clear H.
    revert last Hl. induction He as [|w early [->|(id & -> & Hid)] _ IH]; intros last Hl; simpl.
    + split; [done|]. destruct (Z.leb_spec session cont); [|lia].
      destruct (Z.ltb_spec last cont); [done|lia].
    + by apply IH.
    + destruct (Z.leb_spec session id); [lia|]. apply IH. destruct (Z.ltb_spec last id); lia.
  - intros [s|s|] r; simpl.
    + destruct (Z.leb_spec s last); simpl; [intros; simplify_eq; lia|].
      apply wait_for_cont_monotone.
    + destruct (Z.ltb_spec last s); intros; simplify_eq; lia.
    + intros; simplify_eq; lia.
Qed.

Lemma stop_released_by_cont_witness :
  (pause_handler true 3 (SigStop 7) ([ContSignal 5; ContInterrupted] ++ ContSignal 7 :: [])).2 = Some 7.
Proof.
  apply (proj2 (A := pause_handler true 3 (SigStop 7) [ContSignal 5; ContInterrupted] = ([7], None))).
  refine (proj1 (proj2 (stop_released_by_cont 7 3 7 [] ltac:(lia))) _ _ ltac:(lia)).
  constructor; [right; by exists 5|]. constructor; [by left|constructor].
Defined.

(** [pthread_sigqueue] as its manual page documents it: 0 on success, an error
    number, which is positive, otherwise; it never returns -1. *)
Definition documented_sigqueue (r : sigqueue_result) : Prop := 0 <= sq_return r.

(** the retry of the signal-queueing loops is dead code.  Since
    [pthread_sigqueue] returns an error number and never -1, [pthread_unpause]
    makes exactly one call and reports success even when the signal was not
    queued (EAGAIN: the queue is full), and [pthread_pause_mapped] goes on to
    wait for an acknowledgement that cannot come. *)
Theorem sigqueue_failure_unnoticed r rest :
  documented_sigqueue r ->
  pthread_unpause (r :: rest) = Some 0 /\ (queue_signal (r :: rest)).2 = 1%nat /\
  queue_signal (r :: rest) = (Some true, 1%nat).
Proof.
  unfold documented_sigqueue, pthread_unpause. intros Hr. simpl.
  destruct (Z.eqb_spec (sq_return r) (-1)); [lia|]. done.
Qed.

Lemma sigqueue_failure_unnoticed_witness :
  pthread_unpause [mkSigqueue EAGAIN 0; mkSigqueue 0 0] = Some 0.
Proof.
  apply (sigqueue_failure_unnoticed (mkSigqueue EAGAIN 0) [mkSigqueue 0 0]).
  vm_compute. discriminate.
Defined.

(** the handler passes an absolute time where [sigtimedwait] takes an
    interval: the wait it asks for is the configured interval plus the whole
    clock reading, so it exceeds any configured bound by the time since the
    epoch. *)
Theorem cont_wait_not_bounded_by_interval now interval :
  normalised now -> 0 <= interval ->
  ts_ns (cont_wait_timeout now interval) = ts_ns now + interval.
Proof. intros Hn Hi. apply (timespec_add_ns now interval Hn Hi). Qed.

Lemma cont_wait_not_bounded_by_interval_witness :
  ts_ns (cont_wait_timeout (mkTimespec 1700000000 0) 5000000) =
  ts_ns (mkTimespec 1700000000 0) + 5000000.
Proof.
  apply (cont_wait_not_bounded_by_interval (mkTimespec 1700000000 0) 5000000);
    [vm_compute; split; [discriminate|reflexivity]|vm_compute; discriminate].
Defined.
