(* ===== verification/TargetSelector.v ===== *)
(** * The target-selector scanner

    Models [src/utils/target_selector_syntax.c]: the scanner that finds the
    next delimiter of a target list outside brackets, template argument lists
    and C++ operator names.  A C string is the list of its bytes before the
    terminating NUL; reading at or past the end yields 0.  Heap growth is an
    oracle, so allocation may fail. *)

From Stdlib Require Import String Ascii.
From S2P Require Import Prelude.

(** ** C strings *)

Abbreviation cstring := (list Z).

Definition bytes (s : string) : cstring := map (fun c => Z.of_nat (nat_of_ascii c)) (list_ascii_of_string s).

Definition char_at (text : cstring) (i : nat) : Z := default 0 (text !! i).

Definition c_str (text : cstring) : Prop := Forall (fun c => 0 < c < 256) text.

(** [isspace] and [isalnum] in the C locale. *)
Definition isspace (c : Z) : bool := (c =? 32) || ((9 <=? c) && (c <=? 13)).
Definition isalnum (c : Z) : bool :=
  ((48 <=? c) && (c <=? 57)) || ((65 <=? c) && (c <=? 90)) || ((97 <=? c) && (c <=? 122)).

Definition ch (s : string) : Z := char_at (bytes s) 0.

(** [strncmp(text + at, word, strlen(word)) == 0]. *)
Fixpoint prefix_at (text : cstring) (at_ : nat) (word : cstring) : bool :=
  match word with
  | [] => true
  | c :: word => (char_at text at_ =? c) && prefix_at text (S at_) word
  end.

(** Moves [cursor] left over white space. *)
Fixpoint skip_space_back (text : cstring) (cursor : nat) : nat :=
  match cursor with
  | O => O
  | S c => if isspace (char_at text c) then skip_space_back text c else S c
  end.

(** Moves right over white space; [fuel] bounds the distance to the NUL. *)
Fixpoint skip_space (fuel : nat) (text : cstring) (i : nat) : nat :=
  match fuel with
  | O => i
  | S fuel => if isspace (char_at text i) then skip_space fuel text (S i) else i
  end.

Definition identifier_char (c : Z) : bool := isalnum c || (c =? 95).

(** ** Operator names *)

Definition operator_word : cstring := bytes "operator".

Definition operator_token_ends_at (text : cstring) (cursor : nat) : bool :=
  let cursor := skip_space_back text cursor in
  (8 <=? cursor)%nat && prefix_at text (cursor - 8) operator_word &&
  ((cursor =? 8)%nat || negb (identifier_char (char_at text (cursor - 9)))).

Definition operator_tokens : list cstring :=
  map bytes
    ["<=>"; "->*"; "<<="; ">>="; "<<"; ">>"; "<="; ">="; "=="; "!=";
     "++"; "--"; "&&"; "||"; "+="; "-="; "*="; "/="; "%="; "^="; "&=";
     "|="; "->"; "<"; ">"; "+"; "-"; "*"; "/"; "%"; "^"; "&"; "|"; "~";
     "!"; "="; ","]%string.

(** Whether the operator word at [word] has a token that covers [cursor]. *)
Definition operator_at_covers (text : cstring) (cursor word : nat) : bool :=
  if negb (prefix_at text word operator_word)
     || ((0 <? word)%nat && identifier_char (char_at text (word - 1)))
  then false
  else
    let token := skip_space (length text) text (word + 8) in
    existsb (fun t => prefix_at text token t && (token <=? cursor)%nat &&
                      (cursor <? token + length t)%nat) operator_tokens.

Definition operator_punctuation_at (text : cstring) (cursor : nat) : bool :=
  existsb (operator_at_covers text cursor) (seq 0 cursor).

Definition preceding_keyword (text : cstring) (cursor : nat) (keyword : cstring) : bool :=
  let end_ := skip_space_back text cursor in
  let start := (end_ - length keyword)%nat in
  if (end_ <? length keyword)%nat || negb (prefix_at text start keyword) then false
  else (start =? 0)%nat || negb (identifier_char (char_at text (start - 1))).

Definition grouping_predecessors : cstring := bytes "<[{,(+-*/%&|^~!=?>".

Definition parenthesis_is_grouping (text : cstring) (cursor : nat) : bool :=
  let cursor := skip_space_back text cursor in
  if (cursor =? 0)%nat || preceding_keyword text cursor (bytes "decltype")
     || preceding_keyword text cursor (bytes "noexcept")
     || preceding_keyword text cursor (bytes "sizeof")
     || preceding_keyword text cursor (bytes "alignof")
     || preceding_keyword text cursor (bytes "typeid")
  then true
  else existsb (Z.eqb (char_at text (cursor - 1))) grouping_predecessors.

(** ** The scanner *)

Record PeakSelectorFrame := mkFrame { grouping : bool; closer : Z; id : nat }.

(** The two heap stacks (top first) with their capacities, and the first
    nested delimiter. *)
Record scan_state := mkScan {
  frames : list PeakSelectorFrame;
  angles : list nat;
  frame_capacity : nat;
  angle_capacity : nat;
  next_frame : nat;
  nested : option nat
}.

(** The frame [calloc] leaves at the bottom of the stack. *)
Definition base_frame : PeakSelectorFrame := mkFrame false 0 0.

Definition initial_scan : scan_state := mkScan [base_frame] [] 8 8 1 None.

Definition top_frame (s : scan_state) : PeakSelectorFrame := default base_frame (head (frames s)).

Definition frame_has_angle (angles : list nat) (frame : nat) : bool :=
  match angles with a :: _ => (a =? frame)%nat | [] => false end.

Fixpoint drop_angles (angles : list nat) (frame : nat) : list nat :=
  match angles with
  | a :: rest => if (a =? frame)%nat then drop_angles rest frame else angles
  | [] => []
  end.

(** [peak_selector_grow]: doubles a capacity; [realloc_ok] says whether the
    reallocation to a number of bytes succeeds. *)
Definition selector_grow (realloc_ok : Z -> bool) (capacity value_size : nat) : option nat :=
  if (Z.of_nat capacity >? SIZE_MAX / 2)
     || (Z.of_nat capacity * 2 >? SIZE_MAX / Z.of_nat value_size)
  then None
  else if realloc_ok (Z.of_nat capacity * 2 * Z.of_nat value_size)
  then Some (capacity * 2)%nat else None.

Definition FRAME_SIZE : nat := 16.
Definition ANGLE_SIZE : nat := 8.

(** What one character does: go on, found a top-level delimiter, [goto invalid]. *)
Inductive scan_step := Continue (s : scan_state) | Found | Invalid (s : scan_state).

Definition push_frame (s : scan_state) (capacity : nat) (f : PeakSelectorFrame) : scan_state :=
  mkScan (f :: frames s) (angles s) capacity (angle_capacity s) (S (next_frame s)) (nested s).
Definition with_angles (s : scan_state) (a : list nat) (capacity : nat) : scan_state :=
  mkScan (frames s) a (frame_capacity s) capacity (next_frame s) (nested s).
Definition pop_frame (s : scan_state) (a : list nat) : scan_state :=
  mkScan (tail (frames s)) a (frame_capacity s) (angle_capacity s) (next_frame s) (nested s).

Section Scanner.
Context (realloc_ok : Z -> bool) (text : cstring) (delimiter : Z).

Definition ensure_capacity (count capacity value_size : nat) : option nat :=
  if (count =? capacity)%nat then selector_grow realloc_ok capacity value_size else Some capacity.

Definition open_bracket (c : Z) : bool := (c =? ch "(") || (c =? ch "[") || (c =? ch "{").
Definition close_bracket (c : Z) : bool := (c =? ch ")") || (c =? ch "]") || (c =? ch "}").

Definition scan_char (cursor : nat) (s : scan_state) : scan_step :=
  let c := char_at text cursor in
  if open_bracket c then
    match ensure_capacity (length (frames s)) (frame_capacity s) FRAME_SIZE with
    | None => Invalid s
    | Some capacity =>
        Continue (push_frame s capacity
          (mkFrame (if c =? ch "(" then parenthesis_is_grouping text cursor else true)
             (if c =? ch "(" then ch ")" else if c =? ch "[" then ch "]" else ch "}")
             (next_frame s)))
    end
  else if close_bracket c then
    if (length (frames s) =? 1)%nat then Invalid s
    else
      let current := top_frame s in
      if negb (c =? closer current) then Invalid s
      else if frame_has_angle (angles s) (id current) then
        if negb (grouping current) then Invalid s
        else Continue (pop_frame s (drop_angles (angles s) (id current)))
      else Continue (pop_frame s (angles s))
  else if (c =? ch "<") && negb (operator_punctuation_at text cursor) &&
          negb (char_at text (S cursor) =? ch "=") then
    match ensure_capacity (length (angles s)) (angle_capacity s) ANGLE_SIZE with
    | None => Invalid s
    | Some capacity => Continue (with_angles s (id (top_frame s) :: angles s) capacity)
    end
  else if (c =? ch ">") && negb (operator_punctuation_at text cursor) then
    if (0 <? cursor)%nat && (char_at text (cursor - 1) =? ch "=") then Invalid s
    else if negb (char_at text (S cursor) =? ch "=") &&
            frame_has_angle (angles s) (id (top_frame s))
    then Continue (with_angles s (tail (angles s)) (angle_capacity s))
    else if negb (char_at text (S cursor) =? ch "=") && negb (grouping (top_frame s))
    then Invalid s
    else Continue s
  else if (c =? delimiter) && negb (operator_punctuation_at text cursor) &&
          negb ((delimiter =? ch ",") && operator_token_ends_at text cursor) then
    if (length (frames s) =? 1)%nat && (length (angles s) =? 0)%nat then Found
    else Continue (mkScan (frames s) (angles s) (frame_capacity s) (angle_capacity s)
                     (next_frame s)
                     (match nested s with None => Some cursor | n => n end))
  else Continue s.

(** The loop over the [remaining] characters from [cursor]; [None] for the
    position when there is no delimiter. *)
Fixpoint scan (recover_nested : bool) (remaining : nat) (cursor : nat) (s : scan_state)
    : bool * option nat :=
  let invalid s := (recover_nested, if recover_nested then nested s else None) in
  match remaining with
  | O => if (length (frames s) =? 1)%nat && (length (angles s) =? 0)%nat
         then (true, None) else invalid s
  | S remaining =>
      match scan_char cursor s with
      | Continue s' => scan recover_nested remaining (S cursor) s'
      | Found => (true, Some cursor)
      | Invalid s' => invalid s'
      end
  end.
End Scanner.

(** [calloc_ok]: whether the two initial allocations succeed.  [None] for the
    text is the NULL pointer. *)
Definition next_delimiter (calloc_ok : bool) (realloc_ok : Z -> bool) (text : option cstring)
    (delimiter : Z) (recover_nested : bool) : bool * option nat :=
  match text with
  | None => (false, None)
  | Some text =>
      if delimiter =? 0 then (false, None)
      else if negb calloc_ok then (false, None)
      else scan realloc_ok text delimiter recover_nested (length text) 0 initial_scan
  end.

(** [peak_target_selector_has_top_level_offset]; every iteration consumes at
    least one character, so [S (length text)] iterations are enough. *)
Fixpoint top_level_offset (fuel : nat) (calloc_ok : bool) (realloc_ok : Z -> bool)
    (text : cstring) : bool :=
  match fuel with
  | O => false
  | S fuel =>
      match text with
      | [] => false
      | _ =>
          match next_delimiter calloc_ok realloc_ok (Some text) (ch "+") false with
          | (true, Some plus) =>
              if (char_at text (plus + 1) =? ch "0") &&
                 ((char_at text (plus + 2) =? ch "x") || (char_at text (plus + 2) =? ch "X"))
              then true
              else top_level_offset fuel calloc_ok realloc_ok (drop (plus + 1) text)
          | _ => false
          end
      end
  end.

Definition has_top_level_offset (calloc_ok : bool) (realloc_ok : Z -> bool)
    (text : option cstring) : bool :=
  match text with
  | None => false
  | Some text => top_level_offset (S (length text)) calloc_ok realloc_ok text
  end.

(** ** Lemmas *)

Definition scan_ok (s : scan_state) : Prop :=
  (1 <= length (frames s) <= frame_capacity s)%nat /\
  (length (angles s) <= angle_capacity s)%nat /\ (1 <= angle_capacity s)%nat.

Lemma ensure_capacity_room realloc_ok count capacity size cap' :
  (1 <= capacity)%nat -> (count <= capacity)%nat ->
  ensure_capacity realloc_ok count capacity size = Some cap' ->
  (count < cap')%nat /\ (capacity <= cap')%nat.
Proof.
  unfold ensure_capacity, selector_grow. intros H1 H2.
  destruct (Nat.eqb_spec count capacity); [|intros [= <-]; lia].
  destruct (_ || _); [done|]. destruct (realloc_ok _); [|done]. intros [= <-]. lia.
Qed.

Lemma drop_angles_length a f : (length (drop_angles a f) <= length a)%nat.
Proof. induction a as [|x a IH]; simpl; [lia|]. destruct (x =? f)%nat; simpl; lia. Qed.

(** The depth a character leads to, whatever else it does. *)
Definition depth_after (c : Z) (depth : nat) : nat :=
  if open_bracket c then S depth else if close_bracket c then pred depth else depth.

Section ScanLemmas.
Context (realloc_ok : Z -> bool) (text : cstring) (delimiter : Z).

Lemma scan_char_ok cursor s :
  scan_ok s ->
  match scan_char realloc_ok text delimiter cursor s with
  | Continue s' =>
      scan_ok s' /\ length (frames s') = depth_after (char_at text cursor) (length (frames s)) /\
      (close_bracket (char_at text cursor) = true -> open_bracket (char_at text cursor) = false ->
         (2 <= length (frames s))%nat)
  | Found =>
      char_at text cursor = delimiter /\ length (frames s) = 1%nat /\ angles s = [] /\
      operator_punctuation_at text cursor = false
  | Invalid s' => s' = s
  end.
Proof.
  intros (Hf & Ha & Hc). unfold scan_char, depth_after.
  destruct (open_bracket (char_at text cursor)) eqn:Eo.
  { destruct (ensure_capacity _ _ _ _) as [cap|] eqn:E; [|done].
    apply ensure_capacity_room in E; [|lia|lia]. unfold scan_ok. simpl.
    split_and!; (done || lia). }
  destruct (close_bracket (char_at text cursor)) eqn:Ecl.
  { destruct (Nat.eqb_spec (length (frames s)) 1); [done|].
    destruct (negb _); [done|]. pose proof (drop_angles_length (angles s) (id (top_frame s))).
    destruct (frame_has_angle _ _); [destruct (negb _); [done|]|];
      unfold scan_ok, pop_frame; simpl; rewrite length_tl; split_and!; (done || lia). }
  destruct (_ && negb (char_at text (S cursor) =? ch "=")).
  { destruct (ensure_capacity _ _ _ _) as [cap|] eqn:E; [|done].
    apply ensure_capacity_room in E; [|lia|lia]. unfold scan_ok. simpl. split_and!; (done || lia). }
  destruct (_ && negb (operator_punctuation_at text cursor)) in |- *.
  { destruct (_ && _); [done|]. destruct (_ && _).
    { unfold scan_ok. simpl. rewrite length_tl. split_and!; (done || lia). }
    destruct (_ && _); [done|]. split_and!; done. }
  destruct (_ && _ && _) eqn:Ed in |- *; [|split_and!; done].
  destruct (_ && _) eqn:Et in |- *; [|split_and!; done].
  breflect. split_and!; try done. by apply nil_length_inv.
Qed.

Lemma scan_sound recover n cursor s :
  scan_ok s -> (cursor + n)%nat = length text ->
  match scan realloc_ok text delimiter recover n cursor s with
  | (true, Some p) =>
      recover = true \/
      ((cursor <= p < length text)%nat /\ char_at text p = delimiter /\
       operator_punctuation_at text p = false /\
       fold_left (fun d c => depth_after c d) (take (p - cursor) (drop cursor text))
         (length (frames s)) = 1%nat)
  | (true, None) =>
      recover = true \/
      fold_left (fun d c => depth_after c d) (drop cursor text) (length (frames s)) = 1%nat
  | (false, None) => recover = false
  | (false, Some _) => False
  end.
Proof.
  revert cursor s. induction n as [|n IH]; intros cursor s Hs Hn.
  - simpl. rewrite drop_ge by lia. simpl.
    destruct (_ && _) eqn:E; [breflect; auto|]. destruct recover; [|done].
    destruct (nested s); auto.
  - simpl. pose proof (scan_char_ok cursor s Hs) as Hc.
    assert (drop cursor text = char_at text cursor :: drop (S cursor) text) as Hd.
    { unfold char_at. destruct (lookup_lt_is_Some_2 text cursor) as [c Ec]; [lia|].
      rewrite Ec. by apply drop_S. }
    destruct (scan_char _ _ _ cursor s) as [s'| |s'].
    + destruct Hc as (Hs' & Hl & _). specialize (IH (S cursor) s' Hs' ltac:(lia)).
      rewrite Hd, Hl in *. destruct (scan _ _ _ _ n _ s') as [[] [p|]]; try done.
      destruct IH as [?|(? & ? & ? & Hfold)]; [auto|]. right. split_and!; try done; try lia.
      replace (p - cursor)%nat with (S (p - S cursor)) by lia. simpl. exact Hfold.
    + destruct Hc as (Hd' & Hl & Ha & Hop). right. rewrite Nat.sub_diag. simpl.
      split_and!; try done; lia.
    + destruct recover; [|done]. destruct (nested s'); auto.
Qed.
End ScanLemmas.

(** [strchr] as an index. *)
Fixpoint index_of (c : Z) (text : cstring) : option nat :=
  match text with
  | [] => None
  | x :: text => if x =? c then Some O else S <$> index_of c text
  end.

(** No bracket, no angle, no operator name. *)
Definition plain (text : cstring) : Prop :=
  Forall (fun c => open_bracket c = false /\ close_bracket c = false /\
                   c <> ch "<" /\ c <> ch ">") text /\
  forall i, prefix_at text i operator_word = false.

Lemma plain_no_operator text cursor : plain text -> operator_punctuation_at text cursor = false.
Proof.
  intros [_ Hop]. unfold operator_punctuation_at. apply not_true_iff_false.
  rewrite existsb_exists. intros (w & _ & Hw). unfold operator_at_covers in Hw. by rewrite Hop in Hw.
Qed.

Lemma scan_plain realloc_ok text delimiter recover n cursor :
  plain text -> (cursor + n)%nat = length text ->
  scan realloc_ok text delimiter recover n cursor initial_scan =
    (true, (fun k => cursor + k)%nat <$> index_of delimiter (drop cursor text)).
Proof.
  intros Hp. revert cursor. induction n as [|n IH]; intros cursor Hn; simpl scan.
  { by rewrite drop_ge by lia. }
  destruct (lookup_lt_is_Some_2 text cursor) as [c Ec]; [lia|].
  rewrite (drop_S text c cursor Ec).
  assert (char_at text cursor = c) as Hc by (unfold char_at; by rewrite Ec).
  destruct (Forall_lookup_1 _ _ _ _ (proj1 Hp) Ec) as (Ho & Hcl & Hlt & Hgt).
  apply Z.eqb_neq in Hlt, Hgt. unfold scan_char.
  rewrite Hc, Ho, Hcl, Hlt, Hgt, (plain_no_operator text cursor Hp).
  assert (operator_token_ends_at text cursor = false) as ->.
  { unfold operator_token_ends_at. rewrite (proj2 Hp), andb_false_r. done. }
  rewrite !andb_false_r. cbn [andb negb index_of]. rewrite !andb_true_r.
  destruct (c =? delimiter) eqn:Ed; simpl.
  - by rewrite Nat.add_0_r.
  - rewrite IH by lia. f_equal. destruct (index_of delimiter (drop (S cursor) text)); simpl; [|done].
    f_equal. lia.
Qed.

(** ** Properties *)

(** the scanner is sound and total.  Whatever the text, the delimiter and
    the allocations, it returns; without recovery, a reported position holds
    the delimiter, is not part of an operator name and is at bracket depth
    zero, a success without position means the whole text is bracket-balanced,
    and a failure reports no position; with recovery it always succeeds once
    its stacks were allocated.  The two stacks never outgrow their capacity. *)
Theorem next_delimiter_sound realloc_ok text delimiter :
  delimiter <> 0 ->
  let depth := fold_left (fun d c => depth_after c d) in
  match next_delimiter true realloc_ok (Some text) delimiter false with
  | (true, Some p) =>
      text !! p = Some delimiter /\ operator_punctuation_at text p = false /\
      depth (take p text) 1%nat = 1%nat
  | (true, None) => depth text 1%nat = 1%nat
  | (false, pos) => pos = None
  end /\
  (next_delimiter true realloc_ok (Some text) delimiter true).1 = true /\
  (forall cursor s s', scan_ok s -> scan_char realloc_ok text delimiter cursor s = Continue s' ->
     scan_ok s').
Proof.
  intros Hd depth. assert (scan_ok initial_scan) as Hok by (unfold scan_ok; simpl; lia).
  unfold next_delimiter. rewrite (proj2 (Z.eqb_neq _ _) Hd). simpl. split_and!.
  - pose proof (scan_sound realloc_ok text delimiter false _ 0 initial_scan Hok eq_refl) as H.
    destruct (scan _ _ _ false _ 0 _) as [[] [p|]]; try done.
    + destruct H as [|((_ & Hp) & Hc & Hop & Hf)]; [done|]. rewrite Nat.sub_0_r, drop_0 in Hf.
      split_and!; try done. unfold char_at in Hc.
      destruct (lookup_lt_is_Some_2 text p Hp) as [c Ec]. rewrite Ec in *. by simpl in Hc; subst.
    + destruct H as [|H]; [done|]. by rewrite drop_0 in H.
  - pose proof (scan_sound realloc_ok text delimiter true _ 0 initial_scan Hok eq_refl) as H.
    destruct (scan _ _ _ true _ 0 _) as [[] [p|]]; done.
  - intros cursor s s' Hs E. pose proof (scan_char_ok realloc_ok text delimiter cursor s Hs) as H.
    rewrite E in H. by destruct H.
Qed.

Lemma next_delimiter_sound_witness :
  ch "," <> 0 /\
  match next_delimiter true (fun _ => true) (Some (bytes "f(a,b),g")) (ch ",") false with
  | (true, Some p) => bytes "f(a,b),g" !! p = Some (ch ",") /\ p = 6%nat
  | _ => False
  end.
Proof.
  assert (ch "," <> 0) as Hd by (vm_compute; discriminate). split; [exact Hd|].
  pose proof (proj1 (next_delimiter_sound (fun _ => true) (bytes "f(a,b),g") (ch ",") Hd)) as H.
  vm_compute in H. vm_compute. split; [apply H|reflexivity].
Defined.

(** on a plain target list (no brackets, no angles, no operator name) the
    scanner is exactly [strchr]: it finds the first delimiter, or reports that
    there is none, and never fails, recovery or not. *)
Theorem plain_selector_is_strchr realloc_ok text delimiter recover :
  delimiter <> 0 -> plain text ->
  next_delimiter true realloc_ok (Some text) delimiter recover =
    (true, index_of delimiter text).
Proof.
  intros Hd Hp. unfold next_delimiter. rewrite (proj2 (Z.eqb_neq _ _) Hd). simpl.
  rewrite scan_plain by done. rewrite drop_0. by destruct (index_of delimiter text).
Qed.

Lemma prefix_at_out text i c word : (length text <= i)%nat -> 0 < c -> prefix_at text i (c :: word) = false.
Proof.
  intros Hi Hc. cbn [prefix_at]. unfold char_at. rewrite lookup_ge_None_2 by done.
  cbn [default from_option]. by rewrite (proj2 (Z.eqb_neq _ _)) by (simpl; lia).
Qed.

Lemma plain_selector_is_strchr_witness :
  plain (bytes "MPI_Send,dgemm_") /\
  next_delimiter true (fun _ => true) (Some (bytes "MPI_Send,dgemm_")) (ch ",") false =
    (true, index_of (ch ",") (bytes "MPI_Send,dgemm_")).
Proof.
  assert (plain (bytes "MPI_Send,dgemm_")) as Hp.
  { split.
    - repeat constructor; vm_compute; congruence.
    - intros i. destruct (decide (15 <= i)%nat) as [Hi|Hi].
      + by apply prefix_at_out.
      + do 15 (destruct i as [|i]; [reflexivity|]). lia. }
  split; [exact Hp|].
  apply (plain_selector_is_strchr (fun _ => true) (bytes "MPI_Send,dgemm_") (ch ",") false);
    [vm_compute; discriminate|exact Hp].
Defined.
