(* ===== verification/EnvParser.v ===== *)
(** * Integer environment configuration

    Models the unsigned and boolean parsers of [src/utils/env_parser.c].  The
    environment is a partial function from names to C strings; [strtoull] is
    modelled for base 10 with its end pointer and its ERANGE report. *)

From Stdlib Require Import String.
From S2P Require Import Prelude TargetSelector.

(** ** The C library functions *)

Definition isdigit (c : Z) : bool := (48 <=? c) && (c <=? 57).
Definition digit_value (c : Z) : Z := c - 48.

Fixpoint span {A} (p : A -> bool) (l : list A) : list A * list A :=
  match l with
  | x :: l' => if p x then let '(a, b) := span p l' in (x :: a, b) else ([], l)
  | [] => ([], [])
  end.

Definition decimal (ds : cstring) : Z := fold_left (fun v d => 10 * v + digit_value d) ds 0.

Definition ULLONG_MAX : Z := UINT64_MAX.

(** [strtoull(value, &end, 10)]: the result, [end - value] and whether [errno]
    is ERANGE.  A leading minus negates in the result type. *)
Definition strtoull (value : cstring) : Z * nat * bool :=
  let '(spaces, rest) := span isspace value in
  let '(negative, sign, rest) :=
    match rest with
    | c :: rest' => if c =? ch "-" then (true, 1%nat, rest')
                    else if c =? ch "+" then (false, 1%nat, rest') else (false, 0%nat, rest)
    | [] => (false, 0%nat, rest)
    end in
  let '(digits, _) := span isdigit rest in
  match digits with
  | [] => (0, 0%nat, false)
  | _ =>
      let v := decimal digits in
      let consumed := (length spaces + sign + length digits)%nat in
      if ULLONG_MAX <? v then (ULLONG_MAX, consumed, true)
      else (if negative then wrap 64 (- v) else v, consumed, false)
  end.

(** ** The parsers *)

Record PeakEnvUnsignedSchema := mkUnsignedSchema {
  name : string;
  fallback : Z;
  minimum : Z;
  maximum : Z;
  zero_allowed : bool;
  decimal_digits_only : bool
}.

(** [peak_parse_env_unsigned_checked]; the output parameter is the option. *)
Definition parse_env_unsigned_checked (getenv : string -> option cstring)
    (schema : PeakEnvUnsignedSchema) : option Z :=
  match getenv (name schema) with
  | None => None
  | Some value =>
      if decimal_digits_only schema &&
         (bool_decide (value = []) || negb (forallb isdigit value))
      then None
      else
        let '(_, rest) := span isspace value in
        if bool_decide (value = []) || (char_at rest 0 =? ch "-") then None
        else
          let '(parsed, consumed, erange) := strtoull value in
          if erange || (consumed =? 0)%nat || negb (char_at value consumed =? 0)
             || (parsed <? minimum schema) || (maximum schema <? parsed)
             || (negb (zero_allowed schema) && (parsed =? 0))
          then None else Some parsed
  end.

(** [peak_parse_env_unsigned]: the value, the schema's warning flag after the
    call and whether a warning was printed.  [warning_emitted] is [None] when
    the schema has no flag. *)
Definition parse_env_unsigned (getenv : string -> option cstring)
    (schema : PeakEnvUnsignedSchema) (warning_emitted : option bool) : Z * option bool * bool :=
  match getenv (name schema) with
  | None => (fallback schema, warning_emitted, false)
  | Some _ =>
      match parse_env_unsigned_checked getenv schema with
      | Some parsed => (parsed, warning_emitted, false)
      | None =>
          match warning_emitted with
          | None => (fallback schema, None, true)
          | Some emitted => (fallback schema, Some true, negb emitted)
          end
      end
  end.

(** [strcasecmp] and [strcmp] against a literal. *)
Definition tolower (c : Z) : Z := if (65 <=? c) && (c <=? 90) then c + 32 else c.

Definition parse_env_to_bool (getenv : string -> option cstring) (env_var : string) : bool :=
  match getenv env_var with
  | None => false
  | Some v => bool_decide (map tolower v = map tolower (bytes "true")) || bool_decide (v = bytes "1")
  end.

(** ** Lemmas *)

Lemma span_spec {A} (p : A -> bool) l a b :
  span p l = (a, b) ->
  l = a ++ b /\ Forall (fun x => p x = true) a /\
  match b with [] => True | x :: _ => p x = false end.
Proof.
  revert a b. induction l as [|x l IH]; intros a b; simpl; [by intros [= <- <-]|].
  destruct (p x) eqn:Ep; [|by intros [= <- <-]].
  destruct (span p l) as [a' b'] eqn:E. intros [= <- <-].
  destruct (IH _ _ eq_refl) as (-> & Ha & Hb). by repeat constructor.
Qed.

Lemma span_app {A} (p : A -> bool) a b :
  Forall (fun x => p x = true) a -> match b with [] => True | x :: _ => p x = false end ->
  span p (a ++ b) = (a, b).
Proof.
  intros Ha Hb. induction Ha as [|x a Hx _ IH]; simpl.
  - destruct b as [|y b]; simpl; [done|]. by rewrite Hb.
  - by rewrite Hx, IH.
Qed.

Lemma char_at_0 (l : cstring) : c_str l -> (char_at l 0 =? 0) = bool_decide (l = []).
Proof.
  intros Hl. destruct l as [|c l]; [done|]. apply Forall_cons in Hl as [Hc _].
  rewrite bool_decide_eq_false_2 by done. apply Z.eqb_neq. unfold char_at. simpl. lia.
Qed.

Lemma char_at_app_r (a b : cstring) : char_at (a ++ b) (length a) = char_at b 0.
Proof. unfold char_at. rewrite lookup_app_r by lia. by rewrite Nat.sub_diag. Qed.

Lemma isdigit_not_space c : isdigit c = true -> isspace c = false.
Proof.
  unfold isdigit, isspace. intros H. breflect. apply orb_false_iff. split.
  - apply Z.eqb_neq. lia.
  - apply andb_false_iff. right. apply Z.leb_gt. lia.
Qed.

Lemma isdigit_not_sign c : isdigit c = true -> (c =? ch "-") = false /\ (c =? ch "+") = false.
Proof.
  unfold isdigit. intros H. breflect. change (ch "-") with 45. change (ch "+") with 43.
  split; apply Z.eqb_neq; lia.
Qed.

(** The texts the unsigned parser reads: spaces, an optional plus, digits. *)
Definition unsigned_text (value : cstring) (v : Z) : Prop :=
  exists spaces sign digits,
    value = spaces ++ sign ++ digits /\ Forall (fun c => isspace c = true) spaces /\
    (sign = [] \/ sign = [ch "+"]) /\ digits <> [] /\
    Forall (fun c => isdigit c = true) digits /\ v = decimal digits.

Lemma span_digits_all digits :
  Forall (fun c => isdigit c = true) digits -> span isdigit digits = (digits, []).
Proof. intros Hd. rewrite <- (app_nil_r digits) at 1. by apply span_app. Qed.

Lemma unsigned_text_span spaces sign digits :
  Forall (fun c => isspace c = true) spaces -> (sign = [] \/ sign = [ch "+"]) ->
  digits <> [] -> Forall (fun c => isdigit c = true) digits ->
  span isspace (spaces ++ sign ++ digits) = (spaces, sign ++ digits).
Proof.
  intros Hs Hsign Hne Hd. apply span_app; [done|]. destruct Hsign as [->| ->]; [|done].
  destruct digits as [|d digits]; [done|]. apply Forall_cons in Hd as [Hd _].
  by apply isdigit_not_space.
Qed.

Lemma strtoull_text spaces sign digits :
  Forall (fun c => isspace c = true) spaces -> (sign = [] \/ sign = [ch "+"]) ->
  digits <> [] -> Forall (fun c => isdigit c = true) digits ->
  strtoull (spaces ++ sign ++ digits) =
    let consumed := length (spaces ++ sign ++ digits) in
    if ULLONG_MAX <? decimal digits then (ULLONG_MAX, consumed, true)
    else (decimal digits, consumed, false).
Proof.
  intros Hs Hsign Hne Hd. unfold strtoull. rewrite unsigned_text_span by done.
  rewrite !length_app, Nat.add_assoc. destruct Hsign as [->| ->]; cbn [app length].
  - destruct digits as [|d digits]; [done|]. pose proof Hd as Hd'.
    apply Forall_cons in Hd' as [Hd1 _]. destruct (isdigit_not_sign d Hd1) as [-> ->].
    rewrite span_digits_all by done. done.
  - change (ch "+" =? ch "-") with false. change (ch "+" =? ch "+") with true. cbv iota.
    rewrite span_digits_all by done. by destruct digits.
Qed.

(** Everything [strtoull] reads to the end is such a text. *)
Lemma strtoull_end value v consumed :
  c_str value -> (char_at (span isspace value).2 0 =? ch "-") = false ->
  strtoull value = (v, consumed, false) -> consumed <> 0%nat -> char_at value consumed = 0 ->
  unsigned_text value v /\ v <= ULLONG_MAX.
Proof.
  intros Hc Hminus. unfold strtoull. destruct (span isspace value) as [spaces rest] eqn:Es.
  destruct (span_spec _ _ _ _ Es) as (-> & Hsp & _). simpl in Hminus.
  assert (c_str rest) as Hrest by (by apply Forall_app in Hc as [_ ?]).
  assert (forall sign rest', rest = sign ++ rest' -> (sign = [] \/ sign = [ch "+"]) ->
    (let '(digits, _) := span isdigit rest' in
     match digits with
     | [] => (0, 0%nat, false)
     | _ => if ULLONG_MAX <? decimal digits
            then (ULLONG_MAX, (length spaces + length sign + length digits)%nat, true)
            else (decimal digits, (length spaces + length sign + length digits)%nat, false)
     end) = (v, consumed, false) -> consumed <> 0%nat -> char_at (spaces ++ rest) consumed = 0 ->
    unsigned_text (spaces ++ rest) v /\ v <= ULLONG_MAX) as Hmain.
  { intros sign rest' -> Hsign. destruct (span isdigit rest') as [digits tl] eqn:Ed.
    destruct (span_spec _ _ _ _ Ed) as (-> & Hdg & _).
    destruct digits as [|d digits]; [by intros [= _ <-]|].
    set (ds := d :: digits) in *. destruct (Z.ltb_spec ULLONG_MAX (decimal ds)); [done|].
    intros [= <- <-] _ Hend. 
    replace (spaces ++ sign ++ ds ++ tl) with (((spaces ++ sign) ++ ds) ++ tl) in Hend
      by (by rewrite <- !app_assoc).
    assert (length spaces + length sign + S (length digits) =
            length ((spaces ++ sign) ++ ds))%nat as El by (rewrite !length_app; done).
    rewrite El in Hend.
    rewrite char_at_app_r in Hend. apply Z.eqb_eq in Hend. rewrite char_at_0 in Hend.
    2: { apply Forall_app in Hrest as [_ Hrest]. by apply Forall_app in Hrest as [_ ?]. }
    apply bool_decide_eq_true in Hend as ->. split; [|done].
    exists spaces, sign, ds. rewrite app_nil_r. by split_and!. }
  destruct rest as [|c rest'].
  { intros [= _ <-]. done. }
  change (char_at (c :: rest') 0) with c in Hminus. rewrite Hminus.
  destruct (Z.eqb_spec c (ch "+")) as [->|_].
  - intros E. apply (Hmain [ch "+"] rest'); auto.
  - intros E. apply (Hmain [] (c :: rest')); auto.
Qed.

Lemma unsigned_text_nonempty value v : unsigned_text value v -> value <> [].
Proof.
  intros (sp & sg & ds & -> & _ & _ & Hne & _). destruct sp; [|done]. destruct sg; [|done].
  by destruct ds.
Qed.

Lemma unsigned_text_no_minus (sign digits : cstring) :
  (sign = [] \/ sign = [ch "+"]) -> digits <> [] ->
  Forall (fun c => isdigit c = true) digits -> (char_at (sign ++ digits) 0 =? ch "-") = false.
Proof.
  intros [->| ->] Hne Hd; [|done]. destruct digits as [|d ds]; [done|].
  apply Forall_cons in Hd as [Hd _]. by destruct (isdigit_not_sign d Hd).
Qed.

(** ** Properties *)

(** the checked unsigned parser accepts exactly the decimal numerals in the
    schema's range: on a present value it succeeds with [v] if and only if the
    text is optional white space, an optional plus sign and at least one digit
    up to its end, with value [v] that fits 64 bits and the schema's bounds,
    is not zero unless zero is allowed, and consists of digits only when the
    schema demands it.  Negative, empty, trailing and overflowing texts are
    refused. *)
Theorem unsigned_checked_exact getenv schema value v :
  getenv (name schema) = Some value -> c_str value ->
  parse_env_unsigned_checked getenv schema = Some v <->
  unsigned_text value v /\ v <= ULLONG_MAX /\ minimum schema <= v <= maximum schema /\
  (zero_allowed schema = true \/ v <> 0) /\
  (decimal_digits_only schema = true -> Forall (fun c => isdigit c = true) value).
Proof.
  intros Hg Hc. unfold parse_env_unsigned_checked. rewrite Hg. split.
  - destruct (_ && (_ || _)) eqn:E1; [done|].
    destruct (span isspace value) as [sp rest] eqn:Es.
    destruct (bool_decide (value = []) || (char_at rest 0 =? ch "-")) eqn:E2; [done|]. apply orb_false_iff in E2 as [_ Hminus].
    destruct (strtoull value) as [[parsed consumed] erange] eqn:Est.
    match goal with |- (if ?b then _ else _) = _ -> _ => destruct b eqn:E3; [done|] end.
    intros [= <-]. breflect. subst erange.
    destruct (strtoull_end value parsed consumed Hc) as [Ht Hle]; try done.
    { rewrite Es. by apply Z.eqb_neq. }
    split_and!; try done; try lia.
    + match goal with H : negb _ && _ = false |- _ => apply andb_false_iff in H as [?|?] end;
        breflect; [by left|by right].
    + intros Hdo. rewrite Hdo in E1. simpl in E1. breflect.
      apply Forall_forall. intros c Hin. apply list_elem_of_In in Hin.
      match goal with H : forallb _ _ = true |- _ => rewrite forallb_forall in H; by apply H end.
  - intros ((sp & sg & ds & Ev & Hsp & Hsg & Hne & Hd & ->) & Hle & Hr & Hz & Hdo).
    assert (value <> []) as Hvne.
    { apply (unsigned_text_nonempty value (decimal ds)). exists sp, sg, ds. by split_and!. }
    assert (decimal_digits_only schema && (bool_decide (value = []) || negb (forallb isdigit value))
            = false) as ->.
    { destruct (decimal_digits_only schema); [|done]. simpl. specialize (Hdo eq_refl).
      rewrite bool_decide_eq_false_2 by done. simpl. apply negb_false_iff.
      apply forallb_forall. intros c Hin. rewrite Forall_forall in Hdo.
      apply Hdo. by apply list_elem_of_In. }
    rewrite bool_decide_eq_false_2 by done. simpl. subst value.
    rewrite unsigned_text_span by done. rewrite unsigned_text_no_minus by done.
    rewrite strtoull_text by done. destruct (Z.ltb_spec ULLONG_MAX (decimal ds)); [lia|].
    simpl. rewrite (proj2 (Nat.eqb_neq _ _)) by (by destruct (sp ++ sg ++ ds)).
    unfold char_at. rewrite lookup_ge_None_2 by done. simpl.
    rewrite (proj2 (Z.ltb_ge _ _)), (proj2 (Z.ltb_ge _ _)) by lia. simpl.
    destruct Hz as [->|Hz]; [done|]. rewrite (proj2 (Z.eqb_neq _ _) Hz). by rewrite andb_false_r.
Qed.

Definition demo_schema : PeakEnvUnsignedSchema := mkUnsignedSchema "PEAK_DETACH_COUNT" 7 1 100 false false.

Lemma unsigned_checked_exact_witness :
  parse_env_unsigned_checked (fun _ => Some (bytes " +042")) demo_schema = Some 42.
Proof.
  apply (unsigned_checked_exact (fun _ => Some (bytes " +042")) demo_schema (bytes " +042") 42).
  - reflexivity.
  - repeat constructor; vm_compute; congruence.
  - split_and!; try (vm_compute; congruence).
    + exists [32], [ch "+"], (bytes "042"). split_and!; try reflexivity.
      * repeat constructor.
      * by right.
      * discriminate.
      * repeat constructor.
    + right. discriminate.
Defined.

(** an unsigned setting is always usable and warns at most once: the value
    returned is the fallback or satisfies the schema; it is the parsed value
    whenever the checked parser accepts the text; a warning is printed only
    for a present, rejected text, and never again once the schema's flag is
    set. *)
Theorem unsigned_setting_usable getenv schema flag v flag' warned :
  parse_env_unsigned getenv schema flag = (v, flag', warned) ->
  (v = fallback schema \/
   (minimum schema <= v <= maximum schema /\ (zero_allowed schema = true \/ v <> 0))) /\
  (forall p, parse_env_unsigned_checked getenv schema = Some p -> v = p /\ warned = false) /\
  (warned = true -> getenv (name schema) <> None /\
     parse_env_unsigned_checked getenv schema = None /\ flag <> Some true) /\
  (forall b, flag = Some b -> warned = true ->
     exists v2, parse_env_unsigned getenv schema flag' = (v2, flag', false)).
Proof.
  unfold parse_env_unsigned. destruct (getenv (name schema)) as [value|] eqn:Eg.
  - destruct (parse_env_unsigned_checked getenv schema) as [p|] eqn:Ep.
    + intros [= <- <- <-]. split_and!; try done.
      * right. unfold parse_env_unsigned_checked in Ep. rewrite Eg in Ep.
        destruct (_ && (_ || _)); [done|]. destruct (span isspace value) as [sp rest].
        destruct (bool_decide (value = []) || _); [done|]. destruct (strtoull value) as [[pp consumed] er].
        match type of Ep with (if ?b then _ else _) = _ => destruct b eqn:E3; [done|] end.
        injection Ep as <-. breflect. split; [lia|].
        match goal with H : negb _ && _ = false |- _ => apply andb_false_iff in H as [?|?] end;
          breflect; [by left|by right].
      * intros q [= <-]. done.
    + destruct flag as [[]|]; intros [= <- <- <-]; split_and!; try done; auto; intros b [= <-];
        try done. eauto.
  - intros [= <- <- <-]. split_and!; try done; auto. intros p.
    unfold parse_env_unsigned_checked. by rewrite Eg.
Qed.

Lemma unsigned_setting_usable_witness :
  exists v2, parse_env_unsigned (fun _ => Some (bytes "many")) demo_schema (Some true) =
    (v2, Some true, false).
Proof.
  eapply (unsigned_setting_usable (fun _ => Some (bytes "many")) demo_schema (Some false) 7
    (Some true) true); reflexivity.
Defined.
