(* ===== verification/ReportModel.v ===== *)
(** * Final-report aggregation

    Models [src/general_listener/report_maxima.c] and
    [src/general_listener/report_model.c]: the per-metric maxima over ranks
    with MAXLOC tie-breaking, the validation of a received tuple, call
    averaging and the clamping of exclusive times.  Arrays indexed by metric
    are lists of length six. *)

From S2P Require Import Prelude Doubles.

Inductive PeakReportMetric :=
  | PEAK_REPORT_METRIC_COMBINED
  | PEAK_REPORT_METRIC_PROFILE
  | PEAK_REPORT_METRIC_CONTROL
  | PEAK_REPORT_METRIC_MANAGEMENT
  | PEAK_REPORT_METRIC_PROFILE_CONTROL_RISK
  | PEAK_REPORT_METRIC_CONTROL_RISK.

(** The metrics in the order of the enumeration, i.e. of the arrays. *)
Definition metrics : list PeakReportMetric :=
  [PEAK_REPORT_METRIC_COMBINED; PEAK_REPORT_METRIC_PROFILE; PEAK_REPORT_METRIC_CONTROL;
   PEAK_REPORT_METRIC_MANAGEMENT; PEAK_REPORT_METRIC_PROFILE_CONTROL_RISK;
   PEAK_REPORT_METRIC_CONTROL_RISK].

Record PeakReportRankTuple := mkTuple {
  accounting_valid : bool;
  local_ranks : Z;
  stop_window_count : Z;
  failed_stop_window_count : Z;
  elapsed_seconds : double;
  profile_seconds : double;
  control_seconds : double;
  management_seconds : double;
  control_risk_seconds : double;
  profile_control_risk_seconds : double;
  profile_ratio : double;
  control_ratio : double;
  profile_control_risk_ratio : double;
  control_risk_ratio : double;
  management_ratio : double;
  ratio : double
}.

Definition zero_tuple : PeakReportRankTuple :=
  mkTuple false 0 0 0 d0 d0 d0 d0 d0 d0 d0 d0 d0 d0 d0 d0.

Definition tuple_metric (tuple : PeakReportRankTuple) (metric : PeakReportMetric) : double :=
  match metric with
  | PEAK_REPORT_METRIC_COMBINED => ratio tuple
  | PEAK_REPORT_METRIC_PROFILE => profile_ratio tuple
  | PEAK_REPORT_METRIC_CONTROL => control_ratio tuple
  | PEAK_REPORT_METRIC_MANAGEMENT => management_ratio tuple
  | PEAK_REPORT_METRIC_PROFILE_CONTROL_RISK => profile_control_risk_ratio tuple
  | PEAK_REPORT_METRIC_CONTROL_RISK => control_risk_ratio tuple
  end.

(** One index of the three arrays of [PeakReportMaxima]. *)
Record metric_slot := mkSlot { tuple : PeakReportRankTuple; owner_rank : Z; present : bool }.

Definition PeakReportMaxima := list metric_slot.

Definition maxima_reset : PeakReportMaxima := map (fun _ => mkSlot zero_tuple (-1) false) metrics.

(** The body of the loop of [consider] for one metric. *)
Definition consider_metric (candidate : PeakReportRankTuple) (rank : Z)
    (metric : PeakReportMetric) (slot : metric_slot) : metric_slot :=
  let candidate_value := tuple_metric candidate metric in
  let current_value := tuple_metric (tuple slot) metric in
  let replace :=
    negb (present slot) || dgt candidate_value current_value ||
    (deq candidate_value current_value && (rank <? owner_rank slot)) in
  if replace then mkSlot candidate rank true else slot.

(** [None] for a NULL pointer; the result is the returned flag and the object. *)
Definition maxima_consider (maxima : option PeakReportMaxima)
    (candidate : option PeakReportRankTuple) (rank : Z) : bool * option PeakReportMaxima :=
  match maxima, candidate with
  | Some m, Some c =>
      if rank <? 0 then (false, Some m)
      else (true, Some (zip_with (consider_metric c rank) metrics m))
  | m, _ => (false, m)
  end.

Definition maxima_initialize (maxima : option PeakReportMaxima)
    (candidate : option PeakReportRankTuple) (rank : Z) : bool * option PeakReportMaxima :=
  match maxima with
  | None => (false, None)
  | Some _ => maxima_consider (Some maxima_reset) candidate rank
  end.

Definition maxima_complete (maxima : option PeakReportMaxima) : bool :=
  match maxima with None => false | Some m => forallb present m end.

Definition maxima_load (maxima : option PeakReportMaxima)
    (tuples : option (list PeakReportRankTuple)) (owner_ranks : option (list Z))
    : bool * option PeakReportMaxima :=
  match maxima, tuples, owner_ranks with
  | Some m, Some ts, Some os =>
      if existsb (fun o => o <? 0) os then (false, Some m)
      else (true, Some (zip_with (fun t o => mkSlot t o true) ts os))
  | m, _, _ => (false, m)
  end.

(** The two output arrays, when the call succeeds. *)
Definition maxima_assign (maxima : option PeakReportMaxima)
    : option (list PeakReportRankTuple * list Z) :=
  if maxima_complete maxima
  then m ← maxima; Some (map tuple m, map owner_rank m)
  else None.

Definition calls_per_active_thread (calls active_threads : Z) : Z :=
  if (calls =? 0) || (active_threads =? 0) then 0
  else calls / active_threads +u64 (if calls mod active_threads =? 0 then 0 else 1).

(** The loop body of [sanitize_times]: the new exclusive time. *)
Definition sanitize_time (total exclusive : double) : double :=
  let exclusive := if dlt exclusive d0 then d0 else exclusive in
  if dge total d0 && dgt exclusive total then total else exclusive.

Definition sanitize_times (hook_count : nat) (total_time exclusive_time : list double)
    : list double :=
  zip_with sanitize_time (take hook_count total_time) (take hook_count exclusive_time)
  ++ drop hook_count exclusive_time.

Definition rank_tuple_is_valid (t : option PeakReportRankTuple) : bool :=
  match t with
  | None => false
  | Some t =>
      (0 <? local_ranks t) && negb (failed_stop_window_count t =? UINT64_MAX) &&
      positive_finite (elapsed_seconds t) &&
      nonnegative_finite (profile_seconds t) && nonnegative_finite (control_seconds t) &&
      nonnegative_finite (management_seconds t) && nonnegative_finite (control_risk_seconds t) &&
      nonnegative_finite (profile_control_risk_seconds t) &&
      nonnegative_finite (profile_ratio t) && nonnegative_finite (control_ratio t) &&
      nonnegative_finite (profile_control_risk_ratio t) &&
      nonnegative_finite (control_risk_ratio t) && nonnegative_finite (management_ratio t) &&
      nonnegative_finite (ratio t)
  end.

(** ** Lemmas *)

Abbreviation entry := (PeakReportRankTuple * Z)%type.

(** [a] beats or ties [b] on a metric: greater value, then lower rank. *)
Definition wins (metric : PeakReportMetric) (a b : entry) : Prop :=
  dlt (tuple_metric b.1 metric) (tuple_metric a.1 metric) = true \/
  (deq (tuple_metric b.1 metric) (tuple_metric a.1 metric) = true /\ a.2 <= b.2).

(** The winner of a metric among a list of entries. *)
Definition winner (metric : PeakReportMetric) (l : list entry) (e : entry) : Prop :=
  e ∈ l /\ Forall (wins metric e) l.

Definition numeric (e : entry) : Prop := forall m, number (tuple_metric e.1 m).

Lemma wins_line m a b :
  numeric a -> numeric b ->
  wins m a b <-> (line_lt (line (tuple_metric b.1 m)) (line (tuple_metric a.1 m)) \/
    (line_eq (line (tuple_metric b.1 m)) (line (tuple_metric a.1 m)) /\ a.2 <= b.2)).
Proof. intros Ha Hb. unfold wins. by rewrite dlt_line, deq_line by auto. Qed.

Lemma wins_refl m a : numeric a -> wins m a a.
Proof. intros Ha. rewrite wins_line by done. unfold line_lt, line_eq. lia. Qed.

Lemma wins_trans m a b c :
  numeric a -> numeric b -> numeric c -> wins m a b -> wins m b c -> wins m a c.
Proof.
  intros Ha Hb Hc. rewrite !wins_line by done. unfold line_lt, line_eq. lia.
Qed.

Lemma wins_total m a b : numeric a -> numeric b -> wins m a b \/ wins m b a.
Proof. intros Ha Hb. rewrite !wins_line by done. unfold line_lt, line_eq. lia. Qed.

Lemma wins_antisym m a b :
  numeric a -> numeric b -> wins m a b -> wins m b a -> a.2 = b.2.
Proof. intros Ha Hb. rewrite !wins_line by done. unfold line_lt, line_eq. lia. Qed.

(** A present slot with owner [e] after considering [c]. *)
Lemma consider_metric_step metric e c :
  numeric e -> numeric c ->
  let slot := consider_metric c.1 c.2 metric (mkSlot e.1 e.2 true) in
  (slot = mkSlot c.1 c.2 true /\ wins metric c e) \/ (slot = mkSlot e.1 e.2 true /\ wins metric e c).
Proof.
  intros He Hc. unfold consider_metric. simpl.
  destruct (_ || _) eqn:E.
  - left. split; [done|]. unfold wins. apply orb_true_iff in E as [E|E]; [by left|].
    breflect. right. split; [|lia]. rewrite deq_line in * by auto. unfold line_eq in *. lia.
  - right. split; [done|]. rewrite wins_line by done. apply orb_false_iff in E as [E1 E2].
    unfold dgt in E1. apply not_true_iff_false in E1. rewrite dlt_line in E1 by auto.
    apply andb_false_iff in E2 as [E2|E2].
    + apply not_true_iff_false in E2. rewrite deq_line in E2 by auto.
      unfold line_lt, line_eq in *. lia.
    + breflect. unfold line_lt, line_eq in *. lia.
Qed.

Lemma winner_step metric l e c :
  Forall numeric (e :: c :: l) -> winner metric l e ->
  exists e', consider_metric c.1 c.2 metric (mkSlot e.1 e.2 true) = mkSlot e'.1 e'.2 true /\
    winner metric (l ++ [c]) e' /\ numeric e'.
Proof.
  intros Hn [Hin Hall]. inversion Hn as [|?? He Hn']; subst. inversion Hn' as [|?? Hc Hl]; subst.
  destruct (consider_metric_step metric e c He Hc) as [[-> Hw]|[-> Hw]].
  - exists c. split_and!; [done| |done]. split; [set_solver|]. apply Forall_app. split.
    + rewrite Forall_forall in *. intros x Hx.
      apply (wins_trans _ _ e); auto.
    + constructor; [by apply wins_refl|constructor].
  - exists e. split_and!; [done| |done]. split; [set_solver|]. apply Forall_app.
    split; [done|]. by constructor.
Qed.

(** The maxima of a report: initialised with the first rank's tuple, the others
    considered in the order they arrive. *)
Definition consider_all (m : option PeakReportMaxima) (l : list entry) : option PeakReportMaxima :=
  foldl (fun m c => (maxima_consider m (Some c.1) c.2).2) m l.

Definition slots (es : list entry) : PeakReportMaxima := map (fun e => mkSlot e.1 e.2 true) es.

(** [winners ms l es]: [es] are the winners of the metrics [ms] among [l]. *)
Definition winners (ms : list PeakReportMetric) (l : list entry) (es : list entry) : Prop :=
  Forall2 (fun m e => winner m l e /\ numeric e) ms es.

Lemma winners_step ms l es c :
  Forall numeric l -> numeric c -> winners ms l es ->
  exists es', zip_with (consider_metric c.1 c.2) ms (slots es) = slots es' /\
    winners ms (l ++ [c]) es'.
Proof.
  intros Hl Hc. induction 1 as [|m e ms es [Hw He] _ IH]; simpl.
  - exists []. by split; [|constructor].
  - destruct IH as (es' & Hes & Hws).
    destruct (winner_step m l e c) as (e' & He' & Hw' & Hn'); [by repeat constructor|done|].
    exists (e' :: es'). simpl. rewrite He', Hes. split; [done|]. by constructor.
Qed.

Definition ranked (e : entry) : Prop := numeric e /\ 0 <= e.2.

Lemma ranked_numeric l : Forall ranked l -> Forall numeric l.
Proof. intros H. eapply Forall_impl; [exact H|]. by intros e []. Qed.

Lemma winners_consider_all l pre es :
  Forall ranked pre -> Forall ranked l -> winners metrics pre es ->
  exists es', consider_all (Some (slots es)) l = Some (slots es') /\ winners metrics (pre ++ l) es'.
Proof.
  revert pre es. induction l as [|c l IH]; intros pre es Hp Hl Hw.
  - exists es. by rewrite app_nil_r.
  - apply Forall_cons in Hl as [[Hc Hr] Hl]. unfold consider_all. cbn [foldl maxima_consider].
    rewrite (proj2 (Z.ltb_ge _ _)) by lia. cbn [snd].
    destruct (winners_step metrics pre es c (ranked_numeric _ Hp) Hc Hw) as (es1 & -> & Hw1).
    destruct (IH (pre ++ [c]) es1) as (es2 & Hes & Hw2); [|done|done|].
    { apply Forall_app. split; [done|]. by repeat constructor. }
    exists es2. split; [done|]. by rewrite <- app_assoc in Hw2.
Qed.

Lemma initialize_winners m0 c :
  ranked c ->
  maxima_initialize (Some m0) (Some c.1) c.2 =
    (true, Some (slots [c; c; c; c; c; c])) /\
  winners metrics [c] [c; c; c; c; c; c].
Proof.
  intros [Hc Hr]. split.
  - unfold maxima_initialize, maxima_consider. rewrite (proj2 (Z.ltb_ge _ _)) by lia. reflexivity.
  - assert (forall m, winner m [c] c /\ numeric c) as H.
    { intros m. split; [|done]. split; [set_solver|]. constructor; [by apply wins_refl|constructor]. }
    unfold winners, metrics. repeat (apply Forall2_cons; split; [apply H|]). constructor.
Qed.

Lemma winners_unique ms l l' es es' :
  Forall numeric l -> l ≡ₚ l' -> NoDup (map snd l) ->
  winners ms l es -> winners ms l' es' -> es = es'.
Proof.
  intros Hn Hp Hnd H. revert es'. induction H as [|m e ms es [[Hin Hall] He] _ IH]; intros es' H'.
  - by inversion H'.
  - inversion H' as [|? e' ? es1 [[Hin' Hall'] He'] Hrest]; subst. f_equal; [|by apply IH].
    rewrite <- Hp in Hin'. rewrite <- Hp in Hall'.
    assert (e.2 = e'.2) as E.
    { rewrite Forall_forall in Hall, Hall'. eapply (wins_antisym m); eauto. }
    apply list_elem_of_lookup in Hin as [i Hi]. apply list_elem_of_lookup in Hin' as [j Hj].
    assert (i = j) as ->; [|congruence].
    apply (NoDup_lookup (snd <$> l) i j e.2 Hnd); rewrite list_lookup_fmap, ?Hi, ?Hj; [done|].
    simpl. by rewrite E.
Qed.

Definition report_maxima (m0 : PeakReportMaxima) (l : list entry) : option PeakReportMaxima :=
  match l with
  | [] => None
  | c :: l => consider_all (maxima_initialize (Some m0) (Some c.1) c.2).2 l
  end.

Lemma report_maxima_winners m0 c l :
  Forall ranked (c :: l) ->
  exists es, report_maxima m0 (c :: l) = Some (slots es) /\ winners metrics (c :: l) es.
Proof.
  intros Hl. apply Forall_cons in Hl as [Hc Hl]. unfold report_maxima.
  destruct (initialize_winners m0 c Hc) as [-> Hw]. cbn [snd].
  apply (winners_consider_all l [c]); [by constructor|done|done].
Qed.

Lemma slots_complete es : maxima_complete (Some (slots es)) = true.
Proof. unfold maxima_complete, slots. apply forallb_forall. intros x [e [<- _]]%in_map_iff. done. Qed.

Lemma nonnegative_finite_number x : nonnegative_finite x = true -> number x.
Proof. by destruct x. Qed.

Lemma valid_tuple_numeric t r : rank_tuple_is_valid (Some t) = true -> numeric (t, r).
Proof.
  intros H m. unfold rank_tuple_is_valid in H. breflect.
  destruct m; by apply nonnegative_finite_number.
Qed.

Lemma sanitize_time_range t e :
  number t -> number e -> dle d0 t = true ->
  dle d0 (sanitize_time t e) = true /\ dle (sanitize_time t e) t = true.
Proof.
  intros Ht He H0. assert (number d0) by done. unfold sanitize_time, dge, dgt. rewrite H0.
  destruct (dlt e d0) eqn:E1; simpl; [|destruct (dlt t e) eqn:E2];
    try destruct (dlt t d0) eqn:E3; eauto using dle_refl, not_dlt_dle.
Qed.

Lemma sanitize_time_id t e : dle d0 e = true -> dle e t = true -> sanitize_time t e = e.
Proof.
  intros H0 Ht. unfold sanitize_time, dge, dgt.
  destruct (dlt e d0) eqn:E1; [exfalso; to_line; lia|].
  destruct (dlt t e) eqn:E2; [exfalso; to_line; lia|]. by rewrite andb_false_r.
Qed.

Lemma dlt_irrefl x : dlt x x = false.
Proof. apply not_true_iff_false. intros H. to_line. lia. Qed.

Lemma sanitize_time_idem t e : sanitize_time t (sanitize_time t e) = sanitize_time t e.
Proof.
  unfold sanitize_time, dge, dgt.
  set (e1 := if dlt e d0 then d0 else e).
  assert (dlt e1 d0 = false) as H1 by (unfold e1; by destruct (dlt e d0) eqn:?).
  destruct (dle d0 t) eqn:E2, (dlt t e1) eqn:E3; simpl; rewrite ?H1, ?E3; try done.
  destruct (dlt t d0) eqn:E; [exfalso; to_line; lia|]. by rewrite dlt_irrefl.
Qed.

Lemma sanitize_times_length n total exclusive :
  length total = length exclusive ->
  length (sanitize_times n total exclusive) = length exclusive.
Proof.
  intros H. unfold sanitize_times.
  rewrite length_app, length_zip_with, !length_take, length_drop. lia.
Qed.

Lemma sanitize_times_lookup n total exclusive i t e :
  length total = length exclusive -> total !! i = Some t -> exclusive !! i = Some e ->
  sanitize_times n total exclusive !! i = Some (if decide (i < n)%nat then sanitize_time t e else e).
Proof.
  intros Hl Ht He. unfold sanitize_times.
  assert (i < length exclusive)%nat by (by eapply lookup_lt_Some).
  destruct (decide (i < n)%nat).
  - rewrite lookup_app_l by (rewrite length_zip_with, !length_take; lia).
    rewrite lookup_zip_with, !lookup_take_lt by done. by rewrite Ht, He.
  - rewrite lookup_app_r by (rewrite length_zip_with, !length_take; lia).
    rewrite length_zip_with, !length_take, lookup_drop, <- He. f_equal. lia.
Qed.

(** ** The properties *)

(** the maxima of a set of ranks with valid tuples are complete and, for
    every metric, hold the whole tuple of the rank whose value is greatest, the
    lowest rank among equals; when ranks are distinct, the order in which the
    tuples arrive does not matter. *)
Theorem maxima_are_winners m0 m0' l l' :
  l <> [] -> Forall (fun e => rank_tuple_is_valid (Some e.1) = true /\ 0 <= e.2) l ->
  (exists es, report_maxima m0 l = Some (slots es) /\
     maxima_complete (report_maxima m0 l) = true /\ Forall2 (fun m e => winner m l e) metrics es) /\
  (NoDup (map snd l) -> l ≡ₚ l' -> report_maxima m0' l' = report_maxima m0 l).
Proof.
  intros Hne Hv.
  assert (Forall ranked l) as Hr.
  { eapply Forall_impl; [exact Hv|]. intros [t r] [Ht Hr]. split; [by apply valid_tuple_numeric|done]. }
  destruct l as [|c l]; [done|].
  destruct (report_maxima_winners m0 c l Hr) as (es & Hes & Hw). split.
  - exists es. rewrite Hes. split_and!; [done|apply slots_complete|].
    eapply Forall2_impl; [exact Hw|]. by intros m e [].
  - intros Hnd Hp. destruct l' as [|c' l']; [by apply Permutation_sym, Permutation_nil_cons in Hp|].
    rewrite Hp in Hr. destruct (report_maxima_winners m0' c' l' Hr) as (es' & Hes' & Hw').
    rewrite <- Hp in Hr. rewrite Hes, Hes'. do 2 f_equal. symmetry.
    eapply (winners_unique metrics (c :: l) (c' :: l')); eauto using ranked_numeric.
Qed.

Definition demo_tuple (p q : Z) : PeakReportRankTuple :=
  mkTuple true 1 2 0 (of_Z 1) d0 d0 d0 d0 d0 (of_Z p) d0 d0 d0 d0 (of_Z q).

Definition demo_ranks : list entry := [(demo_tuple 3 1, 2); (demo_tuple 1 4, 0); (demo_tuple 3 4, 1)].

Lemma maxima_are_winners_witness :
  report_maxima [] (reverse demo_ranks) = report_maxima maxima_reset demo_ranks /\
  fmap (map owner_rank) (report_maxima maxima_reset demo_ranks) = Some [0; 1; 0; 0; 0; 0].
Proof.
  split; [|vm_compute; reflexivity].
  apply (maxima_are_winners maxima_reset [] demo_ranks (reverse demo_ranks)).
  - discriminate.
  - repeat constructor; vm_compute; congruence.
  - apply (bool_decide_unpack _). vm_compute. exact I.
  - symmetry. apply reverse_Permutation.
Defined.

(** a complete maxima object written to the transport arrays and loaded on
    the other side is the same object; loading arrays with a negative owner
    changes nothing and says so. *)
Theorem maxima_transport_roundtrip (m m' : PeakReportMaxima) :
  (forall ts os, maxima_assign (Some m) = Some (ts, os) -> Forall (fun o => 0 <= o) os ->
     maxima_load (Some m') (Some ts) (Some os) = (true, Some m)) /\
  (forall ts os, Exists (fun o => o < 0) os ->
     maxima_load (Some m') (Some ts) (Some os) = (false, Some m')).
Proof.
  split; intros ts os.
  - unfold maxima_assign, maxima_complete, maxima_load. destruct (forallb present m) eqn:Ec; [|done].
    intros [= <- <-] Ho. replace (existsb _ _) with false.
    + do 2 f_equal. clear Ho. induction m as [|[t o b] m IH]; [done|]. simpl in *.
      destruct b; [|done]. by rewrite IH.
    + symmetry. apply not_true_iff_false. intros (o & Hin & Hlt)%existsb_exists.
      apply Z.ltb_lt in Hlt. rewrite Forall_forall in Ho.
      specialize (Ho o (proj2 (list_elem_of_In _ _) Hin)). lia.
  - intros (o & Hin & Hlt)%Exists_exists. unfold maxima_load.
    replace (existsb _ _) with true; [done|]. symmetry. apply existsb_exists.
    exists o. split; [by apply list_elem_of_In|]. by apply Z.ltb_lt.
Qed.

Lemma maxima_transport_roundtrip_witness :
  maxima_load (Some []) (Some [demo_tuple 1 2]) (Some [7]) = (true, Some [mkSlot (demo_tuple 1 2) 7 true]).
Proof.
  apply (maxima_transport_roundtrip [mkSlot (demo_tuple 1 2) 7 true] []);
    [reflexivity|repeat constructor; lia].
Defined.

(** calls per active thread is the ceiling of the quotient, computed
    without overflow. *)
Theorem calls_per_thread_ceiling calls active_threads :
  is_u64 calls -> 0 < active_threads ->
  let r := calls_per_active_thread calls active_threads in
  0 <= r <= calls /\ (r - 1) * active_threads < calls <= r * active_threads.
Proof.
  unfold is_u64, UINT64_MAX, calls_per_active_thread. intros Hc Ha.
  rewrite (proj2 (Z.eqb_neq active_threads 0)), orb_false_r by lia.
  destruct (calls =? 0) eqn:E; breflect; simpl; [lia|].
  pose proof (Z.div_mod calls active_threads ltac:(lia)).
  pose proof (Z.mod_pos_bound calls active_threads Ha).
  assert (0 <= calls / active_threads) by (apply Z.div_pos; lia).
  destruct (calls mod active_threads =? 0) eqn:Em; breflect;
    rewrite wrap_small by nia; nia.
Qed.

Lemma calls_per_thread_ceiling_witness :
  0 <= calls_per_active_thread UINT64_MAX 2 <= UINT64_MAX.
Proof. apply (calls_per_thread_ceiling UINT64_MAX 2); [split; vm_compute; congruence|lia]. Defined.

(** sanitising leaves every hook's exclusive time within its total:
    whatever numbers came in, below the count an exclusive time is at least
    zero after the call and at most a nonnegative total, and unchanged when it
    already was in range; hooks past the count are untouched, and sanitising
    again changes nothing. *)
Theorem sanitize_times_clamps n total exclusive i t e :
  length total = length exclusive ->
  total !! i = Some t -> exclusive !! i = Some e -> number t -> number e ->
  (exists e', sanitize_times n total exclusive !! i = Some e' /\
    ((i < n)%nat -> dle d0 t = true -> dle d0 e' = true /\ dle e' t = true) /\
    (((n <= i)%nat \/ dle d0 e = true /\ dle e t = true) -> e' = e)) /\
  sanitize_times n total (sanitize_times n total exclusive) = sanitize_times n total exclusive.
Proof.
  intros Hl Ht He Hnt Hne. split.
  - rewrite (sanitize_times_lookup n total exclusive i t e) by done. eexists. split; [done|].
    split; destruct (decide _); try lia.
    + intros _ H0. by apply sanitize_time_range.
    + intros [?|[H0 H1]]; [lia|by apply sanitize_time_id].
    + done.
  - apply list_eq. intros j. destruct (exclusive !! j) as [ej|] eqn:Ej.
    + assert (is_Some (total !! j)) as [tj Etj].
      { apply lookup_lt_is_Some. rewrite Hl. by eapply lookup_lt_Some. }
      pose proof (sanitize_times_lookup n total exclusive j tj ej Hl Etj Ej) as E.
      rewrite (sanitize_times_lookup n total _ j tj _ ltac:(by rewrite sanitize_times_length) Etj E).
      rewrite E. f_equal. destruct (decide _); [by rewrite sanitize_time_idem|done].
    + apply lookup_ge_None in Ej.
      rewrite !lookup_ge_None_2; [done|..]; by rewrite !sanitize_times_length by (rewrite ?sanitize_times_length; done).
Qed.

Lemma sanitize_times_clamps_witness :
  sanitize_times 1 [of_Z 2; of_Z 1] (sanitize_times 1 [of_Z 2; of_Z 1] [of_Z 3; of_Z 3]) =
    sanitize_times 1 [of_Z 2; of_Z 1] [of_Z 3; of_Z 3] /\
  sanitize_times 1 [of_Z 2; of_Z 1] [of_Z 3; of_Z 3] = [of_Z 2; of_Z 3].
Proof.
  split; [|vm_compute; reflexivity].
  apply (sanitize_times_clamps 1 [of_Z 2; of_Z 1] [of_Z 3; of_Z 3] 0 (of_Z 2) (of_Z 3));
    vm_compute; congruence.
Defined.
