(* ===== verification/DetachHelper.v ===== *)
(** * The detach helper process

    Models [src/detach_helper.c]: the separate process that holds the threads of
    the profiled one with ptrace while its code is changed.  The state is the
    helper's table of held threads together with what the kernel knows: the
    code, data and program counters of the traced process and the set of its
    threads the helper traces.  An instruction a thread is stepped over may
    change the data in any way, not the code.  The kernel decides every system call: its
    answers are functions of the number of calls made so far ([kernel_env]).
    The events a waiting loop sees are a list, after which its deadline passes;
    the directory listing of [/proc/<pid>/task] is its entries and the final
    [errno]; a request arrives as a whole or not at all. *)

From Stdlib Require Import String.
From S2P Require Import Prelude TargetSelector EnvParser.

(** ** Wire data ([detach_helper_protocol.h]) *)

Definition PEAK_DETACH_HELPER_MAX_THREADS : nat := 4096.
Definition PEAK_DETACH_HELPER_MAX_BATCH_WRITES : nat := 64.
Definition PEAK_DETACH_HELPER_MAX_INSTRUCTIONS : nat :=
  PEAK_DETACH_HELPER_MAX_THREADS + PEAK_DETACH_HELPER_MAX_BATCH_WRITES.
Definition PEAK_DETACH_HELPER_MAX_PATCH_BYTES : Z := 32.

Inductive PeakDetachHelperStatus :=
  | PEAK_DETACH_HELPER_STATUS_OK
  | PEAK_DETACH_HELPER_STATUS_PROTOCOL_ERROR
  | PEAK_DETACH_HELPER_STATUS_UNSUPPORTED
  | PEAK_DETACH_HELPER_STATUS_PERMISSION_DENIED
  | PEAK_DETACH_HELPER_STATUS_THREAD_LIMIT
  | PEAK_DETACH_HELPER_STATUS_PTRACE_ERROR
  | PEAK_DETACH_HELPER_STATUS_REGISTER_ERROR
  | PEAK_DETACH_HELPER_STATUS_TIMEOUT
  | PEAK_DETACH_HELPER_STATUS_RELEASE_FAILED.

#[export] Instance helper_status_eq_dec : EqDecision PeakDetachHelperStatus.
Proof. solve_decision. Defined.

(** Commands and actions are 32-bit words of the wire. *)
Definition PEAK_DETACH_HELPER_CMD_STOP : Z := 1.
Definition PEAK_DETACH_HELPER_CMD_EVACUATE : Z := 2.
Definition PEAK_DETACH_HELPER_CMD_RESUME : Z := 3.
Definition PEAK_DETACH_HELPER_CMD_SHUTDOWN : Z := 4.

Definition SET_PC : Z := 1.
Definition WRITE_MEMORY : Z := 2.
Definition SINGLE_STEP_OUT_OF_RANGE : Z := 3.

Record PeakDetachHelperInstruction := mkInstruction {
  ins_tid : Z;
  ins_action : Z;
  ins_pc : Z;
  ins_address : Z;
  ins_size : Z;
  ins_bytes : list Z
}.

(** [status] 0 is [PEAK_DETACH_HELPER_THREAD_OK]. *)
Record PeakDetachHelperThreadSnapshot := mkThreadSnapshot {
  snap_tid : Z;
  snap_status : Z;
  snap_pc : Z
}.

Record PeakDetachHelperResponse := mkResponse {
  response_status : PeakDetachHelperStatus;
  response_thread_count : nat;
  response_errno : Z
}.

Definition PEAK_DETACH_HELPER_MAGIC : Z := 0x50444a48.
Definition PEAK_DETACH_HELPER_VERSION : Z := 1.

Record PeakDetachHelperRequest := mkRequest {
  request_magic : Z;
  request_version : Z;
  request_command : Z;
  request_pid : Z;
  request_controller_tid : Z;
  request_instruction_count : nat
}.

(** Linux error numbers. *)
Definition EPERM : Z := 1.
Definition ENOENT : Z := 2.
Definition ESRCH : Z := 3.
Definition EINTR : Z := 4.
Definition EIO : Z := 5.
Definition E2BIG : Z := 7.
Definition EAGAIN : Z := 11.
Definition EACCES : Z := 13.
Definition EINVAL : Z := 22.
Definition EPROTO : Z := 71.
Definition ETIMEDOUT : Z := 110.
Definition SIGTRAP : Z := 5.
Definition SIGCHLD : Z := 17.
Definition PTRACE_EVENT_STOP : Z := 128.

(** ** The kernel *)

(** What one iteration of a waiting loop sees: [waitpid] failed; nothing
    yet, with the milliseconds left and the result and error of [sigtimedwait];
    a stop with its ptrace event and signal; the end of the thread; any other
    status. *)
Inductive wait_event :=
  | WaitError (e : Z)
  | WaitNothing (remaining_ms signal_number e : Z)
  | WaitStopped (event signal : Z)
  | WaitGone
  | WaitOther.

(** Answers to the [n]-th system call.  An error number 0 is success. *)
Record kernel_env := mkKernelEnv {
  k_seize : nat -> Z -> Z;
  k_interrupt : nat -> Z -> Z;
  k_wait : nat -> Z -> list wait_event;
  (** where the thread is when it stops *)
  k_stop_pc : nat -> Z -> Z;
  k_detach : nat -> Z -> Z;
  k_task_gone : nat -> Z -> bool;
  k_regs_get : nat -> Z -> Z;
  k_regs_set : nat -> Z -> Z;
  k_single_step : nat -> Z -> Z;
  (** what the stepped instruction does to the data of the program *)
  k_step_data : nat -> Z -> (Z -> Z) -> Z -> Z;
  k_opendir : nat -> Z;
  k_readdir : nat -> list cstring * Z;
  (** bytes [pwrite] wrote and [pread] read, or the error of the open or the call *)
  k_pwrite : nat -> Z + nat;
  k_pread : nat -> Z + nat;
  k_peek : nat -> Z;
  k_poke : nat -> Z;
  (** the clock, after that many calls and sleeps of a millisecond *)
  k_milliseconds : nat -> nat -> Z;
  k_send : nat -> bool;
  k_send_errno : nat -> Z;
  (** what an unfilled buffer holds *)
  k_garbage : list Z
}.

Record PeakHeldThread := mkHeldThread {
  held_tid : Z;
  attached : bool;
  detach_signal : Z
}.

(** [memory] is the code of the program: the bytes of its executable mappings,
    which its own instructions do not write and where the patches of the hooks
    are.  [data] is everything else, which a thread changes when it runs or is
    stepped. *)
Record helper := mkHelper {
  held_threads : list PeakHeldThread;
  traced : gset Z;
  memory : Z -> Z;
  counters : Z -> Z;
  calls : nat;
  sleeps : nat;
  responses : list PeakDetachHelperResponse;
  (** the snapshots that followed the successful answers to stops *)
  payloads : list (list PeakDetachHelperThreadSnapshot);
  data : Z -> Z
}.

(** A state-passing program of the helper. *)
Definition HM (A : Type) : Type := helper -> A * helper.
Definition hret {A} (a : A) : HM A := fun s => (a, s).
Definition hbind {A B} (m : HM A) (f : A -> HM B) : HM B := fun s => let '(a, s) := m s in f a s.
Notation "'do*' x := m 'in' k" := (hbind m (fun x => k))
  (at level 10, x pattern, m at level 100, k at level 200) : peak_scope.

Definition get_held : HM (list PeakHeldThread) := fun s => (held_threads s, s).
Definition set_held (ts : list PeakHeldThread) : HM unit :=
  fun s => (tt, mkHelper ts (traced s) (memory s) (counters s) (calls s) (sleeps s) (responses s) (payloads s) (data s)).
Definition set_traced (f : gset Z -> gset Z) : HM unit :=
  fun s => (tt, mkHelper (held_threads s) (f (traced s)) (memory s) (counters s) (calls s) (sleeps s) (responses s) (payloads s) (data s)).
Definition set_memory (f : (Z -> Z) -> Z -> Z) : HM unit :=
  fun s => (tt, mkHelper (held_threads s) (traced s) (f (memory s)) (counters s) (calls s) (sleeps s) (responses s) (payloads s) (data s)).
Definition set_counter (tid pc : Z) : HM unit :=
  fun s => (tt, mkHelper (held_threads s) (traced s) (memory s)
                  (fun t => if t =? tid then pc else counters s t) (calls s) (sleeps s) (responses s) (payloads s) (data s)).
Definition add_response (r : PeakDetachHelperResponse) : HM unit :=
  fun s => (tt, mkHelper (held_threads s) (traced s) (memory s) (counters s) (calls s) (sleeps s)
                  (responses s ++ [r]) (payloads s) (data s)).

Definition add_payload (p : list PeakDetachHelperThreadSnapshot) : HM unit :=
  fun s => (tt, mkHelper (held_threads s) (traced s) (memory s) (counters s) (calls s) (sleeps s)
                  (responses s) (payloads s ++ [p]) (data s)).

(** One system call. *)
Definition syscall {A} (f : nat -> A) : HM A :=
  fun s => (f (calls s), mkHelper (held_threads s) (traced s) (memory s) (counters s) (S (calls s))
                           (sleeps s) (responses s) (payloads s) (data s)).

Definition usleep : HM unit :=
  fun s => (tt, mkHelper (held_threads s) (traced s) (memory s) (counters s) (calls s) (S (sleeps s))
                  (responses s) (payloads s) (data s)).

(** A thread runs one instruction, or part of one. *)
Definition set_data (f : nat -> (Z -> Z) -> Z -> Z) : HM unit :=
  fun s => (tt, mkHelper (held_threads s) (traced s) (memory s) (counters s) (calls s) (sleeps s)
                  (responses s) (payloads s) (f (calls s) (data s))).

(** Memory as bytes. *)
Definition write_bytes (m : Z -> Z) (address : Z) (bs : list Z) : Z -> Z :=
  fun a => if (address <=? a) && (a <? address + Z.of_nat (length bs))
           then nth (Z.to_nat (a - address)) bs 0 else m a.

Fixpoint read_bytes (m : Z -> Z) (address : Z) (n : nat) : list Z :=
  match n with O => [] | S n => m address :: read_bytes m (address + 1) n end.

Section Helper.
Context (env : kernel_env).

(** ** ptrace *)

Definition ptrace_seize (tid : Z) : HM Z :=
  do* e := syscall (fun n => k_seize env n tid) in
  if e =? 0 then do* _ := set_traced (fun ts => {[tid]} ∪ ts) in hret 0 else hret e.

(** A successful detach lets the thread run; a task that vanished is no longer
    traced. *)
Definition ptrace_detach (tid : Z) : HM Z :=
  do* e := syscall (fun n => k_detach env n tid) in
  if e =? 0 then do* _ := set_traced (fun ts => ts ∖ {[tid]}) in hret 0 else hret e.

Definition task_vanished (tid : Z) : HM bool :=
  do* gone := syscall (fun n => k_task_gone env n tid) in
  if gone : bool then do* _ := set_traced (fun ts => ts ∖ {[tid]}) in hret true else hret false.

Definition peak_regs_get (tid : Z) : HM (Z * Z) :=
  do* e := syscall (fun n => k_regs_get env n tid) in fun s => ((e, counters s tid), s).

(** Register writes keep everything but the program counter. *)
Definition peak_regs_set (tid pc : Z) : HM Z :=
  do* e := syscall (fun n => k_regs_set env n tid) in
  if e =? 0 then do* _ := set_counter tid pc in hret 0 else hret e.

Definition monotonic_milliseconds : HM Z :=
  fun s => syscall (fun n => k_milliseconds env n (sleeps s)) s.

(** The error number and the signal to deliver at the detach. *)
Fixpoint wait_for_ptrace_stop (events : list wait_event) : Z * Z :=
  match events with
  | [] => (ETIMEDOUT, 0)
  | WaitError e :: events => if e =? EINTR then wait_for_ptrace_stop events else (e, 0)
  | WaitNothing remaining_ms signal_number e :: events =>
      if remaining_ms <=? 0 then (ETIMEDOUT, 0)
      else if (signal_number =? SIGCHLD) || ((signal_number <? 0) && (e =? EINTR))
      then wait_for_ptrace_stop events
      else if signal_number <? 0 then ((if e =? EAGAIN then ETIMEDOUT else e), 0)
      else wait_for_ptrace_stop events
  | WaitStopped event signal :: _ => (0, if event =? PTRACE_EVENT_STOP then 0 else signal)
  | WaitGone :: _ => (ESRCH, 0)
  | WaitOther :: events => wait_for_ptrace_stop events
  end.

(** The error number and the stop signal. *)
Fixpoint wait_for_single_step_stop (events : list wait_event) : Z * Z :=
  match events with
  | [] => (ETIMEDOUT, 0)
  | WaitError e :: events => if e =? EINTR then wait_for_single_step_stop events else (e, 0)
  | WaitNothing remaining_ms _ _ :: events =>
      if remaining_ms <=? 0 then (ETIMEDOUT, 0) else wait_for_single_step_stop events
  | WaitStopped _ signal :: _ => (0, signal)
  | WaitGone :: _ => (ESRCH, 0)
  | WaitOther :: events => wait_for_single_step_stop events
  end.

(** A thread that stops has some program counter. *)
Definition wait_stop (wait : list wait_event -> Z * Z) (tid : Z) : HM (Z * Z) :=
  do* events := syscall (fun n => k_wait env n tid) in
  do* pc := syscall (fun n => k_stop_pc env n tid) in
  let '(e, signal) := wait events in
  do* _ := (if e =? 0 then set_counter tid pc else hret tt) in hret (e, signal).

(** ** Releasing *)

Fixpoint detach_loop (ts : list PeakHeldThread) (status : PeakDetachHelperStatus) (err : Z)
    : HM (PeakDetachHelperStatus * Z * list PeakHeldThread) :=
  match ts with
  | [] => hret (status, err, [])
  | t :: ts =>
      if attached t then
        do* e := ptrace_detach (held_tid t) in
        if e =? 0 then detach_loop ts status err
        else
          do* gone := (if e =? ESRCH then task_vanished (held_tid t) else hret false) in
          if gone : bool then detach_loop ts status err
          else
            do* r := detach_loop ts PEAK_DETACH_HELPER_STATUS_PTRACE_ERROR
                       (if err =? 0 then e else err) in
            let '(status, err, retained) := r in hret (status, err, t :: retained)
      else detach_loop ts status err
  end.

Definition detach_held_threads : HM (PeakDetachHelperStatus * Z) :=
  do* ts := get_held in
  do* r := detach_loop ts PEAK_DETACH_HELPER_STATUS_OK 0 in
  let '(status, err, retained) := r in
  do* _ := set_held retained in hret (status, err).

(** Status and [*errno_out] after the cleanup. *)
Definition cleanup_held_threads_or_release_failed (intended_status : PeakDetachHelperStatus) (err : Z)
    : HM (PeakDetachHelperStatus * Z) :=
  do* ts := get_held in
  match ts with
  | [] => hret (intended_status, err)
  | _ =>
      do* r := detach_held_threads in
      let '(cleanup_status, cleanup_errno) := r in
      if bool_decide (cleanup_status = PEAK_DETACH_HELPER_STATUS_OK) then hret (intended_status, err)
      else hret (PEAK_DETACH_HELPER_STATUS_RELEASE_FAILED, if err =? 0 then cleanup_errno else err)
  end.

Definition stop_snapshot_error_is_retryable (status : PeakDetachHelperStatus) (errno_value : Z) : bool :=
  (bool_decide (status = PEAK_DETACH_HELPER_STATUS_PTRACE_ERROR) ||
   bool_decide (status = PEAK_DETACH_HELPER_STATUS_REGISTER_ERROR)) &&
  ((errno_value =? ESRCH) || (errno_value =? EAGAIN) || (errno_value =? EINTR) || (errno_value =? EIO)).

(** Status, errno and the retry flag. *)
Definition cleanup_or_retry_stop_snapshot (intended_status : PeakDetachHelperStatus)
    (original_errno deadline : Z) : HM (PeakDetachHelperStatus * Z * bool) :=
  do* r := cleanup_held_threads_or_release_failed intended_status original_errno in
  let '(status, err) := r in
  if negb (bool_decide (status = intended_status)) then hret (status, err, false)
  else if negb (stop_snapshot_error_is_retryable intended_status original_errno)
  then hret (status, err, false)
  else
    do* now := monotonic_milliseconds in
    if deadline <=? now then hret (PEAK_DETACH_HELPER_STATUS_TIMEOUT, ETIMEDOUT, false)
    else do* _ := usleep in hret (PEAK_DETACH_HELPER_STATUS_OK, 0, true).

(** ** Stopping *)

(** [strtol] in base 10 on a whole name, then the conversion to [pid_t]. *)
Definition LONG_MAX : Z := 2 ^ 63 - 1.
Definition to_pid (v : Z) : Z := let u := wrap 32 v in if u <? 2 ^ 31 then u else u - 2 ^ 32.

Definition parse_tid_name (name : cstring) : option Z :=
  let '(_, rest) := span isspace name in
  let '(negative, rest) :=
    match rest with
    | c :: rest' => if c =? ch "-" then (true, rest')
                    else if c =? ch "+" then (false, rest') else (false, rest)
    | [] => (false, rest)
    end in
  let '(digits, tail) := span isdigit rest in
  let v := decimal digits in
  if bool_decide (digits = []) || negb (bool_decide (tail = [])) || negative || (LONG_MAX <? v) || (v =? 0)
  then None else Some (to_pid v).

Definition find_held_thread (tid : Z) (ts : list PeakHeldThread) : option PeakHeldThread :=
  find (fun t => held_tid t =? tid) ts.

Definition tid_is_held (tid : Z) (ts : list PeakHeldThread) : bool :=
  match find_held_thread tid ts with Some _ => true | None => false end.

(** One listing of the task directory: the error of [opendir], or the names
    and the error [readdir] ended with. *)
Definition list_tasks : HM (Z + (list cstring * Z)) :=
  do* e := syscall (k_opendir env) in
  if e =? 0 then do* r := syscall (k_readdir env) in hret (inr r) else hret (inl e).

Definition verify_no_unstopped_threads (controller_tid err : Z) : HM (PeakDetachHelperStatus * Z) :=
  do* listing := list_tasks in
  match listing with
  | inl e => hret (PEAK_DETACH_HELPER_STATUS_PTRACE_ERROR, e)
  | inr (names, end_errno) =>
      do* ts := get_held in
      if existsb (fun name =>
           match parse_tid_name name with
           | Some tid => negb (tid =? controller_tid) && negb (tid_is_held tid ts)
           | None => false
           end) names
      then hret (PEAK_DETACH_HELPER_STATUS_PTRACE_ERROR, EAGAIN)
      else if negb (end_errno =? 0) then hret (PEAK_DETACH_HELPER_STATUS_PTRACE_ERROR, end_errno)
      else hret (PEAK_DETACH_HELPER_STATUS_OK, err)
  end.

Definition denied (e : Z) : PeakDetachHelperStatus :=
  if (e =? EACCES) || (e =? EPERM) then PEAK_DETACH_HELPER_STATUS_PERMISSION_DENIED
  else PEAK_DETACH_HELPER_STATUS_PTRACE_ERROR.

(** Seizes and stops one thread: its program counter, or what to do after the
    failure. *)
Inductive seize_result :=
  | Seized (pc : Z)
  | SeizeFailed (status : PeakDetachHelperStatus) (err : Z).

Definition seize_thread (tid : Z) : HM seize_result :=
  do* e := ptrace_seize tid in
  if negb (e =? 0) then hret (SeizeFailed (denied e) e)
  else
    do* ts := get_held in
    do* _ := set_held (ts ++ [mkHeldThread tid true 0]) in
    do* e := syscall (fun n => k_interrupt env n tid) in
    if negb (e =? 0) then hret (SeizeFailed (denied e) e)
    else
      do* w := wait_stop wait_for_ptrace_stop tid in
      let '(e, signal) := w in
      do* _ := set_held (ts ++ [mkHeldThread tid true signal]) in
      if negb (e =? 0)
      then hret (SeizeFailed (if e =? ETIMEDOUT then PEAK_DETACH_HELPER_STATUS_TIMEOUT
                              else PEAK_DETACH_HELPER_STATUS_PTRACE_ERROR) e)
      else
        do* r := peak_regs_get tid in
        let '(e, pc) := r in
        if negb (e =? 0) then hret (SeizeFailed PEAK_DETACH_HELPER_STATUS_REGISTER_ERROR e)
        else hret (Seized pc).

(** How a pass over a listing, or a round of the stop loop, ends. *)
Inductive stop_flow :=
  | StopNext (snapshots : list PeakDetachHelperThreadSnapshot) (err : Z)
  | StopAgain (snapshots : list PeakDetachHelperThreadSnapshot) (err : Z)
  | StopRestart
  | StopReturn (status : PeakDetachHelperStatus) (err : Z).

Fixpoint scan_tasks (controller_tid deadline : Z) (names : list cstring)
    (snapshots : list PeakDetachHelperThreadSnapshot) (err : Z) : HM stop_flow :=
  match names with
  | [] => hret (StopNext snapshots err)
  | name :: names =>
      do* ts := get_held in
      match parse_tid_name name with
      | None => scan_tasks controller_tid deadline names snapshots err
      | Some tid =>
          if (tid =? controller_tid) || tid_is_held tid ts
          then scan_tasks controller_tid deadline names snapshots err
          else if (PEAK_DETACH_HELPER_MAX_THREADS <=? length snapshots)%nat
                  || (PEAK_DETACH_HELPER_MAX_THREADS <=? length ts)%nat
          then
            do* r := cleanup_held_threads_or_release_failed
                       PEAK_DETACH_HELPER_STATUS_THREAD_LIMIT E2BIG in
            hret (StopReturn r.1 r.2)
          else
            do* r := seize_thread tid in
            match r with
            | Seized pc =>
                scan_tasks controller_tid deadline names
                  (snapshots ++ [mkThreadSnapshot tid 0 pc]) err
            | SeizeFailed status e =>
                do* c := cleanup_or_retry_stop_snapshot status e deadline in
                let '(status, e, retry) := c in
                hret (if retry : bool then StopRestart else StopReturn status e)
            end
      end
  end.

(** One iteration of the outer loop.  A failing [opendir] returns at once. *)
Definition stop_round (controller_tid deadline : Z)
    (snapshots : list PeakDetachHelperThreadSnapshot) (err : Z) : HM stop_flow :=
  do* listing := list_tasks in
  match listing with
  | inl e => hret (StopReturn (denied e) e)
  | inr (names, end_errno) =>
      do* flow := scan_tasks controller_tid deadline names snapshots err in
      match flow with
      | StopNext snapshots err =>
          if negb (end_errno =? 0) then
            do* r := cleanup_held_threads_or_release_failed
                       PEAK_DETACH_HELPER_STATUS_PTRACE_ERROR end_errno in
            hret (StopReturn r.1 r.2)
          else
            do* v := verify_no_unstopped_threads controller_tid err in
            let '(verify_status, err) := v in
            if bool_decide (verify_status = PEAK_DETACH_HELPER_STATUS_OK)
            then hret (StopNext snapshots err)
            else if bool_decide (verify_status = PEAK_DETACH_HELPER_STATUS_PTRACE_ERROR)
                    && (err =? EAGAIN) then
              do* now := monotonic_milliseconds in
              if deadline <=? now then
                do* r := cleanup_held_threads_or_release_failed
                           PEAK_DETACH_HELPER_STATUS_TIMEOUT ETIMEDOUT in
                hret (StopReturn r.1 r.2)
              else do* _ := usleep in hret (StopAgain snapshots err)
            else
              do* r := cleanup_held_threads_or_release_failed verify_status err in
              hret (StopReturn r.1 r.2)
      | other => hret other
      end
  end.

(** The label [restart_stop_snapshot]. *)
Definition stop_begin : HM (option Z) :=
  do* r := cleanup_held_threads_or_release_failed PEAK_DETACH_HELPER_STATUS_OK 0 in
  hret (if bool_decide (r.1 = PEAK_DETACH_HELPER_STATUS_OK) then None else Some r.2).

(** The loop, [None] when the rounds run out. *)
Fixpoint stop_rounds (rounds : nat) (controller_tid deadline : Z)
    (snapshots : list PeakDetachHelperThreadSnapshot) (err : Z)
    : HM (option (PeakDetachHelperStatus * Z * list PeakDetachHelperThreadSnapshot)) :=
  match rounds with
  | O => hret None
  | S rounds =>
      do* flow := stop_round controller_tid deadline snapshots err in
      match flow with
      | StopNext snapshots err => hret (Some (PEAK_DETACH_HELPER_STATUS_OK, err, snapshots))
      | StopAgain snapshots err => stop_rounds rounds controller_tid deadline snapshots err
      | StopRestart =>
          do* failed := stop_begin in
          match failed with
          | Some err => hret (Some (PEAK_DETACH_HELPER_STATUS_RELEASE_FAILED, err, []))
          | None => stop_rounds rounds controller_tid deadline [] 0
          end
      | StopReturn status err => hret (Some (status, err, []))
      end
  end.

Definition PEAK_DETACH_HELPER_STOP_TIMEOUT_MS : Z := 5000.

(** One round before the first sleep and one per millisecond of the timeout,
    and one more for the round in which the deadline is noticed. *)
Definition STOP_ROUNDS : nat := Z.to_nat 5002.

Definition send_response (r : PeakDetachHelperResponse) : HM bool :=
  do* ok := syscall (k_send env) in
  if ok : bool then do* _ := add_response r in hret true else hret false.

Definition stop_target_threads (controller_tid : Z)
    : HM (option (PeakDetachHelperStatus * Z * list PeakDetachHelperThreadSnapshot)) :=
  do* now := monotonic_milliseconds in
  do* failed := stop_begin in
  match failed with
  | Some err => hret (Some (PEAK_DETACH_HELPER_STATUS_RELEASE_FAILED, err, []))
  | None =>
      do* r := stop_rounds STOP_ROUNDS controller_tid
                 (now + PEAK_DETACH_HELPER_STOP_TIMEOUT_MS) [] 0 in
      match r with
      | Some (PEAK_DETACH_HELPER_STATUS_OK, err, snapshots) =>
          do* sent := send_response (mkResponse PEAK_DETACH_HELPER_STATUS_OK (length snapshots) err) in
          do* payload := (if sent : bool then syscall (k_send env) else hret false) in
          if payload : bool then
            do* _ := add_payload snapshots in hret (Some (PEAK_DETACH_HELPER_STATUS_OK, err, snapshots))
          else
            do* e := syscall (k_send_errno env) in
            do* r := cleanup_held_threads_or_release_failed
                       PEAK_DETACH_HELPER_STATUS_PROTOCOL_ERROR e in
            hret (Some (r.1, r.2, []))
      | other => hret other
      end
  end.

(** ** Memory of the traced process *)

(** A failing function sets [errno]: [Some errno] is failure, [None] success. *)
Definition write_memory_via_proc_mem (address : Z) (bytes : list Z) : HM (option Z) :=
  do* written := syscall (k_pwrite env) in
  match written with
  | inl e => hret (Some e)
  | inr n =>
      let n := Nat.min n (length bytes) in
      do* _ := set_memory (fun m => write_bytes m address (take n bytes)) in
      hret (if (n =? length bytes)%nat then None else Some EIO)
  end.

Definition WORD_SIZE : Z := 8.

(** [dst] with [src] copied at offset [at_]. *)
Definition memcpy_at (dst : list Z) (at_ : nat) (src : list Z) : list Z :=
  take at_ dst ++ src ++ drop (at_ + length src) dst.

(** The part of the word at [cursor] that lies before [end_]: the aligned
    address, the offset in the word and the length. *)
Definition word_chunk (cursor end_ : Z) : Z * nat * nat :=
  let aligned := cursor - cursor mod WORD_SIZE in
  let offset := cursor - aligned in
  let chunk := WORD_SIZE - offset in
  let chunk := if end_ - cursor <? chunk then end_ - cursor else chunk in
  (aligned, Z.to_nat offset, Z.to_nat chunk).

(** The loop; every iteration advances [cursor], so as many iterations as
    bytes are enough. *)
Fixpoint poke_words (fuel : nat) (cursor start end_ : Z) (bytes : list Z) : HM (option Z) :=
  match fuel with
  | O => hret None
  | S fuel =>
      if cursor <? end_ then
        let '(aligned, offset, chunk) := word_chunk cursor end_ in
        do* e := syscall (k_peek env) in
        if negb (e =? 0) then hret (Some e)
        else
          do* word := (fun s => (read_bytes (memory s) aligned 8, s)) in
          let word := memcpy_at word offset (take chunk (drop (Z.to_nat (cursor - start)) bytes)) in
          do* e := syscall (k_poke env) in
          if negb (e =? 0) then hret (Some e)
          else
            do* _ := set_memory (fun m => write_bytes m aligned word) in
            poke_words fuel (cursor + Z.of_nat chunk) start end_ bytes
      else hret None
  end.

Definition write_memory_via_ptrace (address : Z) (bytes : list Z) : HM (option Z) :=
  do* ts := get_held in
  match ts with
  | [] => hret (Some ESRCH)
  | _ => poke_words (length bytes) address address (address +u64 Z.of_nat (length bytes)) bytes
  end.

Definition write_tracee_memory (address : Z) (bytes : list Z) (size : Z) : HM (option Z) :=
  if (size =? 0) || (PEAK_DETACH_HELPER_MAX_PATCH_BYTES <? size) then hret (Some EINVAL)
  else
    let bytes := take (Z.to_nat size) bytes in
    do* e := write_memory_via_proc_mem address bytes in
    match e with None => hret None | Some _ => write_memory_via_ptrace address bytes end.

(** The error and the buffer. *)
Definition read_memory_via_proc_mem (address : Z) (buffer : list Z) (size : nat) : HM (option Z * list Z) :=
  do* nread := syscall (k_pread env) in
  match nread with
  | inl e => hret (Some e, buffer)
  | inr n =>
      let n := Nat.min n size in
      do* bs := (fun s => (read_bytes (memory s) address n, s)) in
      hret (if (n =? size)%nat then None else Some EIO, memcpy_at buffer 0 bs)
  end.

Fixpoint peek_words (fuel : nat) (cursor start end_ : Z) (buffer : list Z) : HM (option Z * list Z) :=
  match fuel with
  | O => hret (None, buffer)
  | S fuel =>
      if cursor <? end_ then
        let '(aligned, offset, chunk) := word_chunk cursor end_ in
        do* e := syscall (k_peek env) in
        if negb (e =? 0) then hret (Some e, buffer)
        else
          do* word := (fun s => (read_bytes (memory s) aligned 8, s)) in
          peek_words fuel (cursor + Z.of_nat chunk) start end_
            (memcpy_at buffer (Z.to_nat (cursor - start)) (take chunk (drop offset word)))
      else hret (None, buffer)
  end.

Definition read_memory_via_ptrace (address : Z) (buffer : list Z) (size : nat) : HM (option Z * list Z) :=
  do* ts := get_held in
  match ts with
  | [] => hret (Some ESRCH, buffer)
  | _ => peek_words size address address (address +u64 Z.of_nat size) buffer
  end.

Definition read_tracee_memory (address : Z) (buffer : list Z) (size : Z) : HM (option Z * list Z) :=
  if (size =? 0) || (PEAK_DETACH_HELPER_MAX_PATCH_BYTES <? size) then hret (Some EINVAL, buffer)
  else
    do* r := read_memory_via_proc_mem address buffer (Z.to_nat size) in
    let '(e, buffer) := r in
    match e with
    | None => hret (None, buffer)
    | Some _ => read_memory_via_ptrace address buffer (Z.to_nat size)
    end.

Definition verify_tracee_memory (address : Z) (expected : list Z) (size : Z) : HM (option Z) :=
  do* r := read_tracee_memory address (k_garbage env) size in
  let '(e, actual) := r in
  hret (match e with
        | Some e => Some e
        | None => if bool_decide (take (Z.to_nat size) actual = take (Z.to_nat size) expected)
                  then None else Some EIO
        end).

(** ** Instructions *)

Definition pc_in_range (pc address size : Z) : bool :=
  if (address =? 0) || (size =? 0) then false
  else
    let finish := address +u64 size in
    if finish <=? address then false else (address <=? pc) && (pc <? finish).

Definition held_and_attached (tid : Z) : HM bool :=
  do* ts := get_held in
  hret (match find_held_thread tid ts with Some t => attached t | None => false end).

Definition validate_instruction (i : PeakDetachHelperInstruction) (err : Z) : HM (PeakDetachHelperStatus * Z) :=
  if ins_action i =? SET_PC then
    do* held := held_and_attached (ins_tid i) in
    if negb held then hret (PEAK_DETACH_HELPER_STATUS_PTRACE_ERROR, ESRCH)
    else
      do* r := peak_regs_get (ins_tid i) in
      hret (if negb (r.1 =? 0) then (PEAK_DETACH_HELPER_STATUS_REGISTER_ERROR, r.1)
            else (PEAK_DETACH_HELPER_STATUS_OK, err))
  else if ins_action i =? SINGLE_STEP_OUT_OF_RANGE then
    do* held := held_and_attached (ins_tid i) in
    hret (if negb held then (PEAK_DETACH_HELPER_STATUS_PTRACE_ERROR, ESRCH)
          else if (ins_address i =? 0) || (ins_size i =? 0)
                  || (PEAK_DETACH_HELPER_MAX_PATCH_BYTES <? ins_size i)
                  || (ins_address i +u64 ins_size i <=? ins_address i)
          then (PEAK_DETACH_HELPER_STATUS_PROTOCOL_ERROR, EINVAL)
          else (PEAK_DETACH_HELPER_STATUS_OK, err))
  else if ins_action i =? WRITE_MEMORY then
    hret (if (ins_address i =? 0) || (ins_size i =? 0)
             || (PEAK_DETACH_HELPER_MAX_PATCH_BYTES <? ins_size i)
          then (PEAK_DETACH_HELPER_STATUS_PROTOCOL_ERROR, EINVAL)
          else (PEAK_DETACH_HELPER_STATUS_OK, err))
  else hret (PEAK_DETACH_HELPER_STATUS_PROTOCOL_ERROR, EINVAL).

(** Records the signal a single step was stopped by. *)
Definition set_detach_signal (tid signal : Z) : HM unit :=
  do* ts := get_held in
  set_held (map (fun t => if held_tid t =? tid then mkHeldThread tid (attached t) signal else t) ts).

Fixpoint step_loop (steps : nat) (i : PeakDetachHelperInstruction) (err : Z) : HM (PeakDetachHelperStatus * Z) :=
  do* r := peak_regs_get (ins_tid i) in
  let '(e, pc) := r in
  if negb (e =? 0) then hret (PEAK_DETACH_HELPER_STATUS_REGISTER_ERROR, e)
  else
    match steps with
    | O => hret (if pc_in_range pc (ins_address i) (ins_size i)
                 then (PEAK_DETACH_HELPER_STATUS_TIMEOUT, ETIMEDOUT)
                 else (PEAK_DETACH_HELPER_STATUS_OK, err))
    | S steps =>
        if negb (pc_in_range pc (ins_address i) (ins_size i))
        then hret (PEAK_DETACH_HELPER_STATUS_OK, err)
        else
          do* e := syscall (fun n => k_single_step env n (ins_tid i)) in
          if negb (e =? 0) then hret (PEAK_DETACH_HELPER_STATUS_PTRACE_ERROR, e)
          else
            do* _ := set_data (fun n => k_step_data env n (ins_tid i)) in
            do* w := wait_stop wait_for_single_step_stop (ins_tid i) in
            let '(e, stop_signal) := w in
            if negb (e =? 0)
            then hret (if e =? ETIMEDOUT then PEAK_DETACH_HELPER_STATUS_TIMEOUT
                       else PEAK_DETACH_HELPER_STATUS_PTRACE_ERROR, e)
            else if negb (stop_signal =? SIGTRAP) then
              do* _ := set_detach_signal (ins_tid i) stop_signal in
              hret (PEAK_DETACH_HELPER_STATUS_PTRACE_ERROR, EINTR)
            else step_loop steps i err
    end.

Definition apply_single_step_out_of_range_instruction (i : PeakDetachHelperInstruction) (err : Z)
    : HM (PeakDetachHelperStatus * Z) :=
  do* held := held_and_attached (ins_tid i) in
  if negb held then hret (PEAK_DETACH_HELPER_STATUS_PTRACE_ERROR, ESRCH)
  else
    let max_steps := wrap 32 (ins_size i + 4) in
    step_loop (Z.to_nat (if max_steps <? 8 then 8 else max_steps)) i err.

Definition apply_write_instruction (i : PeakDetachHelperInstruction) (err : Z)
    : HM (PeakDetachHelperStatus * Z) :=
  do* e := write_tracee_memory (ins_address i) (ins_bytes i) (ins_size i) in
  match e with
  | Some e => hret (PEAK_DETACH_HELPER_STATUS_PTRACE_ERROR, e)
  | None =>
      do* e := verify_tracee_memory (ins_address i) (ins_bytes i) (ins_size i) in
      hret (match e with
            | Some e => (PEAK_DETACH_HELPER_STATUS_PTRACE_ERROR, e)
            | None => (PEAK_DETACH_HELPER_STATUS_OK, err)
            end)
  end.

Definition apply_set_pc_instruction (i : PeakDetachHelperInstruction) (err : Z)
    : HM (PeakDetachHelperStatus * Z) :=
  do* held := held_and_attached (ins_tid i) in
  if negb held then hret (PEAK_DETACH_HELPER_STATUS_PTRACE_ERROR, ESRCH)
  else
    do* r := peak_regs_get (ins_tid i) in
    if negb (r.1 =? 0) then hret (PEAK_DETACH_HELPER_STATUS_REGISTER_ERROR, r.1)
    else
      do* e := peak_regs_set (ins_tid i) (ins_pc i) in
      if negb (e =? 0) then hret (PEAK_DETACH_HELPER_STATUS_REGISTER_ERROR, e)
      else
        do* r := peak_regs_get (ins_tid i) in
        hret (if negb (r.1 =? 0) then (PEAK_DETACH_HELPER_STATUS_REGISTER_ERROR, r.1)
              else if negb (r.2 =? ins_pc i) then (PEAK_DETACH_HELPER_STATUS_REGISTER_ERROR, EIO)
              else (PEAK_DETACH_HELPER_STATUS_OK, err)).

(** One of the loops over the instructions: those [selected] are handled until
    one fails.  The last component says whether one was handled. *)
Fixpoint each_instruction (selected : PeakDetachHelperInstruction -> bool)
    (handle : PeakDetachHelperInstruction -> Z -> HM (PeakDetachHelperStatus * Z))
    (instructions : list PeakDetachHelperInstruction) (err : Z) (started : bool)
    : HM (PeakDetachHelperStatus * Z * bool) :=
  match instructions with
  | [] => hret (PEAK_DETACH_HELPER_STATUS_OK, err, started)
  | i :: instructions =>
      if selected i then
        do* r := handle i err in
        let '(status, err) := r in
        if bool_decide (status = PEAK_DETACH_HELPER_STATUS_OK)
        then each_instruction selected handle instructions err true
        else hret (status, err, true)
      else each_instruction selected handle instructions err started
  end.

Definition is_action (action : Z) (i : PeakDetachHelperInstruction) : bool := ins_action i =? action.

(** Status, errno and [*mutation_started_out]. *)
Definition apply_instructions (controller_tid : Z) (instructions : list PeakDetachHelperInstruction)
    : HM (PeakDetachHelperStatus * Z * bool) :=
  do* r := each_instruction (fun _ => true) validate_instruction instructions 0 false in
  let '(status, err, _) := r in
  if negb (bool_decide (status = PEAK_DETACH_HELPER_STATUS_OK)) then hret (status, err, false)
  else
    do* r := verify_no_unstopped_threads controller_tid err in
    let '(status, err) := r in
    if negb (bool_decide (status = PEAK_DETACH_HELPER_STATUS_OK)) then hret (status, err, false)
    else
      do* r := each_instruction (is_action SINGLE_STEP_OUT_OF_RANGE)
                 apply_single_step_out_of_range_instruction instructions err false in
      let '(status, err, _) := r in
      if negb (bool_decide (status = PEAK_DETACH_HELPER_STATUS_OK)) then hret (status, err, false)
      else
        do* r := verify_no_unstopped_threads controller_tid err in
        let '(status, err) := r in
        if negb (bool_decide (status = PEAK_DETACH_HELPER_STATUS_OK)) then hret (status, err, false)
        else
          do* r := each_instruction (is_action WRITE_MEMORY) apply_write_instruction
                     instructions err false in
          let '(status, err, started) := r in
          if negb (bool_decide (status = PEAK_DETACH_HELPER_STATUS_OK)) then hret (status, err, started)
          else
            each_instruction (is_action SET_PC) apply_set_pc_instruction instructions err started.

(** ** The protocol *)

(** What arrives on the socket: its end, an error, or a request with the
    instructions that follow it ([None] when they cannot be read). *)
Inductive incoming :=
  | StreamEnd
  | StreamError
  | Request (request : PeakDetachHelperRequest) (payload : option (list PeakDetachHelperInstruction)).

(** The two orders in which the code gives up on a request. *)
Definition respond_then_detach (e : Z) : HM (option Z) :=
  do* _ := send_response (mkResponse PEAK_DETACH_HELPER_STATUS_PROTOCOL_ERROR 0 e) in
  do* _ := detach_held_threads in hret (Some 1).

Definition detach_then_respond (e : Z) : HM (option Z) :=
  do* _ := detach_held_threads in
  do* _ := send_response (mkResponse PEAK_DETACH_HELPER_STATUS_PROTOCOL_ERROR 0 e) in hret (Some 1).

(** Each handler gives the exit code, or [None] to keep serving. *)
Definition serve_stop (request : PeakDetachHelperRequest) : HM (option Z) :=
  if negb (request_instruction_count request =? 0)%nat then respond_then_detach EPROTO
  else
    do* r := stop_target_threads (request_controller_tid request) in
    match r with
    | Some (status, err, _) =>
        if bool_decide (status = PEAK_DETACH_HELPER_STATUS_OK) then hret None
        else
          do* _ := send_response (mkResponse status 0 err) in
          hret (if bool_decide (status = PEAK_DETACH_HELPER_STATUS_RELEASE_FAILED) then Some 1 else None)
    | None => hret None
    end.

Definition serve_evacuate (request : PeakDetachHelperRequest)
    (payload : option (list PeakDetachHelperInstruction)) : HM (option Z) :=
  match payload with
  | Some instructions =>
      if (PEAK_DETACH_HELPER_MAX_INSTRUCTIONS <? request_instruction_count request)%nat
      then detach_then_respond EPROTO
      else
        do* r := apply_instructions (request_controller_tid request) instructions in
        let '(status, err, mutation_started) := r in
        do* r :=
          (if bool_decide (status = PEAK_DETACH_HELPER_STATUS_OK) then hret (status, err)
           else if mutation_started : bool then hret (PEAK_DETACH_HELPER_STATUS_RELEASE_FAILED, err)
           else cleanup_held_threads_or_release_failed status err) in
        let '(status, err) := r in
        do* _ := send_response (mkResponse status 0 err) in
        hret (if bool_decide (status = PEAK_DETACH_HELPER_STATUS_RELEASE_FAILED) then Some 1 else None)
  | None => detach_then_respond EPROTO
  end.

Definition serve_resume (request : PeakDetachHelperRequest) : HM (option Z) :=
  if negb (request_instruction_count request =? 0)%nat then detach_then_respond EPROTO
  else
    do* r := detach_held_threads in
    do* _ := send_response (mkResponse r.1 0 r.2) in hret None.

Definition serve_shutdown (request : PeakDetachHelperRequest) : HM (option Z) :=
  if negb (request_instruction_count request =? 0)%nat then respond_then_detach EPROTO
  else
    do* r := detach_held_threads in
    do* _ := send_response (mkResponse r.1 0 r.2) in
    hret (Some (if bool_decide (r.1 = PEAK_DETACH_HELPER_STATUS_OK) then 0 else 1)).

(** One iteration of the loop. *)
Definition serve_one (bound_pid : Z) (message : incoming) : HM (option Z) :=
  match message with
  | StreamEnd => do* _ := detach_held_threads in hret (Some 0)
  | StreamError => do* _ := detach_held_threads in hret (Some 1)
  | Request request payload =>
      if negb (request_magic request =? PEAK_DETACH_HELPER_MAGIC)
         || negb (request_version request =? PEAK_DETACH_HELPER_VERSION)
      then respond_then_detach EPROTO
      else if negb (bound_pid =? 0) && negb (request_pid request =? bound_pid)
      then respond_then_detach EPERM
      else if request_command request =? PEAK_DETACH_HELPER_CMD_STOP then serve_stop request
      else if request_command request =? PEAK_DETACH_HELPER_CMD_EVACUATE
      then serve_evacuate request payload
      else if request_command request =? PEAK_DETACH_HELPER_CMD_RESUME then serve_resume request
      else if request_command request =? PEAK_DETACH_HELPER_CMD_SHUTDOWN then serve_shutdown request
      else detach_then_respond EINVAL
  end.

Definition bind_pid (bound_pid : Z) (message : incoming) : Z :=
  match message with
  | Request request _ => if bound_pid =? 0 then request_pid request else bound_pid
  | _ => bound_pid
  end.

(** The loop over what arrives; [None] while the helper waits for more. *)
Fixpoint serve_protocol (bound_pid : Z) (messages : list incoming) : HM (option Z) :=
  match messages with
  | [] => hret None
  | message :: messages =>
      do* r := serve_one bound_pid message in
      match r with
      | Some code => hret (Some code)
      | None => serve_protocol (bind_pid bound_pid message) messages
      end
  end.

(** The process: the ready message, then the protocol.  When the process ends
    the kernel releases the threads it still traces. *)
Definition release_at_exit : HM unit := do* _ := set_held [] in set_traced (fun _ => ∅).

Definition main (messages : list incoming) : HM (option Z) :=
  do* sent := send_response (mkResponse PEAK_DETACH_HELPER_STATUS_OK 0 0) in
  do* code := (if sent : bool then serve_protocol 0 messages else hret (Some 1)) in
  do* _ := (match code with Some _ => release_at_exit | None => hret tt end) in
  hret code.

End Helper.
