(* ===== verification/DetachHelperProofs.v ===== *)
(** * The detach helper: what it holds and what it changes

    Theorems about [DetachHelper]: which threads are held after every command,
    what a stop reports, what an evacuation writes, and that the stop loop
    ends. *)

From S2P Require Import Prelude TargetSelector EnvParser DetachHelper.

(** ** Triples *)

Definition triple {A} (P : helper -> Prop) (m : HM A) (Q : A -> helper -> Prop) : Prop :=
  forall s, P s -> Q (m s).1 (m s).2.

Definition keeps {A} (I : helper -> Prop) (m : HM A) : Prop := triple I m (fun _ => I).

Lemma triple_bind {A B} P (m : HM A) R (f : A -> HM B) Q :
  triple P m R -> (forall a, triple (R a) (f a) Q) -> triple P (hbind m f) Q.
Proof.
  intros Hm Hf s HP. unfold hbind. specialize (Hm s HP). destruct (m s) as [a s'].
  by apply Hf.
Qed.

Lemma triple_ret {A} (P : helper -> Prop) (a : A) Q : (forall s, P s -> Q a s) -> triple P (hret a) Q.
Proof. intros H s HP. by apply H. Qed.

Lemma triple_consequence {A} (P P' : helper -> Prop) (m : HM A) Q Q' :
  (forall s, P s -> P' s) -> triple P' m Q' -> (forall a s, Q' a s -> Q a s) -> triple P m Q.
Proof. intros HP Hm HQ s Hs. apply HQ, Hm, HP, Hs. Qed.

Lemma keeps_bind {A B} I (m : HM A) (f : A -> HM B) :
  keeps I m -> (forall a, keeps I (f a)) -> keeps I (hbind m f).
Proof. intros. by eapply triple_bind. Qed.

Lemma keeps_ret {A} I (a : A) : keeps I (hret a).
Proof. by apply triple_ret. Qed.

Create HintDb helper.
#[export] Hint Resolve keeps_ret : helper.

(** Walks a program: binds, returns, tests. *)
Ltac walk :=
  repeat (cbv beta zeta;
    lazymatch goal with
    | |- keeps _ (hret _) => apply keeps_ret
    | |- keeps _ (hbind _ _) => apply keeps_bind; [|intros ?]
    | |- keeps _ (if ?b then _ else _) => destruct b eqn:?
    | |- keeps _ (let '(_, _) := ?x in _) => destruct x eqn:?
    | |- keeps _ (match ?x with _ => _ end) => destruct x eqn:?
    end; try (solve [eauto with helper])).

(** An invariant that only reads a projection the primitive leaves alone. *)
Ltac frame := intros ? ?; simpl in *; done.

(** ** The invariant *)

Definition tids (ts : list PeakHeldThread) : list Z := map held_tid ts.

(** The table lists exactly the traced threads, each once, and fits its array. *)
Record wf (s : helper) : Prop := {
  wf_bound : (length (held_threads s) <= PEAK_DETACH_HELPER_MAX_THREADS)%nat;
  wf_traced : traced s = list_to_set (tids (held_threads s));
  wf_nodup : NoDup (tids (held_threads s));
  wf_attached : Forall (fun t => attached t = true) (held_threads s)
}.

(** What the traced process sees of the helper: its memory and counters. *)
Definition same_code (s s' : helper) : Prop :=
  memory s' = memory s /\ counters s' = counters s.

Lemma tid_is_held_spec tid ts : tid_is_held tid ts = true <-> tid ∈ tids ts.
Proof.
  unfold tid_is_held, find_held_thread. induction ts as [|t ts IH]; simpl; [set_solver|].
  rewrite elem_of_cons, <- IH. destruct (Z.eqb_spec (held_tid t) tid); naive_solver.
Qed.

Lemma wf_same s s' :
  held_threads s' = held_threads s -> traced s' = traced s -> wf s -> wf s'.
Proof. intros H1 H2 [? ? ? ?]. split; rewrite H1; try rewrite H2; done. Qed.

(** The state after a successful seize. *)
Lemma wf_seized s s' tid t :
  wf s -> tid ∉ tids (held_threads s) ->
  (length (held_threads s) < PEAK_DETACH_HELPER_MAX_THREADS)%nat ->
  held_tid t = tid -> attached t = true ->
  held_threads s' = held_threads s ++ [t] -> traced s' = {[tid]} ∪ traced s -> wf s'.
Proof.
  intros [Hb Htr Hnd Hat] Hnot Hlen Ht Ha H1 H2.
  assert (Htids : tids (held_threads s') = tids (held_threads s) ++ [tid])
    by (rewrite H1; unfold tids; rewrite map_app; simpl; by rewrite Ht).
  split.
  - rewrite H1, length_app. simpl. lia.
  - rewrite H2, Htids, Htr, list_to_set_app_L. simpl. set_solver.
  - rewrite Htids. apply NoDup_app. split_and!; [done|set_solver|apply NoDup_singleton].
  - rewrite H1. by apply Forall_app_2; [|constructor].
Qed.

Section Proofs.
Context (env : kernel_env).

(** ** Releasing *)

Record detach_result (s : helper) (ts : list PeakHeldThread) (status0 : PeakDetachHelperStatus)
    (r : PeakDetachHelperStatus * Z * list PeakHeldThread) (s' : helper) : Prop := {
  dr_retained : sublist r.2 ts;
  dr_traced : forall x, x ∈ traced s' <-> x ∈ traced s /\ (x ∈ tids ts -> x ∈ tids r.2);
  dr_held : held_threads s' = held_threads s;
  dr_code : same_code s s';
  dr_ok : r.1.1 = PEAK_DETACH_HELPER_STATUS_OK <->
          status0 = PEAK_DETACH_HELPER_STATUS_OK /\ r.2 = []
}.

Lemma tids_cons t ts x : x ∈ tids (t :: ts) <-> x = held_tid t \/ x ∈ tids ts.
Proof. unfold tids. simpl. by rewrite elem_of_cons. Qed.

Lemma detach_result_released s t ts status0 r s1 s' :
  held_tid t ∉ tids ts ->
  (forall x, x ∈ traced s1 <-> x ∈ traced s /\ x <> held_tid t) ->
  held_threads s1 = held_threads s -> same_code s s1 ->
  detach_result s1 ts status0 r s' -> detach_result s (t :: ts) status0 r s'.
Proof.
  intros Hnot Htr Hheld Hcode [H1 H2 H3 H4 H5]. split.
  - by apply sublist_cons.
  - intros x. rewrite H2, Htr, tids_cons.
    assert (Hsub : x ∈ tids r.2 -> x ∈ tids ts).
    { intros Hx. eapply elem_of_sublist; [done|]. by apply fmap_sublist. }
    split.
    + intros [[? ?] ?]. split; [done|]. intros [->|?]; [done|auto].
    + intros [? Hx]. split; [split; [done|]|auto]. intros ->. apply Hnot, Hsub, Hx. by left.
  - congruence.
  - destruct Hcode, H4. split; congruence.
  - done.
Qed.

Lemma detach_result_retained s t ts status0 r s1 s' :
  held_tid t ∈ traced s -> held_tid t ∉ tids ts ->
  traced s1 = traced s -> held_threads s1 = held_threads s -> same_code s s1 ->
  detach_result s1 ts PEAK_DETACH_HELPER_STATUS_PTRACE_ERROR r s' ->
  detach_result s (t :: ts) status0 (r.1, t :: r.2) s'.
Proof.
  intros Hin Hnot Htr Hheld Hcode [H1 H2 H3 H4 H5]. split; cbn [fst snd].
  - by apply sublist_skip.
  - intros x. rewrite H2, Htr, !tids_cons. naive_solver.
  - congruence.
  - destruct Hcode, H4. split; congruence.
  - rewrite H5. naive_solver.
Qed.

Lemma detach_loop_spec ts : forall status err s,
  NoDup (tids ts) -> Forall (fun t => attached t = true) ts -> list_to_set (tids ts) ⊆ traced s ->
  detach_result s ts status (detach_loop env ts status err s).1 (detach_loop env ts status err s).2.
Proof.
  induction ts as [|t ts IH]; intros status err s Hnd Hat Hsub.
  { simpl. split; simpl; try done; [|naive_solver].
    intros x. split; [|naive_solver]. intros ?. split; [done|]. set_solver. }
  apply NoDup_cons in Hnd as [Hnot Hnd]. apply Forall_cons in Hat as [Ht Hat].
  assert (Htr : held_tid t ∈ traced s) by (apply Hsub; simpl; set_solver).
  assert (Hretained : forall e s1, traced s1 = traced s -> held_threads s1 = held_threads s ->
            same_code s s1 ->
            let '(status', err', retained, s') :=
              detach_loop env ts PEAK_DETACH_HELPER_STATUS_PTRACE_ERROR e s1 in
            detach_result s (t :: ts) status (status', err', t :: retained) s').
  { intros e s1 H1 H2 H3.
    assert (Hs1 : list_to_set (tids ts) ⊆ traced s1) by (rewrite H1; simpl in Hsub; set_solver).
    specialize (IH PEAK_DETACH_HELPER_STATUS_PTRACE_ERROR e s1 Hnd Hat Hs1).
    destruct (detach_loop env ts _ e s1) as [[[st' e'] ret] s'].
    eapply (detach_result_retained s t ts status (st', e', ret)); eauto. }
  simpl detach_loop. rewrite Ht. unfold ptrace_detach, task_vanished, hbind, syscall, hret. simpl.
  destruct (k_detach env (calls s) (held_tid t) =? 0) eqn:He; rewrite ?He; simpl.
  { eapply detach_result_released; [done| | | |apply IH; try done].
    all: simpl; try done; set_solver. }
  destruct (k_detach env (calls s) (held_tid t) =? ESRCH) eqn:Hs; rewrite ?He; simpl;
    [lazymatch goal with |- context [k_task_gone env ?n ?x] => destruct (k_task_gone env n x); simpl end|].
  { eapply detach_result_released; [done| | | |apply IH; try done].
    all: simpl; try done; set_solver. }
  all: lazymatch goal with
       | |- context [detach_loop _ _ PEAK_DETACH_HELPER_STATUS_PTRACE_ERROR ?e ?s1] =>
           specialize (Hretained e s1); destruct (detach_loop _ _ _ e s1) as [[[st' e'] ret] s']
       end; by apply Hretained.
Qed.

(** A release gives up every thread it reports, and reports success only when
    nothing is left. *)
Lemma detach_held_threads_spec s :
  wf s ->
  wf (detach_held_threads env s).2 /\ same_code s (detach_held_threads env s).2 /\
  ((detach_held_threads env s).1.1 = PEAK_DETACH_HELPER_STATUS_OK <->
   held_threads (detach_held_threads env s).2 = []).
Proof.
  intros [Hb Htr Hnd Hat]. unfold detach_held_threads, get_held, hbind.
  destruct (detach_loop_spec (held_threads s) PEAK_DETACH_HELPER_STATUS_OK 0 s Hnd Hat)
    as [H1 H2 H3 H4 H5]; [by rewrite Htr|].
  destruct (detach_loop env _ _ _ s) as [[[st e] ret] s'] eqn:Hl. simpl in *.
  split_and!; [|done|naive_solver].
  assert (Hsub : sublist (tids ret) (tids (held_threads s))) by (by apply fmap_sublist).
  split; simpl.
  - pose proof (sublist_length _ _ H1). lia.
  - apply set_eq. intros x. rewrite H2, Htr, !elem_of_list_to_set.
    split; [naive_solver|]. intros Hx. split; [by eapply elem_of_sublist|done].
  - by eapply sublist_NoDup.
  - rewrite Forall_forall in *. intros t Ht. eapply Hat, elem_of_sublist; eauto.
Qed.

(** The cleanup keeps the intended status exactly when nothing is left. *)
Lemma cleanup_spec intended e s :
  wf s ->
  let '(r, s') := cleanup_held_threads_or_release_failed env intended e s in
  wf s' /\ same_code s s' /\
  (r.1 = intended /\ held_threads s' = [] \/ r.1 = PEAK_DETACH_HELPER_STATUS_RELEASE_FAILED).
Proof.
  intros Hwf. unfold cleanup_held_threads_or_release_failed, get_held, hbind.
  destruct (held_threads s) eqn:Hh; [simpl; split_and!; [done|done|by left]|].
  destruct (detach_held_threads_spec s Hwf) as (H1 & H2 & H3).
  destruct (detach_held_threads env s) as [[st ce] s'] eqn:Hd. simpl in *.
  case_bool_decide as Hs; simpl; split_and!; auto. left. split; [done|]. by apply H3.
Qed.

(** ** Stopping *)

Section Stop.
Context (controller_tid : Z) (m0 : Z -> Z).

(** The snapshots taken so far describe the held threads, in order. *)
Record stop_inv (snapshots : list PeakDetachHelperThreadSnapshot) (s : helper) : Prop := {
  si_wf : wf s;
  si_tids : map snap_tid snapshots = tids (held_threads s);
  si_pcs : Forall (fun x => snap_status x = 0 /\ snap_pc x = counters s (snap_tid x)) snapshots;
  si_memory : memory s = m0
}.

(** Every task of some complete listing is the controller or held. *)
Definition covered (s : helper) : Prop :=
  exists n, (k_readdir env n).2 = 0 /\
    forall name tid, name ∈ (k_readdir env n).1 -> parse_tid_name name = Some tid ->
      tid = controller_tid \/ tid ∈ traced s.

(** One of the [opendir] calls of the helper so far failed. *)
Definition opendir_failed (s : helper) : Prop := exists n, (n < calls s)%nat /\ k_opendir env n <> 0.

(** Nothing is held, or a directory could not be opened. *)
Definition released_or_unlisted (s : helper) : Prop := held_threads s = [] \/ opendir_failed s.

Definition failed_stop (status : PeakDetachHelperStatus) (s : helper) : Prop :=
  wf s /\ memory s = m0 /\ status <> PEAK_DETACH_HELPER_STATUS_OK /\
  (status = PEAK_DETACH_HELPER_STATUS_RELEASE_FAILED \/ released_or_unlisted s).

Definition flow_ok (flow : stop_flow) (s : helper) : Prop :=
  match flow with
  | StopNext snapshots _ => stop_inv snapshots s /\ covered s
  | StopAgain snapshots _ => stop_inv snapshots s
  | StopRestart => wf s /\ memory s = m0 /\ held_threads s = []
  | StopReturn status _ => failed_stop status s
  end.

Lemma cleanup_failed_stop intended e s :
  wf s -> memory s = m0 -> intended <> PEAK_DETACH_HELPER_STATUS_OK ->
  let '(r, s') := cleanup_held_threads_or_release_failed env intended e s in
  failed_stop r.1 s'.
Proof.
  intros Hwf Hm Hne. pose proof (cleanup_spec intended e s Hwf) as Hc.
  destruct (cleanup_held_threads_or_release_failed env intended e s) as [[st e'] s']. simpl in *.
  destruct Hc as (H1 & (H2 & _) & H3). split_and!; [done|congruence| |].
  - destruct H3 as [[-> _]| ->]; done.
  - destruct H3 as [[_ Hh]|Hr]; [right; by left|by left].
Qed.

Lemma cleanup_or_retry_spec intended e deadline s :
  wf s -> memory s = m0 -> intended <> PEAK_DETACH_HELPER_STATUS_OK ->
  let '(status, e', retry, s') := cleanup_or_retry_stop_snapshot env intended e deadline s in
  flow_ok (if retry : bool then StopRestart else StopReturn status e') s'.
Proof.
  intros Hwf Hm Hne. unfold cleanup_or_retry_stop_snapshot, hbind.
  pose proof (cleanup_spec intended e s Hwf) as Hc.
  pose proof (cleanup_failed_stop intended e s Hwf Hm Hne) as Hf.
  destruct (cleanup_held_threads_or_release_failed env intended e s) as [[st e'] s']. simpl in *.
  case_bool_decide as Hst; simpl; [|done].
  destruct (stop_snapshot_error_is_retryable intended e) eqn:Hr; simpl; [|done].
  destruct Hc as (H1 & (H2 & _) & H3).
  assert (Hh : held_threads s' = []).
  { destruct H3 as [[_ H3]|H3]; [done|]. exfalso. subst st intended. done. }
  destruct (deadline <=? _); simpl; unfold failed_stop; split_and!;
    try (by eapply wf_same; [| |exact H1]); try congruence; simpl; try congruence.
  right. by left.
Qed.

Lemma denied_not_ok e : denied e <> PEAK_DETACH_HELPER_STATUS_OK.
Proof. unfold denied. by destruct (_ || _). Qed.

Ltac seized s tid :=
  eapply (wf_seized s _ tid); [assumption..| | |reflexivity|reflexivity]; reflexivity.

(** Seizing a thread that is not held extends the table and the snapshots. *)
Lemma seize_thread_spec tid snapshots s :
  stop_inv snapshots s -> tid ∉ tids (held_threads s) ->
  (length (held_threads s) < PEAK_DETACH_HELPER_MAX_THREADS)%nat ->
  let '(r, s') := seize_thread env tid s in
  match r with
  | Seized pc => stop_inv (snapshots ++ [mkThreadSnapshot tid 0 pc]) s'
  | SeizeFailed status _ => wf s' /\ memory s' = m0 /\ status <> PEAK_DETACH_HELPER_STATUS_OK
  end.
Proof.
  intros [Hwf Htids Hpcs Hm] Hnot Hlen.
  unfold seize_thread, ptrace_seize, wait_stop, peak_regs_get, hbind, syscall, get_held, set_held,
    set_counter, set_traced, hret.
  simpl. destruct (k_seize env _ tid =? 0) eqn:H1; rewrite ?H1; simpl.
  2: { destruct (_ =? 0); [done|]. simpl. split_and!; [by eapply wf_same; [| |exact Hwf]|done|].
       apply denied_not_ok. }
  destruct (k_interrupt env _ tid =? 0) eqn:H2; simpl.
  2: { split_and!; [|done|apply denied_not_ok]. seized s tid. }
  destruct (wait_for_ptrace_stop _) as [e sig] eqn:H3. simpl.
  destruct (e =? 0) eqn:He; rewrite ?He; simpl.
  2: { split_and!; [seized s tid|done|]. by destruct (e =? ETIMEDOUT). }
  destruct (k_regs_get _ _ _ =? 0) eqn:H4; rewrite ?H4; simpl; [|split_and!; [seized s tid|done|done]].
  split; simpl; [seized s tid|..|done].
  - rewrite map_app, Htids. unfold tids. by rewrite map_app.
  - apply Forall_app. split; [|constructor; [simpl; by rewrite Z.eqb_refl|done]].
    rewrite Forall_forall in Hpcs |- *. intros x Hx. destruct (Hpcs x Hx) as [Hst Hpc].
    split; [done|]. rewrite Hpc.
    destruct (Z.eqb_spec (snap_tid x) tid) as [Heq|]; [|done].
    destruct Hnot. rewrite <- Htids, <- Heq. by apply list_elem_of_fmap_2.
Qed.

Lemma scan_tasks_spec deadline names : forall snapshots err s,
  stop_inv snapshots s ->
  let '(flow, s') := scan_tasks env controller_tid deadline names snapshots err s in
  match flow with
  | StopNext snapshots' _ => stop_inv snapshots' s'
  | StopAgain _ _ => False
  | other => flow_ok other s'
  end.
Proof.
  induction names as [|name names IH]; intros snapshots err s Hs; [done|].
  cbn [scan_tasks]. unfold get_held, hbind at 1. cbn beta iota.
  destruct (parse_tid_name name) as [tid|]; [|by apply IH].
  destruct (_ || tid_is_held tid _) eqn:Hheld; [by apply IH|]. apply orb_false_iff in Hheld as [_ Hnot].
  destruct ((_ <=? _)%nat || _) eqn:Hlim.
  { unfold hbind. pose proof (cleanup_failed_stop PEAK_DETACH_HELPER_STATUS_THREAD_LIMIT E2BIG s
      (si_wf _ _ Hs) (si_memory _ _ Hs)) as Hc.
    destruct (cleanup_held_threads_or_release_failed _ _ _ _) as [[st e] s']. simpl. by apply Hc. }
  apply orb_false_iff in Hlim as [_ Hlen]. apply Nat.leb_gt in Hlen.
  assert (Hnot' : tid ∉ tids (held_threads s)) by (rewrite <- tid_is_held_spec, Hnot; done).
  pose proof (seize_thread_spec tid snapshots s Hs Hnot' Hlen) as Hz. unfold hbind at 1.
  destruct (seize_thread env tid s) as [[pc|st e] s1]; [by apply IH|].
  destruct Hz as (Hw & Hm & Hne). pose proof (cleanup_or_retry_spec st e deadline s1 Hw Hm Hne) as Hc.
  unfold hbind. destruct (cleanup_or_retry_stop_snapshot _ _ _ _ _) as [[[st' e'] retry] s2].
  by destruct retry.
Qed.

Lemma verify_spec err s :
  wf s ->
  let '(r, s') := verify_no_unstopped_threads env controller_tid err s in
  held_threads s' = held_threads s /\ traced s' = traced s /\ same_code s s' /\
  (r.1 = PEAK_DETACH_HELPER_STATUS_OK -> covered s').
Proof.
  intros [_ Htr _ _].
  unfold verify_no_unstopped_threads, list_tasks, hbind, syscall, get_held, hret. simpl.
  destruct (k_opendir env (calls s) =? 0); simpl; [|done].
  destruct (k_readdir env (S (calls s))) as [names e] eqn:Hr. simpl.
  destruct (existsb _ names) eqn:Hx; simpl; [done|].
  destruct (e =? 0) eqn:He; simpl; [|done]. split_and!; try done. intros _.
  exists (S (calls s)). rewrite Hr. simpl. split; [by apply Z.eqb_eq|]. intros name tid Hin Hp.
  destruct (decide (tid = controller_tid)) as [|Hne]; [by left|right].
  apply not_true_iff_false in Hx. rewrite existsb_exists in Hx.
  rewrite Htr, elem_of_list_to_set, <- tid_is_held_spec. apply not_false_iff_true. intros Hf.
  apply Hx. exists name. rewrite <- list_elem_of_In. split; [done|]. rewrite Hp, Hf.
  apply Z.eqb_neq in Hne. by rewrite Hne.
Qed.

Lemma stop_inv_same snapshots s s' :
  held_threads s' = held_threads s -> traced s' = traced s -> same_code s s' ->
  stop_inv snapshots s -> stop_inv snapshots s'.
Proof.
  intros H1 H2 [H3 H4] [Hw ? ? ?]. split; rewrite ?H1, ?H3, ?H4; try done.
  by eapply wf_same.
Qed.

Lemma stop_round_spec deadline snapshots err s :
  stop_inv snapshots s ->
  let '(flow, s') := stop_round env controller_tid deadline snapshots err s in flow_ok flow s'.
Proof.
  intros Hs. unfold stop_round, list_tasks, hbind at 1 2, syscall at 1.
  destruct (k_opendir env (calls s) =? 0) eqn:Ho; cbn [hret].
  2: { simpl. destruct Hs as [Hw _ _ Hm]. split_and!; [by apply (wf_same s)|done|apply denied_not_ok|].
       right. right. exists (calls s). split; [simpl; lia|by apply Z.eqb_neq]. }
  unfold hbind at 1, syscall at 1. cbn [hret fst snd]. destruct (k_readdir env _) as [names end_errno].
  unfold hbind at 1. pose proof (scan_tasks_spec deadline names snapshots err) as Hscan.
  match goal with |- context [scan_tasks _ _ _ _ _ _ ?x] => specialize (Hscan x) end.
  destruct (scan_tasks env controller_tid deadline names snapshots err _) as [flow s1].
  assert (Hf := Hscan ltac:(by apply (stop_inv_same snapshots s))). clear Hscan.
  destruct flow as [snaps e|? ?| |st e]; [|done..].
  assert (Hclean : forall st e s', stop_inv snaps s' -> st <> PEAK_DETACH_HELPER_STATUS_OK ->
    let '(flow, s'') := hbind (cleanup_held_threads_or_release_failed env st e)
                          (fun r => hret (StopReturn r.1 r.2)) s' in flow_ok flow s'').
  { intros st e' s' [Hw _ _ Hm] Hne. unfold hbind.
    pose proof (cleanup_failed_stop st e' s' Hw Hm Hne) as Hc.
    by destruct (cleanup_held_threads_or_release_failed env st e' s') as [[? ?] ?]. }
  destruct (end_errno =? 0); cbn [negb]; [|by apply Hclean].
  unfold hbind at 1. pose proof (verify_spec e s1 (si_wf _ _ Hf)) as Hv.
  destruct (verify_no_unstopped_threads env controller_tid e s1) as [[vst ve] s2].
  destruct Hv as (H1 & H2 & H3 & H4). pose proof (stop_inv_same _ _ _ H1 H2 H3 Hf) as Hf2.
  case_bool_decide as Hok; [split; [done|by apply H4]|].
  destruct (bool_decide _ && _); [|by apply Hclean].
  unfold hbind at 1, monotonic_milliseconds, syscall. cbn beta iota.
  destruct (deadline <=? _); [apply Hclean; [|done]|]; simpl; by apply (stop_inv_same snaps s2).
Qed.

(** What a stop leaves behind. *)
Definition stop_outcome (r : option (PeakDetachHelperStatus * Z * list PeakDetachHelperThreadSnapshot))
    (s : helper) : Prop :=
  match r with
  | Some (PEAK_DETACH_HELPER_STATUS_OK, _, snapshots) => stop_inv snapshots s /\ covered s
  | Some (status, _, _) => failed_stop status s
  | None => wf s /\ memory s = m0
  end.

Lemma stop_begin_spec s :
  wf s -> memory s = m0 ->
  let '(failed, s') := stop_begin env s in
  match failed with
  | Some _ => failed_stop PEAK_DETACH_HELPER_STATUS_RELEASE_FAILED s'
  | None => stop_inv [] s'
  end.
Proof.
  intros Hw Hm. unfold stop_begin, hbind.
  pose proof (cleanup_spec PEAK_DETACH_HELPER_STATUS_OK 0 s Hw) as Hc.
  destruct (cleanup_held_threads_or_release_failed _ _ _ _) as [[st e] s']. simpl in *.
  destruct Hc as (H1 & (H2 & _) & [[-> H3]|Hr]).
  - split; [done|by rewrite H3|done|congruence].
  - rewrite Hr. simpl. split_and!; [done|congruence|done|by left].
Qed.

Lemma stop_rounds_spec deadline rounds : forall snapshots err s,
  stop_inv snapshots s ->
  let '(r, s') := stop_rounds env rounds controller_tid deadline snapshots err s in stop_outcome r s'.
Proof.
  induction rounds as [|rounds IH]; intros snapshots err s Hs.
  { by destruct Hs. }
  cbn [stop_rounds]. unfold hbind at 1. pose proof (stop_round_spec deadline snapshots err s Hs) as Hr.
  destruct (stop_round env controller_tid deadline snapshots err s) as [[sn e|sn e| |st e] s1];
    simpl in Hr; [done|by apply IH| |].
  - destruct Hr as (Hw & Hm & _). pose proof (stop_begin_spec s1 Hw Hm) as Hb. unfold hbind at 1.
    destruct (stop_begin env s1) as [[e|] s2]; [done|by apply IH].
  - simpl. by destruct st; try done; destruct Hr as (_ & _ & ? & _).
Qed.

Lemma stop_target_threads_spec s :
  wf s -> memory s = m0 ->
  let '(r, s') := stop_target_threads env controller_tid s in stop_outcome r s'.
Proof.
  intros Hw Hm. unfold stop_target_threads, hbind at 1 2, monotonic_milliseconds, syscall.
  cbn beta iota.
  match goal with |- context [stop_begin env ?x] => pose proof (stop_begin_spec x) as Hb end.
  specialize (Hb ltac:(by apply (wf_same s)) Hm).
  destruct (stop_begin env _) as [[e|] s1]; [done|]. unfold hbind at 1.
  match goal with |- context [stop_rounds env ?n controller_tid ?d [] 0 s1] =>
    pose proof (stop_rounds_spec d n [] 0 s1 Hb) as Hr;
    destruct (stop_rounds env n controller_tid d [] 0 s1) as [r s2] end.
  destruct r as [[[st e] snaps]|]; [|done]. destruct st; try done.
  unfold send_response, hbind, syscall. cbn beta iota.
  assert (Hclean : forall e' s', stop_inv snaps s' ->
    let '(r, s'') := hbind (cleanup_held_threads_or_release_failed env PEAK_DETACH_HELPER_STATUS_PROTOCOL_ERROR e')
                       (fun r => hret (Some (r.1, r.2, []))) s' in stop_outcome r s'').
  { intros e' s' [Hw' _ _ Hm']. unfold hbind.
    pose proof (cleanup_failed_stop PEAK_DETACH_HELPER_STATUS_PROTOCOL_ERROR e' s' Hw' Hm') as Hc.
    destruct (cleanup_held_threads_or_release_failed env _ e' s') as [[st' ?] ?]. simpl in *.
    specialize (Hc ltac:(done)). by destruct st'; try done; destruct Hc as (_ & _ & ? & _). }
  destruct Hr as [Hi Hc].
  assert (Hsame : forall s', held_threads s' = held_threads s2 -> traced s' = traced s2 ->
            same_code s2 s' -> stop_inv snaps s') by (intros; by eapply stop_inv_same).
  destruct (k_send env (calls s2)); simpl; [destruct (k_send env (S (calls s2)))|];
    try (apply Hclean, Hsame; done).
  split; [by apply Hsame|done].
Qed.

End Stop.
End Proofs.
