(* ===== verification/DetachHelperWrites.v ===== *)
(** * The detach helper: evacuation

    Theorems about the memory accesses and the instructions of
    [DetachHelper]: writing through ptrace words is the same as writing the
    bytes, and an evacuation either does all its instructions or is undone by
    releasing the threads before any byte changed, or ends the helper. *)

From Stdlib Require Import Setoid Morphisms.
From S2P Require Import Prelude DetachHelper DetachHelperProofs.

(** ** Memories as functions, equal at every address *)

Definition mem_eq (m m' : Z -> Z) : Prop := forall a, m a = m' a.

#[export] Instance mem_eq_equivalence : Equivalence mem_eq.
Proof.
  split; [by intros m a|by intros m m' H a|by intros m1 m2 m3 H1 H2 a; rewrite H1].
Qed.

#[export] Instance write_bytes_proper : Proper (mem_eq ==> eq ==> eq ==> mem_eq) write_bytes.
Proof. intros m m' Hm x ? <- bs ? <- a. unfold write_bytes. by rewrite Hm. Qed.

Lemma length_read_bytes m n : forall a, length (read_bytes m a n) = n.
Proof. induction n; intros a; simpl; auto. Qed.

Lemma nth_read_bytes m n d : forall a i, (i < n)%nat -> nth i (read_bytes m a n) d = m (a + Z.of_nat i).
Proof.
  induction n as [|n IH]; intros a [|i] Hi; simpl; try lia; [f_equal; lia|].
  rewrite IH by lia. f_equal. lia.
Qed.

Lemma write_bytes_in m x bs a :
  x <= a < x + Z.of_nat (length bs) -> write_bytes m x bs a = nth (Z.to_nat (a - x)) bs 0.
Proof.
  intros Ha. unfold write_bytes.
  by destruct (Z.leb_spec x a), (Z.ltb_spec a (x + Z.of_nat (length bs))); try lia.
Qed.

Lemma write_bytes_out m x bs a :
  ~ (x <= a < x + Z.of_nat (length bs)) -> write_bytes m x bs a = m a.
Proof.
  intros Ha. unfold write_bytes.
  by destruct (Z.leb_spec x a), (Z.ltb_spec a (x + Z.of_nat (length bs))); try lia.
Qed.

Lemma length_memcpy_at dst k src :
  (k + length src <= length dst)%nat -> length (memcpy_at dst k src) = length dst.
Proof. intros H. unfold memcpy_at. rewrite !length_app, length_take, length_drop. lia. Qed.

Lemma nth_memcpy_at dst k src i d :
  (k <= length dst)%nat ->
  nth i (memcpy_at dst k src) d =
  if (k <=? i)%nat && (i <? k + length src)%nat then nth (i - k) src d else nth i dst d.
Proof.
  intros Hk. unfold memcpy_at.
  destruct (Nat.leb_spec k i), (Nat.ltb_spec i (k + length src)); simpl.
  - rewrite app_nth2; rewrite length_take, Nat.min_l by done; [|lia]. by rewrite app_nth1 by lia.
  - rewrite app_nth2; rewrite length_take, Nat.min_l by done; [|lia]. rewrite app_nth2 by lia.
    rewrite <- (take_drop (k + length src) dst) at 2.
    destruct (Nat.le_gt_cases (k + length src) (length dst)).
    + rewrite (app_nth2 (take _ _)); rewrite length_take, Nat.min_l by done; [f_equal; lia|lia].
    + rewrite !nth_overflow; [done|rewrite length_app, length_take, length_drop; lia|
        rewrite length_drop; lia].
  - rewrite app_nth1 by (rewrite length_take; lia).
    rewrite <- (take_drop k dst) at 2. by rewrite app_nth1 by (rewrite length_take; lia).
  - rewrite app_nth1 by (rewrite length_take; lia).
    rewrite <- (take_drop k dst) at 2. by rewrite app_nth1 by (rewrite length_take; lia).
Qed.

(** Rewriting a word with some of its bytes replaced writes those bytes. *)
Lemma word_write m aligned off src :
  (off + length src <= 8)%nat ->
  mem_eq (write_bytes m aligned (memcpy_at (read_bytes m aligned 8) off src))
         (write_bytes m (aligned + Z.of_nat off) src).
Proof.
  intros Hoff a.
  assert (Hlen : length (memcpy_at (read_bytes m aligned 8) off src) = 8%nat)
    by (rewrite length_memcpy_at; rewrite length_read_bytes; lia).
  destruct (decide (aligned <= a < aligned + 8)) as [Hin|Hout].
  2: { rewrite !write_bytes_out; [done|lia|lia]. }
  rewrite write_bytes_in by lia. rewrite nth_memcpy_at by (rewrite length_read_bytes; lia).
  destruct (decide (aligned + Z.of_nat off <= a < aligned + Z.of_nat off + Z.of_nat (length src))).
  - rewrite write_bytes_in by done.
    destruct (Nat.leb_spec off (Z.to_nat (a - aligned))),
      (Nat.ltb_spec (Z.to_nat (a - aligned)) (off + length src)); try lia. f_equal. lia.
  - rewrite write_bytes_out by done. rewrite nth_read_bytes by lia.
    destruct (Nat.leb_spec off (Z.to_nat (a - aligned))),
      (Nat.ltb_spec (Z.to_nat (a - aligned)) (off + length src)); try lia; simpl; f_equal; lia.
Qed.

(** Two writes of consecutive pieces are one write. *)
Lemma write_bytes_app m x b1 b2 :
  mem_eq (write_bytes (write_bytes m x b1) (x + Z.of_nat (length b1)) b2) (write_bytes m x (b1 ++ b2)).
Proof.
  intros a. destruct (decide (x <= a < x + Z.of_nat (length (b1 ++ b2)))) as [Hin|Hout];
    rewrite length_app in *.
  - rewrite (write_bytes_in m x (b1 ++ b2)) by (rewrite length_app; lia).
    destruct (decide (a < x + Z.of_nat (length b1))).
    + rewrite write_bytes_out, write_bytes_in, app_nth1 by lia. done.
    + rewrite write_bytes_in, app_nth2 by lia. f_equal. lia.
  - rewrite !write_bytes_out; [done|rewrite length_app; lia|lia|lia].
Qed.

(** A write hides an earlier one of a prefix. *)
Lemma write_bytes_over m x bs n : mem_eq (write_bytes (write_bytes m x (take n bs)) x bs) (write_bytes m x bs).
Proof.
  intros a. destruct (decide (x <= a < x + Z.of_nat (length bs))) as [Hin|Hout].
  - by rewrite !write_bytes_in by done.
  - rewrite !write_bytes_out; [done|done|rewrite length_take; lia|done].
Qed.

Lemma read_write_bytes m x bs : read_bytes (write_bytes m x bs) x (length bs) = bs.
Proof.
  apply nth_ext with 0 0; rewrite length_read_bytes; [done|]. intros i Hi.
  rewrite nth_read_bytes, write_bytes_in by lia. f_equal. lia.
Qed.

(** The chunk of a word advances, stays in its word and in the range. *)
Lemma word_chunk_spec cursor end_ aligned offset chunk :
  0 <= cursor < end_ -> word_chunk cursor end_ = (aligned, offset, chunk) ->
  aligned + Z.of_nat offset = cursor /\ (0 < chunk)%nat /\ (offset + chunk <= 8)%nat /\
  cursor + Z.of_nat chunk <= end_.
Proof.
  unfold word_chunk, WORD_SIZE. intros Hc Hw.
  pose proof (Z.mod_pos_bound cursor 8 ltac:(lia)).
  replace (cursor - (cursor - cursor mod 8)) with (cursor mod 8) in Hw by lia.
  destruct (Z.ltb_spec (end_ - cursor) (8 - cursor mod 8)); simplify_eq; lia.
Qed.

Section Accesses.
Context (env : kernel_env).

(** Everything but the memory is unchanged. *)
Definition same_table (s s' : helper) : Prop :=
  held_threads s' = held_threads s /\ traced s' = traced s /\ counters s' = counters s.

#[local] Instance same_table_transitive : Transitive same_table.
Proof. intros s1 s2 s3 (?&?&?) (?&?&?). split_and!; congruence. Qed.

(** ** Writing *)

Lemma poke_words_spec m0 start bytes :
  0 <= start ->
  forall fuel cursor s,
  start <= cursor <= start + Z.of_nat (length bytes) ->
  start + Z.of_nat (length bytes) - cursor <= Z.of_nat fuel ->
  mem_eq (memory s) (write_bytes m0 start (take (Z.to_nat (cursor - start)) bytes)) ->
  let '(e, s') := poke_words env fuel cursor start (start + Z.of_nat (length bytes)) bytes s in
  same_table s s' /\ (e = None -> mem_eq (memory s') (write_bytes m0 start bytes)).
Proof.
  intros Hstart fuel. induction fuel as [|fuel IH]; intros cursor s Hc Hf Hm.
  { simpl. split; [done|]. intros _. rewrite Hm, take_ge by lia. done. }
  cbn [poke_words]. destruct (Z.ltb_spec cursor (start + Z.of_nat (length bytes))).
  2: { simpl. split; [done|]. intros _. rewrite Hm, take_ge by lia. done. }
  destruct (word_chunk cursor _) as [[aligned offset] chunk] eqn:Hw.
  apply word_chunk_spec in Hw as (Ha & Hk & Hok & Hend); [|lia].
  unfold hbind, syscall, set_memory, hret. simpl.
  destruct (k_peek env (calls s) =? 0); simpl; [|done].
  destruct (k_poke env (S (calls s)) =? 0); simpl; [|done].
  match goal with |- context [poke_words env fuel ?c start ?e bytes ?x] =>
    specialize (IH c x ltac:(lia) ltac:(lia)); destruct (poke_words env fuel c start e bytes x) as [r s'] end.
  set (piece := take chunk (drop (Z.to_nat (cursor - start)) bytes)) in *.
  assert (Hpiece : length piece = chunk).
  { unfold piece. rewrite length_take, length_drop. lia. }
  destruct IH as [IH1 IH2]; [|split; [etrans; [|exact IH1]; done|done]].
  simpl. rewrite word_write by (rewrite Hpiece; lia). rewrite Ha, Hm.
  replace cursor with (start + Z.of_nat (length (take (Z.to_nat (cursor - start)) bytes))) at 2
    by (rewrite length_take; lia).
  rewrite write_bytes_app. unfold piece. rewrite take_take_drop.
  by replace (Z.to_nat (cursor + Z.of_nat chunk - start)) with (Z.to_nat (cursor - start) + chunk)%nat
    by lia.
Qed.

(** A write that succeeds, in one call or word by word, writes the bytes. *)
Lemma write_tracee_memory_spec address bytes size s :
  0 <= address -> address + size < 2 ^ 64 -> 0 <= size <= Z.of_nat (length bytes) ->
  let '(e, s') := write_tracee_memory env address bytes size s in
  same_table s s' /\
  (e = None -> mem_eq (memory s') (write_bytes (memory s) address (take (Z.to_nat size) bytes))).
Proof.
  intros Ha Hend Hsize. unfold write_tracee_memory.
  destruct (_ || _); [by split|]. set (bs := take (Z.to_nat size) bytes).
  assert (Hlen : Z.of_nat (length bs) = size) by (unfold bs; rewrite length_take; lia).
  assert (Hptrace : forall s1, same_table s s1 ->
    (exists n, mem_eq (memory s1) (write_bytes (memory s) address (take n bs))) ->
    let '(e, s') := write_memory_via_ptrace env address bs s1 in
    same_table s s' /\ (e = None -> mem_eq (memory s') (write_bytes (memory s) address bs))).
  { intros s1 Hs1 [n Hn]. unfold write_memory_via_ptrace, get_held, hbind.
    destruct (held_threads s1); [done|]. rewrite Hlen, wrap_small by lia. rewrite <- Hlen.
    pose proof (poke_words_spec (memory s1) address bs Ha (length bs) address s1
      ltac:(lia) ltac:(lia)) as Hp.
    destruct (poke_words env _ _ _ _ bs s1) as [e s']. rewrite Z.sub_diag in Hp.
    destruct Hp as [H1 H2].
    { intros a. symmetry. apply write_bytes_out. simpl. lia. }
    split; [by etrans|]. intros He. rewrite H2, Hn by done. apply write_bytes_over. }
  unfold write_memory_via_proc_mem, hbind, syscall, set_memory, hret. simpl.
  destruct (k_pwrite env (calls s)) as [e|n]; simpl.
  - apply Hptrace; [done|]. exists 0%nat. intros a. symmetry. apply write_bytes_out. simpl. lia.
  - destruct (Nat.eqb_spec (Nat.min n (length bs)) (length bs)) as [Heq|Hne]; simpl.
    + rewrite Heq, take_ge by lia. done.
    + apply Hptrace; [done|]. by exists (Nat.min n (length bs)).
Qed.

(** ** Reading back *)

Lemma peek_words_frame fuel : forall cursor start end_ buffer s,
  same_table s (peek_words env fuel cursor start end_ buffer s).2 /\
  memory (peek_words env fuel cursor start end_ buffer s).2 = memory s.
Proof.
  induction fuel as [|fuel IH]; intros cursor start end_ buffer s; [done|].
  cbn [peek_words]. destruct (cursor <? end_); [|done].
  destruct (word_chunk cursor end_) as [[aligned offset] chunk].
  unfold hbind, syscall, hret. simpl. destruct (k_peek env (calls s) =? 0); simpl; [|done].
  match goal with |- context [peek_words env fuel ?c ?x ?e ?b ?y] => destruct (IH c x e b y) as [H1 H2] end.
  split; [etrans; [|exact H1]; done|done].
Qed.

Lemma read_memory_via_ptrace_frame address b n s :
  same_table s (read_memory_via_ptrace env address b n s).2 /\
  memory (read_memory_via_ptrace env address b n s).2 = memory s.
Proof.
  unfold read_memory_via_ptrace, get_held, hbind. destruct (held_threads s); [done|].
  apply peek_words_frame.
Qed.

Lemma verify_tracee_memory_frame address expected size s :
  same_table s (verify_tracee_memory env address expected size s).2 /\
  memory (verify_tracee_memory env address expected size s).2 = memory s.
Proof.
  unfold verify_tracee_memory, read_tracee_memory, hbind at 1.
  destruct (_ || _); [done|]. unfold read_memory_via_proc_mem, hbind, syscall, hret. simpl.
  destruct (k_pread env (calls s)) as [e|n]; simpl; [|destruct (_ =? _)%nat; simpl; [done|]].
  all: match goal with |- context [read_memory_via_ptrace _ _ ?b ?n ?x] =>
         pose proof (read_memory_via_ptrace_frame address b n x);
         by destruct (read_memory_via_ptrace _ _ b n x) as [[[e'|] b'] s2] end.
Qed.

(** ** Instructions *)

(** The fixed array of an instruction and its machine words. *)
Definition wire_instruction (i : PeakDetachHelperInstruction) : Prop :=
  length (ins_bytes i) = 32%nat /\ 0 <= ins_address i /\ 0 <= ins_size i < 2 ^ 32.

(** The range of a write does not wrap around. *)
Definition write_in_space (i : PeakDetachHelperInstruction) : Prop :=
  ins_action i = WRITE_MEMORY -> ins_address i + ins_size i < 2 ^ 64.

Definition instruction_write (m : Z -> Z) (i : PeakDetachHelperInstruction) : Z -> Z :=
  if is_action WRITE_MEMORY i then write_bytes m (ins_address i) (take (Z.to_nat (ins_size i)) (ins_bytes i))
  else m.

Lemma apply_write_spec i err s :
  wire_instruction i -> write_in_space i -> ins_action i = WRITE_MEMORY ->
  ins_size i <= PEAK_DETACH_HELPER_MAX_PATCH_BYTES ->
  let '(r, s') := apply_write_instruction env i err s in
  same_table s s' /\
  (r.1 = PEAK_DETACH_HELPER_STATUS_OK -> mem_eq (memory s') (instruction_write (memory s) i)).
Proof.
  intros (Hlen & Ha & Hs) Hsp Hact Hmax. unfold PEAK_DETACH_HELPER_MAX_PATCH_BYTES in Hmax.
  pose proof (write_tracee_memory_spec (ins_address i) (ins_bytes i) (ins_size i) s Ha (Hsp Hact)
    ltac:(lia)) as Hw.
  unfold apply_write_instruction, hbind.
  destruct (write_tracee_memory env _ _ _ s) as [[e|] s1]; destruct Hw as [H1 H2]; [done|].
  destruct (verify_tracee_memory_frame (ins_address i) (ins_bytes i) (ins_size i) s1) as [H3 H4].
  destruct (verify_tracee_memory env _ _ _ s1) as [[e|] s2]; simpl in *; (split; [by etrans|]); [done|].
  intros _. unfold instruction_write, is_action. rewrite Hact, H4. simpl. by apply H2.
Qed.

(** The rule for one loop over the instructions: [Inv] holds of the
    instructions done so far, [Fail] of the state after a failure. *)
Lemma each_instruction_rule (selected : PeakDetachHelperInstruction -> bool)
    (handle : PeakDetachHelperInstruction -> Z -> HM (PeakDetachHelperStatus * Z))
    (Inv : list PeakDetachHelperInstruction -> helper -> Prop) (Fail : helper -> Prop) todo :
  (forall done i err s, (exists rest, done ++ i :: rest = todo) -> Inv done s -> selected i = true ->
     let '(r, s') := handle i err s in
     if bool_decide (r.1 = PEAK_DETACH_HELPER_STATUS_OK) then Inv (done ++ [i]) s' else Fail s') ->
  (forall done i s, Inv done s -> selected i = false -> Inv (done ++ [i]) s) ->
  forall rest done err started s,
  done ++ rest = todo -> Inv done s ->
  let '(status, _, started', s') := each_instruction selected handle rest err started s in
  if bool_decide (status = PEAK_DETACH_HELPER_STATUS_OK) then Inv todo s'
  else started' = true /\ Fail s'.
Proof.
  intros Hstep Hskip rest. induction rest as [|i rest IH]; intros dn err started s <- Hinv.
  { simpl. by rewrite app_nil_r. }
  cbn [each_instruction]. destruct (selected i) eqn:Hsel.
  - unfold hbind. pose proof (Hstep dn i err s (ex_intro _ rest eq_refl) Hinv Hsel) as Hi.
    destruct (handle i err s) as [[st e] s1]. simpl in Hi.
    case_bool_decide as Hok.
    + apply (IH (dn ++ [i])); [by rewrite <- app_assoc|done].
    + simpl. by rewrite bool_decide_eq_false_2 by done.
  - apply (IH (dn ++ [i])); [by rewrite <- app_assoc|by apply Hskip].
Qed.

(** What [validate_instruction] accepts. *)
Definition valid_instruction (ts : list PeakHeldThread) (i : PeakDetachHelperInstruction) : Prop :=
  (ins_action i = WRITE_MEMORY /\ ins_address i <> 0 /\
     0 <> ins_size i /\ ins_size i <= PEAK_DETACH_HELPER_MAX_PATCH_BYTES) \/
  ((ins_action i = SET_PC \/ ins_action i = SINGLE_STEP_OUT_OF_RANGE) /\ ins_tid i ∈ tids ts).

Definition quiet (s s' : helper) : Prop := same_table s s' /\ memory s' = memory s.

Lemma held_and_attached_spec tid s :
  let '(b, s') := held_and_attached tid s in
  s' = s /\ (b = true -> tid ∈ tids (held_threads s)).
Proof.
  unfold held_and_attached, get_held, hbind, hret. split; [done|]. intros Hb.
  rewrite <- tid_is_held_spec. unfold tid_is_held.
  by destruct (find_held_thread tid (held_threads s)).
Qed.

Lemma validate_instruction_spec i err s :
  let '(r, s') := validate_instruction env i err s in
  quiet s s' /\ (r.1 = PEAK_DETACH_HELPER_STATUS_OK -> valid_instruction (held_threads s) i).
Proof.
  unfold validate_instruction, valid_instruction. pose proof (held_and_attached_spec (ins_tid i) s) as Hh.
  destruct (Z.eqb_spec (ins_action i) SET_PC) as [H1|H1].
  - unfold hbind. destruct (held_and_attached (ins_tid i) s) as [[|] s1]; destruct Hh as [-> Hh]; [|done].
    unfold peak_regs_get, syscall, hbind, hret. simpl. destruct (_ =? 0); simpl; [|done].
    split; [done|]. intros _. auto.
  - destruct (Z.eqb_spec (ins_action i) SINGLE_STEP_OUT_OF_RANGE) as [H2|H2].
    + unfold hbind. destruct (held_and_attached (ins_tid i) s) as [[|] s1]; destruct Hh as [-> Hh]; [|done].
      simpl. destruct (_ || _); simpl; (split; [done|]); [done|auto].
    + destruct (Z.eqb_spec (ins_action i) WRITE_MEMORY) as [H3|H3]; [|done].
      simpl. split; [done|]. destruct (_ || _) eqn:Hv; [done|]. breflect. naive_solver.
Qed.

(** The held threads, up to their signals, and the memory are unchanged. *)
Record kept (s s' : helper) : Prop := {
  kept_tids : tids (held_threads s') = tids (held_threads s);
  kept_attached : map attached (held_threads s') = map attached (held_threads s);
  kept_traced : traced s' = traced s;
  kept_memory : memory s' = memory s
}.

#[local] Instance kept_transitive : Transitive kept.
Proof. intros s1 s2 s3 [] []. split; congruence. Qed.

Lemma wf_kept s s' : kept s s' -> wf s -> wf s'.
Proof.
  intros [H1 H2 H3 _] [Hb Htr Hnd Hat]. split.
  - apply (f_equal length) in H1. unfold tids in H1. rewrite !length_map in H1. lia.
  - congruence.
  - congruence.
  - apply (List.Forall_map attached (fun b => b = true)). rewrite H2. by apply List.Forall_map.
Qed.

(** A step only moves the thread it steps. *)
Record stepped (tid : Z) (s s' : helper) : Prop := {
  st_kept : kept s s';
  st_counters : forall t, t <> tid -> counters s' t = counters s t
}.

#[local] Instance stepped_transitive tid : Transitive (stepped tid).
Proof.
  intros s1 s2 s3 [K1 C1] [K2 C2]. split; [by etrans|]. intros t Ht.
  transitivity (counters s2 t); auto.
Qed.

Lemma quiet_kept s s' : quiet s s' -> kept s s'.
Proof. intros ((H1 & H2 & H3) & H4). split; congruence. Qed.

Lemma stepped_quiet tid s s' : quiet s s' -> stepped tid s s'.
Proof. intros Hq. split; [by apply quiet_kept|]. destruct Hq as ((_ & _ & H3) & _). congruence. Qed.

Lemma map_set_signal tid sig ts :
  tids (map (fun t => if held_tid t =? tid then mkHeldThread tid (attached t) sig else t) ts) = tids ts /\
  map attached (map (fun t => if held_tid t =? tid then mkHeldThread tid (attached t) sig else t) ts)
    = map attached ts.
Proof.
  induction ts as [|t ts [IH1 IH2]]; [done|]. unfold tids in *. simpl. rewrite IH1, IH2.
  destruct (Z.eqb_spec (held_tid t) tid); by subst.
Qed.

Lemma step_loop_spec i steps : forall err s,
  let '(r, s') := step_loop env steps i err s in
  stepped (ins_tid i) s s' /\
  (r.1 = PEAK_DETACH_HELPER_STATUS_OK ->
   pc_in_range (counters s' (ins_tid i)) (ins_address i) (ins_size i) = false).
Proof.
  induction steps as [|steps IH]; intros err s; cbn [step_loop];
    unfold peak_regs_get, hbind at 1 2, syscall at 1; cbn beta iota;
    (destruct (k_regs_get env (calls s) (ins_tid i) =? 0); cbn [negb]; [|by split; [apply stepped_quiet|]]).
  { simpl. destruct (pc_in_range _ _ _) eqn:Hp; (split; [by apply stepped_quiet|done]). }
  cbn [counters]. destruct (pc_in_range (counters s (ins_tid i)) _ _) eqn:Hp; cbn [negb].
  2: { simpl. split; [by apply stepped_quiet|]. done. }
  unfold hbind at 1, syscall at 1. cbn beta iota.
  destruct (k_single_step env _ _ =? 0); cbn [negb]; [|by split; [apply stepped_quiet|]].
  unfold set_data, wait_stop, hbind at 1 2 3 4, syscall. cbn beta iota.
  destruct (wait_for_single_step_stop _) as [e sig]. unfold hbind at 1.
  destruct (e =? 0) eqn:He; rewrite ?He; cbn [negb hret];
    [|rewrite ?He; split; [by apply stepped_quiet|by simpl; destruct (e =? ETIMEDOUT)]].
  unfold set_counter. cbn [held_threads traced memory counters calls sleeps responses].
  assert (Hs1 : forall pc c d, stepped (ins_tid i) s
    (mkHelper (held_threads s) (traced s) (memory s)
       (fun t => if t =? ins_tid i then pc else counters s t) c (sleeps s) (responses s) (payloads s) d)).
  { intros pc c d. split; [done|]. intros t Ht. simpl. by destruct (Z.eqb_spec t (ins_tid i)). }
  unfold hret at 1. cbn beta iota. rewrite He. cbn [negb]. destruct (sig =? SIGTRAP); cbn [negb].
  - match goal with |- context [step_loop env steps i err ?x] =>
      specialize (IH err x); destruct (step_loop env steps i err x) as [r s2] end.
    destruct IH as [H1 H2]. split; [by etrans; [apply Hs1|]|done].
  - unfold set_detach_signal, get_held, set_held, hbind, hret. simpl. split; [|done].
    destruct (map_set_signal (ins_tid i) sig (held_threads s)) as [H1 H2].
    match goal with |- stepped _ _ (mkHelper _ _ _ (fun t => if _ then ?pc else _) ?c _ _ _ ?d) =>
      destruct (Hs1 pc c d) end.
    split; done || by split.
Qed.

Lemma apply_single_step_spec i err s :
  let '(r, s') := apply_single_step_out_of_range_instruction env i err s in
  stepped (ins_tid i) s s' /\
  (r.1 = PEAK_DETACH_HELPER_STATUS_OK ->
   pc_in_range (counters s' (ins_tid i)) (ins_address i) (ins_size i) = false).
Proof.
  unfold apply_single_step_out_of_range_instruction, hbind.
  pose proof (held_and_attached_spec (ins_tid i) s) as Hh.
  destruct (held_and_attached (ins_tid i) s) as [[|] s1]; destruct Hh as [-> _]; [apply step_loop_spec|].
  by split; [apply stepped_quiet|].
Qed.

Lemma apply_set_pc_spec i err s :
  let '(r, s') := apply_set_pc_instruction env i err s in
  stepped (ins_tid i) s s' /\
  (r.1 = PEAK_DETACH_HELPER_STATUS_OK ->
   held_threads s' = held_threads s /\ counters s' (ins_tid i) = ins_pc i).
Proof.
  unfold apply_set_pc_instruction, hbind at 1.
  pose proof (held_and_attached_spec (ins_tid i) s) as Hh.
  destruct (held_and_attached (ins_tid i) s) as [[|] s1]; destruct Hh as [-> _];
    [|by split; [apply stepped_quiet|]].
  unfold peak_regs_get, peak_regs_set, set_counter, hbind, syscall, hret. simpl.
  destruct (k_regs_get env (calls s) _ =? 0); simpl; [|by split; [apply stepped_quiet|]].
  destruct (k_regs_set env _ _ =? 0) eqn:Hset; rewrite ?Hset; simpl;
    [|by split; [apply stepped_quiet|]].
  assert (Hst : forall c, stepped (ins_tid i) s
    (mkHelper (held_threads s) (traced s) (memory s)
       (fun t => if t =? ins_tid i then ins_pc i else counters s t) c (sleeps s) (responses s) (payloads s) (data s))).
  { intros c. split; [done|]. intros t Ht. simpl. by destruct (Z.eqb_spec t (ins_tid i)). }
  destruct (k_regs_get env _ _ =? 0); simpl; [|by split; [apply Hst|]].
  rewrite Z.eqb_refl. destruct (ins_pc i =? ins_pc i); simpl; (split; [apply Hst|done]).
Qed.

(** Each thread is named by at most one instruction. *)
Definition thread_instruction (i : PeakDetachHelperInstruction) : bool := negb (is_action WRITE_MEMORY i).

Definition one_per_thread (ins : list PeakDetachHelperInstruction) : Prop :=
  NoDup (map ins_tid (List.filter thread_instruction ins)).

Lemma one_per_thread_spec ins l1 i l2 j :
  one_per_thread ins -> l1 ++ i :: l2 = ins -> j ∈ l1 ->
  thread_instruction i = true -> thread_instruction j = true -> ins_tid i <> ins_tid j.
Proof.
  intros Hnd <- Hj Hi Hj' Heq. unfold one_per_thread in Hnd.
  rewrite List.filter_app, map_app in Hnd. simpl in Hnd. rewrite Hi in Hnd. simpl in Hnd.
  apply NoDup_app in Hnd as (_ & Hnd & _). apply (Hnd (ins_tid i)); [|left].
  rewrite Heq. apply list_elem_of_In, in_map, filter_In. split; [by apply list_elem_of_In|done].
Qed.

Lemma one_per_thread_inj ins i j :
  one_per_thread ins -> i ∈ ins -> j ∈ ins -> thread_instruction i = true -> thread_instruction j = true ->
  ins_tid i = ins_tid j -> i = j.
Proof.
  intros Hnd Hi Hj Hti Htj Heq. unfold one_per_thread in Hnd.
  assert (Hf : forall x, x ∈ ins -> thread_instruction x = true -> x ∈ List.filter thread_instruction ins).
  { intros x Hx Ht. apply list_elem_of_In, filter_In. by rewrite <- list_elem_of_In. }
  destruct (list_elem_of_lookup_1 _ _ (Hf i Hi Hti)) as [a Ha].
  destruct (list_elem_of_lookup_1 _ _ (Hf j Hj Htj)) as [b Hb].
  assert (a = b); [|by simplify_eq].
  apply (NoDup_lookup (map ins_tid (List.filter thread_instruction ins)) a b (ins_tid i) Hnd).
  - by apply (list_lookup_fmap_Some_2 ins_tid).
  - rewrite Heq. by apply (list_lookup_fmap_Some_2 ins_tid).
Qed.

(** A loop whose handler moves only the thread its instruction names. *)
Lemma thread_phase action handle (Q : PeakDetachHelperInstruction -> Z -> Prop) todo err started s :
  action <> WRITE_MEMORY -> one_per_thread todo ->
  (forall i err s, let '(r, s') := handle i err s in
     stepped (ins_tid i) s s' /\
     (r.1 = PEAK_DETACH_HELPER_STATUS_OK -> Q i (counters s' (ins_tid i)))) ->
  let '(status, _, started', s') := each_instruction (is_action action) handle todo err started s in
  kept s s' /\
  if bool_decide (status = PEAK_DETACH_HELPER_STATUS_OK) then
    (forall i, i ∈ todo -> ins_action i = action -> Q i (counters s' (ins_tid i))) /\
    (forall t, (forall i, i ∈ todo -> ins_action i = action -> ins_tid i <> t) ->
               counters s' t = counters s t)
  else started' = true.
Proof.
  intros Hact Hone Hhandle.
  pose (Inv := fun (dn : list PeakDetachHelperInstruction) s' => kept s s' /\
    (forall i, i ∈ dn -> ins_action i = action -> Q i (counters s' (ins_tid i))) /\
    (forall t, (forall i, i ∈ dn -> ins_action i = action -> ins_tid i <> t) ->
               counters s' t = counters s t)).
  pose proof (each_instruction_rule (is_action action) handle Inv (kept s) todo) as Hrule.
  assert (Hthread : forall i, ins_action i = action -> thread_instruction i = true).
  { intros i Hi. unfold thread_instruction, is_action. rewrite Hi. by apply negb_true_iff, Z.eqb_neq. }
  destruct (each_instruction (is_action action) handle todo err started s) as [[[st e] started'] s'] eqn:He.
  specialize (fun H1 H2 => Hrule H1 H2 todo [] err started s eq_refl). rewrite He in Hrule.
  assert (Hres : if bool_decide (st = PEAK_DETACH_HELPER_STATUS_OK) then Inv todo s'
                 else started' = true /\ kept s s').
  { apply Hrule; clear Hrule He.
    - intros dn i err' s1 [rest Hrest] (Hk & HQ & Hother) Hsel. unfold is_action in Hsel.
      apply Z.eqb_eq in Hsel. specialize (Hhandle i err' s1).
      destruct (handle i err' s1) as [[st' e'] s2]. destruct Hhandle as [Hst HQi].
      assert (Hk2 : kept s s2) by (etrans; [exact Hk|apply Hst]).
      case_bool_decide as Hok; [|done]. split_and!; [done| |].
      + intros j [Hj|Hj%list_elem_of_singleton]%elem_of_app Hja; [|subst; by apply HQi].
        rewrite (st_counters _ _ _ Hst); [by apply HQ|].
        intros Heq. eapply (one_per_thread_spec todo dn i rest j); eauto.
      + intros t Ht. rewrite (st_counters _ _ _ Hst).
        * apply Hother. intros j Hj. apply Ht. set_solver.
        * intros ->. eapply Ht; [|done|done]. set_solver.
    - intros dn i s1 (Hk & HQ & Hother) Hsel. unfold is_action in Hsel. apply Z.eqb_neq in Hsel.
      split_and!; [done| |].
      + intros j [Hj|Hj%list_elem_of_singleton]%elem_of_app Hja; [by apply HQ|by subst].
      + intros t Ht. apply Hother. intros j Hj. apply Ht. set_solver.
    - split_and!; [done|by intros i ?%not_elem_of_nil|done]. }
  case_bool_decide; [|naive_solver]. by destruct Hres as (? & ? & ?).
Qed.

Lemma write_phase todo err s :
  Forall wire_instruction todo -> Forall write_in_space todo ->
  Forall (valid_instruction (held_threads s)) todo ->
  let '(status, _, started, s') :=
    each_instruction (is_action WRITE_MEMORY) (apply_write_instruction env) todo err false s in
  same_table s s' /\
  if bool_decide (status = PEAK_DETACH_HELPER_STATUS_OK)
  then mem_eq (memory s') (fold_left instruction_write todo (memory s)) else started = true.
Proof.
  intros Hwire Hspace Hvalid.
  pose (Inv := fun (dn : list PeakDetachHelperInstruction) s' => same_table s s' /\
    mem_eq (memory s') (fold_left instruction_write dn (memory s))).
  pose proof (each_instruction_rule (is_action WRITE_MEMORY) (apply_write_instruction env) Inv
    (same_table s) todo) as Hrule.
  specialize (fun H1 H2 => Hrule H1 H2 todo [] err false s eq_refl).
  destruct (each_instruction _ _ todo err false s) as [[[st e] started'] s'] eqn:He.
  assert (Hres : if bool_decide (st = PEAK_DETACH_HELPER_STATUS_OK) then Inv todo s'
                 else started' = true /\ same_table s s').
  { apply Hrule; clear Hrule He; [| |done].
    - intros dn i err' s1 [rest Hrest] [Hk Hm] Hsel. apply Z.eqb_eq in Hsel.
      assert (Hi : i ∈ todo) by (rewrite <- Hrest; set_solver).
      rewrite Forall_forall in Hwire, Hspace, Hvalid.
      assert (Hmax : ins_size i <= PEAK_DETACH_HELPER_MAX_PATCH_BYTES).
      { destruct (Hvalid i Hi) as [(_ & _ & _ & ?)|[[Ha|Ha] _]]; [done|..]; by rewrite Ha in Hsel. }
      pose proof (apply_write_spec i err' s1 (Hwire i Hi) (Hspace i Hi) Hsel Hmax) as Hw.
      destruct (apply_write_instruction env i err' s1) as [[st' e'] s2]. destruct Hw as [Hw1 Hw2].
      assert (same_table s s2) by (by etrans).
      case_bool_decide; [|done]. split; [done|]. rewrite fold_left_app. simpl.
      rewrite (Hw2 ltac:(done)). unfold instruction_write, is_action. rewrite Hsel. simpl. by rewrite Hm.
    - intros dn i s1 [Hk Hm] Hsel. split; [done|]. rewrite fold_left_app. simpl.
      unfold instruction_write at 1. by rewrite Hsel. }
  case_bool_decide; [|naive_solver]. by destruct Hres.
Qed.

Lemma validate_phase todo s :
  let '(status, _, _, s') :=
    each_instruction (fun _ => true) (validate_instruction env) todo 0 false s in
  quiet s s' /\
  (status = PEAK_DETACH_HELPER_STATUS_OK -> Forall (valid_instruction (held_threads s)) todo).
Proof.
  pose (Inv := fun (dn : list PeakDetachHelperInstruction) s' =>
    quiet s s' /\ Forall (valid_instruction (held_threads s)) dn).
  pose proof (each_instruction_rule (fun _ => true) (validate_instruction env) Inv (quiet s) todo) as Hrule.
  specialize (fun H1 H2 => Hrule H1 H2 todo [] 0 false s eq_refl).
  destruct (each_instruction _ _ todo 0 false s) as [[[st e] started'] s'] eqn:He.
  assert (Hres : if bool_decide (st = PEAK_DETACH_HELPER_STATUS_OK) then Inv todo s'
                 else started' = true /\ quiet s s').
  { apply Hrule; clear Hrule He; [|done|by split].
    intros dn i err' s1 _ [Hq Hv] _. pose proof (validate_instruction_spec i err' s1) as Hi.
    destruct (validate_instruction env i err' s1) as [[st' e'] s2]. destruct Hi as [Hi1 Hi2].
    assert (quiet s s2).
    { destruct Hq as [Hq1 Hq2], Hi1 as [Hi1 Hi3]. split; [by etrans|congruence]. }
    case_bool_decide; [|done]. split; [done|]. apply Forall_app. split; [done|].
    constructor; [|done]. destruct Hq as [(Hh & _) _]. rewrite <- Hh. by apply Hi2. }
  case_bool_decide; [by destruct Hres|]. by destruct Hres.
Qed.

(** ** Evacuation *)

(** What a successful evacuation leaves. *)
Record evacuated (s : helper) (ins : list PeakDetachHelperInstruction) (s' : helper) : Prop := {
  ev_tids : tids (held_threads s') = tids (held_threads s);
  ev_traced : traced s' = traced s;
  ev_memory : mem_eq (memory s') (fold_left instruction_write ins (memory s));
  ev_set_pc : forall i, i ∈ ins -> ins_action i = SET_PC -> counters s' (ins_tid i) = ins_pc i;
  ev_stepped : forall i, i ∈ ins -> ins_action i = SINGLE_STEP_OUT_OF_RANGE ->
    pc_in_range (counters s' (ins_tid i)) (ins_address i) (ins_size i) = false;
  ev_others : forall t, (forall i, i ∈ ins -> thread_instruction i = true -> ins_tid i <> t) ->
    counters s' t = counters s t
}.

(** The threads stay held whatever the result; a failure that did not start
    the mutation leaves the memory alone. *)
Definition evacuation_kept (status : PeakDetachHelperStatus) (s s' : helper) (started : bool) : Prop :=
  wf s' /\ traced s' = traced s /\
  (status <> PEAK_DETACH_HELPER_STATUS_OK -> started = false -> memory s' = memory s).

Lemma quiet_evacuation status s s' started : wf s -> kept s s' -> evacuation_kept status s s' started.
Proof. intros Hw Hk. split_and!; [by eapply wf_kept|apply Hk|intros _ _; apply Hk]. Qed.

Lemma verify_quiet controller_tid err s :
  wf s -> let '(_, s') := verify_no_unstopped_threads env controller_tid err s in quiet s s'.
Proof.
  intros Hw. pose proof (verify_spec env controller_tid err s Hw) as Hv.
  destruct (verify_no_unstopped_threads env controller_tid err s) as [r s'].
  destruct Hv as (H1 & H2 & [H3 H4] & _). done.
Qed.

Lemma thread_instruction_action i :
  ins_action i = SET_PC \/ ins_action i = SINGLE_STEP_OUT_OF_RANGE -> thread_instruction i = true.
Proof. unfold thread_instruction, is_action. by intros [-> | ->]. Qed.

(** The last two phases, after the threads were stepped. *)
Lemma mutation_phases ins err s :
  wf s -> Forall wire_instruction ins -> Forall write_in_space ins -> one_per_thread ins ->
  Forall (valid_instruction (held_threads s)) ins ->
  let '(status, _, started, s') :=
    hbind (each_instruction (is_action WRITE_MEMORY) (apply_write_instruction env) ins err false)
      (fun r => let '(status, err, started) := r in
         if negb (bool_decide (status = PEAK_DETACH_HELPER_STATUS_OK)) then hret (status, err, started)
         else each_instruction (is_action SET_PC) (apply_set_pc_instruction env) ins err started) s in
  wf s' /\ traced s' = traced s /\ tids (held_threads s') = tids (held_threads s) /\
  if bool_decide (status = PEAK_DETACH_HELPER_STATUS_OK) then
    mem_eq (memory s') (fold_left instruction_write ins (memory s)) /\
    (forall i, i ∈ ins -> ins_action i = SET_PC -> counters s' (ins_tid i) = ins_pc i) /\
    (forall t, (forall i, i ∈ ins -> ins_action i = SET_PC -> ins_tid i <> t) ->
       counters s' t = counters s t)
  else started = true.
Proof.
  intros Hw Hwire Hspace Hone Hvalid. unfold hbind.
  pose proof (write_phase ins err s Hwire Hspace Hvalid) as Hwr.
  destruct (each_instruction (is_action WRITE_MEMORY) _ ins err false s) as [[[st e] started] s1].
  destruct Hwr as [(H1 & H2 & H3) Hmem].
  assert (Hw1 : wf s1) by (by eapply wf_same).
  case_bool_decide as Hok; simpl; [|rewrite bool_decide_eq_false_2 by done; by rewrite H1].
  pose proof (thread_phase SET_PC (apply_set_pc_instruction env) (fun i pc => pc = ins_pc i)
    ins e started s1 ltac:(done) Hone) as Hsp.
  destruct (each_instruction (is_action SET_PC) _ ins e started s1) as [[[st' e'] started'] s2].
  destruct Hsp as [Hk Hsp].
  { intros i err' s'. pose proof (apply_set_pc_spec i err' s') as Hi.
    destruct (apply_set_pc_instruction env i err' s') as [r s'']. naive_solver. }
  split_and!; [by eapply wf_kept|destruct Hk; congruence|destruct Hk; congruence|].
  case_bool_decide; [|done]. destruct Hsp as [Hq Ho]. split_and!; [|done|].
  - destruct Hk as [_ _ _ Hk]. by rewrite Hk.
  - intros t Ht. rewrite Ho by done. congruence.
Qed.

Lemma apply_instructions_spec controller_tid ins s :
  wf s -> Forall wire_instruction ins -> Forall write_in_space ins -> one_per_thread ins ->
  let '(status, _, started, s') := apply_instructions env controller_tid ins s in
  evacuation_kept status s s' started /\
  (status = PEAK_DETACH_HELPER_STATUS_OK -> evacuated s ins s').
Proof.
  intros Hw Hwire Hspace Hone. unfold apply_instructions, hbind at 1.
  pose proof (validate_phase ins s) as Hv.
  destruct (each_instruction (fun _ => true) _ ins 0 false s) as [[[st e] x] s1].
  destruct Hv as [Hq1 Hvalid]. pose proof (quiet_kept _ _ Hq1) as Hk1.
  case_bool_decide as Hok; cbn [negb]; [|by split; [apply quiet_evacuation|]]. specialize (Hvalid Hok).
  assert (Hw1 : wf s1) by (by eapply wf_kept).
  unfold hbind at 1. pose proof (verify_quiet controller_tid e s1 Hw1) as Hq2.
  destruct (verify_no_unstopped_threads env controller_tid e s1) as [[st2 e2] s2].
  assert (Hk2 : kept s s2) by (etrans; [done|by apply quiet_kept]).
  assert (Hw2 : wf s2) by (by eapply wf_kept).
  case_bool_decide as Hok2; cbn [negb]; [|by split; [apply quiet_evacuation|]].
  unfold hbind at 1.
  pose proof (thread_phase SINGLE_STEP_OUT_OF_RANGE (apply_single_step_out_of_range_instruction env)
    (fun i pc => pc_in_range pc (ins_address i) (ins_size i) = false) ins e2 false s2 ltac:(done) Hone
    ltac:(intros i err' s'; apply apply_single_step_spec)) as Hst.
  destruct (each_instruction (is_action SINGLE_STEP_OUT_OF_RANGE) _ ins e2 false s2)
    as [[[st3 e3] x3] s3]. destruct Hst as [Hk3 Hst].
  assert (Hk3' : kept s s3) by (by etrans).
  assert (Hw3 : wf s3) by (by eapply wf_kept).
  case_bool_decide as Hok3; cbn [negb]; [|by split; [apply quiet_evacuation|]].
  unfold hbind at 1. pose proof (verify_quiet controller_tid e3 s3 Hw3) as Hq4.
  destruct (verify_no_unstopped_threads env controller_tid e3 s3) as [[st4 e4] s4].
  assert (Hk4 : kept s s4) by (etrans; [done|by apply quiet_kept]).
  assert (Hw4 : wf s4) by (by eapply wf_kept).
  case_bool_decide as Hok4; cbn [negb]; [|by split; [apply quiet_evacuation|]].
  assert (Hvalid4 : Forall (valid_instruction (held_threads s4)) ins).
  { eapply Forall_impl; [exact Hvalid|]. intros i. unfold valid_instruction.
    by rewrite (kept_tids _ _ Hk4). }
  pose proof (mutation_phases ins e4 s4 Hw4 Hwire Hspace Hone Hvalid4) as Hmut.
  destruct (hbind (each_instruction (is_action WRITE_MEMORY) _ ins e4 false) _ s4)
    as [[[st5 e5] started] s5].
  destruct Hmut as (Hw5 & Htr & Htids & Hmut). destruct Hk4 as [K1 K2 K3 K4]. split.
  { split_and!; [done|congruence|]. by case_bool_decide; [|intros _ ->]. }
  intros ->. rewrite bool_decide_eq_true_2 in Hmut by done. destruct Hmut as (Hmem & Hset & Hoth).
  destruct Hst as [Hstep Hoth3].
  destruct Hq1 as [(_ & _ & C1) _], Hq2 as [(_ & _ & C2) _], Hq4 as [(_ & _ & C4) _].
  split; try congruence.
  - done.
  - intros i Hi Ha. rewrite Hoth, C4; [by apply Hstep|]. intros j Hj Hja Heq.
    pose proof (thread_instruction_action i ltac:(auto)) as Hti.
    pose proof (thread_instruction_action j ltac:(auto)) as Htj.
    rewrite (one_per_thread_inj ins j i Hone Hj Hi Htj Hti Heq) in Hja. by rewrite Ha in Hja.
  - intros t Ht. rewrite Hoth, C4, Hoth3; [congruence| |]; intros i Hi Ha;
      (apply Ht; [done|]); apply thread_instruction_action; auto.
Qed.

End Accesses.
