(* ===== verification/DetachHelperSession.v ===== *)
(** * The detach helper: whole commands and sessions

    What every command of [DetachHelper] leaves behind, for all answers of the
    kernel: the table of held threads, the outcome of a stop and of an
    evacuation, and the end of the stop loop. *)

From Stdlib Require Import String.
From S2P Require Import Prelude TargetSelector DetachHelper DetachHelperProofs DetachHelperWrites.

(** ** Programs that keep an invariant *)

Section Keeps.
Context (env : kernel_env) (I : helper -> Prop).

(** [I] does not depend on what the basic operations change. *)
Context (I_syscall : forall A (f : nat -> A), keeps I (syscall f))
  (I_memory : forall f, keeps I (set_memory f))
  (I_data : forall f, keeps I (set_data f))
  (I_counter : forall tid pc, keeps I (set_counter tid pc))
  (I_response : forall r, keeps I (add_response r))
  (I_detach : keeps I (detach_held_threads env))
  (I_signal : forall tid sig, keeps I (set_detach_signal tid sig)).

Lemma keeps_read {A} (f : helper -> A) : keeps I (fun s => (f s, s)).
Proof. by intros s Hs. Qed.

#[local] Hint Resolve I_syscall I_memory I_data I_counter I_response I_detach I_signal keeps_read : helper.

Lemma keeps_monotonic : keeps I (monotonic_milliseconds env).
Proof. intros s Hs. by apply I_syscall. Qed.

Lemma keeps_get_held : keeps I get_held.
Proof. apply keeps_read. Qed.

#[local] Hint Resolve keeps_monotonic keeps_get_held : helper.

Lemma keeps_send r : keeps I (send_response env r).
Proof. unfold send_response. walk. Qed.

Lemma keeps_regs_get tid : keeps I (peak_regs_get env tid).
Proof. unfold peak_regs_get. walk. Qed.

Lemma keeps_regs_set tid pc : keeps I (peak_regs_set env tid pc).
Proof. unfold peak_regs_set. walk. Qed.

Lemma keeps_held_and_attached tid : keeps I (held_and_attached tid).
Proof. unfold held_and_attached. walk. Qed.

Lemma keeps_wait wait tid : keeps I (wait_stop env wait tid).
Proof. unfold wait_stop. walk. Qed.

#[local] Hint Resolve keeps_send keeps_regs_get keeps_regs_set keeps_held_and_attached keeps_wait : helper.

Lemma keeps_list_tasks : keeps I (list_tasks env).
Proof. unfold list_tasks. walk. Qed.

#[local] Hint Resolve keeps_list_tasks : helper.

Lemma keeps_verify tid err : keeps I (verify_no_unstopped_threads env tid err).
Proof. unfold verify_no_unstopped_threads. walk. Qed.

Lemma keeps_cleanup status err : keeps I (cleanup_held_threads_or_release_failed env status err).
Proof. unfold cleanup_held_threads_or_release_failed. walk. Qed.

Lemma keeps_begin : keeps I (stop_begin env).
Proof. unfold stop_begin. walk. apply keeps_cleanup. Qed.

Lemma keeps_poke_words fuel : forall cursor start end_ bytes, keeps I (poke_words env fuel cursor start end_ bytes).
Proof.
  induction fuel as [|fuel IH]; intros; cbn [poke_words]; walk.
Qed.

Lemma keeps_peek_words fuel : forall cursor start end_ buffer, keeps I (peek_words env fuel cursor start end_ buffer).
Proof. induction fuel as [|fuel IH]; intros; cbn [peek_words]; walk. Qed.

#[local] Hint Resolve keeps_verify keeps_cleanup keeps_begin keeps_poke_words keeps_peek_words : helper.

Lemma keeps_write_tracee_memory address bytes size : keeps I (write_tracee_memory env address bytes size).
Proof.
  unfold write_tracee_memory, write_memory_via_proc_mem, write_memory_via_ptrace. walk.
Qed.

Lemma keeps_verify_tracee_memory address bytes size : keeps I (verify_tracee_memory env address bytes size).
Proof.
  unfold verify_tracee_memory, read_tracee_memory, read_memory_via_proc_mem, read_memory_via_ptrace. walk.
Qed.

#[local] Hint Resolve keeps_write_tracee_memory keeps_verify_tracee_memory : helper.

Lemma keeps_validate i err : keeps I (validate_instruction env i err).
Proof. unfold validate_instruction. walk. Qed.

Lemma keeps_apply_write i err : keeps I (apply_write_instruction env i err).
Proof. unfold apply_write_instruction. walk. Qed.

Lemma keeps_apply_set_pc i err : keeps I (apply_set_pc_instruction env i err).
Proof. unfold apply_set_pc_instruction. walk. Qed.

Lemma keeps_step_loop i steps : forall err, keeps I (step_loop env steps i err).
Proof. induction steps as [|steps IH]; intros; cbn [step_loop]; walk. Qed.

#[local] Hint Resolve keeps_step_loop : helper.

Lemma keeps_apply_step i err : keeps I (apply_single_step_out_of_range_instruction env i err).
Proof. unfold apply_single_step_out_of_range_instruction. walk. Qed.

Lemma keeps_each selected handle ins : (forall i err, keeps I (handle i err)) ->
  forall err started, keeps I (each_instruction selected handle ins err started).
Proof. intros Hh. induction ins as [|i ins IH]; intros; cbn [each_instruction]; walk. Qed.

#[local] Hint Resolve keeps_validate keeps_apply_write keeps_apply_set_pc keeps_apply_step keeps_each : helper.

Lemma keeps_apply_instructions tid ins : keeps I (apply_instructions env tid ins).
Proof. unfold apply_instructions. walk. Qed.

#[local] Hint Resolve keeps_apply_instructions : helper.

Lemma keeps_respond_then_detach e : keeps I (respond_then_detach env e).
Proof. unfold respond_then_detach. walk. Qed.

Lemma keeps_detach_then_respond e : keeps I (detach_then_respond env e).
Proof. unfold detach_then_respond. walk. Qed.

#[local] Hint Resolve keeps_respond_then_detach keeps_detach_then_respond : helper.

Lemma keeps_serve_evacuate request payload : keeps I (serve_evacuate env request payload).
Proof. unfold serve_evacuate. walk. Qed.

Lemma keeps_serve_resume request : keeps I (serve_resume env request).
Proof. unfold serve_resume. walk. Qed.

Lemma keeps_serve_shutdown request : keeps I (serve_shutdown env request).
Proof. unfold serve_shutdown. walk. Qed.

#[local] Hint Resolve keeps_serve_evacuate keeps_serve_resume keeps_serve_shutdown : helper.

(** A message keeps [I] when a stop does. *)
Lemma keeps_serve_one bound_pid message :
  (forall tid, keeps I (stop_target_threads env tid)) -> keeps I (serve_one env bound_pid message).
Proof.
  intros Hstop. assert (Hs : forall r, keeps I (serve_stop env r)).
  { intros r. unfold serve_stop. walk. }
  unfold serve_one. walk.
Qed.

End Keeps.

(** ** The table of held threads *)

Section Theorems.
Context (env : kernel_env).

Lemma detach_keeps_wf : keeps wf (detach_held_threads env).
Proof. intros s Hs. by apply detach_held_threads_spec. Qed.

Lemma signal_keeps_wf tid sig : keeps wf (set_detach_signal tid sig).
Proof.
  intros s Hs. destruct (map_set_signal tid sig (held_threads s)). by apply (wf_kept s).
Qed.

Lemma stop_keeps_wf tid : keeps wf (stop_target_threads env tid).
Proof.
  intros s Hs. pose proof (stop_target_threads_spec env tid (memory s) s Hs eq_refl) as Ho.
  destruct (stop_target_threads env tid s) as [[[[[] e] snaps]|] s']; simpl in *;
    destruct Ho as [Ho ?]; try exact Ho; by destruct Ho.
Qed.

Lemma serve_one_keeps_wf bound_pid message : keeps wf (serve_one env bound_pid message).
Proof.
  apply keeps_serve_one; [..|apply detach_keeps_wf|apply signal_keeps_wf|apply stop_keeps_wf];
    intros; intros s Hs; by apply (wf_same s).
Qed.

Lemma serve_protocol_keeps_wf messages : forall bound_pid, keeps wf (serve_protocol env bound_pid messages).
Proof.
  pose proof serve_one_keeps_wf.
  induction messages as [|m ms IH]; intros bound_pid; cbn [serve_protocol]; [apply keeps_ret|].
  apply keeps_bind; [auto|]. intros [code|]; [apply keeps_ret|auto].
Qed.

(** The helper when it starts. *)
Definition fresh (m c : Z -> Z) : helper := mkHelper [] ∅ m c 0 0 [] [] (fun _ => 0).

Lemma wf_fresh m c : wf (fresh m c).
Proof. split; simpl; [lia|done|constructor|constructor]. Qed.

(** C13: in every session, after any messages and for all answers of the
    kernel, the helper's table lists exactly the threads it traces, each once,
    and stays within its array. *)
Theorem held_table_exact messages m c :
  let s := (serve_protocol env 0 messages (fresh m c)).2 in
  traced s = list_to_set (tids (held_threads s)) /\ NoDup (tids (held_threads s)) /\
  (length (held_threads s) <= PEAK_DETACH_HELPER_MAX_THREADS)%nat.
Proof.
  intros s. destruct (serve_protocol_keeps_wf messages 0 (fresh m c) (wf_fresh m c)) as [Hb Ht Hn _].
  done.
Qed.

(** a stop that succeeds holds every task of a complete listing but the
    controller; it reports exactly the held threads, in order, with the program
    counters they stopped at, and changes no memory. *)
Theorem stop_reports_held controller_tid s snapshots err s' :
  wf s ->
  stop_target_threads env controller_tid s = (Some (PEAK_DETACH_HELPER_STATUS_OK, err, snapshots), s') ->
  wf s' /\ map snap_tid snapshots = tids (held_threads s') /\
  Forall (fun x => snap_status x = 0 /\ snap_pc x = counters s' (snap_tid x)) snapshots /\
  memory s' = memory s /\
  exists n, (k_readdir env n).2 = 0 /\
    forall name tid, name ∈ (k_readdir env n).1 -> parse_tid_name name = Some tid ->
      tid = controller_tid \/ tid ∈ traced s'.
Proof.
  intros Hw Hs. pose proof (stop_target_threads_spec env controller_tid (memory s) s Hw eq_refl) as Ho.
  rewrite Hs in Ho. destruct Ho as [[] ?]. done.
Qed.

(** when the task directory can always be opened, a stop that fails holds
    no thread afterwards, unless it reports that the release itself failed. *)
Theorem failed_stop_releases controller_tid s status err snapshots s' :
  (forall n, k_opendir env n = 0) -> wf s ->
  stop_target_threads env controller_tid s = (Some (status, err, snapshots), s') ->
  status <> PEAK_DETACH_HELPER_STATUS_OK ->
  status <> PEAK_DETACH_HELPER_STATUS_RELEASE_FAILED ->
  held_threads s' = [] /\ traced s' = ∅ /\ memory s' = memory s.
Proof.
  intros Hopen Hw Hs Hok Hrel.
  pose proof (stop_target_threads_spec env controller_tid (memory s) s Hw eq_refl) as Ho. rewrite Hs in Ho.
  assert (Hf : failed_stop env (memory s) status s') by (by destruct status).
  destruct Hf as (Hw' & Hm & _ & [?|[Hh|[n [_ Hn]]]]); [done| |by destruct Hn].
  split_and!; [done| |done]. by rewrite (wf_traced _ Hw'), Hh.
Qed.

(** ** What the controller reads back *)

(** At most one answer was sent, with this status. *)
Definition answered (status : PeakDetachHelperStatus) (s s' : helper) : Prop :=
  payloads s' = payloads s /\
  (responses s' = responses s \/ exists n e, responses s' = responses s ++ [mkResponse status n e]).

Definition log_is (r : list PeakDetachHelperResponse) (p : list (list PeakDetachHelperThreadSnapshot))
    (s : helper) : Prop := responses s = r /\ payloads s = p.

Lemma log_syscall r p A (f : nat -> A) : keeps (log_is r p) (syscall f).
Proof. by intros s Hs. Qed.

Lemma log_detach r p : keeps (log_is r p) (detach_held_threads env).
Proof.
  pose proof (log_syscall r p) as Hsys.
  assert (Hl : forall ts status err, keeps (log_is r p) (detach_loop env ts status err)).
  { assert (Htr : forall f, keeps (log_is r p) (set_traced f)) by (by intros f s Hs).
    induction ts as [|t ts IH]; intros status err; cbn [detach_loop];
      unfold ptrace_detach, task_vanished; walk. }
  unfold detach_held_threads. apply keeps_bind; [by intros s Hs|]. intros ts.
  apply keeps_bind; [auto|]. intros [[status err] retained]. by intros s Hs.
Qed.

Lemma send_spec response s :
  let '(_, s') := send_response env response s in
  held_threads s' = held_threads s /\ traced s' = traced s /\ same_code s s' /\
  payloads s' = payloads s /\ (responses s' = responses s \/ responses s' = responses s ++ [response]).
Proof.
  unfold send_response, hbind, syscall, add_response, hret.
  destruct (k_send env (calls s)); simpl; split_and!; auto; done.
Qed.

Lemma send_calls response s : (calls s < calls (send_response env response s).2)%nat.
Proof.
  unfold send_response, hbind, syscall, add_response, hret. simpl.
  destruct (k_send env (calls s)); simpl; lia.
Qed.

(** Sending a final status. *)
Lemma send_last status e (exit : option Z) s0 s :
  responses s = responses s0 -> payloads s = payloads s0 ->
  let '(exit', s') := hbind (send_response env (mkResponse status 0 e)) (fun _ => hret exit) s in
  exit' = exit /\ answered status s0 s' /\
  held_threads s' = held_threads s /\ traced s' = traced s /\ same_code s s'.
Proof.
  intros Hr Hp. unfold hbind, hret. pose proof (send_spec (mkResponse status 0 e) s) as Hs.
  destruct (send_response env _ s) as [b s']. destruct Hs as (H1 & H2 & H3 & H4 & H5).
  split_and!; [done| |done|done|done]. split; [congruence|]. rewrite <- Hr. destruct H5 as [H5|H5]; [by left|right; eauto].
Qed.

Lemma log_apply_instructions r p tid ins : keeps (log_is r p) (apply_instructions env tid ins).
Proof. apply keeps_apply_instructions; by intros; intros s Hs. Qed.

Lemma log_cleanup r p status e : keeps (log_is r p) (cleanup_held_threads_or_release_failed env status e).
Proof. apply keeps_cleanup. apply log_detach. Qed.

(** A resume that answers OK holds nothing. *)
Lemma serve_resume_spec request s :
  wf s -> request_instruction_count request = 0%nat ->
  let '(exit, s') := serve_resume env request s in
  exists status, exit = None /\ answered status s s' /\ wf s' /\ same_code s s' /\
    (status = PEAK_DETACH_HELPER_STATUS_OK -> held_threads s' = []).
Proof.
  intros Hw Hn. unfold serve_resume. rewrite Hn. cbn [negb Nat.eqb]. unfold hbind at 1.
  destruct (detach_held_threads_spec env s Hw) as (H1 & H2 & H3).
  pose proof (log_detach (responses s) (payloads s) s (conj eq_refl eq_refl)) as [H4 H5].
  destruct (detach_held_threads env s) as [[status e] s1]. cbn [fst snd] in *.
  pose proof (send_last status e None s s1 H4 H5) as Hl.
  destruct (hbind _ _ s1) as [exit s2]. destruct Hl as (-> & Ha & Hh & Ht & Hc).
  exists status. split_and!; [done|done|by eapply wf_same| |].
  - destruct H2, Hc. split; congruence.
  - intros Hok. rewrite Hh. by apply H3.
Qed.

(** What a stop sends: the snapshots of the held threads; or the answer OK
    alone, when the snapshots cannot be sent; or the status of a failure; or
    nothing. *)
Inductive stop_sent (controller_tid : Z) (exit : option Z) (s s' : helper) : Prop :=
  | SentSnapshots snapshots e :
      responses s' = responses s ++ [mkResponse PEAK_DETACH_HELPER_STATUS_OK (length snapshots) e] ->
      payloads s' = payloads s ++ [snapshots] ->
      exit = None -> stop_inv (memory s) snapshots s' -> covered env controller_tid s' -> stop_sent controller_tid exit s s'
  | SentOkOnly n e rest :
      responses s' = responses s ++ mkResponse PEAK_DETACH_HELPER_STATUS_OK n e :: rest ->
      payloads s' = payloads s -> stop_sent controller_tid exit s s'
  | SentFailure status n e :
      responses s' = responses s ++ [mkResponse status n e] -> payloads s' = payloads s ->
      failed_stop env (memory s) status s' -> stop_sent controller_tid exit s s'
  | SentNothing :
      responses s' = responses s -> payloads s' = payloads s -> stop_sent controller_tid exit s s'.

Lemma log_stop_rounds r p tid deadline rounds : forall snapshots err,
  keeps (log_is r p) (stop_rounds env rounds tid deadline snapshots err).
Proof.
  pose proof (log_syscall r p) as Hsys. pose proof (log_cleanup r p) as Hclean.
  assert (Hset : forall ts, keeps (log_is r p) (set_held ts)) by (by intros ts s Hs).
  assert (Htr : forall f, keeps (log_is r p) (set_traced f)) by (by intros f s Hs).
  assert (Hget : keeps (log_is r p) get_held) by (by intros s Hs).
  assert (Hsleep : keeps (log_is r p) usleep) by (by intros s Hs).
  assert (Hcount : forall t pc, keeps (log_is r p) (set_counter t pc)) by (by intros t pc s Hs).
  pose proof (keeps_wait env (log_is r p) Hsys Hcount) as Hwait.
  pose proof (keeps_regs_get env (log_is r p) Hsys) as Hregs.
  pose proof (keeps_monotonic env (log_is r p) Hsys) as Hmono.
  pose proof (keeps_list_tasks env (log_is r p) Hsys) as Hlist.
  assert (Hverify : forall t e, keeps (log_is r p) (verify_no_unstopped_threads env t e))
    by (intros t e; unfold verify_no_unstopped_threads; walk).
  assert (Hbegin : keeps (log_is r p) (stop_begin env)) by (unfold stop_begin; walk).
  assert (Hseize : forall t, keeps (log_is r p) (seize_thread env t))
    by (intros t; unfold seize_thread, ptrace_seize; walk).
  assert (Hretry : forall st e, keeps (log_is r p) (cleanup_or_retry_stop_snapshot env st e deadline))
    by (intros st e; unfold cleanup_or_retry_stop_snapshot; walk).
  assert (Hscan : forall names sn e, keeps (log_is r p) (scan_tasks env tid deadline names sn e))
    by (induction names as [|name names IHn]; intros sn e; cbn [scan_tasks]; walk).
  induction rounds as [|rounds IH]; intros snapshots err; cbn [stop_rounds]; [apply keeps_ret|].
  apply keeps_bind; [unfold stop_round; walk|]. intros flow. walk.
Qed.

Lemma cleanup_status intended e s :
  (cleanup_held_threads_or_release_failed env intended e s).1.1 = intended \/
  (cleanup_held_threads_or_release_failed env intended e s).1.1 = PEAK_DETACH_HELPER_STATUS_RELEASE_FAILED.
Proof.
  unfold cleanup_held_threads_or_release_failed, get_held, hbind.
  destruct (held_threads s); [by left|]. destruct (detach_held_threads env s) as [[st e'] s'].
  case_bool_decide; [by left|by right].
Qed.

(** Nothing sent since [s] but, maybe, an answer OK. *)
Definition ok_only (s s' : helper) : Prop :=
  payloads s' = payloads s /\
  (responses s' = responses s \/
   exists n e, responses s' = responses s ++ [mkResponse PEAK_DETACH_HELPER_STATUS_OK n e]).

Lemma stop_target_log tid s :
  let '(r, s') := stop_target_threads env tid s in
  match r with
  | Some (PEAK_DETACH_HELPER_STATUS_OK, e, sn) =>
      responses s' = responses s ++ [mkResponse PEAK_DETACH_HELPER_STATUS_OK (length sn) e] /\
      payloads s' = payloads s ++ [sn]
  | _ => ok_only s s'
  end.
Proof.
  unfold stop_target_threads, hbind at 1 2, monotonic_milliseconds, syscall. cbn beta iota.
  assert (Hb : keeps (log_is (responses s) (payloads s)) (stop_begin env)).
  { unfold stop_begin. apply keeps_bind; [apply log_cleanup|intros r; apply keeps_ret]. }
  match goal with |- context [stop_begin env ?x] => specialize (Hb x (conj eq_refl eq_refl)) end.
  destruct (stop_begin env _) as [[e|] s1]; [destruct Hb; split; auto|]. unfold hbind at 1.
  match goal with |- context [stop_rounds env ?n tid ?d [] 0 s1] =>
    pose proof (log_stop_rounds (responses s) (payloads s) tid d n [] 0 s1 Hb) as [Hr Hp];
    destruct (stop_rounds env n tid d [] 0 s1) as [r s2] end.
  cbn [fst snd] in Hr, Hp.
  destruct r as [[[[] e] snaps]|]; try (by split; [|left]).
  assert (Hclean : forall e' s', ok_only s s' ->
      let '(r, s'') := hbind (cleanup_held_threads_or_release_failed env PEAK_DETACH_HELPER_STATUS_PROTOCOL_ERROR e')
                       (fun r => hret (Some (r.1, r.2, []))) s' in
      match r with
      | Some (PEAK_DETACH_HELPER_STATUS_OK, e, sn) =>
          responses s'' = responses s ++ [mkResponse PEAK_DETACH_HELPER_STATUS_OK (length (sn : list PeakDetachHelperThreadSnapshot)) e] /\
          payloads s'' = payloads s ++ [sn]
      | _ => ok_only s s''
      end).
  { intros e' s' [Hp' Hr']. unfold hbind.
    pose proof (cleanup_status PEAK_DETACH_HELPER_STATUS_PROTOCOL_ERROR e' s') as Hst.
    pose proof (log_cleanup (responses s') (payloads s') PEAK_DETACH_HELPER_STATUS_PROTOCOL_ERROR e' s'
      (conj eq_refl eq_refl)) as [H1 H2].
    destruct (cleanup_held_threads_or_release_failed env _ e' s') as [[st x] s'']. cbn [fst snd] in *.
    destruct Hst as [-> | ->]; simpl; split; rewrite ?H1, ?H2; auto. }
  unfold send_response, add_response, add_payload, hbind at 1 2 3 4, syscall, hret. cbn beta iota.
  destruct (k_send env (calls s2)); cbn [hret]; unfold hbind at 1; cbn beta iota.
  - cbn [calls]. destruct (k_send env (S (calls s2))).
    + simpl. by rewrite Hr, Hp.
    + unfold hbind at 1. cbn beta iota. apply Hclean. split; [done|]. right. simpl. rewrite Hr. eauto.
  - unfold hbind at 1. cbn beta iota. apply Hclean. split; [done|]. by left.
Qed.

Lemma serve_stop_spec request s :
  wf s -> request_instruction_count request = 0%nat ->
  let '(exit, s') := serve_stop env request s in
  wf s' /\ memory s' = memory s /\ stop_sent (request_controller_tid request) exit s s'.
Proof.
  intros Hw Hn. unfold serve_stop. rewrite Hn. cbn [negb Nat.eqb].
  set (tid := request_controller_tid request).
  pose proof (stop_target_threads_spec env tid (memory s) s Hw eq_refl) as Ho.
  pose proof (stop_target_log tid s) as Hl. unfold hbind at 1.
  destruct (stop_target_threads env tid s) as [r s1].
  destruct r as [[[st e] sn]|].
  2: { destruct Ho as [? ?], Hl as [Hp [Hr|(n & e & Hr)]]; simpl; split_and!; try done;
       [by apply SentNothing|by eapply (SentOkOnly _ _ _ _ n e [])]. }
  case_bool_decide as Hok.
  { subst st. destruct Hl as [Hr Hp], Ho as [Hi Hc]. simpl.
    split_and!; [apply Hi|apply Hi|]. by eapply SentSnapshots. }
  assert (Hf : failed_stop env (memory s) st s1) by (by destruct st).
  assert (Hlog : ok_only s s1) by (by destruct st). destruct Hlog as [Hp Hr]. clear Ho Hl.
  unfold hbind. pose proof (send_spec (mkResponse st 0 e) s1) as Hs.
  pose proof (send_calls (mkResponse st 0 e) s1) as Hcalls.
  destruct (send_response env _ s1) as [b s2]. destruct Hs as (H1 & H2 & (H3 & _) & H4 & H5).
  destruct Hf as (Hw1 & Hm & Hne & Hrel). assert (Hw2 : wf s2) by (by eapply wf_same). simpl.
  split_and!; [done|congruence|].
  destruct Hr as [Hr|(n & e' & Hr)].
  - destruct H5 as [H5|H5]; rewrite Hr in H5; [apply SentNothing; congruence|].
    eapply SentFailure; [done|congruence|]. split_and!; [done|congruence|done|].
    destruct Hrel as [?|[Hh|?]]; [by left|right; left; congruence|right; right].
    destruct H as (k & Hk & ?). exists k. split; [simpl in Hcalls; lia|done].
  - destruct H5 as [H5|H5]; rewrite Hr in H5; rewrite <- ?app_assoc in H5;
      (eapply SentOkOnly; [done|congruence]).
Qed.

(** ** Evacuation *)

(** A loop that fails has handled an instruction. *)
Lemma each_started selected handle ins : forall err started (s : helper),
  let '(status, _, started', _) := each_instruction selected handle ins err started s in
  status = PEAK_DETACH_HELPER_STATUS_OK \/ started' = true.
Proof.
  induction ins as [|i ins IH]; intros err started s; cbn [each_instruction]; [by left|].
  destruct (selected i); [|apply IH]. unfold hbind. destruct (handle i err s) as [[st e] s1].
  case_bool_decide; [apply IH|by right].
Qed.

Lemma tids_keep_evacuation T tid ins :
  keeps (fun s => tids (held_threads s) = T) (apply_instructions env tid ins).
Proof.
  apply keeps_apply_instructions; try by intros; intros s Hs.
  intros t sig s Hs. simpl. destruct (map_set_signal t sig (held_threads s)) as [-> _]. done.
Qed.

(** Before the mutation starts the memory is untouched. *)
Lemma evacuation_memory tid ins s :
  let '(status, _, started, s') := apply_instructions env tid ins s in
  status <> PEAK_DETACH_HELPER_STATUS_OK -> started = false -> memory s' = memory s.
Proof.
  set (I := fun s' => memory s' = memory s).
  assert (Hsys : forall A (f : nat -> A), keeps I (syscall f)) by (by intros A f s' Hs).
  assert (Hdata : forall f, keeps I (set_data f)) by (by intros f s' Hs).
  assert (Hcount : forall t pc, keeps I (set_counter t pc)) by (by intros t pc s' Hs).
  assert (Hsig : forall t sig, keeps I (set_detach_signal t sig)) by (by intros t sig s' Hs).
  pose proof (keeps_each I (fun _ => true) (validate_instruction env) ins
    (keeps_validate env I Hsys)) as Hval.
  pose proof (keeps_verify env I Hsys) as Hver.
  pose proof (keeps_each I (is_action SINGLE_STEP_OUT_OF_RANGE)
    (apply_single_step_out_of_range_instruction env) ins (keeps_apply_step env I Hsys Hdata Hcount Hsig)) as Hstep.
  unfold apply_instructions, hbind at 1. specialize (Hval 0 false s eq_refl).
  destruct (each_instruction (fun _ => true) _ ins 0 false s) as [[[st e] x] s1]; cbn [snd] in Hval.
  destruct (negb _); [intros _ _; exact Hval|]. unfold hbind at 1. specialize (Hver tid e s1 Hval) as Hv2.
  destruct (verify_no_unstopped_threads env tid e s1) as [[st2 e2] s2]; cbn [snd] in Hv2.
  destruct (negb _); [intros _ _; exact Hv2|]. unfold hbind at 1. specialize (Hstep e2 false s2 Hv2).
  destruct (each_instruction (is_action SINGLE_STEP_OUT_OF_RANGE) _ ins e2 false s2) as [[[st3 e3] x3] s3];
    cbn [snd] in Hstep.
  destruct (negb _); [intros _ _; exact Hstep|]. unfold hbind at 1. specialize (Hver tid e3 s3 Hstep) as Hv4.
  destruct (verify_no_unstopped_threads env tid e3 s3) as [[st4 e4] s4]; cbn [snd] in Hv4.
  destruct (negb _); [intros _ _; exact Hv4|]. unfold hbind at 1.
  pose proof (each_started (is_action WRITE_MEMORY) (apply_write_instruction env) ins e4 false s4) as Hw.
  destruct (each_instruction (is_action WRITE_MEMORY) _ ins e4 false s4) as [[[st5 e5] x5] s5].
  case_bool_decide as Hok5; cbn [negb]; [|intros _ ->; destruct Hw as [?|Hw]; done].
  pose proof (each_started (is_action SET_PC) (apply_set_pc_instruction env) ins e5 x5 s5) as Hw6.
  destruct (each_instruction (is_action SET_PC) _ ins e5 x5 s5) as [[[st6 e6] x6] s6].
  intros Hne ->. destruct Hw6 as [?|Hw6]; done.
Qed.

Lemma detach_then_respond_exits e s :
  wf s -> let '(exit, s') := detach_then_respond env e s in
  exit = Some 1 /\ answered PEAK_DETACH_HELPER_STATUS_PROTOCOL_ERROR s s' /\ wf s' /\ memory s' = memory s.
Proof.
  intros Hw. unfold detach_then_respond, hbind at 1.
  destruct (detach_held_threads_spec env s Hw) as (H1 & H2 & _).
  pose proof (log_detach (responses s) (payloads s) s (conj eq_refl eq_refl)) as [H4 H5].
  destruct (detach_held_threads env s) as [r s1]. cbn [fst snd] in *.
  pose proof (send_last PEAK_DETACH_HELPER_STATUS_PROTOCOL_ERROR e (Some 1) s s1 H4 H5) as Hl.
  destruct (hbind _ _ s1) as [exit s2]. destruct Hl as (-> & Ha & Hh & Ht & Hc & _).
  split_and!; [done|done|by eapply wf_same|]. destruct H2. congruence.
Qed.

(** The outcomes of an evacuation: [Q] is what its success gives. *)
Definition evacuation_cases (Q : helper -> Prop) (s : helper) (exit : option Z) (s' : helper) : Prop :=
  exists status, answered status s s' /\ wf s' /\
  ((exit = None /\ status = PEAK_DETACH_HELPER_STATUS_OK /\ Q s') \/
   (exit = None /\ status <> PEAK_DETACH_HELPER_STATUS_OK /\
    status <> PEAK_DETACH_HELPER_STATUS_RELEASE_FAILED /\
    held_threads s' = [] /\ memory s' = memory s) \/
   (exit = Some 1 /\
    (status = PEAK_DETACH_HELPER_STATUS_RELEASE_FAILED \/ status = PEAK_DETACH_HELPER_STATUS_PROTOCOL_ERROR))).

Lemma evacuation_run (Q : helper -> Prop) request payload s :
  wf s ->
  (forall ins e x s1, payload = Some ins ->
     apply_instructions env (request_controller_tid request) ins s =
       (PEAK_DETACH_HELPER_STATUS_OK, e, x, s1) -> Q s1) ->
  (forall s1 s2, held_threads s2 = held_threads s1 -> traced s2 = traced s1 -> same_code s1 s2 ->
     Q s1 -> Q s2) ->
  let '(exit, s') := serve_evacuate env request payload s in evacuation_cases Q s exit s'.
Proof.
  intros Hw HQ Hstable.
  assert (Hexit : let '(exit, s') := detach_then_respond env EPROTO s in evacuation_cases Q s exit s').
  { pose proof (detach_then_respond_exits EPROTO s Hw) as Hd.
    destruct (detach_then_respond env EPROTO s) as [exit s']. destruct Hd as (-> & Ha & Hw' & _).
    eexists. split_and!; eauto. }
  unfold serve_evacuate. destruct payload as [ins|]; [|done]. destruct (_ <? _)%nat; [done|]. clear Hexit.
  unfold hbind at 1. set (tid := request_controller_tid request) in *.
  pose proof (evacuation_memory tid ins s) as Hmem. specialize (HQ ins).
  pose proof (log_apply_instructions (responses s) (payloads s) tid ins s (conj eq_refl eq_refl)) as [Hr1 Hp1].
  assert (Hw1 : keeps wf (apply_instructions env tid ins)).
  { apply keeps_apply_instructions; [..|apply signal_keeps_wf]; intros; intros s' Hs'; by apply (wf_same s'). }
  specialize (Hw1 s Hw).
  destruct (apply_instructions env tid ins s) as [[[st e] started] s1]. cbn [fst snd] in *.
  case_bool_decide as Hok; [|destruct started].
  - unfold hbind at 1, hret at 1. cbn beta iota.
    match goal with |- context [hret ?x] => pose proof (send_last st e x s s1 Hr1 Hp1) as Hl end.
    destruct (hbind _ _ s1) as [exit s2]. destruct Hl as (-> & Ha & H1 & H2 & H3). subst st.
    rewrite bool_decide_eq_false_2 by done.
    eexists. split_and!; [done|by eapply wf_same|]. left. split_and!; [done|done|].
    eapply Hstable; [done|done|done|]. by eapply HQ.
  - unfold hbind at 1, hret at 1. cbn beta iota.
    match goal with |- context [hret ?x] =>
      pose proof (send_last PEAK_DETACH_HELPER_STATUS_RELEASE_FAILED e x s s1 Hr1 Hp1) as Hl end.
    destruct (hbind _ _ s1) as [exit s2]. destruct Hl as (-> & Ha & H1 & H2 & _).
    eexists. split_and!; [done|by eapply wf_same|]. auto.
  - unfold hbind at 1. pose proof (cleanup_spec env st e s1 Hw1) as Hc.
    pose proof (log_cleanup (responses s) (payloads s) st e s1 (conj Hr1 Hp1)) as [Hr2 Hp2].
    destruct (cleanup_held_threads_or_release_failed env st e s1) as [[st2 e2] s2].
    destruct Hc as (Hw2 & (Hm2 & _) & Hc). cbn [fst snd] in *.
    match goal with |- context [hret ?x] => pose proof (send_last st2 e2 x s s2 Hr2 Hp2) as Hl end.
    destruct (hbind _ _ s2) as [exit s3]. destruct Hl as (-> & Ha & H1 & H2 & H3 & _).
    exists st2. split_and!; [done|by eapply wf_same|].
    case_bool_decide as Hr; [subst st2; auto|]. right. left.
    destruct Hc as [[-> Hh]|?]; [|done]. split_and!; [done|done|done|congruence|].
    rewrite H3, Hm2. by apply Hmem.
Qed.

(** Whatever its instructions, an evacuation that succeeds holds the same
    threads; what else it leaves when the instructions are as a plan has them. *)
Definition evacuated_by (s : helper) (ins : list PeakDetachHelperInstruction) (s' : helper) : Prop :=
  tids (held_threads s') = tids (held_threads s) /\
  (Forall wire_instruction ins -> Forall write_in_space ins -> one_per_thread ins -> evacuated s ins s').

Lemma evacuated_stable s ins s1 s2 :
  held_threads s2 = held_threads s1 -> traced s2 = traced s1 -> same_code s1 s2 ->
  evacuated s ins s1 -> evacuated s ins s2.
Proof. intros H1 H2 [H3 H4] []. split; by rewrite ?H1, ?H2, ?H3, ?H4. Qed.

Lemma evacuation_safe request ins s :
  wf s ->
  let '(exit, s') := serve_evacuate env request (Some ins) s in
  evacuation_cases (evacuated_by s ins) s exit s'.
Proof.
  intros Hw. apply (evacuation_run (evacuated_by s ins)); [done| |].
  - intros ins' e x s1 Heq Hrun. simplify_eq. split.
    + pose proof (tids_keep_evacuation (tids (held_threads s)) (request_controller_tid request) ins' s eq_refl) as Ht.
      by rewrite Hrun in Ht.
    + intros Hwire Hspace Hone.
      pose proof (apply_instructions_spec env (request_controller_tid request) ins' s Hw Hwire Hspace Hone) as Ha.
      rewrite Hrun in Ha. by apply Ha.
  - intros s1 s2 H1 H2 H3 [Ht He]. split; [by rewrite H1|]. intros. eapply evacuated_stable; eauto.
Qed.

(** C12: an evacuation of instructions that name each thread at most once has
    one of three outcomes.  It answers OK, keeps the same threads held, has
    written exactly the requested bytes, set every requested program counter,
    moved every stepped thread out of its range and no other thread.  Or it
    answers an error having changed no memory and released every thread.  Or it
    answers an error and ends. *)
Theorem evacuation_outcome request instructions s :
  wf s -> Forall wire_instruction instructions -> Forall write_in_space instructions ->
  one_per_thread instructions ->
  let '(exit, s') := serve_evacuate env request (Some instructions) s in
  evacuation_cases (evacuated s instructions) s exit s'.
Proof.
  intros Hw Hwire Hspace Hone. pose proof (evacuation_safe request instructions s Hw) as He.
  destruct (serve_evacuate env request (Some instructions) s) as [exit s'].
  destruct He as (status & Ha & Hw' & Hcases). exists status. split_and!; [done|done|].
  destruct Hcases as [(-> & -> & _ & Hev)|?]; [left|by right]. split_and!; [done|done|]. by apply Hev.
Qed.

End Theorems.

(** ** The end of the stop loop *)

Section Ends.
Context (env : kernel_env).

(** The monotonic clock never goes back, and a sleep of a millisecond moves
    it by one at least. *)
Definition clock_advances : Prop := forall c n c' n', (c <= c')%nat -> (n <= n')%nat ->
  k_milliseconds env c n + Z.of_nat (n' - n) <= k_milliseconds env c' n'.

(** At least [c] calls were made, and [n] sleeps. *)
Definition at_least (c n : nat) (s : helper) : Prop := (c <= calls s)%nat /\ sleeps s = n.

Lemma at_least_syscall c n A (f : nat -> A) : keeps (at_least c n) (syscall f).
Proof. intros s [? ?]. split; simpl; [lia|done]. Qed.

Lemma detach_loop_at_least c n ts : forall status err,
  keeps (at_least c n) (detach_loop env ts status err).
Proof.
  pose proof (at_least_syscall c n).
  assert (Htr : forall f, keeps (at_least c n) (set_traced f)) by (by intros f s Hs).
  induction ts as [|t ts IH]; intros status err; cbn [detach_loop];
    unfold ptrace_detach, task_vanished; walk.
Qed.

Lemma detach_at_least c n : keeps (at_least c n) (detach_held_threads env).
Proof.
  unfold detach_held_threads. pose proof (detach_loop_at_least c n).
  apply keeps_bind; [by intros s Hs|]. intros ts. apply keeps_bind; [auto|].
  intros [[status err] retained]. by intros s Hs.
Qed.

Ltac at_least := apply keeps_cleanup || apply keeps_begin || apply keeps_verify;
  first [apply at_least_syscall|apply detach_at_least|by intros; intros s Hs].

Lemma seize_at_least c n tid : keeps (at_least c n) (seize_thread env tid).
Proof.
  pose proof (at_least_syscall c n) as Hsys.
  assert (Hset : forall ts, keeps (at_least c n) (set_held ts)) by (by intros ts s Hs).
  assert (Htr : forall f, keeps (at_least c n) (set_traced f)) by (by intros f s Hs).
  assert (Hget : keeps (at_least c n) get_held) by (by intros s Hs).
  assert (Hcount : forall t pc, keeps (at_least c n) (set_counter t pc)) by (by intros t pc s Hs).
  pose proof (keeps_wait env (at_least c n) Hsys Hcount) as Hwait.
  pose proof (keeps_regs_get env (at_least c n) Hsys) as Hregs.
  unfold seize_thread, ptrace_seize. walk.
Qed.

(** A round that goes on has slept once, before the deadline. *)
Definition goes_on (c n : nat) (deadline : Z) (s' : helper) : Prop :=
  at_least c (S n) s' /\ exists c', (c <= c')%nat /\ k_milliseconds env c' n < deadline.

Definition flow_slept (c n : nat) (deadline : Z) (flow : stop_flow) (s' : helper) : Prop :=
  match flow with
  | StopAgain _ _ | StopRestart => goes_on c n deadline s'
  | StopNext _ _ => at_least c n s'
  | StopReturn _ _ => True
  end.

Lemma retry_slept c n status e deadline s :
  at_least c n s ->
  let '(_, _, retry, s') := cleanup_or_retry_stop_snapshot env status e deadline s in
  retry = true -> goes_on c n deadline s'.
Proof.
  intros Hs. unfold cleanup_or_retry_stop_snapshot, hbind at 1.
  assert (Hc : keeps (at_least c n) (cleanup_held_threads_or_release_failed env status e)) by at_least.
  specialize (Hc s Hs).
  destruct (cleanup_held_threads_or_release_failed env status e s) as [[st e'] s1]. simpl in Hc.
  destruct (negb _); [done|]. destruct (negb _); [done|].
  unfold monotonic_milliseconds, syscall, usleep, hbind, hret. simpl. destruct Hc as [Hc1 Hc2].
  destruct (Z.leb_spec deadline (k_milliseconds env (calls s1) (sleeps s1))); simpl; [done|]. intros _.
  split; [split; simpl; lia|]. exists (calls s1). rewrite <- Hc2. done.
Qed.

Lemma scan_slept c n controller_tid deadline names : forall snapshots err s,
  at_least c n s ->
  let '(flow, s') := scan_tasks env controller_tid deadline names snapshots err s in
  flow_slept c n deadline flow s'.
Proof.
  induction names as [|name names IH]; intros snapshots err s Hs; [done|].
  cbn [scan_tasks]. unfold get_held, hbind at 1. cbn beta iota.
  destruct (parse_tid_name name) as [tid|]; [|by apply IH].
  destruct (_ || _); [by apply IH|]. destruct (_ || _).
  { unfold hbind. by destruct (cleanup_held_threads_or_release_failed _ _ _ _) as [[? ?] ?]. }
  unfold hbind at 1. pose proof (seize_at_least c n tid s Hs) as Hz.
  destruct (seize_thread env tid s) as [[pc|st e] s1]; [by apply IH|].
  unfold hbind. pose proof (retry_slept c n st e deadline s1 Hz) as Hr.
  destruct (cleanup_or_retry_stop_snapshot _ _ _ _ _) as [[[st' e'] [|]] s2]; simpl; auto.
Qed.

Lemma round_slept c n controller_tid deadline snapshots err s :
  at_least c n s ->
  let '(flow, s') := stop_round env controller_tid deadline snapshots err s in
  flow_slept c n deadline flow s'.
Proof.
  intros Hs. unfold stop_round, list_tasks, hbind at 1 2, syscall at 1.
  destruct (k_opendir env (calls s) =? 0); cbn [hret]; [|done].
  unfold hbind at 1, syscall at 1. cbn [hret fst snd]. destruct (k_readdir env _) as [names end_errno].
  unfold hbind at 1. pose proof (scan_slept c n controller_tid deadline names snapshots err) as Hscan.
  match goal with |- context [scan_tasks _ _ _ _ _ _ ?x] => specialize (Hscan x) end.
  destruct (scan_tasks env controller_tid deadline names snapshots err _) as [flow s1].
  assert (Hf := Hscan ltac:(destruct Hs; split; simpl; [lia|done])). clear Hscan.
  assert (Hclean : forall st e s', let '(flow, s'') :=
      hbind (cleanup_held_threads_or_release_failed env st e) (fun r => hret (StopReturn r.1 r.2)) s' in
      flow_slept c n deadline flow s'').
  { intros st e s'. unfold hbind. by destruct (cleanup_held_threads_or_release_failed _ _ _ _). }
  destruct flow as [snaps e|? ?| |st e]; [|done..].
  destruct (negb (end_errno =? 0)); [apply Hclean|].
  unfold hbind at 1.
  assert (Hv : keeps (at_least c n) (verify_no_unstopped_threads env controller_tid e)) by at_least.
  specialize (Hv s1 Hf). destruct (verify_no_unstopped_threads env controller_tid e s1) as [[vst ve] s2].
  case_bool_decide; [done|]. destruct (bool_decide _ && _); [|apply Hclean].
  unfold hbind at 1, monotonic_milliseconds, syscall. cbn beta iota. destruct Hv as [Hv1 Hv2]. simpl in *.
  destruct (Z.leb_spec deadline (k_milliseconds env (calls s2) (sleeps s2))); [apply Hclean|].
  simpl. split; [split; simpl; lia|]. exists (calls s2). by rewrite <- Hv2.
Qed.

Lemma stop_rounds_end c0 n0 controller_tid rounds : clock_advances ->
  forall n snapshots err s,
  at_least c0 (n0 + n) s -> (PEAK_DETACH_HELPER_STOP_TIMEOUT_MS < Z.of_nat (rounds + n)) ->
  (stop_rounds env rounds controller_tid
     (k_milliseconds env c0 n0 + PEAK_DETACH_HELPER_STOP_TIMEOUT_MS) snapshots err s).1 <> None \/
  (rounds = 0)%nat.
Proof.
  intros Hclock. induction rounds as [|rounds IH]; intros n snapshots err s Hs Hr; [by right|left].
  cbn [stop_rounds]. unfold hbind at 1.
  set (deadline := k_milliseconds env c0 n0 + PEAK_DETACH_HELPER_STOP_TIMEOUT_MS) in *.
  pose proof (round_slept c0 (n0 + n) controller_tid deadline snapshots err s Hs) as Hf.
  destruct (stop_round env controller_tid deadline snapshots err s) as [flow s1].
  assert (Hnext : forall sn e s2, goes_on c0 (n0 + n) deadline s1 -> at_least c0 (S (n0 + n)) s2 ->
    (stop_rounds env rounds controller_tid deadline sn e s2).1 <> None).
  { intros sn e s2 [_ (c' & Hc' & Hk)] Hs2.
    pose proof (Hclock c0 n0 c' (n0 + n)%nat Hc' ltac:(lia)) as Hcl. unfold deadline in Hk.
    destruct (IH (S n) sn e s2) as [?|?]; [|lia|done|].
    - destruct Hs2. split; [done|lia].
    - lia. }
  destruct flow as [sn e|sn e| |st e]; simpl in Hf; [done|by apply Hnext; [|destruct Hf]| |done].
  unfold hbind at 1. assert (Hb : keeps (at_least c0 (S (n0 + n))) (stop_begin env)) by at_least.
  specialize (Hb s1 (proj1 Hf)). destruct (stop_begin env s1) as [[e|] s2]; [done|by apply Hnext].
Qed.

(** when the clock advances, a stop always gives a result: within its five
    seconds it succeeds or reports a failure. *)
Theorem stop_terminates controller_tid s :
  clock_advances -> (stop_target_threads env controller_tid s).1 <> None.
Proof.
  intros Hclock. unfold stop_target_threads, hbind at 1 2, monotonic_milliseconds, syscall. cbn beta iota.
  assert (Hb : keeps (at_least (calls s) (sleeps s)) (stop_begin env)) by at_least.
  match goal with |- context [stop_begin env ?x] => specialize (Hb x ltac:(split; simpl; [lia|done])) end.
  destruct (stop_begin env _) as [[e|] s1]; [done|]. unfold hbind at 1.
  pose proof (stop_rounds_end (calls s) (sleeps s) controller_tid STOP_ROUNDS Hclock 0 [] 0 s1) as Hr.
  rewrite Nat.add_0_r in Hr. specialize (Hr Hb ltac:(vm_compute; done)).
  destruct (stop_rounds env STOP_ROUNDS controller_tid _ [] 0 s1) as [[[[st e] sn]|] s2].
  2: { destruct Hr; done. }
  clear Hr. destruct st; try done. unfold hbind.
  destruct (send_response env _ s2) as [[] s3]; simpl; [destruct (k_send env (calls s3)); [done|]|];
    simpl; by destruct (cleanup_held_threads_or_release_failed _ _ _ _).
Qed.

End Ends.

(** ** Words and bytes *)

Lemma poke_words_succeed env fuel : (forall n, k_peek env n = 0) -> (forall n, k_poke env n = 0) ->
  forall cursor start end_ bytes s, (poke_words env fuel cursor start end_ bytes s).1 = None.
Proof.
  intros Hpeek Hpoke. induction fuel as [|fuel IH]; intros cursor start end_ bytes s; [done|].
  cbn [poke_words]. destruct (cursor <? end_); [|done].
  destruct (word_chunk cursor end_) as [[aligned offset] chunk].
  unfold hbind, syscall, set_memory. simpl. rewrite Hpeek. simpl. rewrite Hpoke. simpl. apply IH.
Qed.

(** writing through ptrace reads, changes and writes back whole aligned
    words; when the kernel answers every access, the loop succeeds and the
    memory is as if exactly the bytes had been written. *)
Theorem ptrace_write_is_byte_write env address bytes s :
  (forall n, k_peek env n = 0) -> (forall n, k_poke env n = 0) -> held_threads s <> [] ->
  0 <= address -> address + Z.of_nat (length bytes) < 2 ^ 64 ->
  let '(e, s') := write_memory_via_ptrace env address bytes s in
  e = None /\ forall a, memory s' a = write_bytes (memory s) address bytes a.
Proof.
  intros Hpeek Hpoke Hheld Ha Hend. unfold write_memory_via_ptrace, get_held, hbind.
  destruct (held_threads s); [done|]. rewrite wrap_small by lia.
  pose proof (poke_words_spec env (memory s) address bytes Ha (length bytes) address s
    ltac:(lia) ltac:(lia)) as Hp.
  pose proof (poke_words_succeed env (length bytes) Hpeek Hpoke address address
    (address + Z.of_nat (length bytes)) bytes s) as He.
  destruct (poke_words env _ _ _ _ bytes s) as [e s']. simpl in He. split; [done|].
  destruct Hp as [_ Hp]; [|by apply Hp].
  intros a. rewrite Z.sub_diag. symmetry. apply write_bytes_out. simpl. lia.
Qed.

(** ** Concrete runs *)

(** A kernel where everything succeeds: the tasks are the controller 1 and the
    threads 100 and 101. *)
Definition demo_kernel : kernel_env := {|
  k_seize := fun _ _ => 0; k_interrupt := fun _ _ => 0;
  k_wait := fun _ _ => [WaitNothing 5000 SIGCHLD 0; WaitStopped PTRACE_EVENT_STOP SIGTRAP];
  k_stop_pc := fun _ tid => 4096 + tid;
  k_detach := fun _ _ => 0; k_task_gone := fun _ _ => false;
  k_regs_get := fun _ _ => 0; k_regs_set := fun _ _ => 0; k_single_step := fun _ _ => 0;
  k_step_data := fun n tid d a => d a + Z.of_nat n + tid;
  k_opendir := fun _ => 0;
  k_readdir := fun _ => ([TargetSelector.bytes "."; TargetSelector.bytes "1";
                          TargetSelector.bytes "100"; TargetSelector.bytes "101"], 0);
  k_pwrite := fun _ => inl EIO; k_pread := fun _ => inl EIO; k_peek := fun _ => 0; k_poke := fun _ => 0;
  k_milliseconds := fun _ n => Z.of_nat n; k_send := fun _ => true; k_send_errno := fun _ => 0;
  k_garbage := [] |}.

Definition demo_state : helper := fresh (fun a => a mod 256) (fun _ => 0).
Definition demo_stopped : helper := (stop_target_threads demo_kernel 1 demo_state).2.

Lemma pair_run {A B} (p : A * B) a : p.1 = a -> p = (a, p.2).
Proof. destruct p. by intros <-. Qed.

Lemma stop_reports_held_witness :
  exists snapshots s', stop_target_threads demo_kernel 1 demo_state =
    (Some (PEAK_DETACH_HELPER_STATUS_OK, 0, snapshots), s') /\
  map snap_tid snapshots = tids (held_threads s').
Proof.
  exists [mkThreadSnapshot 100 0 4196; mkThreadSnapshot 101 0 4197],
    (stop_target_threads demo_kernel 1 demo_state).2.
  assert (H : (stop_target_threads demo_kernel 1 demo_state).1 =
    Some (PEAK_DETACH_HELPER_STATUS_OK, 0, [mkThreadSnapshot 100 0 4196; mkThreadSnapshot 101 0 4197]))
    by (vm_compute; reflexivity).
  apply pair_run in H. split; [exact H|].
  exact (proj1 (proj2 (stop_reports_held demo_kernel 1 demo_state _ 0 _ (wf_fresh _ _) H))).
Defined.

(** A kernel that lets no thread be interrupted. *)
Definition refusing_kernel : kernel_env := {|
  k_seize := k_seize demo_kernel; k_interrupt := fun _ tid => if tid =? 101 then EPERM else 0;
  k_wait := k_wait demo_kernel; k_stop_pc := k_stop_pc demo_kernel; k_detach := k_detach demo_kernel;
  k_task_gone := k_task_gone demo_kernel; k_regs_get := k_regs_get demo_kernel;
  k_regs_set := k_regs_set demo_kernel; k_single_step := k_single_step demo_kernel;
  k_step_data := k_step_data demo_kernel;
  k_opendir := k_opendir demo_kernel; k_readdir := k_readdir demo_kernel;
  k_pwrite := k_pwrite demo_kernel; k_pread := k_pread demo_kernel; k_peek := k_peek demo_kernel;
  k_poke := k_poke demo_kernel; k_milliseconds := k_milliseconds demo_kernel;
  k_send := k_send demo_kernel; k_send_errno := k_send_errno demo_kernel;
  k_garbage := [] |}.

Lemma failed_stop_releases_witness :
  exists s', (stop_target_threads refusing_kernel 1 demo_state).1 =
    Some (PEAK_DETACH_HELPER_STATUS_PERMISSION_DENIED, EPERM, []) /\
  (stop_target_threads refusing_kernel 1 demo_state).2 = s' /\ traced s' = ∅.
Proof.
  assert (H : (stop_target_threads refusing_kernel 1 demo_state).1 =
    Some (PEAK_DETACH_HELPER_STATUS_PERMISSION_DENIED, EPERM, [])) by (vm_compute; reflexivity).
  exists (stop_target_threads refusing_kernel 1 demo_state).2. split; [exact H|]. split; [reflexivity|].
  apply pair_run in H.
  exact (proj1 (proj2 (failed_stop_releases refusing_kernel 1 demo_state _ _ _ _ (fun _ => eq_refl)
    (wf_fresh _ _) H ltac:(discriminate) ltac:(discriminate)))).
Defined.

Lemma demo_clock : clock_advances demo_kernel.
Proof. intros c n c' n' Hc Hn. simpl. lia. Qed.

Lemma stop_terminates_witness : (stop_target_threads demo_kernel 1 demo_state).1 <> None.
Proof. exact (stop_terminates demo_kernel 1 demo_state demo_clock). Defined.

Lemma ptrace_write_is_byte_write_witness :
  (write_memory_via_ptrace demo_kernel 13 [1; 2; 3; 4; 5] demo_stopped).1 = None /\ held_threads demo_stopped <> [].
Proof.
  assert (Hh : held_threads demo_stopped <> []) by (intros H; vm_compute in H; discriminate H).
  split; [|exact Hh].
  pose proof (ptrace_write_is_byte_write demo_kernel 13 [1; 2; 3; 4; 5] demo_stopped
    (fun _ => eq_refl) (fun _ => eq_refl) Hh ltac:(done) ltac:(done)) as Hw.
  destruct (write_memory_via_ptrace demo_kernel 13 [1; 2; 3; 4; 5] demo_stopped). exact (proj1 Hw).
Defined.

(** Thread 100 is moved and four bytes at 4195 are rewritten. *)
Definition demo_instructions : list PeakDetachHelperInstruction :=
  [mkInstruction 100 SET_PC 8192 0 0 (replicate 32 0);
   mkInstruction 101 SINGLE_STEP_OUT_OF_RANGE 0 4096 4 (replicate 32 0);
   mkInstruction 0 WRITE_MEMORY 0 4195 4 (replicate 32 144)].

Lemma evacuation_outcome_witness :
  let '(exit, s') := serve_evacuate demo_kernel (mkRequest PEAK_DETACH_HELPER_MAGIC 1
     PEAK_DETACH_HELPER_CMD_EVACUATE 7 1 3) (Some demo_instructions) demo_stopped in
  exit = None /\ counters s' 100 = 8192 /\
  evacuation_cases (evacuated demo_stopped demo_instructions) demo_stopped exit s'.
Proof.
  set (req := DetachHelper.mkRequest PEAK_DETACH_HELPER_MAGIC 1 PEAK_DETACH_HELPER_CMD_EVACUATE 7 1 3).
  assert (Hw : wf demo_stopped) by (apply (stop_keeps_wf demo_kernel 1), wf_fresh).
  pose proof (evacuation_outcome demo_kernel req demo_instructions demo_stopped Hw) as Ho.
  assert (H1 : (serve_evacuate demo_kernel req (Some demo_instructions) demo_stopped).1 = None)
    by (vm_compute; reflexivity).
  assert (H2 : counters (serve_evacuate demo_kernel req (Some demo_instructions) demo_stopped).2 100 = 8192)
    by (vm_compute; reflexivity).
  destruct (serve_evacuate demo_kernel req (Some demo_instructions) demo_stopped) as [exit s'].
  split; [exact H1|]. split; [exact H2|]. apply Ho.
  - unfold demo_instructions. rewrite !Forall_cons. unfold wire_instruction.
    cbn [ins_bytes ins_address ins_size]. rewrite !length_replicate. by split_and!; try lia.
  - unfold demo_instructions. rewrite !Forall_cons. unfold write_in_space.
    cbn [ins_action ins_address ins_size]. split_and!; done.
  - apply (bool_decide_unpack _). vm_compute. exact I.
Defined.

(** The descriptors run out between two rounds: a thread appeared after the
    first listing, and the next [opendir] fails. *)
Definition starved_kernel : kernel_env := {|
  k_seize := k_seize demo_kernel; k_interrupt := k_interrupt demo_kernel;
  k_wait := k_wait demo_kernel; k_stop_pc := k_stop_pc demo_kernel; k_detach := k_detach demo_kernel;
  k_task_gone := k_task_gone demo_kernel; k_regs_get := k_regs_get demo_kernel;
  k_regs_set := k_regs_set demo_kernel; k_single_step := k_single_step demo_kernel;
  k_step_data := k_step_data demo_kernel;
  k_opendir := fun n => if (n <? 10)%nat then 0 else 24;
  k_readdir := fun n => (if (n <? 4)%nat then [TargetSelector.bytes "1"; TargetSelector.bytes "100"]
                         else (k_readdir demo_kernel n).1, 0);
  k_pwrite := k_pwrite demo_kernel; k_pread := k_pread demo_kernel; k_peek := k_peek demo_kernel;
  k_poke := k_poke demo_kernel; k_milliseconds := k_milliseconds demo_kernel;
  k_send := k_send demo_kernel; k_send_errno := k_send_errno demo_kernel;
  k_garbage := [] |}.

(** without that condition a failed stop can leave threads stopped: the
    early return for a directory that cannot be opened skips the release, so a
    stop that answers an ordinary error still traces thread 100. *)
Theorem failed_stop_can_keep_threads :
  exists env controller_tid,
    (stop_target_threads env controller_tid demo_state).1 =
      Some (PEAK_DETACH_HELPER_STATUS_PTRACE_ERROR, 24, []) /\
    map held_tid (held_threads (stop_target_threads env controller_tid demo_state).2) = [100].
Proof. exists starved_kernel, 1. split; vm_compute; reflexivity. Qed.
