(* ===== verification/DetachPlan.v ===== *)
(** * Planning a mutation of hooked code

    Models the part of [src/detach_controller.c] that decides, from the program
    counters of the stopped threads and what Gum reports about a hook, whether
    its code may be changed now and with which instructions: request
    validation, classification of a program counter, the table of physical
    patches, the plan for one request and the aggregation of the plans of a
    batch.  Pointers are numbers, NULL is 0; sizes are 64-bit. *)

From S2P Require Import Prelude HookModel DetachHelper.

(** ** Requests *)

(** [req_operation] is [None] for a value outside the enumeration. *)
Record PeakDetachRequest := mkDetachRequest {
  req_hook_id : Z;
  req_function_address : Z;
  req_interceptor : Z;
  req_listener : Z;
  req_operation : option PeakDetachOperation;
  blocked_pc_start : Z;
  blocked_pc_size : Z
}.

Definition is_op (op : PeakDetachOperation) (request : PeakDetachRequest) : bool :=
  bool_decide (req_operation request = Some op).

Definition operation_is_valid (operation : option PeakDetachOperation) : bool :=
  match operation with Some _ => true | None => false end.

(** The status is [SAFE] exactly when the request is accepted. *)
Definition validate_request (request : PeakDetachRequest) : bool * PeakDetachStatus :=
  if (req_interceptor request =? 0) || (req_function_address request =? 0)
     || negb (operation_is_valid (req_operation request))
  then (false, PEAK_DETACH_STATUS_ERROR)
  else if negb (is_op PEAK_DETACH_OPERATION_REPLACE request)
          && negb (is_op PEAK_DETACH_OPERATION_REVERT request) && (req_listener request =? 0)
  then (false, PEAK_DETACH_STATUS_ERROR)
  else (true, PEAK_DETACH_STATUS_SAFE).

(** ** What Gum reports about a hook *)

Record GumPeakPcDiagnostics := mkDiagnostics {
  diag_function_address : Z;
  overwritten_prologue_len : Z;
  trampoline_slice_start : Z;
  trampoline_slice_size : Z;
  on_enter_trampoline : Z;
  on_leave_trampoline : Z;
  on_invoke_trampoline : Z;
  enter_thunk_start : Z;
  enter_thunk_size : Z;
  leave_thunk_start : Z;
  leave_thunk_size : Z;
  fast_overlay_dispatch_start : Z;
  fast_overlay_dispatch_size : Z;
  fast_listener_dispatch_start : Z;
  fast_listener_dispatch_size : Z
}.

Inductive GumPeakPcState :=
  | GUM_PEAK_PC_SAFE
  | GUM_PEAK_PC_AT_PATCH_ENTRY
  | GUM_PEAK_PC_IN_ENTER_TRAMPOLINE
  | GUM_PEAK_PC_IN_INVOKE_TRAMPOLINE
  | GUM_PEAK_PC_IN_LEAVE_TRAMPOLINE
  | GUM_PEAK_PC_IN_DISPATCH
  | GUM_PEAK_PC_UNKNOWN.

(** [diagnostics] is [None] for [has_context] false, [patch] for [has_patch]
    false; a patch is the active bytes, the original bytes and their number. *)
Record PeakDetachGumSnapshot := mkGumSnapshot {
  diagnostics : option GumPeakPcDiagnostics;
  patch : option (list Z * list Z * Z)
}.

Definition pointer_in_range (pointer start size : Z) : bool :=
  if (pointer =? 0) || (start =? 0) || (size =? 0) then false
  else
    let end_ := start +u64 size in
    (start <=? end_) && (start <=? pointer) && (pointer <? end_).

Definition pointer_between (pointer start end_ : Z) : bool :=
  if (pointer =? 0) || (start =? 0) || (end_ =? 0) || (end_ <=? start) then false
  else (start <=? pointer) && (pointer <? end_).

Definition classify_pc_from_snapshot (snapshot : PeakDetachGumSnapshot) (pc : Z) : GumPeakPcState :=
  if pc =? 0 then GUM_PEAK_PC_UNKNOWN
  else
    match diagnostics snapshot with
    | None => GUM_PEAK_PC_SAFE
    | Some d =>
        if pointer_in_range pc (diag_function_address d) (overwritten_prologue_len d)
        then GUM_PEAK_PC_AT_PATCH_ENTRY
        else if pointer_in_range pc (enter_thunk_start d) (enter_thunk_size d)
                || pointer_in_range pc (leave_thunk_start d) (leave_thunk_size d)
                || pointer_in_range pc (fast_overlay_dispatch_start d) (fast_overlay_dispatch_size d)
                || pointer_in_range pc (fast_listener_dispatch_start d) (fast_listener_dispatch_size d)
        then GUM_PEAK_PC_IN_DISPATCH
        else if (trampoline_slice_start d =? 0) || (trampoline_slice_size d =? 0) then GUM_PEAK_PC_SAFE
        else if negb (pointer_in_range pc (trampoline_slice_start d) (trampoline_slice_size d))
        then GUM_PEAK_PC_SAFE
        else if pointer_between pc (on_enter_trampoline d) (on_leave_trampoline d)
        then GUM_PEAK_PC_IN_ENTER_TRAMPOLINE
        else if pointer_between pc (on_leave_trampoline d) (on_invoke_trampoline d)
        then GUM_PEAK_PC_IN_LEAVE_TRAMPOLINE
        else if on_invoke_trampoline d =? 0 then GUM_PEAK_PC_UNKNOWN
        else
          let slice_end := trampoline_slice_start d +u64 trampoline_slice_size d in
          if (slice_end <? trampoline_slice_start d) || (slice_end <=? on_invoke_trampoline d)
          then GUM_PEAK_PC_UNKNOWN
          else if pointer_in_range pc (on_invoke_trampoline d) (slice_end - on_invoke_trampoline d)
          then GUM_PEAK_PC_IN_INVOKE_TRAMPOLINE
          else GUM_PEAK_PC_UNKNOWN
    end.

Definition zero_diagnostics : GumPeakPcDiagnostics := mkDiagnostics 0 0 0 0 0 0 0 0 0 0 0 0 0 0 0.

(** The zeroed structure when there is no context. *)
Definition diag (snapshot : PeakDetachGumSnapshot) : GumPeakPcDiagnostics :=
  default zero_diagnostics (diagnostics snapshot).

(** 0 when there is no safe place. *)
Definition safe_pc_from_snapshot (snapshot : PeakDetachGumSnapshot) (pc : Z) (state : GumPeakPcState) : Z :=
  match state with
  | GUM_PEAK_PC_IN_ENTER_TRAMPOLINE =>
      if pc =? on_enter_trampoline (diag snapshot) then diag_function_address (diag snapshot) else 0
  | _ => 0
  end.

Definition canonical_function_address (request : PeakDetachRequest) (snapshot : PeakDetachGumSnapshot) : Z :=
  match diagnostics snapshot with
  | Some d =>
      if negb (diag_function_address d =? 0) then diag_function_address d
      else if negb (blocked_pc_start request =? 0) && (0 <? blocked_pc_size request)
      then blocked_pc_start request else req_function_address request
  | None =>
      if negb (blocked_pc_start request =? 0) && (0 <? blocked_pc_size request)
      then blocked_pc_start request else req_function_address request
  end.

(** [gum_interceptor_peak_get_pc_diagnostics] and
    [gum_interceptor_peak_get_function_patch]. *)
Record gum := mkGum {
  gum_get_pc_diagnostics : PeakDetachRequest -> option GumPeakPcDiagnostics;
  gum_get_function_patch : PeakDetachRequest -> option (list Z * list Z * Z)
}.

Definition needs_patch (request : PeakDetachRequest) : bool :=
  is_op PEAK_DETACH_OPERATION_DETACH request || is_op PEAK_DETACH_OPERATION_SHUTDOWN request
  || is_op PEAK_DETACH_OPERATION_REVERT request.

Definition needs_existing_hook_context (request : PeakDetachRequest) : bool :=
  is_op PEAK_DETACH_OPERATION_DETACH request || is_op PEAK_DETACH_OPERATION_REATTACH request
  || is_op PEAK_DETACH_OPERATION_SHUTDOWN request || is_op PEAK_DETACH_OPERATION_REVERT request.

(** [None] is the failure, with [CLASSIFY_FAILED]. *)
Definition capture_gum_snapshot (g : gum) (request : PeakDetachRequest) : option PeakDetachGumSnapshot :=
  let d := gum_get_pc_diagnostics g request in
  if bool_decide (d = None) && needs_existing_hook_context request then None
  else if needs_patch request then
    match gum_get_function_patch g request with
    | Some p => Some (mkGumSnapshot d (Some p))
    | None => None
    end
  else Some (mkGumSnapshot d None).

(** ** Plans *)

Inductive PeakDetachHoldBackend :=
  | PEAK_DETACH_HOLD_BACKEND_NONE
  | PEAK_DETACH_HOLD_BACKEND_HELPER
  | PEAK_DETACH_HOLD_BACKEND_SIGNAL.

#[export] Instance hold_backend_eq_dec : EqDecision PeakDetachHoldBackend.
Proof. solve_decision. Defined.

Record PeakDetachHeldMutation := mkMutation {
  m_active : bool;
  m_uses_physical_patch : bool;
  mutates_entry_bytes : bool;
  mutates_gum_metadata : bool;
  frees_listener_state : bool;
  requires_target_entry_idle : bool;
  m_operation : option PeakDetachOperation;
  m_backend : PeakDetachHoldBackend;
  m_instructions : list PeakDetachHelperInstruction
}.

Definition zero_mutation : PeakDetachHeldMutation :=
  mkMutation false false false false false false (Some PEAK_DETACH_OPERATION_ATTACH)
    PEAK_DETACH_HOLD_BACKEND_NONE [].

Definition with_instructions (ins : list PeakDetachHelperInstruction) (m : PeakDetachHeldMutation)
    : PeakDetachHeldMutation :=
  mkMutation (m_active m) (m_uses_physical_patch m) (mutates_entry_bytes m) (mutates_gum_metadata m)
    (frees_listener_state m) (requires_target_entry_idle m) (m_operation m) (m_backend m) ins.

Definition with_patch (m : PeakDetachHeldMutation) : PeakDetachHeldMutation :=
  mkMutation (m_active m) true true (mutates_gum_metadata m) (frees_listener_state m)
    (requires_target_entry_idle m) (m_operation m) (m_backend m) (m_instructions m).

Definition instruction_room (m : PeakDetachHeldMutation) : bool :=
  (length (m_instructions m) <? PEAK_DETACH_HELPER_MAX_INSTRUCTIONS)%nat.

Definition append_instruction (i : PeakDetachHelperInstruction) (m : PeakDetachHeldMutation)
    : PeakDetachHeldMutation := with_instructions (m_instructions m ++ [i]) m.

(** [size] bytes copied into the zeroed array of an instruction. *)
Definition patch_array (bytes : list Z) (size : Z) : list Z :=
  take (Z.to_nat size) bytes ++ replicate (32 - Z.to_nat size) 0.

Definition append_write_instruction (address : Z) (bytes : list Z) (size : Z) (m : PeakDetachHeldMutation)
    : option PeakDetachHeldMutation :=
  if (address =? 0) || (size =? 0) || (PEAK_DETACH_HELPER_MAX_PATCH_BYTES <? size)
     || negb (instruction_room m)
  then None
  else Some (append_instruction (mkInstruction 0 WRITE_MEMORY 0 address size (patch_array bytes size)) m).

Definition append_single_step_out_of_range_instruction (tid address size : Z) (m : PeakDetachHeldMutation)
    : option PeakDetachHeldMutation :=
  if (tid <=? 0) || (address =? 0) || (size =? 0) || (PEAK_DETACH_HELPER_MAX_PATCH_BYTES <? size)
     || negb (instruction_room m)
  then None
  else Some (append_instruction
               (mkInstruction tid SINGLE_STEP_OUT_OF_RANGE 0 address size (replicate 32 0)) m).

(** ** Physical patches *)

Record PeakDetachPhysicalPatchRecord := mkPatchRecord {
  used : bool;
  record_hook_id : Z;
  record_function_address : Z;
  active_patch : list Z;
  patch_size : Z
}.

Definition zero_record : PeakDetachPhysicalPatchRecord := mkPatchRecord false 0 0 (replicate 32 0) 0.

Abbreviation patch_records := (list PeakDetachPhysicalPatchRecord).

Definition record_is (hook_id : Z) (r : PeakDetachPhysicalPatchRecord) : bool :=
  used r && (record_hook_id r =? hook_id).

(** The first index whose record satisfies a test. *)
Fixpoint first_index {A} (p : A -> bool) (l : list A) : option nat :=
  match l with
  | [] => None
  | x :: l => if p x then Some 0%nat else option_map S (first_index p l)
  end.

(** The index of the record of a hook, or of a fresh one, and the table. *)
Definition find_physical_patch_record (hook_id : Z) (create : bool) (records : patch_records)
    : option nat * patch_records :=
  match first_index (record_is hook_id) records with
  | Some i => (Some i, records)
  | None =>
      match first_index (fun r => negb (used r)) records with
      | Some i =>
          if create then (Some i, <[i := mkPatchRecord true hook_id 0 (replicate 32 0) 0]> records)
          else (None, records)
      | None => (None, records)
      end
  end.

(** [memcpy] of [size] bytes over the start of an array. *)
Definition copy_prefix (dst src : list Z) (size : Z) : list Z := memcpy_at dst 0 (take (Z.to_nat size) src).

(** The plan with the write of the bytes, and the updated table; or the status. *)
Definition append_physical_patch (request : PeakDetachRequest) (snapshot : PeakDetachGumSnapshot)
    (m : PeakDetachHeldMutation) (records : patch_records)
    : (PeakDetachStatus + PeakDetachHeldMutation) * patch_records :=
  if negb (needs_existing_hook_context request) then (inr m, records)
  else
    let patch_address := canonical_function_address request snapshot in
    if is_op PEAK_DETACH_OPERATION_REATTACH request then
      match (find_physical_patch_record (req_hook_id request) false records).1 ≫= fun i => records !! i with
      | None => (inl PEAK_DETACH_STATUS_CLASSIFY_FAILED, records)
      | Some r =>
          if (patch_size r =? 0) || negb (record_function_address r =? patch_address)
          then (inl PEAK_DETACH_STATUS_CLASSIFY_FAILED, records)
          else
            match append_write_instruction patch_address (active_patch r) (patch_size r) m with
            | Some m => (inr (with_patch m), records)
            | None => (inl PEAK_DETACH_STATUS_ERROR, records)
            end
      end
    else
      match patch snapshot with
      | None => (inl PEAK_DETACH_STATUS_CLASSIFY_FAILED, records)
      | Some (active, original, prologue_len) =>
          if (prologue_len =? 0) || (PEAK_DETACH_HELPER_MAX_PATCH_BYTES <? prologue_len)
          then (inl PEAK_DETACH_STATUS_CLASSIFY_FAILED, records)
          else if is_op PEAK_DETACH_OPERATION_DETACH request then
            let '(existing, _) := find_physical_patch_record (req_hook_id request) false records in
            let '(slot, created) := find_physical_patch_record (req_hook_id request) true records in
            match slot with
            | None => (inl PEAK_DETACH_STATUS_ERROR, records)
            | Some i =>
                match append_write_instruction patch_address original prologue_len m with
                | None =>
                    (inl PEAK_DETACH_STATUS_ERROR,
                     match existing with Some _ => created | None => <[i := zero_record]> created end)
                | Some m =>
                    let old := default zero_record (created !! i) in
                    (inr (with_patch m),
                     <[i := mkPatchRecord (used old) (record_hook_id old) patch_address
                              (copy_prefix (active_patch old) active prologue_len) prologue_len]> created)
                end
            end
          else
            match append_write_instruction patch_address original prologue_len m with
            | Some m => (inr (with_patch m), records)
            | None => (inl PEAK_DETACH_STATUS_ERROR, records)
            end
      end.

(** ** The plan of one request *)

Definition init_mutation_semantics (operation : option PeakDetachOperation) (m : PeakDetachHeldMutation)
    : PeakDetachHeldMutation :=
  let '(entry, metadata, frees, idle) :=
    match operation with
    | Some PEAK_DETACH_OPERATION_DETACH | Some PEAK_DETACH_OPERATION_REATTACH =>
        (true, false, false, false)
    | Some PEAK_DETACH_OPERATION_SHUTDOWN => (true, true, true, false)
    | Some _ => (true, true, false, true)
    | None => (false, true, true, false)
    end in
  mkMutation (m_active m) (m_uses_physical_patch m) entry metadata frees idle (m_operation m)
    (m_backend m) (m_instructions m).

Definition mutation_is_physical_entry_bytes_only (m : PeakDetachHeldMutation) : bool :=
  mutates_entry_bytes m && negb (mutates_gum_metadata m) && negb (frees_listener_state m).

Definition GUM_PEAK_MAX_PROLOGUE_SIZE : Z := 32.

(** The body of the loop over the stopped threads.  [breakpoint_can_evac] is
    [peak_detach_controller_signal_breakpoint_can_evac]. *)
Definition classify_thread (request : PeakDetachRequest) (snapshot : PeakDetachGumSnapshot)
    (backend : PeakDetachHoldBackend) (breakpoint_can_evac : bool) (seen : list Z)
    (t : PeakDetachHelperThreadSnapshot) (m : PeakDetachHeldMutation)
    : PeakDetachStatus + PeakDetachHeldMutation :=
  let pc := snap_pc t in
  let function_address := canonical_function_address request snapshot in
  if existsb (fun tid => tid =? snap_tid t) seen then inl PEAK_DETACH_STATUS_ERROR
  else if negb (snap_status t =? 0) then inl PEAK_DETACH_STATUS_ERROR
  else if pointer_in_range pc (blocked_pc_start request) (blocked_pc_size request)
  then inl PEAK_DETACH_STATUS_CLASSIFY_FAILED
  else if requires_target_entry_idle m
          && pointer_in_range pc function_address GUM_PEAK_MAX_PROLOGUE_SIZE
  then inl PEAK_DETACH_STATUS_CLASSIFY_FAILED
  else
    match classify_pc_from_snapshot snapshot pc with
    | GUM_PEAK_PC_SAFE => inr m
    | GUM_PEAK_PC_AT_PATCH_ENTRY =>
        if is_op PEAK_DETACH_OPERATION_DETACH request || is_op PEAK_DETACH_OPERATION_SHUTDOWN request then
          if pc =? function_address then inr m else inl PEAK_DETACH_STATUS_CLASSIFY_FAILED
        else if is_op PEAK_DETACH_OPERATION_REATTACH request then
          let prologue_len := overwritten_prologue_len (diag snapshot) in
          if pc =? function_address then inr m
          else if (bool_decide (backend = PEAK_DETACH_HOLD_BACKEND_HELPER)
                   || (bool_decide (backend = PEAK_DETACH_HOLD_BACKEND_SIGNAL) && breakpoint_can_evac))
                  && (0 <? prologue_len) && (prologue_len <=? PEAK_DETACH_HELPER_MAX_PATCH_BYTES)
          then
            match append_single_step_out_of_range_instruction (snap_tid t) function_address prologue_len m with
            | Some m => inr m
            | None => inl PEAK_DETACH_STATUS_CLASSIFY_FAILED
            end
          else inl PEAK_DETACH_STATUS_CLASSIFY_FAILED
        else inr m
    | GUM_PEAK_PC_IN_ENTER_TRAMPOLINE as state | GUM_PEAK_PC_IN_INVOKE_TRAMPOLINE as state
    | GUM_PEAK_PC_IN_LEAVE_TRAMPOLINE as state | GUM_PEAK_PC_IN_DISPATCH as state =>
        if mutation_is_physical_entry_bytes_only m then inr m
        else
          let safe_pc := safe_pc_from_snapshot snapshot pc state in
          if (safe_pc =? 0) || negb (instruction_room m) then inl PEAK_DETACH_STATUS_CLASSIFY_FAILED
          else inr (append_instruction (mkInstruction (snap_tid t) SET_PC safe_pc 0 0 (replicate 32 0)) m)
    | GUM_PEAK_PC_UNKNOWN => inl PEAK_DETACH_STATUS_CLASSIFY_FAILED
    end.

Fixpoint classify_threads (request : PeakDetachRequest) (snapshot : PeakDetachGumSnapshot)
    (backend : PeakDetachHoldBackend) (breakpoint_can_evac : bool) (seen : list Z)
    (threads : list PeakDetachHelperThreadSnapshot) (m : PeakDetachHeldMutation)
    : PeakDetachStatus + PeakDetachHeldMutation :=
  match threads with
  | [] => inr m
  | t :: threads =>
      match classify_thread request snapshot backend breakpoint_can_evac seen t m with
      | inl status => inl status
      | inr m => classify_threads request snapshot backend breakpoint_can_evac (snap_tid t :: seen) threads m
      end
  end.

(** The fields a SET_PC instruction does not use keep old contents in the
    code; nothing reads them. *)
Definition begin_mutation (request : PeakDetachRequest) (m : PeakDetachHeldMutation) : PeakDetachHeldMutation :=
  init_mutation_semantics (req_operation request)
    (mkMutation (m_active m) false (mutates_entry_bytes m) (mutates_gum_metadata m) (frees_listener_state m)
       (requires_target_entry_idle m) (req_operation request) (m_backend m) []).

Definition classify_stopped_threads (request : PeakDetachRequest) (snapshot : PeakDetachGumSnapshot)
    (backend : PeakDetachHoldBackend) (breakpoint_can_evac : bool)
    (threads : list PeakDetachHelperThreadSnapshot) (m : PeakDetachHeldMutation) (records : patch_records)
    : (PeakDetachStatus + PeakDetachHeldMutation) * patch_records :=
  match classify_threads request snapshot backend breakpoint_can_evac [] threads (begin_mutation request m) with
  | inl status => (inl status, records)
  | inr m => append_physical_patch request snapshot m records
  end.

(** ** Aggregating the plans of a batch *)

Definition write_ranges_overlap (left_ right_ : PeakDetachHelperInstruction) : bool :=
  let left_end := ins_address left_ +u64 ins_size left_ in
  let right_end := ins_address right_ +u64 ins_size right_ in
  if (left_end <? ins_address left_) || (right_end <? ins_address right_) then true
  else (ins_address left_ <? right_end) && (ins_address right_ <? left_end).

(** [memcmp] on the first [size] bytes. *)
Definition same_bytes (left_ right_ : list Z) (size : Z) : bool :=
  bool_decide (take (Z.to_nat size) left_ = take (Z.to_nat size) right_).

Definition same_write (existing candidate : PeakDetachHelperInstruction) : bool :=
  (ins_address existing =? ins_address candidate) && (ins_size existing =? ins_size candidate)
  && same_bytes (ins_bytes existing) (ins_bytes candidate) (ins_size candidate).

Fixpoint find_instruction_conflict (instructions : list PeakDetachHelperInstruction)
    (candidate : PeakDetachHelperInstruction) : bool :=
  match instructions with
  | [] => false
  | existing :: instructions =>
      if negb (ins_action existing =? ins_action candidate)
      then find_instruction_conflict instructions candidate
      else if (ins_action candidate =? SET_PC) && (ins_tid existing =? ins_tid candidate)
      then negb (ins_pc existing =? ins_pc candidate)
      else if (ins_action candidate =? SINGLE_STEP_OUT_OF_RANGE) && (ins_tid existing =? ins_tid candidate)
      then negb (ins_address existing =? ins_address candidate)
           || negb (ins_size existing =? ins_size candidate)
      else if (ins_action candidate =? WRITE_MEMORY) && write_ranges_overlap existing candidate
      then negb (same_write existing candidate)
      else find_instruction_conflict instructions candidate
  end.

Definition instruction_is_duplicate (instructions : list PeakDetachHelperInstruction)
    (candidate : PeakDetachHelperInstruction) : bool :=
  existsb (fun existing =>
    (ins_action existing =? ins_action candidate) &&
    (((ins_action candidate =? SET_PC) && (ins_tid existing =? ins_tid candidate)
        && (ins_pc existing =? ins_pc candidate))
     || ((ins_action candidate =? SINGLE_STEP_OUT_OF_RANGE) && (ins_tid existing =? ins_tid candidate)
        && (ins_address existing =? ins_address candidate) && (ins_size existing =? ins_size candidate))
     || ((ins_action candidate =? WRITE_MEMORY) && same_write existing candidate))) instructions.

(** The loop over the candidate's instructions. *)
Fixpoint append_candidate_instructions (aggregate candidate : list PeakDetachHelperInstruction)
    : PeakDetachStatus + list PeakDetachHelperInstruction :=
  match candidate with
  | [] => inr aggregate
  | i :: candidate =>
      if find_instruction_conflict aggregate i then inl PEAK_DETACH_STATUS_CLASSIFY_FAILED
      else if instruction_is_duplicate aggregate i then append_candidate_instructions aggregate candidate
      else if (PEAK_DETACH_HELPER_MAX_INSTRUCTIONS <=? length aggregate)%nat
      then inl PEAK_DETACH_STATUS_ERROR
      else append_candidate_instructions (aggregate ++ [i]) candidate
  end.

Definition append_candidate_mutation (aggregate candidate : PeakDetachHeldMutation)
    : PeakDetachStatus + PeakDetachHeldMutation :=
  match append_candidate_instructions (m_instructions aggregate) (m_instructions candidate) with
  | inl status => inl status
  | inr ins =>
      inr (mkMutation (m_active aggregate)
             (m_uses_physical_patch aggregate || m_uses_physical_patch candidate)
             (mutates_entry_bytes aggregate || mutates_entry_bytes candidate)
             (mutates_gum_metadata aggregate || mutates_gum_metadata candidate)
             (frees_listener_state aggregate || frees_listener_state candidate)
             (requires_target_entry_idle aggregate || requires_target_entry_idle candidate)
             (m_operation aggregate) (m_backend aggregate) ins)
  end.

Definition empty_batch_status (statuses : list PeakDetachStatus) : PeakDetachStatus :=
  if forallb (fun s => bool_decide (s = PEAK_DETACH_STATUS_UNSUPPORTED)) statuses
  then PEAK_DETACH_STATUS_UNSUPPORTED else PEAK_DETACH_STATUS_CLASSIFY_FAILED.
