(* ===== verification/DetachPlanProofs.v ===== *)
(** * Plans are safe

    Theorems about [DetachPlan]: a plan that is made leaves no stopped thread
    inside the bytes it changes, names every thread at most once, writes the
    bytes it is meant to and keeps the table of physical patches; the plans of
    a batch are aggregated without conflicts. *)

From S2P Require Import Prelude HookModel DetachHelper DetachHelperProofs DetachHelperWrites DetachPlan.

(** ** One thread *)

(** The instruction planned for a thread, if any, and why the thread is safe. *)
Definition thread_plan (request : PeakDetachRequest) (snapshot : PeakDetachGumSnapshot)
    (m : PeakDetachHeldMutation) (t : PeakDetachHelperThreadSnapshot)
    (p : option PeakDetachHelperInstruction) : Prop :=
  let pc := snap_pc t in
  let function_address := canonical_function_address request snapshot in
  let prologue_len := overwritten_prologue_len (diag snapshot) in
  snap_status t = 0 /\
  pointer_in_range pc (blocked_pc_start request) (blocked_pc_size request) = false /\
  (requires_target_entry_idle m = true ->
   pointer_in_range pc function_address GUM_PEAK_MAX_PROLOGUE_SIZE = false) /\
  match classify_pc_from_snapshot snapshot pc with
  | GUM_PEAK_PC_SAFE => p = None
  | GUM_PEAK_PC_AT_PATCH_ENTRY =>
      p = None /\ (needs_existing_hook_context request = false \/ is_op PEAK_DETACH_OPERATION_REVERT request = true
                   \/ pc = function_address) \/
      is_op PEAK_DETACH_OPERATION_REATTACH request = true /\
      0 < prologue_len <= PEAK_DETACH_HELPER_MAX_PATCH_BYTES /\
      p = Some (mkInstruction (snap_tid t) SINGLE_STEP_OUT_OF_RANGE 0 function_address prologue_len
                  (replicate 32 0))
  | GUM_PEAK_PC_UNKNOWN => False
  | _ =>
      mutation_is_physical_entry_bytes_only m = true /\ p = None \/
      diag_function_address (diag snapshot) <> 0 /\ pc = on_enter_trampoline (diag snapshot) /\
      p = Some (mkInstruction (snap_tid t) SET_PC (diag_function_address (diag snapshot)) 0 0 (replicate 32 0))
  end.

Definition append_plan (p : option PeakDetachHelperInstruction) (m : PeakDetachHeldMutation) :=
  with_instructions (m_instructions m ++ option_list p) m.

Lemma with_instructions_same m : with_instructions (m_instructions m ++ []) m = m.
Proof. rewrite app_nil_r. by destruct m. Qed.

Ltac plan_none := exists None; simplify_eq; rewrite with_instructions_same; split_and!; auto 10.

Lemma classify_thread_spec request snapshot backend bp seen t m m' :
  classify_thread request snapshot backend bp seen t m = inr m' ->
  (snap_tid t ∉ seen) /\
  exists p, (m' = append_plan p m) /\ thread_plan request snapshot m t p /\ (p = None \/ instruction_room m = true).
Proof.
  unfold classify_thread. destruct (existsb _ seen) eqn:Hseen; [done|].
  destruct (snap_status t =? 0) eqn:Hst; cbn [negb]; [|done].
  destruct (pointer_in_range (snap_pc t) (blocked_pc_start request) _) eqn:Hblk; [done|].
  destruct (requires_target_entry_idle m && _) eqn:Hidle; [done|]. intros H.
  split.
  { intros Hin. apply not_true_iff_false in Hseen. apply Hseen, existsb_exists.
    exists (snap_tid t). rewrite <- list_elem_of_In. split; [done|apply Z.eqb_refl]. }
  assert (Hcommon : snap_status t = 0 /\ (requires_target_entry_idle m = true ->
    pointer_in_range (snap_pc t) (canonical_function_address request snapshot) GUM_PEAK_MAX_PROLOGUE_SIZE = false)).
  { split; [by apply Z.eqb_eq|]. intros Hi. by rewrite Hi in Hidle. }
  destruct Hcommon as [Hst' Hidle'].
  unfold thread_plan, append_plan.
  destruct (classify_pc_from_snapshot snapshot (snap_pc t)) eqn:Hc; [| |..|done].
  - plan_none.
  - destruct (is_op PEAK_DETACH_OPERATION_DETACH request || _) eqn:Hop.
    + destruct (Z.eqb_spec (snap_pc t) (canonical_function_address request snapshot)); [plan_none|done].
    + destruct (is_op PEAK_DETACH_OPERATION_REATTACH request) eqn:Hre.
      * destruct (Z.eqb_spec (snap_pc t) (canonical_function_address request snapshot)) as [|Hpc]; [plan_none|].
        destruct (_ && _ && _) eqn:Hcan; [|done]. breflect.
        unfold append_single_step_out_of_range_instruction in H.
        destruct (_ || _) eqn:Hroom in H; [done|]. simplify_eq. breflect.
        eexists (Some _). split_and!; [reflexivity|done|done|done| |by right].
        right. split_and!; [done|done|done|reflexivity].
      * plan_none. left. split; [done|]. unfold needs_existing_hook_context. rewrite Hre.
        apply orb_false_iff in Hop as [-> ->]. simpl.
        destruct (is_op PEAK_DETACH_OPERATION_REVERT request); auto.
  - destruct (mutation_is_physical_entry_bytes_only m) eqn:Hb; [plan_none|].
    unfold safe_pc_from_snapshot in H.
    destruct (Z.eqb_spec (snap_pc t) (on_enter_trampoline (diag snapshot))); [|done].
    destruct (_ || _) eqn:Hr in H; [done|]. simplify_eq. breflect.
    eexists (Some _). split_and!; [reflexivity|done|done|done| |by right].
    right. split_and!; done.
  - destruct (mutation_is_physical_entry_bytes_only m) eqn:Hb; [plan_none|done].
  - destruct (mutation_is_physical_entry_bytes_only m) eqn:Hb; [plan_none|done].
  - destruct (mutation_is_physical_entry_bytes_only m) eqn:Hb; [plan_none|done].
Qed.

(** ** All stopped threads *)

Definition planned (ps : list (option PeakDetachHelperInstruction)) : list PeakDetachHelperInstruction :=
  concat (map option_list ps).

Lemma classify_threads_spec request snapshot backend bp threads : forall seen m m',
  classify_threads request snapshot backend bp seen threads m = inr m' ->
  (length (m_instructions m) <= PEAK_DETACH_HELPER_MAX_INSTRUCTIONS)%nat ->
  exists ps, Forall2 (thread_plan request snapshot m) threads ps /\
    m' = with_instructions (m_instructions m ++ planned ps) m /\
    (length (m_instructions m') <= PEAK_DETACH_HELPER_MAX_INSTRUCTIONS)%nat /\
    NoDup (map snap_tid threads) /\ Forall (fun t => snap_tid t ∉ seen) threads.
Proof.
  induction threads as [|t threads IH]; intros seen m m' H Hlen.
  { simplify_eq/=. exists []. rewrite with_instructions_same. split_and!; done || constructor. }
  cbn [classify_threads] in H.
  destruct (classify_thread request snapshot backend bp seen t m) as [?|m1] eqn:Ht; [done|].
  apply classify_thread_spec in Ht as (Hseen & p & -> & Hp & Hroom).
  assert (Hlen1 : (length (m_instructions (append_plan p m)) <= PEAK_DETACH_HELPER_MAX_INSTRUCTIONS)%nat).
  { unfold append_plan. cbn [m_instructions with_instructions]. rewrite length_app.
    destruct Hroom as [->|Hroom]; simpl; [lia|]. unfold instruction_room in Hroom. apply Nat.ltb_lt in Hroom.
    destruct p; simpl; lia. }
  apply IH in H as (ps & Hps & -> & Hlen' & Hnd & Hfresh); [|done].
  exists (p :: ps). split_and!; [constructor; done| |done| |].
  - unfold append_plan, planned, with_instructions. simpl. by rewrite <- app_assoc.
  - constructor; [|done]. intros Hin%list_elem_of_fmap. destruct Hin as (t' & Heq & Hin).
    rewrite Forall_forall in Hfresh. apply (Hfresh t' Hin). rewrite Heq. left.
  - constructor; [done|]. eapply Forall_impl; [exact Hfresh|]. intros t' Hn Hin. apply Hn. by right.
Qed.

Lemma thread_plan_instruction request snapshot m t i :
  thread_plan request snapshot m t (Some i) ->
  ins_tid i = snap_tid t /\ thread_instruction i = true /\ length (ins_bytes i) = 32%nat.
Proof.
  intros (_ & _ & _ & H).
  destruct (classify_pc_from_snapshot snapshot (snap_pc t)); try done;
    destruct H as [[? ?]|H]; try done; destruct H as (? & ? & ?); simplify_eq; done.
Qed.

Lemma planned_tids request snapshot m threads ps :
  Forall2 (thread_plan request snapshot m) threads ps ->
  sublist (map ins_tid (planned ps)) (map snap_tid threads) /\
  Forall (fun i => thread_instruction i = true) (planned ps).
Proof.
  induction 1 as [|t [i|] threads ps Hp Hps [IH1 IH2]]; [by split; constructor|..].
  - destruct (thread_plan_instruction _ _ _ _ _ Hp) as (H1 & H2 & _).
    unfold planned in *. simpl. rewrite H1. split; [by apply sublist_skip|by constructor].
  - unfold planned in *. simpl. split; [by apply sublist_cons|done].
Qed.

(** The instruction planned for a thread is the only one that names it. *)
Lemma planned_thread request snapshot m threads ps t :
  Forall2 (thread_plan request snapshot m) threads ps -> NoDup (map snap_tid threads) -> t ∈ threads ->
  exists p, thread_plan request snapshot m t p /\
    (forall i, i ∈ planned ps -> ins_tid i = snap_tid t -> p = Some i) /\
    (forall i, p = Some i -> i ∈ planned ps).
Proof.
  induction 1 as [|t' p threads ps Hp Hps IH]; intros Hnd Hin; [by apply not_elem_of_nil in Hin|].
  apply NoDup_cons in Hnd as [Hnot Hnd].
  destruct (planned_tids _ _ _ _ _ Hps) as [Hsub _].
  assert (Hrest : forall i, i ∈ planned ps -> ins_tid i ∈ map snap_tid threads).
  { intros i Hi. eapply elem_of_sublist; [|done]. by apply list_elem_of_fmap_2. }
  assert (Hcons : forall i, i ∈ planned (p :: ps) <-> p = Some i \/ i ∈ planned ps).
  { intros i. unfold planned. simpl. rewrite elem_of_app. destruct p as [j|]; simpl.
    - rewrite list_elem_of_singleton. naive_solver.
    - rewrite elem_of_nil. naive_solver. }
  apply elem_of_cons in Hin as [->|Hin].
  - exists p. split_and!; [done| |intros i ->; rewrite Hcons; by left].
    intros i Hi Heq. apply Hcons in Hi as [Hi|Hi]; [done|]. apply Hrest in Hi. by rewrite Heq in Hi.
  - destruct (IH Hnd Hin) as (p' & ? & Hi' & Hin'). exists p'. split_and!; [done| |].
    + intros i Hi Heq. apply Hcons in Hi as [->|Hi]; [|by apply Hi']. destruct Hnot.
      destruct (thread_plan_instruction _ _ _ _ _ Hp) as (H1 & _). rewrite <- H1, Heq.
      by apply list_elem_of_fmap_2.
    + intros i Hi. apply Hcons. right. by apply Hin'.
Qed.

(** ** The table of physical patches *)

Lemma first_index_spec {A} (p : A -> bool) l i :
  first_index p l = Some i ->
  (exists x, l !! i = Some x /\ p x = true) /\ forall j x, (j < i)%nat -> l !! j = Some x -> p x = false.
Proof.
  revert i. induction l as [|y l IH]; intros i H; simpl in H; [done|].
  destruct (p y) eqn:Hy; simplify_eq.
  - split; [by exists y|]. intros; lia.
  - destruct (first_index p l) as [k|]; simplify_eq/=. destruct (IH k eq_refl) as [H1 H2].
    split; [done|]. intros [|j] x Hj Hx; simplify_eq/=; [done|]. apply (H2 j); [lia|done].
Qed.

Lemma first_index_some {A} (p : A -> bool) l i x :
  l !! i = Some x -> p x = true -> (forall j y, (j < i)%nat -> l !! j = Some y -> p y = false) ->
  first_index p l = Some i.
Proof.
  revert i. induction l as [|y l IH]; intros [|i] Hx Hp Hj; simplify_eq/=; [by rewrite Hp|].
  rewrite (Hj 0%nat y) by (lia || done). rewrite (IH i); try done.
  intros j z Hlt Hz. apply (Hj (S j)); [lia|done].
Qed.

Lemma first_index_none {A} (p : A -> bool) l :
  first_index p l = None -> forall j x, l !! j = Some x -> p x = false.
Proof.
  induction l as [|y l IH]; intros H j x Hx; [done|]. simpl in H. destruct (p y) eqn:Hy; [done|].
  destruct (first_index p l); [done|]. destruct j; simplify_eq/=; [done|by eapply IH].
Qed.

(** Where a hook's record is, or would be put. *)
Definition record_slot (hook_id : Z) (records : patch_records) : option nat :=
  match first_index (record_is hook_id) records with
  | Some i => Some i
  | None => first_index (fun r => negb (used r)) records
  end.

Lemma find_record_create hook_id records i records' :
  find_physical_patch_record hook_id true records = (Some i, records') ->
  record_slot hook_id records = Some i /\
  (records' = records \/ exists v, records' = <[i := v]> records) /\
  first_index (record_is hook_id) records' = Some i.
Proof.
  unfold find_physical_patch_record, record_slot.
  destruct (first_index (record_is hook_id) records) as [k|] eqn:Hk; intros H; simplify_eq.
  { auto. }
  destruct (first_index (fun r => negb (used r)) records) as [k|] eqn:Hf; simplify_eq. split_and!; [done|right; eauto|].
  destruct (first_index_spec _ _ _ Hf) as [(x & Hx & _) _].
  eapply first_index_some; [apply list_lookup_insert_eq; by eapply lookup_lt_Some| |].
  - unfold record_is. simpl. by rewrite Z.eqb_refl.
  - intros j y Hj Hy. rewrite list_lookup_insert_ne in Hy by lia. by eapply first_index_none.
Qed.

Lemma append_write_spec address bytes size m m' :
  append_write_instruction address bytes size m = Some m' ->
  address <> 0 /\ size <> 0 /\ size <= PEAK_DETACH_HELPER_MAX_PATCH_BYTES /\ instruction_room m = true /\
  m' = append_instruction (mkInstruction 0 WRITE_MEMORY 0 address size (patch_array bytes size)) m.
Proof.
  unfold append_write_instruction. destruct (_ || _) eqn:H; [done|]. intros ?. simplify_eq. by breflect.
Qed.

(** A plan that is refused or made changes the table in the hook's slot only. *)
Lemma patch_changes_slot request snapshot m records r records' :
  append_physical_patch request snapshot m records = (r, records') ->
  records' = records \/
  exists i v, record_slot (req_hook_id request) records = Some i /\ records' = <[i := v]> records.
Proof.
  unfold append_physical_patch.
  destruct (needs_existing_hook_context request); cbn [negb]; [|intros; simplify_eq; by left].
  destruct (is_op PEAK_DETACH_OPERATION_REATTACH request).
  { repeat (case_match; simplify_eq; try (intros; simplify_eq; by left)). }
  destruct (patch snapshot) as [[[active original] len]|]; [|intros; simplify_eq; by left].
  destruct (_ || _); [intros; simplify_eq; by left|].
  destruct (is_op PEAK_DETACH_OPERATION_DETACH request).
  2: { destruct (append_write_instruction _ _ _ _); intros; simplify_eq; by left. }
  destruct (find_physical_patch_record _ false records) as [existing ?] eqn:He.
  destruct (find_physical_patch_record _ true records) as [[i|] created] eqn:Hc;
    [|intros; simplify_eq; by left].
  destruct (find_record_create _ _ _ _ Hc) as (Hslot & Hcr & _).
  assert (Hins : forall v, exists v', <[i := v]> created = <[i := v']> records).
  { intros v. exists v. destruct Hcr as [->|[w ->]]; [done|]. by rewrite list_insert_insert_eq. }
  destruct (append_write_instruction _ _ _ _); intros H; simplify_eq.
  - right. destruct (Hins (mkPatchRecord (used (default zero_record (created !! i)))
      (record_hook_id (default zero_record (created !! i))) (canonical_function_address request snapshot)
      (copy_prefix (active_patch (default zero_record (created !! i))) active len) len)) as [v' Hv'].
    eauto.
  - destruct existing.
    + destruct Hcr as [->|[w ->]]; [by left|right; eauto].
    + destruct (Hins zero_record) as [v' ->]. right. eauto.
Qed.

(** ** The whole plan *)

(** Where the written bytes come from, and what the table remembers. *)
Definition patch_source (request : PeakDetachRequest) (snapshot : PeakDetachGumSnapshot)
    (records records' : patch_records) (bytes : list Z) (size : Z) : Prop :=
  let fa := canonical_function_address request snapshot in
  if is_op PEAK_DETACH_OPERATION_REATTACH request then
    records' = records /\
    exists i r, first_index (record_is (req_hook_id request)) records = Some i /\ records !! i = Some r /\
      record_function_address r = fa /\ bytes = active_patch r /\ size = patch_size r
  else
    exists active, patch snapshot = Some (active, bytes, size) /\
    (is_op PEAK_DETACH_OPERATION_DETACH request = true ->
     exists i r old, first_index (record_is (req_hook_id request)) records' = Some i /\ records' !! i = Some r /\
       record_function_address r = fa /\ active_patch r = copy_prefix old active size /\ patch_size r = size).

Lemma append_patch_spec request snapshot m records m' records' :
  append_physical_patch request snapshot m records = (inr m', records') ->
  (needs_existing_hook_context request = false /\ m' = m /\ records' = records) \/
  exists bytes size,
    size <> 0 /\ size <= PEAK_DETACH_HELPER_MAX_PATCH_BYTES /\
    canonical_function_address request snapshot <> 0 /\ instruction_room m = true /\
    m' = with_patch (append_instruction
      (mkInstruction 0 WRITE_MEMORY 0 (canonical_function_address request snapshot) size
         (patch_array bytes size)) m) /\
    patch_source request snapshot records records' bytes size.
Proof.
  unfold append_physical_patch, patch_source.
  destruct (needs_existing_hook_context request) eqn:Hctx; cbn [negb]; [|intros; simplify_eq; by left].
  intros H. right. destruct (is_op PEAK_DETACH_OPERATION_REATTACH request) eqn:Hre.
  { unfold find_physical_patch_record in H.
    destruct (first_index (record_is (req_hook_id request)) records) as [i|] eqn:Hi; cbn [fst mbind option_bind] in H.
    2: { by repeat case_match; simplify_eq/=. }
    destruct (records !! i) as [r|] eqn:Hr; cbn in H; [|done].
    destruct (_ || _) eqn:Hbad; [done|]. breflect.
    destruct (append_write_instruction _ _ _ m) as [m1|] eqn:Hw; [|done]. simplify_eq.
    apply append_write_spec in Hw as (? & ? & ? & ? & ->). eexists _, _. split_and!; eauto 10. }
  destruct (patch snapshot) as [[[active original] len]|] eqn:Hp; [|done].
  destruct (_ || _) eqn:Hlen; [done|]. breflect.
  destruct (is_op PEAK_DETACH_OPERATION_DETACH request) eqn:Hde.
  2: { destruct (append_write_instruction _ _ _ m) as [m1|] eqn:Hw; [|done]. simplify_eq.
       apply append_write_spec in Hw as (? & ? & ? & ? & ->). exists original, len.
       split_and!; try done. exists active. by split. }
  destruct (find_physical_patch_record _ false records) as [existing ?].
  destruct (find_physical_patch_record _ true records) as [[i|] created] eqn:Hc; [|done].
  destruct (append_write_instruction _ _ _ m) as [m1|] eqn:Hw; [|done]. simplify_eq.
  apply append_write_spec in Hw as (? & ? & ? & ? & ->). exists original, len.
  split_and!; try done. exists active. split; [done|]. intros _.
  apply find_record_create in Hc as (_ & _ & Hf).
  destruct (first_index_spec _ _ _ Hf) as [(x & Hx & Hxr) Hbefore]. rewrite Hx. simpl.
  exists i. eexists _, (active_patch x). split_and!; [|apply list_lookup_insert_eq; by eapply lookup_lt_Some|done..].
  eapply first_index_some; [apply list_lookup_insert_eq; by eapply lookup_lt_Some| |].
  - unfold record_is in *. simpl. done.
  - intros j y Hj Hy. rewrite list_lookup_insert_ne in Hy by lia. by eapply Hbefore.
Qed.

(** [ps] is the plan of each thread, [ws] the write. *)
Record plan_made (request : PeakDetachRequest) (snapshot : PeakDetachGumSnapshot) (m : PeakDetachHeldMutation)
    (threads : list PeakDetachHelperThreadSnapshot) (records : patch_records)
    (m' : PeakDetachHeldMutation) (records' : patch_records)
    (ps : list (option PeakDetachHelperInstruction)) (ws : list PeakDetachHelperInstruction) : Prop := {
  plan_threads : Forall2 (thread_plan request snapshot (begin_mutation request m)) threads ps;
  plan_instructions : m_instructions m' = planned ps ++ ws;
  plan_active : m_active m' = m_active m;
  plan_nodup : NoDup (map snap_tid threads);
  plan_length : (length (m_instructions m') <= PEAK_DETACH_HELPER_MAX_INSTRUCTIONS)%nat;
  plan_writes :
    (needs_existing_hook_context request = false /\ ws = [] /\ records' = records) \/
    exists bytes size, size <> 0 /\ size <= PEAK_DETACH_HELPER_MAX_PATCH_BYTES /\
      canonical_function_address request snapshot <> 0 /\
      ws = [mkInstruction 0 WRITE_MEMORY 0 (canonical_function_address request snapshot) size
                   (patch_array bytes size)] /\
      patch_source request snapshot records records' bytes size
}.

Lemma classify_stopped_spec request snapshot backend bp threads m records m' records' :
  classify_stopped_threads request snapshot backend bp threads m records = (inr m', records') ->
  exists ps ws, plan_made request snapshot m threads records m' records' ps ws.
Proof.
  unfold classify_stopped_threads.
  destruct (classify_threads _ _ _ _ _ _ _) as [st|m1] eqn:Hc; [done|]. intros Ha.
  apply classify_threads_spec in Hc as (ps & Hps & -> & Hlen & Hnd & _).
  2: { unfold begin_mutation, init_mutation_semantics. repeat case_match; simpl; lia. }
  assert (Hbegin : m_instructions (begin_mutation request m) = [])
    by (unfold begin_mutation, init_mutation_semantics; by repeat case_match).
  assert (Hactive : m_active (begin_mutation request m) = m_active m)
    by (unfold begin_mutation, init_mutation_semantics; by repeat case_match).
  apply append_patch_spec in Ha as [(Hctx & -> & ->)|(bytes & size & H1 & H2 & H3 & Hroom & -> & Hsrc)].
  - exists ps, []. split; try done; [|by left]. simpl. by rewrite Hbegin, app_nil_r.
  - eexists ps, _. split; try done; [simpl; by rewrite Hbegin| |right; eauto 10].
    simpl. rewrite length_app. simpl. unfold instruction_room in Hroom. apply Nat.ltb_lt in Hroom.
    simpl in Hroom. lia.
Qed.

Lemma plan_is_writes request snapshot m threads records m' records' ps ws i :
  plan_made request snapshot m threads records m' records' ps ws -> i ∈ ws ->
  thread_instruction i = false /\ ins_action i = WRITE_MEMORY.
Proof.
  intros [_ _ _ _ _ [(_ & -> & _)|(b & n & _ & _ & _ & -> & _)]] Hi; [by apply not_elem_of_nil in Hi|].
  apply list_elem_of_singleton in Hi. by subst.
Qed.

Lemma filter_all {A} (p : A -> bool) l : Forall (fun x => p x = true) l -> List.filter p l = l.
Proof. induction 1 as [|x l Hx _ IH]; simpl; [done|by rewrite Hx, IH]. Qed.

(** A plan names every thread at most once. *)
Lemma plan_one_per_thread request snapshot m threads records m' records' ps ws :
  plan_made request snapshot m threads records m' records' ps ws -> one_per_thread (m_instructions m').
Proof.
  intros [Hps Hins _ Hnd Hlen Hwr].
  destruct (planned_tids _ _ _ _ _ Hps) as [Hsub Hall]. unfold one_per_thread.
  rewrite Hins, List.filter_app.
  assert (Hws : List.filter thread_instruction ws = [])
    by (destruct Hwr as [(_ & -> & _)|(b & n & _ & _ & _ & -> & _)]; done).
  rewrite filter_all, Hws, app_nil_r by done. by eapply sublist_NoDup.
Qed.

Lemma pc_in_range_pointer pc start size :
  DetachHelper.pc_in_range pc start size = false -> pointer_in_range pc start size = false.
Proof.
  unfold DetachHelper.pc_in_range, pointer_in_range.
  destruct (pc =? 0), (start =? 0), (size =? 0); try done. cbn [orb].
  destruct (Z.leb_spec (start +u64 size) start); [|intros Hf; by rewrite <- andb_assoc, Hf, andb_false_r].
  intros _. destruct (Z.leb_spec start pc); simpl; [|by rewrite andb_false_r].
  destruct (Z.ltb_spec pc (start +u64 size)); [lia|by rewrite andb_false_r].
Qed.

Lemma classify_out_of_patch snapshot d pc :
  diagnostics snapshot = Some d -> pc <> 0 ->
  classify_pc_from_snapshot snapshot pc <> GUM_PEAK_PC_AT_PATCH_ENTRY ->
  pointer_in_range pc (diag_function_address d) (overwritten_prologue_len d) = false.
Proof.
  intros Hd Hpc Hc. unfold classify_pc_from_snapshot in Hc. rewrite Hd in Hc.
  apply Z.eqb_neq in Hpc. rewrite Hpc in Hc.
  by destruct (pointer_in_range pc (diag_function_address d) (overwritten_prologue_len d)).
Qed.

(** The operations that change the entry of a hooked function. *)
Definition repatches (request : PeakDetachRequest) : bool :=
  is_op PEAK_DETACH_OPERATION_DETACH request || is_op PEAK_DETACH_OPERATION_REATTACH request
  || is_op PEAK_DETACH_OPERATION_SHUTDOWN request.

Lemma repatches_not_revert request :
  repatches request = true ->
  needs_existing_hook_context request = true /\ is_op PEAK_DETACH_OPERATION_REVERT request = false.
Proof.
  unfold repatches, needs_existing_hook_context, is_op.
  repeat case_bool_decide; simpl; try done; congruence.
Qed.

(** After an evacuation with the plan of a detach, a reattach or a
    shutdown, no stopped thread is inside the entry bytes that change, except
    at their start; and when the listener state is freed, every thread is at the
    function's entry or outside all of the hook's code. *)
Lemma plan_clears_patched_bytes request snapshot d backend bp threads m records m' records' s s' :
  diagnostics snapshot = Some d -> diag_function_address d <> 0 -> repatches request = true ->
  classify_stopped_threads request snapshot backend bp threads m records = (inr m', records') ->
  Forall (fun t => snap_pc t = counters s (snap_tid t)) threads ->
  evacuated s (m_instructions m') s' ->
  forall t, t ∈ threads ->
  let pc := counters s' (snap_tid t) in
  (pc = diag_function_address d \/
   pointer_in_range pc (diag_function_address d) (overwritten_prologue_len d) = false) /\
  (is_op PEAK_DETACH_OPERATION_SHUTDOWN request = true ->
   pc = diag_function_address d \/ classify_pc_from_snapshot snapshot pc = GUM_PEAK_PC_SAFE).
Proof.
  intros Hd Hfa Hre Hplan Hpcs Hev t Ht pc.
  apply classify_stopped_spec in Hplan as (ps & ws & Hp).
  pose proof (fun i => plan_is_writes _ _ _ _ _ _ _ _ _ i Hp) as Hws.
  destruct Hp as [Hps Hins _ Hnd _ _]. rewrite Hins in Hev.
  destruct (repatches_not_revert _ Hre) as [Hctx Hrev].
  assert (Hcan : canonical_function_address request snapshot = diag_function_address d).
  { unfold canonical_function_address. rewrite Hd. by apply Z.eqb_neq in Hfa as ->. }
  assert (Hdiag : diag snapshot = d) by (unfold diag; by rewrite Hd).
  destruct (planned_thread _ _ _ _ _ _ Hps Hnd Ht) as (p & Hplan & Huniq & Hin).
  rewrite Forall_forall in Hpcs. specialize (Hpcs t Ht).
  assert (Hsame : p = None -> pc = snap_pc t).
  { intros ->. unfold pc. rewrite Hpcs. apply (ev_others _ _ _ Hev). intros i Hi Hti.
    apply elem_of_app in Hi as [Hi|Hi].
    - intros Heq. by specialize (Huniq i Hi Heq).
    - destruct (Hws i Hi) as [Hfalse _]. by rewrite Hti in Hfalse. }
  assert (Hmem : forall i, p = Some i -> i ∈ planned ps ++ ws) by (intros i Hi; apply elem_of_app; auto).
  assert (Hzero : snap_pc t = 0 -> classify_pc_from_snapshot snapshot (snap_pc t) = GUM_PEAK_PC_UNKNOWN)
    by (intros ->; done).
  assert (Hout : p = None -> classify_pc_from_snapshot snapshot (snap_pc t) <> GUM_PEAK_PC_AT_PATCH_ENTRY ->
    classify_pc_from_snapshot snapshot (snap_pc t) <> GUM_PEAK_PC_UNKNOWN ->
    pointer_in_range pc (diag_function_address d) (overwritten_prologue_len d) = false).
  { intros Hn Hc Hu. rewrite (Hsame Hn). apply (classify_out_of_patch snapshot); auto. }
  assert (Hset : p = Some (mkInstruction (snap_tid t) SET_PC (diag_function_address (diag snapshot)) 0 0
                             (replicate 32 0)) -> pc = diag_function_address d).
  { intros Hp. specialize (Hmem _ Hp). pose proof (ev_set_pc _ _ _ Hev _ Hmem eq_refl) as Hpc.
    simpl in Hpc. by rewrite Hdiag in Hpc. }
  assert (Hmeta : is_op PEAK_DETACH_OPERATION_SHUTDOWN request = true ->
    mutation_is_physical_entry_bytes_only (begin_mutation request m) = false).
  { unfold is_op. intros Ho%bool_decide_eq_true_1. unfold begin_mutation. by rewrite Ho. }
  destruct Hplan as (_ & _ & _ & Hplan).
  destruct (classify_pc_from_snapshot snapshot (snap_pc t)) eqn:Hc; try done.
  { split; [right; by apply Hout|]. intros _. right. by rewrite (Hsame Hplan). }
  { rewrite Hcan, Hdiag in Hplan. destruct Hplan as [[Hn [Hx|[Hx|Hx]]]|(Hop & Hlen & Hp)].
    + by rewrite Hctx in Hx.
    + by rewrite Hrev in Hx.
    + rewrite (Hsame Hn). auto.
    + pose proof (ev_stepped _ _ _ Hev _ (Hmem _ Hp) eq_refl) as Hst. cbn in Hst.
      split; [right; by apply pc_in_range_pointer|]. intros Hs. exfalso. revert Hop Hs.
      unfold is_op. by intros ->%bool_decide_eq_true_1 ?%bool_decide_eq_true_1. }
  all: destruct Hplan as [[Hb Hn]|(_ & _ & Hp)]; [|by rewrite (Hset Hp); auto].
  all: split; [right; by apply Hout|]; intros Hs; by rewrite (Hmeta Hs) in Hb.
Qed.

(** ** Aggregation *)

(** Two instructions of a batch that may stand together. *)
Definition compatible (i j : PeakDetachHelperInstruction) : Prop :=
  (ins_action i = ins_action j -> ins_action i = SET_PC \/ ins_action i = SINGLE_STEP_OUT_OF_RANGE ->
   ins_tid i <> ins_tid j) /\
  (ins_action i = WRITE_MEMORY -> ins_action j = WRITE_MEMORY -> write_ranges_overlap i j = false).

(** Any two instructions, in this order. *)
Definition conflict_free (l : list PeakDetachHelperInstruction) : Prop :=
  forall a i b j c, l = a ++ i :: b ++ j :: c -> compatible i j.

Lemma conflict_free_snoc l x :
  conflict_free l -> (forall i, i ∈ l -> compatible i x) -> conflict_free (l ++ [x]).
Proof.
  intros Hl Hx a i b j c Heq.
  destruct c as [|y c _] using rev_ind.
  - assert (Heq' : l ++ [x] = (a ++ i :: b) ++ [j]) by (rewrite Heq; by rewrite <- app_assoc).
    apply app_inj_tail in Heq' as [Hl' ->]. apply Hx. rewrite Hl'. set_solver.
  - assert (Heq' : l ++ [x] = (a ++ i :: b ++ j :: c) ++ [y]).
    { rewrite Heq, <- app_assoc. simpl. rewrite <- app_assoc. done. }
    apply app_inj_tail in Heq' as [Hl' _]. by eapply Hl.
Qed.

(** No conflict and no duplicate: the candidate is compatible with all. *)
Lemma no_conflict_compatible l x :
  find_instruction_conflict l x = false -> instruction_is_duplicate l x = false ->
  forall i, i ∈ l -> compatible i x.
Proof.
  induction l as [|y l IH]; intros Hc Hd i Hi; [by apply not_elem_of_nil in Hi|].
  unfold instruction_is_duplicate in Hd. cbn [existsb] in Hd. apply orb_false_iff in Hd as [Hdy Hd].
  cbn [find_instruction_conflict] in Hc.
  destruct (Z.eqb_spec (ins_action y) (ins_action x)) as [Hact|Hact]; cbn [negb] in Hc.
  2: { apply elem_of_cons in Hi as [->|Hi]; [|by apply IH].
       split; intros ?; [by destruct Hact|]. intros Hx. exfalso. congruence. }
  simpl in Hdy. rewrite !orb_false_iff in Hdy. destruct Hdy as [[Hd1 Hd2] Hd3].
  destruct ((ins_action x =? SET_PC) && (ins_tid y =? ins_tid x)) eqn:H1.
  { apply negb_false_iff in Hc. by rewrite Hc in Hd1. }
  destruct ((ins_action x =? SINGLE_STEP_OUT_OF_RANGE) && (ins_tid y =? ins_tid x)) eqn:H2.
  { apply orb_false_iff in Hc as [Ha%negb_false_iff Hs%negb_false_iff]. by rewrite Ha, Hs in Hd2. }
  destruct ((ins_action x =? WRITE_MEMORY) && write_ranges_overlap y x) eqn:H3.
  { apply negb_false_iff in Hc. apply andb_true_iff in H3 as [H3 _]. by rewrite H3, Hc in Hd3. }
  apply elem_of_cons in Hi as [->|Hi]; [|by apply IH]. split.
  - intros _ Hk Heq. rewrite Hact, Heq, Z.eqb_refl, andb_true_r in *.
    destruct Hk as [Hk|Hk]; rewrite Hk in *; done.
  - intros _ Hx. rewrite Hx in H3. simpl in H3. done.
Qed.

Lemma append_candidate_conflict_free ins : forall aggregate aggregate',
  append_candidate_instructions aggregate ins = inr aggregate' ->
  conflict_free aggregate -> (length aggregate <= PEAK_DETACH_HELPER_MAX_INSTRUCTIONS)%nat ->
  conflict_free aggregate' /\ (length aggregate' <= PEAK_DETACH_HELPER_MAX_INSTRUCTIONS)%nat /\
  (forall i, i ∈ aggregate -> i ∈ aggregate').
Proof.
  induction ins as [|i ins IH]; intros agg agg' H Hcf Hlen; cbn [append_candidate_instructions] in H.
  { by simplify_eq. }
  destruct (find_instruction_conflict agg i) eqn:Hc; [done|].
  destruct (instruction_is_duplicate agg i) eqn:Hd; [by apply IH|].
  destruct (Nat.leb_spec PEAK_DETACH_HELPER_MAX_INSTRUCTIONS (length agg)); [done|].
  destruct (IH _ _ H) as (H1 & H2 & H3).
  - apply conflict_free_snoc; [done|]. by apply no_conflict_compatible.
  - rewrite length_app. simpl. lia.
  - split_and!; [done|done|]. intros j Hj. apply H3. set_solver.
Qed.
