(* ===== verification/DetachController.v ===== *)
(** * The detach controller

    Models the transactions of [src/detach_controller.c] in the strict mode
    (the only one [peak_detach_controller_mode] returns) with the Gum program
    counter interface: the thread-creation gate, the stop window accounting,
    the conversation with the helper process (composed with [DetachHelper]),
    the preparation of one mutation and of a batch, the end of a mutation and
    the shutdown of the helper.  The in-process signal backend is an oracle
    with a ghost flag that says whether it holds the threads; starting the
    helper process, the clock and memory allocation are oracles.  Every public
    operation runs under the mutation guard.  [None] is [_exit]; the flag
    [helper_state_fatal] is only set on the way to it.  The plan of a refused
    request, which nothing reads, is dropped. *)

From S2P Require Import Prelude HookModel DetachHelper DetachPlan.

Inductive PeakDetachRequestedBackend :=
  | PEAK_DETACH_REQUESTED_BACKEND_AUTO
  | PEAK_DETACH_REQUESTED_BACKEND_HELPER
  | PEAK_DETACH_REQUESTED_BACKEND_SIGNAL.

#[export] Instance requested_backend_eq_dec : EqDecision PeakDetachRequestedBackend.
Proof. solve_decision. Defined.

(** ** Surroundings *)

(** Oracles take the number of questions asked so far. *)
Record controller_env := mkControllerEnv {
  kernel : kernel_env;
  the_gum : gum;
  requested_backend : PeakDetachRequestedBackend;
  auto_should_use_signal_backend : bool;
  controller_pid : Z;
  controller_tid : Z;
  (** [inr] for success, [inl] for the status of the failure *)
  c_start_helper : nat -> option PeakDetachStatus;
  c_signal_backend : nat -> option PeakDetachStatus;
  c_write : nat -> bool;
  c_read : nat -> bool;
  c_errno_status : nat -> PeakDetachStatus;
  c_stat_try_stop : nat -> bool;
  c_signal_stop : nat -> PeakDetachStatus + list PeakDetachHelperThreadSnapshot;
  c_signal_evacuate : nat -> option PeakDetachStatus;
  (** whether the evacuation began to change the program *)
  c_signal_effect : nat -> bool;
  (** what it changed *)
  c_signal_memory : nat -> (Z -> Z) -> Z -> Z;
  c_signal_release : nat -> option PeakDetachStatus;
  c_contaminated : nat -> bool;
  breakpoint_can_evac : bool;
  c_clock_positive : nat -> bool;
  c_elapsed_ns : nat -> Z;
  c_allocate : nat -> bool
}.

Record PeakDetachAccounting := mkAccounting {
  completed_stop_window_count : Z;
  failed_stop_window_count : Z;
  stop_window_wall_ns : Z
}.

Record controller := mkController {
  held_mutation : PeakDetachHeldMutation;
  physical_patch_records : patch_records;
  (** [strict_mutation_thread_gate] and its epoch counter *)
  gate : Z;
  gate_epoch : Z;
  (** [helper_fd >= 0]; whether the process still serves *)
  helper_open : bool;
  helper_alive : bool;
  the_helper : helper;
  (** [bound_pid] of the helper's protocol loop *)
  helper_bound : Z;
  (** ghost: the signal backend holds the threads *)
  signal_held : bool;
  (** ghost: filesystem-stat calls are stopped *)
  stat_stopped : bool;
  (** [held_mutation_started_at > 0.0] *)
  window_open : bool;
  accounting : PeakDetachAccounting;
  signal_forward_effect_started : bool;
  (** pushes of [peak_signal_policy_push_migration_disabled] not yet popped *)
  migration_pushes : Z;
  asked : nat
}.

(** A state-passing program that may end the process. *)
Definition CM (A : Type) : Type := controller -> option A * controller.
Definition cret {A} (a : A) : CM A := fun s => (Some a, s).
Definition cbind {A B} (m : CM A) (f : A -> CM B) : CM B :=
  fun s => match m s with (Some a, s) => f a s | (None, s) => (None, s) end.
Notation "'run*' x := m 'in' k" := (cbind m (fun x => k))
  (at level 10, x pattern, m at level 100, k at level 200) : peak_scope.

Definition ask {A} (f : nat -> A) : CM A :=
  fun s => (Some (f (asked s)),
    mkController (held_mutation s) (physical_patch_records s) (gate s) (gate_epoch s) (helper_open s)
      (helper_alive s) (the_helper s) (helper_bound s) (signal_held s) (stat_stopped s) (window_open s) (accounting s)
      (signal_forward_effect_started s) (migration_pushes s) (S (asked s))).

Definition read {A} (f : controller -> A) : CM A := fun s => (Some (f s), s).

(** [peak_detach_controller_mark_helper_fatal]: the process ends; the helper
    sees its socket close. *)
Definition mark_helper_fatal {A} : CM A := fun s => (None, s).

Definition set_held_mutation (v : PeakDetachHeldMutation) : CM unit :=
  fun s => (Some tt,
    mkController v (physical_patch_records s) (gate s) (gate_epoch s) (helper_open s)
      (helper_alive s) (the_helper s) (helper_bound s) (signal_held s) (stat_stopped s) (window_open s) (accounting s)
      (signal_forward_effect_started s) (migration_pushes s) (asked s)).
Definition set_records (v : patch_records) : CM unit :=
  fun s => (Some tt,
    mkController (held_mutation s) v (gate s) (gate_epoch s) (helper_open s)
      (helper_alive s) (the_helper s) (helper_bound s) (signal_held s) (stat_stopped s) (window_open s) (accounting s)
      (signal_forward_effect_started s) (migration_pushes s) (asked s)).
Definition set_gate (v e : Z) : CM unit :=
  fun s => (Some tt,
    mkController (held_mutation s) (physical_patch_records s) v e (helper_open s)
      (helper_alive s) (the_helper s) (helper_bound s) (signal_held s) (stat_stopped s) (window_open s) (accounting s)
      (signal_forward_effect_started s) (migration_pushes s) (asked s)).
Definition set_helper (open alive : bool) (h : helper) (bound : Z) : CM unit :=
  fun s => (Some tt,
    mkController (held_mutation s) (physical_patch_records s) (gate s) (gate_epoch s) open
      alive h bound (signal_held s) (stat_stopped s) (window_open s) (accounting s)
      (signal_forward_effect_started s) (migration_pushes s) (asked s)).
Definition set_signal (held effect : bool) : CM unit :=
  fun s => (Some tt,
    mkController (held_mutation s) (physical_patch_records s) (gate s) (gate_epoch s) (helper_open s)
      (helper_alive s) (the_helper s) (helper_bound s) held (stat_stopped s) (window_open s) (accounting s)
      effect (migration_pushes s) (asked s)).
Definition set_stat (v : bool) : CM unit :=
  fun s => (Some tt,
    mkController (held_mutation s) (physical_patch_records s) (gate s) (gate_epoch s) (helper_open s)
      (helper_alive s) (the_helper s) (helper_bound s) (signal_held s) v (window_open s) (accounting s)
      (signal_forward_effect_started s) (migration_pushes s) (asked s)).
Definition set_window (v : bool) (a : PeakDetachAccounting) : CM unit :=
  fun s => (Some tt,
    mkController (held_mutation s) (physical_patch_records s) (gate s) (gate_epoch s) (helper_open s)
      (helper_alive s) (the_helper s) (helper_bound s) (signal_held s) (stat_stopped s) v a
      (signal_forward_effect_started s) (migration_pushes s) (asked s)).
Definition add_migration (d : Z) : CM unit :=
  fun s => (Some tt,
    mkController (held_mutation s) (physical_patch_records s) (gate s) (gate_epoch s) (helper_open s)
      (helper_alive s) (the_helper s) (helper_bound s) (signal_held s) (stat_stopped s) (window_open s) (accounting s)
      (signal_forward_effect_started s) (migration_pushes s + d) (asked s)).

Section Controller.
Context (env : controller_env).

(** ** The thread-creation gate *)

Definition begin_thread_creation_gate : CM unit :=
  run* counter := read gate_epoch in
  let epoch := to_pid (counter + 1) in
  if epoch <=? 0 then set_gate 1 1 else set_gate epoch epoch.

Definition end_thread_creation_gate : CM unit :=
  run* epoch := read gate_epoch in set_gate 0 epoch.

(** ** Stop window accounting *)

Definition accounting_add_saturated (current delta : Z) : Z :=
  let max_published := UINT64_MAX - 1 in
  if (0 <? delta) && (current <? max_published)
  then if max_published - current <? delta then max_published else current + delta
  else current.

Definition publish_stop_window_accounting (elapsed_ns : Z) (completed : bool) (a : PeakDetachAccounting)
    : PeakDetachAccounting :=
  let elapsed_ns := if elapsed_ns =? UINT64_MAX then UINT64_MAX - 1 else elapsed_ns in
  let wall := accounting_add_saturated (stop_window_wall_ns a) elapsed_ns in
  if completed
  then mkAccounting (accounting_add_saturated (completed_stop_window_count a) 1)
         (failed_stop_window_count a) wall
  else mkAccounting (completed_stop_window_count a)
         (accounting_add_saturated (failed_stop_window_count a) 1) wall.

Definition note_stop_window_started : CM unit :=
  run* positive := ask (c_clock_positive env) in
  run* a := read accounting in set_window positive a.

Definition note_stop_window (completed : bool) : CM unit :=
  run* elapsed := ask (c_elapsed_ns env) in
  run* s := read (fun s => s) in
  if window_open s then set_window false (publish_stop_window_accounting elapsed completed (accounting s))
  else set_window false (accounting s).

Definition note_stop_window_finished : CM unit := note_stop_window true.
Definition note_stop_window_failed : CM unit := note_stop_window false.

(** ** The helper process *)

(** A new process: it holds nothing and sees the program as it is. *)
Definition spawn_helper (h : helper) : helper :=
  mkHelper [] ∅ (memory h) (counters h) (calls h) (sleeps h) [] [] (data h).

(** The end of the socket: the helper releases what it holds and exits. *)
Definition hang_up (h : helper) : helper := (release_at_exit (detach_held_threads (kernel env) h).2).2.

Definition close_helper : CM unit :=
  run* s := read (fun s => s) in
  set_helper false false (if helper_alive s then hang_up (the_helper s) else the_helper s) 0.

(** [None] when there is a helper at the end. *)
Definition ensure_helper : CM (option PeakDetachStatus) :=
  run* s := read (fun s => s) in
  if helper_open s then cret None
  else
    run* r := ask (c_start_helper env) in
    match r with
    | Some status => cret (Some status)
    | None => run* _ := set_helper true true (spawn_helper (the_helper s)) 0 in cret None
    end.

Definition ensure_signal_backend : CM (option PeakDetachStatus) := ask (c_signal_backend env).

Definition helper_request (command : Z) (count : nat) : PeakDetachHelperRequest :=
  DetachHelper.mkRequest PEAK_DETACH_HELPER_MAGIC PEAK_DETACH_HELPER_VERSION command (controller_pid env) (controller_tid env)
    count.

(** Writes a message; [None] when the write fails, else what can be read
    back: a response and the snapshots after it. *)
Definition exchange (message : incoming)
    : CM (option (option (PeakDetachHelperResponse * option (list PeakDetachHelperThreadSnapshot)))) :=
  run* written := ask (c_write env) in
  run* s := read (fun s => s) in
  if negb written || negb (helper_open s) then cret None
  else if negb (helper_alive s) then cret (Some None)
  else
      let h := the_helper s in
      let '(exit, h') := serve_one (kernel env) (helper_bound s) message h in
      let h'' := match exit with Some _ => (release_at_exit h').2 | None => h' end in
      run* _ := set_helper (helper_open s) (match exit with Some _ => false | None => true end) h''
                  (bind_pid (helper_bound s) message) in
      run* readable := ask (c_read env) in
      if negb readable then cret (Some None)
      else
        match drop (length (responses h)) (responses h') with
        | r :: _ => cret (Some (Some (r, head (drop (length (payloads h)) (payloads h')))))
        | [] => cret (Some None)
        end.

Definition helper_status_to_detach_status (status : PeakDetachHelperStatus) : PeakDetachStatus :=
  match status with
  | PEAK_DETACH_HELPER_STATUS_OK => PEAK_DETACH_STATUS_SAFE
  | PEAK_DETACH_HELPER_STATUS_PERMISSION_DENIED => PEAK_DETACH_STATUS_PERMISSION_DENIED
  | PEAK_DETACH_HELPER_STATUS_UNSUPPORTED | PEAK_DETACH_HELPER_STATUS_THREAD_LIMIT =>
      PEAK_DETACH_STATUS_UNSUPPORTED
  | PEAK_DETACH_HELPER_STATUS_TIMEOUT => PEAK_DETACH_STATUS_TIMEOUT
  | _ => PEAK_DETACH_STATUS_ERROR
  end.

Definition stat_guard_resume : CM unit := set_stat false.

(** Success, or the status of the failure. *)
Definition send_helper_command (command : Z) (instructions : list PeakDetachHelperInstruction)
    (close_on_io_failure : bool) : CM (option PeakDetachStatus) :=
  run* open := read helper_open in
  run* answer :=
    (if negb open then cret None
     else
       run* payload_written := (match instructions with [] => cret true | _ => ask (c_write env) end) in
       if payload_written : bool
       then exchange (Request (helper_request command (length instructions)) (Some instructions))
       else cret None) in
  match answer with
  | None | Some None =>
      run* status := ask (c_errno_status env) in
      if close_on_io_failure then run* _ := close_helper in cret (Some status)
      else mark_helper_fatal
  | Some (Some (response, _)) =>
      match response_status response with
      | PEAK_DETACH_HELPER_STATUS_OK => cret None
      | PEAK_DETACH_HELPER_STATUS_RELEASE_FAILED => mark_helper_fatal
      | status =>
          run* _ :=
            (if command =? PEAK_DETACH_HELPER_CMD_EVACUATE then
               match status with
               | PEAK_DETACH_HELPER_STATUS_UNSUPPORTED | PEAK_DETACH_HELPER_STATUS_PERMISSION_DENIED
               | PEAK_DETACH_HELPER_STATUS_THREAD_LIMIT | PEAK_DETACH_HELPER_STATUS_PTRACE_ERROR
               | PEAK_DETACH_HELPER_STATUS_REGISTER_ERROR | PEAK_DETACH_HELPER_STATUS_TIMEOUT =>
                   stat_guard_resume
               | _ => mark_helper_fatal
               end
             else cret tt) in
          run* _ := (if close_on_io_failure then close_helper else cret tt) in
          cret (Some (helper_status_to_detach_status status))
      end
  end.

Definition send_evacuate (instructions : list PeakDetachHelperInstruction) : CM (option PeakDetachStatus) :=
  send_helper_command PEAK_DETACH_HELPER_CMD_EVACUATE instructions false.
Definition send_resume : CM (option PeakDetachStatus) :=
  send_helper_command PEAK_DETACH_HELPER_CMD_RESUME [] false.
Definition send_shutdown (close_on_io_failure : bool) : CM (option PeakDetachStatus) :=
  run* r := send_helper_command PEAK_DETACH_HELPER_CMD_SHUTDOWN [] close_on_io_failure in
  run* _ := (match r with None => close_helper | Some _ => cret tt end) in cret r.

Definition stop_threads_impl : CM (PeakDetachStatus + list PeakDetachHelperThreadSnapshot) :=
  run* answer := exchange (Request (helper_request PEAK_DETACH_HELPER_CMD_STOP 0) (Some [])) in
  match answer with
  | None =>
      run* status := ask (c_errno_status env) in
      run* _ := close_helper in cret (inl status)
  | Some None => mark_helper_fatal
  | Some (Some (response, payload)) =>
      match response_status response with
      | PEAK_DETACH_HELPER_STATUS_OK =>
          run* readable := ask (c_read env) in
          match payload with
          | Some snapshots =>
              if (PEAK_DETACH_HELPER_MAX_THREADS <? response_thread_count response)%nat || negb readable
              then mark_helper_fatal else cret (inr snapshots)
          | None => mark_helper_fatal
          end
      | PEAK_DETACH_HELPER_STATUS_RELEASE_FAILED => mark_helper_fatal
      | status =>
          cret (inl (if bool_decide (status = PEAK_DETACH_HELPER_STATUS_PTRACE_ERROR)
                        && (response_errno response =? EAGAIN)
                     then PEAK_DETACH_STATUS_TIMEOUT else helper_status_to_detach_status status))
      end
  end.

(** Both stop functions close the filesystem-stat gate first. *)
Definition with_stat_guard (stop : CM (PeakDetachStatus + list PeakDetachHelperThreadSnapshot))
    : CM (PeakDetachStatus + list PeakDetachHelperThreadSnapshot) :=
  run* ok := ask (c_stat_try_stop env) in
  if negb ok then cret (inl PEAK_DETACH_STATUS_FILESYSTEM_STAT_BUSY)
  else
    run* _ := set_stat true in
    run* r := stop in
    run* _ := (match r with inl _ => stat_guard_resume | inr _ => cret tt end) in cret r.

Definition stop_threads : CM (PeakDetachStatus + list PeakDetachHelperThreadSnapshot) :=
  with_stat_guard stop_threads_impl.

(** ** The signal backend *)

Definition signal_stop_threads : CM (PeakDetachStatus + list PeakDetachHelperThreadSnapshot) :=
  with_stat_guard
    (run* r := ask (c_signal_stop env) in
     run* _ := set_signal (match r with inr _ => true | inl _ => false end) false in
     cret r).

Definition signal_check_contamination : CM bool :=
  run* contaminated := ask (c_contaminated env) in
  if negb contaminated then cret true
  else
    run* effect := read signal_forward_effect_started in
    if effect : bool then mark_helper_fatal else cret false.

Definition signal_release : CM (option PeakDetachStatus) :=
  run* _ := signal_check_contamination in
  run* s := read (fun s => s) in
  if negb (signal_held s) then cret None
  else
    run* _ := stat_guard_resume in
    run* r := ask (c_signal_release env) in
    match r with
    | None => run* _ := set_signal false (signal_forward_effect_started s) in cret None
    | Some status => cret (Some status)
    end.

Definition signal_release_or_fatal : CM unit :=
  run* _ := signal_check_contamination in
  run* r := signal_release in
  match r with None => cret tt | Some _ => mark_helper_fatal end.

(** ** Backends *)

Definition resume_backend (backend : PeakDetachHoldBackend) : CM (option PeakDetachStatus) :=
  let signal := bool_decide (backend = PEAK_DETACH_HOLD_BACKEND_SIGNAL) in
  run* _ := (if signal then signal_check_contamination else cret true) in
  run* _ := stat_guard_resume in
  run* r := (if signal then signal_release else send_resume) in
  run* _ := (match r with None => stat_guard_resume | Some _ => cret tt end) in cret r.

Definition evacuate_backend (backend : PeakDetachHoldBackend)
    (instructions : list PeakDetachHelperInstruction) : CM (option PeakDetachStatus) :=
  if bool_decide (backend = PEAK_DETACH_HOLD_BACKEND_SIGNAL) then
    run* r := ask (c_signal_evacuate env) in
    run* effect := ask (c_signal_effect env) in
    run* change := ask (c_signal_memory env) in
    run* s := read (fun s => s) in
    run* _ := (if effect : bool
               then set_helper (helper_open s) (helper_alive s) (set_memory change (the_helper s)).2 (helper_bound s)
               else cret tt) in
    let effect := effect || signal_forward_effect_started s in
    run* _ := set_signal (signal_held s) effect in
    run* _ := (if effect then signal_check_contamination else cret true) in
    match r with
    | None => cret None
    | Some status => if effect then mark_helper_fatal else cret (Some status)
    end
  else send_evacuate instructions.

Definition status_allows_auto_signal_fallback (status : PeakDetachStatus) : bool :=
  match status with
  | PEAK_DETACH_STATUS_PERMISSION_DENIED | PEAK_DETACH_STATUS_TIMEOUT | PEAK_DETACH_STATUS_UNSUPPORTED => true
  | _ => false
  end.

Definition auto_requested : bool := bool_decide (requested_backend env = PEAK_DETACH_REQUESTED_BACKEND_AUTO).

(** The backend chosen before the stop: [NONE] stands for the helper until
    its stop succeeds. *)
Definition choose_backend : CM (PeakDetachStatus + PeakDetachHoldBackend) :=
  if bool_decide (requested_backend env = PEAK_DETACH_REQUESTED_BACKEND_SIGNAL)
     || (auto_requested && auto_should_use_signal_backend env)
  then
    run* r := ensure_signal_backend in
    cret (match r with Some status => inl status | None => inr PEAK_DETACH_HOLD_BACKEND_SIGNAL end)
  else
    run* r := ensure_helper in
    match r with
    | None => cret (inr PEAK_DETACH_HOLD_BACKEND_NONE)
    | Some status =>
        if auto_requested && status_allows_auto_signal_fallback status then
          run* r := ensure_signal_backend in
          cret (match r with Some status => inl status | None => inr PEAK_DETACH_HOLD_BACKEND_SIGNAL end)
        else cret (inl status)
    end.

(** The stop, with the fallback to signals in the automatic mode; the backend
    that holds the threads and their snapshots. *)
Definition stop_with_backend (backend : PeakDetachHoldBackend)
    : CM (PeakDetachStatus + (PeakDetachHoldBackend * list PeakDetachHelperThreadSnapshot)) :=
  if bool_decide (backend = PEAK_DETACH_HOLD_BACKEND_SIGNAL) then
    run* r := signal_stop_threads in
    cret (match r with inl status => inl status | inr sn => inr (PEAK_DETACH_HOLD_BACKEND_SIGNAL, sn) end)
  else
    run* r := stop_threads in
    match r with
    | inr sn => cret (inr (PEAK_DETACH_HOLD_BACKEND_HELPER, sn))
    | inl status =>
        if auto_requested && status_allows_auto_signal_fallback status then
          run* _ := close_helper in
          run* r := ensure_signal_backend in
          match r with
          | Some status => cret (inl status)
          | None =>
              run* r := signal_stop_threads in
              cret (match r with
                    | inl status => inl status
                    | inr sn => inr (PEAK_DETACH_HOLD_BACKEND_SIGNAL, sn)
                    end)
          end
        else cret (inl status)
    end.

(** True when the signal backend is in use and contaminated. *)
Definition contaminated (backend : PeakDetachHoldBackend) : CM bool :=
  if bool_decide (backend = PEAK_DETACH_HOLD_BACKEND_SIGNAL)
  then run* clean := signal_check_contamination in cret (negb clean)
  else cret false.

Definition resume_or_fatal (backend : PeakDetachHoldBackend) : CM unit :=
  run* r := resume_backend backend in
  match r with None => cret tt | Some _ => mark_helper_fatal end.

(** The common end of the failing branches after a stop. *)
Definition abandon_window : CM unit :=
  run* _ := note_stop_window_failed in end_thread_creation_gate.

Definition set_forward_effect : CM unit :=
  run* s := read (fun s => s) in set_signal (signal_held s) true.

(** ** One mutation *)

(** The record saved before the classification: the hook's, or the first free
    one. *)
Definition scalar_record (hook_id : Z) (records : patch_records)
    : option (nat * PeakDetachPhysicalPatchRecord) :=
  let i := match first_index (record_is hook_id) records with
           | Some i => Some i
           | None => first_index (fun r => negb (used r)) records
           end in
  match i with
  | Some i => match records !! i with Some r => Some (i, r) | None => None end
  | None => None
  end.

Definition restore_record (saved : option (nat * PeakDetachPhysicalPatchRecord)) : CM unit :=
  match saved with
  | Some (i, r) => run* records := read physical_patch_records in set_records (<[i := r]> records)
  | None => cret tt
  end.

(** What follows a successful stop: classification and evacuation. *)
Definition mutate_stopped (request : PeakDetachRequest) (snapshot : PeakDetachGumSnapshot)
    (backend : PeakDetachHoldBackend) (threads : list PeakDetachHelperThreadSnapshot)
    : CM (bool * PeakDetachStatus) :=
  run* bad := contaminated backend in
  if bad : bool then
    run* _ := signal_release_or_fatal in
    run* _ := abandon_window in
    run* _ := set_held_mutation zero_mutation in
    cret (false, PEAK_DETACH_STATUS_UNSUPPORTED)
  else
    run* s := read (fun s => s) in
    let saved := scalar_record (req_hook_id request) (physical_patch_records s) in
    let '(plan, records) :=
      classify_stopped_threads request snapshot backend (breakpoint_can_evac env) threads
        (held_mutation s) (physical_patch_records s) in
    run* _ := set_records records in
    match plan with
    | inl status =>
        run* _ := restore_record saved in
        run* _ := resume_or_fatal backend in
        run* _ := abandon_window in
        cret (false, status)
    | inr m =>
        run* _ := set_held_mutation m in
        run* r := (match m_instructions m with [] => cret None | ins => evacuate_backend backend ins end) in
        match r with
        | Some status =>
            run* _ := restore_record saved in
            run* _ := (if bool_decide (backend = PEAK_DETACH_HOLD_BACKEND_SIGNAL)
                       then signal_release_or_fatal else cret tt) in
            run* _ := abandon_window in
            run* _ := set_held_mutation zero_mutation in
            cret (false, status)
        | None =>
            run* bad := contaminated backend in
            if bad : bool then
              run* _ := restore_record saved in
              run* _ := signal_release_or_fatal in
              run* _ := abandon_window in
              run* _ := set_held_mutation zero_mutation in
              cret (false, PEAK_DETACH_STATUS_UNSUPPORTED)
            else
              run* _ := (if bool_decide (backend = PEAK_DETACH_HOLD_BACKEND_SIGNAL)
                         then set_forward_effect else cret tt) in
              run* _ := set_held_mutation
                (mkMutation true (m_uses_physical_patch m) (mutates_entry_bytes m) (mutates_gum_metadata m)
                   (frees_listener_state m) (requires_target_entry_idle m) (m_operation m) backend []) in
              run* _ := add_migration 1 in
              cret (true, PEAK_DETACH_STATUS_SAFE)
        end
    end.

Definition prepare_hook_mutation (request : PeakDetachRequest) : CM (bool * PeakDetachStatus) :=
  let '(valid, status) := validate_request request in
  if negb valid then cret (false, status)
  else
    run* s := read (fun s => s) in
    if m_active (held_mutation s) then cret (false, PEAK_DETACH_STATUS_ERROR)
    else
      run* _ := set_window false (accounting s) in
      run* chosen := choose_backend in
      match chosen with
      | inl status => cret (false, status)
      | inr backend =>
          match capture_gum_snapshot (the_gum env) request with
          | None => cret (false, PEAK_DETACH_STATUS_CLASSIFY_FAILED)
          | Some snapshot =>
              run* _ := begin_thread_creation_gate in
              run* _ := note_stop_window_started in
              run* stopped := stop_with_backend backend in
              match stopped with
              | inl status => run* _ := abandon_window in cret (false, status)
              | inr (backend, threads) => mutate_stopped request snapshot backend threads
              end
          end
      end.

(** ** A batch of mutations *)

Record PeakDetachBatchCandidate := mkCandidate {
  c_valid : bool;
  c_safe : bool;
  c_snapshot : PeakDetachGumSnapshot;
  c_mutation : PeakDetachHeldMutation
}.

Record batch := mkBatch {
  b_candidates : list PeakDetachBatchCandidate;
  b_results : list PeakDetachBatchResult
}.

Definition no_snapshot : PeakDetachGumSnapshot := mkGumSnapshot None None.

Definition set_status (status : PeakDetachStatus) (r : PeakDetachBatchResult) : PeakDetachBatchResult :=
  mkBatchResult (prepared r) (uses_physical_patch r) status.
Definition unprepared (status : PeakDetachStatus) (r : PeakDetachBatchResult) : PeakDetachBatchResult :=
  mkBatchResult false false status.

Definition invalidate (c : PeakDetachBatchCandidate) : PeakDetachBatchCandidate :=
  mkCandidate false (c_safe c) (c_snapshot c) (c_mutation c).

Definition valid_at (b : batch) (i : nat) : bool :=
  match b_candidates b !! i with Some c => c_valid c | None => false end.

(** Candidate [i] becomes invalid with a status. *)
Definition refuse (status : PeakDetachStatus) (i : nat) (b : batch) : batch :=
  mkBatch (alter invalidate i (b_candidates b)) (alter (set_status status) i (b_results b)).

(** The status of a request when the batch begins, and whether it is taken. *)
Definition accept_request (request : PeakDetachRequest) : bool * PeakDetachStatus :=
  let '(valid, status) := validate_request request in
  if negb valid then (false, status)
  else if negb (is_op PEAK_DETACH_OPERATION_ATTACH request) && negb (is_op PEAK_DETACH_OPERATION_DETACH request)
          && negb (is_op PEAK_DETACH_OPERATION_REATTACH request)
  then (false, PEAK_DETACH_STATUS_UNSUPPORTED)
  else (true, PEAK_DETACH_STATUS_SAFE).

Definition initial_batch (requests : list PeakDetachRequest) (usable : nat) : batch :=
  mkBatch
    (map (fun r => mkCandidate (accept_request r).1 false no_snapshot zero_mutation) (take usable requests))
    (map (fun r => mkBatchResult false false (accept_request r).2) (take usable requests)
     ++ map (fun _ => mkBatchResult false false PEAK_DETACH_STATUS_ERROR) (drop usable requests)).

Definition same_target (requests : list PeakDetachRequest) (i j : nat) : bool :=
  match requests !! i, requests !! j with
  | Some a, Some b =>
      (req_hook_id a =? req_hook_id b) || (req_function_address a =? req_function_address b)
  | _, _ => false
  end.

Definition refuse_same_targets (requests : list PeakDetachRequest) (n i : nat) (b : batch) : batch :=
  if valid_at b i then
    fold_left (fun b j =>
      if valid_at b j && same_target requests i j
      then refuse PEAK_DETACH_STATUS_UNSUPPORTED j (refuse PEAK_DETACH_STATUS_UNSUPPORTED i b)
      else b) (seq (S i) (n - S i)) b
  else b.

(** A reattach needs its patch record; then the Gum snapshot is taken. *)
Definition capture_candidate (requests : list PeakDetachRequest) (records : patch_records) (i : nat) (b : batch)
    : batch :=
  match requests !! i with
  | Some request =>
      if negb (valid_at b i) then b
      else if is_op PEAK_DETACH_OPERATION_REATTACH request
              && match (find_physical_patch_record (req_hook_id request) false records).1
                         ≫= fun k => records !! k with
                 | Some r => patch_size r =? 0
                 | None => true
                 end
      then refuse PEAK_DETACH_STATUS_CLASSIFY_FAILED i b
      else
        match capture_gum_snapshot (the_gum env) request with
        | None => refuse PEAK_DETACH_STATUS_CLASSIFY_FAILED i b
        | Some snapshot =>
            mkBatch (alter (fun c => mkCandidate (c_valid c) (c_safe c) snapshot (c_mutation c)) i
                       (b_candidates b)) (b_results b)
        end
  | None => b
  end.

Definition canonical_at (requests : list PeakDetachRequest) (b : batch) (i : nat) : option (Z * Z) :=
  match requests !! i, b_candidates b !! i with
  | Some request, Some c =>
      if c_valid c then Some (req_hook_id request, canonical_function_address request (c_snapshot c)) else None
  | _, _ => None
  end.

(** [duplicate_indices[i]] *)
Definition canonical_duplicate (requests : list PeakDetachRequest) (n : nat) (b : batch) (i : nat) : bool :=
  existsb (fun j =>
    negb (j =? i)%nat &&
    match canonical_at requests b i, canonical_at requests b j with
    | Some (id1, a1), Some (id2, a2) => (id1 =? id2) || (a1 =? a2)
    | _, _ => false
    end) (seq 0 n).

Definition refuse_canonical_duplicates (requests : list PeakDetachRequest) (n : nat) (b : batch) : batch :=
  if (1 <? countb c_valid (b_candidates b))%nat then
    fold_left (fun b' i =>
      if canonical_duplicate requests n b i then refuse PEAK_DETACH_STATUS_UNSUPPORTED i b' else b')
      (seq 0 n) b
  else b.

(** The loop that classifies the candidates and adds up their plans; the
    status when the batch is ambiguous. *)
Fixpoint classify_batch (requests : list PeakDetachRequest) (backend : PeakDetachHoldBackend)
    (threads : list PeakDetachHelperThreadSnapshot) (todo : list nat)
    (aggregate : PeakDetachHeldMutation) (records : patch_records) (b : batch)
    : option PeakDetachStatus * PeakDetachHeldMutation * patch_records * batch :=
  match todo with
  | [] => (None, aggregate, records, b)
  | i :: todo =>
      match requests !! i, b_candidates b !! i with
      | Some request, Some c =>
          if negb (c_valid c) then classify_batch requests backend threads todo aggregate records b
          else
            let '(plan, records) :=
              classify_stopped_threads request (c_snapshot c) backend (breakpoint_can_evac env) threads
                (c_mutation c) records in
            match plan with
            | inl status =>
                classify_batch requests backend threads todo aggregate records
                  (mkBatch (b_candidates b) (alter (set_status status) i (b_results b)))
            | inr m =>
                match append_candidate_mutation aggregate m with
                | inl status =>
                    (Some status, aggregate, records,
                     mkBatch (<[i := mkCandidate (c_valid c) (c_safe c) (c_snapshot c) m]> (b_candidates b))
                       (b_results b))
                | inr aggregate =>
                    classify_batch requests backend threads todo aggregate records
                      (mkBatch (<[i := mkCandidate (c_valid c) true (c_snapshot c) m]> (b_candidates b))
                         (alter (set_status PEAK_DETACH_STATUS_SAFE) i (b_results b)))
                end
            end
      | _, _ => classify_batch requests backend threads todo aggregate records b
      end
  end.

(** The final statuses of the failing branches: of the candidates that satisfy
    a test, or of all. *)
Definition results_where (test : PeakDetachBatchCandidate -> PeakDetachBatchResult -> bool)
    (f : PeakDetachBatchResult -> PeakDetachBatchResult) (b : batch) : list PeakDetachBatchResult :=
  zip_with (fun c r => if test c r then f r else r) (b_candidates b) (take (length (b_candidates b)) (b_results b))
  ++ drop (length (b_candidates b)) (b_results b).

(** [fail_all_locked] *)
Definition fail_all (status : PeakDetachStatus) (b : batch) : list PeakDetachBatchResult :=
  results_where (fun c r => c_valid c || bool_decide (batch_result_status r = PEAK_DETACH_STATUS_SAFE))
    (set_status status) b.

(** Success flag, results, prepared count, status. *)
Definition batch_answer : Type := bool * list PeakDetachBatchResult * nat * PeakDetachStatus.

Definition mutate_stopped_batch (requests : list PeakDetachRequest) (usable : nat) (b : batch)
    (saved : patch_records) (backend : PeakDetachHoldBackend)
    (threads : list PeakDetachHelperThreadSnapshot) : CM batch_answer :=
  run* bad := contaminated backend in
  if bad : bool then
    run* _ := set_records saved in
    run* _ := signal_release_or_fatal in
    run* _ := abandon_window in
    run* _ := set_held_mutation zero_mutation in
    cret (false, results_where (fun _ _ => true) (unprepared PEAK_DETACH_STATUS_UNSUPPORTED) b, 0%nat,
          PEAK_DETACH_STATUS_UNSUPPORTED)
  else
    run* records := read physical_patch_records in
    let '(ambiguous, aggregate, records, b) :=
      classify_batch requests backend threads (seq 0 usable) zero_mutation records b in
    run* _ := set_records records in
    match ambiguous with
    | Some status =>
        run* _ := set_records saved in
        run* _ := resume_or_fatal backend in
        run* _ := abandon_window in
        cret (false, results_where (fun c _ => c_valid c) (unprepared status) b, 0%nat, status)
    | None =>
        if (countb c_safe (b_candidates b) =? 0)%nat then
          run* _ := set_records saved in
          run* _ := resume_or_fatal backend in
          run* _ := abandon_window in
          cret (false, b_results b, 0%nat, PEAK_DETACH_STATUS_CLASSIFY_FAILED)
        else
          run* r := (match m_instructions aggregate with
                     | [] => cret None
                     | ins => evacuate_backend backend ins
                     end) in
          match r with
          | Some status =>
              run* _ := set_records saved in
              run* _ := (if bool_decide (backend = PEAK_DETACH_HOLD_BACKEND_SIGNAL)
                         then signal_release_or_fatal else cret tt) in
              run* _ := abandon_window in
              run* _ := set_held_mutation zero_mutation in
              cret (false, results_where (fun c _ => c_safe c) (set_status status) b, 0%nat, status)
          | None =>
              run* bad := contaminated backend in
              if bad : bool then
                run* _ := set_records saved in
                run* _ := signal_release_or_fatal in
                run* _ := abandon_window in
                run* _ := set_held_mutation zero_mutation in
                cret (false, results_where (fun _ _ => true) (unprepared PEAK_DETACH_STATUS_UNSUPPORTED) b,
                      0%nat, PEAK_DETACH_STATUS_UNSUPPORTED)
              else
                run* _ := (if bool_decide (backend = PEAK_DETACH_HOLD_BACKEND_SIGNAL)
                           then set_forward_effect else cret tt) in
                run* _ := set_held_mutation
                  (mkMutation true (m_uses_physical_patch aggregate) (mutates_entry_bytes aggregate)
                     (mutates_gum_metadata aggregate) (frees_listener_state aggregate)
                     (requires_target_entry_idle aggregate) (Some PEAK_DETACH_OPERATION_DETACH) backend []) in
                run* _ := add_migration 1 in
                cret (true,
                      zip_with (fun c r =>
                        if c_safe c
                        then mkBatchResult true (m_uses_physical_patch (c_mutation c)) (batch_result_status r)
                        else r)
                        (b_candidates b) (take (length (b_candidates b)) (b_results b))
                      ++ drop (length (b_candidates b)) (b_results b),
                      countb c_safe (b_candidates b), PEAK_DETACH_STATUS_SAFE)
          end
    end.

Definition PEAK_DETACH_CONTROLLER_MAX_BATCH_REQUESTS : nat := PEAK_DETACH_HELPER_MAX_BATCH_WRITES.

Definition prepare_hook_mutation_batch (requests : list PeakDetachRequest) : CM batch_answer :=
  match requests with
  | [] => cret (false, [], 0%nat, PEAK_DETACH_STATUS_ERROR)
  | _ =>
      let usable := Nat.min (length requests) PEAK_DETACH_CONTROLLER_MAX_BATCH_REQUESTS in
      let errors := map (fun _ => mkBatchResult false false PEAK_DETACH_STATUS_ERROR) requests in
      run* allocated := ask (c_allocate env) in
      if negb allocated then cret (false, errors, 0%nat, PEAK_DETACH_STATUS_ERROR)
      else
        run* s := read (fun s => s) in
        if m_active (held_mutation s) then cret (false, errors, 0%nat, PEAK_DETACH_STATUS_ERROR)
        else
          run* _ := set_window false (accounting s) in
          let b := initial_batch requests usable in
          let b := fold_left (fun b i => refuse_same_targets requests usable i b) (seq 0 usable) b in
          let b := fold_left (fun b i => capture_candidate requests (physical_patch_records s) i b)
                     (seq 0 usable) b in
          let b := refuse_canonical_duplicates requests usable b in
          if (countb c_valid (b_candidates b) =? 0)%nat
          then cret (false, b_results b, 0%nat,
                     empty_batch_status (map batch_result_status (take usable (b_results b))))
          else
            run* chosen := choose_backend in
            match chosen with
            | inl status => cret (false, fail_all status b, 0%nat, status)
            | inr backend =>
                run* allocated := ask (c_allocate env) in
                if negb allocated
                then cret (false, fail_all PEAK_DETACH_STATUS_ERROR b, 0%nat, PEAK_DETACH_STATUS_ERROR)
                else
                  run* _ := begin_thread_creation_gate in
                  run* _ := note_stop_window_started in
                  run* stopped := stop_with_backend backend in
                  match stopped with
                  | inl status =>
                      run* _ := abandon_window in cret (false, fail_all status b, 0%nat, status)
                  | inr (backend, threads) =>
                      mutate_stopped_batch requests usable b (physical_patch_records s) backend threads
                  end
            end
  end.

(** ** The end of a mutation *)

(** The batch form passes no request. *)
Definition finish_hook_mutation (request : option PeakDetachRequest) : CM (bool * PeakDetachStatus) :=
  run* s := read (fun s => s) in
  if match request with Some r => negb (operation_is_valid (req_operation r)) | None => false end
  then cret (false, PEAK_DETACH_STATUS_ERROR)
  else if m_active (held_mutation s) then
    run* r := resume_backend (m_backend (held_mutation s)) in
    match r with
    | Some _ => run* _ := note_stop_window_failed in mark_helper_fatal
    | None =>
        run* _ := note_stop_window_finished in
        run* _ := end_thread_creation_gate in
        run* _ := set_held_mutation zero_mutation in
        run* _ := add_migration (-1) in
        cret (true, PEAK_DETACH_STATUS_SAFE)
    end
  else cret (true, PEAK_DETACH_STATUS_SAFE).

Definition shutdown_helper : CM (bool * PeakDetachStatus) :=
  run* s := read (fun s => s) in
  if m_active (held_mutation s) then cret (false, PEAK_DETACH_STATUS_ERROR)
  else if helper_open s then
    run* r := send_shutdown true in
    cret (match r with None => (true, PEAK_DETACH_STATUS_SAFE) | Some status => (false, status) end)
  else cret (true, PEAK_DETACH_STATUS_SAFE).

Definition threads_are_held (s : controller) : bool := m_active (held_mutation s).

Definition current_mutation_uses_physical_patch (s : controller) : bool :=
  m_active (held_mutation s) && m_uses_physical_patch (held_mutation s).

End Controller.
