(* ===== verification/DetachTransactions.v ===== *)
(** * Transactions of the detach controller

    Theorems about [DetachController] composed with the helper process:
    threads are held exactly while a mutation is active, a preparation that
    fails leaves everything as it was, and what a successful one guarantees. *)

From S2P Require Import Prelude HookModel DetachHelper DetachHelperProofs DetachHelperWrites DetachHelperSession DetachPlan DetachPlanProofs DetachController.

(** ** A logic for programs that may end the process *)

Definition ctriple {A} (P : controller -> Prop) (m : CM A) (Q : A -> controller -> Prop) : Prop :=
  forall s, P s -> match m s with (Some a, s') => Q a s' | (None, _) => True end.

Lemma ctriple_bind {A B} P (m : CM A) R (f : A -> CM B) Q :
  ctriple P m R -> (forall a, ctriple (R a) (f a) Q) -> ctriple P (cbind m f) Q.
Proof.
  intros Hm Hf s HP. specialize (Hm s HP). unfold cbind. destruct (m s) as [[a|] s']; [|done].
  by apply Hf.
Qed.

Lemma ctriple_ret {A} (P : controller -> Prop) (a : A) (Q : A -> controller -> Prop) :
  (forall s, P s -> Q a s) -> ctriple P (cret a) Q.
Proof. intros HQ s HP. by apply HQ. Qed.

Lemma ctriple_read {A} (P : controller -> Prop) (f : controller -> A) :
  ctriple P (read f) (fun a s => P s /\ a = f s).
Proof. by intros s HP. Qed.

Lemma ctriple_fatal {A} P (Q : A -> controller -> Prop) : ctriple P mark_helper_fatal Q.
Proof. by intros s HP. Qed.

Lemma ctriple_weaken {A} (P P' : controller -> Prop) (m : CM A) (Q Q' : A -> controller -> Prop) :
  ctriple P' m Q' -> (forall s, P s -> P' s) -> (forall a s, Q' a s -> Q a s) -> ctriple P m Q.
Proof.
  intros Hm HP HQ s Hs. specialize (Hm s (HP s Hs)). destruct (m s) as [[a|] s']; [by apply HQ|done].
Qed.

Lemma ctriple_pre {A} (P P' : controller -> Prop) (m : CM A) (Q : A -> controller -> Prop) :
  ctriple P' m Q -> (forall s, P s -> P' s) -> ctriple P m Q.
Proof. intros Hm HP s Hs. by apply Hm, HP. Qed.

(** The pure facts of a precondition. *)
Lemma ctriple_pure {A} (P : Prop) (R : controller -> Prop) (m : CM A) Q :
  (P -> ctriple R m Q) -> ctriple (fun s => R s /\ P) m Q.
Proof. intros Hm s [HR HP]. by apply Hm. Qed.

Create HintDb detach.

Lemma ctriple_fact {A} (X : Prop) (P : controller -> Prop) (m : CM A) Q :
  (forall s, P s -> X) -> (X -> ctriple P m Q) -> ctriple P m Q.
Proof. intros HX Hm s HP. by apply Hm; [eapply HX|]. Qed.

(** Reading the whole state: [X] is what is known of it. *)
Lemma ctriple_get {A} (P : controller -> Prop) (X : controller -> Prop) (f : controller -> CM A) Q :
  (forall s, P s -> X s) -> (forall s0, X s0 -> ctriple P (f s0) Q) ->
  ctriple P (cbind (read (fun s => s)) f) Q.
Proof. intros HX Hf s HP. by apply Hf; [apply HX|]. Qed.

(** ** States *)

Section Transactions.
Context (env : controller_env).

(** No thread is held by either backend, except those that a stop of the helper
    kept when it could not open the task directory. *)
Definition released (s : controller) : Prop :=
  wf (the_helper s) /\ released_or_unlisted (kernel env) (the_helper s) /\ signal_held s = false.

(** The threads are stopped by [backend]; the helper holds every task of some
    complete listing but the controller. *)
Definition stopped_by (backend : PeakDetachHoldBackend) (s : controller) : Prop :=
  wf (the_helper s) /\
  match backend with
  | PEAK_DETACH_HOLD_BACKEND_HELPER =>
      helper_open s = true /\ helper_alive s = true /\ signal_held s = false /\
      covered (kernel env) (controller_tid env) (the_helper s)
  | PEAK_DETACH_HOLD_BACKEND_SIGNAL =>
      released_or_unlisted (kernel env) (the_helper s) /\ signal_held s = true
  | PEAK_DETACH_HOLD_BACKEND_NONE => False
  end.

(** The gates for new threads and for filesystem-stat calls: open, closed for
    new threads only, closed for new threads and maybe for stat calls. *)
Definition opened (g : Z) (stat : bool) : Prop := g = 0 /\ stat = false.
Definition closed (g : Z) (stat : bool) : Prop := 0 < g /\ stat = false.
Definition closing (g : Z) (stat : bool) : Prop := 0 < g.

(** Inside a transaction: the mutation is not active yet, the program and the
    table of patches are as at its start, and the threads run. *)
Record Rest (g : Z -> bool -> Prop) (m0 : Z -> Z) (r0 : patch_records) (s : controller) : Prop := {
  rest_inactive : m_active (held_mutation s) = false;
  rest_released : released s;
  rest_gate : g (gate s) (stat_stopped s);
  rest_memory : memory (the_helper s) = m0;
  rest_records : physical_patch_records s = r0
}.

(** The same with the threads stopped. *)
Record Held (backend : PeakDetachHoldBackend) (g : Z -> bool -> Prop) (r0 : patch_records)
    (s : controller) : Prop := {
  hold_inactive : m_active (held_mutation s) = false;
  hold_stopped : stopped_by backend s;
  hold_gate : g (gate s) (stat_stopped s);
  hold_records : physical_patch_records s = r0
}.

(** The program is unchanged, and the signal backend knows it. *)
Definition clean (backend : PeakDetachHoldBackend) (m0 : Z -> Z) (s : controller) : Prop :=
  memory (the_helper s) = m0 /\
  (backend = PEAK_DETACH_HOLD_BACKEND_SIGNAL -> signal_forward_effect_started s = false).

Definition HeldClean backend g m0 r0 (s : controller) : Prop := Held backend g r0 s /\ clean backend m0 s.

(** Between transactions. *)
Definition at_rest (s : controller) : Prop :=
  Rest opened (memory (the_helper s)) (physical_patch_records s) s.

Record in_window (s : controller) : Prop := {
  window_active : m_active (held_mutation s) = true;
  window_stopped : stopped_by (m_backend (held_mutation s)) s;
  window_gate : 0 < gate s
}.

(** The parts of the state these predicates read. *)
Definition core (s : controller) :=
  (held_mutation s, physical_patch_records s, gate s, helper_open s, helper_alive s, the_helper s,
   signal_held s, stat_stopped s, signal_forward_effect_started s).

Definition core_only (I : controller -> Prop) : Prop := forall s s', core s' = core s -> I s -> I s'.

Lemma released_core : core_only released.
Proof. unfold core. intros s s' Hc (? & ? & ?). simplify_eq. split_and!; congruence. Qed.

Lemma stopped_core backend : core_only (stopped_by backend).
Proof.
  unfold core. intros s s' Hc [Hw Hb]. simplify_eq.
  assert (Hh : the_helper s' = the_helper s) by congruence. split; [congruence|].
  destruct backend; [done|rewrite Hh; destruct Hb as (? & ? & ? & ?); split_and!; congruence|].
  destruct Hb as [? ?]. split; congruence.
Qed.

Lemma rest_core g m0 r0 : core_only (Rest g m0 r0).
Proof.
  intros s s' Hc [? ? ? ? ?]. split; try (unfold core in Hc; simplify_eq; congruence).
  by eapply released_core.
Qed.

Lemma held_core backend g r0 : core_only (Held backend g r0).
Proof.
  intros s s' Hc [? ? ? ?]. split; try (unfold core in Hc; simplify_eq; congruence).
  by eapply stopped_core.
Qed.

Lemma held_clean_core backend g m0 r0 : core_only (HeldClean backend g m0 r0).
Proof.
  intros s s' Hc [Hh [Hm Hf]]. split; [by eapply held_core|].
  unfold core in Hc. simplify_eq. split; [congruence|]. intros Hb. rewrite <- (Hf Hb). congruence.
Qed.

#[local] Hint Resolve rest_core held_core held_clean_core : detach.

(** ** Operations that leave the core alone *)

Definition keeps_core {A} (m : CM A) : Prop :=
  forall s, match m s with (Some _, s') => core s' = core s | (None, _) => True end.

Lemma keeps_core_use {A} (m : CM A) I : keeps_core m -> core_only I -> ctriple I m (fun _ => I).
Proof.
  intros Hm HI s Hs. specialize (Hm s). destruct (m s) as [[a|] s']; [|done]. by eapply HI.
Qed.

Lemma keeps_core_bind {A B} (m : CM A) (f : A -> CM B) :
  keeps_core m -> (forall a, keeps_core (f a)) -> keeps_core (cbind m f).
Proof.
  intros Hm Hf s. unfold cbind. specialize (Hm s). destruct (m s) as [[a|] s1]; [|done].
  specialize (Hf a s1). destruct (f a s1) as [[b|] s2]; [|done]. by rewrite Hf.
Qed.

Lemma core_ask {A} (f : nat -> A) : keeps_core (ask f). Proof. done. Qed.
Lemma core_ret {A} (a : A) : keeps_core (cret a). Proof. done. Qed.
Lemma core_read {A} (f : controller -> A) : keeps_core (read f). Proof. done. Qed.
Lemma core_fatal {A} : keeps_core (mark_helper_fatal : CM A). Proof. done. Qed.
Lemma core_window v a : keeps_core (set_window v a). Proof. done. Qed.
Lemma core_migration d : keeps_core (add_migration d). Proof. done. Qed.

#[local] Hint Resolve core_ask core_ret core_read core_fatal core_window core_migration : detach.

Ltac core_walk :=
  repeat (cbv beta zeta;
    lazymatch goal with
    | |- keeps_core (cbind _ _) => apply keeps_core_bind; [|intros ?]
    | |- keeps_core (if ?b then _ else _) => destruct b
    | |- keeps_core (match ?x with _ => _ end) => destruct x
    end; try (solve [auto with detach])).

Lemma core_note_started : keeps_core (note_stop_window_started env).
Proof. unfold note_stop_window_started. core_walk. Qed.

Lemma core_note completed : keeps_core (note_stop_window env completed).
Proof. unfold note_stop_window. core_walk. Qed.

Lemma core_contamination : keeps_core (signal_check_contamination env).
Proof. unfold signal_check_contamination. core_walk. Qed.

Lemma core_contaminated backend : keeps_core (contaminated env backend).
Proof. unfold contaminated. pose proof core_contamination. core_walk. Qed.

Lemma core_ensure_signal : keeps_core (ensure_signal_backend env).
Proof. unfold ensure_signal_backend. core_walk. done. Qed.

#[local] Hint Resolve core_note_started core_note core_contamination core_contaminated core_ensure_signal : detach.

(** Binding an operation that keeps the core. *)
Lemma ctriple_core {A B} I (m : CM A) (f : A -> CM B) Q :
  keeps_core m -> core_only I -> (forall a, ctriple I (f a) Q) -> ctriple I (cbind m f) Q.
Proof. intros Hm HI Hf. eapply ctriple_bind; [by apply keeps_core_use|done]. Qed.

(** ** The helper *)

Lemma released_after_exit h : wf (release_at_exit h).2 /\ held_threads (release_at_exit h).2 = [] /\
  memory (release_at_exit h).2 = memory h.
Proof. split_and!; [split; simpl; [lia|done|constructor|constructor]|done|done]. Qed.

Lemma hang_up_spec h :
  wf h -> wf (hang_up env h) /\ held_threads (hang_up env h) = [] /\ memory (hang_up env h) = memory h.
Proof.
  intros Hw. unfold hang_up. destruct (detach_held_threads_spec (kernel env) h Hw) as (_ & [Hm _] & _).
  destruct (released_after_exit (detach_held_threads (kernel env) h).2) as (? & ? & ->). done.
Qed.

Lemma close_helper_spec g m0 r0 : ctriple (Rest g m0 r0) (close_helper env) (fun _ => Rest g m0 r0).
Proof.
  intros s [? (Hw & Hh & ?) ? ? ?]. simpl. destruct (hang_up_spec _ Hw) as (? & ? & ?).
  split; simpl; try done; destruct (helper_alive s); try done; try congruence.
  split_and!; [done|by left|done].
Qed.

Lemma ensure_helper_spec g m0 r0 : ctriple (Rest g m0 r0) (ensure_helper env) (fun _ => Rest g m0 r0).
Proof.
  intros s Hs. unfold ensure_helper, cbind, read. destruct (helper_open s); [done|]. simpl.
  destruct (c_start_helper env (asked s)); simpl; [by eapply rest_core; [|exact Hs]|].
  destruct Hs as [? (? & ? & ?) ? ? ?]. split; simpl; try done.
  split_and!; [split; simpl; [lia|done|constructor|constructor]|by left|done].
Qed.

(** What a message does: the write fails; the helper is gone; or it serves the
    message and the answer is lost or read. *)
Definition after_serve (exit : option Z) (h' : helper) (message : incoming) (s : controller) : controller :=
  (set_helper (helper_open s) (match exit with Some _ => false | None => true end)
     (match exit with Some _ => (release_at_exit h').2 | None => h' end)
     (bind_pid (helper_bound s) message) s).2.

Inductive exchanged (message : incoming) (s : controller)
    : option (option (PeakDetachHelperResponse * option (list PeakDetachHelperThreadSnapshot))) ->
      controller -> Prop :=
  | NotWritten s' : core s' = core s -> exchanged message s None s'
  | NotServed s' : core s' = core s -> helper_alive s = false -> exchanged message s (Some None) s'
  | AnswerLost exit h' s' :
      helper_open s = true -> helper_alive s = true ->
      serve_one (kernel env) (helper_bound s) message (the_helper s) = (exit, h') ->
      core s' = core (after_serve exit h' message s) -> exchanged message s (Some None) s'
  | Answered exit h' s' r rest :
      helper_open s = true -> helper_alive s = true ->
      serve_one (kernel env) (helper_bound s) message (the_helper s) = (exit, h') ->
      drop (length (responses (the_helper s))) (responses h') = r :: rest ->
      core s' = core (after_serve exit h' message s) ->
      exchanged message s
        (Some (Some (r, head (drop (length (payloads (the_helper s))) (payloads h'))))) s'.

Lemma exchange_spec message s :
  match exchange env message s with (Some a, s') => exchanged message s a s' | (None, _) => False end.
Proof.
  unfold exchange, cbind, ask, read. cbn beta iota. simpl.
  destruct (negb (c_write env (asked s))); simpl; [by apply NotWritten|].
  destruct (helper_open s) eqn:Ho; simpl; [|apply NotWritten; unfold core; simpl; by rewrite Ho].
  destruct (helper_alive s) eqn:Ha; simpl; [|apply NotServed; [|done]; unfold core; simpl; by rewrite Ho, Ha].
  destruct (serve_one (kernel env) (helper_bound s) message (the_helper s)) as [exit h'] eqn:Hs. simpl.
  destruct (negb (c_read env _)); simpl; [|destruct (drop _ (responses h')) as [|r rest] eqn:Hr; simpl].
  1, 2: eapply AnswerLost; eauto; unfold core; simpl; by rewrite Ho.
  eapply Answered; eauto; unfold core; simpl; by rewrite Ho.
Qed.

(** A message of the controller is served, or refused because the helper
    belongs to another process. *)
Lemma serve_own command count payload bound h :
  let message := Request (helper_request env command count) payload in
  serve_one (kernel env) bound message h = respond_then_detach (kernel env) EPERM h \/
  serve_one (kernel env) bound message h =
    (if command =? PEAK_DETACH_HELPER_CMD_STOP then serve_stop (kernel env) (helper_request env command count)
     else if command =? PEAK_DETACH_HELPER_CMD_EVACUATE
     then serve_evacuate (kernel env) (helper_request env command count) payload
     else if command =? PEAK_DETACH_HELPER_CMD_RESUME
     then serve_resume (kernel env) (helper_request env command count)
     else if command =? PEAK_DETACH_HELPER_CMD_SHUTDOWN
     then serve_shutdown (kernel env) (helper_request env command count)
     else detach_then_respond (kernel env) EINVAL) h.
Proof.
  intros message. unfold message, serve_one. cbn [request_magic request_version request_pid request_command helper_request].
  rewrite !Z.eqb_refl. cbn [negb orb]. destruct (negb _ && negb _); [by left|by right].
Qed.

Lemma respond_then_detach_exits e h :
  wf h -> let '(exit, h') := respond_then_detach (kernel env) e h in
  exit = Some 1 /\ answered PEAK_DETACH_HELPER_STATUS_PROTOCOL_ERROR h h' /\ wf h' /\ memory h' = memory h.
Proof.
  intros Hw. unfold respond_then_detach, hbind at 1.
  pose proof (send_spec (kernel env) (mkResponse PEAK_DETACH_HELPER_STATUS_PROTOCOL_ERROR 0 e) h) as Hs.
  destruct (send_response _ _ h) as [b h1]. destruct Hs as (H1 & H2 & (H3 & _) & H4 & H5).
  assert (Hw1 : wf h1) by (by eapply wf_same). unfold hbind.
  destruct (detach_held_threads_spec (kernel env) h1 Hw1) as (H6 & [H7 _] & _).
  pose proof (log_detach (kernel env) (responses h1) (payloads h1) h1 (conj eq_refl eq_refl)) as [H8 H9].
  destruct (detach_held_threads (kernel env) h1) as [r h2]. cbn [fst snd hret] in *.
  split_and!; [done| |done|congruence]. split; [congruence|]. rewrite H8. destruct H5 as [H5|H5]; [by left|right; eauto].
Qed.

(** An answer read back is the one sent. *)
Lemma answered_read status h h' r rest :
  answered status h h' -> drop (length (responses h)) (responses h') = r :: rest -> response_status r = status.
Proof.
  intros [_ [Hr|(n & e & Hr)]]; rewrite Hr.
  - by rewrite drop_all.
  - rewrite drop_app_length. by intros [= <- _].
Qed.

(** The controller after a message that leaves no thread held by the helper. *)
Lemma rest_served g m0 r0 s s' exit h' message :
  m_active (held_mutation s) = false -> signal_held s = false -> g (gate s) (stat_stopped s) ->
  physical_patch_records s = r0 ->
  core s' = core (after_serve exit h' message s) ->
  wf h' -> memory h' = m0 -> (exit = None -> released_or_unlisted (kernel env) h') -> Rest g m0 r0 s'.
Proof.
  intros ? ? ? ? Hc Hw Hm Hh. eapply (rest_core _ _ _ _ _ Hc).
  destruct (released_after_exit h') as (? & ? & Hm').
  split; simpl; try done; [|by destruct exit].
  destruct exit; split_and!; simpl; auto. by left.
Qed.

(** ** Stopping *)

Definition stop_result g m0 r0 (r : PeakDetachStatus + list PeakDetachHelperThreadSnapshot)
    (backend : PeakDetachHoldBackend) (s : controller) : Prop :=
  match r with
  | inl _ => Rest g m0 r0 s
  | inr snapshots => HeldClean backend g m0 r0 s /\
      (backend = PEAK_DETACH_HOLD_BACKEND_HELPER -> stop_inv m0 snapshots (the_helper s))
  end.

Lemma stop_answer_spec g m0 r0 s exit h' message r rest s' :
  message = Request (helper_request env PEAK_DETACH_HELPER_CMD_STOP 0) (Some []) ->
  Rest g m0 r0 s -> helper_open s = true -> helper_alive s = true ->
  serve_one (kernel env) (helper_bound s) message (the_helper s) = (exit, h') ->
  drop (length (responses (the_helper s))) (responses h') = r :: rest ->
  core s' = core (after_serve exit h' message s) ->
  match response_status r with
  | PEAK_DETACH_HELPER_STATUS_OK =>
      forall snapshots, head (drop (length (payloads (the_helper s))) (payloads h')) = Some snapshots ->
      stop_result g m0 r0 (inr snapshots) PEAK_DETACH_HOLD_BACKEND_HELPER s'
  | PEAK_DETACH_HELPER_STATUS_RELEASE_FAILED => True
  | _ => Rest g m0 r0 s'
  end.
Proof.
  intros Hmsg [Hi (Hw & Hh & Hsig) Hg Hm Hr] Ho Ha Hserve Hread Hc.
  pose proof (rest_served g m0 r0 s s' exit h' message Hi Hsig Hg Hr Hc) as Hrest.
  destruct (serve_own PEAK_DETACH_HELPER_CMD_STOP 0 (Some []) (helper_bound s) (the_helper s)) as [He|He];
    rewrite <- Hmsg, Hserve in He; cbn -[serve_stop respond_then_detach] in He.
  - pose proof (respond_then_detach_exits EPERM (the_helper s) Hw) as Hx. rewrite <- He in Hx.
    destruct Hx as (-> & Hans & Hw' & Hm'). rewrite (answered_read _ _ _ _ _ Hans Hread).
    apply Hrest; [done|congruence|done].
  - pose proof (serve_stop_spec (kernel env) (helper_request env PEAK_DETACH_HELPER_CMD_STOP 0)
      (the_helper s) Hw eq_refl) as Hx. rewrite <- He in Hx. destruct Hx as (Hw' & Hm' & Hsent).
    destruct Hsent as [snaps e Hr1 Hp1 -> Hinv Hcov|n e rest' Hr1 Hp1|st n e Hr1 Hp1 Hfail|Hr1 Hp1];
      rewrite Hr1 in Hread; try (rewrite drop_app_length in Hread); [..|by rewrite drop_all in Hread].
    + injection Hread as <- <-. cbn [response_status]. rewrite Hp1, drop_app_length. intros ? [= <-].
      rewrite Hm in Hinv. split.
      * eapply held_clean_core; [exact Hc|].
        by split; [split; simpl; try done; split_and!|split; [simpl; congruence|]].
      * intros _. assert (Hhe : the_helper s' = h') by (unfold core in Hc; by simplify_eq). by rewrite Hhe.
    + injection Hread as <- <-. cbn [response_status]. by rewrite Hp1, drop_all.
    + injection Hread as <- <-. cbn [response_status]. destruct Hfail as (_ & _ & Hne & Hrel).
      assert (Hheld : st = PEAK_DETACH_HELPER_STATUS_RELEASE_FAILED \/ released_or_unlisted (kernel env) h')
        by exact Hrel.
      assert (Rest g m0 r0 s' \/ st = PEAK_DETACH_HELPER_STATUS_RELEASE_FAILED)
        by (destruct Hheld; [by right|left; apply Hrest; [done|congruence|done]]).
      destruct st; try done; by destruct H.
Qed.

Lemma stop_threads_impl_spec g m0 r0 :
  ctriple (Rest g m0 r0) (stop_threads_impl env)
    (fun r => stop_result g m0 r0 r PEAK_DETACH_HOLD_BACKEND_HELPER).
Proof.
  intros s Hs. unfold stop_threads_impl, cbind at 1.
  pose proof (exchange_spec (Request (helper_request env PEAK_DETACH_HELPER_CMD_STOP 0) (Some [])) s) as He.
  destruct (exchange env _ s) as [[a|] s1]; [|done].
  destruct He as [s1 Hc|s1 Hc _|exit h' s1 _ _ _ _|exit h' s1 r rest Ho Ha Hserve Hread Hc]; [|done|done|].
  - unfold cbind at 1. cbn [ask].
    pose proof (close_helper_spec g m0 r0 (ask (c_errno_status env) s1).2) as Hclose. unfold cbind.
    simpl in *. apply Hclose. by eapply rest_core; [|exact Hs].
  - pose proof (stop_answer_spec g m0 r0 s exit h' _ r rest s1 eq_refl Hs Ho Ha Hserve Hread Hc) as Hres.
    destruct (response_status r); try done. unfold cbind, ask. simpl.
    destruct (head _) as [sn|]; [|done]. destruct (_ || _); [done|]. specialize (Hres sn eq_refl). simpl.
    destruct Hres as [Hh Hi]. split; [|done]. by eapply held_clean_core; [|exact Hh].
Qed.

(** With the gate closed: a failed stop reopens the stat gate. *)
Definition guarded_result m0 r0 (r : PeakDetachStatus + list PeakDetachHelperThreadSnapshot)
    (backend : PeakDetachHoldBackend) (s : controller) : Prop :=
  match r with
  | inl _ => Rest closed m0 r0 s
  | inr _ => stop_result closing m0 r0 r backend s
  end.

Lemma stat_resume_spec m0 r0 : ctriple (Rest closing m0 r0) stat_guard_resume (fun _ => Rest closed m0 r0).
Proof. intros s [? (? & ? & ?) ? ? ?]. by split; simpl; try done; split_and!. Qed.

Lemma with_stat_guard_spec m0 r0 stop backend :
  ctriple (Rest closing m0 r0) stop (fun r => stop_result closing m0 r0 r backend) ->
  ctriple (Rest closed m0 r0) (with_stat_guard env stop) (fun r => guarded_result m0 r0 r backend).
Proof.
  intros Hstop. unfold with_stat_guard. apply ctriple_core; [auto with detach..|].
  intros [|]; cbn [negb]; [|by apply ctriple_ret].
  eapply (ctriple_bind _ _ (fun _ => Rest closing m0 r0)).
  { intros s [? (? & ? & ?) [? ?] ? ?]. by split; simpl; try done; split_and!. }
  intros ?. eapply ctriple_bind; [exact Hstop|]. intros [st|sn].
  - eapply ctriple_bind; [apply stat_resume_spec|]. intros u. by apply ctriple_ret.
  - by intros s Hs.
Qed.

Lemma stop_threads_spec m0 r0 :
  ctriple (Rest closed m0 r0) (stop_threads env)
    (fun r => guarded_result m0 r0 r PEAK_DETACH_HOLD_BACKEND_HELPER).
Proof. apply with_stat_guard_spec, stop_threads_impl_spec. Qed.

Lemma signal_stop_threads_spec m0 r0 :
  ctriple (Rest closed m0 r0) (signal_stop_threads env)
    (fun r => guarded_result m0 r0 r PEAK_DETACH_HOLD_BACKEND_SIGNAL).
Proof.
  apply with_stat_guard_spec. apply ctriple_core; [auto with detach..|].
  intros [st|sn] s [? (? & ? & ?) ? ? ?]; simpl.
  - by split; simpl; try done; split_and!.
  - split; [|done]. by split; [split; simpl; try done; split_and!|].
Qed.

Definition backend_result m0 r0
    (r : PeakDetachStatus + (PeakDetachHoldBackend * list PeakDetachHelperThreadSnapshot)) (s : controller) : Prop :=
  match r with
  | inl _ => Rest closed m0 r0 s
  | inr (backend, sn) => stop_result closing m0 r0 (inr sn) backend s
  end.

Lemma signal_backend_result m0 r0 :
  ctriple (Rest closed m0 r0)
    (cbind (signal_stop_threads env) (fun r =>
       cret (match r with
             | inl status => inl status
             | inr sn => inr (PEAK_DETACH_HOLD_BACKEND_SIGNAL, sn)
             end)))
    (backend_result m0 r0).
Proof.
  eapply ctriple_bind; [apply signal_stop_threads_spec|]. intros [st|sn]; by apply ctriple_ret.
Qed.

Lemma stop_with_backend_spec m0 r0 backend :
  ctriple (Rest closed m0 r0) (stop_with_backend env backend) (backend_result m0 r0).
Proof.
  unfold stop_with_backend. case_bool_decide; [apply signal_backend_result|].
  eapply ctriple_bind; [apply stop_threads_spec|]. intros [st|sn]; [|by apply ctriple_ret].
  destruct (_ && _); [|by apply ctriple_ret].
  eapply ctriple_bind; [apply close_helper_spec|]. intros ?.
  apply ctriple_core; [auto with detach..|]. intros [st'|]; [by apply ctriple_ret|apply signal_backend_result].
Qed.

Lemma choose_backend_spec g m0 r0 : ctriple (Rest g m0 r0) (choose_backend env) (fun _ => Rest g m0 r0).
Proof.
  unfold choose_backend. destruct (_ || _).
  { apply ctriple_core; [auto with detach..|]. intros r. by apply ctriple_ret. }
  eapply ctriple_bind; [apply ensure_helper_spec|]. intros [st|]; [|by apply ctriple_ret].
  destruct (_ && _); [|by apply ctriple_ret].
  apply ctriple_core; [auto with detach..|]. intros r. by apply ctriple_ret.
Qed.

Lemma begin_gate_spec m0 r0 :
  ctriple (Rest opened m0 r0) begin_thread_creation_gate (fun _ => Rest closed m0 r0).
Proof.
  intros s [? (? & ? & ?) [? ?] ? ?]. unfold begin_thread_creation_gate, cbind, read. simpl.
  destruct (Z.leb_spec (to_pid (gate_epoch s + 1)) 0); simpl;
    split; simpl; try done; by split; [lia|].
Qed.

Lemma abandon_window_spec m0 r0 :
  ctriple (Rest closed m0 r0) (abandon_window env) (fun _ => Rest opened m0 r0).
Proof.
  unfold abandon_window. apply ctriple_core; [auto with detach..|].
  { apply core_note. }
  intros _ s [? (? & ? & ?) [? ?] ? ?]. by split; simpl; try done; split_and!.
Qed.

(** ** Releasing *)

Lemma contaminated_spec backend g r0 :
  ctriple (Held backend g r0) (contaminated env backend)
    (fun bad s => Held backend g r0 s /\
       (bad = true -> backend = PEAK_DETACH_HOLD_BACKEND_SIGNAL /\ signal_forward_effect_started s = false)).
Proof.
  intros s Hs. unfold contaminated. case_bool_decide as Hb; [|done]. subst backend.
  unfold signal_check_contamination, cbind, ask, read. simpl.
  destruct (c_contaminated env (asked s)); simpl; [|by split; [eapply held_core; [|exact Hs]|]].
  destruct (signal_forward_effect_started s) eqn:He; simpl; [done|].
  split; [|done]. eapply held_core; [|exact Hs]. unfold core. simpl. by rewrite He.
Qed.

(** What a release does not change. *)
Definition frame (a : PeakDetachHeldMutation) (gt : Z) (m : Z -> Z) (r : patch_records) (s : controller) : Prop :=
  held_mutation s = a /\ gate s = gt /\ memory (the_helper s) = m /\ physical_patch_records s = r.

Definition stopped_frame backend a gt m r (s : controller) : Prop := stopped_by backend s /\ frame a gt m r s.
Definition released_frame a gt m r (s : controller) : Prop :=
  released s /\ stat_stopped s = false /\ frame a gt m r s.

Lemma stopped_frame_core backend a gt m r : core_only (stopped_frame backend a gt m r).
Proof.
  intros s s' Hc [Hs (? & ? & ? & ?)]. split; [by eapply stopped_core|].
  unfold core in Hc. simplify_eq. split_and!; congruence.
Qed.

Lemma released_frame_core a gt m r : core_only (released_frame a gt m r).
Proof.
  intros s s' Hc [Hs (? & ? & ? & ? & ?)]. split; [by eapply released_core|].
  unfold core in Hc. unfold frame. simplify_eq. split_and!; congruence.
Qed.

#[local] Hint Resolve stopped_frame_core released_frame_core : detach.

Lemma stat_resume_stopped backend a gt m r :
  ctriple (stopped_frame backend a gt m r) stat_guard_resume
    (fun _ s => stopped_frame backend a gt m r s /\ stat_stopped s = false).
Proof. by intros s [[? ?] (? & ? & ? & ?)]. Qed.

Lemma signal_release_spec a gt m r :
  ctriple (stopped_frame PEAK_DETACH_HOLD_BACKEND_SIGNAL a gt m r) (signal_release env)
    (fun x s => x = None -> released_frame a gt m r s).
Proof.
  unfold signal_release. apply ctriple_core; [auto with detach..|].
  intros ? s [[? [? Hsig]] (? & ? & ? & ?)]. unfold cbind, read. rewrite Hsig. simpl.
  by destruct (c_signal_release env (asked s)).
Qed.

Lemma resume_answer_spec a gt m r0 s exit h' message r rest s' :
  message = Request (helper_request env PEAK_DETACH_HELPER_CMD_RESUME 0) (Some []) ->
  stopped_frame PEAK_DETACH_HOLD_BACKEND_HELPER a gt m r0 s -> stat_stopped s = false ->
  serve_one (kernel env) (helper_bound s) message (the_helper s) = (exit, h') ->
  drop (length (responses (the_helper s))) (responses h') = r :: rest ->
  core s' = core (after_serve exit h' message s) ->
  response_status r = PEAK_DETACH_HELPER_STATUS_OK -> released_frame a gt m r0 s'.
Proof.
  intros Hmsg [(Hw & Ho & Ha & Hsig & _) (H1 & H2 & H3 & H4)] Hstat Hserve Hread Hc Hok.
  assert (Hx : wf h' /\ memory h' = memory (the_helper s) /\ exit = None /\ held_threads h' = []).
  { destruct (serve_own PEAK_DETACH_HELPER_CMD_RESUME 0 (Some []) (helper_bound s) (the_helper s)) as [He|He];
      rewrite <- Hmsg, Hserve in He; cbn -[serve_resume respond_then_detach] in He.
    - pose proof (respond_then_detach_exits EPERM (the_helper s) Hw) as Hx. rewrite <- He in Hx.
      destruct Hx as (_ & Hans & _). by rewrite (answered_read _ _ _ _ _ Hans Hread) in Hok.
    - pose proof (serve_resume_spec (kernel env) (helper_request env PEAK_DETACH_HELPER_CMD_RESUME 0)
        (the_helper s) Hw eq_refl) as Hx. rewrite <- He in Hx.
      destruct Hx as (st & -> & Hans & Hw' & [Hm' _] & Hh).
      rewrite (answered_read _ _ _ _ _ Hans Hread) in Hok. auto. }
  destruct Hx as (Hw' & Hm' & -> & Hh'). eapply released_frame_core; [exact Hc|].
  split_and!; simpl; try done; [split_and!; simpl; [done|by left|done]|]. split_and!; simpl; congruence.
Qed.

(** An answer that is neither success nor fatal for this command. *)
Lemma send_resume_spec a gt m r :
  ctriple (fun s => stopped_frame PEAK_DETACH_HOLD_BACKEND_HELPER a gt m r s /\ stat_stopped s = false)
    (send_resume env) (fun x s => x = None -> released_frame a gt m r s).
Proof.
  intros s [Hs Hstat]. unfold send_resume, send_helper_command, cbind at 1, read.
  destruct Hs as [(Hw & Ho & Ha & Hsig & Hcov) Hf] eqn:Heq. clear Heq. rewrite Ho. cbn [negb].
  unfold cbind at 1 2, cret at 1. cbn beta iota zeta.
  pose proof (exchange_spec (Request (helper_request env PEAK_DETACH_HELPER_CMD_RESUME 0) (Some [])) s) as He.
  cbn [length]. destruct (exchange env _ s) as [[x|] s1]; [|done].
  destruct He as [s1 Hc|s1 Hc _|exit h' s1 _ _ _ _|exit h' s1 r' rest _ _ Hserve Hread Hc]; [done..|].
  pose proof (resume_answer_spec a gt m r s exit h' _ r' rest s1 eq_refl Hs Hstat Hserve Hread Hc) as Hres.
  destruct (response_status r') eqn:Hst; try done. intros _. by apply Hres.
Qed.

Lemma resume_backend_spec backend a gt m r :
  ctriple (stopped_frame backend a gt m r) (resume_backend env backend)
    (fun x s => x = None -> released_frame a gt m r s).
Proof.
  unfold resume_backend. apply ctriple_core; [destruct (bool_decide _); auto with detach|auto with detach|].
  intros ?. eapply ctriple_bind; [apply stat_resume_stopped|]. intros ?.
  eapply (ctriple_bind _ _ (fun x s => x = None -> released_frame a gt m r s)).
  - case_bool_decide as Hb.
    + subst backend. eapply ctriple_weaken; [apply signal_release_spec|by intros s [? _]|done].
    + destruct backend; [|apply send_resume_spec|done]. by intros s [[[_ []] _] _].
  - intros [st|] s Hs; [done|]. simpl. intros _. destruct (Hs eq_refl) as ((? & ? & ?) & ? & ? & ? & ? & ?).
    by split_and!.
Qed.

(** The failing branches of a preparation. *)
Lemma released_rest a gt m0 r0 s :
  m_active a = false -> 0 < gt -> released_frame a gt m0 r0 s -> Rest closed m0 r0 s.
Proof. intros Ha Hg (Hr & Hs & <- & <- & Hm & Hrec). by split. Qed.

Lemma held_frame backend m0 r0 s :
  HeldClean backend closing m0 r0 s ->
  stopped_frame backend (held_mutation s) (gate s) m0 r0 s /\
  m_active (held_mutation s) = false /\ 0 < gate s.
Proof. by intros [[? ? ? ?] [? _]]. Qed.

Lemma ctriple_held {A} backend m0 r0 (m : CM A) Q :
  (forall a gt, ctriple (stopped_frame backend a gt m0 r0) m
     (fun x s => Q x -> released_frame a gt m0 r0 s)) ->
  ctriple (HeldClean backend closing m0 r0) m (fun x s => Q x -> Rest closed m0 r0 s).
Proof.
  intros Hm s Hs. apply held_frame in Hs as (Hs & Ha & Hg). specialize (Hm _ _ s Hs).
  destruct (m s) as [[x|] s']; [|done]. intros Hx. by eapply released_rest; [| |apply Hm].
Qed.

Lemma resume_or_fatal_spec backend m0 r0 :
  ctriple (HeldClean backend closing m0 r0) (resume_or_fatal env backend) (fun _ => Rest closed m0 r0).
Proof.
  eapply ctriple_bind.
  { apply (ctriple_held _ _ _ _ (fun x => x = None)). intros. apply resume_backend_spec. }
  intros [st|]; [by intros s _|]. intros s Hs. by apply Hs.
Qed.

Lemma signal_release_or_fatal_spec m0 r0 :
  ctriple (HeldClean PEAK_DETACH_HOLD_BACKEND_SIGNAL closing m0 r0) (signal_release_or_fatal env)
    (fun _ => Rest closed m0 r0).
Proof.
  unfold signal_release_or_fatal. apply ctriple_core; [auto with detach..|].
  intros ?. eapply ctriple_bind.
  { apply (ctriple_held _ _ _ _ (fun x => x = None)). intros. apply signal_release_spec. }
  intros [st|]; [by intros s _|]. intros s Hs. by apply Hs.
Qed.

(** ** Evacuating *)

(** After a success the threads are still held; after a failure the helper has
    let them go, and the signal backend has changed nothing. *)
Definition evacuate_result backend m0 r0 h0 ins (x : option PeakDetachStatus) (s : controller) : Prop :=
  match x, backend with
  | None, _ =>
      Held backend closing r0 s /\
      (backend = PEAK_DETACH_HOLD_BACKEND_SIGNAL -> signal_forward_effect_started s = false ->
       memory (the_helper s) = m0) /\
      (backend = PEAK_DETACH_HOLD_BACKEND_HELPER -> evacuated_by h0 ins (the_helper s))
  | Some _, PEAK_DETACH_HOLD_BACKEND_SIGNAL => HeldClean PEAK_DETACH_HOLD_BACKEND_SIGNAL closing m0 r0 s
  | Some _, _ => Rest closed m0 r0 s
  end.

Lemma covered_tids tid h h' :
  wf h -> wf h' -> tids (held_threads h') = tids (held_threads h) ->
  covered (kernel env) tid h -> covered (kernel env) tid h'.
Proof.
  intros Hw Hw' Ht (n & Hn & Hcov). exists n. split; [done|]. intros name t Hin Hp.
  rewrite (wf_traced _ Hw'), Ht, <- (wf_traced _ Hw). eauto.
Qed.

(** The answer of an evacuation the controller survives. *)
Lemma evacuate_answer_spec m0 r0 s exit h' ins message r rest s' :
  message = Request (helper_request env PEAK_DETACH_HELPER_CMD_EVACUATE (length ins)) (Some ins) ->
  HeldClean PEAK_DETACH_HOLD_BACKEND_HELPER closing m0 r0 s ->
  serve_one (kernel env) (helper_bound s) message (the_helper s) = (exit, h') ->
  drop (length (responses (the_helper s))) (responses h') = r :: rest ->
  core s' = core (after_serve exit h' message s) ->
  match response_status r with
  | PEAK_DETACH_HELPER_STATUS_OK =>
      evacuate_result PEAK_DETACH_HOLD_BACKEND_HELPER m0 r0 (the_helper s) ins None s'
  | PEAK_DETACH_HELPER_STATUS_RELEASE_FAILED | PEAK_DETACH_HELPER_STATUS_PROTOCOL_ERROR => True
  | _ => Rest closing m0 r0 s'
  end.
Proof.
  intros Hmsg [[Hi (Hw & Ho & Ha & Hsig & Hcov) Hg Hr] [Hm _]] Hserve Hread Hc.
  destruct (serve_own PEAK_DETACH_HELPER_CMD_EVACUATE (length ins) (Some ins) (helper_bound s) (the_helper s))
    as [He|He]; rewrite <- Hmsg, Hserve in He; cbn -[serve_evacuate respond_then_detach] in He.
  { pose proof (respond_then_detach_exits EPERM (the_helper s) Hw) as Hx. rewrite <- He in Hx.
    destruct Hx as (_ & Hans & _). by rewrite (answered_read _ _ _ _ _ Hans Hread). }
  pose proof (evacuation_safe (kernel env) (helper_request env PEAK_DETACH_HELPER_CMD_EVACUATE (length ins))
    ins (the_helper s) Hw) as Hx. rewrite <- He in Hx. destruct Hx as (st & Hans & Hw' & Hcases).
  rewrite (answered_read _ _ _ _ _ Hans Hread).
  destruct Hcases as [(-> & -> & Hev)|[(-> & Hne & Hnr & Hh & Hm')|(-> & [-> | ->])]]; [|..|done|done].
  - split_and!; [|done|].
    + eapply held_core; [exact Hc|]. split; simpl; try done. split_and!; simpl; try done.
      exact (covered_tids _ _ _ Hw Hw' (proj1 Hev) Hcov).
    + intros _. assert (Hhe : the_helper s' = h') by (unfold core in Hc; by simplify_eq). by rewrite Hhe.
  - assert (Rest closing m0 r0 s') by (eapply rest_served; try done; [congruence|by left]). by destruct st.
Qed.

Lemma send_evacuate_spec m0 r0 h0 ins :
  ctriple (fun s => HeldClean PEAK_DETACH_HOLD_BACKEND_HELPER closing m0 r0 s /\ the_helper s = h0)
    (send_evacuate env ins) (evacuate_result PEAK_DETACH_HOLD_BACKEND_HELPER m0 r0 h0 ins).
Proof.
  intros s [Hs Hh]. unfold send_evacuate, send_helper_command, cbind at 1, read.
  assert (Ho : helper_open s = true) by (by destruct Hs as [[_ (_ & ? & _) _ _] _]). rewrite Ho. cbn [negb].
  unfold cbind at 1 2.
  assert (Hw : exists b s1, (match ins with [] => cret true | _ => ask (c_write env) end) s = (Some b, s1) /\
    core s1 = core s /\ helper_bound s1 = helper_bound s)
    by (destruct ins; [by exists true, s|eexists _, _; split_and!; [reflexivity|done|done]]).
  destruct Hw as (b & s1 & -> & Hc1 & _). destruct b; [|done].
  pose proof (held_clean_core _ _ _ _ _ _ Hc1 Hs) as Hs1.
  assert (Hh1 : the_helper s1 = h0) by (unfold core in Hc1; simplify_eq; congruence).
  pose proof (exchange_spec (Request (helper_request env PEAK_DETACH_HELPER_CMD_EVACUATE (length ins)) (Some ins)) s1)
    as He. destruct (exchange env _ s1) as [[x|] s2]; [|done].
  destruct He as [s2 Hc|s2 Hc _|exit h' s2 _ _ _ _|exit h' s2 r' rest _ _ Hserve Hread Hc]; [done..|].
  pose proof (evacuate_answer_spec m0 r0 s1 exit h' ins _ r' rest s2 eq_refl Hs1 Hserve Hread Hc) as Hres.
  rewrite Hh1 in Hres. unfold evacuate_result.
  destruct (response_status r'); try done; unfold cbind, cret; simpl;
    (pose proof (stat_resume_spec m0 r0 s2 Hres) as Hst; done).
Qed.

Lemma evacuate_backend_spec backend m0 r0 h0 ins :
  ctriple (fun s => HeldClean backend closing m0 r0 s /\ the_helper s = h0)
    (match ins with [] => cret None | i :: l => evacuate_backend env backend (i :: l) end)
    (evacuate_result backend m0 r0 h0 ins).
Proof.
  assert (Hev : ctriple (fun s => HeldClean backend closing m0 r0 s /\ the_helper s = h0)
    (evacuate_backend env backend ins) (evacuate_result backend m0 r0 h0 ins)).
  { unfold evacuate_backend. case_bool_decide as Hb.
    2: { destruct backend; [|apply send_evacuate_spec|done]. by intros s [[[_ [_ []] _ _] _] _]. }
    subst backend. intros s [[[Hi (Hw & Hh & Hsig) Hg Hr] [Hm Hf]] _]. unfold cbind, ask, read. simpl.
    rewrite (Hf eq_refl), orb_false_r.
    destruct (c_signal_effect env _); destruct (c_signal_evacuate env _) as [st|]; simpl; try done.
    all: unfold signal_check_contamination, cbind, ask, read; simpl; destruct (c_contaminated env _); simpl; try done.
    split_and!; try done. split; simpl; try done. split; [by apply (wf_same (the_helper s))|done]. }
  destruct ins; [|exact Hev]. intros s [[Hs [Hm Hf]] Hh]. split_and!; [done|done|].
  intros _. rewrite Hh. split; [done|]. intros. by split; simpl; intros; try set_solver.
Qed.

(** ** One mutation *)

(** Writing the saved record back gives the old table. *)
Definition restores (r0 : patch_records) (saved : option (nat * PeakDetachPhysicalPatchRecord))
    (records : patch_records) : Prop :=
  match saved with Some (i, r) => <[i := r]> records = r0 | None => records = r0 end.

Lemma scalar_record_slot hook_id r0 :
  scalar_record hook_id r0 =
    match record_slot hook_id r0 with
    | Some i => match r0 !! i with Some r => Some (i, r) | None => None end
    | None => None
    end.
Proof. done. Qed.

Lemma classify_restores request snapshot backend bp threads m r0 :
  restores r0 (scalar_record (req_hook_id request) r0)
    (classify_stopped_threads request snapshot backend bp threads m r0).2.
Proof.
  assert (Hsame : restores r0 (scalar_record (req_hook_id request) r0) r0).
  { rewrite scalar_record_slot. destruct (record_slot _ r0) as [i|]; [|done].
    destruct (r0 !! i) as [r|] eqn:Hi; [|done]. by apply list_insert_id. }
  unfold classify_stopped_threads. destruct (classify_threads _ _ _ _ _ _ _) as [st|m']; [done|].
  destruct (append_physical_patch request snapshot m' r0) as [x records] eqn:Hp. simpl.
  apply patch_changes_slot in Hp as [->|(i & v & Hslot & ->)]; [done|].
  rewrite scalar_record_slot, Hslot in *. destruct (r0 !! i) as [r|] eqn:Hi; simpl in *.
  - by rewrite list_insert_insert_eq.
  - apply list_insert_ge. by apply lookup_ge_None.
Qed.

(** A program that puts the old table back. *)
Record restoring (k : CM unit) (r0 records : patch_records) : Prop := {
  restoring_held backend m0 :
    ctriple (HeldClean backend closing m0 records) k (fun _ => HeldClean backend closing m0 r0);
  restoring_rest m0 : ctriple (Rest closed m0 records) k (fun _ => Rest closed m0 r0)
}.

Lemma set_records_restoring r0 records : restoring (set_records r0) r0 records.
Proof.
  split; intros.
  - intros s [[? ? ? ?] ?]. by split; [split|].
  - intros s [? ? ? ? ?]. by split.
Qed.

Lemma restore_record_restoring r0 records saved :
  restores r0 saved records -> restoring (restore_record saved) r0 records.
Proof.
  unfold restores. intros Hr. destruct saved as [[i r]|].
  - subst r0. split; intros.
    + intros s [[? ? ? <-] ?]. by split; [split|].
    + intros s [? ? ? ? <-]. by split.
  - subst records. split; intros; by intros s Hs.
Qed.

(** Both ends of the failing branches. *)
Lemma abandon_and_clear {A} m0 r0 (a : A) (Q : A -> controller -> Prop) :
  (forall s, Rest opened m0 r0 s -> Q a s) ->
  ctriple (Rest closed m0 r0)
    (cbind (abandon_window env) (fun _ => cbind (set_held_mutation zero_mutation) (fun _ => cret a))) Q.
Proof.
  intros HQ. eapply ctriple_bind; [apply abandon_window_spec|]. intros ? s [? Hs ? ? ?]. apply HQ.
  by split; simpl.
Qed.

Lemma abandon_and_return {A} m0 r0 (a : A) (Q : A -> controller -> Prop) :
  (forall s, Rest opened m0 r0 s -> Q a s) ->
  ctriple (Rest closed m0 r0) (cbind (abandon_window env) (fun _ => cret a)) Q.
Proof. intros HQ. eapply ctriple_bind; [apply abandon_window_spec|]. intros ?. by apply ctriple_ret. Qed.

(** A classification never activates the mutation. *)
Lemma classify_inactive request snapshot backend bp threads m r0 m' records :
  classify_stopped_threads request snapshot backend bp threads m r0 = (inr m', records) ->
  m_active m' = m_active m.
Proof.
  intros Hp. apply classify_stopped_spec in Hp as (ps & ws & Hp). exact (plan_active _ _ _ _ _ _ _ _ _ Hp).
Qed.

(** How the active mutation came about: the plan for the stopped threads was
    made, recorded and, with the helper, carried out. *)
Definition carried_out request snapshot m0 r0 (s : controller) : Prop :=
  exists threads h0 m m',
    classify_stopped_threads request snapshot (m_backend (held_mutation s)) (breakpoint_can_evac env) threads m r0
      = (inr m', physical_patch_records s) /\
    m_uses_physical_patch (held_mutation s) = m_uses_physical_patch m' /\
    (m_backend (held_mutation s) = PEAK_DETACH_HOLD_BACKEND_HELPER ->
     stop_inv m0 threads h0 /\ evacuated_by h0 (m_instructions m') (the_helper s)).

Definition prepare_result request snapshot m0 r0 (x : bool * PeakDetachStatus) (s : controller) : Prop :=
  if x.1 then in_window s /\ carried_out request snapshot m0 r0 s else Rest opened m0 r0 s.

Lemma set_mutation_held backend m0 r0 h0 m :
  m_active m = false ->
  ctriple (fun s => HeldClean backend closing m0 r0 s /\ the_helper s = h0) (set_held_mutation m)
    (fun _ s => HeldClean backend closing m0 r0 s /\ the_helper s = h0).
Proof. intros Hm s [[[? ? ? ?] ?] ?]. by split; [split; [split|]|]. Qed.

(** The state after a successful evacuation. *)
Definition ready backend m0 r0 h0 ins : controller -> Prop := evacuate_result backend m0 r0 h0 ins None.

Lemma ready_core backend m0 r0 h0 ins : core_only (ready backend m0 r0 h0 ins).
Proof.
  intros s s' Hc (Hh & Hm & He). split; [by eapply held_core|].
  assert (H1 : the_helper s' = the_helper s /\
    signal_forward_effect_started s' = signal_forward_effect_started s)
    by (unfold core in Hc; simplify_eq; split; congruence).
  destruct H1 as [-> ->]. done.
Qed.

Lemma contaminated_ready backend m0 r0 h0 ins :
  ctriple (ready backend m0 r0 h0 ins) (contaminated env backend)
    (fun bad s => ready backend m0 r0 h0 ins s /\
       (bad = true -> HeldClean PEAK_DETACH_HOLD_BACKEND_SIGNAL closing m0 r0 s)).
Proof.
  intros s Hs. pose proof (contaminated_spec backend closing r0 s (proj1 Hs)) as Hc.
  pose proof (core_contaminated backend s) as Hcore.
  destruct (contaminated env backend s) as [[bad|] s']; [|done]. destruct Hc as [Hh Hbad].
  pose proof (ready_core _ _ _ _ _ _ _ Hcore Hs) as Hr. split; [done|]. intros Hb.
  destruct (Hbad Hb) as [-> Hf]. split; [done|]. destruct Hr as (_ & Hm & _). split; [|done]. by apply Hm.
Qed.

(** The mutation becomes active. *)
Lemma activate_spec {A} backend m0 r0 h0 ins m (a : A) (Q : A -> controller -> Prop) :
  m_active m = true -> m_backend m = backend ->
  (forall s, in_window s -> held_mutation s = m -> physical_patch_records s = r0 ->
     (backend = PEAK_DETACH_HOLD_BACKEND_HELPER -> evacuated_by h0 ins (the_helper s)) -> Q a s) ->
  ctriple (ready backend m0 r0 h0 ins)
    (cbind (if bool_decide (backend = PEAK_DETACH_HOLD_BACKEND_SIGNAL) then set_forward_effect else cret tt)
       (fun _ => cbind (set_held_mutation m) (fun _ => cbind (add_migration 1) (fun _ => cret a)))) Q.
Proof.
  intros Hact Hbe HQ s ([Hi Hs Hg Hr] & _ & He).
  case_bool_decide; cbn; apply HQ; simpl; try done; by split; simpl; rewrite ?Hbe.
Qed.

(** Stopped, with the helper process as the stop left it. *)
Definition stopped_at backend m0 r0 h0 (s : controller) : Prop :=
  HeldClean backend closing m0 r0 s /\ the_helper s = h0.

Lemma stopped_at_core backend m0 r0 h0 : core_only (stopped_at backend m0 r0 h0).
Proof.
  intros s s' Hc [Hs Hh]. split; [by eapply held_clean_core|]. unfold core in Hc. simplify_eq. congruence.
Qed.

#[local] Hint Resolve stopped_at_core : detach.

Lemma contaminated_stopped backend m0 r0 h0 :
  ctriple (stopped_at backend m0 r0 h0) (contaminated env backend)
    (fun bad s => stopped_at backend m0 r0 h0 s /\
       (bad = true -> HeldClean PEAK_DETACH_HOLD_BACKEND_SIGNAL closing m0 r0 s)).
Proof.
  intros s Hs. pose proof (contaminated_spec backend closing r0 s (proj1 (proj1 Hs))) as Hc.
  pose proof (core_contaminated backend s) as Hcore.
  destruct (contaminated env backend s) as [[bad|] s']; [|done]. destruct Hc as [Hh Hbad].
  pose proof (stopped_at_core _ _ _ _ _ _ Hcore Hs) as Hr. split; [done|]. intros Hb.
  destruct (Hbad Hb) as [-> Hf]. by destruct Hr.
Qed.

(** Giving up after a contamination, before and after the evacuation. *)
Lemma contaminated_end {A} m0 r0 (a : A) (Q : A -> controller -> Prop) :
  (forall s, Rest opened m0 r0 s -> Q a s) ->
  ctriple (HeldClean PEAK_DETACH_HOLD_BACKEND_SIGNAL closing m0 r0)
    (cbind (signal_release_or_fatal env) (fun _ =>
       cbind (abandon_window env) (fun _ => cbind (set_held_mutation zero_mutation) (fun _ => cret a)))) Q.
Proof.
  intros HQ. eapply ctriple_bind; [apply signal_release_or_fatal_spec|]. intros ?. by apply abandon_and_clear.
Qed.

(** Giving up before the evacuation. *)
Lemma resumed_end {A} backend m0 r0 records k (a : A) (Q : A -> controller -> Prop) :
  restoring k r0 records -> (forall s, Rest opened m0 r0 s -> Q a s) ->
  ctriple (HeldClean backend closing m0 records)
    (cbind k (fun _ => cbind (resume_or_fatal env backend) (fun _ =>
       cbind (abandon_window env) (fun _ => cret a)))) Q.
Proof.
  intros Hr HQ. eapply ctriple_bind; [by apply restoring_held|]. intros ?.
  eapply ctriple_bind; [apply resume_or_fatal_spec|]. intros ?. by apply abandon_and_return.
Qed.

(** Giving up after a failed evacuation. *)
Lemma evacuation_failed_end {A} backend m0 r0 records h0 ins k st (a : A) (Q : A -> controller -> Prop) :
  restoring k r0 records -> (forall s, Rest opened m0 r0 s -> Q a s) ->
  ctriple (evacuate_result backend m0 records h0 ins (Some st))
    (cbind k (fun _ =>
       cbind (if bool_decide (backend = PEAK_DETACH_HOLD_BACKEND_SIGNAL)
              then signal_release_or_fatal env else cret tt) (fun _ =>
       cbind (abandon_window env) (fun _ => cbind (set_held_mutation zero_mutation) (fun _ => cret a))))) Q.
Proof.
  intros Hr HQ. case_bool_decide as Hb.
  - subst backend. eapply ctriple_bind; [by apply restoring_held|]. intros ?. by apply contaminated_end.
  - eapply (ctriple_bind _ _ (fun _ => Rest closed m0 r0)).
    { eapply ctriple_weaken; [exact (restoring_rest _ _ _ Hr m0)| |done]. intros s Hs. by destruct backend. }
    intros ?. eapply ctriple_bind; [by apply (ctriple_ret _ tt (fun _ => Rest closed m0 r0))|].
    intros ?. by apply abandon_and_clear.
Qed.

Lemma prepare_refused request snapshot m0 r0 st s :
  Rest opened m0 r0 s -> prepare_result request snapshot m0 r0 (false, st) s.
Proof. done. Qed.

#[local] Hint Resolve prepare_refused : detach.

Lemma mutate_stopped_spec request snapshot backend threads m0 r0 :
  ctriple (stop_result closing m0 r0 (inr threads) backend) (mutate_stopped env request snapshot backend threads)
    (prepare_result request snapshot m0 r0).
Proof.
  enough (Hm : forall h0, (backend = PEAK_DETACH_HOLD_BACKEND_HELPER -> stop_inv m0 threads h0) ->
    ctriple (stopped_at backend m0 r0 h0) (mutate_stopped env request snapshot backend threads)
      (prepare_result request snapshot m0 r0)) by (intros s [Hs Hi]; by apply (Hm _ Hi)).
  intros h0 Hinv. unfold mutate_stopped. eapply ctriple_bind; [apply contaminated_stopped|]. intros [|].
  { eapply ctriple_pre; [apply (contaminated_end m0 r0); auto with detach|].
    intros s [_ Hs]. by apply Hs. }
  eapply ctriple_pre; [|by intros s [Hs _]].
  apply (ctriple_get _ (fun s => m_active (held_mutation s) = false /\ physical_patch_records s = r0));
    [by intros s [[[? _ _ ?] _] _]|].
  intros s0 [Hact Hr]. rewrite Hr. cbv zeta.
  pose proof (classify_restores request snapshot backend (breakpoint_can_evac env) threads (held_mutation s0) r0) as Hres.
  destruct (classify_stopped_threads request snapshot backend (breakpoint_can_evac env) threads
    (held_mutation s0) r0) as [plan records] eqn:Hplan. cbn [snd] in Hres.
  apply restore_record_restoring in Hres.
  set (saved := scalar_record (req_hook_id request) r0) in *. clearbody saved.
  eapply (ctriple_bind _ _ (fun _ => stopped_at backend m0 records h0)).
  { intros s [[[? ? ? ?] ?] ?]. by split; [split; [split|]|]. }
  intros ?. destruct plan as [st|m].
  { eapply ctriple_pre; [|by intros s [Hs _]].
    eapply resumed_end; [exact Hres|]. auto with detach. }
  pose proof (classify_inactive _ _ _ _ _ _ _ _ _ Hplan) as Hm. rewrite Hact in Hm.
  eapply ctriple_bind; [by apply set_mutation_held|]. intros ?.
  eapply ctriple_bind; [apply (evacuate_backend_spec backend m0 records h0)|]. intros [st|].
  { eapply evacuation_failed_end; [exact Hres|]. auto with detach. }
  eapply ctriple_bind; [apply contaminated_ready|]. intros [|].
  { eapply ctriple_pre; [|intros s [_ Hs]; by apply Hs].
    eapply ctriple_bind; [by apply restoring_held|]. intros ?. apply contaminated_end. auto with detach. }
  eapply ctriple_pre; [|by intros s [Hs _]].
  apply activate_spec; [done|done|]. intros s Hwin Hheld Hrec Hev. split; [done|].
  exists threads, h0, (held_mutation s0), m. rewrite Hheld, Hrec. split_and!; [done|done|]. simpl. auto.
Qed.

Lemma prepare_spec request m0 r0 :
  ctriple (Rest opened m0 r0) (prepare_hook_mutation env request)
    (fun x s => if x.1 then exists snapshot, capture_gum_snapshot (the_gum env) request = Some snapshot /\
                  in_window s /\ carried_out request snapshot m0 r0 s
                else Rest opened m0 r0 s).
Proof.
  unfold prepare_hook_mutation. destruct (validate_request request) as [[|] st]; cbn [negb]; [|by apply ctriple_ret].
  apply (ctriple_get _ (fun s => m_active (held_mutation s) = false)); [by intros s []|].
  intros s0 Hact. rewrite Hact. apply ctriple_core; [auto with detach..|]. intros ?.
  eapply ctriple_bind; [apply choose_backend_spec|]. intros [st'|backend]; [by apply ctriple_ret|].
  destruct (capture_gum_snapshot (the_gum env) request) as [snapshot|]; [|by apply ctriple_ret].
  eapply ctriple_bind; [apply begin_gate_spec|]. intros ?.
  apply ctriple_core; [apply core_note_started|auto with detach|]. intros ?.
  eapply ctriple_bind; [apply stop_with_backend_spec|]. intros [st'|[backend' threads]].
  - by apply abandon_and_return.
  - eapply ctriple_weaken; [apply mutate_stopped_spec|done|]. intros [[|] st'] s Hs; [|done]. by eexists.
Qed.

(** ** A batch *)

Definition batch_ok (x : batch_answer) : bool := x.1.1.1.

Definition batch_state m0 r0 (x : batch_answer) (s : controller) : Prop :=
  if batch_ok x then in_window s else Rest opened m0 r0 s.

Lemma batch_refused m0 r0 results n st s :
  Rest opened m0 r0 s -> batch_state m0 r0 (false, results, n, st) s.
Proof. done. Qed.

#[local] Hint Resolve batch_refused : detach.

Lemma mutate_stopped_batch_spec requests usable b backend threads m0 r0 :
  ctriple (stop_result closing m0 r0 (inr threads) backend)
    (mutate_stopped_batch env requests usable b r0 backend threads) (batch_state m0 r0).
Proof.
  enough (Hm : forall h0, ctriple (stopped_at backend m0 r0 h0)
    (mutate_stopped_batch env requests usable b r0 backend threads) (batch_state m0 r0))
    by (intros s [Hs _]; by apply (Hm (the_helper s))).
  intros h0. unfold mutate_stopped_batch. eapply ctriple_bind; [apply contaminated_stopped|]. intros [|].
  { eapply ctriple_pre; [|intros s [_ Hs]; by apply Hs].
    eapply ctriple_bind; [apply set_records_restoring|]. intros ?. apply contaminated_end. auto with detach. }
  eapply ctriple_pre; [|by intros s [Hs _]].
  eapply ctriple_bind; [apply ctriple_read|]. intros r. eapply ctriple_pre; [|by intros s [Hs _]].
  destruct (classify_batch env requests backend threads (seq 0 usable) zero_mutation r b)
    as [[[ambiguous aggregate] records] b'].
  eapply (ctriple_bind _ _ (fun _ => stopped_at backend m0 records h0)).
  { intros s [[[? ? ? ?] ?] ?]. by split; [split; [split|]|]. }
  pose proof (set_records_restoring r0 records) as Hres.
  intros ?. destruct ambiguous as [st|].
  { eapply ctriple_pre; [|by intros s [Hs _]]. eapply resumed_end; [exact Hres|]. auto with detach. }
  destruct (_ =? _)%nat.
  { eapply ctriple_pre; [|by intros s [Hs _]]. eapply resumed_end; [exact Hres|]. auto with detach. }
  eapply ctriple_bind; [apply (evacuate_backend_spec backend m0 records h0)|]. intros [st|].
  { eapply evacuation_failed_end; [exact Hres|]. auto with detach. }
  eapply ctriple_bind; [apply contaminated_ready|]. intros [|].
  { eapply ctriple_pre; [|intros s [_ Hs]; by apply Hs].
    eapply ctriple_bind; [by apply restoring_held|]. intros ?. apply contaminated_end. auto with detach. }
  eapply ctriple_pre; [|by intros s [Hs _]]. by apply activate_spec.
Qed.

Lemma prepare_batch_spec requests m0 r0 :
  ctriple (Rest opened m0 r0) (prepare_hook_mutation_batch env requests) (batch_state m0 r0).
Proof.
  unfold prepare_hook_mutation_batch. destruct requests as [|r requests]; [by apply ctriple_ret|].
  generalize (r :: requests) as rs. intros rs. cbv zeta.
  apply ctriple_core; [auto with detach..|]. intros [|]; cbn [negb]; [|by apply ctriple_ret].
  apply (ctriple_get _ (fun s => m_active (held_mutation s) = false /\ physical_patch_records s = r0));
    [by intros s []|].
  intros s0 [Hact Hr]. rewrite Hact, Hr. apply ctriple_core; [auto with detach..|]. intros ?.
  match goal with |- context [refuse_canonical_duplicates ?rs ?n ?x] =>
    generalize (refuse_canonical_duplicates rs n x) as b end. intros b.
  destruct (_ =? _)%nat; [by apply ctriple_ret|].
  eapply ctriple_bind; [apply choose_backend_spec|]. intros [st'|backend]; [by apply ctriple_ret|].
  apply ctriple_core; [auto with detach..|]. intros [|]; cbn [negb]; [|by apply ctriple_ret].
  eapply ctriple_bind; [apply begin_gate_spec|]. intros ?.
  apply ctriple_core; [apply core_note_started|auto with detach|]. intros ?.
  eapply ctriple_bind; [apply stop_with_backend_spec|]. intros [st'|[backend' threads]].
  - by apply abandon_and_return.
  - apply mutate_stopped_batch_spec.
Qed.

(** ** The end of a mutation and of the helper *)

Lemma in_window_core : core_only in_window.
Proof.
  intros s s' Hc [Ha Hs Hg]. pose proof (stopped_core (m_backend (held_mutation s)) s s' Hc Hs) as Hs'.
  assert (held_mutation s' = held_mutation s /\ gate s' = gate s) as [H1 H2]
    by (unfold core in Hc; simplify_eq; split; congruence).
  split; by rewrite ?H1, ?H2.
Qed.

#[local] Hint Resolve in_window_core : detach.

Lemma finish_spec request s :
  in_window s ->
  match finish_hook_mutation env request s with
  | (Some (true, _), s') => Rest opened (memory (the_helper s)) (physical_patch_records s) s'
  | (Some (false, _), s') => s' = s
  | (None, _) => True
  end.
Proof.
  intros [Hact Hs Hg]. unfold finish_hook_mutation, cbind at 1, read.
  match goal with |- context [if ?b then _ else _] => destruct b; [done|] end. rewrite Hact. unfold cbind at 1.
  pose proof (resume_backend_spec (m_backend (held_mutation s)) (held_mutation s) (gate s)
    (memory (the_helper s)) (physical_patch_records s) s ltac:(by split)) as Hr.
  destruct (resume_backend env _ s) as [[[st|]|] s1]; [|specialize (Hr eq_refl)|done].
  { unfold cbind. by destruct (note_stop_window_failed env s1) as [[?|] ?]. }
  pose proof (core_note true s1) as Hn. unfold note_stop_window_finished, cbind at 1.
  destruct (note_stop_window env true s1) as [[[]|] s2]; [|done].
  pose proof (released_frame_core _ _ _ _ _ _ Hn Hr) as (Hrel & Hst & H1 & H2 & H3 & H4).
  by split.
Qed.

Lemma finish_idle request s :
  m_active (held_mutation s) = false -> exists x, finish_hook_mutation env request s = (Some x, s).
Proof.
  intros Hact. unfold finish_hook_mutation, cbind, read. rewrite Hact.
  match goal with |- context [if ?b then _ else _] => destruct b end; by eexists.
Qed.

Lemma serve_shutdown_exits request h :
  wf h -> request_instruction_count request = 0%nat ->
  let '(exit, h') := serve_shutdown (kernel env) request h in
  exit <> None /\ wf h' /\ memory h' = memory h.
Proof.
  intros Hw Hn. unfold serve_shutdown. rewrite Hn. cbn [negb Nat.eqb]. unfold hbind.
  destruct (detach_held_threads_spec (kernel env) h Hw) as (H1 & [H2 _] & _).
  destruct (detach_held_threads (kernel env) h) as [r h1]. cbn [fst snd] in *.
  pose proof (send_spec (kernel env) (mkResponse r.1 0 r.2) h1) as Hs.
  destruct (send_response _ _ h1) as [b h2]. destruct Hs as (H3 & H4 & (H5 & _) & _). simpl.
  split_and!; [done|by eapply wf_same|congruence].
Qed.

Lemma shutdown_served g m0 r0 s exit h' message s' :
  message = Request (helper_request env PEAK_DETACH_HELPER_CMD_SHUTDOWN 0) (Some []) ->
  Rest g m0 r0 s ->
  serve_one (kernel env) (helper_bound s) message (the_helper s) = (exit, h') ->
  core s' = core (after_serve exit h' message s) -> Rest g m0 r0 s'.
Proof.
  intros Hmsg [Hi (Hw & Hh & Hsig) Hg Hm Hr] Hserve Hc.
  assert (Hx : exit <> None /\ wf h' /\ memory h' = memory (the_helper s)).
  { destruct (serve_own PEAK_DETACH_HELPER_CMD_SHUTDOWN 0 (Some []) (helper_bound s) (the_helper s)) as [He|He];
      rewrite <- Hmsg, Hserve in He; cbn -[serve_shutdown respond_then_detach] in He.
    - pose proof (respond_then_detach_exits EPERM (the_helper s) Hw) as Hx. rewrite <- He in Hx.
      by destruct Hx as (-> & _ & ? & ?).
    - pose proof (serve_shutdown_exits (helper_request env PEAK_DETACH_HELPER_CMD_SHUTDOWN 0)
        (the_helper s) Hw eq_refl) as Hx. by rewrite <- He in Hx. }
  destruct Hx as (? & ? & ?). by eapply rest_served; try done; congruence.
Qed.

Lemma send_shutdown_spec g m0 r0 : ctriple (Rest g m0 r0) (send_shutdown env true) (fun _ => Rest g m0 r0).
Proof.
  unfold send_shutdown. eapply (ctriple_bind _ _ (fun _ => Rest g m0 r0)).
  2: { intros [st|]; [by intros s Hs|]. eapply ctriple_bind; [apply close_helper_spec|].
       intros ?. by apply ctriple_ret. }
  unfold send_helper_command. eapply ctriple_bind; [apply ctriple_read|]. intros open.
  eapply ctriple_pre; [|by intros s [Hs _]]. eapply (ctriple_bind _ _ (fun _ => Rest g m0 r0)).
  - destruct open; cbn [negb]; [|by apply ctriple_ret]. intros s Hs. unfold cbind, cret. cbn [length].
    pose proof (exchange_spec (Request (helper_request env PEAK_DETACH_HELPER_CMD_SHUTDOWN 0) (Some [])) s) as He.
    destruct (exchange env _ s) as [[x|] s1]; [|done].
    destruct He as [s1 Hc|s1 Hc _|exit h' s1 _ _ Hserve Hc|exit h' s1 r' rest _ _ Hserve _ Hc];
      [by eapply rest_core..|by eapply shutdown_served|by eapply shutdown_served].
  - assert (Hlost : ctriple (Rest g m0 r0)
      (cbind (ask (c_errno_status env)) (fun status => cbind (close_helper env) (fun _ => cret (Some status))))
      (fun _ => Rest g m0 r0)).
    { apply ctriple_core; [auto with detach..|]. intros st.
      eapply ctriple_bind; [apply close_helper_spec|]. intros ?. by apply ctriple_ret. }
    intros [[[r p]|]|]; [|exact Hlost|exact Hlost].
    destruct (response_status r); try (by apply ctriple_ret); try apply ctriple_fatal; cbn [Z.eqb].
    all: apply ctriple_core; [auto with detach..|]; intros ?.
    all: eapply ctriple_bind; [apply close_helper_spec|]; intros ?; by apply ctriple_ret.
Qed.

Lemma shutdown_spec m0 r0 :
  ctriple (Rest opened m0 r0) (shutdown_helper env) (fun _ => Rest opened m0 r0).
Proof.
  unfold shutdown_helper. apply (ctriple_get _ (fun s => m_active (held_mutation s) = false)); [by intros s []|].
  intros s0 ->. destruct (helper_open s0); [|by apply ctriple_ret].
  eapply ctriple_bind; [apply send_shutdown_spec|]. intros ?. by apply ctriple_ret.
Qed.

End Transactions.
