(* ===== verification/DetachGuarantees.v ===== *)
(** * Guarantees of the detach controller

    The theorems about whole transactions of [DetachController], proved from
    the triples of [DetachTransactions]: what a preparation, a batch, the end of
    a mutation and any sequence of them leave behind. *)

From Stdlib Require Import String.
From S2P Require Import Prelude HookModel TargetSelector DetachHelper DetachHelperProofs DetachHelperWrites DetachHelperSession DetachPlan DetachPlanProofs DetachController DetachTransactions.

(** ** Sequences of operations *)

Inductive controller_operation :=
  | Prepare (request : PeakDetachRequest)
  | PrepareBatch (requests : list PeakDetachRequest)
  | Finish (request : option PeakDetachRequest)
  | ShutdownHelper.

Definition perform (env : controller_env) (o : controller_operation) : CM unit :=
  match o with
  | Prepare request => run* _ := prepare_hook_mutation env request in cret tt
  | PrepareBatch requests => run* _ := prepare_hook_mutation_batch env requests in cret tt
  | Finish request => run* _ := finish_hook_mutation env request in cret tt
  | ShutdownHelper => run* _ := shutdown_helper env in cret tt
  end.

Fixpoint perform_all (env : controller_env) (os : list controller_operation) : CM unit :=
  match os with
  | [] => cret tt
  | o :: os => run* _ := perform env o in perform_all env os
  end.

Section Guarantees.
Context (env : controller_env).

Lemma rest_at_rest m0 r0 s : Rest env opened m0 r0 s -> at_rest env s.
Proof. by intros []. Qed.

Lemma ctriple_drop {A} P (m : CM A) (Q : controller -> Prop) :
  ctriple P m (fun _ => Q) -> ctriple P (cbind m (fun _ => cret tt)) (fun _ => Q).
Proof. intros Hm. eapply ctriple_bind; [exact Hm|]. intros ?. by apply ctriple_ret. Qed.

Definition idle_or_held (s : controller) : Prop := at_rest env s \/ in_window env s.

Lemma perform_at_rest o s :
  at_rest env s -> match perform env o s with (Some _, s') => idle_or_held s' | (None, _) => True end.
Proof.
  assert (Hbase : forall x m0 r0 s', (if x : bool then in_window env s' else Rest env opened m0 r0 s') ->
    idle_or_held s') by (intros [|] m0 r0 s' Hx; [by right|left; by eapply rest_at_rest]).
  intros Hs. destruct o as [request|requests|request|]; cbn [perform]; unfold cbind.
  - pose proof (prepare_spec env request _ _ s Hs) as Hp.
    destruct (prepare_hook_mutation env request s) as [[[[|] st]|] s']; [|exact (Hbase false _ _ _ Hp)|done].
    destruct Hp as (_ & _ & Hp & _). by right.
  - pose proof (prepare_batch_spec env requests _ _ s Hs) as Hp.
    destruct (prepare_hook_mutation_batch env requests s) as [[x|] s']; [exact (Hbase _ _ _ _ Hp)|done].
  - destruct (finish_idle env request s (rest_inactive _ _ _ _ _ Hs)) as [x ->]. by left.
  - pose proof (shutdown_spec env _ _ s Hs) as Hp.
    destruct (shutdown_helper env s) as [[x|] s']; [left; exact (rest_at_rest _ _ _ Hp)|done].
Qed.

Lemma perform_in_window o s :
  in_window env s -> match perform env o s with (Some _, s') => idle_or_held s' | (None, _) => True end.
Proof.
  intros Hs. pose proof (window_active _ _ Hs) as Ha.
  destruct o as [request|requests|request|]; cbn [perform]; unfold cbind.
  - unfold prepare_hook_mutation, cbind, read. destruct (validate_request request) as [[|] st]; cbn [negb cret].
    + rewrite Ha. by right.
    + by right.
  - unfold prepare_hook_mutation_batch, cbind, read, ask. destruct requests; [by right|]. cbv zeta.
    destruct (c_allocate env (asked s)); cbn [negb].
    + cbn [held_mutation]. rewrite Ha. right. by eapply in_window_core; [|exact Hs].
    + right. by eapply in_window_core; [|exact Hs].
  - pose proof (finish_spec env request s Hs) as Hf.
    destruct (finish_hook_mutation env request s) as [[[[|] st]|] s']; [|subst s'; by right|done].
    left. exact (rest_at_rest _ _ _ Hf).
  - unfold shutdown_helper, cbind, read. rewrite Ha. by right.
Qed.

(** C2: whatever sequence of operations the program performs, as long as it
    survives: while a mutation is active the gate for new threads is closed and
    the threads are stopped by the backend the mutation names; otherwise both
    gates are open, the signal backend holds no thread, and the helper holds
    none unless an [opendir] of the task directory failed in one of its stops,
    whose early return keeps the threads seized so far. *)
Theorem held_exactly_while_active os : forall s s',
  at_rest env s -> perform_all env os s = (Some tt, s') ->
  if threads_are_held s' then in_window env s'
  else at_rest env s' /\ gate s' = 0 /\ stat_stopped s' = false /\ signal_held s' = false /\
       (held_threads (the_helper s') = [] \/ opendir_failed (kernel env) (the_helper s')).
Proof.
  assert (Hgen : forall s s', idle_or_held s -> perform_all env os s = (Some tt, s') -> idle_or_held s').
  { induction os as [|o os IH]; intros s s' Hs Hrun; cbn [perform_all] in Hrun.
    - unfold cret in Hrun. by simplify_eq.
    - unfold cbind in Hrun.
      assert (Hstep : match perform env o s with (Some _, s1) => idle_or_held s1 | (None, _) => True end)
        by (destruct Hs; [by apply perform_at_rest|by apply perform_in_window]).
      destruct (perform env o s) as [[[]|] s1]; [by eapply IH|done]. }
  intros s s' Hs Hrun. destruct (Hgen s s' (or_introl Hs) Hrun) as [Hr|Hw]; unfold threads_are_held.
  - rewrite (rest_inactive _ _ _ _ _ Hr). split; [done|]. by destruct Hr as [_ (? & ? & ?) [? ?] _ _].
  - by rewrite (window_active _ _ Hw).
Qed.

(** C4: a preparation that fails leaves the program as it found it: no byte of
    its code changed, the table of patches is the old one, both gates are open,
    the signal backend holds no thread, and the helper holds none unless an
    [opendir] of the task directory failed in one of its stops. *)
Theorem failed_preparation_restores request s st s' :
  at_rest env s -> prepare_hook_mutation env request s = (Some (false, st), s') ->
  at_rest env s' /\ gate s' = 0 /\ stat_stopped s' = false /\ signal_held s' = false /\
  (held_threads (the_helper s') = [] \/ opendir_failed (kernel env) (the_helper s')) /\
  memory (the_helper s') = memory (the_helper s) /\
  physical_patch_records s' = physical_patch_records s.
Proof.
  intros Hs Hrun. pose proof (prepare_spec env request _ _ s Hs) as Hp. rewrite Hrun in Hp.
  destruct Hp as [? (? & ? & ?) [? ?] ? ?]. by split_and!.
Qed.

(** ** What a successful preparation has done *)

(** Sizes and addresses as the C types give them: the arrays of a patch have
    32 bytes, and the entry is not at the very end of the address space. *)
Definition snapshot_ok (request : PeakDetachRequest) (snapshot : PeakDetachGumSnapshot) : Prop :=
  0 <= canonical_function_address request snapshot < 2 ^ 64 - 32 /\
  (forall active original size, patch snapshot = Some (active, original, size) ->
     length active = 32%nat /\ length original = 32%nat /\ 0 <= size).

Definition record_ok (r : PeakDetachPhysicalPatchRecord) : Prop :=
  length (active_patch r) = 32%nat /\ 0 <= patch_size r.

Definition plan_input_ok (request : PeakDetachRequest) (snapshot : PeakDetachGumSnapshot)
    (records : patch_records) : Prop := snapshot_ok request snapshot /\ Forall record_ok records.

Lemma patch_array_length bytes size :
  length bytes = 32%nat -> 0 <= size <= 32 -> length (patch_array bytes size) = 32%nat.
Proof. intros Hb Hs. unfold patch_array. rewrite length_app, length_take, length_replicate. lia. Qed.

Lemma take_patch_array bytes size :
  length bytes = 32%nat -> 0 <= size <= 32 -> take (Z.to_nat size) (patch_array bytes size) = take (Z.to_nat size) bytes.
Proof.
  intros Hb Hs. unfold patch_array. rewrite take_app_le by (rewrite length_take; lia).
  rewrite take_take. f_equal. lia.
Qed.

(** The bytes a plan writes. *)
Lemma source_bytes_ok request snapshot records records' bytes size :
  plan_input_ok request snapshot records -> patch_source request snapshot records records' bytes size ->
  length bytes = 32%nat /\ 0 <= size.
Proof.
  intros ([_ Hp] & Hr) Hs. unfold patch_source in Hs. destruct (is_op _ request).
  - destruct Hs as (_ & i & r & _ & Hi & _ & -> & ->). rewrite Forall_lookup in Hr. by apply (Hr i).
  - destruct Hs as (active & Ha & _). destruct (Hp _ _ _ Ha) as (? & ? & ?). done.
Qed.

Lemma planned_wire request snapshot m t i :
  0 <= canonical_function_address request snapshot ->
  thread_plan request snapshot m t (Some i) -> wire_instruction i /\ write_in_space i.
Proof.
  intros Hfa (_ & _ & _ & H). unfold wire_instruction, write_in_space.
  destruct (classify_pc_from_snapshot snapshot (snap_pc t)); try done;
    destruct H as [[? ?]|H]; try done; destruct H as (? & Hx & ?); simplify_eq; simpl;
    unfold PEAK_DETACH_HELPER_MAX_PATCH_BYTES in *; split_and!; done || lia.
Qed.

Lemma plan_wire request snapshot m threads records m' records' ps ws :
  plan_input_ok request snapshot records ->
  plan_made request snapshot m threads records m' records' ps ws ->
  Forall (fun i => wire_instruction i /\ write_in_space i) (m_instructions m').
Proof.
  intros Hok Hp. destruct (Hok) as ([[Hfa Hfa'] _] & _). destruct Hp as [Hps Hins _ _ _ Hw]. rewrite Hins.
  apply Forall_app. split.
  - clear -Hps Hfa. induction Hps as [|t [i|] threads ps Hp Hps IH]; unfold planned in *; simpl;
      [constructor|constructor; [by eapply planned_wire|done]|done].
  - destruct Hw as [(_ & -> & _)|(bytes & size & H1 & H2 & H3 & -> & Hsrc)]; [constructor|].
    destruct (source_bytes_ok _ _ _ _ _ _ Hok Hsrc) as [Hb Hz]. constructor; [|constructor].
    unfold PEAK_DETACH_HELPER_MAX_PATCH_BYTES in *. split.
    + split_and!; simpl; [by apply patch_array_length|lia|lia|lia].
    + unfold write_in_space. simpl. lia.
Qed.

(** Only the write of the plan changes memory. *)
Lemma plan_memory request snapshot m threads records m' records' ps ws m0 :
  plan_made request snapshot m threads records m' records' ps ws ->
  fold_left instruction_write (m_instructions m') m0 = fold_left instruction_write ws m0.
Proof.
  intros [Hps Hins _ _ _ _]. rewrite Hins, fold_left_app. f_equal.
  destruct (planned_tids _ _ _ _ _ Hps) as [_ Hth]. clear -Hth.
  induction Hth as [|i l Hi _ IH]; [done|]. cbn [fold_left].
  assert (He : instruction_write m0 i = m0).
  { unfold instruction_write, thread_instruction in *. by destruct (is_action WRITE_MEMORY i). }
  by rewrite He.
Qed.

(** A mutation carried out by the helper. *)
Record helper_mutation (request : PeakDetachRequest) (snapshot : PeakDetachGumSnapshot)
    (m0 : Z -> Z) (r0 : patch_records) (s : controller) : Prop := {
  hm_plan : exists threads h0 m m' ps ws,
    classify_stopped_threads request snapshot PEAK_DETACH_HOLD_BACKEND_HELPER (breakpoint_can_evac env) threads m r0
      = (inr m', physical_patch_records s) /\
    plan_made request snapshot m threads r0 m' (physical_patch_records s) ps ws /\
    stop_inv m0 threads h0 /\ evacuated h0 (m_instructions m') (the_helper s)
}.

Lemma prepared_with_helper request s st s' snapshot :
  at_rest env s -> prepare_hook_mutation env request s = (Some (true, st), s') ->
  m_backend (held_mutation s') = PEAK_DETACH_HOLD_BACKEND_HELPER ->
  capture_gum_snapshot (the_gum env) request = Some snapshot ->
  plan_input_ok request snapshot (physical_patch_records s) ->
  in_window env s' /\
  helper_mutation request snapshot (memory (the_helper s)) (physical_patch_records s) s'.
Proof.
  intros Hs Hrun Hbe Hsnap Hok. pose proof (prepare_spec env request _ _ s Hs) as Hp.
  rewrite Hrun in Hp. destruct Hp as (snapshot' & Hsnap' & Hwin & threads & h0 & m & m' & Hplan & _ & Hev).
  assert (snapshot' = snapshot) as -> by congruence. split; [done|]. split.
  rewrite Hbe in Hplan. destruct (Hev Hbe) as [Hinv [_ Hevac]].
  destruct (classify_stopped_spec _ _ _ _ _ _ _ _ _ Hplan) as (ps & ws & Hmade).
  pose proof (plan_wire _ _ _ _ _ _ _ _ _ Hok Hmade) as Hwire.
  exists threads, h0, m, m', ps, ws. split_and!; [done|done|done|].
  apply Hevac; [eapply Forall_impl; [exact Hwire|by intros ? []]..|]. by eapply plan_one_per_thread.
Qed.

(** ** Detach and reattach *)

Lemma copy_prefix_prefix dst src size :
  take (Z.to_nat size) (copy_prefix dst src size) = take (Z.to_nat size) src \/
  (length src < Z.to_nat size)%nat.
Proof.
  destruct (decide (Z.to_nat size <= length src)%nat); [left|right; lia].
  unfold copy_prefix, memcpy_at. rewrite take_0. cbn [app].
  rewrite take_app_le by (rewrite length_take; lia). rewrite take_take. f_equal. lia.
Qed.

(** The table keeps its shape. *)
Lemma find_record_ok hook_id create records :
  Forall record_ok records -> Forall record_ok (find_physical_patch_record hook_id create records).2.
Proof.
  intros Hr. unfold find_physical_patch_record. destruct (first_index _ records); [done|].
  destruct (first_index _ records); [|done]. destruct create; [|done]. by apply Forall_insert.
Qed.

Lemma classify_records_ok request snapshot backend bp threads m records :
  plan_input_ok request snapshot records ->
  Forall record_ok (classify_stopped_threads request snapshot backend bp threads m records).2.
Proof.
  intros [[_ Hp] Hr]. unfold classify_stopped_threads, append_physical_patch.
  destruct (classify_threads _ _ _ _ _ _ _) as [st|m1]; [done|].
  destruct (needs_existing_hook_context request); [|done]. cbn [negb]. cbv zeta.
  destruct (is_op PEAK_DETACH_OPERATION_REATTACH request).
  { by repeat case_match; simplify_eq/=. }
  destruct (patch snapshot) as [[[active original] size]|]; [|done].
  destruct (Hp _ _ _ eq_refl) as (Ha & Ho & Hz). destruct (_ || _) eqn:Hsize; [done|].
  destruct (is_op PEAK_DETACH_OPERATION_DETACH request); [|by repeat case_match].
  destruct (find_physical_patch_record (req_hook_id request) false records) as [existing ?].
  pose proof (find_record_ok (req_hook_id request) true records Hr) as Hf.
  destruct (find_physical_patch_record (req_hook_id request) true records) as [[i|] created]; [|done].
  cbn [snd] in Hf. destruct (append_write_instruction _ _ _ m1).
  2: { destruct existing; [done|]. by apply Forall_insert. }
  apply Forall_insert; [done|]. split; [|done]. cbn [active_patch].
  assert (Hold : length (active_patch (default zero_record (created !! i))) = 32%nat).
  { destruct (created !! i) as [r|] eqn:Hi; [|done]. rewrite Forall_lookup in Hf. by apply (Hf i). }
  breflect. unfold PEAK_DETACH_HELPER_MAX_PATCH_BYTES in *.
  unfold copy_prefix. rewrite length_memcpy_at; [done|]. rewrite length_take, Hold. lia.
Qed.

(** The memory and the table after a mutation by the helper. *)
Lemma mutation_effect request snapshot m0 r0 s :
  plan_input_ok request snapshot r0 -> needs_existing_hook_context request = true ->
  helper_mutation request snapshot m0 r0 s ->
  exists bytes size, 0 < size <= 32 /\ length bytes = 32%nat /\
    patch_source request snapshot r0 (physical_patch_records s) bytes size /\
    mem_eq (memory (the_helper s))
      (write_bytes m0 (canonical_function_address request snapshot) (take (Z.to_nat size) bytes)).
Proof.
  intros Hok Hctx [(threads & h0 & m & m' & ps & ws & Hplan & Hmade & Hinv & Hev)].
  pose proof (ev_memory _ _ _ Hev) as Hmem. rewrite (plan_memory _ _ _ _ _ _ _ _ _ _ Hmade) in Hmem.
  rewrite (si_memory _ _ _ Hinv) in Hmem.
  destruct (plan_writes _ _ _ _ _ _ _ _ _ Hmade) as [(Hno & _)|(bytes & size & H1 & H2 & H3 & -> & Hsrc)];
    [by rewrite Hctx in Hno|].
  destruct (source_bytes_ok _ _ _ _ _ _ Hok Hsrc) as [Hb Hz].
  unfold PEAK_DETACH_HELPER_MAX_PATCH_BYTES in H2.
  exists bytes, size. split_and!; [lia|lia|done|done|].
  rewrite <- (take_patch_array bytes size) by (done || lia). exact Hmem.
Qed.

(** Gum has one length for the entry of a hook:
    [gum_interceptor_peak_get_function_patch] copies [overwritten_prologue_len]
    bytes, and the record a reattach uses was made from such a copy. *)
Definition lengths_agree (request : PeakDetachRequest) (snapshot : PeakDetachGumSnapshot)
    (records : patch_records) (d : GumPeakPcDiagnostics) : Prop :=
  (forall active original size, patch snapshot = Some (active, original, size) ->
     size = overwritten_prologue_len d) /\
  (is_op PEAK_DETACH_OPERATION_REATTACH request = true ->
   forall i r, first_index (record_is (req_hook_id request)) records = Some i -> records !! i = Some r ->
     patch_size r = overwritten_prologue_len d).

Lemma source_length request snapshot records records' bytes size d :
  lengths_agree request snapshot records d -> patch_source request snapshot records records' bytes size ->
  size = overwritten_prologue_len d.
Proof.
  intros [Hp Hr] Hs. unfold patch_source in Hs. destruct (is_op _ request).
  - destruct Hs as (_ & i & r & Hi & Hri & _ & _ & ->). by apply (Hr eq_refl i).
  - destruct Hs as (active & Ha & _). by apply (Hp _ _ _ Ha).
Qed.

Lemma outside_pointer_range pc start size :
  0 < start -> 0 < size -> start + size < 2 ^ 64 -> pointer_in_range pc start size = false ->
  pc < start \/ start + size <= pc.
Proof.
  intros H1 H2 H3. unfold pointer_in_range. rewrite wrap_small by lia.
  destruct (Z.eqb_spec pc 0); [lia|]. rewrite !(proj2 (Z.eqb_neq _ _)) by lia. cbn [orb].
  rewrite (proj2 (Z.leb_le start (start + size))) by lia. cbn [andb]. lia.
Qed.

(** C3: when a detach, a reattach or a shutdown of a hook is prepared with the
    helper, every task of a complete listing but the controller is held; the
    code is rewritten at most in the [overwritten_prologue_len] bytes from the
    function's address; and no held thread is inside these bytes, except at
    their start.  For a shutdown, which frees the listener, every thread is at
    the function's entry or outside all of the hook's code. *)
Theorem prepared_threads_clear request s st s' snapshot d :
  at_rest env s -> prepare_hook_mutation env request s = (Some (true, st), s') ->
  m_backend (held_mutation s') = PEAK_DETACH_HOLD_BACKEND_HELPER ->
  capture_gum_snapshot (the_gum env) request = Some snapshot ->
  plan_input_ok request snapshot (physical_patch_records s) ->
  diagnostics snapshot = Some d -> diag_function_address d <> 0 ->
  lengths_agree request snapshot (physical_patch_records s) d -> repatches request = true ->
  let fa := diag_function_address d in
  let len := overwritten_prologue_len d in
  covered (kernel env) (controller_tid env) (the_helper s') /\
  (forall a, a < fa \/ fa + len <= a -> memory (the_helper s') a = memory (the_helper s) a) /\
  forall tid, tid ∈ traced (the_helper s') ->
    let pc := counters (the_helper s') tid in
    (pc = fa \/ pc < fa \/ fa + len <= pc) /\
    (is_op PEAK_DETACH_OPERATION_SHUTDOWN request = true ->
     pc = fa \/ classify_pc_from_snapshot snapshot pc = GUM_PEAK_PC_SAFE).
Proof.
  intros Hs Hrun Hbe Hsnap Hok Hd Hfa Hlen Hre fa len.
  destruct (prepared_with_helper request s st s' snapshot Hs Hrun Hbe Hsnap Hok) as [Hwin Hm].
  assert (Hcan : canonical_function_address request snapshot = fa).
  { unfold canonical_function_address. rewrite Hd. by apply Z.eqb_neq in Hfa as ->. }
  destruct (mutation_effect _ _ _ _ _ Hok (proj1 (repatches_not_revert _ Hre)) Hm)
    as (bytes & size & Hz & Hb & Hsrc & Hmem).
  pose proof (source_length _ _ _ _ _ _ _ Hlen Hsrc) as ->. rewrite Hcan in Hmem.
  destruct Hm as [(threads & h0 & m & m' & ps & ws & Hplan & Hmade & Hinv & Hev)].
  pose proof (window_stopped _ _ Hwin) as Hst. rewrite Hbe in Hst. destruct Hst as (Hw & _ & _ & _ & Hcov).
  split_and!; [done| |].
  { intros a Ha. rewrite (Hmem a). apply write_bytes_out. rewrite length_take. lia. }
  intros tid Htid. rewrite (wf_traced _ Hw), (ev_tids _ _ _ Hev), <- (si_tids _ _ _ Hinv) in Htid.
  apply elem_of_list_to_set in Htid. apply list_elem_of_fmap in Htid as (t & -> & Ht).
  assert (Hpcs : Forall (fun t => snap_pc t = counters h0 (snap_tid t)) threads).
  { eapply Forall_impl; [exact (si_pcs _ _ _ Hinv)|]. by intros x [_ ?]. }
  destruct (plan_clears_patched_bytes _ _ _ _ _ _ _ _ _ _ _ _ Hd Hfa Hre Hplan Hpcs Hev t Ht) as [Hpc Hsh].
  split; [|exact Hsh]. destruct Hpc as [?|Hpc]; [by left|right].
  destruct Hok as [[[H0 H1] _] _]. rewrite Hcan in *.
  apply outside_pointer_range in Hpc; unfold fa in *; lia.
Qed.

Lemma mutation_records_ok request snapshot m0 r0 s :
  plan_input_ok request snapshot r0 -> helper_mutation request snapshot m0 r0 s ->
  Forall record_ok (physical_patch_records s).
Proof.
  intros Hok [(threads & h0 & m & m' & ps & ws & Hplan & _)].
  pose proof (classify_records_ok request snapshot PEAK_DETACH_HOLD_BACKEND_HELPER (breakpoint_can_evac env)
    threads m r0 Hok) as Hr. by rewrite Hplan in Hr.
Qed.

(** The code of the hook is what Gum reports as its active patch. *)
Definition entry_patched (snapshot : PeakDetachGumSnapshot) (request : PeakDetachRequest) (m : Z -> Z) : Prop :=
  forall active original size, patch snapshot = Some (active, original, size) ->
    read_bytes m (canonical_function_address request snapshot) (Z.to_nat size) = take (Z.to_nat size) active.

(** C5: detaching a hook, finishing, and reattaching it gives the entry its
    bytes back.  After the finish the code is as before but for the entry, which
    holds the original bytes.  Then the program may run on in any way that leaves
    the controller at rest with its table of patches; after the reattach the
    entry is byte for byte as before the detach, and all other code as it was
    when the reattach began. *)
Theorem detach_reattach_roundtrip detach reattach before after s s1 s2 s2' s3 st1 st2 st3 fin active original size :
  let fa := canonical_function_address detach before in
  at_rest env s -> entry_patched before detach (memory (the_helper s)) ->
  req_operation detach = Some PEAK_DETACH_OPERATION_DETACH ->
  req_operation reattach = Some PEAK_DETACH_OPERATION_REATTACH ->
  req_hook_id reattach = req_hook_id detach ->
  capture_gum_snapshot (the_gum env) detach = Some before -> patch before = Some (active, original, size) ->
  capture_gum_snapshot (the_gum env) reattach = Some after ->
  plan_input_ok detach before (physical_patch_records s) -> snapshot_ok reattach after ->
  prepare_hook_mutation env detach s = (Some (true, st1), s1) ->
  m_backend (held_mutation s1) = PEAK_DETACH_HOLD_BACKEND_HELPER ->
  finish_hook_mutation env fin s1 = (Some (true, st2), s2) ->
  at_rest env s2' -> physical_patch_records s2' = physical_patch_records s2 ->
  prepare_hook_mutation env reattach s2' = (Some (true, st3), s3) ->
  m_backend (held_mutation s3) = PEAK_DETACH_HOLD_BACKEND_HELPER ->
  mem_eq (memory (the_helper s2))
    (write_bytes (memory (the_helper s)) fa (take (Z.to_nat size) original)) /\
  (forall a, fa <= a < fa + size -> memory (the_helper s3) a = memory (the_helper s) a) /\
  (forall a, a < fa \/ fa + size <= a -> memory (the_helper s3) a = memory (the_helper s2') a).
Proof.
  intros fa Hs Hentry Hd Hr Hid Hc1 Hp Hc2 Hok Hok2 Hrun1 Hb1 Hfin Hs2' Hrecs Hrun2 Hb2.
  assert (Hctx : forall r op, req_operation r = Some op ->
    op = PEAK_DETACH_OPERATION_DETACH \/ op = PEAK_DETACH_OPERATION_REATTACH ->
    needs_existing_hook_context r = true).
  { intros r op Hop [-> | ->]; unfold needs_existing_hook_context, is_op; by rewrite Hop. }
  destruct (prepared_with_helper detach s st1 s1 before Hs Hrun1 Hb1 Hc1 Hok) as [Hwin1 Hm1].
  pose proof (mutation_records_ok _ _ _ _ _ Hok Hm1) as Hrec1.
  destruct (mutation_effect _ _ _ _ _ Hok (Hctx _ _ Hd (or_introl eq_refl)) Hm1)
    as (b1 & z1 & Hz1 & Hlen1 & Hsrc1 & Hmem1).
  pose proof (finish_spec env fin s1 Hwin1) as Hf. rewrite Hfin in Hf.
  pose proof (rest_memory _ _ _ _ _ Hf) as Hmem2. pose proof (rest_records _ _ _ _ _ Hf) as Hrec2.
  rewrite <- Hrec2, <- Hrecs in Hrec1, Hsrc1.
  destruct (prepared_with_helper reattach s2' st3 s3 after Hs2' Hrun2 Hb2 Hc2 (conj Hok2 Hrec1))
    as [_ Hm3].
  destruct (mutation_effect _ _ _ _ _ (conj Hok2 Hrec1) (Hctx _ _ Hr (or_intror eq_refl)) Hm3)
    as (b3 & z3 & Hz3 & Hlen3 & Hsrc3 & Hmem3).
  unfold patch_source, is_op in Hsrc1, Hsrc3. rewrite Hd in Hsrc1. rewrite Hr in Hsrc3. simpl in Hsrc1, Hsrc3.
  destruct Hsrc1 as (act & Hact & Hrecord). destruct (Hrecord eq_refl) as (i & r & old & Hi & Hri & Hfa & Hbytes & Hsz).
  destruct Hsrc3 as (_ & i' & r' & Hi' & Hri' & Hfa' & -> & ->).
  rewrite Hid, Hi in Hi'. simplify_eq. rewrite Hmem2. split; [done|].
  rewrite <- Hfa', Hfa, Hbytes in Hmem3. fold fa in Hmem3.
  destruct (Hok) as [[_ Hpatch] _]. destruct (Hpatch _ _ _ Hp) as (Hla & _ & _).
  destruct (copy_prefix_prefix old active (patch_size r')) as [Hpre|?]; [|lia].
  rewrite Hpre, <- (Hentry _ _ _ Hp) in Hmem3. fold fa in Hmem3. split; intros a Ha; rewrite (Hmem3 a).
  - rewrite write_bytes_in, nth_read_bytes by (rewrite ?length_read_bytes; lia). f_equal. lia.
  - apply write_bytes_out. rewrite length_read_bytes. lia.
Qed.

(** A mutation and its end lead back to rest. *)
Lemma finished_at_rest request fin s s1 s2 st1 st2 :
  at_rest env s -> prepare_hook_mutation env request s = (Some (true, st1), s1) ->
  finish_hook_mutation env fin s1 = (Some (true, st2), s2) -> at_rest env s2.
Proof.
  intros Hs Hp Hf. pose proof (prepare_spec env request _ _ s Hs) as H. rewrite Hp in H.
  destruct H as (_ & _ & Hwin & _). pose proof (finish_spec env fin s1 Hwin) as H. rewrite Hf in H.
  by eapply rest_at_rest.
Qed.

End Guarantees.

(** ** Concrete runs *)

(** A hook at 65536 with sixteen patched bytes. *)
Definition demo_diagnostics : GumPeakPcDiagnostics :=
  mkDiagnostics 65536 16 131072 256 131072 131136 131200 0 0 0 0 0 0 0 0.

Definition demo_active : list Z := read_bytes (memory demo_state) 65536 32.

Definition demo_gum : gum := {|
  gum_get_pc_diagnostics := fun _ => Some demo_diagnostics;
  gum_get_function_patch := fun _ => Some (demo_active, replicate 32 144, 16)
|}.

Definition demo_controller_env : controller_env := {|
  kernel := demo_kernel; the_gum := demo_gum;
  requested_backend := PEAK_DETACH_REQUESTED_BACKEND_HELPER; auto_should_use_signal_backend := false;
  controller_pid := 7; controller_tid := 1;
  c_start_helper := fun _ => None; c_signal_backend := fun _ => None;
  c_write := fun _ => true; c_read := fun _ => true; c_errno_status := fun _ => PEAK_DETACH_STATUS_ERROR;
  c_stat_try_stop := fun _ => true; c_signal_stop := fun _ => inr [];
  c_signal_evacuate := fun _ => None; c_signal_effect := fun _ => true; c_signal_memory := fun _ m => m;
  c_signal_release := fun _ => None; c_contaminated := fun _ => false; breakpoint_can_evac := true;
  c_clock_positive := fun _ => true; c_elapsed_ns := fun _ => 1000; c_allocate := fun _ => true
|}.

Definition demo_controller : controller :=
  mkController zero_mutation (replicate 4 zero_record) 0 0 false false demo_state 0 false false false
    (mkAccounting 0 0 0) false 0 0.

Definition demo_request (op : PeakDetachOperation) : PeakDetachRequest :=
  mkDetachRequest 3 65536 1 1 (Some op) 0 0.

Lemma demo_at_rest env : at_rest env demo_controller.
Proof. split; try done. split_and!; [apply wf_fresh|by left|done]. Qed.

Definition demo_snapshot (op : PeakDetachOperation) : PeakDetachGumSnapshot :=
  default no_snapshot (capture_gum_snapshot demo_gum (demo_request op)).

Lemma demo_snapshot_ok op : snapshot_ok (demo_request op) (demo_snapshot op).
Proof.
  destruct op; (split; [split; vm_compute; [discriminate|reflexivity]|]);
    intros active original size Hp; vm_compute in Hp; simplify_eq; by split_and!.
Qed.

Lemma demo_input_ok op : plan_input_ok (demo_request op) (demo_snapshot op) (physical_patch_records demo_controller).
Proof. split; [apply demo_snapshot_ok|]. by apply Forall_replicate. Qed.

Definition demo_ops : list controller_operation :=
  [Prepare (demo_request PEAK_DETACH_OPERATION_DETACH); PrepareBatch [demo_request PEAK_DETACH_OPERATION_ATTACH];
   Finish None; ShutdownHelper; Prepare (demo_request PEAK_DETACH_OPERATION_REATTACH)].

Lemma held_exactly_while_active_witness :
  exists s', perform_all demo_controller_env demo_ops demo_controller = (Some tt, s') /\
  threads_are_held s' = true /\ in_window demo_controller_env s'.
Proof.
  assert (H : (perform_all demo_controller_env demo_ops demo_controller).1 = Some tt) by (vm_compute; reflexivity).
  exists (perform_all demo_controller_env demo_ops demo_controller).2. apply pair_run in H.
  split; [exact H|].
  pose proof (held_exactly_while_active demo_controller_env demo_ops _ _ (demo_at_rest _) H) as Hh.
  assert (Ht : threads_are_held (perform_all demo_controller_env demo_ops demo_controller).2 = true)
    by (vm_compute; reflexivity).
  rewrite Ht in Hh. split; [exact Ht|exact Hh].
Defined.

(** A thread stopped inside the patched bytes. *)
Definition busy_env : controller_env := {|
  kernel := {|
    k_seize := k_seize demo_kernel; k_interrupt := k_interrupt demo_kernel; k_wait := k_wait demo_kernel;
    k_stop_pc := fun _ tid => 65440 + tid; k_detach := k_detach demo_kernel;
    k_task_gone := k_task_gone demo_kernel; k_regs_get := k_regs_get demo_kernel;
    k_regs_set := k_regs_set demo_kernel; k_single_step := k_single_step demo_kernel;
    k_step_data := k_step_data demo_kernel;
    k_opendir := k_opendir demo_kernel; k_readdir := k_readdir demo_kernel; k_pwrite := k_pwrite demo_kernel;
    k_pread := k_pread demo_kernel; k_peek := k_peek demo_kernel; k_poke := k_poke demo_kernel;
    k_milliseconds := k_milliseconds demo_kernel; k_send := k_send demo_kernel;
    k_send_errno := k_send_errno demo_kernel; k_garbage := [] |};
  the_gum := demo_gum; requested_backend := PEAK_DETACH_REQUESTED_BACKEND_HELPER;
  auto_should_use_signal_backend := false; controller_pid := 7; controller_tid := 1;
  c_start_helper := fun _ => None; c_signal_backend := fun _ => None;
  c_write := fun _ => true; c_read := fun _ => true; c_errno_status := fun _ => PEAK_DETACH_STATUS_ERROR;
  c_stat_try_stop := fun _ => true; c_signal_stop := fun _ => inr [];
  c_signal_evacuate := fun _ => None; c_signal_effect := fun _ => true; c_signal_memory := fun _ m => m;
  c_signal_release := fun _ => None; c_contaminated := fun _ => false; breakpoint_can_evac := true;
  c_clock_positive := fun _ => true; c_elapsed_ns := fun _ => 1000; c_allocate := fun _ => true
|}.

Lemma failed_preparation_restores_witness :
  exists s', prepare_hook_mutation busy_env (demo_request PEAK_DETACH_OPERATION_DETACH) demo_controller =
    (Some (false, PEAK_DETACH_STATUS_CLASSIFY_FAILED), s') /\
  physical_patch_records s' = physical_patch_records demo_controller.
Proof.
  assert (H : (prepare_hook_mutation busy_env (demo_request PEAK_DETACH_OPERATION_DETACH) demo_controller).1 =
    Some (false, PEAK_DETACH_STATUS_CLASSIFY_FAILED)) by (vm_compute; reflexivity).
  eexists. apply pair_run in H. split; [exact H|].
  apply (failed_preparation_restores busy_env _ _ _ _ (demo_at_rest _) H).
Defined.

Lemma prepared_threads_clear_witness :
  exists s', prepare_hook_mutation demo_controller_env (demo_request PEAK_DETACH_OPERATION_SHUTDOWN) demo_controller =
    (Some (true, PEAK_DETACH_STATUS_SAFE), s') /\
  covered demo_kernel 1 (the_helper s').
Proof.
  assert (H : (prepare_hook_mutation demo_controller_env (demo_request PEAK_DETACH_OPERATION_SHUTDOWN)
    demo_controller).1 = Some (true, PEAK_DETACH_STATUS_SAFE)) by (vm_compute; reflexivity).
  eexists. apply pair_run in H. split; [exact H|].
  refine (proj1 (prepared_threads_clear demo_controller_env _ _ _ _
    (demo_snapshot PEAK_DETACH_OPERATION_SHUTDOWN) demo_diagnostics (demo_at_rest _) H _ eq_refl
    (demo_input_ok PEAK_DETACH_OPERATION_SHUTDOWN) eq_refl _ _ eq_refl)); [vm_compute; reflexivity|done|].
  split; [|discriminate]. intros active original size Hp. vm_compute in Hp. injection Hp as <- <- <-.
  reflexivity.
Defined.

Definition demo_detached : controller :=
  (prepare_hook_mutation demo_controller_env (demo_request PEAK_DETACH_OPERATION_DETACH) demo_controller).2.
Definition demo_finished : controller := (finish_hook_mutation demo_controller_env None demo_detached).2.
Definition demo_reattached : controller :=
  (prepare_hook_mutation demo_controller_env (demo_request PEAK_DETACH_OPERATION_REATTACH) demo_finished).2.

Lemma demo_finished_at_rest : at_rest demo_controller_env demo_finished.
Proof.
  assert (H1 : (prepare_hook_mutation demo_controller_env (demo_request PEAK_DETACH_OPERATION_DETACH)
    demo_controller).1 = Some (true, PEAK_DETACH_STATUS_SAFE)) by (vm_compute; reflexivity).
  assert (H2 : (finish_hook_mutation demo_controller_env None demo_detached).1 =
    Some (true, PEAK_DETACH_STATUS_SAFE)) by (vm_compute; reflexivity).
  apply pair_run in H1, H2.
  exact (finished_at_rest demo_controller_env (demo_request PEAK_DETACH_OPERATION_DETACH) None demo_controller
    demo_detached demo_finished _ _ (demo_at_rest _) H1 H2).
Qed.

Lemma detach_reattach_roundtrip_witness :
  memory (the_helper demo_finished) 65540 = 144 /\
  (forall a, 65536 <= a < 65552 ->
     memory (the_helper demo_reattached) a = memory (the_helper demo_controller) a) /\
  (forall a, a < 65536 \/ 65552 <= a ->
     memory (the_helper demo_reattached) a = memory (the_helper demo_finished) a).
Proof.
  assert (H1 : (prepare_hook_mutation demo_controller_env (demo_request PEAK_DETACH_OPERATION_DETACH)
    demo_controller).1 = Some (true, PEAK_DETACH_STATUS_SAFE)) by (vm_compute; reflexivity).
  assert (H2 : (finish_hook_mutation demo_controller_env None demo_detached).1 =
    Some (true, PEAK_DETACH_STATUS_SAFE)) by (vm_compute; reflexivity).
  assert (H3 : (prepare_hook_mutation demo_controller_env (demo_request PEAK_DETACH_OPERATION_REATTACH)
    demo_finished).1 = Some (true, PEAK_DETACH_STATUS_SAFE)) by (vm_compute; reflexivity).
  apply pair_run in H1, H2, H3. split; [vm_compute; reflexivity|].
  refine (proj2 (detach_reattach_roundtrip demo_controller_env
    (demo_request PEAK_DETACH_OPERATION_DETACH) (demo_request PEAK_DETACH_OPERATION_REATTACH)
    (demo_snapshot PEAK_DETACH_OPERATION_DETACH) (demo_snapshot PEAK_DETACH_OPERATION_REATTACH)
    demo_controller demo_detached demo_finished demo_finished demo_reattached _ _ _ None demo_active
    (replicate 32 144) 16
    (demo_at_rest _) _ eq_refl eq_refl eq_refl eq_refl eq_refl eq_refl (demo_input_ok _) (demo_snapshot_ok _)
    H1 _ H2 demo_finished_at_rest eq_refl H3 _)); try (vm_compute; reflexivity).
  intros active original size Hp.
  change (Some (demo_active, replicate 32 144, 16) = Some (active, original, size)) in Hp.
  injection Hp as <- <- <-. vm_compute. reflexivity.
Defined.
