(* ===== verification/DetachBatch.v ===== *)
(** * Results of a batch preparation

    What [prepare_hook_mutation_batch] of [DetachController] answers, whatever
    the backend, the helper and the surroundings do: one result per request and
    the number of prepared ones.  This discharges the interface
    [BatchPreparation] that the hook lifecycle is verified against. *)

From S2P Require Import Prelude HookModel DetachHelper DetachPlan DetachPlanProofs DetachController DetachGuarantees LifecycleProtocol.

(** A batch of [n] requests, [u] of which are candidates; none is prepared yet. *)
Record batch_shape (n u : nat) (b : batch) : Prop := {
  shape_candidates : length (b_candidates b) = u;
  shape_results : length (b_results b) = n;
  shape_unprepared : Forall (fun r => prepared r = false) (b_results b)
}.

Definition answer_ok (n : nat) (x : batch_answer) : Prop :=
  let '(_, results, count, _) := x in length results = n /\ count = countb prepared results.

Lemma countb_none {A} (p : A -> bool) l : Forall (fun x => p x = false) l -> countb p l = 0%nat.
Proof. induction 1 as [|x l Hx _ IH]; simpl; [done|]. by rewrite Hx, IH. Qed.

Lemma countb_app {A} (p : A -> bool) l k : countb p (l ++ k) = (countb p l + countb p k)%nat.
Proof. induction l as [|x l IH]; simpl; [done|]. rewrite IH. lia. Qed.

(** ** Every step keeps the shape *)

Section Shape.
Context (n u : nat).

Lemma set_status_shape st i f b :
  batch_shape n u b -> batch_shape n u (mkBatch (alter f i (b_candidates b)) (alter (set_status st) i (b_results b))).
Proof.
  intros [Hc Hr Hf]. split; simpl; rewrite ?length_alter; [done|done|].
  apply Forall_alter; [done|]. by intros r _ Hi.
Qed.

Lemma refuse_shape st i b : batch_shape n u b -> batch_shape n u (refuse st i b).
Proof. apply set_status_shape. Qed.

Lemma status_shape st i b :
  batch_shape n u b -> batch_shape n u (mkBatch (b_candidates b) (alter (set_status st) i (b_results b))).
Proof.
  intros [Hc Hr Hf]. split; simpl; rewrite ?length_alter; [done|done|].
  apply Forall_alter; [done|]. by intros r _ Hi.
Qed.

Lemma candidate_shape c b : length c = u -> batch_shape n u b -> batch_shape n u (mkBatch c (b_results b)).
Proof. intros Hl [Hc Hr Hf]. by split. Qed.

Lemma fold_shape {A} (f : batch -> A -> batch) l : forall b,
  (forall b x, batch_shape n u b -> batch_shape n u (f b x)) ->
  batch_shape n u b -> batch_shape n u (fold_left f l b).
Proof. induction l as [|x l IH]; intros b Hf Hb; simpl; [done|]. apply IH; auto. Qed.

Lemma same_targets_shape requests m i b :
  batch_shape n u b -> batch_shape n u (refuse_same_targets requests m i b).
Proof.
  intros Hb. unfold refuse_same_targets. destruct (valid_at b i); [|done]. apply fold_shape; [|done].
  intros b' j Hb'. destruct (_ && _); [|done]. by apply refuse_shape, refuse_shape.
Qed.

Lemma capture_shape env requests records i b :
  batch_shape n u b -> batch_shape n u (capture_candidate env requests records i b).
Proof.
  intros Hb. unfold capture_candidate. destruct (requests !! i) as [request|]; [|done].
  destruct (negb _); [done|]. destruct (_ && _); [by apply refuse_shape|].
  destruct (capture_gum_snapshot _ _); [|by apply refuse_shape].
  apply candidate_shape; [|done]. rewrite length_alter. by destruct Hb.
Qed.

Lemma duplicates_shape requests m b :
  batch_shape n u b -> batch_shape n u (refuse_canonical_duplicates requests m b).
Proof.
  intros Hb. unfold refuse_canonical_duplicates. destruct (_ <? _)%nat; [|done]. apply fold_shape; [|done].
  intros b' j Hb'. destruct (canonical_duplicate _ _ _ _); [|done]. by apply refuse_shape.
Qed.

Lemma classify_batch_shape env requests backend threads todo : forall aggregate records b,
  batch_shape n u b ->
  batch_shape n u (classify_batch env requests backend threads todo aggregate records b).2.
Proof.
  induction todo as [|i todo IH]; intros aggregate records b Hb; cbn [classify_batch]; [done|].
  destruct (requests !! i) as [request|]; [|by apply IH].
  destruct (b_candidates b !! i) as [c|]; [|by apply IH].
  destruct (negb _); [by apply IH|].
  destruct (classify_stopped_threads _ _ _ _ _ _ _) as [[st|m] records'].
  { apply IH. by apply status_shape. }
  assert (Hcand : forall c', batch_shape n u (mkBatch (<[i := c']> (b_candidates b)) (b_results b))).
  { intros c'. apply candidate_shape; [|done]. rewrite length_insert. by destruct Hb. }
  destruct (append_candidate_mutation aggregate m) as [st|aggregate']; [apply Hcand|]. apply IH.
  exact (status_shape PEAK_DETACH_STATUS_SAFE i _ (Hcand _)).
Qed.

Lemma results_where_ok test f b st :
  batch_shape n u b -> (forall r, prepared r = false -> prepared (f r) = false) ->
  answer_ok n (false, results_where test f b, 0%nat, st).
Proof.
  intros [Hc Hr Hf] Hpf. unfold answer_ok, results_where. split.
  - rewrite length_app, length_zip_with, length_take, length_drop. lia.
  - symmetry. apply countb_none. apply Forall_app. split; [|by apply Forall_drop].
    apply (Forall_take _ (length (b_candidates b))) in Hf. revert Hf.
    generalize (take (length (b_candidates b)) (b_results b)) as rs. clear -Hpf.
    generalize (b_candidates b) as cs. induction cs as [|c cs IH]; intros rs Hf; [constructor|].
    destruct Hf as [|r rs Hr Hf]; [constructor|]. simpl. constructor; [|by apply IH].
    destruct (test c r); auto.
Qed.

Lemma prepared_results_ok b f st :
  batch_shape n u b -> (u <= n)%nat ->
  answer_ok n (true,
    zip_with (fun c r => if c_safe c then mkBatchResult true (f c) (batch_result_status r) else r)
      (b_candidates b) (take (length (b_candidates b)) (b_results b))
    ++ drop (length (b_candidates b)) (b_results b), countb c_safe (b_candidates b), st).
Proof.
  intros [Hc Hr Hf] Hu. unfold answer_ok. split.
  { rewrite length_app, length_zip_with, length_take, length_drop. lia. }
  rewrite countb_app, (countb_none prepared (drop _ _)) by (by apply Forall_drop). rewrite Nat.add_0_r.
  assert (Hlen : length (take (length (b_candidates b)) (b_results b)) = length (b_candidates b))
    by (rewrite length_take; lia).
  apply (Forall_take _ (length (b_candidates b))) in Hf. revert Hf Hlen.
  generalize (take (length (b_candidates b)) (b_results b)) as rs. clear.
  generalize (b_candidates b) as cs. induction cs as [|c cs IH]; intros rs Hf Hlen; [done|].
  destruct Hf as [|r rs Hr Hf]; [done|]. simpl in *. rewrite (IH rs) by (done || lia).
  destruct (c_safe c); [done|]. by rewrite Hr.
Qed.

End Shape.

(** ** Programs whose answer satisfies a predicate *)

Definition answers {A} (P : A -> Prop) (m : CM A) : Prop :=
  forall s, match (m s).1 with Some a => P a | None => True end.

Lemma answers_ret {A} (P : A -> Prop) a : P a -> answers P (cret a).
Proof. by intros Ha s. Qed.

Lemma answers_bind {A B} (P : B -> Prop) (m : CM A) (f : A -> CM B) :
  (forall a, answers P (f a)) -> answers P (cbind m f).
Proof. intros Hf s. unfold cbind. destruct (m s) as [[a|] s']; [apply Hf|done]. Qed.

Ltac answers_walk :=
  repeat (cbv beta zeta;
    lazymatch goal with
    | |- answers _ (cbind _ _) => apply answers_bind; intros ?
    | |- answers _ (cret _) => apply answers_ret
    | |- answers _ (if ?b then _ else _) => destruct b
    | |- answers _ (match ?x with _ => _ end) => destruct x
    end).

Section Answers.
Context (env : controller_env).

Lemma mutate_stopped_batch_answers n requests usable b saved backend threads :
  batch_shape n usable b -> (usable <= n)%nat ->
  answers (answer_ok n) (mutate_stopped_batch env requests usable b saved backend threads).
Proof.
  intros Hb Hu. unfold mutate_stopped_batch. apply answers_bind. intros [|].
  { answers_walk. by eapply results_where_ok. }
  apply answers_bind. intros records.
  pose proof (classify_batch_shape n usable env requests backend threads (seq 0 usable) zero_mutation records b Hb)
    as Hb'.
  destruct (classify_batch env requests backend threads (seq 0 usable) zero_mutation records b)
    as [[[ambiguous aggregate] records'] b']. cbn [snd] in Hb'.
  answers_walk; try (by eapply results_where_ok).
  - split; [apply Hb'|]. symmetry. apply countb_none, Hb'.
  - by eapply prepared_results_ok.
Qed.

Lemma initial_shape requests usable :
  (usable <= length requests)%nat -> batch_shape (length requests) usable (initial_batch requests usable).
Proof.
  intros Hu. split; simpl.
  - rewrite length_map, length_take. lia.
  - rewrite length_app, !length_map, length_take, length_drop. lia.
  - apply Forall_app. split; apply Forall_map; by apply Forall_true.
Qed.

Lemma prepare_batch_answers requests :
  answers (answer_ok (length requests)) (prepare_hook_mutation_batch env requests).
Proof.
  unfold prepare_hook_mutation_batch. destruct requests as [|r requests]; [by apply answers_ret|].
  generalize (r :: requests) as rs. clear. intros rs. cbv zeta.
  set (usable := Nat.min (length rs) _). assert (Hu : (usable <= length rs)%nat) by lia. clearbody usable.
  assert (Herr : forall st, answer_ok (length rs)
    (false, map (fun _ => mkBatchResult false false PEAK_DETACH_STATUS_ERROR) rs, 0%nat, st)).
  { intros st. split; [by rewrite length_map|]. symmetry. apply countb_none, Forall_map. by apply Forall_true. }
  apply answers_bind. intros [|]; cbn [negb]; [|by apply answers_ret].
  apply answers_bind. intros s. destruct (m_active (held_mutation s)); [by apply answers_ret|].
  apply answers_bind. intros _.
  set (b := refuse_canonical_duplicates rs usable _).
  assert (Hb : batch_shape (length rs) usable b).
  { apply duplicates_shape, fold_shape; [intros; by apply capture_shape|].
    apply fold_shape; [intros; by apply same_targets_shape|]. by apply initial_shape. }
  clearbody b. destruct (_ =? _)%nat.
  { apply answers_ret. split; [apply Hb|]. symmetry. apply countb_none, Hb. }
  assert (Hfail : forall st, answer_ok (length rs) (false, fail_all st b, 0%nat, st))
    by (intros st; by eapply results_where_ok).
  apply answers_bind. intros [st|backend]; [by apply answers_ret|].
  apply answers_bind. intros [|]; cbn [negb]; [|by apply answers_ret].
  do 3 (apply answers_bind; intros ?). match goal with x : _ + _ |- _ => destruct x as [st|[be threads]] end.
  - apply answers_bind. intros _. by apply answers_ret.
  - by apply mutate_stopped_batch_answers.
Qed.

(** The lifecycle's batch oracle, answered by the controller: [states] is the
    controller when the lifecycle asks, [request_of] the request for a hook.  A
    process that ends has no answer; it stands for one that prepared nothing. *)
Definition controller_batch (states : nat -> controller) (request_of : nat -> PeakDetachRequest)
    (t : nat) (ids : list nat) : list PeakDetachBatchResult * nat :=
  match (prepare_hook_mutation_batch env (map request_of ids) (states t)).1 with
  | Some (_, results, count, _) => (results, count)
  | None => (map (fun _ => mkBatchResult false false PEAK_DETACH_STATUS_ERROR) ids, 0%nat)
  end.

(** C14: a batch preparation answers one result per request and the number of
    results that are prepared, for every behaviour of the helper, the backends
    and the kernel; a hook lifecycle that asks this controller therefore meets
    the interface its theorems assume. *)
Theorem controller_meets_batch_interface (E : environment) states request_of :
  (forall t ids, env_prepare_batch E t ids = controller_batch states request_of t ids) ->
  BatchPreparation E.
Proof.
  intros HE.
  assert (Hok : forall t ids, length (controller_batch states request_of t ids).1 = length ids /\
    (controller_batch states request_of t ids).2 = countb prepared (controller_batch states request_of t ids).1).
  { intros t ids. unfold controller_batch.
    pose proof (prepare_batch_answers (map request_of ids) (states t)) as Ha.
    destruct (prepare_hook_mutation_batch env (map request_of ids) (states t)).1 as [[[[ok results] count] st]|].
    - destruct Ha as [Hl Hc]. rewrite length_map in Hl. done.
    - simpl. rewrite length_map. split; [done|]. symmetry. apply countb_none, Forall_map. by apply Forall_true. }
  split; intros t ids; rewrite HE; apply Hok.
Qed.

End Answers.

(** ** The plan of a batch *)

Lemma classify_batch_plan env requests backend threads todo : forall aggregate records b aggregate' records' b',
  classify_batch env requests backend threads todo aggregate records b = (None, aggregate', records', b') ->
  conflict_free (m_instructions aggregate) ->
  (length (m_instructions aggregate) <= PEAK_DETACH_HELPER_MAX_INSTRUCTIONS)%nat ->
  conflict_free (m_instructions aggregate') /\
  (length (m_instructions aggregate') <= PEAK_DETACH_HELPER_MAX_INSTRUCTIONS)%nat.
Proof.
  induction todo as [|i todo IH]; intros aggregate records b aggregate' records' b' H Hcf Hlen;
    cbn [classify_batch] in H; [by simplify_eq|].
  destruct (requests !! i) as [request|]; [|by eapply IH].
  destruct (b_candidates b !! i) as [c|]; [|by eapply IH].
  destruct (negb _); [by eapply IH|].
  destruct (classify_stopped_threads _ _ _ _ _ _ _) as [[st|m] records1]; [by eapply IH|].
  unfold append_candidate_mutation in H.
  destruct (append_candidate_instructions _ (m_instructions m)) as [st|ins] eqn:Ha; [done|].
  apply append_candidate_conflict_free in Ha as (Ha1 & Ha2 & _); [|done|done]. by eapply IH; [exact H|..].
Qed.

(** the instructions a batch sends to the backend never contradict each
    other: no thread is moved twice or stepped twice, no two writes overlap;
    and they fit the helper's request. *)
Theorem batch_plan_conflict_free env requests backend threads todo records b aggregate records' b' :
  classify_batch env requests backend threads todo zero_mutation records b = (None, aggregate, records', b') ->
  conflict_free (m_instructions aggregate) /\
  (length (m_instructions aggregate) <= PEAK_DETACH_HELPER_MAX_INSTRUCTIONS)%nat.
Proof.
  intros H. eapply classify_batch_plan; [exact H| |simpl; lia]. intros a i m j c Heq. by destruct a.
Qed.

(** ** Distinct targets *)

(** Refusing requests only takes candidates away. *)
Lemma canonical_refuse requests st k b i x :
  canonical_at requests (refuse st k b) i = Some x -> canonical_at requests b i = Some x /\ i <> k.
Proof.
  unfold canonical_at, refuse. cbn [b_candidates]. destruct (requests !! i) as [request|]; [|done].
  destruct (decide (i = k)) as [->|Hne].
  - rewrite list_lookup_alter_eq. by destruct (b_candidates b !! k).
  - by rewrite list_lookup_alter_ne.
Qed.

Lemma canonical_fold requests (dup : nat -> bool) st l : forall b i x,
  canonical_at requests (fold_left (fun b' k => if dup k then refuse st k b' else b') l b) i = Some x ->
  canonical_at requests b i = Some x /\ (i ∈ l -> dup i = false).
Proof.
  induction l as [|k l IH]; intros b i x H; simpl in H; [split; [done|by intros ?%not_elem_of_nil]|].
  apply IH in H as [H Hl]. destruct (dup k) eqn:Hk.
  - apply canonical_refuse in H as [H Hne]. split; [done|]. by intros [?|?]%elem_of_cons; auto.
  - split; [done|]. by intros [->|?]%elem_of_cons; auto.
Qed.

Lemma canonical_valid requests b i x :
  canonical_at requests b i = Some x ->
  exists c, b_candidates b !! i = Some c /\ c_valid c = true /\ (i < length (b_candidates b))%nat.
Proof.
  unfold canonical_at. destruct (requests !! i); [|done].
  destruct (b_candidates b !! i) as [c|] eqn:Hc; [|done]. destruct (c_valid c) eqn:Hv; [|done]. intros _.
  exists c. split_and!; [done|done|by eapply lookup_lt_Some].
Qed.

Lemma countb_two {A} (p : A -> bool) l i j x y :
  l !! i = Some x -> l !! j = Some y -> i <> j -> p x = true -> p y = true -> (1 < countb p l)%nat.
Proof.
  revert i j. induction l as [|z l IH]; intros [|i] [|j] Hi Hj Hne Hx Hy; simplify_eq/=.
  - rewrite Hx. pose proof (countb_pos p l j y Hj Hy). simpl. lia.
  - rewrite Hy. pose proof (countb_pos p l i x Hi Hx). simpl. lia.
  - pose proof (IH i j Hi Hj ltac:(congruence) Hx Hy). lia.
Qed.

(** of the candidates a batch goes on with, no two are for the same hook or
    for the same function, also when aliases of its address were given. *)
Theorem batch_targets_distinct requests b i j id1 a1 id2 a2 :
  let b' := refuse_canonical_duplicates requests (length (b_candidates b)) b in
  i <> j -> canonical_at requests b' i = Some (id1, a1) -> canonical_at requests b' j = Some (id2, a2) ->
  id1 <> id2 /\ a1 <> a2.
Proof.
  intros b' Hne Hi Hj. unfold b', refuse_canonical_duplicates in Hi, Hj.
  destruct (Nat.ltb_spec 1 (countb c_valid (b_candidates b))) as [Hc|Hc].
  2: { destruct (canonical_valid _ _ _ _ Hi) as (c1 & Hc1 & Hv1 & _).
       destruct (canonical_valid _ _ _ _ Hj) as (c2 & Hc2 & Hv2 & _).
       pose proof (countb_two c_valid _ _ _ _ _ Hc1 Hc2 Hne Hv1 Hv2). lia. }
  apply canonical_fold in Hi as [Hi Hdup], Hj as [Hj _].
  destruct (canonical_valid _ _ _ _ Hi) as (_ & _ & _ & Hli).
  destruct (canonical_valid _ _ _ _ Hj) as (_ & _ & _ & Hlj).
  assert (Hnd : canonical_duplicate requests (length (b_candidates b)) b i = false)
    by (apply Hdup, elem_of_seq; lia).
  unfold canonical_duplicate in Hnd. rewrite <- not_true_iff_false, existsb_exists in Hnd.
  destruct (decide (id1 = id2 \/ a1 = a2)) as [Hsame|Hdiff]; [|tauto]. destruct Hnd.
  exists j. split; [apply in_seq; lia|]. rewrite Hi, Hj.
  apply andb_true_iff. split; [apply negb_true_iff, Nat.eqb_neq; congruence|].
  apply orb_true_iff. destruct Hsame as [-> | ->]; [left|right]; apply Z.eqb_refl.
Qed.

(** ** A concrete run *)

(** The lifecycle's demonstration environment with the controller's batches. *)
Definition batch_env : environment :=
  mkEnv (env_second demo_env) (env_prepare demo_env) (env_threads_held demo_env) (env_physical_patch demo_env)
    (env_finish demo_env)
    (controller_batch demo_controller_env (fun _ => demo_controller)
       (fun id => mkDetachRequest (Z.of_nat id) (65536 * Z.of_nat id) 1 1 (Some PEAK_DETACH_OPERATION_DETACH) 0 0))
    true (env_pause demo_env) (env_prepare_fast_detach demo_env) (env_gum_flush demo_env)
    (env_gum_attach_ok demo_env) (env_total_calls demo_env) (env_snapshot_threads demo_env)
    (env_main_time demo_env) (env_general_overhead demo_env) (env_reattach_cooldown_s demo_env)
    (env_max_retry_count demo_env) (env_max_pending_age_s demo_env) (env_max_num_threads demo_env)
    (env_controller_tid demo_env).

Lemma controller_meets_batch_interface_witness :
  BatchPreparation batch_env /\ (env_prepare_batch batch_env 0 [1%nat]).2 = 1%nat.
Proof.
  split; [|vm_compute; reflexivity].
  exact (controller_meets_batch_interface demo_controller_env batch_env _ _ (fun _ _ => eq_refl)).
Defined.

(** Two hooks to detach. *)
Definition demo_batch_requests : list PeakDetachRequest :=
  [mkDetachRequest 1 65536 1 1 (Some PEAK_DETACH_OPERATION_DETACH) 0 0;
   mkDetachRequest 2 65600 1 1 (Some PEAK_DETACH_OPERATION_DETACH) 0 0].

(** Each request is for its own function, without Gum diagnostics of its own. *)
Definition demo_batch : batch :=
  mkBatch (map (fun r => mkCandidate true false
                  (mkGumSnapshot None (Some (demo_active, replicate 32 144, 16))) zero_mutation) demo_batch_requests)
    (map (fun _ => mkBatchResult false false PEAK_DETACH_STATUS_SAFE) demo_batch_requests).

Lemma batch_plan_conflict_free_witness :
  exists aggregate records b',
    classify_batch demo_controller_env demo_batch_requests PEAK_DETACH_HOLD_BACKEND_HELPER
      [mkThreadSnapshot 100 0 4196] (seq 0 2) zero_mutation (replicate 4 zero_record) demo_batch =
      (None, aggregate, records, b') /\
    length (m_instructions aggregate) = 2%nat /\ conflict_free (m_instructions aggregate).
Proof.
  eexists _, _, _. split; [vm_compute; reflexivity|]. split; [reflexivity|].
  exact (proj1 (batch_plan_conflict_free demo_controller_env demo_batch_requests PEAK_DETACH_HOLD_BACKEND_HELPER
    [mkThreadSnapshot 100 0 4196] (seq 0 2) (replicate 4 zero_record) demo_batch _ _ _
    ltac:(vm_compute; reflexivity))).
Defined.

Lemma batch_targets_distinct_witness :
  canonical_at demo_batch_requests (refuse_canonical_duplicates demo_batch_requests 2 demo_batch) 0 = Some (1, 65536) /\
  canonical_at demo_batch_requests (refuse_canonical_duplicates demo_batch_requests 2 demo_batch) 1 = Some (2, 65600) /\
  65536 <> 65600.
Proof.
  split; [vm_compute; reflexivity|]. split; [vm_compute; reflexivity|].
  exact (proj2 (batch_targets_distinct demo_batch_requests demo_batch 0 1 1 65536 2 65600
    ltac:(discriminate) ltac:(vm_compute; reflexivity) ltac:(vm_compute; reflexivity))).
Defined.
