(* ===== verification/ExecMemory.v ===== *)
(** * Readability of exec arguments

    Models [src/exec_memory.c]: before an [execve] is rewritten, the path and
    the arrays of strings the application passed are probed without touching
    them: with [process_vm_readv], then with the list of mappings of
    [/proc/self/maps] and [/proc/self/mem].  User memory maps an address to its
    byte, or to [None] when it cannot be read; the kernel's answers are
    functions of the number of calls made so far.  Pointers and sizes are
    numbers, NULL is 0.  The test hooks are compiled out. *)

From Stdlib Require Import String.
From S2P Require Import Prelude TargetSelector.

Inductive PeakExecPreflightResult :=
  | PEAK_EXEC_PREFLIGHT_VALID
  | PEAK_EXEC_PREFLIGHT_INVALID
  | PEAK_EXEC_PREFLIGHT_UNKNOWN.

#[export] Instance preflight_eq_dec : EqDecision PeakExecPreflightResult.
Proof. solve_decision. Defined.

Definition UINTPTR_MAX : Z := UINT64_MAX.
Definition PATH_MAX : Z := 4096.
Definition PEAK_EXEC_MAX_ENV_ENTRIES : Z := 32768.
Definition PEAK_EXEC_USER_STRING_MAX : Z := 1024 * 1024.

(** ** The lines of [/proc/self/maps] *)

(** -1 when the character is no hexadecimal digit. *)
Definition peak_exec_hex_value (c : Z) : Z :=
  if (ch "0" <=? c) && (c <=? ch "9") then c - ch "0"
  else if (ch "a" <=? c) && (c <=? ch "f") then c - ch "a" + 10
  else if (ch "A" <=? c) && (c <=? ch "F") then c - ch "A" + 10
  else -1.

(** The value and the rest of the line. *)
Fixpoint parse_hex_digits (cursor : cstring) (value : Z) (digits : nat) : option (Z * cstring) :=
  match cursor with
  | c :: cursor' =>
      let digit := peak_exec_hex_value c in
      if digit <? 0 then if (digits =? 0)%nat then None else Some (value, cursor)
      else if (UINTPTR_MAX - digit) / 16 <? value then None
      else parse_hex_digits cursor' (wrap 64 (value * 16 + digit)) (S digits)
  | [] => if (digits =? 0)%nat then None else Some (value, [])
  end.

Definition peak_exec_parse_maps_hex (cursor : cstring) : option (Z * cstring) := parse_hex_digits cursor 0 0.

(** Start, end and readability of the mapping. *)
Definition peak_exec_parse_maps_line (line : cstring) : option (Z * Z * bool) :=
  match peak_exec_parse_maps_hex line with
  | Some (start, dash :: cursor) =>
      if negb (dash =? ch "-") then None
      else
        match peak_exec_parse_maps_hex cursor with
        | Some (stop, space :: cursor) =>
            if negb (space =? ch " ") then None
            else
              match cursor with
              | [] => None
              | r :: _ => if stop <=? start then None else Some (start, stop, r =? ch "r")
              end
        | _ => None
        end
  | _ => None
  end.

(** ** Scanning the file *)

Definition newline : Z := 10.
Definition LINE_SIZE : nat := 1024.

(** [covered], the line so far, and whether the rest of a long one is skipped. *)
Record maps_scan := mkScan {
  covered : Z;
  scanned_line : cstring;
  skipping_long_line : bool
}.

(** A complete line: go on, or the answer. *)
Definition scan_line (stop : Z) (s : maps_scan) : maps_scan + PeakExecPreflightResult :=
  match peak_exec_parse_maps_line (scanned_line s) with
  | Some (map_start, map_end, readable) =>
      if covered s <? map_end then
        if (covered s <? map_start) || negb readable then inr PEAK_EXEC_PREFLIGHT_INVALID
        else
          let c := if map_end <? stop then map_end else stop in
          if stop <=? c then inr PEAK_EXEC_PREFLIGHT_VALID else inl (mkScan c [] false)
      else inl (mkScan (covered s) [] false)
  | None => inl (mkScan (covered s) [] false)
  end.

(** The body of the loop over a buffer. *)
Definition scan_char (stop : Z) (s : maps_scan) (c : Z) : maps_scan + PeakExecPreflightResult :=
  if skipping_long_line s then
    if c =? newline then inl (mkScan (covered s) [] false) else inl s
  else if negb (c =? newline) && (length (scanned_line s) + 1 <? LINE_SIZE)%nat
  then inl (mkScan (covered s) (scanned_line s ++ [c]) false)
  else if negb (c =? newline) then inl (mkScan (covered s) [] true)
  else scan_line stop s.

Fixpoint scan_buffer (stop : Z) (buffer : list Z) (s : maps_scan) : maps_scan + PeakExecPreflightResult :=
  match buffer with
  | [] => inl s
  | c :: buffer =>
      match scan_char stop s c with
      | inl s => scan_buffer stop buffer s
      | inr r => inr r
      end
  end.

Definition EINTR : Z := 4.
Definition EIO : Z := 5.
Definition E2BIG : Z := 7.
Definition EFAULT : Z := 14.
Definition ENAMETOOLONG : Z := 36.

(** The loop of reads: an error number or a buffer each; no more is the end of
    the file. *)
Fixpoint scan_reads (stop : Z) (reads : list (Z + list Z)) (s : maps_scan) : PeakExecPreflightResult :=
  match reads with
  | [] => PEAK_EXEC_PREFLIGHT_INVALID
  | inl e :: reads => if e =? EINTR then scan_reads stop reads s else PEAK_EXEC_PREFLIGHT_INVALID
  | inr [] :: _ => PEAK_EXEC_PREFLIGHT_INVALID
  | inr buffer :: reads =>
      match scan_buffer stop buffer s with
      | inr r => r
      | inl s => scan_reads stop reads s
      end
  end.

(** [None] when the file cannot be opened. *)
Definition peak_exec_maps_range_readable (remote length : Z) (file : option (list (Z + list Z)))
    : PeakExecPreflightResult :=
  if length =? 0 then PEAK_EXEC_PREFLIGHT_VALID
  else if (remote =? 0) || (UINTPTR_MAX - length <? remote) then PEAK_EXEC_PREFLIGHT_INVALID
  else
    match file with
    | None => PEAK_EXEC_PREFLIGHT_UNKNOWN
    | Some reads => scan_reads (remote + length) reads (mkScan remote [] false)
    end.

(** ** Reading user memory *)

Record exec_kernel := mkExecKernel {
  user_memory : Z -> option Z;
  (** bytes transferred, or an error number *)
  k_process_vm_readv : nat -> Z -> nat -> Z + nat;
  k_maps : nat -> option (list (Z + list Z));
  (** [None] when [/proc/self/mem] cannot be opened *)
  k_mem_read : nat -> Z -> nat -> option (Z + nat)
}.

(** State: the number of calls made; [errno] when it is set. *)
Definition EM (A : Type) : Type := nat -> A * nat.
Definition eret {A} (a : A) : EM A := fun n => (a, n).
Definition ebind {A B} (m : EM A) (f : A -> EM B) : EM B := fun n => let '(a, n) := m n in f a n.
Notation "'probe*' x := m 'in' k" := (ebind m (fun x => k))
  (at level 10, x pattern, m at level 100, k at level 200) : peak_scope.
Definition call {A} (f : nat -> A) : EM A := fun n => (f n, S n).

(** The answer with the [errno] an [INVALID] sets. *)
Inductive preflight :=
  | Valid
  | Invalid (e : Z)
  | Unknown.

Section Probes.
Context (env : exec_kernel).

(** What a completed read leaves in the buffer. *)
Fixpoint user_bytes (address : Z) (n : nat) : list Z :=
  match n with O => [] | S n => default 0 (user_memory env address) :: user_bytes (address + 1) n end.

(** The answer and the buffer, meaningful when it is [Valid]. *)
Definition peak_exec_user_read_bytes (remote : Z) (length : nat) : EM (preflight * list Z) :=
  if (length =? 0)%nat then eret (Valid, [])
  else if remote =? 0 then eret (Invalid EFAULT, [])
  else
    probe* bytes_read := call (fun n => k_process_vm_readv env n remote length) in
    match bytes_read with
    | inr k => eret (if (k =? length)%nat then (Valid, user_bytes remote length) else (Invalid EFAULT, []))
    | inl _ =>
        probe* file := call (k_maps env) in
        match peak_exec_maps_range_readable remote (Z.of_nat length) file with
        | PEAK_EXEC_PREFLIGHT_INVALID => eret (Invalid EFAULT, [])
        | PEAK_EXEC_PREFLIGHT_UNKNOWN => eret (Unknown, [])
        | PEAK_EXEC_PREFLIGHT_VALID =>
            probe* mem_read := call (fun n => k_mem_read env n remote length) in
            eret (match mem_read with
                  | None => (Unknown, [])
                  | Some (inr k) => if (k =? length)%nat then (Valid, user_bytes remote length)
                                    else (Invalid EFAULT, [])
                  | Some (inl e) => if e =? EIO then (Invalid EFAULT, []) else (Unknown, [])
                  end)
        end
    end.

Definition BUFFER_SIZE : Z := 256.
Definition PAGE_SIZE : Z := 4096.

(** The loop of [peak_exec_user_cstr_readable]. *)
Fixpoint cstr_loop (fuel : nat) (base max_length offset : Z) : EM preflight :=
  match fuel with
  | O => eret (Invalid ENAMETOOLONG)
  | S fuel =>
      if max_length <=? offset then eret (Invalid ENAMETOOLONG)
      else if UINTPTR_MAX - offset <? base then eret (Invalid EFAULT)
      else
        let address := base + offset in
        let page_remaining := PAGE_SIZE - address mod PAGE_SIZE in
        let chunk := if max_length - offset <? BUFFER_SIZE then max_length - offset else BUFFER_SIZE in
        let chunk := if page_remaining <? chunk then page_remaining else chunk in
        probe* r := peak_exec_user_read_bytes address (Z.to_nat chunk) in
        match r with
        | (Valid, buffer) =>
            if existsb (fun c => c =? 0) buffer then eret Valid
            else cstr_loop fuel base max_length (offset + chunk)
        | (other, _) => eret other
        end
  end.

Definition peak_exec_user_cstr_readable (value max_length : Z) : EM preflight :=
  if value =? 0 then eret (Invalid EFAULT)
  else cstr_loop (Z.to_nat max_length) value max_length 0.

(** A pointer of eight bytes in the little-endian order. *)
Fixpoint little_endian (bs : list Z) : Z :=
  match bs with [] => 0 | b :: bs => b + 256 * little_endian bs end.

(** The loop over the entries of an array of strings. *)
Fixpoint array_loop (fuel : nat) (base i max_string_length : Z) : EM preflight :=
  match fuel with
  | O => eret (Invalid E2BIG)
  | S fuel =>
      if (UINTPTR_MAX - base) / 8 <? i then eret (Invalid EFAULT)
      else
        probe* r := peak_exec_user_read_bytes (base + i * 8) 8 in
        match r with
        | (Valid, buffer) =>
            let entry := little_endian buffer in
            if entry =? 0 then eret Valid
            else
              probe* r := peak_exec_user_cstr_readable entry max_string_length in
              match r with
              | Valid => array_loop fuel base (i + 1) max_string_length
              | other => eret other
              end
        | (other, _) => eret other
        end
  end.

Definition peak_exec_user_cstr_array_readable (values max_entries max_string_length : Z) : EM preflight :=
  if values =? 0 then eret Valid
  else array_loop (Z.to_nat max_entries) values 0 max_string_length.

Definition peak_exec_argv_envp_readable (argv envp : Z) : EM preflight :=
  probe* r := peak_exec_user_cstr_array_readable argv PEAK_EXEC_MAX_ENV_ENTRIES PEAK_EXEC_USER_STRING_MAX in
  match r with
  | Valid => peak_exec_user_cstr_array_readable envp PEAK_EXEC_MAX_ENV_ENTRIES PEAK_EXEC_USER_STRING_MAX
  | other => eret other
  end.

Definition peak_exec_args_readable (path argv envp : Z) : EM preflight :=
  probe* r := peak_exec_user_cstr_readable path PATH_MAX in
  match r with
  | Valid => peak_exec_argv_envp_readable argv envp
  | other => eret other
  end.

End Probes.
