(* ===== verification/ExecMemoryProofs.v ===== *)
(** * Readability of exec arguments: theorems

    The scan of [/proc/self/maps] says VALID only for ranges that are mapped for
    reading, however the file is read, and INVALID only for others unless a line
    is too long for its buffer or a read fails; the probes of strings and arrays
    answer what the memory is under the same conditions, given what the kernel
    documents. *)

From Stdlib Require Import String Sorted.
From S2P Require Import Prelude TargetSelector EnvParser ExecMemory.

(** ** Hexadecimal numbers *)

Definition is_hex (c : Z) : bool := 0 <=? peak_exec_hex_value c.
Definition hex_number (v : Z) (ds : cstring) : Z := fold_left (fun v d => v * 16 + peak_exec_hex_value d) ds v.

Lemma hex_value_range c : peak_exec_hex_value c = -1 \/ 0 <= peak_exec_hex_value c < 16.
Proof.
  unfold peak_exec_hex_value. change (ch "0") with 48. change (ch "9") with 57. change (ch "a") with 97.
  change (ch "f") with 102. change (ch "A") with 65. change (ch "F") with 70.
  repeat case_match; breflect; lia.
Qed.

Lemma hex_number_ge ds : forall v, 0 <= v -> v <= hex_number v ds \/ Exists (fun d => is_hex d = false) ds.
Proof.
  induction ds as [|d ds IH]; intros v Hv; [left; done|]. unfold is_hex in *.
  destruct (hex_value_range d) as [Hd|Hd]; [right; left; by rewrite Hd|].
  destruct (IH (v * 16 + peak_exec_hex_value d)) as [H|H]; [lia|left|right; by right].
  unfold hex_number in *. simpl. lia.
Qed.

Lemma parse_hex_digits_spec ds : forall rest v n,
  Forall (fun d => is_hex d = true) ds ->
  match rest with c :: _ => is_hex c = false | [] => True end ->
  0 <= v <= UINTPTR_MAX -> (ds <> [] \/ n <> 0%nat) ->
  parse_hex_digits (ds ++ rest) v n =
    if hex_number v ds <=? UINTPTR_MAX then Some (hex_number v ds, rest) else None.
Proof.
  induction ds as [|d ds IH]; intros rest v n Hds Hrest Hv Hn.
  - assert (Hn' : (n =? 0)%nat = false) by (apply Nat.eqb_neq; naive_solver). simpl. unfold hex_number. simpl.
    destruct (Z.leb_spec v UINTPTR_MAX); [|lia].
    destruct rest as [|c rest]; simpl; [by rewrite Hn'|]. unfold is_hex in Hrest. apply Z.leb_gt in Hrest.
    destruct (Z.ltb_spec (peak_exec_hex_value c) 0); [by rewrite Hn'|lia].
  - apply Forall_cons in Hds as [Hd Hds]. unfold is_hex in Hd. breflect. cbn [app parse_hex_digits].
    destruct (Z.ltb_spec (peak_exec_hex_value d) 0); [lia|].
    assert (Hlt : peak_exec_hex_value d < 16) by (destruct (hex_value_range d); lia).
    assert (Hmul : (UINTPTR_MAX - peak_exec_hex_value d) / 16 < v <-> UINTPTR_MAX < v * 16 + peak_exec_hex_value d).
    { pose proof (Z.div_mod (UINTPTR_MAX - peak_exec_hex_value d) 16 ltac:(lia)) as Hdm.
      pose proof (Z.mod_pos_bound (UINTPTR_MAX - peak_exec_hex_value d) 16 ltac:(lia)). lia. }
    change (hex_number v (d :: ds)) with (hex_number (v * 16 + peak_exec_hex_value d) ds).
    destruct (Z.ltb_spec ((UINTPTR_MAX - peak_exec_hex_value d) / 16) v) as [Hov|Hok].
    + apply Hmul in Hov.
      destruct (hex_number_ge ds (v * 16 + peak_exec_hex_value d) ltac:(lia)) as [Hge|Hex].
      * destruct (Z.leb_spec (hex_number (v * 16 + peak_exec_hex_value d) ds) UINTPTR_MAX); [lia|done].
      * apply Exists_exists in Hex as (x & Hx & Hx'). rewrite Forall_forall in Hds. by rewrite (Hds x Hx) in Hx'.
    + assert (Hsmall : v * 16 + peak_exec_hex_value d <= UINTPTR_MAX) by lia.
      rewrite wrap_small by (unfold UINTPTR_MAX, UINT64_MAX in *; lia).
      apply IH; [done|done|lia|by right].
Qed.

Lemma parse_maps_hex_spec ds rest :
  Forall (fun d => is_hex d = true) ds -> ds <> [] ->
  match rest with c :: _ => is_hex c = false | [] => True end ->
  hex_number 0 ds <= UINTPTR_MAX ->
  peak_exec_parse_maps_hex (ds ++ rest) = Some (hex_number 0 ds, rest).
Proof.
  intros Hds Hne Hrest Hv. unfold peak_exec_parse_maps_hex.
  rewrite parse_hex_digits_spec; [|done|done|unfold UINTPTR_MAX, UINT64_MAX; lia|by left].
  by destruct (Z.leb_spec (hex_number 0 ds) UINTPTR_MAX); [|lia].
Qed.

(** The kernel's way of writing a number: lower case, at least eight digits. *)
Definition hex_digit (d : Z) : Z := if d <? 10 then ch "0" + d else ch "a" + (d - 10).

Fixpoint to_hex (fuel : nat) (v : Z) : cstring :=
  match fuel with
  | O => []
  | S fuel => (if v <? 16 then [] else to_hex fuel (v / 16)) ++ [hex_digit (v mod 16)]
  end.

Definition print_hex (v : Z) : cstring :=
  let ds := to_hex 16 v in replicate (8 - length ds) (ch "0") ++ ds.

Lemma hex_digit_value d : 0 <= d < 16 -> peak_exec_hex_value (hex_digit d) = d.
Proof.
  intros Hd. unfold hex_digit, peak_exec_hex_value. change (ch "0") with 48. change (ch "9") with 57.
  change (ch "a") with 97. change (ch "f") with 102. change (ch "A") with 65. change (ch "F") with 70.
  repeat case_match; breflect; lia.
Qed.

Lemma to_hex_spec fuel : forall v, 0 <= v < 16 ^ Z.of_nat fuel ->
  Forall (fun d => is_hex d = true) (to_hex fuel v) /\ hex_number 0 (to_hex fuel v) = v.
Proof.
  induction fuel as [|fuel IH]; intros v Hv.
  { split; [constructor|]. change (16 ^ Z.of_nat 0) with 1 in Hv. unfold hex_number. simpl. lia. }
  rewrite Nat2Z.inj_succ, Z.pow_succ_r in Hv by lia. cbn [to_hex].
  pose proof (Z.mod_pos_bound v 16 ltac:(lia)) as Hm. pose proof (Z.div_mod v 16 ltac:(lia)) as Hd.
  assert (Hlast : is_hex (hex_digit (v mod 16)) = true)
    by (unfold is_hex; rewrite hex_digit_value by lia; apply Z.leb_le; lia).
  assert (Hrest : Forall (fun d => is_hex d = true) (if v <? 16 then [] else to_hex fuel (v / 16)) /\
    hex_number 0 (if v <? 16 then [] else to_hex fuel (v / 16)) = v / 16).
  { destruct (Z.ltb_spec v 16); [split; [constructor|symmetry; apply Z.div_small; lia]|].
    apply IH. split; [apply Z.div_pos; lia|apply Z.div_lt_upper_bound; lia]. }
  destruct Hrest as [Hf Hn]. split; [apply Forall_app; by repeat constructor|].
  unfold hex_number in *. rewrite fold_left_app, Hn. simpl. rewrite hex_digit_value by lia. lia.
Qed.

Lemma hex_number_zeros k ds : hex_number 0 (replicate k (ch "0") ++ ds) = hex_number 0 ds.
Proof. induction k as [|k IH]; [done|]. unfold hex_number in *. simpl. exact IH. Qed.

Lemma print_hex_spec v : 0 <= v <= UINTPTR_MAX ->
  Forall (fun d => is_hex d = true) (print_hex v) /\ print_hex v <> [] /\ hex_number 0 (print_hex v) = v.
Proof.
  intros Hv. assert (Hr : 0 <= v < 16 ^ Z.of_nat 16) by (unfold UINTPTR_MAX, UINT64_MAX in Hv; simpl; lia).
  destruct (to_hex_spec 16 v Hr) as [Hf Hn]. unfold print_hex. split_and!.
  - apply Forall_app. split; [by apply Forall_replicate|done].
  - intros Hnil. apply app_eq_nil in Hnil as [_ Hnil]. simpl in Hnil. by apply app_eq_nil in Hnil as [_ ?].
  - by rewrite hex_number_zeros.
Qed.

(** ** Mappings *)

(** Start, end, readability; then the rest of the line: other permissions,
    offset, device, inode and path. *)
Definition mapping : Type := Z * Z * bool.
Definition mapping_ok (m : mapping) : Prop := let '(s, e, _) := m in 0 <= s < e /\ e <= UINTPTR_MAX.

Definition maps_line (m : mapping) (rest : cstring) : cstring :=
  let '(s, e, r) := m in
  print_hex s ++ ch "-" :: print_hex e ++ ch " " :: (if r then ch "r" else ch "-") :: rest.

Lemma parse_maps_line_spec m rest : mapping_ok m -> peak_exec_parse_maps_line (maps_line m rest) = Some m.
Proof.
  destruct m as [[s e] r]. intros [Hs He]. unfold peak_exec_parse_maps_line, maps_line.
  destruct (print_hex_spec s ltac:(lia)) as (H1 & H2 & H3).
  destruct (print_hex_spec e ltac:(lia)) as (H4 & H5 & H6).
  rewrite parse_maps_hex_spec; [|done|done|done|lia]. rewrite H3. cbn [negb Z.eqb].
  change (ch "-" =? ch "-") with true. cbn [negb].
  rewrite parse_maps_hex_spec; [|done|done|done|lia]. rewrite H6. change (ch " " =? ch " ") with true. cbn [negb].
  destruct (Z.leb_spec e s); [lia|]. by destruct r.
Qed.

(** The answer computed from the mappings instead of the text. *)
Fixpoint walk (stop c : Z) (ms : list mapping) : PeakExecPreflightResult :=
  match ms with
  | [] => PEAK_EXEC_PREFLIGHT_INVALID
  | (s, e, r) :: ms =>
      if c <? e then
        if (c <? s) || negb r then PEAK_EXEC_PREFLIGHT_INVALID
        else if stop <=? e then PEAK_EXEC_PREFLIGHT_VALID else walk stop e ms
      else walk stop c ms
  end.

Lemma scan_buffer_app stop b1 : forall b2 s,
  scan_buffer stop (b1 ++ b2) s =
    match scan_buffer stop b1 s with inl s => scan_buffer stop b2 s | inr r => inr r end.
Proof.
  induction b1 as [|c b1 IH]; intros b2 s; [done|]. cbn [app scan_buffer].
  destruct (scan_char stop s c); [apply IH|done].
Qed.

(** A short line is collected whole. *)
Lemma scan_short_line stop line : forall c acc,
  Forall (fun x => x <> newline) line -> (length acc + length line < LINE_SIZE)%nat ->
  scan_buffer stop (line ++ [newline]) (mkScan c acc false) = scan_line stop (mkScan c (acc ++ line) false).
Proof.
  induction line as [|x line IH]; intros c acc Hnl Hlen; cbn [app scan_buffer].
  - unfold scan_char. cbn [skipping_long_line scanned_line]. change (newline =? newline) with true. cbn [negb andb].
    rewrite app_nil_r. by destruct (scan_line stop (mkScan c acc false)).
  - apply Forall_cons in Hnl as [Hx Hnl]. simpl in Hlen. unfold scan_char. cbn [skipping_long_line scanned_line covered].
    apply Z.eqb_neq in Hx. rewrite Hx. cbn [negb andb].
    destruct (Nat.ltb_spec (length acc + 1) LINE_SIZE); [|lia].
    rewrite IH; [|done|rewrite length_app; simpl; lia]. by rewrite <- app_assoc.
Qed.

(** A long line is skipped. *)
Lemma skip_long_line stop line : forall c,
  Forall (fun x => x <> newline) line ->
  scan_buffer stop (line ++ [newline]) (mkScan c [] true) = inl (mkScan c [] false).
Proof.
  induction line as [|x line IH]; intros c Hnl; [done|]. apply Forall_cons in Hnl as [Hx Hnl].
  cbn [app scan_buffer]. unfold scan_char. cbn [skipping_long_line covered].
  apply Z.eqb_neq in Hx. rewrite Hx. by apply IH.
Qed.

Lemma scan_long_line stop line : forall c acc,
  Forall (fun x => x <> newline) line -> (length acc < LINE_SIZE <= length acc + length line)%nat ->
  scan_buffer stop (line ++ [newline]) (mkScan c acc false) = inl (mkScan c [] false).
Proof.
  induction line as [|x line IH]; intros c acc Hnl Hlen; simpl in Hlen; [lia|].
  apply Forall_cons in Hnl as [Hx Hnl]. cbn [app scan_buffer]. unfold scan_char.
  cbn [skipping_long_line scanned_line covered]. apply Z.eqb_neq in Hx. rewrite Hx. cbn [negb andb].
  destruct (Nat.ltb_spec (length acc + 1) LINE_SIZE).
  - apply IH; [done|rewrite length_app; simpl; lia].
  - by apply skip_long_line.
Qed.

(** A line of the file, and the file. *)
Definition line_shows (m : mapping) (line : cstring) : Prop :=
  exists rest, line = maps_line m rest /\ Forall (fun x => x <> newline) line.

Definition file_text (lines : list cstring) : list Z := concat (map (fun l => l ++ [newline]) lines).

(** The mappings whose line fits the buffer. *)
Fixpoint seen (ms : list mapping) (lines : list cstring) : list mapping :=
  match ms, lines with
  | m :: ms, line :: lines => if (length line <? LINE_SIZE)%nat then m :: seen ms lines else seen ms lines
  | _, _ => []
  end.

Lemma seen_sublist ms : forall lines, seen ms lines `sublist_of` ms.
Proof.
  induction ms as [|m ms IH]; intros [|line lines]; simpl; [constructor..|apply sublist_nil_l|].
  destruct (_ <? _)%nat; constructor; apply IH.
Qed.

Lemma seen_all ms lines : length ms = length lines -> Forall (fun l => (length l < LINE_SIZE)%nat) lines -> seen ms lines = ms.
Proof.
  revert lines. induction ms as [|m ms IH]; intros [|line lines] Hl Hs; simplify_eq/=; [done|].
  apply Forall_cons in Hs as [Hs Hss]. apply Nat.ltb_lt in Hs. rewrite Hs. f_equal. by apply IH.
Qed.

Lemma scan_text stop ms : forall lines c,
  Forall mapping_ok ms -> Forall2 line_shows ms lines -> c < stop ->
  match scan_buffer stop (file_text lines) (mkScan c [] false) with
  | inr r => r | inl _ => PEAK_EXEC_PREFLIGHT_INVALID end = walk stop c (seen ms lines).
Proof.
  induction ms as [|[[s e] r] ms IH]; intros lines c Hok Hf Hc; [by apply Forall2_nil_inv_l in Hf as ->|].
  apply Forall_cons in Hok as [Hm Hok].
  apply Forall2_cons_inv_l in Hf as (line & lines' & (rest & El & Hnl) & Hf & ->).
  unfold file_text in *. cbn [map concat seen]. rewrite scan_buffer_app. destruct (Nat.ltb_spec (length line) LINE_SIZE) as [Hlen|Hlen].
  2: { rewrite scan_long_line; [by apply IH|done|]. simpl. unfold LINE_SIZE in *. lia. }
  rewrite scan_short_line by (done || simpl; lia).
  cbn [app]. unfold scan_line. cbn [scanned_line covered]. rewrite El, parse_maps_line_spec by done. cbn [walk].
  destruct (Z.ltb_spec c e); [|by apply IH]. destruct (_ || _); [done|].
  destruct (Z.ltb_spec e stop).
  - destruct (Z.leb_spec stop e); [lia|]. by apply IH.
  - destruct (Z.leb_spec stop stop); [|lia]. by destruct (Z.leb_spec stop e); [|lia].
Qed.

(** The reads of a file: pieces of its text in order, with interruptions; a
    read may fail. *)
Inductive reads_of : list Z -> list (Z + list Z) -> Prop :=
  | ReadsEnd : reads_of [] []
  | ReadsInterrupted text reads : reads_of text reads -> reads_of text (inl EINTR :: reads)
  | ReadsFailed text e reads : e <> EINTR -> reads_of text (inl e :: reads)
  | ReadsPiece piece text reads : piece <> [] -> reads_of text reads -> reads_of (piece ++ text) (inr piece :: reads).

(** No read fails, and what is read has no line of [LINE_SIZE] bytes or more. *)
Definition read_error (r : Z + list Z) : bool := match r with inl e => negb (e =? EINTR) | inr _ => false end.
Definition text_read (reads : list (Z + list Z)) : list Z := concat (map (fun r => match r with inl _ => [] | inr b => b end) reads).
Fixpoint short_lines (n : nat) (text : list Z) : bool :=
  match text with
  | [] => true
  | c :: text => if c =? newline then short_lines 0 text else (S n <? LINE_SIZE)%nat && short_lines (S n) text
  end.
Definition legible_reads (reads : list (Z + list Z)) : bool := negb (existsb read_error reads) && short_lines 0 (text_read reads).

Lemma short_line_length line rest : forall n, (n < LINE_SIZE)%nat -> Forall (fun x => x <> newline) line ->
  short_lines n (line ++ newline :: rest) = true -> (n + length line < LINE_SIZE)%nat /\ short_lines 0 rest = true.
Proof.
  induction line as [|x line IH]; intros n Hn Hnl H; cbn [app short_lines] in H.
  - change (newline =? newline) with true in H. simpl. split; [lia|done].
  - apply Forall_cons in Hnl as [Hx Hnl]. apply Z.eqb_neq in Hx. rewrite Hx in H. apply andb_prop in H as [H1%Nat.ltb_lt H2].
    destruct (IH (S n) H1 Hnl H2). simpl. split; [lia|done].
Qed.

Lemma short_lines_all lines : Forall (fun l => Forall (fun x => x <> newline) l) lines ->
  short_lines 0 (file_text lines) = true -> Forall (fun l => (length l < LINE_SIZE)%nat) lines.
Proof.
  induction 1 as [|line lines Hnl _ IH]; [constructor|]. unfold file_text in *. cbn [map concat]. rewrite <- app_assoc. intros H.
  destruct (short_line_length line _ 0 ltac:(unfold LINE_SIZE; lia) Hnl H) as [Hl Hs]. constructor; [done|by apply IH].
Qed.

(** The scan of the text, when it ends with a piece of it and when it does not. *)
Lemma scan_reads_text stop text reads : reads_of text reads -> forall s,
  (scan_reads stop reads s = PEAK_EXEC_PREFLIGHT_VALID -> scan_buffer stop text s = inr PEAK_EXEC_PREFLIGHT_VALID) /\
  (existsb read_error reads = false -> text = text_read reads /\
     scan_reads stop reads s = match scan_buffer stop text s with inr r => r | inl _ => PEAK_EXEC_PREFLIGHT_INVALID end).
Proof.
  induction 1 as [|text reads _ IH|text e reads He|piece text reads Hne _ IH]; intros s; [done|apply IH| |].
  - cbn [scan_reads existsb read_error]. apply Z.eqb_neq in He. rewrite He. done.
  - cbn [scan_reads existsb read_error orb]. unfold text_read in *. cbn [map concat]. rewrite scan_buffer_app. destruct piece as [|x piece]; [done|].
    destruct (scan_buffer stop (x :: piece) s) as [s'|res]; [destruct (IH s') as [IH1 IH2]|destruct (IH s) as [_ IH2]]; split.
    + exact IH1.
    + intros E. destruct (IH2 E) as [-> ->]. done.
    + by intros ->.
    + intros E. destruct (IH2 E) as [-> _]. done.
Qed.

Lemma scan_buffer_known stop b : forall s, scan_buffer stop b s <> inr PEAK_EXEC_PREFLIGHT_UNKNOWN.
Proof.
  induction b as [|c b IH]; intros s; [done|]. cbn [scan_buffer].
  assert (H : scan_char stop s c <> inr PEAK_EXEC_PREFLIGHT_UNKNOWN) by (unfold scan_char, scan_line; repeat case_match; congruence).
  destruct (scan_char stop s c); [apply IH|congruence].
Qed.

Lemma scan_reads_known stop reads : forall s, scan_reads stop reads s <> PEAK_EXEC_PREFLIGHT_UNKNOWN.
Proof.
  induction reads as [|[e|[|x b]] reads IH]; intros s; cbn [scan_reads]; [done|destruct (e =? EINTR); [apply IH|done]|done|].
  pose proof (scan_buffer_known stop (x :: b) s). destruct (scan_buffer stop (x :: b) s); [apply IH|congruence].
Qed.

(** The mappings are listed in increasing order and do not overlap. *)
Definition before (m m' : mapping) : Prop := m.1.2 <= m'.1.1.
Definition in_mapping (a : Z) (m : mapping) : Prop := m.1.1 <= a < m.1.2.
Definition readable_at (ms : list mapping) (a : Z) : Prop := exists m, m ∈ ms /\ in_mapping a m /\ m.2 = true.

Lemma walk_exact stop ms : forall c,
  StronglySorted before ms -> Forall mapping_ok ms -> c < stop ->
  (walk stop c ms = PEAK_EXEC_PREFLIGHT_VALID <-> forall a, c <= a < stop -> readable_at ms a) /\
  walk stop c ms <> PEAK_EXEC_PREFLIGHT_UNKNOWN.
Proof.
  induction ms as [|[[s e] r] ms IH]; intros c Hsort Hok Hc.
  { split; [|done]. split; [done|]. intros Ha. destruct (Ha c ltac:(lia)) as (m & Hm & _). by apply elem_of_nil in Hm. }
  apply StronglySorted_inv in Hsort as [Hsort Hbef]. apply Forall_cons in Hok as [[Hs He] Hok].
  assert (Hlater : forall a, a < e -> readable_at ((s, e, r) :: ms) a -> s <= a /\ r = true).
  { intros a Ha (m & Hm & Hin & Hr). apply elem_of_cons in Hm as [->|Hm]; [by destruct Hin|].
    rewrite Forall_forall in Hbef. specialize (Hbef m Hm). unfold before, in_mapping in *. simpl in *. lia. }
  assert (Htail : forall a, e <= a -> (readable_at ((s, e, r) :: ms) a <-> readable_at ms a)).
  { intros a Ha. split; intros (m & Hm & Hin & Hr).
    - apply elem_of_cons in Hm as [->|Hm]; [unfold in_mapping in Hin; simpl in Hin; lia|by exists m].
    - exists m. split_and!; [by right|done|done]. }
  cbn [walk]. destruct (Z.ltb_spec c e) as [Hce|Hce].
  2: { destruct (IH c Hsort Hok Hc) as [Hi Hu]. split; [|done]. rewrite Hi.
       split; intros H a Ha; apply Htail; auto with lia; lia. }
  destruct ((c <? s) || negb r) eqn:Hbad.
  { split; [|done]. split; [done|]. intros Ha. destruct (Hlater c Hce (Ha c ltac:(lia))) as [H1 ->].
    simpl in Hbad. rewrite orb_false_r in Hbad. breflect. lia. }
  apply orb_false_iff in Hbad as [H1%Z.ltb_ge H2%negb_false_iff]. subst r.
  assert (Hhere : forall a, c <= a < e -> readable_at ((s, e, true) :: ms) a).
  { intros a Ha. exists (s, e, true). split_and!; [left|unfold in_mapping; simpl; lia|done]. }
  destruct (Z.leb_spec stop e) as [Hse|Hse].
  { split; [|done]. split; [|done]. intros _ a Ha. apply Hhere. lia. }
  destruct (IH e Hsort Hok ltac:(lia)) as [Hi Hu]. split; [|done]. rewrite Hi. split; intros H a Ha.
  - destruct (Z.lt_ge_cases a e); [apply Hhere; lia|]. apply Htail; [done|]. apply H. lia.
  - apply Htail; [lia|]. apply H. lia.
Qed.

(** [/proc/self/maps] lists [ms], and is read as [reads]. *)
Definition file_shows (ms : list mapping) (reads : list (Z + list Z)) : Prop :=
  exists lines, Forall2 line_shows ms lines /\ reads_of (file_text lines) reads.

Lemma sublist_sorted (l k : list mapping) : l `sublist_of` k -> StronglySorted before k -> StronglySorted before l.
Proof.
  induction 1 as [|x l k Hs IH|x l k Hs IH]; intros Hk; [constructor|..]; apply StronglySorted_inv in Hk as [Hk Hx]; [|by apply IH].
  constructor; [by apply IH|]. rewrite Forall_forall in *. intros y Hy. apply Hx. by eapply elem_of_sublist.
Qed.

Lemma sublist_ok (l k : list mapping) : l `sublist_of` k -> Forall mapping_ok k -> Forall mapping_ok l.
Proof. intros Hs Hk. rewrite Forall_forall in *. intros m Hm. apply Hk. by eapply elem_of_sublist. Qed.

(** The answer [VALID] is right; [INVALID] is right when the file is legible. *)
Lemma maps_range_readable_spec ms reads remote length :
  StronglySorted before ms -> Forall mapping_ok ms ->
  file_shows ms reads -> remote <> 0 -> 0 < length -> remote + length <= UINTPTR_MAX ->
  let answer := peak_exec_maps_range_readable remote length (Some reads) in
  let mapped := forall a, remote <= a < remote + length -> readable_at ms a in
  (answer = PEAK_EXEC_PREFLIGHT_VALID -> mapped) /\ (legible_reads reads = true -> mapped -> answer = PEAK_EXEC_PREFLIGHT_VALID) /\
  answer <> PEAK_EXEC_PREFLIGHT_UNKNOWN.
Proof.
  intros Hsort Hok (lines & Hlines & Hreads) Hr Hl Hend answer mapped. unfold answer, peak_exec_maps_range_readable.
  destruct (Z.eqb_spec length 0); [lia|]. destruct (Z.eqb_spec remote 0); [done|].
  destruct (Z.ltb_spec (UINTPTR_MAX - length) remote); [lia|]. cbn [orb].
  destruct (scan_reads_text (remote + length) _ _ Hreads (mkScan remote [] false)) as [Hvalid Hwhole].
  pose proof (scan_text (remote + length) ms lines remote Hok Hlines ltac:(lia)) as Hscan.
  pose proof (seen_sublist ms lines) as Hsub.
  destruct (walk_exact (remote + length) (seen ms lines) remote) as [Hwalk _]; [by eapply sublist_sorted|by eapply sublist_ok|lia|].
  split_and!; [| |apply scan_reads_known].
  - intros E. rewrite (Hvalid E) in Hscan. intros a Ha. destruct (proj1 Hwalk (eq_sym Hscan) a Ha) as (m & Hm & Hin). exists m.
    split; [by eapply elem_of_sublist|done].
  - unfold legible_reads. intros [Hnone%negb_true_iff Hshort]%andb_prop Hmapped. destruct (Hwhole Hnone) as [Etext ->]. rewrite Hscan. apply Hwalk.
    rewrite seen_all; [done|by eapply Forall2_length|]. apply short_lines_all; [|by rewrite Etext].
    clear -Hlines. induction Hlines as [|m l ms ls (rest & _ & H) _ IH]; by constructor.
Qed.

(** ** Probes *)

Section Probes.
Context (env : exec_kernel).

Definition readable (a : Z) : Prop := is_Some (user_memory env a).
Definition all_readable (a n : Z) : Prop := forall i, 0 <= i < n -> readable (a + i).

(** What a read says about its range, by the number of bytes transferred. *)
Definition transfer_tells (a : Z) (n k : nat) : Prop :=
  if (k =? n)%nat then all_readable a (Z.of_nat n) else ~ all_readable a (Z.of_nat n).

(** The kernel as documented, for a process with the mappings [ms].  Bytes can be
    read by pages, never at NULL or at the top of the address space, and only in
    mappings with the read permission.  [process_vm_readv] transfers everything
    exactly when it can, and so does a read of [/proc/self/mem] in mappings with
    that permission, where [EIO] is the other answer about the range.
    [/proc/self/maps] lists the mappings in order, one line each. *)
Record honest (ms : list mapping) : Prop := {
  h_byte a b : user_memory env a = Some b -> 0 <= b < 256;
  h_null : user_memory env 0 = None;
  h_space a : UINTPTR_MAX <= a -> user_memory env a = None;
  h_paged a b : a / PAGE_SIZE = b / PAGE_SIZE -> readable a -> readable b;
  h_permission a : readable a -> readable_at ms a;
  h_vm n a len k : (0 < len)%nat -> k_process_vm_readv env n a len = inr k -> transfer_tells a len k;
  h_mem n a len r : (0 < len)%nat -> (forall i, 0 <= i < Z.of_nat len -> readable_at ms (a + i)) -> k_mem_read env n a len = Some r ->
    match r with inr k => transfer_tells a len k | inl e => e = EIO -> ~ all_readable a (Z.of_nat len) end;
  h_sorted : StronglySorted before ms;
  h_mappings : Forall mapping_ok ms;
  h_maps n reads : k_maps env n = Some reads -> file_shows ms reads
}.

(** Every reading of the file is whole and has no long line. *)
Definition legible : Prop := forall n reads, k_maps env n = Some reads -> legible_reads reads = true.

(** The kernel refused the ways to look at some range. *)
Definition refused : Prop := exists n a len e, k_process_vm_readv env n a len = inl e /\
  (k_maps env (S n) = None \/ k_mem_read env (S (S n)) a len = None \/
   exists e', e' <> EIO /\ k_mem_read env (S (S n)) a len = Some (inl e')).

Context (ms : list mapping) (Hk : honest ms).

(** An answer that is right about [P]; a refusal when the file is legible; no
    answer when the kernel gives none. *)
Definition answers_for (P : Prop) (r : preflight) : Prop :=
  match r with Valid => P | Invalid _ => legible -> ~ P | Unknown => refused end.

Lemma read_bytes_exact address len n :
  0 <= address -> (0 < len)%nat ->
  let r := (peak_exec_user_read_bytes env address len n).1 in
  answers_for (all_readable address (Z.of_nat len)) r.1 /\ (r.1 = Valid -> r.2 = user_bytes env address len).
Proof.
  intros Ha Hl. unfold peak_exec_user_read_bytes. destruct (Nat.eqb_spec len 0); [lia|].
  destruct (Z.eqb_spec address 0) as [->|Hne].
  { simpl. split; [|done]. intros _ H. destruct (H 0 ltac:(lia)) as [b Hb].
    change (0 + 0) with 0 in Hb. by rewrite (h_null _ Hk) in Hb. }
  unfold ebind, call. destruct (k_process_vm_readv env n address len) as [e|k] eqn:Hvm.
  2: { apply (h_vm _ Hk _ _ _ _ Hl) in Hvm. unfold transfer_tells in Hvm. destruct (k =? len)%nat; simpl; [done|]. split; [intros _; exact Hvm|done]. }
  assert (Htop : UINTPTR_MAX - Z.of_nat len < address -> ~ all_readable address (Z.of_nat len)).
  { intros Hov Hno. destruct (Hno (Z.of_nat len - 1) ltac:(lia)) as [b Hb]. by rewrite (h_space _ Hk) in Hb by lia. }
  destruct (Z.lt_ge_cases (UINTPTR_MAX - Z.of_nat len) address) as [Hov|Hin].
  { unfold peak_exec_maps_range_readable. destruct (Z.eqb_spec (Z.of_nat len) 0); [lia|].
    destruct (Z.eqb_spec address 0); [done|]. destruct (Z.ltb_spec (UINTPTR_MAX - Z.of_nat len) address); [|lia].
    simpl. split; [|done]. intros _. by apply Htop. }
  destruct (k_maps env (S n)) as [reads|] eqn:Hm.
  2: { unfold peak_exec_maps_range_readable. destruct (Z.eqb_spec (Z.of_nat len) 0); [lia|].
       destruct (Z.eqb_spec address 0); [done|]. destruct (Z.ltb_spec (UINTPTR_MAX - Z.of_nat len) address); [lia|].
       simpl. split; [|done]. exists n, address, len, e. auto. }
  destruct (maps_range_readable_spec ms reads address (Z.of_nat len) (h_sorted _ Hk) (h_mappings _ Hk) (h_maps _ Hk _ _ Hm) Hne ltac:(lia) ltac:(lia)) as (Hv & Hi & Hu).
  destruct (peak_exec_maps_range_readable address (Z.of_nat len) (Some reads)) eqn:Hr; [|simpl|done].
  - assert (Hmapped : forall i, 0 <= i < Z.of_nat len -> readable_at ms (address + i)) by (intros i Hir; apply Hv; [done|lia]).
    destruct (k_mem_read env (S (S n)) address len) as [r|] eqn:Hmem.
    2: { simpl. split; [|done]. exists n, address, len, e. auto. }
    pose proof (h_mem _ Hk _ _ _ _ Hl Hmapped Hmem) as Ht. destruct r as [e'|k]; simpl.
    + destruct (Z.eqb_spec e' EIO); simpl; [split; [intros _; by apply Ht|done]|]. split; [|done].
      exists n, address, len, e. split; [done|]. right. right. by exists e'.
    + unfold transfer_tells in Ht. destruct (k =? len)%nat; simpl; [done|]. split; [intros _; exact Ht|done].
  - split; [|done]. intros Hleg Hall. discriminate (Hi (Hleg _ _ Hm) (fun a Haa => h_permission _ Hk a ltac:(replace a with (address + (a - address)) by lia; apply Hall; lia))).
Qed.

(** ** Strings *)

(** A string at [value] with its terminator within [max] bytes. *)
Definition nonzero_at (a : Z) : Prop := exists b, user_memory env a = Some b /\ b <> 0.
Definition string_at (value max : Z) : Prop :=
  exists k, 0 <= k < max /\ user_memory env (value + k) = Some 0 /\ forall j, 0 <= j < k -> nonzero_at (value + j).

Lemma user_bytes_lookup a n i b :
  user_bytes env a n !! i = Some b -> (i < n)%nat /\ b = default 0 (user_memory env (a + Z.of_nat i)).
Proof.
  revert a i. induction n as [|n IH]; intros a [|i] H; simplify_eq/=.
  - split; [lia|]. by rewrite Z.add_0_r.
  - apply IH in H as [Hi ->]. split; [lia|]. do 2 f_equal. lia.
Qed.

Lemma user_bytes_lookup_lt a n i :
  (i < n)%nat -> user_bytes env a n !! i = Some (default 0 (user_memory env (a + Z.of_nat i))).
Proof.
  revert a i. induction n as [|n IH]; intros a [|i] H; simpl; [lia|lia|by rewrite Z.add_0_r|].
  rewrite IH by lia. do 3 f_equal. lia.
Qed.

(** The first zero byte of a readable range. *)
Lemma first_zero a n :
  all_readable a (Z.of_nat n) -> existsb (fun c => c =? 0) (user_bytes env a n) = true ->
  exists k, 0 <= k < Z.of_nat n /\ user_memory env (a + k) = Some 0 /\ forall j, 0 <= j < k -> nonzero_at (a + j).
Proof.
  revert a. induction n as [|n IH]; intros a Hall Hz; [done|]. cbn [user_bytes existsb] in Hz.
  destruct (Hall 0 ltac:(lia)) as [b Hb]. rewrite Z.add_0_r in Hb. rewrite Hb in Hz. unfold default, Datatypes.id in Hz.
  destruct (Z.eqb_spec b 0) as [Hb0|Hne].
  { exists 0. rewrite Z.add_0_r, Hb, Hb0. split_and!; [lia|lia|done|]. intros j Hj. lia. }
  simpl in Hz. destruct (IH (a + 1)) as (k & Hkr & Hzero & Hbefore); [|done|].
  { intros i Hi. replace (a + 1 + i) with (a + (i + 1)) by lia. apply Hall. lia. }
  exists (k + 1). split_and!; [lia|lia|by replace (a + (k + 1)) with (a + 1 + k) by lia|].
  intros j Hj. destruct (Z.eq_dec j 0) as [->|Hj0]; [exists b; by rewrite Z.add_0_r|].
  replace (a + j) with (a + 1 + (j - 1)) by lia. apply Hbefore. lia.
Qed.

Lemma no_zero a n :
  all_readable a (Z.of_nat n) -> existsb (fun c => c =? 0) (user_bytes env a n) = false ->
  forall j, 0 <= j < Z.of_nat n -> nonzero_at (a + j).
Proof.
  intros Hall Hz j Hj. destruct (Hall j Hj) as [b Hb]. exists b. split; [done|]. intros ->.
  assert (Hlk : user_bytes env a n !! Z.to_nat j = Some 0)
    by (rewrite user_bytes_lookup_lt, Z2Nat.id, Hb by lia; done).
  apply list_elem_of_lookup_2 in Hlk. apply list_elem_of_In in Hlk.
  assert (existsb (fun c => c =? 0) (user_bytes env a n) = true); [|congruence].
  apply existsb_exists. by exists 0.
Qed.

(** A chunk stays in one page, so that its first byte tells for all. *)
Lemma chunk_unreadable a n :
  0 < n -> n <= PAGE_SIZE - a mod PAGE_SIZE -> ~ all_readable a n -> ~ readable a.
Proof.
  intros Hn Hpage Hnot Ha. apply Hnot. intros i Hi. apply (h_paged _ Hk a); [|done]. unfold PAGE_SIZE in *.
  pose proof (Z.div_mod a 4096 ltac:(lia)). pose proof (Z.mod_pos_bound a 4096 ltac:(lia)).
  apply (Z.div_unique (a + i) 4096 (a / 4096) (a mod 4096 + i)); lia.
Qed.

(** After nonzero bytes the string can only go on. *)
Lemma string_needs value max offset :
  0 <= offset -> (forall j, 0 <= j < offset -> nonzero_at (value + j)) -> string_at value max ->
  offset < max /\ readable (value + offset).
Proof.
  intros Ho Hpre (k & Hkr & Hz & Hb). assert (Hge : offset <= k).
  { destruct (Z.lt_ge_cases k offset); [|done]. destruct (Hpre k ltac:(lia)) as (b & Hbk & Hne). congruence. }
  split; [lia|]. destruct (Z.eq_dec k offset) as [->|Hne]; [by eexists|].
  destruct (Hb offset ltac:(lia)) as (b & Hbb & _). by exists b.
Qed.

Lemma cstr_loop_exact fuel : forall value max offset n,
  0 <= value -> 0 <= offset -> max - offset <= Z.of_nat fuel ->
  (forall j, 0 <= j < offset -> nonzero_at (value + j)) ->
  answers_for (string_at value max) (cstr_loop env fuel value max offset n).1.
Proof.
  induction fuel as [|fuel IH]; intros value max offset n Hv Ho Hfuel Hpre; cbn [cstr_loop].
  { intros _ Hs. apply (string_needs _ _ offset) in Hs as [? _]; [lia|done|done]. }
  destruct (Z.leb_spec max offset) as [Hmax|Hmax].
  { intros _ Hs. apply (string_needs _ _ offset) in Hs as [? _]; [lia|done|done]. }
  destruct (Z.ltb_spec (UINTPTR_MAX - offset) value) as [Hov|Hov].
  { intros _ Hs. apply (string_needs _ _ offset) in Hs as [_ [b Hb]]; [|done|done].
    by rewrite (h_space _ Hk) in Hb by lia. }
  set (chunk := if PAGE_SIZE - (value + offset) mod PAGE_SIZE <? _ then _ else _).
  assert (Hchunk : 0 < chunk /\ chunk <= max - offset /\ chunk <= PAGE_SIZE - (value + offset) mod PAGE_SIZE).
  { unfold chunk, BUFFER_SIZE, PAGE_SIZE. pose proof (Z.mod_pos_bound (value + offset) 4096 ltac:(lia)).
    destruct (Z.ltb_spec (max - offset) 256);
      match goal with |- context [?x <? ?y] => destruct (Z.ltb_spec x y) end; lia. }
  destruct Hchunk as (Hc1 & Hc2 & Hc3). clearbody chunk. unfold ebind.
  pose proof (read_bytes_exact (value + offset) (Z.to_nat chunk) n ltac:(lia) ltac:(lia)) as Hr.
  cbv zeta in Hr. rewrite Z2Nat.id in Hr by lia.
  destruct (peak_exec_user_read_bytes env (value + offset) (Z.to_nat chunk) n) as [[[|e|] buffer] n1];
    cbn [fst snd answers_for] in Hr; [|simpl|exact (proj1 Hr)].
  2: { intros Hleg Hs. apply (string_needs _ _ offset) in Hs as [_ Hrd]; [|done|done].
       by apply (chunk_unreadable _ _ Hc1 Hc3 (proj1 Hr Hleg)). }
  destruct Hr as [Hall Hbuf]. rewrite (Hbuf eq_refl). clear Hbuf. destruct (existsb _ _) eqn:Hz.
  - rewrite <- (Z2Nat.id chunk) in Hall by lia. destruct (first_zero _ _ Hall Hz) as (k & Hkr & Hzero & Hb).
    exists (offset + k). rewrite Z.add_assoc. split_and!; [lia|lia|done|]. intros j Hj.
    destruct (Z.lt_ge_cases j offset); [apply Hpre; lia|].
    replace (value + j) with (value + offset + (j - offset)) by lia. apply Hb. lia.
  - apply IH; [done|lia|lia|]. intros j Hj. destruct (Z.lt_ge_cases j offset); [apply Hpre; lia|].
    replace (value + j) with (value + offset + (j - offset)) by lia.
    rewrite <- (Z2Nat.id chunk) in Hall by lia. apply (no_zero _ _ Hall Hz). lia.
Qed.

Lemma cstr_exact value max n :
  0 <= value -> 0 <= max ->
  answers_for (string_at value max) (peak_exec_user_cstr_readable env value max n).1.
Proof.
  intros Hv Hm. unfold peak_exec_user_cstr_readable. destruct (Z.eqb_spec value 0) as [->|Hne].
  - intros _ Hs. apply (string_needs _ _ 0) in Hs as [_ [b Hb]]; [|lia|intros; lia].
    change (0 + 0) with 0 in Hb. by rewrite (h_null _ Hk) in Hb.
  - apply cstr_loop_exact; [done|lia|rewrite Z2Nat.id; lia|intros; lia].
Qed.

(** ** Arrays of strings *)

Definition entry_at (base i : Z) : Z := little_endian (user_bytes env (base + i * 8) 8).
Definition slot_readable (base i : Z) : Prop := all_readable (base + i * 8) 8.

(** The entries before [i] are strings. *)
Definition strings_before (base i max_string : Z) : Prop :=
  forall j, 0 <= j < i -> slot_readable base j /\ entry_at base j <> 0 /\ string_at (entry_at base j) max_string.

(** A null pointer, or strings up to a null entry within [max]. *)
Definition string_array_at (base max max_string : Z) : Prop :=
  base = 0 \/ exists k, 0 <= k < max /\ strings_before base k max_string /\
    slot_readable base k /\ entry_at base k = 0.

Lemma user_bytes_range a n : Forall (fun b => 0 <= b < 256) (user_bytes env a n).
Proof.
  revert a. induction n as [|n IH]; intros a; simpl; constructor; [|apply IH].
  destruct (user_memory env a) as [b|] eqn:Hb; simpl; [by apply (h_byte _ Hk a)|lia].
Qed.

Lemma little_endian_nonneg bs : Forall (fun b => 0 <= b < 256) bs -> 0 <= little_endian bs.
Proof. induction 1; simpl; lia. Qed.

(** After strings the array can only go on. *)
Lemma array_needs base max max_string i :
  base <> 0 -> 0 <= i -> strings_before base i max_string -> string_array_at base max max_string ->
  i < max /\ slot_readable base i /\ (entry_at base i <> 0 -> string_at (entry_at base i) max_string).
Proof.
  intros Hb Hi Hpre [?|(k & Hkr & Hbefore & Hslot & Hz)]; [done|].
  assert (Hge : i <= k).
  { destruct (Z.lt_ge_cases k i); [|done]. by destruct (Hpre k ltac:(lia)) as (_ & ? & _). }
  split; [lia|]. destruct (Z.eq_dec k i) as [->|Hne]; [by split|].
  destruct (Hbefore i ltac:(lia)) as (? & ? & ?). by split.
Qed.

Lemma array_loop_exact fuel : forall base i max max_string n,
  base <> 0 -> 0 <= base -> 0 <= i -> max - i = Z.of_nat fuel -> 0 <= max_string ->
  strings_before base i max_string ->
  answers_for (string_array_at base max max_string) (array_loop env fuel base i max_string n).1.
Proof.
  induction fuel as [|fuel IH]; intros base i max max_string n Hb Hb0 Hi Hfuel Hms Hpre; cbn [array_loop].
  { intros _ Hs. apply (array_needs _ _ _ i) in Hs as [? _]; [lia|done|done|done]. }
  destruct (Z.ltb_spec ((UINTPTR_MAX - base) / 8) i) as [Hov|Hov].
  { intros _ Hs. apply (array_needs _ _ _ i) in Hs as (_ & Hslot & _); [|done|done|done].
    destruct (Hslot 0 ltac:(lia)) as [b Hbb]. rewrite (h_space _ Hk) in Hbb; [done|].
    pose proof (Z.div_mod (UINTPTR_MAX - base) 8 ltac:(lia)).
    pose proof (Z.mod_pos_bound (UINTPTR_MAX - base) 8 ltac:(lia)). lia. }
  unfold ebind. pose proof (read_bytes_exact (base + i * 8) 8 n ltac:(lia) ltac:(lia)) as Hr.
  destruct (peak_exec_user_read_bytes env (base + i * 8) 8 n) as [[[|e|] buffer] n1]; cbv zeta in Hr; cbn [fst snd answers_for] in Hr; [|simpl|exact (proj1 Hr)].
  2: { intros Hleg Hs. apply (array_needs _ _ _ i) in Hs as (_ & Hslot & _); [|done|done|done]. by apply (proj1 Hr). }
  destruct Hr as [Hall Hbuf]. rewrite (Hbuf eq_refl). clear Hbuf. change (little_endian (user_bytes env (base + i * 8) 8)) with (entry_at base i).
  destruct (Z.eqb_spec (entry_at base i) 0) as [Hz|Hnz].
  { right. exists i. split_and!; [lia|lia|done|done|done]. }
  pose proof (cstr_exact (entry_at base i) max_string n1
    (little_endian_nonneg _ (user_bytes_range _ _)) Hms) as Hc.
  destruct (peak_exec_user_cstr_readable env (entry_at base i) max_string n1) as [[|e|] n2]; cbn [fst answers_for] in Hc; [|simpl|exact Hc].
  - apply IH; [done|done|lia|lia|done|]. intros j Hj. destruct (Z.eq_dec j i) as [->|Hne]; [done|].
    apply Hpre. lia.
  - intros Hleg Hs. apply (array_needs _ _ _ i) in Hs as (_ & _ & Hstr); [|done|done|done]. by apply (Hc Hleg), Hstr.
Qed.

Lemma array_exact base max max_string n :
  0 <= base -> 0 <= max -> 0 <= max_string ->
  answers_for (string_array_at base max max_string)
    (peak_exec_user_cstr_array_readable env base max max_string n).1.
Proof.
  intros Hb Hm Hms. unfold peak_exec_user_cstr_array_readable. destruct (Z.eqb_spec base 0) as [->|Hne].
  - by left.
  - apply array_loop_exact; [done|done|lia|rewrite Z2Nat.id; lia|done|intros j Hj; lia].
Qed.

Definition args_at (path argv envp : Z) : Prop :=
  string_at path PATH_MAX /\
  string_array_at argv PEAK_EXEC_MAX_ENV_ENTRIES PEAK_EXEC_USER_STRING_MAX /\
  string_array_at envp PEAK_EXEC_MAX_ENV_ENTRIES PEAK_EXEC_USER_STRING_MAX.

Lemma answers_both (P Q : Prop) (m : EM preflight) (f : EM preflight) n :
  answers_for P (m n).1 -> (forall n, answers_for Q (f n).1) ->
  answers_for (P /\ Q) (ebind m (fun r => match r with Valid => f | other => eret other end) n).1.
Proof.
  intros Hm Hf. unfold ebind. destruct (m n) as [[|e|] n1]; simpl in *; [|tauto|done].
  specialize (Hf n1). destruct (f n1) as [[|e|] n2]; simpl in *; tauto.
Qed.

(** C40: when the kernel behaves as documented ([honest]), [VALID] means that the
    path and every string of both arrays are readable and terminated within the
    limits, whatever the lines of [/proc/self/maps] and the reads of it are;
    [INVALID] means that they are not, when the readings of that file do not fail
    and have no line of 1024 bytes or more; and [UNKNOWN] is only answered when
    [process_vm_readv] failed and [/proc/self/maps] or [/proc/self/mem] could not
    be opened or the latter failed with an error other than [EIO]. *)
Theorem exec_args_answer_exact path argv envp n :
  0 <= path -> 0 <= argv -> 0 <= envp ->
  match (peak_exec_args_readable env path argv envp n).1 with
  | Valid => args_at path argv envp
  | Invalid _ => legible -> ~ args_at path argv envp
  | Unknown => refused
  end.
Proof.
  intros Hp Ha He. unfold peak_exec_args_readable, peak_exec_argv_envp_readable.
  apply (answers_both (string_at path PATH_MAX)); [by apply cstr_exact|]. intros n1.
  apply answers_both; [by apply array_exact|]. intros n2. by apply array_exact.
Qed.

End Probes.

(** ** Long lines *)

(** a mapping whose line has 1024 characters or more, such as one of a file
    with a long path, is not seen: the probe answers [INVALID] for a range that
    lies inside it and is readable. *)
Theorem long_line_not_seen m rest reads remote length :
  let line := maps_line m rest in
  mapping_ok m -> m.2 = true -> m.1.1 <= remote -> remote + length <= m.1.2 -> remote <> 0 -> 0 < length ->
  Forall (fun x => x <> newline) line -> (LINE_SIZE <= List.length line)%nat -> reads_of (file_text [line]) reads ->
  peak_exec_maps_range_readable remote length (Some reads) = PEAK_EXEC_PREFLIGHT_INVALID /\
  forall a, remote <= a < remote + length -> readable_at [m] a.
Proof.
  intros line Hok Hr Hs He Hne Hl Hnl Hlong Hreads. split.
  - destruct m as [[s e] r]. destruct Hok as [Hs' He']. simpl in Hs, He.
    unfold peak_exec_maps_range_readable. destruct (Z.eqb_spec length 0); [lia|].
    destruct (Z.eqb_spec remote 0); [done|]. destruct (Z.ltb_spec (UINTPTR_MAX - length) remote); [lia|]. cbn [orb].
    destruct (scan_reads_text (remote + length) _ _ Hreads (mkScan remote [] false)) as [Hv _].
    pose proof (scan_reads_known (remote + length) reads (mkScan remote [] false)) as Hu.
    destruct (scan_reads (remote + length) reads (mkScan remote [] false)); [|done|done]. specialize (Hv eq_refl). exfalso. revert Hv.
    unfold file_text. cbn [map concat]. rewrite app_nil_r.
    rewrite scan_long_line; [done|done|]. unfold LINE_SIZE in *. simpl. lia.
  - intros a Ha. exists m. split_and!; [left|unfold in_mapping; lia|done].
Qed.

(** ** A concrete process *)

(** One readable page with the string "ls" at its start and, behind it, an
    array with that string only; [process_vm_readv] is not permitted. *)
Definition demo_bytes : list Z :=
  bytes "ls" ++ replicate 14 0 ++ [0; 16; 0; 0; 0; 0; 0; 0] ++ replicate 8 0.

Definition demo_mapping : mapping := (4096, 8192, true).
Definition demo_line : cstring := maps_line demo_mapping (bytes "w-p 00000000 00:00 0").

Definition in_page (a : Z) (len : nat) : bool := (4096 <=? a) && (a + Z.of_nat len <=? 8192).

Definition demo_exec : exec_kernel := {|
  user_memory := fun a => if (4096 <=? a) && (a <? 8192)
                          then Some (default 0 (demo_bytes !! Z.to_nat (a - 4096))) else None;
  k_process_vm_readv := fun _ _ _ => inl 1;
  k_maps := fun _ => Some [inl EINTR; inr (take 7 (file_text [demo_line])); inr (drop 7 (file_text [demo_line]))];
  k_mem_read := fun _ a len => Some (if in_page a len then inr len else inl EIO)
|}.

Lemma demo_bytes_range i : 0 <= default 0 (demo_bytes !! i) < 256.
Proof.
  assert (H : Forall (fun b => 0 <= b < 256) demo_bytes) by (repeat constructor; vm_compute; discriminate || done).
  destruct (demo_bytes !! i) as [b|] eqn:Hb; simpl; [|lia]. rewrite Forall_lookup in H. by apply (H i).
Qed.

Lemma demo_readable a : readable demo_exec a <-> 4096 <= a < 8192.
Proof.
  unfold readable. cbn [user_memory demo_exec]. destruct (Z.leb_spec 4096 a), (Z.ltb_spec a 8192); simpl;
    split; intros H'; try lia; try (by destruct H'); by eexists.
Qed.

Lemma demo_file : file_shows [demo_mapping]
  [inl EINTR; inr (take 7 (file_text [demo_line])); inr (drop 7 (file_text [demo_line]))].
Proof.
  exists [demo_line]. split.
  - constructor; [|constructor]. exists (bytes "w-p 00000000 00:00 0"). split; [done|].
    repeat (constructor; [vm_compute; discriminate|]). constructor.
  - constructor. rewrite <- (take_drop 7 (file_text [demo_line])) at 1. constructor; [vm_compute; discriminate|].
    rewrite <- (app_nil_r (drop 7 _)) at 1. constructor; [vm_compute; discriminate|constructor].
Qed.

Lemma demo_honest : honest demo_exec [demo_mapping].
Proof.
  split.
  - intros a b. cbn [user_memory demo_exec]. destruct (_ && _); [|done]. intros [= <-]. apply demo_bytes_range.
  - reflexivity.
  - intros a Ha. cbn [user_memory demo_exec]. destruct (Z.ltb_spec a 8192); [|by rewrite andb_false_r].
    unfold UINTPTR_MAX, UINT64_MAX in Ha. lia.
  - intros a b Hab. rewrite !demo_readable. unfold PAGE_SIZE in Hab.
    pose proof (Z.div_mod a 4096 ltac:(lia)). pose proof (Z.div_mod b 4096 ltac:(lia)).
    pose proof (Z.mod_pos_bound a 4096 ltac:(lia)). pose proof (Z.mod_pos_bound b 4096 ltac:(lia)).
    rewrite Hab in *. intros Ha. assert (b / 4096 = 1) by nia. nia.
  - intros a Ha. apply demo_readable in Ha. exists demo_mapping. split_and!; [left|unfold in_mapping; simpl; lia|done].
  - done.
  - intros n a len r Hlen _ [= <-]. unfold in_page, transfer_tells.
    destruct (Z.leb_spec 4096 a), (Z.leb_spec (a + Z.of_nat len) 8192); simpl.
    1: rewrite Nat.eqb_refl; intros i Hi; apply demo_readable; lia.
    all: intros _ Hall.
    1: specialize (Hall (Z.of_nat len - 1) ltac:(lia)); apply demo_readable in Hall; lia.
    all: specialize (Hall 0 ltac:(lia)); apply demo_readable in Hall; lia.
  - repeat constructor.
  - repeat constructor; vm_compute; discriminate || done.
  - intros n reads [= <-]. apply demo_file.
Qed.

(** The arguments at the page are right; a path outside of it is not. *)
Lemma exec_args_answer_exact_witness :
  ((peak_exec_args_readable demo_exec 4096 4112 0 0%nat).1 = Valid /\ args_at demo_exec 4096 4112 0) /\
  ((peak_exec_args_readable demo_exec 8192 4112 0 0%nat).1 = Invalid EFAULT /\ ~ args_at demo_exec 8192 4112 0).
Proof.
  assert (H1 : (peak_exec_args_readable demo_exec 4096 4112 0 0%nat).1 = Valid) by (vm_compute; reflexivity).
  assert (H2 : (peak_exec_args_readable demo_exec 8192 4112 0 0%nat).1 = Invalid EFAULT) by (vm_compute; reflexivity).
  pose proof (exec_args_answer_exact demo_exec [demo_mapping] demo_honest 4096 4112 0 0%nat ltac:(lia) ltac:(lia) ltac:(lia)) as A1.
  pose proof (exec_args_answer_exact demo_exec [demo_mapping] demo_honest 8192 4112 0 0%nat ltac:(lia) ltac:(lia) ltac:(lia)) as A2.
  rewrite H1 in A1. rewrite H2 in A2. split; [split; [exact H1|exact A1]|split; [exact H2|apply A2]].
  intros n reads [= <-]. vm_compute. reflexivity.
Defined.

Lemma long_line_not_seen_witness :
  peak_exec_maps_range_readable 4096 16
    (Some [inr (file_text [maps_line demo_mapping (replicate 1100 (ch "x"))])]) = PEAK_EXEC_PREFLIGHT_INVALID.
Proof.
  assert (Hok : mapping_ok demo_mapping) by (repeat split; vm_compute; discriminate || reflexivity).
  assert (Hnl : Forall (fun x => x <> newline) (maps_line demo_mapping (replicate 1100 (ch "x")))).
  { unfold maps_line, demo_mapping. apply Forall_app.
    split; [repeat (constructor; [vm_compute; discriminate|]); constructor|].
    constructor; [vm_compute; discriminate|]. apply Forall_app.
    split; [repeat (constructor; [vm_compute; discriminate|]); constructor|].
    do 2 (constructor; [vm_compute; discriminate|]). apply Forall_replicate. vm_compute. discriminate. }
  assert (Hreads : reads_of (file_text [maps_line demo_mapping (replicate 1100 (ch "x"))])
    [inr (file_text [maps_line demo_mapping (replicate 1100 (ch "x"))])]).
  { rewrite <- (app_nil_r (file_text _)) at 1. constructor; [vm_compute; discriminate|constructor]. }
  exact (proj1 (long_line_not_seen demo_mapping (replicate 1100 (ch "x")) _ 4096 16 Hok eq_refl
    ltac:(vm_compute; discriminate) ltac:(vm_compute; discriminate) ltac:(discriminate) ltac:(reflexivity)
    Hnl ltac:(apply Nat.leb_le; vm_compute; reflexivity) Hreads)).
Defined.
