(* ===== verification/MpiTeardown.v ===== *)
(** * The MPI teardown guard

    Models [src/mpi_teardown_guard.c]: the collectives by which the ranks agree
    at the end of the program.  Every agreement is one nonblocking minimum over
    all ranks with a deadline; once one fails, no later one may touch MPI, and
    the buffers of a request MPI may still be working on stay allocated.  The
    state adds ghost fields to the code's: the allocated requests, those MPI
    works on, and the number of MPI calls.  MPI, [calloc] and the clock are
    oracles: the polls of one wait are a list, after which the deadline has
    passed.  Messages are left out. *)

From Stdlib Require Import String.
From S2P Require Import Prelude TargetSelector EnvParser.

Definition PEAK_MPI_TEARDOWN_MAX_VALUES : nat := 3.
Definition UINT_MAX : Z := UINT32_MAX.

Record PeakMpiTeardownRequest := mkTeardownRequest {
  request_id : nat;
  local_values : list Z
}.

Record teardown := mkTeardown {
  peak_mpi_teardown_failed_closed : bool;
  peak_mpi_teardown_quarantine : list PeakMpiTeardownRequest;
  peak_mpi_teardown_quarantine_count : nat;
  finalize_timeout_warning_emitted : bool;
  (** ghost: allocated requests, those MPI works on, the next name, MPI calls *)
  allocated : gset nat;
  in_flight : gset nat;
  next_id : nat;
  mpi_calls : nat
}.

(** One iteration of the wait: the result of [MPI_Test], its flag and the
    reduced values, and whether the deadline has passed then. *)
Record poll := mkPoll {
  test_ok : bool;
  done_flag : bool;
  reduced : list Z;
  expired : bool
}.

Record mpi_env := mkMpiEnv {
  e_calloc : nat -> bool;
  e_iallreduce : nat -> bool;
  (** the polls of a wait, for its timeout *)
  e_polls : nat -> Z -> list poll;
  e_getenv : string -> option cstring;
  (** [mpi_report_release_timeout_ms] of the report budget *)
  e_report_release_timeout_ms : Z
}.

Definition TM (A : Type) : Type := teardown -> A * teardown.
Definition tret {A} (a : A) : TM A := fun s => (a, s).
Definition tbind {A B} (m : TM A) (f : A -> TM B) : TM B := fun s => let '(a, s) := m s in f a s.
Notation "'mpi*' x := m 'in' k" := (tbind m (fun x => k))
  (at level 10, x pattern, m at level 100, k at level 200) : peak_scope.

Definition mark_failed_closed : TM unit := fun s =>
  (tt, mkTeardown true (peak_mpi_teardown_quarantine s) (peak_mpi_teardown_quarantine_count s)
         (finalize_timeout_warning_emitted s) (allocated s) (in_flight s) (next_id s) (mpi_calls s)).

Definition failed_closed : TM bool := fun s => (peak_mpi_teardown_failed_closed s, s).

(** [calloc] and [free] of a request. *)
Definition allocate (values : list Z) : TM PeakMpiTeardownRequest := fun s =>
  (mkTeardownRequest (next_id s) values,
   mkTeardown (peak_mpi_teardown_failed_closed s) (peak_mpi_teardown_quarantine s)
     (peak_mpi_teardown_quarantine_count s) (finalize_timeout_warning_emitted s)
     ({[next_id s]} ∪ allocated s) (in_flight s) (S (next_id s)) (mpi_calls s)).
Definition free_request (r : PeakMpiTeardownRequest) : TM unit := fun s =>
  (tt, mkTeardown (peak_mpi_teardown_failed_closed s) (peak_mpi_teardown_quarantine s)
         (peak_mpi_teardown_quarantine_count s) (finalize_timeout_warning_emitted s)
         (allocated s ∖ {[request_id r]}) (in_flight s) (next_id s) (mpi_calls s)).

(** A call of MPI: what it does to the set of requests in flight. *)
Definition mpi_call (f : gset nat -> gset nat) : TM unit := fun s =>
  (tt, mkTeardown (peak_mpi_teardown_failed_closed s) (peak_mpi_teardown_quarantine s)
         (peak_mpi_teardown_quarantine_count s) (finalize_timeout_warning_emitted s)
         (allocated s) (f (in_flight s)) (next_id s) (S (mpi_calls s))).

Section Guard.
Context (env : mpi_env).

Definition oracle {A} (f : nat -> A) : TM A := fun s => (f (mpi_calls s), s).

(** The null pointer of [local_values] is [None]. *)
Definition request_create (values : option (list Z)) (value_count : nat)
    : TM (option PeakMpiTeardownRequest) :=
  mpi* ok := oracle (e_calloc env) in
  match values with
  | Some values =>
      if negb ok || (value_count =? 0)%nat || (PEAK_MPI_TEARDOWN_MAX_VALUES <? value_count)%nat
      then mpi* _ := mark_failed_closed in tret None
      else mpi* r := allocate (take value_count values) in tret (Some r)
  | None => mpi* _ := mark_failed_closed in tret None
  end.

Definition request_quarantine (r : PeakMpiTeardownRequest) : TM unit := fun s =>
  (tt, mkTeardown (peak_mpi_teardown_failed_closed s) (r :: peak_mpi_teardown_quarantine s)
         (S (peak_mpi_teardown_quarantine_count s)) (finalize_timeout_warning_emitted s)
         (allocated s) (in_flight s) (next_id s) (mpi_calls s)).

Definition request_abandon (r : PeakMpiTeardownRequest) : TM unit :=
  mpi* _ := mark_failed_closed in request_quarantine r.

(** The loop of [MPI_Test]: the reduced values, or [None]. *)
Fixpoint test_loop (r : PeakMpiTeardownRequest) (polls : list poll) : TM (option (list Z)) :=
  match polls with
  | [] => mpi* _ := request_abandon r in tret None
  | p :: polls =>
      mpi* _ := mpi_call (fun f => if test_ok p && done_flag p then f ∖ {[request_id r]} else f) in
      if negb (test_ok p) then mpi* _ := request_abandon r in tret None
      else if done_flag p then mpi* _ := free_request r in tret (Some (take (length (local_values r)) (reduced p)))
      else if expired p then mpi* _ := request_abandon r in tret None
      else test_loop r polls
  end.

Definition all_ranks_min (values : option (list Z)) (value_count : nat) (timeout_ms : Z)
    : TM (option (list Z)) :=
  mpi* closed := failed_closed in
  if closed : bool then tret None
  else
    mpi* pending := request_create values value_count in
    match pending with
    | None => tret None
    | Some r =>
        mpi* ok := oracle (e_iallreduce env) in
        mpi* _ := mpi_call (fun f => {[request_id r]} ∪ f) in
        if negb ok then mpi* _ := request_abandon r in tret None
        else
          mpi* polls := oracle (fun n => e_polls env n timeout_ms) in
          test_loop r polls
    end.

Definition finalize_timeout_schema : PeakEnvUnsignedSchema :=
  mkUnsignedSchema "PEAK_MPI_FINALIZE_REQUEST_TIMEOUT_MS" 10000 1 UINT_MAX false false.

Definition finalize_timeout_ms : TM Z := fun s =>
  let '(v, warned, _) :=
    parse_env_unsigned (e_getenv env) finalize_timeout_schema (Some (finalize_timeout_warning_emitted s)) in
  (wrap 32 v,
   mkTeardown (peak_mpi_teardown_failed_closed s) (peak_mpi_teardown_quarantine s)
     (peak_mpi_teardown_quarantine_count s) (default false warned) (allocated s) (in_flight s) (next_id s)
     (mpi_calls s)).

Definition report_release_timeout_ms (minimum_timeout_ms : Z) : Z :=
  if e_report_release_timeout_ms env <? minimum_timeout_ms then minimum_timeout_ms
  else e_report_release_timeout_ms env.

Definition nonzero (values : list Z) (i : nat) : bool := negb (default 0 (values !! i) =? 0).

(** C evaluates the timeout, an argument, before the call. *)
Definition all_ranks_requested_finalize (local_requested : Z) : TM bool :=
  mpi* timeout := finalize_timeout_ms in
  mpi* r := all_ranks_min (Some [local_requested]) 1 timeout in
  tret (match r with Some values => nonzero values 0 | None => false end).

(** The protocol's success, and the two agreements. *)
Definition complete_report_release (local_complete local_real_finalize_allowed : Z) : TM (bool * bool * bool) :=
  mpi* r := all_ranks_min (Some [local_complete; local_real_finalize_allowed]) 2 (report_release_timeout_ms 0) in
  tret (match r with
        | Some values => (true, nonzero values 0, nonzero values 1)
        | None => (false, false, false)
        end).

Definition complete_post_publication_release
    (local_requested_finalize local_complete local_real_finalize_allowed minimum_timeout_ms : Z)
    : TM (bool * bool * bool * bool) :=
  mpi* r := all_ranks_min (Some [local_requested_finalize; local_complete; local_real_finalize_allowed]) 3
              (report_release_timeout_ms minimum_timeout_ms) in
  tret (match r with
        | Some values => (true, nonzero values 0, nonzero values 1, nonzero values 2)
        | None => (false, false, false, false)
        end).

(** ** Sequences of agreements *)

Inductive agreement :=
  | RequestedFinalize (local_requested : Z)
  | ReportRelease (complete allowed : Z)
  | PostPublicationRelease (requested complete allowed minimum_timeout_ms : Z)
  | MarkFailedClosed.

Definition agree (a : agreement) : TM unit :=
  match a with
  | RequestedFinalize l => mpi* _ := all_ranks_requested_finalize l in tret tt
  | ReportRelease c f => mpi* _ := complete_report_release c f in tret tt
  | PostPublicationRelease r c f m => mpi* _ := complete_post_publication_release r c f m in tret tt
  | MarkFailedClosed => mark_failed_closed
  end.

Fixpoint agree_all (l : list agreement) : TM unit :=
  match l with [] => tret tt | a :: l => mpi* _ := agree a in agree_all l end.

(** ** Requests in flight *)

Definition quarantined (s : teardown) : list nat := map request_id (peak_mpi_teardown_quarantine s).

(** Between agreements: the requests MPI may work on are quarantined and
    allocated, nothing else is allocated, there is at most one, and then the
    guard is closed. *)
Record settled (s : teardown) : Prop := {
  settled_flight : in_flight s ⊆ list_to_set (quarantined s);
  settled_allocated : allocated s = list_to_set (quarantined s);
  settled_count : peak_mpi_teardown_quarantine_count s = length (quarantined s);
  settled_single : (length (quarantined s) <= 1)%nat;
  settled_closed : quarantined s <> [] -> peak_mpi_teardown_failed_closed s = true;
  settled_fresh : forall i, i ∈ allocated s -> (i < next_id s)%nat
}.

(** While [r] is pending: nothing else exists. *)
Record pending_only (r : PeakMpiTeardownRequest) (s : teardown) : Prop := {
  pending_flight : in_flight s ⊆ {[request_id r]};
  pending_allocated : allocated s = {[request_id r]};
  pending_empty : peak_mpi_teardown_quarantine s = [];
  pending_count : peak_mpi_teardown_quarantine_count s = 0%nat;
  pending_fresh : (request_id r < next_id s)%nat
}.

Definition mtriple {A} (P : teardown -> Prop) (m : TM A) (Q : A -> teardown -> Prop) : Prop :=
  forall s, P s -> Q (m s).1 (m s).2.

Lemma mtriple_bind {A B} P (m : TM A) R (f : A -> TM B) Q :
  mtriple P m R -> (forall a, mtriple (R a) (f a) Q) -> mtriple P (tbind m f) Q.
Proof.
  intros Hm Hf s Hs. specialize (Hm s Hs). unfold tbind. destruct (m s) as [a s1]. by apply (Hf a s1).
Qed.

Lemma mtriple_ret {A} (a : A) (Q : A -> teardown -> Prop) : mtriple (Q a) (tret a) Q.
Proof. by intros s Hs. Qed.

Lemma mtriple_then {A B} P (m : TM A) R (b : B) (Q : B -> teardown -> Prop) :
  mtriple P m (fun _ => R) -> (forall s, R s -> Q b s) -> mtriple P (tbind m (fun _ => tret b)) Q.
Proof. intros Hm HQ. eapply mtriple_bind; [exact Hm|]. intros a s Hs. by apply HQ. Qed.

Lemma abandon_settled r : mtriple (pending_only r) (request_abandon r) (fun _ => settled).
Proof.
  intros s [Hf Ha He Hc Hn]. unfold request_abandon, tbind, mark_failed_closed, request_quarantine. simpl.
  split; unfold quarantined; simpl; rewrite ?He, ?Ha, ?Hc; simpl.
  - set_solver.
  - set_solver.
  - done.
  - lia.
  - done.
  - intros i Hi. assert (i = request_id r) as -> by set_solver. done.
Qed.

Lemma test_loop_settled r polls : mtriple (pending_only r) (test_loop r polls) (fun _ => settled).
Proof.
  induction polls as [|p polls IH]; cbn [test_loop]; [by eapply mtriple_then; [apply abandon_settled|]|].
  eapply (mtriple_bind _ _ (fun _ s => pending_only r s /\
    (test_ok p && done_flag p = true -> in_flight s ⊆ ∅))).
  { intros s [Hf Ha He Hc Hn]. simpl.
    split; [split; simpl; [|done..]|]; destruct (test_ok p && done_flag p); try done; set_solver. }
  intros _. destruct (test_ok p); cbn [negb andb].
  2: { eapply mtriple_then; [|done]. intros s [Hs _]. by apply abandon_settled. }
  destruct (done_flag p).
  - eapply mtriple_then; [|done]. intros s [[Hf Ha He Hc Hn] Hd]. specialize (Hd eq_refl). simpl.
    split; unfold quarantined; simpl; rewrite ?He, ?Hc, ?Ha; try done; try set_solver; simpl; lia.
  - destruct (expired p); [eapply mtriple_then; [|done]|]; intros s [Hs _]; [by apply abandon_settled|by apply IH].
Qed.

Lemma mark_settled : mtriple settled mark_failed_closed (fun _ => settled).
Proof. intros s []. by split. Qed.

(** The guard is open, so nothing is pending. *)
Lemma open_empty s :
  settled s -> peak_mpi_teardown_failed_closed s = false ->
  peak_mpi_teardown_quarantine s = [] /\ in_flight s = ∅ /\ allocated s = ∅.
Proof.
  intros [Hf Ha _ _ Hc _] Hopen. unfold quarantined in *.
  destruct (peak_mpi_teardown_quarantine s) as [|r l]; [|by rewrite Hc in Hopen].
  split_and!; [done|simpl in Hf; set_solver|done].
Qed.

Lemma request_create_spec values n :
  mtriple (fun s => settled s /\ peak_mpi_teardown_failed_closed s = false) (request_create values n)
    (fun x s => match x with Some r => pending_only r s /\ in_flight s = ∅ | None => settled s end).
Proof.
  unfold request_create. apply (mtriple_bind _ _ (fun _ s => settled s /\ peak_mpi_teardown_failed_closed s = false));
    [by intros s Hs|]. intros ok.
  assert (Hmark : mtriple (fun s => settled s /\ peak_mpi_teardown_failed_closed s = false)
    (tbind mark_failed_closed (fun _ => tret None))
    (fun x s => match x with Some r => pending_only r s /\ in_flight s = ∅ | None => settled s end)).
  { eapply mtriple_then; [|by intros s Hs]. intros s [Hs _]. by apply mark_settled. }
  destruct values as [values|]; [|done]. destruct (_ || _); [done|].
  eapply (mtriple_bind _ _ (fun r s => pending_only r s /\ in_flight s = ∅)).
  - intros s [Hs Hopen]. destruct (open_empty s Hs Hopen) as (He & Hf & Ha).
    pose proof (settled_count s Hs) as Hc. unfold quarantined in Hc. rewrite He in Hc.
    split; [|done]. split; simpl; rewrite ?He, ?Hf, ?Ha, ?Hc; try done; try set_solver; lia.
  - by intros r s Hs.
Qed.

Lemma all_ranks_min_settled values n timeout :
  mtriple settled (all_ranks_min values n timeout) (fun _ => settled).
Proof.
  unfold all_ranks_min. eapply (mtriple_bind _ _ (fun b s => settled s /\ peak_mpi_teardown_failed_closed s = b)).
  { by intros s Hs. }
  intros [|]; [by intros s [Hs _]|].
  eapply mtriple_bind; [apply request_create_spec|]. intros [r|]; [|by intros s Hs].
  eapply (mtriple_bind _ _ (fun _ => pending_only r)); [by intros s [Hs _]|]. intros ok.
  eapply (mtriple_bind _ _ (fun _ => pending_only r)).
  { intros s [Hf Ha He Hc Hn]. split; simpl; try done. set_solver. }
  intros _. destruct ok; cbn [negb].
  - eapply (mtriple_bind _ _ (fun _ => pending_only r)); [by intros s Hs|]. intros polls. apply test_loop_settled.
  - eapply mtriple_then; [apply abandon_settled|done].
Qed.

Lemma agree_settled a : mtriple settled (agree a) (fun _ => settled).
Proof.
  assert (Hrun : forall {A} values n timeout (f : option (list Z) -> A),
    mtriple settled (tbind (all_ranks_min values n timeout) (fun r => tret (f r))) (fun _ => settled)).
  { intros A values n timeout f. eapply mtriple_bind; [apply all_ranks_min_settled|]. by intros r s Hs. }
  destruct a; cbn [agree]; [..|apply mark_settled]; (eapply mtriple_then; [|done]); [|apply Hrun|apply Hrun].
  eapply (mtriple_bind _ _ (fun _ => settled)); [|intros t; apply Hrun].
  intros s Hs. unfold finalize_timeout_ms. destruct (parse_env_unsigned _ _ _) as [[v w] x]. destruct Hs. by split.
Qed.

Definition initial_teardown : teardown := mkTeardown false [] 0 false ∅ ∅ 0 0.

(** C38: after any agreements, whatever MPI, the allocator and the clock do: at
    most one request was abandoned; a request MPI may still be working on is
    among the abandoned and its buffers are allocated; nothing else is; and
    once one was abandoned the guard is closed. *)
Theorem abandoned_requests_kept l :
  let s := (agree_all l initial_teardown).2 in
  in_flight s ⊆ list_to_set (quarantined s) /\ allocated s = list_to_set (quarantined s) /\
  (length (quarantined s) <= 1)%nat /\ (quarantined s <> [] -> peak_mpi_teardown_failed_closed s = true).
Proof.
  assert (Hall : mtriple settled (agree_all l) (fun _ => settled)).
  { induction l as [|a l IH]; cbn [agree_all]; [by intros s Hs|].
    eapply mtriple_bind; [apply agree_settled|]. by intros ?. }
  destruct (Hall initial_teardown) as [H1 H2 _ H4 H5 _]; [by split; try done; set_solver|done].
Qed.

(** ** A closed guard *)

Definition no_calls (n : nat) (s : teardown) : Prop := peak_mpi_teardown_failed_closed s = true /\ mpi_calls s = n.

Lemma closed_min n values k timeout :
  mtriple (no_calls n) (all_ranks_min values k timeout) (fun r s => r = None /\ no_calls n s).
Proof.
  unfold all_ranks_min. eapply (mtriple_bind _ _ (fun b s => b = true /\ no_calls n s)).
  { by intros s [Hc Hn]. }
  intros [|]; [by intros s [_ Hs]|by intros s [? _]].
Qed.

(** once closed, the guard never calls MPI again and never reports an
    agreement, whatever is asked of it. *)
Theorem closed_guard_silent l s :
  peak_mpi_teardown_failed_closed s = true ->
  mpi_calls (agree_all l s).2 = mpi_calls s /\ peak_mpi_teardown_failed_closed (agree_all l s).2 = true /\
  forall requested, (all_ranks_requested_finalize requested (agree_all l s).2).1 = false.
Proof.
  intros Hs. set (n := mpi_calls s).
  assert (Hrun : forall {A} values k timeout (f : option (list Z) -> A) (Q : A -> Prop), Q (f None) ->
    mtriple (no_calls n) (tbind (all_ranks_min values k timeout) (fun r => tret (f r)))
      (fun a s => Q a /\ no_calls n s)).
  { intros A values k timeout f Q HQ. eapply mtriple_bind; [apply closed_min|]. by intros r s' [-> Hs']. }
  assert (Hfin : forall r, mtriple (no_calls n) (all_ranks_requested_finalize r) (fun b s => b = false /\ no_calls n s)).
  { intros r. eapply (mtriple_bind _ _ (fun _ => no_calls n)); [|intros t; by apply Hrun].
    intros s' Hs'. unfold finalize_timeout_ms. by destruct (parse_env_unsigned _ _ _) as [[v w] x]. }
  assert (Hagree : forall a, mtriple (no_calls n) (agree a) (fun _ => no_calls n)).
  { intros [r|c f|r c f m|]; cbn [agree]; [..|by intros s' [_ Hn]].
    - eapply mtriple_bind; [apply Hfin|]. by intros b s' [_ Hs'].
    - eapply mtriple_bind; [by apply (Hrun _ _ _ _ _ (fun _ => True))|]. by intros b s' [_ Hs'].
    - eapply mtriple_bind; [by apply (Hrun _ _ _ _ _ (fun _ => True))|]. by intros b s' [_ Hs']. }
  assert (Hall : mtriple (no_calls n) (agree_all l) (fun _ => no_calls n)).
  { induction l as [|a l IH]; cbn [agree_all]; [by intros s' Hs'|].
    eapply mtriple_bind; [apply Hagree|]. by intros ?. }
  destruct (Hall s) as [Hc Hn]; [by split|]. split_and!; [done|done|].
  intros r. by destruct (Hfin r (agree_all l s).2) as [? _].
Qed.

End Guard.

(** ** All ranks *)

(** What MPI promises: when a reduction completes, every rank has contributed,
    and each value is the minimum of the ranks' values. *)
Definition minimum_of (contributions : list (list Z)) (values : list Z) : Prop :=
  forall i, (exists c, c ∈ contributions /\ default 0 (values !! i) = default 0 (c !! i)) /\
    forall c, c ∈ contributions -> default 0 (values !! i) <= default 0 (c !! i).

Definition reduces (env : mpi_env) (contributions : list (list Z)) : Prop :=
  forall n timeout p, p ∈ e_polls env n timeout -> test_ok p = true -> done_flag p = true ->
    minimum_of contributions (reduced p).

(** The ranks contribute flags. *)
Definition flags (contributions : list (list Z)) : Prop := Forall (Forall (fun v => 0 <= v)) contributions.

Lemma minimum_nonzero contributions values i c :
  flags contributions -> minimum_of contributions values -> c ∈ contributions ->
  nonzero values i = true -> default 0 (c !! i) <> 0.
Proof.
  intros Hf Hm Hc Hn. unfold nonzero in Hn. apply negb_true_iff, Z.eqb_neq in Hn.
  destruct (Hm i) as [(c' & Hc' & Heq) Hle]. specialize (Hle c Hc).
  assert (0 <= default 0 (c' !! i)); [|lia].
  unfold flags in Hf. rewrite Forall_forall in Hf. specialize (Hf c' Hc').
  destruct (c' !! i) as [v|] eqn:Hv; simpl; [|lia]. rewrite Forall_lookup in Hf. by apply (Hf i).
Qed.

Section Ranks.
Context (env : mpi_env) (contributions : list (list Z)).
Context (Hreduces : reduces env contributions) (Hflags : flags contributions).

(** What a completed agreement on [n] values gives. *)
Definition agreed (n : nat) (r : option (list Z)) : Prop :=
  match r with
  | Some values => forall i c, (i < n)%nat -> c ∈ contributions -> nonzero values i = true -> default 0 (c !! i) <> 0
  | None => True
  end.

Lemma test_loop_agreed r polls :
  (forall p, p ∈ polls -> test_ok p = true -> done_flag p = true -> minimum_of contributions (reduced p)) ->
  mtriple (fun _ => True) (test_loop r polls) (fun x _ => agreed (length (local_values r)) x).
Proof.
  induction polls as [|p polls IH]; intros Hp; cbn [test_loop]; [by intros s _|].
  apply (mtriple_bind _ _ (fun _ _ => True)); [by intros s _|]. intros _.
  destruct (test_ok p) eqn:Hok; cbn [negb]; [|by intros s _]. destruct (done_flag p) eqn:Hd.
  - intros s _ i c Hi Hc Hn. eapply minimum_nonzero; [done|by apply Hp; [left|..]|done|].
    unfold nonzero in *. by rewrite lookup_take_lt in Hn.
  - destruct (expired p); [by intros s _|]. apply IH. intros p' Hp'. apply Hp. by right.
Qed.

Lemma min_agreed values n timeout :
  length values = n -> mtriple (fun _ => True) (all_ranks_min env (Some values) n timeout) (fun x _ => agreed n x).
Proof.
  intros Hlen. unfold all_ranks_min. apply (mtriple_bind _ _ (fun _ _ => True)); [by intros s _|].
  intros [|]; [by intros s _|].
  apply (mtriple_bind _ _ (fun x _ => match x with Some r => length (local_values r) = n | None => True end)).
  { intros s _. unfold request_create, tbind, oracle. destruct (_ || _); [done|]. simpl.
    rewrite length_take. lia. }
  intros [r|]; [|by intros s _].
  apply (mtriple_bind _ _ (fun _ _ => length (local_values r) = n)); [by intros s Hs|]. intros ok.
  apply (mtriple_bind _ _ (fun _ _ => length (local_values r) = n)); [by intros s Hs|]. intros _.
  destruct ok; cbn [negb]; [|by intros s _].
  apply (mtriple_bind _ _ (fun polls _ => length (local_values r) = n /\
    forall p, p ∈ polls -> test_ok p = true -> done_flag p = true -> minimum_of contributions (reduced p))).
  { intros s Hs. split; [done|]. intros p Hp. by apply (Hreduces _ _ _ Hp). }
  intros polls s [<- Hp]. by apply test_loop_agreed.
Qed.

(** a flag a rank reports after an agreement holds on all ranks: when it
    learns that all ranks requested the finalization, every rank did; the same
    for each flag of the combined release at the end of the report. *)
Theorem agreement_means_all_ranks s requested complete allowed minimum_timeout c :
  c ∈ contributions ->
  ((all_ranks_requested_finalize env requested s).1 = true -> default 0 (c !! 0%nat) <> 0) /\
  (let '(_, all_requested, all_complete, all_allowed) :=
     (complete_post_publication_release env requested complete allowed minimum_timeout s).1 in
   (all_requested = true -> default 0 (c !! 0%nat) <> 0) /\
   (all_complete = true -> default 0 (c !! 1%nat) <> 0) /\
   (all_allowed = true -> default 0 (c !! 2%nat) <> 0)).
Proof.
  intros Hc. split.
  - unfold all_ranks_requested_finalize, tbind at 1, finalize_timeout_ms.
    destruct (parse_env_unsigned _ _ _) as [[v w] x]. unfold tbind.
    match goal with |- context [all_ranks_min env (Some ?vs) 1 ?t ?s1] =>
      pose proof (min_agreed vs 1 t eq_refl s1 I) as Ha; destruct (all_ranks_min env (Some vs) 1 t s1) as [[values|] s2] end;
      simpl; [|done]. intros Hn. apply (Ha 0%nat c); [lia|done|done].
  - unfold complete_post_publication_release, tbind.
    match goal with |- context [all_ranks_min env (Some ?vs) 3 ?t ?s1] =>
      pose proof (min_agreed vs 3 t eq_refl s1 I) as Ha; destruct (all_ranks_min env (Some vs) 3 t s1) as [[values|] s2] end;
      simpl; [|done]. split_and!; intros Hn; eapply Ha; try done; lia.
Qed.

End Ranks.

(** ** A concrete run *)

Definition demo_mpi (polls : list poll) : mpi_env :=
  mkMpiEnv (fun _ => true) (fun _ => true) (fun _ _ => polls) (fun _ => None) 30000.

Definition demo_polls : list poll := [mkPoll true false [] false; mkPoll true true [1; 0; 1] false].

Lemma closed_guard_silent_witness :
  let s := (agree (demo_mpi [mkPoll true false [] true]) (RequestedFinalize 1) initial_teardown).2 in
  peak_mpi_teardown_failed_closed s = true /\ length (quarantined s) = 1%nat /\
  mpi_calls (agree_all (demo_mpi demo_polls) [ReportRelease 1 1; RequestedFinalize 1] s).2 = mpi_calls s.
Proof.
  intros s. assert (H : peak_mpi_teardown_failed_closed s = true) by (vm_compute; reflexivity).
  split; [exact H|]. split; [vm_compute; reflexivity|].
  exact (proj1 (closed_guard_silent (demo_mpi demo_polls) [ReportRelease 1 1; RequestedFinalize 1] s H)).
Defined.

Lemma agreement_means_all_ranks_witness :
  (complete_post_publication_release (demo_mpi demo_polls) 1 1 1 0 initial_teardown).1 = (true, true, false, true) /\
  default 0 ([1; 1; 1] !! 0%nat) <> 0.
Proof.
  assert (Hr : reduces (demo_mpi demo_polls) [[1; 0; 1]; [1; 1; 1]]).
  { intros n t p Hp. repeat (apply elem_of_cons in Hp as [->|Hp]; [intros H1 H2; try discriminate H2|]);
      [|by apply not_elem_of_nil in Hp].
    intros i. split; [exists [1; 0; 1]; split; [left|done]|]. intros c Hc.
    repeat (apply elem_of_cons in Hc as [->|Hc]; [destruct i as [|[|[|i]]]; simpl; lia|]).
    by apply not_elem_of_nil in Hc. }
  assert (Hrun : (complete_post_publication_release (demo_mpi demo_polls) 1 1 1 0 initial_teardown).1 =
    (true, true, false, true)) by (vm_compute; reflexivity).
  split; [exact Hrun|].
  pose proof (proj2 (agreement_means_all_ranks (demo_mpi demo_polls) [[1; 0; 1]; [1; 1; 1]] Hr
    ltac:(repeat constructor; discriminate) initial_teardown 1 1 1 0 [1; 1; 1] ltac:(right; left))) as Ha.
  exact (proj1 Ha eq_refl).
Defined.
