(* ===== verification/StatGuard.v ===== *)
(** * The filesystem-stat guard

    Models [src/filesystem_stat_guard.c]: calls of [statfs] and its relatives
    are admitted one by one and counted in a shared word, so that the detach
    controller can refuse to stop threads while one is inside such a call.  The
    system is a list of threads, each with its thread-local control word and
    token records and a stack of running functions: a signal handler may start
    a query on top of anything its thread is doing, also in the middle of
    another query, and leave it by a nonlocal exit.  A step is one atomic
    access of a running function (the loads before a compare-and-exchange that
    succeeds are part of its step; one that fails is no step).  The bit fields
    of the words are fields of records; the symbols are resolved and the
    process does not fork, so the generation stays the same.  The libc call
    itself is a place a thread stays at. *)

From S2P Require Import Prelude.

Definition TOKEN_CAPACITY : nat := 4.
Definition COUNT_MASK : Z := 2 ^ 31 - 1.
Definition DEPTH_MAX : Z := 2 ^ 25 - 1.

(** [regions] *)
Record region_word := mkRegions {
  stop_bit : bool;
  count : Z
}.

(** [tokens[i]] *)
Record token := mkToken {
  token_used : bool;
  token_admitted : bool;
  token_previous : nat
}.
Definition free_token : token := mkToken false false 0.

(** [control] *)
Record control_word := mkControl {
  head : nat;
  writer : bool;
  poison : bool;
  saturated : bool;
  depth : Z
}.

(** How a query was let in: by the controller's depth, on the record of an
    outer query, on the permanent reader, on its own record. *)
Inductive admission := Bypassed | Borrowed (j : nat) | Poisoned | Own.

Inductive query_pc :=
  | Reserving (i : nat)
  | Entering
  | Admitting
  | Counted
  | PoisonCounted
  | Publishing
  | Calling (a : admission)
  | Leaving
  | Revoking
  | Discounting
  | Releasing.

Inductive stop_pc :=
  | Checking
  | Closing
  | Owning
  | Draining
  | Expiring
  | Reopening.

Inductive frame :=
  | Query (index : nat) (pc : query_pc)
  | TryStop (pc : stop_pc)
  | Resume
  | ResumeClearing
  | ControllerEnter
  | ControllerLeave.

Record thread := mkThread {
  control : control_word;
  tokens : list token;
  stack : list frame;
  (** ghost: [try_stop] returned 1 and the resume has not begun *)
  holding : bool
}.

(** ** Steps of the function on top of the stack *)

Definition set_tokens (ts : list token) (t : thread) : thread := mkThread (control t) ts (stack t) (holding t).
Definition set_control (c : control_word) (t : thread) : thread := mkThread c (tokens t) (stack t) (holding t).

(** Record [i], from 1. *)
Definition token_at (t : thread) (i : nat) : token :=
  match i with O => free_token | S i => default free_token (tokens t !! i) end.
Definition put_token (i : nat) (k : token) (t : thread) : thread := set_tokens (<[pred i := k]> (tokens t)) t.

Definition set_head (h : nat) (c : control_word) : control_word :=
  mkControl h (writer c) (poison c) (saturated c) (depth c).
Definition set_writer (b : bool) (c : control_word) : control_word :=
  mkControl (head c) b (poison c) (saturated c) (depth c).
Definition set_poison (c : control_word) : control_word :=
  mkControl (head c) (writer c) true (saturated c) (depth c).

(** [goto]: the top frame goes on as [f]; [finish]: it returns. *)
Definition goto (f : frame) (rest : list frame) (t : thread) : thread :=
  mkThread (control t) (tokens t) (f :: rest) (holding t).
Definition finish (rest : list frame) (t : thread) : thread :=
  mkThread (control t) (tokens t) rest (holding t).

Definition bypass (c : control_word) : bool := negb (depth c =? 0) && (negb (saturated c) || writer c).

(** A query of this thread is already admitted. *)
Definition nested (t : thread) : bool := token_admitted (token_at t (head (control t))).

(** [reserve_token]: one record is looked at. *)
Definition reserve_step (r : region_word) (t : thread) (index i : nat) (rest : list frame)
    : option (region_word * thread) :=
  if (i <? TOKEN_CAPACITY)%nat then
    if token_used (token_at t (S i)) then Some (r, goto (Query index (Reserving (S i))) rest t)
    else Some (r, goto (Query (S i) Entering) rest (put_token (S i) (mkToken true false 0) t))
  else Some (r, goto (Query 0 Entering) rest t).

(** [cleanup_region] with [leave_region]. *)
Definition leave_step (r : region_word) (t : thread) (index : nat) (pc : query_pc) (rest : list frame)
    : option (region_word * thread) :=
  let at_ pc t := goto (Query index pc) rest t in
  let k := token_at t index in
  match pc with
  | Leaving =>
      if token_admitted k
      then Some (r, at_ Revoking (set_control (set_head (token_previous k) (control t)) t))
      else Some (r, at_ Releasing t)
  | Revoking => Some (r, at_ Discounting (put_token index (mkToken (token_used k) false (token_previous k)) t))
  | Discounting =>
      Some (if count r =? 0 then r else mkRegions (stop_bit r) (count r - 1), at_ Releasing t)
  | Releasing => Some (r, finish rest (put_token index free_token t))
  | _ => None
  end.

(** One step of a query; [None] while it has to wait in [enter_region]. *)
Definition query_step (r : region_word) (t : thread) (index : nat) (pc : query_pc) (rest : list frame)
    : option (region_word * thread) :=
  let at_ pc t := goto (Query index pc) rest t in
  match pc with
  | Reserving i => reserve_step r t index i rest
  | Entering => Some (r, at_ (if bypass (control t) then Calling Bypassed else Admitting) t)
  | Admitting =>
      if (index =? 0)%nat && poison (control t) then Some (r, at_ (Calling Poisoned) t)
      else if (index =? 0)%nat && nested t then Some (r, at_ (Calling (Borrowed (head (control t)))) t)
      else if (stop_bit r && negb (nested t)) || (count r =? COUNT_MASK) then None
      else Some (mkRegions (stop_bit r) (count r + 1), at_ (if (index =? 0)%nat then PoisonCounted else Counted) t)
  | PoisonCounted => Some (r, at_ (Calling Poisoned) (set_control (set_poison (control t)) t))
  | Counted => Some (r, at_ Publishing (put_token index (mkToken true true (head (control t))) t))
  | Publishing => Some (r, at_ (Calling Own) (set_control (set_head index (control t)) t))
  | Calling _ => Some (r, if (index =? 0)%nat then finish rest t else at_ Leaving t)
  | Leaving | Revoking | Discounting | Releasing => leave_step r t index pc rest
  end.

(** Whether the deadline of the wait has passed. *)
Definition stop_step (late : bool) (r : region_word) (t : thread) (pc : stop_pc) (rest : list frame)
    : option (region_word * thread) :=
  let at_ pc t := goto (TryStop pc) rest t in
  match pc with
  | Checking =>
      if writer (control t) || poison (control t) || saturated (control t) || nested t
      then Some (r, finish rest t) else Some (r, at_ Closing t)
  | Closing =>
      if stop_bit r || late then Some (r, finish rest t)
      else Some (mkRegions true (count r), at_ Owning t)
  | Owning =>
      if poison (control t) || late then Some (r, at_ Reopening t)
      else Some (r, at_ Draining (set_control (set_writer true (control t)) t))
  | Draining =>
      if count r =? 0 then Some (r, mkThread (control t) (tokens t) rest true)
      else if late then Some (r, at_ Expiring t) else Some (r, t)
  | Expiring => Some (r, at_ Reopening (set_control (set_writer false (control t)) t))
  | Reopening => Some (mkRegions false (count r), finish rest t)
  end.

Definition frame_step (late : bool) (r : region_word) (t : thread) : option (region_word * thread) :=
  match stack t with
  | [] => None
  | Query index pc :: rest => query_step r t index pc rest
  | TryStop pc :: rest => stop_step late r t pc rest
  | Resume :: rest =>
      let c := control t in
      if writer c
      then Some (r, mkThread (set_writer false c) (tokens t) (ResumeClearing :: rest) false)
      else Some (r, mkThread c (tokens t) rest false)
  | ResumeClearing :: rest => Some (mkRegions false (count r), finish rest t)
  | ControllerEnter :: rest =>
      let c := control t in
      Some (r, finish rest (set_control
        (if depth c =? DEPTH_MAX then mkControl (head c) (writer c) (poison c) true (depth c)
         else if saturated c then c
         else mkControl (head c) (writer c) (poison c) (saturated c) (depth c + 1)) t))
  | ControllerLeave :: rest =>
      let c := control t in
      Some (r, finish rest (set_control
        (if (depth c =? 0) || saturated c then c
         else mkControl (head c) (writer c) (poison c) (saturated c) (depth c - 1)) t))
  end.

(** ** The system *)

Record system := mkSystem {
  regions : region_word;
  threads : list thread
}.

Definition is_query (f : frame) : bool := match f with Query _ _ => true | _ => false end.

(** A thread goes on; starts a query, also from a handler; starts one of the
    controller's functions; or leaves its query by a nonlocal exit. *)
Inductive guard_step : system -> system -> Prop :=
  | StepFrame s i t late r t' :
      threads s !! i = Some t -> frame_step late (regions s) t = Some (r, t') ->
      guard_step s (mkSystem r (<[i := t']> (threads s)))
  | StepQuery s i t :
      threads s !! i = Some t ->
      guard_step s (mkSystem (regions s) (<[i := goto (Query 0 (Reserving 0)) (stack t) t]> (threads s)))
  | StepControl s i t f :
      threads s !! i = Some t -> stack t = [] -> f ∈ [TryStop Checking; Resume; ControllerEnter; ControllerLeave] ->
      guard_step s (mkSystem (regions s) (<[i := goto f [] t]> (threads s)))
  | StepExit s i t f rest :
      threads s !! i = Some t -> stack t = f :: rest -> is_query f = true ->
      guard_step s (mkSystem (regions s) (<[i := finish rest t]> (threads s))).

Inductive guard_steps : system -> system -> Prop :=
  | GuardRefl s : guard_steps s s
  | GuardTrans s s' s'' : guard_steps s s' -> guard_step s' s'' -> guard_steps s s''.

Definition idle_thread : thread :=
  mkThread (mkControl 0 false false false 0) (replicate TOKEN_CAPACITY free_token) [] false.
Definition initial_system (n : nat) : system := mkSystem (mkRegions false 0) (replicate n idle_thread).

(** An ordinary query of the thread is inside the libc call. *)
Definition inside_call (t : thread) : Prop :=
  exists index a, Query index (Calling a) ∈ stack t /\ a <> Bypassed.
