(* ===== verification/StatGuardProofs.v ===== *)
(** * The filesystem-stat guard: a stop and the calls exclude each other

    The shared count covers every admitted record, every query between the
    count and its record, and the permanent reader of a poisoned thread; the
    closed bit belongs to exactly one thread; the records a suspended query
    relies on are left alone by the queries above it on the same stack.  Each
    step of one thread keeps its own part ([thread_ok]) and moves the shared
    word by what it adds to its shares, which the sums over all threads lift
    to the system ([guard_inv]). *)

From S2P Require Import Prelude StatGuard.

(** ** The shares of a thread *)

Definition token_share (k : token) : Z := Z.b2z (token_admitted k).
Definition frame_share (f : frame) : Z :=
  match f with Query _ (Counted | PoisonCounted | Discounting) => 1 | _ => 0 end.
Definition frame_gate (f : frame) : Z :=
  match f with TryStop (Owning | Reopening) | ResumeClearing => 1 | _ => 0 end.

(** What of the count, and of the closed bit, is this thread's. *)
Definition obligations (t : thread) : Z :=
  total token_share (tokens t) + total frame_share (stack t) + Z.b2z (poison (control t)).
Definition ownership (t : thread) : Z := Z.b2z (writer (control t)) + total frame_gate (stack t).

Lemma b2z_nonneg b : 0 <= Z.b2z b.
Proof. destruct b; simpl; lia. Qed.
Lemma token_share_nonneg k : 0 <= token_share k.
Proof. apply b2z_nonneg. Qed.
Lemma frame_share_nonneg f : 0 <= frame_share f.
Proof. destruct f as [? []| | | | |]; simpl; lia. Qed.
Lemma frame_gate_nonneg f : 0 <= frame_gate f.
Proof. destruct f as [|[]| | | |]; simpl; lia. Qed.

Lemma obligations_nonneg t : 0 <= obligations t.
Proof.
  unfold obligations.
  pose proof (total_nonneg token_share (tokens t) token_share_nonneg).
  pose proof (total_nonneg frame_share (stack t) frame_share_nonneg).
  pose proof (b2z_nonneg (poison (control t))); lia.
Qed.

Lemma ownership_nonneg t : 0 <= ownership t.
Proof.
  unfold ownership; pose proof (total_nonneg frame_gate (stack t) frame_gate_nonneg).
  pose proof (b2z_nonneg (writer (control t))); lia.
Qed.

(** ** The part of a thread *)

(** The records a running query relies on. *)
Definition claims (f : frame) : list nat :=
  match f with
  | Query index (Calling (Borrowed j)) => [index; j]
  | Query index _ => [index]
  | _ => []
  end.

Definition frame_ok (t : thread) (f : frame) : Prop :=
  match f with
  | Query index pc =>
      (index <> O -> token_used (token_at t index) = true) /\
      match pc with
      | Reserving _ => index = O
      | Entering | Admitting | Calling Bypassed => True
      | PoisonCounted => index = O
      | Counted | Leaving | Discounting | Releasing => index <> O
      | Publishing | Calling Own | Revoking => index <> O /\ token_admitted (token_at t index) = true
      | Calling (Borrowed j) => index = O /\ token_admitted (token_at t j) = true
      | Calling Poisoned => index = O /\ poison (control t) = true
      end
  | TryStop (Draining | Expiring) => writer (control t) = true /\ holding t = false
  | _ => True
  end.

Definition apart (i : nat) (fs : list frame) : Prop := i <> O -> Forall (fun g => i ∉ claims g) fs.

Fixpoint stack_ok (t : thread) (fs : list frame) : Prop :=
  match fs with
  | [] => True
  | f :: rest =>
      frame_ok t f /\ stack_ok t rest /\
      match f with Query index _ => apart index rest | _ => rest = [] end
  end.

Definition draining (f : frame) : bool := match f with TryStop (Draining | Expiring) => true | _ => false end.

Record thread_ok (t : thread) : Prop := {
  ok_length : length (tokens t) = TOKEN_CAPACITY;
  ok_tokens : Forall (fun k => token_admitted k = true -> token_used k = true) (tokens t);
  ok_stack : stack_ok t (stack t);
  ok_holding : holding t = true -> writer (control t) = true;
  ok_writer : writer (control t) = true -> holding t = true \/ existsb draining (stack t) = true
}.

(** ** Records *)

Lemma token_at_put_other t i j k : i <> O -> j <> i -> token_at (put_token i k t) j = token_at t j.
Proof.
  intros Hi Hj; destruct i as [|i], j as [|j]; try congruence; try reflexivity; simpl.
  rewrite list_lookup_insert_ne; [reflexivity|congruence].
Qed.

Lemma token_at_lookup t i : (0 < i <= length (tokens t))%nat -> tokens t !! pred i = Some (token_at t i).
Proof.
  destruct i as [|i]; simpl; [lia|]; intros H.
  destruct (lookup_lt_is_Some_2 (tokens t) i) as [k E]; [lia|]; rewrite E; reflexivity.
Qed.

Lemma token_at_put t i k : (0 < i <= length (tokens t))%nat -> token_at (put_token i k t) i = k.
Proof. destruct i as [|i]; simpl; [lia|]; intros; rewrite list_lookup_insert_eq; [reflexivity|lia]. Qed.

Lemma used_range t i : token_used (token_at t i) = true -> (0 < i <= length (tokens t))%nat.
Proof.
  destruct i as [|i]; simpl; [discriminate|].
  destruct (tokens t !! i) eqn:E; simpl; [|discriminate]; apply lookup_lt_Some in E; lia.
Qed.

Lemma admitted_used t j :
  Forall (fun k => token_admitted k = true -> token_used k = true) (tokens t) ->
  token_admitted (token_at t j) = true -> j <> O /\ token_used (token_at t j) = true.
Proof.
  intros HF; destruct j as [|j]; simpl; [discriminate|].
  destruct (tokens t !! j) as [k|] eqn:E; simpl; [|discriminate].
  intros Ha; split; [congruence|]. rewrite Forall_lookup in HF; eauto.
Qed.

Lemma admitted_share t j : token_admitted (token_at t j) = true -> 1 <= total token_share (tokens t).
Proof.
  destruct j as [|j]; simpl; [discriminate|].
  destruct (tokens t !! j) as [k|] eqn:E; simpl; [|discriminate]; intros Ha.
  pose proof (total_member token_share (tokens t) j k token_share_nonneg E) as H.
  unfold token_share in H at 1; rewrite Ha in H; exact H.
Qed.

Lemma put_token_total t i k :
  (0 < i <= length (tokens t))%nat ->
  total token_share (tokens (put_token i k t)) =
    total token_share (tokens t) - token_share (token_at t i) + token_share k.
Proof. intros H; apply total_insert, token_at_lookup, H. Qed.

Lemma put_token_forall t i k :
  Forall (fun k => token_admitted k = true -> token_used k = true) (tokens t) ->
  (token_admitted k = true -> token_used k = true) ->
  Forall (fun k => token_admitted k = true -> token_used k = true) (tokens (put_token i k t)).
Proof. intros; simpl; apply Forall_insert; assumption. Qed.

(** ** Frames below the one that steps *)

(** A frame only looks at its claims, the poison flag and the owner. *)
Lemma frame_ok_ext t t' f :
  frame_ok t f -> (forall j, j ∈ claims f -> j <> O -> token_at t' j = token_at t j) ->
  (poison (control t) = true -> poison (control t') = true) ->
  (draining f = true -> writer (control t') = writer (control t) /\ holding t' = holding t) ->
  frame_ok t' f.
Proof.
  destruct f as [index pc|pc| | | |]; simpl; try tauto.
  - intros [Hu Hp] Hc Hpo _.
    assert (Hi : index <> O -> token_at t' index = token_at t index).
    { intros; apply Hc; [destruct pc as [| | | | | |[]| | | |]; set_solver|assumption]. }
    split; [intros Hn; rewrite (Hi Hn); auto|].
    destruct pc as [| | | | | |[]| | | |]; try exact Hp; try tauto;
      try (destruct Hp as [Hn Ha]; split; [exact Hn|rewrite (Hi Hn); exact Ha]).
    destruct Hp as [Hn Ha]; split; [exact Hn|].
    rewrite Hc; [exact Ha|set_solver|intros ->; simpl in Ha; discriminate].
  - intros Ho _ _ Hd; destruct pc; try exact Ho; destruct (Hd eq_refl) as [-> ->]; exact Ho.
Qed.

Lemma stack_ok_ext t t' fs :
  stack_ok t fs -> (forall f j, f ∈ fs -> j ∈ claims f -> j <> O -> token_at t' j = token_at t j) ->
  (poison (control t) = true -> poison (control t') = true) ->
  (existsb draining fs = true -> writer (control t') = writer (control t) /\ holding t' = holding t) ->
  stack_ok t' fs.
Proof.
  induction fs as [|f fs IH]; simpl; [tauto|].
  intros (Hf & Hr & Ha) Hc Hpo Hd; split_and!; [|apply IH; try assumption|exact Ha].
  - eapply frame_ok_ext; [exact Hf| |exact Hpo|].
    + intros j Hj Hn; apply (Hc f); [set_solver|exact Hj|exact Hn].
    + intros Hdf; apply Hd; rewrite Hdf; reflexivity.
  - intros g j Hg; apply Hc; set_solver.
  - intros Hdr; apply Hd; rewrite Hdr; apply orb_true_r.
Qed.

(** The claims of frames that are in order are used records. *)
Lemma claims_used t fs f j :
  Forall (fun k => token_admitted k = true -> token_used k = true) (tokens t) ->
  stack_ok t fs -> f ∈ fs -> j ∈ claims f -> j <> O -> token_used (token_at t j) = true.
Proof.
  intros HF; induction fs as [|g fs IH]; simpl; [set_solver|].
  intros (Hg & Hr & _) Hin Hj Hn; apply elem_of_cons in Hin as [->|Hin]; [|auto].
  destruct g as [index pc| | | | |]; simpl in *; try set_solver.
  destruct pc as [| | | | | |[]| | | |]; simpl in *; try set_solver.
  destruct Hg as [Hu [Hi Ha]]; apply elem_of_cons in Hj as [->|Hj]; [auto|].
  apply list_elem_of_singleton in Hj as ->; eapply admitted_used; eauto.
Qed.

(** ** Steps of a query *)

Section query.
Context (t : thread) (index : nat) (pc : query_pc) (rest : list frame).
Hypothesis (Hok : thread_ok t) (Hst : stack t = Query index pc :: rest).

Lemma query_top : frame_ok t (Query index pc) /\ stack_ok t rest /\ apart index rest.
Proof. destruct Hok as [_ _ H _ _]; rewrite Hst in H; exact H. Qed.

(** The frame at the top goes on, or returns; records claimed below stay. *)
Lemma query_goto_ok c ts i' pc' (t' := mkThread c ts (Query i' pc' :: rest) (holding t)) :
  length ts = TOKEN_CAPACITY -> Forall (fun k => token_admitted k = true -> token_used k = true) ts ->
  writer c = writer (control t) -> (poison (control t) = true -> poison c = true) ->
  (forall f j, f ∈ rest -> j ∈ claims f -> j <> O -> token_at t' j = token_at t j) ->
  frame_ok t' (Query i' pc') -> apart i' rest -> thread_ok t'.
Proof.
  intros Hl HF Hw Hp Hc Hf Ha; destruct query_top as (_ & Hr & _), Hok as [_ _ _ Hh Hwr].
  constructor; simpl; [exact Hl|exact HF| |rewrite Hw; exact Hh|rewrite Hw; rewrite Hst in Hwr; exact Hwr].
  split; [exact Hf|split; [|exact Ha]].
  eapply stack_ok_ext; [exact Hr|exact Hc|exact Hp|intros ?; split; [exact Hw|reflexivity]].
Qed.

Lemma query_finish_ok c ts (t' := mkThread c ts rest (holding t)) :
  length ts = TOKEN_CAPACITY -> Forall (fun k => token_admitted k = true -> token_used k = true) ts ->
  writer c = writer (control t) -> (poison (control t) = true -> poison c = true) ->
  (forall f j, f ∈ rest -> j ∈ claims f -> j <> O -> token_at t' j = token_at t j) -> thread_ok t'.
Proof.
  intros Hl HF Hw Hp Hc; destruct query_top as (_ & Hr & _), Hok as [_ _ _ Hh Hwr].
  constructor; simpl; [exact Hl|exact HF| |rewrite Hw; exact Hh|rewrite Hw; rewrite Hst in Hwr; exact Hwr].
  eapply stack_ok_ext; [exact Hr|exact Hc|exact Hp|intros ?; split; [exact Hw|reflexivity]].
Qed.

(** Writing the query's own record leaves the claims below alone. *)
Lemma own_record_apart c k (t' : thread) fs h :
  index <> O -> t' = mkThread c (tokens (put_token index k t)) fs h ->
  forall f j, f ∈ rest -> j ∈ claims f -> j <> O -> token_at t' j = token_at t j.
Proof.
  intros Hi -> f j Hf Hj Hn; destruct query_top as (_ & _ & Ha).
  specialize (Ha Hi); rewrite Forall_forall in Ha; specialize (Ha f Hf).
  transitivity (token_at (put_token index k t) j); [reflexivity|].
  apply token_at_put_other; [exact Hi|congruence].
Qed.

End query.

(** What a step of a thread does to the shared word and to its shares. *)
Definition step_sound (r : region_word) (t : thread) (r' : region_word) (t' : thread) : Prop :=
  thread_ok t' /\
  obligations t' - obligations t <= count r' - count r /\
  ownership t' - ownership t = Z.b2z (stop_bit r') - Z.b2z (stop_bit r) /\
  (stop_bit r = true -> count r = 0 -> count r' = 0) /\
  (holding t' = true -> holding t = true \/ count r' = 0).

Lemma nested_counted t : nested t = true -> 1 <= obligations t.
Proof.
  intros H; apply admitted_share in H; unfold obligations.
  pose proof (total_nonneg frame_share (stack t) frame_share_nonneg).
  pose proof (b2z_nonneg (poison (control t))); lia.
Qed.

(** The query keeps its state and the shared word, only its place changes. *)
Lemma query_moves r t index pc rest i' pc' :
  thread_ok t -> stack t = Query index pc :: rest ->
  frame_share (Query index pc) = frame_share (Query i' pc') ->
  frame_ok t (Query i' pc') -> apart i' rest ->
  step_sound r t r (goto (Query i' pc') rest t).
Proof.
  intros Hok Hst Hs Hf Ha; unfold step_sound; split_and!.
  - eapply query_goto_ok; eauto; apply Hok.
  - unfold obligations; rewrite Hst; simpl in *; lia.
  - unfold ownership; rewrite Hst; simpl; lia.
  - tauto.
  - simpl; tauto.
Qed.

Lemma put_token_length t i k : length (tokens (put_token i k t)) = length (tokens t).
Proof. apply length_insert. Qed.

Lemma reserving_sound r t index i rest r' t' :
  thread_ok t -> stack t = Query index (Reserving i) :: rest ->
  query_step r t index (Reserving i) rest = Some (r', t') -> step_sound r t r' t'.
Proof.
  intros Hok Hst; destruct (query_top t index _ rest Hok Hst) as ((_ & ->) & Hr & _); unfold query_step, reserve_step, leave_step.
  destruct (i <? TOKEN_CAPACITY)%nat eqn:Hi; [destruct (token_used (token_at t (S i))) eqn:Hu|];
    intros [= <- <-]; 
    try (eapply query_moves; [exact Hok|exact Hst|reflexivity|split; [congruence|simpl; auto]|intros ?; congruence]).
  assert (Hrange : (0 < S i <= length (tokens t))%nat) by (rewrite (ok_length t Hok); breflect; lia).
  assert (Hap : forall f j, f ∈ rest -> j ∈ claims f -> j <> O -> j <> S i).
  { intros f j Hf Hj Hn ->; rewrite (claims_used t rest f (S i)) in Hu; try discriminate; auto; apply Hok. }
  unfold step_sound; split_and!; simpl; try tauto.
  - apply (query_goto_ok t 0 _ rest Hok Hst); simpl; auto.
    + rewrite length_insert; apply Hok.
    + apply (put_token_forall t (S i)); [apply Hok|simpl; auto].
    + intros f j Hf Hj Hn; apply (token_at_put_other t (S i)); eauto.
    + split; [intros _|exact I]; rewrite list_lookup_insert_eq; [reflexivity|lia].
    + intros _; apply Forall_forall; intros f Hf Hj; eapply Hap; eauto.
  - unfold obligations; rewrite Hst; simpl.
    pose proof (put_token_total t (S i) (mkToken true false 0) Hrange) as H.
    change (token_share (mkToken true false 0)) with 0 in H.
    pose proof (token_share_nonneg (token_at t (S i))); simpl in *; lia.
  - unfold ownership; rewrite Hst; simpl; lia.
Qed.

(** A step that changes the shared word or the query's own record. *)
Lemma admitting_sound r t index rest r' t' :
  thread_ok t -> obligations t <= count r -> stack t = Query index Admitting :: rest ->
  query_step r t index Admitting rest = Some (r', t') -> step_sound r t r' t'.
Proof.
  intros Hok Hob Hst; destruct (query_top t index _ rest Hok Hst) as ((Hu & _) & Hr & Ha); unfold query_step, reserve_step, leave_step.
  destruct ((index =? 0)%nat && poison (control t)) eqn:Hp;
    [|destruct ((index =? 0)%nat && nested t) eqn:Hn;
      [|destruct ((stop_bit r && negb (nested t)) || (count r =? COUNT_MASK)) eqn:Hs; [discriminate|]]];
    intros [= <- <-]; breflect.
  - eapply query_moves; [exact Hok|exact Hst|reflexivity|split; [exact Hu|]|exact Ha]; simpl; tauto.
  - eapply query_moves; [exact Hok|exact Hst|reflexivity|split; [exact Hu|]|exact Ha]; simpl; tauto.
  - unfold step_sound; split_and!; simpl.
    + apply (query_goto_ok t index _ rest Hok Hst); auto; try apply Hok.
      destruct (index =? 0)%nat eqn:E; breflect; split; auto.
    + unfold obligations; rewrite Hst; destruct (index =? 0)%nat; simpl; lia.
    + unfold ownership; rewrite Hst; simpl; lia.
    + intros Hsb Hc; destruct (nested t) eqn:Hne.
      * pose proof (nested_counted t Hne); lia.
      * rewrite Hsb in *; simpl in *; intuition discriminate.
    + tauto.
Qed.

(** The query writes its own record and goes on. *)
Lemma record_sound r r' t index pc rest pc' k c :
  thread_ok t -> stack t = Query index pc :: rest -> index <> O ->
  c = control t \/ (exists h, c = set_head h (control t)) ->
  (token_admitted k = true -> token_used k = true) -> token_used k = true ->
  (forall t', token_at t' index = k -> frame_ok t' (Query index pc')) ->
  stop_bit r' = stop_bit r -> (count r = 0 -> count r' = 0) ->
  token_share k - token_share (token_at t index) + frame_share (Query index pc') - frame_share (Query index pc) <=
    count r' - count r ->
  step_sound r t r' (goto (Query index pc') rest (set_control c (put_token index k t))).
Proof.
  intros Hok Hst Hi Hc Hk Hk' Hf Hsb Hc0 Hsh.
  destruct (query_top t index _ rest Hok Hst) as ((Hu & _) & Hr & Ha).
  pose proof (used_range t index (Hu Hi)) as Hrange.
  assert (Hcw : writer c = writer (control t) /\ poison c = poison (control t)) by (destruct Hc as [->|[h ->]]; auto).
  destruct Hcw as [Hw Hp]; unfold step_sound; split_and!; simpl; auto.
  - apply (query_goto_ok t index _ rest Hok Hst); simpl; auto.
    + rewrite length_insert; apply Hok.
    + apply (put_token_forall t index); [apply Hok|exact Hk].
    + congruence.
    + eapply own_record_apart; eauto; reflexivity.
    + apply Hf; transitivity (token_at (put_token index k t) index); [reflexivity|apply token_at_put, Hrange].
  - unfold obligations; simpl; rewrite Hst, Hp; simpl in *.
    pose proof (put_token_total t index k Hrange) as H; simpl in H; lia.
  - unfold ownership; simpl; rewrite Hst, Hw, Hsb; simpl; lia.
Qed.

(** The query changes its thread's head or poison flag and goes on. *)
Lemma control_sound r t index pc rest pc' c :
  thread_ok t -> stack t = Query index pc :: rest ->
  writer c = writer (control t) -> (poison (control t) = true -> poison c = true) ->
  (index <> O -> token_used (token_at t index) = true) ->
  frame_ok (set_control c t) (Query index pc') -> apart index rest ->
  Z.b2z (poison c) - Z.b2z (poison (control t)) + frame_share (Query index pc') <= frame_share (Query index pc) ->
  step_sound r t r (goto (Query index pc') rest (set_control c t)).
Proof.
  intros Hok Hst Hw Hp Hu Hf Ha Hs; unfold step_sound; split_and!; simpl; try tauto.
  - apply (query_goto_ok t index _ rest Hok Hst); auto; apply Hok.
  - unfold obligations; simpl; rewrite Hst; simpl in *; lia.
  - unfold ownership; simpl; rewrite Hst, Hw; simpl; lia.
Qed.

(** The query returns, or is left by a nonlocal exit. *)
Lemma returns_sound r t index pc rest :
  thread_ok t -> stack t = Query index pc :: rest -> step_sound r t r (finish rest t).
Proof.
  intros Hok Hst; unfold step_sound; split_and!; simpl; try tauto.
  - apply (query_finish_ok t index _ rest Hok Hst); auto; apply Hok.
  - unfold obligations; simpl; rewrite Hst; simpl; pose proof (frame_share_nonneg (Query index pc)); simpl in *; lia.
  - unfold ownership; simpl; rewrite Hst; simpl; lia.
Qed.

Lemma releasing_sound r t index rest :
  thread_ok t -> stack t = Query index Releasing :: rest ->
  step_sound r t r (finish rest (put_token index free_token t)).
Proof.
  intros Hok Hst; destruct (query_top t index _ rest Hok Hst) as ((Hu & Hi) & Hr & Ha).
  pose proof (used_range t index (Hu Hi)) as Hrange.
  unfold step_sound; split_and!; simpl; try tauto.
  - apply (query_finish_ok t index _ rest Hok Hst); simpl; auto.
    + rewrite length_insert; apply Hok.
    + apply (put_token_forall t index); [apply Hok|discriminate].
    + eapply own_record_apart; eauto; reflexivity.
  - unfold obligations; simpl; rewrite Hst; simpl.
    pose proof (put_token_total t index free_token Hrange) as H.
    change (token_share free_token) with 0 in H.
    pose proof (token_share_nonneg (token_at t index)); simpl in *; lia.
  - unfold ownership; simpl; rewrite Hst; simpl; lia.
Qed.

Lemma discounting_sound r t index rest :
  thread_ok t -> obligations t <= count r -> stack t = Query index Discounting :: rest ->
  step_sound r t (if count r =? 0 then r else mkRegions (stop_bit r) (count r - 1))
    (goto (Query index Releasing) rest t).
Proof.
  intros Hok Hob Hst; destruct (query_top t index _ rest Hok Hst) as (Hf & Hr & Ha).
  destruct (count r =? 0) eqn:E; breflect.
  - pose proof (total_nonneg token_share (tokens t) token_share_nonneg).
    pose proof (total_nonneg frame_share rest frame_share_nonneg).
    pose proof (b2z_nonneg (poison (control t))); unfold obligations in Hob; rewrite Hst in Hob; simpl in Hob; lia.
  - unfold step_sound; split_and!; simpl; try tauto; try lia.
    + apply (query_goto_ok t index _ rest Hok Hst); auto; apply Hok.
    + unfold obligations; simpl; rewrite Hst; simpl; lia.
    + unfold ownership; simpl; rewrite Hst; simpl; lia.
Qed.

Lemma query_step_sound r t index pc rest r' t' :
  thread_ok t -> obligations t <= count r -> stack t = Query index pc :: rest ->
  query_step r t index pc rest = Some (r', t') -> step_sound r t r' t'.
Proof.
  intros Hok Hob Hst; pose proof (query_top t index _ rest Hok Hst) as ((Hu & Hpc) & Hr & Ha).
  destruct pc; [eauto using reserving_sound| |eauto using admitting_sound|..]; unfold query_step, reserve_step, leave_step;
    try (intros [= <- <-]).
  - destruct (bypass (control t));
      (eapply query_moves; [exact Hok|exact Hst|reflexivity|split; [exact Hu|exact I]|exact Ha]).
  - (* Counted *)
    apply (record_sound r r t index Counted rest Publishing _ (control t)); simpl; auto.
    + intros t1 ->; simpl; auto.
    + pose proof (token_share_nonneg (token_at t index)); unfold token_share in *; simpl; lia.
  - (* PoisonCounted *)
    apply control_sound with (pc := PoisonCounted); simpl; auto.
    pose proof (b2z_nonneg (poison (control t))); lia.
  - (* Publishing *)
    apply control_sound with (pc := Publishing); simpl; auto; lia.
  - (* Calling *)
    destruct (index =? 0)%nat eqn:E; breflect.
    + eapply returns_sound; eauto.
    + eapply query_moves; [exact Hok|exact Hst|reflexivity|split; auto|exact Ha].
  - (* Leaving *)
    destruct (token_admitted (token_at t index)) eqn:Hadm; intros [= <- <-].
    + apply control_sound with (pc := Leaving); simpl; auto; lia.
    + eapply query_moves; [exact Hok|exact Hst|reflexivity|split; auto|exact Ha].
  - (* Revoking *)
    destruct Hpc as [Hi Hadm].
    apply (record_sound r r t index Revoking rest Discounting _ (control t)); simpl; auto; try discriminate.
    + intros t1 ->; simpl; auto.
    + unfold token_share; rewrite Hadm; simpl; lia.
  - apply discounting_sound; auto.
  - apply releasing_sound; auto.
Qed.

(** ** Steps of the controller's functions *)

(** They run at the bottom of the stack, so the thread has nothing else. *)
Lemma control_frame_sound late r t f rest r' t' :
  thread_ok t -> ownership t <= Z.b2z (stop_bit r) -> stack t = f :: rest -> is_query f = false ->
  frame_step late r t = Some (r', t') -> step_sound r t r' t'.
Proof.
  intros [Hl HF Hs Hh Hw] Hown Hst Hq Hstep.
  assert (rest = []) as -> by (rewrite Hst in Hs; destruct f; simpl in *; tauto || discriminate).
  unfold frame_step in Hstep; rewrite Hst in *; unfold ownership in Hown; rewrite Hst in Hown; simpl in *.
  destruct Hs as (Hf & _ & _).
  destruct t as [[hd wr po sa de] ts st ho], r as [sb cn]; simpl in *; subst st.
  destruct f as [| [] | | | |]; simpl in *; try discriminate; repeat branch_in Hstep; simplify_eq;
    unfold step_sound, obligations, ownership; simpl in *; breflect; split_and!; simpl; try lia; try tauto.
  all: try (destruct wr, sb; simpl in *; try discriminate; lia).
  all: try match type of Hf with _ /\ _ => destruct Hf as [-> ->] end.
  all: constructor; simpl; auto.
  all: repeat match goal with
    | |- _ /\ _ => split
    | |- ?b = false => destruct b eqn:?; [specialize (Hh eq_refl)|reflexivity]
    end; auto.
  rewrite Hh in Hown; destruct sb; simpl in Hown; lia.
Qed.

(** ** The system *)

Record guard_inv (s : system) : Prop := {
  inv_threads : Forall thread_ok (threads s);
  inv_count : total obligations (threads s) <= count (regions s);
  inv_gate : total ownership (threads s) = Z.b2z (stop_bit (regions s));
  inv_held : forall i t, threads s !! i = Some t -> holding t = true -> count (regions s) = 0
}.

Lemma guard_inv_initial n : guard_inv (initial_system n).
Proof.
  constructor; simpl.
  - apply Forall_replicate; constructor; simpl; try discriminate; auto.
  - rewrite total_replicate; [lia|reflexivity].
  - apply total_replicate; reflexivity.
  - reflexivity.
Qed.

Lemma held_gate t : thread_ok t -> holding t = true -> 1 <= ownership t.
Proof.
  intros Hok Hh; unfold ownership; rewrite (ok_holding t Hok Hh).
  pose proof (total_nonneg frame_gate (stack t) frame_gate_nonneg); simpl; lia.
Qed.

Lemma held_closed s i t : guard_inv s -> threads s !! i = Some t -> holding t = true -> stop_bit (regions s) = true.
Proof.
  intros [HF _ Hg _] Hi Hh; rewrite Forall_lookup in HF.
  pose proof (held_gate t (HF i t Hi) Hh); pose proof (total_member ownership _ i t ownership_nonneg Hi).
  destruct (stop_bit (regions s)); [reflexivity|simpl in *; lia].
Qed.

(** A sound step of one thread keeps the invariant of the system. *)
Lemma guard_inv_update s i t r' t' :
  guard_inv s -> threads s !! i = Some t -> step_sound (regions s) t r' t' ->
  guard_inv (mkSystem r' (<[i := t']> (threads s))).
Proof.
  intros Hinv Hi (Hok & Hob & Hown & Hst & Hh); pose proof Hinv as [HF Hc Hg Hd].
  constructor; simpl.
  - apply Forall_insert; assumption.
  - rewrite (total_insert _ _ _ _ _ Hi); lia.
  - rewrite (total_insert _ _ _ _ _ Hi); lia.
  - intros j u Hj Hu.
    assert (Hkeep : forall k v, threads s !! k = Some v -> holding v = true -> count r' = 0).
    { intros k v Hk Hv; apply Hst; [eapply held_closed|eapply Hd]; eauto. }
    apply lookup_insert_cases in Hj as [(_ & <- & _)|[_ Hj]]; [|eauto].
    destruct (Hh Hu) as [Ht|?]; eauto.
Qed.

Lemma push_sound r t f :
  thread_ok t -> frame_ok t f -> frame_share f = 0 -> frame_gate f = 0 ->
  match f with Query index _ => apart index (stack t) | _ => stack t = [] end ->
  step_sound r t r (goto f (stack t) t).
Proof.
  intros [Hl HF Hs Hh Hw] Hf Hsh Hg Ha; unfold step_sound, obligations, ownership; split_and!; simpl; try tauto; try lia.
  constructor; simpl; auto.
  - split; [eapply frame_ok_ext; eauto|split; [|exact Ha]]; eapply stack_ok_ext; eauto.
  - intros Hwr; destruct (Hw Hwr) as [?|Hd]; [auto|right; rewrite Hd; apply orb_true_r].
Qed.

Lemma guard_inv_step s s' : guard_inv s -> guard_step s s' -> guard_inv s'.
Proof.
  intros Hinv Hstep; pose proof (inv_threads s Hinv) as HF; rewrite Forall_lookup in HF.
  assert (Hob : forall i t, threads s !! i = Some t -> obligations t <= count (regions s)).
  { intros i t Hi; pose proof (total_member obligations _ i t obligations_nonneg Hi).
    pose proof (inv_count s Hinv); lia. }
  assert (Hown : forall i t, threads s !! i = Some t -> ownership t <= Z.b2z (stop_bit (regions s))).
  { intros i t Hi; rewrite <- (inv_gate s Hinv); exact (total_member ownership _ i t ownership_nonneg Hi). }
  destruct Hstep as [s i t late r t' Hi Hf|s i t Hi|s i t f Hi Hst Hf|s i t f rest Hi Hst Hq];
    (eapply guard_inv_update; [exact Hinv|exact Hi|]).
  - destruct (stack t) as [|f rest] eqn:Hst; [unfold frame_step in Hf; rewrite Hst in Hf; discriminate|].
    destruct (is_query f) eqn:Hq; [|eapply control_frame_sound; eauto].
    destruct f; try discriminate; unfold frame_step in Hf; rewrite Hst in Hf; eapply query_step_sound; eauto.
  - apply push_sound; [eauto|split; [congruence|reflexivity]|reflexivity..|intros ?; congruence].
  - rewrite <- Hst; apply push_sound; eauto; clear - Hf Hst; rewrite !elem_of_cons, elem_of_nil in Hf;
      destruct Hf as [->|[->|[->|[->|[]]]]]; simpl; auto.
  - destruct f; try discriminate; eapply returns_sound; eauto.
Qed.

Lemma guard_inv_steps n s : guard_steps (initial_system n) s -> guard_inv s.
Proof.
  intros H; remember (initial_system n) as s0 eqn:E; induction H as [|s1 s2 s3 _ IH Hs]; subst.
  - apply guard_inv_initial.
  - eapply guard_inv_step; eauto.
Qed.

(** A query inside the call is covered by its thread's shares. *)
Lemma inside_call_counted t : thread_ok t -> inside_call t -> 1 <= obligations t.
Proof.
  intros Hok (index & a & Hin & Ha).
  assert (Hf : frame_ok t (Query index (Calling a))).
  { pose proof (ok_stack t Hok) as Hs; induction (stack t) as [|f fs IH]; [set_solver|].
    destruct Hs as (Hf & Hr & _); apply elem_of_cons in Hin as [<-|Hin]; auto. }
  assert (Hadm : poison (control t) = true \/ exists j, token_admitted (token_at t j) = true).
  { destruct a; simpl in Hf; intuition eauto. }
  pose proof (total_nonneg frame_share (stack t) frame_share_nonneg).
  pose proof (total_nonneg token_share (tokens t) token_share_nonneg).
  pose proof (b2z_nonneg (poison (control t))).
  unfold obligations; destruct Hadm as [->|[j Hj]]; [simpl; lia|apply admitted_share in Hj; lia].
Qed.

(** ** Running schedules *)

Inductive move := Go (i : nat) (late : bool) | StartQuery (i : nat) | StartControl (i : nat) (f : frame) | Exit (i : nat).

Definition thread_of (m : move) : nat := match m with Go i _ | StartQuery i | StartControl i _ | Exit i => i end.

Definition is_control (f : frame) : bool :=
  match f with TryStop Checking | Resume | ControllerEnter | ControllerLeave => true | _ => false end.

Definition play (m : move) (r : region_word) (t : thread) : option (region_word * thread) :=
  match m with
  | Go _ late => frame_step late r t
  | StartQuery _ => Some (r, goto (Query 0 (Reserving 0)) (stack t) t)
  | StartControl _ f =>
      match stack t with [] => if is_control f then Some (r, goto f [] t) else None | _ => None end
  | Exit _ => match stack t with f :: rest => if is_query f then Some (r, finish rest t) else None | [] => None end
  end.

Fixpoint play_all (ms : list move) (s : system) : option system :=
  match ms with
  | [] => Some s
  | m :: ms =>
      match threads s !! thread_of m with
      | Some t =>
          match play m (regions s) t with
          | Some (r, t') => play_all ms (mkSystem r (<[thread_of m := t']> (threads s)))
          | None => None
          end
      | None => None
      end
  end.

Lemma guard_steps_trans s s' s'' : guard_steps s s' -> guard_steps s' s'' -> guard_steps s s''.
Proof. intros H H'; revert H; induction H' as [|s1 s2 s3 _ IH Hs]; intros H; [exact H|]; exact (GuardTrans _ _ _ (IH H) Hs). Qed.

Lemma play_all_steps ms s s' : play_all ms s = Some s' -> guard_steps s s'.
Proof.
  revert s; induction ms as [|m ms IH]; intros s H; simpl in H; [simplify_eq; constructor|].
  destruct (threads s !! thread_of m) as [t|] eqn:Hi; [|discriminate].
  destruct (play m (regions s) t) as [[r t']|] eqn:Hp; [|discriminate].
  eapply guard_steps_trans; [eapply GuardTrans; [constructor|]|apply (IH _ H)].
  destruct m; simpl in *; repeat branch_in Hp; simplify_eq; [econstructor 1|econstructor 2|econstructor 3|econstructor 4]; eauto.
  destruct f as [|[]| | | |]; simpl in *; try discriminate; set_solver.
Qed.

(** ** The properties *)

(** C29: while a thread holds the stop that [peak_filesystem_stat_guard_try_stop]
    granted and has not begun to give it back, no thread is inside a [statfs]
    call that went through the guard (whatever queries of signal handlers,
    borrowed records, exhausted records and nonlocal exits came before), the gate
    is closed and no second thread holds it. *)
Theorem stop_excludes_calls n s i t :
  guard_steps (initial_system n) s -> threads s !! i = Some t -> holding t = true ->
  stop_bit (regions s) = true /\ count (regions s) = 0 /\
  (forall j u, threads s !! j = Some u -> ~ inside_call u) /\
  (forall j u, threads s !! j = Some u -> holding u = true -> j = i).
Proof.
  intros Hs Hi Hh; apply guard_inv_steps in Hs as Hinv.
  pose proof (inv_threads s Hinv) as HF; rewrite Forall_lookup in HF.
  pose proof (inv_held s Hinv i t Hi Hh) as Hz.
  split_and!; [eapply held_closed; eauto|exact Hz| |].
  - intros j u Hj Hin; pose proof (inside_call_counted u (HF j u Hj) Hin).
    pose proof (total_member obligations _ j u obligations_nonneg Hj); pose proof (inv_count s Hinv); lia.
  - intros j u Hj Hu; destruct (decide (j = i)) as [|Hne]; [assumption|exfalso].
    pose proof (total_two ownership _ j i u t ownership_nonneg Hj Hi Hne) as Hsum.
    pose proof (held_gate u (HF j u Hj) Hu); pose proof (held_gate t (HF i t Hi) Hh).
    rewrite (inv_gate s Hinv) in Hsum; destruct (stop_bit (regions s)); simpl in Hsum; lia.
Qed.

(** A query that finishes while another thread waits to stop, and one that is
    kept out afterwards. *)
Definition drained_stop : list move :=
  [StartQuery 0; Go 0 false; Go 0 false; Go 0 false; Go 0 false; Go 0 false;
   StartControl 1 (TryStop Checking); Go 1 false; Go 1 false; Go 1 false; Go 1 false;
   Go 0 false; Go 0 false; Go 0 false; Go 0 false; Go 0 false; Go 1 false;
   StartQuery 0; Go 0 false; Go 0 false].
Definition drained_system : system := default (initial_system 2) (play_all drained_stop (initial_system 2)).

Lemma stop_excludes_calls_witness :
  exists t, threads drained_system !! 1%nat = Some t /\ holding t = true /\
    (forall j u, threads drained_system !! j = Some u -> ~ inside_call u).
Proof.
  eexists; split_and!; [vm_compute; reflexivity|reflexivity|].
  apply (stop_excludes_calls 2 drained_system 1
    (default idle_thread (threads drained_system !! 1%nat))); [|vm_compute; reflexivity..].
  apply (play_all_steps drained_stop); vm_compute; reflexivity.
Defined.

(** the gate never stays closed by accident: once no thread holds a stop
    and none is inside [try_stop] or [resume], it is open, and a query at its
    admission goes on unless the count is full (a stop that was deferred, or
    whose deadline passed with readers inside, leaves nothing behind). *)
Theorem gate_reopens n s :
  guard_steps (initial_system n) s ->
  (forall i t, threads s !! i = Some t -> holding t = false /\ Forall (fun f => is_query f = true) (stack t)) ->
  stop_bit (regions s) = false /\
  (forall i t index rest, threads s !! i = Some t -> stack t = Query index Admitting :: rest ->
    count (regions s) <> COUNT_MASK -> exists r' t', frame_step false (regions s) t = Some (r', t')).
Proof.
  intros Hs Hquiet; apply guard_inv_steps in Hs as Hinv.
  assert (Hopen : stop_bit (regions s) = false).
  { pose proof (inv_gate s Hinv) as Hg; pose proof (inv_threads s Hinv) as HF.
    assert (Hsum : total ownership (threads s) = 0); [|rewrite Hsum in Hg; destruct (stop_bit _); [discriminate|reflexivity]].
    clear Hs Hg Hinv; induction (threads s) as [|t ts IH]; [reflexivity|]; simpl.
    apply Forall_cons in HF as [Hok HF].
    rewrite IH; [|intros i u Hi; apply (Hquiet (S i) u Hi)|exact HF].
    destruct (Hquiet O t eq_refl) as [Hh Hq].
    assert (Hfr : total frame_gate (stack t) = 0 /\ existsb draining (stack t) = false).
    { clear -Hq; induction Hq as [|f fs Hf _ [IH1 IH2]]; simpl; [auto|].
      rewrite IH1, IH2; destruct f; simpl in *; try discriminate; auto. }
    unfold ownership; destruct Hfr as [-> Hd].
    destruct (writer (control t)) eqn:Hw; [|reflexivity].
    destruct (ok_writer t Hok Hw); congruence. }
  split; [exact Hopen|]; intros i t index rest _ Hst Hc; unfold frame_step; rewrite Hst; unfold query_step, reserve_step, leave_step.
  rewrite Hopen; destruct ((index =? 0)%nat && poison (control t)), ((index =? 0)%nat && nested t); eauto.
  simpl; destruct (count (regions s) =? COUNT_MASK) eqn:E; [breflect; congruence|eauto].
Qed.

(** A stop whose deadline passes while a query is inside. *)
Definition expired_stop : list move :=
  [StartQuery 0; Go 0 false; Go 0 false; Go 0 false; Go 0 false; Go 0 false;
   StartControl 1 (TryStop Checking); Go 1 false; Go 1 false; Go 1 false; Go 1 true; Go 1 false; Go 1 false;
   StartQuery 1; Go 1 false; Go 1 false].
Definition expired_system : system := default (initial_system 2) (play_all expired_stop (initial_system 2)).

Lemma gate_reopens_witness :
  stop_bit (regions expired_system) = false /\ count (regions expired_system) = 1.
Proof.
  split; [|vm_compute; reflexivity].
  apply (gate_reopens 2); [apply (play_all_steps expired_stop); vm_compute; reflexivity|].
  intros i t Hi; vm_compute in Hi; destruct i as [|[|]]; simplify_eq; split; try reflexivity; repeat constructor.
Defined.
