(* ===== verification/MemLog.v ===== *)
(** * The memory event log

    Models the event buffer of [src/malloc_interceptor.c] in the production
    build: the size of the mapping ([peak_memlog_open]), the reservation of
    slots by the threads that log ([peak_memlog_reserve_slot]: blocks of 64
    slots in a large log, one slot in a small one), the compaction of completed
    records and the replay of the accounting at the end
    ([peak_memlog_finalize]).  A reservation is one step: its only access that
    others can interfere with is the fetch-and-add, and a stale read of
    [peak_memlog_full] ends in the same refusal, because the flag is only set
    when the counter is past the end. *)

From stdpp Require Import sorting.
From S2P Require Import Prelude.

Definition INT64_MAX : Z := 2 ^ 63 - 1.
Definition UINT16_MAX : Z := 2 ^ 16 - 1.

(** ** Checked sizes *)

Definition checked_add_size (a b : Z) : option Z :=
  if SIZE_MAX - b <? a then None else Some (wrap 64 (a + b)).

Definition checked_mul_size (a b : Z) : option Z :=
  if negb (a =? 0) && (SIZE_MAX / a <? b) then None else Some (wrap 64 (a * b)).

(** [page_size] is what [sysconf] answers. *)
Definition page_align_up (page_size v : Z) : option Z :=
  if page_size <=? 0 then None
  else
    let remainder := v mod page_size in
    if remainder =? 0 then Some v else checked_add_size v (page_size - remainder).

(** [off_t] has 64 bits. *)
Definition size_fits_off_t (size : Z) : bool := size <=? INT64_MAX.

Definition size_to_event_delta (size : Z) : option Z := if INT64_MAX <? size then None else Some size.

(** ** The mapping *)

Record PeakMemEvent := mkEvent {
  ts_ns : Z;
  delta : Z;
  current : Z;
  accounting_sequence : Z;
  tid : Z;
  accounting_shard : Z;
  op : Z
}.

Definition sizeof_event : Z := 39.
Definition sizeof_header : Z := 40.
Definition PEAK_MEMLOG_RESERVATION_BLOCK : Z := 64.
Definition PEAK_MEMLOG_BLOCK_THRESHOLD : Z := 65536.
Definition PEAK_MEMLOG_MAX_TRACKED_THREADS : Z := 4096.

Record layout := mkLayout {
  header_bytes : Z;
  capacity_events : Z;
  storage_capacity_events : Z;
  ready_offset : Z;
  map_bytes : Z
}.

(** The slots including the slack for blocks. *)
Definition storage_capacity (capacity : Z) : option Z :=
  if PEAK_MEMLOG_BLOCK_THRESHOLD <=? capacity
  then checked_add_size capacity (PEAK_MEMLOG_MAX_TRACKED_THREADS * (PEAK_MEMLOG_RESERVATION_BLOCK - 1))
  else Some capacity.

(** The sizes [peak_memlog_open] computes; [None] where it disables the log. *)
Definition memlog_layout (page_size capacity : Z) : option layout :=
  match storage_capacity capacity with
  | None => None
  | Some storage =>
      match page_align_up page_size sizeof_header with
      | None => None
      | Some header =>
          if UINT32_MAX <? header then None
          else
            match checked_mul_size storage sizeof_event with
            | None => None
            | Some event_bytes =>
                match checked_add_size header event_bytes with
                | None => None
                | Some ready =>
                    match checked_mul_size storage 1 with
                    | None => None
                    | Some ready_bytes =>
                        match checked_add_size ready ready_bytes with
                        | None => None
                        | Some bytes =>
                            if negb (size_fits_off_t bytes) then None
                            else Some (mkLayout header capacity storage ready bytes)
                        end
                    end
                end
            end
      end
  end.

(** The first byte of a slot, and of its ready flag. *)
Definition slot_offset (l : layout) (index : Z) : Z := header_bytes l + index * sizeof_event.
Definition flag_offset (l : layout) (index : Z) : Z := ready_offset l + index.

(** ** Reservation of slots *)

Record reservations := mkReservations {
  reserved : Z;
  dropped : Z;
  memlog_full : bool;
  (** each thread's block: next slot and end *)
  windows : list (Z * Z);
  (** ghost: the slots given out *)
  handed : list Z
}.

Definition drop_event (r : reservations) : reservations :=
  mkReservations (reserved r) (wrap 64 (dropped r + 1)) (memlog_full r) (windows r) (handed r).

Definition reserve_slot (l : layout) (thread : nat) (r : reservations) : option Z * reservations :=
  let '(next, stop) := default (0, 0) (windows r !! thread) in
  if memlog_full r then (None, drop_event r)
  else
    let blocks := negb (storage_capacity_events l =? capacity_events l) in
    if blocks && negb (next =? stop) then
      (Some next, mkReservations (reserved r) (dropped r) false (<[thread := (next + 1, stop)]> (windows r))
                    (next :: handed r))
    else
      let n := if blocks then PEAK_MEMLOG_RESERVATION_BLOCK else 1 in
      let first := reserved r in
      let r := mkReservations (wrap 64 (first + n)) (dropped r) (memlog_full r) (windows r) (handed r) in
      if storage_capacity_events l <=? first
      then (None, drop_event (mkReservations (reserved r) (dropped r) true (windows r) (handed r)))
      else
        let stop := first + n in
        let stop := if storage_capacity_events l <? stop then storage_capacity_events l else stop in
        (Some first, mkReservations (reserved r) (dropped r) false (<[thread := (first + 1, stop)]> (windows r))
                       (first :: handed r)).

Fixpoint reserve_all (l : layout) (callers : list nat) (r : reservations) : reservations :=
  match callers with
  | [] => r
  | t :: callers => reserve_all l callers (reserve_slot l t r).2
  end.

Definition no_reservations (threads : nat) : reservations :=
  mkReservations 0 0 false (replicate threads (0, 0)) [].

(** ** Export *)

(** The loop of [peak_memlog_compact_committed] from slot [i]. *)
Fixpoint compact_loop (fuel i complete : nat) (events : list PeakMemEvent) : nat * list PeakMemEvent :=
  match fuel with
  | O => (complete, events)
  | S fuel =>
      match events !! i with
      | None => (complete, events)
      | Some source =>
          if op source =? 0 then compact_loop fuel (S i) complete events
          else
            compact_loop fuel (S i) (S complete)
              (if (complete =? i)%nat then events else <[complete := source]> events)
      end
  end.

Definition peak_memlog_compact_committed (l : layout) (r : reservations) (events : list PeakMemEvent)
    : nat * list PeakMemEvent :=
  let n := if storage_capacity_events l <? reserved r then storage_capacity_events l else reserved r in
  compact_loop (Z.to_nat n) 0 0 events.

Definition peak_memlog_event_order_compare (left right : PeakMemEvent) : Z :=
  if negb (ts_ns left =? ts_ns right) then if ts_ns left <? ts_ns right then -1 else 1
  else if (accounting_shard left =? accounting_shard right) && negb (accounting_shard left =? UINT16_MAX) &&
          negb (accounting_sequence left =? accounting_sequence right)
  then if accounting_sequence left <? accounting_sequence right then -1 else 1
  else if negb (accounting_shard left =? accounting_shard right)
  then if accounting_shard left <? accounting_shard right then -1 else 1
  else if negb (accounting_sequence left =? accounting_sequence right)
  then if accounting_sequence left <? accounting_sequence right then -1 else 1
  else if negb (tid left =? tid right) then if tid left <? tid right then -1 else 1
  else 0.

Definition event_le (a b : PeakMemEvent) : Prop := peak_memlog_event_order_compare a b <= 0.
#[export] Instance event_le_dec : RelDecision event_le.
Proof. intros a b; unfold event_le; apply _. Defined.

(** [qsort] with the comparison. *)
Definition sort_events (events : list PeakMemEvent) : list PeakMemEvent := merge_sort event_le events.

Definition with_current (c : Z) (e : PeakMemEvent) : PeakMemEvent :=
  mkEvent (ts_ns e) (delta e) c (accounting_sequence e) (tid e) (accounting_shard e) (op e).

(** One event of the replay: the total after it, and whether it is exact. *)
Definition replay_step (total d : Z) : Z * bool :=
  if 0 <=? d then
    if UINT64_MAX - total <? d then (UINT64_MAX, false) else (total + d, true)
  else
    let decrease := wrap 64 (- (d + 1) + 1) in
    if total <? decrease then (0, false) else (total - decrease, true).

Fixpoint replay_loop (events : list PeakMemEvent) (total maximum : Z) (valid : bool)
    : list PeakMemEvent * Z * bool :=
  match events with
  | [] => ([], maximum, valid)
  | e :: events =>
      let '(total, exact) := replay_step total (delta e) in
      let '(replayed, maximum, valid) :=
        replay_loop events total (if maximum <? total then total else maximum) (valid && exact) in
      (with_current total e :: replayed, maximum, valid)
  end.

(** The events in order with their totals, the maximum, and whether no total
    was clipped ([G_MAXULONG] is [UINT64_MAX]). *)
Definition peak_memlog_replay_accounting (events : list PeakMemEvent) : list PeakMemEvent * Z * bool :=
  replay_loop (sort_events events) 0 0 true.

(** What [peak_memlog_finalize] exports, and the drops it adds. *)
Definition finalize_events (l : layout) (r : reservations) (events : list PeakMemEvent)
    : list PeakMemEvent * Z * Z :=
  let '(complete, events) := peak_memlog_compact_committed l r events in
  let '(complete, dropped) :=
    if capacity_events l <? Z.of_nat complete
    then (Z.to_nat (capacity_events l), wrap 64 (dropped r + (Z.of_nat complete - capacity_events l)))
    else (complete, dropped r) in
  let '(replayed, maximum, _) := peak_memlog_replay_accounting (take complete events) in
  (replayed, maximum, dropped).
