(* ===== verification/MemLogProofs.v ===== *)
(** * The memory event log: layout, slots, export

    The mapping holds every slot and flag; slots are given out once each and
    none is refused before the configured number was given out; compaction
    keeps the completed records in order; the replay gives each event, in the
    order of the comparison, the sum of the changes so far. *)

From stdpp Require Import sorting.
From S2P Require Import Prelude MemLog.

(** ** Sizes *)

Lemma checked_add_spec a b c : 0 <= a -> 0 <= b -> checked_add_size a b = Some c -> c = a + b /\ c <= SIZE_MAX.
Proof.
  unfold checked_add_size, SIZE_MAX, UINT64_MAX; intros Ha Hb; destruct (_ <? _) eqn:E; [discriminate|].
  intros [= <-]; breflect; rewrite wrap_small; lia.
Qed.

Lemma checked_mul_spec a b c :
  0 <= a -> 0 <= b <= SIZE_MAX -> checked_mul_size a b = Some c -> c = a * b /\ c <= SIZE_MAX.
Proof.
  unfold checked_mul_size; intros Ha Hb; destruct (_ && _) eqn:E; [discriminate|]; intros [= <-].
  assert (a * b <= SIZE_MAX) as Hle.
  { apply andb_false_iff in E as [E|E]; breflect; [subst; unfold SIZE_MAX, UINT64_MAX; lia|].
    destruct (Z.eq_dec a 0) as [->|]; [unfold SIZE_MAX, UINT64_MAX; lia|].
    pose proof (Z.mul_div_le SIZE_MAX a ltac:(lia)); nia. }
  rewrite wrap_small; [|unfold SIZE_MAX, UINT64_MAX in *]; nia.
Qed.

Lemma page_align_spec page v c :
  0 <= v -> page_align_up page v = Some c -> 0 < page /\ v <= c < v + page /\ c mod page = 0 .
Proof.
  unfold page_align_up; intros Hv; destruct (page <=? 0) eqn:Ep; [discriminate|].
  assert (0 < page) by (breflect; lia); pose proof (Z.mod_pos_bound v page ltac:(lia)).
  destruct (v mod page =? 0) eqn:Er; breflect; [intros [= <-]; lia|].
  intros Hc; apply checked_add_spec in Hc as [-> _]; [|lia..]; split_and!; try lia.
  replace (v + (page - v mod page)) with ((v / page + 1) * page); [apply Z.mod_mul; lia|].
  pose proof (Z.div_mod v page ltac:(lia)); lia.
Qed.

Definition slack : Z := PEAK_MEMLOG_MAX_TRACKED_THREADS * (PEAK_MEMLOG_RESERVATION_BLOCK - 1).

Lemma storage_spec capacity storage :
  0 <= capacity -> storage_capacity capacity = Some storage ->
  (PEAK_MEMLOG_BLOCK_THRESHOLD <= capacity /\ storage = capacity + slack) \/ storage = capacity.
Proof.
  unfold storage_capacity; intros Hc; destruct (_ <=? _) eqn:E; breflect.
  - intros H; apply checked_add_spec in H as [-> _]; [auto|lia|vm_compute; discriminate].
  - intros [= <-]; auto.
Qed.

(** A layout the code accepts. *)
Record layout_ok (page_size : Z) (l : layout) : Prop := {
  lo_capacity : 0 <= capacity_events l;
  lo_storage : (PEAK_MEMLOG_BLOCK_THRESHOLD <= capacity_events l /\ storage_capacity_events l = capacity_events l + slack) \/
               storage_capacity_events l = capacity_events l;
  lo_header : sizeof_header <= header_bytes l <= UINT32_MAX /\ header_bytes l mod page_size = 0;
  lo_ready : ready_offset l = header_bytes l + storage_capacity_events l * sizeof_event;
  lo_map : map_bytes l = ready_offset l + storage_capacity_events l;
  lo_size : map_bytes l <= INT64_MAX
}.

Lemma memlog_layout_ok page_size capacity l :
  0 <= capacity -> memlog_layout page_size capacity = Some l -> layout_ok page_size l /\ capacity_events l = capacity.
Proof.
  unfold memlog_layout; intros Hc.
  destruct (storage_capacity capacity) as [storage|] eqn:Es; [|discriminate].
  destruct (page_align_up page_size sizeof_header) as [header|] eqn:Eh; [|discriminate].
  destruct (UINT32_MAX <? header) eqn:E32; [discriminate|].
  destruct (checked_mul_size storage sizeof_event) as [eb|] eqn:Ee; [|discriminate].
  destruct (checked_add_size header eb) as [ready|] eqn:Er; [|discriminate].
  destruct (checked_mul_size storage 1) as [rb|] eqn:Erb; [|discriminate].
  destruct (checked_add_size ready rb) as [bytes|] eqn:Eb; [|discriminate].
  destruct (negb (size_fits_off_t bytes)) eqn:Ef; [discriminate|]; intros [= <-].
  apply storage_spec in Es; [|lia]; apply page_align_spec in Eh as (Hp & Hh & Hm); [|vm_compute; discriminate].
  assert (0 <= storage) by (unfold slack, PEAK_MEMLOG_MAX_TRACKED_THREADS, PEAK_MEMLOG_RESERVATION_BLOCK in *; lia).
  apply checked_mul_spec in Ee as [-> _]; [|lia|vm_compute; split; discriminate].
  apply checked_mul_spec in Erb as [-> _]; [|lia|vm_compute; split; discriminate].
  unfold sizeof_header, sizeof_event in *.
  apply checked_add_spec in Er as [-> _]; [|lia..]; apply checked_add_spec in Eb as [-> _]; [|lia..].
  unfold size_fits_off_t in Ef; breflect; split; [constructor; simpl|reflexivity]; unfold sizeof_header, sizeof_event; auto; lia.
Qed.

(** ** Slots are given out once *)

Section slots.
Context (l : layout) (page : Z) (Hl : layout_ok page l).

Definition claimed (r : reservations) : Z := Z.min (reserved r) (storage_capacity_events l).
Definition window_slots (w : Z * Z) : list Z := seqZ w.1 (w.2 - w.1).

Record slots_inv (r : reservations) : Prop := {
  si_slots : handed r ++ concat (map window_slots (windows r)) ≡ₚ seqZ 0 (claimed r);
  si_reserved : 0 <= reserved r;
  si_open : memlog_full r = false -> reserved r < storage_capacity_events l + PEAK_MEMLOG_RESERVATION_BLOCK /\ dropped r = 0;
  si_full : memlog_full r = true -> storage_capacity_events l <= reserved r;
  si_windows : Forall (fun w => 0 <= w.2 - w.1 <= PEAK_MEMLOG_RESERVATION_BLOCK - 1) (windows r);
  si_single : storage_capacity_events l = capacity_events l -> Forall (fun w => w.1 = w.2) (windows r)
}.

Lemma concat_window_insert ws i w w' :
  ws !! i = Some w -> window_slots w ++ concat (map window_slots (<[i := w']> ws)) ≡ₚ
    window_slots w' ++ concat (map window_slots ws).
Proof.
  revert i; induction ws as [|x ws IH]; intros [|i] H; simplify_eq/=.
  - rewrite !app_assoc; apply Permutation_app_tail, Permutation_app_comm.
  - specialize (IH i H). rewrite (Permutation_app_swap_app _ (window_slots x)), IH. apply Permutation_app_swap_app.
Qed.

Lemma window_slots_cons a b : a < b -> window_slots (a, b) = a :: window_slots (a + 1, b).
Proof.
  intros; unfold window_slots; simpl; rewrite (seqZ_cons a) by lia.
  f_equal; f_equal; lia.
Qed.

Lemma window_slots_nil a b : b <= a -> window_slots (a, b) = [].
Proof. intros; unfold window_slots; simpl; apply seqZ_nil; lia. Qed.

Lemma layout_bounds : 0 <= storage_capacity_events l /\ storage_capacity_events l + 2 * PEAK_MEMLOG_RESERVATION_BLOCK < 2 ^ 64.
Proof.
  destruct Hl as [Hc Hs [Hh _] Hr Hm Hb]; unfold slack, PEAK_MEMLOG_MAX_TRACKED_THREADS, PEAK_MEMLOG_RESERVATION_BLOCK in *.
  unfold INT64_MAX, sizeof_event, sizeof_header in *; lia.
Qed.

Lemma drop_inv r : slots_inv r -> memlog_full r = true -> slots_inv (drop_event r).
Proof. intros [] Hf; constructor; simpl; auto; intros; congruence. Qed.

Lemma window_step r t next stop :
  slots_inv r -> memlog_full r = false -> windows r !! t = Some (next, stop) -> next <> stop ->
  storage_capacity_events l <> capacity_events l ->
  slots_inv (mkReservations (reserved r) (dropped r) false (<[t := (next + 1, stop)]> (windows r)) (next :: handed r)).
Proof.
  intros [Hp Hr Ho Hf Hw Hs] Hopen Ht Hne Hblocks.
  pose proof (proj1 (Forall_lookup _ _) Hw t _ Ht) as Hwt; simpl in Hwt.
  constructor; simpl; auto; try congruence.
  - rewrite <- Hp. pose proof (concat_window_insert _ t _ (next + 1, stop) Ht) as HC.
    rewrite (window_slots_cons next stop) in HC by lia; simpl in HC.
    rewrite Permutation_middle in HC; apply Permutation_app_inv_l in HC; rewrite <- HC.
    apply Permutation_middle.
  - apply Forall_insert; [exact Hw|simpl; lia].
Qed.

Lemma block_step r t next stop n :
  slots_inv r -> memlog_full r = false -> windows r !! t = Some (next, stop) -> next = stop ->
  reserved r < storage_capacity_events l -> 0 < n <= PEAK_MEMLOG_RESERVATION_BLOCK ->
  (storage_capacity_events l = capacity_events l -> n = 1) ->
  let stop' := if storage_capacity_events l <? reserved r + n then storage_capacity_events l else reserved r + n in
  slots_inv (mkReservations (wrap 64 (reserved r + n)) (dropped r) false
    (<[t := (reserved r + 1, stop')]> (windows r)) (reserved r :: handed r)).
Proof.
  intros [Hp Hr Ho Hf Hw Hs] Hopen Ht -> Hroom Hn Hone stop'.
  pose proof layout_bounds as [Hb Hb'].
  assert (Hstop : stop' = Z.min (reserved r + n) (storage_capacity_events l)).
  { subst stop'; destruct (_ <? _) eqn:E; breflect; lia. }
  clearbody stop'; rewrite wrap_small by lia.
  constructor; simpl; unfold claimed; simpl; try lia; try (intros; congruence).
  - pose proof (concat_window_insert _ t _ (reserved r + 1, stop') Ht) as HC.
    rewrite (window_slots_nil stop stop) in HC by lia; simpl in HC; rewrite HC, <- Hstop.
    transitivity ((handed r ++ concat (map window_slots (windows r))) ++ window_slots (reserved r, stop')).
    + rewrite (window_slots_cons (reserved r) stop') by lia.
      rewrite <- app_assoc, <- (Permutation_middle (concat _)), <- (Permutation_middle (handed r)).
      constructor; apply Permutation_app_head, Permutation_app_comm.
    + rewrite Hp; unfold claimed, window_slots; simpl; rewrite Z.min_l by lia.
      rewrite <- (seqZ_app 0 (reserved r)) by lia. f_equiv; f_equal; lia.
  - intros _; split; [lia|tauto].
  - apply Forall_insert; [exact Hw|simpl; lia].
  - intros Heq; apply Forall_insert; [auto|simpl; specialize (Hone Heq); lia].
Qed.

Lemma reserve_inv r t :
  slots_inv r -> (t < length (windows r))%nat ->
  slots_inv (reserve_slot l t r).2 /\ length (windows (reserve_slot l t r).2) = length (windows r).
Proof.
  intros Hinv Ht; destruct (lookup_lt_is_Some_2 _ _ Ht) as [[next stop] Hw]; unfold reserve_slot; rewrite Hw; simpl.
  destruct (memlog_full r) eqn:Hfull; [split; [apply drop_inv; auto|reflexivity]|].
  destruct (storage_capacity_events l =? capacity_events l) eqn:Eb; simpl; [|destruct (next =? stop) eqn:En; simpl];
    breflect; try (split; [apply window_step; auto|simpl; apply length_insert]).
  all: destruct (storage_capacity_events l <=? reserved r) eqn:Es; simpl; breflect;
    [|split; [eapply block_step; eauto; try lia; unfold PEAK_MEMLOG_RESERVATION_BLOCK; try lia|apply length_insert]].
  1,3: split; [|reflexivity]; apply drop_inv; [|reflexivity]; destruct Hinv as [Hp Hr Ho Hf Hwi Hs]; destruct (Ho Hfull);
    pose proof layout_bounds; unfold PEAK_MEMLOG_RESERVATION_BLOCK in *;
    rewrite wrap_small by lia; constructor; simpl; unfold claimed in *; simpl; auto; try lia; try congruence;
    rewrite Z.min_r in * by lia; exact Hp.
  - destruct Hinv; pose proof (proj1 (Forall_lookup _ _) (si_single0 Eb) t _ Hw); auto.
Qed.
End slots.

(** A slot is handed out while the log is not full, or the event is counted as
    dropped and the log is full. *)
Lemma reserve_outcome l t r :
  let r' := (reserve_slot l t r).2 in
  length (windows r') = length (windows r) /\
  match (reserve_slot l t r).1 with
  | Some k => handed r' = k :: handed r /\ dropped r' = dropped r /\ memlog_full r = false
  | None => handed r' = handed r /\ dropped r' = wrap 64 (dropped r + 1) /\ memlog_full r' = true
  end.
Proof.
  unfold reserve_slot; destruct (default _ _) as [next stop]; destruct (memlog_full r) eqn:Ef; [repeat split; exact Ef|]; cbv zeta.
  destruct (_ && _); simpl; [rewrite length_insert; auto|].
  destruct (_ <=? _); simpl; [auto|rewrite length_insert; auto].
Qed.

Lemma no_reservations_inv l page n : layout_ok page l -> slots_inv l (no_reservations n).
Proof.
  intros Hl; pose proof (layout_bounds l page Hl); unfold PEAK_MEMLOG_RESERVATION_BLOCK in *.
  constructor; simpl; unfold claimed; simpl; try lia; try congruence.
  - rewrite Z.min_l by lia; simpl; induction n; [reflexivity|exact IHn].
  - unfold PEAK_MEMLOG_RESERVATION_BLOCK; split; [lia|reflexivity].
  - apply Forall_replicate; simpl; unfold PEAK_MEMLOG_RESERVATION_BLOCK; lia.
  - intros; apply Forall_replicate; reflexivity.
Qed.

Lemma reserve_all_inv l page callers r :
  layout_ok page l -> slots_inv l r -> Forall (fun t => (t < length (windows r))%nat) callers ->
  slots_inv l (reserve_all l callers r) /\ length (windows (reserve_all l callers r)) = length (windows r).
Proof.
  intros Hl; revert r; induction callers as [|t callers IH]; intros r Hinv Hall; [auto|].
  apply Forall_cons in Hall as [Ht Hall]; destruct (reserve_inv l page Hl r t Hinv Ht) as [Hinv' Hlen].
  simpl; rewrite <- Hlen; apply IH; [exact Hinv'|rewrite Hlen; exact Hall].
Qed.

Lemma windows_length ws b :
  Forall (fun w => 0 <= w.2 - w.1 <= b) ws -> Z.of_nat (length (concat (map window_slots ws))) <= b * Z.of_nat (length ws).
Proof.
  induction 1 as [|w ws Hw _ IH]; simpl; [lia|].
  rewrite length_app; unfold window_slots at 1; rewrite length_seqZ; lia.
Qed.

Lemma full_gave_capacity l page r :
  layout_ok page l -> slots_inv l r -> memlog_full r = true ->
  Z.of_nat (length (windows r)) <= PEAK_MEMLOG_MAX_TRACKED_THREADS ->
  capacity_events l <= Z.of_nat (length (handed r)).
Proof.
  intros Hl [Hp Hr _ Hf Hw Hs] Hfull Hthreads; specialize (Hf Hfull).
  apply Permutation_length in Hp; rewrite length_app, length_seqZ in Hp; unfold claimed in Hp; rewrite Z.min_r in Hp by lia.
  destruct (lo_storage _ _ Hl) as [[_ Hst]|Hst].
  - apply windows_length in Hw; rewrite Hst in Hp; unfold slack in Hp.
    unfold PEAK_MEMLOG_MAX_TRACKED_THREADS, PEAK_MEMLOG_RESERVATION_BLOCK in *.
    pose proof (lo_capacity _ _ Hl); lia.
  - assert (Hz : Forall (fun w => 0 <= w.2 - w.1 <= 0) (windows r)).
    { eapply Forall_impl; [exact (Hs Hst)|]; simpl; lia. }
    apply windows_length in Hz; pose proof (lo_capacity _ _ Hl); lia.
Qed.

(** the mapping and its slots: whatever threads log in whatever order, each
    slot is given out once and lies with its flag inside the mapping, apart
    from the other slots' bytes and from the header; and, with at most the 4096
    threads the slack is made for, no event is refused before the configured
    number of slots has been given out. *)
Theorem memlog_slots_exact page_size capacity l threads callers :
  0 <= capacity -> memlog_layout page_size capacity = Some l ->
  Z.of_nat threads <= PEAK_MEMLOG_MAX_TRACKED_THREADS -> Forall (fun t => (t < threads)%nat) callers ->
  let r := reserve_all l callers (no_reservations threads) in
  NoDup (handed r) /\
  (forall i, i ∈ handed r -> header_bytes l <= slot_offset l i /\ slot_offset l i + sizeof_event <= ready_offset l /\
    ready_offset l <= flag_offset l i < map_bytes l /\ map_bytes l <= INT64_MAX) /\
  (memlog_full r = false -> dropped r = 0) /\
  (memlog_full r = true -> capacity <= Z.of_nat (length (handed r))).
Proof.
  intros Hc Hlay Hthreads Hcallers r; apply memlog_layout_ok in Hlay as [Hl <-]; [|exact Hc].
  assert (Hlen : length (windows (no_reservations threads)) = threads) by apply length_replicate.
  destruct (reserve_all_inv l page_size callers (no_reservations threads) Hl (no_reservations_inv l page_size threads Hl))
    as [Hinv Hlr]; [rewrite Hlen; exact Hcallers|].
  fold r in Hinv, Hlr; rewrite Hlen in Hlr.
  pose proof (si_slots _ _ Hinv) as Hp; split_and!.
  - pose proof (NoDup_seqZ 0 (claimed l r)) as Hnd; rewrite <- Hp in Hnd; apply NoDup_app in Hnd; tauto.
  - intros i Hi; assert (Hin : i ∈ seqZ 0 (claimed l r)) by (rewrite <- Hp; apply elem_of_app; auto).
    apply elem_of_seqZ in Hin; unfold claimed in Hin; destruct Hl as [_ _ [Hh _] Hr Hm Hs].
    unfold slot_offset, flag_offset, sizeof_event in *; lia.
  - intros Hf; apply (si_open _ _ Hinv Hf).
  - intros Hf; eapply full_gave_capacity; eauto; rewrite Hlr; exact Hthreads.
Qed.

Lemma memlog_slots_exact_witness :
  let l := default (mkLayout 0 0 0 0 0) (memlog_layout 4096 3) in
  let r := reserve_all l [0; 1; 0; 1; 1]%nat (no_reservations 2) in
  handed r = [2; 1; 0] /\ dropped r = 2 /\ NoDup (handed r).
Proof.
  split; [vm_compute; reflexivity|split; [vm_compute; reflexivity|]].
  apply (memlog_slots_exact 4096 3); [lia|vm_compute; reflexivity|vm_compute; discriminate|].
  repeat constructor; lia.
Defined.

(** ** Compaction *)

Definition completed (e : PeakMemEvent) : Prop := op e <> 0.
#[export] Instance completed_dec e : Decision (completed e).
Proof. unfold completed; apply _. Defined.

Lemma compact_loop_spec orig fuel i complete ev :
  (complete <= i)%nat -> take complete ev = filter completed (take i orig) -> drop i ev = drop i orig ->
  let '(c, ev') := compact_loop fuel i complete ev in take c ev' = filter completed (take (i + fuel) orig).
Proof.
  revert i complete ev; induction fuel as [|fuel IH]; intros i complete ev Hc Ht Hd; cbn [compact_loop].
  { rewrite Nat.add_0_r; exact Ht. }
  assert (Hi : orig !! i = ev !! i) by (rewrite <- (Nat.add_0_r i), <- !lookup_drop, Hd; reflexivity).
  assert (HdS : drop (S i) ev = drop (S i) orig) by (rewrite <- (Nat.add_1_r i), <- !drop_drop, Hd; reflexivity).
  destruct (ev !! i) as [source|] eqn:E.
  - assert (Hf : filter completed (take (S i) orig) = take complete ev ++ filter completed [source]).
    { rewrite (take_S_r _ _ _ Hi), filter_app, Ht; reflexivity. }
    rewrite <- Nat.add_succ_comm; destruct (op source =? 0) eqn:Eop; breflect.
    + apply IH; [lia| |exact HdS].
      rewrite Hf, filter_cons_False, app_nil_r; [reflexivity|unfold completed; lia].
    + rewrite filter_cons_True in Hf by (unfold completed; lia); apply IH; [lia|..]; rewrite ?Hf.
      * destruct (complete =? i)%nat eqn:Ec; breflect; [subst; apply take_S_r, E|].
        rewrite (take_S_r _ _ source); [rewrite take_insert_ge by lia; reflexivity|].
        apply list_lookup_insert_eq; apply lookup_lt_Some in E; lia.
      * destruct (complete =? i)%nat eqn:Ec; breflect; [exact HdS|].
        rewrite drop_insert_lt by lia; exact HdS.
  - rewrite Ht; f_equal; apply lookup_ge_None in Hi; rewrite !take_ge by lia; reflexivity.
Qed.

Lemma compact_is_filter l r events :
  let '(c, ev) := peak_memlog_compact_committed l r events in
  take c ev = filter completed (take (Z.to_nat (claimed l r)) events).
Proof.
  unfold peak_memlog_compact_committed.
  replace (if storage_capacity_events l <? reserved r then storage_capacity_events l else reserved r)
    with (claimed l r) by (unfold claimed; destruct (_ <? _) eqn:E; breflect; lia).
  apply (compact_loop_spec events); [lia|reflexivity..].
Qed.

(** ** The order of events *)

(** The comparison is the lexicographic order of time, shard, sequence and
    thread, so [qsort] may be used with it. *)
Lemma event_le_lexicographic a b :
  event_le a b <->
  ts_ns a < ts_ns b \/ (ts_ns a = ts_ns b /\ (accounting_shard a < accounting_shard b \/
    (accounting_shard a = accounting_shard b /\ (accounting_sequence a < accounting_sequence b \/
      (accounting_sequence a = accounting_sequence b /\ tid a <= tid b))))).
Proof.
  unfold event_le, peak_memlog_event_order_compare.
  repeat match goal with
  | |- context [?x =? ?y] => destruct (Z.eqb_spec x y); simpl
  | |- context [?x <? ?y] => destruct (Z.ltb_spec x y); simpl
  end; lia.
Qed.

#[export] Instance event_le_total : Total event_le.
Proof. intros a b; rewrite !event_le_lexicographic; lia. Qed.
#[export] Instance event_le_trans : Transitive event_le.
Proof. intros a b c; rewrite !event_le_lexicographic; lia. Qed.

(** ** The replay *)

(** The totals after each event, without clipping. *)
Fixpoint totals (total : Z) (ds : list Z) : list Z :=
  match ds with [] => [] | d :: ds => (total + d) :: totals (total + d) ds end.

Definition exact_total (t : Z) : bool := (0 <=? t) && (t <=? UINT64_MAX).
Definition int64 (d : Z) : Prop := - 2 ^ 63 <= d <= INT64_MAX.

Lemma replay_step_spec total d :
  0 <= total <= UINT64_MAX -> int64 d ->
  (replay_step total d).2 = exact_total (total + d) /\ 0 <= (replay_step total d).1 <= UINT64_MAX /\
  ((replay_step total d).2 = true -> (replay_step total d).1 = total + d).
Proof.
  unfold replay_step, exact_total, int64, INT64_MAX, UINT64_MAX; intros Ht Hd.
  destruct (0 <=? d) eqn:E0; breflect.
  - destruct (_ <? d) eqn:E1; breflect; simpl; split_and!; try lia; try discriminate.
  - rewrite wrap_small by lia; destruct (_ <? _) eqn:E1; breflect; simpl; split_and!; try lia; try discriminate.
Qed.

Lemma replay_loop_spec events total maximum valid :
  0 <= total <= UINT64_MAX -> Forall (fun e => int64 (delta e)) events ->
  let ts := totals total (map delta events) in
  let '(replayed, maximum', valid') := replay_loop events total maximum valid in
  valid' = valid && forallb exact_total ts /\
  (valid' = true -> replayed = zip_with with_current ts events /\ maximum' = foldl Z.max maximum ts).
Proof.
  intros Ht Hall; revert total maximum valid Ht; induction Hall as [|e events He _ IH]; intros total maximum valid Ht;
    cbn [replay_loop totals map forallb foldl zip_with].
  { rewrite andb_true_r; auto. }
  destruct (replay_step_spec total (delta e) Ht He) as (Hex & Hr & Heq).
  destruct (replay_step total (delta e)) as [t' exact]; simpl in *.
  specialize (IH t' (if maximum <? t' then t' else maximum) (valid && exact) Hr).
  destruct (replay_loop events t' _ _) as [[replayed maximum'] valid']; destruct IH as [Hv Hrest].
  destruct exact; [specialize (Heq eq_refl); subst t'; rewrite <- Hex; simpl|rewrite <- Hex in *; simpl in *].
  - rewrite andb_true_r in Hv; split; [exact Hv|]; intros Hvalid; destruct (Hrest Hvalid) as [-> ->]; split; [reflexivity|].
    f_equal; destruct (_ <? _) eqn:E; breflect; lia.
  - rewrite andb_false_r in *; simpl in Hv; split; [exact Hv|congruence].
Qed.

(** C26: the replay of the log: the events come out sorted by time (ties by
    shard, sequence and thread), each with the sum of all changes up to it, and
    the maximum is the largest of these sums; it is flagged as invalid exactly
    when one of the sums leaves the range of the counter. *)
Theorem replay_accounts_exactly events :
  Forall (fun e => int64 (delta e)) events ->
  let sorted := sort_events events in
  let ts := totals 0 (map delta sorted) in
  let '(replayed, maximum, valid) := peak_memlog_replay_accounting events in
  sorted ≡ₚ events /\ StronglySorted event_le sorted /\
  (valid = true <-> Forall (fun t => 0 <= t <= UINT64_MAX) ts) /\
  (valid = true -> replayed = zip_with with_current ts sorted /\ maximum = foldl Z.max 0 ts).
Proof.
  intros Hall sorted ts; unfold peak_memlog_replay_accounting; fold sorted.
  assert (Hperm : sorted ≡ₚ events) by apply merge_sort_Permutation.
  assert (Hall' : Forall (fun e => int64 (delta e)) sorted) by (rewrite Hperm; exact Hall).
  pose proof (replay_loop_spec sorted 0 0 true ltac:(unfold UINT64_MAX; lia) Hall') as Hspec; fold ts in Hspec.
  destruct (replay_loop sorted 0 0 true) as [[replayed maximum] valid]; destruct Hspec as [-> Hrest].
  split_and!; [exact Hperm|apply StronglySorted_merge_sort; apply _| |exact Hrest].
  simpl; clear Hrest; induction ts as [|t ts' IH]; simpl.
  - split; constructor.
  - rewrite andb_true_iff, IH, Forall_cons; unfold exact_total; rewrite andb_true_iff, !Z.leb_le; reflexivity.
Qed.

Definition demo_events : list PeakMemEvent :=
  [mkEvent 30 (-100) 0 1 7 5 2; mkEvent 10 100 0 0 7 5 1; mkEvent 20 50 0 0 8 9 1].

Lemma replay_accounts_exactly_witness :
  let '(replayed, maximum, valid) := peak_memlog_replay_accounting demo_events in
  valid = true /\ map current replayed = [100; 150; 50] /\ maximum = 150 /\ sort_events demo_events ≡ₚ demo_events.
Proof.
  assert (Hall : Forall (fun e => int64 (delta e)) demo_events).
  { unfold demo_events, int64; rewrite !Forall_cons, Forall_nil; vm_compute; intuition discriminate. }
  pose proof (replay_accounts_exactly demo_events Hall) as H.
  destruct (peak_memlog_replay_accounting demo_events) as [[replayed maximum] valid] eqn:E.
  assert (Hrun : (map current replayed, maximum, valid) = ([100; 150; 50], 150, true)).
  { transitivity (let '(r, m, v) := peak_memlog_replay_accounting demo_events in (map current r, m, v));
      [rewrite E; reflexivity|vm_compute; reflexivity]. }
  injection Hrun as -> -> ->; split_and!; try reflexivity; apply H.
Defined.
