(* ===== verification/MemRadix.v ===== *)
(** * The table of tracked allocations

    Models [tracking_radix_slot], [tracking_radix_insert] and
    [tracking_radix_remove] of [src/malloc_interceptor.c]: a radix tree of seven levels over the 64-bit
    address, whose nodes are installed by compare-and-exchange.  Memory is the
    contents of the nodes' slots; a running operation is a place in its walk,
    and each step of it is one atomic access (an allocation with its clearing
    is one step: the node is private).  The allocator's answer is an argument
    of the step. *)

From S2P Require Import Prelude.

Definition PEAK_TRACKING_RADIX_BITS : Z := 10.
Definition PEAK_TRACKING_RADIX_SIZE : nat := 1024.
Definition PEAK_TRACKING_RADIX_LEVELS : nat := 7.

(** The index of a key at a level. *)
Definition digit (key : Z) (level : nat) : Z :=
  Z.land (Z.shiftr key (Z.of_nat level * PEAK_TRACKING_RADIX_BITS)) (Z.of_nat PEAK_TRACKING_RADIX_SIZE - 1).

(** [slots] of every node, and the nodes allocated. *)
Record radix := mkRadix {
  slots : Z -> Z -> Z;
  allocated : list Z
}.

(** The address of [tracking_root]. *)
Definition tracking_root : Z := 1.
Definition empty_radix : radix := mkRadix (fun _ _ => 0) [tracking_root].

Definition store (f : Z -> Z -> Z) (node index value : Z) : Z -> Z -> Z :=
  fun n i => if (n =? node) && (i =? index) then value else f n i.
Definition clear_node (f : Z -> Z -> Z) (node : Z) : Z -> Z -> Z := fun n i => if n =? node then 0 else f n i.

Inductive operation := Insert (size : Z) | Remove.

(** A walk at a node with the levels below it; about to install a node it
    allocated; finished with its answer. *)
Inductive walk :=
  | Walking (level : nat) (node : Z)
  | Installing (level : nat) (node new : Z)
  | Finished (answer : option Z).

Definition start_walk (op : operation) : walk :=
  match op with
  | Insert size => if size =? SIZE_MAX then Finished None else Walking (pred PEAK_TRACKING_RADIX_LEVELS) tracking_root
  | Remove => Walking (pred PEAK_TRACKING_RADIX_LEVELS) tracking_root
  end.

(** [tracking_radix_allocate_node], when the allocator gives [node]. *)
Definition tracking_radix_allocate_node (node : Z) (r : radix) : radix :=
  mkRadix (clear_node (slots r) node) (node :: allocated r).

(** The access to the slot: the compare-and-exchange of an insertion, the
    exchange of a removal; an insertion answers the size it stored. *)
Definition slot_access (op : operation) (node index : Z) (r : radix) : radix * option Z :=
  let encoded := slots r node index in
  match op with
  | Insert size =>
      if encoded =? 0 then (mkRadix (store (slots r) node index (wrap 64 (size + 1))) (allocated r), Some size)
      else (r, None)
  | Remove =>
      (mkRadix (store (slots r) node index 0) (allocated r),
       if encoded =? 0 then None else Some (encoded - 1))
  end.

(** One step; [memory] is the allocator's answer, 0 for NULL. *)
Definition walk_step (op : operation) (key memory : Z) (w : walk) (r : radix) : radix * walk :=
  match w with
  | Walking O node =>
      let '(r, answer) := slot_access op node (digit key 0) r in (r, Finished answer)
  | Walking (S below as level) node =>
      let child := slots r node (digit key level) in
      if child =? 0 then
        match op with
        | Remove => (r, Finished None)
        | Insert _ =>
            if memory =? 0 then (r, Finished None)
            else (tracking_radix_allocate_node memory r, Installing level node memory)
        end
      else (r, Walking below child)
  | Installing level node new =>
      let expected := slots r node (digit key level) in
      if expected =? 0 then (mkRadix (store (slots r) node (digit key level) new) (allocated r), Walking (pred level) new)
      else (mkRadix (slots r) (remove Z.eq_dec new (allocated r)), Walking (pred level) expected)
  | Finished answer => (r, Finished answer)
  end.

(** ** Concurrent operations *)

Record call := mkCall {
  call_op : operation;
  call_key : Z;
  call_walk : walk
}.

Record table := mkTable {
  tree : radix;
  calls : list call
}.

(** The allocator answers NULL or memory that is not in use. *)
Definition fresh (memory : Z) (r : radix) : Prop := memory = 0 \/ (0 < memory /\ memory ∉ allocated r).

Inductive table_step : table -> table -> Prop :=
  | StepWalk s i c memory r w :
      calls s !! i = Some c -> fresh memory (tree s) ->
      walk_step (call_op c) (call_key c) memory (call_walk c) (tree s) = (r, w) ->
      table_step s (mkTable r (<[i := mkCall (call_op c) (call_key c) w]> (calls s)))
  | StepCall s op key :
      is_u64 key -> match op with Insert size => is_u64 size | Remove => True end ->
      table_step s (mkTable (tree s) (calls s ++ [mkCall op key (start_walk op)])).

Inductive table_steps : table -> table -> Prop :=
  | TableRefl s : table_steps s s
  | TableTrans s s' s'' : table_steps s s' -> table_step s' s'' -> table_steps s s''.

Definition empty_table : table := mkTable empty_radix [].

(** ** What the table holds *)

(** The node reached from [node] by indices; 0 when there is none. *)
Fixpoint follow (f : Z -> Z -> Z) (node : Z) (path : list Z) : Z :=
  match path with
  | [] => node
  | d :: path => let child := f node d in if child =? 0 then 0 else follow f child path
  end.

(** The indices above the last node. *)
Definition path (key : Z) : list Z := map (digit key) [6; 5; 4; 3; 2; 1]%nat.

Definition contents (r : radix) (key : Z) : option Z :=
  let leaf := follow (slots r) tracking_root (path key) in
  if leaf =? 0 then None
  else let encoded := slots r leaf (digit key 0) in if encoded =? 0 then None else Some (encoded - 1).
