(* ===== verification/MemRadixProofs.v ===== *)
(** * The table of tracked allocations implements an atomic map

    The nodes form a tree in which every node has one path; nodes are only
    added, so a walk stays on the path of its key; a node that lost the race
    to be installed was never reachable.  Each step of an operation leaves the
    map the table stands for as it is, except its access to the slot, which is
    the insertion or removal on the map. *)

From S2P Require Import Prelude MemRadix.

(** ** Digits determine the key *)

Lemma digit_testbit key level i :
  0 <= i < 10 -> Z.testbit (digit key level) i = Z.testbit key (i + Z.of_nat level * 10).
Proof.
  intros Hi; unfold digit; rewrite Z.land_spec, Z.shiftr_spec by lia.
  change (Z.of_nat PEAK_TRACKING_RADIX_SIZE - 1) with (Z.ones 10); rewrite Z.ones_spec_low by lia.
  apply andb_true_r.
Qed.

Lemma digits_inj key key' :
  is_u64 key -> is_u64 key' -> path key = path key' -> digit key 0 = digit key' 0 -> key = key'.
Proof.
  unfold is_u64, UINT64_MAX; intros Hk Hk' Hp H0; apply Z.bits_inj'; intros i Hi.
  destruct (Z_lt_ge_dec i 64) as [Hlt|Hge].
  - assert (Hd : forall level, (level < 7)%nat -> digit key level = digit key' level).
    { unfold path in Hp; simpl in Hp; injection Hp; intros.
      destruct level as [|[|[|[|[|[|[|]]]]]]]; try assumption; lia. }
    specialize (Hd (Z.to_nat (i / 10))). pose proof (Z.div_mod i 10 ltac:(lia)). pose proof (Z.mod_pos_bound i 10 ltac:(lia)).
    assert (i / 10 < 7) by (apply Z.div_lt_upper_bound; lia). assert (0 <= i / 10) by (apply Z.div_pos; lia).
    specialize (Hd ltac:(lia)).
    replace i with (i mod 10 + Z.of_nat (Z.to_nat (i / 10)) * 10) by lia.
    rewrite <- !digit_testbit by lia; rewrite Hd; reflexivity.
  - destruct (Z.eq_dec key 0) as [->|], (Z.eq_dec key' 0) as [->|]; rewrite ?Z.bits_0; auto;
      rewrite ?(Z.bits_above_log2 key), ?(Z.bits_above_log2 key'); try lia; try reflexivity;
      apply Z.log2_lt_pow2; try lia; apply Z.lt_le_trans with (2 ^ 64); try lia; apply Z.pow_le_mono_r; lia.
Qed.

#[local] Arguments path : simpl never.

Lemma path_length key : length (path key) = 6%nat.
Proof. reflexivity. Qed.

(** ** Following indices *)

Abbreviation at_ f p := (follow f tracking_root p).

Lemma follow_snoc f n p d :
  n <> 0 -> follow f n (p ++ [d]) = if follow f n p =? 0 then 0 else f (follow f n p) d.
Proof.
  revert n; induction p as [|e p IH]; intros n Hn; simpl.
  - destruct (n =? 0) eqn:E, (f n d =? 0) eqn:E'; breflect; congruence.
  - destruct (f n e =? 0) eqn:E; [reflexivity|]; breflect; apply IH; exact E.
Qed.

Lemma at_snoc f p d : at_ f (p ++ [d]) = if at_ f p =? 0 then 0 else f (at_ f p) d.
Proof. apply follow_snoc; discriminate. Qed.

Lemma at_prefix f p d : at_ f (p ++ [d]) <> 0 -> at_ f p <> 0 /\ f (at_ f p) d = at_ f (p ++ [d]).
Proof. rewrite at_snoc; destruct (at_ f p =? 0) eqn:E; breflect; [congruence|auto]. Qed.

Lemma store_same f n i v : store f n i v n i = v.
Proof. unfold store; rewrite !Z.eqb_refl; reflexivity. Qed.
Lemma store_other f n i v m j : m <> n \/ j <> i -> store f n i v m j = f m j.
Proof. unfold store; destruct (Z.eqb_spec m n), (Z.eqb_spec j i); simpl; tauto. Qed.

(** ** The tree *)

Record tree_ok (r : radix) : Prop := {
  tk_allocated : forall p, (length p <= 6)%nat -> at_ (slots r) p <> 0 -> at_ (slots r) p ∈ allocated r;
  tk_unique : forall p q, (length p <= 6)%nat -> (length q <= 6)%nat ->
    at_ (slots r) p = at_ (slots r) q -> at_ (slots r) p <> 0 -> p = q
}.

(** A node that is not installed yet. *)
Record private (r : radix) (a : Z) : Prop := {
  pv_nonzero : a <> 0;
  pv_allocated : a ∈ allocated r;
  pv_empty : forall i, slots r a i = 0;
  pv_hidden : forall p, (length p <= 6)%nat -> at_ (slots r) p <> a
}.

(** What the nodes reached before still are. *)
Definition extends (r r' : radix) : Prop :=
  forall p, (length p <= 6)%nat -> at_ (slots r) p <> 0 -> at_ (slots r') p = at_ (slots r) p.

Lemma at_ext f f' :
  (forall p d, (length p < 6)%nat -> at_ f p <> 0 -> f' (at_ f p) d = f (at_ f p) d) ->
  forall p, (length p <= 6)%nat -> at_ f' p = at_ f p.
Proof.
  intros Heq p; induction p as [|d p IH] using rev_ind; intros Hp; [reflexivity|].
  rewrite length_app in Hp; simpl in Hp; rewrite !at_snoc, IH by lia.
  destruct (at_ f p =? 0) eqn:E; [reflexivity|]; breflect; apply Heq; [lia|exact E].
Qed.

(** *** A node is allocated *)

Section allocate.
Context (r : radix) (a : Z) (Hok : tree_ok r) (Ha : a <> 0) (Hfresh : a ∉ allocated r).
Let r' := tracking_radix_allocate_node a r.

Lemma allocate_at p : (length p <= 6)%nat -> at_ (slots r') p = at_ (slots r) p.
Proof.
  apply at_ext; intros q d Hq Hn; simpl; unfold clear_node.
  destruct (Z.eqb_spec (at_ (slots r) q) a) as [E|]; [|reflexivity].
  exfalso; apply Hfresh; rewrite <- E; apply (tk_allocated r Hok); [lia|exact Hn].
Qed.

Lemma allocate_ok : tree_ok r' /\ extends r r' /\ private r' a.
Proof.
  split_and!; [constructor|..].
  - intros p Hp; rewrite allocate_at by exact Hp; intros Hn; simpl; right; apply (tk_allocated r Hok); assumption.
  - intros p q Hp Hq; rewrite !allocate_at by assumption; apply (tk_unique r Hok); assumption.
  - intros p Hp _; apply allocate_at, Hp.
  - constructor; [exact Ha|left| |].
    + intros i; simpl; unfold clear_node; rewrite Z.eqb_refl; reflexivity.
    + intros p Hp; rewrite allocate_at by exact Hp; intros E.
      apply Hfresh; rewrite <- E; apply (tk_allocated r Hok); [exact Hp|congruence].
Qed.

Lemma allocate_private b : private r b -> private r' b.
Proof.
  intros [Hn Hb He Hh]; constructor; [exact Hn|right; exact Hb| |].
  - intros i; simpl; unfold clear_node; destruct (b =? a); auto.
  - intros p Hp; rewrite allocate_at by exact Hp; auto.
Qed.

Lemma allocate_contents key : contents r' key = contents r key.
Proof.
  unfold contents; rewrite allocate_at by (rewrite path_length; lia).
  destruct (at_ (slots r) (path key) =? 0) eqn:E; [reflexivity|]; breflect.
  change (slots r') with (clear_node (slots r) a); unfold clear_node.
  destruct (Z.eqb_spec (at_ (slots r) (path key)) a) as [Eq|]; [|reflexivity].
  exfalso; apply Hfresh; rewrite <- Eq; apply (tk_allocated r Hok); [rewrite path_length; lia|exact E].
Qed.
End allocate.

(** *** A node is freed that lost the race *)

Lemma discard_ok r a (r' := mkRadix (slots r) (remove Z.eq_dec a (allocated r))) :
  tree_ok r -> private r a -> tree_ok r' /\ extends r r' /\ (forall b, private r b -> b <> a -> private r' b) /\
  (forall key, contents r' key = contents r key).
Proof.
  intros Hok [_ _ _ Hh].
  assert (Hrm : forall b, b ∈ allocated r -> b <> a -> b ∈ remove Z.eq_dec a (allocated r)).
  { intros b Hb Hne; apply list_elem_of_In, in_in_remove; [exact Hne|apply list_elem_of_In, Hb]. }
  split_and!; [constructor|..]; simpl.
  - intros p Hp Hn; apply Hrm; [apply (tk_allocated r Hok); assumption|apply Hh, Hp].
  - apply (tk_unique r Hok).
  - intros p _ _; reflexivity.
  - intros b [Hn Hb He Hhid] Hne; constructor; auto.
  - reflexivity.
Qed.

(** *** A node is installed *)

Section install.
Context (r : radix) (p : list Z) (d a : Z).
Context (Hok : tree_ok r) (Hp : (length p < 6)%nat) (Hn : at_ (slots r) p <> 0).
Context (Hfree : slots r (at_ (slots r) p) d = 0) (Hpriv : private r a).
Let r' := mkRadix (store (slots r) (at_ (slots r) p) d a) (allocated r).

Lemma install_keeps q : (length q <= 6)%nat -> at_ (slots r) q <> 0 -> at_ (slots r') q = at_ (slots r) q.
Proof.
  induction q as [|e q IH] using rev_ind; intros Hq Hnz; [reflexivity|].
  rewrite length_app in Hq; simpl in Hq; destruct (at_prefix _ _ _ Hnz) as [Hqz Hval].
  rewrite !at_snoc, IH by (lia || assumption); destruct (_ =? 0); [reflexivity|].
  simpl; apply store_other; destruct (Z.eq_dec (at_ (slots r) q) (at_ (slots r) p)) as [E|]; [|auto].
  right; intros ->; rewrite E, Hfree in Hval; congruence.
Qed.

Lemma install_new q :
  (length q <= 6)%nat -> at_ (slots r') q <> 0 -> at_ (slots r') q = at_ (slots r) q \/ (q = p ++ [d] /\ at_ (slots r') q = a).
Proof.
  induction q as [|e q IH] using rev_ind; intros Hq Hnz; [left; reflexivity|].
  rewrite length_app in Hq; simpl in Hq; destruct (at_prefix _ _ _ Hnz) as [Hqz Hval].
  rewrite <- Hval; destruct (IH ltac:(lia) Hqz) as [E|[-> E]].
  - rewrite E in *; rewrite (at_snoc (slots r)); destruct (at_ (slots r) q =? 0) eqn:Ez; [breflect; congruence|].
    simpl in Hval |- *; destruct (Z.eq_dec (at_ (slots r) q) (at_ (slots r) p)) as [Eq|Hne];
      [|left; apply store_other; auto].
    destruct (Z.eq_dec e d) as [->|Hne]; [|left; apply store_other; auto].
    right; rewrite Eq, store_same; split; [|reflexivity]; f_equal.
    apply (tk_unique r Hok); [lia|lia|exact Eq|congruence].
  - exfalso; apply Hnz; rewrite <- Hval, E; simpl; rewrite store_other; [apply Hpriv|].
    left; intros Ea; apply (pv_hidden r a Hpriv p); [lia|auto].
Qed.

Lemma install_ok : tree_ok r' /\ extends r r' /\ at_ (slots r') (p ++ [d]) = a.
Proof.
  assert (Hat : at_ (slots r') (p ++ [d]) = a).
  { rewrite at_snoc, install_keeps by (lia || assumption).
    destruct (_ =? 0) eqn:E; [breflect; congruence|apply store_same]. }
  split_and!; [constructor|..]; [| |intros q; apply install_keeps|exact Hat].
  - intros q Hq Hz; destruct (install_new q Hq Hz) as [E|[-> E]]; rewrite E.
    + apply (tk_allocated r Hok); [exact Hq|congruence].
    + apply Hpriv.
  - intros q1 q2 Hq1 Hq2 E Hz.
    destruct (install_new q1 Hq1 Hz) as [E1|[-> E1]], (install_new q2 Hq2 ltac:(congruence)) as [E2|[-> E2]]; auto.
    + apply (tk_unique r Hok); congruence || assumption.
    + exfalso; apply (pv_hidden r a Hpriv q1 Hq1); congruence.
    + exfalso; apply (pv_hidden r a Hpriv q2 Hq2); congruence.
Qed.

Lemma install_private b : private r b -> b <> a -> private r' b.
Proof.
  intros [Hb Hal He Hh] Hne; constructor; [exact Hb|exact Hal| |].
  - intros i; simpl; rewrite store_other; [apply He|]; left; intros ->; apply (Hh p); [lia|reflexivity].
  - intros q Hq E; destruct (install_new q Hq ltac:(congruence)) as [E1|[_ E1]]; [apply (Hh q Hq)|apply Hne]; congruence.
Qed.

Lemma install_contents key : contents r' key = contents r key.
Proof.
  unfold contents; destruct (Z.eq_dec (at_ (slots r) (path key)) 0) as [Ez|Hnz].
  - rewrite Ez, Z.eqb_refl; destruct (at_ (slots r') (path key) =? 0) eqn:E; [reflexivity|]; breflect.
    destruct (install_new (path key)) as [E1|[_ E1]]; [rewrite path_length; lia|exact E|congruence|].
    rewrite E1; change (slots r') with (store (slots r) (at_ (slots r) p) d a); rewrite store_other; [rewrite (pv_empty r a Hpriv); reflexivity|].
    left; intros Ea; apply (pv_hidden r a Hpriv p); [lia|auto].
  - rewrite install_keeps by (rewrite ?path_length; lia || exact Hnz).
    destruct (_ =? 0); [reflexivity|]; change (slots r') with (store (slots r) (at_ (slots r) p) d a).
    rewrite store_other; [reflexivity|left].
     intros E; assert (path key = p) as Hpk by (apply (tk_unique r Hok); rewrite ?path_length; lia || assumption).
    rewrite <- Hpk, path_length in Hp; lia.
Qed.
End install.

(** *** A slot of a last node is written *)

Section leaf.
Context (r : radix) (key v : Z) (Hok : tree_ok r) (Hkey : is_u64 key).
Context (Hleaf : at_ (slots r) (path key) <> 0).
Let r' := mkRadix (store (slots r) (at_ (slots r) (path key)) (digit key 0) v) (allocated r).

Lemma leaf_at p : (length p <= 6)%nat -> at_ (slots r') p = at_ (slots r) p.
Proof.
  apply at_ext; intros q d Hq Hn; apply store_other; left; intros E.
  assert (q = path key) as -> by (apply (tk_unique r Hok); rewrite ?path_length; lia || assumption).
  rewrite path_length in Hq; lia.
Qed.

Lemma leaf_ok : tree_ok r' /\ extends r r' /\ (forall b, private r b -> private r' b).
Proof.
  split_and!; [constructor|..].
  - intros p Hp; rewrite leaf_at by exact Hp; apply (tk_allocated r Hok), Hp.
  - intros p q Hp Hq; rewrite !leaf_at by assumption; apply (tk_unique r Hok); assumption.
  - intros p Hp _; apply leaf_at, Hp.
  - intros b [Hb Hal He Hh]; constructor; [exact Hb|exact Hal| |].
    + intros i; simpl; rewrite store_other; [apply He|]; left; intros ->.
      apply (Hh (path key)); [rewrite path_length; lia|reflexivity].
    + intros p Hp; rewrite leaf_at by exact Hp; auto.
Qed.

Lemma leaf_contents k :
  is_u64 k -> contents r' k = if k =? key then (if v =? 0 then None else Some (v - 1)) else contents r k.
Proof.
  intros Hk; unfold contents; rewrite leaf_at by (rewrite path_length; lia).
  change (slots r') with (store (slots r) (at_ (slots r) (path key)) (digit key 0) v).
  destruct (Z.eqb_spec k key) as [->|Hne].
  - destruct (Z.eqb_spec (at_ (slots r) (path key)) 0); [congruence|]; rewrite store_same; reflexivity.
  - destruct (Z.eqb_spec (at_ (slots r) (path k)) 0) as [|Hn]; [reflexivity|].
    rewrite store_other; [reflexivity|].
    destruct (Z.eq_dec (at_ (slots r) (path k)) (at_ (slots r) (path key))) as [E|]; [right; intros Hd|auto].
    apply Hne, digits_inj; try assumption; apply (tk_unique r Hok); rewrite ?path_length; lia || assumption.
Qed.
End leaf.

(** ** Calls *)

Definition below_root (key : Z) (level : nat) : list Z := take (6 - level) (path key).

Lemma below_root_step key level :
  (1 <= level <= 6)%nat -> below_root key (pred level) = below_root key level ++ [digit key level].
Proof. intros H; unfold below_root, path; do 7 (destruct level as [|level]; [try lia; try reflexivity|]); lia. Qed.

Lemma below_root_length key level : (length (below_root key level) <= 6 - level)%nat.
Proof. unfold below_root; rewrite length_take; lia. Qed.

Definition op_ok (op : operation) : Prop := match op with Insert size => 0 <= size < SIZE_MAX | Remove => True end.

Definition walk_ok (r : radix) (key : Z) (w : walk) : Prop :=
  match w with
  | Walking level node => (level <= 6)%nat /\ node <> 0 /\ at_ (slots r) (below_root key level) = node
  | Installing level node new =>
      (1 <= level <= 6)%nat /\ node <> 0 /\ at_ (slots r) (below_root key level) = node /\ private r new
  | Finished _ => True
  end.

Definition call_ok (r : radix) (c : call) : Prop :=
  is_u64 (call_key c) /\ (op_ok (call_op c) \/ exists a, call_walk c = Finished a) /\
  walk_ok r (call_key c) (call_walk c).

Definition new_node (c : call) : option Z := match call_walk c with Installing _ _ new => Some new | _ => None end.

(** A step keeps what another call relies on. *)
Lemma walk_ok_extends r r' key w :
  extends r r' -> (forall level node new, w = Installing level node new -> private r' new) -> walk_ok r key w -> walk_ok r' key w.
Proof.
  intros He Hp; destruct w as [level node|level node new|]; simpl; [| |tauto].
  - intros (Hl & Hn & Hat); split_and!; [exact Hl|exact Hn|].
    rewrite He; [exact Hat|pose proof (below_root_length key level); lia|congruence].
  - intros (Hl & Hn & Hat & _); split_and!; [lia|lia|exact Hn| |eapply Hp; reflexivity].
    rewrite He; [exact Hat|pose proof (below_root_length key level); lia|congruence].
Qed.

(** The map's answer and its change. *)
Definition map_answer (op : operation) (v : option Z) : option Z :=
  match op with Insert size => match v with None => Some size | Some _ => None end | Remove => v end.
Definition map_update (op : operation) (v : option Z) : option Z :=
  match op with Insert size => match v with None => Some size | Some x => Some x end | Remove => None end.

Definition atomic_effect (op : operation) (key : Z) (answer : option Z) (m m' : Z -> option Z) : Prop :=
  answer = map_answer op (m key) /\ forall k, is_u64 k -> m' k = if k =? key then map_update op (m key) else m k.

Definition same_map (m m' : Z -> option Z) : Prop := forall k, is_u64 k -> m' k = m k.

(** Steps left for a call whatever the others do. *)
Definition remaining_steps (w : walk) : nat :=
  match w with Walking level _ => 2 * level + 1 | Installing level _ _ => 2 * level | Finished _ => 0 end.

(** What a step does: to the tree, to its own call, to the others, to the map. *)
Record step_ok (r : radix) (op : operation) (key memory : Z) (w : walk) (r' : radix) (w' : walk) : Prop := {
  so_tree : tree_ok r';
  so_extends : extends r r';
  so_walk : walk_ok r' key w';
  so_new : match w' with Installing _ _ new => new ∉ allocated r | _ => True end;
  so_others : forall b, private r b -> new_node (mkCall op key w) <> Some b -> private r' b;
  so_map : match w' with
           | Finished answer => atomic_effect op key answer (contents r) (contents r') \/
                                (memory = 0 /\ answer = None /\ same_map (contents r) (contents r'))
           | _ => same_map (contents r) (contents r')
           end;
  so_left : (remaining_steps w' < remaining_steps w)%nat
}.

Lemma access_ok r op key memory node answer r' :
  tree_ok r -> is_u64 key -> op_ok op -> walk_ok r key (Walking 0 node) ->
  slot_access op node (digit key 0) r = (r', answer) ->
  step_ok r op key memory (Walking 0 node) r' (Finished answer).
Proof.
  intros Hok Hkey Hop (_ & Hn & Hat) Hacc.
  change (below_root key 0) with (path key) in Hat; subst node.
  assert (Hleaf : forall v, let r1 := mkRadix (store (slots r) (at_ (slots r) (path key)) (digit key 0) v) (allocated r) in
    atomic_effect op key answer (contents r) (contents r1) -> step_ok r op key memory (Walking 0 (at_ (slots r) (path key))) r1 (Finished answer)).
  { intros v r1 He; destruct (leaf_ok r key v Hok Hn) as (H1 & H2 & H3); constructor; simpl; auto; lia. }
  assert (Hc : contents r key = if slots r (at_ (slots r) (path key)) (digit key 0) =? 0 then None
                                else Some (slots r (at_ (slots r) (path key)) (digit key 0) - 1)).
  { unfold contents; destruct (Z.eqb_spec (at_ (slots r) (path key)) 0); [congruence|reflexivity]. }
  unfold slot_access in Hacc; destruct op as [size|]; [destruct (_ =? 0) eqn:Ez|]; injection Hacc as <- <-.
  - apply Hleaf; split; [rewrite Hc; reflexivity|]; intros k Hk; rewrite leaf_contents by assumption.
    destruct (k =? key); [|reflexivity]; rewrite Hc; unfold op_ok, SIZE_MAX, UINT64_MAX in *; simpl.
    rewrite wrap_small by lia; destruct (Z.eqb_spec (size + 1) 0); [lia|f_equal; lia].
  - constructor; simpl; auto; try lia; [intros p Hp _; reflexivity|left; split; [rewrite Hc; reflexivity|]].
    intros k Hk; destruct (Z.eqb_spec k key) as [->|]; [rewrite Hc; reflexivity|reflexivity].
  - apply Hleaf; split; [rewrite Hc; reflexivity|]; intros k Hk; rewrite leaf_contents by assumption.
    destruct (k =? key); reflexivity.
Qed.

Lemma missing_contents r key level node :
  walk_ok r key (Walking level node) -> (1 <= level)%nat -> slots r node (digit key level) = 0 -> contents r key = None.
Proof.
  intros (Hl & Hn & Hat) H1 Hz.
  assert (Hzero : forall q, at_ (slots r) ((below_root key level ++ [digit key level]) ++ q) = 0).
  { induction q as [|d q IH] using rev_ind.
    - rewrite app_nil_r, at_snoc, Hat, Hz; destruct (_ =? 0); reflexivity.
    - rewrite app_assoc, at_snoc, IH; reflexivity. }
  rewrite <- below_root_step in Hzero by lia.
  unfold contents; rewrite <- (take_drop (6 - pred level) (path key)); fold (below_root key (pred level)).
  rewrite Hzero; reflexivity.
Qed.

Lemma unchanged_ok r op key memory w w' :
  tree_ok r -> walk_ok r key w' -> (remaining_steps w' < remaining_steps w)%nat ->
  match w' with
  | Installing _ _ _ => False
  | Finished answer => atomic_effect op key answer (contents r) (contents r) \/ (memory = 0 /\ answer = None)
  | _ => True
  end ->
  step_ok r op key memory w r w'.
Proof.
  intros Hok Hw Hl Hm; constructor; auto.
  - intros p _ _; reflexivity.
  - destruct w'; tauto.
  - destruct w'; try (intros k _; reflexivity); destruct Hm as [?|[? ?]]; [auto|right; split_and!; auto; intros k _; reflexivity].
Qed.

Lemma walk_step_ok r op key memory w r' w' :
  tree_ok r -> is_u64 key -> op_ok op -> walk_ok r key w -> fresh memory r -> (forall a, w <> Finished a) ->
  walk_step op key memory w r = (r', w') -> step_ok r op key memory w r' w'.
Proof.
  intros Hok Hkey Hop Hw Hfresh Hnf Hstep.
  destruct w as [level node|level node new|a]; [destruct level as [|level]|..]; cbn [walk_step] in Hstep.
  - destruct (slot_access op node (digit key 0) r) as [r1 answer] eqn:E; simplify_eq; eapply access_ok; eauto.
  - destruct (slots r node (digit key (S level)) =? 0) eqn:Ez; breflect.
    + pose proof (missing_contents r key (S level) node Hw ltac:(lia) Ez) as Hmiss.
      destruct op as [size|]; [destruct (memory =? 0) eqn:Em|]; breflect; simplify_eq.
      * apply unchanged_ok; simpl; auto; lia.
      * destruct Hfresh as [?|[_ Hnew]]; [congruence|].
        destruct (allocate_ok r memory Hok Em Hnew) as (H1 & H2 & H3); constructor; auto.
        -- destruct Hw as (Hl & Hn & Hat); simpl; split_and!; auto; try lia.
           rewrite (allocate_at r memory Hok Hnew); [exact Hat|pose proof (below_root_length key (S level)); lia].
        -- intros b Hb _; apply allocate_private; auto.
        -- intros k _; apply allocate_contents; auto.
        -- simpl; lia.
      * apply unchanged_ok; simpl; auto; [lia|left; split; simpl; [auto|]].
        intros k _; destruct (Z.eqb_spec k key) as [->|]; auto.
    + simplify_eq; apply unchanged_ok; simpl; auto; [|lia]; destruct Hw as (Hl & Hn & Hat).
      split_and!; [lia|exact Ez|]; change level with (pred (S level)); rewrite below_root_step by lia.
      rewrite at_snoc, Hat; destruct (Z.eqb_spec node 0); [congruence|reflexivity].
  - destruct Hw as (Hl & Hn & Hat & Hp); subst node.
    destruct (slots r _ (digit key level) =? 0) eqn:Ez; breflect; simplify_eq.
    + assert (Hlen : (length (below_root key level) < 6)%nat) by (pose proof (below_root_length key level); lia).
      destruct (install_ok r _ (digit key level) new Hok Hlen Hn Ez Hp) as (H1 & H2 & H3); constructor; auto.
      * simpl; rewrite below_root_step by lia; split_and!; [lia|apply Hp|exact H3].
      * intros b Hb Hne; apply install_private; auto; intros ->; apply Hne; reflexivity.
      * intros k _; apply install_contents; auto.
      * simpl; lia.
    + destruct (discard_ok r new Hok Hp) as (H1 & H2 & H3 & H4); constructor; auto.
      * simpl; rewrite below_root_step, at_snoc by lia; split_and!; [lia|exact Ez|].
        destruct (_ =? 0) eqn:E0; breflect; congruence.
      * intros b Hb Hne; apply H3; [exact Hb|intros ->; apply Hne; reflexivity].
      * intros k _; apply H4.
      * simpl; lia.
  - exfalso; eapply Hnf; reflexivity.
Qed.

(** ** All calls *)

Record table_inv (s : table) : Prop := {
  ti_tree : tree_ok (tree s);
  ti_calls : Forall (call_ok (tree s)) (calls s);
  ti_new : forall i j c d a, calls s !! i = Some c -> calls s !! j = Some d ->
    new_node c = Some a -> new_node d = Some a -> i = j
}.

Lemma new_private r c a : call_ok r c -> new_node c = Some a -> private r a.
Proof.
  intros (_ & _ & Hw) Hn; unfold new_node in Hn; destruct (call_walk c); simplify_eq; apply Hw.
Qed.

Lemma empty_table_inv : table_inv empty_table.
Proof.
  assert (Hat : forall p, at_ (slots empty_radix) p <> 0 -> p = []).
  { intros p; destruct p as [|d p] using rev_ind; [reflexivity|]; intros H; exfalso; apply H.
    rewrite at_snoc; destruct (_ =? 0); reflexivity. }
  constructor; simpl; [constructor| |].
  - intros p _ H; rewrite (Hat p H); left.
  - intros p q _ _ E H; rewrite (Hat p H), (Hat q); [reflexivity|congruence].
  - constructor.
  - intros i j c d a H; rewrite lookup_nil in H; discriminate.
Qed.

Lemma call_step_ok s i c memory r w :
  table_inv s -> calls s !! i = Some c -> fresh memory (tree s) -> (forall a, call_walk c <> Finished a) ->
  walk_step (call_op c) (call_key c) memory (call_walk c) (tree s) = (r, w) ->
  step_ok (tree s) (call_op c) (call_key c) memory (call_walk c) r w.
Proof.
  intros Hinv Hc Hf Hnf Hstep; destruct (proj1 (Forall_lookup _ _) (ti_calls s Hinv) i c Hc) as (Hk & [Ho|[a Ho]] & Hw);
    [|exfalso; eapply Hnf, Ho].
  apply walk_step_ok; auto; apply Hinv.
Qed.

Lemma finished_dec w : (exists a, w = Finished a) \/ forall a, w <> Finished a.
Proof. destruct w; [right|right|left]; eauto; discriminate. Qed.

Lemma walk_inv s i c memory r w :
  table_inv s -> calls s !! i = Some c -> fresh memory (tree s) ->
  walk_step (call_op c) (call_key c) memory (call_walk c) (tree s) = (r, w) ->
  table_inv (mkTable r (<[i := mkCall (call_op c) (call_key c) w]> (calls s))).
Proof.
  intros Hinv Hc Hf Hstep; pose proof Hinv as [Ht Hcs Hnew].
  destruct (finished_dec (call_walk c)) as [[a Ew]|Hnf].
  { rewrite Ew in Hstep; simpl in Hstep; simplify_eq. rewrite <- Ew.
    replace (mkCall _ _ _) with c by (destruct c; reflexivity).
    rewrite list_insert_id by exact Hc; destruct s; exact Hinv. }
  destruct (call_step_ok s i c memory r w Hinv Hc Hf Hnf Hstep) as [H1 H2 H3 H4 H5 _ _]; clear Hstep.
  pose proof (proj1 (Forall_lookup _ _) Hcs) as Hall.
  assert (Hother : forall j d a, calls s !! j = Some d -> j <> i -> new_node d = Some a ->
    private r a /\ new_node (mkCall (call_op c) (call_key c) w) <> Some a).
  { intros j d a Hj Hne Ha; assert (Hp : private (tree s) a) by (eapply new_private; eauto).
    split; [apply H5; [exact Hp|]; intros Hsame; apply Hne; eapply (Hnew j i); eauto|].
    unfold new_node; simpl; destruct w; try discriminate; intros [= ->]; apply H4, Hp. }
  constructor; simpl; [exact H1| |].
  - apply Forall_lookup; intros j d Hj; apply lookup_insert_cases in Hj as [(-> & -> & _)|[Hne Hj]].
    + destruct (Hall j c Hc) as (Hk & [Ho|[a Ho]] & _); [|exfalso; eapply Hnf, Ho]; split_and!; simpl; auto.
    + destruct (Hall j d Hj) as (Hk & Ho & Hw); split_and!; auto; eapply walk_ok_extends; eauto.
      intros l n a Ea; eapply (Hother j d); eauto; unfold new_node; rewrite Ea; reflexivity.
  - intros j k d e a Hj Hk Hd He.
    apply lookup_insert_cases in Hj as [(Ei & -> & _)|[Hne Hj]]; apply lookup_insert_cases in Hk as [(Ek & -> & _)|[Hne' Hk]];
      [congruence| | |eauto]; exfalso.
    + eapply (Hother k e a); eauto.
    + eapply (Hother j d a); eauto.
Qed.

Lemma table_inv_step s s' : table_inv s -> table_step s s' -> table_inv s'.
Proof.
  intros Hinv Hstep; destruct Hstep as [s i c memory r w Hc Hf Hw|s op key Hkey Hsize]; [eapply walk_inv; eauto|].
  destruct Hinv as [Ht Hcs Hnew]; constructor; simpl; [exact Ht| |].
  - apply Forall_app; split; [exact Hcs|]; constructor; [|constructor].
    split_and!; [exact Hkey| |]; destruct op as [size|]; simpl; auto.
    + destruct (size =? SIZE_MAX) eqn:E; [eauto|left; breflect; unfold is_u64, SIZE_MAX in *; lia].
    + destruct (size =? SIZE_MAX); simpl; [exact I|split_and!; [lia|discriminate|reflexivity]].
  - assert (Hstart : new_node (mkCall op key (start_walk op)) = None).
    { destruct op as [size|]; [|reflexivity]; unfold new_node; simpl; destruct (_ =? _); reflexivity. }
    intros i j c d a Hi Hj Hci Hdj.
    apply lookup_app_Some in Hi as [Hi|[_ Hi]]; apply lookup_app_Some in Hj as [Hj|[_ Hj]]; [eauto|..]; exfalso.
    all: try (apply list_lookup_singleton_Some in Hi as [_ <-]; congruence).
    all: apply list_lookup_singleton_Some in Hj as [_ <-]; congruence.
Qed.

Lemma table_inv_steps s : table_steps empty_table s -> table_inv s.
Proof.
  intros H; remember empty_table as s0 eqn:E; induction H as [|s1 s2 s3 _ IH Hs]; subst; [apply empty_table_inv|].
  eapply table_inv_step; eauto.
Qed.

(** C25: in every interleaving of insertions and removals, a step of a call
    leaves the map the table stands for as it is, unless the call finishes
    with it: then the step is the whole insertion (refused when the key is
    present) or removal on the map, with the map's answer; only an insertion
    for which there was no memory may be refused otherwise.  Each step brings
    the call nearer to its end, whatever the other calls do. *)
Theorem radix_refines_map s i c memory r w :
  table_steps empty_table s -> calls s !! i = Some c -> fresh memory (tree s) -> (forall a, call_walk c <> Finished a) ->
  walk_step (call_op c) (call_key c) memory (call_walk c) (tree s) = (r, w) ->
  (remaining_steps w < remaining_steps (call_walk c) <= 13)%nat /\
  match w with
  | Finished answer =>
      atomic_effect (call_op c) (call_key c) answer (contents (tree s)) (contents r) \/
      (memory = 0 /\ answer = None /\ same_map (contents (tree s)) (contents r))
  | _ => same_map (contents (tree s)) (contents r)
  end.
Proof.
  intros Hs Hc Hf Hnf Hstep; apply table_inv_steps in Hs as Hinv.
  destruct (call_step_ok s i c memory r w Hinv Hc Hf Hnf Hstep) as [_ _ _ _ _ Hm Hl]; split; [|exact Hm].
  destruct (proj1 (Forall_lookup _ _) (ti_calls s Hinv) i c Hc) as (_ & _ & Hw).
  split; [exact Hl|destruct (call_walk c); simpl in *; lia].
Qed.

(** ** A concrete run *)

Inductive table_move := Call (op : operation) (key : Z) | Go (i : nat) (memory : Z).

Definition u64b (x : Z) : bool := (0 <=? x) && (x <=? UINT64_MAX).
Definition play_table (m : table_move) (s : table) : option table :=
  match m with
  | Call op key =>
      if u64b key && match op with Insert size => u64b size | Remove => true end
      then Some (mkTable (tree s) (calls s ++ [mkCall op key (start_walk op)])) else None
  | Go i memory =>
      match calls s !! i with
      | Some c =>
          if (memory =? 0) || ((0 <? memory) && bool_decide (memory ∉ allocated (tree s))) then
            let '(r, w) := walk_step (call_op c) (call_key c) memory (call_walk c) (tree s) in
            Some (mkTable r (<[i := mkCall (call_op c) (call_key c) w]> (calls s)))
          else None
      | None => None
      end
  end.

Fixpoint play_moves (ms : list table_move) (s : table) : option table :=
  match ms with [] => Some s | m :: ms => match play_table m s with Some s => play_moves ms s | None => None end end.

Lemma play_table_step m s s' : play_table m s = Some s' -> table_step s s'.
Proof.
  destruct m as [op key|i memory]; simpl.
  - destruct (u64b key && _) eqn:E; [|discriminate]; intros [= <-]; unfold u64b in E; breflect.
    apply StepCall; [split; assumption|]; destruct op; [breflect; split; assumption|exact I].
  - destruct (calls s !! i) as [c|] eqn:Hc; [|discriminate].
    destruct (_ || _) eqn:E; [|discriminate]; destruct (walk_step _ _ _ _ _) as [r w] eqn:Hw; intros [= <-].
    eapply StepWalk; eauto; apply orb_true_iff in E as [E|E]; breflect; [left; exact E|right].
    split; [exact H|apply bool_decide_eq_true in H0; exact H0].
Qed.

Lemma play_moves_steps ms s s0 s' : table_steps s0 s -> play_moves ms s = Some s' -> table_steps s0 s'.
Proof.
  revert s; induction ms as [|m ms IH]; intros s Hs H; simpl in H; [simplify_eq; exact Hs|].
  destruct (play_table m s) as [s1|] eqn:E; [|discriminate].
  eapply IH; [eapply TableTrans; [exact Hs|eapply play_table_step, E]|exact H].
Qed.

(** Two insertions of neighbouring addresses race for the first node; the
    second one loses and goes on in the node of the first. *)
Definition race : list table_move :=
  [Call (Insert 24) 4096; Call (Insert 40) 4097; Go 0 100; Go 1 200; Go 0 0; Go 1 0] ++
  [Go 0 101; Go 0 0; Go 0 102; Go 0 0; Go 0 103; Go 0 0; Go 0 104; Go 0 0; Go 0 105; Go 0 0; Go 0 0] ++
  [Go 1 0; Go 1 0; Go 1 0; Go 1 0; Go 1 0].
Definition race_table : table := default empty_table (play_moves race empty_table).

Definition race_end : radix * walk := walk_step (Insert 40) 4097 0 (Walking 0 105) (tree race_table).

Lemma radix_refines_map_witness :
  calls race_table !! 1%nat = Some (mkCall (Insert 40) 4097 (Walking 0 105)) /\
  contents (tree race_table) 4096 = Some 24 /\ contents (tree race_table) 4097 = None /\
  bool_decide (200 ∉ allocated (tree race_table)) = true /\
  race_end.2 = Finished (Some 40) /\ contents race_end.1 4097 = Some 40 /\
  (remaining_steps race_end.2 < remaining_steps (Walking 0 105))%nat.
Proof.
  assert (Hc : calls race_table !! 1%nat = Some (mkCall (Insert 40) 4097 (Walking 0 105))) by (vm_compute; reflexivity).
  split_and!; [exact Hc|vm_compute; reflexivity..|].
  assert (Hs : table_steps empty_table race_table).
  { apply (play_moves_steps race empty_table); [constructor|vm_compute; reflexivity]. }
  assert (E : walk_step (Insert 40) 4097 0 (Walking 0 105) (tree race_table) = (race_end.1, race_end.2))
    by (unfold race_end; apply surjective_pairing).
  pose proof (radix_refines_map race_table 1 (mkCall (Insert 40) 4097 (Walking 0 105)) 0 race_end.1 race_end.2
    Hs Hc (or_introl eq_refl) ltac:(discriminate) E) as [[Hl _] _].
  exact Hl.
Defined.
