(* ===== verification/MemTracking.v ===== *)
(** * Tracking of allocations

    Models the allocation hooks of [src/malloc_interceptor.c] and the
    bookkeeping they do: the table of tracked blocks, the sharded counters, the
    common counter with its maximum, the log, the activity counters, and the
    teardown that waits for the hooks.  A hook is a program over atomic
    actions, written like the C function; a thread runs one, and a step of the
    system performs one action of one thread or of the detaching thread.  The
    loops of compare-and-exchange are one action.  The table's operations are
    the atomic insertion and removal the radix tree implements.  An event is
    logged in one action, which reserves its slot as [reserve_slot] does and
    writes it, or drops it when the log is full; whether the log is active, and
    its layout, are fixed for the run, as they are while the hooks are
    installed.

    The application owns the blocks the hooks returned to it and frees or
    reallocates only those; a block a running hook works on is [held] by its
    thread.  The allocator returns NULL or a block nobody owns, none larger
    than [PTRDIFF_MAX]; a failed [realloc] keeps the block and sets [ENOMEM]. *)

From S2P Require Import Prelude MemLog.

Definition G_MAXULONG : Z := UINT64_MAX.
Definition PEAK_ACCOUNTING_SHARD_COUNT : Z := 4096.
Definition PEAK_HOOK_ACTIVITY_SHARD_COUNT : nat := 4096.

(** ** Actions *)

Record PeakTrackingTransition := mkTransition {
  timestamp_ns : Z;
  sequence : Z;
  shard : Z
}.

(** One atomic access, with the type of its answer. *)
Inductive act : Type -> Type :=
  | ActivityAdd : act unit
  | ActivitySub : act unit
  | LoadCleanup : act bool
  | LoadTablesActive : act bool
  | LoadMemlogActive : act bool
  | OriginalAlloc (size : Z) : act Z
  | OriginalFree (ptr : Z) : act unit
  | OriginalRealloc (ptr size : Z) : act (Z * bool)
  | Backtrace : act bool
  | TrackInsert (ptr size : Z) : act bool
  | TrackRemove (ptr : Z) : act (option Z)
  | NextSequence (s : Z) : act PeakTrackingTransition
  | ShardAdd (s size : Z) : act bool
  | ShardSub (s size : Z) : act unit
  | ShardFill (s : Z) : act unit
  | FallbackAdd (size : Z) : act (option Z)
  | FallbackSub (size : Z) : act unit
  | MaxRaise (value : Z) : act unit
  | LogEvent (t : PeakTrackingTransition) (change kind : Z) : act unit.

Inductive prog (A : Type) : Type :=
  | Ret (a : A)
  | Act {R : Type} (x : act R) (k : R -> prog A).
Arguments Ret {A} a.
Arguments Act {A R} x k.

Fixpoint bind {A B} (p : prog A) (f : A -> prog B) : prog B :=
  match p with
  | Ret a => f a
  | Act x k => Act x (fun r => bind (k r) f)
  end.
Definition perform {R} (x : act R) : prog R := Act x Ret.
Notation "'do*' x := m 'in' k" := (bind m (fun x => k))
  (at level 10, x pattern, m at level 100, k at level 200) : peak_scope.
Notation "'run*' m ';' k" := (bind m (fun _ => k))
  (at level 10, m at level 100, k at level 200) : peak_scope.

(** ** Accounting *)

Definition accounting_shard_for (ptr : Z) : Z :=
  let value := Z.shiftr ptr 4 in
  let value := Z.lxor value (Z.shiftr value 17) in
  let value := Z.lxor value (Z.shiftr value 9) in
  Z.land value (PEAK_ACCOUNTING_SHARD_COUNT - 1).

Definition tracking_fallback_account_add (size : Z) : prog bool :=
  do* updated := perform (FallbackAdd size) in
  match updated with
  | None => Ret false
  | Some updated => run* perform (MaxRaise updated); Ret true
  end.

Definition no_transition : PeakTrackingTransition := mkTransition 0 0 0.

(** [transition_out] is NULL when not [wanted]. *)
Definition tracking_account_add (s size : Z) (wanted : bool) : prog (bool * PeakTrackingTransition) :=
  do* transition := (if wanted then perform (NextSequence s) else Ret no_transition) in
  do* active := perform LoadMemlogActive in
  if active then Ret (true, transition)
  else
    do* added := perform (ShardAdd s size) in
    if negb added then Ret (false, transition)
    else
      do* counted := tracking_fallback_account_add size in
      if counted then Ret (true, transition)
      else run* perform (ShardSub s size); Ret (false, transition).

Definition tracking_account_remove (s size : Z) : prog PeakTrackingTransition :=
  do* transition := perform (NextSequence s) in
  do* active := perform LoadMemlogActive in
  if active then Ret transition
  else run* perform (ShardSub s size); run* perform (FallbackSub size); Ret transition.

Definition tracking_account_restore (s size : Z) : prog bool :=
  do* r := tracking_account_add s size false in Ret r.1.

(** [peak_log_event] *)
Definition log_event (t : PeakTrackingTransition) (change kind : Z) : prog unit :=
  do* active := perform LoadMemlogActive in
  if active then perform (LogEvent t change kind) else Ret tt.

Definition publish (size kind : Z) (t : PeakTrackingTransition) : prog unit :=
  match size_to_event_delta size with
  | Some d => log_event t (if kind =? 2 then - d else d) kind
  | None => Ret tt
  end.

(** The tables are in use and not being torn down. *)
Definition tracking_open : prog bool :=
  do* active := perform LoadTablesActive in
  if active then do* cleanup := perform LoadCleanup in Ret (negb cleanup) else Ret false.

Definition add_tracking_entry (ptr size : Z) (log : bool) : prog unit :=
  do* open := tracking_open in
  if negb open || negb log then Ret tt
  else
    do* inserted := perform (TrackInsert ptr size) in
    if negb inserted then Ret tt
    else
      do* (added, transition) := tracking_account_add (accounting_shard_for ptr) size true in
      if negb added then run* perform (TrackRemove ptr); Ret tt
      else publish size 1 transition.

Definition detach_tracking_entry (ptr : Z) : prog (option (Z * PeakTrackingTransition)) :=
  do* open := tracking_open in
  if negb open then Ret None
  else
    do* removed := perform (TrackRemove ptr) in
    match removed with
    | None => Ret None
    | Some size => do* t := tracking_account_remove (accounting_shard_for ptr) size in Ret (Some (size, t))
    end.

Definition restore_tracking_entry (ptr size : Z) : prog unit :=
  do* inserted := perform (TrackInsert ptr size) in
  if negb inserted then Ret tt
  else
    do* restored := tracking_account_restore (accounting_shard_for ptr) size in
    if restored then Ret tt else perform (ShardFill (accounting_shard_for ptr)).

Definition commit_reallocated_entry (new_ptr new_size : Z) : prog (option PeakTrackingTransition) :=
  do* inserted := perform (TrackInsert new_ptr new_size) in
  if negb inserted then Ret None
  else
    do* (added, transition) := tracking_account_add (accounting_shard_for new_ptr) new_size true in
    if added then Ret (Some transition)
    else run* perform (TrackRemove new_ptr); Ret None.

Definition publish_removed_entry (size : Z) (t : PeakTrackingTransition) : prog unit := publish size 2 t.

(** ** The hooks *)

Inductive PeakMallocHookEntry := PEAK_MALLOC_HOOK_RECURSIVE | PEAK_MALLOC_HOOK_TRACKING | PEAK_MALLOC_HOOK_FORWARDING.

(** [in_peak_alloc_hook] is the thread's flag. *)
Definition malloc_hook_enter (in_peak_alloc_hook : bool) : prog PeakMallocHookEntry :=
  if in_peak_alloc_hook then Ret PEAK_MALLOC_HOOK_RECURSIVE
  else
    run* perform ActivityAdd;
    do* cleanup := perform LoadCleanup in
    Ret (if cleanup then PEAK_MALLOC_HOOK_FORWARDING else PEAK_MALLOC_HOOK_TRACKING).

Definition malloc_hook_leave : prog unit := perform ActivitySub.

(** The call of the original function outside tracking. *)
Definition forward {A} (entry : PeakMallocHookEntry) (original : prog A) : prog A :=
  do* result := original in
  match entry with
  | PEAK_MALLOC_HOOK_FORWARDING => run* malloc_hook_leave; Ret result
  | _ => Ret result
  end.

(** The rest of a hook that returns a new block. *)
Definition track_allocation (size : Z) : prog Z :=
  do* ptr := perform (OriginalAlloc size) in
  run* (if ptr =? 0 then Ret tt
       else do* flag := perform Backtrace in add_tracking_entry ptr size flag);
  run* malloc_hook_leave;
  Ret ptr.

Definition custom_malloc (in_hook : bool) (size : Z) : prog Z :=
  do* entry := malloc_hook_enter in_hook in
  match entry with
  | PEAK_MALLOC_HOOK_TRACKING => track_allocation size
  | _ => forward entry (perform (OriginalAlloc size))
  end.

Definition custom_free (in_hook : bool) (ptr : Z) : prog Z :=
  if ptr =? 0 then Ret 0
  else
    do* entry := malloc_hook_enter in_hook in
    match entry with
    | PEAK_MALLOC_HOOK_TRACKING =>
        do* tracked := detach_tracking_entry ptr in
        run* perform (OriginalFree ptr);
        run* match tracked with
            | Some (size, t) => publish_removed_entry size t
            | None => Ret tt
            end;
        run* malloc_hook_leave;
        Ret 0
    | _ => forward entry (run* perform (OriginalFree ptr); Ret 0)
    end.

(** [original_calloc] fails by itself when the product overflows. *)
Definition custom_calloc (in_hook : bool) (nmemb size : Z) : prog Z :=
  do* entry := malloc_hook_enter in_hook in
  match entry with
  | PEAK_MALLOC_HOOK_TRACKING =>
      if negb (size =? 0) && (SIZE_MAX / size <? nmemb) then run* malloc_hook_leave; Ret 0
      else track_allocation (wrap 64 (nmemb * size))
  | _ =>
      forward entry (if negb (size =? 0) && (SIZE_MAX / size <? nmemb) then Ret 0
                     else perform (OriginalAlloc (nmemb * size)))
  end.

Definition custom_realloc (in_hook : bool) (ptr size : Z) : prog Z :=
  do* entry := malloc_hook_enter in_hook in
  match entry with
  | PEAK_MALLOC_HOOK_TRACKING =>
      if ptr =? 0 then track_allocation size
      else
        do* tracked := detach_tracking_entry ptr in
        do* (new_ptr, enomem) := perform (OriginalRealloc ptr size) in
        if (new_ptr =? 0) && (negb (size =? 0) || enomem) then
          run* match tracked with Some (tracked_size, _) => restore_tracking_entry ptr tracked_size | None => Ret tt end;
          run* malloc_hook_leave;
          Ret 0
        else
          run* match tracked with Some (tracked_size, t) => publish_removed_entry tracked_size t | None => Ret tt end;
          run* match tracked with
              | Some _ =>
                  if new_ptr =? 0 then Ret tt
                  else
                    do* committed := commit_reallocated_entry new_ptr size in
                    match committed with Some t => publish size 1 t | None => Ret tt end
              | None =>
                  if new_ptr =? 0 then Ret tt
                  else do* flag := perform Backtrace in add_tracking_entry new_ptr size flag
              end;
          run* malloc_hook_leave;
          Ret new_ptr
  | _ =>
      forward entry (if ptr =? 0 then perform (OriginalAlloc size)
                     else do* r := perform (OriginalRealloc ptr size) in Ret r.1)
  end.

(** The alignment is the allocator's business. *)
Definition custom_aligned_alloc (in_hook : bool) (alignment size : Z) : prog Z :=
  do* entry := malloc_hook_enter in_hook in
  match entry with
  | PEAK_MALLOC_HOOK_TRACKING => track_allocation size
  | _ => forward entry (perform (OriginalAlloc size))
  end.

(** The block stored through [memptr], 0 when the call fails. *)
Definition custom_posix_memalign (in_hook : bool) (alignment size : Z) : prog Z :=
  do* entry := malloc_hook_enter in_hook in
  match entry with
  | PEAK_MALLOC_HOOK_TRACKING => track_allocation size
  | _ => forward entry (perform (OriginalAlloc size))
  end.

(** ** The shared state *)

(** The counters; ghost: the largest total so far, and whether a rollback of
    [realloc] overflowed a counter. *)
Record counters := mkCounters {
  shard_bytes : Z -> Z;
  shard_sequence : Z -> Z;
  fallback_current_memory : Z;
  max_memory : Z;
  peak : Z;
  overflowed : bool
}.

Record tracking := mkTracking {
  cleanup_in_progress : bool;
  tracking_tables_active : bool;
  (** the table, and the keys whose nodes exist *)
  tracked : gmap Z Z;
  prepared : gset Z;
  counts : counters;
  hook_activity : nat -> Z;
  (** the log: its reservations and the events written; ghost: those dropped *)
  slots : reservations;
  events : list (PeakTrackingTransition * Z * Z);
  lost : list (PeakTrackingTransition * Z * Z);
  (** ghost: the application's blocks with the sizes it asked for *)
  app : gmap Z Z
}.

Definition set_table (tr : gmap Z Z) (pr : gset Z) (m : tracking) : tracking :=
  mkTracking (cleanup_in_progress m) (tracking_tables_active m) tr pr (counts m) (hook_activity m) (slots m) (events m) (lost m) (app m).
Definition set_counts (c : counters) (m : tracking) : tracking :=
  mkTracking (cleanup_in_progress m) (tracking_tables_active m) (tracked m) (prepared m) c (hook_activity m) (slots m) (events m) (lost m) (app m).
Definition set_activity (f : nat -> Z) (m : tracking) : tracking :=
  mkTracking (cleanup_in_progress m) (tracking_tables_active m) (tracked m) (prepared m) (counts m) f (slots m) (events m) (lost m) (app m).
Definition set_log (r : reservations) (es ls : list (PeakTrackingTransition * Z * Z)) (m : tracking) : tracking :=
  mkTracking (cleanup_in_progress m) (tracking_tables_active m) (tracked m) (prepared m) (counts m) (hook_activity m)
    r es ls (app m).
Definition set_app (a : gmap Z Z) (m : tracking) : tracking :=
  mkTracking (cleanup_in_progress m) (tracking_tables_active m) (tracked m) (prepared m) (counts m) (hook_activity m) (slots m) (events m) (lost m) a.
Definition set_flags (cleanup active : bool) (m : tracking) : tracking :=
  mkTracking cleanup active (tracked m) (prepared m) (counts m) (hook_activity m) (slots m) (events m) (lost m) (app m).

Definition set_shard (s v : Z) (c : counters) : counters :=
  mkCounters (fun i => if i =? s then v else shard_bytes c i) (shard_sequence c) (fallback_current_memory c)
    (max_memory c) (peak c) (overflowed c).
Definition set_fallback (v : Z) (c : counters) : counters :=
  mkCounters (shard_bytes c) (shard_sequence c) v (max_memory c) (Z.max (peak c) v) (overflowed c).

Definition add_at (i : nat) (d : Z) (f : nat -> Z) : nat -> Z := fun j => if (j =? i)%nat then f j + d else f j.

(** What the environment decides in a step. *)
Record choice := mkChoice {
  c_address : Z;
  c_flag : bool;
  c_time : Z
}.

(** [peak_log_event_write] of thread [caller] *)
Definition log_event_write (storage : layout) (caller : nat) (e : PeakTrackingTransition * Z * Z) (m : tracking) : tracking :=
  let reserved := reserve_slot storage caller (slots m) in
  set_log reserved.2
    (match reserved.1 with Some _ => e :: events m | None => events m end)
    (match reserved.1 with Some _ => lost m | None => e :: lost m end) m.

Section semantics.
Context (memlog_active : bool) (storage : layout).

(** [caller] is the thread's index and [shard_index] its activity shard;
    [busy] are the blocks owned by anybody; [held] is the block the thread works
    on with its size. *)
Definition act_step {R} (x : act R) (ch : choice) (busy : list Z) (caller shard_index : nat)
    (m : tracking) (held : option (Z * Z)) : option (R * tracking * option (Z * Z)) :=
  let c := counts m in
  match x in act R return option (R * tracking * option (Z * Z)) with
  | ActivityAdd => Some (tt, set_activity (add_at shard_index 1 (hook_activity m)) m, held)
  | ActivitySub => Some (tt, set_activity (add_at shard_index (-1) (hook_activity m)) m, held)
  | LoadCleanup => Some (cleanup_in_progress m, m, held)
  | LoadTablesActive => Some (tracking_tables_active m, m, held)
  | LoadMemlogActive => Some (memlog_active, m, held)
  | OriginalAlloc size =>
      if c_address ch =? 0 then Some (0, m, held)
      else if (0 <? c_address ch) && bool_decide (c_address ch ∉ busy) && (0 <=? size) && (size <=? INT64_MAX)
      then Some (c_address ch, m, Some (c_address ch, size)) else None
  | OriginalFree ptr => Some (tt, m, None)
  | OriginalRealloc ptr size =>
      if c_flag ch then Some ((0, true), m, held)
      else if (size =? 0) && (c_address ch =? 0) then Some ((0, false), m, None)
      else if (0 <? c_address ch) && ((c_address ch =? ptr) || bool_decide (c_address ch ∉ busy)) && (0 <=? size) &&
              (size <=? INT64_MAX)
      then Some ((c_address ch, false), m, Some (c_address ch, size)) else None
  | Backtrace => Some (c_flag ch, m, held)
  | TrackInsert ptr size =>
      if (size =? SIZE_MAX) || bool_decide (is_Some (tracked m !! ptr)) || (c_flag ch && bool_decide (ptr ∉ prepared m))
      then Some (false, m, held)
      else Some (true, set_table (<[ptr := size]> (tracked m)) ({[ptr]} ∪ prepared m) m, held)
  | TrackRemove ptr => Some (tracked m !! ptr, set_table (delete ptr (tracked m)) (prepared m) m, held)
  | NextSequence s =>
      Some (mkTransition (c_time ch) (shard_sequence c s) s,
            set_counts (mkCounters (shard_bytes c)
              (fun i => if i =? s then wrap 64 (shard_sequence c s + 1) else shard_sequence c i)
              (fallback_current_memory c) (max_memory c) (peak c) (overflowed c)) m, held)
  | ShardAdd s size =>
      if G_MAXULONG - shard_bytes c s <? size then Some (false, m, held)
      else Some (true, set_counts (set_shard s (shard_bytes c s + size) c) m, held)
  | ShardSub s size => Some (tt, set_counts (set_shard s (wrap 64 (shard_bytes c s - size)) c) m, held)
  | ShardFill s =>
      Some (tt, set_counts (mkCounters (fun i => if i =? s then G_MAXULONG else shard_bytes c i) (shard_sequence c)
                              (fallback_current_memory c) (max_memory c) (peak c) true) m, held)
  | FallbackAdd size =>
      let updated := fallback_current_memory c + size in
      if G_MAXULONG - fallback_current_memory c <? size then Some (None, m, held)
      else Some (Some updated, set_counts (set_fallback updated c) m, held)
  | FallbackSub size =>
      Some (tt, set_counts (set_fallback (wrap 64 (fallback_current_memory c - size)) c) m, held)
  | MaxRaise v =>
      Some (tt, set_counts (mkCounters (shard_bytes c) (shard_sequence c) (fallback_current_memory c)
                              (if max_memory c <? v then v else max_memory c) (peak c) (overflowed c)) m, held)
  | LogEvent t change kind => Some (tt, log_event_write storage caller (t, change, kind) m, held)
  end.

(** ** Threads and the teardown *)

Record thread := mkThread {
  activity_shard : nat;
  running : option (prog Z);
  held : option (Z * Z)
}.

(** [malloc_interceptor_detach] after the hooks were reverted: the scan of the
    activity counters, with the attempts left; quiescent; tables released;
    given up. *)
Inductive detacher :=
  | NotDetaching
  | Reverting
  | Scanning (attempts next : nat)
  | Quiescent
  | Released
  | GaveUp.

Record system := mkSystem {
  memory : tracking;
  threads : list thread;
  teardown : detacher
}.

Definition held_block (t : thread) : list Z := match held t with Some (p, _) => [p] | None => [] end.
Definition busy_blocks (s : system) : list Z :=
  map fst (map_to_list (app (memory s))) ++ concat (map held_block (threads s)).

(** A hook as the application calls it: a new block, or one of its own. *)
Inductive request :=
  | CallMalloc (size : Z)
  | CallCalloc (nmemb size : Z)
  | CallAlignedAlloc (alignment size : Z)
  | CallMemalign (alignment size : Z)
  | CallFree (ptr : Z)
  | CallRealloc (ptr size : Z).

Definition hook_of (q : request) : prog Z :=
  match q with
  | CallMalloc size => custom_malloc false size
  | CallCalloc n size => custom_calloc false n size
  | CallAlignedAlloc a size => custom_aligned_alloc false a size
  | CallMemalign a size => custom_posix_memalign false a size
  | CallFree ptr => custom_free false ptr
  | CallRealloc ptr size => custom_realloc false ptr size
  end.

(** The block the request gives up, if any. *)
Definition given_up (q : request) : Z := match q with CallFree ptr | CallRealloc ptr _ => ptr | _ => 0 end.
Definition size_ok (q : request) : bool :=
  let ok x := (0 <=? x) && (x <=? SIZE_MAX) in
  match q with
  | CallMalloc s | CallAlignedAlloc _ s | CallMemalign _ s | CallRealloc _ s => ok s
  | CallCalloc n s => ok n && ok s
  | CallFree _ => true
  end.

Definition set_thread (i : nat) (t : thread) (m : tracking) (s : system) : system :=
  mkSystem m (<[i := t]> (threads s)) (teardown s).

(** One move: an idle thread calls a hook, a running one performs its next
    action or returns, the detaching thread goes on. *)
Inductive move := Start (i : nat) (q : request) | Step (i : nat) (ch : choice) | Detach (flushed : bool).

(** [flushed] is the answer of [gum_interceptor_flush]. *)
Definition detach_step (flushed : bool) (s : system) : option system :=
  let m := memory s in
  let at_ d m := Some (mkSystem m (threads s) d) in
  match teardown s with
  | NotDetaching => at_ Reverting (set_flags true (tracking_tables_active m) m)
  | Reverting => at_ (if flushed then Scanning 1000 0 else GaveUp) m
  | Scanning attempts next =>
      if (next <? PEAK_HOOK_ACTIVITY_SHARD_COUNT)%nat then
        if hook_activity m next =? 0 then at_ (Scanning attempts (S next)) m
        else match attempts with O => at_ GaveUp m | S a => at_ (Scanning a 0) m end
      else at_ Quiescent m
  | Quiescent =>
      at_ Released (set_counts (mkCounters (fun _ => 0) (fun _ => 0) (fallback_current_memory (counts m))
                                  (max_memory (counts m)) (peak (counts m)) (overflowed (counts m)))
                      (set_table ∅ ∅ (set_flags (cleanup_in_progress m) false m)))
  | Released | GaveUp => None
  end.

Definition make_move (mv : move) (s : system) : option system :=
  match mv with
  | Start i q =>
      match threads s !! i with
      | Some t =>
          match running t with
          | Some _ => None
          | None =>
              if negb (size_ok q) then None
              else if given_up q =? 0 then Some (set_thread i (mkThread (activity_shard t) (Some (hook_of q)) None) (memory s) s)
              else
                match app (memory s) !! given_up q with
                | Some size =>
                    Some (set_thread i (mkThread (activity_shard t) (Some (hook_of q)) (Some (given_up q, size)))
                            (set_app (delete (given_up q) (app (memory s))) (memory s)) s)
                | None => None
                end
          end
      | None => None
      end
  | Step i ch =>
      match threads s !! i with
      | Some t =>
          match running t with
          | None => None
          | Some (Ret _) =>
              let a := match held t with Some (p, size) => <[p := size]> (app (memory s)) | None => app (memory s) end in
              Some (set_thread i (mkThread (activity_shard t) None None) (set_app a (memory s)) s)
          | Some (Act x k) =>
              match act_step x ch (busy_blocks s) i (activity_shard t) (memory s) (held t) with
              | Some (r, m, h) => Some (set_thread i (mkThread (activity_shard t) (Some (k r)) h) m s)
              | None => None
              end
          end
      | None => None
      end
  | Detach flushed => detach_step flushed s
  end.

Fixpoint make_moves (l : list move) (s : system) : option system :=
  match l with [] => Some s | mv :: l => match make_move mv s with Some s => make_moves l s | None => None end end.

End semantics.

Definition initial_memory (threads : nat) : tracking :=
  mkTracking false true ∅ ∅ (mkCounters (fun _ => 0) (fun _ => 0) 0 0 0 false) (fun _ => 0) (no_reservations threads)
    [] [] ∅.

(** Threads with their activity shards. *)
Definition initial_system (shards : list nat) : system :=
  mkSystem (initial_memory (length shards)) (map (fun i => mkThread i None None) shards) NotDetaching.
