(* ===== verification/MemTrackingProofs.v ===== *)
(** * Tracking of allocations: a program logic for the hooks

    A thread's [share] says what of the shared state is its own while it runs:
    the table entry of the block it holds, the part of the counters and of the
    log that stands for it, the total it has yet to publish as the maximum.
    [wp] is the weakest precondition over the atomic actions: an action's
    condition on the share, and what the answer and the share may be afterwards
    ([pre], [answers]).  Specifications of the accounting functions are proved
    once and composed; every hook ends [settled]. *)

From S2P Require Import Prelude MemLog MemTracking.

Record share := mkShare {
  entry : option Z;
  in_shard : Z * Z;
  in_total : Z;
  in_log : Z;
  to_raise : option Z;
  known : bool;
  spoiled : bool
}.

Definition set_entry (e : option Z) (k : bool) (g : share) : share :=
  mkShare e (in_shard g) (in_total g) (in_log g) (to_raise g) k (spoiled g).
Definition set_in_shard (s v : Z) (g : share) : share :=
  mkShare (entry g) (s, v) (in_total g) (in_log g) (to_raise g) (known g) (spoiled g).
Definition set_in_total (v : Z) (r : option Z) (g : share) : share :=
  mkShare (entry g) (in_shard g) v (in_log g) r (known g) (spoiled g).
Definition add_in_log (d : Z) (g : share) : share :=
  mkShare (entry g) (in_shard g) (in_total g) (in_log g + d) (to_raise g) (known g) (spoiled g).
Definition spoil (g : share) : share :=
  mkShare (entry g) (in_shard g) (in_total g) (in_log g) (to_raise g) (known g) true.

(** The thread holds the block. *)
Definition holds (ptr : Z) (h : option (Z * Z)) : Prop := exists size, h = Some (ptr, size).
Definition block_size (size : Z) : Prop := 0 <= size <= INT64_MAX.


Section logic.
Context (memlog_active : bool).

Definition pre {R} (x : act R) (g : share) (h : option (Z * Z)) : Prop :=
  match x with
  | OriginalAlloc _ => h = None /\ entry g = None
  | OriginalFree ptr | OriginalRealloc ptr _ => holds ptr h /\ entry g = None
  | TrackInsert ptr size => holds ptr h /\ entry g = None /\ 0 <= size
  | TrackRemove ptr => holds ptr h
  | ShardAdd s size => 0 <= size /\ (in_shard g).2 = 0
  | ShardSub s size => 0 <= size /\ (in_shard g).2 = size /\ (size <> 0 -> (in_shard g).1 = s)
  | FallbackAdd size => 0 <= size /\ to_raise g = None
  | FallbackSub size => 0 <= size <= in_total g
  | MaxRaise v => to_raise g = Some v
  | _ => True
  end.

Definition answers {R} (x : act R) (g : share) (h : option (Z * Z)) : R -> share -> option (Z * Z) -> Prop :=
  match x in act R return R -> share -> option (Z * Z) -> Prop with
  | ActivityAdd | ActivitySub => fun _ g' h' => g' = g /\ h' = h
  | LoadCleanup => fun r g' h' => r = false /\ g' = g /\ h' = h
  | LoadTablesActive => fun r g' h' => r = true /\ g' = g /\ h' = h
  | LoadMemlogActive => fun r g' h' => r = memlog_active /\ g' = g /\ h' = h
  | OriginalAlloc size => fun r g' h' =>
      (r = 0 /\ g' = g /\ h' = h) \/
      (r <> 0 /\ block_size size /\ g' = set_entry None false g /\ h' = Some (r, size))
  | OriginalFree _ => fun _ g' h' => g' = g /\ h' = None
  | OriginalRealloc ptr size => fun r g' h' =>
      (r = (0, true) /\ g' = g /\ h' = h) \/ (size = 0 /\ r = (0, false) /\ g' = g /\ h' = None) \/
      (r.1 <> 0 /\ r.2 = false /\ block_size size /\ g' = set_entry None false g /\ h' = Some (r.1, size))
  | Backtrace => fun _ g' h' => g' = g /\ h' = h
  | TrackInsert _ size => fun r g' h' =>
      h' = h /\ ((r = true /\ g' = set_entry (Some size) true g) \/
                 (r = false /\ g' = g /\ (known g = false \/ size = SIZE_MAX)))
  | TrackRemove _ => fun r g' h' =>
      h' = h /\ r = entry g /\ g' = set_entry None (known g || bool_decide (is_Some (entry g))) g
  | NextSequence _ => fun _ g' h' => g' = g /\ h' = h
  | ShardAdd s size => fun r g' h' => h' = h /\ ((r = true /\ g' = set_in_shard s size g) \/ (r = false /\ g' = g))
  | ShardSub s size => fun _ g' h' => h' = h /\ g' = set_in_shard s 0 g
  | ShardFill _ => fun _ g' h' => h' = h /\ g' = spoil g
  | FallbackAdd size => fun r g' h' =>
      h' = h /\ ((r = None /\ g' = g) \/ (exists v, r = Some v /\ g' = set_in_total (in_total g + size) (Some v) g))
  | FallbackSub size => fun _ g' h' => h' = h /\ g' = set_in_total (in_total g - size) (to_raise g) g
  | MaxRaise _ => fun _ g' h' => h' = h /\ g' = set_in_total (in_total g) None g
  | LogEvent _ change _ => fun _ g' h' => h' = h /\ g' = add_in_log change g
  end.

Fixpoint wp {A} (p : prog A) (Q : A -> share -> option (Z * Z) -> Prop) (g : share) (h : option (Z * Z)) : Prop :=
  match p with
  | Ret a => Q a g h
  | Act x k => pre x g h /\ forall r g' h', answers x g h r g' h' -> wp (k r) Q g' h'
  end.

Lemma wp_mono {A} (p : prog A) (Q Q' : A -> share -> option (Z * Z) -> Prop) g h :
  wp p Q g h -> (forall a g h, Q a g h -> Q' a g h) -> wp p Q' g h.
Proof.
  revert g h; induction p as [a|R x k IH]; intros g h; simpl; [auto|].
  intros [Hp Hk] HQ; split; [exact Hp|]; intros r g' h' Ha; apply IH; [apply Hk, Ha|exact HQ].
Qed.

Lemma wp_bind {A B} (p : prog A) (f : A -> prog B) Q g h :
  wp p (fun a g h => wp (f a) Q g h) g h -> wp (bind p f) Q g h.
Proof.
  revert g h; induction p as [a|R x k IH]; intros g h; simpl; [auto|].
  intros [Hp Hk]; split; [exact Hp|]; intros r g' h' Ha; apply IH, Hk, Ha.
Qed.

Lemma wp_then {A B} (p : prog A) (f : A -> prog B) (P : A -> share -> option (Z * Z) -> Prop) Q g h :
  wp p P g h -> (forall a g h, P a g h -> wp (f a) Q g h) -> wp (bind p f) Q g h.
Proof. intros Hp Hf; apply wp_bind; eapply wp_mono; [exact Hp|exact Hf]. Qed.

(** The counters, or the log, stand for an entry of [n] bytes in the shard. *)
Definition stands_for (n s : Z) (g : share) : Prop :=
  if memlog_active then in_log g = n
  else in_total g = n /\ (in_shard g).2 = n /\ (n <> 0 -> (in_shard g).1 = s).

(** At the end of a hook they stand for the entry of the block it returns. *)
Definition settled (g : share) (h : option (Z * Z)) : Prop :=
  to_raise g = None /\
  match entry g with
  | Some n => exists p, h = Some (p, n) /\ block_size n /\ (spoiled g = false -> stands_for n (accounting_shard_for p) g)
  | None => spoiled g = false -> stands_for 0 0 g
  end.

(** Only the counters changed, to [n] (while the log is not active). *)
Record counted (n s : Z) (g g' : share) : Prop := {
  co_entry : entry g' = entry g;
  co_log : in_log g' = in_log g;
  co_raise : to_raise g' = None;
  co_known : known g' = known g;
  co_spoiled : spoiled g' = spoiled g;
  co_count : memlog_active = false -> in_total g' = n /\ (in_shard g').2 = n /\ (n <> 0 -> (in_shard g').1 = s)
}.

(** One action at a time: its condition, then every answer. *)
Ltac answer :=
  split; [simpl; auto|simpl; let Ha := fresh "Ha" in intros ? ? ? Ha;
    repeat match goal with
    | H : _ /\ _ |- _ => destruct H
    | H : exists _, _ |- _ => destruct H
    | H : _ \/ _ |- _ => destruct H
    end; simplify_eq/=].

Lemma account_add_spec s size wanted (Q : bool * PeakTrackingTransition -> share -> option (Z * Z) -> Prop) g h :
  0 <= size -> to_raise g = None -> (memlog_active = false -> in_total g = 0 /\ (in_shard g).2 = 0) ->
  (forall t g', counted size s g g' -> Q (true, t) g' h) ->
  (forall t g', memlog_active = false -> counted 0 s g g' -> Q (false, t) g' h) ->
  wp (tracking_account_add s size wanted) Q g h.
Proof.
  intros Hs Hr Hz Hyes Hno; unfold tracking_account_add; apply wp_bind.
  assert (Hrest : forall t, wp (bind (perform LoadMemlogActive) (fun active =>
    if active then Ret (true, t) else
    bind (perform (ShardAdd s size)) (fun added =>
      if negb added then Ret (false, t)
      else bind (tracking_fallback_account_add size) (fun counted =>
        if counted then Ret (true, t) else bind (perform (ShardSub s size)) (fun _ => Ret (false, t)))))) Q g h).
  { intros t; answer; destruct memlog_active eqn:Em; simpl.
    { apply Hyes; constructor; auto; congruence. }
    destruct (Hz eq_refl) as [Ht Hsh]; answer; [answer|].
    - answer; apply Hno; [reflexivity|]; constructor; simpl; auto; intros _; split_and!; auto; lia.
    - answer; apply Hyes; constructor; simpl; auto; intros _; split_and!; auto; lia.
    - apply Hno; [reflexivity|]; constructor; auto; intros _; split_and!; auto; lia. }
  destruct wanted; [|apply Hrest]; answer; apply Hrest.
Qed.

Lemma account_remove_spec s size (Q : PeakTrackingTransition -> share -> option (Z * Z) -> Prop) g h :
  0 <= size -> to_raise g = None ->
  (memlog_active = false -> in_total g = size /\ (in_shard g).2 = size /\ (size <> 0 -> (in_shard g).1 = s)) ->
  (forall t g', counted 0 s g g' -> Q t g' h) ->
  wp (tracking_account_remove s size) Q g h.
Proof.
  intros Hs Hr Hc HQ; unfold tracking_account_remove; answer; answer; destruct memlog_active eqn:Em; simpl.
  - apply HQ; constructor; auto; congruence.
  - destruct (Hc eq_refl) as (Ht & Hsh & Hi); answer; answer; [lia|].
    apply HQ; constructor; simpl; auto; intros _; split_and!; auto; lia.
Qed.

(** The log gets the change of a size; nothing happens while it is not active. *)
Lemma publish_spec size kind t (Q : unit -> share -> option (Z * Z) -> Prop) g h :
  block_size size ->
  Q tt (if memlog_active then add_in_log (if kind =? 2 then - size else size) g else g) h ->
  wp (publish size kind t) Q g h.
Proof.
  intros [_ Hs] HQ; unfold publish, size_to_event_delta, log_event.
  destruct (Z.ltb_spec INT64_MAX size); [lia|]; answer; destruct memlog_active eqn:Em; simpl; [answer|].
  all: repeat match goal with r : unit |- _ => destruct r end; exact HQ.
Qed.

Lemma open_spec (Q : bool -> share -> option (Z * Z) -> Prop) g h : Q true g h -> wp tracking_open Q g h.
Proof. intros HQ; unfold tracking_open; answer; answer; exact HQ. Qed.

#[local] Opaque tracking_account_add tracking_account_remove publish tracking_open.

(** No entry, the counters clear, the log still holding [n] bytes. *)
Record detached (n : Z) (g : share) : Prop := {
  de_entry : entry g = None;
  de_raise : to_raise g = None;
  de_sound : spoiled g = false;
  de_count : if memlog_active then in_log g = n else in_total g = 0 /\ (in_shard g).2 = 0
}.

Lemma detached_settled g h : detached 0 g -> settled g h.
Proof.
  intros [He Hr Hs Hc]; split; [exact Hr|]; rewrite He; intros _; unfold stands_for.
  destruct memlog_active; [exact Hc|]; destruct Hc; split_and!; auto; lia.
Qed.

Lemma counted_zero s g g' n : entry g = None -> spoiled g = false -> counted 0 s g g' -> (memlog_active = true -> in_log g = n) -> detached n g'.
Proof.
  intros He Hs [H1 H2 H3 H4 H5 H6] Hl; constructor; try congruence.
  destruct memlog_active eqn:Em; [rewrite H2; auto|]; destruct (H6 eq_refl) as (? & ? & _); auto.
Qed.

Lemma add_entry_spec ptr size log (Q : unit -> share -> option (Z * Z) -> Prop) g :
  block_size size -> detached 0 g -> (forall g', settled g' (Some (ptr, size)) -> Q tt g' (Some (ptr, size))) ->
  wp (add_tracking_entry ptr size log) Q g (Some (ptr, size)).
Proof.
  intros Hb Hd HQ; pose proof (detached_settled g (Some (ptr, size)) Hd) as Hset; destruct Hd as [He Hr Hs Hc].
  unfold add_tracking_entry; apply wp_bind, open_spec; simpl; destruct log; simpl; [|auto].
  split; [simpl; split_and!; [exists size; reflexivity|exact He|apply Hb]|].
  intros r g1 h1 (-> & [[-> ->]|(-> & -> & _)]); simpl; [|auto]; apply wp_bind, account_add_spec; simpl.
  - apply Hb.
  - exact Hr.
  - intros Hm; rewrite Hm in Hc; exact Hc.
  - intros t g' [H1 H2 H3 H4 H5 H6]; simpl in *; apply publish_spec; [exact Hb|]; simpl; apply HQ; split; [|].
    + destruct memlog_active; exact H3.
    + replace (entry _) with (Some size) by (destruct memlog_active; simpl; congruence).
      exists ptr; split_and!; [reflexivity|apply Hb..|]; intros _; unfold stands_for.
      destruct memlog_active eqn:Em; simpl; [rewrite H2, Hc; reflexivity|auto].
  - intros t g' Hm Hcount; simpl in *; split; [exists size; reflexivity|].
    intros r g2 h2 (-> & _ & ->); simpl; apply HQ, detached_settled.
    destruct Hcount as [H1 H2 H3 H4 H5 H6]; simpl in *; constructor; simpl; auto; [congruence|].
    rewrite Hm in *; destruct (H6 eq_refl) as (? & ? & _); auto.
Qed.

(** The share a hook starts with when it is given a block. *)
Record given (ptr size : Z) (g : share) : Prop := {
  gi_size : block_size size;
  gi_raise : to_raise g = None;
  gi_sound : spoiled g = false;
  gi_entry : match entry g with
             | Some n => n = size /\ stands_for size (accounting_shard_for ptr) g
             | None => stands_for 0 0 g
             end
}.

Lemma detach_entry_spec ptr size (Q : option (Z * PeakTrackingTransition) -> share -> option (Z * Z) -> Prop) g :
  given ptr size g ->
  (forall t g', detached size g' -> known g' = true -> Q (Some (size, t)) g' (Some (ptr, size))) ->
  (forall g', detached 0 g' -> Q None g' (Some (ptr, size))) ->
  wp (detach_tracking_entry ptr) Q g (Some (ptr, size)).
Proof.
  intros [Hb Hr Hs He] Hsome Hnone; unfold detach_tracking_entry; apply wp_bind, open_spec; simpl.
  split; [exists size; reflexivity|]; intros r g1 h1 (-> & -> & ->).
  unfold stands_for in He; destruct (entry g) as [n|] eqn:Ee; simpl.
  - destruct He as [-> Hst]; apply wp_bind, account_remove_spec; simpl; [apply Hb|exact Hr| |].
    + intros Hm; rewrite Hm in Hst; exact Hst.
    + intros t g' Hcount; apply Hsome.
      * eapply counted_zero; [| |exact Hcount|]; simpl; auto; intros Hm; rewrite Hm in Hst; exact Hst.
      * destruct Hcount as [_ _ _ H4 _ _]; rewrite H4; simpl; apply orb_true_r.
  - apply Hnone; constructor; simpl; auto; destruct memlog_active; tauto.
Qed.

Lemma restore_entry_spec ptr size (Q : unit -> share -> option (Z * Z) -> Prop) g :
  block_size size -> detached size g -> known g = true ->
  (forall g', settled g' (Some (ptr, size)) -> Q tt g' (Some (ptr, size))) ->
  wp (restore_tracking_entry ptr size) Q g (Some (ptr, size)).
Proof.
  intros Hb [He Hr Hs Hc] Hk HQ; unfold restore_tracking_entry.
  split; [simpl; split_and!; [exists size; reflexivity|exact He|apply Hb]|].
  intros r g1 h1 (-> & [[-> ->]|(_ & _ & [?|?])]); simpl; [|congruence|unfold block_size, INT64_MAX, SIZE_MAX, UINT64_MAX in *; lia].
  unfold tracking_account_restore; apply wp_bind, wp_bind, account_add_spec; simpl.
  - apply Hb.
  - exact Hr.
  - intros Hm; rewrite Hm in Hc; exact Hc.
  - intros t g' [H1 H2 H3 H4 H5 H6]; simpl in *; apply HQ; split; [exact H3|]; rewrite H1.
    exists ptr; split_and!; [reflexivity|apply Hb..|]; intros _; unfold stands_for.
    destruct memlog_active eqn:Em; [rewrite H2; exact Hc|auto].
  - intros t g' Hm [H1 H2 H3 H4 H5 H6]; simpl in *; split; [exact I|]; intros [] g2 h2 [-> ->].
    apply HQ; split; [exact H3|]; simpl; rewrite H1; exists ptr; split_and!; [reflexivity|apply Hb..|discriminate].
Qed.

Lemma commit_entry_spec ptr size (Q : option PeakTrackingTransition -> share -> option (Z * Z) -> Prop) g :
  block_size size -> detached 0 g ->
  (forall t g', entry g' = Some size -> to_raise g' = None -> spoiled g' = false ->
     (if memlog_active then in_log g' = 0 else stands_for size (accounting_shard_for ptr) g') ->
     Q (Some t) g' (Some (ptr, size))) ->
  (forall g', detached 0 g' -> Q None g' (Some (ptr, size))) ->
  wp (commit_reallocated_entry ptr size) Q g (Some (ptr, size)).
Proof.
  intros Hb Hd Hsome Hnone; pose proof Hd as [He Hr Hs Hc]; unfold commit_reallocated_entry.
  split; [simpl; split_and!; [exists size; reflexivity|exact He|apply Hb]|].
  intros r g1 h1 (-> & [[-> ->]|(-> & -> & _)]); simpl; [|auto]; apply wp_bind, account_add_spec; simpl.
  - apply Hb.
  - exact Hr.
  - intros Hm; rewrite Hm in Hc; exact Hc.
  - intros t g' [H1 H2 H3 H4 H5 H6]; simpl in *; apply Hsome; try congruence.
    unfold stands_for; destruct memlog_active eqn:Em; [congruence|auto].
  - intros t g' Hm [H1 H2 H3 H4 H5 H6]; simpl in *; split; [exists size; reflexivity|].
    intros r g2 h2 (-> & _ & ->); simpl; apply Hnone; constructor; simpl; auto; [congruence|].
    rewrite Hm in *; destruct (H6 eq_refl) as (? & ? & _); auto.
Qed.

#[local] Opaque add_tracking_entry detach_tracking_entry restore_tracking_entry commit_reallocated_entry.

(** ** The hooks *)

Definition ends_settled {A} (_ : A) (g : share) (h : option (Z * Z)) : Prop := settled g h.

Lemma enter_spec (Q : PeakMallocHookEntry -> share -> option (Z * Z) -> Prop) g h :
  Q PEAK_MALLOC_HOOK_TRACKING g h -> wp (malloc_hook_enter false) Q g h.
Proof. intros HQ; unfold malloc_hook_enter; answer; answer; exact HQ. Qed.

(** Leaving the hook changes nothing. *)
Lemma leave_spec {A} (a : A) (Q : A -> share -> option (Z * Z) -> Prop) g h :
  Q a g h -> wp (bind malloc_hook_leave (fun _ => Ret a)) Q g h.
Proof. intros HQ; answer; exact HQ. Qed.

Lemma detached_known g k : detached 0 g -> detached 0 (set_entry None k g).
Proof. intros []; constructor; auto. Qed.

Lemma track_allocation_spec size g :
  detached 0 g -> wp (track_allocation size) ends_settled g None.
Proof.
  intros Hd; unfold track_allocation; split; [split; [reflexivity|apply Hd]|].
  intros r g1 h1 [(-> & -> & ->)|(Hr & Hb & -> & ->)]; simpl.
  - apply leave_spec, detached_settled, Hd.
  - destruct (Z.eqb_spec r 0); [congruence|]; simpl; split; [exact I|]; intros flag g2 h2 [-> ->]; simpl.
    apply wp_bind, add_entry_spec; [exact Hb|apply detached_known, Hd|].
    intros g' Hset; apply leave_spec, Hset.
Qed.

(** The share the detached entry of a block leaves, once its removal is logged. *)
Lemma removed_detached n g : detached n g -> detached 0 (if memlog_active then add_in_log (- n) g else g).
Proof.
  intros [He Hr Hs Hc]; destruct memlog_active eqn:Em; constructor; simpl; auto; rewrite Em in *; [lia|auto].
Qed.

Lemma custom_free_spec ptr size g :
  ptr <> 0 -> given ptr size g -> wp (custom_free false ptr) ends_settled g (Some (ptr, size)).
Proof.
  intros Hp Hg; unfold custom_free; destruct (Z.eqb_spec ptr 0); [congruence|].
  apply wp_bind, enter_spec, wp_bind, (detach_entry_spec ptr size); [exact Hg| |].
  - intros t g' Hd Hk; split; [split; [exists size; reflexivity|apply Hd]|]; intros [] g1 h1 [-> ->]; simpl.
    apply wp_bind, publish_spec; [apply Hg|]; simpl; apply leave_spec, detached_settled, removed_detached, Hd.
  - intros g' Hd; split; [split; [exists size; reflexivity|apply Hd]|]; intros [] g1 h1 [-> ->].
    apply leave_spec, detached_settled, Hd.
Qed.

(** The new block after a successful [realloc]. *)
Lemma realloc_commit_spec new_ptr size t g :
  block_size size -> detached 0 g ->
  wp (bind (commit_reallocated_entry new_ptr size) (fun committed =>
        match committed with Some t => publish size 1 t | None => Ret t end)) ends_settled g (Some (new_ptr, size)).
Proof.
  intros Hb Hd; apply wp_bind, commit_entry_spec; [exact Hb|exact Hd| |].
  - intros t' g' He Hr Hs Hc; apply publish_spec; [exact Hb|]; simpl; split; [destruct memlog_active; exact Hr|].
    replace (entry _) with (Some size) by (destruct memlog_active; simpl; congruence).
    exists new_ptr; split_and!; [reflexivity|apply Hb..|]; intros _; unfold stands_for in *.
    destruct memlog_active; simpl; [lia|exact Hc].
  - intros g' Hd'; apply detached_settled, Hd'.
Qed.

Lemma custom_realloc_spec ptr old size g :
  ptr <> 0 -> given ptr old g -> wp (custom_realloc false ptr size) ends_settled g (Some (ptr, old)).
Proof.
  intros Hp Hg; unfold custom_realloc; apply wp_bind, enter_spec; destruct (Z.eqb_spec ptr 0); [congruence|].
  apply wp_bind, (detach_entry_spec ptr old); [exact Hg| |].
  - intros t g' Hd Hk; split; [split; [exists old; reflexivity|apply Hd]|].
    intros r g1 h1 [(-> & -> & ->)|[(-> & -> & -> & ->)|(Hr & Hf & Hb & -> & ->)]]; simpl.
    + rewrite orb_true_r; apply wp_bind, restore_entry_spec; [apply Hg|exact Hd|exact Hk|].
      intros g2 Hset; apply leave_spec, Hset.
    + apply wp_bind, publish_spec; [apply Hg|]; simpl; apply leave_spec, detached_settled, removed_detached, Hd.
    + destruct r as [new_ptr enomem]; simpl in *; subst; destruct (Z.eqb_spec new_ptr 0); [congruence|]; simpl.
      apply wp_bind, publish_spec; [apply Hg|]; simpl.
      apply (wp_then _ _ ends_settled); [|intros [] g3 h3 Hset; apply leave_spec, Hset].
      apply realloc_commit_spec; [exact Hb|].
      apply (removed_detached old (set_entry None false g')); destruct Hd; constructor; auto.
  - intros g' Hd; split; [split; [exists old; reflexivity|apply Hd]|].
    intros r g1 h1 [(-> & -> & ->)|[(-> & -> & -> & ->)|(Hr & Hf & Hb & -> & ->)]]; simpl.
    + rewrite orb_true_r; apply leave_spec, detached_settled, Hd.
    + apply leave_spec, detached_settled, Hd.
    + destruct r as [new_ptr enomem]; simpl in *; subst; destruct (Z.eqb_spec new_ptr 0); [congruence|]; simpl.
      split; [exact I|]; intros flag g2 h2 [-> ->]; simpl; apply wp_bind, add_entry_spec;
        [exact Hb|apply detached_known, Hd|intros g3 Hset; apply leave_spec, Hset].
Qed.

Definition start_share (q : request) (g : share) (h : option (Z * Z)) : Prop :=
  if given_up q =? 0 then h = None /\ detached 0 g else exists size, h = Some (given_up q, size) /\ given (given_up q) size g.

Lemma hook_spec q g h : start_share q g h -> wp (hook_of q) ends_settled g h.
Proof.
  unfold start_share; destruct q as [size|n size|a size|a size|ptr|ptr size]; cbn [given_up hook_of].
  1-4: intros [-> Hd]; apply wp_bind, enter_spec.
  1,3,4: apply track_allocation_spec, Hd.
  - destruct (_ && _); [apply leave_spec, detached_settled, Hd|apply track_allocation_spec, Hd].
  - destruct (Z.eqb_spec ptr 0) as [->|]; [intros [-> Hd]; apply detached_settled, Hd|].
    intros (size & -> & Hg); apply custom_free_spec; assumption.
  - destruct (Z.eqb_spec ptr 0) as [->|Hne]; [intros [-> Hd]|intros (old & -> & Hg); apply custom_realloc_spec; assumption].
    apply wp_bind, enter_spec, track_allocation_spec, Hd.
Qed.
End logic.
