(* ===== verification/MemTrackingSystem.v ===== *)
(** * Tracking of allocations: what holds in every interleaving

    While the hooks are installed, the shares of the running hooks and the
    entries of the application's blocks add up to the counters (or the log).
    During the teardown, a hook that works on the tables is counted in its
    activity shard until it leaves, so none is left when the scan has found
    every counter at zero. *)

From S2P Require Import Prelude MemLog MemLogProofs MemTracking MemTrackingProofs.

(** ** Sums over the application's blocks *)

Definition gsum (f : Z -> Z) (a : gmap Z Z) : Z := map_fold (fun p _ acc => f p + acc) 0 a.

Lemma gsum_insert f a p v : a !! p = None -> gsum f (<[p := v]> a) = f p + gsum f a.
Proof. intros H; unfold gsum; rewrite map_fold_insert_L; [reflexivity|intros; lia|exact H]. Qed.

Lemma gsum_delete f a p v : a !! p = Some v -> gsum f (delete p a) = gsum f a - f p.
Proof.
  intros H; rewrite <- (insert_delete_id a p v H) at 2; rewrite gsum_insert by apply lookup_delete_eq; lia.
Qed.

Lemma gsum_ext f f' a : (forall p, is_Some (a !! p) -> f p = f' p) -> gsum f a = gsum f' a.
Proof.
  induction a as [|p v a Hp IH] using map_ind; intros H; [reflexivity|].
  rewrite !gsum_insert by exact Hp; rewrite H by (rewrite lookup_insert_eq; eauto); rewrite IH; [reflexivity|].
  intros q [w Hq]; apply H; rewrite lookup_insert_ne by congruence; eauto.
Qed.

Lemma gsum_nonneg f a : (forall p, is_Some (a !! p) -> 0 <= f p) -> 0 <= gsum f a.
Proof.
  induction a as [|p v a Hp IH] using map_ind; intros H; [vm_compute; discriminate|].
  rewrite gsum_insert by exact Hp; assert (0 <= f p) by (apply H; rewrite lookup_insert_eq; eauto).
  assert (0 <= gsum f a); [|lia]; apply IH; intros q [w Hq]; apply H; rewrite lookup_insert_ne by congruence; eauto.
Qed.

Definition entry_size (m : tracking) (p : Z) : Z := default 0 (tracked m !! p).
Definition entry_in (m : tracking) (s p : Z) : Z := if accounting_shard_for p =? s then entry_size m p else 0.
Definition share_in (s : Z) (g : share) : Z := if (in_shard g).1 =? s then (in_shard g).2 else 0.
Definition logged (es : list (PeakTrackingTransition * Z * Z)) : Z := total (fun e => e.1.2) es.

Definition idle_share : share := mkShare None (0, 0) 0 0 None false false.

Section accounting.
Context (memlog_active : bool) (storage : layout).
Abbreviation detached := (detached memlog_active).

(** ** Ownership of blocks and entries *)

Record owned (m : tracking) (ts : list thread) (gs : list share) : Prop := {
  ow_app : forall p size, app m !! p = Some size -> p <> 0 /\ block_size size /\
    (tracked m !! p = None \/ tracked m !! p = Some size);
  ow_held : forall i t g p size, ts !! i = Some t -> gs !! i = Some g -> held t = Some (p, size) ->
    (p <> 0 /\ block_size size) /\ tracked m !! p = entry g /\ (known g = true -> p ∈ prepared m) /\ app m !! p = None;
  ow_entry : forall i t g, ts !! i = Some t -> gs !! i = Some g -> held t = None -> entry g = None;
  ow_distinct : forall i j t u p n n', ts !! i = Some t -> ts !! j = Some u ->
    held t = Some (p, n) -> held u = Some (p, n') -> i = j;
  ow_tracked : forall p, is_Some (tracked m !! p) ->
    p ∈ prepared m /\ (is_Some (app m !! p) \/ exists i t n, ts !! i = Some t /\ held t = Some (p, n))
}.

(** ** The counters *)

Record sums (m : tracking) (gs : list share) : Prop := {
  su_shards : memlog_active = false -> forall s,
    shard_bytes (counts m) s = gsum (entry_in m s) (app m) + total (share_in s) gs;
  su_total : memlog_active = false ->
    fallback_current_memory (counts m) = gsum (entry_size m) (app m) + total in_total gs;
  su_log : memlog_active = true -> logged (events m) + logged (lost m) = gsum (entry_size m) (app m) + total in_log gs
}.

(** The maximum is the largest total so far, or a thread will raise it to that. *)
Record peaks (c : counters) (gs : list share) : Prop := {
  pk_total : 0 <= fallback_current_memory c <= peak c;
  pk_max : max_memory c <= peak c;
  pk_raise : forall i g v, gs !! i = Some g -> to_raise g = Some v -> v <= peak c;
  pk_reached : peak c <= max_memory c \/ exists i g v, gs !! i = Some g /\ to_raise g = Some v /\ peak c <= v
}.

Definition share_nonneg (g : share) : Prop := 0 <= (in_shard g).2 /\ 0 <= in_total g.

Definition thread_sound (t : thread) (g : share) : Prop :=
  share_nonneg g /\
  match running t with
  | None => held t = None /\ g = idle_share
  | Some p => wp memlog_active p (ends_settled memlog_active) g (held t)
  end.

Definition in_range (c : counters) : Prop :=
  (forall s, 0 <= shard_bytes c s <= G_MAXULONG) /\ 0 <= fallback_current_memory c <= G_MAXULONG.

Record tracking_inv (s : system) (gs : list share) : Prop := {
  tv_open : cleanup_in_progress (memory s) = false /\ tracking_tables_active (memory s) = true;
  tv_length : length gs = length (threads s);
  tv_threads : forall i t g, threads s !! i = Some t -> gs !! i = Some g -> thread_sound t g;
  tv_owned : owned (memory s) (threads s) gs;
  tv_ranges : in_range (counts (memory s));
  tv_spoiled : forall g, g ∈ gs -> spoiled g = true -> overflowed (counts (memory s)) = true;
  tv_sums : overflowed (counts (memory s)) = false -> sums (memory s) gs;
  tv_peaks : overflowed (counts (memory s)) = false -> memlog_active = false -> peaks (counts (memory s)) gs
}.

Lemma entry_nonneg m ts gs p : owned m ts gs -> is_Some (app m !! p) -> 0 <= entry_size m p.
Proof.
  intros Ho [v Hp]; destruct (ow_app _ _ _ Ho p v Hp) as (_ & Hb & [E|E]); unfold entry_size; rewrite E; simpl; [lia|apply Hb].
Qed.

Lemma entry_in_nonneg m ts gs s p : owned m ts gs -> is_Some (app m !! p) -> 0 <= entry_in m s p.
Proof. intros Ho Hp; unfold entry_in; destruct (_ =? _); [eapply entry_nonneg; eauto|lia]. Qed.

(** A block nobody owns. *)
Lemma not_busy s p : p ∉ busy_blocks s -> app (memory s) !! p = None /\
  forall i t n, threads s !! i = Some t -> held t <> Some (p, n).
Proof.
  unfold busy_blocks; rewrite not_elem_of_app; intros [Ha Hh]; split.
  - destruct (app (memory s) !! p) as [v|] eqn:E; [|reflexivity]; exfalso; apply Ha, list_elem_of_fmap.
    exists (p, v); split; [reflexivity|apply elem_of_map_to_list, E].
  - intros i t n Ht E; apply Hh, list_elem_of_In, in_concat; exists (held_block t); split.
    + apply in_map, list_elem_of_In, list_elem_of_lookup; eauto.
    + unfold held_block; rewrite E; left; reflexivity.
Qed.

(** ** One thread moves *)

Definition private_block (i : nat) (p : Z) (m : tracking) (ts : list thread) : Prop :=
  app m !! p = None /\ forall j u n, j <> i -> ts !! j = Some u -> held u <> Some (p, n).

Lemma owned_update m m' ts gs i t t' g g' :
  owned m ts gs -> ts !! i = Some t -> gs !! i = Some g -> app m' = app m ->
  (forall p, (forall n, held t <> Some (p, n)) -> tracked m' !! p = tracked m !! p) -> prepared m ⊆ prepared m' ->
  match held t' with
  | None => entry g' = None
  | Some (p, n) => (p <> 0 /\ block_size n) /\ tracked m' !! p = entry g' /\ (known g' = true -> p ∈ prepared m') /\ private_block i p m ts
  end ->
  (forall p n, held t = Some (p, n) -> is_Some (tracked m' !! p) -> p ∈ prepared m' /\ exists n', held t' = Some (p, n')) ->
  owned m' (<[i := t']> ts) (<[i := g']> gs).
Proof.
  intros Ho Ht Hg Happ Htr Hpr Hnew Hleft; pose proof Ho as [Ha Hh He Hd Hk].
  assert (Hothers : forall j u p n, ts !! j = Some u -> j <> i -> held u = Some (p, n) -> forall n', held t <> Some (p, n')).
  { intros j u p n Hu Hne Hp n' Hp'; apply Hne; eapply Hd; eauto. }
  constructor.
  - intros p size; rewrite Happ; intros Hp; rewrite Htr; [apply Ha, Hp|]; intros n E.
    destruct (Hh i t g p n Ht Hg E) as (_ & _ & _ & Hnone); congruence.
  - intros j u gu p n Hu Hgu Hp; rewrite Happ.
    apply lookup_insert_cases in Hu as [(-> & -> & _)|[Hne Hu]]; apply lookup_insert_cases in Hgu as [(? & -> & _)|[? Hgu]]; try congruence.
    + rewrite Hp in Hnew; destruct Hnew as (? & ? & ? & [? ?]); auto.
    + destruct (Hh j u gu p n Hu Hgu Hp) as (? & ? & ? & ?); rewrite Htr; [|eapply Hothers; eauto].
      split; [assumption|split_and!; auto].
  - intros j u gu Hu Hgu Hp.
    apply lookup_insert_cases in Hu as [(-> & -> & _)|[Hne Hu]]; apply lookup_insert_cases in Hgu as [(? & -> & _)|[? Hgu]]; try congruence; [|eauto].
    rewrite Hp in Hnew; exact Hnew.
  - intros j k u v p n n' Hu Hv Hp Hp'.
    apply lookup_insert_cases in Hu as [(-> & -> & _)|[Hne Hu]]; apply lookup_insert_cases in Hv as [(? & -> & _)|[Hne' Hv]];
      [congruence| | |eauto]; [rewrite Hp in Hnew|rewrite Hp' in Hnew]; destruct Hnew as (_ & _ & _ & _ & Hpriv); exfalso.
    + eapply (Hpriv k v); eauto.
    + eapply (Hpriv j u); eauto.
  - intros p Hp; rewrite Happ.
    destruct (held t) as [[p' n']|] eqn:Eh; [destruct (decide (p = p')) as [->|Hne]|].
    + destruct (Hleft p' n' eq_refl Hp) as [? [n2 ?]]; split; [assumption|]; right; exists i, t', n2.
      split; [apply list_lookup_insert_eq; eapply lookup_lt_Some; eauto|assumption].
    + rewrite Htr in Hp by (intros; congruence); destruct (Hk p Hp) as [? [?|(j & u & n & Hu & Hpu)]]; split; auto.
      right; exists j, u, n; split; [rewrite list_lookup_insert_ne; [exact Hu|]|exact Hpu]; intros <-; congruence.
    + rewrite Htr in Hp by (intros; congruence); destruct (Hk p Hp) as [? [?|(j & u & n & Hu & Hpu)]]; split; auto.
      right; exists j, u, n; split; [rewrite list_lookup_insert_ne; [exact Hu|]|exact Hpu]; intros <-; congruence.
Qed.

(** The block and its entry stay as they are. *)
Lemma owned_same m m' ts gs i t t' g g' :
  owned m ts gs -> ts !! i = Some t -> gs !! i = Some g ->
  app m' = app m -> tracked m' = tracked m -> prepared m' = prepared m ->
  held t' = held t -> entry g' = entry g -> known g' = known g -> owned m' (<[i := t']> ts) (<[i := g']> gs).
Proof.
  intros Ho Ht Hg Ha Htr Hpr Hh He Hk; eapply owned_update; eauto.
  - intros; rewrite Htr; reflexivity.
  - rewrite Hpr; reflexivity.
  - rewrite Hh; destruct (held t) as [[p n]|] eqn:E; [|rewrite He; eapply ow_entry; eauto].
    destruct (ow_held _ _ _ Ho i t g p n Ht Hg E) as (? & ? & ? & ?); rewrite Htr, Hpr, He, Hk; split; [assumption|split_and!; auto].
    split; [assumption|]; intros j u n' Hne Hu E'; apply Hne; eapply (ow_distinct _ _ _ Ho); eauto.
  - intros p n E Hp; rewrite Htr in Hp; destruct (ow_tracked _ _ _ Ho p Hp); rewrite Hpr, Hh, E; eauto.
Qed.

Lemma sums_update m m' ts gs i g g' :
  owned m ts gs -> sums m gs -> gs !! i = Some g -> app m' = app m ->
  (forall p, is_Some (app m !! p) -> tracked m' !! p = tracked m !! p) ->
  (memlog_active = false -> forall s, shard_bytes (counts m') s - shard_bytes (counts m) s = share_in s g' - share_in s g) ->
  (memlog_active = false -> fallback_current_memory (counts m') - fallback_current_memory (counts m) = in_total g' - in_total g) ->
  (memlog_active = true -> logged (events m') + logged (lost m') - (logged (events m) + logged (lost m)) = in_log g' - in_log g) ->
  sums m' (<[i := g']> gs).
Proof.
  intros Ho [H1 H2 H3] Hg Ha Htr D1 D2 D3.
  assert (Hsize : gsum (entry_size m') (app m) = gsum (entry_size m) (app m)).
  { apply gsum_ext; intros p Hp; unfold entry_size; rewrite Htr by exact Hp; reflexivity. }
  assert (Hin : forall s, gsum (entry_in m' s) (app m) = gsum (entry_in m s) (app m)).
  { intros s; apply gsum_ext; intros p Hp; unfold entry_in, entry_size; rewrite Htr by exact Hp; reflexivity. }
  constructor; intros Hm; [intros s; specialize (D1 Hm s); specialize (H1 Hm s)|specialize (D2 Hm); specialize (H2 Hm)|
    specialize (D3 Hm); specialize (H3 Hm)]; rewrite Ha, (total_insert _ _ _ _ _ Hg), ?Hin, ?Hsize; lia.
Qed.

Lemma peaks_same c c' gs i g g' :
  peaks c gs -> gs !! i = Some g -> fallback_current_memory c' = fallback_current_memory c ->
  peak c' = peak c -> max_memory c' = max_memory c -> to_raise g' = to_raise g -> peaks c' (<[i := g']> gs).
Proof.
  intros [H1 H2 H3 H4] Hg Ef Ep Em Er; constructor; rewrite ?Ef, ?Ep, ?Em; auto.
  - intros j h v Hj Hv; apply lookup_insert_cases in Hj as [(-> & -> & _)|[_ Hj]]; [|eauto].
    eapply (H3 j g); eauto; congruence.
  - destruct H4 as [?|(j & h & v & Hj & Hv & Hle)]; [auto|right].
    destruct (decide (i = j)) as [->|Hne].
    + exists j, g', v; split_and!; [apply list_lookup_insert_eq; eapply lookup_lt_Some; eauto|congruence|exact Hle].
    + exists j, h, v; split_and!; [rewrite list_lookup_insert_ne by exact Hne; exact Hj|exact Hv|exact Hle].
Qed.

(** What an action of thread [i] leaves behind, with its new share. *)
Record moved {R} (x : act R) (s : system) (gs : list share) (i : nat) (t : thread) (g : share)
    (r : R) (m' : tracking) (h' : option (Z * Z)) (g' : share) : Prop := {
  mv_answer : answers memlog_active x g (held t) r g' h';
  mv_nonneg : share_nonneg g';
  mv_flags : cleanup_in_progress m' = false /\ tracking_tables_active m' = true;
  mv_owned : forall t', held t' = h' -> owned m' (<[i := t']> (threads s)) (<[i := g']> gs);
  mv_ranges : in_range (counts m');
  mv_spoiled : spoiled g' = true -> overflowed (counts m') = true;
  mv_overflowed : overflowed (counts (memory s)) = true -> overflowed (counts m') = true;
  mv_sums : overflowed (counts m') = false -> sums m' (<[i := g']> gs);
  mv_peaks : overflowed (counts m') = false -> memlog_active = false -> peaks (counts m') (<[i := g']> gs)
}.

Section action.
Context (s : system) (gs : list share) (i : nat) (t : thread) (g : share).
Context (Hinv : tracking_inv s gs) (Ht : threads s !! i = Some t) (Hg : gs !! i = Some g) (Hnn : share_nonneg g).

Lemma spoiled_overflowed : spoiled g = true -> overflowed (counts (memory s)) = true.
Proof. apply (tv_spoiled _ _ Hinv), list_elem_of_lookup; eauto. Qed.

(** Blocks and entries stay; the numbers are the action's business. *)
Lemma moved_numbers {R} (x : act R) r m' g' :
  answers memlog_active x g (held t) r g' (held t) -> share_nonneg g' -> in_range (counts m') ->
  app m' = app (memory s) -> tracked m' = tracked (memory s) -> prepared m' = prepared (memory s) ->
  cleanup_in_progress m' = cleanup_in_progress (memory s) -> tracking_tables_active m' = tracking_tables_active (memory s) ->
  entry g' = entry g -> known g' = known g -> spoiled g' = spoiled g ->
  overflowed (counts m') = overflowed (counts (memory s)) ->
  (overflowed (counts (memory s)) = false -> memlog_active = false -> forall s',
     shard_bytes (counts m') s' - shard_bytes (counts (memory s)) s' = share_in s' g' - share_in s' g) ->
  (overflowed (counts (memory s)) = false -> memlog_active = false ->
     fallback_current_memory (counts m') - fallback_current_memory (counts (memory s)) = in_total g' - in_total g) ->
  (memlog_active = true -> logged (events m') + logged (lost m') - (logged (events (memory s)) + logged (lost (memory s))) = in_log g' - in_log g) ->
  (overflowed (counts (memory s)) = false -> memlog_active = false -> peaks (counts m') (<[i := g']> gs)) ->
  moved x s gs i t g r m' (held t) g'.
Proof.
  intros Hans Hnn' Hrg Ha Htr Hpr Hc Hac He Hk Hsp Hov D1 D2 D3 Hpk.
  pose proof (tv_owned _ _ Hinv) as Ho; constructor; auto.
  - rewrite Hc, Hac; apply (tv_open _ _ Hinv).
  - intros t' Hh; eapply owned_same; eauto.
  - rewrite Hsp, Hov; apply spoiled_overflowed.
  - rewrite Hov; auto.
  - rewrite Hov; intros Hf; eapply sums_update; eauto; [apply (tv_sums _ _ Hinv Hf)|intros; rewrite Htr; reflexivity].
  - rewrite Hov; exact Hpk.
Qed.

(** Nothing the invariant looks at changes. *)
Lemma moved_neutral {R} (x : act R) r m' g' :
  answers memlog_active x g (held t) r g' (held t) -> g' = g ->
  app m' = app (memory s) -> tracked m' = tracked (memory s) -> prepared m' = prepared (memory s) ->
  cleanup_in_progress m' = cleanup_in_progress (memory s) -> tracking_tables_active m' = tracking_tables_active (memory s) ->
  shard_bytes (counts m') = shard_bytes (counts (memory s)) ->
  fallback_current_memory (counts m') = fallback_current_memory (counts (memory s)) ->
  max_memory (counts m') = max_memory (counts (memory s)) -> peak (counts m') = peak (counts (memory s)) ->
  overflowed (counts m') = overflowed (counts (memory s)) -> events m' = events (memory s) -> lost m' = lost (memory s) ->
  moved x s gs i t g r m' (held t) g'.
Proof.
  intros Hans -> Ha Htr Hpr Hc Hac Hsh Hfb Hmx Hpk Hov Hev Hlo; apply moved_numbers; auto.
  - unfold in_range; rewrite Hsh, Hfb; apply (tv_ranges _ _ Hinv).
  - intros _ _ s'; rewrite Hsh; lia.
  - intros; lia.
  - intros; rewrite Hev, Hlo; lia.
  - intros Hf Hm; eapply peaks_same; eauto; apply (tv_peaks _ _ Hinv Hf Hm).
Qed.

(** The block or its entry changes; counters and log stay. *)
Lemma moved_table {R} (x : act R) r m' h' g' :
  answers memlog_active x g (held t) r g' h' ->
  app m' = app (memory s) -> counts m' = counts (memory s) -> events m' = events (memory s) -> lost m' = lost (memory s) ->
  cleanup_in_progress m' = cleanup_in_progress (memory s) -> tracking_tables_active m' = tracking_tables_active (memory s) ->
  in_shard g' = in_shard g -> in_total g' = in_total g -> in_log g' = in_log g -> to_raise g' = to_raise g ->
  spoiled g' = spoiled g ->
  (forall p, (forall n, held t <> Some (p, n)) -> tracked m' !! p = tracked (memory s) !! p) ->
  prepared (memory s) ⊆ prepared m' ->
  match h' with
  | None => entry g' = None
  | Some (p, n) => (p <> 0 /\ block_size n) /\ tracked m' !! p = entry g' /\ (known g' = true -> p ∈ prepared m') /\ private_block i p (memory s) (threads s)
  end ->
  (forall p n, held t = Some (p, n) -> is_Some (tracked m' !! p) -> p ∈ prepared m' /\ exists n', h' = Some (p, n')) ->
  moved x s gs i t g r m' h' g'.
Proof.
  intros Hans Ha Hco Hev Hls Hc Hac Hsh Hto Hlo Hra Hsp Htr Hpr Hnew Hleft; pose proof (tv_owned _ _ Hinv) as Ho.
  constructor; rewrite ?Hco; auto.
  - unfold share_nonneg; rewrite Hsh, Hto; exact Hnn.
  - rewrite Hc, Hac; apply (tv_open _ _ Hinv).
  - intros t' <-; eapply owned_update; eauto.
  - apply (tv_ranges _ _ Hinv).
  - rewrite Hsp; apply spoiled_overflowed.
  - intros Hf; eapply sums_update; eauto; [apply (tv_sums _ _ Hinv Hf)|..].
    + intros p [v Hp]; apply Htr; intros n E.
      destruct (ow_held _ _ _ Ho i t g p n Ht Hg E) as (_ & _ & _ & Hnone); congruence.
    + intros _ s'; rewrite Hco; unfold share_in; rewrite Hsh; lia.
    + intros _; rewrite Hco; lia.
    + intros _; rewrite Hev, Hls; lia.
  - intros Hf Hm; eapply peaks_same; eauto; rewrite <- ?Hco; try reflexivity; rewrite ?Hco; apply (tv_peaks _ _ Hinv Hf Hm).
Qed.

Lemma fresh_private a : a ∉ busy_blocks s -> private_block i a (memory s) (threads s) /\ tracked (memory s) !! a = None.
Proof.
  intros Hb; apply not_busy in Hb as [Ha Hh]; split; [split; [exact Ha|eauto]|].
  destruct (tracked (memory s) !! a) eqn:E; [|reflexivity]; exfalso.
  destruct (ow_tracked _ _ _ (tv_owned _ _ Hinv) a) as [_ [[v Hv]|(j & u & n & Hu & E')]]; [eauto|congruence|eapply Hh; eauto].
Qed.

Lemma held_private p n : held t = Some (p, n) -> private_block i p (memory s) (threads s).
Proof.
  intros E; pose proof (tv_owned _ _ Hinv) as Ho; split; [apply (ow_held _ _ _ Ho i t g p n Ht Hg E)|].
  intros j u n' Hne Hu E'; apply Hne; eapply (ow_distinct _ _ _ Ho); eauto.
Qed.

Abbreviation run_act x ch := (act_step memlog_active storage x ch (busy_blocks s) i (activity_shard t) (memory s) (held t)).

(** *** Blocks *)

Lemma alloc_moved size ch r m' h' :
  pre (OriginalAlloc size) g (held t) -> run_act (OriginalAlloc size) ch = Some (r, m', h') ->
  exists g', moved (OriginalAlloc size) s gs i t g r m' h' g'.
Proof.
  intros [Hn He]; simpl; destruct (c_address ch =? 0) eqn:E0; breflect.
  { intros [= <- <- <-]; exists g; apply moved_neutral; simpl; auto. }
  destruct (_ && _) eqn:E; [|discriminate]; intros [= <- <- <-]; breflect.
  assert (Hfresh : c_address ch ∉ busy_blocks s) by (eapply bool_decide_eq_true_1; eauto).
  destruct (fresh_private _ Hfresh) as [Hp Htr].
  exists (set_entry None false g); apply moved_table; simpl; auto.
  - right; split_and!; auto; split; assumption.
  - split_and!; auto; try discriminate; split; assumption.
  - intros p n E'; congruence.
Qed.

Lemma free_moved ptr ch r m' h' :
  pre (OriginalFree ptr) g (held t) -> run_act (OriginalFree ptr) ch = Some (r, m', h') ->
  exists g', moved (OriginalFree ptr) s gs i t g r m' h' g'.
Proof.
  intros [[n Hh] He]; simpl; intros [= <- <- <-]; exists g; apply moved_table; simpl; auto.
  intros p n' E Hs; assert (p = ptr) as -> by congruence.
  destruct (ow_held _ _ _ (tv_owned _ _ Hinv) i t g ptr n Ht Hg Hh) as (_ & Etr & _); rewrite Etr, He in Hs.
  apply is_Some_None in Hs as [].
Qed.

Lemma realloc_moved ptr size ch r m' h' :
  pre (OriginalRealloc ptr size) g (held t) -> run_act (OriginalRealloc ptr size) ch = Some (r, m', h') ->
  exists g', moved (OriginalRealloc ptr size) s gs i t g r m' h' g'.
Proof.
  intros [[n Hh] He]; simpl; destruct (ow_held _ _ _ (tv_owned _ _ Hinv) i t g ptr n Ht Hg Hh) as (Hp0 & Etr & Hkn & Happ).
  assert (Hleft : forall p n', held t = Some (p, n') -> is_Some (tracked (memory s) !! p) -> False).
  { intros p n' E Hs; assert (p = ptr) as -> by congruence; rewrite Etr, He in Hs; apply is_Some_None in Hs as []. }
  destruct (c_flag ch).
  { intros [= <- <- <-]; exists g; apply moved_neutral; simpl; auto. }
  destruct ((size =? 0) && (c_address ch =? 0)) eqn:E0; breflect.
  { intros [= <- <- <-]; exists g; apply moved_table; simpl; auto 10; intros p n' E Hs; destruct (Hleft p n' E Hs). }
  destruct (_ && _ && _ && _) eqn:E; [|discriminate]; intros [= <- <- <-]; breflect.
  assert (Hor : c_address ch = ptr \/ c_address ch ∉ busy_blocks s).
  { match goal with Hor : _ || _ = true |- _ => apply orb_true_iff in Hor as [Hor|Hor]; [left; breflect; exact Hor|] end.
    right; eapply bool_decide_eq_true_1; eauto. }
  exists (set_entry None false g); apply moved_table; simpl; auto.
  - right; right; simpl; split_and!; auto; [lia|split; assumption].
  - split_and!; [lia|split; assumption| |discriminate|].
    + destruct Hor as [->|Hor]; [congruence|apply fresh_private, Hor].
    + destruct Hor as [->|Hor]; [eapply held_private; eauto|apply fresh_private, Hor].
  - intros p n' E' Hs; destruct (Hleft p n' E' Hs).
Qed.

(** *** Entries *)

Lemma insert_moved ptr size ch r m' h' :
  pre (TrackInsert ptr size) g (held t) -> run_act (TrackInsert ptr size) ch = Some (r, m', h') ->
  exists g', moved (TrackInsert ptr size) s gs i t g r m' h' g'.
Proof.
  intros ([n Hh] & He & Hs); simpl.
  destruct (ow_held _ _ _ (tv_owned _ _ Hinv) i t g ptr n Ht Hg Hh) as (Hp0 & Etr & Hkn & Happ).
  destruct (_ || _) eqn:E; intros [= <- <- <-].
  - exists g; apply moved_neutral; simpl; auto; split; [reflexivity|right; split_and!; auto].
    apply orb_true_iff in E as [E|E]; [apply orb_true_iff in E as [E|E]|].
    + breflect; auto.
    + apply bool_decide_eq_true_1 in E; rewrite Etr, He in E; apply is_Some_None in E as [].
    + apply andb_true_iff in E as [_ E]; apply bool_decide_eq_true_1 in E; left.
      destruct (known g); [exfalso; auto|reflexivity].
  - exists (set_entry (Some size) true g); apply moved_table; simpl; auto.
    + intros p Hp; apply lookup_insert_ne; intros <-; eapply Hp; eauto.
    + set_solver.
    + rewrite Hh; split; [exact Hp0|split_and!]; [apply lookup_insert_eq|set_solver|eapply held_private; eauto].
    + intros p n' E' _; assert (p = ptr) as -> by congruence; split; [set_solver|eauto].
Qed.

Lemma remove_moved ptr ch r m' h' :
  pre (TrackRemove ptr) g (held t) -> run_act (TrackRemove ptr) ch = Some (r, m', h') ->
  exists g', moved (TrackRemove ptr) s gs i t g r m' h' g'.
Proof.
  intros [n Hh]; simpl; intros [= <- <- <-].
  destruct (ow_held _ _ _ (tv_owned _ _ Hinv) i t g ptr n Ht Hg Hh) as (Hp0 & Etr & Hkn & Happ).
  exists (set_entry None (known g || bool_decide (is_Some (entry g))) g); apply moved_table; simpl; auto.
  - intros p Hp; apply lookup_delete_ne; intros <-; eapply Hp; eauto.
  - rewrite Hh; split; [exact Hp0|split_and!]; [apply lookup_delete_eq| |eapply held_private; eauto].
    intros Hk; apply orb_true_iff in Hk as [Hk|Hk]; [auto|]; apply bool_decide_eq_true_1 in Hk.
    rewrite <- Etr in Hk; apply (ow_tracked _ _ _ (tv_owned _ _ Hinv) ptr Hk).
  - intros p n' E Hs; assert (p = ptr) as -> by congruence; rewrite lookup_delete_eq in Hs; apply is_Some_None in Hs as [].
Qed.

(** *** Counters *)

Lemma share_in_same s' v : share_in s' (set_in_shard s' v g) = v.
Proof. unfold share_in; simpl; rewrite Z.eqb_refl; reflexivity. Qed.

Lemma shares_nonneg g1 : g1 ∈ gs -> share_nonneg g1.
Proof.
  intros Hin; apply list_elem_of_lookup in Hin as [j Hj]; pose proof (lookup_lt_Some _ _ _ Hj) as Hlt.
  rewrite (tv_length _ _ Hinv) in Hlt; apply lookup_lt_is_Some_2 in Hlt as [u Hu].
  apply (tv_threads _ _ Hinv j u g1 Hu Hj).
Qed.

Lemma share_le_shard s' :
  overflowed (counts (memory s)) = false -> memlog_active = false -> share_in s' g <= shard_bytes (counts (memory s)) s'.
Proof.
  intros Hf Hm; rewrite (su_shards _ _ (tv_sums _ _ Hinv Hf) Hm s').
  pose proof (gsum_nonneg (entry_in (memory s) s') (app (memory s))
    (fun p Hp => entry_in_nonneg _ _ _ s' p (tv_owned _ _ Hinv) Hp)).
  assert (share_in s' g <= total (share_in s') gs); [|lia]; apply (total_member_in _ _ i); [|exact Hg].
  intros g1 Hin; apply shares_nonneg in Hin as [? _]; unfold share_in; destruct (_ =? _); lia.
Qed.

Lemma share_le_total :
  overflowed (counts (memory s)) = false -> memlog_active = false -> in_total g <= fallback_current_memory (counts (memory s)).
Proof.
  intros Hf Hm; rewrite (su_total _ _ (tv_sums _ _ Hinv Hf) Hm).
  pose proof (gsum_nonneg (entry_size (memory s)) (app (memory s))
    (fun p Hp => entry_nonneg _ _ _ p (tv_owned _ _ Hinv) Hp)).
  assert (in_total g <= total in_total gs); [|lia]; apply (total_member_in _ _ i); [|exact Hg].
  intros g1 Hin; apply shares_nonneg in Hin as [_ ?]; lia.
Qed.

Lemma peaks_kept c' g' :
  overflowed (counts (memory s)) = false -> memlog_active = false -> fallback_current_memory c' = fallback_current_memory (counts (memory s)) ->
  peak c' = peak (counts (memory s)) -> max_memory c' = max_memory (counts (memory s)) -> to_raise g' = to_raise g ->
  peaks c' (<[i := g']> gs).
Proof. intros Hf Hm; apply peaks_same; [apply (tv_peaks _ _ Hinv Hf Hm)|exact Hg]. Qed.

Lemma shard_add_moved s' size ch r m' h' :
  pre (ShardAdd s' size) g (held t) -> run_act (ShardAdd s' size) ch = Some (r, m', h') ->
  exists g', moved (ShardAdd s' size) s gs i t g r m' h' g'.
Proof.
  intros [Hs Hz]; simpl; destruct (_ <? _) eqn:E; breflect; intros [= <- <- <-].
  { exists g; apply moved_neutral; simpl; auto. }
  pose proof (tv_ranges _ _ Hinv) as [Hr1 Hr2]; exists (set_in_shard s' size g); apply moved_numbers; simpl; auto; try lia.
  - split; [exact Hs|apply Hnn].
  - split; [|exact Hr2]; intros j; simpl; destruct (j =? s'); [specialize (Hr1 s'); lia|apply Hr1].
  - intros _ _ j; unfold share_in; simpl; rewrite Hz, (Z.eqb_sym j s'); destruct (Z.eqb_spec s' j); subst; destruct (_ =? j); lia.
  - intros Hf Hm; apply peaks_kept; auto.
Qed.

Lemma shard_sub_moved s' size ch r m' h' :
  pre (ShardSub s' size) g (held t) -> run_act (ShardSub s' size) ch = Some (r, m', h') ->
  exists g', moved (ShardSub s' size) s gs i t g r m' h' g'.
Proof.
  intros (Hs & Hz & Hi); simpl; intros [= <- <- <-]; pose proof (tv_ranges _ _ Hinv) as [Hr1 Hr2].
  exists (set_in_shard s' 0 g); apply moved_numbers; simpl; auto; try lia.
  - split; [simpl; lia|apply Hnn].
  - split; [|exact Hr2]; intros j; simpl; destruct (j =? s'); [|apply Hr1].
    pose proof (wrap_range 64 (shard_bytes (counts (memory s)) s' - size) ltac:(lia)); unfold G_MAXULONG, UINT64_MAX; lia.
  - intros Hf Hm j; pose proof (share_le_shard s' Hf Hm) as Hle; specialize (Hr1 s'); unfold G_MAXULONG, UINT64_MAX in *.
    assert (Hsh : forall j, share_in j g = if j =? s' then size else 0).
    { intros j'; unfold share_in; rewrite Hz; destruct (Z.eq_dec size 0) as [->|Hne]; [repeat destruct (_ =? _); reflexivity|].
      rewrite (Hi Hne), Z.eqb_sym; reflexivity. }
    rewrite Hsh, Z.eqb_refl in Hle; rewrite Hsh; unfold share_in; simpl.
    replace (if s' =? j then 0 else 0) with 0 by (destruct (_ =? _); reflexivity).
    destruct (Z.eqb_spec j s') as [->|]; [rewrite wrap_small by lia|]; lia.
  - intros Hf Hm; apply peaks_kept; auto.
Qed.

Lemma shard_fill_moved s' ch r m' h' :
  run_act (ShardFill s') ch = Some (r, m', h') -> exists g', moved (ShardFill s') s gs i t g r m' h' g'.
Proof.
  simpl; intros [= <- <- <-]; exists (spoil g); pose proof (tv_ranges _ _ Hinv) as [Hr1 Hr2].
  constructor; simpl; auto; try discriminate.
  - apply (tv_open _ _ Hinv).
  - intros t' Hh; eapply (owned_same (memory s)); eauto; apply (tv_owned _ _ Hinv).
  - split; [|exact Hr2]; intros j; simpl; destruct (j =? s'); [unfold G_MAXULONG, UINT64_MAX; lia|apply Hr1].
Qed.

Lemma fallback_add_moved size ch r m' h' :
  pre (FallbackAdd size) g (held t) -> run_act (FallbackAdd size) ch = Some (r, m', h') ->
  exists g', moved (FallbackAdd size) s gs i t g r m' h' g'.
Proof.
  intros [Hs Hraise]; simpl; destruct (_ <? _) eqn:E; breflect; intros [= <- <- <-].
  { exists g; apply moved_neutral; simpl; auto. }
  pose proof (tv_ranges _ _ Hinv) as [Hr1 Hr2]; set (v := fallback_current_memory (counts (memory s)) + size) in *.
  exists (set_in_total (in_total g + size) (Some v) g); apply moved_numbers; simpl; auto; try lia.
  - split; [reflexivity|eauto].
  - destruct Hnn; split; simpl; lia.
  - split; [exact Hr1|simpl; lia].
  - intros _ _ j; unfold share_in; simpl; lia.
  - intros Hf Hm; destruct (tv_peaks _ _ Hinv Hf Hm) as [H1 H2 H3 H4]; constructor; simpl; try lia.
    + intros j h v' Hj Hv; apply lookup_insert_cases in Hj as [(-> & -> & _)|[_ Hj]]; [simpl in Hv; simplify_eq; lia|].
      specialize (H3 j h v' Hj Hv); lia.
    + destruct (Z_le_gt_dec v (peak (counts (memory s)))) as [Hle|Hgt].
      * rewrite Z.max_l by lia; destruct H4 as [?|(j & h & v' & Hj & Hv & Hle')]; [auto|right].
        exists j, h, v'; split_and!; auto; rewrite list_lookup_insert_ne; [exact Hj|]; intros ->; congruence.
      * right; exists i, (set_in_total (in_total g + size) (Some v) g), v; split_and!;
          [apply list_lookup_insert_eq; eapply lookup_lt_Some; eauto|reflexivity|lia].
Qed.

Lemma fallback_sub_moved size ch r m' h' :
  pre (FallbackSub size) g (held t) -> run_act (FallbackSub size) ch = Some (r, m', h') ->
  exists g', moved (FallbackSub size) s gs i t g r m' h' g'.
Proof.
  intros Hs; simpl in *; intros [= <- <- <-]; pose proof (tv_ranges _ _ Hinv) as [Hr1 Hr2].
  assert (Hw : overflowed (counts (memory s)) = false -> memlog_active = false ->
    wrap 64 (fallback_current_memory (counts (memory s)) - size) = fallback_current_memory (counts (memory s)) - size).
  { intros Hf Hm; pose proof (share_le_total Hf Hm); unfold G_MAXULONG, UINT64_MAX in *; apply wrap_small; lia. }
  pose proof (wrap_range 64 (fallback_current_memory (counts (memory s)) - size) ltac:(lia)).
  exists (set_in_total (in_total g - size) (to_raise g) g); apply moved_numbers; simpl; auto; try lia.
  - destruct Hnn; split; simpl; lia.
  - split; [exact Hr1|simpl; unfold G_MAXULONG, UINT64_MAX; lia].
  - intros _ _ j; unfold share_in; simpl; lia.
  - intros Hf Hm; rewrite (Hw Hf Hm); lia.
  - intros Hf Hm; rewrite (Hw Hf Hm); destruct (tv_peaks _ _ Hinv Hf Hm) as [H1 H2 H3 H4].
    pose proof (share_le_total Hf Hm); constructor; simpl; rewrite ?Z.max_l by lia; try lia.
    + intros j h v' Hj Hv; apply lookup_insert_cases in Hj as [(-> & -> & _)|[_ Hj]]; eauto.
    + destruct H4 as [?|(j & h & v' & Hj & Hv & Hle)]; [auto|right]; destruct (decide (i = j)) as [->|Hne].
      * exists j, (set_in_total (in_total g - size) (to_raise g) g), v'.
        split_and!; [apply list_lookup_insert_eq; eapply lookup_lt_Some; eauto|simpl; congruence|exact Hle].
      * exists j, h, v'; split_and!; auto; rewrite list_lookup_insert_ne by exact Hne; exact Hj.
Qed.

Lemma max_raise_moved v ch r m' h' :
  pre (MaxRaise v) g (held t) -> run_act (MaxRaise v) ch = Some (r, m', h') ->
  exists g', moved (MaxRaise v) s gs i t g r m' h' g'.
Proof.
  intros Hv; simpl in *; intros [= <- <- <-]; exists (set_in_total (in_total g) None g); apply moved_numbers; simpl; auto; try lia.
  - apply (tv_ranges _ _ Hinv).
  - intros _ _ j; unfold share_in; simpl; lia.
  - intros Hf Hm; destruct (tv_peaks _ _ Hinv Hf Hm) as [H1 H2 H3 H4]; pose proof (H3 i g v Hg Hv) as Hle.
    constructor; simpl; auto.
    + destruct (_ <? _); lia.
    + intros j h v' Hj Hv'; apply lookup_insert_cases in Hj as [(-> & -> & _)|[_ Hj]]; [discriminate|eauto].
    + destruct H4 as [Hm4|(j & h & v' & Hj & Hv' & Hle')]; [left; destruct (Z.ltb_spec (max_memory (counts (memory s))) v); lia|].
      destruct (decide (i = j)) as [->|Hne].
      * left; assert (v' = v) as -> by congruence; destruct (Z.ltb_spec (max_memory (counts (memory s))) v); lia.
      * right; exists j, h, v'; split_and!; auto; rewrite list_lookup_insert_ne by exact Hne; exact Hj.
Qed.

Lemma log_moved tr change kind ch r m' h' :
  run_act (LogEvent tr change kind) ch = Some (r, m', h') ->
  exists g', moved (LogEvent tr change kind) s gs i t g r m' h' g'.
Proof.
  simpl; intros [= <- <- <-]; exists (add_in_log change g); apply moved_numbers; simpl; auto; try lia.
  - apply (tv_ranges _ _ Hinv).
  - intros _ _ j; unfold share_in; simpl; lia.
  - intros _; unfold logged; destruct (reserve_slot _ _ _).1; simpl; lia.
  - intros Hf Hm; apply peaks_kept; auto.
Qed.

Lemma act_moved {R} (x : act R) ch r m' h' :
  pre x g (held t) -> run_act x ch = Some (r, m', h') -> exists g', moved x s gs i t g r m' h' g'.
Proof.
  pose proof (tv_open _ _ Hinv) as [Hc Ha].
  destruct x; intros Hpre Hrun; eauto using alloc_moved, free_moved, realloc_moved, insert_moved, remove_moved,
    shard_add_moved, shard_sub_moved, shard_fill_moved, fallback_add_moved, fallback_sub_moved, max_raise_moved, log_moved.
  all: simpl in Hrun; injection Hrun as <- <- <-; exists g; apply moved_neutral; simpl; auto.
Qed.
End action.

(** ** Blocks change hands *)

(** A hook returns the block it holds to the application. *)
Lemma owned_return m ts gs i t t' g p n :
  owned m ts gs -> ts !! i = Some t -> gs !! i = Some g -> held t = Some (p, n) ->
  entry g = None \/ entry g = Some n -> held t' = None ->
  owned (set_app (<[p := n]> (app m)) m) (<[i := t']> ts) (<[i := idle_share]> gs).
Proof.
  intros Ho Ht Hg Hp He Hn; destruct (ow_held _ _ _ Ho i t g p n Ht Hg Hp) as ([Hp0 Hb] & Etr & Hkn & Happ).
  pose proof Ho as [Ha Hh Hen Hd Hk]; constructor; simpl.
  - intros q size Hq; destruct (decide (q = p)) as [->|Hne].
    + rewrite lookup_insert_eq in Hq; simplify_eq; rewrite Etr; auto.
    + rewrite lookup_insert_ne in Hq by congruence; apply Ha, Hq.
  - intros j u gu q size Hu Hgu Hq.
    apply lookup_insert_cases in Hu as [(-> & -> & _)|[Hne Hu]]; [congruence|].
    apply lookup_insert_cases in Hgu as [(? & -> & _)|[? Hgu]]; [congruence|].
    destruct (Hh j u gu q size Hu Hgu Hq) as (H1 & H2 & H3 & H4); split; [exact H1|split_and!; auto].
    rewrite lookup_insert_ne; [exact H4|]; intros ->; apply Hne; eapply Hd; eauto.
  - intros j u gu Hu Hgu Hq; apply lookup_insert_cases in Hgu as [(-> & -> & _)|[Hne Hgu]]; [reflexivity|].
    apply lookup_insert_cases in Hu as [(-> & -> & _)|[_ Hu]]; [congruence|eauto].
  - intros j j' u v q n1 n2 Hu Hv Hq Hq'.
    apply lookup_insert_cases in Hu as [(-> & -> & _)|[Hne Hu]]; [congruence|].
    apply lookup_insert_cases in Hv as [(-> & -> & _)|[Hne' Hv]]; [congruence|eauto].
  - intros q Hq; destruct (Hk q Hq) as [Hpr Hown]; split; [exact Hpr|].
    destruct (decide (q = p)) as [->|Hne]; [left; rewrite lookup_insert_eq; eauto|].
    destruct Hown as [?|(j & u & n' & Hu & Hq')]; [left; rewrite lookup_insert_ne by congruence; assumption|right].
    exists j, u, n'; split; [rewrite list_lookup_insert_ne; [exact Hu|]|exact Hq']; intros <-; congruence.
Qed.

(** The application gives a block to a hook. *)
Lemma owned_take m ts gs i t t' g g' p n :
  owned m ts gs -> length gs = length ts -> ts !! i = Some t -> gs !! i = Some g -> held t = None -> app m !! p = Some n ->
  held t' = Some (p, n) -> entry g' = tracked m !! p -> (known g' = true -> is_Some (tracked m !! p)) ->
  owned (set_app (delete p (app m)) m) (<[i := t']> ts) (<[i := g']> gs).
Proof.
  intros Ho Hlen Ht Hg Hn Hp Hp' He Hkn; pose proof Ho as [Ha Hh Hen Hd Hk].
  destruct (Ha p n Hp) as (Hp0 & Hb & Htr).
  assert (Hnotheld : forall j u n', ts !! j = Some u -> held u <> Some (p, n')).
  { intros j u n' Hu E; pose proof (lookup_lt_Some _ _ _ Hu) as Hj; rewrite <- Hlen in Hj.
    apply lookup_lt_is_Some_2 in Hj as [gu Hgu]; destruct (Hh j u gu p n' Hu Hgu E) as (_ & _ & _ & Hnone); congruence. }
  constructor; simpl.
  - intros q size Hq; apply lookup_delete_Some in Hq as [_ Hq]; apply Ha, Hq.
  - intros j u gu q size Hu Hgu Hq.
    apply lookup_insert_cases in Hu as [(-> & -> & _)|[Hne Hu]]; apply lookup_insert_cases in Hgu as [(? & -> & _)|[? Hgu]]; try congruence.
    + rewrite Hp' in Hq; simplify_eq; split; [auto|split_and!; [congruence| |apply lookup_delete_eq]].
      intros Hk'; apply Hk, Hkn, Hk'.
    + destruct (Hh j u gu q size Hu Hgu Hq) as (H1 & H2 & H3 & H4); split; [exact H1|split_and!; auto].
      apply lookup_delete_None; auto.
  - intros j u gu Hu Hgu Hq.
    apply lookup_insert_cases in Hu as [(-> & -> & _)|[Hne Hu]]; [congruence|].
    apply lookup_insert_cases in Hgu as [(-> & -> & _)|[_ Hgu]]; [congruence|eauto].
  - intros j j' u v q n1 n2 Hu Hv Hq Hq'.
    apply lookup_insert_cases in Hu as [(-> & -> & _)|[Hne Hu]]; apply lookup_insert_cases in Hv as [(? & -> & _)|[Hne' Hv]];
      [congruence| | |eauto]; exfalso.
    + rewrite Hp' in Hq; simplify_eq; eapply Hnotheld; eauto.
    + rewrite Hp' in Hq'; simplify_eq; eapply Hnotheld; eauto.
  - intros q Hq; destruct (Hk q Hq) as [Hpr Hown]; split; [exact Hpr|].
    destruct (decide (q = p)) as [->|Hne].
    + right; exists i, t', n; split; [apply list_lookup_insert_eq; eapply lookup_lt_Some; eauto|exact Hp'].
    + destruct Hown as [?|(j & u & n' & Hu & Hq')]; [left; rewrite lookup_delete_ne by congruence; assumption|right].
      exists j, u, n'; split; [rewrite list_lookup_insert_ne; [exact Hu|]|exact Hq']; intros <-; congruence.
Qed.

(** What the share of a finished or a fresh hook adds to the sums. *)
Definition adds (p v : Z) (g : share) : Prop :=
  (memlog_active = false -> in_total g = v /\ forall s, share_in s g = if accounting_shard_for p =? s then v else 0) /\
  (memlog_active = true -> in_log g = v).

Lemma stands_adds p v g : stands_for memlog_active v (accounting_shard_for p) g -> adds p v g.
Proof.
  unfold stands_for, adds; destruct memlog_active; intros H; split; try discriminate; try tauto; intros _.
  destruct H as (Ht & Hs & Hi); split; [exact Ht|]; intros s; unfold share_in; rewrite Hs.
  destruct (Z.eq_dec v 0) as [->|Hne]; [repeat destruct (_ =? _); reflexivity|rewrite (Hi Hne); reflexivity].
Qed.

Lemma stands_zero p q g : stands_for memlog_active 0 p g -> stands_for memlog_active 0 q g.
Proof. unfold stands_for; destruct memlog_active; [tauto|]; intros (? & ? & _); split_and!; auto; congruence. Qed.

Lemma settled_adds g p n : settled memlog_active g (Some (p, n)) -> spoiled g = false -> adds p (default 0 (entry g)) g.
Proof.
  intros [_ He] Hs; destruct (entry g) as [v|]; simpl; [destruct He as (q & [= <- <-] & _ & H)|]; apply stands_adds; auto.
  eapply stands_zero, He, Hs.
Qed.

Lemma share_in_idle s : share_in s idle_share = 0.
Proof. change (share_in s idle_share) with (if 0 =? s then 0 else 0); destruct (_ =? s); reflexivity. Qed.

Lemma idle_adds p : adds p 0 idle_share.
Proof. split; [intros _; split; [reflexivity|]|reflexivity]; intros s; rewrite share_in_idle; destruct (_ =? s); reflexivity. Qed.

(** The entry of a block moves between the application and a share. *)
Lemma sums_transfer m a gs i g g' p v v' :
  sums m gs -> gs !! i = Some g -> adds p v g -> adds p v' g' ->
  gsum (entry_size m) a = gsum (entry_size m) (app m) + v - v' ->
  (forall s, gsum (entry_in m s) a = gsum (entry_in m s) (app m) + (if accounting_shard_for p =? s then v - v' else 0)) ->
  sums (set_app a m) (<[i := g']> gs).
Proof.
  intros [H1 H2 H3] Hg [A1 A2] [B1 B2] D1 D2; constructor; simpl; intros Hm;
    [intros s; specialize (H1 Hm s); destruct (A1 Hm) as [_ A], (B1 Hm) as [_ B]; specialize (A s); specialize (B s)|
     specialize (H2 Hm); destruct (A1 Hm) as [A _], (B1 Hm) as [B _]|specialize (H3 Hm); specialize (A2 Hm); specialize (B2 Hm)];
    rewrite (total_insert _ _ _ _ _ Hg).
  - change (gsum (entry_in (set_app a m) s) a) with (gsum (entry_in m s) a); rewrite D2.
    destruct (_ =? s); lia.
  - change (gsum (entry_size (set_app a m)) a) with (gsum (entry_size m) a); lia.
  - change (gsum (entry_size (set_app a m)) a) with (gsum (entry_size m) a); lia.
Qed.

(** ** Moves of the system *)

Section moves.
Context (s : system) (gs : list share) (i : nat) (t : thread) (g : share).
Context (Hinv : tracking_inv s gs) (Ht : threads s !! i = Some t) (Hg : gs !! i = Some g).

(** Thread [i] becomes [t'] with share [g'] in memory [m']. *)
Lemma inv_set_thread m' t' g' :
  cleanup_in_progress m' = false /\ tracking_tables_active m' = true ->
  thread_sound t' g' -> owned m' (<[i := t']> (threads s)) (<[i := g']> gs) -> in_range (counts m') ->
  (spoiled g' = true -> overflowed (counts m') = true) ->
  (overflowed (counts (memory s)) = true -> overflowed (counts m') = true) ->
  (overflowed (counts m') = false -> sums m' (<[i := g']> gs)) ->
  (overflowed (counts m') = false -> memlog_active = false -> peaks (counts m') (<[i := g']> gs)) ->
  tracking_inv (set_thread i t' m' s) (<[i := g']> gs).
Proof.
  intros Hflags Hsound Ho Hr Hsp Hov Hsum Hpk; constructor; simpl; auto.
  - rewrite !length_insert; apply (tv_length _ _ Hinv).
  - intros j u gu Hu Hgu; apply lookup_insert_cases in Hu as [(-> & -> & _)|[Hne Hu]].
    + apply lookup_insert_cases in Hgu as [(_ & -> & _)|[? _]]; [exact Hsound|congruence].
    + apply lookup_insert_cases in Hgu as [(-> & _)|[_ Hgu]]; [congruence|apply (tv_threads _ _ Hinv j u gu Hu Hgu)].
  - intros gu Hin Hs; apply list_elem_of_lookup in Hin as [j Hj].
    apply lookup_insert_cases in Hj as [(-> & -> & _)|[_ Hj]]; [auto|].
    apply Hov, (tv_spoiled _ _ Hinv gu); [apply list_elem_of_lookup; eauto|exact Hs].
Qed.

Lemma inv_act {R} (x : act R) k ch r m' h' :
  running t = Some (Act x k) -> act_step memlog_active storage x ch (busy_blocks s) i (activity_shard t) (memory s) (held t) = Some (r, m', h') ->
  exists gs', tracking_inv (set_thread i (mkThread (activity_shard t) (Some (k r)) h') m' s) gs'.
Proof.
  intros Hrun Hstep; destruct (tv_threads _ _ Hinv i t g Ht Hg) as [Hnn Hwp]; rewrite Hrun in Hwp; destruct Hwp as [Hpre Hk].
  destruct (act_moved s gs i t g Hinv Ht Hg Hnn x ch r m' h' Hpre Hstep) as [g' [Hans Hnn' Hfl Ho Hr Hsp Hov Hs Hp]].
  exists (<[i := g']> gs); apply inv_set_thread; auto.
  split; [exact Hnn'|]; simpl; apply Hk, Hans.
Qed.

Lemma idle_nonneg : share_nonneg idle_share.
Proof. split; simpl; lia. Qed.

Lemma inv_return v :
  running t = Some (Ret v) ->
  tracking_inv (set_thread i (mkThread (activity_shard t) None None)
    (set_app (match held t with Some (p, size) => <[p := size]> (app (memory s)) | None => app (memory s) end) (memory s)) s)
    (<[i := idle_share]> gs).
Proof.
  intros Hrun; destruct (tv_threads _ _ Hinv i t g Ht Hg) as [_ Hset]; rewrite Hrun in Hset; simpl in Hset.
  assert (Hsp : overflowed (counts (memory s)) = false -> spoiled g = false).
  { intros Hf; destruct (spoiled g) eqn:E; [|reflexivity]; pose proof (spoiled_overflowed s gs i g Hinv Hg E); congruence. }
  apply inv_set_thread; simpl; auto; try discriminate.
  - apply (tv_open _ _ Hinv).
  - split; [apply idle_nonneg|split; reflexivity].
  - destruct Hset as [_ He]; destruct (held t) as [[p n]|] eqn:Eh.
    + eapply owned_return; eauto; [apply (tv_owned _ _ Hinv)|].
      destruct (entry g) as [n'|]; [destruct He as (q & [= <- <-] & _); auto|auto].
    + eapply (owned_update (memory s)); eauto; [apply (tv_owned _ _ Hinv)|simpl; auto|]; intros p n E; congruence.
  - apply (tv_ranges _ _ Hinv).
  - intros Hf; specialize (Hsp Hf); pose proof (tv_sums _ _ Hinv Hf) as Hsum; pose proof (tv_owned _ _ Hinv) as Ho.
    destruct (held t) as [[p n]|] eqn:Eh.
    + destruct (ow_held _ _ _ Ho i t g p n Ht Hg Eh) as (_ & Etr & _ & Happ).
      eapply sums_transfer; eauto; [eapply settled_adds; [exact Hset|exact Hsp]|apply (idle_adds p)| |].
      * rewrite gsum_insert by exact Happ; unfold entry_size at 1; rewrite Etr; lia.
      * intros s'; rewrite gsum_insert by exact Happ; unfold entry_in at 1, entry_size; rewrite Etr; destruct (_ =? s'); lia.
    + assert (Ha : adds 0 0 g).
      { destruct Hset as [_ He]; rewrite (ow_entry _ _ _ Ho i t g Ht Hg Eh) in He; eapply stands_adds, stands_zero, He, Hsp. }
      eapply sums_transfer; eauto; [apply (idle_adds 0)|lia|intros s'; destruct (_ =? s'); lia].
  - intros Hf Hm; eapply peaks_same; eauto; [apply (tv_peaks _ _ Hinv Hf Hm)|]; symmetry; apply Hset.
Qed.

(** The share of a hook that was given a block. *)
Definition given_share (p : Z) (m : tracking) : share :=
  let v := entry_size m p in
  mkShare (tracked m !! p) (accounting_shard_for p, if memlog_active then 0 else v) (if memlog_active then 0 else v)
    (if memlog_active then v else 0) None (bool_decide (is_Some (tracked m !! p))) false.

Lemma given_share_stands p m : stands_for memlog_active (entry_size m p) (accounting_shard_for p) (given_share p m).
Proof. unfold stands_for, given_share; destruct memlog_active; simpl; auto. Qed.

Lemma inv_start_free q :
  running t = None -> given_up q = 0 ->
  tracking_inv (set_thread i (mkThread (activity_shard t) (Some (hook_of q)) None) (memory s) s) (<[i := idle_share]> gs).
Proof.
  intros Hrun Hq; destruct (tv_threads _ _ Hinv i t g Ht Hg) as [_ Hid]; rewrite Hrun in Hid; destruct Hid as [Hh Eg].
  pose proof Hg as Hg'; rewrite Eg in Hg'.
  apply inv_set_thread; simpl; auto; try discriminate.
  - apply (tv_open _ _ Hinv).
  - split; [apply idle_nonneg|]; apply hook_spec; unfold start_share; rewrite Hq; simpl; split; [reflexivity|].
    constructor; simpl; auto; destruct memlog_active; auto.
  - eapply (owned_same _ _ _ _ _ _ _ idle_share); eauto; apply (tv_owned _ _ Hinv).
  - apply (tv_ranges _ _ Hinv).
  - intros Hf; rewrite list_insert_id by exact Hg'; apply (tv_sums _ _ Hinv Hf).
  - intros Hf Hm; rewrite list_insert_id by exact Hg'; apply (tv_peaks _ _ Hinv Hf Hm).
Qed.

Lemma inv_start_given q size :
  running t = None -> given_up q <> 0 -> app (memory s) !! given_up q = Some size ->
  tracking_inv (set_thread i (mkThread (activity_shard t) (Some (hook_of q)) (Some (given_up q, size)))
                  (set_app (delete (given_up q) (app (memory s))) (memory s)) s)
    (<[i := given_share (given_up q) (memory s)]> gs).
Proof.
  intros Hrun Hq Happ; destruct (tv_threads _ _ Hinv i t g Ht Hg) as [_ Hid]; rewrite Hrun in Hid; destruct Hid as [Hh Eg].
  pose proof Hg as Hg'; rewrite Eg in Hg'.
  pose proof (tv_owned _ _ Hinv) as Ho; destruct (ow_app _ _ _ Ho _ _ Happ) as (_ & Hb & Htr).
  pose proof (given_share_stands (given_up q) (memory s)) as Hst.
  assert (Hnn : 0 <= entry_size (memory s) (given_up q)) by (eapply entry_nonneg; eauto).
  apply inv_set_thread; simpl; auto; try discriminate.
  - apply (tv_open _ _ Hinv).
  - split; [unfold share_nonneg, given_share; simpl; destruct memlog_active; lia|]; apply hook_spec; unfold start_share.
    destruct (Z.eqb_spec (given_up q) 0); [congruence|]; exists size; split; [reflexivity|].
    constructor; auto; unfold entry_size in Hst; simpl; destruct Htr as [E|E]; rewrite E in *; auto; eapply stands_zero, Hst.
  - eapply owned_take; eauto; [apply (tv_length _ _ Hinv)|]; simpl; intros Hk; apply bool_decide_eq_true in Hk; exact Hk.
  - apply (tv_ranges _ _ Hinv).
  - intros Hf; eapply (sums_transfer _ _ _ _ idle_share _ (given_up q) 0); eauto;
      [apply (tv_sums _ _ Hinv Hf)|apply idle_adds|apply stands_adds, Hst| |].
    + rewrite (gsum_delete _ _ _ _ Happ); lia.
    + intros s'; rewrite (gsum_delete _ _ _ _ Happ); unfold entry_in at 2; destruct (_ =? s'); lia.
  - intros Hf Hm; eapply (peaks_same _ _ _ _ idle_share); eauto; apply (tv_peaks _ _ Hinv Hf Hm).
Qed.
End moves.

Lemma inv_move s gs mv s' :
  tracking_inv s gs -> teardown s' = NotDetaching -> make_move memlog_active storage mv s = Some s' ->
  exists gs', tracking_inv s' gs'.
Proof.
  intros Hinv Hn; destruct mv as [i q|i ch|f]; simpl.
  - destruct (threads s !! i) as [t|] eqn:Ht; [|discriminate]; destruct (running t) eqn:Hr; [discriminate|].
    destruct (lookup_lt_is_Some_2 gs i) as [g Hg]; [rewrite (tv_length _ _ Hinv); eapply lookup_lt_Some; eauto|].
    destruct (negb (size_ok q)); [discriminate|]; destruct (Z.eqb_spec (given_up q) 0) as [E|E]; [intros [= <-]|].
    + eexists; eapply inv_start_free; eauto.
    + destruct (app (memory s) !! given_up q) as [size|] eqn:Ha; [|discriminate]; intros [= <-].
      eexists; eapply inv_start_given; eauto.
  - destruct (threads s !! i) as [t|] eqn:Ht; [|discriminate]; destruct (running t) as [[v|R x k]|] eqn:Hr; [| |discriminate].
    all: destruct (lookup_lt_is_Some_2 gs i) as [g Hg]; [rewrite (tv_length _ _ Hinv); eapply lookup_lt_Some; eauto|].
    + intros [= <-]; eexists; eapply inv_return; eauto.
    + destruct (act_step _ _ _ _ _ _ _ _ _) as [[[r m'] h']|] eqn:Hs; [|discriminate]; intros [= <-]; eapply inv_act; eauto.
  - unfold detach_step; destruct (teardown s) eqn:E; repeat case_match; intros; simplify_eq/=.
Qed.

Lemma inv_initial shards : tracking_inv (initial_system shards) (map (fun _ => idle_share) shards).
Proof.
  assert (Hz : forall f : share -> Z, f idle_share = 0 -> total f (map (fun _ : nat => idle_share) shards) = 0).
  { intros f Hf; clear -Hf; induction shards as [|x l IH]; simpl; [reflexivity|rewrite Hf, IH; reflexivity]. }
  assert (Hid : forall i g, map (fun _ : nat => idle_share) shards !! i = Some g -> g = idle_share).
  { intros i g Hi; apply list_lookup_fmap_Some in Hi as (? & -> & _); reflexivity. }
  assert (Ht : forall i t, map (fun i => mkThread i None None) shards !! i = Some t -> running t = None /\ held t = None).
  { intros i t Hi; apply list_lookup_fmap_Some in Hi as (? & -> & _); auto. }
  constructor; simpl; auto.
  - rewrite !length_map; reflexivity.
  - intros i t g Hi Hg; apply Hid in Hg as ->; apply Ht in Hi as [Hr Hh]; split; [split; simpl; lia|]; rewrite Hr; auto.
  - constructor; simpl.
    + intros p n; rewrite lookup_empty; discriminate.
    + intros i t g p n Hi _ E; apply Ht in Hi as [_ Hh]; congruence.
    + intros i t g _ Hg _; apply Hid in Hg as ->; reflexivity.
    + intros i j t u p n n' Hi _ E; apply Ht in Hi as [_ Hh]; congruence.
    + intros p; rewrite lookup_empty; intros [? ?]; discriminate.
  - unfold in_range, G_MAXULONG, UINT64_MAX; simpl; split; intros; lia.
  - intros g Hg Hs; apply list_elem_of_lookup in Hg as [i Hi]; apply Hid in Hi as ->; discriminate.
  - intros _; constructor; intros; simpl; rewrite Hz; auto using share_in_idle.
  - intros _ _; constructor; simpl; try lia; intros i g v Hg E; apply Hid in Hg as ->; discriminate.
Qed.

(** Once detaching, always. *)
Lemma detaching_stays l : forall s s',
  make_moves memlog_active storage l s = Some s' -> teardown s' = NotDetaching -> teardown s = NotDetaching.
Proof.
  induction l as [|mv l IH]; intros s s'; simpl; [intros [= ->]; auto|].
  destruct (make_move memlog_active storage mv s) as [s1|] eqn:E; [|discriminate]; intros Hl Hn; specialize (IH _ _ Hl Hn).
  destruct mv as [i q|i ch|f]; simpl in E.
  - repeat (case_match; simplify_eq/=; auto).
  - repeat (case_match; simplify_eq/=; auto).
  - unfold detach_step in E; destruct (teardown s) eqn:Et; repeat case_match; simplify_eq/=; auto.
Qed.

Lemma inv_moves l : forall s gs s',
  tracking_inv s gs -> make_moves memlog_active storage l s = Some s' -> teardown s' = NotDetaching -> exists gs', tracking_inv s' gs'.
Proof.
  induction l as [|mv l IH]; intros s gs s' Hinv; simpl; [intros [= <-]; eauto|].
  destruct (make_move memlog_active storage mv s) as [s1|] eqn:E; [|discriminate]; intros Hl Hn.
  destruct (inv_move s gs mv s1 Hinv (detaching_stays _ _ _ Hl Hn) E) as [gs1 H1]; eauto.
Qed.

(** With no hook running the shares are empty. *)
Lemma idle_total s gs (f : share -> Z) :
  tracking_inv s gs -> (forall t, t ∈ threads s -> running t = None) -> f idle_share = 0 -> total f gs = 0.
Proof.
  intros Hinv Hidle Hf; assert (Hall : forall g, g ∈ gs -> g = idle_share).
  { intros g Hg; apply list_elem_of_lookup in Hg as [i Hi].
    destruct (lookup_lt_is_Some_2 (threads s) i) as [t Ht]; [rewrite <- (tv_length _ _ Hinv); eapply lookup_lt_Some; eauto|].
    destruct (tv_threads _ _ Hinv i t g Ht Hi) as [_ H]; rewrite Hidle in H by (apply list_elem_of_lookup; eauto); apply H. }
  clear Hinv Hidle; induction gs as [|g gs IH]; simpl; [reflexivity|].
  rewrite (Hall g), Hf, IH; auto; [intros; apply Hall; right; assumption|left].
Qed.

(** The entries of the application's blocks are the whole table. *)
Lemma gsum_support (f : Z -> Z) (b : gmap Z Z) : forall a : gmap Z Z, (forall p, is_Some (b !! p) -> is_Some (a !! p)) ->
  (forall p, is_Some (a !! p) -> b !! p = None -> f p = 0) -> gsum f a = gsum f b.
Proof.
  induction b as [|p v b Hp IH] using map_ind; intros a Hsub Hz.
  - rewrite (gsum_ext f (fun _ => 0)) by (intros q Hq; apply Hz; [exact Hq|apply lookup_empty]).
    clear; induction a as [|p v a Hp IH] using map_ind; [reflexivity|rewrite gsum_insert, IH by exact Hp; reflexivity].
  - destruct (Hsub p) as [w Hw]; [rewrite lookup_insert_eq; eauto|].
    rewrite gsum_insert by exact Hp; rewrite <- (IH (delete p a)), (gsum_delete _ _ _ _ Hw); [lia| |].
    + intros q Hq; assert (q <> p) by (intros ->; destruct Hq; congruence).
      rewrite lookup_delete_ne by congruence; apply Hsub; rewrite lookup_insert_ne by congruence; exact Hq.
    + intros q [x Hq] Hb; apply lookup_delete_Some in Hq as [Hne Hq]; apply Hz; [eauto|].
      rewrite lookup_insert_ne by congruence; exact Hb.
Qed.

Lemma idle_support s gs (f : Z -> Z) :
  tracking_inv s gs -> (forall t, t ∈ threads s -> running t = None) ->
  (forall p, tracked (memory s) !! p = None -> f p = 0) -> gsum f (app (memory s)) = gsum f (tracked (memory s)).
Proof.
  intros Hinv Hidle Hf; apply gsum_support; [|auto]; intros p Hp.
  destruct (ow_tracked _ _ _ (tv_owned _ _ Hinv) p Hp) as [_ [?|(i & t & n & Ht & Hh)]]; [assumption|].
  destruct (lookup_lt_is_Some_2 gs i) as [g Hg]; [rewrite (tv_length _ _ Hinv); eapply lookup_lt_Some; eauto|].
  destruct (tv_threads _ _ Hinv i t g Ht Hg) as [_ H]; rewrite Hidle in H by (apply list_elem_of_lookup; eauto).
  destruct H; congruence.
Qed.

(** ** The log *)

(** [n] is the number of threads. *)
Record log_kept (n : nat) (s : system) : Prop := {
  lk_threads : length (threads s) = n;
  lk_windows : length (windows (slots (memory s))) = n;
  lk_events : length (events (memory s)) = length (handed (slots (memory s)));
  lk_lost : dropped (slots (memory s)) = wrap 64 (Z.of_nat (length (lost (memory s))));
  lk_full : lost (memory s) <> [] -> memlog_full (slots (memory s)) = true;
  lk_slots : forall page, layout_ok page storage -> slots_inv storage (slots (memory s))
}.

(** Every other action leaves the log as it is. *)
Definition same_log (m m' : tracking) : Prop := slots m' = slots m /\ events m' = events m /\ lost m' = lost m.

Lemma log_kept_same n s s' :
  log_kept n s -> length (threads s') = length (threads s) -> same_log (memory s) (memory s') -> log_kept n s'.
Proof. intros [] Hl (E1 & E2 & E3); constructor; rewrite ?E1, ?E2, ?E3, ?Hl; assumption. Qed.

Lemma act_log {R} (x : act R) ch busy caller i m h r m' h' :
  act_step memlog_active storage x ch busy caller i m h = Some (r, m', h') ->
  same_log m m' \/ exists e, m' = log_event_write storage caller e m.
Proof.
  destruct x; simpl; intros Hs; repeat (case_match; try discriminate); simplify_eq; try (left; split_and!; reflexivity).
  right; eexists; reflexivity.
Qed.

Lemma log_kept_write n s i t e :
  log_kept n s -> (i < n)%nat -> log_kept n (set_thread i t (log_event_write storage i e (memory s)) s).
Proof.
  intros [Ht Hw He Hd Hf Hs] Hi; set (sl := slots (memory s)) in *.
  pose proof (reserve_outcome storage i sl) as [Hlen Hout].
  constructor; simpl; rewrite ?length_insert; try assumption; fold sl; try congruence.
  - destruct (reserve_slot storage i sl).1; destruct Hout as (Hh & _); rewrite Hh; simpl; congruence.
  - destruct (reserve_slot storage i sl).1; destruct Hout as (_ & Hdr & _); rewrite Hdr; [exact Hd|].
    rewrite Hd; simpl length; rewrite Nat2Z.inj_succ; unfold wrap; rewrite Zplus_mod_idemp_l; reflexivity.
  - destruct (reserve_slot storage i sl).1; destruct Hout as (_ & _ & Hfull); [|intros _; exact Hfull].
    intros Hne; rewrite (Hf Hne) in Hfull; discriminate.
  - intros page Hl; apply (reserve_inv storage page Hl sl i); [eauto|lia].
Qed.

Lemma log_kept_move n s mv s' : log_kept n s -> make_move memlog_active storage mv s = Some s' -> log_kept n s'.
Proof.
  intros Hk; destruct mv as [i q|i ch|f]; simpl.
  - repeat (case_match; try discriminate); intros [= <-]; eapply log_kept_same; eauto;
      (split_and!; reflexivity) || (simpl; apply length_insert).
  - destruct (threads s !! i) as [t|] eqn:Ht; [|discriminate]; destruct (running t) as [[v|R x k]|]; [| |discriminate].
    + intros [= <-]; eapply log_kept_same; eauto; [simpl; apply length_insert|split_and!; reflexivity].
    + destruct (act_step _ _ _ _ _ _ _ _ _) as [[[r m'] h']|] eqn:Hs; [|discriminate]; intros [= <-].
      apply act_log in Hs as [Hsame|[e ->]]; [eapply log_kept_same; eauto; simpl; apply length_insert|].
      apply log_kept_write; [exact Hk|]; rewrite <- (lk_threads _ _ Hk); eapply lookup_lt_Some, Ht.
  - unfold detach_step; repeat (case_match; try discriminate); intros [= <-]; eapply log_kept_same; eauto;
      split_and!; reflexivity.
Qed.

Lemma log_kept_moves n l : forall s s', log_kept n s -> make_moves memlog_active storage l s = Some s' -> log_kept n s'.
Proof.
  induction l as [|mv l IH]; intros s s' Hk; simpl; [intros [= <-]; exact Hk|].
  destruct (make_move memlog_active storage mv s) as [s1|] eqn:E; [|discriminate]; apply IH; eapply log_kept_move; eauto.
Qed.

Lemma log_kept_initial shards : log_kept (length shards) (initial_system shards).
Proof.
  constructor; simpl; try reflexivity; [apply length_map|apply length_replicate|congruence|].
  intros page Hl; eapply no_reservations_inv, Hl.
Qed.

(** What the log dropped: counted, and nothing before the log had taken the
    configured number of events. *)
Lemma log_drops_late l shards s :
  make_moves memlog_active storage l (initial_system shards) = Some s ->
  dropped (slots (memory s)) = wrap 64 (Z.of_nat (length (lost (memory s)))) /\
  (forall page_size capacity, 0 <= capacity -> memlog_layout page_size capacity = Some storage ->
     Z.of_nat (length shards) <= PEAK_MEMLOG_MAX_TRACKED_THREADS ->
     Z.of_nat (length (events (memory s))) < capacity -> lost (memory s) = []).
Proof.
  intros Hl; pose proof (log_kept_moves _ l _ _ (log_kept_initial shards) Hl) as Hk; split; [apply (lk_lost _ _ Hk)|].
  intros page capacity Hc Hlay Hn Hlt; apply memlog_layout_ok in Hlay as [Hok <-]; [|exact Hc].
  destruct (decide (lost (memory s) = [])) as [E|E]; [exact E|exfalso].
  pose proof (full_gave_capacity _ _ _ Hok (lk_slots _ _ Hk _ Hok) (lk_full _ _ Hk E)) as Hg.
  rewrite (lk_windows _ _ Hk), <- (lk_events _ _ Hk) in Hg; lia.
Qed.

(** C23: while the hooks are installed, after any interleaving of the
    allocation hooks on any number of threads, every tracked block belongs to
    the application with exactly the size it asked for or is in the hands of a
    running hook.  When no hook runs (and no rollback of a failed [realloc]
    overflowed a counter), without the log the common counter is the sum of
    the table's entries, each shard's counter the sum of the entries that hash
    to it, and the maximum the largest total there ever was; with the log, the
    changes of the events written and of those the full log dropped add up to
    that sum.  The dropped ones are counted in [dropped] (a 64-bit counter), and
    there are none, so that the log alone adds up, while the log (of a layout
    [peak_memlog_open] computes, with at most the 4096 threads it allows for)
    holds fewer events than the configured capacity. *)
Theorem tracking_accounts_exactly l shards s :
  make_moves memlog_active storage l (initial_system shards) = Some s -> teardown s = NotDetaching ->
  let m := memory s in
  (forall p n, tracked m !! p = Some n ->
     app m !! p = Some n \/ exists i t n', threads s !! i = Some t /\ held t = Some (p, n')) /\
  (overflowed (counts m) = false -> (forall t, t ∈ threads s -> running t = None) ->
     if memlog_active then
       logged (events m) + logged (lost m) = gsum (entry_size m) (tracked m) /\
       dropped (slots m) = wrap 64 (Z.of_nat (length (lost m))) /\
       (forall page_size capacity, 0 <= capacity -> memlog_layout page_size capacity = Some storage ->
          Z.of_nat (length shards) <= PEAK_MEMLOG_MAX_TRACKED_THREADS ->
          Z.of_nat (length (events m)) < capacity -> lost m = [])
     else fallback_current_memory (counts m) = gsum (entry_size m) (tracked m) /\
          (forall k, shard_bytes (counts m) k = gsum (entry_in m k) (tracked m)) /\
          max_memory (counts m) = peak (counts m)).
Proof.
  intros Hl Hn m; destruct (inv_moves l _ _ s (inv_initial shards) Hl Hn) as [gs Hinv]; subst m; split.
  - intros p n Hp; pose proof (tv_owned _ _ Hinv) as Ho.
    destruct (ow_tracked _ _ _ Ho p ltac:(eauto)) as [_ [[v Hv]|?]]; [left|right; assumption].
    destruct (ow_app _ _ _ Ho p v Hv) as (_ & _ & [E|E]); congruence.
  - intros Hf Hidle; destruct (tv_sums _ _ Hinv Hf) as [H1 H2 H3].
    assert (Hsize : gsum (entry_size (memory s)) (app (memory s)) = gsum (entry_size (memory s)) (tracked (memory s))).
    { eapply idle_support; eauto; intros p E; unfold entry_size; rewrite E; reflexivity. }
    pose proof (tv_peaks _ _ Hinv Hf) as Hpk; destruct memlog_active eqn:Em.
    + split; [rewrite H3, Hsize, (idle_total s gs) by auto; lia|].
      eapply log_drops_late; rewrite ?Em; exact Hl.
    + split_and!.
      * rewrite H2, Hsize, (idle_total s gs) by auto; lia.
      * intros k; rewrite H1, (idle_total s gs) by auto using share_in_idle.
        rewrite Z.add_0_r; eapply idle_support; eauto; intros p E; unfold entry_in, entry_size; rewrite E; destruct (_ =? k); reflexivity.
      * destruct (Hpk eq_refl) as [_ P2 _ [P4|(i & g & v & Hg & Hv & _)]]; [lia|].
        destruct (lookup_lt_is_Some_2 (threads s) i) as [t Ht]; [rewrite <- (tv_length _ _ Hinv); eapply lookup_lt_Some; eauto|].
        destruct (tv_threads _ _ Hinv i t g Ht Hg) as [_ H]; rewrite Hidle in H by (apply list_elem_of_lookup; eauto).
        destruct H as [_ ->]; discriminate.
Qed.
End accounting.

(** Two threads allocate at the same time, then one block is freed. *)
Definition steps_of (i n : nat) (address : Z) (flag : bool) : list move :=
  replicate n (Step i (mkChoice address flag 7)).
Definition sample_moves : list move :=
  [Start 0 (CallMalloc 100); Start 1 (CallMalloc 50)] ++ steps_of 0 3 4096 false ++ steps_of 1 3 8192 false ++
  steps_of 0 1 0 true ++ steps_of 1 1 0 true ++ steps_of 0 7 0 false ++ steps_of 1 11 0 false ++ steps_of 0 4 0 false ++
  [Start 1 (CallFree 4096)] ++ steps_of 1 13 0 false.
Definition no_storage : layout := mkLayout 0 0 0 0 0.
Definition sample_system : system :=
  default (initial_system []) (make_moves false no_storage sample_moves (initial_system [3%nat; 3%nat])).

(** With a log of one slot, the second allocation is dropped from it. *)
Definition one_slot : layout := default no_storage (memlog_layout 4096 1).
Definition logged_moves : list move :=
  [Start 0 (CallMalloc 100); Start 1 (CallMalloc 50)] ++ steps_of 0 3 4096 false ++ steps_of 1 3 8192 false ++
  steps_of 0 1 0 true ++ steps_of 1 1 0 true ++ steps_of 0 9 0 false ++ steps_of 1 9 0 false.
Definition logged_system : system :=
  default (initial_system []) (make_moves true one_slot logged_moves (initial_system [3%nat; 3%nat])).

Lemma tracking_accounts_exactly_witness :
  (let m := memory sample_system in
   tracked m !! 8192 = Some 50 /\ tracked m !! 4096 = None /\ fallback_current_memory (counts m) = 50 /\
   gsum (entry_size m) (tracked m) = 50 /\ max_memory (counts m) = 150) /\
  (let m := memory logged_system in
   logged (events m) = 100 /\ logged (lost m) = 50 /\ dropped (slots m) = 1 /\ gsum (entry_size m) (tracked m) = 150).
Proof.
  split.
  - pose proof (tracking_accounts_exactly false no_storage sample_moves [3%nat; 3%nat] sample_system
      ltac:(vm_compute; reflexivity) ltac:(vm_compute; reflexivity)) as [_ Hsum].
    destruct Hsum as (Hf & _ & Hmax).
    + vm_compute; reflexivity.
    + intros t Ht; apply list_elem_of_lookup in Ht as [i Hi]; vm_compute in Hi; destruct i as [|[|i]]; simplify_eq; reflexivity.
    + cbv zeta; rewrite <- Hf, Hmax; split_and!; vm_compute; reflexivity.
  - pose proof (tracking_accounts_exactly true one_slot logged_moves [3%nat; 3%nat] logged_system
      ltac:(vm_compute; reflexivity) ltac:(vm_compute; reflexivity)) as [_ Hsum].
    destruct Hsum as (Hlog & Hdrop & _).
    + vm_compute; reflexivity.
    + intros t Ht; apply list_elem_of_lookup in Ht as [i Hi]; vm_compute in Hi; destruct i as [|[|i]]; simplify_eq; reflexivity.
    + cbv zeta; rewrite <- Hlog, Hdrop; split_and!; vm_compute; reflexivity.
Defined.
