(* ===== verification/MemTrackingTeardown.v ===== *)
(** * Tracking of allocations: the teardown

    [malloc_interceptor_detach] raises [cleanup_in_progress], scans the
    activity counters one by one and releases the tables once it has seen every
    counter at zero.  A hook is counted in its shard from its entry to its exit
    ([phase]); one that enters after the flag was raised only forwards
    ([harmless]).  So when the scan is through no hook is left that could touch
    the tables, the counters or the log. *)

From S2P Require Import Prelude MemLog MemTracking.

(** ** Hooks and the shared tables *)

(** The action works on the tables, the counters or the log. *)
Definition touches {R} (x : act R) : bool :=
  match x with
  | TrackInsert _ _ | TrackRemove _ | NextSequence _ | ShardAdd _ _ | ShardSub _ _ | ShardFill _
  | FallbackAdd _ | FallbackSub _ | MaxRaise _ | LogEvent _ _ _ => true
  | _ => false
  end.

(** What the flag may answer while the cleanup is in progress. *)
Definition cleanup_answer {R} (x : act R) : R -> Prop :=
  match x in act R return R -> Prop with LoadCleanup => fun r => r = true | _ => fun _ => True end.

(** The program touches nothing while the cleanup is in progress. *)
Fixpoint hwp {A} (p : prog A) (Q : A -> Prop) : Prop :=
  match p with
  | Ret a => Q a
  | Act x k => touches x = false /\ forall r, cleanup_answer x r -> hwp (k r) Q
  end.
Definition harmless {A} (p : prog A) : Prop := hwp p (fun _ => True).

Inductive phase := Before | Inside | After.
Definition inside (ph : phase) : bool := match ph with Inside => true | _ => false end.

(** The phases a hook goes through: only its entry happens before it is
    counted, and nothing is touched after it left. *)
Definition phase_step {R} (x : act R) (ph : phase) : option phase :=
  match x, ph with
  | ActivityAdd, Before => Some Inside
  | ActivityAdd, _ => None
  | ActivitySub, Inside => Some After
  | ActivitySub, _ => None
  | _, Before => None
  | _, Inside => Some Inside
  | _, After => if touches x then None else Some After
  end.

Fixpoint pwp {A} (p : prog A) (Q : A -> phase -> Prop) (ph : phase) : Prop :=
  match p with
  | Ret a => Q a ph
  | Act x k => match phase_step x ph with Some ph' => forall r, pwp (k r) Q ph' | None => False end
  end.
Definition outside {A} (_ : A) (ph : phase) : Prop := ph <> Inside.

Lemma hwp_mono {A} (p : prog A) (Q Q' : A -> Prop) : hwp p Q -> (forall a, Q a -> Q' a) -> hwp p Q'.
Proof. induction p as [a|R x k IH]; simpl; [auto|]; intros [Ht Hk] HQ; split; auto. Qed.

Lemma hwp_bind {A B} (p : prog A) (f : A -> prog B) Q : hwp p (fun a => hwp (f a) Q) -> hwp (bind p f) Q.
Proof. induction p as [a|R x k IH]; simpl; [auto|]; intros [Ht Hk]; split; auto. Qed.

Lemma pwp_bind {A B} (p : prog A) (f : A -> prog B) Q ph : pwp p (fun a ph => pwp (f a) Q ph) ph -> pwp (bind p f) Q ph.
Proof.
  revert ph; induction p as [a|R x k IH]; intros ph; simpl; [auto|].
  destruct (phase_step x ph); [|auto]; intros H r; apply IH, H.
Qed.

(** After it left, a hook is harmless. *)
Lemma after_harmless {A} (p : prog A) Q : pwp p Q After -> harmless p.
Proof.
  induction p as [a|R x k IH]; simpl; [exact (fun _ => I)|]; intros H; destruct x; simpl in *; try contradiction;
    split; auto; intros r _; apply IH, H.
Qed.

(** ** The hooks go through the phases *)

(** Actions other than entry and exit keep the hook inside. *)
Definition stays {A} (p : prog A) : Prop := forall (Q : A -> phase -> Prop), (forall a, Q a Inside) -> pwp p Q Inside.

Lemma stays_ret {A} (a : A) : stays (Ret a).
Proof. intros Q H; apply H. Qed.

Lemma stays_perform {R} (x : act R) : phase_step x Inside = Some Inside -> stays (perform x).
Proof. intros Hx Q H; simpl; rewrite Hx; auto. Qed.

Lemma stays_bind {A B} (p : prog A) (f : A -> prog B) : stays p -> (forall a, stays (f a)) -> stays (bind p f).
Proof. intros Hp Hf Q HQ; apply pwp_bind, Hp; intros a; apply Hf, HQ. Qed.

(** Goes through a program action by action. *)
Ltac stay :=
  repeat first
    [ apply stays_ret | (apply stays_perform; reflexivity) | (apply stays_bind; [|intro])
    | progress (unfold tracking_open, tracking_fallback_account_add, tracking_account_add, tracking_account_remove,
        tracking_account_restore, log_event, publish, publish_removed_entry, add_tracking_entry,
        detach_tracking_entry, restore_tracking_entry, commit_reallocated_entry)
    | case_match ].

Lemma stays_add ptr size log : stays (add_tracking_entry ptr size log).
Proof. stay. Qed.
Lemma stays_detach ptr : stays (detach_tracking_entry ptr).
Proof. stay. Qed.
Lemma stays_restore ptr size : stays (restore_tracking_entry ptr size).
Proof. stay. Qed.
Lemma stays_commit ptr size : stays (commit_reallocated_entry ptr size).
Proof. stay. Qed.
Lemma stays_publish size kind t : stays (publish size kind t).
Proof. stay. Qed.

(** From inside, the program leaves in the end. *)
Definition leaves {A} (p : prog A) : Prop := pwp p outside Inside.

Lemma leaves_bind {A B} (p : prog A) (f : A -> prog B) : stays p -> (forall a, leaves (f a)) -> leaves (bind p f).
Proof. intros Hp Hf; apply pwp_bind, Hp; exact Hf. Qed.

Lemma leaves_now {A} (a : A) : leaves (bind malloc_hook_leave (fun _ => Ret a)).
Proof. intros r; simpl; discriminate. Qed.

Ltac leave :=
  repeat first
    [ apply leaves_now
    | (apply leaves_bind; [solve [first [apply stays_add | apply stays_detach | stay]]|intro])
    | case_match ].

Lemma leaves_track size : leaves (track_allocation size).
Proof. unfold track_allocation; leave. Qed.

Lemma leaves_forward {A} (p : prog A) : stays p -> leaves (forward PEAK_MALLOC_HOOK_FORWARDING p).
Proof. intros Hp; unfold forward; apply leaves_bind; [exact Hp|intros a; apply leaves_now]. Qed.

(** A hook is counted, then works on what the flag answered. *)
Lemma enter_phases {A} (f : PeakMallocHookEntry -> prog A) :
  leaves (f PEAK_MALLOC_HOOK_FORWARDING) -> leaves (f PEAK_MALLOC_HOOK_TRACKING) ->
  pwp (bind (malloc_hook_enter false) f) outside Before.
Proof. intros Hf Ht [] [|]; assumption. Qed.

Lemma hook_phases q : pwp (hook_of q) outside Before.
Proof.
  destruct q as [size|n size|a size|a size|ptr|ptr size]; simpl hook_of.
  1,3,4: apply enter_phases; [apply leaves_forward; stay|apply leaves_track].
  - apply enter_phases; [apply leaves_forward; stay|]; case_match; [apply leaves_now|apply leaves_track].
  - unfold custom_free; case_match; [discriminate|]; apply enter_phases; [apply leaves_forward; stay|leave].
  - apply enter_phases; [apply leaves_forward; stay|]; case_match; [apply leaves_track|leave].
Qed.

(** With the flag raised, it only forwards. *)
Lemma enter_harmless {A} (f : PeakMallocHookEntry -> prog A) :
  harmless (f PEAK_MALLOC_HOOK_FORWARDING) -> harmless (bind (malloc_hook_enter false) f).
Proof. intros Hf; split; [reflexivity|]; intros [] _; split; [reflexivity|]; intros r ->; exact Hf. Qed.

Lemma forward_harmless {A} (p : prog A) : harmless p -> harmless (forward PEAK_MALLOC_HOOK_FORWARDING p).
Proof. intros Hp; apply hwp_bind; eapply hwp_mono; [exact Hp|]; intros a _; split; [reflexivity|]; intros; exact I. Qed.

Lemma hook_harmless q : harmless (hook_of q).
Proof.
  destruct q as [size|n size|a size|a size|ptr|ptr size]; simpl hook_of; [| | | |unfold custom_free; case_match; [exact I|]|].
  all: apply enter_harmless, forward_harmless; repeat case_match; repeat (split; [reflexivity|intros; simpl]); exact I.
Qed.

(** ** The invariant *)

Definition shard_count (j : nat) (t : thread) (ph : phase) : Z :=
  if (activity_shard t =? j)%nat && inside ph then 1 else 0.
Definition counted_in (j : nat) (l : list (thread * phase)) : Z := total (fun e => shard_count j e.1 e.2) l.

Definition thread_phase (t : thread) (ph : phase) : Prop :=
  match running t with
  | None => ph = Before
  | Some p => pwp p outside ph /\ (ph = Before -> harmless p)
  end.

Definition thread_harmless (t : thread) : Prop := match running t with Some p => harmless p | None => True end.

Record teardown_inv (s : system) (phs : list phase) : Prop := {
  ti_length : length phs = length (threads s);
  ti_shards : forall t, t ∈ threads s -> (activity_shard t < PEAK_HOOK_ACTIVITY_SHARD_COUNT)%nat;
  ti_phases : forall i t ph, threads s !! i = Some t -> phs !! i = Some ph -> thread_phase t ph;
  ti_activity : forall j, hook_activity (memory s) j = counted_in j (zip (threads s) phs);
  ti_cleanup : teardown s <> NotDetaching -> cleanup_in_progress (memory s) = true;
  (** the shards the scan has passed hold no hook that could touch the tables *)
  ti_scan : match teardown s with
            | Scanning _ next => forall t, t ∈ threads s -> (activity_shard t < next)%nat -> thread_harmless t
            | Quiescent | Released => forall t, t ∈ threads s -> thread_harmless t
            | _ => True
            end
}.

Section teardown.
Context (memlog_active : bool) (storage : layout).

Lemma zip_insert (ts : list thread) (phs : list phase) i t ph :
  zip (<[i := t]> ts) (<[i := ph]> phs) = <[i := (t, ph)]> (zip ts phs).
Proof. revert i phs; induction ts as [|u ts IH]; intros [|i] [|p phs]; simpl; try reflexivity; f_equal; apply IH. Qed.

Lemma zip_lookup (ts : list thread) (phs : list phase) i t ph :
  ts !! i = Some t -> phs !! i = Some ph -> zip ts phs !! i = Some (t, ph).
Proof. intros H1 H2; apply lookup_zip_with_Some; eauto. Qed.

(** Thread [i] becomes [t'] in phase [ph']. *)
Lemma set_thread_inv s phs i t ph t' ph' m' :
  teardown_inv s phs -> threads s !! i = Some t -> phs !! i = Some ph ->
  activity_shard t' = activity_shard t -> thread_phase t' ph' ->
  cleanup_in_progress m' = cleanup_in_progress (memory s) ->
  (forall j, hook_activity m' j = hook_activity (memory s) j - shard_count j t ph + shard_count j t' ph') ->
  (cleanup_in_progress (memory s) = true -> thread_harmless t -> thread_harmless t') ->
  teardown_inv (set_thread i t' m' s) (<[i := ph']> phs).
Proof.
  intros [Hl Hs Hp Ha Hc Hscan] Ht Hph Hsh Htp Hcl Hact Hh.
  assert (Hti : t ∈ threads s) by (apply list_elem_of_lookup; eauto).
  assert (Hin : forall u, u ∈ <[i := t']> (threads s) -> u = t' \/ u ∈ threads s).
  { intros u Hu; apply list_elem_of_lookup in Hu as [j Hj].
    apply lookup_insert_cases in Hj as [(-> & -> & _)|[_ Hj]]; [auto|right; apply list_elem_of_lookup; eauto]. }
  constructor; simpl.
  - rewrite !length_insert; exact Hl.
  - intros u Hu; destruct (Hin u Hu) as [->|]; [rewrite Hsh|]; auto.
  - intros j u p Hu Hpu; apply lookup_insert_cases in Hu as [(-> & -> & _)|[Hne Hu]].
    + apply lookup_insert_cases in Hpu as [(_ & -> & _)|[? _]]; [exact Htp|congruence].
    + apply lookup_insert_cases in Hpu as [(-> & _)|[_ Hpu]]; [congruence|eauto].
  - intros j; rewrite Hact, Ha, zip_insert; unfold counted_in.
    rewrite (total_insert _ _ _ _ _ (zip_lookup _ _ _ _ _ Ht Hph)); simpl; lia.
  - rewrite Hcl; exact Hc.
  - destruct (teardown s) eqn:E; try exact I.
    + intros u Hu Hlt; destruct (Hin u Hu) as [->|]; [apply Hh; [apply Hc; discriminate|apply Hscan; congruence]|auto].
    + intros u Hu; destruct (Hin u Hu) as [->|]; [apply Hh; [apply Hc; discriminate|auto]|auto].
    + intros u Hu; destruct (Hin u Hu) as [->|]; [apply Hh; [apply Hc; discriminate|auto]|auto].
Qed.

(** What an action does to the flag and the activity. *)
Lemma act_activity {R} (x : act R) ch busy c i m h r m' h' ph ph' :
  act_step memlog_active storage x ch busy c i m h = Some (r, m', h') -> phase_step x ph = Some ph' ->
  cleanup_in_progress m' = cleanup_in_progress m /\
  (cleanup_in_progress m = true -> cleanup_answer x r) /\
  forall j, hook_activity m' j = hook_activity m j -
    (if (i =? j)%nat && inside ph then 1 else 0) + (if (i =? j)%nat && inside ph' then 1 else 0).
Proof.
  destruct x, ph; simpl; intros Hs Hp; try discriminate; injection Hp as <-;
    repeat (case_match; try discriminate); injection Hs as <- <- <-;
    (split; [reflexivity|split; [exact (fun H => H) || exact (fun _ => I)|]]); intros j; simpl; unfold add_at;
    repeat rewrite (Nat.eqb_sym j); destruct (i =? j)%nat; simpl; try lia.
Qed.

Lemma teardown_act s phs i t R (x : act R) k ch r m' h' :
  teardown_inv s phs -> threads s !! i = Some t -> running t = Some (Act x k) ->
  act_step memlog_active storage x ch (busy_blocks s) i (activity_shard t) (memory s) (held t) = Some (r, m', h') ->
  exists phs', teardown_inv (set_thread i (mkThread (activity_shard t) (Some (k r)) h') m' s) phs'.
Proof.
  intros Hinv Ht Hr Hs; destruct (lookup_lt_is_Some_2 phs i) as [ph Hph];
    [rewrite (ti_length _ _ Hinv); eapply lookup_lt_Some; eauto|].
  pose proof (ti_phases _ _ Hinv i t ph Ht Hph) as Htp; unfold thread_phase in Htp; rewrite Hr in Htp.
  destruct Htp as [Hp Hb]; simpl in Hp; destruct (phase_step x ph) as [ph'|] eqn:Hps; [|contradiction].
  destruct (act_activity x ch _ _ _ _ _ r m' h' ph ph' Hs Hps) as (Hc & Hans & Hact).
  exists (<[i := ph']> phs); eapply set_thread_inv; eauto.
  - split; [apply Hp|]; intros ->; destruct x, ph; discriminate.
  - unfold thread_harmless; rewrite Hr; simpl; intros Hcl [_ Hk]; apply Hk, Hans, Hcl.
Qed.

(** An idle thread starts a hook, or a hook ends. *)
Lemma teardown_swap s phs i t t' m' :
  teardown_inv s phs -> threads s !! i = Some t -> activity_shard t' = activity_shard t ->
  (running t = None \/ exists v, running t = Some (Ret v)) ->
  match running t' with None => True | Some p => exists q, p = hook_of q end ->
  cleanup_in_progress m' = cleanup_in_progress (memory s) -> hook_activity m' = hook_activity (memory s) ->
  teardown_inv (set_thread i t' m' s) (<[i := Before]> phs).
Proof.
  intros Hinv Ht Hsh Hold Hnew Hc Ha; destruct (lookup_lt_is_Some_2 phs i) as [ph Hph];
    [rewrite (ti_length _ _ Hinv); eapply lookup_lt_Some; eauto|].
  pose proof (ti_phases _ _ Hinv i t ph Ht Hph) as Htp; unfold thread_phase in Htp.
  assert (Hne : ph <> Inside) by (destruct Hold as [E|[v E]]; rewrite E in Htp; [congruence|exact (proj1 Htp)]).
  eapply set_thread_inv; eauto.
  - unfold thread_phase; destruct (running t'); [destruct Hnew as [q ->]|reflexivity].
    split; [apply hook_phases|intros _; apply hook_harmless].
  - intros j; unfold shard_count; replace (inside ph) with false by (destruct ph; [reflexivity|congruence|reflexivity]).
    simpl; rewrite !andb_false_r, Ha; lia.
  - intros _ _; unfold thread_harmless; destruct (running t'); [destruct Hnew as [q ->]; apply hook_harmless|exact I].
Qed.

(** A shard at zero holds only harmless hooks. *)
Lemma zero_harmless s phs j t :
  teardown_inv s phs -> hook_activity (memory s) j = 0 -> t ∈ threads s -> activity_shard t = j -> thread_harmless t.
Proof.
  intros Hinv Hz Hin Hj; apply list_elem_of_lookup in Hin as [i Ht].
  destruct (lookup_lt_is_Some_2 phs i) as [ph Hph]; [rewrite (ti_length _ _ Hinv); eapply lookup_lt_Some; eauto|].
  pose proof (ti_phases _ _ Hinv i t ph Ht Hph) as Htp; unfold thread_phase, thread_harmless in *.
  destruct (running t) as [p|]; [|exact I]; destruct Htp as [Hp Hb], ph; [auto| |eapply after_harmless, Hp].
  rewrite (ti_activity _ _ Hinv) in Hz; exfalso; cut (shard_count j t Inside <= counted_in j (zip (threads s) phs)).
  - rewrite Hz; unfold shard_count; rewrite Hj, Nat.eqb_refl; simpl; lia.
  - apply (total_member (fun e => shard_count j e.1 e.2) _ i (t, Inside)); [|apply zip_lookup; assumption].
    intros e; unfold shard_count; simpl; destruct (_ && _); lia.
Qed.

Lemma teardown_detach s phs f s' : teardown_inv s phs -> detach_step f s = Some s' -> teardown_inv s' phs.
Proof.
  intros Hinv; pose proof Hinv as [Hl Hs Hp Ha Hc Hscan]; unfold detach_step; destruct (teardown s) eqn:E.
  - intros [= <-]; constructor; simpl; auto.
  - specialize (Hc ltac:(discriminate)); intros [= <-]; constructor; simpl; auto; destruct f; [intros t _ Hlt; lia|exact I].
  - specialize (Hc ltac:(discriminate)); destruct (Nat.ltb_spec next PEAK_HOOK_ACTIVITY_SHARD_COUNT) as [Hlt|Hge].
    + destruct (Z.eqb_spec (hook_activity (memory s) next) 0) as [Hz|Hz].
      * intros [= <-]; constructor; simpl; auto; intros t Ht Hn.
        destruct (decide (activity_shard t = next)) as [He|He]; [eapply zero_harmless; eauto|apply Hscan; [exact Ht|lia]].
      * destruct attempts; intros [= <-]; constructor; simpl; auto; intros t _ Hlt'; lia.
    + intros [= <-]; constructor; simpl; auto; intros t Ht.
      specialize (Hs t Ht); apply Hscan; [exact Ht|lia].
  - specialize (Hc ltac:(discriminate)); intros [= <-]; constructor; simpl; auto.
  - discriminate.
  - discriminate.
Qed.

Lemma teardown_move s phs mv s' :
  teardown_inv s phs -> make_move memlog_active storage mv s = Some s' -> exists phs', teardown_inv s' phs'.
Proof.
  intros Hinv; destruct mv as [i q|i ch|f]; simpl.
  - destruct (threads s !! i) as [t|] eqn:Ht; [|discriminate]; destruct (running t) eqn:Hr; [discriminate|].
    destruct (negb (size_ok q)); [discriminate|]; repeat (case_match; try discriminate); intros [= <-];
      eexists; eapply teardown_swap; eauto; simpl; eauto.
  - destruct (threads s !! i) as [t|] eqn:Ht; [|discriminate]; destruct (running t) as [[v|R x k]|] eqn:Hr; [| |discriminate].
    + intros [= <-]; eexists; eapply teardown_swap; eauto; simpl; eauto.
    + destruct (act_step _ _ _ _ _ _ _ _ _) as [[[r m'] h']|] eqn:Hs; [|discriminate]; intros [= <-]; eapply teardown_act; eauto.
  - intros Hd; exists phs; eapply teardown_detach; eauto.
Qed.

Lemma teardown_initial shards :
  Forall (fun j => (j < PEAK_HOOK_ACTIVITY_SHARD_COUNT)%nat) shards ->
  teardown_inv (initial_system shards) (map (fun _ => Before) shards).
Proof.
  intros Hall; constructor; simpl; auto.
  - rewrite !length_map; reflexivity.
  - intros t Ht; apply list_elem_of_fmap in Ht as (j & -> & Hj); eapply Forall_forall in Hall; eauto.
  - intros i t ph Ht Hp; apply list_lookup_fmap_Some in Ht as (? & -> & _); apply list_lookup_fmap_Some in Hp as (? & -> & _).
    reflexivity.
  - intros j; clear Hall; unfold counted_in; induction shards as [|x l IH]; simpl; [reflexivity|].
    rewrite <- IH; unfold shard_count; simpl; rewrite andb_false_r; reflexivity.
Qed.

Lemma teardown_moves l : forall s phs s', teardown_inv s phs -> make_moves memlog_active storage l s = Some s' -> exists phs', teardown_inv s' phs'.
Proof.
  induction l as [|mv l IH]; intros s phs s' Hinv; simpl; [intros [= <-]; eauto|].
  destruct (make_move memlog_active storage mv s) as [s1|] eqn:E; [|discriminate]; intros Hl.
  destruct (teardown_move s phs mv s1 Hinv E) as [phs1 H1]; eauto.
Qed.

(** C24: when the teardown has found the hooks quiescent, and after it released
    the tables, no hook touches the tables, the counters or the log, now or
    later: whatever runs next, the action a thread is about to perform is none
    of those (hooks that started after the flag was raised only forward). *)
Theorem no_access_after_release l l' shards s s' i t R (x : act R) k :
  Forall (fun j => (j < PEAK_HOOK_ACTIVITY_SHARD_COUNT)%nat) shards ->
  make_moves memlog_active storage l (initial_system shards) = Some s -> teardown s = Quiescent ->
  make_moves memlog_active storage l' s = Some s' ->
  threads s' !! i = Some t -> running t = Some (Act x k) -> touches x = false.
Proof.
  intros Hall Hl Hq Hl' Ht Hr; destruct (teardown_moves l _ _ s (teardown_initial shards Hall) Hl) as [phs Hinv].
  destruct (teardown_moves l' _ _ s' Hinv Hl') as [phs' Hinv'].
  assert (Hdone : teardown s' = Quiescent \/ teardown s' = Released).
  { clear -Hq Hl'; revert s Hq Hl'; assert (Hgen : forall s, teardown s = Quiescent \/ teardown s = Released ->
      make_moves memlog_active storage l' s = Some s' -> teardown s' = Quiescent \/ teardown s' = Released); [|eauto].
    induction l' as [|mv l IH]; intros s Hd; simpl; [intros [= <-]; auto|].
    destruct (make_move memlog_active storage mv s) as [s1|] eqn:E; [|discriminate]; apply IH.
    destruct mv as [i q|i ch|f]; simpl in E.
    1,2: repeat (case_match; simplify_eq/=; auto).
    unfold detach_step in E; destruct Hd as [Hd|Hd]; rewrite Hd in E; simplify_eq; auto. }
  pose proof (ti_scan _ _ Hinv') as Hscan; destruct Hdone as [E|E]; rewrite E in Hscan;
    specialize (Hscan t ltac:(apply list_elem_of_lookup; eauto)); unfold thread_harmless in Hscan; rewrite Hr in Hscan;
    apply Hscan.
Qed.
End teardown.

(** The scan waits for an allocation inside the tables, which finds them
    closed; a thread that enters a shard already passed is not waited for. *)
Definition quiet_moves : list move :=
  [Start 0 (CallMalloc 100); Step 0 (mkChoice 0 false 1); Step 0 (mkChoice 0 false 1)] ++ replicate 6 (Detach true) ++
  replicate 6 (Step 0 (mkChoice 64 true 1)) ++ [Detach true; Start 1 (CallMalloc 8); Step 1 (mkChoice 0 false 1)] ++
  replicate 4096 (Detach true).
Definition released_moves : list move := [Step 1 (mkChoice 0 false 1); Detach true].

Definition no_log : layout := mkLayout 0 0 0 0 0.
Definition quiet_system : system :=
  default (initial_system []) (make_moves false no_log quiet_moves (initial_system [3%nat; 0%nat])).
Definition released_system : system := default (initial_system []) (make_moves false no_log released_moves quiet_system).

Lemma no_access_after_release_witness :
  teardown released_system = Released /\ hook_activity (memory released_system) 0 = 1 /\
  exists t R (x : act R) k, threads released_system !! 1%nat = Some t /\ running t = Some (Act x k) /\ touches x = false.
Proof.
  split; [vm_compute; reflexivity|split; [vm_compute; reflexivity|]].
  destruct (threads released_system !! 1%nat) as [t|] eqn:Ht; [|vm_compute in Ht; discriminate].
  destruct (running t) as [[v|R x k]|] eqn:Hr; [vm_compute in Ht; simplify_eq..| |vm_compute in Ht; simplify_eq].
  exists t, R, x, k; split_and!; [reflexivity|exact Hr|].
  apply (no_access_after_release false no_log quiet_moves released_moves [3%nat; 0%nat] quiet_system released_system 1 t R x k);
    [repeat (apply Forall_cons; split; [apply Nat.ltb_lt; vm_compute; reflexivity|]); apply Forall_nil; exact I|vm_compute; reflexivity..|exact Ht|exact Hr].
Defined.
