(* ===== verification/ExecEnv.v ===== *)
(** * The environment of a new program

    Models the environment builders of [src/exec_interceptor.c].  When the
    profiled process calls [exec], the new program gets an environment that
    preloads PEAK again: [peak_exec_build_env] makes it in ordinary processes,
    with heap memory, [peak_exec_child_build_env] in a forked child, with fixed
    buffers and reads that survive bad pointers.  Strings are lists of bytes
    without the terminator.  A computation of the first builder answers a value
    or an error number and consumes the allocator's answers (the empty list:
    memory is available).  What the file system, the loader and the rest of
    PEAK answer is in [process].  Trace output and freeing are left out. *)

From Stdlib Require Import String.
From S2P Require Import Prelude TargetSelector ExecMemory.

Definition ENOMEM : Z := 12.
Definition E2BIG : Z := 7.
Definition EINVAL : Z := 22.

(** ** Errors and memory *)

Inductive result (A : Type) := Ok (a : A) | Err (errno : Z).
Arguments Ok {A} a.
Arguments Err {A} errno.

Definition memory := list bool.
Definition EM (A : Type) : Type := memory -> result A * memory.
Definition ok {A} (a : A) : EM A := fun m => (Ok a, m).
Definition fail {A} (errno : Z) : EM A := fun m => (Err errno, m).
Definition andthen {A B} (x : EM A) (f : A -> EM B) : EM B :=
  fun m => match x m with (Ok a, m) => f a m | (Err e, m) => (Err e, m) end.
(** A failure becomes NULL. *)
Definition or_null {A} (x : EM A) : EM (option A) :=
  fun m => match x m with (Ok a, m) => (Ok (Some a), m) | (Err _, m) => (Ok None, m) end.
Notation "'get' x := a 'in' b" := (andthen a (fun x => b)) (at level 10, x pattern, a at level 100, b at level 200) : peak_scope.
Notation "'then!' a ';' b" := (andthen a (fun _ => b)) (at level 10, a at level 100, b at level 200) : peak_scope.

(** [malloc], [calloc], [strdup], [realloc]. *)
Definition allocate (errno : Z) : EM unit :=
  fun m => match m with false :: m => (Err errno, m) | true :: m => (Ok tt, m) | [] => (Ok tt, []) end.

Definition strlen (s : cstring) : Z := Z.of_nat (length s).

Definition peak_exec_size_add (left right : Z) : EM Z :=
  if SIZE_MAX - right <? left then fail E2BIG else ok (left + right).
Definition peak_exec_size_mul (left right : Z) : EM Z :=
  if negb (left =? 0) && (SIZE_MAX / left <? right) then fail E2BIG else ok (left * right).

(** ** Entries *)

Definition equals_sign : Z := ch "=".
Definition LD_PRELOAD : cstring := bytes "LD_PRELOAD".
Definition LD_LIBRARY_PATH : cstring := bytes "LD_LIBRARY_PATH".
Definition PEAK_EXEC_CHAIN_ENV : cstring := bytes "PEAK_EXEC_CHAIN".
Definition PEAK_EXEC_CHECKPOINT_ENV : cstring := bytes "PEAK_EXEC_CHECKPOINT".
Definition PEAK_EXEC_PROPAGATE_PEAK_ENV_ENV : cstring := bytes "PEAK_EXEC_PROPAGATE_PEAK_ENV".

(** [strchr]: the position of the first such byte. *)
Fixpoint strchr (s : cstring) (c : Z) : option nat :=
  match s with
  | [] => None
  | x :: s => if x =? c then Some O else option_map S (strchr s c)
  end.

(** The conversion to [int]. *)
Definition to_int (x : Z) : Z := wrap 32 (x + 2 ^ 31) - 2 ^ 31.

Definition peak_exec_name_len (entry : cstring) : Z :=
  match strchr entry equals_sign with None => -1 | Some n => to_int (Z.of_nat n) end.

Definition peak_exec_env_entry_matches (entry name : cstring) : bool :=
  let name_len := peak_exec_name_len entry in
  (0 <=? name_len) && (strlen name =? name_len) &&
  bool_decide (take (Z.to_nat name_len) entry = take (Z.to_nat name_len) name).

(** What follows the first equals sign. *)
Definition value_of (entry : cstring) : cstring :=
  match strchr entry equals_sign with Some n => drop (S n) entry | None => [] end.

Fixpoint env_get (envp : list cstring) (name : cstring) : option cstring :=
  match envp with
  | [] => None
  | e :: envp => if peak_exec_env_entry_matches e name then Some (value_of e) else env_get envp name
  end.
Definition peak_exec_env_get (envp : option (list cstring)) (name : cstring) : option cstring :=
  match envp with None => None | Some envp => env_get envp name end.

Definition peak_exec_env_has_name (envp : option (list cstring)) (name : cstring) : bool :=
  bool_decide (is_Some (peak_exec_env_get envp name)).

Fixpoint storage_has_name (envp : list cstring) (name : cstring) : bool :=
  match envp with [] => false | e :: envp => peak_exec_env_entry_matches e name || storage_has_name envp name end.

Definition peak_exec_env_name_count (envp : option (list cstring)) (name : cstring) : Z :=
  match envp with
  | None => 0
  | Some envp => Z.of_nat (countb (fun e => peak_exec_env_entry_matches e name) envp)
  end.

Definition peak_exec_env_count_bounded (envp : option (list cstring)) : EM Z :=
  match envp with
  | None => ok 0
  | Some envp => if PEAK_EXEC_MAX_ENV_ENTRIES <? Z.of_nat (length envp) then fail E2BIG else ok (Z.of_nat (length envp))
  end.

Definition peak_prefix : cstring := bytes "PEAK_".
Definition is_peak_entry (e : cstring) : bool := bool_decide (take 5 e = peak_prefix).
Definition peak_exec_env_has_peak_entry (envp : option (list cstring)) : bool :=
  match envp with None => false | Some envp => existsb is_peak_entry envp end.

(** ** Switches *)

Definition lower (c : Z) : Z := if (ch "A" <=? c) && (c <=? ch "Z") then c - ch "A" + ch "a" else c.
Definition strcasecmp_equal (a b : cstring) : bool := bool_decide (map lower a = map lower b).
Definition false_values : list cstring := map bytes ["0"; "false"; "no"; "off"]%string.

Definition peak_exec_env_false (value : option cstring) : bool :=
  match value with None => false | Some v => existsb (strcasecmp_equal v) false_values end.

(** [getenv]: the first entry that starts with the name and an equals sign. *)
Fixpoint getenv_in (envp : list cstring) (name : cstring) : option cstring :=
  match envp with
  | [] => None
  | e :: envp =>
      if bool_decide (take (length name) e = name) && (char_at e (length name) =? equals_sign)
      then Some (drop (S (length name)) e) else getenv_in envp name
  end.

(** The cached LD_LIBRARY_PATH entry: not ready, failed, or ready. *)
Inductive cached := NotReady | Failed | Ready (entry : option cstring).

Record process := mkProcess {
  environ : option (list cstring);
  secure_mode : bool;
  libpeak_path : option cstring;
  (** [realpath] or [stat] identify the token with libpeak *)
  same_file : cstring -> bool;
  runtime_active : bool;
  requests_work : bool;
  cached_ld_library_path : cached;
  startup_chain_enabled : bool;
  startup_checkpoint_enabled : bool;
  spawn_depth : Z
}.

(** [peak_exec_cache_ld_library_path], when memory is available. *)
Definition peak_exec_cache_ld_library_path (environ : list cstring) : cached :=
  match getenv_in environ LD_LIBRARY_PATH with
  | None | Some [] => Ready None
  | Some value =>
      if SIZE_MAX - (strlen LD_LIBRARY_PATH + 1) - 1 <? strlen value then Failed
      else Ready (Some (LD_LIBRARY_PATH ++ [equals_sign] ++ value))
  end.

Section builder.
Context (p : process).

Definition getenv (name : cstring) : option cstring :=
  match environ p with None => None | Some l => getenv_in l name end.
Definition peak_exec_env_default_true (name : cstring) : bool := negb (peak_exec_env_false (getenv name)).
Definition peak_exec_env_default_true_for_child (envp : option (list cstring)) (name : cstring) : bool :=
  match peak_exec_env_get envp name with
  | Some v => negb (peak_exec_env_false (Some v))
  | None => peak_exec_env_default_true name
  end.

(** ** LD_PRELOAD *)

Definition peak_exec_is_separator (c : Z) : bool :=
  (c =? ch ":") || (c =? 32) || (c =? 9) || (c =? 10).

(** The first loop: total length and number of the values. *)
Fixpoint join_sizes (envp : list cstring) (name : cstring) (total count : Z) : EM (Z * Z) :=
  match envp with
  | [] => ok (total, count)
  | e :: envp =>
      if negb (peak_exec_env_entry_matches e name) then join_sizes envp name total count
      else
        let value := value_of e in
        if bool_decide (value = []) then join_sizes envp name total count
        else
          get total := peak_exec_size_add total (strlen value) in
          if count =? SIZE_MAX then fail E2BIG else join_sizes envp name total (count + 1)
  end.

(** The second loop: the copies, within the allocation. *)
Fixpoint join_copy (envp : list cstring) (name : cstring) (allocation_size : Z) (joined : cstring) : EM cstring :=
  match envp with
  | [] => if allocation_size <=? strlen joined then fail E2BIG else ok joined
  | e :: envp =>
      if negb (peak_exec_env_entry_matches e name) then join_copy envp name allocation_size joined
      else
        let value := value_of e in
        if bool_decide (value = []) then join_copy envp name allocation_size joined
        else
          get joined :=
            (if bool_decide (joined = []) then ok joined
             else if allocation_size <=? strlen joined + 1 then fail E2BIG
             else ok (joined ++ [ch ":"])) in
          if (allocation_size <=? strlen joined) || (allocation_size - strlen joined <=? strlen value) then fail E2BIG
          else join_copy envp name allocation_size (joined ++ value)
  end.

(** NULL without entries, or when it fails. *)
Definition peak_exec_env_join_values (envp : option (list cstring)) (name : cstring) : EM (option cstring) :=
  match envp with
  | None => ok None
  | Some env =>
      get joined := or_null (
        get (total, value_count) := join_sizes env name 0 0 in
        if peak_exec_env_name_count envp name =? 0 then ok None
        else
          get allocation_size := peak_exec_size_add total (if 0 <? value_count then value_count else 1) in
          then! allocate ENOMEM;
          get joined := join_copy env name allocation_size [] in
          ok (Some joined)) in
      ok (default None joined)
  end.

Definition peak_exec_token_is_same_file (token libpeak : cstring) : bool :=
  negb (bool_decide (token = [])) && (bool_decide (token = libpeak) || same_file p token).

Fixpoint skip_separators (s : cstring) : cstring :=
  match s with
  | c :: s' => if peak_exec_is_separator c then skip_separators s' else s
  | [] => []
  end.

(** The token at the start, and the rest. *)
Fixpoint take_token (s : cstring) : cstring * cstring :=
  match s with
  | c :: s' => if peak_exec_is_separator c then ([], s) else let '(token, rest) := take_token s' in (c :: token, rest)
  | [] => ([], [])
  end.

Fixpoint contains_loop (fuel : nat) (cursor libpeak : cstring) : bool :=
  match fuel, cursor with
  | S fuel, _ :: _ =>
      let '(token, rest) := take_token (skip_separators cursor) in
      if peak_exec_token_is_same_file token libpeak then true else contains_loop fuel rest libpeak
  | _, _ => false
  end.
Definition peak_exec_preload_contains_libpeak (value : option cstring) (libpeak : cstring) : bool :=
  match value with None => false | Some v => contains_loop (length v) v libpeak end.

(** The buffer grows when it has to. *)
Definition grow (capacity required token_len : Z) : EM Z :=
  if capacity <? required then
    get doubled := peak_exec_size_mul capacity 2 in
    get new_capacity := peak_exec_size_add doubled token_len in
    get new_capacity := peak_exec_size_add new_capacity 2 in
    then! allocate ENOMEM;
    ok (if new_capacity <? required then required else new_capacity)
  else ok capacity.

Fixpoint preload_loop (fuel : nat) (cursor libpeak output : cstring) (capacity : Z) : EM cstring :=
  match fuel, cursor with
  | S fuel, _ :: _ =>
      let '(token, rest) := take_token (skip_separators cursor) in
      if bool_decide (token = []) || peak_exec_token_is_same_file token libpeak
      then preload_loop fuel rest libpeak output capacity
      else
        get required := peak_exec_size_add (strlen output) (strlen token) in
        get required := peak_exec_size_add required 2 in
        get capacity := grow capacity required (strlen token) in
        preload_loop fuel rest libpeak (output ++ ch ":" :: token) capacity
  | _, _ => ok output
  end.

(** The value, and whether it differs from the old one. *)
Definition peak_exec_build_ld_preload (existing : option cstring) (libpeak : cstring) : EM (cstring * bool) :=
  if bool_decide (libpeak = []) then fail EINVAL
  else
    get capacity := peak_exec_size_add (strlen libpeak) (strlen (default [] existing)) in
    get capacity := peak_exec_size_add capacity 2 in
    then! allocate ENOMEM;
    let cursor := default [] existing in
    get output := preload_loop (length cursor) cursor libpeak libpeak capacity in
    ok (output, negb (bool_decide (existing = Some output))).

(** ** The environment *)

Record PeakExecEnv := mkExecEnv {
  envp : option (list cstring);
  owned_count : Z;
  owned_capacity : Z;
  changed : bool
}.
Definition no_env : PeakExecEnv := mkExecEnv None 0 0 false.
Definition entries (b : PeakExecEnv) : list cstring := default [] (envp b).

Definition peak_exec_add_owned (b : PeakExecEnv) : EM PeakExecEnv :=
  if owned_capacity b <=? owned_count b then fail E2BIG
  else ok (mkExecEnv (envp b) (owned_count b + 1) (owned_capacity b) (changed b)).

(** The test before every store, and the store. *)
Definition room (capacity : Z) (b : PeakExecEnv) : EM unit :=
  if capacity <=? Z.of_nat (length (entries b)) + 1 then fail E2BIG else ok tt.
Definition put (e : cstring) (marks : bool) (b : PeakExecEnv) : PeakExecEnv :=
  mkExecEnv (Some (entries b ++ [e])) (owned_count b) (owned_capacity b) (marks || changed b).

Definition preload_entry (value : cstring) : cstring := LD_PRELOAD ++ [equals_sign] ++ value.

(** A new LD_PRELOAD entry on the heap. *)
Definition put_preload (capacity : Z) (value : cstring) (b : PeakExecEnv) : EM PeakExecEnv :=
  get entry_size := peak_exec_size_add (strlen LD_PRELOAD + 1) (strlen value) in
  then! peak_exec_size_add entry_size 1;
  then! allocate ENOMEM;
  then! room capacity b;
  get b := peak_exec_add_owned b in
  ok (put (preload_entry value) true b).

(** The copy of the old environment. *)
Fixpoint copy_base (base : list cstring) (touch new_changed : bool) (value : cstring) (capacity : Z)
    (written : bool) (b : PeakExecEnv) : EM (PeakExecEnv * bool) :=
  match base with
  | [] => ok (b, written)
  | e :: base =>
      if touch && peak_exec_env_entry_matches e LD_PRELOAD then
        if written then
          copy_base base touch new_changed value capacity written
            (mkExecEnv (envp b) (owned_count b) (owned_capacity b) true)
        else if new_changed then
          get b := put_preload capacity value b in
          copy_base base touch new_changed value capacity true b
        else
          then! room capacity b;
          copy_base base touch new_changed value capacity true (put e false b)
      else
        then! room capacity b;
        copy_base base touch new_changed value capacity written (put e false b)
  end.

(** The name of a PEAK_ entry that the buffer of 256 bytes can hold. *)
Definition peak_name (e : cstring) : option cstring :=
  if negb (is_peak_entry e) then None
  else
    let name_len := peak_exec_name_len e in
    if (name_len <=? 0) || (256 <=? name_len) then None else Some (take (Z.to_nat name_len) e).

Fixpoint count_missing (parent : list cstring) (base : option (list cstring)) : Z :=
  match parent with
  | [] => 0
  | e :: parent =>
      (match peak_name e with
       | Some name => if peak_exec_env_has_name base name then 0 else 1
       | None => 0
       end) + count_missing parent base
  end.
Definition peak_exec_count_missing_peak_env (base : option (list cstring)) : Z :=
  match environ p with None => 0 | Some parent => count_missing parent base end.

Fixpoint append_missing (parent : list cstring) (base : option (list cstring)) (capacity : Z) (b : PeakExecEnv)
    : EM PeakExecEnv :=
  match parent with
  | [] => ok b
  | e :: parent =>
      match peak_name e with
      | Some name =>
          if peak_exec_env_has_name base name || storage_has_name (entries b) name
          then append_missing parent base capacity b
          else
            then! allocate EINVAL;
            get b := peak_exec_add_owned b in
            then! room capacity b;
            append_missing parent base capacity (put e true b)
      | None => append_missing parent base capacity b
      end
  end.
Definition peak_exec_append_missing_peak_env (base : option (list cstring)) (capacity : Z) (b : PeakExecEnv)
    : EM PeakExecEnv :=
  match environ p with None => ok b | Some parent => append_missing parent base capacity b end.

Definition peak_exec_should_inject_libpeak (envp : option (list cstring)) : bool :=
  match libpeak_path p with
  | None | Some [] => false
  | Some libpeak =>
      runtime_active p || requests_work p || peak_exec_env_has_peak_entry (environ p) ||
      peak_exec_env_has_peak_entry envp || peak_exec_preload_contains_libpeak (getenv LD_PRELOAD) libpeak
  end.

(** The new LD_PRELOAD value: whether libpeak is there, the value, whether it is new. *)
Definition plan_preload (base : option (list cstring)) (ld_entry_count : Z) (touch : bool) : EM (bool * cstring * bool) :=
  if negb touch then ok (false, [], false)
  else
    let libpeak := default [] (libpeak_path p) in
    get existing := peak_exec_env_join_values base LD_PRELOAD in
    if (0 <? ld_entry_count) && bool_decide (existing = None) then fail ENOMEM
    else
      get (value, new_changed) := peak_exec_build_ld_preload existing libpeak in
      ok (peak_exec_preload_contains_libpeak existing libpeak, value, new_changed).

Definition one_if (b : bool) : Z := if b then 1 else 0.

Definition peak_exec_build_env (base : option (list cstring)) (chain_enabled propagate_peak_env : bool)
    : EM PeakExecEnv :=
  if negb chain_enabled then ok no_env
  else
    get base_count := peak_exec_env_count_bounded base in
    let ld_entry_count := peak_exec_env_name_count base LD_PRELOAD in
    let touch := negb (secure_mode p) && peak_exec_should_inject_libpeak base in
    get (already, value, new_changed) := plan_preload base ld_entry_count touch in
    let missing := if propagate_peak_env then peak_exec_count_missing_peak_env base else 0 in
    get library :=
      (if new_changed && negb already && negb (peak_exec_env_has_name base LD_LIBRARY_PATH) then
         match cached_ld_library_path p with
         | NotReady | Failed => fail ENOMEM
         | Ready entry => ok entry
         end
       else ok None) in
    let add_library := bool_decide (is_Some library) in
    if negb new_changed && negb add_library && (missing =? 0) && (ld_entry_count <=? 1) then ok no_env
    else
      get extra := peak_exec_size_add missing (one_if (touch && (ld_entry_count =? 0)) + one_if add_library) in
      get capacity := peak_exec_size_add base_count extra in
      get capacity := peak_exec_size_add capacity 1 in
      then! allocate ENOMEM;
      get owned_capacity := peak_exec_size_add missing (one_if (touch && new_changed)) in
      then! (if owned_capacity =? 0 then ok tt else allocate ENOMEM);
      get (b, written) := copy_base (default [] base) touch new_changed value capacity false
                            (mkExecEnv (Some []) 0 owned_capacity false) in
      get b := (if touch && (ld_entry_count =? 0) then put_preload capacity value b else ok b) in
      get b := (match library with
                | Some entry => then! room capacity b; ok (put entry true b)
                | None => ok b
                end) in
      get b := (if propagate_peak_env then peak_exec_append_missing_peak_env base capacity b else ok b) in
      if capacity <=? Z.of_nat (length (entries b)) then fail E2BIG else ok b.

Definition peak_exec_env_to_use (b : PeakExecEnv) (original : option (list cstring)) : option (list cstring) :=
  match envp b with Some l => Some l | None => original end.

(** Whether a checkpoint is written, and the environment. *)
Definition peak_exec_prepare (base : option (list cstring)) (allow_checkpoint : bool) : bool * EM PeakExecEnv :=
  (allow_checkpoint && (spawn_depth p =? 0) && startup_checkpoint_enabled p &&
     peak_exec_env_default_true_for_child base PEAK_EXEC_CHECKPOINT_ENV,
   peak_exec_build_env base
     (startup_chain_enabled p && peak_exec_env_default_true_for_child base PEAK_EXEC_CHAIN_ENV)
     (peak_exec_env_default_true_for_child base PEAK_EXEC_PROPAGATE_PEAK_ENV_ENV)).

(** The environment the call of the real [execve] gets. *)
Definition environment_for (base : option (list cstring)) (allow_checkpoint : bool) (m : memory) : option (list cstring) :=
  match (peak_exec_prepare base allow_checkpoint).2 m with
  | (Ok b, _) => peak_exec_env_to_use b base
  | (Err _, _) => base
  end.
End builder.
