(* ===== verification/ExecChild.v ===== *)
(** * The environment of a program started by a forked child

    Models [peak_exec_child_build_env] of [src/exec_interceptor.c] and the
    reads it is made of.  A child may share its parent's memory, so nothing is
    allocated and every byte of the application's arrays is read through
    [process_vm_readv], which may fail.  A [text] is a string in that memory:
    its bytes, and whether the terminator follows or the memory ends there; a
    [table] is an array of strings with the same distinction for its NULL.
    [None] is the answer -1; the builder then keeps the given environment. *)

From Stdlib Require Import String.
From S2P Require Import Prelude TargetSelector ExecMemory ExecEnv.

Record text := mkText {
  chars : cstring;
  terminated : bool
}.
Record table := mkTable {
  texts : list text;
  closed : bool
}.

Definition PEAK_EXEC_CHILD_ENV_SLOTS : nat := 256.
Definition PEAK_EXEC_CHILD_LD_PRELOAD_CAPACITY : Z := PATH_MAX * 2.
Definition PEAK_EXEC_CHILD_NAME_CAPACITY : nat := 256.

(** One byte: 0 at the end; [None] where the memory cannot be read. *)
Definition peak_exec_child_read_byte (t : text) (index : nat) : option Z :=
  match chars t !! index with
  | Some c => Some c
  | None => if terminated t && (index =? length (chars t))%nat then Some 0 else None
  end.

(** One pointer of an array: [Some None] is NULL. *)
Definition peak_exec_child_read_pointer (envp : table) (index : nat) : option (option text) :=
  match texts envp !! index with
  | Some t => Some (Some t)
  | None => if closed envp && (index =? length (texts envp))%nat then Some None else None
  end.

(** The loop over the name from byte [index] of the entry. *)
Fixpoint match_from (entry : text) (index : nat) (name : cstring) : option bool :=
  match name with
  | [] => match peak_exec_child_read_byte entry index with None => None | Some actual => Some (actual =? equals_sign) end
  | n :: name =>
      match peak_exec_child_read_byte entry index with
      | None => None
      | Some actual => if actual =? n then match_from entry (S index) name else Some false
      end
  end.
Definition peak_exec_child_entry_matches (entry : text) (name : cstring) : option bool := match_from entry 0 name.

Definition advance (t : text) (n : nat) : text := mkText (drop n (chars t)) (terminated t).

(** The value; [None] inside when the name is absent. *)
Fixpoint child_env_loop (fuel index : nat) (envp : table) (name : cstring) : option (option text) :=
  match fuel with
  | O => None
  | S fuel =>
      match peak_exec_child_read_pointer envp index with
      | None => None
      | Some None => Some None
      | Some (Some entry) =>
          match peak_exec_child_entry_matches entry name with
          | None => None
          | Some true => Some (Some (advance entry (S (length name))))
          | Some false => child_env_loop fuel (S index) envp name
          end
      end
  end.
Definition peak_exec_child_env_get (envp : option table) (name : cstring) : option (option text) :=
  match envp with
  | None => Some None
  | Some envp => child_env_loop PEAK_EXEC_CHILD_ENV_SLOTS 0 envp name
  end.

(** The comparison with one of the false values, from byte [index]. *)
Fixpoint candidate_loop (value : text) (index : nat) (candidate : cstring) : option bool :=
  if (PEAK_EXEC_CHILD_NAME_CAPACITY <=? index)%nat then None
  else
    match peak_exec_child_read_byte value index with
    | None => None
    | Some actual =>
        match candidate with
        | [] => Some (lower actual =? 0)
        | c :: candidate => if lower actual =? c then candidate_loop value (S index) candidate else Some false
        end
    end.
Fixpoint value_false_loop (value : text) (candidates : list cstring) : option bool :=
  match candidates with
  | [] => Some false
  | c :: candidates =>
      match candidate_loop value 0 c with
      | None => None
      | Some true => Some true
      | Some false => value_false_loop value candidates
      end
  end.
Definition peak_exec_child_value_false (value : text) : option bool := value_false_loop value false_values.

Section child.
Context (p : process).
(** The array [environ] as the child finds it. *)
Context (parent : option table).

Definition peak_exec_child_control_enabled (envp : option table) (name : cstring) : option bool :=
  match (match peak_exec_child_env_get envp name with
         | None => None
         | Some None => peak_exec_child_env_get parent name
         | Some (Some v) => Some (Some v)
         end) with
  | None => None
  | Some None => Some true
  | Some (Some v) => match peak_exec_child_value_false v with None => None | Some f => Some (negb f) end
  end.

(** The path cached at startup. *)
Definition peak_exec_cached_libpeak_path : option cstring :=
  match libpeak_path p with
  | None => None
  | Some l => if negb (strlen l =? 0) && (strlen l <? PATH_MAX) then Some l else None
  end.

(** Skips separators from byte [index]; the limit is the buffer's size. *)
Fixpoint child_skip (ends : bool) (s : cstring) (index : nat) : option (cstring * nat) :=
  match s with
  | [] => if ends then Some ([], index) else None
  | c :: s' =>
      if peak_exec_is_separator c then
        if PEAK_EXEC_CHILD_LD_PRELOAD_CAPACITY <=? Z.of_nat (S index) then None else child_skip ends s' (S index)
      else Some (s, index)
  end.

(** The token from byte [index], of which [token_len] bytes are passed. *)
Fixpoint child_token (ends : bool) (s : cstring) (index token_len : nat) : option (cstring * cstring * nat) :=
  match s with
  | [] => if ends then Some ([], [], index) else None
  | c :: s' =>
      if peak_exec_is_separator c then Some ([], s, index)
      else if (PEAK_EXEC_CHILD_LD_PRELOAD_CAPACITY <=? Z.of_nat (S token_len)) ||
              (PEAK_EXEC_CHILD_LD_PRELOAD_CAPACITY <=? Z.of_nat (S index)) then None
      else
        match child_token ends s' (S index) (S token_len) with
        | None => None
        | Some (token, rest, index) => Some (c :: token, rest, index)
        end
  end.

(** The tokens of one LD_PRELOAD value, appended to the buffer. *)
Fixpoint preload_tokens (fuel : nat) (libpeak : cstring) (ends : bool) (s : cstring) (index : nat)
    (ld_preload : cstring) (present : bool) : option (cstring * bool) :=
  match fuel with
  | O => None
  | S fuel =>
      match child_skip ends s index with
      | None => None
      | Some ([], _) => Some (ld_preload, present)
      | Some (s, index) =>
          match child_token ends s index 0 with
          | None => None
          | Some (token, rest, index) =>
              if bool_decide (token = libpeak) then preload_tokens fuel libpeak ends rest index ld_preload true
              else if PEAK_EXEC_CHILD_LD_PRELOAD_CAPACITY <? strlen ld_preload + 1 + strlen token + 1 then None
              else preload_tokens fuel libpeak ends rest index (ld_preload ++ ch ":" :: token) present
          end
      end
  end.

Definition peak_exec_child_append_preload (output : list text) (entry : text) : option (list text) :=
  if (PEAK_EXEC_CHILD_ENV_SLOTS <=? length output + 1)%nat then None else Some (output ++ [entry]).

(** The loop over the given environment: the entries kept, the buffer, whether
    libpeak and LD_LIBRARY_PATH were seen. *)
Fixpoint child_copy (fuel index : nat) (envp : table) (libpeak : cstring) (output : list text) (ld_preload : cstring)
    (present has_library : bool) : option (list text * cstring * bool * bool) :=
  match fuel with
  | O => None
  | S fuel =>
      match peak_exec_child_read_pointer envp index with
      | None => None
      | Some None => Some (output, ld_preload, present, has_library)
      | Some (Some entry) =>
          match peak_exec_child_entry_matches entry LD_PRELOAD with
          | None => None
          | Some true =>
              let value := advance entry (S (length LD_PRELOAD)) in
              match preload_tokens (S (length (chars value))) libpeak (terminated value) (chars value) 0 ld_preload present with
              | None => None
              | Some (ld_preload, present) => child_copy fuel (S index) envp libpeak output ld_preload present has_library
              end
          | Some false =>
              match peak_exec_child_entry_matches entry LD_LIBRARY_PATH with
              | None => None
              | Some library =>
                  match peak_exec_child_append_preload output entry with
                  | None => None
                  | Some output => child_copy fuel (S index) envp libpeak output ld_preload present (library || has_library)
                  end
              end
          end
      end
  end.

(** The bytes up to the equals sign, at most 254 of them: [None] for an
    unreadable entry, [Some None] for one without a usable name. *)
Fixpoint child_name (ends : bool) (s : cstring) (name_len : nat) : option (option cstring) :=
  if (PEAK_EXEC_CHILD_NAME_CAPACITY <=? name_len + 1)%nat then Some None
  else
    match s with
    | [] => if ends then Some None else None
    | c :: s => if c =? equals_sign then Some (Some []) else option_map (option_map (cons c)) (child_name ends s (S name_len))
    end.

(** The PEAK_ entries of the parent that the given environment lacks. *)
Fixpoint child_append (fuel index : nat) (from : table) (envp : option table) (output : list text) : option (list text) :=
  match fuel with
  | O => None
  | S fuel =>
      match peak_exec_child_read_pointer from index with
      | None => None
      | Some None => Some output
      | Some (Some entry) =>
          if negb (is_peak_entry (chars entry)) then child_append fuel (S index) from envp output
          else
            match child_name (terminated entry) (chars entry) 0 with
            | None => None
            | Some None => child_append fuel (S index) from envp output
            | Some (Some name) =>
                match peak_exec_child_env_get envp name with
                | None => None
                | Some (Some _) => child_append fuel (S index) from envp output
                | Some None =>
                    match peak_exec_child_append_preload output entry with
                    | None => None
                    | Some output => child_append fuel (S index) from envp output
                    end
                end
            end
      end
  end.

(** The library path the buffer needs when libpeak is new. *)
Definition child_library (output : list text) (present has_library : bool) : option (list text) :=
  if negb present && negb has_library then
    match cached_ld_library_path p with
    | NotReady | Failed => None
    | Ready None => Some output
    | Ready (Some entry) => peak_exec_child_append_preload output (mkText entry true)
    end
  else Some output.

(** [None] when the given environment is kept. *)
Definition peak_exec_child_build_env (envp : option table) : option (list text) :=
  if negb (startup_chain_enabled p) || secure_mode p then None
  else
    match peak_exec_cached_libpeak_path, peak_exec_child_control_enabled envp PEAK_EXEC_CHAIN_ENV with
    | Some libpeak, Some true =>
        if PEAK_EXEC_CHILD_LD_PRELOAD_CAPACITY <? strlen LD_PRELOAD + 1 + strlen libpeak + 1 then None
        else
          match (match envp with
                 | None => Some ([], preload_entry libpeak, false, false)
                 | Some envp => child_copy PEAK_EXEC_CHILD_ENV_SLOTS 0 envp libpeak [] (preload_entry libpeak) false false
                 end) with
          | None => None
          | Some (output, ld_preload, present, has_library) =>
              match peak_exec_child_append_preload output (mkText ld_preload true) with
              | None => None
              | Some output =>
                  match child_library output present has_library,
                        peak_exec_child_control_enabled envp PEAK_EXEC_PROPAGATE_PEAK_ENV_ENV with
                  | Some output, Some propagate =>
                      match propagate, parent with
                      | true, Some from => child_append PEAK_EXEC_CHILD_ENV_SLOTS 0 from envp output
                      | _, _ => Some output
                      end
                  | _, _ => None
                  end
              end
          end
    | _, _ => None
    end.
End child.
