(* ===== verification/ExecEnvProofs.v ===== *)
(** * The environment of a new program: correctness

    Both builders are compared with one specification: [expected] says, for
    each name, the value the new program sees.  LD_PRELOAD loads PEAK and then
    every library the application asked for, the other variables stay, and the
    PEAK_ settings of this process reach the new one unless it has its own. *)

From Stdlib Require Import String.
From S2P Require Import Prelude TargetSelector ExecMemory ExecEnv ExecChild.

(** ** Names and values *)

Definition no_equals (name : cstring) : Prop := equals_sign ∉ name.
(** Positions in the entry fit in [int]. *)
Definition entry_ok (e : cstring) : Prop := strlen e <= INT_MAX.

Lemma strchr_None s c : strchr s c = None <-> c ∉ s.
Proof.
  induction s as [|x s IH]; simpl; [split; [intros _ H; inversion H|reflexivity]|].
  destruct (Z.eqb_spec x c) as [->|Hne]; simpl; [split; [discriminate|intros H; exfalso; apply H; left]|].
  destruct (strchr s c); simpl; rewrite not_elem_of_cons; [split; [discriminate|intros [_ H]; apply IH in H; discriminate]|].
  split; [intros _; split; [congruence|apply IH; reflexivity]|reflexivity].
Qed.

Lemma strchr_app a b c : c ∉ a -> strchr (a ++ c :: b) c = Some (length a).
Proof.
  induction a as [|x a IH]; simpl; intros H; [rewrite Z.eqb_refl; reflexivity|].
  apply not_elem_of_cons in H as [Hx Ha]; destruct (Z.eqb_spec x c); [congruence|rewrite (IH Ha); reflexivity].
Qed.

Lemma strchr_Some s c n : strchr s c = Some n -> s = take n s ++ c :: drop (S n) s /\ c ∉ take n s.
Proof.
  revert n; induction s as [|x s IH]; intros n; simpl; [discriminate|].
  destruct (Z.eqb_spec x c) as [->|Hne]; [intros [= <-]; split; [reflexivity|intros H; inversion H]|].
  destruct (strchr s c) as [k|]; simpl; intros [= <-]; destruct (IH k eq_refl) as [Hs Hn]; simpl; split.
  - f_equal; exact Hs.
  - apply not_elem_of_cons; split; [congruence|exact Hn].
Qed.

Lemma to_int_small x : 0 <= x <= INT_MAX -> to_int x = x.
Proof. intros H; unfold to_int, INT_MAX in *; rewrite wrap_small by lia; lia. Qed.

Lemma strchr_lt s c n : strchr s c = Some n -> (n < length s)%nat.
Proof.
  revert n; induction s as [|x s IH]; intros n; simpl; [discriminate|].
  destruct (_ =? _); [intros [= <-]; lia|]; destruct (strchr s c); simpl; intros [= <-]; specialize (IH _ eq_refl); lia.
Qed.

(** The position of the equals sign fits in [int]. *)
Definition name_ok (e : cstring) : Prop := forall n, strchr e equals_sign = Some n -> Z.of_nat n <= INT_MAX.

Lemma entry_name_ok e : entry_ok e -> name_ok e.
Proof. intros He n Hn; pose proof (strchr_lt _ _ _ Hn); unfold entry_ok, strlen in He; lia. Qed.

Lemma pair_name_ok name v : no_equals name -> Z.of_nat (length name) <= INT_MAX -> name_ok (name ++ equals_sign :: v).
Proof. intros Hn Hl n; rewrite strchr_app by exact Hn; intros [= <-]; exact Hl. Qed.
#[local] Hint Resolve entry_name_ok : peak.

Lemma name_len_ok e n : name_ok e -> strchr e equals_sign = Some n -> peak_exec_name_len e = Z.of_nat n.
Proof.
  intros He Hn; unfold peak_exec_name_len; rewrite Hn; apply to_int_small; specialize (He n Hn); lia.
Qed.

(** An entry matches exactly the name before its first equals sign. *)
Lemma matches_iff e name :
  name_ok e -> peak_exec_env_entry_matches e name = true <-> no_equals name /\ exists v, e = name ++ equals_sign :: v.
Proof.
  intros He; unfold peak_exec_env_entry_matches; destruct (strchr e equals_sign) as [n|] eqn:En.
  - rewrite (name_len_ok e n He En), !andb_true_iff, Z.leb_le, Z.eqb_eq, bool_decide_eq_true, Nat2Z.id.
    destruct (strchr_Some _ _ _ En) as [Hs Hn]; pose proof (strchr_lt _ _ _ En) as Hlt; unfold strlen; split.
    + intros [[_ Hlen] Htake]; assert (Hl : length name = n) by lia.
      assert (Hname : name = take n e) by (rewrite Htake, take_ge by lia; reflexivity).
      split; [unfold no_equals; rewrite Hname; exact Hn|exists (drop (S n) e); rewrite Hname; exact Hs].
    + intros [Hne [v Hv]]; assert (n = length name) as ->.
      { subst e; rewrite strchr_app in En by exact Hne; congruence. }
      split; [split; lia|]; rewrite Hv at 1; rewrite take_app_length, take_ge by lia; reflexivity.
  - split; [|intros [Hne [v ->]]; rewrite strchr_app in En by exact Hne; discriminate].
    unfold peak_exec_name_len; rewrite En; discriminate.
Qed.

Lemma matches_eq e name v :
  name_ok e -> no_equals name -> e = name ++ equals_sign :: v -> peak_exec_env_entry_matches e name = true /\ value_of e = v.
Proof.
  intros He Hn Hv; split; [apply matches_iff; eauto|]; unfold value_of; rewrite Hv, strchr_app by exact Hn.
  rewrite (cons_middle equals_sign name v), app_assoc; apply drop_app_length'; rewrite length_app; simpl; lia.
Qed.

Lemma matches_unique e name name' :
  name_ok e -> peak_exec_env_entry_matches e name = true -> peak_exec_env_entry_matches e name' = true -> name = name'.
Proof.
  intros He H H'; apply matches_iff in H as [Hn [v Hv]], H' as [Hn' [v' Hv']]; try exact He.
  pose proof (strchr_app name v _ Hn) as E; pose proof (strchr_app name' v' _ Hn') as E'; rewrite <- Hv in E; rewrite <- Hv' in E'.
  assert (Hl : length name = length name') by congruence; rewrite Hv in Hv'; apply app_inj_1 in Hv' as [-> _]; auto.
Qed.

Lemma env_get_app a b name :
  env_get (a ++ b) name = match env_get a name with Some v => Some v | None => env_get b name end.
Proof. induction a as [|e a IH]; simpl; [reflexivity|]; destruct (peak_exec_env_entry_matches e name); auto. Qed.

Lemma env_get_has a name : storage_has_name a name = bool_decide (is_Some (env_get a name)).
Proof.
  induction a as [|e a IH]; simpl; [reflexivity|].
  destruct (peak_exec_env_entry_matches e name); simpl; [reflexivity|exact IH].
Qed.

(** ** Tokens *)

Fixpoint tokens_from (current s : cstring) : list cstring :=
  match s with
  | [] => if bool_decide (current = []) then [] else [current]
  | c :: s =>
      if peak_exec_is_separator c
      then (if bool_decide (current = []) then [] else [current]) ++ tokens_from [] s
      else tokens_from (current ++ [c]) s
  end.
Definition tokens (s : cstring) : list cstring := tokens_from [] s.

Lemma tokens_from_app s : forall cur t,
  tokens_from cur (s ++ ch ":" :: t) = tokens_from cur s ++ tokens_from [] t.
Proof.
  induction s as [|c s IH]; intros cur t; [reflexivity|]; simpl; destruct (peak_exec_is_separator c); rewrite IH; [|reflexivity].
  rewrite app_assoc; reflexivity.
Qed.

Lemma tokens_skip s : tokens (skip_separators s) = tokens s.
Proof. induction s as [|c s IH]; [reflexivity|]; simpl; destruct (peak_exec_is_separator c) eqn:E; [|reflexivity].
  rewrite IH; unfold tokens; simpl; rewrite E; reflexivity.
Qed.

Lemma take_token_from s : forall cur,
  tokens_from cur s = (if bool_decide (cur ++ (take_token s).1 = []) then [] else [cur ++ (take_token s).1]) ++
    tokens (take_token s).2.
Proof.
  induction s as [|c s IH]; intros cur; simpl; [rewrite app_nil_r, app_nil_r; reflexivity|].
  destruct (peak_exec_is_separator c) eqn:E; simpl; [rewrite app_nil_r; unfold tokens; simpl; rewrite E; reflexivity|].
  rewrite IH; destruct (take_token s) as [token rest]; simpl; rewrite <- app_assoc; reflexivity.
Qed.

(** One round of the code's loops. *)
Lemma tokens_step s token rest :
  take_token (skip_separators s) = (token, rest) ->
  tokens s = (if bool_decide (token = []) then [] else [token]) ++ tokens rest.
Proof.
  intros H; rewrite <- tokens_skip; unfold tokens at 1; rewrite take_token_from, H; reflexivity.
Qed.

Lemma skip_length s : (length (skip_separators s) <= length s)%nat.
Proof. induction s as [|c s IH]; simpl; [lia|]; destruct (peak_exec_is_separator c); simpl; lia. Qed.

Lemma take_token_length s : (length (take_token s).1 + length (take_token s).2 = length s)%nat.
Proof.
  induction s as [|c s IH]; simpl; [reflexivity|]; destruct (peak_exec_is_separator c); simpl; [lia|].
  destruct (take_token s); simpl in *; lia.
Qed.

(** The rest starts with a separator, or is empty. *)
Lemma take_token_rest s c rest token : take_token s = (token, c :: rest) -> peak_exec_is_separator c = true.
Proof.
  revert token; induction s as [|x s IH]; intros token; simpl; [intros [= _ ?]; discriminate|].
  destruct (peak_exec_is_separator x) eqn:E; [intros [= _ -> _]; exact E|].
  destruct (take_token s) as [t r]; intros [= _ ->]; eapply IH; reflexivity.
Qed.

(** Each round uses up a byte. *)
Lemma token_progress c s token rest :
  take_token (skip_separators (c :: s)) = (token, rest) -> (length rest <= length s)%nat.
Proof.
  simpl; destruct (peak_exec_is_separator c) eqn:E; intros H.
  - pose proof (take_token_length (skip_separators s)) as Hl; rewrite H in Hl; pose proof (skip_length s); simpl in *; lia.
  - simpl in H; rewrite E in H; pose proof (take_token_length s); destruct (take_token s); simplify_eq/=; lia.
Qed.

Lemma skip_rest rest : match rest with [] => True | c :: _ => peak_exec_is_separator c = true end ->
  (length (skip_separators rest) <= pred (length rest))%nat.
Proof. destruct rest as [|c rest]; simpl; [lia|]; intros ->; apply skip_length. Qed.

(** ** Computations that can only fail for want of memory *)

Definition yields {A} (x : EM A) (a : A) : Prop :=
  x [] = (Ok a, []) /\ forall m, (exists m', x m = (Ok a, m')) \/ exists e m', x m = (Err e, m').

Lemma yields_ok {A} (a : A) : yields (ok a) a.
Proof. split; [reflexivity|]; intros m; left; exists m; reflexivity. Qed.

Lemma yields_andthen {A B} (x : EM A) (f : A -> EM B) a b : yields x a -> yields (f a) b -> yields (andthen x f) b.
Proof.
  intros [Hx Hxm] [Hf Hfm]; unfold andthen; split; [rewrite Hx; exact Hf|]; intros m.
  destruct (Hxm m) as [[m' ->]|(e & m' & ->)]; [apply Hfm|eauto].
Qed.

Lemma yields_allocate e : yields (allocate e) tt.
Proof. split; [reflexivity|]; intros [|[|] m]; simpl; eauto. Qed.

Lemma yields_allocate_unless (c : bool) e : yields (if c then ok tt else allocate e) tt.
Proof. destruct c; [apply yields_ok|apply yields_allocate]. Qed.

Lemma yields_add a b : 0 <= b -> a + b <= SIZE_MAX -> yields (peak_exec_size_add a b) (a + b).
Proof. intros Hb H; unfold peak_exec_size_add; destruct (Z.ltb_spec (SIZE_MAX - b) a); [lia|apply yields_ok]. Qed.

(** The same under a property of the result. *)
Lemma yields_step {A B} (x : EM A) (f : A -> EM B) (P : B -> Prop) a :
  yields x a -> (exists b, yields (f a) b /\ P b) -> exists b, yields (andthen x f) b /\ P b.
Proof. intros Hx (b & Hf & HP); exists b; split; [eapply yields_andthen; eauto|exact HP]. Qed.

(** One operation after the other. *)
Ltac yield_with lem := eapply yields_andthen; [apply lem|cbv beta].
Ltac size_tac := unfold SIZE_MAX, UINT64_MAX in *; lia.
Ltac ystep := eapply yields_step; [first [apply yields_ok | apply yields_allocate | apply yields_add; size_tac]|cbv beta].
Ltac yield := eapply yields_andthen; [first [apply yields_ok | apply yields_allocate | apply yields_add; unfold SIZE_MAX, UINT64_MAX in *; lia]|cbv beta].

Section spec.
Context (p : process).

(** ** LD_PRELOAD *)

Definition other_tokens (libpeak s : cstring) : list cstring :=
  List.filter (fun t => negb (peak_exec_token_is_same_file p t libpeak)) (tokens s).
Definition appended (libpeak s : cstring) : cstring := concat (map (cons (ch ":")) (other_tokens libpeak s)).

Lemma same_file_empty libpeak : peak_exec_token_is_same_file p [] libpeak = false.
Proof. reflexivity. Qed.

Lemma contains_loop_spec libpeak fuel : forall cursor, (length cursor <= fuel)%nat ->
  contains_loop p fuel cursor libpeak = existsb (fun t => peak_exec_token_is_same_file p t libpeak) (tokens cursor).
Proof.
  induction fuel as [|fuel IH]; intros [|c s] Hf; simpl in Hf; try lia; [reflexivity..|].
  cbn [contains_loop]; destruct (take_token (skip_separators (c :: s))) as [token rest] eqn:E.
  rewrite (tokens_step _ _ _ E), existsb_app, (IH rest) by (pose proof (token_progress _ _ _ _ E); lia).
  case_bool_decide; subst; simpl; [reflexivity|].
  destruct (peak_exec_token_is_same_file p token libpeak); reflexivity.
Qed.

Lemma strlen_app a b : strlen (a ++ b) = strlen a + strlen b.
Proof. unfold strlen; rewrite length_app; lia. Qed.
Lemma strlen_cons c s : strlen (c :: s) = 1 + strlen s.
Proof. unfold strlen; simpl length; lia. Qed.
Lemma strlen_nonneg s : 0 <= strlen s.
Proof. unfold strlen; lia. Qed.

Lemma other_tokens_step libpeak s token rest :
  take_token (skip_separators s) = (token, rest) ->
  appended libpeak s = (if bool_decide (token = []) || peak_exec_token_is_same_file p token libpeak then [] else ch ":" :: token) ++
    appended libpeak rest.
Proof.
  intros E; unfold appended, other_tokens; rewrite (tokens_step _ _ _ E); case_bool_decide; [reflexivity|]; simpl.
  destruct (peak_exec_token_is_same_file p token libpeak); reflexivity.
Qed.

(** The buffer is always large enough, so the loop never allocates. *)
Lemma preload_loop_spec libpeak fuel : forall cursor output capacity, (length cursor <= fuel)%nat -> capacity <= SIZE_MAX ->
  cursor = [] \/ strlen output + strlen (skip_separators cursor) + 2 <= capacity ->
  yields (preload_loop p fuel cursor libpeak output capacity) (output ++ appended libpeak cursor).
Proof.
  induction fuel as [|fuel IH]; intros [|c s] output capacity Hf Hcap Hroom; simpl in Hf; try lia;
    [rewrite app_nil_r; apply yields_ok..|].
  destruct Hroom as [?|Hroom]; [discriminate|].
  cbn [preload_loop]; destruct (take_token (skip_separators (c :: s))) as [token rest] eqn:E.
  pose proof (token_progress _ _ _ _ E) as Hp; pose proof (take_token_length (skip_separators (c :: s))) as Hl; rewrite E in Hl.
  rewrite (other_tokens_step _ _ _ _ E); simpl fst in Hl; simpl snd in Hl.
  assert (Hrest : match rest with [] => True | c :: _ => peak_exec_is_separator c = true end).
  { destruct rest; [exact I|eapply take_token_rest, E]. }
  pose proof (skip_rest rest Hrest) as Hskip; unfold strlen in Hroom; set (skipped := skip_separators (c :: s)) in *.
  destruct (bool_decide (token = []) || peak_exec_token_is_same_file p token libpeak) eqn:Et.
  - apply IH; [lia|exact Hcap|]; destruct rest; [left; reflexivity|right; unfold strlen; simpl length in *; lia].
  - unfold strlen; yield; yield; unfold grow; destruct (Z.ltb_spec capacity (Z.of_nat (length output) + Z.of_nat (length token) + 2)); [lia|].
    yield; rewrite app_assoc; apply IH; [lia|exact Hcap|]; destruct rest; [left; reflexivity|right].
    rewrite strlen_app, strlen_cons; unfold strlen; simpl length in *; lia.
Qed.

Definition preload_value (libpeak : cstring) (existing : option cstring) : cstring :=
  libpeak ++ appended libpeak (default [] existing).

Lemma build_ld_spec existing libpeak :
  libpeak <> [] -> strlen libpeak + strlen (default [] existing) + 2 <= SIZE_MAX ->
  yields (peak_exec_build_ld_preload p existing libpeak)
    (preload_value libpeak existing, negb (bool_decide (existing = Some (preload_value libpeak existing)))).
Proof.
  intros Hne Hs; pose proof (strlen_nonneg libpeak); pose proof (strlen_nonneg (default [] existing)).
  unfold peak_exec_build_ld_preload; rewrite bool_decide_false by exact Hne; yield; yield; yield.
  yield_with preload_loop_spec; [lia|lia| |apply yields_ok].
  right; pose proof (skip_length (default [] existing)); unfold strlen in *; lia.
Qed.

(** ** The joined values *)

Definition named (name : cstring) (env : list cstring) : list cstring :=
  List.filter (fun e => peak_exec_env_entry_matches e name) env.
Definition glue (joined value : cstring) : cstring :=
  match value, joined with
  | [], _ => joined
  | _, [] => value
  | _, _ => joined ++ ch ":" :: value
  end.
Definition joined_values (env : list cstring) (name : cstring) : cstring := foldl glue [] (map value_of (named name env)).

Definition filled (v : cstring) : bool := negb (bool_decide (v = [])).
Definition values_total (env : list cstring) (name : cstring) : Z := total strlen (map value_of (named name env)).
Definition values_count (env : list cstring) (name : cstring) : Z :=
  Z.of_nat (countb filled (map value_of (named name env))).

Lemma named_cons name e env :
  named name (e :: env) = if peak_exec_env_entry_matches e name then e :: named name env else named name env.
Proof. reflexivity. Qed.

Lemma join_sizes_spec name env : forall t n,
  0 <= t -> 0 <= n -> t + values_total env name <= SIZE_MAX -> n + Z.of_nat (length env) < SIZE_MAX ->
  yields (join_sizes env name t n) (t + values_total env name, n + values_count env name).
Proof.
  unfold values_total, values_count; induction env as [|e env IH]; intros t n Ht Hn Hs Hc; simpl in *;
    [rewrite !Z.add_0_r; apply yields_ok|].
  destruct (peak_exec_env_entry_matches e name) eqn:E; simpl in *; [|apply IH; lia].
  assert (Hv : 0 <= total strlen (map value_of (named name env))) by (apply total_nonneg; intros; apply strlen_nonneg).
  unfold filled at 1; case_bool_decide as Hemp; simpl in *.
  - rewrite Hemp in *; change (strlen []) with 0 in *; rewrite Z.add_0_l in *; apply IH; lia.
  - pose proof (strlen_nonneg (value_of e)); yield; destruct (Z.eqb_spec n SIZE_MAX); [lia|].
    rewrite Nat2Z.inj_succ, <- Z.add_1_r, (Z.add_comm (Z.of_nat _) 1), !Z.add_assoc; apply IH; lia.
Qed.

Lemma join_copy_spec name env : forall allocation joined,
  (if bool_decide (joined = []) then values_total env name + Z.max 1 (values_count env name) <= allocation
   else strlen joined + values_total env name + values_count env name + 1 <= allocation) ->
  yields (join_copy env name allocation joined) (foldl glue joined (map value_of (named name env))).
Proof.
  unfold values_total, values_count; induction env as [|e env IH]; intros allocation joined Ha; simpl in *.
  - destruct (Z.leb_spec allocation (strlen joined)); [|apply yields_ok]; case_bool_decide; [subst; change (strlen []) with 0 in *; lia|lia].
  - destruct (peak_exec_env_entry_matches e name) eqn:E; simpl in *; [|apply IH; exact Ha].
    assert (Hv : 0 <= total strlen (map value_of (named name env))) by (apply total_nonneg; intros; apply strlen_nonneg).
    unfold filled in Ha at 1 3; destruct (value_of e) as [|v0 v] eqn:Ev.
    + change (strlen []) with 0 in Ha; simpl in Ha; apply IH; exact Ha.
    + rewrite (bool_decide_false (v0 :: v = [])) in * by discriminate; cbn [negb Nat.b2n] in Ha; rewrite Nat2Z.inj_add in Ha.
      pose proof (strlen_nonneg v); rewrite strlen_cons in *; destruct joined as [|j0 joined].
      * rewrite bool_decide_true in Ha by reflexivity; yield; change (strlen []) with 0.
        destruct (Z.leb_spec allocation 0); [lia|]; destruct (Z.leb_spec (allocation - 0) (1 + strlen v)); [lia|].
        apply (IH allocation (v0 :: v)); rewrite (bool_decide_false (v0 :: v = [])) by discriminate; rewrite strlen_cons; lia.
      * rewrite (bool_decide_false (j0 :: joined = [])) in * by discriminate; rewrite strlen_cons in Ha; pose proof (strlen_nonneg joined).
        rewrite strlen_cons; destruct (Z.leb_spec allocation (1 + strlen joined + 1)); [lia|]; yield.
        rewrite strlen_app, !strlen_cons; change (strlen []) with 0.
        destruct (Z.leb_spec allocation (1 + strlen joined + (1 + 0))); [lia|].
        destruct (Z.leb_spec (allocation - (1 + strlen joined + (1 + 0))) (1 + strlen v)); [lia|]; simpl orb; cbv iota.
        rewrite <- app_assoc; apply (IH allocation ((j0 :: joined) ++ ch ":" :: v0 :: v)).
        rewrite (bool_decide_false (_ ++ _ = [])) by discriminate; rewrite strlen_app, !strlen_cons; lia.
Qed.

Lemma countb_named name env : countb (fun e => peak_exec_env_entry_matches e name) env = length (named name env).
Proof. induction env as [|e env IH]; simpl; [reflexivity|]; destruct (peak_exec_env_entry_matches e name); simpl; lia. Qed.

Lemma value_length e : strlen (value_of e) <= strlen e.
Proof. unfold value_of; destruct (strchr e equals_sign); unfold strlen; rewrite ?length_drop; simpl; lia. Qed.

(** What the preflight has checked of the given environment. *)
Definition env_ok (base : option (list cstring)) : Prop :=
  match base with
  | None => True
  | Some env => Forall entry_ok env /\ Z.of_nat (length env) <= PEAK_EXEC_MAX_ENV_ENTRIES
  end.

Lemma values_total_le name env : Forall entry_ok env -> values_total env name <= Z.of_nat (length env) * INT_MAX.
Proof.
  unfold values_total; induction 1 as [|e env He _ IH]; simpl; [lia|].
  unfold entry_ok in He; pose proof (value_length e); destruct (peak_exec_env_entry_matches e name); simpl; unfold INT_MAX in *; lia.
Qed.

Lemma values_count_le name env : values_count env name <= Z.of_nat (length env).
Proof.
  unfold values_count; induction env as [|e env IH]; simpl; [lia|].
  destruct (peak_exec_env_entry_matches e name); cbn [map countb]; [destruct (filled _); simpl Nat.b2n|]; lia.
Qed.

(** NULL without an entry of the name. *)
Definition existing_values (base : option (list cstring)) (name : cstring) : option cstring :=
  match base with
  | None => None
  | Some env => if bool_decide (named name env = []) then None else Some (joined_values env name)
  end.

Lemma join_values_spec base name :
  env_ok base -> let x := peak_exec_env_join_values base name in
  x [] = (Ok (existing_values base name), []) /\
  forall m, (exists m', x m = (Ok (existing_values base name), m')) \/ exists m', x m = (Ok None, m').
Proof.
  intros Hok; destruct base as [env|]; simpl; [|split; [reflexivity|intros m; left; exists m; reflexivity]].
  destruct Hok as [He Hl]; unfold PEAK_EXEC_MAX_ENV_ENTRIES in Hl.
  pose proof (values_total_le name env He) as Ht; pose proof (values_count_le name env) as Hc.
  assert (Hnn : 0 <= values_total env name) by (apply total_nonneg; intros; apply strlen_nonneg).
  assert (Hnc : 0 <= values_count env name) by (unfold values_count; lia).
  match goal with |- context [or_null ?x] => assert (Hy : yields x (existing_values (Some env) name)) end.
  { unfold INT_MAX in *; yield_with (join_sizes_spec name env 0 0); [lia|lia|unfold SIZE_MAX, UINT64_MAX; lia..|].
    rewrite !Z.add_0_l; unfold peak_exec_env_name_count, existing_values; rewrite countb_named.
    case_bool_decide as En; [rewrite En; apply yields_ok|].
    destruct (Z.eqb_spec (Z.of_nat (length (named name env))) 0); [exfalso; destruct (named name env); [congruence|simpl in *; lia]|].
    assert (Hsz : (if 0 <? values_count env name then values_count env name else 1) = Z.max 1 (values_count env name))
      by (destruct (Z.ltb_spec 0 (values_count env name)); lia).
    rewrite Hsz; yield; yield; yield_with join_copy_spec; [|apply yields_ok].
    rewrite bool_decide_true by reflexivity; lia. }
  destruct Hy as [H0 Hm]; unfold andthen, or_null in *; split; [rewrite H0; reflexivity|].
  intros m; destruct (Hm m) as [[m' E]|(e & m' & E)]; rewrite E; simpl; [left|right]; eexists; reflexivity.
Qed.

Definition preload_count (base : option (list cstring)) : Z := peak_exec_env_name_count base LD_PRELOAD.

Lemma joined_length env name : Forall entry_ok env ->
  strlen (joined_values env name) <= values_total env name + values_count env name.
Proof.
  intros _; unfold joined_values, values_total, values_count.
  assert (Hgen : forall vs joined, strlen (foldl glue joined vs) <= strlen joined + total strlen vs + Z.of_nat (countb filled vs)).
  { induction vs as [|v vs IH]; intros joined; simpl; [lia|]; specialize (IH (glue joined v)).
    assert (Hg : strlen (glue joined v) <= strlen joined + strlen v + Z.of_nat (Nat.b2n (filled v))); [|lia].
    unfold filled; destruct v as [|v0 v], joined as [|j0 joined]; rewrite ?bool_decide_true by reflexivity;
      rewrite ?bool_decide_false by discriminate; unfold strlen, glue; rewrite ?length_app; simpl length; simpl Nat.b2n; lia. }
  specialize (Hgen (map value_of (named name env)) []); exact Hgen.
Qed.

Lemma existing_none base name :
  existing_values base name = None <-> peak_exec_env_name_count base name = 0.
Proof.
  destruct base as [env|]; simpl; [|tauto]; rewrite countb_named; case_bool_decide as En; [rewrite En; split; reflexivity|].
  split; [discriminate|]; destruct (named name env); [congruence|simpl; lia].
Qed.

Lemma plan_preload_spec base libpeak :
  env_ok base -> libpeak_path p = Some libpeak -> libpeak <> [] -> entry_ok libpeak ->
  let existing := existing_values base LD_PRELOAD in
  yields (plan_preload p base (preload_count base) true)
    (peak_exec_preload_contains_libpeak p existing libpeak, preload_value libpeak existing,
     negb (bool_decide (existing = Some (preload_value libpeak existing)))).
Proof.
  intros Hok Hlib Hne Hle existing; unfold plan_preload; cbn [negb]; rewrite Hlib; change (default [] (Some libpeak)) with libpeak.
  destruct (join_values_spec base LD_PRELOAD Hok) as [H0 Hm]; fold existing in H0, Hm.
  assert (Hsize : strlen libpeak + strlen (default [] existing) + 2 <= SIZE_MAX).
  { subst existing; unfold entry_ok, INT_MAX in Hle; destruct base as [env|]; simpl; [|change (strlen []) with 0; unfold SIZE_MAX, UINT64_MAX; lia].
    destruct Hok as [He Hl]; case_bool_decide; simpl; [change (strlen []) with 0; unfold SIZE_MAX, UINT64_MAX; lia|].
    pose proof (joined_length env LD_PRELOAD He); pose proof (values_total_le LD_PRELOAD env He); pose proof (values_count_le LD_PRELOAD env).
    unfold PEAK_EXEC_MAX_ENV_ENTRIES, INT_MAX, SIZE_MAX, UINT64_MAX in *; lia. }
  pose proof (build_ld_spec existing libpeak Hne Hsize) as [Hb0 Hbm].
  assert (Hpos : (0 <? preload_count base) && bool_decide (existing = None) = false).
  { destruct (decide (existing = None)) as [En|En]; [|rewrite bool_decide_false by exact En; apply andb_false_r].
    apply existing_none in En; unfold preload_count; rewrite En; reflexivity. }
  unfold yields, andthen; split; [rewrite H0; cbv beta iota; rewrite Hpos; cbv beta iota; rewrite Hb0; reflexivity|]; intros m.
  destruct (Hm m) as [[m' ->]|[m' ->]].
  - rewrite Hpos; cbv beta iota; destruct (Hbm m') as [[m2 E]|(e & m2 & E)]; rewrite E; [left|right]; repeat eexists; reflexivity.
  - rewrite (bool_decide_true (None = None)) by reflexivity; destruct (0 <? preload_count base) eqn:Ec; [right; repeat eexists; reflexivity|].
    assert (Hex : existing = None).
    { apply existing_none; breflect; unfold preload_count, peak_exec_env_name_count in *; destruct base; lia. }
    clearbody existing; subst existing; cbn [andb]; cbv beta iota; destruct (Hbm m') as [[m2 E]|(e & m2 & E)]; rewrite E; [left|right]; repeat eexists; reflexivity.
Qed.

(** ** The stores *)

Fixpoint copied (base : list cstring) (touch new_changed : bool) (value : cstring) (written : bool) : list cstring :=
  match base with
  | [] => []
  | e :: base =>
      if touch && peak_exec_env_entry_matches e LD_PRELOAD then
        if written then copied base touch new_changed value written
        else (if new_changed then preload_entry value else e) :: copied base touch new_changed value true
      else e :: copied base touch new_changed value written
  end.

Lemma copied_length base touch new_changed value : forall written,
  (length (copied base touch new_changed value written) <= length base)%nat.
Proof.
  induction base as [|e base IH]; intros written; simpl; [lia|].
  destruct (touch && _); [destruct written; [specialize (IH true); lia|]|]; simpl; [specialize (IH true)|specialize (IH written)]; lia.
Qed.

Lemma copied_untouched base new_changed value : forall written, copied base false new_changed value written = base.
Proof. induction base as [|e base IH]; intros written; simpl; [reflexivity|rewrite IH; reflexivity]. Qed.

Lemma yields_room capacity b : Z.of_nat (length (entries b)) + 1 < capacity -> yields (room capacity b) tt.
Proof. intros H; unfold room; destruct (Z.leb_spec capacity (Z.of_nat (length (entries b)) + 1)); [lia|apply yields_ok]. Qed.

Lemma yields_owned b : owned_count b < owned_capacity b ->
  yields (peak_exec_add_owned b) (mkExecEnv (envp b) (owned_count b + 1) (owned_capacity b) (changed b)).
Proof. intros H; unfold peak_exec_add_owned; destruct (Z.leb_spec (owned_capacity b) (owned_count b)); [lia|apply yields_ok]. Qed.

(** What has been stored, and how much of the heap strings' array is used. *)
Record stored (l : list cstring) (owned capacity : Z) (b : PeakExecEnv) : Prop := {
  st_entries : envp b = Some l;
  st_owned : owned_count b <= owned;
  st_capacity : owned_capacity b = capacity
}.

Lemma put_preload_spec l owned owned_capacity capacity value b :
  stored l owned owned_capacity b -> owned < owned_capacity -> Z.of_nat (length l) + 1 < capacity -> strlen value <= 2 ^ 62 ->
  exists b', yields (put_preload capacity value b) b' /\ stored (l ++ [preload_entry value]) (owned + 1) owned_capacity b'.
Proof.
  intros [He Ho Hc] Hlt Hroom Hv; pose proof (strlen_nonneg value).
  assert (Hl : strlen LD_PRELOAD = 10) by reflexivity.
  eexists; split.
  - unfold put_preload; yield; yield; yield; yield_with yields_room; [unfold entries; rewrite He; exact Hroom|].
    yield_with yields_owned; [lia|apply yields_ok].
  - constructor; simpl; [unfold entries; simpl; rewrite He; reflexivity|lia|exact Hc].
Qed.

Lemma put_spec l owned owned_capacity e marks b :
  stored l owned owned_capacity b -> stored (l ++ [e]) owned owned_capacity (put e marks b).
Proof. intros [He Ho Hc]; constructor; simpl; auto; unfold entries; rewrite He; reflexivity. Qed.

Definition replaces (base : list cstring) (touch new_changed written : bool) : bool :=
  touch && new_changed && negb written && existsb (fun e => peak_exec_env_entry_matches e LD_PRELOAD) base.

Lemma copy_base_spec base touch new_changed value capacity owned_capacity : strlen value <= 2 ^ 62 ->
  forall written l owned b, stored l owned owned_capacity b ->
  (replaces base touch new_changed written = true -> owned < owned_capacity) ->
  Z.of_nat (length l) + Z.of_nat (length base) + 1 <= capacity ->
  exists b' w, yields (copy_base base touch new_changed value capacity written b) (b', w) /\
    stored (l ++ copied base touch new_changed value written) (owned + one_if (replaces base touch new_changed written)) owned_capacity b'.
Proof.
  intros Hv; induction base as [|e base IH]; intros written l owned b Hb Ho Hl; simpl length in Hl.
  - exists b, written; split; [apply yields_ok|]; simpl; rewrite app_nil_r; destruct Hb; constructor; auto.
    unfold one_if; destruct (replaces _ _ _ _); lia.
  - cbn [copy_base copied]; unfold replaces in *; cbn [existsb] in *.
    destruct (touch && peak_exec_env_entry_matches e LD_PRELOAD) eqn:E;
      [apply andb_prop in E as [-> E]; rewrite E in *; destruct written; [|destruct new_changed]|].
    + edestruct (IH true l owned (mkExecEnv (envp b) (owned_count b) (ExecEnv.owned_capacity b) true)) as (b2 & w & Hy2 & Hb2);
        [|cbn [negb]; rewrite andb_false_r; discriminate|lia|].
      { destruct Hb as [He Hown Hcap]; constructor; [exact He|exact Hown|exact Hcap]. }
      exists b2, w; split; [exact Hy2|]; cbn [negb] in *; rewrite andb_false_r in *; exact Hb2.
    + destruct (put_preload_spec l owned owned_capacity capacity value b Hb (Ho eq_refl) ltac:(lia) Hv) as (b1 & Hy1 & Hb1).
      edestruct (IH true) as (b2 & w & Hy2 & Hb2); [exact Hb1|discriminate|rewrite length_app; simpl length; lia|].
      exists b2, w; split; [eapply yields_andthen; [exact Hy1|exact Hy2]|].
      rewrite <- app_assoc in Hb2; destruct Hb2; constructor; auto; simpl in *; lia.
    + edestruct (IH true) as (b2 & w & Hy2 & Hb2); [exact (put_spec l owned owned_capacity e false b Hb)|discriminate|rewrite length_app; simpl length; lia|].
      exists b2, w; split; [yield_with yields_room; [unfold entries; rewrite (st_entries _ _ _ _ Hb); simpl; lia|exact Hy2]|].
      rewrite <- app_assoc in Hb2; exact Hb2.
    + assert (Hsame : touch && new_changed && negb written && (peak_exec_env_entry_matches e LD_PRELOAD ||
        existsb (fun e => peak_exec_env_entry_matches e LD_PRELOAD) base) =
        touch && new_changed && negb written && existsb (fun e => peak_exec_env_entry_matches e LD_PRELOAD) base).
      { destruct touch; [|reflexivity]; cbn [andb] in E; rewrite E; reflexivity. }
      rewrite Hsame in *.
      edestruct (IH written) as (b2 & w & Hy2 & Hb2); [exact (put_spec l owned owned_capacity e false b Hb)|exact Ho|rewrite length_app; simpl length; lia|].
      exists b2, w; split; [yield_with yields_room; [unfold entries; rewrite (st_entries _ _ _ _ Hb); simpl; lia|exact Hy2]|].
      rewrite <- app_assoc in Hb2; exact Hb2.
Qed.

(** The PEAK_ entries that are added, each name once. *)
Fixpoint missing (parent : list cstring) (base : option (list cstring)) (sofar : list cstring) : list cstring :=
  match parent with
  | [] => []
  | e :: parent =>
      match peak_name e with
      | Some name =>
          if peak_exec_env_has_name base name || storage_has_name sofar name then missing parent base sofar
          else e :: missing parent base (sofar ++ [e])
      | None => missing parent base sofar
      end
  end.

Lemma count_missing_nonneg parent base : 0 <= count_missing parent base <= Z.of_nat (length parent).
Proof.
  induction parent as [|e parent IH]; simpl; [lia|]; destruct (peak_name e); [destruct (peak_exec_env_has_name base l)|]; lia.
Qed.

Lemma missing_length parent base : forall sofar, Z.of_nat (length (missing parent base sofar)) <= count_missing parent base.
Proof.
  induction parent as [|e parent IH]; intros sofar; simpl; [lia|]; destruct (peak_name e) as [name|]; [|apply IH].
  destruct (peak_exec_env_has_name base name); cbn [orb]; [apply IH|]; destruct (storage_has_name sofar name).
  - specialize (IH sofar); lia.
  - specialize (IH (sofar ++ [e])); simpl length; lia.
Qed.

Lemma stored_more l owned owned' capacity b : stored l owned capacity b -> owned <= owned' -> stored l owned' capacity b.
Proof. intros [? ? ?] ?; constructor; auto; lia. Qed.

Lemma append_missing_spec base capacity owned_capacity parent : forall l owned b, stored l owned owned_capacity b ->
  owned + count_missing parent base <= owned_capacity -> Z.of_nat (length l) + count_missing parent base + 1 <= capacity ->
  exists b', yields (append_missing parent base capacity b) b' /\
    stored (l ++ missing parent base l) (owned + count_missing parent base) owned_capacity b'.
Proof.
  induction parent as [|e parent IH]; intros l owned b Hb Ho Hl.
  - exists b; split; [apply yields_ok|]; simpl; rewrite app_nil_r, Z.add_0_r; exact Hb.
  - pose proof (count_missing_nonneg parent base); cbn [append_missing missing count_missing] in *; destruct (peak_name e) as [name|];
      [|rewrite Z.add_0_l in *; apply IH; assumption].
    destruct (peak_exec_env_has_name base name) eqn:Eb; [rewrite Z.add_0_l in *; apply IH; assumption|].
    assert (Hent : entries b = l) by (unfold entries; rewrite (st_entries _ _ _ _ Hb); reflexivity).
    rewrite Hent; destruct (storage_has_name l name); cbn [orb].
    + destruct (IH l owned b Hb) as (b' & Hy & Hb'); [lia..|]; exists b'; split; [exact Hy|].
      destruct Hb'; constructor; auto; lia.
    + edestruct (IH (l ++ [e]) (owned + 1)) as (b' & Hy & Hb').
      { apply (put_spec _ _ _ e true (mkExecEnv (envp b) (owned_count b + 1) (ExecEnv.owned_capacity b) (changed b))).
        destruct Hb; constructor; simpl; auto; lia. }
      { lia. } { rewrite length_app; simpl length; lia. }
      exists b'; split.
      * yield; yield_with yields_owned; [destruct Hb; lia|]; yield_with yields_room; [change (entries _) with (entries b); rewrite Hent; lia|exact Hy].
      * rewrite <- app_assoc in Hb'; destruct Hb'; constructor; auto; lia.
Qed.

(** ** What the new program sees *)

Definition injected (base : option (list cstring)) : bool := negb (secure_mode p) && peak_exec_should_inject_libpeak p base.
Definition libpeak : cstring := default [] (libpeak_path p).
Definition old_preload (base : option (list cstring)) : option cstring := existing_values base LD_PRELOAD.
Definition new_preload (base : option (list cstring)) : cstring := preload_value libpeak (old_preload base).
Definition already (base : option (list cstring)) : bool := peak_exec_preload_contains_libpeak p (old_preload base) libpeak.
Definition is_new (base : option (list cstring)) : bool :=
  injected base && negb (bool_decide (old_preload base = Some (new_preload base))).

Definition expected (base : option (list cstring)) (propagate : bool) (name : cstring) : option cstring :=
  if injected base && bool_decide (name = LD_PRELOAD) then Some (new_preload base)
  else
    match peak_exec_env_get base name with
    | Some v => Some v
    | None =>
        if bool_decide (name = LD_LIBRARY_PATH) then
          if injected base && negb (already base) then
            match cached_ld_library_path p with Ready (Some e) => Some (value_of e) | _ => None end
          else None
        else if propagate && bool_decide (take 5 name = peak_prefix) && (strlen name <? 256)
        then peak_exec_env_get (environ p) name else None
    end.

(** Several LD_PRELOAD entries whose joined value is already the new one: only
    the first of them is passed on. *)
Definition shadowed (base : option (list cstring)) (name : cstring) : bool :=
  bool_decide (name = LD_PRELOAD) && (injected base && negb (is_new base) && (1 <? preload_count base)).

(** The situation in which an environment is built: at most
    [PEAK_EXEC_MAX_ENV_ENTRIES] entries, strings of at most [INT_MAX] bytes, no
    separator in the path of libpeak. *)
Record setting (base : option (list cstring)) : Prop := {
  se_base : env_ok base;
  se_parent : match environ p with None => True | Some l => Forall entry_ok l /\ Z.of_nat (length l) <= INT_MAX end;
  se_libpeak : entry_ok libpeak /\ Forall (fun c => peak_exec_is_separator c = false) libpeak;
  se_library : exists env, Forall entry_ok env /\ cached_ld_library_path p = peak_exec_cache_ld_library_path env
}.

Definition library_entry (base : option (list cstring)) : option cstring :=
  if is_new base && negb (already base) && negb (peak_exec_env_has_name base LD_LIBRARY_PATH)
  then match cached_ld_library_path p with Ready e => e | _ => None end else None.

Lemma cache_ready env : Forall entry_ok env ->
  peak_exec_cache_ld_library_path env = Ready None \/
  exists v, v <> [] /\ peak_exec_cache_ld_library_path env = Ready (Some (LD_LIBRARY_PATH ++ equals_sign :: v)).
Proof.
  intros Hok; unfold peak_exec_cache_ld_library_path; destruct (getenv_in env LD_LIBRARY_PATH) as [[|c v]|] eqn:E; auto.
  assert (Hv : strlen (c :: v) <= INT_MAX).
  { revert E; induction Hok as [|e l He _ IH]; cbn [getenv_in]; [discriminate|]; destruct (_ && _); [|exact IH]; intros [= <-].
    unfold entry_ok, strlen in *; rewrite length_drop; lia. }
  change (strlen LD_LIBRARY_PATH) with 15; destruct (Z.ltb_spec (SIZE_MAX - (15 + 1) - 1) (strlen (c :: v)));
    [unfold SIZE_MAX, UINT64_MAX, INT_MAX in *; lia|right; exists (c :: v); split; [discriminate|reflexivity]].
Qed.

Section build.
Context (base : option (list cstring)) (propagate : bool) (Hset : setting base).

Definition parent_missing (sofar : list cstring) : list cstring :=
  if propagate then match environ p with None => [] | Some l => missing l base sofar end else [].
Definition missing_total : Z := if propagate then peak_exec_count_missing_peak_env p base else 0.
Definition front : list cstring :=
  (copied (default [] base) (injected base) (is_new base) (new_preload base) false ++
   (if injected base && (preload_count base =? 0) then [preload_entry (new_preload base)] else [])) ++
  match library_entry base with Some e => [e] | None => [] end.

(** Nothing is to be done, or the entries are stored one after the other. *)
Definition built (b : PeakExecEnv) : Prop :=
  (envp b = None /\ is_new base = false /\ missing_total = 0) \/ envp b = Some (front ++ parent_missing front).

Lemma missing_total_bounds : 0 <= missing_total <= INT_MAX.
Proof.
  unfold missing_total, peak_exec_count_missing_peak_env; pose proof (se_parent _ Hset) as Hp.
  destruct propagate, (environ p) as [l|]; unfold INT_MAX in *; try lia; pose proof (count_missing_nonneg l base); lia.
Qed.

Lemma old_preload_length : strlen (default [] (old_preload base)) <= 2 ^ 50.
Proof.
  pose proof (se_base _ Hset) as Hok; unfold old_preload, existing_values; destruct base as [env|]; [|vm_compute; discriminate].
  destruct Hok as [He Hl]; case_bool_decide; simpl; [vm_compute; discriminate|].
  pose proof (joined_length env LD_PRELOAD He); pose proof (values_total_le LD_PRELOAD env He); pose proof (values_count_le LD_PRELOAD env).
  unfold PEAK_EXEC_MAX_ENV_ENTRIES, INT_MAX in *; lia.
Qed.

Lemma tokens_total s : forall cur, total (fun t => 1 + strlen t) (tokens_from cur s) <= 2 * (strlen cur + strlen s).
Proof.
  induction s as [|c s IH]; intros cur; simpl.
  - case_bool_decide as Hc; simpl; pose proof (strlen_nonneg cur); change (strlen []) with 0; [lia|].
    destruct cur; [congruence|rewrite strlen_cons in *; pose proof (strlen_nonneg cur); lia].
  - rewrite strlen_cons; destruct (peak_exec_is_separator c).
    + specialize (IH []); change (strlen []) with 0 in IH; case_bool_decide; simpl; pose proof (strlen_nonneg cur); lia.
    + specialize (IH (cur ++ [c])); rewrite strlen_app, strlen_cons in IH; change (strlen []) with 0 in IH; lia.
Qed.

Lemma appended_length l s : strlen (appended l s) <= 2 * strlen s.
Proof.
  pose proof (tokens_total s []) as Ht; change (strlen []) with 0 in Ht; unfold appended, other_tokens, tokens.
  assert (Hgen : forall ts, strlen (concat (map (cons (ch ":")) (List.filter (fun t => negb (peak_exec_token_is_same_file p t l)) ts)))
    <= total (fun t => 1 + strlen t) ts); [|specialize (Hgen (tokens_from [] s)); lia].
  induction ts as [|t ts IH]; simpl; [vm_compute; discriminate|]; pose proof (strlen_nonneg t).
  destruct (negb _); simpl; [rewrite strlen_cons, strlen_app|]; lia.
Qed.

Lemma new_preload_length : strlen (new_preload base) <= 2 ^ 62.
Proof.
  pose proof (se_libpeak _ Hset) as [Hl _]; unfold entry_ok, INT_MAX in Hl; unfold new_preload, preload_value; rewrite strlen_app.
  pose proof (appended_length libpeak (default [] (old_preload base))); pose proof old_preload_length; lia.
Qed.

Lemma injected_path : injected base = true -> libpeak_path p = Some libpeak /\ libpeak <> [].
Proof.
  unfold injected, peak_exec_should_inject_libpeak, libpeak; intros H; apply andb_prop in H as [_ H].
  destruct (libpeak_path p) as [[|c l]|]; [discriminate|split; [reflexivity|discriminate]|discriminate].
Qed.

Lemma plan_spec :
  exists a v, yields (plan_preload p base (preload_count base) (injected base)) (a, v, is_new base) /\
    (injected base = true -> a = already base /\ v = new_preload base) /\ (injected base = false -> v = []).
Proof.
  unfold is_new; destruct (injected base) eqn:Ei.
  - destruct (injected_path Ei) as [Hlib Hne]; destruct (se_libpeak _ Hset) as [Hl _].
    eexists _, _; split; [apply (plan_preload_spec base libpeak (se_base _ Hset) Hlib Hne Hl)|split; [auto|discriminate]].
  - eexists _, _; split; [apply yields_ok|split; [discriminate|reflexivity]].
Qed.

Lemma one_if_bounds c : 0 <= one_if c <= 1.
Proof. destruct c; simpl; lia. Qed.

Lemma one_if_some (o : option cstring) : one_if (bool_decide (is_Some o)) = Z.of_nat (length (option_list o)).
Proof. destruct o; [rewrite bool_decide_true by eauto|rewrite bool_decide_false by (intros [? ?]; discriminate)]; reflexivity. Qed.

Definition lacks_preload : bool := injected base && (preload_count base =? 0).
Definition copies : list cstring := copied (default [] base) (injected base) (is_new base) (new_preload base) false.
Definition owned_total : Z := missing_total + one_if (is_new base).
Definition slots_total : Z :=
  Z.of_nat (length (default [] base)) + (missing_total + (one_if lacks_preload + one_if (bool_decide (is_Some (library_entry base))))) + 1.

Lemma replaces_any : replaces (default [] base) (injected base) (is_new base) false = is_new base && negb (preload_count base =? 0).
Proof.
  unfold replaces, preload_count, peak_exec_env_name_count, is_new; destruct (injected base); [|reflexivity]; cbn [andb negb]; rewrite andb_true_r; f_equal.
  destruct base as [env|]; [|reflexivity]; simpl; rewrite countb_named; clear; induction env as [|e env IH]; [reflexivity|]; simpl.
  destruct (peak_exec_env_entry_matches e LD_PRELOAD); [reflexivity|exact IH].
Qed.

Lemma lacking_is_new : lacks_preload = true -> is_new base = true.
Proof.
  intros H; apply andb_prop in H as [Hi Hc]; breflect; unfold is_new; rewrite Hi.
  apply existing_none in Hc; fold (old_preload base) in Hc; rewrite Hc; reflexivity.
Qed.

Section stores.
Context (v : cstring) (Hv : strlen v <= 2 ^ 62) (Hval : injected base = true -> v = new_preload base).

Lemma store_copies : exists b w,
  yields (copy_base (default [] base) (injected base) (is_new base) v slots_total false (mkExecEnv (Some []) 0 owned_total false)) (b, w) /\
  stored copies (one_if (is_new base && negb (preload_count base =? 0))) owned_total b.
Proof.
  pose proof missing_total_bounds; pose proof (one_if_bounds lacks_preload); pose proof (one_if_bounds (bool_decide (is_Some (library_entry base)))).
  destruct (copy_base_spec (default [] base) (injected base) (is_new base) v slots_total owned_total Hv false [] 0
    (mkExecEnv (Some []) 0 owned_total false)) as (b & w & Hy & Hb);
    [constructor; simpl; auto; lia|rewrite replaces_any; intros E; apply andb_prop in E as [E _]; unfold owned_total; rewrite E; simpl; lia|
     unfold slots_total; simpl length; lia|].
  exists b, w; split; [exact Hy|]; rewrite replaces_any in Hb; replace copies with (copied (default [] base) (injected base) (is_new base) v false); [exact Hb|].
  unfold copies; destruct (injected base); [rewrite (Hval eq_refl); reflexivity|rewrite !copied_untouched; reflexivity].
Qed.

Lemma copies_length : Z.of_nat (length copies) <= Z.of_nat (length (default [] base)).
Proof. pose proof (copied_length (default [] base) (injected base) (is_new base) (new_preload base) false); unfold copies; lia. Qed.

Definition with_preload : list cstring := copies ++ (if lacks_preload then [preload_entry (new_preload base)] else []).

Lemma store_preload b : stored copies (one_if (is_new base && negb (preload_count base =? 0))) owned_total b ->
  exists b', yields (if lacks_preload then put_preload slots_total v b else ok b) b' /\ stored with_preload (one_if (is_new base)) owned_total b'.
Proof.
  intros Hb; pose proof missing_total_bounds; pose proof copies_length; pose proof (one_if_bounds (bool_decide (is_Some (library_entry base)))).
  unfold with_preload; destruct lacks_preload eqn:E.
  - pose proof (lacking_is_new E) as Hn; unfold slots_total, owned_total in *; rewrite E, Hn in *; apply andb_prop in E as [Ei Ec]; rewrite Ec in Hb.
    cbn [negb andb one_if] in *; rewrite (Hval Ei) in *; eapply put_preload_spec in Hb; [exact Hb|lia|lia|exact Hv].
  - exists b; split; [apply yields_ok|]; rewrite app_nil_r; eapply stored_more; [exact Hb|]; destruct (is_new base), (negb _); simpl; lia.
Qed.

Lemma store_library b : stored with_preload (one_if (is_new base)) owned_total b ->
  exists b', yields (match library_entry base with Some entry => then! room slots_total b; ok (put entry true b) | None => ok b end) b' /\
    stored front (one_if (is_new base)) owned_total b'.
Proof.
  intros Hb; pose proof missing_total_bounds; pose proof copies_length; unfold front; fold copies lacks_preload with_preload.
  unfold slots_total; rewrite one_if_some; destruct (library_entry base) as [e|]; [|exists b; split; [apply yields_ok|rewrite app_nil_r; exact Hb]].
  eexists; split; [|apply put_spec; exact Hb]; yield_with yields_room; [|apply yields_ok].
  unfold entries; rewrite (st_entries _ _ _ _ Hb); unfold with_preload; simpl; rewrite length_app; destruct lacks_preload; simpl; lia.
Qed.

Lemma front_length : Z.of_nat (length front) + missing_total + 1 <= slots_total.
Proof.
  pose proof copies_length; unfold front; fold copies lacks_preload; unfold slots_total; rewrite one_if_some, !length_app.
  destruct (library_entry base), lacks_preload; simpl; lia.
Qed.

Lemma store_missing b : stored front (one_if (is_new base)) owned_total b ->
  exists b', yields (if propagate then peak_exec_append_missing_peak_env p base slots_total b else ok b) b' /\
    envp b' = Some (front ++ parent_missing front) /\ Z.of_nat (length (front ++ parent_missing front)) < slots_total.
Proof.
  intros Hb; pose proof front_length as Hf; pose proof missing_total_bounds as Hm; unfold owned_total in Hb; revert Hf Hm Hb.
  unfold parent_missing, missing_total, peak_exec_append_missing_peak_env, peak_exec_count_missing_peak_env.
  destruct propagate, (environ p) as [parent|]; intros Hf Hm Hb;
    try (exists b; split; [apply yields_ok|]; rewrite app_nil_r; split; [apply Hb|lia]).
  destruct (append_missing_spec base slots_total _ parent front _ b Hb) as (b' & Hy & Hb'); [lia..|].
  exists b'; split; [exact Hy|split; [apply Hb'|]]; rewrite length_app; pose proof (missing_length parent base front); lia.
Qed.
End stores.

Lemma library_spec a : (injected base = true -> a = already base) ->
  yields (if is_new base && negb a && negb (peak_exec_env_has_name base LD_LIBRARY_PATH)
      then match cached_ld_library_path p with NotReady | Failed => fail ENOMEM | Ready e => ok e end else ok None) (library_entry base).
Proof.
  intros Ha; unfold library_entry; destruct (is_new base) eqn:En; [|apply yields_ok]; unfold is_new in En; apply andb_prop in En as [Ei _].
  rewrite (Ha Ei); destruct (negb (already base)), (negb (peak_exec_env_has_name base LD_LIBRARY_PATH)); try apply yields_ok; cbn [andb].
  destruct (se_library _ Hset) as (env & He & ->); destruct (cache_ready env He) as [->|(v' & _ & ->)]; apply yields_ok.
Qed.

Lemma base_count_spec : yields (peak_exec_env_count_bounded base) (Z.of_nat (length (default [] base))) /\
  Z.of_nat (length (default [] base)) <= 32768.
Proof.
  pose proof (se_base _ Hset) as Hok; destruct base as [env|]; simpl; [|split; [apply yields_ok|lia]]; destruct Hok as [_ Hl].
  split; [|exact Hl]; destruct (Z.ltb_spec PEAK_EXEC_MAX_ENV_ENTRIES (Z.of_nat (length env))); [lia|apply yields_ok].
Qed.

Lemma build_env_spec : exists b, yields (peak_exec_build_env p base true propagate) b /\ built b.
Proof.
  destruct plan_spec as (a & v & Hplan & Hyes & Hno), base_count_spec as [Hbase Hcount]; pose proof missing_total_bounds as Hm.
  assert (Hv : strlen v <= 2 ^ 62).
  { destruct (injected base); [destruct (Hyes eq_refl) as [_ ->]; apply new_preload_length|rewrite (Hno eq_refl); vm_compute; discriminate]. }
  assert (Hval : injected base = true -> v = new_preload base) by (intros Hi; apply Hyes, Hi).
  unfold peak_exec_build_env; cbn [negb]; eapply yields_step; [exact Hbase|]; cbv beta zeta.
  fold (injected base) (preload_count base); eapply yields_step; [exact Hplan|]; cbv beta iota; fold missing_total.
  eapply yields_step; [apply library_spec; intros Hi; apply Hyes, Hi|]; cbv beta zeta.
  destruct (negb (is_new base) && _ && _ && _) eqn:Enone.
  { breflect; exists no_env; split; [apply yields_ok|]; left; auto. }
  pose proof (one_if_bounds lacks_preload); pose proof (one_if_bounds (bool_decide (is_Some (library_entry base)))).
  pose proof (one_if_bounds (injected base && is_new base)); unfold INT_MAX in Hm; fold lacks_preload; do 5 ystep.
  eapply yields_step; [apply yields_allocate_unless|]; cbv beta.
  replace (injected base && is_new base) with (is_new base) by (unfold is_new; destruct (injected base); reflexivity); fold owned_total slots_total.
  destruct (store_copies v Hv Hval) as (b1 & w & Hy1 & Hb1); eapply yields_step; [exact Hy1|]; cbv beta iota.
  destruct (store_preload v Hv Hval b1 Hb1) as (b2 & Hy2 & Hb2); eapply yields_step; [exact Hy2|]; cbv beta.
  destruct (store_library b2 Hb2) as (b3 & Hy3 & Hb3); eapply yields_step; [exact Hy3|]; cbv beta.
  destruct (store_missing b3 Hb3) as (b4 & Hy4 & He & Hfit); eapply yields_step; [exact Hy4|]; cbv beta.
  exists b4; split; [|right; exact He]; unfold entries; rewrite He; simpl default.
  destruct (Z.leb_spec slots_total (Z.of_nat (length (front ++ parent_missing front)))); [lia|apply yields_ok].
Qed.
End build.

(** ** Values in the environment *)

Lemma preload_entry_get v : peak_exec_env_entry_matches (preload_entry v) LD_PRELOAD = true /\ value_of (preload_entry v) = v.
Proof.
  apply (matches_eq _ LD_PRELOAD v); [|intros H; repeat (apply elem_of_cons in H as [H|H]; [discriminate|]); inversion H|reflexivity].
  intros n; unfold preload_entry; simpl; intros [= <-]; vm_compute; discriminate.
Qed.

Lemma preload_entry_name_ok v : name_ok (preload_entry v).
Proof. intros n; unfold preload_entry; simpl; intros [= <-]; vm_compute; discriminate. Qed.

(** The copy changes nothing but LD_PRELOAD. *)
Lemma copied_get_other touch new_changed v name l : Forall entry_ok l -> touch = false \/ name <> LD_PRELOAD ->
  forall written, env_get (copied l touch new_changed v written) name = env_get l name.
Proof.
  intros Hok Hname; induction Hok as [|e l He Hl IH]; intros written; simpl; [reflexivity|].
  destruct (touch && peak_exec_env_entry_matches e LD_PRELOAD) eqn:E; [|simpl; rewrite IH; reflexivity].
  apply andb_prop in E as [-> Em]; destruct Hname as [?|Hname]; [discriminate|].
  assert (Hno : forall e', name_ok e' -> peak_exec_env_entry_matches e' LD_PRELOAD = true -> peak_exec_env_entry_matches e' name = false).
  { intros e' He' Hm; destruct (peak_exec_env_entry_matches e' name) eqn:E2; [|reflexivity].
    exfalso; apply Hname; eapply matches_unique; eauto. }
  rewrite (Hno e (entry_name_ok e He) Em); destruct written; [apply IH|]; simpl.
  destruct new_changed; [rewrite (Hno _ (preload_entry_name_ok v) (proj1 (preload_entry_get v)))|rewrite (Hno e (entry_name_ok e He) Em)]; apply IH.
Qed.

Lemma copied_get_written new_changed v l : env_get (copied l true new_changed v true) LD_PRELOAD = None.
Proof.
  induction l as [|e l IH]; [reflexivity|]; simpl; destruct (peak_exec_env_entry_matches e LD_PRELOAD) eqn:E; [exact IH|simpl; rewrite E; exact IH].
Qed.

Lemma copied_get_preload new_changed v l :
  env_get (copied l true new_changed v false) LD_PRELOAD =
  match named LD_PRELOAD l with [] => None | e :: _ => Some (if new_changed then v else value_of e) end.
Proof.
  induction l as [|e l IH]; [reflexivity|]; cbn [copied andb]; rewrite named_cons.
  destruct (peak_exec_env_entry_matches e LD_PRELOAD) eqn:E; [|cbn [env_get]; rewrite E; exact IH].
  destruct new_changed; cbn [env_get]; [destruct (preload_entry_get v) as [-> ->]|rewrite E]; reflexivity.
Qed.

Lemma env_get_named l name : env_get l name = match named name l with [] => None | e :: _ => Some (value_of e) end.
Proof. induction l as [|e l IH]; [reflexivity|]; simpl; destruct (peak_exec_env_entry_matches e name); [reflexivity|exact IH]. Qed.

Definition peak_variable (name : cstring) : bool := bool_decide (take 5 name = peak_prefix) && (strlen name <? 256).

Lemma peak_name_spec e name : name_ok e ->
  peak_name e = Some name <-> peak_exec_env_entry_matches e name = true /\ peak_variable name = true.
Proof.
  intros He; unfold peak_name, peak_variable, is_peak_entry; destruct (strchr e equals_sign) as [n|] eqn:En.
  - destruct (strchr_Some _ _ _ En) as [Hs Hn]; pose proof (strchr_lt _ _ _ En) as Hlt; rewrite (name_len_ok e n He En), Nat2Z.id.
    assert (Hlen : length (take n e) = n) by (rewrite length_take; lia).
    assert (Htake : forall m, m = take n e -> bool_decide (take 5 m = peak_prefix) = true -> take 5 e = peak_prefix).
    { intros m -> Hb; apply bool_decide_eq_true in Hb; rewrite <- Hb, Hs at 1; rewrite take_app_le; [reflexivity|].
      apply (f_equal length) in Hb; change (length peak_prefix) with 5%nat in Hb; rewrite length_take in Hb; lia. }
    assert (Hpre : take 5 e = peak_prefix -> n = length (take n e) /\ (5 <= n)%nat /\ take 5 (take n e) = peak_prefix).
    { intros Hp; assert (H5 : (5 <= n)%nat).
      { destruct (le_lt_dec 5 n) as [H5|H5]; [exact H5|exfalso]; assert (Hin : equals_sign ∈ peak_prefix).
        { rewrite <- Hp, Hs, take_app_ge by lia; apply elem_of_app; right; rewrite Hlen; destruct (5 - n)%nat eqn:?; [lia|left]. }
        repeat (apply elem_of_cons in Hin as [Hin|Hin]; [discriminate|]); inversion Hin. }
      split_and!; [lia|exact H5|]; rewrite take_take, Nat.min_l by lia; exact Hp. }
    split.
    + case_bool_decide as Hp; cbn [negb]; [|discriminate]; destruct ((Z.of_nat n <=? 0) || (256 <=? Z.of_nat n)) eqn:Eb; [discriminate|]; intros [= <-].
      breflect; destruct (Hpre Hp) as (_ & H5 & Ht); rewrite bool_decide_true by exact Ht; split.
      * apply matches_iff; [exact He|]; split; [exact Hn|eauto].
      * unfold strlen; rewrite Hlen; apply Z.ltb_lt; exact H0.
    + intros [Hm Hv]; apply andb_prop in Hv as [Hp Hshort]; apply matches_iff in Hm as [Hne [v Hv]]; [|exact He].
      assert (Hname : name = take n e /\ length name = n).
      { rewrite Hv, strchr_app in En by exact Hne; injection En as <-; split; [|reflexivity]; rewrite Hv, take_app_length; reflexivity. }
      destruct Hname as [Hname Hl]; pose proof (Htake name Hname Hp) as Hp'; rewrite bool_decide_true by exact Hp'; cbn [negb].
      destruct (Hpre Hp') as (_ & H5 & _); unfold strlen in Hshort; rewrite Hl in Hshort; breflect.
      destruct (Z.leb_spec (Z.of_nat n) 0), (Z.leb_spec 256 (Z.of_nat n)); try lia; cbn [orb]; congruence.
  - unfold peak_exec_name_len; rewrite En; split; [destruct (negb _); discriminate|].
    intros [Hm _]; apply matches_iff in Hm as [Hne [v ->]]; [rewrite strchr_app in En by exact Hne; discriminate|exact He].
Qed.

Lemma missing_get parent base name : Forall entry_ok parent -> peak_exec_env_has_name base name = false ->
  forall sofar, storage_has_name sofar name = false ->
  env_get (missing parent base sofar) name = if peak_variable name then env_get parent name else None.
Proof.
  intros Hok Hbase; induction Hok as [|e parent He _ IH]; intros sofar Hsofar; [simpl; destruct (peak_variable name); reflexivity|].
  pose proof (entry_name_ok e He) as Hn; cbn [missing env_get]; destruct (peak_exec_env_entry_matches e name) eqn:Em.
  - destruct (peak_variable name) eqn:Ev.
    + assert (Hp : peak_name e = Some name) by (apply peak_name_spec; auto); rewrite Hp, Hbase, Hsofar; cbn [orb env_get]; rewrite Em; reflexivity.
    + destruct (peak_name e) as [name'|] eqn:Ep; [|apply IH, Hsofar]; apply peak_name_spec in Ep as [Em' Ev']; [|exact Hn].
      assert (name' = name) as -> by (eapply matches_unique; eauto); congruence.
  - destruct (peak_name e) as [name'|]; [|apply IH, Hsofar]; destruct (_ || _); [apply IH, Hsofar|]; cbn [env_get]; rewrite Em; apply IH.
    clear -Hsofar Em; induction sofar as [|x s IHs]; simpl in *; [rewrite Em; reflexivity|].
    apply orb_false_iff in Hsofar as [-> Hs]; apply IHs, Hs.
Qed.

Lemma plain_tokens s : forall cur, Forall (fun c => peak_exec_is_separator c = false) s -> cur ++ s <> [] -> tokens_from cur s = [cur ++ s].
Proof.
  induction s as [|c s IH]; intros cur Hs Hne; simpl; [rewrite app_nil_r in *; rewrite bool_decide_false by exact Hne; reflexivity|].
  apply Forall_cons in Hs as [-> Hs]; rewrite IH, <- app_assoc; [reflexivity|exact Hs|]; rewrite <- app_assoc; destruct cur; discriminate.
Qed.

Lemma appended_shape l s : appended l s = [] \/ exists t, appended l s = ch ":" :: t.
Proof. unfold appended; destruct (other_tokens l s) as [|t ts]; simpl; eauto. Qed.

(** When libpeak is not preloaded yet, the value changes. *)
Lemma absent_is_new base : setting base -> injected base = true -> already base = false -> is_new base = true.
Proof.
  intros Hset Hi Ha; unfold is_new; rewrite Hi; cbn [andb]; apply negb_true_iff, bool_decide_eq_false; intros Hold.
  unfold already, peak_exec_preload_contains_libpeak in Ha; rewrite Hold in Ha; rewrite contains_loop_spec in Ha by lia.
  destruct (injected_path base Hi) as [_ Hne], (se_libpeak _ Hset) as [_ Hplain].
  assert (Hin : libpeak ∈ tokens (new_preload base)).
  { unfold new_preload, preload_value; destruct (appended_shape libpeak (default [] (old_preload base))) as [->|[t ->]]; unfold tokens.
    - rewrite app_nil_r, plain_tokens by (assumption || exact Hne); left.
    - rewrite tokens_from_app, plain_tokens by (assumption || exact Hne); left. }
  apply not_true_iff_false in Ha; apply Ha, existsb_exists; exists libpeak; split; [apply list_elem_of_In, Hin|].
  unfold peak_exec_token_is_same_file; rewrite (bool_decide_true (libpeak = libpeak)) by reflexivity.
  rewrite (bool_decide_false (libpeak = [])) by exact Hne; reflexivity.
Qed.

Lemma library_get base name : setting base -> peak_exec_env_has_name base LD_LIBRARY_PATH = false ->
  env_get (option_list (library_entry base)) name =
  if bool_decide (name = LD_LIBRARY_PATH) && (injected base && negb (already base))
  then match cached_ld_library_path p with Ready (Some e) => Some (value_of e) | _ => None end else None.
Proof.
  intros Hset Hno; unfold library_entry; rewrite Hno; cbn [negb]; rewrite andb_true_r.
  assert (Heq : is_new base && negb (already base) = injected base && negb (already base)).
  { destruct (injected base) eqn:Ei; [|unfold is_new; rewrite Ei; reflexivity]; destruct (already base) eqn:Ea; [rewrite andb_false_r; reflexivity|].
    rewrite absent_is_new by assumption; reflexivity. }
  rewrite Heq; destruct (injected base && negb (already base)); [|rewrite andb_false_r; reflexivity]; rewrite andb_true_r.
  destruct (se_library _ Hset) as (env & He & ->); destruct (cache_ready env He) as [->|(v & Hv & ->)]; [simpl; case_bool_decide; reflexivity|].
  assert (Hm : peak_exec_env_entry_matches (LD_LIBRARY_PATH ++ equals_sign :: v) LD_LIBRARY_PATH = true /\ value_of (LD_LIBRARY_PATH ++ equals_sign :: v) = v).
  { apply matches_eq; [|intros H; repeat (apply elem_of_cons in H as [H|H]; [discriminate|]); inversion H|reflexivity].
    intros n; simpl; intros [= <-]; vm_compute; discriminate. }
  assert (Hok : name_ok (LD_LIBRARY_PATH ++ equals_sign :: v)) by (intros n; simpl; intros [= <-]; vm_compute; discriminate).
  revert Hm Hok; generalize (LD_LIBRARY_PATH ++ equals_sign :: v); intros le Hm Hok.
  simpl; case_bool_decide as E; [subst name; rewrite (proj1 Hm); reflexivity|].
  destruct (peak_exec_env_entry_matches _ name) eqn:En; [exfalso; apply E; eapply matches_unique; [exact Hok|exact En|apply Hm]|reflexivity].
Qed.

Lemma has_name_false base name : peak_exec_env_get base name = None -> peak_exec_env_has_name base name = false.
Proof. unfold peak_exec_env_has_name; intros ->; reflexivity. Qed.

Lemma base_get base name : peak_exec_env_get base name = env_get (default [] base) name.
Proof. destruct base; reflexivity. Qed.

Lemma base_entries base : setting base -> Forall entry_ok (default [] base).
Proof. intros Hset; pose proof (se_base _ Hset) as H; destruct base; [apply H|constructor]. Qed.

(** The one LD_PRELOAD entry of the given environment. *)
Lemma single_preload base e l :
  preload_count base <= 1 -> named LD_PRELOAD (default [] base) = e :: l -> old_preload base = Some (value_of e).
Proof.
  intros Hs Hn; unfold preload_count, old_preload, existing_values, joined_values in *.
  destruct base as [env|]; [|discriminate]; simpl in *; rewrite countb_named, Hn in Hs; rewrite Hn.
  destruct l; [|simpl in Hs; lia]; rewrite bool_decide_false by discriminate; simpl; destruct (value_of e); reflexivity.
Qed.

Lemma count_zero base : (preload_count base =? 0) = true <-> named LD_PRELOAD (default [] base) = [].
Proof.
  unfold preload_count, peak_exec_env_name_count; destruct base as [env|]; simpl; [|split; reflexivity].
  rewrite countb_named, Z.eqb_eq; destruct (named LD_PRELOAD env); simpl; split; intros; try reflexivity; try discriminate; lia.
Qed.

(** LD_PRELOAD in the stored entries. *)
Lemma front_get_preload base : injected base = true ->
  env_get (front base) LD_PRELOAD =
  if shadowed base LD_PRELOAD then peak_exec_env_get base LD_PRELOAD else Some (new_preload base).
Proof.
  intros Hi; unfold shadowed; rewrite bool_decide_true, base_get, (env_get_named (default [] base)), Hi by reflexivity; cbn [andb]; unfold front; rewrite Hi, <- app_assoc, env_get_app, copied_get_preload; cbn [andb].
  destruct (named LD_PRELOAD (default [] base)) as [|e l] eqn:En.
  - apply count_zero in En; rewrite En; apply Z.eqb_eq in En; rewrite En, andb_false_r; simpl app; cbn [env_get].
    destruct (preload_entry_get (new_preload base)) as [-> ->]; reflexivity.
  - destruct (is_new base) eqn:E; [reflexivity|]; unfold is_new in E; rewrite Hi in E; cbn [andb negb] in *.
    destruct (Z.ltb_spec 1 (preload_count base)) as [|Hone]; [reflexivity|].
    apply negb_false_iff, bool_decide_eq_true in E; rewrite (single_preload base e l Hone En) in E; congruence.
Qed.

(** The other names. *)
Lemma front_get_other base name : setting base -> injected base = false \/ name <> LD_PRELOAD ->
  env_get (front base) name =
  match peak_exec_env_get base name with
  | Some v => Some v
  | None =>
      if bool_decide (name = LD_LIBRARY_PATH) && (injected base && negb (already base))
      then match cached_ld_library_path p with Ready (Some e) => Some (value_of e) | _ => None end else None
  end.
Proof.
  intros Hset Hname; unfold front; rewrite <- app_assoc, !env_get_app, copied_get_other by (auto using base_entries); rewrite <- base_get.
  destruct (peak_exec_env_get base name) as [v|] eqn:Eb; [reflexivity|].
  assert (Hpre : env_get (if injected base && (preload_count base =? 0) then [preload_entry (new_preload base)] else []) name = None).
  { destruct (injected base && _) eqn:E; [|reflexivity]; apply andb_prop in E as [Ei _]; destruct Hname as [?|Hname]; [congruence|]; cbn [env_get].
    destruct (peak_exec_env_entry_matches (preload_entry (new_preload base)) name) eqn:Em; [|reflexivity].
    exfalso; apply Hname; eapply matches_unique; [apply preload_entry_name_ok|exact Em|apply preload_entry_get]. }
  rewrite Hpre; change (match library_entry base with Some e => [e] | None => [] end) with (option_list (library_entry base)).
  destruct (peak_exec_env_has_name base LD_LIBRARY_PATH) eqn:El; [|apply library_get; assumption].
  unfold library_entry; rewrite El, andb_false_r; case_bool_decide as En; [|reflexivity].
  subst name; rewrite has_name_false in El by exact Eb; discriminate.
Qed.

Lemma parent_get base propagate name sofar : setting base -> peak_exec_env_get base name = None -> env_get sofar name = None ->
  env_get (parent_missing base propagate sofar) name =
  if propagate && peak_variable name then peak_exec_env_get (environ p) name else None.
Proof.
  intros Hset Hb Hs; unfold parent_missing; pose proof (se_parent _ Hset) as Hp; destruct propagate; [|reflexivity]; cbn [andb].
  destruct (environ p) as [parent|]; [|destruct (peak_variable name); reflexivity]; simpl; apply missing_get;
    [apply Hp|apply has_name_false, Hb|rewrite env_get_has, Hs; reflexivity].
Qed.

Lemma library_not_peak : peak_variable LD_LIBRARY_PATH = false.
Proof. reflexivity. Qed.

(** What the new program sees. *)
Definition seen (base : option (list cstring)) (propagate : bool) (name : cstring) : option cstring :=
  if shadowed base name then peak_exec_env_get base name else expected base propagate name.

Lemma not_shadowed base name : injected base && bool_decide (name = LD_PRELOAD) = false -> shadowed base name = false.
Proof. unfold shadowed; destruct (injected base), (bool_decide _); simpl; congruence. Qed.

(** A shadowed variable is set. *)
Lemma shadowed_set base : shadowed base LD_PRELOAD = true -> exists v, peak_exec_env_get base LD_PRELOAD = Some v.
Proof.
  unfold shadowed; rewrite !andb_true_iff, Z.ltb_lt; intros (_ & _ & Hc); rewrite base_get, env_get_named.
  destruct (named LD_PRELOAD (default [] base)) as [|e l] eqn:E; [|eauto]; apply count_zero, Z.eqb_eq in E; lia.
Qed.

Lemma stored_get base propagate name : setting base ->
  env_get (front base ++ parent_missing base propagate (front base)) name = seen base propagate name.
Proof.
  intros Hset; rewrite env_get_app; unfold seen, expected; destruct (injected base && bool_decide (name = LD_PRELOAD)) eqn:E.
  - apply andb_prop in E as [Ei En]; apply bool_decide_eq_true in En as ->; rewrite front_get_preload by assumption.
    destruct (shadowed base LD_PRELOAD) eqn:Es; [destruct (shadowed_set base Es) as [v ->]|]; reflexivity.
  - rewrite (not_shadowed _ _ E); assert (Hname : injected base = false \/ name <> LD_PRELOAD).
    { apply andb_false_iff in E as [E|E]; [left; exact E|right; apply bool_decide_eq_false in E; exact E]. }
    pose proof (front_get_other base name Hset Hname) as Hf; rewrite Hf; destruct (peak_exec_env_get base name) as [v|] eqn:Eb; [reflexivity|].
    fold (peak_variable name); destruct (bool_decide (name = LD_LIBRARY_PATH)) eqn:El; cbn [andb] in *.
    + apply bool_decide_eq_true in El as ->; destruct (if injected base && negb (already base) then _ else None) eqn:Ev; [reflexivity|].
      rewrite parent_get by (assumption || exact Hf); rewrite library_not_peak, andb_false_r; reflexivity.
    + rewrite parent_get by assumption; rewrite <- andb_assoc; reflexivity.
Qed.

(** Nothing was stored because nothing had to change. *)
Lemma unchanged_get base propagate name : setting base -> is_new base = false -> missing_total base propagate = 0 ->
  peak_exec_env_get base name = seen base propagate name.
Proof.
  intros Hset Hnew Hmiss; unfold seen; destruct (shadowed base name) eqn:Es; [reflexivity|]; unfold expected; destruct (injected base && bool_decide (name = LD_PRELOAD)) eqn:E.
  - apply andb_prop in E as [Ei En]; apply bool_decide_eq_true in En as ->; unfold shadowed in Es; rewrite Hnew, Ei, bool_decide_true in Es by reflexivity.
    apply Z.ltb_ge in Es; unfold is_new in Hnew; rewrite Ei in Hnew; cbn [andb] in Hnew; apply negb_false_iff, bool_decide_eq_true in Hnew; rewrite base_get, env_get_named; destruct (named LD_PRELOAD (default [] base)) as [|e l] eqn:En.
    + apply count_zero in En; breflect; apply existing_none in En; fold (old_preload base) in En; congruence.
    + rewrite (single_preload base e l Es En) in Hnew; congruence.
  - destruct (peak_exec_env_get base name) as [v|] eqn:Eb; [reflexivity|]; destruct (bool_decide (name = LD_LIBRARY_PATH)).
    + destruct (injected base) eqn:Ei; [|reflexivity]; destruct (already base) eqn:Ea; [reflexivity|].
      rewrite absent_is_new in Hnew by assumption; discriminate.
    + rewrite <- andb_assoc; fold (peak_variable name); destruct propagate, (peak_variable name) eqn:Ev; try reflexivity; cbn [andb].
      unfold missing_total, peak_exec_count_missing_peak_env in Hmiss; pose proof (se_parent _ Hset) as Hp; destruct (environ p) as [parent|]; [|reflexivity].
      destruct Hp as [Hp _]; simpl; symmetry; revert Hmiss; induction Hp as [|e parent He _ IH]; [reflexivity|]; cbn [count_missing env_get]; intros Hmiss.
      pose proof (count_missing_nonneg parent base); destruct (peak_exec_env_entry_matches e name) eqn:Em.
      * assert (Hn : peak_name e = Some name) by (apply peak_name_spec; auto using entry_name_ok).
        rewrite Hn, has_name_false in Hmiss by exact Eb; lia.
      * apply IH; destruct (peak_name e); [destruct (peak_exec_env_has_name base l)|]; lia.
Qed.

Lemma built_get base propagate b name : setting base -> built base propagate b ->
  peak_exec_env_get (peak_exec_env_to_use b base) name = seen base propagate name.
Proof.
  intros Hset [(He & Hn & Hm)|He]; unfold peak_exec_env_to_use; rewrite He; [apply unchanged_get; assumption|apply stored_get, Hset].
Qed.
End spec.

(** C27: the environment a new program gets (from one of at most
    [PEAK_EXEC_MAX_ENV_ENTRIES] entries of at most [INT_MAX] bytes, and a path
    of libpeak without separators).  While chaining is on, the new program
    sees, for every variable, exactly the value [expected]: LD_PRELOAD is libpeak
    followed by every other library of the old value in order, all other
    variables are the application's, LD_LIBRARY_PATH is added when libpeak is new
    and the application has none, and the PEAK_ settings of this process are
    added where the application sets none.  There is one exception: when several
    LD_PRELOAD entries joined are already the new value ([shadowed]), the new
    program gets the first of them alone.  The arrays are always large enough;
    only a failing allocation keeps the given environment, whole.  With chaining
    off nothing changes. *)
Theorem exec_env_exact p base allow m :
  setting p base ->
  let chain := startup_chain_enabled p && peak_exec_env_default_true_for_child p base PEAK_EXEC_CHAIN_ENV in
  let propagate := peak_exec_env_default_true_for_child p base PEAK_EXEC_PROPAGATE_PEAK_ENV_ENV in
  let env m := environment_for p base allow m in
  (chain = false -> env m = base) /\
  (chain = true -> forall name, peak_exec_env_get (env []) name =
     if shadowed p base name then peak_exec_env_get base name else expected p base propagate name) /\
  (chain = true -> env m = base \/ env m = env []).
Proof.
  intros Hset chain propagate env; subst env; unfold environment_for, peak_exec_prepare; cbn [snd]; fold chain propagate.
  destruct (build_env_spec p base propagate Hset) as (b & [H0 Hm] & Hb); split_and!; intros E; rewrite E.
  - reflexivity.
  - intros name; rewrite H0; apply built_get; assumption.
  - rewrite H0; destruct (Hm m) as [[m' ->]|(e & m' & ->)]; auto.
Qed.

(** A process with its own settings, and an application that preloads a library. *)
Definition sample_process : process :=
  mkProcess (Some (map bytes ["PEAK_TARGET=main"; "PATH=/bin"; "LD_LIBRARY_PATH=/opt/lib"; "PEAK_EXEC_CHAIN=1"]%string)) false
    (Some (bytes "/p/libpeak.so")) (fun _ => false) true false
    (peak_exec_cache_ld_library_path (map bytes ["LD_LIBRARY_PATH=/opt/lib"]%string)) true false 0.
Definition sample_base : option (list cstring) :=
  Some (map bytes ["A=1"; "LD_PRELOAD=/x.so /y.so"; "PEAK_TARGET=other"]%string).

Lemma sample_setting : setting sample_process sample_base.
Proof.
  constructor.
  - split; [repeat constructor; vm_compute; discriminate|vm_compute; discriminate].
  - split; [repeat constructor; vm_compute; discriminate|vm_compute; discriminate].
  - split; [vm_compute; discriminate|repeat constructor].
  - eexists; split; [|reflexivity]; repeat constructor; vm_compute; discriminate.
Qed.

Lemma exec_env_exact_witness :
  let env := environment_for sample_process sample_base false [] in
  peak_exec_env_get env LD_PRELOAD = Some (bytes "/p/libpeak.so:/x.so:/y.so") /\
  peak_exec_env_get env (bytes "PEAK_TARGET") = Some (bytes "other") /\
  peak_exec_env_get env LD_LIBRARY_PATH = Some (bytes "/opt/lib") /\ peak_exec_env_get env (bytes "PATH") = None.
Proof.
  destruct (exec_env_exact sample_process sample_base false [] sample_setting) as (_ & H & _).
  assert (Hc : startup_chain_enabled sample_process && peak_exec_env_default_true_for_child sample_process sample_base PEAK_EXEC_CHAIN_ENV = true)
    by (vm_compute; reflexivity).
  specialize (H Hc); cbv zeta; rewrite !H; split_and!; vm_compute; reflexivity.
Defined.

(** an environment with two LD_PRELOAD entries that, joined, already start
    with libpeak: the value counts as unchanged, so the first entry is kept as
    it is and the second one is dropped.  The library it names is no longer
    loaded, although the builder for forked children keeps it. *)
Theorem duplicate_preload_lost :
  let base := map bytes ["LD_PRELOAD=/p/libpeak.so"; "LD_PRELOAD=/x.so"]%string in
  environment_for sample_process (Some base) false [] =
    Some (map bytes ["LD_PRELOAD=/p/libpeak.so"; "PEAK_TARGET=main"; "PEAK_EXEC_CHAIN=1"]%string) /\
  new_preload sample_process (Some base) = bytes "/p/libpeak.so:/x.so" /\
  peak_exec_child_build_env sample_process
    (option_map (fun l => mkTable (map (fun s => mkText s true) l) true) (environ sample_process))
    (Some (mkTable (map (fun s => mkText s true) base) true)) =
    Some (map (fun s => mkText (bytes s) true) ["LD_PRELOAD=/p/libpeak.so:/x.so"; "PEAK_TARGET=main"; "PEAK_EXEC_CHAIN=1"]%string).
Proof. split_and!; vm_compute; reflexivity. Qed.
