(* ===== verification/ExecChildProofs.v ===== *)
(** * The two environment builders agree

    For an environment that fits the child's fixed buffers, the builder of the
    forked child and the ordinary one give the new program the same value of
    every variable. *)

From Stdlib Require Import String.
From S2P Require Import Prelude TargetSelector ExecMemory ExecEnv ExecChild ExecEnvProofs.

(** ** Reads of readable memory *)

Definition text_of (s : cstring) : text := mkText s true.
Definition table_of (l : list cstring) : table := mkTable (map text_of l) true.

Lemma read_byte_at s i : (i <= length s)%nat -> peak_exec_child_read_byte (text_of s) i = Some (char_at s i).
Proof.
  intros Hi; unfold peak_exec_child_read_byte, char_at; simpl; destruct (s !! i) eqn:E; [reflexivity|].
  apply lookup_ge_None in E; replace (i =? length s)%nat with true by (symmetry; apply Nat.eqb_eq; lia); reflexivity.
Qed.

Lemma read_pointer_at l i : (i <= length l)%nat -> peak_exec_child_read_pointer (table_of l) i = Some (option_map text_of (l !! i)).
Proof.
  intros Hi; unfold peak_exec_child_read_pointer; simpl; rewrite list_lookup_fmap; destruct (l !! i) eqn:E; [reflexivity|].
  apply lookup_ge_None in E; simpl; rewrite length_map; replace (i =? length l)%nat with true by (symmetry; apply Nat.eqb_eq; lia); reflexivity.
Qed.

Lemma char_at_end s i : length s = i -> char_at s i = 0.
Proof. intros H; unfold char_at; rewrite lookup_ge_None_2 by lia; reflexivity. Qed.

Lemma drop_at s i : (i < length s)%nat -> drop i s = char_at s i :: drop (S i) s.
Proof.
  intros Hi; destruct (lookup_lt_is_Some_2 s i Hi) as [c Hc]; unfold char_at; rewrite Hc; simpl; apply drop_S; exact Hc.
Qed.

(** The name matches from byte [i]. *)
Lemma match_from_spec s name : c_str name -> forall i, (i <= length s)%nat ->
  exists b, match_from (text_of s) i name = Some b /\ (b = true <-> exists v, drop i s = name ++ equals_sign :: v).
Proof.
  induction name as [|n name IH]; intros Hn i Hi; cbn [match_from]; rewrite read_byte_at by exact Hi.
  - eexists; split; [reflexivity|]; rewrite Z.eqb_eq; destruct (Nat.lt_ge_cases i (length s)) as [Hlt|Hge].
    + rewrite (drop_at s i Hlt); split; [intros ->; eauto|intros [v [= -> _]]; reflexivity].
    + rewrite drop_ge, char_at_end by lia; split; [discriminate|intros [v ?]; discriminate].
  - apply Forall_cons in Hn as [Hn0 Hn]; destruct (Nat.lt_ge_cases i (length s)) as [Hlt|Hge].
    + rewrite (drop_at s i Hlt); destruct (Z.eqb_spec (char_at s i) n) as [->|Hne].
      * destruct (IH Hn (S i) ltac:(lia)) as (b & Hb & Hiff); exists b; split; [exact Hb|]; rewrite Hiff; split; intros [v Hv]; exists v; [simpl; congruence|].
        injection Hv as Hv; exact Hv.
      * exists false; split; [reflexivity|]; split; [discriminate|intros [v [= ? _]]; congruence].
    + rewrite drop_ge, char_at_end by lia; exists false; destruct (Z.eqb_spec 0 n); [lia|]; split; [reflexivity|].
      split; [discriminate|intros [v ?]; discriminate].
Qed.

Lemma child_matches_spec s name : c_str name -> no_equals name -> name_ok s ->
  peak_exec_child_entry_matches (text_of s) name = Some (peak_exec_env_entry_matches s name).
Proof.
  intros Hn Hne Hs; destruct (match_from_spec s name Hn 0 ltac:(lia)) as (b & Hb & Hiff); rewrite drop_0 in Hiff.
  unfold peak_exec_child_entry_matches; rewrite Hb; f_equal; apply eq_true_iff_eq; rewrite Hiff, matches_iff by exact Hs; tauto.
Qed.

Lemma advance_value s name : name_ok s -> no_equals name -> peak_exec_env_entry_matches s name = true ->
  advance (text_of s) (S (length name)) = text_of (value_of s).
Proof.
  intros Hs Hn Hm; apply matches_iff in Hm as [_ [v Hv]]; [|exact Hs]; unfold advance, text_of; simpl; f_equal.
  destruct (matches_eq s name v Hs Hn Hv) as [_ ->]; rewrite Hv, (cons_middle equals_sign name v), app_assoc; apply drop_app_length'.
  rewrite length_app; simpl; lia.
Qed.

Lemma child_env_get_spec name l : c_str name -> no_equals name -> Forall entry_ok l -> forall fuel i,
  (i <= length l)%nat -> (length l - i < fuel)%nat ->
  child_env_loop fuel i (table_of l) name = Some (option_map text_of (env_get (drop i l) name)).
Proof.
  intros Hn Hne Hok; induction fuel as [|fuel IH]; intros i Hi Hf; [lia|]; cbn [child_env_loop]; rewrite read_pointer_at by exact Hi.
  destruct (l !! i) as [e|] eqn:E; simpl option_map; [|rewrite drop_ge by (apply lookup_ge_None, E); reflexivity].
  pose proof (lookup_lt_Some _ _ _ E); rewrite (drop_S _ _ _ E); cbn [env_get].
  assert (He : name_ok e) by (eapply entry_name_ok, Forall_lookup_1; eauto).
  rewrite child_matches_spec by assumption; destruct (peak_exec_env_entry_matches e name) eqn:Em.
  - simpl; rewrite advance_value by assumption; reflexivity.
  - apply IH; lia.
Qed.

Definition fits_slots (base : option (list cstring)) : Prop :=
  match base with None => True | Some l => Forall entry_ok l /\ (length l < 256)%nat end.

Lemma child_get_spec base name : fits_slots base -> c_str name -> no_equals name ->
  peak_exec_child_env_get (option_map table_of base) name = Some (option_map text_of (peak_exec_env_get base name)).
Proof.
  intros Hb Hn Hne; destruct base as [l|]; [|reflexivity]; destruct Hb as [Hok Hl]; cbn [option_map peak_exec_child_env_get peak_exec_env_get].
  rewrite (child_env_get_spec name l Hn Hne Hok) by (unfold PEAK_EXEC_CHILD_ENV_SLOTS; lia); reflexivity.
Qed.

(** ** Switches *)

Lemma candidate_spec s c : Forall (fun x => 0 < x) c -> c_str s -> forall i, (i <= length s)%nat -> (i + length c < 256)%nat ->
  candidate_loop (text_of s) i c = Some (bool_decide (map lower (drop i s) = c)).
Proof.
  intros Hc Hs; assert (Hlow : forall x, 0 < x -> lower x <> 0).
  { intros x Hx; unfold lower; change (ch "A") with 65; change (ch "Z") with 90; change (ch "a") with 97; destruct (_ && _) eqn:E; breflect; lia. }
  induction Hc as [|x c Hx Hc IH]; intros i Hi Hlen; cbn [candidate_loop];
    (destruct (Nat.leb_spec PEAK_EXEC_CHILD_NAME_CAPACITY i); [unfold PEAK_EXEC_CHILD_NAME_CAPACITY in *; simpl in Hlen; lia|]); rewrite read_byte_at by exact Hi.
  - f_equal; apply eq_true_iff_eq; rewrite Z.eqb_eq, bool_decide_eq_true; destruct (Nat.lt_ge_cases i (length s)) as [Hlt|Hge].
    + rewrite (drop_at s i Hlt); split; [|discriminate]; intros H0; exfalso; eapply Hlow; [|exact H0].
      destruct (lookup_lt_is_Some_2 s i Hlt) as [y Hy]; unfold char_at; rewrite Hy; simpl; eapply Forall_lookup_1 in Hs; [|exact Hy]; simpl in Hs; lia.
    + rewrite drop_ge, char_at_end by lia; split; reflexivity.
  - destruct (Nat.lt_ge_cases i (length s)) as [Hlt|Hge].
    + rewrite (drop_at s i Hlt); cbn [map]; destruct (Z.eqb_spec (lower (char_at s i)) x) as [->|Hne].
      * rewrite IH by (simpl in Hlen; lia); f_equal; apply bool_decide_ext; split; [congruence|intros [= ?]; assumption].
      * rewrite bool_decide_false by congruence; reflexivity.
    + rewrite drop_ge, char_at_end by lia; destruct (Z.eqb_spec (lower 0) x) as [E|_]; [vm_compute in E; lia|].
      rewrite bool_decide_false by discriminate; reflexivity.
Qed.

Lemma value_false_spec s : c_str s -> peak_exec_child_value_false (text_of s) = Some (peak_exec_env_false (Some s)).
Proof.
  intros Hs; unfold peak_exec_child_value_false, peak_exec_env_false; change (map bytes _) with false_values.
  assert (Hall : Forall (fun c => Forall (fun x => 0 < x) c /\ (length c < 256)%nat /\ map lower c = c) false_values).
  { repeat constructor; vm_compute; reflexivity || lia. }
  induction Hall as [|c cs (Hc & Hl & Hlow) _ IH]; [reflexivity|]; cbn [value_false_loop existsb].
  rewrite candidate_spec by (auto; lia); rewrite drop_0; unfold strcasecmp_equal at 1; rewrite Hlow.
  case_bool_decide; [reflexivity|exact IH].
Qed.

Lemma getenv_spec l name : no_equals name -> Forall entry_ok l -> getenv_in l name = env_get l name.
Proof.
  intros Hn; induction 1 as [|e l He _ IH]; [reflexivity|]; cbn [getenv_in env_get]; pose proof (entry_name_ok e He) as Hok.
  assert (Heq : bool_decide (take (length name) e = name) && (char_at e (length name) =? equals_sign) = peak_exec_env_entry_matches e name).
  { apply eq_true_iff_eq; rewrite andb_true_iff, bool_decide_eq_true, Z.eqb_eq, matches_iff by exact Hok; split.
    - intros [Ht Hc]; split; [exact Hn|]; destruct (Nat.lt_ge_cases (length name) (length e)) as [Hlt|Hge].
      + exists (drop (S (length name)) e); rewrite <- (take_drop (length name) e) at 1; rewrite Ht, (drop_at e _ Hlt), Hc; reflexivity.
      + rewrite take_ge in Ht by lia; subst e; rewrite char_at_end in Hc by reflexivity; discriminate.
    - intros [_ [v ->]]; rewrite take_app_length; split; [reflexivity|]; unfold char_at; rewrite lookup_app_r, Nat.sub_diag by lia; reflexivity. }
  rewrite Heq; destruct (peak_exec_env_entry_matches e name) eqn:Em; [|exact IH]; f_equal.
  pose proof (advance_value e name Hok Hn Em) as Ha; unfold advance, text_of in Ha; simpl in Ha; congruence.
Qed.

Section agreement.
Context (p : process).

Definition values_c_str (base : option (list cstring)) : Prop := match base with None => True | Some l => Forall c_str l end.

Lemma env_get_c_str l name v : Forall c_str l -> env_get l name = Some v -> c_str v.
Proof.
  induction 1 as [|e l He _ IH]; cbn [env_get]; [discriminate|]; destruct (peak_exec_env_entry_matches e name); [|exact IH]; intros [= <-].
  unfold value_of; destruct (strchr e equals_sign); [apply Forall_drop, He|constructor].
Qed.

Lemma control_spec base name :
  fits_slots base -> fits_slots (environ p) -> values_c_str base -> values_c_str (environ p) -> c_str name -> no_equals name ->
  peak_exec_child_control_enabled (option_map table_of (environ p)) (option_map table_of base) name =
  Some (peak_exec_env_default_true_for_child p base name).
Proof.
  intros Hb Hp Hcb Hcp Hn Hne; unfold peak_exec_child_control_enabled, peak_exec_env_default_true_for_child.
  rewrite (child_get_spec base name Hb Hn Hne); destruct (peak_exec_env_get base name) as [v|] eqn:E; simpl option_map; cbv iota beta.
  - rewrite value_false_spec; [reflexivity|]; destruct base as [l|]; [|discriminate]; eapply env_get_c_str; eauto.
  - rewrite (child_get_spec (environ p) name Hp Hn Hne); unfold peak_exec_env_default_true, getenv; destruct (environ p) as [l|]; [|reflexivity].
    rewrite (getenv_spec l name Hne) by apply Hp; simpl peak_exec_env_get; destruct (env_get l name) as [v|] eqn:Eg; [|reflexivity]; simpl option_map; cbv iota beta.
    rewrite value_false_spec; [reflexivity|eapply env_get_c_str; eauto].
Qed.

(** ** The tokens of LD_PRELOAD *)

Lemma child_skip_spec s : forall i, Z.of_nat (i + length s) < PEAK_EXEC_CHILD_LD_PRELOAD_CAPACITY ->
  exists k, child_skip true s i = Some (skip_separators s, k) /\ (k + length (skip_separators s) = i + length s)%nat.
Proof.
  induction s as [|c s IH]; intros i Hi; simpl; [exists i; split; [reflexivity|simpl; lia]|]; simpl length in Hi.
  destruct (peak_exec_is_separator c); [|exists i; split; [reflexivity|simpl; lia]].
  destruct (Z.leb_spec PEAK_EXEC_CHILD_LD_PRELOAD_CAPACITY (Z.of_nat (S i))); [lia|].
  destruct (IH (S i) ltac:(lia)) as (k & Hk & Hs); exists k; split; [exact Hk|lia].
Qed.

Lemma child_token_spec s : forall i k, Z.of_nat (i + length s) < PEAK_EXEC_CHILD_LD_PRELOAD_CAPACITY -> (k <= i)%nat ->
  child_token true s i k = Some ((take_token s).1, (take_token s).2, (i + length (take_token s).1)%nat).
Proof.
  induction s as [|c s IH]; intros i k Hi Hk; simpl; [rewrite Nat.add_0_r; reflexivity|]; simpl length in Hi.
  destruct (peak_exec_is_separator c); [simpl; rewrite Nat.add_0_r; reflexivity|].
  destruct (Z.leb_spec PEAK_EXEC_CHILD_LD_PRELOAD_CAPACITY (Z.of_nat (S k))); [lia|].
  destruct (Z.leb_spec PEAK_EXEC_CHILD_LD_PRELOAD_CAPACITY (Z.of_nat (S i))); [lia|]; cbn [orb].
  rewrite IH by lia; destruct (take_token s) as [token rest]; simpl; do 2 f_equal; lia.
Qed.

Context (Hnoalias : forall t, same_file p t = false).

Lemma same_file_spec token libpeak : libpeak <> [] -> peak_exec_token_is_same_file p token libpeak = bool_decide (token = libpeak).
Proof.
  intros Hl; unfold peak_exec_token_is_same_file; rewrite Hnoalias, orb_false_r; case_bool_decide as E1; simpl; [|reflexivity].
  rewrite bool_decide_false; [reflexivity|congruence].
Qed.

Lemma preload_tokens_spec libpeak fuel : libpeak <> [] -> forall s i ld present, (length s < fuel)%nat ->
  Z.of_nat (i + length s) < PEAK_EXEC_CHILD_LD_PRELOAD_CAPACITY ->
  strlen ld + strlen (appended p libpeak s) + 1 <= PEAK_EXEC_CHILD_LD_PRELOAD_CAPACITY ->
  preload_tokens fuel libpeak true s i ld present =
  Some (ld ++ appended p libpeak s, present || existsb (fun t => peak_exec_token_is_same_file p t libpeak) (tokens s)).
Proof.
  intros Hlib; induction fuel as [|fuel IH]; intros s i ld present Hf Hi Hroom; [lia|]; cbn [preload_tokens].
  destruct (child_skip_spec s i Hi) as (k & -> & Hk); pose proof (skip_length s) as Hsk.
  destruct (skip_separators s) as [|c s'] eqn:Es.
  - assert (Ht : tokens s = []) by (rewrite <- tokens_skip, Es; reflexivity); unfold appended, other_tokens; rewrite Ht; simpl; rewrite app_nil_r, orb_false_r; reflexivity.
  - rewrite child_token_spec by (simpl length in *; lia); destruct (take_token (c :: s')) as [token rest] eqn:Et; simpl fst; simpl snd.
    assert (E : take_token (skip_separators s) = (token, rest)) by (rewrite Es; exact Et).
    pose proof (take_token_length (c :: s')) as Hl; rewrite Et in Hl; simpl fst in Hl; simpl snd in Hl.
    assert (Hne : token <> []).
    { assert (Hsep : peak_exec_is_separator c = false).
      { clear -Es; induction s as [|x s IHs]; simpl in Es; [discriminate|]; destruct (peak_exec_is_separator x) eqn:Ex; [auto|]; injection Es as <- _; exact Ex. }
      simpl in Et; rewrite Hsep in Et; destruct (take_token s'); intros ->; discriminate. }
    assert (Hlt : (length rest < length s)%nat) by (destruct token; [congruence|simpl length in *; lia]).
    rewrite (other_tokens_step p _ _ _ _ E), (tokens_step _ _ _ E) in *; rewrite same_file_spec in * by exact Hlib.
    rewrite (bool_decide_false (token = [])) in * by exact Hne; cbn [orb] in *; rewrite existsb_app; cbn [existsb].
    rewrite same_file_spec by exact Hlib; rewrite orb_false_r; destruct (bool_decide (token = libpeak)) eqn:El.
    + rewrite IH by (simpl app in Hroom; simpl length in *; lia || exact Hroom); simpl; rewrite orb_true_r; reflexivity.
    + rewrite strlen_app, strlen_cons in Hroom; pose proof (strlen_nonneg (appended p libpeak rest)).
      destruct (Z.ltb_spec PEAK_EXEC_CHILD_LD_PRELOAD_CAPACITY (strlen ld + 1 + strlen token + 1)); [lia|].
      rewrite IH; [rewrite <- app_assoc; reflexivity|lia|simpl length in *; lia|rewrite strlen_app, strlen_cons; lia].
Qed.

(** ** The copied entries *)

Definition kept (l : list cstring) : list cstring := List.filter (fun e => negb (peak_exec_env_entry_matches e LD_PRELOAD)) l.
Definition preload_values (l : list cstring) : list cstring := map value_of (named LD_PRELOAD l).
Definition appended_all (libpeak : cstring) (l : list cstring) : cstring := concat (map (appended p libpeak) (preload_values l)).
Definition preloaded (libpeak : cstring) (l : list cstring) : bool :=
  existsb (fun v => existsb (fun t => peak_exec_token_is_same_file p t libpeak) (tokens v)) (preload_values l).
Definition has_library_path (l : list cstring) : bool := existsb (fun e => peak_exec_env_entry_matches e LD_LIBRARY_PATH) l.

Lemma append_ok output e : (length output + 1 < 256)%nat -> peak_exec_child_append_preload output e = Some (output ++ [e]).
Proof. intros H; unfold peak_exec_child_append_preload; destruct (Nat.leb_spec PEAK_EXEC_CHILD_ENV_SLOTS (length output + 1)); [unfold PEAK_EXEC_CHILD_ENV_SLOTS in *; lia|reflexivity]. Qed.

Lemma preload_c_str : c_str LD_PRELOAD /\ no_equals LD_PRELOAD.
Proof. split; [repeat constructor; vm_compute; reflexivity|intros H; repeat (apply elem_of_cons in H as [H|H]; [discriminate|]); inversion H]. Qed.
Lemma library_c_str : c_str LD_LIBRARY_PATH /\ no_equals LD_LIBRARY_PATH.
Proof. split; [repeat constructor; vm_compute; reflexivity|intros H; repeat (apply elem_of_cons in H as [H|H]; [discriminate|]); inversion H]. Qed.

Lemma library_not_preload e : name_ok e -> peak_exec_env_entry_matches e LD_PRELOAD = true -> peak_exec_env_entry_matches e LD_LIBRARY_PATH = false.
Proof.
  intros He Hm; destruct (peak_exec_env_entry_matches e LD_LIBRARY_PATH) eqn:E; [|reflexivity].
  exfalso; pose proof (matches_unique e _ _ He Hm E) as H; discriminate H.
Qed.

Lemma child_copy_spec libpeak l : libpeak <> [] -> Forall entry_ok l ->
  Forall (fun v => strlen v < PEAK_EXEC_CHILD_LD_PRELOAD_CAPACITY) (preload_values l) ->
  forall fuel i output ld present has, (i <= length l)%nat -> (length l - i < fuel)%nat ->
  (length output + (length l - i) < 256)%nat ->
  strlen ld + strlen (appended_all libpeak (drop i l)) + 1 <= PEAK_EXEC_CHILD_LD_PRELOAD_CAPACITY ->
  Forall (fun v => strlen v < PEAK_EXEC_CHILD_LD_PRELOAD_CAPACITY) (preload_values (drop i l)) ->
  child_copy fuel i (table_of l) libpeak output ld present has =
  Some (output ++ map text_of (kept (drop i l)), ld ++ appended_all libpeak (drop i l), present || preloaded libpeak (drop i l),
        has_library_path (drop i l) || has).
Proof.
  intros Hlib Hok _; induction fuel as [|fuel IH]; intros i output ld present has Hi Hf Hslots Hroom Hvals; [lia|]; cbn [child_copy].
  rewrite read_pointer_at by exact Hi; destruct (l !! i) as [e|] eqn:E; simpl option_map; cbv iota beta.
  2: { rewrite drop_ge by (apply lookup_ge_None, E); unfold appended_all, preloaded, has_library_path; simpl.
       rewrite !app_nil_r, orb_false_r; reflexivity. }
  pose proof (lookup_lt_Some _ _ _ E) as Hlt; assert (He : name_ok e) by (eapply entry_name_ok, Forall_lookup_1; eauto).
  destruct preload_c_str as [Hpc Hpn], library_c_str as [Hlc Hln].
  unfold kept, appended_all, preloaded, preload_values, has_library_path in *; rewrite (drop_S _ _ _ E) in *; rewrite named_cons in *.
  cbn [List.filter existsb]; rewrite child_matches_spec by assumption; destruct (peak_exec_env_entry_matches e LD_PRELOAD) eqn:Em; cbn [negb].
  - rewrite advance_value, (library_not_preload e He Em) by assumption; cbn [map concat existsb orb] in *; rewrite strlen_app in Hroom.
    apply Forall_cons in Hvals as [Hv Hvals]; pose proof (strlen_nonneg (concat (map (appended p libpeak) (map value_of (named LD_PRELOAD (drop (S i) l)))))).
    change (chars (text_of (value_of e))) with (value_of e); change (terminated (text_of (value_of e))) with true; unfold strlen in Hv.
    rewrite preload_tokens_spec by (assumption || lia); rewrite IH; [rewrite <- app_assoc, orb_assoc; reflexivity|lia|lia|lia|rewrite strlen_app; lia|exact Hvals].
  - rewrite child_matches_spec by assumption; rewrite append_ok by lia; rewrite IH; [|lia|lia|rewrite length_app; simpl length; lia|exact Hroom|exact Hvals].
    rewrite <- app_assoc; simpl app; do 2 f_equal; destruct (peak_exec_env_entry_matches e LD_LIBRARY_PATH), has; cbn [orb]; rewrite ?orb_true_r; reflexivity.
Qed.

Lemma kept_get l name : Forall entry_ok l -> env_get (kept l) name = if bool_decide (name = LD_PRELOAD) then None else env_get l name.
Proof.
  unfold kept; induction 1 as [|e l He _ IH]; simpl; [case_bool_decide; reflexivity|]; pose proof (entry_name_ok e He) as Hn.
  destruct (peak_exec_env_entry_matches e LD_PRELOAD) eqn:Em; cbn [negb env_get]; rewrite IH.
  - case_bool_decide as E; [reflexivity|]; destruct (peak_exec_env_entry_matches e name) eqn:E2; [|reflexivity].
    exfalso; apply E; eapply matches_unique; eauto.
  - case_bool_decide as E; [subst; rewrite Em; reflexivity|reflexivity].
Qed.

(** ** The parent's settings *)

Lemma child_name_spec s : forall k, (k <= 255)%nat ->
  child_name true s k = Some (match strchr s equals_sign with Some n => if (k + n <? 255)%nat then Some (take n s) else None | None => None end).
Proof.
  induction s as [|c s IH]; intros k Hk; cbn [child_name strchr]; unfold PEAK_EXEC_CHILD_NAME_CAPACITY.
  - destruct (Nat.leb_spec 256 (k + 1)); reflexivity.
  - destruct (Nat.leb_spec 256 (k + 1)) as [H|H].
    + destruct (Z.eqb_spec c equals_sign) as [Ec|Ec]; [destruct (Nat.ltb_spec (k + 0) 255); [lia|reflexivity]|].
      destruct (strchr s equals_sign) as [n|]; simpl; [destruct (Nat.ltb_spec (k + S n) 255); [lia|reflexivity]|reflexivity].
    + destruct (Z.eqb_spec c equals_sign) as [Ec|Ec]; [destruct (Nat.ltb_spec (k + 0) 255); [reflexivity|lia]|].
      rewrite IH by lia; destruct (strchr s equals_sign) as [n|]; simpl; [|reflexivity].
      replace (k + S n)%nat with (S (k + n)) by lia; change (S k + n)%nat with (S (k + n)); destruct (_ <? _)%nat; reflexivity.
Qed.

(** Names of PEAK_ entries fit the child's buffer as they fit the other one. *)
Definition short_name (e : cstring) : Prop := forall name, peak_name e = Some name -> (length name < 255)%nat.

Lemma child_peak_name e : entry_ok e -> short_name e ->
  (if negb (is_peak_entry e) then None else child_name true e 0) = (if negb (is_peak_entry e) then None else Some (peak_name e)).
Proof.
  intros He Hshort; destruct (negb (is_peak_entry e)) eqn:Ep; [reflexivity|]; rewrite child_name_spec by lia; f_equal.
  unfold short_name, peak_name in *; rewrite Ep in *; destruct (strchr e equals_sign) as [n|] eqn:En.
  - rewrite (name_len_ok e n (entry_name_ok e He) En), Nat2Z.id in *; simpl Nat.add; pose proof (strchr_lt _ _ _ En).
    assert (Hn0 : n <> 0%nat).
    { intros ->; destruct (strchr_Some _ _ _ En) as [Hs _]; apply negb_false_iff, bool_decide_eq_true in Ep; rewrite Hs in Ep; discriminate. }
    destruct (Z.leb_spec (Z.of_nat n) 0); [lia|]; destruct (Z.leb_spec 256 (Z.of_nat n)); cbn [orb] in *.
    + destruct (Nat.ltb_spec n 255); [lia|reflexivity].
    + specialize (Hshort _ eq_refl); rewrite length_take in Hshort; destruct (Nat.ltb_spec n 255); [reflexivity|lia].
  - unfold peak_exec_name_len; rewrite En; reflexivity.
Qed.

Definition child_missing (base : option (list cstring)) (parent : list cstring) : list cstring :=
  List.filter (fun e => match peak_name e with Some name => negb (peak_exec_env_has_name base name) | None => false end) parent.

Lemma peak_name_c_str e name : entry_ok e -> c_str e -> peak_name e = Some name -> c_str name /\ no_equals name.
Proof.
  intros He Hc Hp; apply peak_name_spec in Hp as [Hm _]; [|apply entry_name_ok, He].
  apply matches_iff in Hm as [Hn [v Hv]]; [|apply entry_name_ok, He]; split; [|exact Hn].
  unfold c_str in *; rewrite Hv in Hc; apply Forall_app in Hc as [Hc _]; exact Hc.
Qed.

Lemma child_append_spec base parent : fits_slots base -> Forall entry_ok parent -> Forall c_str parent -> Forall short_name parent ->
  forall fuel i output, (i <= length parent)%nat -> (length parent - i < fuel)%nat -> (length output + (length parent - i) < 256)%nat ->
  child_append fuel i (table_of parent) (option_map table_of base) output = Some (output ++ map text_of (child_missing base (drop i parent))).
Proof.
  intros Hb Hok Hc Hs; induction fuel as [|fuel IH]; intros i output Hi Hf Hslots; [lia|]; cbn [child_append].
  rewrite read_pointer_at by exact Hi; destruct (parent !! i) as [e|] eqn:E; simpl option_map; cbv iota beta.
  2: rewrite drop_ge by (apply lookup_ge_None, E); rewrite app_nil_r; reflexivity.
  pose proof (lookup_lt_Some _ _ _ E) as Hlt; assert (He : entry_ok e) by (eapply Forall_lookup_1; eauto).
  assert (Hce : c_str e) by (eapply (Forall_lookup_1 _ _ _ _ Hc); eauto); assert (Hse : short_name e) by (eapply Forall_lookup_1; eauto).
  change (chars (text_of e)) with e; change (terminated (text_of e)) with true; unfold child_missing; rewrite (drop_S _ _ _ E); cbn [List.filter].
  pose proof (child_peak_name e He Hse) as Hname; destruct (negb (is_peak_entry e)) eqn:Ep.
  - replace (peak_name e) with (@None cstring) by (unfold peak_name; rewrite Ep; reflexivity); apply IH; lia.
  - rewrite Hname; destruct (peak_name e) as [name|] eqn:En; cbv iota beta; [|apply IH; lia].
    destruct (peak_name_c_str e name He Hce En) as [Hn1 Hn2]; rewrite (child_get_spec base name Hb Hn1 Hn2).
    unfold peak_exec_env_has_name; destruct (peak_exec_env_get base name) as [v|]; simpl option_map; cbv iota beta.
    + rewrite bool_decide_true by eauto; apply IH; lia.
    + rewrite bool_decide_false by (intros [? ?]; discriminate); cbn [negb]; rewrite append_ok by lia.
      rewrite IH by (rewrite ?length_app; simpl length; lia); rewrite <- app_assoc; reflexivity.
Qed.

Lemma child_missing_get base parent name : Forall entry_ok parent -> peak_exec_env_has_name base name = false ->
  env_get (child_missing base parent) name = if peak_variable name then env_get parent name else None.
Proof.
  intros Hok Hb; induction Hok as [|e parent He _ IH]; [simpl; destruct (peak_variable name); reflexivity|].
  pose proof (entry_name_ok e He) as Hn; unfold child_missing in *; cbn [List.filter env_get].
  destruct (peak_exec_env_entry_matches e name) eqn:Em.
  - destruct (peak_variable name) eqn:Ev.
    + assert (Hp : peak_name e = Some name) by (apply peak_name_spec; auto); rewrite Hp, Hb; cbn [negb env_get]; rewrite Em; reflexivity.
    + destruct (peak_name e) as [name'|] eqn:Ep; [|exact IH]; apply peak_name_spec in Ep as [Em' Ev']; [|exact Hn].
      assert (name' = name) as -> by (eapply matches_unique; eauto); congruence.
  - destruct (peak_name e) as [name'|]; [|exact IH]; destruct (negb _); [cbn [env_get]; rewrite Em|]; exact IH.
Qed.

(** ** The value of LD_PRELOAD *)

Lemma tokens_joined vs : forall j, tokens (foldl glue j vs) = tokens j ++ concat (map tokens vs).
Proof.
  induction vs as [|v vs IH]; intros j; cbn [foldl map concat]; [rewrite app_nil_r; reflexivity|]; rewrite IH, app_assoc; f_equal.
  destruct v as [|c v], j as [|d j]; cbn [glue]; rewrite ?app_nil_r; try reflexivity.
  unfold tokens; rewrite tokens_from_app; reflexivity.
Qed.

Lemma old_tokens base : tokens (default [] (old_preload base)) = concat (map tokens (preload_values (default [] base))).
Proof.
  unfold old_preload, existing_values, preload_values; destruct base as [l|]; [|reflexivity]; simpl; case_bool_decide as E; [rewrite E; reflexivity|].
  simpl; unfold joined_values; rewrite tokens_joined; reflexivity.
Qed.

Lemma filter_concat {A} (f : A -> bool) ls : List.filter f (concat ls) = concat (map (List.filter f) ls).
Proof. induction ls as [|l ls IH]; simpl; [reflexivity|]; rewrite List.filter_app, IH; reflexivity. Qed.

Lemma new_preload_all base : new_preload p base = libpeak p ++ appended_all (libpeak p) (default [] base).
Proof.
  unfold new_preload, preload_value, appended_all, appended at 1, other_tokens; rewrite old_tokens, filter_concat; f_equal.
  generalize (preload_values (default [] base)); intros vs; induction vs as [|v vs IH]; simpl; [reflexivity|].
  rewrite map_app, concat_app, IH; reflexivity.
Qed.

Lemma already_all base : already p base = preloaded (libpeak p) (default [] base).
Proof.
  assert (H : already p base = existsb (fun t => peak_exec_token_is_same_file p t (libpeak p)) (tokens (default [] (old_preload base)))).
  { unfold already, peak_exec_preload_contains_libpeak; destruct (old_preload base) as [v|]; [apply contains_loop_spec; reflexivity|reflexivity]. }
  rewrite H, old_tokens; unfold preloaded; generalize (preload_values (default [] base)); intros vs; induction vs as [|v vs IH]; simpl; [reflexivity|].
  rewrite existsb_app, IH; reflexivity.
Qed.

Lemma has_library_all base : has_library_path (default [] base) = peak_exec_env_has_name base LD_LIBRARY_PATH.
Proof.
  unfold peak_exec_env_has_name; rewrite base_get; generalize (default [] base); intros l; unfold has_library_path; induction l as [|e l IH]; simpl; [reflexivity|].
  destruct (peak_exec_env_entry_matches e LD_LIBRARY_PATH); simpl; [reflexivity|exact IH].
Qed.

(** ** The child's environment *)

(** The environment fits the child's buffers. *)
Record child_fits (base : option (list cstring)) : Prop := {
  cf_base : values_c_str base;
  cf_parent : values_c_str (environ p) /\ Forall short_name (default [] (environ p));
  cf_slots : (length (default [] base) + length (default [] (environ p)) + 2 < 256)%nat;
  cf_path : strlen (libpeak p) < PATH_MAX;
  cf_values : Forall (fun v => strlen v < PEAK_EXEC_CHILD_LD_PRELOAD_CAPACITY) (preload_values (default [] base));
  cf_preload : strlen (preload_entry (new_preload p base)) + 1 <= PEAK_EXEC_CHILD_LD_PRELOAD_CAPACITY
}.

Section child.
Context (base : option (list cstring)) (propagate : bool) (Hset : setting p base) (Hfit : child_fits base).

Lemma slots_base : fits_slots base.
Proof.
  pose proof (se_base _ _ Hset) as Hb; pose proof (cf_slots _ Hfit) as Hs; destruct base as [l|]; [|exact I]; split; [apply Hb|simpl in Hs; lia].
Qed.
Lemma slots_parent : fits_slots (environ p).
Proof.
  pose proof (se_parent _ _ Hset) as Hb; pose proof (cf_slots _ Hfit) as Hs; destruct (environ p) as [l|]; [|exact I]; split; [apply Hb|simpl in Hs; lia].
Qed.

Definition child_front : list cstring :=
  kept (default [] base) ++ [preload_entry (new_preload p base)] ++
  (if negb (already p base) && negb (peak_exec_env_has_name base LD_LIBRARY_PATH)
   then match cached_ld_library_path p with Ready e => option_list e | _ => [] end else []).
Definition child_entries : list cstring :=
  child_front ++ (if propagate then child_missing base (default [] (environ p)) else []).

Lemma preload_entry_app v x : preload_entry v ++ x = preload_entry (v ++ x).
Proof. reflexivity. Qed.

Lemma kept_length l : (length (kept l) <= length l)%nat.
Proof. apply List.filter_length_le. Qed.

Lemma child_copies : libpeak p <> [] ->
  (match option_map table_of base with
   | None => Some ([], preload_entry (libpeak p), false, false)
   | Some envp => child_copy PEAK_EXEC_CHILD_ENV_SLOTS 0 envp (libpeak p) [] (preload_entry (libpeak p)) false false
   end) = Some (map text_of (kept (default [] base)), preload_entry (new_preload p base), already p base,
                peak_exec_env_has_name base LD_LIBRARY_PATH).
Proof.
  intros Hlib; rewrite new_preload_all, already_all, <- has_library_all; pose proof (cf_slots _ Hfit) as Hs; pose proof (cf_preload _ Hfit) as Hr.
  pose proof (cf_values _ Hfit) as Hv; pose proof (base_entries p base Hset) as Hok; rewrite new_preload_all, <- preload_entry_app, strlen_app in Hr.
  destruct base as [l|]; simpl default in *; [|unfold appended_all, preloaded; simpl; rewrite app_nil_r; reflexivity].
  cbn [option_map]; rewrite (child_copy_spec (libpeak p) l Hlib Hok Hv) by (rewrite ?drop_0; assumption || (unfold PEAK_EXEC_CHILD_ENV_SLOTS; simpl length; lia)).
  rewrite drop_0, orb_false_r, preload_entry_app; reflexivity.
Qed.

Lemma child_front_ok has output : libpeak p <> [] -> output = map text_of (kept (default [] base)) ->
  has = peak_exec_env_has_name base LD_LIBRARY_PATH ->
  match peak_exec_child_append_preload output (text_of (preload_entry (new_preload p base))) with
  | None => None | Some o => child_library p o (already p base) has end = Some (map text_of child_front).
Proof.
  intros Hlib -> ->; pose proof (cf_slots _ Hfit) as Hs; pose proof (kept_length (default [] base)) as Hk.
  rewrite append_ok by (rewrite length_map; lia); unfold child_front, child_library; rewrite map_app.
  destruct (negb (already p base) && _); [|reflexivity]; destruct (se_library _ _ Hset) as (env & He & ->).
  destruct (cache_ready env He) as [->|(v & _ & ->)]; [reflexivity|].
  rewrite append_ok by (rewrite length_app, length_map; simpl; lia); rewrite <- app_assoc; reflexivity.
Qed.

Lemma child_front_length : (length child_front <= length (default [] base) + 2)%nat.
Proof.
  pose proof (kept_length (default [] base)); unfold child_front; rewrite !length_app; simpl length.
  destruct (negb (already p base) && _); [|simpl; lia]; destruct (cached_ld_library_path p) as [| |[e|]]; simpl; lia.
Qed.

Lemma child_build_spec :
  startup_chain_enabled p && peak_exec_env_default_true_for_child p base PEAK_EXEC_CHAIN_ENV = true ->
  peak_exec_env_default_true_for_child p base PEAK_EXEC_PROPAGATE_PEAK_ENV_ENV = propagate ->
  injected p base = true ->
  peak_exec_child_build_env p (option_map table_of (environ p)) (option_map table_of base) = Some (map text_of child_entries).
Proof.
  intros Hchain Hprop Hi; apply andb_prop in Hchain as [Hstart Hchain]; destruct (injected_path p base Hi) as [Hpath Hlib].
  assert (Hsec : secure_mode p = false) by (unfold injected in Hi; apply andb_prop in Hi as [Hi _]; apply negb_true_iff in Hi; exact Hi).
  pose proof slots_base as Hsb; pose proof slots_parent as Hsp; pose proof (cf_base _ Hfit) as Hcb; destruct (cf_parent _ Hfit) as [Hcp Hshort].
  assert (Hcached : peak_exec_cached_libpeak_path p = Some (libpeak p)).
  { unfold peak_exec_cached_libpeak_path; rewrite Hpath; pose proof (cf_path _ Hfit).
    destruct (Z.eqb_spec (strlen (libpeak p)) 0) as [E|_]; [exfalso; destruct (libpeak p); [congruence|rewrite strlen_cons in E; pose proof (strlen_nonneg l); lia]|].
    destruct (Z.ltb_spec (strlen (libpeak p)) PATH_MAX); [reflexivity|lia]. }
  unfold peak_exec_child_build_env; rewrite Hstart, Hsec, Hcached; cbn [negb orb].
  assert (Hctl : forall name, In name [PEAK_EXEC_CHAIN_ENV; PEAK_EXEC_PROPAGATE_PEAK_ENV_ENV] ->
    peak_exec_child_control_enabled (option_map table_of (environ p)) (option_map table_of base) name = Some (peak_exec_env_default_true_for_child p base name)).
  { intros name Hin; apply control_spec; auto; simpl in Hin; destruct Hin as [<-|[<-|[]]];
      try (repeat constructor; vm_compute; reflexivity); intros H; repeat (apply elem_of_cons in H as [H|H]; [discriminate|]); inversion H. }
  rewrite (Hctl PEAK_EXEC_CHAIN_ENV) by (simpl; auto); rewrite Hchain; cbv iota beta.
  destruct (Z.ltb_spec PEAK_EXEC_CHILD_LD_PRELOAD_CAPACITY (strlen LD_PRELOAD + 1 + strlen (libpeak p) + 1)) as [Hbig|_];
    [pose proof (cf_path _ Hfit); change (strlen LD_PRELOAD) with 10 in Hbig; unfold PEAK_EXEC_CHILD_LD_PRELOAD_CAPACITY, PATH_MAX in *; lia|].
  rewrite (child_copies Hlib); cbv iota beta; pose proof (child_front_ok _ _ Hlib eq_refl eq_refl) as Hfront.
  destruct (peak_exec_child_append_preload _ _) as [o|]; [|discriminate]; change (mkText ?s true) with (text_of s) in *; rewrite Hfront.
  rewrite (Hctl PEAK_EXEC_PROPAGATE_PEAK_ENV_ENV) by (simpl; auto); rewrite Hprop; cbv iota beta; unfold child_entries.
  destruct propagate; [|rewrite app_nil_r; destruct (option_map table_of (environ p)); reflexivity].
  pose proof (cf_slots _ Hfit) as Hs; pose proof child_front_length as Hl; pose proof (se_parent _ _ Hset) as Hp.
  destruct (environ p) as [parent|]; simpl default in *; [|rewrite app_nil_r; reflexivity]; cbn [option_map].
  rewrite (child_append_spec base parent Hsb) by (apply Hp || assumption || (unfold PEAK_EXEC_CHILD_ENV_SLOTS; rewrite ?length_map; lia)).
  rewrite map_app, drop_0; reflexivity.
Qed.

Lemma child_entries_get name : injected p base = true -> env_get child_entries name = expected p base propagate name.
Proof.
  intros Hi; unfold child_entries, child_front, expected; rewrite Hi; cbn [andb]; rewrite <- !app_assoc, !env_get_app, kept_get by (apply (base_entries p), Hset).
  cbn [env_get]; case_bool_decide as En; [subst name; destruct (preload_entry_get (new_preload p base)) as [-> ->]; reflexivity|].
  rewrite <- base_get; destruct (peak_exec_env_get base name) as [v|] eqn:Eb; [reflexivity|].
  destruct (peak_exec_env_entry_matches (preload_entry (new_preload p base)) name) eqn:Em.
  { exfalso; apply En; eapply matches_unique; [apply preload_entry_name_ok|exact Em|apply preload_entry_get]. }
  assert (Hlibget : env_get (if negb (already p base) && negb (peak_exec_env_has_name base LD_LIBRARY_PATH)
      then match cached_ld_library_path p with Ready e => option_list e | _ => [] end else []) name =
    if bool_decide (name = LD_LIBRARY_PATH) && negb (already p base)
    then match cached_ld_library_path p with Ready (Some e) => Some (value_of e) | _ => None end else None).
  { destruct (peak_exec_env_has_name base LD_LIBRARY_PATH) eqn:El.
    - rewrite andb_false_r; case_bool_decide as E2; [subst; rewrite (has_name_false _ _ Eb) in El; discriminate|reflexivity].
    - pose proof (library_get p base name Hset El) as Hg; rewrite Hi in Hg; cbn [andb] in Hg; rewrite <- Hg; cbn [negb]; rewrite andb_true_r.
      unfold library_entry; rewrite El; destruct (already p base) eqn:Ea; cbn [negb andb]; [rewrite andb_false_r; reflexivity|].
      rewrite (absent_is_new p base Hset Hi Ea); cbn [andb]; destruct (cached_ld_library_path p); reflexivity. }
  rewrite Hlibget; pose proof (has_name_false _ _ Eb) as Hno; pose proof (se_parent _ _ Hset) as Hp; case_bool_decide as E2; cbn [andb].
  - subst name; destruct (if negb (already p base) then _ else None); [reflexivity|]; destruct propagate; [|reflexivity].
    rewrite child_missing_get, library_not_peak; [reflexivity|destruct (environ p); [apply Hp|constructor]|exact Hno].
  - rewrite <- andb_assoc; fold (peak_variable name); destruct propagate; [|reflexivity]; cbn [andb]; rewrite base_get.
    apply child_missing_get; [destruct (environ p); [apply Hp|constructor]|exact Hno].
Qed.
End child.
End agreement.

(** C28: a program started by a forked child sees the same environment as one
    started by the process itself: while chaining is on, when the environments
    are readable and fit the child's fixed buffers ([child_fits]: together under
    254 entries, names of settings under 255 characters, a path of libpeak under
    PATH_MAX and LD_PRELOAD values that fit the 8192 bytes), the child's builder
    succeeds, gives every variable the value [expected], and this is the value
    of the ordinary builder's except where that one keeps only the first of
    several LD_PRELOAD entries ([shadowed]).  The child compares paths as strings,
    so no other path may name the file of libpeak, and it always injects, so the
    ordinary builder must inject too. *)
Theorem child_env_agrees p base allow :
  setting p base -> child_fits p base -> (forall t, same_file p t = false) -> injected p base = true ->
  startup_chain_enabled p && peak_exec_env_default_true_for_child p base PEAK_EXEC_CHAIN_ENV = true ->
  exists out, peak_exec_child_build_env p (option_map table_of (environ p)) (option_map table_of base) = Some out /\
    Forall (fun t => terminated t = true) out /\
    forall name,
      env_get (map chars out) name =
        expected p base (peak_exec_env_default_true_for_child p base PEAK_EXEC_PROPAGATE_PEAK_ENV_ENV) name /\
      (shadowed p base name = false ->
       env_get (map chars out) name = peak_exec_env_get (environment_for p base allow []) name).
Proof.
  intros Hset Hfit Halias Hinj Hchain; eexists; split; [apply (child_build_spec p Halias base _ Hset Hfit Hchain eq_refl Hinj)|split].
  - apply Forall_fmap, Forall_true; reflexivity.
  - intros name; rewrite map_map; simpl; rewrite map_id, child_entries_get by assumption.
    split; [reflexivity|]; intros Hs; unfold environment_for, peak_exec_prepare; cbn [snd]; rewrite Hchain.
    destruct (build_env_spec p base (peak_exec_env_default_true_for_child p base PEAK_EXEC_PROPAGATE_PEAK_ENV_ENV) Hset) as (b & [-> _] & Hb).
    rewrite (built_get p base _ b name Hset Hb); unfold seen; rewrite Hs; reflexivity.
Qed.

(** Facts decided by evaluation. *)
Ltac decided := match goal with |- ?P => refine (bool_decide_unpack P _); vm_compute; exact I end.

Lemma sample_fits : child_fits sample_process sample_base.
Proof.
  constructor.
  - unfold values_c_str, c_str, sample_base; decided.
  - split; [unfold values_c_str, c_str; simpl environ; decided|change (default [] (environ sample_process)) with (map bytes ["PEAK_TARGET=main"; "PATH=/bin"; "LD_LIBRARY_PATH=/opt/lib"; "PEAK_EXEC_CHAIN=1"]%string)].
    repeat (apply Forall_cons; split; [intros name Hn; vm_compute in Hn; simplify_eq; vm_compute; lia|]); apply Forall_nil; exact I.
  - vm_compute; lia.
  - vm_compute; reflexivity.
  - decided.
  - vm_compute; discriminate.
Qed.

Lemma child_env_agrees_witness :
  exists out, peak_exec_child_build_env sample_process (option_map table_of (environ sample_process)) (option_map table_of sample_base) = Some out /\
    env_get (map chars out) LD_PRELOAD = Some (bytes "/p/libpeak.so:/x.so:/y.so") /\
    env_get (map chars out) (bytes "PEAK_TARGET") = Some (bytes "other") /\
    peak_exec_env_get (environment_for sample_process sample_base false []) LD_PRELOAD = env_get (map chars out) LD_PRELOAD.
Proof.
  destruct (child_env_agrees sample_process sample_base false sample_setting sample_fits) as (out & Ho & _ & Hget);
    [reflexivity|vm_compute; reflexivity|vm_compute; reflexivity|].
  exists out; split; [exact Ho|]; rewrite <- (proj2 (Hget LD_PRELOAD)) by (vm_compute; reflexivity).
  rewrite !(proj1 (Hget _)); split_and!; vm_compute; reflexivity.
Defined.
