(* ===== verification/ExecSearch.v ===== *)
(** * The search along PATH, and argument lists

    Models the searches of [src/exec_interceptor.c] that stand in for the
    library's [execvpe]: [peak_exec_prepublication_path_search], used before the
    interceptor is primed and without memory of its own, and
    [peak_execvpe_fallback], used when the library has no [execvpe]; and the
    three functions that collect the arguments of [execl] and its relatives.
    The kernel is a function of the attempts made so far and the new one; it
    answers [None] when the program is replaced and an error number otherwise.
    An [argv] is the list before its NULL. *)

From Stdlib Require Import String.
From S2P Require Import Prelude TargetSelector ExecMemory ExecEnv.

Definition ENOENT : Z := 2.
Definition ENOEXEC : Z := 8.
Definition EACCES : Z := 13.
Definition ENODEV : Z := 19.
Definition ENOTDIR : Z := 20.
Definition ENAMETOOLONG : Z := 36.
Definition ETIMEDOUT : Z := 110.
Definition ESTALE : Z := 116.
Definition PEAK_EXEC_MAX_VARARGS : Z := 4096.
Definition PEAK_EXEC_DEFAULT_PATH : cstring := bytes "/bin:/usr/bin".
Definition slash : Z := ch "/".
Definition colon : Z := ch ":".
Definition bin_sh : cstring := bytes "/bin/sh".

Record attempt := mkAttempt {
  program : cstring;
  arguments : list cstring
}.

(** Answer (error number, or replaced) and attempts. *)
Definition outcome : Type := option Z * list attempt.

(** An error after which the next directory is tried. *)
Definition skips (e : Z) : bool :=
  (e =? ENOENT) || (e =? ENOTDIR) || (e =? ESTALE) || (e =? ENODEV) || (e =? ETIMEDOUT).

(** The text before the first colon, and the rest with it. *)
Fixpoint span_colon (s : cstring) : cstring * cstring :=
  match s with
  | [] => ([], [])
  | c :: s' => if c =? colon then ([], s) else let '(d, rest) := span_colon s' in (c :: d, rest)
  end.

Definition candidate_length (dir file : cstring) : Z :=
  strlen dir + (if negb (strlen dir =? 0) then 1 else 0) + strlen file.
Definition candidate (dir file : cstring) : cstring := match dir with [] => file | _ => dir ++ slash :: file end.

Section search.
Context (kernel : list attempt -> attempt -> option Z).

Definition call (tried : list attempt) (a : attempt) : outcome := (kernel tried a, tried ++ [a]).

Definition peak_exec_prepublication_shell (path : cstring) (argv : list cstring) (tried : list attempt) : outcome :=
  if PEAK_EXEC_MAX_VARARGS <=? Z.of_nat (length argv) then (Some E2BIG, tried)
  else call tried (mkAttempt bin_sh (bin_sh :: path :: tl argv)).

(** The loop over the directories from [cursor]. *)
Fixpoint search_loop (fuel : nat) (cursor file : cstring) (argv : list cstring) (tried : list attempt)
    (saved_errno : Z) (saw_eacces : bool) : outcome :=
  match fuel with
  | O => (Some saved_errno, tried)
  | S fuel =>
      let '(dir, rest) := span_colon cursor in
      let next tried saved_errno saw_eacces :=
        match rest with
        | [] => (Some (if saw_eacces : bool then EACCES else saved_errno), tried)
        | _ :: cursor => search_loop fuel cursor file argv tried saved_errno saw_eacces
        end in
      if candidate_length dir file + 1 <=? PATH_MAX then
        match call tried (mkAttempt (candidate dir file) argv) with
        | (None, tried) => (None, tried)
        | (Some e, tried) =>
            if e =? ENOEXEC then peak_exec_prepublication_shell (candidate dir file) argv tried
            else if e =? EACCES then next tried e true
            else if skips e then next tried e saw_eacces else (Some e, tried)
        end
      else next tried ENAMETOOLONG saw_eacces
  end.

(** [path] is the value of PATH in [environ], if any. *)
Definition peak_exec_prepublication_path_search (path : option cstring) (file : option cstring) (argv : list cstring) : outcome :=
  match file with
  | None | Some [] => (Some ENOENT, [])
  | Some file =>
      if PATH_MAX <=? strlen file then (Some ENAMETOOLONG, [])
      else if existsb (Z.eqb slash) file then
        match call [] (mkAttempt file argv) with
        | (None, tried) => (None, tried)
        | (Some e, tried) => if e =? ENOEXEC then peak_exec_prepublication_shell file argv tried else (Some e, tried)
        end
      else
        let path := default PEAK_EXEC_DEFAULT_PATH path in
        search_loop (S (length path)) path file argv [] ENOENT false
  end.

(** ** The other search *)

(** One answer of the allocator. *)
Definition pop (m : memory) : bool * memory := match m with [] => (true, []) | b :: m => (b, m) end.

Definition peak_exec_enoexec_shell_fallback (file : cstring) (argv : list cstring) (m : memory) (tried : list attempt)
    : outcome * memory :=
  if PEAK_EXEC_MAX_VARARGS <=? Z.of_nat (length argv) then ((Some E2BIG, tried), m)
  else
    let '(available, m) := pop m in
    if available then (call tried (mkAttempt bin_sh (bin_sh :: file :: tl argv)), m) else ((Some ENOMEM, tried), m).

Fixpoint fallback_loop (fuel : nat) (cursor file : cstring) (argv : list cstring) (m : memory) (tried : list attempt)
    (saw_eacces : bool) : outcome :=
  match fuel with
  | O => (Some ENOENT, tried)
  | S fuel =>
      let '(dir, rest) := span_colon cursor in
      if PATH_MAX <? candidate_length dir file + 1 then
        match rest with
        | [] => (Some ENAMETOOLONG, tried)
        | _ :: cursor => fallback_loop fuel cursor file argv m tried saw_eacces
        end
      else
        let '(available, m) := pop m in
        if negb available then (Some ENOMEM, tried)
        else
          match call tried (mkAttempt (candidate dir file) argv) with
          | (None, tried) => (None, tried)
          | (Some e, tried) =>
              let '((answer, tried), m) :=
                if e =? ENOEXEC then peak_exec_enoexec_shell_fallback (candidate dir file) argv m tried
                else ((Some e, tried), m) in
              match answer with
              | None => (None, tried)
              | Some e =>
                  if (e =? EACCES) || skips e then
                    let saw_eacces := (e =? EACCES) || saw_eacces in
                    match rest with
                    | [] => (Some (if saw_eacces then EACCES else e), tried)
                    | _ :: cursor => fallback_loop fuel cursor file argv m tried saw_eacces
                    end
                  else (Some e, tried)
              end
          end
  end.

(** The search of [peak_execvpe_fallback] once the environment is made. *)
Definition peak_execvpe_fallback (path : option cstring) (file : option cstring) (argv : list cstring) (m : memory) : outcome :=
  match file with
  | None | Some [] => (Some ENOENT, [])
  | Some file =>
      if existsb (Z.eqb slash) file then
        match call [] (mkAttempt file argv) with
        | (None, tried) => (None, tried)
        | (Some e, tried) =>
            if e =? ENOEXEC then (peak_exec_enoexec_shell_fallback file argv m tried).1 else (Some e, tried)
        end
      else
        let path := default PEAK_EXEC_DEFAULT_PATH path in
        fallback_loop (S (length path)) path file argv m [] false
  end.

(** ** The reference *)

(** The directories of a search path. *)
Fixpoint split_colons (s : cstring) : list cstring :=
  match s with
  | [] => [[]]
  | c :: s =>
      if c =? colon then [] :: split_colons s
      else match split_colons s with d :: ds => (c :: d) :: ds | [] => [[c]] end
  end.

(** The directories in order: a program that runs ends the search, a script
    without a header goes to the shell, an error that says the directory has no
    such program is passed over, any other ends the search; a denied permission
    is reported in preference to what came after it. *)
Fixpoint search_dirs (dirs : list cstring) (file : cstring) (argv : list cstring) (tried : list attempt)
    (saved_errno : Z) (saw_eacces : bool) : outcome :=
  match dirs with
  | [] => (Some (if saw_eacces then EACCES else saved_errno), tried)
  | dir :: dirs =>
      if PATH_MAX <? strlen (candidate dir file) + 1 then search_dirs dirs file argv tried ENAMETOOLONG saw_eacces
      else
        let a := mkAttempt (candidate dir file) argv in
        match kernel tried a with
        | None => (None, tried ++ [a])
        | Some e =>
            if e =? ENOEXEC then peak_exec_prepublication_shell (candidate dir file) argv (tried ++ [a])
            else if (e =? EACCES) || skips e then search_dirs dirs file argv (tried ++ [a]) e ((e =? EACCES) || saw_eacces)
            else (Some e, tried ++ [a])
        end
  end.
End search.

(** ** Collecting arguments *)

(** [rest] are the arguments after the first, before the NULL. *)
Definition peak_exec_collect_argv (arg : option cstring) (rest : list cstring) : EM (list cstring) :=
  match arg with
  | None => then! allocate ENOMEM; ok []
  | Some arg =>
      if PEAK_EXEC_MAX_VARARGS <=? 1 + Z.of_nat (length rest) then fail E2BIG
      else then! allocate ENOMEM; ok (arg :: rest)
  end.

(** The loop that counts: [count] arguments so far. *)
Fixpoint count_loop (count : Z) (rest : list cstring) : result Z :=
  if PEAK_EXEC_MAX_VARARGS <=? count + 1 then Err E2BIG
  else match rest with [] => Ok (count + 1) | _ :: rest => count_loop (count + 1) rest end.
Definition peak_exec_count_argv (arg : option cstring) (rest : list cstring) : result Z :=
  match arg with None => Ok 0 | Some _ => count_loop 0 rest end.

(** The stores into an array of [capacity] slots. *)
Fixpoint noalloc_loop (argv rest : list cstring) (capacity : Z) : result (list cstring) :=
  match rest with
  | [] => Ok argv
  | value :: rest =>
      if capacity <=? Z.of_nat (length argv) + 1 then Err E2BIG else noalloc_loop (argv ++ [value]) rest capacity
  end.
Definition peak_exec_collect_argv_noalloc (arg : option cstring) (rest : list cstring) (capacity : Z) : result (list cstring) :=
  if capacity =? 0 then Err EINVAL
  else match arg with None => Ok [] | Some arg => noalloc_loop [arg] rest capacity end.
