(* ===== verification/ExecSearchProofs.v ===== *)
(** * The search along PATH, and argument lists: correctness

    Both searches are the reference search over the directories of PATH; where
    they differ, and that the collectors of arguments agree. *)

From Stdlib Require Import String.
From S2P Require Import Prelude TargetSelector ExecMemory ExecEnv ExecSearch.

Lemma split_span s : split_colons s = (span_colon s).1 :: match (span_colon s).2 with [] => [] | _ :: rest => split_colons rest end.
Proof.
  induction s as [|c s IH]; [reflexivity|]; simpl; destruct (c =? colon); [reflexivity|].
  rewrite IH; destruct (span_colon s); reflexivity.
Qed.

Lemma span_length s : (length (span_colon s).2 <= length s)%nat.
Proof. induction s as [|c s IH]; simpl; [lia|]; destruct (c =? colon); [simpl; lia|]; destruct (span_colon s); simpl in *; lia. Qed.

Lemma candidate_strlen dir file : candidate_length dir file = strlen (candidate dir file).
Proof.
  unfold candidate_length, candidate, strlen; destruct dir as [|c d]; [simpl; lia|].
  rewrite length_app; simpl length; destruct (Z.eqb_spec (Z.of_nat (S (length d))) 0); [lia|simpl; lia].
Qed.

Section proofs.
Context (kernel : list attempt -> attempt -> option Z).

Lemma search_loop_spec file argv fuel : forall cursor tried saved saw, (length cursor < fuel)%nat ->
  search_loop kernel fuel cursor file argv tried saved saw = search_dirs kernel (split_colons cursor) file argv tried saved saw.
Proof.
  induction fuel as [|fuel IH]; intros cursor tried saved saw Hf; [lia|]; cbn [search_loop]; rewrite split_span; cbn [search_dirs].
  pose proof (span_length cursor) as Hl; destruct (span_colon cursor) as [dir rest]; simpl fst in *; simpl snd in *.
  assert (Hnext : forall tried saved saw,
    match rest with [] => (Some (if saw : bool then EACCES else saved), tried) | _ :: c => search_loop kernel fuel c file argv tried saved saw end =
    search_dirs kernel (match rest with [] => [] | _ :: c => split_colons c end) file argv tried saved saw).
  { destruct rest as [|c rest]; [reflexivity|]; intros; apply IH; simpl in Hl; lia. }
  rewrite candidate_strlen; destruct (Z.leb_spec (strlen (candidate dir file) + 1) PATH_MAX), (Z.ltb_spec PATH_MAX (strlen (candidate dir file) + 1)); try lia;
    [|apply Hnext].
  unfold call; destruct (kernel tried _) as [e|]; [|reflexivity]; destruct (e =? ENOEXEC); [reflexivity|].
  destruct (e =? EACCES); cbn [orb]; [apply (Hnext _ e true)|]; destruct (skips e); [apply Hnext|reflexivity].
Qed.

(** The program is in a directory whose candidate is not too long. *)
Definition fits (file dir : cstring) : Prop := strlen (candidate dir file) + 1 <= PATH_MAX.

(** The shell runs, or fails with an error that ends a search. *)
Definition shell_decides : Prop :=
  forall tried args e, kernel tried (mkAttempt bin_sh args) = Some e -> (e =? EACCES) || skips e = false.

(** The searches agree; or the last candidate was too long, and only that is
    reported instead of a denied permission; or memory ran out on the way. *)
Definition follows (file : cstring) (dirs : list cstring) (m : memory) (r reference : outcome) : Prop :=
  (r.2 = reference.2 /\
   (r.1 = reference.1 \/
    (exists d, last dirs = Some d /\ ~ fits file d) /\ r.1 = Some ENAMETOOLONG /\ reference.1 = Some EACCES)) \/
  (m <> [] /\ r.1 = Some ENOMEM /\ r.2 `prefix_of` reference.2).

Lemma follows_refl file dirs m r : follows file dirs m r r.
Proof. left; auto. Qed.

(** Attempts are only added. *)
Lemma search_dirs_grows file argv dirs : forall tried saved saw, tried `prefix_of` (search_dirs kernel dirs file argv tried saved saw).2.
Proof.
  induction dirs as [|dir dirs IH]; intros tried saved saw; cbn [search_dirs]; [reflexivity|].
  destruct (_ <? _); [apply IH|]; destruct (kernel tried _) as [e|]; [|simpl; apply prefix_app_r; reflexivity].
  destruct (e =? ENOEXEC).
  - unfold peak_exec_prepublication_shell; destruct (_ <=? _); simpl; [|rewrite <- app_assoc]; apply prefix_app_r; reflexivity.
  - destruct (_ || _); [|simpl; apply prefix_app_r; reflexivity].
    etransitivity; [|apply IH]; apply prefix_app_r; reflexivity.
Qed.

(** The shell of the fallback is the one of the other search, or has no memory. *)
Lemma shell_follows file dirs path argv m tried : shell_decides ->
  let '((answer, tried'), _) := peak_exec_enoexec_shell_fallback kernel path argv m tried in
  follows file dirs m (answer, tried') (peak_exec_prepublication_shell kernel path argv tried) /\
  match answer with Some e => (e =? EACCES) || skips e = false | None => True end.
Proof.
  intros Hsh; unfold peak_exec_enoexec_shell_fallback, peak_exec_prepublication_shell; destruct (_ <=? _); [split; [apply follows_refl|reflexivity]|].
  destruct m as [|[] m]; cbn [pop]; unfold call.
  1,2: split; [apply follows_refl|]; destruct (kernel tried _) as [e|] eqn:E; [eapply Hsh, E|exact I].
  split; [|reflexivity]; right; split_and!; [discriminate|reflexivity|simpl; apply prefix_app_r; reflexivity].
Qed.

Lemma follows_weaken file dirs dirs' m m' r reference : follows file dirs m r reference ->
  (forall d, last dirs = Some d -> last dirs' = Some d) -> (m <> [] -> m' <> []) -> follows file dirs' m' r reference.
Proof.
  intros [(H1 & H2)|(H1 & H2 & H3)] Hd Hm; [left; split; [exact H1|]|right; auto].
  destruct H2 as [H2|((d & Hl & Hf) & H2)]; [auto|right; split; [exists d; auto|exact H2]].
Qed.

(** [saved] is what the reference would report now. *)
Lemma fallback_loop_spec file argv fuel : shell_decides ->
  forall cursor m tried saved saw, (length cursor < fuel)%nat ->
  follows file (split_colons cursor) m (fallback_loop kernel fuel cursor file argv m tried saw)
    (search_dirs kernel (split_colons cursor) file argv tried saved saw).
Proof.
  intros Hsh; induction fuel as [|fuel IH]; intros cursor m tried saved saw Hf; [lia|]; cbn [fallback_loop].
  pose proof (span_length cursor) as Hl; rewrite split_span; cbn [search_dirs].
  destruct (span_colon cursor) as [dir rest]; simpl fst in *; simpl snd in *; rewrite candidate_strlen.
  assert (Hnext : forall c rest' m' tried' saved' saw', rest = c :: rest' -> (m' <> [] -> m <> []) ->
    follows file (dir :: match rest with [] => [] | _ :: c => split_colons c end) m
      (fallback_loop kernel fuel rest' file argv m' tried' saw')
      (search_dirs kernel (match rest with [] => [] | _ :: c => split_colons c end) file argv tried' saved' saw')).
  { intros c rest' m' tried' saved' saw' -> Hm; eapply follows_weaken; [apply IH; simpl in Hl; lia| |exact Hm].
    intros d; rewrite (split_span rest'); auto. }
  destruct (Z.ltb_spec PATH_MAX (strlen (candidate dir file) + 1)) as [Hbig|Hok].
  { destruct rest as [|c rest]; [|apply (Hnext c); auto]; cbn [search_dirs]; left; split; [reflexivity|].
    destruct saw; [right; split; [exists dir; split; [reflexivity|unfold fits; lia]|auto]|left; reflexivity]. }
  destruct (pop m) as [available m'] eqn:Ep; assert (Hm : m' <> [] -> m <> []) by (destruct m as [|b l]; simpl in Ep; simplify_eq; auto).
  destruct available; cbn [negb]; unfold call.
  2: { right; split_and!; [destruct m as [|b l]; simpl in Ep; simplify_eq; discriminate|reflexivity|]; simpl.
       pose proof (search_dirs_grows file argv (dir :: match rest with [] => [] | _ :: c => split_colons c end) tried saved saw) as Hg.
       cbn [search_dirs] in Hg; destruct (Z.ltb_spec PATH_MAX (strlen (candidate dir file) + 1)); [lia|exact Hg]. }
  destruct (kernel tried _) as [e|]; [|apply follows_refl]; destruct (e =? ENOEXEC) eqn:En.
  - pose proof (shell_follows file (dir :: match rest with [] => [] | _ :: c => split_colons c end) (candidate dir file) argv m'
      (tried ++ [mkAttempt (candidate dir file) argv]) Hsh) as Hs.
    destruct (peak_exec_enoexec_shell_fallback _ _ _ _ _) as [[answer tried'] m'']; destruct Hs as [Hs Hans].
    destruct answer as [e'|]; [rewrite Hans|]; eapply follows_weaken; eauto.
  - destruct ((e =? EACCES) || skips e); [|apply follows_refl]; destruct rest as [|c rest]; [cbn [search_dirs]; apply follows_refl|].
    apply (Hnext c); auto.
Qed.
End proofs.

(** C39: the two searches that stand in for [execvpe] against the search over the
    list of directories of PATH, for a file name that is not empty, shorter than
    PATH_MAX and without slash.  The one without memory tries the same programs in
    the same order and gives the same answer, always.  The fallback does so too
    when the shell is not refused with an error that passes over a directory,
    with two exceptions: when the last candidate is too long for a path name it
    may report ENAMETOOLONG where the answer is EACCES, and when an allocation
    fails it may stop early with ENOMEM. *)
Theorem path_searches_agree kernel path file argv m :
  file <> [] -> strlen file < PATH_MAX -> existsb (Z.eqb slash) file = false ->
  let dirs := split_colons (default PEAK_EXEC_DEFAULT_PATH path) in
  let reference := search_dirs kernel dirs file argv [] ENOENT false in
  peak_exec_prepublication_path_search kernel path (Some file) argv = reference /\
  (shell_decides kernel -> follows file dirs m (peak_execvpe_fallback kernel path (Some file) argv m) reference).
Proof.
  intros Hne Hlen Hs dirs reference; unfold peak_exec_prepublication_path_search, peak_execvpe_fallback; destruct file as [|c file]; [congruence|].
  rewrite Hs; destruct (Z.leb_spec PATH_MAX (strlen (c :: file))); [lia|]; split.
  - apply search_loop_spec; lia.
  - intros Hsh; apply fallback_loop_spec; [exact Hsh|lia].
Qed.

(** A kernel: the first directory is forbidden, the second has a script. *)
Definition sample_kernel (tried : list attempt) (a : attempt) : option Z :=
  if bool_decide (program a = bin_sh) then None
  else if bool_decide (program a = bytes "/a/tool") then Some EACCES
  else if bool_decide (program a = bytes "/b/tool") then Some ENOEXEC else Some ENOENT.

Lemma path_searches_agree_witness :
  peak_exec_prepublication_path_search sample_kernel (Some (bytes "/a:/none:/b:/c")) (Some (bytes "tool")) (map bytes ["tool"; "-x"]%string) =
  peak_execvpe_fallback sample_kernel (Some (bytes "/a:/none:/b:/c")) (Some (bytes "tool")) (map bytes ["tool"; "-x"]%string) [] /\
  (peak_execvpe_fallback sample_kernel (Some (bytes "/a:/none:/b:/c")) (Some (bytes "tool")) (map bytes ["tool"; "-x"]%string) []).2 =
    map (fun x => mkAttempt (bytes x.1) (map bytes x.2))
      [("/a/tool", ["tool"; "-x"]); ("/none/tool", ["tool"; "-x"]); ("/b/tool", ["tool"; "-x"]); ("/bin/sh", ["/bin/sh"; "/b/tool"; "-x"])]%string.
Proof.
  destruct (path_searches_agree sample_kernel (Some (bytes "/a:/none:/b:/c")) (bytes "tool") (map bytes ["tool"; "-x"]%string) []) as [H1 H2];
    [discriminate|vm_compute; reflexivity|vm_compute; reflexivity|].
  destruct H2 as [(Ht & Ha)|(Hm & _)]; [|split|congruence].
  - intros tried args e H; unfold sample_kernel in H; rewrite bool_decide_true in H by reflexivity; discriminate.
  - rewrite H1; apply injective_projections; [|symmetry; exact Ht]; destruct Ha as [Ha|((d & Hd & Hf) & _)]; [symmetry; exact Ha|].
    exfalso; vm_compute in Hd; simplify_eq; apply Hf; vm_compute; discriminate.
  - rewrite Ht; vm_compute; reflexivity.
Defined.

(** the fallback loses a denied permission: when the last directory of
    PATH makes a name that is too long, it reports ENAMETOOLONG although an
    earlier directory had answered EACCES, which the other search reports. *)
Theorem fallback_loses_eacces :
  let path := Some (bytes "/a:/" ++ replicate 4096 (ch "x")) in
  (peak_exec_prepublication_path_search sample_kernel path (Some (bytes "tool")) []).1 = Some EACCES /\
  (peak_execvpe_fallback sample_kernel path (Some (bytes "tool")) [] []).1 = Some ENAMETOOLONG.
Proof. split; vm_compute; reflexivity. Qed.

(** ** Arguments *)

Lemma count_loop_spec rest : forall count, 0 <= count ->
  count_loop count rest = if PEAK_EXEC_MAX_VARARGS <=? count + 1 + Z.of_nat (length rest) then Err E2BIG else Ok (count + 1 + Z.of_nat (length rest)).
Proof.
  induction rest as [|v rest IH]; intros count Hc; cbn [count_loop length].
  - rewrite Z.add_0_r; reflexivity.
  - destruct (Z.leb_spec PEAK_EXEC_MAX_VARARGS (count + 1)); [destruct (Z.leb_spec PEAK_EXEC_MAX_VARARGS (count + 1 + Z.of_nat (S (length rest)))); [reflexivity|lia]|].
    rewrite IH by lia; replace (count + 1 + Z.of_nat (S (length rest))) with (count + 1 + 1 + Z.of_nat (length rest)) by lia; reflexivity.
Qed.

Lemma noalloc_loop_spec rest capacity : forall argv, Z.of_nat (length argv) + Z.of_nat (length rest) + 1 <= capacity ->
  noalloc_loop argv rest capacity = Ok (argv ++ rest).
Proof.
  induction rest as [|v rest IH]; intros argv H; cbn [noalloc_loop length] in *; [rewrite app_nil_r; reflexivity|].
  destruct (Z.leb_spec capacity (Z.of_nat (length argv) + 1)); [lia|]; rewrite IH by (rewrite length_app; simpl length; lia).
  rewrite <- app_assoc; reflexivity.
Qed.

(** Counting and storing without memory gives the array the other collector
    allocates, or refuses with the same error. *)
Lemma argv_collectors_agree arg rest :
  match peak_exec_count_argv arg rest with
  | Ok n => peak_exec_collect_argv_noalloc arg rest (n + 1) = (peak_exec_collect_argv arg rest []).1
  | Err e => (peak_exec_collect_argv arg rest []).1 = Err e
  end.
Proof.
  destruct arg as [arg|]; [|reflexivity]; cbn [peak_exec_count_argv peak_exec_collect_argv]; rewrite count_loop_spec by lia.
  rewrite Z.add_0_l; destruct (Z.leb_spec PEAK_EXEC_MAX_VARARGS (1 + Z.of_nat (length rest))); [reflexivity|].
  unfold peak_exec_collect_argv_noalloc; destruct (Z.eqb_spec (1 + Z.of_nat (length rest) + 1) 0); [lia|].
  rewrite noalloc_loop_spec by (simpl length; lia); reflexivity.
Qed.
