(* ===== verification/SignalPolicy.v ===== *)
(** * The reserved real-time signal

    [src/signal_policy.c], first half: the signal PEAK leases for its own use,
    the search for a free one, its migration when the application wants the
    leased one, the parsing of the setting that forces one, the raw signal sets
    of system calls, and the cookies that authenticate PEAK's own packets.

    The calling thread's steps are state passing over [world]: the atomic
    variables of the file, the thread's [internal_depth] and [errno], and the
    part of the kernel they act on (dispositions and blocked sets).  A step can
    stay blocked ([None]): the only loop without a bound of its own waits for
    other threads, and each of its rounds consumes an entry of [rounds].  What
    the process is given from outside ([process]: symbols found, settings,
    [/proc], readable memory, random bytes) is a parameter. *)

From Stdlib Require Import ZArith Lia String.
From stdpp Require Import base list gmap strings.
From S2P Require Import Prelude TargetSelector EnvParser ExecMemory ExecEnv.
#[local] Open Scope Z_scope.

Module Policy.

(** ** Signals, sets and actions *)

Definition SIGKILL : Z := 9.
Definition SIGSTOP : Z := 19.
Definition SIGRTMIN : Z := 34.
Definition SIGRTMAX : Z := 64.
Definition NSIG : Z := 65.
Definition ENOSYS : Z := 38.
Definition ENOENT : Z := 2.
Definition ESRCH : Z := 3.
Definition SA_SIGINFO : Z := 4.
Definition SA_RESTART : Z := 0x10000000.

(** A [sigset_t] is the integer of its bits: signal [s] is bit [s - 1]. *)
Abbreviation sigset := Z.
Definition valid_signal (s : Z) : bool := (0 <? s) && (s <? NSIG).
Definition sigismember (set : sigset) (s : Z) : Z :=
  if valid_signal s then if Z.testbit set (s - 1) then 1 else 0 else -1.
Definition sigaddset (set : sigset) (s : Z) : sigset :=
  if valid_signal s then Z.setbit set (s - 1) else set.
Definition sigemptyset : sigset := 0.

Inductive handler :=
| SIG_DFL
| SIG_IGN
| peak_signal_policy_protective_handler
| peak_detach_controller_signal_handler
| peak_detach_controller_signal_trap_handler
| user_handler (address : Z).
#[export] Instance handler_eq_dec : EqDecision handler.
Proof. solve_decision. Defined.

Record sigaction_t := mkAction {
  sa_handler : handler;
  sa_flags : Z;
  sa_mask : sigset
}.
#[export] Instance sigaction_eq_dec : EqDecision sigaction_t.
Proof. solve_decision. Defined.
Definition default_action : sigaction_t := mkAction SIG_DFL 0 sigemptyset.

(** ** State *)

(** One round of waiting for migration to be enabled: the depth the other
    threads have left after the sleep, and what the clock then says. *)
Record round := mkRound { depth_seen : Z; clock_seen : option Z }.

Record world := mkWorld {
  reserved_signal : Z;
  conflict_count : Z;
  migration_count : Z;
  migration_disabled_depth : Z;
  migration_candidate_signal : Z;
  migration_releasing_signal : Z;
  unexpected_delivery_count : Z;
  last_conflict_api : option string;
  cookie_base : Z;
  internal_depth : Z;
  errno : Z;
  (** the kernel: dispositions (none: the default), the blocked set of every
      thread, whether the next changes of a disposition are refused *)
  actions : gmap Z sigaction_t;
  masks : gmap Z sigset;
  refusals : list bool;
  clock : option Z;
  rounds : list round
}.

Definition set_reserved (v : Z) (w : world) : world :=
  mkWorld v (conflict_count w) (migration_count w) (migration_disabled_depth w) (migration_candidate_signal w)
    (migration_releasing_signal w) (unexpected_delivery_count w) (last_conflict_api w) (cookie_base w)
    (internal_depth w) (errno w) (actions w) (masks w) (refusals w) (clock w) (rounds w).
Definition set_conflict (n : Z) (api : option string) (w : world) : world :=
  mkWorld (reserved_signal w) n (migration_count w) (migration_disabled_depth w) (migration_candidate_signal w)
    (migration_releasing_signal w) (unexpected_delivery_count w) api (cookie_base w)
    (internal_depth w) (errno w) (actions w) (masks w) (refusals w) (clock w) (rounds w).
Definition set_migrations (n : Z) (w : world) : world :=
  mkWorld (reserved_signal w) (conflict_count w) n (migration_disabled_depth w) (migration_candidate_signal w)
    (migration_releasing_signal w) (unexpected_delivery_count w) (last_conflict_api w) (cookie_base w)
    (internal_depth w) (errno w) (actions w) (masks w) (refusals w) (clock w) (rounds w).
Definition set_depth (n : Z) (w : world) : world :=
  mkWorld (reserved_signal w) (conflict_count w) (migration_count w) n (migration_candidate_signal w)
    (migration_releasing_signal w) (unexpected_delivery_count w) (last_conflict_api w) (cookie_base w)
    (internal_depth w) (errno w) (actions w) (masks w) (refusals w) (clock w) (rounds w).
Definition set_candidate (v : Z) (w : world) : world :=
  mkWorld (reserved_signal w) (conflict_count w) (migration_count w) (migration_disabled_depth w) v
    (migration_releasing_signal w) (unexpected_delivery_count w) (last_conflict_api w) (cookie_base w)
    (internal_depth w) (errno w) (actions w) (masks w) (refusals w) (clock w) (rounds w).
Definition set_releasing (v : Z) (w : world) : world :=
  mkWorld (reserved_signal w) (conflict_count w) (migration_count w) (migration_disabled_depth w)
    (migration_candidate_signal w) v (unexpected_delivery_count w) (last_conflict_api w) (cookie_base w)
    (internal_depth w) (errno w) (actions w) (masks w) (refusals w) (clock w) (rounds w).
Definition set_unexpected (v : Z) (w : world) : world :=
  mkWorld (reserved_signal w) (conflict_count w) (migration_count w) (migration_disabled_depth w)
    (migration_candidate_signal w) (migration_releasing_signal w) v (last_conflict_api w) (cookie_base w)
    (internal_depth w) (errno w) (actions w) (masks w) (refusals w) (clock w) (rounds w).
Definition set_cookie (v : Z) (w : world) : world :=
  mkWorld (reserved_signal w) (conflict_count w) (migration_count w) (migration_disabled_depth w)
    (migration_candidate_signal w) (migration_releasing_signal w) (unexpected_delivery_count w) (last_conflict_api w) v
    (internal_depth w) (errno w) (actions w) (masks w) (refusals w) (clock w) (rounds w).
Definition set_internal (v : Z) (w : world) : world :=
  mkWorld (reserved_signal w) (conflict_count w) (migration_count w) (migration_disabled_depth w)
    (migration_candidate_signal w) (migration_releasing_signal w) (unexpected_delivery_count w) (last_conflict_api w)
    (cookie_base w) v (errno w) (actions w) (masks w) (refusals w) (clock w) (rounds w).
Definition set_errno (v : Z) (w : world) : world :=
  mkWorld (reserved_signal w) (conflict_count w) (migration_count w) (migration_disabled_depth w)
    (migration_candidate_signal w) (migration_releasing_signal w) (unexpected_delivery_count w) (last_conflict_api w)
    (cookie_base w) (internal_depth w) v (actions w) (masks w) (refusals w) (clock w) (rounds w).
Definition set_actions (a : gmap Z sigaction_t) (r : list bool) (w : world) : world :=
  mkWorld (reserved_signal w) (conflict_count w) (migration_count w) (migration_disabled_depth w)
    (migration_candidate_signal w) (migration_releasing_signal w) (unexpected_delivery_count w) (last_conflict_api w)
    (cookie_base w) (internal_depth w) (errno w) a (masks w) r (clock w) (rounds w).
Definition set_masks (m : gmap Z sigset) (w : world) : world :=
  mkWorld (reserved_signal w) (conflict_count w) (migration_count w) (migration_disabled_depth w)
    (migration_candidate_signal w) (migration_releasing_signal w) (unexpected_delivery_count w) (last_conflict_api w)
    (cookie_base w) (internal_depth w) (errno w) (actions w) m (refusals w) (clock w) (rounds w).
Definition set_wait (d : Z) (c : option Z) (r : list round) (w : world) : world :=
  mkWorld (reserved_signal w) (conflict_count w) (migration_count w) d
    (migration_candidate_signal w) (migration_releasing_signal w) (unexpected_delivery_count w) (last_conflict_api w)
    (cookie_base w) (internal_depth w) (errno w) (actions w) (masks w) (refusals w) c r.

(** The start of a process. *)
Definition initial (actions : gmap Z sigaction_t) (masks : gmap Z sigset) (refusals : list bool)
    (clock : option Z) (rounds : list round) : world :=
  mkWorld 0 0 0 0 0 0 0 None 0 0 0 actions masks refusals clock rounds.

Definition action_of (w : world) (s : Z) : sigaction_t := default default_action (actions w !! s).

(** ** The monad of the calling thread *)

Definition SM (A : Type) : Type := world -> option (A * world).
#[export] Instance sm_ret : MRet SM := fun A a w => Some (a, w).
#[export] Instance sm_bind : MBind SM := fun A B f m w =>
  match m w with Some (a, w) => f a w | None => None end.
Definition gets {A} (f : world -> A) : SM A := fun w => Some (f w, w).
Definition modify (f : world -> world) : SM unit := fun w => Some (tt, f w).

(** ** What the process is given *)

(** Bytes the process reads through the kernel: at an address of the
    application, or in a copy on the reader's own stack. *)
Inductive source := Null | User (address : Z) | Local (copy : list Z).

Record process := mkProcess {
  (** [peak_process_profile_enabled() && peak_process_requests_work()] *)
  enabled_for_process : bool;
  resolved : string -> bool;
  environment : string -> option cstring;
  self_tid : Z;
  self_pid : Z;
  self_uid : Z;
  mutex_lock_rc : Z;
  (** [/proc/self/task] and [/proc/self/task/<tid>/status] *)
  proc_tasks : gmap Z sigset -> option (list cstring);
  proc_status : gmap Z sigset -> Z -> Z + list Z;
  process_vm_readv : source -> Z -> option (list Z);
  pread_self_mem : source -> Z -> option (list Z);
  process_vm_writev : Z -> Z -> bool;
  (** the address of a buffer on the caller's stack *)
  local_buffer : Z;
  random_seed : option Z;
  fallback_seed : Z;
  (** calls whose effect is outside the state above: what they return and [errno] *)
  outcome : string -> world -> Z * Z;
  (** [syscall] of the C library *)
  libc_syscall : Z -> list Z -> world -> Z * world
}.

Section Policy.
Context (p : process).

(** ** The C library's calls on dispositions and blocked sets *)

Definition unblockable : sigset := Z.setbit (Z.setbit 0 (SIGKILL - 1)) (SIGSTOP - 1).
Definition internal_signals : sigset := Z.setbit (Z.setbit 0 31) 32.

(** Signals 32 and 33 are the C library's own. *)
Definition sigaction_valid (s : Z) : bool := valid_signal s && negb (s =? 32) && negb (s =? 33).

Definition EPERM : Z := 1.

Definition take_refusal : SM bool := fun w =>
  match refusals w with
  | [] => Some (false, w)
  | b :: rest => Some (b, set_actions (actions w) rest w)
  end.

(** [real_sigaction_fn(signum, act, oldact)]: the result and the old action. *)
Definition real_sigaction (s : Z) (act : option sigaction_t) : SM (Z * sigaction_t) :=
  old ← gets (fun w => action_of w s);
  if negb (sigaction_valid s) || (bool_decide (is_Some act) && ((s =? SIGKILL) || (s =? SIGSTOP))) then
    _ ← modify (set_errno EINVAL); mret (-1, default_action)
  else
    match act with
    | None => mret (0, old)
    | Some a =>
        refused ← take_refusal;
        if refused : bool then _ ← modify (set_errno EPERM); mret (-1, default_action)
        else
          _ ← modify (fun w => set_actions (<[s := mkAction (sa_handler a) (sa_flags a) (Z.ldiff (sa_mask a) unblockable)]> (actions w))
                                 (refusals w) w);
          mret (0, old)
    end.

Inductive how := SIG_BLOCK | SIG_UNBLOCK | SIG_SETMASK | other_how (n : Z).
#[export] Instance how_eq_dec : EqDecision how.
Proof. solve_decision. Defined.

Definition new_mask (h : how) (old set : sigset) : option sigset :=
  let set := Z.ldiff (Z.ldiff set unblockable) internal_signals in
  match h with
  | SIG_BLOCK => Some (Z.lor old set)
  | SIG_UNBLOCK => Some (Z.ldiff old set)
  | SIG_SETMASK => Some set
  | other_how _ => None
  end.

(** The blocked set of the calling thread; the error number. *)
Definition real_sigmask (h : how) (set : option sigset) : SM Z :=
  match set with
  | None => mret 0
  | Some set =>
      old ← gets (fun w => default 0 (masks w !! self_tid p));
      match new_mask h old set with
      | Some m => _ ← modify (fun w => set_masks (<[self_tid p := m]> (masks w)) w); mret 0
      | None => mret EINVAL
      end
  end.

(** ** Internal calls *)

Definition peak_signal_policy_enter_internal : SM unit := modify (fun w => set_internal (internal_depth w + 1) w).
Definition peak_signal_policy_leave_internal : SM unit :=
  modify (fun w => if 0 <? internal_depth w then set_internal (internal_depth w - 1) w else w).
Definition peak_signal_policy_is_internal : SM bool := gets (fun w => 0 <? internal_depth w).

Definition internally {A} (m : SM A) : SM A :=
  _ ← peak_signal_policy_enter_internal;
  a ← m;
  _ ← peak_signal_policy_leave_internal;
  mret a.

Definition peak_signal_policy_record_conflict (api : string) : SM unit :=
  modify (fun w => set_conflict (to_int (conflict_count w + 1)) (Some api) w).

(** ** Memory read through the kernel *)

Definition SSIZE_MAX : Z := 2 ^ 63 - 1.

Definition peak_signal_policy_safe_read (src : source) (size : Z) : option (list Z) :=
  if size =? 0 then Some []
  else
    match src with
    | Null => None
    | _ =>
        if negb (resolved p "syscall") then None
        else
          match process_vm_readv p src size with
          | Some bytes => Some bytes
          | None => if SSIZE_MAX <? size then None else pread_self_mem p src size
          end
    end.

Definition peak_signal_policy_safe_write (address size : Z) : bool :=
  if size =? 0 then true
  else if address =? 0 then false
  else resolved p "syscall" && process_vm_writev p address size.

(** ** The setting [PEAK_DETACH_SIGNAL] *)

(** [strtol(value, &end, 10)]: the value, saturated, whether it was out of
    range, and the characters left; none when there is no number. *)
Definition LONG_MAX : Z := 2 ^ 63 - 1.
Definition LONG_MIN : Z := - 2 ^ 63.
Definition strtol (value : cstring) : option (Z * bool * cstring) :=
  let rest := (span isspace value).2 in
  let '(negative, rest) :=
    match rest with
    | c :: more => if c =? ch "-" then (true, more) else if c =? ch "+" then (false, more) else (false, rest)
    | [] => (false, rest)
    end in
  match span isdigit rest with
  | ([], _) => None
  | (digits, rest) =>
      let v := if negative then - decimal digits else decimal digits in
      if v <? LONG_MIN then Some (LONG_MIN, true, rest)
      else if LONG_MAX <? v then Some (LONG_MAX, true, rest)
      else Some (v, false, rest)
  end.

Definition strncasecmp_equal (value prefix : cstring) : bool :=
  bool_decide (map lower (take (length prefix) value) = map lower prefix).

(** The result and [*out]: 0 for another form, -1 for a bad one, 1. *)
Definition peak_signal_policy_parse_signal_offset (value prefix : cstring) (base : Z) : Z * Z :=
  if negb (strncasecmp_equal value prefix) then (0, 0)
  else
    match drop (length prefix) value with
    | op :: rest =>
        if (op =? ch "+") || (op =? ch "-") then
          match strtol rest with
          | Some (offset, _, []) =>
              if offset <? 0 then (-1, 0)
              else
                let signum := if op =? ch "+" then base + offset else base - offset in
                if (signum <? SIGRTMIN) || (SIGRTMAX <? signum) then (-1, 0) else (1, signum)
          | _ => (-1, 0)
          end
        else (0, 0)
    | [] => (0, 0)
    end.

Definition peak_signal_policy_parse_signal_env (value : option cstring) : Z * Z :=
  match value with
  | None | Some [] => (0, 0)
  | Some value =>
      if strcasecmp_equal value (bytes "auto") then (0, 0)
      else
        let r := peak_signal_policy_parse_signal_offset value (bytes "SIGRTMIN") SIGRTMIN in
        if negb (r.1 =? 0) then r
        else
          let r := peak_signal_policy_parse_signal_offset value (bytes "SIGRTMAX") SIGRTMAX in
          if negb (r.1 =? 0) then r
          else
            match strtol value with
            | Some (signum, _, []) =>
                if (signum <? SIGRTMIN) || (SIGRTMAX <? signum) then (-1, 0) else (1, signum)
            | _ => (-1, 0)
            end
  end.

(** [configured_signal_parse_result] and [configured_forced_signal]. *)
Definition peak_signal_policy_configure : Z * Z :=
  peak_signal_policy_parse_signal_env (environment p "PEAK_DETACH_SIGNAL").
Definition configured_signal_parse_result : Z := peak_signal_policy_configure.1.
Definition configured_forced_signal : Z := peak_signal_policy_configure.2.
Definition peak_signal_policy_env_forces_signal : bool := 0 <? configured_signal_parse_result.

(** ** Free signals *)

(** [fgets(line, 256, fp)] over a whole file: the lines, long ones in pieces of
    255 characters. *)
Fixpoint fgets_all (line : cstring) (file : list Z) : list cstring :=
  match file with
  | [] => match line with [] => [] | _ => [line] end
  | c :: file =>
      let line := line ++ [c] in
      if (c =? newline) || (255 <=? length line)%nat then line :: fgets_all [] file else fgets_all line file
  end.

(** [strtoull(value, NULL, 16)]: the value and whether it is out of range. *)
Fixpoint hex_digits (s : cstring) (value : Z) : Z :=
  match s with
  | c :: s => let digit := peak_exec_hex_value c in if digit <? 0 then value else hex_digits s (16 * value + digit)
  | [] => value
  end.
Definition hex_prefix (s : cstring) : cstring :=
  match s with
  | z :: x :: d :: _ =>
      if (z =? ch "0") && ((x =? ch "x") || (x =? ch "X")) && (0 <=? peak_exec_hex_value d) then drop 2 s else s
  | _ => s
  end.
Definition strtoull16 (value : cstring) : Z * bool :=
  let rest := (span isspace value).2 in
  let '(negative, rest) :=
    match rest with
    | c :: more => if c =? ch "-" then (true, more) else if c =? ch "+" then (false, more) else (false, rest)
    | [] => (false, rest)
    end in
  let v := hex_digits (hex_prefix rest) 0 in
  if ULLONG_MAX <? v then (ULLONG_MAX, true) else (if negative then wrap 64 (- v) else v, false).

Definition SigBlk : cstring := bytes "SigBlk:".
Definition is_blank (c : Z) : bool := (c =? 32) || (c =? 9).

(** The loop over the lines: -1 unknown, 0 not blocked, 1 blocked. *)
Fixpoint sigblk_loop (lines : list cstring) (signum : Z) : Z :=
  match lines with
  | [] => -1
  | line :: lines =>
      if negb (bool_decide (take 7 line = SigBlk)) then sigblk_loop lines signum
      else
        let value := (span is_blank (drop 7 line)).2 in
        let '(mask, overflow) := strtoull16 value in
        if negb overflow && (0 <? signum) && (signum <=? 64)
        then if negb (Z.land mask (Z.shiftl 1 (signum - 1)) =? 0) then 1 else 0
        else -1
  end.

Definition peak_signal_policy_tid_blocks_signal (m : gmap Z sigset) (tid signum : Z) : Z :=
  match proc_status p m tid with
  | inl e => if (e =? ENOENT) || (e =? ESRCH) then 0 else -1
  | inr file => sigblk_loop (fgets_all [] file) signum
  end.

(** The thread number a directory entry names. *)
Definition task_tid (name : cstring) : option Z :=
  match strtol name with
  | Some (tid, overflow, []) => if overflow || (tid <=? 0) then None else Some tid
  | _ => None
  end.

Fixpoint tasks_loop (m : gmap Z sigset) (entries : list cstring) (signum : Z) : bool :=
  match entries with
  | [] => true
  | name :: entries =>
      match task_tid name with
      | None => tasks_loop m entries signum
      | Some tid =>
          if peak_signal_policy_tid_blocks_signal m (to_int tid) signum =? 0 then tasks_loop m entries signum else false
      end
  end.

Definition peak_signal_policy_signal_unblocked_in_all_threads (signum : Z) : SM bool :=
  gets (fun w => match proc_tasks p (masks w) with
                 | None => false
                 | Some entries => tasks_loop (masks w) entries signum
                 end).

Definition peak_signal_policy_signal_is_available (signum : Z) : SM bool :=
  if negb (resolved p "sigaction") then mret false
  else
    r ← internally (real_sigaction signum None);
    mret ((r.1 =? 0) && bool_decide (sa_handler r.2 = SIG_DFL)).

Definition excluded (excluded_set : option sigset) (signum : Z) : bool :=
  match excluded_set with None => false | Some set => sigismember set signum =? 1 end.

Definition peak_signal_policy_signal_is_migration_candidate (signum old_signum : Z) (excluded_set : option sigset) : SM bool :=
  if negb (signum =? old_signum) && negb (signum =? SIGRTMIN) && negb (signum =? SIGRTMIN + 1) &&
     negb (excluded excluded_set signum)
  then
    available ← peak_signal_policy_signal_is_available signum;
    if available : bool then peak_signal_policy_signal_unblocked_in_all_threads signum else mret false
  else mret false.

(** [for (candidate = SIGRTMAX; candidate >= SIGRTMIN; candidate--)]. *)
Definition rt_signals : list Z := reverse (seqZ SIGRTMIN (SIGRTMAX - SIGRTMIN + 1)).

Fixpoint candidate_loop (candidates : list Z) (old_signum : Z) (excluded_set : option sigset) : SM Z :=
  match candidates with
  | [] => mret 0
  | candidate :: candidates =>
      _ ← modify (set_candidate candidate);
      found ← peak_signal_policy_signal_is_migration_candidate candidate old_signum excluded_set;
      if found : bool then mret candidate
      else _ ← modify (set_candidate 0); candidate_loop candidates old_signum excluded_set
  end.
Definition peak_signal_policy_find_migration_candidate (old_signum : Z) (excluded_set : option sigset) : SM Z :=
  candidate_loop rt_signals old_signum excluded_set.

Definition peak_signal_policy_signal_is_transitioning (signum : Z) : SM bool :=
  gets (fun w => (0 <? signum) &&
    ((signum =? migration_candidate_signal w) || (signum =? migration_releasing_signal w))).

(** ** Waiting for the end of a mutation *)

Definition WAIT_TIMEOUT_NS : Z := 100000000.

(** The body of the loop, round by round; blocked when no round is left. *)
Fixpoint wait_loop (start : Z) (rs : list round) (w : world) : option (bool * world) :=
  match rs with
  | [] => None
  | r :: rs =>
      let w := set_wait (depth_seen r) (clock_seen r) rs w in
      if migration_disabled_depth w =? 0 then Some (true, w)
      else
        match clock_seen r with
        | None => Some (false, w)
        | Some now =>
            if WAIT_TIMEOUT_NS <=? now - start then Some (migration_disabled_depth w =? 0, w) else wait_loop start rs w
        end
  end.

Definition peak_signal_policy_wait_until_migration_enabled : SM bool := fun w =>
  if migration_disabled_depth w =? 0 then Some (true, w)
  else
    match clock w with
    | None => Some (false, w)
    | Some start => wait_loop start (rounds w) w
    end.

(** ** PEAK's handlers and cookies *)

Definition peak_signal_policy_restore_default_handler (signum : Z) : SM bool :=
  if signum <=? 0 then mret true
  else if negb (resolved p "sigaction") then mret false
  else
    r ← internally (real_sigaction signum (Some default_action));
    mret (r.1 =? 0).

Definition peak_signal_policy_install_protective_handler (signum : Z) : SM bool :=
  if negb (resolved p "sigaction") then mret false
  else
    r ← internally (real_sigaction signum
          (Some (mkAction peak_signal_policy_protective_handler (Z.lor SA_SIGINFO SA_RESTART) (sigaddset sigemptyset signum))));
    mret (r.1 =? 0).

Definition peak_signal_policy_note_unexpected_delivery : SM unit :=
  modify (fun w => set_unexpected (to_int (unexpected_delivery_count w + 1)) w).

(** [pthread_once]: a base that is set is not replaced. *)
Definition peak_signal_policy_init_cookie_once : Z :=
  let seed := match random_seed p with Some seed => seed | None => fallback_seed p end in
  if seed =? 0 then 0x6a09e667f3bcc909 else seed.
Definition peak_signal_policy_init_cookie : SM unit :=
  modify (fun w => if cookie_base w =? 0 then set_cookie peak_signal_policy_init_cookie_once w else w).

Definition peak_signal_policy_cookie_from_base (base epoch tid : Z) : Z :=
  let e := wrap 32 epoch in
  let t := wrap 32 tid in
  Z.lxor (Z.lxor base (wrap 64 (Z.shiftl e 32))) (wrap 64 (t * 0x45d9f3b)).

Definition peak_signal_policy_cookie_for_preinitialized (epoch tid : Z) : SM Z :=
  gets (fun w => if cookie_base w =? 0 then 0 else peak_signal_policy_cookie_from_base (cookie_base w) epoch tid).

Definition peak_signal_policy_cookie_for (epoch tid : Z) : SM Z :=
  _ ← peak_signal_policy_init_cookie;
  peak_signal_policy_cookie_for_preinitialized epoch tid.

Definition SI_QUEUE : Z := -1.
Record siginfo := mkInfo { si_code : Z; si_pid : Z; si_uid : Z; sival_ptr : Z }.

Definition peak_signal_policy_cookie_matches_async (info : option siginfo) (epoch tid : Z) : SM bool :=
  match info with
  | None => mret false
  | Some i =>
      if negb (si_code i =? SI_QUEUE) || negb (si_pid i =? self_pid p) || negb (si_uid i =? self_uid p) then mret false
      else
        cookie ← peak_signal_policy_cookie_for_preinitialized epoch tid;
        mret (negb (cookie =? 0) && (sival_ptr i =? cookie))
  end.

(** The packet [peak_signal_policy_send_thread_signal] queues. *)
Definition peak_signal_policy_send_thread_signal (cookie : Z) : siginfo :=
  mkInfo SI_QUEUE (self_pid p) (self_uid p) cookie.

Definition peak_signal_policy_unblock_reserved_for_current_thread : SM Z :=
  signum ← gets reserved_signal;
  if signum <=? 0 then mret 0
  else if negb (resolved p "pthread_sigmask") then _ ← modify (set_errno ENOSYS); mret (-1)
  else internally (real_sigmask SIG_UNBLOCK (Some (sigaddset sigemptyset signum))).

(** ** Migration *)

Definition finish_migration (result : bool) : SM bool :=
  _ ← modify (set_releasing 0);
  _ ← modify (set_candidate 0);
  mret result.

Definition peak_signal_policy_migrate_reserved_signal_locked (old_signum : Z) (excluded_set : option sigset) (api : string)
    : SM bool :=
  _ ← peak_signal_policy_record_conflict api;
  if (old_signum <=? 0) || peak_signal_policy_env_forces_signal then mret false
  else
    enabled ← peak_signal_policy_wait_until_migration_enabled;
    if negb enabled then mret false
    else
      current ← gets reserved_signal;
      if negb (current =? old_signum) then mret true
      else
        depth ← gets migration_disabled_depth;
        if 0 <? depth then mret false
        else
          replacement ← peak_signal_policy_find_migration_candidate old_signum excluded_set;
          if replacement <=? 0 then _ ← modify (set_candidate 0); mret false
          else
            _ ← peak_signal_policy_init_cookie;
            installed ← peak_signal_policy_install_protective_handler replacement;
            if negb installed then _ ← modify (set_candidate 0); mret false
            else
              _ ← modify (set_releasing old_signum);
              _ ← modify (set_reserved replacement);
              restored ← peak_signal_policy_restore_default_handler old_signum;
              if negb restored then
                _ ← modify (set_reserved old_signum);
                _ ← peak_signal_policy_restore_default_handler replacement;
                finish_migration false
              else
                _ ← peak_signal_policy_unblock_reserved_for_current_thread;
                _ ← modify (fun w => set_migrations (to_int (migration_count w + 1)) w);
                finish_migration true.

(** The end of every locked check that asks for a migration. *)
Definition migrate_or_EINVAL (signum : Z) (excluded_set : option sigset) (api : string) : SM bool :=
  migrated ← peak_signal_policy_migrate_reserved_signal_locked signum excluded_set api;
  if migrated : bool then mret true
  else _ ← modify (set_errno EINVAL); mret false.

Definition locked (body : SM bool) : SM bool :=
  if negb (mutex_lock_rc p =? 0) then _ ← modify (set_errno EINVAL); mret false else body.

Definition peak_signal_policy_prepare_reserved_set_for_user (set : option sigset) (api : string) : SM bool :=
  internal ← peak_signal_policy_is_internal;
  match set with
  | None => mret true
  | Some set =>
      if negb (enabled_for_process p) || internal then mret true
      else
        locked (
          signum ← gets reserved_signal;
          if (signum <=? 0) || negb (sigismember set signum =? 1) then mret true
          else migrate_or_EINVAL signum (Some set) api)
  end.

Definition rt_signal (s : Z) : bool := (SIGRTMIN <=? s) && (s <=? SIGRTMAX).

Definition peak_signal_policy_prepare_reserved_signal_for_user (signum : Z) (api : string) : SM bool :=
  internal ← peak_signal_policy_is_internal;
  if negb (enabled_for_process p) || internal || negb (rt_signal signum) then mret true
  else
    locked (
      reserved ← gets reserved_signal;
      if negb (signum =? reserved) then mret true else migrate_or_EINVAL signum None api).

Definition peak_signal_policy_should_hide_raw_sigaction_query (signum : Z) : SM bool :=
  internal ← peak_signal_policy_is_internal;
  if negb (enabled_for_process p) || internal then mret false
  else
    reserved ← gets reserved_signal;
    transitioning ← peak_signal_policy_signal_is_transitioning signum;
    mret ((0 <? signum) && ((signum =? reserved) || transitioning)).

(** ** Notifications *)

Definition SIGEV_SIGNAL : Z := 0.
Definition SIGEV_THREAD_ID : Z := 4.
Definition sizeof_sigevent : Z := 64.
Definition sizeof_aiocb : Z := 168.
Definition aio_sigevent_offset : nat := 32.

Fixpoint le_value (bytes : list Z) : Z :=
  match bytes with [] => 0 | b :: bytes => b + 256 * le_value bytes end.
Definition int_at (bytes : list Z) (offset : nat) : Z := to_int (le_value (take 4 (drop offset bytes))).

(** [struct sigevent]: the value, [sigev_signo] at 8, [sigev_notify] at 12. *)
Definition peak_signal_policy_event_signal (evp : source) : option Z :=
  match evp with
  | Null => Some 0
  | _ =>
      match peak_signal_policy_safe_read evp sizeof_sigevent with
      | None => None
      | Some event =>
          let notify := int_at event 12 in
          if negb (notify =? SIGEV_SIGNAL) && negb (notify =? SIGEV_THREAD_ID) then Some 0 else Some (int_at event 8)
      end
  end.

Definition peak_signal_policy_prepare_event_for_user_excluding (evp : source) (excluded_set : option sigset) (api : string)
    : SM bool :=
  internal ← peak_signal_policy_is_internal;
  if negb (enabled_for_process p) then mret true
  else
    match peak_signal_policy_event_signal evp with
    | None => mret true
    | Some signum =>
        if negb (rt_signal signum) || internal then mret true
        else
          locked (
            reserved ← gets reserved_signal;
            if negb (signum =? reserved) then mret true else migrate_or_EINVAL signum excluded_set api)
    end.

Definition peak_signal_policy_prepare_event_for_user (evp : source) (api : string) : SM bool :=
  peak_signal_policy_prepare_event_for_user_excluding evp None api.

(** ** Raw signal sets *)

Definition sizeof_sigset : Z := 128.

(** -1 when the set cannot be read. *)
Definition peak_signal_policy_raw_set_contains_signal (set : source) (set_size signum : Z) : Z :=
  match set with
  | Null => 0
  | _ =>
      if signum <=? 0 then 0
      else
        let copy_size := Z.min set_size sizeof_sigset in
        if copy_size =? 0 then 0
        else
          match peak_signal_policy_safe_read set copy_size with
          | None => -1
          | Some bytes =>
              if sizeof_sigset <=? set_size then if sigismember (le_value bytes) signum =? 1 then 1 else 0
              else
                let bit := signum - 1 in
                let byte := bit / 8 in
                if set_size <=? byte then 0
                else if negb (Z.land (char_at bytes (Z.to_nat byte)) (wrap 8 (Z.shiftl 1 (bit mod 8))) =? 0) then 1 else 0
          end
  end.

Definition peak_signal_policy_build_raw_excluded_set (set : source) (set_size : Z) : sigset :=
  match set with
  | Null => sigemptyset
  | _ =>
      foldl (fun excluded signum =>
               if 0 <? peak_signal_policy_raw_set_contains_signal set set_size signum
               then sigaddset excluded signum else excluded)
        sigemptyset (seqZ 1 (NSIG - 1))
  end.

Definition peak_signal_policy_prepare_reserved_raw_set_for_user (set : source) (set_size : Z) (api : string) : SM bool :=
  internal ← peak_signal_policy_is_internal;
  match set with
  | Null => mret true
  | _ =>
      if negb (enabled_for_process p) || internal then mret true
      else
        locked (
          signum ← gets reserved_signal;
          let contains := if 0 <? signum then peak_signal_policy_raw_set_contains_signal set set_size signum else 0 in
          if (signum <=? 0) || (contains =? 0) then mret true
          else if contains <? 0 then mret true
          else migrate_or_EINVAL signum (Some (peak_signal_policy_build_raw_excluded_set set set_size)) api)
  end.

(** ** Lists of asynchronous requests *)

Definition peak_signal_policy_add_event_signal_to_set (evp : source) (excluded_set : sigset) : sigset :=
  match peak_signal_policy_event_signal evp with
  | None => excluded_set
  | Some signum => if 0 <? signum then sigaddset excluded_set signum else excluded_set
  end.

(** The notification of entry [i] of the list; none when the entry or its
    request is not readable. *)
Definition lio_event (list_addr : Z) (i : nat) : option source :=
  match peak_signal_policy_safe_read (User (wrap 64 (list_addr + 8 * Z.of_nat i))) 8 with
  | None => None
  | Some pointer =>
      let aiocbp := le_value pointer in
      if aiocbp =? 0 then None
      else
        match peak_signal_policy_safe_read (User aiocbp) sizeof_aiocb with
        | None => None
        | Some aiocb => Some (Local (take (Z.to_nat sizeof_sigevent) (drop aio_sigevent_offset aiocb)))
        end
  end.

Definition peak_signal_policy_collect_lio_event_signals (list_addr nent : Z) (evp : source) : sigset :=
  let set := peak_signal_policy_add_event_signal_to_set evp sigemptyset in
  if (list_addr =? 0) || (nent <=? 0) then set
  else
    foldl (fun set i =>
             match lio_event list_addr i with
             | None => set
             | Some event => peak_signal_policy_add_event_signal_to_set event set
             end) set (seq 0 (Z.to_nat nent)).

(** ** Reserving *)

Definition peak_signal_policy_commit_reserved_signal (signum : Z) : SM Z :=
  if negb (rt_signal signum) then mret 0
  else if negb (mutex_lock_rc p =? 0) then mret 0
  else
    current ← gets reserved_signal;
    if 0 <? current then mret current
    else
      _ ← peak_signal_policy_init_cookie;
      _ ← modify (set_candidate signum);
      available ← peak_signal_policy_signal_is_available signum;
      if negb available then _ ← modify (set_candidate 0); mret 0
      else
        installed ← peak_signal_policy_install_protective_handler signum;
        if negb installed then
          _ ← modify (set_reserved 0);
          _ ← modify (set_candidate 0);
          mret 0
        else
          _ ← modify (set_reserved signum);
          _ ← modify (set_candidate 0);
          mret signum.

Fixpoint choose_loop (candidates : list Z) : SM Z :=
  match candidates with
  | [] => mret 0
  | candidate :: candidates =>
      if (candidate =? SIGRTMIN) || (candidate =? SIGRTMIN + 1) then choose_loop candidates
      else
        available ← peak_signal_policy_signal_is_available candidate;
        if negb available then choose_loop candidates
        else peak_signal_policy_commit_reserved_signal candidate
  end.

Definition peak_signal_policy_choose_reserved_signal : SM Z :=
  current ← gets reserved_signal;
  if 0 <? current then mret current
  else if 0 <? configured_signal_parse_result then
    available ← peak_signal_policy_signal_is_available configured_forced_signal;
    if available : bool then peak_signal_policy_commit_reserved_signal configured_forced_signal else mret 0
  else if configured_signal_parse_result <? 0 then mret 0
  else choose_loop rt_signals.

Definition peak_signal_policy_set_reserved_signal (signum : Z) : SM unit :=
  if 0 <? signum then _ ← peak_signal_policy_commit_reserved_signal signum; mret tt else mret tt.

Definition peak_signal_policy_clear_reserved_signal : SM unit :=
  signum ← gets reserved_signal;
  _ ← modify (set_reserved 0);
  if signum <=? 0 then mret tt
  else _ ← peak_signal_policy_restore_default_handler signum; mret tt.

Definition peak_signal_policy_push_migration_disabled : SM unit :=
  modify (fun w => set_depth (to_int (migration_disabled_depth w + 1)) w).
Definition peak_signal_policy_pop_migration_disabled : SM unit :=
  modify (fun w => if 0 <? migration_disabled_depth w then set_depth (migration_disabled_depth w - 1) w else w).

End Policy.
End Policy.
