(* ===== verification/SignalPolicyProofs.v ===== *)
(** * The lease of the reserved signal

    What every operation of [SignalPolicy] does to the state, as equations up to
    [errno], and the theorems on the search for a free signal, the cookies, the
    setting and the raw sets. *)

From Stdlib Require Import ZArith Lia String.
From stdpp Require Import base list gmap strings.
From S2P Require Import Prelude TargetSelector EnvParser ExecMemory ExecEnv SignalPolicy.
Import Policy.
#[local] Open Scope Z_scope.

Module PolicyProofs.

(** ** Running the monad *)

Lemma bind_some {A B} (m : SM A) (f : A -> SM B) w a w1 :
  m w = Some (a, w1) -> (m ≫= f) w = f a w1.
Proof. intros H. unfold mbind, sm_bind. by rewrite H. Qed.

Lemma bind_inv {A B} (m : SM A) (f : A -> SM B) w b w' :
  (m ≫= f) w = Some (b, w') -> exists a w1, m w = Some (a, w1) /\ f a w1 = Some (b, w').
Proof. unfold mbind, sm_bind. destruct (m w) as [[a w1]|]; [eauto | discriminate]. Qed.

Lemma ret_inv {A} (a b : A) w w' : (mret a : SM A) w = Some (b, w') -> b = a /\ w' = w.
Proof. unfold mret, sm_ret. by intros [= -> ->]. Qed.

(** One step of a run: the head of a sequence that computes by itself. *)
Ltac smstep :=
  match goal with
  | |- context [(gets ?f ≫= ?k) ?w] => rewrite (bind_some (gets f) k w (f w) w eq_refl)
  | |- context [(modify ?f ≫= ?k) ?w] => rewrite (bind_some (modify f) k w tt (f w) eq_refl)
  | |- context [(@mret SM _ _ ?a ≫= ?k) ?w] => rewrite (bind_some (mret a) k w a w eq_refl)
  end.
Ltac smstep_in H :=
  match type of H with
  | context [(gets ?f ≫= ?k) ?w] => rewrite (bind_some (gets f) k w (f w) w eq_refl) in H
  | context [(modify ?f ≫= ?k) ?w] => rewrite (bind_some (modify f) k w tt (f w) eq_refl) in H
  | context [(@mret SM _ _ ?a ≫= ?k) ?w] => rewrite (bind_some (mret a) k w a w eq_refl) in H
  end.

(** ** Changes of the kernel's part *)

(** Equal but for dispositions, pending refusals and [errno]. *)
Definition kernel_change (w w' : world) : Prop :=
  w' = set_errno (errno w') (set_actions (actions w') (refusals w') w).

Lemma kernel_change_refl w : kernel_change w w.
Proof. by destruct w. Qed.

Lemma internal_roundtrip w : 0 <= internal_depth w ->
  peak_signal_policy_leave_internal (set_internal (internal_depth w + 1) w) = Some (tt, w).
Proof.
  intros H. unfold peak_signal_policy_leave_internal, modify.
  destruct w as [? ? ? ? ? ? ? ? ? d]; cbn in *. destruct (Z.ltb_spec 0 (d + 1)); [|lia].
  by replace (d + 1 - 1) with d by lia.
Qed.

Lemma rt_valid s : rt_signal s = true -> sigaction_valid s = true /\ (s =? SIGKILL) = false /\ (s =? SIGSTOP) = false /\ 0 < s.
Proof.
  unfold rt_signal, sigaction_valid, valid_signal, SIGRTMIN, SIGRTMAX, NSIG, SIGKILL, SIGSTOP. intros H.
  apply andb_true_iff in H as [H1 H2]. apply Z.leb_le in H1. apply Z.leb_le in H2.
  repeat split; try lia; repeat (apply andb_true_iff; split);
    try (apply negb_true_iff; apply Z.eqb_neq); try apply Z.ltb_lt; try (apply Z.eqb_neq); lia.
Qed.

Lemma rt_range s : rt_signal s = true <-> 34 <= s <= 64.
Proof. unfold rt_signal, SIGRTMIN, SIGRTMAX. rewrite andb_true_iff, !Z.leb_le. lia. Qed.

Lemma query_spec s w : rt_signal s = true -> real_sigaction s None w = Some ((0, action_of w s), w).
Proof.
  intros H. destruct (rt_valid s H) as (Hv & _). unfold real_sigaction. smstep. rewrite Hv. cbn. done.
Qed.

Section Policy.
Context (p : process).

Lemma available_spec s w : rt_signal s = true -> 0 <= internal_depth w ->
  peak_signal_policy_signal_is_available p s w =
    Some (resolved p "sigaction" && bool_decide (sa_handler (action_of w s) = SIG_DFL), w).
Proof.
  intros Hs Hd. unfold peak_signal_policy_signal_is_available.
  destruct (resolved p "sigaction"); [|done]. cbn [negb].
  unfold internally, peak_signal_policy_enter_internal.
  erewrite bind_some; [|smstep; erewrite bind_some by (by apply query_spec);
    erewrite bind_some by (by apply internal_roundtrip); reflexivity].
  cbn. by destruct w.
Qed.

Definition settable (s : Z) : bool := sigaction_valid s && negb ((s =? SIGKILL) || (s =? SIGSTOP)).

Lemma rt_settable s : rt_signal s = true -> settable s = true.
Proof. intros H. destruct (rt_valid s H) as (Hv & Hk & Ht & _). unfold settable. by rewrite Hv, Hk, Ht. Qed.

Definition stored (a : sigaction_t) : sigaction_t := mkAction (sa_handler a) (sa_flags a) (Z.ldiff (sa_mask a) unblockable).

(** What changing a disposition does: it is refused or it is done. *)
Lemma change_spec s a w : settable s = true ->
  exists rc old w', real_sigaction s (Some a) w = Some ((rc, old), w') /\ kernel_change w w' /\
    ((rc = 0 /\ old = action_of w s /\ actions w' = <[s := stored a]> (actions w)) \/
     (rc = -1 /\ actions w' = actions w /\ refusals w <> [])) /\
    (refusals w = [] -> refusals w' = [] /\ rc = 0).
Proof.
  unfold settable. intros [Hv Hk%negb_true_iff]%andb_true_iff.
  unfold real_sigaction, take_refusal. smstep. rewrite Hv, Hk. cbn.
  destruct (refusals w) as [|[|] rest] eqn:Hr; destruct w; cbn in *; subst;
    unfold mbind, sm_bind; cbn;
    do 3 eexists; (split; [reflexivity|]); (split; [reflexivity|]); cbn; split; eauto 6; try done.
  all: right; done.
Qed.

(** A step of the calling thread that leaves its depth alone, as an internal one. *)
Lemma internally_run {A} (m : SM A) w (a : A) w1 : 0 <= internal_depth w ->
  m (set_internal (internal_depth w + 1) w) = Some (a, w1) -> internal_depth w1 = internal_depth w + 1 ->
  internally m w = Some (a, set_internal (internal_depth w) w1).
Proof.
  intros Hd Hm Hi. unfold internally, peak_signal_policy_enter_internal. smstep. rewrite (bind_some _ _ _ _ _ Hm).
  unfold peak_signal_policy_leave_internal. smstep. rewrite Hi.
  destruct (Z.ltb_spec 0 (internal_depth w + 1)); [|lia]. by replace (internal_depth w + 1 - 1) with (internal_depth w) by lia.
Qed.

Lemma internal_change_spec s a w : settable s = true -> 0 <= internal_depth w ->
  exists rc old w', internally (real_sigaction s (Some a)) w = Some ((rc, old), w') /\ kernel_change w w' /\
    ((rc = 0 /\ actions w' = <[s := stored a]> (actions w)) \/
     (rc = -1 /\ actions w' = actions w /\ refusals w <> [])) /\
    (refusals w = [] -> refusals w' = []).
Proof.
  intros Hs Hd. destruct (change_spec s a (set_internal (internal_depth w + 1) w) Hs) as (rc & old & w' & Hrun & Hk & Hc & Hr).
  exists rc, old, (set_internal (internal_depth w) w'). split.
  { apply internally_run; [done|done|]. unfold kernel_change in Hk. rewrite Hk. done. }
  split.
  { unfold kernel_change in *. rewrite Hk. by destruct w. }
  split; [|intros H; by apply Hr]. destruct Hc as [(-> & _ & Ha)|(-> & Ha & Hne)]; [left|right]; done.
Qed.

Definition protective_action (s : Z) : sigaction_t :=
  mkAction peak_signal_policy_protective_handler (Z.lor SA_SIGINFO SA_RESTART)
    (Z.ldiff (sigaddset sigemptyset s) unblockable).

Lemma install_spec s w : rt_signal s = true -> 0 <= internal_depth w ->
  exists b w', peak_signal_policy_install_protective_handler p s w = Some (b, w') /\ kernel_change w w' /\
    actions w' = (if b : bool then <[s := protective_action s]> (actions w) else actions w) /\
    (b = true -> resolved p "sigaction" = true) /\
    (refusals w = [] -> refusals w' = [] /\ b = resolved p "sigaction").
Proof.
  intros Hs Hd. unfold peak_signal_policy_install_protective_handler.
  destruct (resolved p "sigaction") eqn:Hres; cbn [negb].
  - destruct (internal_change_spec s (mkAction peak_signal_policy_protective_handler (Z.lor SA_SIGINFO SA_RESTART) (sigaddset sigemptyset s))
                w (rt_settable s Hs) Hd) as (rc & old & w' & Hrun & Hk & Hc & Hr).
    rewrite (bind_some _ _ _ _ _ Hrun). destruct Hc as [[-> Ha]|(-> & Ha & Hne)]; cbn.
    + exists true, w'. split; [done|]. split; [done|]. split; [done|]. split; [done|]. auto.
    + exists false, w'. split; [done|]. split; [done|]. split; [done|]. split; [done|]. intros He. by destruct (Hne He).
  - exists false, w. split; [done|]. split; [apply kernel_change_refl|]. done.
Qed.

Lemma restore_spec s w : rt_signal s = true -> 0 <= internal_depth w ->
  exists b w', peak_signal_policy_restore_default_handler p s w = Some (b, w') /\ kernel_change w w' /\
    actions w' = (if b : bool then <[s := default_action]> (actions w) else actions w) /\
    (refusals w = [] -> refusals w' = [] /\ b = resolved p "sigaction").
Proof.
  intros Hs Hd. destruct (rt_valid s Hs) as (_ & _ & _ & Hpos).
  unfold peak_signal_policy_restore_default_handler. destruct (Z.leb_spec s 0); [lia|].
  destruct (resolved p "sigaction") eqn:Hres; cbn [negb].
  - destruct (internal_change_spec s default_action w (rt_settable s Hs) Hd) as (rc & old & w' & Hrun & Hk & Hc & Hr).
    rewrite (bind_some _ _ _ _ _ Hrun). destruct Hc as [[-> Ha]|(-> & Ha & Hne)]; cbn.
    + exists true, w'. split; [done|]. split; [done|]. split; [done|]. auto.
    + exists false, w'. split; [done|]. split; [done|]. split; [done|]. intros He. by destruct (Hne He).
  - exists false, w. split; [done|]. split; [apply kernel_change_refl|]. done.
Qed.

(** Equal but for blocked sets and [errno]. *)
Lemma unblock_spec w : 0 <= internal_depth w ->
  exists rc e m, peak_signal_policy_unblock_reserved_for_current_thread p w = Some (rc, set_errno e (set_masks m w)).
Proof.
  intros Hd. unfold peak_signal_policy_unblock_reserved_for_current_thread. smstep.
  destruct (reserved_signal w <=? 0); [exists 0, (errno w), (masks w); by destruct w|].
  destruct (resolved p "pthread_sigmask"); cbn [negb].
  - unfold internally, peak_signal_policy_enter_internal, real_sigmask, new_mask.
    destruct w as [? ? ? ? ? ? ? ? ? d e]; unfold mbind, sm_bind; cbn in *.
    destruct (Z.ltb_spec 0 (d + 1)); [|lia].
    replace (d + 1 - 1) with d by lia.
    exists 0, e. eexists. reflexivity.
  - exists (-1), ENOSYS, (masks w). by destruct w.
Qed.

(** ** The search *)

Definition unblocked (m : gmap Z sigset) (s : Z) : bool :=
  match proc_tasks p m with None => false | Some entries => tasks_loop p m entries s end.

(** A signal PEAK may move to. *)
Definition free_signal (a : Z -> sigaction_t) (m : gmap Z sigset) (old : Z) (ex : option sigset) (s : Z) : bool :=
  negb (s =? old) && negb (s =? SIGRTMIN) && negb (s =? SIGRTMIN + 1) && negb (excluded ex s) &&
  (resolved p "sigaction" && bool_decide (sa_handler (a s) = SIG_DFL)) && unblocked m s.

Lemma migration_candidate_spec s old ex w : rt_signal s = true -> 0 <= internal_depth w ->
  peak_signal_policy_signal_is_migration_candidate p s old ex w = Some (free_signal (action_of w) (masks w) old ex s, w).
Proof.
  intros Hs Hd. unfold peak_signal_policy_signal_is_migration_candidate, free_signal.
  destruct (negb (s =? old) && negb (s =? SIGRTMIN) && negb (s =? SIGRTMIN + 1) && negb (excluded ex s)); [|done].
  rewrite (bind_some _ _ _ _ _ (available_spec s w Hs Hd)). cbn [andb].
  by destruct (resolved p "sigaction" && bool_decide (sa_handler (action_of w s) = SIG_DFL)).
Qed.

Definition found_signal (a : Z -> sigaction_t) (m : gmap Z sigset) (old : Z) (ex : option sigset) (l : list Z) : Z :=
  default 0 (List.find (free_signal a m old ex) l).

Lemma set_candidate_twice a b w : set_candidate a (set_candidate b w) = set_candidate a w.
Proof. done. Qed.

Lemma candidate_loop_spec l old ex w : Forall (fun s => rt_signal s = true) l -> 0 <= internal_depth w ->
  candidate_loop p l old ex (set_candidate 0 w) =
    Some (found_signal (action_of w) (masks w) old ex l, set_candidate (found_signal (action_of w) (masks w) old ex l) w).
Proof.
  intros Hl Hd. induction Hl as [|s l Hs Hl IH]; [done|].
  cbn [candidate_loop]. smstep. rewrite set_candidate_twice.
  rewrite (bind_some _ _ _ _ _ (migration_candidate_spec s old ex (set_candidate s w) Hs Hd)).
  unfold found_signal. cbn [List.find].
  change (action_of (set_candidate s w)) with (action_of w). change (masks (set_candidate s w)) with (masks w).
  destruct (free_signal (action_of w) (masks w) old ex s); [done|].
  smstep. rewrite set_candidate_twice. exact IH.
Qed.

Lemma rt_signals_rt : Forall (fun s => rt_signal s = true) rt_signals.
Proof. refine (bool_decide_unpack _ _). vm_compute. exact I. Qed.

Lemma find_candidate_spec old ex w : 0 <= internal_depth w -> migration_candidate_signal w = 0 ->
  peak_signal_policy_find_migration_candidate p old ex w =
    Some (found_signal (action_of w) (masks w) old ex rt_signals,
          set_candidate (found_signal (action_of w) (masks w) old ex rt_signals) w).
Proof.
  intros Hd Hc. rewrite <- (candidate_loop_spec rt_signals old ex w rt_signals_rt Hd).
  unfold peak_signal_policy_find_migration_candidate. by destruct w; cbn in *; subst.
Qed.

Lemma found_signal_spec a m old ex :
  let s := found_signal a m old ex rt_signals in
  s = 0 /\ (forall c, In c rt_signals -> free_signal a m old ex c = false) \/
  rt_signal s = true /\ free_signal a m old ex s = true.
Proof.
  unfold found_signal. cbv zeta. destruct (List.find _ rt_signals) as [s|] eqn:Hf.
  - right. apply List.find_some in Hf as [Hin Hf]. cbn [default from_option id]. split; [|exact Hf].
    pose proof rt_signals_rt as HF. rewrite Forall_forall in HF. apply HF. by apply list_elem_of_In.
  - left. split; [done|]. intros c Hin. exact (List.find_none _ _ Hf c Hin).
Qed.

Lemma free_signal_spec a m old ex s : free_signal a m old ex s = true ->
  s <> old /\ excluded ex s = false /\ resolved p "sigaction" = true /\ sa_handler (a s) = SIG_DFL /\ unblocked m s = true.
Proof.
  unfold free_signal. rewrite !andb_true_iff, !negb_true_iff. intros [[[[[H1 H2] H3] H4] [H5 H6]] H7].
  apply Z.eqb_neq in H1. apply bool_decide_eq_true in H6. done.
Qed.

(** ** Waiting *)

(** Equal but for the depth, the clock and the rounds left. *)
Lemma wait_loop_spec start rs w b w' : wait_loop start rs w = Some (b, w') ->
  (exists d c r, w' = set_wait d c r w) /\ (b = true -> migration_disabled_depth w' = 0).
Proof.
  revert w. induction rs as [|r rs IH]; intros w; [discriminate|].
  cbn [wait_loop]. set (w1 := set_wait (depth_seen r) (clock_seen r) rs w).
  destruct (Z.eqb_spec (migration_disabled_depth w1) 0) as [H0|H0].
  { intros [= <- <-]. split; [by do 3 eexists|done]. }
  destruct (clock_seen r) as [now|].
  - destruct (WAIT_TIMEOUT_NS <=? now - start).
    + intros [= <- <-]. split; [by do 3 eexists|]. intros H. discriminate.
    + intros H. destruct (IH _ H) as [(d & c & r' & ->) Hb]. split; [|exact Hb]. by do 3 eexists.
  - intros [= <- <-]. split; [by do 3 eexists|discriminate].
Qed.

Lemma wait_spec w b w' : peak_signal_policy_wait_until_migration_enabled w = Some (b, w') ->
  (exists d c r, w' = set_wait d c r w) /\ (b = true -> migration_disabled_depth w' = 0).
Proof.
  unfold peak_signal_policy_wait_until_migration_enabled.
  destruct (Z.eqb_spec (migration_disabled_depth w) 0) as [H0|H0].
  { intros [= <- <-]. split; [|done]. exists (migration_disabled_depth w), (clock w), (rounds w). by destruct w. }
  destruct (clock w) as [start|] eqn:Hc.
  - apply wait_loop_spec.
  - intros [= <- <-]. split; [|done]. exists (migration_disabled_depth w), (clock w), (rounds w). by destruct w.
Qed.

(** ** Migration *)

(** What one migration does, [old] being the reserved signal. *)
Record migration (ex : option sigset) (w : world) (b : bool) (w' : world) : Prop := mkMigration {
  quiet_after : migration_candidate_signal w' = 0 /\ migration_releasing_signal w' = 0;
  same_depth : internal_depth w' = internal_depth w;
  no_new_refusals : refusals w = [] -> refusals w' = [];
  moved_to : b = true ->
    let s := reserved_signal w' in
    rt_signal s = true /\ free_signal (action_of w) (masks w) (reserved_signal w) ex s = true /\
    actions w' = <[reserved_signal w := default_action]> (<[s := protective_action s]> (actions w));
  stayed : b = false ->
    reserved_signal w' = reserved_signal w /\ masks w' = masks w /\
    action_of w' (reserved_signal w) = action_of w (reserved_signal w) /\
    (refusals w = [] -> actions w' = actions w)
}.

Lemma kc_fields w w' : kernel_change w w' ->
  reserved_signal w' = reserved_signal w /\ migration_candidate_signal w' = migration_candidate_signal w /\
  migration_releasing_signal w' = migration_releasing_signal w /\ internal_depth w' = internal_depth w /\
  masks w' = masks w /\ cookie_base w' = cookie_base w.
Proof. unfold kernel_change. intros ->. done. Qed.

Lemma action_insert_ne (w w' : world) s t a : actions w' = <[s := a]> (actions w) -> s <> t -> action_of w' t = action_of w t.
Proof. intros H Hne. unfold action_of. by rewrite H, lookup_insert_ne. Qed.

Lemma action_same (w w' : world) t : actions w' = actions w -> action_of w' t = action_of w t.
Proof. intros H. unfold action_of. by rewrite H. Qed.

(** The state once a replacement is found and the cookie exists. *)
Lemma migrate_tail ex w r w1 b w' :
  rt_signal (reserved_signal w) = true -> 0 <= internal_depth w ->
  rt_signal r = true -> free_signal (action_of w) (masks w) (reserved_signal w) ex r = true ->
  actions w1 = actions w -> masks w1 = masks w -> reserved_signal w1 = reserved_signal w ->
  internal_depth w1 = internal_depth w -> migration_releasing_signal w1 = 0 -> refusals w1 = refusals w ->
  (installed ← peak_signal_policy_install_protective_handler p r;
   if negb installed then _ ← modify (set_candidate 0); mret false
   else
     _ ← modify (set_releasing (reserved_signal w));
     _ ← modify (set_reserved r);
     restored ← peak_signal_policy_restore_default_handler p (reserved_signal w);
     if negb restored then
       _ ← modify (set_reserved (reserved_signal w));
       _ ← peak_signal_policy_restore_default_handler p r;
       finish_migration false
     else
       _ ← peak_signal_policy_unblock_reserved_for_current_thread p;
       _ ← modify (fun w => set_migrations (to_int (migration_count w + 1)) w);
       finish_migration true) w1 = Some (b, w') ->
  migration ex w b w'.
Proof.
  intros Hold Hd Hr Hfree Ha Hm Hres Hi Hrel Hrf.
  destruct (free_signal_spec _ _ _ _ _ Hfree) as (Hne & _ & Hsym & _ & _).
  destruct (install_spec r w1 Hr) as (b1 & w2 & Hrun & Hk & Hact & Hb & Href); [lia|].
  rewrite (bind_some _ _ _ _ _ Hrun). destruct (kc_fields _ _ Hk) as (K1 & K2 & K3 & K4 & K5 & K6).
  destruct b1; cbn [negb].
  2: { smstep. intros [-> ->]%ret_inv. cbn. split; cbn; try done; try congruence.
       - split; congruence.
       - intros H. apply Href. congruence.
       - intros _. split; [congruence|]. split; [congruence|]. split; [apply action_same; cbn; congruence|congruence]. }
  do 2 smstep.
  destruct (restore_spec (reserved_signal w) (set_reserved r (set_releasing (reserved_signal w) w2)) Hold)
    as (b2 & w3 & Hrun2 & Hk2 & Hact2 & Href2); [cbn; lia|].
  rewrite (bind_some _ _ _ _ _ Hrun2). destruct (kc_fields _ _ Hk2) as (J1 & J2 & J3 & J4 & J5 & J6). cbn in *.
  destruct b2; cbn [negb].
  - destruct (unblock_spec w3) as (rc & e & m & Hub); [lia|]. rewrite (bind_some _ _ _ _ _ Hub). smstep.
    unfold finish_migration. do 2 smstep. intros [-> ->]%ret_inv. cbn. split; cbn; try done; try congruence.
    + intros H. apply Href2, Href. congruence.
    + intros _. rewrite J1. split; [done|]. split; [done|]. rewrite Hact2, Hact, Ha. done.
  - smstep. destruct (restore_spec r (set_reserved (reserved_signal w) w3) Hr)
      as (b3 & w4 & Hrun3 & Hk3 & Hact3 & Href3); [cbn; lia|].
    rewrite (bind_some _ _ _ _ _ Hrun3). destruct (kc_fields _ _ Hk3) as (I1 & I2 & I3 & I4 & I5 & I6). cbn in *.
    unfold finish_migration. do 2 smstep. intros [-> ->]%ret_inv. cbn.
    split; cbn; try done; try congruence.
    + intros H. apply Href3, Href2, Href. congruence.
    + intros _. split; [congruence|]. split; [congruence|]. split.
      * unfold action_of. cbn. rewrite Hact3, Hact2, Hact, Ha.
        destruct b3; by rewrite ?lookup_insert_ne by done.
      * intros H. destruct Href2 as [_ Hf]; [apply Href; congruence|]. congruence.
Qed.

Lemma migrate_spec ex api w b w' :
  rt_signal (reserved_signal w) = true -> 0 <= internal_depth w ->
  migration_candidate_signal w = 0 -> migration_releasing_signal w = 0 ->
  peak_signal_policy_migrate_reserved_signal_locked p (reserved_signal w) ex api w = Some (b, w') ->
  migration ex w b w'.
Proof.
  intros Hrt Hd Hc Hrel. unfold peak_signal_policy_migrate_reserved_signal_locked, peak_signal_policy_record_conflict.
  smstep. set (w0 := set_conflict _ _ w). destruct (rt_valid _ Hrt) as (_ & _ & _ & Hpos).
  assert (Hstay : forall w1, actions w1 = actions w -> masks w1 = masks w -> reserved_signal w1 = reserved_signal w ->
            internal_depth w1 = internal_depth w -> migration_releasing_signal w1 = 0 -> migration_candidate_signal w1 = 0 ->
            refusals w1 = refusals w -> migration ex w false w1).
  { intros w1 A1 A2 A3 A4 A5 A6 A7. split; try done; try congruence. intros _. split; [done|]. split; [done|].
    split; [by apply action_same|congruence]. }
  destruct ((reserved_signal w <=? 0) || peak_signal_policy_env_forces_signal p).
  { intros [-> ->]%ret_inv. by apply Hstay. }
  intros H. apply bind_inv in H as (en & w1 & Hwait & H).
  destruct (wait_spec _ _ _ Hwait) as [(d & c & rr & ->) Hen].
  destruct en; cbn [negb] in H; [|apply ret_inv in H as [-> ->]; by apply Hstay].
  specialize (Hen eq_refl). cbn in Hen. smstep_in H. cbn [reserved_signal set_wait w0 set_conflict] in H.
  rewrite Z.eqb_refl in H. cbn [negb] in H. smstep_in H. cbn [migration_disabled_depth set_wait] in H. subst d. cbn [Z.ltb Z.compare] in H.
  rewrite (bind_some _ _ _ _ _ (find_candidate_spec (reserved_signal w) ex (set_wait 0 c rr w0) Hd Hc)) in H.
  change (action_of (set_wait 0 c rr w0)) with (action_of w) in H. change (masks (set_wait 0 c rr w0)) with (masks w) in H.
  destruct (found_signal_spec (action_of w) (masks w) (reserved_signal w) ex) as [[E _]|[Hr Hfree]].
  { rewrite E in H. cbn [Z.leb Z.compare] in H. smstep_in H. apply ret_inv in H as [-> ->]. by apply Hstay. }
  destruct (rt_valid _ Hr) as (_ & _ & _ & Hp). destruct (Z.leb_spec (found_signal (action_of w) (masks w) (reserved_signal w) ex rt_signals) 0); [lia|].
  unfold peak_signal_policy_init_cookie in H. smstep_in H.
  refine (migrate_tail ex w _ _ b w' Hrt Hd Hr Hfree _ _ _ _ _ _ H); by case_match.
Qed.

(** ** Sets *)

Lemma sigismember_one set s : sigismember set s = 1 <-> valid_signal s = true /\ Z.testbit set (s - 1) = true.
Proof. unfold sigismember. destruct (valid_signal s), (Z.testbit set (s - 1)); split; intros H; try done; by destruct H. Qed.

Lemma sigaddset_member set s t : sigismember (sigaddset set s) t = 1 <->
  (s = t /\ valid_signal t = true) \/ sigismember set t = 1.
Proof.
  rewrite !sigismember_one. unfold sigaddset. destruct (valid_signal s) eqn:Hs.
  - unfold valid_signal, NSIG in *. split.
    + intros [Hv Hb]. destruct (decide (s = t)) as [->|Hne]; [by left|]. right. split; [done|].
      rewrite Z.setbit_neq in Hb by lia. done.
    + intros [[-> Hv]|[Hv Hb]]; (split; [done|]).
      * rewrite Z.setbit_eq; [done|lia].
      * rewrite Z.setbit_eqb by lia. rewrite Hb. by destruct (_ =? _).
  - split; [by right|]. intros [[-> Hv]|H]; [congruence|done].
Qed.

(** A set built by adding the members of a list that satisfy a test. *)
Lemma fold_sigaddset_member {A} (test : A -> bool) (signal : A -> Z) l set t :
  sigismember (foldl (fun set x => if test x then sigaddset set (signal x) else set) set l) t = 1 <->
  sigismember set t = 1 \/ valid_signal t = true /\ exists x, x ∈ l /\ test x = true /\ signal x = t.
Proof.
  revert set. induction l as [|x l IH]; intros set; cbn [foldl].
  - split; [by left|]. intros [H|(_ & x & Hx & _)]; [done|by apply not_elem_of_nil in Hx].
  - rewrite IH. destruct (test x) eqn:Hx.
    + rewrite sigaddset_member. split.
      * intros [[[<- Hv]|H]|(Hv & y & Hy & Hr)]; [|by left|].
        -- right. split; [done|]. exists x. split_and!; [by left|done|done].
        -- right. split; [done|]. exists y. split; [by right|done].
      * intros [H|(Hv & y & Hy & Ht & <-)]; [by left; right|].
        apply elem_of_cons in Hy as [->|Hy]; [by left; left|]. right. eauto.
    + split.
      * intros [H|(Hv & y & Hy & Ht & Hsig)]; [by left|right]. split; [done|]. exists y. split_and!; [by right|done|done].
      * intros [H|(Hv & y & Hy & Ht & Hsig)]; [by left|]. apply elem_of_cons in Hy as [->|Hy]; [congruence|]. right. eauto.
Qed.

Lemma sigismember_empty t : sigismember sigemptyset t = 1 <-> False.
Proof. rewrite sigismember_one. unfold sigemptyset. rewrite Z.testbit_0_l. split; [by intros []|done]. Qed.

Lemma raw_excluded_member set size s : valid_signal s = true ->
  sigismember (peak_signal_policy_build_raw_excluded_set p set size) s = 1 <->
  0 < peak_signal_policy_raw_set_contains_signal p set size s.
Proof.
  intros Hv. unfold peak_signal_policy_build_raw_excluded_set. destruct set.
  { rewrite sigismember_empty. cbn. lia. }
  all: rewrite (fold_sigaddset_member (fun s => 0 <? peak_signal_policy_raw_set_contains_signal p _ size s) (fun s => s)),
         sigismember_empty;
    (split; [intros [[]|(_ & x & Hx & Ht & ->)]; by apply Z.ltb_lt in Ht|]);
    intros H; right; (split; [done|]); exists s; split_and!; [|by apply Z.ltb_lt|done];
    apply elem_of_seqZ; unfold valid_signal, NSIG in *; lia.
Qed.

(** ** Bits of a set in memory *)

Lemma le_value_bound bytes : Forall (fun b => 0 <= b < 256) bytes ->
  0 <= le_value bytes < 2 ^ (8 * Z.of_nat (length bytes)).
Proof.
  induction 1 as [|b bytes Hb _ IH]; cbn [le_value length]; [lia|].
  replace (8 * Z.of_nat (S (length bytes))) with (8 + 8 * Z.of_nat (length bytes)) by lia.
  rewrite Z.pow_add_r by lia. change (2 ^ 8) with 256. lia.
Qed.

Lemma le_value_testbit bytes i : Forall (fun b => 0 <= b < 256) bytes -> 0 <= i ->
  Z.testbit (le_value bytes) i = Z.testbit (char_at bytes (Z.to_nat (i / 8))) (i mod 8).
Proof.
  intros Hb. revert i. induction Hb as [|b bytes Hb _ IH]; intros i Hi; cbn [le_value].
  - unfold char_at. rewrite lookup_nil. cbn. by rewrite !Z.testbit_0_l.
  - assert (Hlow : forall k, 0 <= k < 8 -> Z.testbit (b + 256 * le_value bytes) k = Z.testbit b k).
    { intros k Hk. rewrite <- (Z.mod_pow2_bits_low _ 8 k) by lia. change (2 ^ 8) with 256.
      rewrite (Z.mul_comm 256), Z_mod_plus_full, Z.mod_small by lia. done. }
    destruct (Z_lt_ge_dec i 8) as [Hlt|Hge].
    + rewrite (Z.div_small i 8), (Z.mod_small i 8) by lia. by apply Hlow.
    + assert (Hup : Z.shiftr (b + 256 * le_value bytes) 8 = le_value bytes).
      { rewrite Z.shiftr_div_pow2 by lia. change (2 ^ 8) with 256.
        rewrite (Z.mul_comm 256), Z_div_plus_full, (Z.div_small b 256) by lia. lia. }
      replace (Z.testbit (b + 256 * le_value bytes) i) with (Z.testbit (le_value bytes) (i - 8));
        [|rewrite <- Hup, Z.shiftr_spec by lia; f_equal; lia].
      rewrite IH by lia. replace (i - 8) with (i + -1 * 8) by lia. rewrite Z_mod_plus_full, Z_div_plus_full by lia.
      unfold char_at. replace (Z.to_nat (i / 8)) with (S (Z.to_nat (i / 8 + -1))); [done|].
      assert (1 <= i / 8) by (apply Z.div_le_lower_bound; lia). lia.
Qed.

Lemma land_bit_test b k : 0 <= b < 256 -> 0 <= k < 8 ->
  (Z.land b (wrap 8 (Z.shiftl 1 k)) =? 0) = negb (Z.testbit b k).
Proof.
  intros Hb Hk. rewrite wrap_small; cycle 1.
  { rewrite Z.shiftl_1_l. split; [lia|]. apply Z.pow_lt_mono_r; lia. }
  rewrite Z.shiftl_1_l. destruct (Z.testbit b k) eqn:E; cbn [negb].
  - apply Z.eqb_neq. intros H. assert (Z.testbit (Z.land b (2 ^ k)) k = false) by (by rewrite H, Z.testbit_0_l).
    rewrite Z.land_spec, E, Z.pow2_bits_true in *; [done|lia].
  - apply Z.eqb_eq. apply Z.bits_inj'. intros n Hn. rewrite Z.land_spec, Z.testbit_0_l.
    destruct (decide (n = k)) as [->|Hne]; [by rewrite E|]. rewrite Z.pow2_bits_false by lia. by rewrite andb_false_r.
Qed.

(** The raw test reads the bit of the signal, whatever the size of the set the
    caller gives. *)
Lemma raw_set_bit set size bytes s :
  set <> Null -> 0 < size -> valid_signal s = true ->
  peak_signal_policy_safe_read p set (Z.min size sizeof_sigset) = Some bytes ->
  Forall (fun b => 0 <= b < 256) bytes -> Z.of_nat (length bytes) = Z.min size sizeof_sigset ->
  peak_signal_policy_raw_set_contains_signal p set size s = if Z.testbit (le_value bytes) (s - 1) then 1 else 0.
Proof.
  intros Hset Hsize Hv Hread Hb Hlen. unfold valid_signal, NSIG in Hv.
  assert (0 < s < 65) as Hs by lia.
  unfold peak_signal_policy_raw_set_contains_signal. destruct set; [done| |];
    (destruct (Z.leb_spec s 0); [lia|]); (destruct (Z.eqb_spec (Z.min size sizeof_sigset) 0); [unfold sizeof_sigset in *; lia|]);
    rewrite Hread; (destruct (Z.leb_spec sizeof_sigset size) as [Hbig|Hsmall];
    [unfold sigismember, valid_signal, NSIG;
     destruct (Z.ltb_spec 0 s); [|lia]; destruct (Z.ltb_spec s 65); [|lia]; by destruct (Z.testbit _ _)|]);
    rewrite le_value_testbit by (done || lia);
    pose proof (Z.div_pos (s - 1) 8 ltac:(lia) ltac:(lia)); pose proof (Z.mod_pos_bound (s - 1) 8 ltac:(lia)).
  all: destruct (Z.leb_spec size ((s - 1) / 8)) as [Hout|Hin];
    [unfold char_at; rewrite lookup_ge_None_2 by lia; cbn; by rewrite Z.testbit_0_l|];
    rewrite land_bit_test; [by destruct (Z.testbit _ _)| |lia];
    unfold char_at; destruct (bytes !! Z.to_nat ((s - 1) / 8)) as [b|] eqn:E; cbn;
    [rewrite Forall_forall in Hb; apply Hb; by apply list_elem_of_lookup_2 in E|lia].
Qed.

(** ** The blocked sets in [/proc] *)

Definition hex_digit (d : Z) : Z := if d <? 10 then ch "0" + d else ch "a" + (d - 10).
(** ["%0<n>llx"]. *)
Fixpoint hex_text (n : nat) (v : Z) : cstring :=
  match n with O => [] | S n => hex_text n (v / 16) ++ [hex_digit (v mod 16)] end.

Lemma hex_char_value d : 0 <= d < 16 -> peak_exec_hex_value (hex_digit d) = d.
Proof.
  intros H. assert (Hin : d ∈ seqZ 0 16) by (apply elem_of_seqZ; lia).
  assert (HF : Forall (fun d => peak_exec_hex_value (hex_digit d) = d) (seqZ 0 16)).
  { refine (bool_decide_unpack _ _). vm_compute. exact I. }
  rewrite Forall_forall in HF. by apply HF.
Qed.

Lemma hex_digits_app text rest v : Forall (fun c => 0 <= peak_exec_hex_value c) text ->
  hex_digits (text ++ rest) v = hex_digits rest (foldl (fun v c => 16 * v + peak_exec_hex_value c) v text).
Proof.
  intros H. revert v. induction H as [|c text Hc _ IH]; intros v; [done|].
  cbn [app hex_digits foldl]. destruct (Z.ltb_spec (peak_exec_hex_value c) 0); [lia|]. apply IH.
Qed.

Lemma hex_text_digits n v : Forall (fun c => 0 <= peak_exec_hex_value c) (hex_text n v).
Proof.
  revert v. induction n as [|n IH]; intros v; cbn [hex_text]; [constructor|].
  apply Forall_app. split; [apply IH|]. apply Forall_singleton. pose proof (Z.mod_pos_bound v 16 ltac:(lia)).
  rewrite hex_char_value; lia.
Qed.

Lemma hex_text_value n v : 0 <= v < 16 ^ Z.of_nat n ->
  foldl (fun v c => 16 * v + peak_exec_hex_value c) 0 (hex_text n v) = v.
Proof.
  revert v. induction n as [|n IH]; intros v Hv; cbn [hex_text foldl].
  - change (16 ^ Z.of_nat 0) with 1 in Hv. lia.
  - rewrite foldl_app. cbn [foldl]. pose proof (Z.mod_pos_bound v 16 ltac:(lia)).
    rewrite Nat2Z.inj_succ, Z.pow_succ_r in Hv by lia.
    rewrite IH by (split; [apply Z.div_pos; lia|apply Z.div_lt_upper_bound; lia]).
    rewrite hex_char_value by lia. pose proof (Z.div_mod v 16). lia.
Qed.

Lemma hex_text_length n v : length (hex_text n v) = n.
Proof. revert v. induction n as [|n IH]; intros v; [done|]. cbn [hex_text]. rewrite length_app, IH. cbn. lia. Qed.

(** The sixteen digits the kernel prints are read back as the set. *)
Lemma strtoull16_hex v rest : 0 <= v < 2 ^ 64 -> strtoull16 (hex_text 16 v ++ newline :: rest) = (v, false).
Proof.
  intros Hv. unfold strtoull16.
  assert (Hd : forall c, 0 <= peak_exec_hex_value c -> isspace c = false /\ (c =? ch "-") = false /\ (c =? ch "+") = false /\
            ((c =? ch "x") || (c =? ch "X")) = false).
  { intros c Hc. unfold peak_exec_hex_value in Hc.
    change (ch "0") with 48 in Hc. change (ch "9") with 57 in Hc. change (ch "a") with 97 in Hc. change (ch "f") with 102 in Hc.
    change (ch "A") with 65 in Hc. change (ch "F") with 70 in Hc.
    change (ch "-") with 45. change (ch "+") with 43. change (ch "x") with 120. change (ch "X") with 88.
    assert (48 <= c <= 57 \/ 97 <= c <= 102 \/ 65 <= c <= 70) as Hr by (repeat case_match; lia).
    unfold isspace. repeat split; rewrite ?orb_false_iff, ?andb_false_iff, ?Z.eqb_neq, ?Z.leb_gt; lia. }
  pose proof (hex_text_digits 16 v) as HF. pose proof (hex_text_value 16 v ltac:(done)) as Hval.
  pose proof (hex_text_length 16 v) as Hlen.
  destruct (hex_text 16 v) as [|c1 [|c2 t]]; [done|done|].
  apply Forall_cons in HF as [H1 HF]. apply Forall_cons in HF as [H2 HF].
  destruct (Hd _ H1) as (A1 & A2 & A3 & _). destruct (Hd _ H2) as (_ & _ & _ & A4).
  cbn [app span]. rewrite A1. cbn [snd]. rewrite A2, A3. cbn [fst snd].
  assert (Hp : hex_prefix (c1 :: c2 :: t ++ newline :: rest) = c1 :: c2 :: t ++ newline :: rest).
  { unfold hex_prefix. destruct (t ++ newline :: rest); [done|]. rewrite A4. by rewrite andb_false_r. }
  rewrite Hp. change (c1 :: c2 :: t ++ newline :: rest) with ((c1 :: c2 :: t) ++ newline :: rest).
  rewrite hex_digits_app by (repeat constructor; done). rewrite Hval. cbn [hex_digits].
  change (peak_exec_hex_value newline <? 0) with true. cbn iota.
  unfold ULLONG_MAX, UINT64_MAX. destruct (Z.ltb_spec (2 ^ 64 - 1) v); [lia|done].
Qed.

(** A line of a status file: no other line break, no line [fgets] would cut,
    and not the one that is looked for. *)
Definition other_line (line : cstring) : Prop :=
  (newline ∉ line) /\ (length line < 254)%nat /\ take 7 (line ++ [newline]) <> SigBlk.

Lemma fgets_line line acc rest : newline ∉ line -> (length acc + length line < 254)%nat ->
  fgets_all acc (line ++ newline :: rest) = (acc ++ line ++ [newline]) :: fgets_all [] rest.
Proof.
  revert acc. induction line as [|c line IH]; intros acc Hn Hl; cbn [app fgets_all].
  - rewrite Z.eqb_refl. done.
  - apply not_elem_of_cons in Hn as [Hc Hn]. cbn [length] in Hl.
    destruct (Z.eqb_spec c newline); [by subst|]. cbn [orb]. rewrite length_app. cbn [length].
    destruct (Nat.leb_spec 255 (length acc + 1)); [lia|].
    rewrite IH; [|done|rewrite length_app; cbn; lia]. by rewrite <- app_assoc.
Qed.

Definition status_file (before : list cstring) (mask : sigset) (rest : list Z) : list Z :=
  concat (map (fun line => line ++ [newline]) before) ++ SigBlk ++ [9] ++ hex_text 16 mask ++ newline :: rest.

Lemma sigblk_loop_file before mask rest s : Forall other_line before -> 0 <= mask < 2 ^ 64 -> valid_signal s = true ->
  sigblk_loop (fgets_all [] (status_file before mask rest)) s = if Z.testbit mask (s - 1) then 1 else 0.
Proof.
  intros Hb Hm Hs. unfold status_file. induction Hb as [|line before (Hn & Hl & Ht) _ IH]; cbn [map concat app].
  - pose proof (hex_text_length 16 mask) as Hlen. pose proof (hex_text_digits 16 mask) as Hd.
    change (bytes "SigBlk:") with SigBlk.
    replace (SigBlk ++ 9 :: hex_text 16 mask ++ newline :: rest) with ((SigBlk ++ 9 :: hex_text 16 mask) ++ newline :: rest)
      by (by rewrite <- app_assoc).
    rewrite fgets_line; cycle 1.
    { rewrite elem_of_app, elem_of_cons. intros [H|[H|H]]; [by vm_compute in H; set_solver|done|].
      rewrite Forall_forall in Hd. specialize (Hd _ H). by vm_compute in Hd. }
    { rewrite length_app. cbn [length]. rewrite Hlen. cbn. lia. }
    cbn [app sigblk_loop]. rewrite <- !app_assoc. cbn [app].
    change (take 7 (SigBlk ++ 9 :: hex_text 16 mask ++ [newline])) with SigBlk.
    change (drop 7 (SigBlk ++ 9 :: hex_text 16 mask ++ [newline])) with (9 :: hex_text 16 mask ++ [newline]).
    rewrite bool_decide_true by done. cbn [negb].
    assert (Hspan : (span is_blank (9 :: hex_text 16 mask ++ [newline])).2 = hex_text 16 mask ++ [newline]).
    { cbn [span]. change (is_blank 9) with true. cbn iota. destruct (hex_text 16 mask) as [|c t]; [done|]. cbn [app span].
      apply Forall_cons in Hd as [Hc _].
      destruct (is_blank c) eqn:E; [|done]. exfalso. unfold is_blank in E.
      apply orb_true_iff in E as [E|E]; apply Z.eqb_eq in E; subst c; by vm_compute in Hc. }
    rewrite Hspan, strtoull16_hex by done. unfold valid_signal, NSIG in Hs. cbn [negb andb].
    destruct (Z.ltb_spec 0 s); [|lia]. destruct (Z.leb_spec s 64); [|lia]. cbn [andb].
    rewrite Z.shiftl_1_l. destruct (Z.testbit mask (s - 1)) eqn:E.
    + destruct (Z.eqb_spec (Z.land mask (2 ^ (s - 1))) 0) as [Hz|Hz]; [|done].
      assert (Z.testbit (Z.land mask (2 ^ (s - 1))) (s - 1) = false) as F by (by rewrite Hz, Z.testbit_0_l).
      rewrite Z.land_spec, E, Z.pow2_bits_true in F by lia. done.
    + replace (Z.land mask (2 ^ (s - 1))) with 0; [done|]. symmetry. apply Z.bits_inj'. intros n Hn.
      rewrite Z.land_spec, Z.testbit_0_l. destruct (decide (n = s - 1)) as [->|]; [by rewrite E|].
      rewrite Z.pow2_bits_false by lia. by rewrite andb_false_r.
  - rewrite <- !app_assoc. cbn [app]. rewrite fgets_line by (done || (cbn; lia)). cbn [sigblk_loop app].
    rewrite bool_decide_false by done. exact IH.
Qed.

(** What proc(5) documents of the two files: every thread has an entry with
    its number, and the status of a thread shows its blocked set. *)
Record proc_documented : Prop := mkProc {
  every_thread_listed : forall m entries, proc_tasks p m = Some entries ->
    forall tid mask, m !! tid = Some mask -> 0 < tid < 2 ^ 31 /\
      exists name, name ∈ entries /\ strtol name = Some (tid, false, []);
  blocked_set_shown : forall m tid mask, m !! tid = Some mask -> 0 <= mask < 2 ^ 64 ->
    exists before rest, proc_status p m tid = inr (status_file before mask rest) /\ Forall other_line before
}.

Lemma to_int_id x : 0 <= x < 2 ^ 31 -> to_int x = x.
Proof. intros H. unfold to_int. rewrite wrap_small; lia. Qed.

Lemma unblocked_everywhere m s : proc_documented -> valid_signal s = true ->
  unblocked m s = true -> forall tid mask, m !! tid = Some mask -> 0 <= mask < 2 ^ 64 -> Z.testbit mask (s - 1) = false.
Proof.
  intros Hproc Hs Hu tid mask Hm Hrange. unfold unblocked in Hu.
  destruct (proc_tasks p m) as [entries|] eqn:He; [|done].
  destruct (every_thread_listed Hproc m entries He tid mask Hm) as (Htid & name & Hin & Hname).
  destruct (blocked_set_shown Hproc m tid mask Hm Hrange) as (before & rest & Hfile & Hb). clear He.
  induction entries as [|e entries IH]; [by apply not_elem_of_nil in Hin|].
  cbn [tasks_loop] in Hu. apply elem_of_cons in Hin as [<-|Hin].
  - unfold task_tid in Hu. rewrite Hname in Hu. cbn [orb] in Hu. destruct (Z.leb_spec tid 0); [lia|].
    unfold peak_signal_policy_tid_blocks_signal in Hu. rewrite to_int_id, Hfile in Hu by lia.
    rewrite sigblk_loop_file in Hu by done. by destruct (Z.testbit mask (s - 1)).
  - apply IH; [|done]. destruct (task_tid e) as [t|]; [|done].
    by destruct (peak_signal_policy_tid_blocks_signal p m (to_int t) s =? 0).
Qed.

End Policy.
End PolicyProofs.
