(* ===== verification/SignalCalls.v ===== *)
(** * The wrapped signal calls

    [src/signal_policy.c], second half: the exported wrappers of the C library's
    signal functions and of [syscall], the constructor that reserves a signal
    early, and the part of [src/detach_controller.c] that puts the stop handler
    on the reserved signal.  A wrapper returns the call's result; [sigaction] and
    [signal] also the old action.

    Calls whose effect is outside the state (waits, timers, queues, sending) keep
    only their result; the raw [syscall] of the C library is a parameter that may
    change the state. *)

From Stdlib Require Import ZArith Lia String.
From stdpp Require Import base list gmap strings.
From S2P Require Import Prelude TargetSelector EnvParser ExecMemory ExecEnv SignalPolicy.
Import Policy.
#[local] Open Scope Z_scope.

Module Calls.

Section Calls.
Context (p : process).

(** ** [sigaction] and [signal] *)

Definition query_hidden (signum : Z) : SM bool :=
  internal ← peak_signal_policy_is_internal;
  reserved ← gets reserved_signal;
  transitioning ← peak_signal_policy_signal_is_transitioning signum;
  mret (negb internal && (0 <? signum) && ((signum =? reserved) || transitioning)).

Definition sigaction (signum : Z) (act : option sigaction_t) (wants_old : bool) : SM (Z * sigaction_t) :=
  if negb (resolved p "sigaction") then _ ← modify (set_errno ENOSYS); mret (-1, default_action)
  else if negb (enabled_for_process p) then real_sigaction signum act
  else
    hidden ← query_hidden signum;
    match act with
    | None =>
        if hidden && wants_old then mret (0, default_action) else real_sigaction signum None
    | Some _ =>
        prepared ← peak_signal_policy_prepare_reserved_signal_for_user p signum "sigaction";
        if negb prepared then mret (-1, default_action) else real_sigaction signum act
    end.

(** [None] is [SIG_ERR]. *)
Definition real_signal (signum : Z) (h : option handler) : SM (option handler) :=
  match h with
  | None => _ ← modify (set_errno EINVAL); mret None
  | Some h =>
      r ← real_sigaction signum (Some (mkAction h SA_RESTART (sigaddset sigemptyset signum)));
      mret (if r.1 =? 0 then Some (sa_handler r.2) else None)
  end.

Definition signal (signum : Z) (h : option handler) : SM (option handler) :=
  if negb (resolved p "signal") then _ ← modify (set_errno ENOSYS); mret None
  else if negb (enabled_for_process p) then real_signal signum h
  else
    prepared ← peak_signal_policy_prepare_reserved_signal_for_user p signum "signal";
    if negb prepared then mret None else real_signal signum h.

(** ** The shape of the other wrappers *)

(** A symbol that is not found is [ENOSYS]; a process without a profile is left
    alone; a refused preparation is the call's error. *)
Definition wrapper (fn : string) (unresolved refused : Z) (prepare : SM bool) (real : SM Z) : SM Z :=
  if negb (resolved p fn) then _ ← modify (set_errno ENOSYS); mret unresolved
  else if negb (enabled_for_process p) then real
  else
    prepared ← prepare;
    if negb prepared then mret refused else real.

(** A call whose effect is outside the state. *)
Definition native (fn : string) : SM Z := fun w =>
  let '(rc, e) := outcome p fn w in Some (rc, set_errno e w).

Definition blocks (h : how) : bool := match h with SIG_BLOCK | SIG_SETMASK => true | _ => false end.

Definition pthread_sigmask (h : how) (set : option sigset) : SM Z :=
  wrapper "pthread_sigmask" ENOSYS EINVAL
    (if blocks h then peak_signal_policy_prepare_reserved_set_for_user p set "pthread_sigmask" else mret true)
    (real_sigmask p h set).

Definition real_sigprocmask (h : how) (set : option sigset) : SM Z :=
  rc ← real_sigmask p h set;
  if rc =? 0 then mret 0 else _ ← modify (set_errno rc); mret (-1).

Definition sigprocmask (h : how) (set : option sigset) : SM Z :=
  wrapper "sigprocmask" (-1) (-1)
    (if blocks h then peak_signal_policy_prepare_reserved_set_for_user p set "sigprocmask" else mret true)
    (real_sigprocmask h set).

Definition sigwait (set : option sigset) : SM Z :=
  wrapper "sigwait" ENOSYS EINVAL (peak_signal_policy_prepare_reserved_set_for_user p set "sigwait") (native "sigwait").
Definition sigwaitinfo (set : option sigset) : SM Z :=
  wrapper "sigwaitinfo" (-1) (-1) (peak_signal_policy_prepare_reserved_set_for_user p set "sigwaitinfo") (native "sigwaitinfo").
Definition sigtimedwait (set : option sigset) : SM Z :=
  wrapper "sigtimedwait" (-1) (-1) (peak_signal_policy_prepare_reserved_set_for_user p set "sigtimedwait")
    (native "sigtimedwait").
Definition signalfd (mask : option sigset) : SM Z :=
  wrapper "signalfd" (-1) (-1) (peak_signal_policy_prepare_reserved_set_for_user p mask "signalfd") (native "signalfd").

(** [signalfd4] falls back on the system call. *)
Definition real_signalfd4 : SM Z :=
  if resolved p "signalfd4" then native "signalfd4"
  else if resolved p "syscall" then native "syscall:signalfd4"
  else _ ← modify (set_errno ENOSYS); mret (-1).
Definition signalfd4 (mask : option sigset) : SM Z :=
  if negb (enabled_for_process p) then real_signalfd4
  else
    prepared ← peak_signal_policy_prepare_reserved_set_for_user p mask "signalfd4";
    if negb prepared then mret (-1) else real_signalfd4.

Definition timer_create (evp : source) : SM Z :=
  wrapper "timer_create" (-1) (-1) (peak_signal_policy_prepare_event_for_user p evp "timer_create") (native "timer_create").
Definition mq_notify (sevp : source) : SM Z :=
  wrapper "mq_notify" (-1) (-1) (peak_signal_policy_prepare_event_for_user p sevp "mq_notify") (native "mq_notify").

(** A request that cannot be read is left to the native call. *)
Definition prepare_aio (aiocbp : source) (api : string) : SM bool :=
  match peak_signal_policy_safe_read p aiocbp sizeof_aiocb with
  | None => mret true
  | Some aiocb =>
      peak_signal_policy_prepare_event_for_user p
        (Local (take (Z.to_nat sizeof_sigevent) (drop aio_sigevent_offset aiocb))) api
  end.
Definition aio_read (aiocbp : source) : SM Z :=
  wrapper "aio_read" (-1) (-1) (prepare_aio aiocbp "aio_read") (native "aio_read").
Definition aio_write (aiocbp : source) : SM Z :=
  wrapper "aio_write" (-1) (-1) (prepare_aio aiocbp "aio_write") (native "aio_write").
Definition aio_fsync (aiocbp : source) : SM Z :=
  wrapper "aio_fsync" (-1) (-1) (prepare_aio aiocbp "aio_fsync") (native "aio_fsync").

(** The loop over the entries, from entry [i], [n] of them. *)
Fixpoint lio_loop (list_addr : Z) (excluded_set : sigset) (i n : nat) : SM bool :=
  match n with
  | O => mret true
  | S n =>
      match lio_event p list_addr i with
      | None => lio_loop list_addr excluded_set (S i) n
      | Some event =>
          prepared ← peak_signal_policy_prepare_event_for_user_excluding p event (Some excluded_set) "lio_listio";
          if negb prepared then mret false else lio_loop list_addr excluded_set (S i) n
      end
  end.
Definition prepare_lio (list_addr nent : Z) (sevp : source) : SM bool :=
  let excluded_set := peak_signal_policy_collect_lio_event_signals p list_addr nent sevp in
  prepared ← peak_signal_policy_prepare_event_for_user_excluding p sevp (Some excluded_set) "lio_listio";
  if negb prepared then mret false
  else if list_addr =? 0 then mret true
  else lio_loop list_addr excluded_set 0 (Z.to_nat nent).
Definition lio_listio (list_addr nent : Z) (sevp : source) : SM Z :=
  wrapper "lio_listio" (-1) (-1) (prepare_lio list_addr nent sevp) (native "lio_listio").

Definition kill (sig : Z) : SM Z :=
  wrapper "kill" (-1) (-1) (peak_signal_policy_prepare_reserved_signal_for_user p sig "kill") (native "kill").
Definition pthread_kill (sig : Z) : SM Z :=
  wrapper "pthread_kill" ENOSYS EINVAL (peak_signal_policy_prepare_reserved_signal_for_user p sig "pthread_kill")
    (native "pthread_kill").
Definition sigqueue (sig : Z) : SM Z :=
  wrapper "sigqueue" (-1) (-1) (peak_signal_policy_prepare_reserved_signal_for_user p sig "sigqueue") (native "sigqueue").
Definition raise (sig : Z) : SM Z :=
  wrapper "raise" (-1) (-1) (peak_signal_policy_prepare_reserved_signal_for_user p sig "raise") (native "raise").
Definition sigsuspend (mask : option sigset) : SM Z :=
  wrapper "sigsuspend" (-1) (-1) (peak_signal_policy_prepare_reserved_set_for_user p mask "sigsuspend") (native "sigsuspend").
Definition pselect (sigmask : option sigset) : SM Z :=
  wrapper "pselect" (-1) (-1) (peak_signal_policy_prepare_reserved_set_for_user p sigmask "pselect") (native "pselect").
Definition ppoll (sigmask : option sigset) : SM Z :=
  wrapper "ppoll" (-1) (-1) (peak_signal_policy_prepare_reserved_set_for_user p sigmask "ppoll") (native "ppoll").

(** ** Raw system calls *)

Definition SYS_rt_sigaction : Z := 13.
Definition SYS_rt_sigprocmask : Z := 14.
Definition SYS_kill : Z := 62.
Definition SYS_rt_sigtimedwait : Z := 128.
Definition SYS_rt_sigqueueinfo : Z := 129.
Definition SYS_rt_sigsuspend : Z := 130.
Definition SYS_gettid : Z := 186.
Definition SYS_tkill : Z := 200.
Definition SYS_timer_create : Z := 222.
Definition SYS_tgkill : Z := 234.
Definition SYS_mq_notify : Z := 244.
Definition SYS_pselect6 : Z := 270.
Definition SYS_ppoll : Z := 271.
Definition SYS_signalfd : Z := 282.
Definition SYS_signalfd4 : Z := 289.
Definition SYS_rt_tgsigqueueinfo : Z := 297.
Definition EFAULT : Z := 14.
Definition sizeof_raw_sigaction : Z := 32.

Definition real_syscall (number : Z) (arguments : list Z) : SM Z := fun w =>
  let '(rc, w) := libc_syscall p number arguments w in Some (rc, w).

Definition pointer (a : Z) : source := let a := wrap 64 a in if a =? 0 then Null else User a.
Definition positive_size (a : Z) : Z := if 0 <? a then a else 0.

Definition guarded_syscall (prepare : SM bool) (call : SM Z) : SM Z :=
  prepared ← prepare;
  if negb prepared then mret (-1) else call.

(** [PeakSignalPolicyPselect6Sigmask] in memory: pointer and size. *)
Definition prepare_pselect6 (a6 : Z) : SM bool :=
  match pointer a6 with
  | Null => mret true
  | src =>
      match peak_signal_policy_safe_read p src 16 with
      | None => mret true
      | Some sigmask =>
          peak_signal_policy_prepare_reserved_raw_set_for_user p (pointer (le_value (take 8 sigmask)))
            (le_value (take 8 (drop 8 sigmask))) "syscall:pselect6"
      end
  end.

(** The query of the reserved signal through the raw call: the kernel checks
    the arguments, the application sees the default action. *)
Definition hidden_query (a1 a3 a4 : Z) : SM Z :=
  rc ← real_syscall SYS_rt_sigaction [a1; 0; local_buffer p; a4];
  if negb (rc =? 0) then mret rc
  else if negb (peak_signal_policy_safe_write p (wrap 64 a3) sizeof_raw_sigaction) then
    _ ← modify (set_errno EFAULT); mret (-1)
  else mret 0.

Definition raw_sigaction (a1 a2 a3 a4 : Z) : SM Z :=
  prepared ← if negb (a2 =? 0) then peak_signal_policy_prepare_reserved_signal_for_user p (to_int a1) "syscall:rt_sigaction"
             else mret true;
  if negb prepared then mret (-1)
  else
    hide ← if (a2 =? 0) && negb (a3 =? 0) then peak_signal_policy_should_hide_raw_sigaction_query p (to_int a1) else mret false;
    if hide : bool then hidden_query a1 a3 a4 else real_syscall SYS_rt_sigaction [a1; a2; a3; a4].

(** The dispatcher behind the exported [syscall], for calls that
    [peak_exec_raw_syscall_handle] leaves to it. *)
Definition peak_signal_policy_syscall_dispatch (number a1 a2 a3 a4 a5 a6 : Z) : SM Z :=
  let raw_set set size api := peak_signal_policy_prepare_reserved_raw_set_for_user p (pointer set) (positive_size size) api in
  let send sig api := peak_signal_policy_prepare_reserved_signal_for_user p (to_int sig) api in
  let event evp api := peak_signal_policy_prepare_event_for_user p (pointer evp) api in
  if negb (resolved p "syscall") then _ ← modify (set_errno ENOSYS); mret (-1)
  else if negb (enabled_for_process p) then real_syscall number [a1; a2; a3; a4; a5; a6]
  else if number =? SYS_gettid then real_syscall number []
  else if number =? SYS_rt_sigaction then raw_sigaction a1 a2 a3 a4
  else if number =? SYS_rt_sigprocmask then
    guarded_syscall (if (a1 =? 0) || (a1 =? 2) then raw_set a2 a4 "syscall:rt_sigprocmask" else mret true)
      (real_syscall number [a1; a2; a3; a4])
  else if number =? SYS_rt_sigsuspend then
    guarded_syscall (raw_set a1 a2 "syscall:rt_sigsuspend") (real_syscall number [a1; a2])
  else if number =? SYS_rt_sigtimedwait then
    guarded_syscall (raw_set a1 a4 "syscall:rt_sigtimedwait") (real_syscall number [a1; a2; a3; a4])
  else if number =? SYS_signalfd then
    guarded_syscall (raw_set a2 a3 "syscall:signalfd") (real_syscall number [a1; a2; a3])
  else if number =? SYS_signalfd4 then
    guarded_syscall (raw_set a2 a3 "syscall:signalfd4") (real_syscall number [a1; a2; a3; a4])
  else if number =? SYS_timer_create then
    guarded_syscall (event a2 "syscall:timer_create") (real_syscall number [a1; a2; a3])
  else if number =? SYS_mq_notify then
    guarded_syscall (event a2 "syscall:mq_notify") (real_syscall number [a1; a2])
  else if number =? SYS_kill then guarded_syscall (send a2 "syscall:kill") (real_syscall number [a1; a2])
  else if number =? SYS_tkill then guarded_syscall (send a2 "syscall:tkill") (real_syscall number [a1; a2])
  else if number =? SYS_tgkill then
    guarded_syscall (if negb (to_int a3 =? 0) then send a3 "syscall:tgkill" else mret true) (real_syscall number [a1; a2; a3])
  else if number =? SYS_rt_sigqueueinfo then
    guarded_syscall (send a2 "syscall:rt_sigqueueinfo") (real_syscall number [a1; a2; a3])
  else if number =? SYS_rt_tgsigqueueinfo then
    guarded_syscall (send a3 "syscall:rt_tgsigqueueinfo") (real_syscall number [a1; a2; a3; a4])
  else if number =? SYS_ppoll then
    guarded_syscall (raw_set a4 a5 "syscall:ppoll") (real_syscall number [a1; a2; a3; a4; a5])
  else if number =? SYS_pselect6 then
    guarded_syscall (prepare_pselect6 a6) (real_syscall number [a1; a2; a3; a4; a5; a6])
  else real_syscall number [a1; a2; a3; a4; a5; a6].

(** ** The constructor *)

Definition is_one_of (value : option cstring) (words : list string) : bool :=
  match value with
  | None => false
  | Some v => existsb (fun word => strcasecmp_equal v (bytes word)) words
  end.
Definition is_set (value : option cstring) : bool := match value with None | Some [] => false | _ => true end.

Definition peak_signal_policy_should_reserve_early (supported : bool) : bool :=
  let mode := environment p "PEAK_SAFE_DETACH_MODE" in
  let backend := environment p "PEAK_DETACH_BACKEND" in
  let reserve_early := environment p "PEAK_SIGNAL_RESERVE_EARLY" in
  let chosen := is_set reserve_early && negb (is_one_of reserve_early ["auto"]) in
  if negb supported then false
  else if chosen && is_one_of reserve_early ["always"; "1"; "true"; "yes"] then true
  else if chosen && is_one_of reserve_early ["never"; "0"; "false"; "no"] then false
  else if chosen && is_one_of reserve_early ["forced-only"; "forced"] then peak_signal_policy_env_forces_signal p
  else if is_one_of backend ["signal"; "signals"; "in-process"] then true
  else if is_one_of backend ["helper"; "debugger"; "ptrace"] then false
  else if is_one_of mode ["helper"; "debugger"; "ptrace"] then false
  else if peak_signal_policy_env_forces_signal p then true
  else negb (is_set mode) || is_one_of mode ["strict"; "auto"; "signal"; "signals"; "in-process"].

Definition peak_signal_policy_constructor (supported : bool) : SM unit :=
  if enabled_for_process p && peak_signal_policy_should_reserve_early supported then
    _ ← peak_signal_policy_choose_reserved_signal p;
    _ ← peak_signal_policy_unblock_reserved_for_current_thread p;
    mret tt
  else mret tt.

(** ** The stop handler of the detach controller *)

Definition SIGTRAP : Z := 5.

Record backend := mkBackend {
  signal_backend_initialized : bool;
  signal_backend_signum : Z;
  signal_trap_handler_installed : bool;
  previous_trap_action : sigaction_t;
  signal_breakpoint_supported : bool
}.
Definition no_backend : backend := mkBackend false 0 false default_action false.

Definition stop_action (candidate : Z) : sigaction_t :=
  mkAction peak_detach_controller_signal_handler (Z.lor SA_SIGINFO SA_RESTART) (sigaddset sigemptyset candidate).

Definition peak_detach_controller_install_signal_backend_handler (candidate : Z) : SM bool :=
  r ← internally (sigaction candidate (Some (stop_action candidate)) false);
  if negb (r.1 =? 0) then mret false
  else _ ← peak_signal_policy_unblock_reserved_for_current_thread p; mret true.

Definition peak_detach_controller_install_signal_trap_handler (arch_supported : bool) (candidate : Z) (b : backend)
    : SM (bool * backend) :=
  let b := mkBackend (signal_backend_initialized b) (signal_backend_signum b) (signal_trap_handler_installed b)
             (previous_trap_action b) false in
  q ← if signal_trap_handler_installed b then mret (0, previous_trap_action b)
      else internally (sigaction SIGTRAP None true);
  if negb (q.1 =? 0) then
    mret (false, mkBackend (signal_backend_initialized b) (signal_backend_signum b) false default_action false)
  else
    let b := mkBackend (signal_backend_initialized b) (signal_backend_signum b) (signal_trap_handler_installed b) q.2 false in
    r ← internally (sigaction SIGTRAP
          (Some (mkAction peak_detach_controller_signal_trap_handler (Z.lor SA_SIGINFO SA_RESTART)
                   (sigaddset (sigaddset sigemptyset SIGTRAP) candidate))) false);
    if r.1 =? 0 then
      mret (true, mkBackend (signal_backend_initialized b) (signal_backend_signum b) true (previous_trap_action b) arch_supported)
    else mret (false, b).

Definition set_signum (n : Z) (b : backend) : backend :=
  mkBackend (signal_backend_initialized b) n (signal_trap_handler_installed b) (previous_trap_action b)
    (signal_breakpoint_supported b).

Definition peak_detach_controller_init_signal_backend_once (supported arch_supported : bool) (b : backend) : SM backend :=
  let b := mkBackend true (signal_backend_signum b) (signal_trap_handler_installed b) (previous_trap_action b)
             (signal_breakpoint_supported b) in
  if negb supported then mret (set_signum 0 b)
  else
    candidate ← peak_signal_policy_choose_reserved_signal p;
    if (candidate <=? 0) || (SIGRTMAX <? candidate) then mret (set_signum 0 b)
    else
      installed ← peak_detach_controller_install_signal_backend_handler candidate;
      if negb installed then _ ← peak_signal_policy_clear_reserved_signal p; mret (set_signum 0 b)
      else
        t ← peak_detach_controller_install_signal_trap_handler arch_supported candidate b;
        mret (set_signum candidate t.2).

Definition peak_detach_controller_signal_handler_is_installed (b : backend) : SM bool :=
  if signal_backend_signum b <=? 0 then mret false
  else
    r ← internally (sigaction (signal_backend_signum b) None true);
    mret ((r.1 =? 0) && negb (Z.land (sa_flags r.2) SA_SIGINFO =? 0) &&
          bool_decide (sa_handler r.2 = peak_detach_controller_signal_handler)).

(** The checks before a stop: [TRUE] goes with [PEAK_DETACH_STATUS_SAFE],
    [FALSE] with [PEAK_DETACH_STATUS_UNSUPPORTED].  The texts of the failures are
    left out. *)
Definition peak_detach_controller_ensure_signal_backend (supported arch_supported gate_installed : bool) (b : backend)
    : SM (bool * backend) :=
  b ← if signal_backend_initialized b then mret b
      else peak_detach_controller_init_signal_backend_once supported arch_supported b;
  if signal_backend_signum b =? 0 then mret (false, b)
  else
    reserved_signum ← gets reserved_signal;
    if (reserved_signum <=? 0) || (SIGRTMAX <? reserved_signum) then mret (false, b)
    else
      moved ← if reserved_signum =? signal_backend_signum b then mret (true, b)
              else
                installed ← peak_detach_controller_install_signal_backend_handler reserved_signum;
                if negb installed then mret (false, b)
                else
                  t ← peak_detach_controller_install_signal_trap_handler arch_supported reserved_signum b;
                  mret (true, set_signum reserved_signum t.2);
      if negb moved.1 then mret (false, b)
      else
        handler_installed ← peak_detach_controller_signal_handler_is_installed moved.2;
        unexpected_deliveries ← gets unexpected_delivery_count;
        mret (handler_installed && (unexpected_deliveries =? 0) && gate_installed, moved.2).

End Calls.
End Calls.
