(* ===== verification/SignalLease.v ===== *)
(** * The lease under every call

    The invariant of the reserved signal ([lease]), the guards of the wrappers
    against it, and its preservation by every wrapped call and every operation of
    PEAK. *)

From Stdlib Require Import ZArith Lia String.
From stdpp Require Import base list gmap strings.
From S2P Require Import Prelude TargetSelector EnvParser ExecMemory ExecEnv SignalPolicy SignalPolicyProofs SignalCalls.
Import Policy PolicyProofs Calls.
#[local] Open Scope Z_scope.

Module Lease.

Definition peak_handler (h : handler) : bool :=
  match h with peak_signal_policy_protective_handler | peak_detach_controller_signal_handler => true | _ => false end.

(** The fields the invariant reads. *)
Record same_lease (w w' : world) : Prop := mkSame {
  same_reserved : reserved_signal w' = reserved_signal w;
  same_candidate : migration_candidate_signal w' = migration_candidate_signal w;
  same_releasing : migration_releasing_signal w' = migration_releasing_signal w;
  same_internal : internal_depth w' = internal_depth w;
  same_refusals : refusals w' = refusals w;
  same_actions : actions w' = actions w
}.

(** What [syscall] of the C library may do to the state: it is the kernel's,
    and only [rt_sigaction] with a new action changes a disposition, that of the
    signal it names, to a handler of the application. *)
Record syscall_documented (p : process) : Prop := mkSyscall {
  syscall_kernel_only : forall n args w, let w' := (libc_syscall p n args w).2 in
    w' = set_errno (errno w') (set_masks (masks w') (set_actions (actions w') (refusals w) w));
  syscall_dispositions : forall n args w s, let w' := (libc_syscall p n args w).2 in
    actions w' !! s <> actions w !! s ->
    peak_handler (sa_handler (action_of w' s)) = false /\
    exists a1 a2 rest, n = SYS_rt_sigaction /\ args = a1 :: a2 :: rest /\ a2 <> 0 /\ s = to_int a1
}.

Section Lease.
Context (p : process).
Hypothesis Henabled : enabled_for_process p = true.
Hypothesis Hlock : mutex_lock_rc p = 0.

(** [strict]: no change of a disposition is ever refused; then PEAK's handlers
    are nowhere but on the reserved signal. *)
Context (strict : bool).

Record lease (w : world) : Prop := mkLease {
  lease_internal : internal_depth w = 0;
  lease_candidate : migration_candidate_signal w = 0;
  lease_releasing : migration_releasing_signal w = 0;
  lease_reserved : reserved_signal w = 0 \/
    rt_signal (reserved_signal w) = true /\ resolved p "sigaction" = true /\
    peak_handler (sa_handler (action_of w (reserved_signal w))) = true;
  lease_exclusive : strict = true -> refusals w = [] /\
    forall s, peak_handler (sa_handler (action_of w s)) = true -> 0 < s /\ s = reserved_signal w
}.

Lemma lease_same w w' : same_lease w w' -> lease w -> lease w'.
Proof.
  intros [H1 H2 H3 H4 H5 H6] [L1 L2 L3 L4 L5].
  assert (Ha : forall s, action_of w' s = action_of w s) by (intros s; by apply action_same).
  split; [congruence|congruence|congruence| |].
  - rewrite H1, Ha. done.
  - intros Hs. destruct (L5 Hs) as [R E]. split; [congruence|]. intros s. rewrite H1, Ha. apply E.
Qed.

Ltac by_same := apply lease_same; by constructor.

(** ** A migration of the lease *)

Lemma migrate_lease ex api w b w' : lease w -> 0 < reserved_signal w ->
  migrate_or_EINVAL p (reserved_signal w) ex api w = Some (b, w') ->
  lease w' /\
  (if b then rt_signal (reserved_signal w') = true /\ reserved_signal w' <> reserved_signal w /\ excluded ex (reserved_signal w') = false /\
       actions w' = <[reserved_signal w := default_action]> (<[reserved_signal w' := protective_action (reserved_signal w')]> (actions w)) /\
       sa_handler (action_of w (reserved_signal w')) = SIG_DFL
   else reserved_signal w' = reserved_signal w /\ errno w' = EINVAL /\ (strict = true -> actions w' = actions w)) /\
  (refusals w = [] -> refusals w' = []).
Proof.
  intros [L1 L2 L3 L4 L5] Hpos H. destruct L4 as [L4|(Hrt & Hsym & Hown)]; [lia|].
  unfold migrate_or_EINVAL in H. apply bind_inv in H as (b1 & w1 & Hm & H).
  destruct (migrate_spec p ex api w b1 w1 Hrt ltac:(lia) L2 L3 Hm) as [[Q1 Q2] Hd Hr Hto Hstay].
  destruct b1.
  - apply ret_inv in H as [-> ->]. destruct (Hto eq_refl) as (Hs & Hfree & Ha).
    destruct (free_signal_spec _ _ _ _ _ _ Hfree) as (Hne & Hex & _ & Hdfl & _).
    assert (Hprot : action_of w1 (reserved_signal w1) = protective_action (reserved_signal w1)).
    { unfold action_of. rewrite Ha, lookup_insert_ne, lookup_insert_eq by congruence. done. }
    split; [|split; [done|exact Hr]]. split; try congruence.
    + right. rewrite Hprot. done.
    + intros Hst. destruct (L5 Hst) as [R E]. split; [by apply Hr|]. intros s Hp.
      destruct (decide (s = reserved_signal w1)) as [->|Hn1]; [split; [apply rt_range in Hs; lia|done]|].
      unfold action_of in Hp. rewrite Ha in Hp.
      destruct (decide (s = reserved_signal w)) as [->|Hn2]; [by rewrite lookup_insert_eq in Hp|].
      rewrite !lookup_insert_ne in Hp by congruence. destruct (E _ Hp). done.
  - smstep_in H. apply ret_inv in H as [-> ->]. destruct (Hstay eq_refl) as (A & B & C & D). cbn.
    split; [|split; [split; [done|]; split; [done|]; intros Hst; by apply D, L5|exact Hr]].
    split; cbn; try congruence.
    + right. rewrite A. change (action_of (set_errno EINVAL w1)) with (action_of w1). by rewrite C.
    + intros Hst. destruct (L5 Hst) as [R E]. split; [by apply Hr|]. intros s.
      change (action_of (set_errno EINVAL w1)) with (action_of w1). rewrite A, (action_same w w1 s) by (by apply D). apply E.
Qed.

(** ** Guards *)

(** A guard keeps the lease; when it lets the call through, the reserved signal
    is not one the call claims; when it does not, the call claimed it and nothing
    moved. *)
Definition guards (claims : Z -> Prop) (m : SM bool) : Prop := forall w b w', lease w -> m w = Some (b, w') ->
  lease w' /\
  (if b then ~ claims (reserved_signal w')
   else claims (reserved_signal w) /\ reserved_signal w' = reserved_signal w /\ errno w' = EINVAL /\
        (strict = true -> actions w' = actions w)) /\
  (refusals w = [] -> refusals w' = []).

(** The check under the lock that all guards share. *)
Lemma guards_check (claims : Z -> Prop) (test : Z -> bool) ex api :
  (forall s, claims s -> rt_signal s = true \/ valid_signal s = true) ->
  (forall s, 0 < s -> test s = true -> claims s) ->
  (forall s, 0 < s -> test s = false -> ~ claims s) ->
  (forall s t, 0 < t -> test t = true -> s <> t -> rt_signal s = true -> excluded ex s = false -> ~ claims s) ->
  forall w b w', lease w ->
  (if (reserved_signal w <=? 0) || negb (test (reserved_signal w)) then mret true
   else migrate_or_EINVAL p (reserved_signal w) ex api) w = Some (b, w') ->
  lease w' /\
  (if b then ~ claims (reserved_signal w')
   else claims (reserved_signal w) /\ reserved_signal w' = reserved_signal w /\ errno w' = EINVAL /\
        (strict = true -> actions w' = actions w)) /\
  (refusals w = [] -> refusals w' = []).
Proof.
  intros Hclaims Ht Hf Hex w b w' HL H.
  destruct (Z.leb_spec (reserved_signal w) 0) as [Hle|Hpos]; cbn [orb] in H.
  { apply ret_inv in H as [-> ->]. split; [done|]. split; [|done]. intros Hc.
    destruct (lease_reserved _ HL) as [H0|(Hrt & _)]; [|apply rt_range in Hrt; lia].
    rewrite H0 in Hc. by destruct (Hclaims _ Hc). }
  destruct (test (reserved_signal w)) eqn:Et; cbn [negb] in H.
  - destruct (migrate_lease ex api w b w' HL Hpos H) as (HL' & Hb & Hr). split; [done|]. split; [|done]. destruct b.
    + destruct Hb as (Hrt & Hne & Hx & _). by apply (Hex _ (reserved_signal w)).
    + destruct Hb as (A & B & C). auto.
  - apply ret_inv in H as [-> ->]. split; [done|]. split; [|done]. by apply Hf.
Qed.

Lemma not_internal w : lease w -> (0 <? internal_depth w) = false.
Proof. intros H. rewrite (lease_internal _ H). done. Qed.

Lemma locked_run (body : SM bool) w : locked p body w = body w.
Proof. unfold locked. rewrite Hlock. done. Qed.

Ltac guard_start :=
  let w := fresh "w" in let b := fresh "b" in let w' := fresh "w'" in let HL := fresh "HL" in let H := fresh "H" in
  intros w b w' HL H; unfold peak_signal_policy_is_internal in H; smstep_in H; rewrite ?Henabled, (not_internal _ HL) in H;
  cbn [negb orb] in H; rewrite ?locked_run in H.

Lemma passes (w : world) (claims : Z -> Prop) b w' : lease w -> (forall s, ~ claims s) -> (mret true : SM bool) w = Some (b, w') ->
  lease w' /\
  (if b then ~ claims (reserved_signal w')
   else claims (reserved_signal w) /\ reserved_signal w' = reserved_signal w /\ errno w' = EINVAL /\
        (strict = true -> actions w' = actions w)) /\
  (refusals w = [] -> refusals w' = []).
Proof. intros HL Hc [-> ->]%ret_inv. split; [done|]. split; [apply Hc|done]. Qed.

Definition claims_set (set : option sigset) (s : Z) : Prop :=
  match set with None => False | Some set => sigismember set s = 1 end.

Lemma set_guard set api : guards (claims_set set) (peak_signal_policy_prepare_reserved_set_for_user p set api).
Proof.
  unfold peak_signal_policy_prepare_reserved_set_for_user. guard_start. destruct set as [set|]; [|by eapply passes; eauto].
  rewrite locked_run in H. smstep_in H.
  apply (guards_check (claims_set (Some set)) (fun s => sigismember set s =? 1) (Some set) api) with (w := w); [| | | |done|exact H].
  - intros s Hs. apply sigismember_one in Hs as [Hv _]. by right.
  - intros s _ Hs. by apply Z.eqb_eq.
  - intros s _ Hs Hc. apply Z.eqb_neq in Hs. by destruct Hs.
  - intros s t _ _ _ _ Hx Hc. cbn in Hx, Hc. rewrite Hc in Hx. done.
Qed.

Definition claims_signal (signum s : Z) : Prop := rt_signal s = true /\ s = signum.

Lemma signal_guard signum api : guards (claims_signal signum) (peak_signal_policy_prepare_reserved_signal_for_user p signum api).
Proof.
  unfold peak_signal_policy_prepare_reserved_signal_for_user. guard_start.
  destruct (rt_signal signum) eqn:Hrt; cbn [negb] in H.
  - rewrite locked_run in H. smstep_in H.
    apply (guards_check (claims_signal signum) (fun s => signum =? s) None api) with (w := w); [| | | |done|].
    + intros s [Hs _]. by left.
    + intros s _ ->%Z.eqb_eq. by split.
    + intros s _ Hs%Z.eqb_neq [_ ->]. done.
    + intros s t _ ->%Z.eqb_eq Hne _ _ [_ ->]. done.
    + destruct (Z.eqb_spec signum (reserved_signal w)) as [<-|Hne]; cbn [negb] in *.
      * apply rt_range in Hrt. destruct (Z.leb_spec signum 0); [lia|]. exact H.
      * by destruct (_ <=? 0).
  - eapply passes; [done| |exact H]. intros s [Hs ->]. congruence.
Qed.

Definition claims_raw (set : source) (size s : Z) : Prop :=
  rt_signal s = true /\ 0 < peak_signal_policy_raw_set_contains_signal p set size s.

Lemma rt_is_valid s : rt_signal s = true -> valid_signal s = true.
Proof. intros H%rt_range. unfold valid_signal, NSIG. destruct (Z.ltb_spec 0 s), (Z.ltb_spec s 65); cbn; lia. Qed.

Lemma raw_guard set size api : guards (claims_raw set size) (peak_signal_policy_prepare_reserved_raw_set_for_user p set size api).
Proof.
  assert (Hcheck : forall w b w', lease w ->
    (let contains := if 0 <? reserved_signal w then peak_signal_policy_raw_set_contains_signal p set size (reserved_signal w) else 0 in
     if (reserved_signal w <=? 0) || (contains =? 0) then mret true
     else if contains <? 0 then mret true
     else migrate_or_EINVAL p (reserved_signal w) (Some (peak_signal_policy_build_raw_excluded_set p set size)) api) w = Some (b, w') ->
    lease w' /\
    (if b then ~ claims_raw set size (reserved_signal w')
     else claims_raw set size (reserved_signal w) /\ reserved_signal w' = reserved_signal w /\ errno w' = EINVAL /\
          (strict = true -> actions w' = actions w)) /\
    (refusals w = [] -> refusals w' = [])).
  { intros w b w' HL H. cbv zeta in H.
    apply (guards_check (claims_raw set size)
             (fun s => rt_signal s && (0 <? peak_signal_policy_raw_set_contains_signal p set size s))
             (Some (peak_signal_policy_build_raw_excluded_set p set size)) api) with (w := w); [| | | |done|].
    - intros s [Hs _]. by left.
    - intros s _ [A B%Z.ltb_lt]%andb_true_iff. by split.
    - intros s _ Hs [A B%Z.ltb_lt]. by rewrite A, B in Hs.
    - intros s t _ _ _ Hrt Hx [_ Hc]. cbn in Hx.
      apply (raw_excluded_member p set size s (rt_is_valid s Hrt)) in Hc. by rewrite Hc in Hx.
    - destruct (lease_reserved _ HL) as [H0|(Hrt & _)]; [by rewrite H0 in *|].
      pose proof Hrt as Hr%rt_range. rewrite Hrt. cbn [andb].
      destruct (Z.leb_spec (reserved_signal w) 0); [lia|]. destruct (Z.ltb_spec 0 (reserved_signal w)); [|lia]. cbn [orb] in *.
      set (c := peak_signal_policy_raw_set_contains_signal p set size (reserved_signal w)) in *.
      destruct (Z.ltb_spec 0 c), (Z.eqb_spec c 0), (Z.ltb_spec c 0); try lia; exact H. }
  unfold peak_signal_policy_prepare_reserved_raw_set_for_user. guard_start.
  destruct set; [eapply passes; [done| |exact H]; intros s [_ Hc]; cbn in Hc; lia| |];
    rewrite locked_run in H; smstep_in H; by apply (Hcheck w).
Qed.

(** ** Notifications *)

Definition claims_event (evp : source) (s : Z) : Prop :=
  rt_signal s = true /\ peak_signal_policy_event_signal p evp = Some s.

(** With the excluded set of a whole list: where the lease goes, too. *)
Lemma event_run evp ex api w b w' : lease w ->
  peak_signal_policy_prepare_event_for_user_excluding p evp ex api w = Some (b, w') ->
  lease w' /\
  (if b then (reserved_signal w' = reserved_signal w /\ actions w' = actions w /\ ~ claims_event evp (reserved_signal w') \/
              rt_signal (reserved_signal w') = true /\ excluded ex (reserved_signal w') = false /\ ~ claims_event evp (reserved_signal w'))
   else claims_event evp (reserved_signal w) /\ reserved_signal w' = reserved_signal w /\ errno w' = EINVAL /\
        (strict = true -> actions w' = actions w)) /\
  (refusals w = [] -> refusals w' = []).
Proof.
  intros HL H. unfold peak_signal_policy_prepare_event_for_user_excluding, peak_signal_policy_is_internal in H.
  smstep_in H. rewrite Henabled, (not_internal _ HL) in H. cbn [negb] in H.
  assert (Hpass : (forall s, ~ claims_event evp s) -> (mret true : SM bool) w = Some (b, w') -> lease w' /\
    (if b then (reserved_signal w' = reserved_signal w /\ actions w' = actions w /\ ~ claims_event evp (reserved_signal w') \/
                rt_signal (reserved_signal w') = true /\ excluded ex (reserved_signal w') = false /\ ~ claims_event evp (reserved_signal w'))
     else claims_event evp (reserved_signal w) /\ reserved_signal w' = reserved_signal w /\ errno w' = EINVAL /\
          (strict = true -> actions w' = actions w)) /\ (refusals w = [] -> refusals w' = [])).
  { intros Hc [-> ->]%ret_inv. split; [done|]. split; [left; split_and!; [done|done|apply Hc]|done]. }
  destruct (peak_signal_policy_event_signal p evp) as [signum|] eqn:Hev.
  2: { apply Hpass; [|exact H]. intros s [_ Hc]. congruence. }
  destruct (rt_signal signum) eqn:Hrt; cbn [negb orb] in H.
  2: { apply Hpass; [|exact H]. intros s [Hs Hc]. congruence. }
  rewrite locked_run in H. smstep_in H.
  destruct (Z.eqb_spec signum (reserved_signal w)) as [Heq|Hne]; cbn [negb] in H.
  - assert (Hpos : 0 < reserved_signal w) by (apply rt_range in Hrt; lia). rewrite Heq in H.
    destruct (migrate_lease ex api w b w' HL Hpos H) as (HL' & Hb & Hr). split; [done|]. split; [|done]. destruct b.
    + right. destruct Hb as (A & B & C & _). split; [done|]. split; [done|]. intros [_ Hc]. rewrite Hev in Hc. congruence.
    + destruct Hb as (A & B & C). split; [split; [congruence|rewrite Hev; congruence]|]. auto.
  - apply ret_inv in H as [-> ->]. split; [done|]. split; [|done]. left. split; [done|]. split; [done|].
    intros [_ Hc]. rewrite Hev in Hc. congruence.
Qed.

Lemma event_guard evp api : guards (claims_event evp) (peak_signal_policy_prepare_event_for_user p evp api).
Proof.
  intros w b w' HL H. destruct (event_run evp None api w b w' HL H) as (A & B & C). split; [done|]. split; [|done].
  destruct b; [|done]. by destruct B as [(_ & _ & B)|(_ & _ & B)].
Qed.

(** ** Lists of requests *)

Definition claims_entry (list_addr : Z) (i : nat) (s : Z) : Prop :=
  exists event, lio_event p list_addr i = Some event /\ claims_event event s.

Definition claims_lio (list_addr nent : Z) (sevp : source) (s : Z) : Prop :=
  claims_event sevp s \/ list_addr <> 0 /\ exists i, (i < Z.to_nat nent)%nat /\ claims_entry list_addr i s.

Lemma add_event_member evp set s : rt_signal s = true ->
  sigismember (peak_signal_policy_add_event_signal_to_set p evp set) s = 1 <-> claims_event evp s \/ sigismember set s = 1.
Proof.
  intros Hs. pose proof (rt_is_valid s Hs) as Hv. unfold peak_signal_policy_add_event_signal_to_set, claims_event.
  destruct (peak_signal_policy_event_signal p evp) as [x|]; [|split; [by right|intros [[_ H]|H]; [discriminate|done]]].
  destruct (Z.ltb_spec 0 x).
  - rewrite sigaddset_member. split; [intros [[-> _]|H']; [by left|by right]|]. intros [[_ [= ->]]|H']; [by left|by right].
  - split; [by right|]. intros [[_ [= ->]]|H']; [|done]. apply rt_range in Hs. lia.
Qed.

Lemma collect_member list_addr nent sevp s : rt_signal s = true -> claims_lio list_addr nent sevp s ->
  sigismember (peak_signal_policy_collect_lio_event_signals p list_addr nent sevp) s = 1.
Proof.
  intros Hs Hc. unfold peak_signal_policy_collect_lio_event_signals.
  assert (Hfold : forall l set, sigismember set s = 1 \/ (exists i, i ∈ l /\ claims_entry list_addr i s) ->
    sigismember (foldl (fun set i => match lio_event p list_addr i with
                                     | None => set
                                     | Some event => peak_signal_policy_add_event_signal_to_set p event set
                                     end) set l) s = 1).
  { induction l as [|i l IH]; intros set Hor; cbn [foldl].
    - destruct Hor as [H|(i & Hi & _)]; [done|by apply not_elem_of_nil in Hi].
    - apply IH. destruct Hor as [H|(j & Hj & Hcl)].
      + left. destruct (lio_event p list_addr i); [|done]. apply add_event_member; [done|by right].
      + apply elem_of_cons in Hj as [->|Hj]; [|right; eauto]. left. destruct Hcl as (ev & Hev & Hcl). rewrite Hev.
        apply add_event_member; [done|by left]. }
  destruct Hc as [Hc|(Hl & i & Hi & Hc)].
  - assert (Hin : sigismember (peak_signal_policy_add_event_signal_to_set p sevp sigemptyset) s = 1)
      by (apply add_event_member; [done|by left]).
    destruct ((list_addr =? 0) || (nent <=? 0)); [exact Hin|]. apply Hfold. by left.
  - destruct (Z.eqb_spec list_addr 0); [done|]. destruct (Z.leb_spec nent 0); [lia|]. cbn [orb].
    apply Hfold. right. exists i. split; [|done]. apply elem_of_seq. lia.
Qed.

Lemma lio_loop_run list_addr ex i n w b w' :
  (forall j s, (i <= j < i + n)%nat -> claims_entry list_addr j s -> excluded (Some ex) s = true) ->
  lease w -> lio_loop p list_addr ex i n w = Some (b, w') ->
  lease w' /\
  (if b then (reserved_signal w' = reserved_signal w \/ rt_signal (reserved_signal w') = true /\ excluded (Some ex) (reserved_signal w') = false) /\
             forall j, (i <= j < i + n)%nat -> ~ claims_entry list_addr j (reserved_signal w')
   else (exists j, (i <= j < i + n)%nat /\ claims_entry list_addr j (reserved_signal w)) /\
        reserved_signal w' = reserved_signal w /\ errno w' = EINVAL /\ (strict = true -> actions w' = actions w)) /\
  (refusals w = [] -> refusals w' = []).
Proof.
  revert i w. induction n as [|n IH]; intros i w Hex HL H; cbn [lio_loop] in H.
  { apply ret_inv in H as [-> ->]. split; [done|]. split; [|done]. split; [by left|]. intros j Hj. lia. }
  assert (Hex' : forall j s, (S i <= j < S i + n)%nat -> claims_entry list_addr j s -> excluded (Some ex) s = true)
    by (intros j s Hj; apply Hex; lia).
  destruct (lio_event p list_addr i) as [event|] eqn:Hev.
  2: { destruct (IH _ _ Hex' HL H) as (A & B & C). split; [done|]. split; [|done]. destruct b.
       - destruct B as [B1 B2]. split; [done|]. intros j Hj Hc. destruct (decide (j = i)) as [->|].
         + destruct Hc as (e & He & _). congruence.
         + apply (B2 j); [lia|done].
       - destruct B as ((j & Hj & Hc) & B). split; [|done]. exists j. split; [lia|done]. }
  apply bind_inv in H as (b1 & w1 & H1 & H).
  destruct (event_run _ _ _ _ _ _ HL H1) as (HL1 & Hb1 & Hr1).
  assert (Hi : forall s, claims_event event s -> claims_entry list_addr i s) by (intros s Hs; by exists event).
  destruct b1; cbn [negb] in H.
  2: { apply ret_inv in H as [-> ->]. destruct Hb1 as (A & B). split; [done|]. split; [|done]. split; [|done].
       exists i. split; [lia|auto]. }
  destruct (IH _ _ Hex' HL1 H) as (A & B & C). split; [done|]. split; [|auto]. destruct b.
  - destruct B as [B1 B2]. split.
    + destruct B1 as [B1|B1]; [|by right]. destruct Hb1 as [(E & _)|(R & X & _)]; [left; congruence|right; by rewrite B1].
    + intros j Hj Hc. destruct (decide (j = i)) as [->|]; [|apply (B2 j); [lia|done]].
      destruct Hc as (e & He & Hc). assert (e = event) by congruence. subst e.
      destruct B1 as [B1|[R X]].
      * rewrite B1 in Hc. by destruct Hb1 as [(_ & _ & N)|(_ & _ & N)].
      * rewrite (Hex i _ ltac:(lia) (Hi _ Hc)) in X. done.
  - destruct B as ((j & Hj & Hc) & B1 & B2 & B3).
    destruct Hb1 as [(E & Ea & _)|(R & X & _)].
    + split; [exists j; split; [lia|by rewrite <- E]|]. split; [congruence|]. split; [done|]. intros Hst. rewrite <- Ea. auto.
    + rewrite (Hex' j _ Hj Hc) in X. done.
Qed.

Lemma lio_guard list_addr nent sevp : guards (claims_lio list_addr nent sevp) (prepare_lio p list_addr nent sevp).
Proof.
  intros w b w' HL H. unfold prepare_lio in H.
  set (ex := peak_signal_policy_collect_lio_event_signals p list_addr nent sevp) in *.
  assert (Hin : forall s, rt_signal s = true -> claims_lio list_addr nent sevp s -> excluded (Some ex) s = true).
  { intros s Hs Hc. pose proof (collect_member _ _ _ _ Hs Hc) as M. fold ex in M. cbn. by rewrite M. }
  assert (Hout : forall s, rt_signal s = true -> excluded (Some ex) s = false -> ~ claims_lio list_addr nent sevp s).
  { intros s Hs Hx Hc. rewrite (Hin s Hs Hc) in Hx. done. }
  apply bind_inv in H as (b1 & w1 & H1 & H). destruct (event_run _ _ _ _ _ _ HL H1) as (HL1 & Hb1 & Hr1).
  destruct b1; cbn [negb] in H.
  2: { apply ret_inv in H as [-> ->]. destruct Hb1 as (A & B). split; [done|]. split; [|done]. split; [by left|done]. }
  destruct (Z.eqb_spec list_addr 0) as [Hz|Hnz].
  { apply ret_inv in H as [-> ->]. split; [done|]. split; [|done]. intros [Hc|[Hc _]]; [|done].
    by destruct Hb1 as [(_ & _ & N)|(_ & _ & N)]. }
  assert (Hentry : forall j s, (0 <= j < 0 + Z.to_nat nent)%nat -> claims_entry list_addr j s -> rt_signal s = true /\ claims_lio list_addr nent sevp s).
  { intros j s Hj (e & He & Hc). split; [apply Hc|]. right. split; [done|]. exists j. split; [lia|]. by exists e. }
  destruct (lio_loop_run list_addr ex 0 (Z.to_nat nent) w1 b w') as (A & B & C); [|done|done|].
  { intros j s Hj Hc. destruct (Hentry j s Hj Hc). by apply Hin. }
  split; [done|]. split; [|auto]. destruct b.
  - destruct B as [B1 B2]. intros [Hc|(_ & j & Hj & Hc)]; [|apply (B2 j); [lia|done]].
    destruct B1 as [B1|[R X]]; [|exact (Hout _ R X (or_introl Hc))].
    rewrite B1 in Hc. by destruct Hb1 as [(_ & _ & N)|(_ & _ & N)].
  - destruct B as ((j & Hj & Hc) & B1 & B2 & B3).
    destruct Hb1 as [(E & Ea & _)|(R & X & _)].
    + rewrite E in *. destruct (Hentry j _ Hj Hc) as [_ Hl]. split; [done|]. split; [done|]. split; [done|].
      intros Hst. rewrite <- Ea. auto.
    + destruct (Hentry j _ Hj Hc) as [_ Hl]. by destruct (Hout _ R X).
Qed.

(** ** What is forwarded *)

(** A step that keeps the lease and the reserved signal, from a state where the
    reserved signal is not claimed. *)
Definition harmless {A} (claims : Z -> Prop) (m : SM A) : Prop := forall w a w',
  lease w -> ~ claims (reserved_signal w) -> m w = Some (a, w') -> lease w' /\ reserved_signal w' = reserved_signal w.

Lemma same_lease_harmless {A} claims (m : SM A) :
  (forall w a w', m w = Some (a, w') -> same_lease w w') -> harmless claims m.
Proof. intros H w a w' HL _ Hm. specialize (H _ _ _ Hm). split; [by eapply lease_same|by apply H]. Qed.

Lemma native_harmless claims fn : harmless claims (native p fn).
Proof.
  apply same_lease_harmless. intros w a w'. unfold native. destruct (outcome p fn w). intros [= <- <-]. by constructor.
Qed.

Lemma sigmask_same h set w rc w' : real_sigmask p h set w = Some (rc, w') -> same_lease w w'.
Proof.
  unfold real_sigmask. destruct set as [set|]; [|intros [_ ->]%ret_inv; by constructor].
  smstep. destruct (new_mask h _ set); [smstep|]; intros [_ ->]%ret_inv; by constructor.
Qed.

(** A disposition other than the reserved signal's. *)
Lemma actions_changed w w' s a :
  lease w -> s <> reserved_signal w -> (strict = true -> peak_handler (sa_handler a) = false) -> kernel_change w w' ->
  actions w' = <[s := a]> (actions w) -> (refusals w = [] -> refusals w' = []) ->
  lease w' /\ reserved_signal w' = reserved_signal w.
Proof.
  intros [L1 L2 L3 L4 L5] Hne Hnew Hk Ha Hr. destruct (kc_fields _ _ Hk) as (K1 & K2 & K3 & K4 & K5 & K6).
  split; [|done]. split; try congruence.
  - rewrite K1, (action_insert_ne w w' s _ _ Ha Hne). done.
  - intros Hst. destruct (L5 Hst) as [R E]. split; [by apply Hr|]. intros t Ht. rewrite K1.
    destruct (decide (t = s)) as [->|Hts].
    + unfold action_of in Ht. rewrite Ha, lookup_insert_eq in Ht. cbn in Ht. by rewrite Hnew in Ht.
    + rewrite (action_insert_ne w w' s t _ Ha) in Ht by done. by apply E.
Qed.

Lemma actions_refused w w' : lease w -> kernel_change w w' -> actions w' = actions w -> (refusals w = [] -> refusals w' = []) ->
  lease w' /\ reserved_signal w' = reserved_signal w.
Proof.
  intros [L1 L2 L3 L4 L5] Hk Ha Hr. destruct (kc_fields _ _ Hk) as (K1 & K2 & K3 & K4 & K5 & K6).
  assert (Hact : forall s, action_of w' s = action_of w s) by (intros s; by apply action_same).
  split; [|done]. split; [congruence|congruence|congruence|by rewrite K1, Hact|].
  intros Hst. destruct (L5 Hst) as [R E]. split; [by apply Hr|]. intros s. rewrite K1, Hact. apply E.
Qed.

Lemma unsettable_run s act w r w' : settable s = false -> real_sigaction s act w = Some (r, w') -> same_lease w w'.
Proof.
  unfold settable, real_sigaction. intros Hs. smstep.
  destruct (sigaction_valid s); cbn [negb orb andb] in *.
  - apply negb_false_iff in Hs. rewrite Hs. destruct act; cbn.
    + smstep. intros [_ ->]%ret_inv. by constructor.
    + intros [_ ->]%ret_inv. by constructor.
  - smstep. intros [_ ->]%ret_inv. by constructor.
Qed.

Lemma query_same s w r w' : real_sigaction s None w = Some (r, w') -> same_lease w w'.
Proof.
  unfold real_sigaction. smstep. case_match; [smstep|]; intros [_ ->]%ret_inv; by constructor.
Qed.

Lemma sigaction_harmless s act : (strict = true -> forall a, act = Some a -> peak_handler (sa_handler a) = false) ->
  harmless (claims_signal s) (real_sigaction s act).
Proof.
  intros Hact w r w' HL Hc H. destruct act as [a|].
  2: { pose proof (query_same _ _ _ _ H) as Hs. split; [by eapply lease_same|by apply Hs]. }
  destruct (settable s) eqn:Hset.
  2: { pose proof (unsettable_run _ _ _ _ _ Hset H) as Hs. split; [by eapply lease_same|by apply Hs]. }
  destruct (change_spec s a w Hset) as (rc & old & w1 & Hrun & Hk & Hcase & Hr). rewrite Hrun in H. injection H as <- <-.
  assert (Hr' : refusals w = [] -> refusals w1 = []) by (intros E; by apply Hr).
  assert (Hne : s <> reserved_signal w).
  { intros ->. apply Hc. split; [|done]. destruct (lease_reserved _ HL) as [H0|(Hrt & _)]; [|done].
    rewrite H0 in Hset. done. }
  destruct Hcase as [(-> & _ & Ha)|(-> & Ha & _)].
  - eapply actions_changed; [done|exact Hne| |done|exact Ha|done]. intros Hst. cbn. by apply Hact.
  - by eapply actions_refused.
Qed.

(** ** Wrappers *)

Definition outcome_of (claims : Z -> Prop) (u r : Z) (w : world) (rc : Z) (w' : world) : Prop :=
  lease w' /\
  (claims (reserved_signal w') -> reserved_signal w' = reserved_signal w /\ (strict = true -> actions w' = actions w) /\
     ((rc = u /\ errno w' = ENOSYS) \/ (rc = r /\ errno w' = EINVAL))).

Lemma guarded_run claims u r (prepare : SM bool) (real : SM Z) w rc w' :
  guards claims prepare -> harmless claims real -> lease w ->
  (prepared ← prepare; if negb prepared then mret r else real) w = Some (rc, w') -> outcome_of claims u r w rc w'.
Proof.
  intros Hg Hh HL H. apply bind_inv in H as (b & w1 & H1 & H). destruct (Hg _ _ _ HL H1) as (HL1 & Hb & _).
  destruct b; cbn [negb] in H.
  - destruct (Hh _ _ _ HL1 Hb H) as [HL' Hres]. split; [done|]. rewrite Hres. done.
  - apply ret_inv in H as [-> ->]. destruct Hb as (A & B & C & D). split; [done|]. intros _. auto.
Qed.

Lemma wrapper_run claims fn u r prepare real w rc w' :
  guards claims prepare -> harmless claims real -> lease w ->
  wrapper p fn u r prepare real w = Some (rc, w') -> outcome_of claims u r w rc w'.
Proof.
  intros Hg Hh HL H. unfold wrapper in H. rewrite Henabled in H. destruct (resolved p fn); cbn [negb] in H.
  - by eapply guarded_run.
  - smstep_in H. apply ret_inv in H as [-> ->]. split; [by eapply lease_same; [|done]; constructor|]. cbn. auto.
Qed.

Lemma guards_weaken claims (m : SM bool) (c : bool) :
  guards claims m -> guards (fun s => c = true /\ claims s) (if c then m else mret true).
Proof.
  intros Hg. destruct c.
  - intros w b w' HL H. destruct (Hg w b w' HL H) as (A & B & C). split; [done|]. split; [|done]. destruct b; [|tauto].
    intros [_ Hc]. by apply B.
  - intros w b w' HL [-> ->]%ret_inv. split; [done|]. split; [by intros [Hc _]|done].
Qed.

(** ** Raw system calls *)

Section Raw.
Hypothesis Hsyscall : syscall_documented p.

(** A raw call changes no disposition of the reserved signal unless it is
    [rt_sigaction] with a new action for it. *)
Lemma syscall_harmless n args :
  harmless (fun s => exists a1 a2 rest, n = SYS_rt_sigaction /\ args = a1 :: a2 :: rest /\ a2 <> 0 /\ rt_signal s = true /\ s = to_int a1)
    (real_syscall p n args).
Proof.
  intros w a w' [L1 L2 L3 L4 L5] Hc H. unfold real_syscall in H.
  pose proof (syscall_kernel_only p Hsyscall n args w) as Hk. pose proof (syscall_dispositions p Hsyscall n args w) as Hd.
  cbv zeta in Hk, Hd.
  destruct (libc_syscall p n args w) as [rc w1]. cbn [snd] in *. injection H as <- <-.
  assert (K : reserved_signal w1 = reserved_signal w /\ internal_depth w1 = internal_depth w /\
              migration_candidate_signal w1 = migration_candidate_signal w /\
              migration_releasing_signal w1 = migration_releasing_signal w /\ refusals w1 = refusals w)
    by (rewrite Hk; done).
  destruct K as (K1 & K2 & K3 & K4 & K5). split; [|done]. split; [congruence|congruence|congruence| |].
  - destruct L4 as [L4|(Hrt & Hs & Ho)]; [left; congruence|]. right. rewrite K1. split; [done|]. split; [done|].
    destruct (decide (actions w1 !! reserved_signal w = actions w !! reserved_signal w)) as [E|E].
    + unfold action_of in *. by rewrite E.
    + destruct (Hd _ E) as (_ & a1 & a2 & rest & A & B & C & D). destruct Hc. exists a1, a2, rest. done.
  - intros Hst. destruct (L5 Hst) as [R E]. split; [congruence|]. intros s Hs. rewrite K1. apply E.
    destruct (decide (actions w1 !! s = actions w !! s)) as [Es|Es]; [unfold action_of in *; by rewrite <- Es|].
    destruct (Hd _ Es) as [Hf _]. congruence.
Qed.

Lemma harmless_weaken {A} (c1 c2 : Z -> Prop) (m : SM A) : (forall s, c1 s -> c2 s) -> harmless c1 m -> harmless c2 m.
Proof. intros H Hm w a w' HL Hc. apply Hm; [done|]. intros Hc'. by apply Hc, H. Qed.

Lemma other_syscall_harmless claims n args : n <> SYS_rt_sigaction -> harmless claims (real_syscall p n args).
Proof.
  intros Hn. eapply harmless_weaken; [|apply syscall_harmless]. intros s (a1 & a2 & rest & H & _). done.
Qed.

End Raw.

End Lease.
End Lease.
