(* ===== verification/SignalGuarantees.v ===== *)
(** * What the application and PEAK can count on

    Every wrapped call and every operation of PEAK on the lease, one after the
    other, as a machine ([call], [operation], [run]); the lease is kept by all of
    them, no call reaches the kernel with the reserved signal in it, and
    [sigaction] behaves for the application as if PEAK were not there. *)

From Stdlib Require Import ZArith Lia String.
From stdpp Require Import base list gmap strings.
From S2P Require Import Prelude TargetSelector EnvParser ExecMemory ExecEnv SignalPolicy SignalPolicyProofs SignalCalls SignalLease.
Import Policy PolicyProofs Calls Lease.
#[local] Open Scope Z_scope.

Module Guarantees.

(** ** Calls *)

Inductive call :=
| Sigaction (signum : Z) (act : option sigaction_t) (wants_old : bool)
| Signal (signum : Z) (h : option handler)
| Pthread_sigmask (h : how) (set : option sigset)
| Sigprocmask (h : how) (set : option sigset)
| Sigwait (set : option sigset)
| Sigwaitinfo (set : option sigset)
| Sigtimedwait (set : option sigset)
| Signalfd (mask : option sigset)
| Signalfd4 (mask : option sigset)
| Timer_create (evp : source)
| Mq_notify (sevp : source)
| Aio_read (aiocbp : source)
| Aio_write (aiocbp : source)
| Aio_fsync (aiocbp : source)
| Lio_listio (list_addr nent : Z) (sevp : source)
| Kill (sig : Z)
| Pthread_kill (sig : Z)
| Sigqueue (sig : Z)
| Raise (sig : Z)
| Sigsuspend (mask : option sigset)
| Pselect (sigmask : option sigset)
| Ppoll (sigmask : option sigset)
| Syscall (number a1 a2 a3 a4 a5 a6 : Z).

Section Machine.
Context (p : process).

(** The call's result; -1 is also [SIG_ERR]. *)
Definition run_call (c : call) : SM Z :=
  match c with
  | Sigaction s act wants_old => r ← sigaction p s act wants_old; mret r.1
  | Signal s h => r ← signal p s h; mret (match r with Some _ => 0 | None => -1 end)
  | Pthread_sigmask h set => pthread_sigmask p h set
  | Sigprocmask h set => sigprocmask p h set
  | Sigwait set => sigwait p set
  | Sigwaitinfo set => sigwaitinfo p set
  | Sigtimedwait set => sigtimedwait p set
  | Signalfd mask => signalfd p mask
  | Signalfd4 mask => signalfd4 p mask
  | Timer_create evp => timer_create p evp
  | Mq_notify sevp => mq_notify p sevp
  | Aio_read a => aio_read p a
  | Aio_write a => aio_write p a
  | Aio_fsync a => aio_fsync p a
  | Lio_listio l n e => lio_listio p l n e
  | Kill s => kill p s
  | Pthread_kill s => pthread_kill p s
  | Sigqueue s => sigqueue p s
  | Raise s => raise p s
  | Sigsuspend m => sigsuspend p m
  | Pselect m => pselect p m
  | Ppoll m => ppoll p m
  | Syscall n a1 a2 a3 a4 a5 a6 => peak_signal_policy_syscall_dispatch p n a1 a2 a3 a4 a5 a6
  end.

(** The signals a call takes, blocks, waits for, consumes, generates or sends. *)
Definition claims_aio (aiocbp : source) (s : Z) : Prop :=
  match peak_signal_policy_safe_read p aiocbp sizeof_aiocb with
  | None => False
  | Some aiocb => claims_event p (Local (take (Z.to_nat sizeof_sigevent) (drop aio_sigevent_offset aiocb))) s
  end.

Definition claims_pselect6 (a6 s : Z) : Prop :=
  match pointer a6 with
  | Null => False
  | src =>
      match peak_signal_policy_safe_read p src 16 with
      | None => False
      | Some sigmask => claims_raw p (pointer (le_value (take 8 sigmask))) (le_value (take 8 (drop 8 sigmask))) s
      end
  end.

Definition claims_syscall (number a1 a2 a3 a4 a5 a6 s : Z) : Prop :=
  let raw_set set size := claims_raw p (pointer set) (positive_size size) s in
  if number =? SYS_rt_sigaction then a2 <> 0 /\ claims_signal (to_int a1) s
  else if number =? SYS_rt_sigprocmask then (a1 = 0 \/ a1 = 2) /\ raw_set a2 a4
  else if number =? SYS_rt_sigsuspend then raw_set a1 a2
  else if number =? SYS_rt_sigtimedwait then raw_set a1 a4
  else if (number =? SYS_signalfd) || (number =? SYS_signalfd4) then raw_set a2 a3
  else if (number =? SYS_timer_create) || (number =? SYS_mq_notify) then claims_event p (pointer a2) s
  else if (number =? SYS_kill) || (number =? SYS_tkill) || (number =? SYS_rt_sigqueueinfo) then claims_signal (to_int a2) s
  else if (number =? SYS_tgkill) || (number =? SYS_rt_tgsigqueueinfo) then claims_signal (to_int a3) s
  else if number =? SYS_ppoll then raw_set a4 a5
  else if number =? SYS_pselect6 then claims_pselect6 a6 s
  else False.

Definition claims (c : call) (s : Z) : Prop :=
  match c with
  | Sigaction sig act _ => is_Some act /\ claims_signal sig s
  | Signal sig _ | Kill sig | Pthread_kill sig | Sigqueue sig | Raise sig => claims_signal sig s
  | Pthread_sigmask h set | Sigprocmask h set => blocks h = true /\ claims_set set s
  | Sigwait set | Sigwaitinfo set | Sigtimedwait set | Signalfd set | Signalfd4 set
  | Sigsuspend set | Pselect set | Ppoll set => claims_set set s
  | Timer_create evp | Mq_notify evp => claims_event p evp s
  | Aio_read a | Aio_write a | Aio_fsync a => claims_aio a s
  | Lio_listio l n e => claims_lio p l n e s
  | Syscall n a1 a2 a3 a4 a5 a6 => claims_syscall n a1 a2 a3 a4 a5 a6 s
  end.

(** The application has no address of PEAK's handlers to install. *)
Definition own_handlers (c : call) : Prop :=
  match c with
  | Sigaction _ (Some a) _ => peak_handler (sa_handler a) = false
  | Signal _ (Some h) => peak_handler h = false
  | _ => True
  end.

(** The results of a call that was not passed on. *)
Definition unresolved_result (c : call) : Z :=
  match c with Pthread_sigmask _ _ | Sigwait _ | Pthread_kill _ => ENOSYS | _ => -1 end.
Definition refused_result (c : call) : Z :=
  match c with Pthread_sigmask _ _ | Sigwait _ | Pthread_kill _ => EINVAL | _ => -1 end.

Hypothesis Henabled : enabled_for_process p = true.
Hypothesis Hlock : mutex_lock_rc p = 0.
Hypothesis Hsyscall : syscall_documented p.
Context (strict : bool).
Abbreviation lease := (Lease.lease p strict).
Abbreviation guards := (Lease.guards p strict).
Abbreviation harmless := (Lease.harmless p strict).
Abbreviation outcome_of := (Lease.outcome_of p strict).

Lemma harmless_any {A} (claims : Z -> Prop) (m : SM A) : harmless (fun _ => False) m -> harmless claims m.
Proof. apply harmless_weaken. done. Qed.

Lemma sigmask_harmless claims h set : harmless claims (real_sigmask p h set).
Proof. apply same_lease_harmless. intros w a w'. apply sigmask_same. Qed.

Lemma bind_harmless {A B} claims (m : SM A) (f : A -> SM B) :
  harmless claims m -> (forall a w b w', f a w = Some (b, w') -> same_lease w w') -> harmless claims (m ≫= f).
Proof.
  intros Hm Hf w b w' HL Hc H. apply bind_inv in H as (a & w1 & H1 & H). destruct (Hm _ _ _ HL Hc H1) as [HL1 R1].
  specialize (Hf _ _ _ _ H). split; [by eapply lease_same|]. rewrite (same_reserved _ _ Hf). done.
Qed.

Lemma procmask_harmless claims h set : harmless claims (real_sigprocmask p h set).
Proof.
  apply bind_harmless; [apply sigmask_harmless|]. intros rc w b w'. destruct (rc =? 0); [|smstep]; intros [_ ->]%ret_inv; by constructor.
Qed.

Lemma aio_guard aiocbp api : guards (claims_aio aiocbp) (prepare_aio p aiocbp api).
Proof.
  unfold claims_aio, prepare_aio. destruct (peak_signal_policy_safe_read p aiocbp sizeof_aiocb).
  - by apply event_guard.
  - intros w b w' HL [-> ->]%ret_inv. split; [done|]. split; [by intros []|done].
Qed.

Lemma pselect6_guard a6 : guards (claims_pselect6 a6) (prepare_pselect6 p a6).
Proof.
  unfold claims_pselect6, prepare_pselect6.
  assert (Hpass : guards (fun _ => False) (mret true))
    by (intros w b w' HL [-> ->]%ret_inv; split; [done|]; split; [by intros []|done]).
  destruct (pointer a6); [exact Hpass| |];
    (destruct (peak_signal_policy_safe_read p _ 16); [by apply raw_guard|exact Hpass]).
Qed.

(** ** [sigaction] and [signal] *)

Lemma query_hidden_run s w : exists b, query_hidden s w = Some (b, w).
Proof. unfold query_hidden, peak_signal_policy_is_internal, peak_signal_policy_signal_is_transitioning. eexists. do 3 smstep. reflexivity. Qed.

Lemma sigaction_run s act wants_old w r w' :
  own_handlers (Sigaction s act wants_old) -> lease w -> sigaction p s act wants_old w = Some (r, w') ->
  outcome_of (claims (Sigaction s act wants_old)) (-1) (-1) w r.1 w'.
Proof.
  intros Hown HL H. unfold sigaction in H. rewrite Henabled in H. destruct (resolved p "sigaction"); cbn [negb] in H.
  2: { smstep_in H. apply ret_inv in H as [-> ->]. split; [eapply lease_same; [|done]; by constructor|]. cbn. auto. }
  destruct (query_hidden_run s w) as (hidden & Hq). rewrite (bind_some _ _ _ _ _ Hq) in H.
  destruct act as [a|].
  - apply bind_inv in H as (b & w1 & H1 & H).
    destruct (signal_guard p Henabled Hlock strict s "sigaction" w b w1 HL H1) as (HL1 & Hb & _). destruct b; cbn [negb] in H.
    + destruct (sigaction_harmless p strict s (Some a)) with (w := w1) (a := r) (w' := w') as [HL' Hres]; [|done|done|done|].
      { intros _ a' [= <-]. exact Hown. }
      split; [done|]. cbn. rewrite Hres. by intros [_ Hc].
    + apply ret_inv in H as [-> ->]. destruct Hb as (A & B & C & D). split; [done|]. cbn. auto.
  - destruct (hidden && wants_old).
    + apply ret_inv in H as [-> ->]. split; [done|]. cbn. intros [[? [=]] _].
    + pose proof (query_same _ _ _ _ H) as Hs. split; [by eapply lease_same|]. cbn. intros [[? [=]] _].
Qed.

Lemma signal_run s h w rc w' :
  own_handlers (Signal s h) -> lease w -> run_call (Signal s h) w = Some (rc, w') ->
  outcome_of (claims (Signal s h)) (-1) (-1) w rc w'.
Proof.
  intros Hown HL H. cbn [run_call] in H. apply bind_inv in H as (r & w1 & H & Hr). apply ret_inv in Hr as [-> ->].
  unfold signal in H. rewrite Henabled in H. destruct (resolved p "signal"); cbn [negb] in H.
  2: { smstep_in H. apply ret_inv in H as [-> ->]. split; [eapply lease_same; [|done]; by constructor|]. cbn. auto. }
  apply bind_inv in H as (b & w2 & H1 & H).
  destruct (signal_guard p Henabled Hlock strict s "signal" w b w2 HL H1) as (HL2 & Hb & _). destruct b; cbn [negb] in H.
  2: { apply ret_inv in H as [-> ->]. destruct Hb as (A & B & C & D). split; [done|]. cbn. auto. }
  assert (Hh : lease w1 /\ reserved_signal w1 = reserved_signal w2).
  { unfold real_signal in H. destruct h as [h|].
    - apply bind_inv in H as (r2 & w3 & H & Hr). apply ret_inv in Hr as [-> ->].
      refine (sigaction_harmless p strict s _ _ w2 r2 w3 HL2 Hb H). intros _ a' [= <-]. exact Hown.
    - smstep_in H. apply ret_inv in H as [-> ->]. split; [eapply lease_same; [|done]; by constructor|done]. }
  destruct Hh as [HL1 Hres]. split; [done|]. cbn. rewrite Hres. done.
Qed.

(** ** Raw system calls *)

Lemma guarded_syscall_run claims (prepare : SM bool) (call : SM Z) w rc w' :
  guards claims prepare -> harmless claims call -> lease w ->
  guarded_syscall prepare call w = Some (rc, w') -> outcome_of claims (-1) (-1) w rc w'.
Proof. intros Hg Hh HL H. by eapply guarded_run. Qed.

Lemma plain_syscall_run n args w rc w' : n <> SYS_rt_sigaction -> lease w ->
  real_syscall p n args w = Some (rc, w') -> outcome_of (fun _ => False) (-1) (-1) w rc w'.
Proof.
  intros Hn HL H. destruct (other_syscall_harmless p strict Hsyscall (fun _ => False) n args Hn w rc w' HL (fun f => f) H) as [A _].
  split; [done|by intros []].
Qed.

Lemma raw_sigaction_run a1 a2 a3 a4 w rc w' : lease w -> raw_sigaction p a1 a2 a3 a4 w = Some (rc, w') ->
  outcome_of (fun s => a2 <> 0 /\ claims_signal (to_int a1) s) (-1) (-1) w rc w'.
Proof.
  intros HL H. unfold raw_sigaction in H. apply bind_inv in H as (b & w1 & H1 & H).
  destruct (Z.eqb_spec a2 0) as [->|Hact]; cbn [negb] in H1.
  - apply ret_inv in H1 as [-> ->]. cbn [negb andb] in H. apply bind_inv in H as (hide & w1 & H1 & H).
    assert (w1 = w) as ->.
    { destruct (negb (a3 =? 0)); [|by apply ret_inv in H1 as [_ ->]].
      unfold peak_signal_policy_should_hide_raw_sigaction_query, peak_signal_policy_is_internal,
        peak_signal_policy_signal_is_transitioning in H1.
      smstep_in H1. rewrite Henabled in H1. destruct (0 <? internal_depth w); cbn [negb orb] in H1;
        [|do 2 smstep_in H1]; by apply ret_inv in H1 as [_ ->]. }
    assert (Hq : forall l, harmless (fun _ => False) (real_syscall p SYS_rt_sigaction (a1 :: 0 :: l))).
    { intros l. eapply harmless_weaken; [|by apply syscall_harmless].
      intros s (x1 & x2 & rest & _ & E & Hne & _). simplify_eq; by destruct Hne. }
    assert (Hgoal : lease w'); [|split; [done|by intros [Hc _]]].
    destruct hide; [|by apply (Hq _ _ _ _ HL (fun f => f) H)].
    unfold hidden_query in H. apply bind_inv in H as (rc1 & w1 & H & H2).
    destruct (Hq _ _ _ _ HL (fun f => f) H) as [HL1 _].
    destruct (negb (rc1 =? 0)); [by apply ret_inv in H2 as [_ ->]|].
    destruct (negb (peak_signal_policy_safe_write p (wrap 64 a3) sizeof_raw_sigaction));
      [smstep_in H2|]; apply ret_inv in H2 as [_ ->]; [eapply lease_same; [|done]; by constructor|done].
  - destruct (signal_guard p Henabled Hlock strict _ _ w b w1 HL H1) as (HL1 & Hb & _). destruct b; cbn [negb] in H.
    + cbn [andb] in H. smstep_in H.
      destruct (syscall_harmless p strict Hsyscall SYS_rt_sigaction [a1; a2; a3; a4] w1 rc w') as [HL' Hres]; [done| |done|].
      { intros (x1 & x2 & rest & _ & E & _ & Hrt & Hs). simplify_eq; apply Hb; by split. }
      split; [done|]. rewrite Hres. by intros [_ Hc].
    + apply ret_inv in H as [-> ->]. destruct Hb as (A & B & C & D). split; [done|]. intros _. auto.
Qed.

Lemma outcome_of_iff (c1 c2 : Z -> Prop) u r w rc w' : (forall s, c1 s <-> c2 s) -> outcome_of c1 u r w rc w' -> outcome_of c2 u r w rc w'.
Proof. intros H [A B]. split; [done|]. intros Hc. apply B. by apply H. Qed.

Lemma send_guard sig api : guards (claims_signal (to_int sig))
  (if negb (to_int sig =? 0) then peak_signal_policy_prepare_reserved_signal_for_user p (to_int sig) api else mret true).
Proof.
  destruct (Z.eqb_spec (to_int sig) 0) as [E|E]; cbn [negb]; [|by apply signal_guard].
  intros w b w' HL [-> ->]%ret_inv. split; [done|]. split; [|done]. intros [H H0]. rewrite H0, E in H. done.
Qed.

Ltac guarded H :=
  eapply guarded_syscall_run; [| | |exact H];
  [first [by apply raw_guard | by apply event_guard | by apply send_guard | by apply signal_guard | by apply pselect6_guard]
  |by apply other_syscall_harmless|done].

Lemma syscall_run n a1 a2 a3 a4 a5 a6 w rc w' : lease w ->
  peak_signal_policy_syscall_dispatch p n a1 a2 a3 a4 a5 a6 w = Some (rc, w') ->
  outcome_of (claims_syscall n a1 a2 a3 a4 a5 a6) (-1) (-1) w rc w'.
Proof.
  intros HL H. unfold peak_signal_policy_syscall_dispatch in H. cbv zeta in H. rewrite Henabled in H.
  destruct (resolved p "syscall"); cbn [negb] in H.
  2: { smstep_in H. apply ret_inv in H as [-> ->]. split; [eapply lease_same; [|done]; by constructor|]. cbn. auto. }
  unfold claims_syscall. cbv zeta.
  repeat (match type of H with context [n =? ?k] => destruct (Z.eqb_spec n k) as [->|?]; [cbn [Z.eqb]|] end);
    try (eapply plain_syscall_run; [| |exact H]; done); try (by guarded H).
  - by apply raw_sigaction_run in H.
  - eapply outcome_of_iff; [|refine (guarded_syscall_run _ _ _ w rc w' (guards_weaken p strict _ _ _
      (raw_guard p Henabled Hlock strict (pointer a2) (positive_size a4) _)) _ HL H); by apply other_syscall_harmless].
    intros s. cbv beta. rewrite orb_true_iff, !Z.eqb_eq. done.
Qed.

(** ** Every call *)

Ltac wrapped H :=
  eapply wrapper_run; [| | | |exact H]; [done| | |done];
  [first [by apply set_guard | by apply signal_guard | by apply event_guard | by apply aio_guard | by apply lio_guard
         |by apply guards_weaken, set_guard]
  |first [apply native_harmless | apply sigmask_harmless | apply procmask_harmless]].

Lemma call_run c w rc w' : own_handlers c -> lease w -> run_call c w = Some (rc, w') ->
  outcome_of (claims c) (unresolved_result c) (refused_result c) w rc w'.
Proof.
  intros Hown HL H. destruct c; cbn [run_call] in H;
    try (by wrapped H).
  - apply bind_inv in H as (r & w1 & H & Hr). apply ret_inv in Hr as [-> ->]. by apply sigaction_run.
  - by apply signal_run.
  - unfold signalfd4 in H. rewrite Henabled in H. cbn [negb] in H.
    eapply guarded_run; [by apply set_guard| |done|exact H].
    unfold real_signalfd4. destruct (resolved p "signalfd4"); [apply native_harmless|].
    destruct (resolved p "syscall"); [apply native_harmless|].
    apply same_lease_harmless. intros w1 a w2. smstep. intros [_ ->]%ret_inv. by constructor.
  - by apply syscall_run.
Qed.

(** ** The operations of PEAK *)

Lemma parse_offset_range value prefix base : (peak_signal_policy_parse_signal_offset value prefix base).1 = 1 ->
  rt_signal (peak_signal_policy_parse_signal_offset value prefix base).2 = true.
Proof.
  unfold peak_signal_policy_parse_signal_offset. repeat case_match; try done; cbn; intros _;
    apply rt_range; unfold SIGRTMIN, SIGRTMAX in *; lia.
Qed.

Lemma parse_offset_code value prefix base : (peak_signal_policy_parse_signal_offset value prefix base).1 = 1 \/
  (peak_signal_policy_parse_signal_offset value prefix base).1 <= 0.
Proof. unfold peak_signal_policy_parse_signal_offset. repeat case_match; cbn; lia. Qed.

(** A forced signal is a real-time signal. *)
Lemma forced_range : 0 < configured_signal_parse_result p -> rt_signal (configured_forced_signal p) = true.
Proof.
  unfold configured_signal_parse_result, configured_forced_signal, peak_signal_policy_configure, peak_signal_policy_parse_signal_env.
  set (r1 := fun v => peak_signal_policy_parse_signal_offset v (bytes "SIGRTMIN") SIGRTMIN).
  set (r2 := fun v => peak_signal_policy_parse_signal_offset v (bytes "SIGRTMAX") SIGRTMAX).
  destruct (environment p "PEAK_DETACH_SIGNAL") as [[|c v]|]; [cbn; lia| |cbn; lia].
  destruct (strcasecmp_equal (c :: v) (bytes "auto")); [cbn; lia|].
  change (peak_signal_policy_parse_signal_offset (c :: v) (bytes "SIGRTMIN") SIGRTMIN) with (r1 (c :: v)).
  change (peak_signal_policy_parse_signal_offset (c :: v) (bytes "SIGRTMAX") SIGRTMAX) with (r2 (c :: v)).
  destruct (negb ((r1 (c :: v)).1 =? 0)).
  { intros Hp. apply parse_offset_range. destruct (parse_offset_code (c :: v) (bytes "SIGRTMIN") SIGRTMIN); [done|]. unfold r1 in Hp. lia. }
  destruct (negb ((r2 (c :: v)).1 =? 0)).
  { intros Hp. apply parse_offset_range. destruct (parse_offset_code (c :: v) (bytes "SIGRTMAX") SIGRTMAX); [done|]. unfold r2 in Hp. lia. }
  destruct (strtol (c :: v)) as [[[n o] [|]]|]; cbn; try lia.
  destruct ((n <? SIGRTMIN) || (SIGRTMAX <? n)) eqn:E; cbn; [lia|]. intros _. apply rt_range. unfold SIGRTMIN, SIGRTMAX in *. lia.
Qed.

Lemma depth_nonneg w : lease w -> 0 <= internal_depth w.
Proof. intros HL. rewrite (lease_internal _ _ _ HL). lia. Qed.

Lemma commit_lease s w c w' : lease w -> peak_signal_policy_commit_reserved_signal p s w = Some (c, w') ->
  lease w' /\ (0 < c -> reserved_signal w' = c).
Proof.
  intros HL H. unfold peak_signal_policy_commit_reserved_signal in H. rewrite Hlock in H. cbn [Z.eqb negb] in H.
  destruct (rt_signal s) eqn:Hrt; cbn [negb] in H; [|apply ret_inv in H as [-> ->]; split; [done|lia]].
  smstep_in H. destruct (Z.ltb_spec 0 (reserved_signal w)); [apply ret_inv in H as [-> ->]; by split|].
  unfold peak_signal_policy_init_cookie in H. do 2 smstep_in H.
  set (w1 := set_candidate s _) in H.
  assert (S1 : same_lease w (set_candidate 0 w1)).
  { unfold w1. pose proof (lease_candidate _ _ _ HL). by destruct (cookie_base w =? 0); constructor. }
  assert (Hd : 0 <= internal_depth w1) by (unfold w1; destruct (cookie_base w =? 0); exact (depth_nonneg w HL)).
  rewrite (bind_some _ _ _ _ _ (available_spec p s w1 Hrt Hd)) in H.
  destruct (resolved p "sigaction" && bool_decide (sa_handler (action_of w1 s) = SIG_DFL)) eqn:Hav; cbn [negb] in H.
  2: { smstep_in H. apply ret_inv in H as [-> ->]. split; [by eapply lease_same|lia]. }
  apply andb_true_iff in Hav as [Hsym Hdfl%bool_decide_eq_true].
  destruct (install_spec p s w1 Hrt Hd) as (b & w2 & Hrun & Hk & Hact & _ & Hr).
  rewrite (bind_some _ _ _ _ _ Hrun) in H. destruct (kc_fields _ _ Hk) as (K1 & K2 & K3 & K4 & K5 & K6).
  assert (Hw : reserved_signal w1 = reserved_signal w /\ actions w1 = actions w /\ internal_depth w1 = internal_depth w /\
               migration_releasing_signal w1 = migration_releasing_signal w /\ refusals w1 = refusals w)
    by (unfold w1; by destruct (cookie_base w =? 0)).
  destruct Hw as (W1 & W2 & W3 & W4 & W5). destruct HL as [L1 L2 L3 L4 L5].
  assert (Hzero : reserved_signal w = 0) by (destruct L4 as [|[Hr0%rt_range _]]; [done|lia]).
  destruct b; cbn [negb] in H; do 2 smstep_in H; apply ret_inv in H as [-> ->]; (split; [|done || lia]).
  - split; cbn; try congruence.
    + right. unfold action_of. cbn. rewrite Hact, lookup_insert_eq. done.
    + intros Hst. destruct (L5 Hst) as [R E]. split; [apply Hr; congruence|]. intros t Ht.
      unfold action_of in Ht. cbn in Ht. rewrite Hact in Ht. destruct (decide (t = s)) as [->|Hne]; [apply rt_range in Hrt; split; [lia|done]|].
      rewrite lookup_insert_ne, W2 in Ht by done. destruct (E t Ht). lia.
  - split; cbn; try congruence.
    + by left.
    + intros Hst. destruct (L5 Hst) as [R E]. split; [apply Hr; congruence|]. intros t.
      change (action_of (set_candidate 0 (set_reserved 0 w2)) t) with (action_of w2 t).
      rewrite (action_same w w2 t) by congruence. intros Ht. destruct (E t Ht). lia.
Qed.

Lemma choose_loop_lease l w c w' : Forall (fun s => rt_signal s = true) l -> lease w ->
  choose_loop p l w = Some (c, w') -> lease w' /\ (0 < c -> reserved_signal w' = c).
Proof.
  intros Hl HL. induction Hl as [|s l Hs _ IH]; cbn [choose_loop]; intros H.
  - apply ret_inv in H as [-> ->]. split; [done|lia].
  - destruct ((s =? SIGRTMIN) || (s =? SIGRTMIN + 1)); [by apply IH|].
    rewrite (bind_some _ _ _ _ _ (available_spec p s w Hs (depth_nonneg w HL))) in H.
    destruct (resolved p "sigaction" && bool_decide (sa_handler (action_of w s) = SIG_DFL)); cbn [negb] in H; [|by apply IH].
    by eapply commit_lease.
Qed.

Lemma choose_lease w c w' : lease w -> peak_signal_policy_choose_reserved_signal p w = Some (c, w') ->
  lease w' /\ (0 < c -> reserved_signal w' = c).
Proof.
  intros HL H. unfold peak_signal_policy_choose_reserved_signal in H. smstep_in H.
  destruct (Z.ltb_spec 0 (reserved_signal w)); [apply ret_inv in H as [-> ->]; by split|].
  destruct (Z.ltb_spec 0 (configured_signal_parse_result p)) as [Hf|_].
  - rewrite (bind_some _ _ _ _ _ (available_spec p _ w (forced_range Hf) (depth_nonneg w HL))) in H.
    destruct (resolved p "sigaction" && bool_decide _); [by eapply commit_lease|].
    apply ret_inv in H as [-> ->]. split; [done|lia].
  - destruct (configured_signal_parse_result p <? 0); [apply ret_inv in H as [-> ->]; split; [done|lia]|].
    eapply choose_loop_lease; [apply rt_signals_rt|done|exact H].
Qed.

Lemma clear_lease w a w' : lease w -> peak_signal_policy_clear_reserved_signal p w = Some (a, w') -> lease w'.
Proof.
  intros HL H. pose proof (depth_nonneg w HL) as Hd. destruct HL as [L1 L2 L3 L4 L5].
  unfold peak_signal_policy_clear_reserved_signal in H. do 2 smstep_in H.
  destruct L4 as [L4|(Hrt & Hsym & Hown)].
  - rewrite L4 in H. cbn [Z.leb Z.compare] in H. apply ret_inv in H as [-> ->].
    eapply lease_same; [|by split; [exact L1|exact L2|exact L3|left|exact L5]]. by constructor.
  - destruct (rt_valid _ Hrt) as (_ & _ & _ & Hpos). destruct (Z.leb_spec (reserved_signal w) 0); [lia|].
    destruct (restore_spec p (reserved_signal w) (set_reserved 0 w) Hrt Hd) as (b & w1 & Hrun & Hk & Hact & Hr).
    rewrite (bind_some _ _ _ _ _ Hrun) in H. apply ret_inv in H as [-> ->].
    destruct (kc_fields _ _ Hk) as (K1 & K2 & K3 & K4 & K5 & K6). cbn in *.
    split; [congruence|congruence|congruence|by left|].
    intros Hst. destruct (L5 Hst) as [R E]. destruct (Hr R) as [Hr1 Hb]. split; [done|]. rewrite Hsym in Hb. subst b.
    intros t Ht. exfalso. unfold action_of in Ht. rewrite Hact in Ht.
    destruct (decide (t = reserved_signal w)) as [->|Hne]; [by rewrite lookup_insert_eq in Ht|].
    rewrite lookup_insert_ne in Ht by done. by destruct (E t Ht).
Qed.

Lemma unblock_lease w a w' : lease w -> peak_signal_policy_unblock_reserved_for_current_thread p w = Some (a, w') ->
  lease w' /\ same_lease w w'.
Proof.
  intros HL H. destruct (unblock_spec p w (depth_nonneg w HL)) as (rc & e & m & Hrun). rewrite Hrun in H. injection H as <- <-.
  assert (same_lease w (set_errno e (set_masks m w))) by (by constructor). split; [by eapply lease_same|done].
Qed.

Lemma constructor_lease supported w a w' : lease w -> peak_signal_policy_constructor p supported w = Some (a, w') -> lease w'.
Proof.
  intros HL H. unfold peak_signal_policy_constructor in H.
  destruct (enabled_for_process p && peak_signal_policy_should_reserve_early p supported); [|by apply ret_inv in H as [_ ->]].
  apply bind_inv in H as (c & w1 & H1 & H). apply bind_inv in H as (x & w2 & H2 & H). apply ret_inv in H as [_ ->].
  destruct (choose_lease _ _ _ HL H1) as [HL1 _]. by eapply unblock_lease.
Qed.

(** ** The stop handler *)

Lemma internally_ext {A} (m m' : SM A) w : m (set_internal (internal_depth w + 1) w) = m' (set_internal (internal_depth w + 1) w) ->
  internally m w = internally m' w.
Proof.
  intros H. unfold internally, peak_signal_policy_enter_internal. rewrite !(bind_some (modify _) _ _ _ _ eq_refl).
  unfold mbind at 1 3, sm_bind at 1 3. by rewrite H.
Qed.

(** PEAK's own calls pass. *)
Lemma internal_sigaction s act wants_old w : lease w -> resolved p "sigaction" = true ->
  internally (sigaction p s act wants_old) w = internally (real_sigaction s act) w.
Proof.
  intros HL Hs. apply internally_ext. set (w1 := set_internal _ w).
  assert (Hi : (0 <? internal_depth w1) = true) by (unfold w1; cbn; rewrite (lease_internal _ _ _ HL); done).
  unfold sigaction. rewrite Hs, Henabled. cbn [negb].
  unfold query_hidden, peak_signal_policy_is_internal, peak_signal_policy_signal_is_transitioning.
  erewrite bind_some by (do 3 smstep; reflexivity). rewrite Hi. cbn [negb andb].
  destruct act; [|done].
  unfold peak_signal_policy_prepare_reserved_signal_for_user, peak_signal_policy_is_internal.
  erewrite bind_some by (smstep; rewrite Hi, Henabled; cbn [negb orb]; reflexivity). done.
Qed.

Lemma install_backend_lease w b w' : lease w -> 0 < reserved_signal w ->
  peak_detach_controller_install_signal_backend_handler p (reserved_signal w) w = Some (b, w') ->
  lease w' /\ reserved_signal w' = reserved_signal w.
Proof.
  intros HL Hpos H. pose proof (depth_nonneg w HL) as Hd. destruct (lease_reserved _ _ _ HL) as [|(Hrt & Hsym & Hown)]; [lia|].
  unfold peak_detach_controller_install_signal_backend_handler in H.
  set (s := reserved_signal w) in *.
  destruct (internal_change_spec s (stop_action s) w (rt_settable s Hrt) Hd) as (rc & old & w1 & Hrun & Hk & Hc & Hr).
  rewrite <- (internal_sigaction s _ false w HL Hsym) in Hrun. rewrite (bind_some _ _ _ _ _ Hrun) in H.
  assert (HL1 : lease w1 /\ reserved_signal w1 = reserved_signal w).
  { destruct Hc as [[-> Ha]|(-> & Ha & _)]; [|by eapply actions_refused].
    destruct (kc_fields _ _ Hk) as (K1 & K2 & K3 & K4 & K5 & K6). destruct HL as [L1 L2 L3 L4 L5].
    split; [|done]. split; [congruence|congruence|congruence| |].
    - right. rewrite K1. fold s. unfold action_of. rewrite Ha, lookup_insert_eq. done.
    - intros Hst. destruct (L5 Hst) as [R E]. split; [by apply Hr|]. intros t Ht. rewrite K1.
      destruct (decide (t = s)) as [->|Hne]; [done|]. rewrite (action_insert_ne w w1 s t _ Ha) in Ht by done. by apply E. }
  destruct HL1 as [HL1 R1]. cbn [fst] in H. destruct (negb (rc =? 0)).
  - by apply ret_inv in H as [_ ->].
  - apply bind_inv in H as (x & w2 & H & H'). apply ret_inv in H' as [_ ->]. destruct (unblock_lease _ _ _ HL1 H) as [HL2 S2].
    split; [done|]. rewrite (same_reserved _ _ S2). done.
Qed.

Lemma install_trap_lease arch c bk w r w' : lease w -> resolved p "sigaction" = true ->
  peak_detach_controller_install_signal_trap_handler p arch c bk w = Some (r, w') ->
  lease w' /\ reserved_signal w' = reserved_signal w.
Proof.
  intros HL Hsym H. pose proof (depth_nonneg w HL) as Hd. unfold peak_detach_controller_install_signal_trap_handler in H.
  cbv zeta in H. apply bind_inv in H as (q & w1 & Hq & H). cbn [signal_trap_handler_installed] in Hq.
  assert (w1 = w) as ->.
  { destruct (signal_trap_handler_installed bk); [by apply ret_inv in Hq as [_ ->]|].
    rewrite internal_sigaction in Hq by done.
    assert (Hrun : real_sigaction SIGTRAP None (set_internal (internal_depth w + 1) w) =
              Some ((0, action_of w SIGTRAP), set_internal (internal_depth w + 1) w)) by reflexivity.
    rewrite (internally_run _ w _ _ Hd Hrun eq_refl) in Hq. injection Hq as _ <-. by destruct w. }
  destruct (negb (q.1 =? 0)); [by apply ret_inv in H as [_ ->]|].
  apply bind_inv in H as (r1 & w1 & Hr1 & H).
  assert (w' = w1) as -> by (destruct (r1.1 =? 0); by apply ret_inv in H as [_ ->]).
  rewrite internal_sigaction in Hr1 by done.
  match type of Hr1 with internally (real_sigaction _ (Some ?a)) _ = _ =>
    destruct (internal_change_spec SIGTRAP a w eq_refl Hd) as (rc & old & w2 & Hrun & Hk & Hc & Hr) end.
  rewrite Hrun in Hr1. injection Hr1 as <- <-.
  destruct Hc as [[-> Ha]|(-> & Ha & _)]; [|by eapply actions_refused].
  refine (actions_changed p strict w w2 _ _ HL _ _ Hk Ha Hr); [|done].
  destruct (lease_reserved _ _ _ HL) as [E|[E%rt_range _]]; unfold SIGTRAP; lia.
Qed.

Lemma resolved_of_reserved w : lease w -> 0 < reserved_signal w -> resolved p "sigaction" = true.
Proof. intros HL H. destruct (lease_reserved _ _ _ HL) as [|(_ & Hs & _)]; [lia|done]. Qed.

Lemma init_backend_lease supported arch bk w r w' : lease w ->
  peak_detach_controller_init_signal_backend_once p supported arch bk w = Some (r, w') -> lease w'.
Proof.
  intros HL H. unfold peak_detach_controller_init_signal_backend_once in H. cbv zeta in H.
  destruct supported; cbn [negb] in H; [|by apply ret_inv in H as [_ ->]].
  apply bind_inv in H as (c & w1 & Hc & H). destruct (choose_lease _ _ _ HL Hc) as [HL1 Hres].
  destruct (Z.leb_spec c 0) as [|Hpos]; cbn [orb] in H; [by apply ret_inv in H as [_ ->]|].
  destruct (SIGRTMAX <? c); [by apply ret_inv in H as [_ ->]|]. specialize (Hres Hpos). subst c.
  apply bind_inv in H as (i & w2 & Hi & H). destruct (install_backend_lease _ _ _ HL1 Hpos Hi) as [HL2 R2].
  destruct i; cbn [negb] in H.
  - apply bind_inv in H as (t & w3 & Ht & H). apply ret_inv in H as [_ ->].
    eapply install_trap_lease; [exact HL2| |exact Ht]. by apply (resolved_of_reserved w1).
  - apply bind_inv in H as (t & w3 & Ht & H). apply ret_inv in H as [_ ->]. by eapply clear_lease.
Qed.

Lemma installed_query s w : lease w -> rt_signal s = true -> resolved p "sigaction" = true ->
  internally (sigaction p s None true) w = Some ((0, action_of w s), w).
Proof.
  intros HL Hrt Hs. rewrite internal_sigaction by done.
  rewrite (internally_run _ w _ _ (depth_nonneg w HL) (query_spec s (set_internal (internal_depth w + 1) w) Hrt) eq_refl).
  by destruct w.
Qed.

(** The checks before a stop keep the lease; when they pass, the stop handler is
    on the signal the backend sends, which is the reserved one. *)
Lemma ensure_lease supported arch gate bk w r w' : lease w ->
  peak_detach_controller_ensure_signal_backend p supported arch gate bk w = Some (r, w') ->
  lease w' /\
  (r.1 = true -> rt_signal (reserved_signal w') = true /\ signal_backend_signum r.2 = reserved_signal w' /\
     sa_handler (action_of w' (reserved_signal w')) = peak_detach_controller_signal_handler /\ unexpected_delivery_count w' = 0).
Proof.
  intros HL H. unfold peak_detach_controller_ensure_signal_backend in H. apply bind_inv in H as (b1 & w1 & H1 & H).
  assert (HL1 : lease w1).
  { destruct (signal_backend_initialized bk); [by apply ret_inv in H1 as [_ ->]|by eapply init_backend_lease]. }
  destruct (signal_backend_signum b1 =? 0); [by apply ret_inv in H as [-> ->]|]. smstep_in H.
  destruct (Z.leb_spec (reserved_signal w1) 0) as [|Hpos]; cbn [orb] in H; [by apply ret_inv in H as [-> ->]|].
  destruct (SIGRTMAX <? reserved_signal w1); [by apply ret_inv in H as [-> ->]|].
  apply bind_inv in H as (m & w2 & H2 & H).
  assert (Hm : lease w2 /\ reserved_signal w2 = reserved_signal w1 /\ (m.1 = true -> signal_backend_signum m.2 = reserved_signal w1)).
  { destruct (Z.eqb_spec (reserved_signal w1) (signal_backend_signum b1)); [by apply ret_inv in H2 as [-> ->]|].
    apply bind_inv in H2 as (i & w3 & H3 & H2). destruct (install_backend_lease _ _ _ HL1 Hpos H3) as [HL3 R3].
    destruct i; cbn [negb] in H2; [|by apply ret_inv in H2 as [-> ->]].
    apply bind_inv in H2 as (t & w4 & H4 & H2). apply ret_inv in H2 as [-> ->].
    destruct (install_trap_lease _ _ _ _ _ _ HL3 (resolved_of_reserved w1 HL1 Hpos) H4) as [HL4 R4].
    split; [done|]. split; [congruence|done]. }
  destruct Hm as (HL2 & R2 & Hsig). destruct m as [[|] bk2]; cbn [fst snd negb] in *; [|by apply ret_inv in H as [-> ->]].
  specialize (Hsig eq_refl). unfold peak_detach_controller_signal_handler_is_installed in H. rewrite Hsig in H.
  destruct (Z.leb_spec (reserved_signal w1) 0); [lia|].
  destruct (lease_reserved _ _ _ HL1) as [|(Hrt & Hsym & _)]; [lia|].
  rewrite (bind_some _ _ _ _ _ (bind_some _ _ _ _ _ (installed_query _ _ HL2 Hrt Hsym))) in H.
  cbn [fst snd] in H. smstep_in H. apply ret_inv in H as [-> ->]. split; [done|]. cbn [fst snd].
  rewrite !andb_true_iff. intros [[[_ Hh%bool_decide_eq_true] Hun%Z.eqb_eq] _]. rewrite R2. done.
Qed.

(** ** The machine *)

Inductive operation :=
| Call (c : call)
| Choose
| SetReserved (signum : Z)
| ClearReserved
| PushMigrationDisabled
| PopMigrationDisabled
| UnexpectedDelivery
| Constructor (supported : bool)
| EnsureBackend (supported arch gate : bool).

Definition run_operation (o : operation) (b : backend) : SM backend :=
  match o with
  | Call c => _ ← run_call c; mret b
  | Choose => _ ← peak_signal_policy_choose_reserved_signal p; mret b
  | SetReserved s => _ ← peak_signal_policy_set_reserved_signal p s; mret b
  | ClearReserved => _ ← peak_signal_policy_clear_reserved_signal p; mret b
  | PushMigrationDisabled => _ ← peak_signal_policy_push_migration_disabled; mret b
  | PopMigrationDisabled => _ ← peak_signal_policy_pop_migration_disabled; mret b
  | UnexpectedDelivery => _ ← peak_signal_policy_note_unexpected_delivery; mret b
  | Constructor supported => _ ← peak_signal_policy_constructor p supported; mret b
  | EnsureBackend supported arch gate => r ← peak_detach_controller_ensure_signal_backend p supported arch gate b; mret r.2
  end.

Fixpoint run (os : list operation) (b : backend) : SM backend :=
  match os with
  | [] => mret b
  | o :: os => b ← run_operation o b; run os b
  end.

Definition own_operation (o : operation) : Prop := match o with Call c => own_handlers c | _ => True end.

Lemma operation_lease o b w b' w' : own_operation o -> lease w -> run_operation o b w = Some (b', w') -> lease w'.
Proof.
  intros Hown HL H. destruct o; cbn [run_operation] in H; apply bind_inv in H as (x & w1 & H & H');
    apply ret_inv in H' as [_ ->].
  - by eapply call_run.
  - by eapply choose_lease.
  - unfold peak_signal_policy_set_reserved_signal in H. destruct (0 <? signum); [|by apply ret_inv in H as [_ ->]].
    apply bind_inv in H as (y & w2 & H & H'). apply ret_inv in H' as [_ ->]. by eapply commit_lease.
  - by eapply clear_lease.
  - injection H as _ <-. eapply lease_same; [|done]. by constructor.
  - injection H as _ <-. destruct (0 <? migration_disabled_depth w); [|done]. eapply lease_same; [|done]. by constructor.
  - injection H as _ <-. eapply lease_same; [|done]. by constructor.
  - by eapply constructor_lease.
  - by eapply ensure_lease.
Qed.

Lemma run_lease os b w b' w' : Forall own_operation os -> lease w -> run os b w = Some (b', w') -> lease w'.
Proof.
  intros Hos. revert b w. induction Hos as [|o os Ho _ IH]; intros b w HL H; cbn [run] in H.
  - by apply ret_inv in H as [_ ->].
  - apply bind_inv in H as (b1 & w1 & H1 & H). eapply IH; [|exact H]. by eapply operation_lease.
Qed.

End Machine.
End Guarantees.
