(* ===== verification/SignalTheorems.v ===== *)
(** * Theorems about the reserved signal

    Where a migration goes, and who accepts PEAK's packets. *)

From Stdlib Require Import ZArith Lia String.
From stdpp Require Import base list gmap strings.
From S2P Require Import Prelude TargetSelector EnvParser ExecMemory ExecEnv SignalPolicy SignalPolicyProofs SignalCalls SignalLease SignalGuarantees.
Import Policy PolicyProofs Calls Lease Guarantees.
#[local] Open Scope Z_scope.

(** ** Cookies *)

Definition COOKIE_FACTOR : Z := 0x45d9f3b.
(** Its inverse modulo [2 ^ 32]: the factor is odd. *)
Definition COOKIE_INVERSE : Z := 0x119de1f3.

Lemma factor_inverse : (COOKIE_FACTOR * COOKIE_INVERSE) mod 2 ^ 32 = 1.
Proof. reflexivity. Qed.

Lemma factor_injective a b : 0 <= a < 2 ^ 32 -> 0 <= b < 2 ^ 32 ->
  (a * COOKIE_FACTOR) mod 2 ^ 32 = (b * COOKIE_FACTOR) mod 2 ^ 32 -> a = b.
Proof.
  intros Ha Hb H.
  assert (Hinv : forall x, 0 <= x < 2 ^ 32 -> (x * COOKIE_FACTOR) mod 2 ^ 32 * COOKIE_INVERSE mod 2 ^ 32 = x).
  { intros x Hx. rewrite Zmult_mod_idemp_l, <- Z.mul_assoc, <- Zmult_mod_idemp_r, factor_inverse, Z.mul_1_r. by apply Z.mod_small. }
  rewrite <- (Hinv a Ha), <- (Hinv b Hb). by rewrite H.
Qed.

Lemma low_bits_of_lxor_shift e v : 0 <= e -> Z.lxor (Z.shiftl e 32) v mod 2 ^ 32 = v mod 2 ^ 32.
Proof.
  intros He. apply Z.bits_inj'. intros n Hn. destruct (Z_lt_ge_dec n 32) as [Hlt|Hge].
  - rewrite !Z.mod_pow2_bits_low by lia. rewrite Z.lxor_spec, Z.shiftl_spec_low by lia. by destruct (Z.testbit v n).
  - by rewrite !Z.mod_pow2_bits_high by lia.
Qed.

Lemma lxor_cancel_l a b c : Z.lxor a b = Z.lxor a c -> b = c.
Proof.
  intros H. apply (f_equal (Z.lxor a)) in H. by rewrite <- !Z.lxor_assoc, Z.lxor_nilpotent, !Z.lxor_0_l in H.
Qed.

Lemma cookie_injective base e1 t1 e2 t2 :
  peak_signal_policy_cookie_from_base base e1 t1 = peak_signal_policy_cookie_from_base base e2 t2 ->
  wrap 32 e1 = wrap 32 e2 /\ wrap 32 t1 = wrap 32 t2.
Proof.
  unfold peak_signal_policy_cookie_from_base. cbv zeta. rewrite !Z.lxor_assoc. intros H%lxor_cancel_l.
  pose proof (wrap_range 32 e1 ltac:(lia)). pose proof (wrap_range 32 e2 ltac:(lia)).
  pose proof (wrap_range 32 t1 ltac:(lia)). pose proof (wrap_range 32 t2 ltac:(lia)).
  set (x1 := wrap 32 e1) in *. set (x2 := wrap 32 e2) in *. set (y1 := wrap 32 t1) in *. set (y2 := wrap 32 t2) in *.
  rewrite !(wrap_small 64) in H; try (rewrite Z.shiftl_mul_pow2 by lia; change (2 ^ 64) with (2 ^ 32 * 2 ^ 32)); try lia.
  assert (Ht : y1 = y2).
  { apply factor_injective; [lia|lia|]. unfold COOKIE_FACTOR.
    rewrite <- (low_bits_of_lxor_shift x1 (y1 * _)), <- (low_bits_of_lxor_shift x2 (y2 * _)) by lia. by rewrite H. }
  split; [|exact Ht]. rewrite Ht, !(Z.lxor_comm (Z.shiftl _ _)) in H. apply lxor_cancel_l in H.
  rewrite !Z.shiftl_mul_pow2 in H by lia. lia.
Qed.

Definition int32 (x : Z) : Prop := - 2 ^ 31 <= x < 2 ^ 31.

Lemma wrap32_injective a b : int32 a -> int32 b -> wrap 32 a = wrap 32 b -> a = b.
Proof.
  unfold int32, wrap. intros Ha Hb H. pose proof (Z.div_mod a (2 ^ 32)). pose proof (Z.div_mod b (2 ^ 32)).
  assert (-1 <= a / 2 ^ 32 <= 0) by (split; [apply Z.div_le_lower_bound; lia|apply Z.lt_succ_r, Z.div_lt_upper_bound; lia]).
  assert (-1 <= b / 2 ^ 32 <= 0) by (split; [apply Z.div_le_lower_bound; lia|apply Z.lt_succ_r, Z.div_lt_upper_bound; lia]).
  lia.
Qed.

(** a thread accepts a packet PEAK queued with the cookie of an epoch and a
    thread exactly when it is that thread waiting in that epoch (and the cookie is
    not the value 0, which stands for "no cookie yet"): the cookies of different
    epochs or threads differ, so a packet that is late or went to another thread
    stops nobody. *)
Theorem packet_accepted_exactly (p : process) (w : world) (e1 t1 e2 t2 : Z) :
  cookie_base w <> 0 -> int32 e1 -> int32 t1 -> int32 e2 -> int32 t2 ->
  let cookie := peak_signal_policy_cookie_from_base (cookie_base w) e1 t1 in
  peak_signal_policy_cookie_for p e1 t1 w = Some (cookie, w) /\
  peak_signal_policy_cookie_matches_async p (Some (peak_signal_policy_send_thread_signal p cookie)) e2 t2 w =
    Some (bool_decide (e1 = e2 /\ t1 = t2 /\ cookie <> 0), w).
Proof.
  intros Hb He1 Ht1 He2 Ht2. cbv zeta. apply Z.eqb_neq in Hb as Hbase. split.
  { unfold peak_signal_policy_cookie_for, peak_signal_policy_init_cookie. smstep.
    rewrite Hbase. unfold peak_signal_policy_cookie_for_preinitialized, gets. by rewrite Hbase. }
  unfold peak_signal_policy_cookie_matches_async, peak_signal_policy_send_thread_signal,
    peak_signal_policy_cookie_for_preinitialized.
  cbn [si_code si_pid si_uid sival_ptr]. rewrite !Z.eqb_refl. cbn [negb orb]. smstep. rewrite Hbase.
  unfold mret, sm_ret. do 2 f_equal.
  set (c1 := peak_signal_policy_cookie_from_base (cookie_base w) e1 t1) in *.
  set (c2 := peak_signal_policy_cookie_from_base (cookie_base w) e2 t2) in *.
  destruct (Z.eqb_spec c1 c2) as [Heq|Hne].
  - destruct (cookie_injective _ _ _ _ _ Heq) as [He Ht].
    apply wrap32_injective in He; [|done|done]. apply wrap32_injective in Ht; [|done|done]. rewrite <- Heq.
    destruct (Z.eqb_spec c1 0); cbn; symmetry; [apply bool_decide_false|apply bool_decide_true]; tauto.
  - rewrite andb_false_r. symmetry. apply bool_decide_false. intros (-> & -> & _). by apply Hne.
Qed.

(** ** Migration *)

Definition quiet (w : world) : Prop :=
  internal_depth w = 0 /\ migration_candidate_signal w = 0 /\ migration_releasing_signal w = 0.

(** when a migration succeeds, the new reserved signal is a real-time signal
    outside the set the application names, it had its default disposition and no
    thread blocks it (as [/proc] documents), it now has PEAK's handler, and the old
    signal is the application's again with the default disposition; every other
    disposition is as it was.  When it fails, the reserved signal and its handler
    are as they were. *)
Theorem migration_sound (p : process) (w w' : world) (ex : option sigset) (api : string) (b : bool) :
  quiet w -> rt_signal (reserved_signal w) = true ->
  proc_documented p -> (forall tid mask, masks w !! tid = Some mask -> 0 <= mask < 2 ^ 64) ->
  peak_signal_policy_migrate_reserved_signal_locked p (reserved_signal w) ex api w = Some (b, w') ->
  let old := reserved_signal w in
  let new := reserved_signal w' in
  quiet w' /\
  if b then
    rt_signal new = true /\ new <> old /\ excluded ex new = false /\
    sa_handler (action_of w new) = SIG_DFL /\
    (forall tid mask, masks w !! tid = Some mask -> sigismember mask new = 0) /\
    sa_handler (action_of w' new) = peak_signal_policy_protective_handler /\
    action_of w' old = default_action /\
    (forall s, s <> old -> s <> new -> action_of w' s = action_of w s)
  else new = old /\ action_of w' old = action_of w old.
Proof.
  intros (Hi & Hc & Hrel) Hrt Hproc Hmasks Hrun. cbv zeta.
  destruct (migrate_spec p ex api w b w' Hrt ltac:(lia) Hc Hrel Hrun) as [[Q1 Q2] Hd _ Hto Hstay].
  split; [split; [congruence|done]|]. destruct b.
  - destruct (Hto eq_refl) as (Hs & Hfree & Ha). clear Hto Hstay.
    destruct (free_signal_spec _ _ _ _ _ _ Hfree) as (Hne & Hex & _ & Hdfl & Hu).
    assert (Hv : valid_signal (reserved_signal w') = true).
    { apply rt_range in Hs. unfold valid_signal, NSIG. destruct (Z.ltb_spec 0 (reserved_signal w')), (Z.ltb_spec (reserved_signal w') 65); cbn; lia. }
    split_and!; try done.
    + intros tid mask Hm. unfold sigismember. rewrite Hv.
      by rewrite (unblocked_everywhere p (masks w) _ Hproc Hv Hu tid mask Hm (Hmasks _ _ Hm)).
    + unfold action_of. rewrite Ha, lookup_insert_ne, lookup_insert_eq by congruence. done.
    + unfold action_of. rewrite Ha, lookup_insert_eq. done.
    + intros s H1 H2. unfold action_of. by rewrite Ha, !lookup_insert_ne by congruence.
  - destruct (Hstay eq_refl) as (A & _ & B & _). done.
Qed.

(** ** The lease over a whole run *)

Definition clean (actions : gmap Z sigaction_t) : Prop :=
  forall s, peak_handler (sa_handler (default default_action (actions !! s))) = false.

Lemma initial_lease p strict actions masks refusals clock rounds : clean actions -> (strict = true -> refusals = []) ->
  Lease.lease p strict (initial actions masks refusals clock rounds).
Proof.
  intros Hc Hr. split; cbn; [done|done|done|by left|]. intros Hs. split; [by apply Hr|]. intros s H.
  unfold action_of in H. cbn in H. rewrite Hc in H. done.
Qed.

(** C32: after any sequence of wrapped calls by the application (with handlers of
    its own) and of PEAK's operations, whatever is refused on the way, there is no
    reserved signal or it is a real-time signal whose handler is one of PEAK's, and
    no migration is half done.  When the kernel refuses no change of a disposition,
    PEAK's handlers are on no other signal. *)
Theorem lease_always_protected (p : process) os actions masks refusals clock rounds b w :
  enabled_for_process p = true -> mutex_lock_rc p = 0 -> syscall_documented p ->
  clean actions -> Forall own_operation os ->
  run p os no_backend (initial actions masks refusals clock rounds) = Some (b, w) ->
  (reserved_signal w = 0 \/
     rt_signal (reserved_signal w) = true /\ peak_handler (sa_handler (action_of w (reserved_signal w))) = true) /\
  migration_candidate_signal w = 0 /\ migration_releasing_signal w = 0 /\
  (refusals = [] -> forall s, peak_handler (sa_handler (action_of w s)) = true -> s = reserved_signal w).
Proof.
  intros He Hl Hs Hc Hos Hrun.
  assert (HL : forall strict, (strict = true -> refusals = []) -> Lease.lease p strict w)
    by (intros strict Hr; eapply run_lease; [done|done|done|done| |exact Hrun]; by apply initial_lease).
  destruct (HL false) as [_ L2 L3 L4 _]; [done|]. split; [by destruct L4 as [|(A & _ & B)]; [left|right]|]. split; [done|]. split; [done|].
  intros Hr s Hp. destruct (HL true) as [_ _ _ _ L5]; [by intros|]. by destruct (L5 eq_refl) as [_ E]; destruct (E s Hp).
Qed.

(** in every state a run can reach, a wrapped call that installs, blocks, waits
    for, consumes, generates or sends a signal reaches the kernel only after that
    signal is the application's: if the reserved signal is still one the call
    claims when it returns, the call was refused with EINVAL (or its symbol is
    missing, ENOSYS) and the lease did not move. *)
Theorem claimed_signal_released (p : process) os actions masks refusals clock rounds b w c rc w' :
  enabled_for_process p = true -> mutex_lock_rc p = 0 -> syscall_documented p ->
  clean actions -> Forall own_operation os -> own_handlers c ->
  run p os no_backend (initial actions masks refusals clock rounds) = Some (b, w) ->
  run_call p c w = Some (rc, w') ->
  claims p c (reserved_signal w') ->
  reserved_signal w' = reserved_signal w /\
  (rc = unresolved_result c /\ errno w' = ENOSYS \/ rc = refused_result c /\ errno w' = EINVAL).
Proof.
  intros He Hl Hs Hc Hos Hown Hrun Hcall Hclaims.
  assert (HL : Lease.lease p false w) by (eapply run_lease; [done|done|done|done| |exact Hrun]; by apply initial_lease).
  destruct (call_run p He Hl Hs false c w rc w' Hown HL Hcall) as [_ Hout]. destruct (Hout Hclaims) as (A & _ & B). done.
Qed.

(** ** The application's view *)

(** The dispositions as the application knows them. *)
Definition view (w : world) (s : Z) : sigaction_t := if s =? reserved_signal w then default_action else action_of w s.

(** Flags and mask of a default disposition do not matter. *)
Definition same_action (a b : sigaction_t) : Prop := sa_handler a = sa_handler b /\ (sa_handler a <> SIG_DFL -> a = b).
#[export] Instance same_action_equivalence : Equivalence same_action.
Proof.
  split.
  - intros a. by split.
  - intros a b [H1 H2]. split; [done|]. intros H. symmetry. apply H2. congruence.
  - intros a b c [H1 H2] [H3 H4]. split; [congruence|]. intros H. rewrite H2 by done. apply H4. congruence.
Qed.

(** [sigaction] of a process without PEAK, on its table of dispositions: the
    result, the old action and the new table. *)
Definition posix_sigaction (v : Z -> sigaction_t) (s : Z) (act : option sigaction_t) : Z * sigaction_t * (Z -> sigaction_t) :=
  match act with
  | None => if sigaction_valid s then (0, v s, v) else (-1, default_action, v)
  | Some a => if settable s then (0, v s, fun t => if t =? s then stored a else v t) else (-1, default_action, v)
  end.

Lemma reserved_cases p w : Lease.lease p true w -> reserved_signal w = 0 \/ 34 <= reserved_signal w <= 64.
Proof. intros HL. destruct (lease_reserved _ _ _ HL) as [|[H%rt_range _]]; auto. Qed.

Lemma prepare_cases p s api w b w1 : enabled_for_process p = true -> mutex_lock_rc p = 0 -> Lease.lease p true w ->
  peak_signal_policy_prepare_reserved_signal_for_user p s api w = Some (b, w1) ->
  (b = true /\ w1 = w /\ (s <> reserved_signal w \/ reserved_signal w = 0)) \/
  (s = reserved_signal w /\ 0 < s /\ migrate_or_EINVAL p (reserved_signal w) None api w = Some (b, w1)).
Proof.
  intros He Hl HL H. unfold peak_signal_policy_prepare_reserved_signal_for_user, peak_signal_policy_is_internal in H.
  smstep_in H. rewrite He, (not_internal _ _ _ HL) in H. cbn [negb orb] in H.
  destruct (rt_signal s) eqn:Hrt; cbn [negb] in H.
  2: { apply ret_inv in H as [-> ->]. left. split; [done|]. split; [done|].
       destruct (lease_reserved _ _ _ HL) as [|[Hr _]]; [by right|]. left. intros ->. congruence. }
  rewrite (locked_run p Hl) in H. smstep_in H. destruct (Z.eqb_spec s (reserved_signal w)) as [->|Hne]; cbn [negb] in H.
  - right. apply rt_range in Hrt. split; [done|]. split; [lia|done].
  - apply ret_inv in H as [-> ->]. left. auto.
Qed.

(** What the application sees does not change when the lease moves. *)
Lemma view_after_migration w w1 :
  reserved_signal w1 <> reserved_signal w ->
  actions w1 = <[reserved_signal w := default_action]> (<[reserved_signal w1 := protective_action (reserved_signal w1)]> (actions w)) ->
  sa_handler (action_of w (reserved_signal w1)) = SIG_DFL -> forall t, same_action (view w1 t) (view w t).
Proof.
  intros Hne Ha Hdfl t. unfold view. destruct (Z.eqb_spec t (reserved_signal w1)) as [->|H1].
  - destruct (Z.eqb_spec (reserved_signal w1) (reserved_signal w)); [done|]. by split.
  - destruct (Z.eqb_spec t (reserved_signal w)) as [->|H2].
    + unfold action_of. rewrite Ha, lookup_insert_eq. done.
    + unfold action_of. by rewrite Ha, !lookup_insert_ne by congruence.
Qed.

(** A change of a disposition that is not the reserved signal's. *)
Lemma forwarded_view p s a w r w' : Lease.lease p true w -> s <> reserved_signal w \/ reserved_signal w = 0 ->
  real_sigaction s (Some a) w = Some (r, w') ->
  let '(rc0, old0, v0) := posix_sigaction (view w) s (Some a) in
  r = (rc0, old0) /\ forall t, view w' t = v0 t.
Proof.
  intros HL Hs H. cbn [posix_sigaction]. destruct (settable s) eqn:Hset.
  - destruct (lease_exclusive _ _ _ HL eq_refl) as [R _].
    destruct (change_spec s a w Hset) as (rc & old & w1 & Hrun & Hk & Hc & Hr). rewrite Hrun in H. injection H as <- <-.
    destruct (Hr R) as [_ ->]. destruct Hc as [(_ & -> & Ha)|(Hbad & _)]; [|discriminate].
    destruct (kc_fields _ _ Hk) as (K1 & _).
    assert (Hne : s <> reserved_signal w) by (destruct Hs as [|E]; [done|rewrite E; intros ->; done]).
    split.
    + unfold view. destruct (Z.eqb_spec s (reserved_signal w)); [done|]. done.
    + intros t. unfold view. rewrite K1. destruct (Z.eqb_spec t (reserved_signal w)) as [->|Ht].
      * destruct (Z.eqb_spec (reserved_signal w) s); [by subst|done].
      * unfold action_of. rewrite Ha. destruct (Z.eqb_spec t s) as [->|Hts]; [by rewrite lookup_insert_eq|].
        by rewrite lookup_insert_ne by done.
  - unfold settable in Hset. unfold real_sigaction in H. smstep_in H.
    assert (E : (negb (sigaction_valid s) || (bool_decide (is_Some (Some a)) && ((s =? SIGKILL) || (s =? SIGSTOP)))) = true).
    { rewrite bool_decide_true by eauto. destruct (sigaction_valid s); cbn in *; [by apply negb_false_iff in Hset|done]. }
    rewrite E in H. smstep_in H. apply ret_inv in H as [-> ->]. done.
Qed.

Lemma query_view p s w r w' : enabled_for_process p = true -> resolved p "sigaction" = true -> Lease.lease p true w ->
  sigaction p s None true w = Some (r, w') ->
  r.1 = (if sigaction_valid s then 0 else -1) /\ r.2 = (if sigaction_valid s then view w s else default_action) /\
  forall t, view w' t = view w t.
Proof.
  intros He Hres HL H. unfold sigaction in H. rewrite Hres, He in H. cbn [negb] in H.
  unfold query_hidden, peak_signal_policy_is_internal, peak_signal_policy_signal_is_transitioning in H.
  erewrite bind_some in H by (do 3 smstep; reflexivity).
  rewrite (not_internal _ _ _ HL), (lease_candidate _ _ _ HL), (lease_releasing _ _ _ HL) in H. cbn [negb andb] in H.
  rewrite andb_true_r in H.
  destruct (reserved_cases p w HL) as [E|E].
  - rewrite E in H. destruct (Z.ltb_spec 0 s); cbn [andb] in H.
    + destruct (Z.eqb_spec s 0); [lia|]. cbn [orb] in H. unfold real_sigaction in H. smstep_in H. cbn [bool_decide andb] in H.
      assert (view w s = action_of w s) as -> by (unfold view; rewrite E; by destruct (Z.eqb_spec s 0)).
      destruct (sigaction_valid s); cbn [negb orb] in H; [|smstep_in H]; apply ret_inv in H as [-> ->]; done.
    + unfold real_sigaction in H. smstep_in H. assert (sigaction_valid s = false) as Hv.
      { unfold sigaction_valid, valid_signal. destruct (Z.ltb_spec 0 s); [lia|done]. }
      rewrite Hv in *. cbn [negb orb] in H. smstep_in H. apply ret_inv in H as [-> ->]. done.
  - destruct (Z.eqb_spec s (reserved_signal w)) as [->|Hne].
    + destruct (Z.ltb_spec 0 (reserved_signal w)); [|lia]. cbn [andb orb] in H. apply ret_inv in H as [-> ->].
      assert (sigaction_valid (reserved_signal w) = true) as -> by (apply rt_valid, rt_range; lia).
      unfold view. by rewrite Z.eqb_refl.
    + assert (Hh : (0 <? s) && (false || (0 <? s) && ((s =? 0) || (s =? 0))) = false).
      { destruct (Z.ltb_spec 0 s); [|done]. destruct (Z.eqb_spec s 0); [lia|done]. }
      rewrite Hh in H. unfold real_sigaction in H. smstep_in H. cbn [bool_decide andb] in H.
      assert (view w s = action_of w s) as -> by (unfold view; by destruct (Z.eqb_spec s (reserved_signal w))).
      destruct (sigaction_valid s); cbn [negb orb] in H; [|smstep_in H]; apply ret_inv in H as [-> ->]; done.
Qed.

(** C33: for the application, [sigaction] behaves as in a process without PEAK, on
    dispositions in which the reserved signal has the default one: same result,
    same old action and same new dispositions (up to the flags and mask of a
    default disposition), PEAK's handlers never show.  The one exception is a new
    action for the reserved signal when the lease cannot move: -1 with EINVAL, and
    nothing changes. *)
Theorem sigaction_transparent (p : process) (w : world) (s : Z) (act : option sigaction_t) rc old w' :
  enabled_for_process p = true -> mutex_lock_rc p = 0 -> resolved p "sigaction" = true -> Lease.lease p true w ->
  sigaction p s act true w = Some ((rc, old), w') ->
  let '(rc0, old0, v0) := posix_sigaction (view w) s act in
  (rc = rc0 /\ same_action old old0 /\ forall t, same_action (view w' t) (v0 t)) \/
  (is_Some act /\ s = reserved_signal w /\ rc = -1 /\ errno w' = EINVAL /\ forall t, view w' t = view w t).
Proof.
  intros He Hl Hres HL H. destruct act as [a|].
  2: { destruct (query_view p s w _ w' He Hres HL H) as (A & B & C). cbn [fst snd posix_sigaction] in *. subst rc old.
       destruct (sigaction_valid s); left; (split; [done|]); (split; [done|]); intros t; by rewrite C. }
  unfold sigaction in H. rewrite Hres, He in H. cbn [negb] in H. destruct (query_hidden_run s w) as (hid & Hq).
  rewrite (bind_some _ _ _ _ _ Hq) in H. apply bind_inv in H as (b & w1 & Hp & H).
  destruct (prepare_cases p s _ w b w1 He Hl HL Hp) as [(-> & -> & Hs)|(-> & Hpos & Hm)].
  - cbn [negb] in H. pose proof (forwarded_view p s a w _ w' HL Hs H) as Hv.
    destruct (posix_sigaction (view w) s (Some a)) as [[rc0 old0] v0]. destruct Hv as [[= -> ->] Hv].
    left. split; [done|]. split; [done|]. intros t. by rewrite Hv.
  - destruct (migrate_lease p true None _ w b w1 HL Hpos Hm) as (HL1 & Hb & _). destruct b; cbn [negb] in H.
    + destruct Hb as (_ & Hne & _ & Ha & Hdfl). pose proof (view_after_migration w w1 Hne Ha Hdfl) as Hview.
      assert (Hs : reserved_signal w <> reserved_signal w1 \/ reserved_signal w1 = 0) by (left; congruence).
      pose proof (forwarded_view p _ a w1 _ w' HL1 Hs H) as Hv. unfold posix_sigaction in *.
      destruct (settable (reserved_signal w)); destruct Hv as [[= -> ->] Hv]; left; (split; [done|]); (split; [done || apply Hview|]);
        intros t; rewrite Hv; [destruct (t =? reserved_signal w); [done|]|]; apply Hview.
    + destruct Hb as (Hr & Herr & Hact). apply ret_inv in H as [[= -> ->] ->].
      destruct (posix_sigaction (view w) (reserved_signal w) (Some a)) as [[rc0 old0] v0]. right.
      split; [by eexists|]. split; [done|]. split; [done|]. split; [done|].
      intros t. unfold view. rewrite Hr. by rewrite (action_same w w1 t (Hact eq_refl)).
Qed.

(** ** Refusals *)

Lemma migrate_none p ex api w :
  0 <= internal_depth w -> migration_candidate_signal w = 0 -> 0 < reserved_signal w -> migration_disabled_depth w = 0 ->
  found_signal p (action_of w) (masks w) (reserved_signal w) ex rt_signals = 0 ->
  exists w', peak_signal_policy_migrate_reserved_signal_locked p (reserved_signal w) ex api w = Some (false, w') /\
    masks w' = masks w /\ reserved_signal w' = reserved_signal w.
Proof.
  intros Hd Hc Hpos Hdepth Hno.
  unfold peak_signal_policy_migrate_reserved_signal_locked, peak_signal_policy_record_conflict. smstep.
  set (w0 := set_conflict _ _ w). destruct (Z.leb_spec (reserved_signal w) 0); [lia|]. cbn [orb].
  destruct (peak_signal_policy_env_forces_signal p); [by eexists|].
  assert (Hwait : peak_signal_policy_wait_until_migration_enabled w0 = Some (true, w0)).
  { unfold peak_signal_policy_wait_until_migration_enabled. change (migration_disabled_depth w0) with (migration_disabled_depth w).
    by rewrite Hdepth. }
  rewrite (bind_some _ _ _ _ _ Hwait). cbn [negb]. smstep. change (reserved_signal w0) with (reserved_signal w).
  rewrite Z.eqb_refl. cbn [negb]. smstep. change (migration_disabled_depth w0) with (migration_disabled_depth w).
  rewrite Hdepth. cbn [Z.ltb Z.compare].
  rewrite (bind_some _ _ _ _ _ (find_candidate_spec p (reserved_signal w) ex w0 Hd Hc)).
  change (action_of w0) with (action_of w). change (masks w0) with (masks w). rewrite Hno. cbn [Z.leb Z.compare]. smstep.
  by eexists.
Qed.

(** an application that asks to block (or to wait for) a set holding every
    real-time signal is refused with EINVAL whenever PEAK holds a lease that is not
    disabled: no signal is left to move to, so [sigfillset] followed by
    [pthread_sigmask] fails under PEAK and its mask stays as it was. *)
Theorem full_set_refused (p : process) (w : world) (h : how) (set : sigset) :
  enabled_for_process p = true -> mutex_lock_rc p = 0 -> resolved p "pthread_sigmask" = true ->
  Lease.lease p false w -> 0 < reserved_signal w -> blocks h = true -> migration_disabled_depth w = 0 ->
  (forall s, rt_signal s = true -> sigismember set s = 1) ->
  exists w', pthread_sigmask p h (Some set) w = Some (EINVAL, w') /\
    masks w' = masks w /\ reserved_signal w' = reserved_signal w /\ errno w' = EINVAL.
Proof.
  intros He Hl Hres HL Hpos Hh Hdepth Hset.
  destruct (lease_reserved _ _ _ HL) as [|(Hrt & _ & _)]; [lia|].
  assert (Hno : found_signal p (action_of w) (masks w) (reserved_signal w) (Some set) rt_signals = 0).
  { destruct (found_signal_spec p (action_of w) (masks w) (reserved_signal w) (Some set)) as [[E _]|[Hr Hf]]; [done|].
    destruct (free_signal_spec _ _ _ _ _ _ Hf) as (_ & Hex & _). cbn in Hex. by rewrite (Hset _ Hr) in Hex. }
  destruct (migrate_none p (Some set) "pthread_sigmask" w (depth_nonneg p false w HL) (lease_candidate _ _ _ HL) Hpos Hdepth Hno)
    as (w1 & Hm & M1 & M2).
  exists (set_errno EINVAL w1). split; [|done].
  assert (Hprep : peak_signal_policy_prepare_reserved_set_for_user p (Some set) "pthread_sigmask" w = Some (false, set_errno EINVAL w1)).
  { unfold peak_signal_policy_prepare_reserved_set_for_user, peak_signal_policy_is_internal. smstep.
    rewrite He, (not_internal _ _ _ HL). cbn [negb orb]. rewrite (locked_run p Hl). smstep.
    rewrite (Hset _ Hrt), (proj2 (Z.leb_gt _ _) Hpos). cbn [orb Z.eqb Pos.eqb negb]. unfold migrate_or_EINVAL.
    rewrite (bind_some _ _ _ _ _ Hm). by smstep. }
  unfold pthread_sigmask, wrapper. rewrite Hres, He, Hh. cbn [negb]. by rewrite (bind_some _ _ _ _ _ Hprep).
Qed.

(** ** Reservation and a handler at the same time *)

(** [peak_signal_policy_commit_reserved_signal] up to the test of the
    disposition, and from the installation on. *)
Definition commit_first (p : process) (s : Z) : SM bool :=
  _ ← peak_signal_policy_init_cookie p;
  _ ← modify (set_candidate s);
  peak_signal_policy_signal_is_available p s.
Definition commit_last (p : process) (s : Z) : SM Z :=
  installed ← peak_signal_policy_install_protective_handler p s;
  if negb installed then
    _ ← modify (set_reserved 0);
    _ ← modify (set_candidate 0);
    mret 0
  else
    _ ← modify (set_reserved s);
    _ ← modify (set_candidate 0);
    mret s.

Lemma commit_split p s w : rt_signal s = true -> mutex_lock_rc p = 0 -> reserved_signal w <= 0 ->
  peak_signal_policy_commit_reserved_signal p s w =
  (available ← commit_first p s; if negb available then _ ← modify (set_candidate 0); mret 0 else commit_last p s) w.
Proof.
  intros Hs Hl Hr. unfold peak_signal_policy_commit_reserved_signal. rewrite Hs, Hl. cbn [negb Z.eqb]. smstep.
  destruct (Z.ltb_spec 0 (reserved_signal w)); [lia|].
  unfold commit_first, peak_signal_policy_init_cookie. unfold mbind, sm_bind, modify.
  destruct (peak_signal_policy_signal_is_available p s _) as [[[|] w1]|]; reflexivity.
Qed.

(** the reservation of a signal and a handler the application installs for it
    are not ordered.  The wrapper checks the reserved signal under the lock and
    forwards the call after releasing it, and the reservation tests the
    disposition and replaces it in two steps: when the forwarded call falls between
    them, the application's [sigaction] returns 0 and its handler is overwritten,
    and a query then shows the default disposition. *)
Theorem handler_lost_in_race (p : process) (w : world) (s : Z) (a : sigaction_t) :
  enabled_for_process p = true -> mutex_lock_rc p = 0 -> resolved p "sigaction" = true ->
  Lease.lease p true w -> reserved_signal w = 0 -> rt_signal s = true -> sa_handler (action_of w s) = SIG_DFL ->
  sa_handler a <> SIG_DFL ->
  exists w1 w2 w3 old,
    (* the application's wrapper, up to the forwarded call *)
    peak_signal_policy_prepare_reserved_signal_for_user p s "sigaction" w = Some (true, w) /\
    (* PEAK: the signal is free *)
    commit_first p s w = Some (true, w1) /\
    (* the forwarded call succeeds *)
    real_sigaction s (Some a) w1 = Some ((0, old), w2) /\ sa_handler (action_of w2 s) = sa_handler a /\
    (* PEAK: the handler is replaced *)
    commit_last p s w2 = Some (s, w3) /\ reserved_signal w3 = s /\
    sa_handler (action_of w3 s) = peak_signal_policy_protective_handler /\ view w3 s = default_action.
Proof.
  intros He Hl Hres HL Hr Hrt Hdfl Ha. pose proof (depth_nonneg p true w HL) as Hd. pose proof (rt_settable s Hrt) as Hset.
  pose proof Hrt as Hrange%rt_range. destruct (lease_exclusive _ _ _ HL eq_refl) as [R _].
  set (w1 := set_candidate s (if cookie_base w =? 0 then set_cookie (peak_signal_policy_init_cookie_once p) w else w)).
  assert (W : internal_depth w1 = internal_depth w /\ actions w1 = actions w /\ refusals w1 = refusals w)
    by (unfold w1; by destruct (cookie_base w =? 0)).
  destruct W as (W1 & W2 & W3).
  destruct (change_spec s a w1 Hset) as (rc & old & w2 & Hrun & Hk & Hc & Hrr).
  destruct (Hrr ltac:(congruence)) as [R2 ->]. destruct Hc as [(_ & _ & Ha2)|(Hbad & _)]; [|discriminate].
  destruct (kc_fields _ _ Hk) as (K1 & K2 & K3 & K4 & K5 & K6).
  destruct (install_spec p s w2 Hrt ltac:(lia)) as (b & w3 & Hinst & Hk3 & Ha3 & _ & Hr3).
  destruct (Hr3 R2) as [_ ->]. rewrite Hres in *.
  exists w1, w2, (set_candidate 0 (set_reserved s w3)), old. split_and!.
  - unfold peak_signal_policy_prepare_reserved_signal_for_user, peak_signal_policy_is_internal. smstep.
    rewrite He, (not_internal _ _ _ HL), Hrt. cbn [negb orb]. rewrite (locked_run p Hl). smstep.
    rewrite Hr. destruct (Z.eqb_spec s 0); [lia|done].
  - unfold commit_first, peak_signal_policy_init_cookie. do 2 smstep. fold w1.
    rewrite available_spec by (done || lia). rewrite Hres, (action_same w w1 s W2), Hdfl. done.
  - exact Hrun.
  - unfold action_of. by rewrite Ha2, lookup_insert_eq.
  - unfold commit_last. rewrite (bind_some _ _ _ _ _ Hinst). cbn [negb]. by do 2 smstep.
  - done.
  - unfold action_of. cbn. by rewrite Ha3, lookup_insert_eq.
  - unfold view. cbn. by rewrite Z.eqb_refl.
Qed.

(** ** The signal backend *)

(** when the checks before a stop pass, in any state a run can reach, the signal
    the backend is about to queue is the reserved one, also after the lease moved,
    its disposition is the stop handler and no packet without a cookie has come. *)
Theorem backend_checks_sound (p : process) os actions masks refusals clock rounds b w supported arch gate r w' :
  enabled_for_process p = true -> mutex_lock_rc p = 0 -> syscall_documented p ->
  clean actions -> Forall own_operation os ->
  run p os no_backend (initial actions masks refusals clock rounds) = Some (b, w) ->
  peak_detach_controller_ensure_signal_backend p supported arch gate b w = Some ((true, r), w') ->
  rt_signal (reserved_signal w') = true /\ signal_backend_signum r = reserved_signal w' /\
  sa_handler (action_of w' (reserved_signal w')) = peak_detach_controller_signal_handler /\ unexpected_delivery_count w' = 0.
Proof.
  intros He Hl Hs Hc Hos Hrun Hens.
  assert (HL : Lease.lease p false w) by (eapply run_lease; [done|done|done|done| |exact Hrun]; by apply initial_lease).
  destruct (ensure_lease p He Hl false supported arch gate b w (true, r) w' HL Hens) as [_ H]. by apply H.
Qed.

(** ** Witnesses *)

(** A process with one thread (100) whose calls all succeed. *)
Definition demo_masks : gmap Z sigset := {[100 := 0]}.
Definition demo : process :=
  mkProcess true (fun _ => true) (fun _ => None) 100 100 1000 0
    (fun m => if bool_decide (m = demo_masks) then Some [bytes "."; bytes "100"] else None)
    (fun m tid => match m !! tid with Some mask => inr (status_file [bytes "Name:x"] mask []) | None => inl ENOENT end)
    (fun _ _ => None) (fun _ _ => None) (fun _ _ => false) 0x7ffe0000 (Some 0x1234) 0
    (fun _ _ => (0, 0)) (fun _ _ w => (0, w)).
Abbreviation demo_start := (initial ∅ demo_masks [] None []).
Definition demo_user : sigaction_t := mkAction (user_handler 0x400000) 0 0.

Lemma demo_syscall : syscall_documented demo.
Proof. split; cbn; [by intros n args []|by intros n args w s H]. Qed.

Lemma demo_proc : proc_documented demo.
Proof.
  split.
  - cbn. intros m entries He tid mask Hm. destruct (bool_decide (m = demo_masks)) eqn:E; [|done].
    apply bool_decide_eq_true in E. subst m. injection He as <-. unfold demo_masks in Hm.
    apply lookup_singleton_Some in Hm as [<- _]. split; [lia|]. exists (bytes "100"). split; [|reflexivity].
    right. left.
  - cbn. intros m tid mask Hm _. rewrite Hm. exists [bytes "Name:x"], []. split; [done|].
    apply Forall_singleton. split; [|split; [by vm_compute; lia|by vm_compute]].
    refine (bool_decide_unpack _ _). vm_compute. exact I.
Qed.

Lemma demo_clean : clean (∅ : gmap Z sigaction_t).
Proof. intros s. by rewrite lookup_empty. Qed.

(** PEAK takes a signal; the application wants it; the backend starts on the new one. *)
Definition demo_operations : list operation :=
  [Choose; Call (Sigaction 64 (Some demo_user) true); Call (Kill 63); EnsureBackend true true true].
Definition demo_end : option (backend * world) := run demo demo_operations no_backend demo_start.
Definition world_of (r : option (backend * world)) : world := match r with Some (_, w) => w | None => demo_start end.
Definition backend_of (r : option (backend * world)) : backend := match r with Some (b, _) => b | None => no_backend end.

Lemma demo_runs : run demo demo_operations no_backend demo_start = Some (backend_of demo_end, world_of demo_end).
Proof. vm_compute. reflexivity. Qed.

Lemma demo_own : Forall own_operation demo_operations.
Proof. repeat constructor. Qed.

Lemma lease_always_protected_witness :
  reserved_signal (world_of demo_end) = 62 /\
  peak_handler (sa_handler (action_of (world_of demo_end) 62)) = true /\
  (forall s, peak_handler (sa_handler (action_of (world_of demo_end) s)) = true -> s = 62).
Proof.
  assert (E : reserved_signal (world_of demo_end) = 62) by (vm_compute; reflexivity).
  revert E. pose proof demo_runs as R. revert R. generalize (world_of demo_end) as w, (backend_of demo_end) as b. intros w b R E.
  pose proof (lease_always_protected demo demo_operations ∅ demo_masks [] None [] b w eq_refl eq_refl demo_syscall demo_clean
                demo_own R) as (A & _ & _ & B).
  rewrite E in A, B. split; [exact E|]. split; [destruct A as [A|[_ A]]; [discriminate|exact A]|]. exact (B eq_refl).
Defined.

Definition demo_reserved : world := world_of (run demo [Choose] no_backend demo_start).

Lemma demo_reserved_runs : run demo [Choose] no_backend demo_start = Some (no_backend, demo_reserved).
Proof. vm_compute. reflexivity. Qed.

(** A mutation is going on and the clock fails: the migration cannot happen. *)
Lemma claimed_signal_released_witness :
  reserved_signal demo_reserved = 64 /\
  match run_call demo (Raise 64) demo_reserved with Some (_, w') => reserved_signal w' = 63 | None => False end /\
  exists rc w', run_call demo (Raise 64) (world_of (run demo [Choose; PushMigrationDisabled] no_backend demo_start)) = Some (rc, w') /\
    reserved_signal w' = 64 /\ (rc = -1 /\ errno w' = ENOSYS \/ rc = -1 /\ errno w' = EINVAL).
Proof.
  split; [vm_compute; reflexivity|]. split; [vm_compute; reflexivity|].
  assert (E : run demo [Choose; PushMigrationDisabled] no_backend demo_start =
            Some (no_backend, world_of (run demo [Choose; PushMigrationDisabled] no_backend demo_start))) by (vm_compute; reflexivity).
  destruct (run_call demo (Raise 64) (world_of (run demo [Choose; PushMigrationDisabled] no_backend demo_start)))
    as [[rc w']|] eqn:Hc; [|vm_compute in Hc; discriminate].
  assert (Hr : reserved_signal w' = 64) by (vm_compute in Hc; injection Hc as <- <-; reflexivity).
  exists rc, w'. split; [reflexivity|]. split; [exact Hr|].
  assert (Hclaims : claims demo (Raise 64) (reserved_signal w')) by (rewrite Hr; split; reflexivity).
  assert (Hown : Forall own_operation [Choose; PushMigrationDisabled]) by (repeat constructor).
  destruct (claimed_signal_released demo [Choose; PushMigrationDisabled] ∅ demo_masks [] None [] _ _ (Raise 64) rc w'
              eq_refl eq_refl demo_syscall demo_clean Hown I E Hc Hclaims) as [_ B]. exact B.
Defined.

Lemma demo_reserved_lease strict : Lease.lease demo strict demo_reserved.
Proof.
  refine (run_lease demo eq_refl eq_refl demo_syscall strict [Choose] no_backend demo_start _ _ _ _ demo_reserved_runs).
  - repeat constructor.
  - apply initial_lease; [exact demo_clean|done].
Qed.

Lemma sigaction_transparent_witness :
  match sigaction demo 64 (Some demo_user) true demo_reserved with
  | Some ((rc, old), w') => rc = 0 /\ sa_handler old = SIG_DFL /\ sa_handler (view w' 64) = user_handler 0x400000
  | None => False
  end.
Proof.
  destruct (sigaction demo 64 (Some demo_user) true demo_reserved) as [[[rc old] w']|] eqn:E; [|vm_compute in E; discriminate].
  assert (Hrc : rc = 0) by (vm_compute in E; injection E as <- _ _; reflexivity).
  pose proof (sigaction_transparent demo demo_reserved 64 (Some demo_user) rc old w' eq_refl eq_refl eq_refl
                (demo_reserved_lease true) E) as H.
  cbn [posix_sigaction] in H. change (settable 64) with true in H. cbn iota in H.
  destruct H as [(_ & [Hold _] & Hv)|(_ & _ & Hbad & _)]; [|rewrite Hrc in Hbad; discriminate].
  split; [exact Hrc|]. split; [rewrite Hold; vm_compute; reflexivity|]. destruct (Hv 64) as [H64 _]. rewrite H64. reflexivity.
Defined.

Lemma packet_accepted_exactly_witness :
  peak_signal_policy_cookie_matches_async demo
    (Some (peak_signal_policy_send_thread_signal demo (peak_signal_policy_cookie_from_base (cookie_base demo_reserved) 7 100)))
    7 100 demo_reserved = Some (true, demo_reserved) /\
  peak_signal_policy_cookie_matches_async demo
    (Some (peak_signal_policy_send_thread_signal demo (peak_signal_policy_cookie_from_base (cookie_base demo_reserved) 7 100)))
    8 100 demo_reserved = Some (false, demo_reserved).
Proof.
  assert (Hb : cookie_base demo_reserved <> 0) by (vm_compute; discriminate).
  destruct (packet_accepted_exactly demo demo_reserved 7 100 7 100) as [_ A]; [exact Hb|unfold int32; lia..|].
  destruct (packet_accepted_exactly demo demo_reserved 7 100 8 100) as [_ B]; [exact Hb|unfold int32; lia..|].
  split; [rewrite A|rewrite B]; reflexivity.
Defined.

Lemma migration_sound_witness :
  match peak_signal_policy_migrate_reserved_signal_locked demo 64 (Some (Z.setbit 0 62)) "sigwait" demo_reserved with
  | Some (b, w') => b = true /\ reserved_signal w' = 62 /\ action_of w' 64 = default_action /\
                    (forall mask, demo_masks !! 100 = Some mask -> sigismember mask 62 = 0)
  | None => False
  end.
Proof.
  destruct (peak_signal_policy_migrate_reserved_signal_locked demo 64 (Some (Z.setbit 0 62)) "sigwait" demo_reserved)
    as [[b w']|] eqn:E; [|vm_compute in E; discriminate].
  assert (Hb : b = true /\ reserved_signal w' = 62) by (vm_compute in E; injection E as <- <-; split; reflexivity).
  destruct Hb as [-> Hr].
  assert (Hm : forall tid mask, masks demo_reserved !! tid = Some mask -> 0 <= mask < 2 ^ 64).
  { intros tid mask Hm. change (masks demo_reserved) with demo_masks in Hm. unfold demo_masks in Hm.
    apply lookup_singleton_Some in Hm as [_ <-]. lia. }
  assert (Hq : quiet demo_reserved) by (vm_compute; done).
  pose proof (migration_sound demo demo_reserved w' (Some (Z.setbit 0 62)) "sigwait" true Hq eq_refl demo_proc Hm E)
    as (_ & _ & _ & _ & _ & Hblk & _ & Hold & _).
  split; [reflexivity|]. split; [exact Hr|]. split; [exact Hold|].
  intros mask H. rewrite Hr in Hblk. apply (Hblk 100 mask). exact H.
Defined.

Lemma full_set_refused_witness :
  exists w', pthread_sigmask demo SIG_BLOCK (Some (2 ^ 64 - 1)) demo_reserved = Some (EINVAL, w') /\ masks w' = demo_masks.
Proof.
  assert (Hset : forall s, rt_signal s = true -> sigismember (2 ^ 64 - 1) s = 1).
  { intros s Hs%rt_range. apply sigismember_one. split; [unfold valid_signal, NSIG; destruct (Z.ltb_spec 0 s), (Z.ltb_spec s 65); cbn; lia|].
    change (2 ^ 64 - 1) with (Z.ones 64). apply Z.ones_spec_low. lia. }
  destruct (full_set_refused demo demo_reserved SIG_BLOCK (2 ^ 64 - 1) eq_refl eq_refl eq_refl (demo_reserved_lease false))
    as (w' & Hrun & Hm & _); [vm_compute; reflexivity|reflexivity|vm_compute; reflexivity|exact Hset|].
  exists w'. split; [exact Hrun|]. rewrite Hm. reflexivity.
Defined.

Lemma handler_lost_in_race_witness :
  exists w3, reserved_signal w3 = 64 /\ sa_handler (action_of w3 64) = peak_signal_policy_protective_handler.
Proof.
  assert (HL : Lease.lease demo true demo_start) by (apply initial_lease; [exact demo_clean|done]).
  destruct (handler_lost_in_race demo demo_start 64 demo_user eq_refl eq_refl eq_refl HL eq_refl eq_refl eq_refl ltac:(done))
    as (w1 & w2 & w3 & old & _ & _ & _ & _ & _ & A & B & _).
  exists w3. split; [exact A|exact B].
Defined.

Lemma backend_checks_sound_witness :
  match peak_detach_controller_ensure_signal_backend demo true true true no_backend demo_reserved with
  | Some ((true, r), w') => signal_backend_signum r = 64 /\ sa_handler (action_of w' 64) = peak_detach_controller_signal_handler
  | _ => False
  end.
Proof.
  destruct (peak_detach_controller_ensure_signal_backend demo true true true no_backend demo_reserved) as [[[ok r] w']|] eqn:E;
    [|vm_compute in E; discriminate].
  assert (H : ok = true /\ reserved_signal w' = 64) by (vm_compute in E; injection E as <- _ <-; split; reflexivity).
  destruct H as [-> Hr].
  assert (Hown : Forall own_operation [Choose]) by (repeat constructor).
  destruct (backend_checks_sound demo [Choose] ∅ demo_masks [] None [] _ _ true true true r w' eq_refl eq_refl demo_syscall
              demo_clean Hown demo_reserved_runs E) as (_ & A & B & _).
  rewrite Hr in A, B. split; [exact A|exact B].
Defined.
