(* ===== verification/SignalLedger.v ===== *)
(** * The ledger of stop packets

    The part of [src/detach_controller.c] that remembers the packets the signal
    backend has queued: one receipt per packet, from the reservation before it
    is sent to its delivery, however late.  The word of a receipt is its
    allocation ticket and four flags; tickets are never used twice.

    The controller works under the mutation guard; the handlers of the threads
    run in between.  An operation on one receipt is one step: its loop of a load
    and a compare-and-exchange that names the ticket it first saw takes effect
    at the exchange that succeeds.  Delivery of a packet is four steps: it
    leaves the queue of its thread, the handler loads the backend's signal, then
    the epoch that is held, and it looks for the receipt.

    Which handler a packet meets is decided when it leaves the queue.  The
    signal policy (src/signal_policy.c) puts its protective handler, which counts
    every delivery as unexpected, on a signal it reserves or moves to; the
    controller replaces it by its own before the next stop; a signal given up
    gets the default action back, and the application may put a handler there.
    Any signal may go through these changes at any time here. *)

From Stdlib Require Import ZArith Lia.
From stdpp Require Import base list gmap.
From S2P Require Import Prelude ExecEnv SignalPolicy.
Import Policy.
#[local] Open Scope Z_scope.

Module Ledger.

(** ** Receipts *)

Definition PUBLISHED : Z := 1.
Definition SENT : Z := 2.
Definition SEEN : Z := 4.
Definition RETIRED : Z := 8.
Definition RECEIPT_FLAGS : Z := 15.

Record PeakDetachSignalReceipt := mkReceipt {
  state : Z;
  epoch : Z;
  tid : Z;
  signum : Z
}.
Definition no_receipt : PeakDetachSignalReceipt := mkReceipt 0 0 0 0.
Definition set_state (s : Z) (r : PeakDetachSignalReceipt) : PeakDetachSignalReceipt := mkReceipt s (epoch r) (tid r) (signum r).

Record PeakDetachSignalReceiptReference := mkReference { index : nat; tag : Z }.

(** [state & mask == mask], [state & mask == 0] *)
Definition all_of (state mask : Z) : bool := Z.land state mask =? mask.
Definition none_of (state mask : Z) : bool := Z.land state mask =? 0.

Definition peak_detach_controller_signal_receipt_tag (state : Z) : Z := Z.ldiff state RECEIPT_FLAGS.

(** The ledger of the controller, and what it asks of the kernel: which threads
    are alive. *)
Record ledger := mkLedger {
  signal_receipts : list PeakDetachSignalReceipt;
  signal_receipt_next_ticket : Z;
  signal_receipt_high_water : nat
}.
Definition set_receipts (rs : list PeakDetachSignalReceipt) (l : ledger) : ledger :=
  mkLedger rs (signal_receipt_next_ticket l) (signal_receipt_high_water l).

(** The word of the receipt a reference names changes if it is still the same
    allocation. *)
Definition update_tagged (f : Z -> Z) (t : Z) (r : PeakDetachSignalReceipt) : PeakDetachSignalReceipt :=
  if peak_detach_controller_signal_receipt_tag (state r) =? t then set_state (f (state r)) r else r.

Definition peak_detach_controller_signal_receipt_add_flags (reference : PeakDetachSignalReceiptReference) (flags : Z) (l : ledger)
    : ledger :=
  set_receipts (alter (update_tagged (fun s => Z.lor s flags) (tag reference)) (index reference) (signal_receipts l)) l.

Definition peak_detach_controller_signal_receipt_discard (reference : PeakDetachSignalReceiptReference) (l : ledger) : ledger :=
  set_receipts (alter (update_tagged (fun _ => 0) (tag reference)) (index reference) (signal_receipts l)) l.

(** The test of [peak_detach_controller_signal_receipts_reap_exited]:
    [alive tid] is the answer of [tgkill] with signal 0. *)
Definition reapable (hold_epoch : Z) (alive : Z -> bool) (r : PeakDetachSignalReceipt) : bool :=
  (Z.land (state r) (Z.lor RETIRED (Z.lor SENT SEEN)) =? Z.lor RETIRED SENT) &&
  negb ((epoch r <=? 0) || (epoch r =? hold_epoch) || (tid r <=? 0)) && negb (alive (tid r)).

Definition peak_detach_controller_signal_receipts_reap_exited (hold_epoch : Z) (alive : Z -> bool) (l : ledger) : nat * ledger :=
  let reap r := if reapable hold_epoch alive r then set_state 0 r else r in
  let n := signal_receipt_high_water l in
  (countb (reapable hold_epoch alive) (take n (signal_receipts l)),
   set_receipts (map reap (take n (signal_receipts l)) ++ drop n (signal_receipts l)) l).

(** An unconsumed receipt for the same packet. *)
Definition identity_pending (e t s : Z) (r : PeakDetachSignalReceipt) : bool :=
  negb (state r =? 0) && none_of (state r) SEEN && (epoch r =? e) && (tid r =? t) && (signum r =? s).

(** [retry_allocation]: the first receipt that is free, or sent and seen;
    the reclaimed word is 0. *)
Definition reclaimable (r : PeakDetachSignalReceipt) : bool := (state r =? 0) || all_of (state r) (Z.lor SENT SEEN).
Fixpoint find_free (rs : list PeakDetachSignalReceipt) : option nat :=
  match rs with
  | [] => None
  | r :: rs => if reclaimable r then Some O else option_map S (find_free rs)
  end.

Definition publish_receipt (i : nat) (e t s : Z) (l : ledger) : PeakDetachSignalReceiptReference * ledger :=
  let tag := wrap 64 (Z.shiftl (signal_receipt_next_ticket l) 4) in
  (mkReference i tag,
   mkLedger (<[i := mkReceipt (Z.lor tag PUBLISHED) e t s]> (signal_receipts l)) (signal_receipt_next_ticket l + 1)
     (Nat.max (signal_receipt_high_water l) (i + 1))).

Definition UINT64_MAX_TICKET : Z := Z.shiftr UINT64_MAX 4.

Definition peak_detach_controller_signal_receipt_reserve (hold_epoch : Z) (alive : Z -> bool) (e t s : Z) (l : ledger)
    : option PeakDetachSignalReceiptReference * ledger :=
  if existsb (identity_pending e t s) (take (signal_receipt_high_water l) (signal_receipts l)) then (None, l)
  else if UINT64_MAX_TICKET <? signal_receipt_next_ticket l then (None, l)
  else
    match find_free (signal_receipts l) with
    | Some i => let '(r, l) := publish_receipt i e t s l in (Some r, l)
    | None =>
        let '(reaped, l) := peak_detach_controller_signal_receipts_reap_exited hold_epoch alive l in
        if (reaped =? 0)%nat then (None, l)
        else
          match find_free (signal_receipts l) with
          | Some i => let '(r, l) := publish_receipt i e t s l in (Some r, l)
          | None => (None, l)
          end
    end.

(** Sent receipts of the epoch wait for their packet; the others are freed. *)
Definition retire (e : Z) (r : PeakDetachSignalReceipt) : PeakDetachSignalReceipt :=
  if (state r =? 0) || negb (epoch r =? e) then r
  else set_state (if negb (none_of (state r) SENT) then Z.lor (state r) RETIRED else 0) r.
Definition peak_detach_controller_signal_receipts_retire_epoch (e : Z) (l : ledger) : ledger :=
  let n := signal_receipt_high_water l in
  set_receipts (map (retire e) (take n (signal_receipts l)) ++ drop n (signal_receipts l)) l.

(** The packets of the parent's threads do not survive a fork. *)
Definition peak_detach_controller_signal_receipts_after_fork_child (l : ledger) : ledger :=
  if signal_receipt_next_ticket l =? 1 then l else set_receipts (map (set_state 0) (signal_receipts l)) l.

(** ** Packets and handlers *)

Section Cookies.
Context (base : Z).

(** [peak_signal_policy_cookie_matches_async] for a packet of this process. *)
Definition cookie_matches (cookie e t : Z) : bool :=
  let c := peak_signal_policy_cookie_from_base base e t in negb (c =? 0) && (cookie =? c).

(** A receipt the handler may claim for a packet. *)
Definition claimable (signo t cookie : Z) (retired_only : bool) (r : PeakDetachSignalReceipt) : bool :=
  negb (state r =? 0) && (tid r =? t) && (signum r =? signo) && cookie_matches cookie (epoch r) t &&
  none_of (state r) SEEN && (negb retired_only || all_of (state r) (Z.lor SENT RETIRED)).

Fixpoint note_seen (rs : list PeakDetachSignalReceipt) (signo t cookie : Z) (retired_only : bool)
    : option (list PeakDetachSignalReceipt) :=
  match rs with
  | [] => None
  | r :: rs =>
      if claimable signo t cookie retired_only r then Some (set_state (Z.lor (state r) SEEN) r :: rs)
      else option_map (cons r) (note_seen rs signo t cookie retired_only)
  end.
Definition peak_detach_controller_signal_receipt_note_seen (signo t cookie : Z) (retired_only : bool) (l : ledger) : bool * ledger :=
  match note_seen (signal_receipts l) signo t cookie retired_only with
  | Some rs => (true, set_receipts rs l)
  | None => (false, l)
  end.

(** The first test of [peak_detach_controller_signal_handler]: is the packet
    one of the epoch that is held? *)
Definition current_packet (backend_signum hold_epoch signo t cookie : Z) : bool :=
  negb (negb (signo =? backend_signum) || (hold_epoch =? 0) || negb (cookie_matches cookie hold_epoch t)).

(** What the handler then does with the ledger and the count of unexpected
    deliveries. *)
Definition handler_receipt (backend_signum signo t cookie : Z) (current : bool) (l : ledger) (unexpected : Z) : ledger * Z :=
  if current then ((peak_detach_controller_signal_receipt_note_seen signo t cookie false l).2, unexpected)
  else
    let '(consumed, l) := peak_detach_controller_signal_receipt_note_seen signo t cookie true l in
    (l, if negb consumed && (signo =? backend_signum) then to_int (unexpected + 1) else unexpected).

(** ** The system *)

Record packet := mkPacket { pk_epoch : Z; pk_tid : Z; pk_signum : Z; pk_cookie : Z }.

(** Where a packet is: queued at its thread; taken by the handler; the handler
    has loaded the backend's signal; it has loaded the held epoch too. *)
Inductive place := Queued | Entered | LoadedSignum (backend_signum : Z) | Loaded (backend_signum : Z) (current : bool).

(** Where the controller is in [peak_detach_controller_signal_stop_threads_impl]
    and the release that ends it, with the receipts it holds references to. *)
Inductive phase :=
| Idle
| Reserving (e : Z) (reserved : list (Z * PeakDetachSignalReceiptReference))
| Sending (e : Z) (todo : list (Z * PeakDetachSignalReceiptReference))
| Marking (e : Z) (todo : list (Z * PeakDetachSignalReceiptReference)) (sent : PeakDetachSignalReceiptReference)
| Holding (e : Z)
| Releasing (e : Z).

Inductive handler := Controller | Protective | Other.

(** The handlers of the signals.  Ghost: the signals the backend has been bound
    to so far; whether one of them got the protective handler again; how many
    packets of the backend met it. *)
Record dispositions := mkDispositions {
  handlers : gmap Z handler;
  bound : gset Z;
  returned : bool;
  stray : Z
}.
Definition handler_of (n : Z) (d : dispositions) : handler := default Other (handlers d !! n).

(** [peak_signal_policy_install_protective_handler],
    [peak_detach_controller_install_signal_backend_handler] and
    [peak_signal_policy_restore_default_handler] (or the application) *)
Definition protect_signal (n : Z) (d : dispositions) : dispositions :=
  mkDispositions (<[n := Protective]> (handlers d)) (bound d) (returned d || bool_decide (n ∈ bound d)) (stray d).
Definition bind_signal (n : Z) (d : dispositions) : dispositions :=
  mkDispositions (<[n := Controller]> (handlers d)) ({[n]} ∪ bound d) (returned d) (stray d).
Definition leave_signal (n : Z) (d : dispositions) : dispositions :=
  mkDispositions (<[n := Other]> (handlers d)) (bound d) (returned d) (stray d).
Definition count_stray (d : dispositions) : dispositions :=
  mkDispositions (handlers d) (bound d) (returned d) (stray d + 1).

(** [peak_signal_policy_protective_handler] *)
Definition protective_handler (unexpected : Z) : Z := to_int (unexpected + 1).

Record system := mkSystem {
  receipts : ledger;
  signal_hold_epoch : Z;
  signal_epoch_counter : Z;
  backend_signum : Z;
  unexpected_deliveries : Z;
  threads : gset Z;
  flight : list (packet * place);
  at_phase : phase;
  (** how many packets of others came in on a signal with a handler of PEAK's *)
  foreign : Z;
  signals : dispositions
}.

Definition alive (s : system) (t : Z) : bool := bool_decide (t ∈ threads s).

Definition discard_all (refs : list (Z * PeakDetachSignalReceiptReference)) (l : ledger) : ledger :=
  foldl (fun l r => peak_detach_controller_signal_receipt_discard r.2 l) l refs.

Definition with_ledger (l : ledger) (ph : phase) (s : system) : system :=
  mkSystem l (signal_hold_epoch s) (signal_epoch_counter s) (backend_signum s) (unexpected_deliveries s) (threads s) (flight s) ph
    (foreign s) (signals s).
Definition with_hold (e : Z) (s : system) : system :=
  mkSystem (receipts s) e (signal_epoch_counter s) (backend_signum s) (unexpected_deliveries s) (threads s) (flight s) (at_phase s)
    (foreign s) (signals s).
Definition with_flight (f : list (packet * place)) (s : system) : system :=
  mkSystem (receipts s) (signal_hold_epoch s) (signal_epoch_counter s) (backend_signum s) (unexpected_deliveries s) (threads s) f
    (at_phase s) (foreign s) (signals s).

Definition with_signals (d : dispositions) (s : system) : system :=
  mkSystem (receipts s) (signal_hold_epoch s) (signal_epoch_counter s) (backend_signum s) (unexpected_deliveries s) (threads s) (flight s)
    (at_phase s) (foreign s) d.

(** What [peak_signal_policy_send_thread_signal] queues. *)
Definition own_packet (s : system) (e t : Z) : packet :=
  mkPacket e t (backend_signum s) (peak_signal_policy_cookie_from_base base e t).

Definition int_positive (x : Z) : Prop := 0 < x < 2 ^ 31.

Inductive step : system -> system -> Prop :=
(** a new stop takes the next epoch *)
| start_stop s : at_phase s = Idle -> 0 < signal_epoch_counter s < INT_MAX ->
    step s (mkSystem (receipts s) (signal_epoch_counter s) (signal_epoch_counter s + 1) (backend_signum s)
              (unexpected_deliveries s) (threads s) (flight s) (Reserving (signal_epoch_counter s) []) (foreign s) (signals s))
(** between stops the backend may move to another signal *)
| rebind s n : at_phase s = Idle ->
    step s (mkSystem (receipts s) (signal_hold_epoch s) (signal_epoch_counter s) n
              (unexpected_deliveries s) (threads s) (flight s) Idle (foreign s)
              (bind_signal n (signals s)))
(** the policy reserves a signal, or moves there; the old one gets its default
    action back, and the application sets the handlers of its signals *)
| protect s n : step s (with_signals (protect_signal n (signals s)) s)
| leave s n : step s (with_signals (leave_signal n (signals s)) s)
| reserve_one s e refs t r l : at_phase s = Reserving e refs -> int_positive t ->
    peak_detach_controller_signal_receipt_reserve (signal_hold_epoch s) (alive s) e t (backend_signum s) (receipts s) = (Some r, l) ->
    step s (with_ledger l (Reserving e (refs ++ [(t, r)])) s)
| reserve_fails s e refs t l : at_phase s = Reserving e refs -> int_positive t ->
    peak_detach_controller_signal_receipt_reserve (signal_hold_epoch s) (alive s) e t (backend_signum s) (receipts s) = (None, l) ->
    step s (with_hold 0 (with_ledger (discard_all refs l) Idle s))
(** the threads cannot be listed, or one of them blocks the signal *)
| survey_fails s e : at_phase s = Reserving e [] -> step s (with_hold 0 (with_ledger (receipts s) Idle s))
| contaminated s e refs : at_phase s = Reserving e refs -> unexpected_deliveries s <> 0 ->
    step s (with_hold 0 (with_ledger (discard_all refs (receipts s)) Idle s))
| begin_sending s e refs : at_phase s = Reserving e refs -> unexpected_deliveries s = 0 ->
    step s (with_ledger (receipts s) (Sending e refs) s)
(** [peak_detach_controller_signal_send_owned]: the packet is queued, then the
    receipt is marked *)
| send_one s e t r todo : at_phase s = Sending e ((t, r) :: todo) -> alive s t = true ->
    step s (with_flight (flight s ++ [(own_packet s e t, Queued)]) (with_ledger (receipts s) (Marking e todo r) s))
| mark_sent s e todo r : at_phase s = Marking e todo r ->
    step s (with_ledger (peak_detach_controller_signal_receipt_add_flags r SENT (receipts s)) (Sending e todo) s)
(** the thread is gone *)
| send_gone s e t r todo : at_phase s = Sending e ((t, r) :: todo) -> alive s t = false ->
    step s (with_ledger (peak_detach_controller_signal_receipt_discard r (receipts s)) (Sending e todo) s)
(** another error: everything is released *)
| send_fails s e t r todo : at_phase s = Sending e ((t, r) :: todo) ->
    step s (with_ledger (peak_detach_controller_signal_receipts_retire_epoch e
                           (peak_detach_controller_signal_receipt_discard r (receipts s))) (Releasing e) s)
| all_sent s e : at_phase s = Sending e [] -> step s (with_ledger (receipts s) (Holding e) s)
(** a thread found later, [peak_detach_controller_signal_admit_thread] *)
| admit_one s e t r l : at_phase s = Holding e -> int_positive t ->
    peak_detach_controller_signal_receipt_reserve (signal_hold_epoch s) (alive s) e t (backend_signum s) (receipts s) = (Some r, l) ->
    step s (with_ledger l (Sending e [(t, r)]) s)
| admit_fails s e t l : at_phase s = Holding e -> int_positive t ->
    peak_detach_controller_signal_receipt_reserve (signal_hold_epoch s) (alive s) e t (backend_signum s) (receipts s) = (None, l) ->
    step s (with_ledger l (Holding e) s)
(** [peak_detach_controller_signal_release]: the receipts, then the epoch *)
| release s e : at_phase s = Holding e ->
    step s (with_ledger (peak_detach_controller_signal_receipts_retire_epoch e (receipts s)) (Releasing e) s)
| released s e : at_phase s = Releasing e ->
    step s (with_hold 0 (with_ledger (receipts s) Idle s))
(** threads come and go, their queue goes with them *)
| thread_starts s t : alive s t = false ->
    step s (mkSystem (receipts s) (signal_hold_epoch s) (signal_epoch_counter s) (backend_signum s) (unexpected_deliveries s)
              ({[t]} ∪ threads s) (flight s) (at_phase s) (foreign s) (signals s))
| thread_exits s t : alive s t = true ->
    step s (mkSystem (receipts s) (signal_hold_epoch s) (signal_epoch_counter s) (backend_signum s) (unexpected_deliveries s)
              (threads s ∖ {[t]}) (List.filter (fun f => negb (pk_tid f.1 =? t)) (flight s)) (at_phase s) (foreign s) (signals s))
(** the child of a fork goes on with one thread, which has no queue; the caller
    was not between the entry of a handler and its claim *)
| fork_child s t t' : at_phase s = Idle -> (forall k pl, (k, pl) ∈ flight s -> pk_tid k = t -> pl = Queued) ->
    step s (mkSystem (peak_detach_controller_signal_receipts_after_fork_child (receipts s)) (signal_hold_epoch s)
              (signal_epoch_counter s) (backend_signum s) (unexpected_deliveries s) {[t']} [] Idle (foreign s) (signals s))
(** [peak_detach_controller_signal_handler] *)
| handler_entered s f1 k f2 : flight s = f1 ++ (k, Queued) :: f2 -> handler_of (pk_signum k) (signals s) = Controller ->
    step s (with_flight (f1 ++ (k, Entered) :: f2) s)
(** a packet that meets the protective handler, or none of PEAK's *)
| protective_delivery s f1 k f2 : flight s = f1 ++ (k, Queued) :: f2 -> handler_of (pk_signum k) (signals s) = Protective ->
    step s (mkSystem (receipts s) (signal_hold_epoch s) (signal_epoch_counter s) (backend_signum s)
              (protective_handler (unexpected_deliveries s)) (threads s) (f1 ++ f2) (at_phase s) (foreign s)
              (count_stray (signals s)))
| other_delivery s f1 k f2 : flight s = f1 ++ (k, Queued) :: f2 -> handler_of (pk_signum k) (signals s) = Other ->
    step s (with_flight (f1 ++ f2) s)
| handler_loads_signum s f1 k f2 : flight s = f1 ++ (k, Entered) :: f2 ->
    step s (with_flight (f1 ++ (k, LoadedSignum (backend_signum s)) :: f2) s)
| handler_loads_epoch s f1 k n f2 : flight s = f1 ++ (k, LoadedSignum n) :: f2 ->
    step s (with_flight (f1 ++ (k, Loaded n
              (current_packet n (signal_hold_epoch s) (pk_signum k) (pk_tid k) (pk_cookie k))) :: f2) s)
| handler_claims s f1 k n current f2 l u : flight s = f1 ++ (k, Loaded n current) :: f2 ->
    handler_receipt n (pk_signum k) (pk_tid k) (pk_cookie k) current (receipts s) (unexpected_deliveries s) = (l, u) ->
    step s (mkSystem l (signal_hold_epoch s) (signal_epoch_counter s) (backend_signum s) u (threads s) (f1 ++ f2) (at_phase s) (foreign s) (signals s))
(** a packet of someone else on the backend's signal: no cookie of this thread *)
| foreign_packet s t cookie l u : handler_of (backend_signum s) (signals s) = Controller ->
    (forall e, cookie_matches cookie e t = false) ->
    handler_receipt (backend_signum s) (backend_signum s) t cookie
      (current_packet (backend_signum s) (signal_hold_epoch s) (backend_signum s) t cookie) (receipts s) (unexpected_deliveries s) = (l, u) ->
    step s (mkSystem l (signal_hold_epoch s) (signal_epoch_counter s) (backend_signum s) u (threads s) (flight s) (at_phase s)
              (foreign s + 1) (signals s))
(** or on a signal with the protective handler *)
| foreign_protected s n : handler_of n (signals s) = Protective ->
    step s (mkSystem (receipts s) (signal_hold_epoch s) (signal_epoch_counter s) (backend_signum s)
              (protective_handler (unexpected_deliveries s)) (threads s) (flight s) (at_phase s) (foreign s + 1)
              (signals s)).

Inductive steps : system -> system -> Prop :=
| steps_refl s : steps s s
| steps_snoc s s1 s2 : steps s s1 -> step s1 s2 -> steps s s2.

(** [capacity] receipts, all free. *)
Definition start_system (capacity : nat) (signum : Z) (ts : gset Z) : system :=
  mkSystem (mkLedger (replicate capacity no_receipt) 1 0) 0 1 signum 0 ts [] Idle 0
    (mkDispositions {[signum := Controller]} {[signum]} false 0).

End Cookies.

End Ledger.
