(* ===== verification/SignalLedgerProofs.v ===== *)
(** * No packet of PEAK's is unexpected

    The invariant of the ledger of stop packets and its preservation by every
    step of the controller, the handlers and the threads. *)

From Stdlib Require Import ZArith Lia String.
From stdpp Require Import base list gmap.
From S2P Require Import Prelude ExecEnv SignalPolicy SignalPolicyProofs SignalCalls SignalLease SignalGuarantees SignalTheorems SignalLedger.
Import Policy Ledger.
#[local] Open Scope Z_scope.

Module LedgerProofs.

(** ** Words *)

Definition sent (r : PeakDetachSignalReceipt) : bool := Z.testbit (state r) 1.
Definition seen (r : PeakDetachSignalReceipt) : bool := Z.testbit (state r) 2.
Definition retired (r : PeakDetachSignalReceipt) : bool := Z.testbit (state r) 3.
Definition used (r : PeakDetachSignalReceipt) : bool := negb (state r =? 0).
Definition unseen (r : PeakDetachSignalReceipt) : bool := used r && negb (seen r).
Definition ticket (r : PeakDetachSignalReceipt) : Z := peak_detach_controller_signal_receipt_tag (state r).

(** A test of flags only sees the low four bits. *)
Lemma land_low4 s m : 0 <= m < 16 -> Z.land s m = Z.land (s mod 16) m.
Proof.
  intros Hm. change 16 with (2 ^ 4). rewrite <- Z.land_ones by lia. rewrite <- Z.land_assoc. f_equal.
  rewrite Z.land_comm, Z.land_ones by lia. symmetry. apply Z.mod_small. lia.
Qed.

Lemma testbit_low4 s i : 0 <= i < 4 -> Z.testbit s i = Z.testbit (s mod 16) i.
Proof. intros Hi. change 16 with (2 ^ 4). by rewrite Z.mod_pow2_bits_low by lia. Qed.

Lemma flag_tests s :
  none_of s SEEN = negb (Z.testbit s 2) /\ none_of s SENT = negb (Z.testbit s 1) /\
  all_of s (Z.lor SENT SEEN) = Z.testbit s 1 && Z.testbit s 2 /\
  all_of s (Z.lor SENT RETIRED) = Z.testbit s 1 && Z.testbit s 3 /\
  (Z.land s (Z.lor RETIRED (Z.lor SENT SEEN)) =? Z.lor RETIRED SENT) = Z.testbit s 1 && negb (Z.testbit s 2) && Z.testbit s 3.
Proof.
  unfold none_of, all_of, SEEN, SENT, RETIRED.
  change (Z.lor 2 4) with 6. change (Z.lor 2 8) with 10. change (Z.lor 8 6) with 14. change (Z.lor 8 2) with 10.
  rewrite (land_low4 s 4), (land_low4 s 2), (land_low4 s 6), (land_low4 s 10), (land_low4 s 14) by lia.
  rewrite (testbit_low4 s 1), (testbit_low4 s 2), (testbit_low4 s 3) by lia.
  pose proof (Z.mod_pos_bound s 16 ltac:(lia)) as Hr. set (f := s mod 16) in *. clearbody f.
  assert (Hin : f ∈ seqZ 0 16) by (apply elem_of_seqZ; lia). clear Hr.
  assert (HF : Forall (fun f =>
    (Z.land f 4 =? 0) = negb (Z.testbit f 2) /\ (Z.land f 2 =? 0) = negb (Z.testbit f 1) /\
    (Z.land f 6 =? 6) = Z.testbit f 1 && Z.testbit f 2 /\
    (Z.land f 10 =? 10) = Z.testbit f 1 && Z.testbit f 3 /\
    (Z.land f 14 =? 10) = Z.testbit f 1 && negb (Z.testbit f 2) && Z.testbit f 3) (seqZ 0 16)).
  { refine (bool_decide_unpack _ _). vm_compute. exact I. }
  rewrite Forall_forall in HF. by apply HF.
Qed.

Lemma lor_flag_bits s m i : 0 <= i -> Z.testbit (Z.lor s m) i = Z.testbit s i || Z.testbit m i.
Proof. intros _. apply Z.lor_spec. Qed.

Lemma testbit_small x n : 0 <= n -> 0 <= x < 2 ^ n -> Z.testbit x n = false.
Proof.
  intros Hn Hx. destruct (decide (x = 0)) as [->|]; [apply Z.testbit_0_l|]. apply Z.bits_above_log2; [lia|]. apply Z.log2_lt_pow2; lia.
Qed.

Lemma tag_lor s m : 0 <= m < 16 ->
  peak_detach_controller_signal_receipt_tag (Z.lor s m) = peak_detach_controller_signal_receipt_tag s.
Proof.
  intros Hm. unfold peak_detach_controller_signal_receipt_tag, RECEIPT_FLAGS. apply Z.bits_inj'. intros n Hn.
  rewrite !Z.ldiff_spec, Z.lor_spec. change 15 with (Z.ones 4).
  destruct (decide (n < 4)); [rewrite Z.ones_spec_low by lia; by rewrite !andb_false_r|].
  rewrite Z.ones_spec_high by lia. cbn [negb]. rewrite !andb_true_r.
  replace (Z.testbit m n) with false; [by rewrite orb_false_r|]. symmetry.
  apply testbit_small; [lia|]. pose proof (Z.pow_le_mono_r 2 4 n ltac:(lia) ltac:(lia)). lia.
Qed.

Lemma lor_nonzero s m : m <> 0 -> Z.lor s m <> 0.
Proof. intros Hm H. apply Z.lor_eq_0_iff in H. by destruct H. Qed.

(** A fresh word. *)
Lemma fresh_word k : 0 < k <= UINT64_MAX_TICKET ->
  let w := Z.lor (wrap 64 (Z.shiftl k 4)) PUBLISHED in
  w <> 0 /\ Z.testbit w 1 = false /\ Z.testbit w 2 = false /\ Z.testbit w 3 = false /\
  peak_detach_controller_signal_receipt_tag w = wrap 64 (Z.shiftl k 4).
Proof.
  intros Hk. cbv zeta. unfold PUBLISHED.
  assert (Hw : wrap 64 (Z.shiftl k 4) = Z.shiftl k 4).
  { apply wrap_small. rewrite Z.shiftl_mul_pow2 by lia. change UINT64_MAX_TICKET with (2 ^ 60 - 1) in Hk. lia. }
  rewrite Hw. split; [by apply lor_nonzero|].
  repeat (split; [rewrite Z.lor_spec, Z.shiftl_spec_low by lia; reflexivity|]).
  rewrite tag_lor by lia. unfold peak_detach_controller_signal_receipt_tag, RECEIPT_FLAGS.
  apply Z.bits_inj'. intros n Hn. rewrite Z.ldiff_spec. change 15 with (Z.ones 4). destruct (decide (n < 4)).
  - by rewrite Z.shiftl_spec_low by lia.
  - rewrite Z.ones_spec_high by lia. by rewrite andb_true_r.
Qed.

(** ** Lists *)

Lemma map_prefix_lookup {A} (f : A -> A) n (l : list A) i :
  (map f (take n l) ++ drop n l) !! i = (if (i <? n)%nat then f else id) <$> l !! i.
Proof.
  revert l i. induction n as [|n IH]; intros l i; cbn [take map app].
  - rewrite drop_0. cbn. by rewrite option_fmap_id.
  - destruct l as [|x l]; [by destruct i; rewrite ?fmap_None|]. destruct i as [|i]; [done|]. cbn. apply IH.
Qed.

Lemma note_seen_some base rs signo t c ro rs' : note_seen base rs signo t c ro = Some rs' ->
  exists i r, rs !! i = Some r /\ claimable base signo t c ro r = true /\ rs' = <[i := set_state (Z.lor (state r) SEEN) r]> rs.
Proof.
  revert rs'. induction rs as [|r rs IH]; intros rs' H; [discriminate|]. cbn [note_seen] in H.
  destruct (claimable base signo t c ro r) eqn:E.
  - injection H as <-. by exists O, r.
  - destruct (note_seen base rs signo t c ro) as [rs1|]; [|discriminate]. injection H as <-.
    destruct (IH _ eq_refl) as (i & r' & A & B & ->). exists (S i), r'. done.
Qed.

Lemma note_seen_none base rs signo t c ro : note_seen base rs signo t c ro = None ->
  forall i r, rs !! i = Some r -> claimable base signo t c ro r = false.
Proof.
  induction rs as [|r rs IH]; intros H i r' Hi; [done|]. cbn [note_seen] in H.
  destruct (claimable base signo t c ro r) eqn:E; [discriminate|].
  destruct (note_seen base rs signo t c ro); [discriminate|]. destruct i as [|i]; [by injection Hi as <-|]. by apply (IH eq_refl i).
Qed.

Lemma find_free_some rs i : find_free rs = Some i -> exists r, rs !! i = Some r /\ reclaimable r = true.
Proof.
  revert i. induction rs as [|r rs IH]; intros i H; [discriminate|]. cbn [find_free] in H.
  destruct (reclaimable r) eqn:E; [injection H as <-; by exists r|].
  destruct (find_free rs) as [j|]; [|discriminate]. injection H as <-. by apply IH.
Qed.

(** ** The invariant *)

Definition identity (r : PeakDetachSignalReceipt) : Z * Z * Z := (epoch r, tid r, signum r).
Definition packet_identity (k : packet) : Z * Z * Z := (pk_epoch k, pk_tid k, pk_signum k).

Record ledger_ok (counter : Z) (l : ledger) : Prop := mkLedgerOk {
  ok_ticket : 0 < signal_receipt_next_ticket l;
  ok_high : forall i r, signal_receipts l !! i = Some r -> used r = true -> (i < signal_receipt_high_water l)%nat;
  ok_range : forall i r, signal_receipts l !! i = Some r -> used r = true -> 0 < epoch r < counter /\ int_positive (tid r);
  ok_unique : forall i j r r', signal_receipts l !! i = Some r -> signal_receipts l !! j = Some r' ->
    unseen r = true -> unseen r' = true -> identity r = identity r' -> i = j
}.

(** Receipts keep their identity and are only consumed or freed. *)
Definition shrinks (rs rs' : list PeakDetachSignalReceipt) : Prop := forall i r', rs' !! i = Some r' ->
  exists r, rs !! i = Some r /\ identity r' = identity r /\ (used r' = true -> used r = true) /\ (unseen r' = true -> unseen r = true).

Lemma shrinks_refl rs : shrinks rs rs.
Proof. intros i r H. by exists r. Qed.

Lemma shrinks_trans rs1 rs2 rs3 : shrinks rs1 rs2 -> shrinks rs2 rs3 -> shrinks rs1 rs3.
Proof.
  intros H1 H2 i r3 H. destruct (H2 _ _ H) as (r2 & A & B & C & D). destruct (H1 _ _ A) as (r1 & A1 & B1 & C1 & D1).
  exists r1. split; [done|]. split; [congruence|]. auto.
Qed.

Lemma shrinks_ok counter l rs' : ledger_ok counter l -> shrinks (signal_receipts l) rs' -> ledger_ok counter (set_receipts rs' l).
Proof.
  intros [A B C D] H. split; cbn.
  - done.
  - intros i r Hr Hu. destruct (H _ _ Hr) as (r0 & R & _ & U & _). eauto.
  - intros i r Hr Hu. destruct (H _ _ Hr) as (r0 & R & I & U & _). injection I as -> -> _. eauto.
  - intros i j r r' Hr Hr' Hu Hu' Hi. destruct (H _ _ Hr) as (r0 & R & I & _ & U). destruct (H _ _ Hr') as (r1 & R1 & I1 & _ & U1).
    eapply D; [exact R|exact R1|auto|auto|congruence].
Qed.

Lemma unseen_split r : unseen r = true <-> used r = true /\ seen r = false.
Proof. unfold unseen. rewrite andb_true_iff, negb_true_iff. done. Qed.

(** A word that gets flags, or becomes free. *)
Lemma shrink_word (f : Z -> Z) r : f (state r) = 0 \/ (exists m, 0 <= m < 16 /\ f (state r) = Z.lor (state r) m /\ used r = true) ->
  let r' := set_state (f (state r)) r in
  identity r' = identity r /\ (used r' = true -> used r = true) /\ (unseen r' = true -> unseen r = true).
Proof.
  intros H. cbv zeta. split; [done|]. unfold unseen, used, seen. cbn [state set_state]. destruct H as [->|(m & Hm & -> & Hu)]; [done|].
  unfold used in Hu. split; [done|]. intros [_ H]%andb_true_iff. rewrite Hu. rewrite Z.lor_spec in H.
  apply negb_true_iff, orb_false_iff in H as [-> _]. done.
Qed.

Lemma alter_shrinks f t i rs :
  (forall s, f s = 0 \/ exists m, 0 <= m < 16 /\ m <> 0 /\ f s = Z.lor s m) -> t <> 0 ->
  shrinks rs (alter (update_tagged f t) i rs).
Proof.
  intros Hf Ht j r' H. destruct (decide (i = j)) as [->|Hne].
  - rewrite list_lookup_alter_eq in H. destruct (rs !! j) as [r|] eqn:E; [|done]. injection H as <-. exists r. split; [done|].
    unfold update_tagged. destruct (Z.eqb_spec (peak_detach_controller_signal_receipt_tag (state r)) t) as [Htag|]; [|done].
    apply (shrink_word f). destruct (Hf (state r)) as [H0|(m & Hm & _ & Hl)]; [by left|right]. exists m. split; [done|]. split; [done|].
    unfold used. destruct (Z.eqb_spec (state r) 0) as [E0|]; [|done]. rewrite E0 in Htag. by vm_compute in Htag.
  - rewrite list_lookup_alter_ne in H by done. by exists r'.
Qed.

Lemma map_prefix_shrinks (g : PeakDetachSignalReceipt -> PeakDetachSignalReceipt) n rs :
  (forall r, identity (g r) = identity r /\ (used (g r) = true -> used r = true) /\ (unseen (g r) = true -> unseen r = true)) ->
  shrinks rs (map g (take n rs) ++ drop n rs).
Proof.
  intros Hg i r' H. rewrite map_prefix_lookup in H. destruct (rs !! i) as [r|] eqn:E; [|done]. injection H as <-. exists r.
  split; [done|]. destruct (i <? n)%nat; [apply Hg|done].
Qed.

(** ** Reserving *)

Definition reaped (hold : Z) (al : Z -> bool) (l : ledger) : list PeakDetachSignalReceipt :=
  signal_receipts (peak_detach_controller_signal_receipts_reap_exited hold al l).2.

Lemma reap_shrinks hold al l : shrinks (signal_receipts l) (reaped hold al l).
Proof.
  apply map_prefix_shrinks. intros r. destruct (reapable hold al r); [|done]. apply (shrink_word (fun _ => 0)). by left.
Qed.

Lemma reap_keeps hold al l i r : signal_receipts l !! i = Some r -> reapable hold al r = false -> reaped hold al l !! i = Some r.
Proof.
  intros H Hr. unfold reaped, peak_detach_controller_signal_receipts_reap_exited. cbn [snd signal_receipts set_receipts].
  rewrite map_prefix_lookup, H. destruct (i <? signal_receipt_high_water l)%nat; cbn [fmap option_fmap option_map]; [by rewrite Hr|done].
Qed.

Lemma reap_used hold al l i r : reaped hold al l !! i = Some r -> used r = true -> signal_receipts l !! i = Some r.
Proof.
  unfold reaped, peak_detach_controller_signal_receipts_reap_exited. cbn [snd signal_receipts set_receipts].
  rewrite map_prefix_lookup. destruct (signal_receipts l !! i) as [q|]; [|done].
  destruct (i <? signal_receipt_high_water l)%nat; cbn [fmap option_fmap option_map]; [|done].
  destruct (reapable hold al q); [|done]. by intros [= <-].
Qed.

Lemma reapable_spec hold al r : reapable hold al r = true -> sent r = true /\ retired r = true /\ al (tid r) = false.
Proof.
  unfold reapable. destruct (flag_tests (state r)) as (_ & _ & _ & _ & ->). rewrite !andb_true_iff, !negb_true_iff.
  intros [[[[A B] C] _] D]. done.
Qed.

Lemma reclaimable_spec r : reclaimable r = true -> unseen r = false.
Proof.
  unfold reclaimable, unseen, used, seen. destruct (flag_tests (state r)) as (_ & _ & -> & _ & _).
  destruct (state r =? 0); [done|]. cbn. intros [_ ->]%andb_true_iff. done.
Qed.

Lemma identity_pending_spec e t g r : identity_pending e t g r = unseen r && bool_decide (identity r = (e, t, g)).
Proof.
  unfold identity_pending, unseen, used, seen, identity. destruct (flag_tests (state r)) as (-> & _).
  destruct (state r =? 0), (Z.testbit (state r) 2); cbn; try done.
  destruct (Z.eqb_spec (epoch r) e), (Z.eqb_spec (tid r) t), (Z.eqb_spec (signum r) g); cbn; symmetry;
    try (apply bool_decide_true; congruence); apply bool_decide_false; congruence.
Qed.

Definition published (counter e t g : Z) (rs : list PeakDetachSignalReceipt) (x : PeakDetachSignalReceiptReference * ledger) : Prop :=
  let '(rf, l2) := x in
  ledger_ok counter l2 /\ exists r0 r, rs !! index rf = Some r0 /\ unseen r0 = false /\ signal_receipts l2 = <[index rf := r]> rs /\
    identity r = (e, t, g) /\ ticket r = tag rf /\ tag rf <> 0 /\ unseen r = true /\ sent r = false.

Lemma publish_ok counter e t g l rs i : ledger_ok counter l -> 0 < e < counter -> int_positive t ->
  signal_receipt_next_ticket l <= UINT64_MAX_TICKET ->
  (forall i r, signal_receipts l !! i = Some r -> unseen r = true -> identity r <> (e, t, g)) ->
  shrinks (signal_receipts l) rs -> find_free rs = Some i ->
  published counter e t g rs (publish_receipt i e t g (set_receipts rs l)).
Proof.
  intros HL He Ht Htick Hfresh Hs Hf.
  pose proof (fresh_word (signal_receipt_next_ticket l) ltac:(pose proof (ok_ticket _ _ HL); lia)) as Hword. cbv zeta in Hword.
  destruct (find_free_some rs i Hf) as (r0 & R0 & Hrec). apply reclaimable_spec in Hrec.
  cbn [publish_receipt published]. destruct Hword as (W0 & W1 & W2 & W3 & W4).
  set (r := mkReceipt (Z.lor (wrap 64 (Z.shiftl (signal_receipt_next_ticket l) 4)) PUBLISHED) e t g) in *.
  assert (Hu : unseen r = true) by (apply unseen_split; split; [unfold used; by apply negb_true_iff, Z.eqb_neq|exact W2]).
  assert (Htag : wrap 64 (Z.shiftl (signal_receipt_next_ticket l) 4) <> 0).
  { rewrite wrap_small; rewrite Z.shiftl_mul_pow2 by lia; pose proof (ok_ticket _ _ HL); [lia|].
    change UINT64_MAX_TICKET with (2 ^ 60 - 1) in Htick. lia. }
  pose proof (shrinks_ok _ _ _ HL Hs) as HL1. split; [split; cbn|].
  - pose proof (ok_ticket _ _ HL). lia.
  - intros j r' Hj Huj. destruct (decide (i = j)) as [<-|Hne]; [lia|]. rewrite list_lookup_insert_ne in Hj by done.
    pose proof (ok_high _ _ HL1 j r' Hj Huj). cbn in *. lia.
  - intros j r' Hj Huj. destruct (decide (i = j)) as [<-|Hne].
    + rewrite list_lookup_insert_eq in Hj by (by eapply lookup_lt_Some). injection Hj as <-. done.
    + rewrite list_lookup_insert_ne in Hj by done. exact (ok_range _ _ HL1 j r' Hj Huj).
  - intros j1 j2 r1 r2 H1 H2 U1 U2 HI.
    assert (Hother : forall j r', j <> i -> <[i := r]> rs !! j = Some r' -> unseen r' = true -> identity r' <> (e, t, g)).
    { intros j r' Hne Hj Uj. rewrite list_lookup_insert_ne in Hj by done. destruct (Hs _ _ Hj) as (q & Q & QI & _ & QU).
      rewrite QI. eapply Hfresh; eauto. }
    assert (Hself : forall r', <[i := r]> rs !! i = Some r' -> identity r' = (e, t, g)).
    { intros r' Hr'. rewrite list_lookup_insert_eq in Hr' by (by eapply lookup_lt_Some). by injection Hr' as <-. }
    destruct (decide (j1 = i)) as [->|N1], (decide (j2 = i)) as [->|N2]; [done| | |].
    + exfalso. apply (Hother j2 r2 N2 H2 U2). rewrite <- HI. by apply Hself.
    + exfalso. apply (Hother j1 r1 N1 H1 U1). rewrite HI. by apply Hself.
    + rewrite list_lookup_insert_ne in H1, H2 by done. exact (ok_unique _ _ HL1 j1 j2 r1 r2 H1 H2 U1 U2 HI).
  - exists r0, r. cbn. split; [done|]. split; [done|]. split; [done|]. split; [done|]. split; [exact W4|]. split; [done|]. split; [done|]. exact W1.
Qed.

(** What a reservation does: the free place it takes in a ledger that may have
    been swept. *)
Lemma reserve_spec counter hold al e t g l o l' : ledger_ok counter l -> 0 < e < counter -> int_positive t ->
  peak_detach_controller_signal_receipt_reserve hold al e t g l = (o, l') ->
  exists rs, shrinks (signal_receipts l) rs /\
    (forall i r, signal_receipts l !! i = Some r -> reapable hold al r = false -> rs !! i = Some r) /\
    (forall i r, rs !! i = Some r -> used r = true -> signal_receipts l !! i = Some r) /\
    ledger_ok counter l' /\
    match o with
    | None => l' = set_receipts rs l
    | Some rf => exists r0 r, rs !! index rf = Some r0 /\ unseen r0 = false /\ signal_receipts l' = <[index rf := r]> rs /\
        identity r = (e, t, g) /\ ticket r = tag rf /\ tag rf <> 0 /\ unseen r = true /\ sent r = false
    end.
Proof.
  intros HL He Ht H. unfold peak_detach_controller_signal_receipt_reserve in H.
  destruct (existsb _ _) eqn:Hpend.
  { injection H as <- <-. exists (signal_receipts l). split; [apply shrinks_refl|]. do 3 (split; [done|]). by destruct l. }
  destruct (Z.ltb_spec UINT64_MAX_TICKET (signal_receipt_next_ticket l)) as [|Htick].
  { injection H as <- <-. exists (signal_receipts l). split; [apply shrinks_refl|]. do 3 (split; [done|]). by destruct l. }
  assert (Hfresh : forall i r, signal_receipts l !! i = Some r -> unseen r = true -> identity r <> (e, t, g)).
  { intros i r Hr Hu Hi. pose proof (ok_high _ _ HL i r Hr) as Hh. apply unseen_split in Hu as Hu2. destruct Hu2 as [Hused _].
    assert (Hin : In r (take (signal_receipt_high_water l) (signal_receipts l))).
    { apply list_elem_of_In. apply list_elem_of_lookup. exists i. rewrite lookup_take_lt by (by apply Hh). done. }
    assert (existsb (identity_pending e t g) (take (signal_receipt_high_water l) (signal_receipts l)) = true) as X.
    { apply existsb_exists. exists r. split; [done|]. rewrite identity_pending_spec, Hu. by apply bool_decide_true. }
    congruence. }
  assert (Hpub : forall rs i, shrinks (signal_receipts l) rs -> find_free rs = Some i ->
    published counter e t g rs (publish_receipt i e t g (set_receipts rs l)))
    by (intros rs i Hs Hf; by apply publish_ok).
  destruct (find_free (signal_receipts l)) as [i|] eqn:Hf.
  - pose proof (Hpub (signal_receipts l) i (shrinks_refl _) Hf) as HP.
    replace (set_receipts (signal_receipts l) l) with l in HP by (by destruct l). unfold published in HP.
    destruct (publish_receipt i e t g l) as [rf l2]. injection H as <- <-. destruct HP as [A B].
    exists (signal_receipts l). split; [apply shrinks_refl|]. do 2 (split; [done|]). by split.
  - destruct (peak_detach_controller_signal_receipts_reap_exited hold al l) as [n l1] eqn:Hreap.
    assert (Hrs : l1 = set_receipts (reaped hold al l) l) by (unfold reaped; rewrite Hreap; injection Hreap as _ <-; done).
    assert (Hkeep : forall i r, signal_receipts l !! i = Some r -> reapable hold al r = false -> reaped hold al l !! i = Some r)
      by (intros; by apply reap_keeps).
    exists (reaped hold al l). split; [apply reap_shrinks|]. split; [exact Hkeep|]. split; [intros; by eapply reap_used|].
    pose proof (shrinks_ok _ _ _ HL (reap_shrinks hold al l)) as HL1.
    destruct (n =? 0)%nat; [injection H as <- <-; by rewrite Hrs|]. rewrite Hrs in H. cbn [signal_receipts set_receipts] in H.
    destruct (find_free (reaped hold al l)) as [i|] eqn:Hf2; [|injection H as <- <-; done].
    pose proof (Hpub _ i (reap_shrinks hold al l) Hf2) as HP. unfold published in HP.
    destruct (publish_receipt i e t g (set_receipts (reaped hold al l) l)) as [rf l2]. injection H as <- <-. done.
Qed.

Section Invariant.
Context (base : Z).
Hypothesis Hcookie : forall e t, int_positive e -> int_positive t -> peak_signal_policy_cookie_from_base base e t <> 0.

Definition lookup_receipt (s : system) (i : nat) : option PeakDetachSignalReceipt := signal_receipts (receipts s) !! i.

(** The receipt of a packet in flight: left by an earlier stop, or of the one
    that is held. *)
Definition marking (s : system) (i : nat) (r : PeakDetachSignalReceipt) : Prop :=
  exists e todo rf, at_phase s = Marking e todo rf /\ index rf = i /\ ticket r = tag rf.
Definition status (s : system) (i : nat) (r : PeakDetachSignalReceipt) : Prop :=
  (sent r = true /\ retired r = true) \/
  (signal_hold_epoch s = epoch r /\ signal_hold_epoch s <> 0 /\ signum r = backend_signum s /\ (sent r = true \/ marking s i r)).
Definition placed (pl : place) (r : PeakDetachSignalReceipt) : Prop :=
  match pl with
  | Loaded _ false => sent r = true /\ retired r = true
  | LoadedSignum n => (sent r = true /\ retired r = true) \/ signum r = n
  | _ => True
  end.

Definition packet_ok (s : system) (k : packet) (pl : place) : Prop :=
  pk_cookie k = peak_signal_policy_cookie_from_base base (pk_epoch k) (pk_tid k) /\ pk_tid k ∈ threads s /\
  exists i r, lookup_receipt s i = Some r /\ unseen r = true /\ identity r = packet_identity k /\ status s i r /\ placed pl r.

Definition packets_ok (s : system) : Prop :=
  (forall k pl, (k, pl) ∈ flight s -> packet_ok s k pl) /\ NoDup (map (fun f => packet_identity f.1) (flight s)).

(** Reservations whose packet is not sent yet. *)
Definition refs_ok (s : system) (e : Z) (refs : list (Z * PeakDetachSignalReceiptReference)) : Prop :=
  NoDup (map (fun x => index x.2) refs) /\
  forall t rf, (t, rf) ∈ refs -> exists r, lookup_receipt s (index rf) = Some r /\ ticket r = tag rf /\ tag rf <> 0 /\
    unseen r = true /\ sent r = false /\ identity r = (e, t, backend_signum s).

Definition held (s : system) (e : Z) : Prop := signal_hold_epoch s = e /\ 0 < e < signal_epoch_counter s.

Definition phase_ok (s : system) : Prop :=
  match at_phase s with
  | Idle => signal_hold_epoch s = 0
  | Reserving e refs => held s e /\ refs_ok s e refs /\
      forall i r, lookup_receipt s i = Some r -> used r = true -> epoch r = e -> sent r = false
  | Sending e todo => held s e /\ refs_ok s e todo
  | Marking e todo rf => held s e /\ refs_ok s e todo /\ (index rf ∉ map (fun x => index x.2) todo) /\ tag rf <> 0
  | Holding e => held s e
  | Releasing e => held s e /\
      forall i r, lookup_receipt s i = Some r -> used r = true -> epoch r = e -> sent r = true /\ retired r = true
  end.

Record inv (s : system) : Prop := mkInv {
  inv_ledger : ledger_ok (signal_epoch_counter s) (receipts s);
  inv_counter : 0 < signal_epoch_counter s <= INT_MAX;
  inv_packets : packets_ok s;
  inv_phase : phase_ok s;
  inv_count : unexpected_deliveries s = to_int (foreign s + stray (signals s))
}.

(** Packets keep their receipts. *)
Lemma packets_keep s s' : flight s' = flight s -> threads s ⊆ threads s' ->
  (forall i r, lookup_receipt s i = Some r -> unseen r = true -> tid r ∈ threads s -> status s i r ->
     exists r', lookup_receipt s' i = Some r' /\ unseen r' = true /\ identity r' = identity r /\ status s' i r' /\
       (sent r = true -> sent r' = true) /\ (retired r = true -> retired r' = true)) ->
  packets_ok s -> packets_ok s'.
Proof.
  intros Hf Ht H [HP HN]. split; [|by rewrite Hf]. intros k pl Hk. rewrite Hf in Hk.
  destruct (HP k pl Hk) as (A & B & i & r & R & U & I & S & P). split; [done|]. split; [by apply Ht|].
  assert (Htid : tid r = pk_tid k) by (by injection I).
  destruct (H i r R U ltac:(by rewrite Htid) S) as (r' & R' & U' & I' & S' & K1 & K2). exists i, r'. split; [done|]. split; [done|]. split; [congruence|].
  split; [done|]. destruct pl as [| |n|n [|]]; try done.
  - destruct P as [[P1 P2]|P]; [left; auto|right]. injection I' as _ _ ->. done.
  - destruct P. split; auto.
Qed.

Lemma status_mono s s' i r : (forall e todo rf, at_phase s <> Marking e todo rf) ->
  signal_hold_epoch s' = signal_hold_epoch s -> backend_signum s' = backend_signum s -> status s i r -> status s' i r.
Proof.
  intros Hm Hh Hb [H|(A & B & C & D)]; [by left|right]. rewrite Hh, Hb. split; [done|]. split; [done|]. split; [done|].
  destruct D as [D|(e & todo & rf & D & _)]; [by left|]. by apply Hm in D.
Qed.

(** At rest, or when nothing of the held epoch is sent, packets in flight are
    all of earlier stops. *)
Lemma status_old s i r : (forall e todo rf, at_phase s <> Marking e todo rf) -> status s i r ->
  (signal_hold_epoch s = epoch r -> signal_hold_epoch s <> 0 -> sent r = true -> retired r = true) ->
  sent r = true /\ retired r = true.
Proof.
  intros Hm [H|(A & B & C & D)] Hold; [done|]. destruct D as [D|(e & todo & rf & D & _)]; [auto|]. by apply Hm in D.
Qed.

Lemma status_sent s i r : (forall e todo rf, at_phase s <> Marking e todo rf) -> status s i r -> sent r = true.
Proof. intros Hm [[H _]|(_ & _ & _ & [H|(e & todo & rf & D & _)])]; [done|done|]. by apply Hm in D. Qed.

Lemma refs_keep s s' e refs : backend_signum s' = backend_signum s ->
  (forall t rf r, (t, rf) ∈ refs -> lookup_receipt s (index rf) = Some r -> unseen r = true -> sent r = false ->
     lookup_receipt s' (index rf) = Some r) ->
  refs_ok s e refs -> refs_ok s' e refs.
Proof.
  intros Hb H [HN HR]. split; [done|]. intros t rf Hin. destruct (HR t rf Hin) as (r & A & B & C & D & E & F).
  exists r. rewrite Hb. split; [by eapply H|]. done.
Qed.

(** An unsent reservation is nobody's in flight. *)
Lemma ref_not_in_flight s e refs t rf i r : (forall e todo rf, at_phase s <> Marking e todo rf) -> refs_ok s e refs ->
  (t, rf) ∈ refs -> lookup_receipt s i = Some r -> status s i r -> i <> index rf.
Proof.
  intros Hm [_ HR] Hin Hi Hs ->. destruct (HR t rf Hin) as (q & A & _ & _ & _ & E & _).
  pose proof (status_sent s _ r Hm Hs). rewrite A in Hi. injection Hi as <-. congruence.
Qed.

(** ** Discarding *)

Lemma discard_shrinks rf l : tag rf <> 0 -> shrinks (signal_receipts l) (signal_receipts (peak_detach_controller_signal_receipt_discard rf l)).
Proof. intros Ht. apply (alter_shrinks (fun _ => 0)); [by left|done]. Qed.

Lemma discard_other rf l i : i <> index rf ->
  signal_receipts (peak_detach_controller_signal_receipt_discard rf l) !! i = signal_receipts l !! i.
Proof. intros H. cbn. by rewrite list_lookup_alter_ne by done. Qed.

Lemma discard_all_spec counter refs l : ledger_ok counter l -> (forall t rf, (t, rf) ∈ refs -> tag rf <> 0) ->
  ledger_ok counter (discard_all refs l) /\
  forall i, i ∉ map (fun x => index x.2) refs -> signal_receipts (discard_all refs l) !! i = signal_receipts l !! i.
Proof.
  unfold discard_all. revert l. induction refs as [|[t rf] refs IH]; intros l HL Ht; cbn [foldl map]; [done|].
  destruct (IH (peak_detach_controller_signal_receipt_discard rf l)) as [A B].
  { apply shrinks_ok; [done|]. apply (discard_shrinks rf l). apply (Ht t). left. }
  { intros t' rf' Hin. apply (Ht t'). by right. }
  split; [exact A|]. intros i [H1 H2]%not_elem_of_cons. rewrite B by done. by apply discard_other.
Qed.

(** ** Retiring *)

Lemma retire_lookup counter e l i : ledger_ok counter l ->
  signal_receipts (peak_detach_controller_signal_receipts_retire_epoch e l) !! i = retire e <$> signal_receipts l !! i.
Proof.
  intros HL. unfold peak_detach_controller_signal_receipts_retire_epoch. cbn [signal_receipts set_receipts].
  rewrite map_prefix_lookup. destruct (signal_receipts l !! i) as [r|] eqn:E; [|done]. cbn [fmap option_fmap option_map].
  destruct (Nat.ltb_spec i (signal_receipt_high_water l)) as [|Hge]; [done|]. f_equal. unfold id, retire.
  destruct (Z.eqb_spec (state r) 0) as [|Hne]; [done|]. exfalso.
  pose proof (ok_high _ _ HL i r E) as H. unfold used in H. destruct (Z.eqb_spec (state r) 0); [done|]. specialize (H eq_refl). lia.
Qed.

Lemma retire_bits e r : identity (retire e r) = identity r /\ (used (retire e r) = true -> used r = true) /\
  (unseen (retire e r) = true -> unseen r = true) /\
  (sent r = true -> unseen r = true -> unseen (retire e r) = true /\ sent (retire e r) = true /\
     (retired r = true \/ epoch r = e -> retired (retire e r) = true)) /\
  (used (retire e r) = true -> epoch r = e -> sent (retire e r) = true /\ retired (retire e r) = true).
Proof.
  unfold retire. destruct (flag_tests (state r)) as (_ & -> & _). fold (sent r). rewrite negb_involutive.
  destruct (Z.eqb_spec (state r) 0) as [Hz|Hz]; cbn [orb].
  { split; [done|]. split; [done|]. split; [done|]. unfold unseen, used. rewrite Hz. done. }
  destruct (Z.eqb_spec (epoch r) e) as [He|He]; cbn [negb].
  - destruct (sent r) eqn:Hs.
    + unfold sent in Hs. unfold unseen, used, sent, seen, retired, identity. cbn [state set_state epoch tid signum].
      rewrite !Z.lor_spec, Hs. change (Z.testbit RETIRED 2) with false. change (Z.testbit RETIRED 3) with true.
      rewrite orb_false_r, orb_true_r. destruct (Z.eqb_spec (state r) 0); [done|].
      pose proof (lor_nonzero (state r) RETIRED ltac:(done)). destruct (Z.eqb_spec (Z.lor (state r) RETIRED) 0); [done|].
      split; [done|]. split; [done|]. split; [done|]. split; [|done]. intros _ Hu. done.
    + split; [done|]. split; [done|]. split; [done|]. split; [done|]. done.
  - split; [done|]. split; [done|]. split; [done|]. split; [|done]. intros Hs Hu. split; [done|]. split; [done|].
    intros [H|H]; [done|]. done.
Qed.

Lemma retire_ok counter e l : ledger_ok counter l -> ledger_ok counter (peak_detach_controller_signal_receipts_retire_epoch e l).
Proof.
  intros HL. apply shrinks_ok; [done|]. intros i r' H.
  pose proof (retire_lookup counter e l i HL) as HR. cbn [signal_receipts peak_detach_controller_signal_receipts_retire_epoch set_receipts] in HR.
  rewrite HR in H. destruct (signal_receipts l !! i) as [r|]; [|done]. injection H as <-. exists r.
  destruct (retire_bits e r) as (A & B & C & _). done.
Qed.

End Invariant.

End LedgerProofs.
