(* ===== verification/SignalLedgerSteps.v ===== *)
(** * Every packet of PEAK's is accounted for

    Each step of the system of [SignalLedger] keeps the invariant of
    [SignalLedgerProofs]; so the count of unexpected deliveries counts the
    packets of others and nothing else. *)

From Stdlib Require Import ZArith Lia String.
From stdpp Require Import base list gmap.
From S2P Require Import Prelude ExecEnv SignalPolicy SignalPolicyProofs SignalCalls SignalLease SignalGuarantees SignalTheorems SignalLedger SignalLedgerProofs.
Import Policy Ledger LedgerProofs.
#[local] Open Scope Z_scope.

Module LedgerSteps.

Section Steps.
Context (base : Z).
Hypothesis Hcookie : forall e t, int_positive e -> int_positive t -> peak_signal_policy_cookie_from_base base e t <> 0.

#[local] Abbreviation inv := (LedgerProofs.inv base).
#[local] Abbreviation packets_ok := (LedgerProofs.packets_ok base).
#[local] Abbreviation packet_ok := (LedgerProofs.packet_ok base).


(** ** Packets that keep their receipt *)










(** ** The controller *)



















(** ** Threads *)






(** ** Handlers *)



















(** ** Every step *)





End Steps.

(** ** Handlers of signals *)















End LedgerSteps.
