(* ===== verification/SocketWire.v ===== *)
(** * The wire format of the socket report transport

    The structures that ranks exchange in
    [src/general_listener/socket_report_transport.c], as records and as the
    bytes of their memory (little-endian, the layout of the 64-bit Linux ABI
    that the static assertions of the source lock).  A reader takes the bytes
    of one field off the front; every structure is read back as it was written. *)

From Stdlib Require Import SpecFloat.
From S2P Require Import Prelude Doubles ReportModel.

Module Wire.

Abbreviation byte := Z.

(** ** Readers *)

Definition reader (A : Type) : Type := list byte -> option (A * list byte).
Definition result {A} (a : A) : reader A := fun bs => Some (a, bs).
Definition andthen {A B} (r : reader A) (f : A -> reader B) : reader B :=
  fun bs => match r bs with Some (a, bs) => f a bs | None => None end.
Notation "'read' x 'as' r ';' k" := (andthen r (fun x => k)) (at level 10, x name, r at level 100, k at level 200) : peak_scope.

(** ** Integers *)

Fixpoint le_bytes (n : nat) (x : Z) : list byte :=
  match n with O => [] | S n => x mod 256 :: le_bytes n (x / 256) end.
Fixpoint le_value (bs : list byte) : Z :=
  match bs with [] => 0 | b :: bs => b mod 256 + 256 * le_value bs end.
Definition uint (n : nat) : reader Z :=
  fun bs => if (length bs <? n)%nat then None else Some (le_value (take n bs), drop n bs).
Definition u8 := le_bytes 1.
Definition u32 := le_bytes 4.
Definition u64 := le_bytes 8.

(** Padding between fields: [memset] to zero by the writer, ignored by the reader. *)
Definition pad (n : nat) : list byte := replicate n 0.
Definition skip (n : nat) : reader unit :=
  fun bs => if (length bs <? n)%nat then None else Some (tt, drop n bs).

(** An [int] is its two's complement. *)
Definition i32 (x : Z) : list byte := u32 (wrap 32 x).
Definition int32_of (x : Z) : Z := if x <? 2 ^ 31 then x else x - 2 ^ 32.

(** ** Floating point: IEEE 754 with [mw] bits of mantissa and exponents below [emax] *)

Section Ieee.
Context (mw emax : Z).

Definition emin : Z := 3 - emax - (mw + 1).
Definition sign_bit (s : bool) : Z := if s then 2 * emax * 2 ^ mw else 0.

Definition to_bits (x : spec_float) : Z :=
  match x with
  | S754_zero s => sign_bit s
  | S754_infinity s => sign_bit s + (2 * emax - 1) * 2 ^ mw
  | S754_nan => (2 * emax - 1) * 2 ^ mw + 2 ^ (mw - 1)
  | S754_finite s m e =>
      if Zpos m <? 2 ^ mw then sign_bit s + Zpos m
      else sign_bit s + (e - emin + 1) * 2 ^ mw + (Zpos m - 2 ^ mw)
  end.

Definition of_bits (b : Z) : spec_float :=
  let m := b mod 2 ^ mw in
  let e := (b / 2 ^ mw) mod (2 * emax) in
  let s := negb (b / (2 ^ mw * (2 * emax)) =? 0) in
  if e =? 0 then (if m =? 0 then S754_zero s else S754_finite s (Z.to_pos m) emin)
  else if e =? 2 * emax - 1 then (if m =? 0 then S754_infinity s else S754_nan)
  else S754_finite s (Z.to_pos (2 ^ mw + m)) (e - 1 + emin).

(** The value has a representation in this format. *)
Definition representable (x : spec_float) : bool :=
  match x with
  | S754_finite _ m e =>
      (Zpos m <? 2 ^ mw) && (e =? emin) ||
      (2 ^ mw <=? Zpos m) && (Zpos m <? 2 ^ (mw + 1)) && (emin <=? e) && (e <=? emax - (mw + 1))
  | _ => true
  end.
End Ieee.

Definition f64 (x : double) : list byte := u64 (to_bits 52 1024 x).
Definition f32 (x : float) : list byte := u32 (to_bits 23 128 x).
Definition read_u8 := uint 1.
Definition read_u32 := uint 4.
Definition read_u64 := uint 8.
Definition read_i32 : reader Z := read x as uint 4; result (int32_of x).
Definition read_f64 : reader double := read x as uint 8; result (of_bits 52 1024 x).
Definition read_f32 : reader float := read x as uint 4; result (of_bits 23 128 x).

(** ** The structures *)

Record PeakSocketReduceHeader := mkHeader {
  h_magic : Z;
  h_version : Z;
  h_rank : Z;
  h_hook_count : Z;
  h_session_token : Z;
  h_elapsed_seconds : double;
  h_profile_seconds : double;
  h_control_seconds : double;
  h_management_seconds : double;
  h_control_risk_seconds : double;
  h_profile_control_risk_seconds : double;
  h_profile_ratio : double;
  h_control_ratio : double;
  h_profile_control_ratio : double;
  h_profile_control_risk_ratio : double;
  h_control_risk_ratio : double;
  h_management_ratio : double;
  h_stop_window_count : Z;
  h_failed_stop_window_count : Z;
  h_dropped_calls : Z;
  h_dropped_threads : Z;
  h_local_ranks : Z;
  h_accounting_valid : Z;
  h_degraded_mask : Z;
  h_capability_requested : Z;
  h_capability_compiled : Z;
  h_capability_active : Z;
  h_capability_partial : Z;
  h_capability_retained : Z;
  h_capability_failed : Z;
  h_cuda_compiled_apis : Z;
  h_cuda_found_apis : Z;
  h_cuda_installed_apis : Z;
  h_cuda_failed_apis : Z;
  h_jit_pending_queue_full : Z;
  h_jit_non_executable_timeout : Z;
  h_jit_attach_retry_timeout : Z;
  h_jit_allocation_failure : Z;
  h_jit_provider_generation : Z;
  h_jit_pending_count : Z;
  h_jit_pending_high_water : Z
}.

Record PeakSocketReduceReleaseFrame := mkFrame {
  magic : Z;
  version : Z;
  rank : Z;
  hook_count : Z;
  session_token : Z;
  type : Z;
  decision : Z
}.

Record PeakSocketReduceRecord := mkRecord {
  identity_hash : Z;
  num_calls : Z;
  total_time : double;
  max_total_time : double;
  min_total_time : double;
  exclusive_time : double;
  max_time : float;
  min_time : float;
  thread_count : Z;
  detached : Z;
  reattached : Z;
  revisited : Z
}.

(** ** Their memory *)

Definition header_bytes (h : PeakSocketReduceHeader) : list byte :=
  u64 (h_magic h) ++ u32 (h_version h) ++ u32 (h_rank h) ++ u64 (h_hook_count h) ++ u64 (h_session_token h) ++
  f64 (h_elapsed_seconds h) ++ f64 (h_profile_seconds h) ++ f64 (h_control_seconds h) ++ f64 (h_management_seconds h) ++
  f64 (h_control_risk_seconds h) ++ f64 (h_profile_control_risk_seconds h) ++ f64 (h_profile_ratio h) ++
  f64 (h_control_ratio h) ++ f64 (h_profile_control_ratio h) ++ f64 (h_profile_control_risk_ratio h) ++
  f64 (h_control_risk_ratio h) ++ f64 (h_management_ratio h) ++
  u64 (h_stop_window_count h) ++ u64 (h_failed_stop_window_count h) ++ u64 (h_dropped_calls h) ++ u64 (h_dropped_threads h) ++
  u32 (h_local_ranks h) ++ u32 (h_accounting_valid h) ++ u32 (h_degraded_mask h) ++ u32 (h_capability_requested h) ++
  u32 (h_capability_compiled h) ++ u32 (h_capability_active h) ++ u32 (h_capability_partial h) ++
  u32 (h_capability_retained h) ++ u32 (h_capability_failed h) ++ u32 (h_cuda_compiled_apis h) ++
  u32 (h_cuda_found_apis h) ++ u32 (h_cuda_installed_apis h) ++ u32 (h_cuda_failed_apis h) ++ pad 4 ++
  u64 (h_jit_pending_queue_full h) ++ u64 (h_jit_non_executable_timeout h) ++ u64 (h_jit_attach_retry_timeout h) ++
  u64 (h_jit_allocation_failure h) ++ u64 (h_jit_provider_generation h) ++ u64 (h_jit_pending_count h) ++
  u64 (h_jit_pending_high_water h).

Definition read_header : reader PeakSocketReduceHeader :=
  read magic as read_u64; read version as read_u32; read rank as read_u32; read hooks as read_u64; read token as read_u64;
  read elapsed as read_f64; read profile as read_f64; read control as read_f64; read management as read_f64;
  read risk as read_f64; read profile_risk as read_f64; read r1 as read_f64; read r2 as read_f64; read r3 as read_f64;
  read r4 as read_f64; read r5 as read_f64; read r6 as read_f64;
  read stops as read_u64; read failed_stops as read_u64; read calls as read_u64; read threads as read_u64;
  read ranks as read_u32; read valid as read_u32; read degraded as read_u32; read requested as read_u32;
  read compiled as read_u32; read active as read_u32; read partial as read_u32; read retained as read_u32;
  read failed as read_u32; read c1 as read_u32; read c2 as read_u32; read c3 as read_u32; read c4 as read_u32;
  read _gap as skip 4;
  read j1 as read_u64; read j2 as read_u64; read j3 as read_u64; read j4 as read_u64; read j5 as read_u64; read j6 as read_u64;
  read j7 as read_u64;
  result (mkHeader magic version rank hooks token elapsed profile control management risk profile_risk r1 r2 r3 r4 r5 r6 stops
            failed_stops calls threads ranks valid degraded requested compiled active partial retained failed c1 c2 c3 c4 j1 j2 j3
            j4 j5 j6 j7).

Definition frame_bytes (f : PeakSocketReduceReleaseFrame) : list byte :=
  u64 (magic f) ++ u32 (version f) ++ u32 (rank f) ++ u64 (hook_count f) ++ u64 (session_token f) ++
  u8 (type f) ++ u8 (decision f) ++ pad 6.

Definition read_frame : reader PeakSocketReduceReleaseFrame :=
  read magic as read_u64; read version as read_u32; read rank as read_u32; read hooks as read_u64; read token as read_u64;
  read type as read_u8; read decision as read_u8; read _reserved as skip 6;
  result (mkFrame magic version rank hooks token type decision).

Definition record_bytes (r : PeakSocketReduceRecord) : list byte :=
  u64 (identity_hash r) ++ u64 (num_calls r) ++ f64 (total_time r) ++ f64 (max_total_time r) ++ f64 (min_total_time r) ++
  f64 (exclusive_time r) ++ f32 (max_time r) ++ f32 (min_time r) ++ u64 (thread_count r) ++
  i32 (detached r) ++ i32 (reattached r) ++ i32 (revisited r) ++ pad 4.

Definition read_record : reader PeakSocketReduceRecord :=
  read hash as read_u64; read calls as read_u64; read total as read_f64; read max_total as read_f64; read min_total as read_f64;
  read exclusive as read_f64; read max as read_f32; read min as read_f32; read threads as read_u64;
  read d as read_i32; read a as read_i32; read v as read_i32; read _gap as skip 4;
  result (mkRecord hash calls total max_total min_total exclusive max min threads d a v).

Definition HEADER_SIZE : nat := 272.
Definition FRAME_SIZE : nat := 40.
Definition RECORD_SIZE : nat := 80.

(** The structure a full buffer holds. *)
Definition header_of (bs : list byte) : option PeakSocketReduceHeader := fst <$> read_header bs.
Definition frame_of (bs : list byte) : option PeakSocketReduceReleaseFrame := fst <$> read_frame bs.
Definition record_of (bs : list byte) : option PeakSocketReduceRecord := fst <$> read_record bs.

(** ** Values that fit their fields *)

Definition u8_ok (x : Z) : Prop := 0 <= x < 2 ^ 8.
Definition u32_ok (x : Z) : Prop := 0 <= x < 2 ^ 32.
Definition u64_ok (x : Z) : Prop := 0 <= x < 2 ^ 64.
Definition i32_ok (x : Z) : Prop := - 2 ^ 31 <= x < 2 ^ 31.
Definition f64_ok (x : double) : Prop := representable 52 1024 x = true.
Definition f32_ok (x : float) : Prop := representable 23 128 x = true.

Definition frame_ok (f : PeakSocketReduceReleaseFrame) : Prop :=
  u64_ok (magic f) /\ u32_ok (version f) /\ u32_ok (rank f) /\ u64_ok (hook_count f) /\ u64_ok (session_token f) /\
  u8_ok (type f) /\ u8_ok (decision f).

Definition record_ok (r : PeakSocketReduceRecord) : Prop :=
  u64_ok (identity_hash r) /\ u64_ok (num_calls r) /\ f64_ok (total_time r) /\ f64_ok (max_total_time r) /\
  f64_ok (min_total_time r) /\ f64_ok (exclusive_time r) /\ f32_ok (max_time r) /\ f32_ok (min_time r) /\
  u64_ok (thread_count r) /\ i32_ok (detached r) /\ i32_ok (reattached r) /\ i32_ok (revisited r).

Definition header_ok (h : PeakSocketReduceHeader) : Prop :=
  Forall u64_ok [h_magic h; h_hook_count h; h_session_token h; h_stop_window_count h; h_failed_stop_window_count h;
    h_dropped_calls h; h_dropped_threads h; h_jit_pending_queue_full h; h_jit_non_executable_timeout h;
    h_jit_attach_retry_timeout h; h_jit_allocation_failure h; h_jit_provider_generation h; h_jit_pending_count h;
    h_jit_pending_high_water h] /\
  Forall u32_ok [h_version h; h_rank h; h_local_ranks h; h_accounting_valid h; h_degraded_mask h; h_capability_requested h;
    h_capability_compiled h; h_capability_active h; h_capability_partial h; h_capability_retained h; h_capability_failed h;
    h_cuda_compiled_apis h; h_cuda_found_apis h; h_cuda_installed_apis h; h_cuda_failed_apis h] /\
  Forall f64_ok [h_elapsed_seconds h; h_profile_seconds h; h_control_seconds h; h_management_seconds h;
    h_control_risk_seconds h; h_profile_control_risk_seconds h; h_profile_ratio h; h_control_ratio h;
    h_profile_control_ratio h; h_profile_control_risk_ratio h; h_control_risk_ratio h; h_management_ratio h].

(** ** Everything is read back as it was written *)

Lemma length_le_bytes n x : length (le_bytes n x) = n.
Proof. revert x. induction n as [|n IH]; intros x; [done|]. cbn. by rewrite IH. Qed.

Lemma le_value_bytes n x : 0 <= x < 256 ^ Z.of_nat n -> le_value (le_bytes n x) = x.
Proof.
  revert x. induction n as [|n IH]; intros x Hx; [cbn in *; lia|]. cbn [le_bytes le_value].
  rewrite Z.mod_mod by lia. rewrite IH; [pose proof (Z.div_mod x 256); lia|]. rewrite Nat2Z.inj_succ, Z.pow_succ_r in Hx by lia.
  split; [apply Z.div_pos; lia|apply Z.div_lt_upper_bound; lia].
Qed.

Lemma uint_bytes n x rest : 0 <= x < 256 ^ Z.of_nat n -> uint n (le_bytes n x ++ rest) = Some (x, rest).
Proof.
  intros Hx. unfold uint. rewrite length_app, length_le_bytes.
  destruct (Nat.ltb_spec (n + length rest) n); [lia|]. rewrite take_app_length', drop_app_length' by (by rewrite length_le_bytes).
  by rewrite le_value_bytes.
Qed.

Lemma skip_pad n rest : skip n (pad n ++ rest) = Some (tt, rest).
Proof.
  unfold skip, pad. rewrite length_app, length_replicate. destruct (Nat.ltb_spec (n + length rest) n); [lia|].
  by rewrite drop_app_length' by (by rewrite length_replicate).
Qed.

Lemma int32_of_wrap x : i32_ok x -> int32_of (wrap 32 x) = x.
Proof.
  unfold i32_ok, int32_of, wrap. intros Hx. pose proof (Z.div_mod x (2 ^ 32) ltac:(lia)) as E.
  pose proof (Z.mod_pos_bound x (2 ^ 32) ltac:(lia)) as B. assert (x / 2 ^ 32 = 0 \/ x / 2 ^ 32 = -1) as Q by lia.
  destruct (Z.ltb_spec (x mod 2 ^ 32) (2 ^ 31)), Q as [Q|Q]; rewrite Q in E; lia.
Qed.

(** The parts of a bit pattern. *)
Lemma bits_parts (P E b s e m : Z) : 0 < P -> 0 < E -> 0 <= m < P -> 0 <= e < E -> 0 <= s -> b = s * (P * E) + e * P + m ->
  b mod P = m /\ (b / P) mod E = e /\ b / (P * E) = s.
Proof.
  intros HP HE Hm He Hs ->. replace (s * (P * E) + e * P + m) with (m + (s * E + e) * P) by ring.
  rewrite Z.mod_add, Z.mod_small, Z.div_add, (Z.div_small m P) by lia. split; [done|]. split.
  - replace (0 + (s * E + e)) with (e + s * E) by ring. by rewrite Z.mod_add, Z.mod_small by lia.
  - rewrite <- Z.div_div, Z.div_add, (Z.div_small m P) by lia. replace (0 + (s * E + e)) with (e + s * E) by ring.
    rewrite Z.div_add, Z.div_small by lia. lia.
Qed.

Lemma of_to_bits mw emax x : 0 < mw -> 2 <= emax -> representable mw emax x = true -> of_bits mw emax (to_bits mw emax x) = x.
Proof.
  intros Hmw He Hx. pose proof (Z.pow_pos_nonneg 2 mw ltac:(lia) ltac:(lia)) as HP.
  assert (Hhalf : 2 ^ mw = 2 * 2 ^ (mw - 1)) by (rewrite <- Z.pow_succ_r by lia; f_equal; lia).
  pose proof (Z.pow_pos_nonneg 2 (mw - 1) ltac:(lia) ltac:(lia)) as HQ.
  assert (Hread : forall s e m, 0 <= m < 2 ^ mw -> 0 <= e < 2 * emax ->
    let b := sign_bit mw emax s + e * 2 ^ mw + m in
    b mod 2 ^ mw = m /\ (b / 2 ^ mw) mod (2 * emax) = e /\ negb (b / (2 ^ mw * (2 * emax)) =? 0) = s).
  { intros s e m Hm He' b. destruct (bits_parts (2 ^ mw) (2 * emax) b (if s then 1 else 0) e m) as (A & B & C);
      [lia..|destruct s; lia|unfold b, sign_bit; destruct s; ring|]. split; [done|]. split; [done|]. rewrite C. by destruct s. }
  assert (Hfold : forall s e m b, 0 <= m < 2 ^ mw -> 0 <= e < 2 * emax -> b = sign_bit mw emax s + e * 2 ^ mw + m ->
    of_bits mw emax b = if e =? 0 then (if m =? 0 then S754_zero s else S754_finite s (Z.to_pos m) (emin mw emax))
      else if e =? 2 * emax - 1 then (if m =? 0 then S754_infinity s else S754_nan)
      else S754_finite s (Z.to_pos (2 ^ mw + m)) (e - 1 + emin mw emax)).
  { intros s e m b Hm He' ->. destruct (Hread s e m Hm He') as (A & B & C). unfold of_bits. by rewrite A, B, C. }
  destruct x as [s|s| |s m e]; cbn [to_bits].
  - rewrite (Hfold s 0 0) by lia. done.
  - rewrite (Hfold s (2 * emax - 1) 0) by lia. rewrite (proj2 (Z.eqb_neq _ 0)) by lia. by rewrite Z.eqb_refl.
  - rewrite (Hfold false (2 * emax - 1) (2 ^ (mw - 1))) by (unfold sign_bit; lia). rewrite (proj2 (Z.eqb_neq (2 * emax - 1) 0)) by lia.
    rewrite Z.eqb_refl, (proj2 (Z.eqb_neq _ 0)) by lia. done.
  - cbn [representable] in Hx. destruct (Z.ltb_spec (Zpos m) (2 ^ mw)) as [Hs|Hs].
    + rewrite (proj2 (Z.leb_gt _ _)) in Hx by lia. cbn [andb] in Hx. rewrite orb_false_r in Hx. apply Z.eqb_eq in Hx as ->.
      rewrite (Hfold s 0 (Zpos m)) by lia. done.
    + cbn [andb orb] in Hx. rewrite !andb_true_iff, !Z.leb_le, Z.ltb_lt in Hx. destruct Hx as [[[_ Hm] Hlo] Hhi].
      rewrite Z.pow_add_r in Hm by lia. change (2 ^ 1) with 2 in Hm. unfold emin in *.
      rewrite (Hfold s (e - (3 - emax - (mw + 1)) + 1) (Zpos m - 2 ^ mw)) by lia.
      rewrite (proj2 (Z.eqb_neq _ 0)), (proj2 (Z.eqb_neq _ (2 * emax - 1))) by lia. f_equal; [|unfold emin; lia].
      replace (2 ^ mw + (Zpos m - 2 ^ mw)) with (Zpos m) by lia. done.
Qed.

Lemma to_bits_range mw emax x : 0 < mw -> 2 <= emax -> representable mw emax x = true ->
  0 <= to_bits mw emax x < 2 * (2 * emax) * 2 ^ mw.
Proof.
  intros Hmw He Hx. pose proof (Z.pow_pos_nonneg 2 mw ltac:(lia) ltac:(lia)) as HP.
  assert (Hhalf : 2 ^ mw = 2 * 2 ^ (mw - 1)) by (rewrite <- Z.pow_succ_r by lia; f_equal; lia).
  pose proof (Z.pow_pos_nonneg 2 (mw - 1) ltac:(lia) ltac:(lia)) as HQ.
  destruct x as [s|s| |s m e]; cbn [to_bits]; unfold sign_bit; try (destruct s; nia); [nia|].
  cbn [representable] in Hx. destruct (Z.ltb_spec (Zpos m) (2 ^ mw)) as [Hs|Hs]; [destruct s; nia|].
  cbn [andb orb] in Hx. rewrite !andb_true_iff, !Z.leb_le, Z.ltb_lt in Hx. destruct Hx as [[[_ Hm] Hlo] Hhi].
  rewrite Z.pow_add_r in Hm by lia. change (2 ^ 1) with 2 in Hm. unfold emin in *.
  assert (1 <= e - (3 - emax - (mw + 1)) + 1 <= 2 * emax - 2) by lia. destruct s; nia.
Qed.

Lemma read_u8_ok x rest : u8_ok x -> read_u8 (u8 x ++ rest) = Some (x, rest).
Proof. apply (uint_bytes 1). Qed.
Lemma read_u32_ok x rest : u32_ok x -> read_u32 (u32 x ++ rest) = Some (x, rest).
Proof. apply (uint_bytes 4). Qed.
Lemma read_u64_ok x rest : u64_ok x -> read_u64 (u64 x ++ rest) = Some (x, rest).
Proof. apply (uint_bytes 8). Qed.
Lemma read_i32_ok x rest : i32_ok x -> read_i32 (i32 x ++ rest) = Some (x, rest).
Proof.
  intros Hx. unfold read_i32, i32, andthen, u32. rewrite uint_bytes by (apply (wrap_range 32); lia). unfold result. by rewrite int32_of_wrap.
Qed.
Lemma read_f64_ok x rest : f64_ok x -> read_f64 (f64 x ++ rest) = Some (x, rest).
Proof.
  intros Hx. unfold read_f64, f64, andthen, u64. rewrite uint_bytes by apply (to_bits_range 52 1024 x ltac:(lia) ltac:(lia) Hx).
  unfold result. by rewrite of_to_bits.
Qed.
Lemma read_f32_ok x rest : f32_ok x -> read_f32 (f32 x ++ rest) = Some (x, rest).
Proof.
  intros Hx. unfold read_f32, f32, andthen, u32. rewrite uint_bytes by apply (to_bits_range 23 128 x ltac:(lia) ltac:(lia) Hx).
  unfold result. by rewrite of_to_bits.
Qed.

Lemma andthen_some {A B} (r : reader A) (f : A -> reader B) bs a bs' : r bs = Some (a, bs') -> andthen r f bs = f a bs'.
Proof. intros H. unfold andthen. by rewrite H. Qed.

Create HintDb wire.
#[export] Hint Resolve read_u8_ok read_u32_ok read_u64_ok read_i32_ok read_f64_ok read_f32_ok skip_pad : wire.

(** Reads field after field. *)
Ltac read_fields := rewrite <- ?app_assoc; repeat (erewrite andthen_some by (eauto with wire nocore)); reflexivity.

Lemma read_frame_bytes f rest : frame_ok f -> read_frame (frame_bytes f ++ rest) = Some (f, rest).
Proof. destruct f. unfold frame_ok, read_frame, frame_bytes. cbn [magic version rank hook_count session_token type decision].
  intros (? & ? & ? & ? & ? & ? & ?). read_fields. Qed.

Lemma read_record_bytes r rest : record_ok r -> read_record (record_bytes r ++ rest) = Some (r, rest).
Proof.
  destruct r. unfold record_ok, read_record, record_bytes. cbn [identity_hash num_calls total_time max_total_time min_total_time
    exclusive_time max_time min_time thread_count detached reattached revisited].
  intros (? & ? & ? & ? & ? & ? & ? & ? & ? & ? & ? & ?). read_fields.
Qed.

Lemma read_header_bytes h rest : header_ok h -> read_header (header_bytes h ++ rest) = Some (h, rest).
Proof.
  destruct h. unfold header_ok, read_header, header_bytes. cbn -[header_of read_u64 read_u32 read_f64 u64 u32 f64 skip pad andthen app]. rewrite !Forall_cons. intros (H1 & H2 & H3). destruct_and?. read_fields.
Qed.

Lemma wire_sizes h f r :
  length (header_bytes h) = HEADER_SIZE /\ length (frame_bytes f) = FRAME_SIZE /\ length (record_bytes r) = RECORD_SIZE.
Proof.
  unfold header_bytes, frame_bytes, record_bytes, f64, f32, i32, u64, u32, u8, pad. rewrite !length_app, !length_le_bytes, !length_replicate.
  done.
Qed.

End Wire.
