(* ===== verification/ReportSnapshot.v ===== *)
(** * The report snapshot

    [src/general_listener/report_snapshot.c]: the data of one rank's final
    report, its copies, the identity of its slots, the capability manifest of
    the process and the merge of manifests over ranks, and the list of disabled
    facilities.  Arrays of a snapshot are lists of length [hook_count]; the
    answers of the allocator are a list (exhausted: memory is available).  The
    masks are 32-bit words; the process-wide ones are atomics with one
    operation each. *)

From Stdlib Require Import String.
From S2P Require Import Prelude Doubles ReportModel TargetSelector.

Module Snapshot.

(** ** Data *)

Record PeakProfilerCapabilityManifest := mkManifest {
  requested : Z;
  compiled : Z;
  active : Z;
  partial : Z;
  retained : Z;
  failed : Z;
  cuda_compiled_apis : Z;
  cuda_found_apis : Z;
  cuda_installed_apis : Z;
  cuda_failed_apis : Z
}.

#[export] Instance manifest_eq_dec : EqDecision PeakProfilerCapabilityManifest.
Proof. solve_decision. Defined.

Record PeakJitProviderDiagnostics := mkJit {
  pending_queue_full : Z;
  non_executable_timeout : Z;
  attach_retry_timeout : Z;
  allocation_failure : Z;
  provider_generation : Z;
  pending_count : Z;
  pending_high_water : Z
}.

Record PeakReportOverhead := mkOverhead {
  o_valid : bool;
  o_accounting_valid : bool;
  o_per_rank_max : bool;
  o_local_ranks : Z;
  o_stop_window_count : Z;
  o_failed_stop_window_count : Z;
  o_elapsed_seconds : double;
  o_elapsed_min_seconds : double;
  o_elapsed_max_seconds : double;
  o_profile_seconds : double;
  o_control_seconds : double;
  o_management_seconds : double;
  o_control_risk_seconds : double;
  o_profile_control_risk_seconds : double;
  o_profile_ratio : double;
  o_control_ratio : double;
  o_profile_control_risk_ratio : double;
  o_control_risk_ratio : double;
  o_management_ratio : double;
  o_ratio : double;
  o_per_rank_maxima : PeakReportMaxima
}.

Record PeakReportSnapshot := mkSnapshot {
  s_hook_count : nat;
  s_program : option cstring;
  s_names : list (option cstring);
  s_instrumented : list bool;
  s_detached : list bool;
  s_reattached : list bool;
  s_revisited : list bool;
  s_num_calls : list Z;
  s_total_time : list double;
  s_max_total_time : list double;
  s_min_total_time : list double;
  s_exclusive_time : list double;
  s_max_time : list float;
  s_min_time : list float;
  s_thread_count : list Z;
  s_dropped_calls : Z;
  s_dropped_threads : Z;
  s_degraded_mask : Z;
  s_capabilities : PeakProfilerCapabilityManifest;
  s_jit : PeakJitProviderDiagnostics;
  s_overhead_per_call : double;
  s_rank_count : Z;
  s_overhead : PeakReportOverhead
}.

(** ** Capabilities *)

Definition empty_manifest : PeakProfilerCapabilityManifest := mkManifest 0 0 0 0 0 0 0 0 0 0.

(** The process-wide manifest: ten atomic words. *)
Definition peak_report_capability_reset (manifest : option PeakProfilerCapabilityManifest) (_ : PeakProfilerCapabilityManifest)
    : PeakProfilerCapabilityManifest :=
  match manifest with Some m => m | None => empty_manifest end.
Definition peak_report_capability_note_requested (mask : Z) (m : PeakProfilerCapabilityManifest) : PeakProfilerCapabilityManifest :=
  mkManifest (Z.lor (requested m) mask) (compiled m) (active m) (partial m) (retained m) (failed m) (cuda_compiled_apis m)
    (cuda_found_apis m) (cuda_installed_apis m) (cuda_failed_apis m).
Definition peak_report_capability_note_active (mask : Z) (m : PeakProfilerCapabilityManifest) : PeakProfilerCapabilityManifest :=
  mkManifest (requested m) (compiled m) (Z.lor (active m) mask) (partial m) (retained m) (failed m) (cuda_compiled_apis m)
    (cuda_found_apis m) (cuda_installed_apis m) (cuda_failed_apis m).
Definition peak_report_capability_note_partial (mask : Z) (m : PeakProfilerCapabilityManifest) : PeakProfilerCapabilityManifest :=
  mkManifest (requested m) (compiled m) (active m) (Z.lor (partial m) mask) (retained m) (failed m) (cuda_compiled_apis m)
    (cuda_found_apis m) (cuda_installed_apis m) (cuda_failed_apis m).
Definition peak_report_capability_note_retained (mask : Z) (m : PeakProfilerCapabilityManifest) : PeakProfilerCapabilityManifest :=
  mkManifest (requested m) (compiled m) (active m) (partial m) (Z.lor (retained m) mask) (failed m) (cuda_compiled_apis m)
    (cuda_found_apis m) (cuda_installed_apis m) (cuda_failed_apis m).
Definition peak_report_capability_note_failed (mask : Z) (m : PeakProfilerCapabilityManifest) : PeakProfilerCapabilityManifest :=
  mkManifest (requested m) (compiled m) (active m) (partial m) (retained m) (Z.lor (failed m) mask) (cuda_compiled_apis m)
    (cuda_found_apis m) (cuda_installed_apis m) (cuda_failed_apis m).
Definition peak_report_capability_set_cuda_apis (c f i x : Z) (m : PeakProfilerCapabilityManifest) : PeakProfilerCapabilityManifest :=
  mkManifest (requested m) (compiled m) (active m) (partial m) (retained m) (failed m) c f i x.

Definition PEAK_CAPABILITY_CUDA : Z := Z.shiftl 1 2.
Definition PEAK_CAPABILITY_MPI_REPORT : Z := Z.shiftl 1 6.
Definition PEAK_CAPABILITY_SOCKET_REPORT : Z := Z.shiftl 1 7.
Definition PEAK_CAPABILITY_LOCAL_REPORT : Z := Z.shiftl 1 8.
Definition PEAK_CAPABILITY_REPORT_TRANSPORTS : Z :=
  Z.lor (Z.lor PEAK_CAPABILITY_MPI_REPORT PEAK_CAPABILITY_SOCKET_REPORT) PEAK_CAPABILITY_LOCAL_REPORT.

Definition peak_report_capability_replace_mask (value mask replacement : Z) : Z := Z.lor (Z.ldiff value mask) (Z.land replacement mask).

(** [peak_report_capability_manifest_set_output_outcome]; the process-wide
    [peak_report_capability_set_output_outcome] does the same word by word. *)
Definition peak_report_capability_manifest_set_output_outcome (m : PeakProfilerCapabilityManifest) (req act : Z)
    : PeakProfilerCapabilityManifest :=
  let req := Z.land req PEAK_CAPABILITY_REPORT_TRANSPORTS in
  let act := Z.land act PEAK_CAPABILITY_REPORT_TRANSPORTS in
  let mismatch := if req =? act then 0 else req in
  mkManifest (Z.lor (requested m) req) (compiled m)
    (peak_report_capability_replace_mask (active m) PEAK_CAPABILITY_REPORT_TRANSPORTS act)
    (peak_report_capability_replace_mask (partial m) PEAK_CAPABILITY_REPORT_TRANSPORTS mismatch)
    (retained m)
    (peak_report_capability_replace_mask (failed m) PEAK_CAPABILITY_REPORT_TRANSPORTS mismatch)
    (cuda_compiled_apis m) (cuda_found_apis m) (cuda_installed_apis m) (cuda_failed_apis m).

Definition peak_report_capability_manifest_merge (aggregate incoming : PeakProfilerCapabilityManifest) : PeakProfilerCapabilityManifest :=
  let active_difference := Z.lxor (active aggregate) (active incoming) in
  let compiled_difference := Z.lxor (compiled aggregate) (compiled incoming) in
  let cuda_found_difference := Z.lxor (cuda_found_apis aggregate) (cuda_found_apis incoming) in
  let cuda_installed_difference := Z.lxor (cuda_installed_apis aggregate) (cuda_installed_apis incoming) in
  let req := Z.lor (requested aggregate) (requested incoming) in
  let p := Z.lor (partial aggregate) (Z.lor (partial incoming) active_difference) in
  let p := Z.lor p (Z.land req compiled_difference) in
  let p := if negb (cuda_found_difference =? 0) || negb (cuda_installed_difference =? 0) then Z.lor p PEAK_CAPABILITY_CUDA else p in
  mkManifest req (Z.land (compiled aggregate) (compiled incoming)) (Z.land (active aggregate) (active incoming)) p
    (Z.lor (retained aggregate) (retained incoming)) (Z.lor (failed aggregate) (failed incoming))
    (Z.land (cuda_compiled_apis aggregate) (cuda_compiled_apis incoming))
    (Z.land (cuda_found_apis aggregate) (cuda_found_apis incoming))
    (Z.land (cuda_installed_apis aggregate) (cuda_installed_apis incoming))
    (Z.lor (cuda_failed_apis aggregate) (cuda_failed_apis incoming)).

(** ** Disabled facilities *)

Record degraded := mkDegraded { peak_report_snapshot_degraded : Z; peak_report_snapshot_warned : Z }.

(** The new words and whether the message is printed. *)
Definition peak_report_snapshot_note_degraded (mask : Z) (d : degraded) : degraded * bool :=
  if mask =? 0 then (d, false)
  else
    let previous := peak_report_snapshot_degraded d in
    let d := mkDegraded (Z.lor previous mask) (peak_report_snapshot_warned d) in
    if Z.land previous mask =? mask then (d, false)
    else
      let warned := peak_report_snapshot_warned d in
      (mkDegraded (peak_report_snapshot_degraded d) (Z.lor warned mask), negb (Z.land warned mask =? mask)).

Definition peak_report_degraded_reasons : list (Z * cstring) :=
  [(Z.shiftl 1 0, bytes "heartbeat"); (Z.shiftl 1 1, bytes "report-allocation"); (Z.shiftl 1 2, bytes "memory-tracking");
   (Z.shiftl 1 3, bytes "exit-interposer"); (Z.shiftl 1 4, bytes "cuda"); (Z.shiftl 1 5, bytes "jit");
   (Z.shiftl 1 6, bytes "dynamic-dso")].

(** The loop over the reasons: the text in a buffer of [buffer_size] bytes. *)
Fixpoint format_reasons (mask : Z) (reasons : list (Z * cstring)) (buffer : cstring) (buffer_size : nat) : cstring :=
  match reasons with
  | [] => buffer
  | (bit, name) :: reasons =>
      if Z.land mask bit =? 0 then format_reasons mask reasons buffer buffer_size
      else if negb (length buffer =? 0)%nat && (buffer_size <=? length buffer + 1)%nat then buffer
      else
        let buffer := if (length buffer =? 0)%nat then buffer else buffer ++ [ch ","] in
        let room := (buffer_size - length buffer)%nat in
        let len := if (room <=? length name)%nat then (room - 1)%nat else length name in
        let buffer := buffer ++ take len name in
        if (buffer_size <=? length buffer + 1)%nat then buffer else format_reasons mask reasons buffer buffer_size
  end.

(** [None]: the buffer is not written. *)
Definition peak_report_snapshot_format_degraded_mask (mask : Z) (buffer_size : nat) : option cstring :=
  if (buffer_size =? 0)%nat then None else Some (format_reasons mask peak_report_degraded_reasons [] buffer_size).

(** ** Copies *)

(** [n] allocations. *)
Fixpoint allocations (n : nat) (memory : list bool) : option (list bool) :=
  match n, memory with
  | O, _ => Some memory
  | S _, [] => Some []
  | S _, false :: _ => None
  | S n, true :: memory => allocations n memory
  end.

(** An owned copy of a string, empty for NULL. *)
Definition duplicated (s : option cstring) : option cstring := Some (match s with Some s => s | None => [] end).

(** One object, thirteen arrays, the program and the names. *)
Definition clone_allocations (count : nat) : nat := if (count =? 0)%nat then 2 else 15 + count.

Definition peak_report_snapshot_clone (source : PeakReportSnapshot) (memory : list bool) : option (PeakReportSnapshot * list bool) :=
  memory ← allocations (clone_allocations (s_hook_count source)) memory;
  Some (mkSnapshot (s_hook_count source) (duplicated (s_program source)) (map duplicated (s_names source)) (s_instrumented source)
          (s_detached source) (s_reattached source) (s_revisited source) (s_num_calls source) (s_total_time source)
          (s_max_total_time source) (s_min_total_time source) (s_exclusive_time source) (s_max_time source) (s_min_time source)
          (s_thread_count source) (s_dropped_calls source) (s_dropped_threads source) (s_degraded_mask source)
          (s_capabilities source) (s_jit source) (s_overhead_per_call source) (s_rank_count source) (s_overhead source), memory).

Definition peak_report_snapshot_prepare_for_render (s : PeakReportSnapshot) : PeakReportSnapshot :=
  mkSnapshot (s_hook_count s) (s_program s) (s_names s) (s_instrumented s) (s_detached s) (s_reattached s) (s_revisited s)
    (s_num_calls s) (s_total_time s) (s_max_total_time s) (s_min_total_time s)
    (sanitize_times (s_hook_count s) (s_total_time s) (s_exclusive_time s)) (s_max_time s) (s_min_time s) (s_thread_count s)
    (s_dropped_calls s) (s_dropped_threads s) (s_degraded_mask s) (s_capabilities s) (s_jit s) (s_overhead_per_call s)
    (s_rank_count s) (s_overhead s).

(** ** Identities *)

Definition FNV_OFFSET : Z := 1469598103934665603.
Definition FNV_PRIME : Z := 1099511628211.
Definition fnv_step (hash b : Z) : Z := wrap 64 (Z.lxor hash b * FNV_PRIME).

Definition name_text (name : option cstring) : cstring := match name with Some s => s | None => [] end.

Definition peak_report_snapshot_slot_identity_hash (s : PeakReportSnapshot) (hook_id : nat) : Z :=
  match s_names s !! hook_id with
  | Some name => if (hook_id <? s_hook_count s)%nat then fold_left fnv_step (name_text name) FNV_OFFSET else 0
  | None => 0
  end.

Fixpoint duplicate_names (names : list (option cstring)) : bool :=
  match names with
  | [] => false
  | name :: rest =>
      match name with
      | None | Some [] => duplicate_names rest
      | Some _ => existsb (fun right => bool_decide (right = name)) rest || duplicate_names rest
      end
  end.
Definition peak_report_snapshot_has_duplicate_names (s : PeakReportSnapshot) : bool := duplicate_names (s_names s).

Definition peak_report_overhead_rank_tuple (report : PeakReportOverhead) : PeakReportRankTuple :=
  mkTuple (o_accounting_valid report) (o_local_ranks report) (o_stop_window_count report) (o_failed_stop_window_count report)
    (o_elapsed_seconds report) (o_profile_seconds report) (o_control_seconds report) (o_management_seconds report)
    (o_control_risk_seconds report) (o_profile_control_risk_seconds report) (o_profile_ratio report) (o_control_ratio report)
    (o_profile_control_risk_ratio report) (o_control_risk_ratio report) (o_management_ratio report) (o_ratio report).

End Snapshot.
