(* ===== verification/SocketGather.v ===== *)
(** * Gathering the reports at the root

    The first phase of [src/general_listener/socket_report_transport.c]: the
    root advances a bounded set of connections, each through header, payload,
    receipt and confirmation, and merges what the peers send into its
    aggregate.  What the kernel answers (readiness, lengths of reads and
    writes, new connections) is a list of iterations of the poll loop; the loop
    ends with the list, which is when its deadline passes.  An operation that
    returns false answers [None]: of the aggregate only the release targets are
    used after a failure, and those operations do not touch them.  The switches
    of tests and the log are left out. *)

From S2P Require Import Prelude Doubles ReportModel ReportSnapshot SocketWire.
Import Snapshot Wire.

Module Gather.

(** ** Constants *)

Definition PEAK_SOCKET_REDUCE_MAGIC : Z := 0x5045414b52454431.
Definition PEAK_SOCKET_REDUCE_VERSION : Z := 15.
Definition PEAK_SOCKET_REDUCE_GATHER_RECEIPT : Z := 0x41.
Definition PEAK_SOCKET_REDUCE_GATHER_RECEIPT_CONFIRM : Z := 0x42.
Definition PEAK_SOCKET_REDUCE_GATHER_REGISTERED : Z := 0x01.
Definition PEAK_SOCKET_REDUCE_FD_RESERVE : Z := 32.
Definition PEAK_SOCKET_GATHER_ACTIVE_MAX : Z := 128.
Definition FLT_MAX : float := SpecFloat.SFmax_float 24 128.

Definition peak_socket_add_uint64_saturated (lhs rhs : Z) : Z :=
  let max_published := UINT64_MAX - 1 in
  if (max_published <=? lhs) || (max_published - lhs <? rhs) then max_published else lhs + rhs.

(** ** Headers and records *)

Definition peak_socket_reduce_header_report_tuple (h : PeakSocketReduceHeader) : PeakReportRankTuple :=
  mkTuple (negb (h_accounting_valid h =? 0)) (h_local_ranks h) (h_stop_window_count h) (h_failed_stop_window_count h)
    (h_elapsed_seconds h) (h_profile_seconds h) (h_control_seconds h) (h_management_seconds h) (h_control_risk_seconds h)
    (h_profile_control_risk_seconds h) (h_profile_ratio h) (h_control_ratio h) (h_profile_control_risk_ratio h)
    (h_control_risk_ratio h) (h_management_ratio h) (h_profile_control_ratio h).

(** The header of a rank, [peak_socket_reduce_header_set_report_tuple] included. *)
Definition rank_header (rank token : Z) (local : PeakReportSnapshot) : PeakSocketReduceHeader :=
  let t := peak_report_overhead_rank_tuple (s_overhead local) in
  let c := s_capabilities local in
  let j := s_jit local in
  mkHeader PEAK_SOCKET_REDUCE_MAGIC PEAK_SOCKET_REDUCE_VERSION rank (Z.of_nat (s_hook_count local)) token
    (elapsed_seconds t) (profile_seconds t) (control_seconds t) (management_seconds t) (control_risk_seconds t)
    (profile_control_risk_seconds t) (profile_ratio t) (control_ratio t) (ratio t) (profile_control_risk_ratio t)
    (control_risk_ratio t) (management_ratio t) (stop_window_count t) (failed_stop_window_count t)
    (s_dropped_calls local) (s_dropped_threads local) (local_ranks t) (if accounting_valid t then 1 else 0)
    (s_degraded_mask local) (requested c) (compiled c) (active c) (partial c) (retained c) (failed c) (cuda_compiled_apis c)
    (cuda_found_apis c) (cuda_installed_apis c) (cuda_failed_apis c) (pending_queue_full j) (non_executable_timeout j)
    (attach_retry_timeout j) (allocation_failure j) (provider_generation j) (pending_count j) (pending_high_water j).

Definition flag (b : bool) : Z := if b then 1 else 0.

(** One slot of the loop of [peak_socket_reduce_build_records]. *)
Definition build_record (s : PeakReportSnapshot) (i : nat) : option PeakSocketReduceRecord :=
  calls ← s_num_calls s !! i; total ← s_total_time s !! i; max_total ← s_max_total_time s !! i;
  min_total ← s_min_total_time s !! i; exclusive ← s_exclusive_time s !! i; max ← s_max_time s !! i; min ← s_min_time s !! i;
  threads ← s_thread_count s !! i; d ← s_detached s !! i; a ← s_reattached s !! i; v ← s_revisited s !! i;
  Some (mkRecord (peak_report_snapshot_slot_identity_hash s i) calls total max_total min_total exclusive max min threads
          (flag d) (flag a) (flag v)).

(** [None]: the size overflows, or there is no memory. *)
Definition peak_socket_reduce_build_records (s : PeakReportSnapshot) (memory : list bool)
    : option (list PeakSocketReduceRecord * list bool) :=
  if SIZE_MAX / Z.of_nat RECORD_SIZE <? Z.of_nat (s_hook_count s) then None
  else
    memory ← (if (s_hook_count s =? 0)%nat then Some memory else allocations 1 memory);
    records ← mapM (build_record s) (seq 0 (s_hook_count s));
    Some (records, memory).

Definition peak_socket_reduce_nonnegative_float (value : float) : bool := dge value d0 && deq value value && dle value FLT_MAX.

Definition zero_or_one (x : Z) : bool := (x =? 0) || (x =? 1).

(** The test of [peak_socket_reduce_merge_record]. *)
Definition mergeable (aggregate incoming : PeakSocketReduceRecord) : bool :=
  (identity_hash incoming =? identity_hash aggregate) && zero_or_one (detached incoming) && zero_or_one (reattached incoming) &&
  zero_or_one (revisited incoming) && nonnegative_finite (total_time incoming) && nonnegative_finite (max_total_time incoming) &&
  nonnegative_finite (min_total_time incoming) && nonnegative_finite (exclusive_time incoming) &&
  peak_socket_reduce_nonnegative_float (max_time incoming) && peak_socket_reduce_nonnegative_float (min_time incoming) &&
  negb (UINT64_MAX - num_calls incoming <? num_calls aggregate) &&
  negb (UINT64_MAX - thread_count incoming <? thread_count aggregate) &&
  negb (dgt (total_time aggregate) (dsub DBL_MAX (total_time incoming))) &&
  negb (dgt (exclusive_time aggregate) (dsub DBL_MAX (exclusive_time incoming))).

Definition c_or (x y : Z) : Z := flag (negb (x =? 0) || negb (y =? 0)).

Definition peak_socket_reduce_merge_record (aggregate incoming : PeakSocketReduceRecord) : option PeakSocketReduceRecord :=
  if negb (mergeable aggregate incoming) then None
  else
    let larger a b := if dgt b a then b else a in
    let smaller a b :=
      if (0 <? thread_count incoming) && ((thread_count aggregate =? 0) || dlt b a) then b else a in
    Some (mkRecord (identity_hash aggregate) (num_calls aggregate + num_calls incoming)
            (dadd (total_time aggregate) (total_time incoming))
            (larger (max_total_time aggregate) (max_total_time incoming))
            (smaller (min_total_time aggregate) (min_total_time incoming))
            (dadd (exclusive_time aggregate) (exclusive_time incoming))
            (larger (max_time aggregate) (max_time incoming))
            (smaller (min_time aggregate) (min_time incoming))
            (thread_count aggregate + thread_count incoming)
            (c_or (detached aggregate) (detached incoming))
            (c_or (reattached aggregate) (reattached incoming))
            (c_or (revisited aggregate) (revisited incoming))).

(** ** Connections and the aggregate *)

Inductive PeakSocketGatherPhase :=
| READING_HEADER
| READING_PAYLOAD
| SENDING_RECEIPT
| READING_CONFIRM.
#[export] Instance phase_eq_dec : EqDecision PeakSocketGatherPhase.
Proof. solve_decision. Defined.

(** Buffers hold the bytes received so far; [record_buffer] the bytes of the
    record in progress. *)
Record PeakSocketGatherConnection := mkConnection {
  phase : PeakSocketGatherPhase;
  header_buffer : list byte;
  header : PeakSocketReduceHeader;
  report_tuple : PeakReportRankTuple;
  payload_bytes : nat;
  record_index : nat;
  record_buffer : list byte;
  receipt : PeakSocketReduceReleaseFrame;
  receipt_bytes : nat;
  confirmation_buffer : list byte;
  (** ghost: all bytes that came over the connection *)
  stream : list byte
}.

Definition zero_header : PeakSocketReduceHeader :=
  mkHeader 0 0 0 0 0 d0 d0 d0 d0 d0 d0 d0 d0 d0 d0 d0 d0 0 0 0 0 0 0 0 0 0 0 0 0 0 0 0 0 0 0 0 0 0 0 0 0.
Definition zero_frame : PeakSocketReduceReleaseFrame := mkFrame 0 0 0 0 0 0 0.
Definition new_connection : PeakSocketGatherConnection :=
  mkConnection READING_HEADER [] zero_header zero_tuple 0 0 [] zero_frame 0 [] [].

Record PeakSocketGatherAggregate := mkAggregate {
  aggregate_records : list PeakSocketReduceRecord;
  a_maxima : PeakReportMaxima;
  a_hook_count : nat;
  a_record_bytes : nat;
  a_size : Z;
  a_session_token : Z;
  a_receipt_session_token : Z;
  claimed_ranks : list bool;
  release_targets : list bool;
  a_profile_seconds : double;
  a_min_elapsed_seconds : double;
  a_max_elapsed_seconds : double;
  a_failed_stop_window_count : Z;
  a_dropped_calls : Z;
  a_dropped_threads : Z;
  a_accounting_valid : bool;
  a_degraded_mask : Z;
  a_capabilities : PeakProfilerCapabilityManifest;
  a_jit : PeakJitProviderDiagnostics
}.

Definition set_records (rs : list PeakSocketReduceRecord) (a : PeakSocketGatherAggregate) : PeakSocketGatherAggregate :=
  mkAggregate rs (a_maxima a) (a_hook_count a) (a_record_bytes a) (a_size a) (a_session_token a) (a_receipt_session_token a)
    (claimed_ranks a) (release_targets a) (a_profile_seconds a) (a_min_elapsed_seconds a) (a_max_elapsed_seconds a)
    (a_failed_stop_window_count a) (a_dropped_calls a) (a_dropped_threads a) (a_accounting_valid a) (a_degraded_mask a)
    (a_capabilities a) (a_jit a).
Definition set_claimed (cs : list bool) (a : PeakSocketGatherAggregate) : PeakSocketGatherAggregate :=
  mkAggregate (aggregate_records a) (a_maxima a) (a_hook_count a) (a_record_bytes a) (a_size a) (a_session_token a)
    (a_receipt_session_token a) cs (release_targets a) (a_profile_seconds a) (a_min_elapsed_seconds a) (a_max_elapsed_seconds a)
    (a_failed_stop_window_count a) (a_dropped_calls a) (a_dropped_threads a) (a_accounting_valid a) (a_degraded_mask a)
    (a_capabilities a) (a_jit a).
Definition set_targets (ts : list bool) (a : PeakSocketGatherAggregate) : PeakSocketGatherAggregate :=
  mkAggregate (aggregate_records a) (a_maxima a) (a_hook_count a) (a_record_bytes a) (a_size a) (a_session_token a)
    (a_receipt_session_token a) (claimed_ranks a) ts (a_profile_seconds a) (a_min_elapsed_seconds a) (a_max_elapsed_seconds a)
    (a_failed_stop_window_count a) (a_dropped_calls a) (a_dropped_threads a) (a_accounting_valid a) (a_degraded_mask a)
    (a_capabilities a) (a_jit a).

Definition header_capabilities (h : PeakSocketReduceHeader) : PeakProfilerCapabilityManifest :=
  mkManifest (h_capability_requested h) (h_capability_compiled h) (h_capability_active h) (h_capability_partial h)
    (h_capability_retained h) (h_capability_failed h) (h_cuda_compiled_apis h) (h_cuda_found_apis h) (h_cuda_installed_apis h)
    (h_cuda_failed_apis h).

(** What a complete peer adds besides its records. *)
Definition merge_header (maxima : PeakReportMaxima) (t : PeakReportRankTuple) (h : PeakSocketReduceHeader)
    (a : PeakSocketGatherAggregate) : PeakSocketGatherAggregate :=
  let add := peak_socket_add_uint64_saturated in
  let j := a_jit a in
  mkAggregate (aggregate_records a) maxima (a_hook_count a) (a_record_bytes a) (a_size a) (a_session_token a)
    (a_receipt_session_token a) (claimed_ranks a) (release_targets a)
    (if positive_finite (profile_seconds t) && dle (a_profile_seconds a) (dsub DBL_MAX (profile_seconds t))
     then dadd (a_profile_seconds a) (profile_seconds t) else a_profile_seconds a)
    (if dlt (elapsed_seconds t) (a_min_elapsed_seconds a) then elapsed_seconds t else a_min_elapsed_seconds a)
    (if dgt (elapsed_seconds t) (a_max_elapsed_seconds a) then elapsed_seconds t else a_max_elapsed_seconds a)
    (add (a_failed_stop_window_count a) (failed_stop_window_count t))
    (add (a_dropped_calls a) (h_dropped_calls h))
    (add (a_dropped_threads a) (h_dropped_threads h))
    (a_accounting_valid a && accounting_valid t)
    (Z.lor (a_degraded_mask a) (h_degraded_mask h))
    (peak_report_capability_manifest_merge (a_capabilities a) (header_capabilities h))
    (mkJit (add (pending_queue_full j) (h_jit_pending_queue_full h))
       (add (non_executable_timeout j) (h_jit_non_executable_timeout h))
       (add (attach_retry_timeout j) (h_jit_attach_retry_timeout h))
       (add (allocation_failure j) (h_jit_allocation_failure h))
       (if provider_generation j <? h_jit_provider_generation h then h_jit_provider_generation h else provider_generation j)
       (add (pending_count j) (h_jit_pending_count h))
       (if pending_high_water j <? h_jit_pending_high_water h then h_jit_pending_high_water h else pending_high_water j)).

Definition receipt_frame (h : PeakSocketReduceHeader) (a : PeakSocketGatherAggregate) : PeakSocketReduceReleaseFrame :=
  mkFrame PEAK_SOCKET_REDUCE_MAGIC PEAK_SOCKET_REDUCE_VERSION (h_rank h) (h_hook_count h) (a_receipt_session_token a)
    PEAK_SOCKET_REDUCE_GATHER_RECEIPT PEAK_SOCKET_REDUCE_GATHER_REGISTERED.

Definition peak_socket_gather_prepare_receipt (c : PeakSocketGatherConnection) (a : PeakSocketGatherAggregate)
    : option (PeakSocketGatherConnection * PeakSocketGatherAggregate) :=
  if negb (record_index c =? a_hook_count a)%nat || negb (length (record_buffer c) =? 0)%nat then None
  else
    match maxima_consider (Some (a_maxima a)) (Some (report_tuple c)) (h_rank (header c)) with
    | (true, Some maxima) =>
        let a := merge_header maxima (report_tuple c) (header c) a in
        Some (mkConnection SENDING_RECEIPT (header_buffer c) (header c) (report_tuple c) (payload_bytes c) (record_index c)
                (record_buffer c) (receipt_frame (header c) a) 0 (confirmation_buffer c) (stream c), a)
    | _ => None
    end.

Definition valid_header (h : PeakSocketReduceHeader) (a : PeakSocketGatherAggregate) : bool :=
  negb (negb (h_magic h =? PEAK_SOCKET_REDUCE_MAGIC) || negb (h_version h =? PEAK_SOCKET_REDUCE_VERSION) ||
        negb (h_session_token h =? a_session_token a) || negb (h_hook_count h =? Z.of_nat (a_hook_count a)) ||
        (h_rank h =? 0) || (a_size a <=? h_rank h) || (1 <? h_accounting_valid h) ||
        default true (claimed_ranks a !! Z.to_nat (h_rank h))).

Definition peak_socket_gather_validate_header (c : PeakSocketGatherConnection) (a : PeakSocketGatherAggregate)
    : option (PeakSocketGatherConnection * PeakSocketGatherAggregate) :=
  match header_of (header_buffer c) with
  | None => None
  | Some h =>
      if negb (valid_header h a) then None
      else
        let t := peak_socket_reduce_header_report_tuple h in
        if negb (rank_tuple_is_valid (Some t)) then None
        else
          let a := set_claimed (<[Z.to_nat (h_rank h) := true]> (claimed_ranks a)) a in
          let c := mkConnection READING_PAYLOAD (header_buffer c) h t 0 0 [] (receipt c) (receipt_bytes c) (confirmation_buffer c)
                     (stream c) in
          if (a_record_bytes a =? 0)%nat then peak_socket_gather_prepare_receipt c a else Some (c, a)
  end.

(** A completed record goes into the aggregate. *)
Definition merge_at (i : nat) (r : PeakSocketReduceRecord) (rs : list PeakSocketReduceRecord) : option (list PeakSocketReduceRecord) :=
  old ← rs !! i; new ← peak_socket_reduce_merge_record old r; Some (<[i := new]> rs).

Definition take_bytes (n : nat) (bs : list byte) (c : PeakSocketGatherConnection) : PeakSocketGatherConnection :=
  mkConnection (phase c) (header_buffer c) (header c) (report_tuple c) (payload_bytes c + n) (record_index c)
    (record_buffer c ++ take n bs) (receipt c) (receipt_bytes c) (confirmation_buffer c) (stream c ++ take n bs).
Definition next_record (c : PeakSocketGatherConnection) : PeakSocketGatherConnection :=
  mkConnection (phase c) (header_buffer c) (header c) (report_tuple c) (payload_bytes c) (S (record_index c)) [] (receipt c)
    (receipt_bytes c) (confirmation_buffer c) (stream c).

(** The loop of [peak_socket_gather_consume_payload]; a byte of the data is fuel. *)
Fixpoint consume_loop (fuel : nat) (c : PeakSocketGatherConnection) (a : PeakSocketGatherAggregate) (data : list byte)
    : option (PeakSocketGatherConnection * PeakSocketGatherAggregate) :=
  match data with
  | [] => Some (c, a)
  | _ =>
      match fuel with
      | O => None
      | S fuel =>
          if (a_hook_count a <=? record_index c)%nat then None
          else
            let needed := (RECORD_SIZE - length (record_buffer c))%nat in
            let copy_size := Nat.min needed (length data) in
            let c := take_bytes copy_size data c in
            if (length (record_buffer c) =? RECORD_SIZE)%nat then
              match r ← record_of (record_buffer c); merge_at (record_index c) r (aggregate_records a) with
              | None => None
              | Some rs => consume_loop fuel (next_record c) (set_records rs a) (drop copy_size data)
              end
            else consume_loop fuel c a (drop copy_size data)
      end
  end.

Definition peak_socket_gather_consume_payload (c : PeakSocketGatherConnection) (a : PeakSocketGatherAggregate) (data : list byte)
    : option (PeakSocketGatherConnection * PeakSocketGatherAggregate) :=
  match consume_loop (length data) c a data with
  | None => None
  | Some (c, a) =>
      if (payload_bytes c =? a_record_bytes a)%nat then peak_socket_gather_prepare_receipt c a
      else if (payload_bytes c <? a_record_bytes a)%nat then Some (c, a) else None
  end.

(** ** Reading and writing *)

(** The answers of [recv] and [send]; no byte means that the stream has ended. *)
Inductive recv_answer := Received (bs : list byte) | RecvInterrupted | RecvWouldBlock | RecvFailed.
Inductive send_answer := Written (n : nat) | SendInterrupted | SendWouldBlock | SendFailed.

Definition PAYLOAD_BUFFER : nat := 64 * 1024.

Definition request_size (c : PeakSocketGatherConnection) (a : PeakSocketGatherAggregate) : nat :=
  match phase c with
  | READING_HEADER => HEADER_SIZE - length (header_buffer c)
  | READING_PAYLOAD => Nat.min (a_record_bytes a - payload_bytes c) PAYLOAD_BUFFER
  | READING_CONFIRM => FRAME_SIZE - length (confirmation_buffer c)
  | SENDING_RECEIPT => 0
  end.

Definition confirmation_matches (c : PeakSocketGatherConnection) (f : PeakSocketReduceReleaseFrame) : bool :=
  (magic f =? PEAK_SOCKET_REDUCE_MAGIC) && (version f =? PEAK_SOCKET_REDUCE_VERSION) && (rank f =? h_rank (header c)) &&
  (hook_count f =? h_hook_count (header c)) && (session_token f =? session_token (receipt c)) &&
  (type f =? PEAK_SOCKET_REDUCE_GATHER_RECEIPT_CONFIRM) && (decision f =? PEAK_SOCKET_REDUCE_GATHER_REGISTERED).

Definition into_header (got : list byte) (c : PeakSocketGatherConnection) : PeakSocketGatherConnection :=
  mkConnection (phase c) (header_buffer c ++ got) (header c) (report_tuple c) (payload_bytes c) (record_index c) (record_buffer c)
    (receipt c) (receipt_bytes c) (confirmation_buffer c) (stream c ++ got).
Definition into_confirmation (got : list byte) (c : PeakSocketGatherConnection) : PeakSocketGatherConnection :=
  mkConnection (phase c) (header_buffer c) (header c) (report_tuple c) (payload_bytes c) (record_index c) (record_buffer c)
    (receipt c) (receipt_bytes c) (confirmation_buffer c ++ got) (stream c ++ got).

(** The bytes of one [recv]; with whether the peer has now confirmed. *)
Definition receive (got : list byte) (c : PeakSocketGatherConnection) (a : PeakSocketGatherAggregate)
    : option (bool * PeakSocketGatherConnection * PeakSocketGatherAggregate) :=
  match phase c with
  | READING_HEADER =>
      let c := into_header got c in
      if (length (header_buffer c) =? HEADER_SIZE)%nat then '(c, a) ← peak_socket_gather_validate_header c a; Some (false, c, a)
      else Some (false, c, a)
  | READING_PAYLOAD => '(c, a) ← peak_socket_gather_consume_payload c a got; Some (false, c, a)
  | READING_CONFIRM =>
      let c := into_confirmation got c in
      if (length (confirmation_buffer c) =? FRAME_SIZE)%nat then
        match frame_of (confirmation_buffer c) with
        | Some f => if confirmation_matches c f then Some (true, c, a) else None
        | None => None
        end
      else Some (false, c, a)
  | SENDING_RECEIPT => None
  end.

(** [peak_socket_gather_read_ready]: the calls of [recv] until it would block;
    the list ends when the deadline passes. *)
Fixpoint peak_socket_gather_read_ready (answers : list recv_answer) (c : PeakSocketGatherConnection) (a : PeakSocketGatherAggregate)
    : option (bool * PeakSocketGatherConnection * PeakSocketGatherAggregate) :=
  if bool_decide (phase c = SENDING_RECEIPT) then Some (false, c, a)
  else
    match answers with
    | [] => None
    | answer :: answers =>
        let request := request_size c a in
        if (request =? 0)%nat then None
        else
          match answer with
          | RecvInterrupted => peak_socket_gather_read_ready answers c a
          | RecvWouldBlock => Some (false, c, a)
          | RecvFailed => None
          | Received bs =>
              let got := take request bs in
              if (length got =? 0)%nat then None
              else
                match receive got c a with
                | None => None
                | Some (true, c, a) => Some (true, c, a)
                | Some (false, c, a) => peak_socket_gather_read_ready answers c a
                end
          end
    end.

(** [peak_socket_gather_write_ready]: how much of the receipt is out, and whether all is. *)
Fixpoint peak_socket_gather_write_ready (answers : list send_answer) (sent : nat) : option (bool * nat) :=
  if (sent <? FRAME_SIZE)%nat then
    match answers with
    | [] => None
    | SendInterrupted :: answers => peak_socket_gather_write_ready answers sent
    | SendWouldBlock :: _ => Some (false, sent)
    | SendFailed :: _ => None
    | Written n :: answers =>
        let n := Nat.min n (FRAME_SIZE - sent) in
        if (n =? 0)%nat then None else peak_socket_gather_write_ready answers (sent + n)
    end
  else Some (true, sent).

(** ** The root's loop *)

(** [getrlimit]: the number of descriptors, unless it fails or there is no limit. *)
Definition peak_socket_reduce_gather_active_limit (descriptor_limit : option Z) (peer_count : Z) : Z :=
  let active_limit := Z.min peer_count PEAK_SOCKET_GATHER_ACTIVE_MAX in
  let active_limit :=
    match descriptor_limit with
    | None => active_limit
    | Some limit =>
        let reserved := PEAK_SOCKET_REDUCE_FD_RESERVE + 1 in
        if limit <=? reserved then 1
        else if limit - reserved <? active_limit then limit - reserved else active_limit
    end in
  if 0 <? active_limit then active_limit else 1.

Inductive accept_answer := Accepted (nonblocking : bool) | AcceptInterrupted | AcceptWouldBlock | AcceptFailed.
Record revents := mkRevents { pollin : bool; pollout : bool; pollerr : bool }.
Inductive poll_answer :=
| PollInterrupted
| PollFailed
| PollTimeout
| Polled (listener : revents) (accepts : list accept_answer) (ready : nat -> revents) (recvs : nat -> list recv_answer)
    (sends : nat -> list send_answer).

(** A free place of the table is [None]; [ok] and the counters are the
    variables of [peak_socket_reduce_root_gather]. *)
Record root := mkRoot {
  connections : list (option PeakSocketGatherConnection);
  aggregate : PeakSocketGatherAggregate;
  accepted : nat;
  active : nat;
  completed : nat;
  ok : bool;
  (** ghost: what came over the connections of the peers that completed *)
  finished : list (list byte)
}.
Definition fails (s : root) : root := mkRoot (connections s) (aggregate s) (accepted s) (active s) (completed s) false (finished s).

Fixpoint free_slot (cs : list (option PeakSocketGatherConnection)) : option nat :=
  match cs with
  | [] => None
  | None :: _ => Some O
  | Some _ :: cs => S <$> free_slot cs
  end.

(** The loop around [accept]. *)
Fixpoint accept_loop (peer_count : nat) (accepts : list accept_answer) (s : root) : root :=
  if (accepted s <? peer_count)%nat && (active s <? length (connections s))%nat then
    match accepts with
    | [] => s
    | AcceptInterrupted :: accepts => accept_loop peer_count accepts s
    | AcceptWouldBlock :: _ => s
    | AcceptFailed :: _ => fails s
    | Accepted nonblocking :: accepts =>
        match free_slot (connections s) with
        | Some slot =>
            if nonblocking : bool then
              accept_loop peer_count accepts
                (mkRoot (<[slot := Some new_connection]> (connections s)) (aggregate s) (S (accepted s)) (S (active s)) (completed s) (ok s)
                   (finished s))
            else fails s
        | None => fails s
        end
    end
  else s.

Definition put (i : nat) (c : option PeakSocketGatherConnection) (a : PeakSocketGatherAggregate) (s : root) : root :=
  mkRoot (<[i := c]> (connections s)) a (accepted s) (active s) (completed s) (ok s) (finished s).

(** The receipt is out: the peer waits for the decision from now on. *)
Definition receipt_sent (i : nat) (c : PeakSocketGatherConnection) (sent : nat) (s : root) : root :=
  let r := h_rank (header c) in
  let a := aggregate s in
  if (r =? 0) || (a_size a <=? r) || default true (release_targets a !! Z.to_nat r) then fails s
  else
    put i (Some (mkConnection READING_CONFIRM (header_buffer c) (header c) (report_tuple c) (payload_bytes c) (record_index c)
                   (record_buffer c) (receipt c) sent [] (stream c)))
      (set_targets (<[Z.to_nat r := true]> (release_targets a)) a) s.

Definition with_receipt_bytes (n : nat) (c : PeakSocketGatherConnection) : PeakSocketGatherConnection :=
  mkConnection (phase c) (header_buffer c) (header c) (report_tuple c) (payload_bytes c) (record_index c) (record_buffer c)
    (receipt c) n (confirmation_buffer c) (stream c).

(** The peer has confirmed: its connection is closed. *)
Definition completes (i : nat) (c : PeakSocketGatherConnection) (a : PeakSocketGatherAggregate) (s : root) : root :=
  mkRoot (<[i := None]> (connections s)) a (accepted s) (active s - 1) (S (completed s)) (ok s) (finished s ++ [stream c]).

(** The body of the loop over the connections. *)
Definition serve (i : nat) (re : revents) (recvs : list recv_answer) (sends : list send_answer) (s : root) : root :=
  match connections s !! i with
  | Some (Some c) =>
      let sending := bool_decide (phase c = SENDING_RECEIPT) in
      let s :=
        if sending && pollout re then
          match peak_socket_gather_write_ready sends (receipt_bytes c) with
          | None => fails s
          | Some (true, n) => receipt_sent i c n s
          | Some (false, n) => put i (Some (with_receipt_bytes n c)) (aggregate s) s
          end
        else if negb sending && pollin re then
          match peak_socket_gather_read_ready recvs c (aggregate s) with
          | None => fails s
          | Some (true, c, a) => completes i c a s
          | Some (false, c, a) => put i (Some c) a s
          end
        else s in
      match connections s !! i with
      | Some (Some _) => if ok s && pollerr re then fails s else s
      | _ => s
      end
  | _ => s
  end.

(** The loop over the places that were polled, while nothing fails. *)
Fixpoint serve_all (places : list nat) (ready : nat -> revents) (recvs : nat -> list recv_answer) (sends : nat -> list send_answer)
    (s : root) : root :=
  match places with
  | [] => s
  | i :: places => if ok s then serve_all places ready recvs sends (serve i (ready i) (recvs i) (sends i) s) else s
  end.

Definition occupied (cs : list (option PeakSocketGatherConnection)) : list nat :=
  List.filter (fun i => match cs !! i with Some (Some _) => true | _ => false end) (seq 0 (length cs)).

(** One turn after [poll]; false when the loop is left. *)
Definition turn (peer_count : nat) (answer : poll_answer) (s : root) : bool * root :=
  match answer with
  | PollInterrupted => (true, s)
  | PollFailed => (false, fails s)
  | PollTimeout => (false, s)
  | Polled listener accepts ready recvs sends =>
      let listening := (accepted s <? peer_count)%nat && (active s <? length (connections s))%nat in
      let polled := occupied (connections s) in
      if listening && pollerr listener then (false, fails s)
      else
        let incoming := listening && pollin listener in
        let s := if incoming then accept_loop peer_count accepts s else s in
        if incoming && negb (ok s) then (false, s) else (true, serve_all polled ready recvs sends s)
  end.

(** The loop does not look at [ok]; with the number of calls of [poll]. *)
Fixpoint gather_loop (peer_count : nat) (answers : list poll_answer) (s : root) : nat * root :=
  if (completed s <? peer_count)%nat then
    match answers with
    | [] => (O, s)
    | answer :: answers =>
        let '(continue, s) := turn peer_count answer s in
        if continue : bool then let '(polls, s) := gather_loop peer_count answers s in (S polls, s) else (1%nat, s)
    end
  else (O, s).

(** Whether all peers completed, how many did, the aggregate and, as ghost, what
    came over the connections of those that did. *)
Definition peak_socket_reduce_root_gather (descriptor_limit : option Z) (tables_allocated : bool) (answers : list poll_answer)
    (a : PeakSocketGatherAggregate) : bool * nat * PeakSocketGatherAggregate * list (list byte) :=
  if (a_size a <=? 1) || negb tables_allocated then (false, O, a, [])
  else
    let peer_count := Z.to_nat (a_size a - 1) in
    let active_limit := Z.to_nat (peak_socket_reduce_gather_active_limit descriptor_limit (a_size a - 1)) in
    let '(_, s) := gather_loop peer_count answers (mkRoot (replicate active_limit None) a 0 0 0 true []) in
    (ok s && (completed s =? peer_count)%nat, completed s, aggregate s, finished s).

End Gather.
