(* ===== verification/SocketGatherProofs.v ===== *)
(** * What the root has when the gather succeeds

    The invariant of the root's loop: who has claimed a rank, what each
    connection has sent so far and in which order records went into the
    aggregate.  When the gather succeeds every peer has contributed exactly
    once, whatever the network did to the streams. *)

From S2P Require Import Prelude Doubles ReportModel ReportSnapshot SocketWire SocketGather.
Import Snapshot Wire Gather.

Module GatherProofs.

(** ** Lists *)

Lemma insert_split {A} (l1 : list A) y l2 x : <[length l1 := x]> (l1 ++ y :: l2) = l1 ++ x :: l2.
Proof. induction l1 as [|z l1 IH]; [done|]. cbn. f_equal. exact IH. Qed.

Lemma omap_slot {A B} (f : A -> option B) (cs : list A) (i : nat) y : cs !! i = Some y ->
  exists l1 l2, omap f cs = l1 ++ option_list (f y) ++ l2 /\ forall x, omap f (<[i := x]> cs) = l1 ++ option_list (f x) ++ l2.
Proof.
  intros H. apply list_elem_of_split_length in H as (l1 & l2 & -> & ->). exists (omap f l1), (omap f l2).
  assert (Hx : forall x, omap f (x :: l2) = option_list (f x) ++ omap f l2) by (intros x; cbn; by destruct (f x)).
  split; [|intros x; rewrite insert_split]; by rewrite omap_app, Hx.
Qed.

Lemma omap_insert_same {A B} (f : A -> option B) (cs : list A) (i : nat) x y : cs !! i = Some y -> f x = f y -> omap f (<[i := x]> cs) = omap f cs.
Proof. intros H E. destruct (omap_slot f cs i y H) as (l1 & l2 & -> & ->). by rewrite E. Qed.

(** ** The stream of a connection *)

Lemma prepare_stream c a c' a' : peak_socket_gather_prepare_receipt c a = Some (c', a') -> stream c' = stream c.
Proof. unfold peak_socket_gather_prepare_receipt. intros H. by repeat case_match; simplify_eq. Qed.

Lemma consume_stream fuel : forall c a data c' a', consume_loop fuel c a data = Some (c', a') -> stream c' = stream c ++ data.
Proof.
  induction fuel as [|fuel IH]; intros c a data c' a' H; (destruct data as [|b data]; [cbn in H; simplify_eq; by rewrite app_nil_r|]); [done|].
  cbn [consume_loop] in H. destruct (_ <=? _)%nat; [done|]. cbv zeta in H. set (k := Nat.min _ _) in H. clearbody k.
  destruct (_ =? RECORD_SIZE)%nat; [destruct (mbind _ _) as [rs|]; [|done]|]; apply IH in H; rewrite H;
    cbn [next_record take_bytes stream]; by rewrite <- app_assoc, take_drop.
Qed.

(** Nothing that is received is lost: the stream of a connection is what its
    reads returned, in order. *)
Lemma receive_stream got c a b c' a' : receive got c a = Some (b, c', a') -> stream c' = stream c ++ got.
Proof.
  unfold receive. destruct (phase c); intros H.
  - cbv zeta in H. destruct (_ =? HEADER_SIZE)%nat; [|by simplify_eq].
    destruct (peak_socket_gather_validate_header _ _) as [[c1 a1]|] eqn:Hv; [|done]. cbn in H. simplify_eq.
    unfold peak_socket_gather_validate_header in Hv. repeat case_match; simplify_eq; [|done]. apply prepare_stream in Hv. done.
  - destruct (peak_socket_gather_consume_payload c a got) as [[c1 a1]|] eqn:Hc; [|done]. cbn in H. simplify_eq.
    unfold peak_socket_gather_consume_payload in Hc. destruct (consume_loop _ _ _ _) as [[c2 a2]|] eqn:Hl; [|done].
    apply consume_stream in Hl. repeat case_match; simplify_eq; [|done]. apply prepare_stream in Hc. congruence.
  - done.
  - cbv zeta in H. repeat case_match; simplify_eq; done.
Qed.

(** ** Merging in an order *)

Definition merge_list (r0 : PeakSocketReduceRecord) (rs : list PeakSocketReduceRecord) : option PeakSocketReduceRecord :=
  foldl (fun o r => x ← o; peak_socket_reduce_merge_record x r) (Some r0) rs.

#[local] Arguments merge_list : simpl never.

Lemma merge_list_snoc r0 rs r : merge_list r0 (rs ++ [r]) = x ← merge_list r0 rs; peak_socket_reduce_merge_record x r.
Proof. unfold merge_list. by rewrite foldl_app. Qed.

(** What a peer sent: its header and the bytes of its records. *)
Record contribution := mkContribution { c_header : PeakSocketReduceHeader; c_payload : list byte }.
Definition c_rank (c : contribution) : Z := h_rank (c_header c).
(** The contribution in the bytes of a connection: the header and, after it,
    the records; the confirmation of the receipt follows. *)
Definition stream_contribution (record_bytes : nat) (b : list byte) : option contribution :=
  h ← header_of (take HEADER_SIZE b); Some (mkContribution h (take record_bytes (drop HEADER_SIZE b))).
Definition payload_record (p : list byte) (j : nat) : option PeakSocketReduceRecord :=
  record_of (take RECORD_SIZE (drop (RECORD_SIZE * j) p)).

(** A complete peer's header in the summary. *)
Definition add_contribution (a : PeakSocketGatherAggregate) (c : contribution) : PeakSocketGatherAggregate :=
  let t := peak_socket_reduce_header_report_tuple (c_header c) in
  match maxima_consider (Some (a_maxima a)) (Some t) (c_rank c) with
  | (true, Some m) => merge_header m t (c_header c) a
  | _ => a
  end.

(** Everything of the aggregate but the records and the two rank tables. *)
Definition summary (a : PeakSocketGatherAggregate) :=
  (a_maxima a, a_profile_seconds a, a_min_elapsed_seconds a, a_max_elapsed_seconds a, a_failed_stop_window_count a,
   a_dropped_calls a, a_dropped_threads a, a_accounting_valid a, a_degraded_mask a, a_capabilities a, a_jit a).
Definition static (a : PeakSocketGatherAggregate) :=
  (a_hook_count a, a_record_bytes a, a_size a, a_session_token a, a_receipt_session_token a).

Lemma summary_merge_header m t h a b : summary a = summary b -> summary (merge_header m t h a) = summary (merge_header m t h b).
Proof. unfold summary, merge_header. cbn. intros [= _ -> -> -> -> -> -> -> -> -> ->]. done. Qed.

Lemma summary_add a b c : summary a = summary b -> summary (add_contribution a c) = summary (add_contribution b c).
Proof.
  intros H. assert (a_maxima a = a_maxima b) as Hm by (by injection H). unfold add_contribution. rewrite Hm.
  destruct (maxima_consider _ _ _) as [[] [m|]]; [|done..]. by apply summary_merge_header.
Qed.

(** ** The invariant *)

Record ghost := mkGhost { done_list : list contribution; order : nat -> list (Z * PeakSocketReduceRecord) }.

Definition payload_rank (o : option PeakSocketGatherConnection) : option Z :=
  match o with
  | Some c => if bool_decide (phase c = READING_PAYLOAD) then Some (h_rank (header c)) else None
  | None => None
  end.
Definition receipt_rank (o : option PeakSocketGatherConnection) : option Z :=
  match o with
  | Some c => if bool_decide (phase c = SENDING_RECEIPT) || bool_decide (phase c = READING_CONFIRM) then Some (h_rank (header c)) else None
  | None => None
  end.

(** What the root demands of a header. *)
Definition acceptable (a : PeakSocketGatherAggregate) (h : PeakSocketReduceHeader) : Prop :=
  h_magic h = PEAK_SOCKET_REDUCE_MAGIC /\ h_version h = PEAK_SOCKET_REDUCE_VERSION /\ h_session_token h = a_session_token a /\
  h_hook_count h = Z.of_nat (a_hook_count a) /\ rank_tuple_is_valid (Some (peak_socket_reduce_header_report_tuple h)) = true.

(** A connection in the middle of its payload [p]. *)
Record reading (a : PeakSocketGatherAggregate) (g : ghost) (c : PeakSocketGatherConnection) (p : list byte) : Prop := mkReading {
  rd_length : length p = payload_bytes c;
  rd_bytes : (payload_bytes c = RECORD_SIZE * record_index c + length (record_buffer c))%nat;
  rd_partial : (length (record_buffer c) < RECORD_SIZE)%nat;
  rd_buffer : record_buffer c = drop (RECORD_SIZE * record_index c) p;
  rd_merged : forall j, (j < record_index c)%nat -> exists r, payload_record p j = Some r /\ (h_rank (header c), r) ∈ order g j;
  rd_fresh : forall j, (record_index c <= j)%nat -> h_rank (header c) ∉ (order g j).*1;
  rd_tuple : report_tuple c = peak_socket_reduce_header_report_tuple (header c);
  rd_accepted : acceptable a (header c)
}.

Definition in_peers (a : PeakSocketGatherAggregate) (r : Z) : Prop := 0 < r < a_size a.

(** What came over a connection: its header, the payload [p] and [rest]. *)
Record came (c : PeakSocketGatherConnection) (p rest : list byte) : Prop := mkCame {
  cm_length : length (header_buffer c) = HEADER_SIZE;
  cm_header : header_of (header_buffer c) = Some (header c);
  cm_stream : stream c = header_buffer c ++ p ++ rest
}.
Definition came_all (g : ghost) (c : PeakSocketGatherConnection) (rest : list byte) : Prop :=
  exists d, d ∈ done_list g /\ c_header d = header c /\ came c (c_payload d) rest.

Definition conn_ok (a : PeakSocketGatherAggregate) (g : ghost) (c : PeakSocketGatherConnection) : Prop :=
  match phase c with
  | READING_HEADER => stream c = header_buffer c
  | READING_PAYLOAD => exists p, reading a g c p /\ came c p []
  | SENDING_RECEIPT => came_all g c []
  | READING_CONFIRM => release_targets a !! Z.to_nat (h_rank (header c)) = Some true /\ came_all g c (confirmation_buffer c)
  end.

(** The bytes of a connection that was closed, and the rank it was for. *)
Definition closed_stream (a : PeakSocketGatherAggregate) (g : ghost) (b : list byte) (r : Z) : Prop :=
  exists d, d ∈ done_list g /\ c_rank d = r /\ stream_contribution (a_record_bytes a) b = Some d.

Definition rank_list (g : ghost) (cs : list (option PeakSocketGatherConnection)) : list Z :=
  map c_rank (done_list g) ++ omap payload_rank cs.

Record GI (a0 : PeakSocketGatherAggregate) (cs : list (option PeakSocketGatherConnection)) (a : PeakSocketGatherAggregate)
    (n : list (list byte)) (g : ghost) : Prop := mkGI {
  gi_static : static a = static a0;
  gi_sizes : length (aggregate_records a) = a_hook_count a /\ a_record_bytes a = (RECORD_SIZE * a_hook_count a)%nat /\
    length (claimed_ranks a) = Z.to_nat (a_size a) /\ length (release_targets a) = Z.to_nat (a_size a);
  gi_records : forall j r0, aggregate_records a0 !! j = Some r0 -> aggregate_records a !! j = merge_list r0 (order g j).*2;
  gi_summary : summary a = summary (foldl add_contribution a0 (done_list g));
  gi_ranks : NoDup (rank_list g cs);
  gi_range : Forall (in_peers a) (rank_list g cs);
  gi_claimed : forall r, r ∈ rank_list g cs -> claimed_ranks a !! Z.to_nat r = Some true;
  gi_conns : forall i c, cs !! i = Some (Some c) -> conn_ok a g c;
  gi_finished : exists fin, map c_rank (done_list g) ≡ₚ fin ++ omap receipt_rank cs /\ Forall2 (closed_stream a g) n fin /\
    forall r, r ∈ fin -> release_targets a !! Z.to_nat r = Some true;
  gi_order : forall j, NoDup (order g j).*1 /\ forall r, r ∈ (order g j).*1 -> r ∈ rank_list g cs;
  gi_done : forall c, c ∈ done_list g -> length (c_payload c) = a_record_bytes a /\ acceptable a (c_header c) /\
    forall j, (j < a_hook_count a)%nat -> exists r, payload_record (c_payload c) j = Some r /\ (c_rank c, r) ∈ order g j
}.

Lemma static_fields a b : static a = static b ->
  a_hook_count a = a_hook_count b /\ a_record_bytes a = a_record_bytes b /\ a_size a = a_size b /\
  a_session_token a = a_session_token b /\ a_receipt_session_token a = a_receipt_session_token b.
Proof. unfold static. by intros [= -> -> -> -> ->]. Qed.

(** ** A record goes into the aggregate *)

Definition push (n : nat) (e : Z * PeakSocketReduceRecord) (g : ghost) : ghost :=
  mkGhost (done_list g) (fun j => if decide (j = n) then order g j ++ [e] else order g j).

Lemma push_grows n e g j x : x ∈ order g j -> x ∈ order (push n e g) j.
Proof. intros H. cbn. case_decide; [apply elem_of_app; by left|done]. Qed.

Lemma push_ranks n r rec g j q : q ∈ (order (push n (r, rec) g) j).*1 -> q ∈ (order g j).*1 \/ (q = r /\ j = n).
Proof.
  cbn. case_decide as E; [|by left]. rewrite fmap_app, elem_of_app. cbn. rewrite list_elem_of_singleton. intros [H|H]; [by left|right]. done.
Qed.

(** The other readers do not notice. *)
Lemma reading_other a a' n e g c p : static a' = static a -> h_rank (header c) <> e.1 -> reading a g c p -> reading a' (push n e g) c p.
Proof.
  intros Hs Hne [A B C D E F G]. destruct (static_fields _ _ Hs) as (S1 & _ & _ & S2 & _). split; try done.
  - intros j Hj. destruct (E j Hj) as (r & R1 & R2). exists r. split; [done|]. by apply push_grows.
  - intros j Hj H. destruct e as [r rec]. apply push_ranks in H as [H|[H _]]; [by apply (F j Hj)|done].
  - unfold acceptable in *. by rewrite S1, S2.
Qed.

(** A place changes without a new rank. *)
Lemma swap_inv a0 cs a n g i o o' : GI a0 cs a n g -> cs !! i = Some o ->
  payload_rank o' = payload_rank o -> receipt_rank o' = receipt_rank o -> (forall c, o' = Some c -> conn_ok a g c) ->
  GI a0 (<[i := o']> cs) a n g.
Proof.
  intros [A B C D E F G H I J K] Hi Hp Hr Hc.
  assert (Hl : rank_list g (<[i := o']> cs) = rank_list g cs) by (unfold rank_list; by rewrite (omap_insert_same _ cs i _ o)).
  split; rewrite ?Hl; try done.
  - intros j x Hx. destruct (decide (i = j)) as [<-|Hne].
    + rewrite list_lookup_insert_eq in Hx by (by eapply lookup_lt_Some). injection Hx as Hx. by apply Hc.
    + rewrite list_lookup_insert_ne in Hx by done. by eapply H.
  - by rewrite (omap_insert_same receipt_rank cs i _ o).
Qed.

Lemma replace_inv a0 cs a n g i c c' : GI a0 cs a n g -> cs !! i = Some (Some c) ->
  payload_rank (Some c') = payload_rank (Some c) -> receipt_rank (Some c') = receipt_rank (Some c) -> conn_ok a g c' ->
  GI a0 (<[i := Some c']> cs) a n g.
Proof. intros HG Hi Hp Hr Hc. apply (swap_inv _ _ _ _ _ _ (Some c)); try done. by intros ? [= <-]. Qed.

Lemma payload_member (cs : list (option PeakSocketGatherConnection)) (i : nat) c : cs !! i = Some (Some c) -> phase c = READING_PAYLOAD -> h_rank (header c) ∈ omap payload_rank cs.
Proof.
  intros Hi Hp. apply list_elem_of_omap. exists (Some c). split; [by eapply list_elem_of_lookup_2|]. cbn. by rewrite bool_decide_true.
Qed.

(** Two readers have different ranks. *)
Lemma payload_distinct g cs i j c c' : NoDup (rank_list g cs) -> cs !! i = Some (Some c) -> cs !! j = Some (Some c') -> i <> j ->
  phase c = READING_PAYLOAD -> phase c' = READING_PAYLOAD -> h_rank (header c) <> h_rank (header c').
Proof.
  intros Hn Hi Hj Hne Hp Hp' E. apply NoDup_app in Hn as (_ & _ & Hn).
  destruct (omap_slot payload_rank cs i (Some c) Hi) as (l1 & l2 & El & Ei). rewrite El in Hn.
  pose proof (Ei None) as En. cbn [payload_rank] in En, Hn. rewrite bool_decide_true in Hn by done. cbn in En, Hn.
  assert (Hm : h_rank (header c') ∈ l1 ++ l2).
  { rewrite <- En. eapply payload_member; [|done]. by rewrite list_lookup_insert_ne. }
  rewrite <- E in Hm. apply NoDup_app in Hn as (_ & N1 & N2). apply NoDup_cons in N2 as [N2 _].
  apply elem_of_app in Hm as [Hm|Hm]; [|done]. apply (N1 _ Hm). left.
Qed.

(** Arithmetic with the size of a record. *)
Ltac size_lia := unfold RECORD_SIZE in *; lia.

Lemma payload_record_app p d j : (RECORD_SIZE * S j <= length p)%nat -> payload_record (p ++ d) j = payload_record p j.
Proof.
  intros H. unfold payload_record. rewrite drop_app_le by size_lia. rewrite take_app_le; [done|]. rewrite length_drop. size_lia.
Qed.

(** Bytes are copied into the buffer. *)
Lemma copy_reading a g c p k data : reading a g c p -> (k <= length data)%nat -> (length (record_buffer c) + k < RECORD_SIZE)%nat ->
  reading a g (take_bytes k data c) (p ++ take k data).
Proof.
  intros [A B C D E F G I] Hk Hb. assert (Hlen : length (take k data) = k) by (rewrite length_take; size_lia).
  split; cbn [take_bytes payload_bytes record_index record_buffer header report_tuple phase]; try done.
  - rewrite length_app. size_lia.
  - rewrite length_app. size_lia.
  - rewrite length_app. size_lia.
  - rewrite D. rewrite drop_app_le by size_lia. done.
  - intros j Hj. destruct (E j Hj) as (r & R1 & R2). exists r. split; [|done]. rewrite payload_record_app; [done|size_lia].
Qed.

(** A full buffer is the next record of the payload. *)
Lemma complete_reading a a' g c p k data r : static a' = static a -> reading a g c p -> (k <= length data)%nat ->
  (length (record_buffer c) + k = RECORD_SIZE)%nat -> record_of (record_buffer (take_bytes k data c)) = Some r ->
  reading a' (push (record_index c) (h_rank (header c), r) g) (next_record (take_bytes k data c)) (p ++ take k data).
Proof.
  intros Hs [A B C D E F G I] Hk Hb Hr. assert (Hlen : length (take k data) = k) by (rewrite length_take; size_lia).
  destruct (static_fields _ _ Hs) as (S1 & _ & _ & S2 & _).
  split; cbn [next_record take_bytes payload_bytes record_index record_buffer header report_tuple phase] in *; try done.
  - rewrite length_app. size_lia.
  - cbn [length]. size_lia.
  - cbn. unfold RECORD_SIZE. size_lia.
  - rewrite drop_ge; [done|]. rewrite length_app. size_lia.
  - intros j Hj. destruct (decide (j = record_index c)) as [->|Hne].
    + exists r. split.
      * unfold payload_record. rewrite drop_app_le, <- D by size_lia. rewrite take_ge; [done|]. rewrite length_app. size_lia.
      * cbn. rewrite decide_True by done. apply elem_of_app. right. by left.
    + destruct (E j ltac:(size_lia)) as (r' & R1 & R2). exists r'. split; [|by apply push_grows]. rewrite payload_record_app; [done|size_lia].
  - intros j Hj [H|[_ H]]%push_ranks; [|size_lia]. apply (F j); [size_lia|done].
  - unfold acceptable in *. by rewrite S1, S2.
Qed.

Lemma merge_at_some i r rs rs' : merge_at i r rs = Some rs' ->
  exists old new, rs !! i = Some old /\ peak_socket_reduce_merge_record old r = Some new /\ rs' = <[i := new]> rs.
Proof.
  unfold merge_at. intros H. destruct (rs !! i) as [old|]; [|done]. cbn in H.
  destruct (peak_socket_reduce_merge_record old r) as [new|] eqn:E; [|done]. injection H as <-. by exists old, new.
Qed.

Lemma push_inv a0 cs a n g i c p k data r rs : GI a0 cs a n g -> cs !! i = Some (Some c) -> phase c = READING_PAYLOAD ->
  reading a g c p -> came c p [] -> (k <= length data)%nat -> (length (record_buffer c) + k = RECORD_SIZE)%nat ->
  record_of (record_buffer (take_bytes k data c)) = Some r -> merge_at (record_index c) r (aggregate_records a) = Some rs ->
  GI a0 (<[i := Some (next_record (take_bytes k data c))]> cs) (set_records rs a) n (push (record_index c) (h_rank (header c), r) g).
Proof.
  intros [A B C D E F G H I J K] Hi Hp HR HC Hk Hb Hrec Hm. apply merge_at_some in Hm as (old & new & Hold & Hnew & ->).
  set (c' := next_record (take_bytes k data c)). set (g' := push (record_index c) (h_rank (header c), r) g).
  assert (Hl : rank_list g' (<[i := Some c']> cs) = rank_list g cs).
  { unfold rank_list. by rewrite (omap_insert_same payload_rank cs i _ (Some c)). }
  assert (Hmem : h_rank (header c) ∈ rank_list g cs) by (apply elem_of_app; right; by eapply payload_member).
  split; rewrite ?Hl; try done.
  - cbn. by rewrite length_insert.
  - intros j r0 Hj. cbn. specialize (C j r0 Hj). destruct (decide (record_index c = j)) as [<-|Hne].
    + rewrite decide_True by done. rewrite list_lookup_insert_eq by (by eapply lookup_lt_Some). rewrite Hold in C.
      rewrite fmap_app. change ([(h_rank (header c), r)].*2) with [r]. rewrite merge_list_snoc, <- C. cbn. by rewrite Hnew.
    + rewrite decide_False by congruence. by rewrite list_lookup_insert_ne.
  - intros j x Hx. destruct (decide (i = j)) as [<-|Hne].
    + rewrite list_lookup_insert_eq in Hx by (by eapply lookup_lt_Some). injection Hx as <-. unfold conn_ok.
      change (phase c') with (phase c). rewrite Hp. exists (p ++ take k data). split; [by apply (complete_reading a)|]. destruct HC as [C1 C2 C3].
      split; [done|done|]. cbn [c' next_record take_bytes stream header_buffer]. rewrite C3, !app_nil_r. by rewrite app_assoc.
    + rewrite list_lookup_insert_ne in Hx by done. pose proof (H j x Hx) as Hc. unfold conn_ok in *. destruct (phase x) eqn:Hx'; try done.
      destruct Hc as (p' & Hp' & HC'). exists p'. split; [|done]. apply (reading_other a); [done| |exact Hp']. cbn. by eapply (payload_distinct g cs j i).
  - rewrite (omap_insert_same receipt_rank cs i _ (Some c)); done.
  - intros j. destruct (J j) as [J1 J2]. split.
    + cbn. case_decide as Hd; [|done]. subst j. rewrite fmap_app. change ([(h_rank (header c), r)].*1) with [h_rank (header c)]. apply NoDup_app. split; [done|]. split; [|apply NoDup_singleton].
      intros q Hq ->%list_elem_of_singleton. exact (rd_fresh _ _ _ _ HR (record_index c) (le_n _) Hq).
    + intros q [Hq|[-> _]]%push_ranks; auto.
  - intros x Hx. destruct (K x Hx) as (K1 & K2 & K3). split; [done|]. split; [done|]. intros j Hj. destruct (K3 j Hj) as (q & Q1 & Q2).
    exists q. split; [done|]. by apply push_grows.
Qed.

(** The loop over the bytes of one read. *)
Lemma consume_inv a0 n i fuel : forall cs a g c data c' a', GI a0 cs a n g -> cs !! i = Some (Some c) -> phase c = READING_PAYLOAD ->
  consume_loop fuel c a data = Some (c', a') ->
  exists g', GI a0 (<[i := Some c']> cs) a' n g' /\ phase c' = READING_PAYLOAD.
Proof.
  induction fuel as [|fuel IH]; intros cs a g c data c' a' HG Hi Hp H.
  { destruct data; [|done]. injection H as <- <-. exists g. by rewrite list_insert_id. }
  destruct data as [|b data]; [injection H as <- <-; exists g; by rewrite list_insert_id|]. cbn [consume_loop] in H.
  destruct (_ <=? _)%nat; [done|]. set (data' := b :: data) in *.
  set (k := Nat.min (RECORD_SIZE - length (record_buffer c)) (length data')) in *. cbv zeta in H.
  pose proof (gi_conns _ _ _ _ _ HG i c Hi) as Hc. unfold conn_ok in Hc. rewrite Hp in Hc. destruct Hc as (p & HR & HC).
  assert (Hk : (k <= length data')%nat) by (unfold k; lia). assert (Hk80 : (length (record_buffer c) + k <= RECORD_SIZE)%nat).
  { pose proof (rd_partial _ _ _ _ HR). unfold k. lia. }
  assert (Hlen : length (record_buffer (take_bytes k data' c)) = (length (record_buffer c) + k)%nat).
  { cbn [take_bytes record_buffer]. rewrite length_app, length_take. lia. }
  clearbody k data'. rewrite Hlen in H. destruct (Nat.eqb_spec (length (record_buffer c) + k) RECORD_SIZE) as [Hfull|Hpart].
  - destruct (record_of (record_buffer (take_bytes k data' c))) as [r|] eqn:Hrec; [|done]. cbn [mbind option_bind] in H.
    change (record_index (take_bytes k data' c)) with (record_index c) in H.
    destruct (merge_at (record_index c) r (aggregate_records a)) as [rs|] eqn:Hm; [|done].
    pose proof (push_inv _ _ _ _ _ _ _ _ _ _ _ _ HG Hi Hp HR HC Hk Hfull Hrec Hm) as HG'.
    destruct (IH _ _ _ _ _ _ _ HG' (list_lookup_insert_eq _ _ _ (lookup_lt_Some _ _ _ Hi)) Hp H) as (g' & A & B).
    exists g'. by rewrite list_insert_insert_eq in A.
  - assert (Hpart' : (length (record_buffer c) + k < RECORD_SIZE)%nat) by lia.
    assert (HG' : GI a0 (<[i := Some (take_bytes k data' c)]> cs) a n g).
    { apply (replace_inv a0 cs a n g i c); [done|done|done|done|]. unfold conn_ok. change (phase (take_bytes k data' c)) with (phase c).
      rewrite Hp. exists (p ++ take k data'). split; [by apply copy_reading|]. destruct HC as [C1 C2 C3].
      split; [done|done|]. cbn [take_bytes stream header_buffer]. rewrite C3, !app_nil_r. by rewrite app_assoc. }
    destruct (IH _ _ _ _ _ _ _ HG' (list_lookup_insert_eq _ _ _ (lookup_lt_Some _ _ _ Hi)) Hp H) as (g' & A & B).
    exists g'. by rewrite list_insert_insert_eq in A.
Qed.

(** The lists of ranks when the connection in place [i] changes. *)
Lemma rank_moves (f : option PeakSocketGatherConnection -> option Z) (cs : list (option PeakSocketGatherConnection)) (i : nat) o o' :
  cs !! i = Some o -> exists l, omap f cs ≡ₚ option_list (f o) ++ l /\ omap f (<[i := o']> cs) ≡ₚ option_list (f o') ++ l.
Proof.
  intros H. destruct (omap_slot f cs i o H) as (l1 & l2 & -> & E). exists (l1 ++ l2). rewrite E. split; solve_Permutation.
Qed.

(** A connection that is not touched, with more contributions and targets. *)
Lemma conn_ok_more a a' g g' c : static a' = static a ->
  order g' = order g -> (forall q, release_targets a !! q = Some true -> release_targets a' !! q = Some true) ->
  (forall d, d ∈ done_list g -> d ∈ done_list g') -> conn_ok a g c -> conn_ok a' g' c.
Proof.
  intros Hs Ho Ht Hd Hc. destruct (static_fields _ _ Hs) as (S1 & _ & _ & S2 & _). unfold conn_ok in *. destruct (phase c); try done.
  - destruct Hc as (p' & [Q1 Q2 Q3 Q4 Q5 Q6 Q7 Q8] & HC). exists p'. split; [|done]. split; rewrite ?Ho; try done.
    unfold acceptable in *. by rewrite S1, S2.
  - destruct Hc as (d & D1 & D2). exists d. by auto.
  - destruct Hc as (T & d & D1 & D2). split; [auto|]. exists d. by auto.
Qed.

(** The payload is complete: the peer's header is counted and its receipt goes out. *)
Lemma prepare_inv a0 cs a n g i c c' a' : GI a0 cs a n g -> cs !! i = Some (Some c) -> phase c = READING_PAYLOAD ->
  peak_socket_gather_prepare_receipt c a = Some (c', a') ->
  exists g', GI a0 (<[i := Some c']> cs) a' n g'.
Proof.
  intros [A B C D E F G H I J K] Hi Hp Hprep. pose proof (H i c Hi) as Hc. unfold conn_ok in Hc. rewrite Hp in Hc. destruct Hc as (p & HR & HC).
  unfold peak_socket_gather_prepare_receipt in Hprep. destruct (_ || _) eqn:Hguard; [done|].
  apply orb_false_iff in Hguard as [G1 G2]. apply negb_false_iff, Nat.eqb_eq in G1, G2.
  destruct (maxima_consider _ _ _) as [[] [m|]] eqn:Hmax; try done. injection Hprep as <- <-.
  set (x := mkContribution (header c) p). set (a' := merge_header m (report_tuple c) (header c) a).
  set (c' := mkConnection SENDING_RECEIPT _ _ _ _ _ _ _ _ _ _). exists (mkGhost (done_list g ++ [x]) (order g)).
  destruct (rank_moves payload_rank cs i (Some c) (Some c') Hi) as (lp & P1 & P2).
  destruct (rank_moves receipt_rank cs i (Some c) (Some c') Hi) as (lr & R1 & R2).
  assert (Fp : payload_rank (Some c) = Some (c_rank x)) by (cbn; by rewrite bool_decide_true).
  assert (Fr : receipt_rank (Some c) = None) by (cbn; by rewrite Hp).
  rewrite Fp in P1. rewrite Fr in R1. change (payload_rank (Some c')) with (@None Z) in P2.
  change (receipt_rank (Some c')) with (Some (c_rank x)) in R2. cbn [option_list app] in P1, P2, R1, R2.
  assert (Hl : rank_list (mkGhost (done_list g ++ [x]) (order g)) (<[i := Some c']> cs) ≡ₚ rank_list g cs).
  { unfold rank_list. cbn [done_list]. rewrite map_app, P1, P2. cbn [map]. solve_Permutation. }
  split.
  - done.
  - done.
  - done.
  - cbn [done_list]. rewrite foldl_app. cbn [foldl].
    transitivity (summary (add_contribution a x)); [|by apply summary_add]. unfold add_contribution, c_rank. cbn [c_header x].
    rewrite <- (rd_tuple _ _ _ _ HR), Hmax. done.
  - by rewrite Hl.
  - by rewrite Hl.
  - intros r. rewrite Hl. apply G.
  - intros j y Hy. destruct (decide (i = j)) as [<-|Hne].
    + rewrite list_lookup_insert_eq in Hy by (by eapply lookup_lt_Some). injection Hy as <-. exists x. split; [|split; [done|]].
      * apply elem_of_app. right. by left.
      * destruct HC. by split.
    + rewrite list_lookup_insert_ne in Hy by done. apply (conn_ok_more a a' g _ y); [done|done|done| |by eapply H].
      intros d Hd. apply elem_of_app. by left.
  - destruct I as (fin & I1 & I2 & I3). exists fin. split; [|split; [|done]].
    2: { eapply Forall2_impl; [exact I2|]. intros b q (d & D1 & D2 & D3). exists d. split; [|done]. apply elem_of_app. by left. }
    cbn [done_list]. rewrite map_app, I1, R1, R2. cbn [map].
    solve_Permutation.
  - intros j. destruct (J j) as [J1 J2]. split; [done|]. intros r Hr. rewrite Hl. by apply J2.
  - cbn [done_list]. intros y [Hy| ->%list_elem_of_singleton]%elem_of_app; [by apply K|]. split; [|split].
    + cbn [c_payload x]. rewrite (rd_length _ _ _ _ HR), (rd_bytes _ _ _ _ HR). change (a_record_bytes a') with (a_record_bytes a).
      destruct B as (_ & -> & _). rewrite G1, G2. lia.
    + apply (rd_accepted _ _ _ _ HR).
    + intros j Hj. cbn [c_payload x]. apply (rd_merged _ _ _ _ HR). rewrite G1. done.
Qed.

Lemma valid_header_spec h a : valid_header h a = true ->
  h_magic h = PEAK_SOCKET_REDUCE_MAGIC /\ h_version h = PEAK_SOCKET_REDUCE_VERSION /\ h_session_token h = a_session_token a /\
  h_hook_count h = Z.of_nat (a_hook_count a) /\ h_rank h <> 0 /\ h_rank h < a_size a /\
  claimed_ranks a !! Z.to_nat (h_rank h) = Some false.
Proof.
  unfold valid_header. rewrite negb_true_iff, !orb_false_iff, !negb_false_iff, !Z.eqb_eq, Z.leb_gt, Z.ltb_ge, Z.eqb_neq.
  intros [[[[[[[A B] C] D] E] F] _] G]. do 6 (split; [done|]).
  destruct (claimed_ranks a !! Z.to_nat (h_rank h)) as [[]|]; done.
Qed.

(** Header words are unsigned. *)
Lemma le_value_nonneg bs : 0 <= le_value bs.
Proof. induction bs as [|b bs IH]; cbn [le_value]; [lia|]. pose proof (Z.mod_pos_bound b 256). lia. Qed.

(** A rank is claimed. *)
Lemma claim_inv a0 cs a n g i c h : GI a0 cs a n g -> cs !! i = Some (Some c) -> phase c = READING_HEADER -> 0 <= h_rank h ->
  header_of (header_buffer c) = Some h -> length (header_buffer c) = HEADER_SIZE ->
  valid_header h a = true -> rank_tuple_is_valid (Some (peak_socket_reduce_header_report_tuple h)) = true ->
  let a' := set_claimed (<[Z.to_nat (h_rank h) := true]> (claimed_ranks a)) a in
  let c' := mkConnection READING_PAYLOAD (header_buffer c) h (peak_socket_reduce_header_report_tuple h) 0 0 [] (receipt c) (receipt_bytes c)
    (confirmation_buffer c) (stream c) in
  GI a0 (<[i := Some c']> cs) a' n g.
Proof.
  intros [A B C D E F G H I J K] Hi Hp Hr0 Hh Hlen Hv Ht a' c'. apply valid_header_spec in Hv as (V1 & V2 & V3 & V4 & V5 & V6 & V7).
  destruct (rank_moves payload_rank cs i (Some c) (Some c') Hi) as (lp & P1 & P2).
  assert (Fp : payload_rank (Some c) = None) by (cbn; by rewrite Hp). rewrite Fp in P1.
  change (payload_rank (Some c')) with (Some (h_rank h)) in P2. cbn [option_list app] in P1, P2.
  assert (Hl : rank_list g (<[i := Some c']> cs) ≡ₚ h_rank h :: rank_list g cs).
  { unfold rank_list. rewrite P1, P2. solve_Permutation. }
  assert (Hnew : h_rank h ∉ rank_list g cs).
  { intros Hin. apply G in Hin. congruence. }
  assert (Hlt : (Z.to_nat (h_rank h) < length (claimed_ranks a))%nat) by (by eapply lookup_lt_Some).
  split; try done.
  - destruct B as (B1 & B2 & B3 & B4). do 2 (split; [done|]). split; [|done]. cbn. by rewrite length_insert.
  - rewrite Hl. by apply NoDup_cons.
  - rewrite Hl. apply Forall_cons. split; [|done]. unfold in_peers. cbn. lia.
  - intros r. rewrite Hl. intros [->|Hr]%elem_of_cons; [by apply list_lookup_insert_eq|]. cbn.
    destruct (decide (Z.to_nat (h_rank h) = Z.to_nat r)) as [Heq|Hne]; [rewrite Heq; apply list_lookup_insert_eq; by rewrite <- Heq|].
    rewrite list_lookup_insert_ne by done. by apply G.
  - intros j y Hy. destruct (decide (i = j)) as [<-|Hne].
    + rewrite list_lookup_insert_eq in Hy by (by eapply lookup_lt_Some). injection Hy as <-. pose proof (H i c Hi) as Hs. unfold conn_ok in Hs. rewrite Hp in Hs. exists []. split.
      * split; cbn; try done.
        -- unfold RECORD_SIZE. lia.
        -- intros j Hj. lia.
        -- intros j _ Hj. apply Hnew. by apply (J j).
      * split; [done|done|]. cbn [stream header_buffer c']. by rewrite Hs, app_nil_r.
    + rewrite list_lookup_insert_ne in Hy by done. apply (conn_ok_more a a' g g y); try done. by eapply H.
  - rewrite (omap_insert_same receipt_rank cs i _ (Some c)); [done|done|]. cbn. by rewrite Hp.
  - intros j. destruct (J j) as [J1 J2]. split; [done|]. intros r Hr. rewrite Hl. right. by apply J2.
Qed.

Lemma uint_nonneg n bs x rest : uint n bs = Some (x, rest) -> 0 <= x.
Proof. unfold uint. destruct (_ <? n)%nat; [done|]. intros [= <- _]. apply le_value_nonneg. Qed.

Lemma header_rank_nonneg bs h : header_of bs = Some h -> 0 <= h_rank h.
Proof.
  unfold header_of, read_header, andthen, read_u64, read_u32. intros H.
  destruct (uint 8 bs) as [[x1 b1]|]; [|done]. destruct (uint 4 b1) as [[x2 b2]|]; [|done].
  destruct (uint 4 b2) as [[x3 b3]|] eqn:E3; [|done]. apply uint_nonneg in E3.
  repeat match type of H with context [match ?r ?b with _ => _ end] => destruct (r b) as [[? ?]|]; [|done] end.
  by injection H as <-.
Qed.

Lemma header_dropped_nonneg bs h : header_of bs = Some h -> 0 <= h_dropped_calls h.
Proof.
  unfold header_of, read_header, andthen, read_u64, read_u32. intros H.
  repeat match type of H with context [match ?r ?b with _ => _ end] => destruct (r b) as [[? ?]|] eqn:?; [|done] end.
  injection H as <-. cbn. eapply uint_nonneg. eassumption.
Qed.

Lemma validate_inv a0 cs a n g i c c' a' : GI a0 cs a n g -> cs !! i = Some (Some c) -> phase c = READING_HEADER ->
  length (header_buffer c) = HEADER_SIZE ->
  peak_socket_gather_validate_header c a = Some (c', a') -> exists g', GI a0 (<[i := Some c']> cs) a' n g'.
Proof.
  intros HG Hi Hp Hlen H. unfold peak_socket_gather_validate_header in H. destruct (header_of (header_buffer c)) as [h|] eqn:Hh; [|done].
  destruct (valid_header h a) eqn:Hv; [|done]. cbn [negb] in H. destruct (rank_tuple_is_valid _) eqn:Ht; [|done]. cbn [negb] in H.
  cbv zeta in H. pose proof (claim_inv a0 cs a n g i c h HG Hi Hp (header_rank_nonneg _ _ Hh) Hh Hlen Hv Ht) as HG'. cbv zeta in HG'.
  destruct (_ =? 0)%nat.
  - assert (Hi' := list_lookup_insert_eq cs i (Some (mkConnection READING_PAYLOAD (header_buffer c) h (peak_socket_reduce_header_report_tuple h)
      0 0 [] (receipt c) (receipt_bytes c) (confirmation_buffer c) (stream c))) (lookup_lt_Some _ _ _ Hi)).
    destruct (prepare_inv _ _ _ _ _ _ _ _ _ HG' Hi' eq_refl H) as (g' & A). exists g'. by rewrite list_insert_insert_eq in A.
  - injection H as <- <-. by exists g.
Qed.

(** One [recv]. *)
Lemma receive_inv a0 cs a n g i c got b c' a' : GI a0 cs a n g -> cs !! i = Some (Some c) -> receive got c a = Some (b, c', a') ->
  exists g', GI a0 (<[i := Some c']> cs) a' n g' /\ (b = true -> phase c' = READING_CONFIRM).
Proof.
  intros HG Hi H. unfold receive in H. destruct (phase c) eqn:Hp; [| |done|].
  - set (c1 := into_header got c) in *. pose proof (gi_conns _ _ _ _ _ HG i c Hi) as Hc0. unfold conn_ok in Hc0. rewrite Hp in Hc0.
    assert (HG1 : GI a0 (<[i := Some c1]> cs) a n g).
    { apply (replace_inv a0 cs a n g i c); [done|done|done|done|]. unfold conn_ok. change (phase c1) with (phase c). rewrite Hp.
      cbn [c1 into_header stream header_buffer]. by rewrite Hc0. }
    destruct (Nat.eqb_spec (length (header_buffer c1)) HEADER_SIZE) as [Hlen|]; [|injection H as <- <- <-; by exists g].
    destruct (peak_socket_gather_validate_header c1 a) as [[c2 a2]|] eqn:Hv; [|done]. injection H as <- <- <-.
    destruct (validate_inv _ _ _ _ _ _ _ _ _ HG1 (list_lookup_insert_eq _ _ _ (lookup_lt_Some _ _ _ Hi)) Hp Hlen Hv) as (g' & A).
    exists g'. by rewrite list_insert_insert_eq in A.
  - destruct (peak_socket_gather_consume_payload c a got) as [[c2 a2]|] eqn:Hc; [|done]. injection H as <- <- <-.
    unfold peak_socket_gather_consume_payload in Hc. destruct (consume_loop (length got) c a got) as [[c1 a1]|] eqn:Hl; [|done].
    destruct (consume_inv _ _ _ _ _ _ _ _ _ _ _ HG Hi Hp Hl) as (g1 & HG1 & Hp1).
    destruct (_ =? _)%nat.
    + destruct (prepare_inv _ _ _ _ _ _ _ _ _ HG1 (list_lookup_insert_eq _ _ _ (lookup_lt_Some _ _ _ Hi)) Hp1 Hc) as (g' & A).
      exists g'. by rewrite list_insert_insert_eq in A.
    + destruct (_ <? _)%nat; [|done]. injection Hc as <- <-. by exists g1.
  - set (c1 := into_confirmation got c) in *.
    assert (HG1 : GI a0 (<[i := Some c1]> cs) a n g).
    { apply (replace_inv a0 cs a n g i c); [done|done|done|done|]. pose proof (gi_conns _ _ _ _ _ HG i c Hi) as Hc.
      unfold conn_ok in *. change (phase c1) with (phase c). rewrite Hp in *. destruct Hc as (T & d & D1 & D2 & [C1 C2 C3]).
      split; [done|]. exists d. split; [done|]. split; [done|]. split; [done|done|].
      cbn [c1 into_confirmation stream header_buffer confirmation_buffer]. by rewrite C3, <- !app_assoc. }
    destruct (_ =? FRAME_SIZE)%nat; [|injection H as <- <- <-; by exists g].
    destruct (frame_of (confirmation_buffer c1)); [|done]. destruct (confirmation_matches c1 p); [|done].
    injection H as <- <- <-. by exists g.
Qed.

Lemma read_ready_inv a0 n i answers : forall cs a g c b c' a', GI a0 cs a n g -> cs !! i = Some (Some c) ->
  peak_socket_gather_read_ready answers c a = Some (b, c', a') ->
  exists g', GI a0 (<[i := Some c']> cs) a' n g' /\ (b = true -> phase c' = READING_CONFIRM).
Proof.
  induction answers as [|answer answers IH]; intros cs a g c b c' a' HG Hi H; cbn [peak_socket_gather_read_ready] in H.
  { destruct (bool_decide _); [|done]. injection H as <- <- <-. exists g. by rewrite list_insert_id. }
  destruct (bool_decide _). { injection H as <- <- <-. exists g. by rewrite list_insert_id. }
  cbv zeta in H. destruct (_ =? 0)%nat; [done|]. destruct answer as [bs| | |]; [| |injection H as <- <- <-; exists g; by rewrite list_insert_id|done].
  - destruct (_ =? 0)%nat; [done|]. destruct (receive _ c a) as [[[b1 c1] a1]|] eqn:Hr; [|done].
    destruct (receive_inv _ _ _ _ _ _ _ _ _ _ _ HG Hi Hr) as (g1 & HG1 & Hb1). destruct b1.
    + injection H as <- <- <-. by exists g1.
    + destruct (IH _ _ _ _ _ _ _ HG1 (list_lookup_insert_eq _ _ _ (lookup_lt_Some _ _ _ Hi)) H) as (g' & A & B).
      exists g'. by rewrite list_insert_insert_eq in A.
  - by eapply IH.
Qed.

(** ** The root *)

Definition RI (a0 : PeakSocketGatherAggregate) (s : root) : Prop :=
  completed s = length (finished s) /\ exists g, GI a0 (connections s) (aggregate s) (finished s) g.

Lemma fails_inv a0 s : RI a0 s -> RI a0 (fails s).
Proof. done. Qed.

(** The targets grow, the rest stays. *)
Lemma receipt_sent_inv a0 s i c sent : RI a0 s -> connections s !! i = Some (Some c) -> phase c = SENDING_RECEIPT -> RI a0 (receipt_sent i c sent s).
Proof.
  intros [Hn [g HG]] Hi Hp. unfold receipt_sent. cbv zeta. destruct (_ || _) eqn:Hguard; [by split; [|exists g]|].
  apply orb_false_iff in Hguard as [Hguard Ht]. apply orb_false_iff in Hguard as [Hz Hs].
  set (r := h_rank (header c)) in *. set (a := aggregate s) in *. set (ts := <[Z.to_nat r := true]> (release_targets a)).
  set (c' := mkConnection READING_CONFIRM _ _ _ _ _ _ _ _ _ _).
  assert (Hlt : (Z.to_nat r < length (release_targets a))%nat).
  { destruct (release_targets a !! Z.to_nat r) eqn:E; [by eapply lookup_lt_Some|done]. }
  assert (Hgrow : forall q, release_targets a !! q = Some true -> ts !! q = Some true).
  { intros q Hq. unfold ts. destruct (decide (Z.to_nat r = q)) as [<-|Hne]; [by apply list_lookup_insert_eq|by rewrite list_lookup_insert_ne]. }
  split; [done|]. exists g. destruct HG as [A B C D E F G H I J K]. cbn [connections aggregate completed finished put].
  assert (Hl : rank_list g (<[i := Some c']> (connections s)) = rank_list g (connections s)).
  { unfold rank_list. rewrite (omap_insert_same payload_rank _ i _ (Some c)); [done|done|]. cbn. by rewrite Hp. }
  split; rewrite ?Hl; try done.
  - destruct B as (B1 & B2 & B3 & B4). do 3 (split; [done|]). cbn. unfold ts. by rewrite length_insert.
  - intros j y Hy. destruct (decide (i = j)) as [<-|Hne].
    + rewrite list_lookup_insert_eq in Hy by (by eapply lookup_lt_Some). injection Hy as <-. unfold conn_ok. cbn. unfold ts.
      split; [by apply list_lookup_insert_eq|]. pose proof (H i c Hi) as Hc. unfold conn_ok in Hc. rewrite Hp in Hc.
      destruct Hc as (d & D1 & D2 & [C1 C2 C3]). exists d. by split; [|split].
    + rewrite list_lookup_insert_ne in Hy by done. apply (conn_ok_more a _ g g y); try done. by eapply H.
  - destruct I as (fin & I1 & I2 & I3). exists fin. split; [|split; [done|]].
    + rewrite (omap_insert_same receipt_rank _ i _ (Some c)); [done|done|]. cbn. by rewrite Hp.
    + intros q Hq. apply Hgrow. by apply I3.
Qed.

Lemma completes_inv a0 cs a s i c g : completed s = length (finished s) ->
  GI a0 cs a (finished s) g -> cs !! i = Some (Some c) -> phase c = READING_CONFIRM ->
  <[i := None]> cs = <[i := None]> (connections s) -> RI a0 (completes i c a s).
Proof.
  intros Hn [A B C D E F G H I J K] Hi Hp Hcs. split; [cbn [completes completed finished]; rewrite length_app; cbn; lia|].
  exists g. cbn [connections aggregate completed finished completes]. rewrite <- Hcs.
  pose proof (H i c Hi) as Htarget. unfold conn_ok in Htarget. rewrite Hp in Htarget.
  destruct Htarget as (Htarget & d & D1 & D2 & [C1 C2 C3]).
  assert (Hl : rank_list g (<[i := None]> cs) = rank_list g cs).
  { unfold rank_list. rewrite (omap_insert_same payload_rank _ i _ (Some c)); [done|done|]. cbn. by rewrite Hp. }
  destruct (rank_moves receipt_rank cs i (Some c) None Hi) as (lr & R1 & R2).
  assert (Fr : receipt_rank (Some c) = Some (h_rank (header c))) by (cbn; by rewrite Hp). rewrite Fr in R1. cbn [option_list app receipt_rank] in R1, R2.
  split; rewrite ?Hl; try done.
  - intros j y Hy. destruct (decide (i = j)) as [<-|Hne].
    + by rewrite list_lookup_insert_eq in Hy by (by eapply lookup_lt_Some).
    + rewrite list_lookup_insert_ne in Hy by done. by eapply H.
  - destruct I as (fin & I1 & I2 & I3). exists (fin ++ [h_rank (header c)]). split; [|split].
    + rewrite I1, R1, R2. solve_Permutation.
    + apply Forall2_app; [done|]. constructor; [|constructor]. exists d. split; [done|]. split; [unfold c_rank; by rewrite D2|].
      unfold stream_contribution. rewrite C3, take_app_length', drop_app_length', C2 by (by symmetry). cbn [mbind option_bind].
      destruct (K d D1) as (K1 & _). rewrite take_app_length' by (by symmetry). rewrite <- D2. by destruct d.
    + intros q [Hq| ->%list_elem_of_singleton]%elem_of_app; [by apply I3|done].
Qed.

Lemma free_slot_some cs i : free_slot cs = Some i -> cs !! i = Some None.
Proof.
  revert i. induction cs as [|[c|] cs IH]; intros i H; [done| |by injection H as <-]. cbn in H.
  destruct (free_slot cs) as [k|]; [|done]. injection H as <-. by apply IH.
Qed.

Lemma accept_loop_inv a0 peers accepts : forall s, RI a0 s -> RI a0 (accept_loop peers accepts s).
Proof.
  induction accepts as [|x accepts IH]; intros s HR; cbn [accept_loop]; destruct (_ && _); try done.
  destruct x as [nb| | |]; [|by apply IH|done|by apply fails_inv].
  destruct (free_slot (connections s)) as [i|] eqn:Hf; [|by apply fails_inv]. destruct nb; [|by apply fails_inv]. apply IH.
  apply free_slot_some in Hf. destruct HR as [Hn [g HG]]. split; [done|]. exists g. cbn [connections aggregate completed finished].
  apply (swap_inv _ _ _ _ _ _ None); try done. by intros c [= <-].
Qed.

Lemma serve_inv a0 i re recvs sends s : RI a0 s -> RI a0 (serve i re recvs sends s).
Proof.
  intros HR. unfold serve. destruct (connections s !! i) as [[c|]|] eqn:Hi; [|done|done]. cbv zeta.
  assert (Hend : forall s', RI a0 s' -> RI a0 (match connections s' !! i with Some (Some _) => if ok s' && pollerr re then fails s' else s' | _ => s' end)).
  { intros s' HR'. destruct (connections s' !! i) as [[]|]; [destruct (_ && _); [by apply fails_inv|done]|done|done]. }
  apply Hend. clear Hend. destruct (bool_decide (phase c = SENDING_RECEIPT)) eqn:Hs; cbn [andb negb].
  - apply bool_decide_eq_true in Hs. destruct (pollout re); [|done].
    destruct (peak_socket_gather_write_ready sends (receipt_bytes c)) as [[[] k]|]; [by apply receipt_sent_inv| |by apply fails_inv].
    destruct HR as [Hn [g HG]]. split; [done|]. exists g. apply (replace_inv _ _ _ _ _ _ c); try done.
    pose proof (gi_conns _ _ _ _ _ HG i c Hi) as Hc. unfold conn_ok in *. cbn. rewrite Hs in *.
    destruct Hc as (d & D1 & D2 & [C1 C2 C3]). exists d. by split; [|split].
  - destruct (pollin re); [|done].
    destruct (peak_socket_gather_read_ready recvs c (aggregate s)) as [[[b c'] a']|] eqn:Hr; [|done].
    destruct HR as [Hn [g HG]]. destruct (read_ready_inv _ _ _ _ _ _ _ _ _ _ _ HG Hi Hr) as (g' & HG' & Hb). destruct b.
    + apply (completes_inv _ _ _ _ _ c' g' Hn HG'); [by apply list_lookup_insert_eq; eapply lookup_lt_Some|by apply Hb|].
      by rewrite list_insert_insert_eq.
    + split; [done|]. by exists g'.
Qed.

Lemma serve_all_inv a0 places ready recvs sends : forall s, RI a0 s -> RI a0 (serve_all places ready recvs sends s).
Proof.
  induction places as [|i places IH]; intros s HR; cbn [serve_all]; [done|]. destruct (ok s); [|done]. by apply IH, serve_inv.
Qed.

Lemma turn_inv a0 peers answer s : RI a0 s -> RI a0 (turn peers answer s).2.
Proof.
  intros HR. unfold turn. destruct answer as [| | |listener accepts ready recvs sends]; cbn [snd]; try done. cbv zeta.
  destruct (_ && pollerr listener); [done|].
  assert (HR' : RI a0 (if (accepted s <? peers)%nat && (active s <? length (connections s))%nat && pollin listener
                       then accept_loop peers accepts s else s)) by (destruct (_ && pollin listener); [by apply accept_loop_inv|done]).
  destruct (_ && negb _); cbn [snd]; [done|]. by apply serve_all_inv.
Qed.

Lemma gather_loop_inv a0 peers answers : forall s, RI a0 s -> RI a0 (gather_loop peers answers s).2.
Proof.
  induction answers as [|x answers IH]; intros s HR; cbn [gather_loop]; destruct (_ <? peers)%nat; try done.
  pose proof (turn_inv a0 peers x s HR) as HR'. destruct (turn peers x s) as [[] s']; cbn [snd] in *; [|done].
  specialize (IH s' HR'). by destruct (gather_loop peers answers s') as [polls s2].
Qed.

(** The aggregate with which the gather starts. *)
Record starts (a : PeakSocketGatherAggregate) : Prop := mkStarts {
  st_records : length (aggregate_records a) = a_hook_count a;
  st_bytes : a_record_bytes a = (RECORD_SIZE * a_hook_count a)%nat;
  st_claimed : length (claimed_ranks a) = Z.to_nat (a_size a);
  st_targets : length (release_targets a) = Z.to_nat (a_size a)
}.

Lemma omap_replicate_None {A B} (f : option A -> option B) k : f None = None -> omap f (replicate k None) = [].
Proof. intros H. induction k as [|k IH]; [done|]. cbn. by rewrite H. Qed.

Lemma start_inv a k : starts a -> RI a (mkRoot (replicate k None) a 0 0 0 true []).
Proof.
  intros [A B C D]. split; [done|]. exists (mkGhost [] (fun _ => [])). cbn [connections aggregate completed finished].
  assert (Hl : rank_list (mkGhost [] (fun _ => [])) (replicate k None) = []) by (unfold rank_list; by rewrite omap_replicate_None).
  split; rewrite ?Hl; try done.
  - constructor.
  - intros r H. by apply elem_of_nil in H.
  - intros i c H. apply lookup_replicate in H as [H _]. done.
  - exists []. split; [by rewrite omap_replicate_None|]. split; [constructor|]. intros r H. by apply elem_of_nil in H.
  - intros j. split; [constructor|]. intros r H. by apply elem_of_nil in H.
  - intros c H. by apply elem_of_nil in H.
Qed.

(** ** What is merged *)

Lemma merge_record_spec x r y : peak_socket_reduce_merge_record x r = Some y ->
  identity_hash r = identity_hash x /\ identity_hash y = identity_hash x /\
  num_calls y = num_calls x + num_calls r /\ num_calls y <= UINT64_MAX /\
  thread_count y = thread_count x + thread_count r /\ thread_count y <= UINT64_MAX /\
  (detached y <> 0 <-> detached x <> 0 \/ detached r <> 0).
Proof.
  unfold peak_socket_reduce_merge_record. destruct (mergeable x r) eqn:Hm; [|done]. cbn [negb]. intros [= <-]. cbn.
  unfold mergeable in Hm. rewrite !andb_true_iff in Hm. destruct Hm as [[[[[[[[[[[[[A _] _] _] _] _] _] _] _] _] B] C] _] _].
  apply Z.eqb_eq in A. apply negb_true_iff, Z.ltb_ge in B, C. do 3 (split; [done|]). split; [lia|]. split; [done|]. split; [lia|].
  unfold c_or, flag. destruct (Z.eqb_spec (detached x) 0), (Z.eqb_spec (detached r) 0); cbn; lia.
Qed.

Lemma total_snoc {A} (f : A -> Z) l x : total f (l ++ [x]) = total f l + f x.
Proof. induction l as [|y l IH]; cbn [total app]; lia. Qed.

Lemma merge_list_counts r0 rs r : merge_list r0 rs = Some r ->
  num_calls r = num_calls r0 + total num_calls rs /\ thread_count r = thread_count r0 + total thread_count rs /\
  identity_hash r = identity_hash r0 /\ Forall (fun x => identity_hash x = identity_hash r0) rs /\
  (detached r <> 0 <-> detached r0 <> 0 \/ Exists (fun x => detached x <> 0) rs).
Proof.
  revert r. induction rs as [|x rs IH] using rev_ind; intros r H.
  - injection H as <-. cbn. rewrite Exists_nil. split; [lia|]. split; [lia|]. split; [done|]. split; [constructor|]. tauto.
  - rewrite merge_list_snoc in H. destruct (merge_list r0 rs) as [y|]; [|done]. cbn in H.
    destruct (IH _ eq_refl) as (A & B & C & D & E). apply merge_record_spec in H as (F & G & H & _ & I & _ & J).
    rewrite !total_snoc, Forall_app, Forall_singleton, Exists_app, Exists_cons, Exists_nil. split; [lia|]. split; [lia|]. split; [congruence|].
    split; [split; [done|congruence]|]. tauto.
Qed.

(** ** The gather *)

(** The records of hook [j] in the order in which they went into the aggregate. *)
Definition merged_in (cs : list contribution) (j : nat) (r0 r : PeakSocketReduceRecord) : Prop :=
  exists cs' rs, cs' ≡ₚ cs /\ Forall2 (fun c x => payload_record (c_payload c) j = Some x) cs' rs /\ merge_list r0 rs = Some r.

Lemma order_merged a0 cs a n g j r0 : GI a0 cs a n g -> omap payload_rank cs = [] -> (j < a_hook_count a)%nat ->
  aggregate_records a0 !! j = Some r0 -> exists r, aggregate_records a !! j = Some r /\ merged_in (done_list g) j r0 r.
Proof.
  intros [A B C D E F G H I J K] Hp Hj Hr0. specialize (C j r0 Hr0). destruct (J j) as [J1 J2].
  unfold rank_list in *. rewrite Hp, app_nil_r in *.
  assert (Hperm : (order g j).*1 ≡ₚ map c_rank (done_list g)).
  { apply NoDup_Permutation; [done|done|]. intros r. split; [apply J2|]. intros Hr.
    apply list_elem_of_In, in_map_iff in Hr as (c & <- & Hc). apply list_elem_of_In in Hc. destruct (K c Hc) as (_ & _ & K3).
    destruct (K3 j Hj) as (x & _ & Hx). apply list_elem_of_fmap. by exists (c_rank c, x). }
  apply Permutation_map_inv in Hperm as (cs' & Hfst & Hcs').
  destruct (aggregate_records a !! j) as [r|] eqn:Er; [|exfalso; apply lookup_ge_None in Er; lia]. exists r. split; [done|].
  exists cs', (order g j).*2. split; [done|]. split; [|done]. apply Forall2_same_length_lookup_2.
  { rewrite length_fmap. transitivity (length (order g j).*1); [by rewrite Hfst, length_map|by rewrite length_fmap]. }
  intros k c x Hc Hx. rewrite list_lookup_fmap in Hx. destruct (order g j !! k) as [[q y]|] eqn:Ho; [|done]. injection Hx as <-.
  assert (Hq : q = c_rank c).
  { assert (Hk : (order g j).*1 !! k = Some q) by (by rewrite list_lookup_fmap, Ho). rewrite Hfst in Hk.
    rewrite list_lookup_fmap, Hc in Hk. by injection Hk. }
  assert (Hin : c ∈ done_list g) by (rewrite Hcs'; by eapply list_elem_of_lookup_2).
  destruct (K c Hin) as (_ & _ & K3). destruct (K3 j Hj) as (z & Z1 & Z2). rewrite Z1. f_equal.
  apply list_elem_of_lookup in Z2 as (m & Hm). assert (m = k) as ->; [|rewrite Ho in Hm; by injection Hm as _ ->].
  apply (NoDup_lookup (order g j).*1 m k (c_rank c) J1); rewrite list_lookup_fmap; [by rewrite Hm|by rewrite Ho, Hq].
Qed.

(** Lists of different ranks. *)
Lemma same_ranks (cs ds : list contribution) : NoDup (map c_rank cs) -> map c_rank ds ≡ₚ map c_rank cs ->
  (forall d, d ∈ ds -> d ∈ cs) -> ds ≡ₚ cs.
Proof.
  intros Hn Hp Hin. assert (Hd : NoDup (map c_rank ds)) by (by rewrite Hp).
  apply (submseteq_length_Permutation ds cs).
  - apply NoDup_submseteq; [|done]. by eapply NoDup_fmap_1.
  - pose proof (Permutation_length Hp) as Hl. rewrite !length_map in Hl. lia.
Qed.

Lemma gather_exact limit tables answers a0 n a streams : starts a0 ->
  peak_socket_reduce_root_gather limit tables answers a0 = (true, n, a, streams) ->
  exists cs ds, mapM (stream_contribution (a_record_bytes a0)) streams = Some ds /\ ds ≡ₚ cs /\
    map c_rank cs ≡ₚ seqZ 1 (a_size a0 - 1) /\
    Forall (fun c => acceptable a0 (c_header c) /\ length (c_payload c) = a_record_bytes a0) cs /\
    (forall j r0, aggregate_records a0 !! j = Some r0 -> exists r, aggregate_records a !! j = Some r /\ merged_in cs j r0 r) /\
    summary a = summary (foldl add_contribution a0 cs) /\ static a = static a0 /\
    forall r, 1 <= r < a_size a0 -> release_targets a !! Z.to_nat r = Some true.
Proof.
  intros Hst H. unfold peak_socket_reduce_root_gather in H. destruct (Z.leb_spec (a_size a0) 1) as [|Hsize]; [done|].
  destruct tables; [|done]. cbn [orb negb] in H.
  set (peers := Z.to_nat (a_size a0 - 1)) in *. set (k := Z.to_nat (peak_socket_reduce_gather_active_limit limit (a_size a0 - 1))) in *.
  pose proof (gather_loop_inv a0 peers answers _ (start_inv a0 k Hst)) as HR.
  destruct (gather_loop peers answers _) as [polls s]. cbn [snd] in HR. injection H as Hok <- <- <-.
  apply andb_true_iff in Hok as [_ Hc]. apply Nat.eqb_eq in Hc. destruct HR as [Hfin [g HG]].
  pose proof (gi_static _ _ _ _ _ HG) as Hstat. destruct (static_fields _ _ Hstat) as (S1 & S2 & S3 & S4 & S5).
  pose proof (gi_ranks _ _ _ _ _ HG) as HN. pose proof (gi_range _ _ _ _ _ HG) as HF.
  destruct (gi_finished _ _ _ _ _ HG) as (fin & F1 & F2 & F3). pose proof (Forall2_length _ _ _ F2) as F4.
  assert (Hsub : rank_list g (connections s) ⊆+ seqZ 1 (a_size a0 - 1)).
  { apply NoDup_submseteq; [done|]. intros r Hr. rewrite Forall_forall in HF. apply HF in Hr. unfold in_peers in Hr. rewrite S3 in Hr.
    apply elem_of_seqZ. lia. }
  pose proof (submseteq_length _ _ Hsub) as Hlen. rewrite length_seqZ in Hlen. unfold rank_list in Hlen. rewrite length_app in Hlen.
  pose proof (Permutation_length F1) as Hlen2. rewrite length_app in Hlen2. fold peers in Hlen.
  assert (Hpay : omap payload_rank (connections s) = []) by (apply nil_length_inv; lia).
  assert (Hrec : omap receipt_rank (connections s) = []) by (apply nil_length_inv; lia).
  assert (Hall : map c_rank (done_list g) ≡ₚ seqZ 1 (a_size a0 - 1)).
  { unfold rank_list in Hsub. rewrite Hpay, app_nil_r in Hsub. apply submseteq_length_Permutation; [done|]. rewrite length_seqZ. fold peers. lia. }
  rewrite Hrec, app_nil_r in F1.
  assert (Hds : exists ds, mapM (stream_contribution (a_record_bytes a0)) (finished s) = Some ds /\ map c_rank ds = fin /\
    forall d, d ∈ ds -> d ∈ done_list g).
  { rewrite <- S2. clear -F2. induction F2 as [|b r bs rs (d & D1 & D2 & D3) _ (ds & E1 & E2 & E3)]; [by exists []; split_and!; [| |intros d ?%elem_of_nil]|].
    exists (d :: ds). cbn. rewrite D3, E1. split; [done|]. split; [by rewrite <- D2, <- E2|]. intros x [->|Hx]%elem_of_cons; auto. }
  destruct Hds as (ds & Hm & Hr & Hin). exists (done_list g), ds. split; [done|]. split.
  { apply same_ranks; [|by rewrite Hr, F1|done]. rewrite Hall. apply NoDup_seqZ. }
  split; [done|]. split.
  { apply Forall_forall. intros c Hc'. destruct (gi_done _ _ _ _ _ HG c Hc') as (D1 & D2 & _). split; [|congruence].
    unfold acceptable in *. by rewrite S1, S4 in D2. }
  split.
  { intros j r0 Hr0. apply (order_merged _ _ _ _ _ _ _ HG Hpay); [|done]. rewrite S1, <- (st_records _ Hst). by eapply lookup_lt_Some. }
  split; [apply HG|]. split; [done|]. intros r Hr'. apply F3. rewrite <- F1, Hall. apply elem_of_seqZ. lia.
Qed.

End GatherProofs.
