(* ===== verification/RuntimeConfig.v ===== *)
(** * Settings of the report

    [src/general_listener/runtime_config.c]: the time budget shared by the
    report transports, the rank and size a launcher announces, and the switches
    read from the environment.  The environment is a partial function; warnings
    and log lines are left out. *)

From Stdlib Require Import String.
From S2P Require Import Prelude TargetSelector EnvParser.

Module Config.

Section Environment.
Context (getenv : string -> option cstring).

Definition UINT_MAX : Z := UINT32_MAX.
Definition PEAK_SOCKET_GATHER_ACTIVE_MAX : Z := 128.
Definition PEAK_SOCKET_GATHER_WAVE_BUDGET_MS : Z := 5000.
Definition PEAK_SOCKET_GATHER_ADAPTIVE_MARGIN_MAX_MS : Z := 300000.
Definition PEAK_SOCKET_PHASE_TIMEOUT_MS_DEFAULT : Z := 60000.
Definition PEAK_MPI_REPORT_RELEASE_TIMEOUT_MS_DEFAULT : Z := 180000.
Definition PEAK_SOCKET_POST_GATHER_PHASE_COUNT : Z := 2.
Definition PEAK_MPI_RELEASE_MARGIN_PHASE_COUNT : Z := 2.

Definition peak_general_listener_parse_positive_uint_bounded (variable : string) (maximum : Z) : option Z :=
  match getenv variable with
  | None => None
  | Some _ => parse_env_unsigned_checked getenv (mkUnsignedSchema variable 0 1 maximum false false)
  end.

Definition peak_general_listener_multiply_saturated (value multiplier maximum : Z) : Z :=
  if maximum / multiplier <? value then maximum else value * multiplier.
Definition peak_general_listener_add_saturated (left right : Z) : Z :=
  if UINT_MAX - right <? left then UINT_MAX else left + right.

Record PeakReportTimeoutBudget := mkBudget {
  socket_phase_timeout_ms : Z;
  socket_gather_wave_budget_ms : Z;
  socket_gather_hard_timeout_ms : Z;
  socket_release_timeout_ms : Z;
  mpi_report_release_timeout_ms : Z;
  socket_gather_timeout_was_scaled : bool;
  socket_release_was_raised : bool;
  socket_combined_release_minimum_ms : Z
}.

Definition peak_general_listener_report_timeout_budget_for_rank_count (rank_count : Z) : PeakReportTimeoutBudget :=
  let peer_count := if 0 <? rank_count then rank_count - 1 else 0 in
  let waves := peer_count / PEAK_SOCKET_GATHER_ACTIVE_MAX + (if peer_count mod PEAK_SOCKET_GATHER_ACTIVE_MAX =? 0 then 0 else 1) in
  let phase := default PEAK_SOCKET_PHASE_TIMEOUT_MS_DEFAULT
    (peak_general_listener_parse_positive_uint_bounded "PEAK_OUTPUT_AGGREGATION_TIMEOUT_MS" INT_MAX) in
  let wave_budget := PEAK_SOCKET_GATHER_WAVE_BUDGET_MS in
  let adaptive_margin := peak_general_listener_multiply_saturated waves wave_budget PEAK_SOCKET_GATHER_ADAPTIVE_MARGIN_MAX_MS in
  let hard := if INT_MAX - adaptive_margin <? phase then INT_MAX else phase + adaptive_margin in
  let minimum := peak_general_listener_add_saturated hard
    (peak_general_listener_multiply_saturated phase PEAK_SOCKET_POST_GATHER_PHASE_COUNT INT_MAX) in
  let minimum := if INT_MAX <? minimum then INT_MAX else minimum in
  let '(release, raised) :=
    match peak_general_listener_parse_positive_uint_bounded "PEAK_OUTPUT_AGGREGATION_RELEASE_TIMEOUT_MS" INT_MAX with
    | Some configured => if configured <? minimum then (minimum, true) else (configured, false)
    | None => (minimum, false)
    end in
  let mpi_release := default PEAK_MPI_REPORT_RELEASE_TIMEOUT_MS_DEFAULT
    (peak_general_listener_parse_positive_uint_bounded "PEAK_MPI_REPORT_RELEASE_TIMEOUT_MS" UINT_MAX) in
  let mpi_margin := peak_general_listener_multiply_saturated phase PEAK_MPI_RELEASE_MARGIN_PHASE_COUNT UINT_MAX in
  mkBudget phase wave_budget hard release mpi_release (phase <? hard) raised (peak_general_listener_add_saturated release mpi_margin).

(** ** Numbers of the launcher *)

Definition LONG_MAX : Z := 2 ^ 63 - 1.

(** [strtol(value, &end, 10)]: the result, the characters read and ERANGE. *)
Definition strtol (value : cstring) : Z * nat * bool :=
  let '(spaces, rest) := span isspace value in
  let '(negative, sign, rest) :=
    match rest with
    | c :: rest' => if c =? ch "-" then (true, 1%nat, rest') else if c =? ch "+" then (false, 1%nat, rest') else (false, 0%nat, rest)
    | [] => (false, 0%nat, rest)
    end in
  let '(digits, _) := span isdigit rest in
  match digits with
  | [] => (0, 0%nat, false)
  | _ =>
      let v := decimal digits in
      let consumed := (length spaces + sign + length digits)%nat in
      if negative : bool then (if LONG_MAX + 1 <? v then (- LONG_MAX - 1, consumed, true) else (- v, consumed, false))
      else if LONG_MAX <? v then (LONG_MAX, consumed, true) else (v, consumed, false)
  end.

Definition peak_general_listener_parse_long_env (variable : string) : Z :=
  match getenv variable with
  | None | Some [] => -1
  | Some value =>
      let '(parsed, consumed, erange) := strtol value in
      if erange || (consumed =? 0)%nat || negb (consumed =? length value)%nat || (parsed <? 0) || (INT_MAX <? parsed) then -1 else parsed
  end.

Definition set_nonempty (variable : string) : bool := match getenv variable with None | Some [] => false | _ => true end.

Definition mpi_pairs : list (string * string) :=
  [("PMI_RANK", "PMI_SIZE"); ("PMIX_RANK", "PMIX_SIZE"); ("OMPI_COMM_WORLD_RANK", "OMPI_COMM_WORLD_SIZE");
   ("MV2_COMM_WORLD_RANK", "MV2_COMM_WORLD_SIZE"); ("I_MPI_RANK", "I_MPI_SIZE")]%string.
Definition slurm_pair : string * string := ("SLURM_PROCID", "SLURM_NTASKS")%string.

(** A pair both of whose variables are set. *)
Definition complete_pair (p : string * string) : bool := set_nonempty p.1 && set_nonempty p.2.
Definition pair_value (p : string * string) : option (Z * Z) :=
  let rank := peak_general_listener_parse_long_env p.1 in
  let size := peak_general_listener_parse_long_env p.2 in
  if (rank <? 0) || (size <=? 0) || (INT_MAX <? size) || (size <=? rank) then None else Some (rank, size).

(** The loop over the namespaces of MPI launchers; [None]: malformed or contradictory. *)
Fixpoint resolve_pairs (pairs : list (string * string)) (resolved : option (Z * Z)) : option (option (Z * Z)) :=
  match pairs with
  | [] => Some resolved
  | p :: pairs =>
      if negb (complete_pair p) then resolve_pairs pairs resolved
      else
        match pair_value p with
        | None => None
        | Some v =>
            match resolved with
            | Some v' => if bool_decide (v' = v) then resolve_pairs pairs (Some v) else None
            | None => resolve_pairs pairs (Some v)
            end
        end
  end.

Definition peak_general_listener_mpi_env_rank_size : option (Z * Z) :=
  match resolve_pairs mpi_pairs None with
  | None => None
  | Some (Some v) => Some v
  | Some None => if complete_pair slurm_pair then pair_value slurm_pair else None
  end.

Definition peak_general_listener_mpi_env_world_metadata_present : bool :=
  existsb (fun p => set_nonempty p.1 || set_nonempty p.2) (mpi_pairs ++ [slurm_pair]).

Definition peak_general_listener_report_timeout_budget : PeakReportTimeoutBudget :=
  peak_general_listener_report_timeout_budget_for_rank_count
    (match peak_general_listener_mpi_env_rank_size with Some (_, size) => size | None => 1 end).

Definition peak_general_listener_parse_positive_uint_text (value : option cstring) : option Z :=
  match value with
  | None | Some [] => None
  | Some text =>
      if forallb isdigit text then
        if ULLONG_MAX <? decimal text then None
        else if (decimal text =? 0) || (UINT_MAX <? decimal text) then None else Some (decimal text)
      else None
  end.

Definition local_size_envs : list string :=
  ["MPI_LOCALNRANKS"; "OMPI_COMM_WORLD_LOCAL_SIZE"; "MV2_COMM_WORLD_LOCAL_SIZE"; "PMI_LOCAL_SIZE"]%string.
Fixpoint first_local_size (names : list string) : Z :=
  match names with
  | [] => 1
  | n :: names => match peak_general_listener_parse_positive_uint_text (getenv n) with Some v => v | None => first_local_size names end
  end.
Definition peak_general_listener_detect_local_mpi_ranks : Z := first_local_size local_size_envs.

(** The value that [peak_general_listener_local_mpi_ranks] returns from then on. *)
Definition peak_general_listener_runtime_configure (configured_local_mpi_ranks : Z) : Z := peak_general_listener_detect_local_mpi_ranks.

(** ** Switches *)

Definition peak_general_listener_ascii_equal_ci (value : option cstring) (word : string) : bool :=
  match value with Some v => bool_decide (map tolower v = map tolower (bytes word)) | None => false end.
Definition peak_general_listener_env_value_truthy (value : option cstring) : bool :=
  existsb (peak_general_listener_ascii_equal_ci value) ["1"; "true"; "yes"; "on"]%string.
Definition peak_general_listener_env_value_falsey (value : option cstring) : bool :=
  existsb (peak_general_listener_ascii_equal_ci value) ["0"; "false"; "off"; "no"]%string.

Definition peak_general_listener_socket_reduce_fallback_enabled : bool :=
  match getenv "PEAK_OUTPUT_AGGREGATION_SOCKET_FALLBACK" with
  | None | Some [] => true
  | value => negb (peak_general_listener_env_value_falsey value)
  end.

Definition peak_general_listener_should_print_text (rank_local_mpi_output : bool) : bool :=
  match getenv "PEAK_TEXT_OUTPUT" with
  | None | Some [] => negb rank_local_mpi_output
  | value => peak_general_listener_env_value_truthy value
  end.

Definition peak_general_listener_parse_detach_count_override : option Z :=
  match getenv "PEAK_DETACH_COUNT" with
  | None => None
  | Some _ => parse_env_unsigned_checked getenv (mkUnsignedSchema "PEAK_DETACH_COUNT" 0 1 ULLONG_MAX false false)
  end.

(** ** The budget is ordered *)

Lemma bounded_range variable top v : peak_general_listener_parse_positive_uint_bounded variable top = Some v -> 1 <= v <= top.
Proof.
  unfold peak_general_listener_parse_positive_uint_bounded. destruct (getenv variable) as [t|] eqn:E; [|done].
  intros H. unfold parse_env_unsigned_checked in H. cbn [name decimal_digits_only minimum maximum zero_allowed andb] in H.
  rewrite E in H. destruct (span isspace t) as [sp rest]. destruct (_ || _); [done|].
  destruct (strtoull t) as [[p k] er]. destruct (_ || _) eqn:Hc in H; [done|]. injection H as <-. breflect. lia.
Qed.

Lemma default_range (o : option Z) d lo hi : (forall v, o = Some v -> lo <= v <= hi) -> lo <= d <= hi -> lo <= default d o <= hi.
Proof. intros H Hd. destruct o; cbn; auto. Qed.

(** The times fit an [int], are ordered, and leave each phase its share. *)
Lemma budget_ordered rank_count : 0 <= rank_count <= INT_MAX ->
  let b := peak_general_listener_report_timeout_budget_for_rank_count rank_count in
  let waves := (Z.max (rank_count - 1) 0 + 127) / 128 in
  0 < socket_phase_timeout_ms b <= INT_MAX /\
  socket_gather_hard_timeout_ms b = Z.min INT_MAX (socket_phase_timeout_ms b + Z.min (waves * 5000) 300000) /\
  Z.min INT_MAX (socket_gather_hard_timeout_ms b + 2 * socket_phase_timeout_ms b) <= socket_release_timeout_ms b <= INT_MAX /\
  Z.min UINT_MAX (socket_release_timeout_ms b + 2 * socket_phase_timeout_ms b) = socket_combined_release_minimum_ms b.
Proof.
  intros Hr b waves. unfold b, peak_general_listener_report_timeout_budget_for_rank_count.
  set (phase := default _ (peak_general_listener_parse_positive_uint_bounded "PEAK_OUTPUT_AGGREGATION_TIMEOUT_MS" INT_MAX)).
  assert (Hp : 1 <= phase <= INT_MAX) by (apply default_range; [apply bounded_range|done]). clearbody phase.
  set (peers := if 0 <? rank_count then rank_count - 1 else 0).
  assert (Hpeers : peers = Z.max (rank_count - 1) 0) by (unfold peers; destruct (Z.ltb_spec 0 rank_count); lia).
  set (w := peers / PEAK_SOCKET_GATHER_ACTIVE_MAX + _).
  assert (Hw : w = waves).
  { unfold w, waves, PEAK_SOCKET_GATHER_ACTIVE_MAX. rewrite <- Hpeers. pose proof (Z.div_mod peers 128 ltac:(lia)).
    pose proof (Z.mod_pos_bound peers 128 ltac:(lia)). pose proof (Z.div_mod (peers + 127) 128 ltac:(lia)).
    pose proof (Z.mod_pos_bound (peers + 127) 128 ltac:(lia)). destruct (Z.eqb_spec (peers mod 128) 0); lia. }
  assert (Hw0 : 0 <= w) by (rewrite Hw; unfold waves; apply Z.div_pos; lia). clearbody w peers.
  set (margin := peak_general_listener_multiply_saturated w _ _).
  assert (Hm : margin = Z.min (w * 5000) 300000).
  { unfold margin, peak_general_listener_multiply_saturated, PEAK_SOCKET_GATHER_ADAPTIVE_MARGIN_MAX_MS, PEAK_SOCKET_GATHER_WAVE_BUDGET_MS.
    change (300000 / 5000) with 60. destruct (Z.ltb_spec 60 w); lia. }
  clearbody margin.
  set (hard := if INT_MAX - margin <? phase then INT_MAX else phase + margin).
  assert (Hh : hard = Z.min INT_MAX (phase + margin)) by (unfold hard; destruct (Z.ltb_spec (INT_MAX - margin) phase); lia).
  clearbody hard.
  set (two := peak_general_listener_multiply_saturated phase PEAK_SOCKET_POST_GATHER_PHASE_COUNT INT_MAX).
  assert (Ht : two = Z.min INT_MAX (2 * phase)).
  { unfold two, peak_general_listener_multiply_saturated, PEAK_SOCKET_POST_GATHER_PHASE_COUNT. unfold INT_MAX in *.
    change ((2 ^ 31 - 1) / 2) with 1073741823. destruct (Z.ltb_spec 1073741823 phase); lia. }
  clearbody two.
  set (mn := if INT_MAX <? _ then INT_MAX else _).
  assert (Hmn : mn = Z.min INT_MAX (hard + 2 * phase)).
  { unfold mn, peak_general_listener_add_saturated, UINT_MAX, UINT32_MAX. unfold INT_MAX in *.
    destruct (Z.ltb_spec (2 ^ 32 - 1 - two) hard); [lia|]. destruct (Z.ltb_spec (2 ^ 31 - 1) (hard + two)); lia. }
  clearbody mn.
  set (rel := match peak_general_listener_parse_positive_uint_bounded "PEAK_OUTPUT_AGGREGATION_RELEASE_TIMEOUT_MS" INT_MAX with
              | Some c => _ | None => _ end).
  assert (Hrel : mn <= rel.1 <= INT_MAX).
  { unfold rel. destruct (peak_general_listener_parse_positive_uint_bounded "PEAK_OUTPUT_AGGREGATION_RELEASE_TIMEOUT_MS" INT_MAX) eqn:E;
      [apply bounded_range in E; destruct (Z.ltb_spec z mn); cbn; lia|cbn; lia]. }
  clearbody rel.
  destruct rel as [release raised]. cbn [socket_phase_timeout_ms socket_gather_hard_timeout_ms socket_release_timeout_ms
    socket_combined_release_minimum_ms fst] in *. split; [lia|]. split; [by rewrite Hh, Hm, Hw|]. split; [lia|].
  unfold peak_general_listener_add_saturated, peak_general_listener_multiply_saturated, PEAK_MPI_RELEASE_MARGIN_PHASE_COUNT, UINT_MAX,
    UINT32_MAX, INT_MAX in *. change ((2 ^ 32 - 1) / 2) with 2147483647. destruct (Z.ltb_spec 2147483647 phase); [lia|].
  destruct (Z.ltb_spec (2 ^ 32 - 1 - phase * 2) release); lia.
Qed.

(** ** Rank and size *)

Lemma pair_value_spec p r n : pair_value p = Some (r, n) -> 0 <= r < n /\ n <= INT_MAX.
Proof.
  unfold pair_value. destruct (_ || _) eqn:E; [done|]. intros [= <- <-]. rewrite !orb_false_iff, Z.ltb_ge, !Z.leb_gt, Z.ltb_ge in E. lia.
Qed.

Lemma resolve_pairs_spec pairs resolved o : resolve_pairs pairs resolved = Some o ->
  (forall p, p ∈ pairs -> complete_pair p = true -> exists v, pair_value p = Some v /\ o = Some v) /\
  (forall v, resolved = Some v -> o = Some v) /\
  (resolved = None -> (forall p, p ∈ pairs -> complete_pair p = false) -> o = None).
Proof.
  revert resolved. induction pairs as [|p pairs IH]; intros resolved H; cbn [resolve_pairs] in H.
  - injection H as <-. split; [intros p Hp; by apply elem_of_nil in Hp|]. split; [done|]. done.
  - destruct (complete_pair p) eqn:Hp; cbn [negb] in H.
    + destruct (pair_value p) as [v|] eqn:Hv; [|done].
      assert (Hstep : resolve_pairs pairs (Some v) = Some o /\ forall v', resolved = Some v' -> v' = v).
      { destruct resolved as [v'|]; [|split; [done|]; intros v' [=]]. destruct (bool_decide (v' = v)) eqn:Hb; [|done].
        apply bool_decide_eq_true in Hb. split; [done|]. by intros ? [= <-]. }
      destruct Hstep as [Hstep Hsame]. destruct (IH _ Hstep) as (A & B & C). split; [|split].
      * intros p' [->|Hp']%elem_of_cons Hc; [exists v; split; [done|by apply B]|by apply A].
      * intros v' Hv'. rewrite (Hsame v' Hv'). by apply B.
      * intros _ Hnone. specialize (Hnone p ltac:(by left)). congruence.
    + destruct (IH _ H) as (A & B & C). split; [|split; [done|]].
      * intros p' [->|Hp']%elem_of_cons Hc; [congruence|by apply A].
      * intros Hr Hnone. apply C; [done|]. intros p' Hp'. apply Hnone. by right.
Qed.

End Environment.

(** the rank and size of the process are those of one launcher: a pair that
    is answered is in range, every MPI namespace that is complete announces
    exactly this pair, and Slurm's is taken only when no MPI namespace is
    complete. *)
Theorem rank_size_consistent getenv r n : peak_general_listener_mpi_env_rank_size getenv = Some (r, n) ->
  0 <= r < n /\ n <= INT_MAX /\
  (forall p, p ∈ mpi_pairs -> complete_pair getenv p = true -> pair_value getenv p = Some (r, n)) /\
  ((forall p, p ∈ mpi_pairs -> complete_pair getenv p = false) -> pair_value getenv slurm_pair = Some (r, n)).
Proof.
  unfold peak_general_listener_mpi_env_rank_size. intros H. destruct (resolve_pairs getenv mpi_pairs None) as [o|] eqn:Hres; [|done].
  destruct (resolve_pairs_spec _ _ _ _ Hres) as (A & _ & C).
  assert (Hall : forall p, p ∈ mpi_pairs -> complete_pair getenv p = true -> exists v, pair_value getenv p = Some v /\ o = Some v) by exact A.
  destruct o as [v|].
  - injection H as ->. assert (Hex : exists p, p ∈ mpi_pairs /\ complete_pair getenv p = true).
    { destruct (existsb (complete_pair getenv) mpi_pairs) eqn:E.
      - apply existsb_exists in E as (p & Hp & Hc). exists p. split; [by apply list_elem_of_In|done].
      - exfalso. discriminate (C eq_refl). intros p Hp. apply not_true_iff_false. intros Hc. apply not_true_iff_false in E. apply E.
        apply existsb_exists. exists p. split; [by apply list_elem_of_In|done]. }
    destruct Hex as (p & Hp & Hc). destruct (A p Hp Hc) as (v & Hv & [= <-]). destruct (pair_value_spec _ _ _ _ Hv). split; [done|].
    split; [done|]. split; [|intros Hn; rewrite (Hn p Hp) in Hc; done].
    intros q Hq Hqc. destruct (A q Hq Hqc) as (v & Hv' & [= <-]). done.
  - destruct (complete_pair getenv slurm_pair); [|done]. destruct (pair_value_spec _ _ _ _ H). split; [done|]. split; [done|]. split; [|done].
    intros p Hp Hc. destruct (A p Hp Hc) as (v & _ & [=]).
Qed.

Definition demo_launcher (v : string) : option cstring :=
  if (v =? "PMI_RANK")%string then Some (bytes "3") else if (v =? "PMI_SIZE")%string then Some (bytes "8")
  else if (v =? "SLURM_PROCID")%string then Some (bytes "0") else if (v =? "SLURM_NTASKS")%string then Some (bytes "1") else None.

Lemma rank_size_consistent_witness : pair_value demo_launcher ("PMI_RANK", "PMI_SIZE")%string = Some (3, 8).
Proof.
  apply (rank_size_consistent demo_launcher 3 8); [vm_compute; reflexivity|left|vm_compute; reflexivity].
Defined.

End Config.
