(* ===== verification/SocketSetup.v ===== *)
(** * Where and when the ranks meet

    The parts of [src/general_listener/socket_report_transport.c] that every
    rank computes for itself: the session token, the ports, the root's host
    from Slurm's node list, deadlines, and when a peer of a wave may connect. *)

From Stdlib Require Import String.
From S2P Require Import Prelude TargetSelector EnvParser ExecMemory ExecEnv ReportSnapshot RuntimeConfig.
Import Snapshot Config.

Module Setup.

(** ** Tokens and ports *)

Section Environment.
Context (getenv : string -> option cstring).

(** [peak_socket_reduce_hash_text]; an empty value leaves the hash alone. *)
Definition peak_socket_reduce_hash_text (hash : Z) (label : string) (value : cstring) : Z :=
  match value with
  | [] => hash
  | _ => fold_left fnv_step (bytes label ++ [ch "="] ++ value ++ [ch ";"]) hash
  end.

Definition shared_env_names : list string :=
  ["SLURM_JOB_ID"; "SLURM_STEP_ID"; "SLURM_STEPID"; "SLURM_JOB_UID"; "SLURM_CLUSTER_NAME"; "SLURM_NODELIST"; "SLURM_JOB_NODELIST";
   "PMI_JOBID"; "PMI_KVS"; "PMI_NAMESPACE"; "PMIX_NAMESPACE"; "OMPI_COMM_WORLD_JOBID"]%string.

Definition nonempty_env (v : string) : option cstring := match getenv v with None | Some [] => None | value => value end.

Definition peak_socket_reduce_launcher_token : Z :=
  let '(hash, saw) := fold_left (fun '(hash, saw) label =>
    match nonempty_env label with Some value => (peak_socket_reduce_hash_text hash label value, true) | None => (hash, saw) end)
    shared_env_names (FNV_OFFSET, false) in
  if saw : bool then hash else peak_socket_reduce_hash_text hash "fallback" (bytes "single-launcher").

Definition peak_socket_reduce_session_token : Z :=
  match nonempty_env "PEAK_OUTPUT_AGGREGATION_TOKEN" with
  | Some override => peak_socket_reduce_hash_text FNV_OFFSET "PEAK_OUTPUT_AGGREGATION_TOKEN" override
  | None => peak_socket_reduce_launcher_token
  end.

Definition PEAK_SOCKET_REDUCE_DEFAULT_PORT_BASE : Z := 42000.
Definition PEAK_SOCKET_REDUCE_DEFAULT_PORT_SPAN : Z := 20000.
Definition peak_socket_reduce_default_port : Z :=
  PEAK_SOCKET_REDUCE_DEFAULT_PORT_BASE + peak_socket_reduce_launcher_token mod PEAK_SOCKET_REDUCE_DEFAULT_PORT_SPAN.
Definition peak_socket_reduce_port : Z :=
  (parse_env_unsigned getenv (mkUnsignedSchema "PEAK_OUTPUT_AGGREGATION_PORT" peak_socket_reduce_default_port 1 65535 false false) (Some false)).1.1.

Definition peak_socket_reduce_release_port (port : Z) : Z := if port <? 65535 then port + 1 else port - 1.

Inductive PeakSocketReportChannel := PEAK_SOCKET_REPORT_CHANNEL_CPU | PEAK_SOCKET_REPORT_CHANNEL_CUDA.

(** The gather port and the release port. *)
Definition peak_socket_reduce_channel_ports (channel : PeakSocketReportChannel) : option (Z * Z) :=
  let base := peak_socket_reduce_port in
  match channel with
  | PEAK_SOCKET_REPORT_CHANNEL_CPU => Some (base, peak_socket_reduce_release_port base)
  | PEAK_SOCKET_REPORT_CHANNEL_CUDA => if 65532 <? base then None else Some (base + 2, base + 3)
  end.

(** ** The root's host *)

(** A token of digits, a dash and digits, ascending; with the length before the dash. *)
Definition peak_socket_reduce_hostlist_token_is_ascending_range (token : cstring) : bool * nat :=
  match strchr token (ch "-") with
  | None => (false, length token)
  | Some dash =>
      let first := take dash token in
      let last := drop (S dash) token in
      if bool_decide (first = []) || bool_decide (last = []) || negb (forallb isdigit first) || negb (forallb isdigit last) then
        (false, length token)
      else if (LONG_MAX <? decimal first) || (LONG_MAX <? decimal last) || (decimal last <? decimal first) then (false, length token)
      else (true, dash)
  end.

Definition lt_opt (a : option nat) (b : nat) : bool := match a with Some a => (a <? b)%nat | None => false end.

Definition peak_socket_reduce_first_host_from_slurm_nodelist (nodelist : option cstring) (out_size : nat) : option cstring :=
  if (out_size =? 0)%nat then None
  else
    match nodelist with
    | None | Some [] => None
    | Some nodelist =>
        let comma := strchr nodelist (ch ",") in
        match strchr nodelist (ch "[") with
        | Some bracket =>
            if lt_opt comma bracket then
              let token_len := default (length nodelist) comma in
              if (token_len =? 0)%nat || (out_size <=? token_len)%nat then None else Some (take token_len nodelist)
            else
              let inside := drop (S bracket) nodelist in
              match strchr inside (ch "]") with
              | None => None
              | Some token_end =>
                  let token_len := if lt_opt (strchr inside (ch ",")) token_end then default 0%nat (strchr inside (ch ",")) else token_end in
                  let host_token_len := (peak_socket_reduce_hostlist_token_is_ascending_range (take token_len inside)).2 in
                  if (bracket + host_token_len =? 0)%nat || (out_size <=? bracket + host_token_len)%nat then None
                  else Some (take bracket nodelist ++ take host_token_len inside)
              end
        | None =>
            let token_len := default (length nodelist) comma in
            if (token_len =? 0)%nat || (out_size <=? token_len)%nat then None else Some (take token_len nodelist)
        end
    end.

Definition peak_socket_reduce_first_slurm_host (out_size : nat) : option cstring :=
  let nodelist := match nonempty_env "SLURM_NODELIST" with Some v => Some v | None => getenv "SLURM_JOB_NODELIST" end in
  peak_socket_reduce_first_host_from_slurm_nodelist nodelist out_size.

(** [peak_socket_reduce_strlcpy]: the text in the destination. *)
Definition peak_socket_reduce_strlcpy (source : cstring) (destination_size : nat) : cstring := take (destination_size - 1) source.

Definition peak_socket_reduce_root_host (out_size : nat) : cstring :=
  match nonempty_env "PEAK_OUTPUT_AGGREGATION_HOST" with
  | Some override => peak_socket_reduce_strlcpy override out_size
  | None => default (peak_socket_reduce_strlcpy (bytes "127.0.0.1") out_size) (peak_socket_reduce_first_slurm_host out_size)
  end.

End Environment.

(** ** Deadlines *)

Definition peak_socket_reduce_deadline_us (now timeout_ms : Z) : Z := now + timeout_ms * 1000.

Definition peak_socket_reduce_remaining_ms (now deadline_us : Z) : Z :=
  let remaining := deadline_us - now in
  if remaining <=? 0 then 0 else Z.min ((remaining + 999) / 1000) INT_MAX.

Definition peak_socket_reduce_capped_deadline_us (now outer_deadline_us cap_ms : Z) : Z :=
  let cap_deadline_us := peak_socket_reduce_deadline_us now cap_ms in
  if cap_deadline_us <? outer_deadline_us then cap_deadline_us else outer_deadline_us.

Definition peak_socket_reduce_refresh_progress_deadline_at_us (now_us hard_deadline_us progress_timeout_ms : Z) : Z :=
  let progress_deadline_us := now_us + progress_timeout_ms * 1000 in
  if progress_deadline_us <? hard_deadline_us then progress_deadline_us else hard_deadline_us.

(** ** Admission in waves *)

Definition peak_socket_reduce_admission_spacing_ms (rank_count active_limit wave_budget_ms phase_timeout_ms hard_timeout_ms : Z) : Z :=
  let peer_count := if 0 <? rank_count then rank_count - 1 else 0 in
  if (peer_count =? 0) || (active_limit =? 0) || (wave_budget_ms =? 0) || (phase_timeout_ms <=? 1) || (hard_timeout_ms <=? phase_timeout_ms)
  then 0
  else
    let waves := peer_count / active_limit + (if peer_count mod active_limit =? 0 then 0 else 1) in
    let hard_margin_ms := hard_timeout_ms - phase_timeout_ms in
    let spacing_ms := if (phase_timeout_ms - 1) / 3 <? wave_budget_ms then (phase_timeout_ms - 1) / 3 else wave_budget_ms in
    if hard_margin_ms / waves <? spacing_ms then hard_margin_ms / waves else spacing_ms.

Definition peak_socket_reduce_admission_delay_ms (rank active_limit spacing_ms : Z) : Z :=
  if (rank <=? 0) || (active_limit =? 0) || (spacing_ms =? 0) then 0
  else Z.min ((rank - 1) / active_limit * spacing_ms) INT_MAX.

Definition peak_socket_reduce_admission_jitter_window_ms (spacing_ms phase_timeout_ms : Z) : Z :=
  if (spacing_ms =? 0) || (phase_timeout_ms <=? 1) || (phase_timeout_ms - 1 <=? spacing_ms) then 0
  else
    let jitter_ms := phase_timeout_ms - spacing_ms - 1 in
    let jitter_ms := if spacing_ms <? jitter_ms then spacing_ms else jitter_ms in
    if 1000 <? jitter_ms then 1000 else jitter_ms.

Definition peak_socket_reduce_jitter_value (rank session_token attempt phase_salt : Z) : Z :=
  let mul x k := wrap 64 (x * k) in
  let value := Z.lxor (Z.lxor (Z.lxor session_token phase_salt) (mul (rank + 1) 0x9e3779b97f4a7c15)) (mul (attempt + 1) 0xbf58476d1ce4e5b9) in
  let value := mul (Z.lxor value (Z.shiftr value 30)) 0xbf58476d1ce4e5b9 in
  let value := mul (Z.lxor value (Z.shiftr value 27)) 0x94d049bb133111eb in
  Z.lxor value (Z.shiftr value 31).

Definition PEAK_SOCKET_REDUCE_CONNECT_BACKOFF_MIN_MS : Z := 10.
Definition PEAK_SOCKET_REDUCE_CONNECT_BACKOFF_MAX_MS : Z := 250.
(** The delay of [peak_socket_reduce_connect_backoff]. *)
Definition connect_backoff_ms (rank session_token attempt phase_salt : Z) : Z :=
  let shift := Z.min attempt 5 in
  let base_ms := Z.min (Z.shiftl PEAK_SOCKET_REDUCE_CONNECT_BACKOFF_MIN_MS shift) PEAK_SOCKET_REDUCE_CONNECT_BACKOFF_MAX_MS in
  base_ms / 2 + peak_socket_reduce_jitter_value rank session_token attempt phase_salt mod (base_ms - base_ms / 2 + 1).

(** How long a peer waits before it connects: its wave, then the jitter within
    an eighth of what remains of the deadline and the window of the wave. *)
Definition admission_wait_ms (rank active_limit spacing_ms phase_timeout_ms remaining_ms session_token salt : Z) : Z :=
  let window := Z.min (Z.min (remaining_ms / 8) 1000) (peak_socket_reduce_admission_jitter_window_ms spacing_ms phase_timeout_ms) in
  peak_socket_reduce_admission_delay_ms rank active_limit spacing_ms +
  (if 0 <? window then peak_socket_reduce_jitter_value rank session_token 0 salt mod (window + 1) else 0).

(** ** Lemmas *)

(** Every rank may enter before the last full phase of the gather begins, and
    consecutive waves, jitter included, are less than a phase apart. *)
Lemma admission_in_time rank rank_count active_limit wave_budget phase hard :
  0 < rank < rank_count -> 0 < active_limit -> 0 <= wave_budget -> 0 < phase -> phase <= hard <= INT_MAX ->
  let spacing := peak_socket_reduce_admission_spacing_ms rank_count active_limit wave_budget phase hard in
  let window := peak_socket_reduce_admission_jitter_window_ms spacing phase in
  peak_socket_reduce_admission_delay_ms rank active_limit spacing + window + phase <= hard /\
  (spacing + window < phase) /\ 0 <= spacing /\ 0 <= window.
Proof.
  intros Hr Ha Hw Hp Hh spacing window.
  assert (Hs : 0 <= spacing /\ spacing <= (phase - 1) / 3 /\ (spacing = 0 \/ spacing * ((rank_count - 1) / active_limit + (if (rank_count - 1) mod active_limit =? 0 then 0 else 1)) <= hard - phase)).
  { unfold spacing, peak_socket_reduce_admission_spacing_ms. destruct (Z.ltb_spec 0 rank_count); [|lia].
    assert (0 <= (phase - 1) / 3) by (apply Z.div_pos; lia).
    destruct (_ || _) eqn:E; [split; [lia|]; split; [done|by left]|].
    rewrite !orb_false_iff, !Z.eqb_neq, !Z.leb_gt in E. destruct E as [[[[E1 E2] E3] E4] E5].
    set (waves := (rank_count - 1) / active_limit + _).
    assert (Hwaves : 0 < waves).
    { unfold waves. assert (0 <= (rank_count - 1) / active_limit) by (apply Z.div_pos; lia).
      pose proof (Z.div_mod (rank_count - 1) active_limit ltac:(lia)). destruct (Z.eqb_spec ((rank_count - 1) mod active_limit) 0); nia. }
    cbv zeta. set (sp := if (phase - 1) / 3 <? wave_budget then (phase - 1) / 3 else wave_budget).
    assert (Hsp : 0 <= sp <= (phase - 1) / 3) by (unfold sp; destruct (Z.ltb_spec ((phase - 1) / 3) wave_budget); lia).
    assert (0 <= (hard - phase) / waves) by (apply Z.div_pos; lia). pose proof (Z.mul_div_le (hard - phase) waves Hwaves).
    destruct (Z.ltb_spec ((hard - phase) / waves) sp); (split; [lia|split; [lia|right; nia]]). }
  destruct Hs as (Hs0 & Hs3 & Hsm). pose proof (Z.mul_div_le (phase - 1) 3 ltac:(lia)) as H3.
  assert (Hwin : 0 <= window <= spacing /\ spacing + window < phase).
  { unfold window, peak_socket_reduce_admission_jitter_window_ms. cbv zeta. clearbody spacing.
    destruct (_ || _) eqn:E; [lia|]. rewrite !orb_false_iff, Z.eqb_neq, !Z.leb_gt in E.
    destruct (Z.ltb_spec spacing (phase - spacing - 1)) as [?|?].
    - destruct (Z.ltb_spec 1000 spacing); lia.
    - destruct (Z.ltb_spec 1000 (phase - spacing - 1)); lia. }
  split; [|lia]. unfold peak_socket_reduce_admission_delay_ms. destruct (_ || _) eqn:E.
  { rewrite !orb_true_iff, Z.leb_le, !Z.eqb_eq in E. destruct Hsm as [->|Hsm]; [|nia].
    assert (window = 0) by lia. lia. }
  rewrite !orb_false_iff, Z.leb_gt, !Z.eqb_neq in E. destruct Hsm as [?|Hsm]; [lia|].
  set (waves := (rank_count - 1) / active_limit + _) in *.
  assert (Hidx : (rank - 1) / active_limit + 1 <= waves).
  { unfold waves. pose proof (Z.div_mod (rank_count - 1) active_limit ltac:(lia)).
    pose proof (Z.mod_pos_bound (rank_count - 1) active_limit Ha). pose proof (Z.div_mod (rank - 1) active_limit ltac:(lia)).
    pose proof (Z.mod_pos_bound (rank - 1) active_limit Ha).
    destruct (Z.eqb_spec ((rank_count - 1) mod active_limit) 0); nia. }
  assert (0 <= (rank - 1) / active_limit) by (apply Z.div_pos; lia). nia.
Qed.

Lemma nonempty_port getenv : 1 <= peak_socket_reduce_port getenv <= 65535.
Proof.
  unfold peak_socket_reduce_port.
  set (schema := mkUnsignedSchema "PEAK_OUTPUT_AGGREGATION_PORT" (peak_socket_reduce_default_port getenv) 1 65535 false false).
  destruct (parse_env_unsigned getenv schema (Some false)) as [[v f] w] eqn:E. cbn [fst].
  destruct (unsigned_setting_usable getenv schema (Some false) v f w E) as [[->|[H _]] _]; [|exact H]. cbn [fallback schema].
  unfold peak_socket_reduce_default_port, PEAK_SOCKET_REDUCE_DEFAULT_PORT_BASE, PEAK_SOCKET_REDUCE_DEFAULT_PORT_SPAN.
  pose proof (Z.mod_pos_bound (peak_socket_reduce_launcher_token getenv) 20000). lia.
Qed.

(** The four ports of a job are valid and different. *)
Lemma ports_distinct getenv g r g' r' :
  peak_socket_reduce_channel_ports getenv PEAK_SOCKET_REPORT_CHANNEL_CPU = Some (g, r) ->
  peak_socket_reduce_channel_ports getenv PEAK_SOCKET_REPORT_CHANNEL_CUDA = Some (g', r') ->
  NoDup [g; r; g'; r'] /\ Forall (fun p => 1 <= p <= 65535) [g; r; g'; r'].
Proof.
  pose proof (nonempty_port getenv) as Hp. unfold peak_socket_reduce_channel_ports, peak_socket_reduce_release_port.
  intros [= <- <-] H. destruct (Z.ltb_spec 65532 (peak_socket_reduce_port getenv)); [done|]. injection H as <- <-.
  destruct (Z.ltb_spec (peak_socket_reduce_port getenv) 65535); [|lia].
  split; [|repeat (apply Forall_cons; split; [lia|]); by apply Forall_nil].
  rewrite !NoDup_cons, !not_elem_of_cons. repeat split; try lia; try apply not_elem_of_nil. apply NoDup_nil_2.
Qed.

End Setup.
