(* ===== verification/SocketRelease.v ===== *)
(** * Releasing the peers

    The second phase of [src/general_listener/socket_report_transport.c]: a
    registered peer asks the root's release port for the decision, accepts it
    and confirms; the root answers the peers it has registered, one connection
    at a time, until all have confirmed or its time is up.  Frames are
    structures here; [SocketWire] has their bytes.  The kernel's answers are
    lists, which end when the deadline of the phase passes. *)

From S2P Require Import Prelude Doubles ReportModel ReportSnapshot SocketWire SocketGather.
Import Snapshot Wire Gather.

Module Release.

Definition PEAK_SOCKET_REDUCE_RELEASE_ACK : Z := 0x51.
Definition PEAK_SOCKET_REDUCE_RELEASE_FALLBACK : Z := 0x52.
Definition PEAK_SOCKET_REDUCE_RELEASE_REQUEST : Z := 0x61.
Definition PEAK_SOCKET_REDUCE_RELEASE_DECISION : Z := 0x62.
Definition PEAK_SOCKET_REDUCE_RELEASE_CONFIRM : Z := 0x63.

Inductive PeakSocketReleaseResult :=
| PEAK_SOCKET_RELEASE_INVALID
| PEAK_SOCKET_RELEASE_ACKNOWLEDGED
| PEAK_SOCKET_RELEASE_FALLBACK.

Definition with_type (t : Z) (f : PeakSocketReduceReleaseFrame) : PeakSocketReduceReleaseFrame :=
  mkFrame (magic f) (version f) (rank f) (hook_count f) (session_token f) t (decision f).
Definition with_decision (d : Z) (f : PeakSocketReduceReleaseFrame) : PeakSocketReduceReleaseFrame :=
  mkFrame (magic f) (version f) (rank f) (hook_count f) (session_token f) (type f) d.

(** ** The peer *)

Definition request_frame (h : PeakSocketReduceHeader) : PeakSocketReduceReleaseFrame :=
  mkFrame (h_magic h) (h_version h) (h_rank h) (h_hook_count h) (h_session_token h) PEAK_SOCKET_REDUCE_RELEASE_REQUEST 0.

Definition decision_valid (h : PeakSocketReduceHeader) (f : PeakSocketReduceReleaseFrame) : bool :=
  (magic f =? h_magic h) && (version f =? h_version h) && (rank f =? h_rank h) && (hook_count f =? h_hook_count h) &&
  (session_token f =? h_session_token h) && (type f =? PEAK_SOCKET_REDUCE_RELEASE_DECISION) &&
  ((decision f =? PEAK_SOCKET_REDUCE_RELEASE_ACK) || (decision f =? PEAK_SOCKET_REDUCE_RELEASE_FALLBACK)).

(** What the peer makes of a frame it received, given the decision it has
    accepted before (0: none): it is no decision, it contradicts the accepted
    one, or the decision with the confirmation to send. *)
Inductive reaction := Rejects | Contradicts | Accepts (d : Z) (confirmation : PeakSocketReduceReleaseFrame).

Definition peer_reacts (h : PeakSocketReduceHeader) (accepted_decision : Z) (f : PeakSocketReduceReleaseFrame) : reaction :=
  if negb (decision_valid h f) then Rejects
  else if accepted_decision =? 0 then Accepts (decision f) (with_type PEAK_SOCKET_REDUCE_RELEASE_CONFIRM f)
  else if negb (decision f =? accepted_decision) then Contradicts
  else Accepts accepted_decision (with_type PEAK_SOCKET_REDUCE_RELEASE_CONFIRM f).

(** The return after a confirmed handshake. *)
Definition released_as (accepted_decision : Z) : PeakSocketReleaseResult :=
  if accepted_decision =? PEAK_SOCKET_REDUCE_RELEASE_ACK then PEAK_SOCKET_RELEASE_ACKNOWLEDGED else PEAK_SOCKET_RELEASE_FALLBACK.
(** The return after the loop. *)
Definition expired_as (accepted_decision : Z) : PeakSocketReleaseResult :=
  if accepted_decision =? PEAK_SOCKET_REDUCE_RELEASE_ACK then PEAK_SOCKET_RELEASE_ACKNOWLEDGED
  else if accepted_decision =? PEAK_SOCKET_REDUCE_RELEASE_FALLBACK then PEAK_SOCKET_RELEASE_FALLBACK
  else PEAK_SOCKET_RELEASE_INVALID.

(** One turn of the loop: no connection before the deadline, or a handshake:
    was the request sent, what came back, was the confirmation sent. *)
Inductive attempt :=
| ConnectFails
| Handshake (sent : bool) (answer : option PeakSocketReduceReleaseFrame) (confirmed : bool).

Fixpoint wait_loop (h : PeakSocketReduceHeader) (attempts : list attempt) (accepted_decision : Z) : PeakSocketReleaseResult :=
  match attempts with
  | [] | ConnectFails :: _ => expired_as accepted_decision
  | Handshake sent answer confirmed :: attempts =>
      match (if sent then answer else None) with
      | None => wait_loop h attempts accepted_decision
      | Some f =>
          match peer_reacts h accepted_decision f with
          | Rejects => wait_loop h attempts accepted_decision
          | Contradicts => expired_as accepted_decision
          | Accepts d _ => if confirmed then released_as d else wait_loop h attempts d
          end
      end
  end.
Definition peak_socket_reduce_wait_for_release (header : option PeakSocketReduceHeader) (attempts : list attempt) : PeakSocketReleaseResult :=
  match header with None => PEAK_SOCKET_RELEASE_INVALID | Some h => wait_loop h attempts 0 end.

(** ** The root *)

(** The fields that both tests of the root compare. *)
Definition addressed (targets : list bool) (size hooks token : Z) (f : PeakSocketReduceReleaseFrame) : bool :=
  (magic f =? PEAK_SOCKET_REDUCE_MAGIC) && (version f =? PEAK_SOCKET_REDUCE_VERSION) && (session_token f =? token) &&
  (hook_count f =? hooks) && (rank f <? size) && (0 <? rank f) && default false (targets !! Z.to_nat (rank f)).

Definition request_valid (targets : list bool) (size hooks token : Z) (f : PeakSocketReduceReleaseFrame) : bool :=
  addressed targets size hooks token f && (type f =? PEAK_SOCKET_REDUCE_RELEASE_REQUEST) && (decision f =? 0).
Definition confirm_valid (targets : list bool) (size hooks token ack : Z) (f : PeakSocketReduceReleaseFrame) : bool :=
  addressed targets size hooks token f && (type f =? PEAK_SOCKET_REDUCE_RELEASE_CONFIRM) && (decision f =? ack).

Definition decision_frame (ack : Z) (request : PeakSocketReduceReleaseFrame) : PeakSocketReduceReleaseFrame :=
  with_decision ack (with_type PEAK_SOCKET_REDUCE_RELEASE_DECISION request).

(** One turn of the loop: the answers of [poll] and [accept]; on a connection,
    what was read, whether the decision was sent, what was read then. *)
Inductive service :=
| ReleaseAgain
| ReleaseStops
| Serves (request : option PeakSocketReduceReleaseFrame) (sent : bool) (confirmation : option PeakSocketReduceReleaseFrame).

(** The target that a connection releases. *)
Definition serve_release (targets : list bool) (size hooks token ack : Z) (request : option PeakSocketReduceReleaseFrame) (sent : bool)
    (confirmation : option PeakSocketReduceReleaseFrame) : option nat :=
  match request, confirmation with
  | Some q, Some f =>
      if request_valid targets size hooks token q && sent && confirm_valid targets size hooks token ack f
      then Some (Z.to_nat (rank f)) else None
  | _, _ => None
  end.

Fixpoint release_loop (size hooks token ack : Z) (peer_count : nat) (services : list service) (targets : list bool) (released : nat)
    : nat * list bool :=
  if (released <? peer_count)%nat then
    match services with
    | [] | ReleaseStops :: _ => (released, targets)
    | ReleaseAgain :: services => release_loop size hooks token ack peer_count services targets released
    | Serves q sent f :: services =>
        match serve_release targets size hooks token ack q sent f with
        | Some r => release_loop size hooks token ack peer_count services (<[r := false]> targets) (S released)
        | None => release_loop size hooks token ack peer_count services targets released
        end
    end
  else (released, targets).

(** The ranks 1 .. size - 1 that wait. *)
Definition waiting (targets : list bool) (size : Z) : nat := length (List.filter (fun b => b) (drop 1 (take (Z.to_nat size) targets))).

(** With the targets that are left. *)
Definition peak_socket_reduce_release_peers (listener : bool) (targets : list bool) (size hooks token : Z) (activates : bool)
    (services : list service) (ack : Z) : bool * list bool :=
  if negb listener || (size <=? 1) then (true, targets)
  else
    let peer_count := waiting targets size in
    if (peer_count =? 0)%nat then (true, targets)
    else if negb activates then (false, targets)
    else
      let '(released, targets) := release_loop size hooks token ack peer_count services targets 0 in
      ((released =? peer_count)%nat, targets).

End Release.
