(* ===== verification/SocketReleaseSteps.v ===== *)
(** * Agreement on the decision

    The release phase of the socket transport as a step system: the root, the
    peers it registered and strangers exchange frames over connections, in any
    order, with requests, answers and confirmations lost anywhere.  The parties
    move by the tests and frames of [SocketRelease]; each keeps the history of
    what its kernel answered, and the code's loops run over it. *)

From S2P Require Import Prelude Doubles ReportModel ReportSnapshot SocketWire SocketGather SocketRelease.
Import Wire Gather Release.

Module ReleaseSteps.

Abbreviation frame := PeakSocketReduceReleaseFrame.

(** A connection to the release port; a peer's has its rank. *)
Record connection := mkConn { owner : option Z; to_root : list frame; to_peer : list frame }.
Definition sends_root (f : frame) (c : connection) : connection := mkConn (owner c) (to_root c ++ [f]) (to_peer c).
Definition sends_peer (f : frame) (c : connection) : connection := mkConn (owner c) (to_root c) (to_peer c ++ [f]).
Definition root_took (rest : list frame) (c : connection) : connection := mkConn (owner c) rest (to_peer c).
Definition peer_took (rest : list frame) (c : connection) : connection := mkConn (owner c) (to_root c) rest.

Inductive peer_at := Idle | Waiting (c : nat) | Finished (r : PeakSocketReleaseResult).
Record peer := mkPeer { at_ : peer_at; accepted_decision : Z; attempts : list attempt }.
Inductive root_at := Listening | ReadsRequest (c : nat) | ReadsConfirm (c : nat) (request : frame) | Stopped.
Record world := mkWorld {
  conns : list connection;
  peers : Z -> peer;
  root_at_ : root_at;
  targets : list bool;
  released : nat;
  services : list service
}.

Definition set_peer (r : Z) (p : peer) (ps : Z -> peer) : Z -> peer := fun r' => if r' =? r then p else ps r'.
Definition with_peer (r : Z) (p : peer) (w : world) : world :=
  mkWorld (conns w) (set_peer r p (peers w)) (root_at_ w) (targets w) (released w) (services w).
Definition with_conns (cs : list connection) (w : world) : world :=
  mkWorld cs (peers w) (root_at_ w) (targets w) (released w) (services w).
Definition with_root (a : root_at) (w : world) : world := mkWorld (conns w) (peers w) a (targets w) (released w) (services w).
(** A turn of the root's loop ends. *)
Definition serviced (s : service) (w : world) : world :=
  mkWorld (conns w) (peers w) Listening (targets w) (released w) (services w ++ [s]).

Section Session.
Context (size hooks token ack : Z) (targets0 : list bool) (hdr : Z -> PeakSocketReduceHeader).
(** The headers with which the peers wait name their ranks. *)
Hypothesis hdr_rank : forall r, h_rank (hdr r) = r.
Hypothesis ack_valid : ack = PEAK_SOCKET_REDUCE_RELEASE_ACK \/ ack = PEAK_SOCKET_REDUCE_RELEASE_FALLBACK.

Definition peer_count : nat := waiting targets0 size.
Definition start : world := mkWorld [] (fun _ => mkPeer Idle 0 []) Listening targets0 0 [].

(** The peer's move on a frame: its state and what it sends. *)
Definition peer_moves (r : Z) (p : peer) (f : frame) (confirmed : bool) : peer * option frame :=
  let log := attempts p ++ [Handshake true (Some f) confirmed] in
  match peer_reacts (hdr r) (accepted_decision p) f with
  | Rejects => (mkPeer Idle (accepted_decision p) log, None)
  | Contradicts => (mkPeer (Finished (expired_as (accepted_decision p))) (accepted_decision p) log, None)
  | Accepts d confirmation =>
      if confirmed then (mkPeer (Finished (released_as d)) d log, Some confirmation) else (mkPeer Idle d log, None)
  end.
Definition sends_maybe (f : option frame) (c : connection) : connection := match f with Some f => sends_root f c | None => c end.

Inductive step : world -> world -> Prop :=
| stranger_connects w : step w (with_conns (conns w ++ [mkConn None [] []]) w)
| stranger_sends w c x f : conns w !! c = Some x -> owner x = None -> session_token f <> token ->
    step w (with_conns (<[c := sends_root f x]> (conns w)) w)
| peer_connects w r : at_ (peers w r) = Idle ->
    step w (with_peer r (mkPeer (Waiting (length (conns w))) (accepted_decision (peers w r)) (attempts (peers w r)))
              (with_conns (conns w ++ [mkConn (Some r) [request_frame (hdr r)] []]) w))
| peer_send_fails w r : at_ (peers w r) = Idle ->
    step w (with_peer r (mkPeer Idle (accepted_decision (peers w r)) (attempts (peers w r) ++ [Handshake false None false])) w)
| peer_reads w r c x f rest confirmed : at_ (peers w r) = Waiting c -> conns w !! c = Some x -> to_peer x = f :: rest ->
    step w (with_peer r (peer_moves r (peers w r) f confirmed).1
              (with_conns (<[c := sends_maybe (peer_moves r (peers w r) f confirmed).2 (peer_took rest x)]> (conns w)) w))
| peer_read_fails w r c : at_ (peers w r) = Waiting c ->
    step w (with_peer r (mkPeer Idle (accepted_decision (peers w r)) (attempts (peers w r) ++ [Handshake true None false])) w)
| peer_connect_fails w r : at_ (peers w r) = Idle ->
    step w (with_peer r (mkPeer (Finished (expired_as (accepted_decision (peers w r)))) (accepted_decision (peers w r))
                           (attempts (peers w r) ++ [ConnectFails])) w)
| peer_expires w r : at_ (peers w r) = Idle ->
    step w (with_peer r (mkPeer (Finished (expired_as (accepted_decision (peers w r)))) (accepted_decision (peers w r)) (attempts (peers w r))) w)
| root_polls_again w : root_at_ w = Listening -> (released w < peer_count)%nat -> step w (serviced ReleaseAgain w)
| root_accepts w c x : root_at_ w = Listening -> (released w < peer_count)%nat -> conns w !! c = Some x -> step w (with_root (ReadsRequest c) w)
| root_answers w c x f rest : root_at_ w = ReadsRequest c -> conns w !! c = Some x -> to_root x = f :: rest ->
    request_valid (targets w) size hooks token f = true ->
    step w (with_root (ReadsConfirm c f) (with_conns (<[c := sends_peer (decision_frame ack f) (root_took rest x)]> (conns w)) w))
| root_declines w c x f rest sent : root_at_ w = ReadsRequest c -> conns w !! c = Some x -> to_root x = f :: rest ->
    request_valid (targets w) size hooks token f = false \/ sent = false ->
    step w (serviced (Serves (Some f) sent None) (with_conns (<[c := root_took rest x]> (conns w)) w))
| root_request_lost w c : root_at_ w = ReadsRequest c -> step w (serviced (Serves None false None) w)
| root_confirmed w c q x f rest : root_at_ w = ReadsConfirm c q -> conns w !! c = Some x -> to_root x = f :: rest ->
    confirm_valid (targets w) size hooks token ack f = true ->
    step w (mkWorld (<[c := root_took rest x]> (conns w)) (peers w) Listening (<[Z.to_nat (rank f) := false]> (targets w))
              (S (released w)) (services w ++ [Serves (Some q) true (Some f)]))
| root_confirm_bad w c q x f rest : root_at_ w = ReadsConfirm c q -> conns w !! c = Some x -> to_root x = f :: rest ->
    confirm_valid (targets w) size hooks token ack f = false ->
    step w (serviced (Serves (Some q) true (Some f)) (with_conns (<[c := root_took rest x]> (conns w)) w))
| root_confirm_lost w c q : root_at_ w = ReadsConfirm c q -> step w (serviced (Serves (Some q) true None) w)
| root_stops w : root_at_ w = Listening -> step w (with_root Stopped w).

Inductive reachable : world -> Prop :=
| reach_start : reachable start
| reach_step w w' : reachable w -> step w w' -> reachable w'.

(** ** Frames *)

(** What travels: strangers cannot know the token; a peer sends its own rank,
    and a confirmation only of the root's decision, which it has accepted; the
    root sends nothing but its decision. *)
Definition frame_to_root (ps : Z -> peer) (o : option Z) (f : frame) : Prop :=
  match o with
  | None => session_token f <> token
  | Some r => rank f = r /\ (type f = PEAK_SOCKET_REDUCE_RELEASE_CONFIRM -> accepted_decision (ps r) = ack)
  end.
Definition frame_to_peer (f : frame) : Prop := decision f = ack.
Definition conn_fine (ps : Z -> peer) (x : connection) : Prop :=
  Forall (frame_to_root ps (owner x)) (to_root x) /\ Forall frame_to_peer (to_peer x).

(** The history of a peer: the code's loop over it. *)
Definition peer_fine (r : Z) (p : peer) : Prop :=
  (accepted_decision p = 0 \/ accepted_decision p = ack) /\
  match at_ p with
  | Finished x => wait_loop (hdr r) (attempts p) 0 = x /\ x = expired_as (accepted_decision p)
  | _ => forall rest, wait_loop (hdr r) (attempts p ++ rest) 0 = wait_loop (hdr r) rest (accepted_decision p)
  end.
Definition cleared (w : world) (r : Z) : Prop := targets0 !! Z.to_nat r = Some true /\ targets w !! Z.to_nat r = Some false.

Record fine (w : world) : Prop := mkFine {
  f_conns : forall c x, conns w !! c = Some x -> conn_fine (peers w) x;
  f_peers : forall r, peer_fine r (peers w r);
  f_waits : forall r c, at_ (peers w r) = Waiting c -> exists x, conns w !! c = Some x /\ owner x = Some r;
  f_root : forall c q, root_at_ w = ReadsConfirm c q -> request_valid (targets w) size hooks token q = true /\ (released w < peer_count)%nat;
  f_reads : forall c, root_at_ w = ReadsRequest c -> (released w < peer_count)%nat;
  f_log : forall rest, release_loop size hooks token ack peer_count (services w ++ rest) targets0 0 =
                       release_loop size hooks token ack peer_count rest (targets w) (released w);
  f_targets : length (targets w) = length targets0;
  f_cleared : forall r, 0 <= r -> cleared w r -> accepted_decision (peers w r) = ack
}.

Lemma ack_pos : ack <> 0.
Proof. destruct ack_valid; subst; done. Qed.

Lemma released_expired d : d = ack -> released_as d = expired_as d.
Proof. intros ->. unfold released_as, expired_as. destruct ack_valid; subst; done. Qed.

Lemma start_fine : fine start.
Proof.
  split; try done.
  - intros r. split; [by left|]. done.
  - intros r _ [H1 H2]. cbn in H2. congruence.
Qed.

(** Accepted decisions never change once made. *)
Definition keeps (ps ps' : Z -> peer) : Prop := forall r, accepted_decision (ps r) = ack -> accepted_decision (ps' r) = ack.

Lemma conn_keeps ps ps' x : keeps ps ps' -> conn_fine ps x -> conn_fine ps' x.
Proof.
  intros K [A B]. split; [|done]. eapply Forall_impl; [exact A|]. intros f. unfold frame_to_root. destruct (owner x); [|done].
  intros [? H]. split; [done|]. auto.
Qed.

Lemma set_peer_same r p ps : set_peer r p ps r = p.
Proof. unfold set_peer. by rewrite Z.eqb_refl. Qed.
Lemma set_peer_cases (P : Z -> peer -> Prop) r p ps : P r p -> (forall r', P r' (ps r')) -> forall r', P r' (set_peer r p ps r').
Proof. intros H H' r'. unfold set_peer. destruct (Z.eqb_spec r' r) as [->|]; auto. Qed.

Lemma keeps_set r p ps : (accepted_decision (ps r) = ack -> accepted_decision p = ack) -> keeps ps (set_peer r p ps).
Proof. intros H r'. unfold set_peer. destruct (Z.eqb_spec r' r) as [->|]; auto. Qed.

(** ** Single changes of the world *)

Lemma put_conn w c x x' : fine w -> conns w !! c = Some x -> owner x' = owner x -> conn_fine (peers w) x' ->
  fine (with_conns (<[c := x']> (conns w)) w).
Proof.
  intros [A B C D E F G H] Hc Ho Hx. split; try done; cbn [with_conns conns peers].
  - intros c' y Hy. destruct (lookup_insert_cases _ _ _ _ _ Hy) as [(_ & -> & _)|[_ ?]]; eauto.
  - intros r c' Hr. destruct (C r c' Hr) as (y & Hy & Hyo). destruct (decide (c' = c)) as [->|].
    + rewrite list_lookup_insert_eq by (by eapply lookup_lt_Some). exists x'. split; [done|]. congruence.
    + rewrite list_lookup_insert_ne by done. eauto.
Qed.

Lemma new_conn w x : fine w -> conn_fine (peers w) x -> fine (with_conns (conns w ++ [x]) w).
Proof.
  intros [A B C D E F G H] Hx. split; try done; cbn [with_conns conns peers].
  - intros c y Hy. apply lookup_app_Some in Hy as [?|[_ Hy]]; [eauto|]. apply list_lookup_singleton_Some in Hy as [_ <-]. done.
  - intros r c Hr. destruct (C r c Hr) as (y & Hy & ?). exists y. split; [by apply lookup_app_l_Some|done].
Qed.

Lemma put_peer w r p : fine w -> peer_fine r p -> (accepted_decision (peers w r) = ack -> accepted_decision p = ack) ->
  (forall c, at_ p = Waiting c -> exists x, conns w !! c = Some x /\ owner x = Some r) -> fine (with_peer r p w).
Proof.
  intros [A B C D E F G H] Hp Hk Hw. pose proof (keeps_set r p (peers w) Hk) as K. split; try done; cbn [with_peer conns peers].
  - intros c x Hc. eapply conn_keeps; eauto.
  - by apply set_peer_cases.
  - exact (set_peer_cases (fun r p => forall c, at_ p = Waiting c -> exists x, conns w !! c = Some x /\ owner x = Some r) _ _ _ Hw C).
  - intros r' Hr' Hc. apply K. by apply H.
Qed.

(** A turn of the root that releases nobody. *)
Lemma turn_fine w s : fine w -> (released w < peer_count)%nat ->
  (forall rest, release_loop size hooks token ack peer_count (s :: rest) (targets w) (released w) =
                release_loop size hooks token ack peer_count rest (targets w) (released w)) -> fine (serviced s w).
Proof.
  intros [A B C D E F G H] Hr Hs. split; try done; cbn [serviced services targets released].
  intros rest. rewrite <- app_assoc. cbn [app]. by rewrite F.
Qed.

Lemma loop_unserved ts n q sent f : (n < peer_count)%nat -> serve_release ts size hooks token ack q sent f = None ->
  forall rest, release_loop size hooks token ack peer_count (Serves q sent f :: rest) ts n = release_loop size hooks token ack peer_count rest ts n.
Proof. intros Hn Hs rest. cbn [release_loop]. apply Nat.ltb_lt in Hn as Hn'. rewrite Hn', Hs. destruct rest; cbn [release_loop]; rewrite ?Hn'; done. Qed.

(** ** The peer's moves *)

Lemma peer_turn r p a d e : peer_fine r p -> (forall x, at_ p <> Finished x) -> (d = 0 \/ d = ack) -> (forall x, a <> Finished x) ->
  (forall rest, wait_loop (hdr r) (e :: rest) (accepted_decision p) = wait_loop (hdr r) rest d) -> peer_fine r (mkPeer a d (attempts p ++ [e])).
Proof.
  intros [A B] Hn Hd Ha He. split; [done|]. cbn [at_ attempts accepted_decision].
  assert (Hloop : forall rest, wait_loop (hdr r) (attempts p ++ rest) 0 = wait_loop (hdr r) rest (accepted_decision p)).
  { destruct (at_ p) eqn:Ep; [done|done|]. by destruct (Hn r0). }
  destruct a; [..|by destruct (Ha r0)]; intros rest; rewrite <- app_assoc; cbn [app]; by rewrite Hloop.
Qed.

Lemma peer_ends r p d es : peer_fine r p -> (forall x, at_ p <> Finished x) -> (d = 0 \/ d = ack) ->
  wait_loop (hdr r) es (accepted_decision p) = expired_as d -> peer_fine r (mkPeer (Finished (expired_as d)) d (attempts p ++ es)).
Proof.
  intros [A B] Hn Hd He. split; [done|]. cbn [at_ attempts accepted_decision].
  assert (Hloop : forall rest, wait_loop (hdr r) (attempts p ++ rest) 0 = wait_loop (hdr r) rest (accepted_decision p)).
  { destruct (at_ p) eqn:Ep; [done|done|]. by destruct (Hn r0). }
  rewrite Hloop. done.
Qed.

Lemma reacts_accepts h d f d' conf : peer_reacts h d f = Accepts d' conf -> decision f = ack -> d = 0 \/ d = ack ->
  d' = ack /\ conf = with_type PEAK_SOCKET_REDUCE_RELEASE_CONFIRM f /\ decision_valid h f = true.
Proof.
  unfold peer_reacts. intros H Hf Hd. destruct (decision_valid h f) eqn:Hv; [cbn [negb] in H|done].
  destruct (Z.eqb_spec d 0) as [->|]; [injection H as <- <-; auto|]. destruct (negb (decision f =? d)) eqn:E; [done|].
  injection H as <- <-. destruct Hd as [?|?]; [done|]. auto.
Qed.

Lemma decision_of h f : decision_valid h f = true -> rank f = h_rank h /\ session_token f = h_session_token h.
Proof. unfold decision_valid. rewrite !andb_true_iff, !Z.eqb_eq. tauto. Qed.

Lemma peer_moves_fine r p f confirmed : peer_fine r p -> (forall x, at_ p <> Finished x) -> decision f = ack ->
  let '(p', o) := peer_moves r p f confirmed in
  peer_fine r p' /\ (accepted_decision p = ack -> accepted_decision p' = ack) /\ (forall c, at_ p' <> Waiting c) /\
  (forall g, o = Some g -> frame_to_root (set_peer r p' (fun _ => p')) (Some r) g).
Proof.
  intros Hp Hn Hf. unfold peer_moves. pose proof Hp as [Hd _].
  destruct (peer_reacts (hdr r) (accepted_decision p) f) as [| |d' conf] eqn:Hr.
  - split; [|done]. apply peer_turn; try done. intros rest. cbn [wait_loop]. by rewrite Hr.
  - split; [|done]. apply peer_ends; try done. cbn [wait_loop]. by rewrite Hr.
  - destruct (reacts_accepts _ _ _ _ _ Hr Hf Hd) as (-> & -> & Hv). destruct confirmed.
    + rewrite released_expired by done. split; [|split; [done|split; [done|]]].
      * apply peer_ends; try done; [by right|]. cbn [wait_loop]. rewrite Hr. by apply released_expired.
      * intros g [= <-]. cbn. destruct (decision_of _ _ Hv) as [E _]. split; [by rewrite E|]. intros _. by rewrite set_peer_same.
    + split; [|done]. apply peer_turn; try done; [by right|]. intros rest. cbn [wait_loop]. by rewrite Hr.
Qed.

Lemma peer_reads_fine w r c x f rest confirmed : fine w -> at_ (peers w r) = Waiting c -> conns w !! c = Some x -> to_peer x = f :: rest ->
  fine (with_peer r (peer_moves r (peers w r) f confirmed).1
          (with_conns (<[c := sends_maybe (peer_moves r (peers w r) f confirmed).2 (peer_took rest x)]> (conns w)) w)).
Proof.
  intros HF Hat Hc Hx. destruct (f_waits _ HF _ _ Hat) as (x' & Hx' & Ho). rewrite Hc in Hx'. injection Hx' as <-.
  destruct (f_conns _ HF _ _ Hc) as [C1 C2]. rewrite Hx in C2. apply Forall_cons in C2 as [Hf C2].
  pose proof (peer_moves_fine r (peers w r) f confirmed (f_peers _ HF r) ltac:(intros y; by rewrite Hat) Hf) as HM.
  destruct (peer_moves r (peers w r) f confirmed) as [p' o]. cbn [fst snd]. destruct HM as (M1 & M2 & M3 & M4).
  assert (HF1 : fine (with_peer r p' w)) by (apply put_peer; try done; intros c' E; by destruct (M3 c')).
  change (fine (with_conns (<[c := sends_maybe o (peer_took rest x)]> (conns (with_peer r p' w))) (with_peer r p' w))).
  eapply put_conn; [done|exact Hc|by destruct o|]. cbn [with_peer peers].
  pose proof (conn_keeps _ _ _ (keeps_set r p' (peers w) M2) (f_conns _ HF _ _ Hc)) as [K1 _].
  destruct o as [g|]; [|by split]. split; [|done]. cbn [sends_maybe sends_root peer_took to_root owner]. apply Forall_app. split; [done|].
  apply Forall_singleton. rewrite Ho. destruct (M4 g eq_refl) as [E1 E2]. split; [done|]. rewrite set_peer_same in E2 |- *. done.
Qed.

(** ** The root's moves *)

Lemma conn_takes ps x f rest : conn_fine ps x -> to_root x = f :: rest -> frame_to_root ps (owner x) f /\ conn_fine ps (root_took rest x).
Proof. intros [A B] Hx. rewrite Hx in A. apply Forall_cons in A as [? ?]. by repeat split. Qed.

Lemma root_answers_fine w c x f rest : fine w -> root_at_ w = ReadsRequest c -> conns w !! c = Some x -> to_root x = f :: rest ->
  request_valid (targets w) size hooks token f = true ->
  fine (with_root (ReadsConfirm c f) (with_conns (<[c := sends_peer (decision_frame ack f) (root_took rest x)]> (conns w)) w)).
Proof.
  intros HF Hat Hc Hx Hv. destruct (conn_takes _ _ _ _ (f_conns _ HF _ _ Hc) Hx) as [_ [C1 C2]].
  assert (HF' : fine (with_conns (<[c := sends_peer (decision_frame ack f) (root_took rest x)]> (conns w)) w)).
  { eapply put_conn; [done|exact Hc|done|]. split; [done|]. apply Forall_app. split; [done|]. by apply Forall_singleton. }
  destruct HF' as [A B C D E F G H]. split; try done. cbn [with_root root_at_]. intros c' q [= <- <-]. split; [done|]. exact (f_reads _ HF _ Hat).
Qed.

(** A confirmation can only come from the peer whose rank it names. *)
Lemma confirmed_by w c x f rest : fine w -> conns w !! c = Some x -> to_root x = f :: rest ->
  confirm_valid (targets w) size hooks token ack f = true ->
  0 < rank f /\ targets w !! Z.to_nat (rank f) = Some true /\ accepted_decision (peers w (rank f)) = ack.
Proof.
  intros HF Hc Hx Hv. destruct (conn_takes _ _ _ _ (f_conns _ HF _ _ Hc) Hx) as [Hf _].
  unfold confirm_valid, addressed in Hv. rewrite !andb_true_iff, !Z.eqb_eq, !Z.ltb_lt in Hv.
  destruct Hv as [[[[[[[[V1 V2] V3] V4] V5] V6] V7] V8] V9]. unfold frame_to_root in Hf. destruct (owner x) as [r|]; [|done].
  destruct Hf as [<- Hf]. split; [done|]. split; [|by apply Hf]. by destruct (targets w !! Z.to_nat (rank f)) as [[]|].
Qed.

Lemma root_confirmed_fine w c q x f rest : fine w -> root_at_ w = ReadsConfirm c q -> conns w !! c = Some x -> to_root x = f :: rest ->
  confirm_valid (targets w) size hooks token ack f = true ->
  fine (mkWorld (<[c := root_took rest x]> (conns w)) (peers w) Listening (<[Z.to_nat (rank f) := false]> (targets w))
          (S (released w)) (services w ++ [Serves (Some q) true (Some f)])).
Proof.
  intros HF Hat Hc Hx Hv. destruct (confirmed_by _ _ _ _ _ HF Hc Hx Hv) as (Hr & Ht & Hacc).
  destruct (conn_takes _ _ _ _ (f_conns _ HF _ _ Hc) Hx) as [_ Hx']. destruct (f_root _ HF _ _ Hat) as [Hq Hlt].
  assert (HF' : fine (with_conns (<[c := root_took rest x]> (conns w)) w)) by (eapply put_conn; eauto).
  destruct HF' as [A B C D E F G H]. split; try done; cbn [targets released services peers].
  - intros rest'. rewrite <- app_assoc. cbn [app with_conns services targets released] in F |- *. rewrite F. cbn [release_loop].
    apply Nat.ltb_lt in Hlt. rewrite Hlt. unfold serve_release. by rewrite Hq, Hv.
  - by rewrite length_insert.
  - intros r H0 [H1 H2]. cbn [targets] in H2. destruct (lookup_insert_cases _ _ _ _ _ H2) as [(He & _)|[_ H2']].
    + assert (r = rank f) as -> by lia. done.
    + apply H; [done|]. by split.
Qed.

Lemma step_fine w w' : fine w -> step w w' -> fine w'.
Proof.
  intros HF Hs. pose proof HF as HF0. destruct HF0 as [A B C D E F G H]. destruct Hs.
  - by apply new_conn.
  - eapply put_conn; [done|done|done|]. destruct (A _ _ H0) as [A1 A2]. split; [|done]. cbn. apply Forall_app. split; [done|].
    apply Forall_singleton. by rewrite H1.
  - apply put_peer; [apply new_conn; [done|]|..].
    + split; [|constructor]. apply Forall_singleton. cbn. split; [by rewrite hdr_rank|]. done.
    + destruct (B r) as [B1 B2]. split; [done|]. cbn [at_ attempts accepted_decision]. by rewrite H0 in B2.
    + done.
    + intros c [= <-]. eexists. cbn [with_conns conns]. rewrite lookup_app_r, Nat.sub_diag by done. done.
  - apply put_peer; try done. apply peer_turn; try done; [by rewrite H0|apply B].
  - by eapply peer_reads_fine.
  - apply put_peer; try done. apply peer_turn; try done; [by rewrite H0|apply B].
  - apply put_peer; try done. apply peer_ends; try done; [by rewrite H0|apply B].
  - apply put_peer; try done. pose proof (peer_ends r (peers w r) (accepted_decision (peers w r)) [] (B r)) as Hend.
    rewrite app_nil_r in Hend. apply Hend; try done; [by rewrite H0|apply B].
  - apply turn_fine; try done. intros rest. cbn [release_loop]. apply Nat.ltb_lt in H1. rewrite H1. by destruct rest; cbn [release_loop]; rewrite ?H1.
  - by split.
  - by eapply root_answers_fine.
  - destruct (conn_takes _ _ _ _ (A _ _ H1) H2) as [_ Hx]. apply turn_fine.
    + by eapply put_conn.
    + exact (E _ H0).
    + apply loop_unserved; [exact (E _ H0)|done].
  - apply turn_fine; [done|exact (E _ H0)|]. apply loop_unserved; [exact (E _ H0)|done].
  - by eapply root_confirmed_fine.
  - destruct (conn_takes _ _ _ _ (A _ _ H1) H2) as [_ Hx]. apply turn_fine.
    + by eapply put_conn.
    + exact (proj2 (D _ _ H0)).
    + apply loop_unserved; [exact (proj2 (D _ _ H0))|]. unfold serve_release. cbn [with_conns targets]. by rewrite H3, andb_false_r.
  - apply turn_fine; [done|exact (proj2 (D _ _ H0))|]. apply loop_unserved; [exact (proj2 (D _ _ H0))|done].
  - by split.
Qed.

Lemma reachable_fine w : reachable w -> fine w.
Proof. induction 1; [apply start_fine|by eapply step_fine]. Qed.

(** C19: in any interleaving of the root, its peers and strangers that do not
    know the root's nonce, with frames lost anywhere: the code's loops over
    what each party saw give its outcome; a peer that finishes with a decision
    has the root's, so that no peer drops its own report unless the root
    published and no two peers disagree; and when the root counts a peer as
    released, that peer has accepted the decision and cannot end without it. *)
Theorem release_agreement w : reachable w ->
  (forall r x, at_ (peers w r) = Finished x ->
     peak_socket_reduce_wait_for_release (Some (hdr r)) (attempts (peers w r)) = x /\
     (x = PEAK_SOCKET_RELEASE_INVALID \/ x = released_as ack)) /\
  (forall r, 0 <= r -> cleared w r -> accepted_decision (peers w r) = ack /\
     forall x, at_ (peers w r) = Finished x -> x = released_as ack) /\
  release_loop size hooks token ack peer_count (services w) targets0 0 = (released w, targets w).
Proof.
  intros HR. destruct (reachable_fine w HR) as [A B C D E F G H]. split; [|split].
  - intros r x Hx. destruct (B r) as [Hd Hp]. rewrite Hx in Hp. destruct Hp as [Hp ->]. split; [exact Hp|].
    destruct Hd as [->|Hd]; [by left|]. right. by rewrite <- released_expired, Hd.
  - intros r H0 Hc. pose proof (H r H0 Hc) as Hacc. split; [done|]. intros x Hx. destruct (B r) as [_ Hp]. rewrite Hx in Hp.
    destruct Hp as [_ ->]. by rewrite <- released_expired, Hacc.
  - specialize (F []). rewrite app_nil_r in F. rewrite F. cbn [release_loop]. by destruct (_ <? _)%nat.
Qed.

End Session.

(** ** A run with a stranger and one peer *)

Definition demo_header (r : Z) : PeakSocketReduceHeader :=
  mkHeader PEAK_SOCKET_REDUCE_MAGIC PEAK_SOCKET_REDUCE_VERSION r 4 77
    d0 d0 d0 d0 d0 d0 d0 d0 d0 d0 d0 d0 0 0 0 0 0 0 0 0 0 0 0 0 0 0 0 0 0 0 0 0 0 0 0 0.
Definition demo_targets : list bool := [false; true].
Definition demo_bad : frame := mkFrame PEAK_SOCKET_REDUCE_MAGIC PEAK_SOCKET_REDUCE_VERSION 1 4 76 PEAK_SOCKET_REDUCE_RELEASE_CONFIRM PEAK_SOCKET_REDUCE_RELEASE_ACK.
Definition demo_start : world := start demo_targets.
Definition demo1 : world := with_conns (conns demo_start ++ [mkConn None [] []]) demo_start.
Definition demo2 : world := with_conns (<[0%nat := sends_root demo_bad (mkConn None [] [])]> (conns demo1)) demo1.
Definition demo3 : world :=
  with_peer 1 (mkPeer (Waiting (length (conns demo2))) (accepted_decision (peers demo2 1)) (attempts (peers demo2 1)))
    (with_conns (conns demo2 ++ [mkConn (Some 1) [request_frame (demo_header 1)] []]) demo2).
Definition demo4 : world := with_root (ReadsRequest 0) demo3.
Definition demo5 : world :=
  serviced (Serves (Some demo_bad) true None) (with_conns (<[0%nat := root_took [] (mkConn None [demo_bad] [])]> (conns demo4)) demo4).
Definition demo6 : world := with_root (ReadsRequest 1) demo5.
Definition demo7 : world :=
  with_root (ReadsConfirm 1 (request_frame (demo_header 1)))
    (with_conns (<[1%nat := sends_peer (decision_frame PEAK_SOCKET_REDUCE_RELEASE_ACK (request_frame (demo_header 1)))
                              (root_took [] (mkConn (Some 1) [request_frame (demo_header 1)] []))]> (conns demo6)) demo6).
Definition demo_answer : frame := decision_frame PEAK_SOCKET_REDUCE_RELEASE_ACK (request_frame (demo_header 1)).
Definition demo_moved : peer * option frame := peer_moves demo_header 1 (peers demo7 1) demo_answer true.
Definition demo8 : world :=
  with_peer 1 demo_moved.1 (with_conns (<[1%nat := sends_maybe demo_moved.2 (peer_took [] (mkConn (Some 1) [] [demo_answer]))]> (conns demo7)) demo7).
Definition demo_confirm : frame := with_type PEAK_SOCKET_REDUCE_RELEASE_CONFIRM demo_answer.
Definition demo9 : world :=
  mkWorld (<[1%nat := root_took [] (mkConn (Some 1) [demo_confirm] [])]> (conns demo8)) (peers demo8) Listening
    (<[Z.to_nat (rank demo_confirm) := false]> (targets demo8)) (S (released demo8))
    (services demo8 ++ [Serves (Some (request_frame (demo_header 1))) true (Some demo_confirm)]).

Lemma demo_reachable : reachable 2 4 77 PEAK_SOCKET_REDUCE_RELEASE_ACK demo_targets demo_header demo9.
Proof.
  apply (reach_step _ _ _ _ _ _ demo8); [|by apply root_confirmed].
  apply (reach_step _ _ _ _ _ _ demo7); [|by apply (peer_reads _ _ _ _ _ demo_header demo7 1 1 (mkConn (Some 1) [] [demo_answer]) demo_answer [] true)].
  apply (reach_step _ _ _ _ _ _ demo6); [|by apply (root_answers _ _ _ _ _ _ demo6 1 (mkConn (Some 1) [request_frame (demo_header 1)] []) _ [])].
  apply (reach_step _ _ _ _ _ _ demo5); [|by eapply root_accepts; [|apply Nat.ltb_lt|]].
  apply (reach_step _ _ _ _ _ _ demo4); [|apply (root_declines _ _ _ _ _ _ demo4 0 (mkConn None [demo_bad] []) demo_bad [] true); try done; by left].
  apply (reach_step _ _ _ _ _ _ demo3); [|by eapply root_accepts; [|apply Nat.ltb_lt|]].
  apply (reach_step _ _ _ _ _ _ demo2); [|by apply peer_connects].
  apply (reach_step _ _ _ _ _ _ demo1); [|by apply stranger_sends].
  apply (reach_step _ _ _ _ _ _ demo_start); [|by apply stranger_connects].
  apply reach_start.
Qed.

Lemma release_agreement_witness :
  peak_socket_reduce_wait_for_release (Some (demo_header 1)) (attempts (peers demo9 1)) = PEAK_SOCKET_RELEASE_ACKNOWLEDGED /\
  accepted_decision (peers demo9 1) = PEAK_SOCKET_REDUCE_RELEASE_ACK.
Proof.
  destruct (release_agreement 2 4 77 PEAK_SOCKET_REDUCE_RELEASE_ACK demo_targets demo_header (fun r => eq_refl)
              ltac:(by left) demo9 demo_reachable) as (A & B & _).
  split; [apply (A 1); reflexivity|]. apply (B 1); [done|]. split; reflexivity.
Defined.

End ReleaseSteps.
