(* ===== verification/SocketTransport.v ===== *)
(** * One rank's part in a report

    The entry points of [src/general_listener/socket_report_transport.c]: every
    rank begins with its own snapshot; the root gathers and returns an
    aggregate with a session, which it commits after publishing or aborts; a
    peer sends its report and waits for the decision.  What the operating
    system answers is a record of [system]; the switches of tests, the log and
    the check of NULL outputs are left out. *)

From Stdlib Require Import String.
From S2P Require Import Prelude TargetSelector Doubles ReportModel EnvParser ExecMemory ExecEnv ReportSnapshot SocketWire SocketGather RuntimeConfig SocketSetup SocketRelease.
Import Snapshot Wire Gather Config Setup Release.

Module Transport.

(** ** The nonce *)

Inductive random_answer := RandomBytes (bs : list byte) | RandomInterrupted | RandomFails.
Definition NONCE_SIZE : nat := 8.

(** The loop around [getrandom] or [read]. *)
Fixpoint random_loop (answers : list random_answer) (got : list byte) : list byte :=
  if (length got =? NONCE_SIZE)%nat then got
  else
    match answers with
    | [] | RandomFails :: _ | RandomBytes [] :: _ => got
    | RandomInterrupted :: answers => random_loop answers got
    | RandomBytes bs :: answers => random_loop answers (got ++ take (NONCE_SIZE - length got) bs)
    end.

(** [urandom] is [None] when the device cannot be opened. *)
Definition peak_socket_reduce_session_nonce (getrandom : list random_answer) (urandom : option (list random_answer)) : option Z :=
  let got := random_loop getrandom [] in
  if (length got =? NONCE_SIZE)%nat then Some (le_value got)
  else
    reads ← urandom;
    let got := random_loop reads got in
    if (length got =? NONCE_SIZE)%nat then Some (le_value got) else None.

(** The loop of the root: a nonce that is not zero, within three calls. *)
Fixpoint first_nonce (attempts : nat) (nonces : list (option Z)) : option Z :=
  match attempts, nonces with
  | S attempts, Some nonce :: nonces => if nonce =? 0 then first_nonce attempts nonces else Some nonce
  | _, _ => None
  end.

(** ** Rank and size *)

Inductive PeakSocketReportRankSource :=
| PEAK_SOCKET_REPORT_RANK_MPI_OR_ENV
| PEAK_SOCKET_REPORT_RANK_ENV_ONLY
| PEAK_SOCKET_REPORT_RANK_ENV_REQUIRED.
#[export] Instance rank_source_eq_dec : EqDecision PeakSocketReportRankSource.
Proof. solve_decision. Defined.

Inductive PeakSocketReportStatus :=
| PEAK_SOCKET_REPORT_FAILED
| PEAK_SOCKET_REPORT_SINGLE_READY
| PEAK_SOCKET_REPORT_PEER_RELEASED
| PEAK_SOCKET_REPORT_ROOT_PREPARED.

(** [mpi]: rank and size of MPI while it is initialised and not finalised. *)
Definition peak_socket_reduce_rank_size (getenv : string -> option cstring) (mpi : option (Z * Z)) (source : PeakSocketReportRankSource)
    : option (Z * Z) :=
  match (if bool_decide (source = PEAK_SOCKET_REPORT_RANK_MPI_OR_ENV) then mpi else None) with
  | Some rank_size => Some rank_size
  | None =>
      match peak_general_listener_mpi_env_rank_size getenv with
      | Some rank_size => Some rank_size
      | None =>
          if bool_decide (source = PEAK_SOCKET_REPORT_RANK_ENV_REQUIRED) || peak_general_listener_mpi_env_world_metadata_present getenv
          then None else Some (0, 1)
      end
  end.

(** ** Snapshots *)

(** An array that is NULL is an empty list. *)
Definition peak_socket_snapshot_is_complete (snapshot : option PeakReportSnapshot) : bool :=
  match snapshot with
  | None => false
  | Some s =>
      let has {A} (l : list A) := (length l =? s_hook_count s)%nat in
      (s_hook_count s =? 0)%nat ||
      (has (s_names s) && has (s_instrumented s) && has (s_detached s) && has (s_reattached s) && has (s_revisited s) &&
       has (s_num_calls s) && has (s_total_time s) && has (s_max_total_time s) && has (s_min_total_time s) && has (s_exclusive_time s) &&
       has (s_max_time s) && has (s_min_time s) && has (s_thread_count s))
  end.

Definition nonzero (x : Z) : bool := negb (x =? 0).

(** [peak_socket_reduce_records_to_snapshot]. *)
Definition peak_socket_reduce_records_to_snapshot (rs : list PeakSocketReduceRecord) (s : PeakReportSnapshot) : PeakReportSnapshot :=
  mkSnapshot (s_hook_count s) (s_program s) (s_names s) (zip_with (fun i r => i || nonzero (num_calls r)) (s_instrumented s) rs)
    (map (fun r => nonzero (detached r)) rs) (map (fun r => nonzero (reattached r)) rs) (map (fun r => nonzero (revisited r)) rs)
    (map num_calls rs) (map total_time rs) (map max_total_time rs) (map min_total_time rs) (map exclusive_time rs)
    (map max_time rs) (map min_time rs) (map thread_count rs) (s_dropped_calls s) (s_dropped_threads s) (s_degraded_mask s)
    (s_capabilities s) (s_jit s) (s_overhead_per_call s) (s_rank_count s) (s_overhead s).

Definition metric_index (m : PeakReportMetric) : nat :=
  match m with
  | PEAK_REPORT_METRIC_COMBINED => 0 | PEAK_REPORT_METRIC_PROFILE => 1 | PEAK_REPORT_METRIC_CONTROL => 2
  | PEAK_REPORT_METRIC_MANAGEMENT => 3 | PEAK_REPORT_METRIC_PROFILE_CONTROL_RISK => 4 | PEAK_REPORT_METRIC_CONTROL_RISK => 5
  end.
Definition maxima_tuple (m : PeakReportMaxima) (metric : PeakReportMetric) : PeakReportRankTuple :=
  match m !! metric_index metric with Some slot => tuple slot | None => zero_tuple end.

(** The overhead of [peak_socket_report_set_aggregate_overhead]. *)
Definition peak_socket_report_set_aggregate_overhead (maxima : PeakReportMaxima) (valid : bool) (failed_stops : Z)
    (profile min_elapsed max_elapsed : double) : PeakReportOverhead :=
  let combined := maxima_tuple maxima PEAK_REPORT_METRIC_COMBINED in
  mkOverhead true valid (maxima_complete (Some maxima)) (local_ranks combined) (stop_window_count combined) failed_stops
    (elapsed_seconds combined) min_elapsed max_elapsed profile (control_seconds combined) (management_seconds combined)
    (control_risk_seconds combined) (profile_control_risk_seconds combined)
    (profile_ratio (maxima_tuple maxima PEAK_REPORT_METRIC_PROFILE)) (control_ratio (maxima_tuple maxima PEAK_REPORT_METRIC_CONTROL))
    (profile_control_risk_ratio (maxima_tuple maxima PEAK_REPORT_METRIC_PROFILE_CONTROL_RISK))
    (control_risk_ratio (maxima_tuple maxima PEAK_REPORT_METRIC_CONTROL_RISK))
    (management_ratio (maxima_tuple maxima PEAK_REPORT_METRIC_MANAGEMENT)) (ratio combined) maxima.

(** What the root writes into the copy of its own snapshot. *)
Definition aggregate_snapshot (copy : PeakReportSnapshot) (a : PeakSocketGatherAggregate) : PeakReportSnapshot :=
  let s := peak_socket_reduce_records_to_snapshot (aggregate_records a) copy in
  mkSnapshot (s_hook_count s) (s_program s) (s_names s) (s_instrumented s) (s_detached s) (s_reattached s) (s_revisited s)
    (s_num_calls s) (s_total_time s) (s_max_total_time s) (s_min_total_time s) (s_exclusive_time s) (s_max_time s) (s_min_time s)
    (s_thread_count s) (a_dropped_calls a) (a_dropped_threads a) (a_degraded_mask a) (a_capabilities a) (a_jit a)
    (s_overhead_per_call s) (a_size a)
    (peak_socket_report_set_aggregate_overhead (a_maxima a) (a_accounting_valid a) (a_failed_stop_window_count a)
       (a_profile_seconds a) (a_min_elapsed_seconds a) (a_max_elapsed_seconds a)).

Definition with_rank_count (n : Z) (s : PeakReportSnapshot) : PeakReportSnapshot :=
  mkSnapshot (s_hook_count s) (s_program s) (s_names s) (s_instrumented s) (s_detached s) (s_reattached s) (s_revisited s)
    (s_num_calls s) (s_total_time s) (s_max_total_time s) (s_min_total_time s) (s_exclusive_time s) (s_max_time s) (s_min_time s)
    (s_thread_count s) (s_dropped_calls s) (s_dropped_threads s) (s_degraded_mask s) (s_capabilities s) (s_jit s)
    (s_overhead_per_call s) n (s_overhead s).

(** ** The peer *)

Record peer_answers := mkPeerAnswers {
  root_resolved : bool;
  gather_connected : bool;
  header_sent : bool;
  records_sent : bool;
  receipt_answer : option PeakSocketReduceReleaseFrame;
  release_attempts : list attempt
}.

Definition receipt_valid (h : PeakSocketReduceHeader) (f : PeakSocketReduceReleaseFrame) : bool :=
  (magic f =? h_magic h) && (version f =? h_version h) && (rank f =? h_rank h) && (hook_count f =? h_hook_count h) &&
  (type f =? PEAK_SOCKET_REDUCE_GATHER_RECEIPT) && (decision f =? PEAK_SOCKET_REDUCE_GATHER_REGISTERED).

(** From here on the peer speaks with the token of the receipt. *)
Definition release_header (h : PeakSocketReduceHeader) (token : Z) : PeakSocketReduceHeader :=
  mkHeader (h_magic h) (h_version h) (h_rank h) (h_hook_count h) token (h_elapsed_seconds h) (h_profile_seconds h) (h_control_seconds h)
    (h_management_seconds h) (h_control_risk_seconds h) (h_profile_control_risk_seconds h) (h_profile_ratio h) (h_control_ratio h)
    (h_profile_control_ratio h) (h_profile_control_risk_ratio h) (h_control_risk_ratio h) (h_management_ratio h)
    (h_stop_window_count h) (h_failed_stop_window_count h) (h_dropped_calls h) (h_dropped_threads h) (h_local_ranks h)
    (h_accounting_valid h) (h_degraded_mask h) (h_capability_requested h) (h_capability_compiled h) (h_capability_active h)
    (h_capability_partial h) (h_capability_retained h) (h_capability_failed h) (h_cuda_compiled_apis h) (h_cuda_found_apis h)
    (h_cuda_installed_apis h) (h_cuda_failed_apis h) (h_jit_pending_queue_full h) (h_jit_non_executable_timeout h)
    (h_jit_attach_retry_timeout h) (h_jit_allocation_failure h) (h_jit_provider_generation h) (h_jit_pending_count h)
    (h_jit_pending_high_water h).

(** Whether the confirmation of the receipt went out does not matter: without
    it the root decides on the fallback, and the peer waits all the same. *)
Definition peak_socket_report_peer_begin (h : PeakSocketReduceHeader) (w : peer_answers) : PeakSocketReportStatus :=
  if negb (root_resolved w) then PEAK_SOCKET_REPORT_FAILED
  else if negb (gather_connected w) then PEAK_SOCKET_REPORT_FAILED
  else
    match (if header_sent w && records_sent w then receipt_answer w else None) with
    | None => PEAK_SOCKET_REPORT_FAILED
    | Some receipt =>
        if negb (receipt_valid h receipt) then PEAK_SOCKET_REPORT_FAILED
        else
          match peak_socket_reduce_wait_for_release (Some (release_header h (session_token receipt))) (release_attempts w) with
          | PEAK_SOCKET_RELEASE_ACKNOWLEDGED => PEAK_SOCKET_REPORT_PEER_RELEASED
          | _ => PEAK_SOCKET_REPORT_FAILED
          end
    end.

(** ** Sessions *)

Record PeakSocketReportSession := mkSession {
  ss_release_targets : list bool;
  ss_size : Z;
  ss_release_listener : bool;
  ss_phase_timeout_ms : Z;
  ss_hook_count : Z;
  ss_session_token : Z
}.

Definition peak_socket_report_session_create (allocated : bool) (targets : list bool) (size : Z) (listener : bool) (phase_timeout_ms hooks token : Z)
    : option PeakSocketReportSession :=
  if allocated then Some (mkSession targets size listener phase_timeout_ms hooks token) else None.

(** The decision of a session; it is destroyed afterwards.  With the ranks
    that have not confirmed. *)
Definition decide_session (decision : Z) (activates : bool) (services : list service) (session : option PeakSocketReportSession)
    : option (bool * list bool) :=
  s ← session;
  Some (peak_socket_reduce_release_peers (ss_release_listener s) (ss_release_targets s) (ss_size s) (ss_hook_count s)
          (ss_session_token s) activates services decision).

Definition peak_socket_report_transport_commit (activates : bool) (services : list service) (session : option PeakSocketReportSession) : bool :=
  match decide_session PEAK_SOCKET_REDUCE_RELEASE_ACK activates services session with Some (committed, _) => committed | None => false end.
Definition peak_socket_report_transport_abort (activates : bool) (services : list service) (session : option PeakSocketReportSession)
    : option (bool * list bool) :=
  decide_session PEAK_SOCKET_REDUCE_RELEASE_FALLBACK activates services session.

(** ** Beginning *)

(** What the system answers to the calls of [peak_socket_report_transport_begin];
    [tables_allocated] is for the three arrays of the root, [gather_allocated]
    for the two of its gather. *)
Record system := mkSystem {
  environment : string -> option cstring;
  mpi_world : option (Z * Z);
  nonces : list (option Z);
  memory : list bool;
  tables_allocated : bool;
  gather_allocated : bool;
  copy_memory : list bool;
  session_allocated : bool;
  release_port_bound : bool;
  gather_listens : bool;
  descriptor_limit : option Z;
  gather_polls : list poll_answer;
  release_activates : bool;
  release_services : list service;
  peer_world : peer_answers
}.

(** [fallback]: the ranks that did not confirm a fallback which was offered
    before the call returned; [peer_streams], a ghost: the bytes that came over
    the connections of the peers that completed the gather. *)
Record outcome := mkOutcome {
  status : PeakSocketReportStatus;
  session_out : option PeakSocketReportSession;
  aggregate_out : option PeakReportSnapshot;
  fallback : option (bool * list bool);
  peer_streams : list (list byte)
}.
Definition failure : outcome := mkOutcome PEAK_SOCKET_REPORT_FAILED None None None [].

(** The aggregate with which the gather starts: the root's own report. *)
Definition initial_aggregate (local : PeakReportSnapshot) (records : list PeakSocketReduceRecord) (maxima : PeakReportMaxima) (size token nonce : Z)
    : PeakSocketGatherAggregate :=
  mkAggregate records maxima (s_hook_count local) (s_hook_count local * RECORD_SIZE)%nat size token nonce
    (<[0%nat := true]> (replicate (Z.to_nat size) false)) (replicate (Z.to_nat size) false)
    (o_profile_seconds (s_overhead local)) (o_elapsed_seconds (s_overhead local)) (o_elapsed_seconds (s_overhead local))
    (o_failed_stop_window_count (s_overhead local)) (s_dropped_calls local) (s_dropped_threads local)
    (o_accounting_valid (s_overhead local)) (s_degraded_mask local) (s_capabilities local) (s_jit local).

(** The registered peers learn that there is no aggregate. *)
Definition falls_back (w : system) (local : PeakReportSnapshot) (size nonce : Z) (targets : list bool) : outcome :=
  mkOutcome PEAK_SOCKET_REPORT_FAILED None None
    (Some (peak_socket_reduce_release_peers true targets size (Z.of_nat (s_hook_count local)) nonce (release_activates w) (release_services w)
             PEAK_SOCKET_REDUCE_RELEASE_FALLBACK)) [].

(** The root, from the ports on. *)
Definition root_begin (w : system) (local : PeakReportSnapshot) (records : list PeakSocketReduceRecord) (size token nonce phase_timeout_ms : Z) : outcome :=
  if negb (release_port_bound w) then failure
  else if negb (gather_listens w) then failure
  else if negb (tables_allocated w) then failure
  else
    match maxima_initialize (Some maxima_reset) (Some (peak_report_overhead_rank_tuple (s_overhead local))) 0 with
    | (true, Some maxima) =>
        let '(gathered, received, a, streams) :=
          peak_socket_reduce_root_gather (descriptor_limit w) (gather_allocated w) (gather_polls w)
            (initial_aggregate local records maxima size token nonce) in
        if negb gathered || negb (Z.of_nat received =? size - 1) then falls_back w local size nonce (release_targets a)
        else
          match peak_report_snapshot_clone local (copy_memory w) with
          | None => falls_back w local size nonce (release_targets a)
          | Some (copy, _) =>
              match peak_socket_report_session_create (session_allocated w) (release_targets a) size true phase_timeout_ms
                      (Z.of_nat (s_hook_count local)) nonce with
              | None => falls_back w local size nonce (release_targets a)
              | Some session => mkOutcome PEAK_SOCKET_REPORT_ROOT_PREPARED (Some session) (Some (aggregate_snapshot copy a)) None streams
              end
          end
    | _ => failure
    end.

Definition peak_socket_report_transport_begin_channel (w : system) (local : option PeakReportSnapshot) (source : PeakSocketReportRankSource)
    (channel : PeakSocketReportChannel) : outcome :=
  match local with
  | None => failure
  | Some s =>
      if negb (peak_socket_snapshot_is_complete local) then failure
      else
        match peak_socket_reduce_channel_ports (environment w) channel, peak_socket_reduce_rank_size (environment w) (mpi_world w) source with
        | None, _ | _, None => failure
        | Some _, Some (rank, size) =>
            let token := peak_socket_reduce_session_token (environment w) in
            if (size <=? 0) || (rank <? 0) || (size <=? rank) then failure
            else
              let budget := peak_general_listener_report_timeout_budget_for_rank_count (environment w) size in
              if peak_report_snapshot_has_duplicate_names s then failure
              else if size <=? 1 then
                match peak_report_snapshot_clone s (copy_memory w) with
                | None => failure
                | Some (single, _) => mkOutcome PEAK_SOCKET_REPORT_SINGLE_READY None (Some (with_rank_count 1 single)) None []
                end
              else
                match (if rank =? 0 then first_nonce 3 (nonces w) else Some 0) with
                | None => failure
                | Some nonce =>
                    if negb (positive_finite (o_elapsed_seconds (s_overhead s))) then failure
                    else
                      match peak_socket_reduce_build_records s (memory w) with
                      | None => failure
                      | Some (records, _) =>
                          if negb (rank =? 0) then
                            mkOutcome (peak_socket_report_peer_begin (rank_header rank token s) (peer_world w)) None None None []
                          else root_begin w s records size token nonce (socket_phase_timeout_ms budget)
                      end
                end
        end
  end.

End Transport.
