(* ===== verification/SocketTheorems.v ===== *)
(** * What the socket transport delivers

    Theorems on the socket transport as a whole: the aggregate of a prepared
    report is the sum of every rank's report; which parts of it depend on the
    order in which the peers arrive; and how a gather that has failed ends. *)

From Stdlib Require Import String.
From S2P Require Import Prelude TargetSelector Doubles ReportModel EnvParser ExecMemory ExecEnv ReportSnapshot SocketWire SocketGather SocketGatherProofs RuntimeConfig SocketSetup SocketRelease SocketTransport.
Import Snapshot Wire Gather GatherProofs Config Setup Release Transport.

Module SocketFacts.

(** ** The aggregate *)

Lemma total_permutation {A} (f : A -> Z) l l' : l ≡ₚ l' -> total f l = total f l'.
Proof. induction 1; cbn [total]; lia. Qed.

Lemma saturated_swap n x y : 0 <= x -> 0 <= y ->
  peak_socket_add_uint64_saturated (peak_socket_add_uint64_saturated n x) y =
  peak_socket_add_uint64_saturated (peak_socket_add_uint64_saturated n y) x.
Proof.
  intros Hx Hy. unfold peak_socket_add_uint64_saturated. generalize (UINT64_MAX - 1) as m. intros m.
  destruct (Z.leb_spec m n); cbn [orb]; [by rewrite Z.leb_refl|].
  destruct (Z.ltb_spec (m - n) x), (Z.ltb_spec (m - n) y); rewrite ?Z.leb_refl; cbn [orb]; try done;
    repeat match goal with |- context [?a <=? ?b] => destruct (Z.leb_spec a b); cbn [orb]
                         | |- context [?a <? ?b] => destruct (Z.ltb_spec a b); cbn [orb] end; lia.
Qed.

Lemma saturated_permutation {A} (f : A -> Z) l l' : l ≡ₚ l' -> Forall (fun x => 0 <= f x) l ->
  forall n, foldl (fun n x => peak_socket_add_uint64_saturated n (f x)) n l =
            foldl (fun n x => peak_socket_add_uint64_saturated n (f x)) n l'.
Proof.
  induction 1 as [|x l l' H IH|x y l|l1 l2 l3 H1 IH1 H2 IH2]; intros Hf n; cbn [foldl]; [done| | |].
  - apply IH. by apply Forall_cons_1 in Hf as [_ Hf].
  - apply Forall_cons_1 in Hf as [? Hf]. apply Forall_cons_1 in Hf as [? _]. by rewrite saturated_swap.
  - rewrite IH1 by done. apply IH2. by rewrite <- H1.
Qed.

Lemma mapM_permutation {A B} (f : A -> option B) l l' ys : l ≡ₚ l' -> mapM f l = Some ys ->
  exists ys', mapM f l' = Some ys' /\ ys ≡ₚ ys'.
Proof.
  intros Hp H. apply mapM_Some_1 in H. destruct (Permutation_Forall2 Hp H) as (ys' & Hy & H'). exists ys'. split; [by apply mapM_Some_2|done].
Qed.

Lemma build_records_spec s mem rs mem' : peak_socket_reduce_build_records s mem = Some (rs, mem') ->
  length rs = s_hook_count s /\ forall j, (j < s_hook_count s)%nat -> exists r, rs !! j = Some r /\ build_record s j = Some r.
Proof.
  unfold peak_socket_reduce_build_records. destruct (_ <? _); [done|]. destruct (if (_ =? 0)%nat then _ else _) as [m|]; [|done].
  cbn [mbind option_bind]. destruct (mapM (build_record s) (seq 0 (s_hook_count s))) as [l|] eqn:E; [|done]. intros [= <- <-].
  apply mapM_Some_1 in E. pose proof (Forall2_length _ _ _ E) as Hl. rewrite length_seq in Hl. split; [done|]. intros j Hj.
  destruct (lookup_lt_is_Some_2 l j) as [r Hr]; [lia|]. exists r. split; [done|].
  eapply Forall2_lookup_lr in E; [exact E|apply lookup_seq; split; [reflexivity|done]|done].
Qed.

Lemma build_record_counts s j r : build_record s j = Some r ->
  s_num_calls s !! j = Some (num_calls r) /\ s_thread_count s !! j = Some (thread_count r) /\
  identity_hash r = peak_report_snapshot_slot_identity_hash s j.
Proof. unfold build_record. intros H. repeat case_match; cbn in *; simplify_option_eq; done. Qed.

Lemma initial_starts local rs maxima size token nonce : 0 <= size -> length rs = s_hook_count local ->
  starts (initial_aggregate local rs maxima size token nonce).
Proof. intros Hs Hl. split; cbn [initial_aggregate aggregate_records a_hook_count a_record_bytes a_size claimed_ranks release_targets]; [done|lia|..]; rewrite ?length_insert, length_replicate; done. Qed.

Lemma dropped_fold a cs : Forall (fun c => 0 <= c_rank c) cs ->
  a_dropped_calls (foldl add_contribution a cs) =
  foldl (fun n c => peak_socket_add_uint64_saturated n (h_dropped_calls (c_header c))) (a_dropped_calls a) cs.
Proof.
  intros H. revert a. induction H as [|c cs Hc H IH]; intros a; [done|]. cbn [foldl]. rewrite IH. f_equal.
  unfold add_contribution, maxima_consider. destruct (Z.ltb_spec (c_rank c) 0); [lia|]. done.
Qed.

Lemma merged_counts cs j r0 r : merged_in cs j r0 r -> exists rs, mapM (fun c => payload_record (c_payload c) j) cs = Some rs /\
  Forall (fun x => identity_hash x = identity_hash r0) rs /\ num_calls r = num_calls r0 + total num_calls rs /\
  thread_count r = thread_count r0 + total thread_count rs.
Proof.
  intros (cs' & rs & Hp & H2 & Hm). destruct (Permutation_Forall2 Hp H2) as (rs' & Hr & H2').
  destruct (merge_list_counts _ _ _ Hm) as (A & B & _ & D & _). exists rs'.
  split; [by apply mapM_Some_2|]. split; [by rewrite <- Hr|]. by rewrite <- !(total_permutation _ _ _ Hr).
Qed.

(** The root's way through [begin]. *)
Lemma begin_root w local source channel session agg fb streams :
  peak_socket_report_transport_begin_channel w (Some local) source channel =
    mkOutcome PEAK_SOCKET_REPORT_ROOT_PREPARED (Some session) (Some agg) fb streams ->
  exists size nonce phase rs mem, peak_socket_reduce_rank_size (environment w) (mpi_world w) source = Some (0, size) /\ 1 < size /\ nonce <> 0 /\
    peak_socket_reduce_build_records local (memory w) = Some (rs, mem) /\
    root_begin w local rs size (peak_socket_reduce_session_token (environment w)) nonce phase =
      mkOutcome PEAK_SOCKET_REPORT_ROOT_PREPARED (Some session) (Some agg) fb streams.
Proof.
  unfold peak_socket_report_transport_begin_channel. intros H. destruct (negb _) in H; [done|].
  destruct (peak_socket_reduce_channel_ports _ _); [|done]. destruct (peak_socket_reduce_rank_size _ _ _) as [[rank size]|]; [|done].
  destruct (_ || _) in H; [done|]. destruct (peak_report_snapshot_has_duplicate_names local); [done|].
  destruct (Z.leb_spec size 1); [destruct (peak_report_snapshot_clone _ _) as [[]|]; done|].
  destruct (if rank =? 0 then _ else _) as [nonce|] eqn:En; [|done]. destruct (negb (positive_finite _)); [done|].
  destruct (peak_socket_reduce_build_records _ _) as [[rs mem]|]; [|done].
  destruct (Z.eqb_spec rank 0) as [->|]; cbn [negb] in H; [|by injection H].
  exists size, nonce, (socket_phase_timeout_ms (peak_general_listener_report_timeout_budget_for_rank_count (environment w) size)), rs, mem.
  split; [done|]. split; [lia|]. split; [|done]. clear H. revert En. generalize (nonces w) as l. generalize 3%nat as k.
  induction k as [|k IH]; intros l; [done|]. cbn [first_nonce]. destruct l as [|[n|] l]; [done| |done].
  destruct (Z.eqb_spec n 0); [apply IH|]. by intros [= ->].
Qed.

Lemma root_prepared w local rs size token nonce phase session agg fb streams :
  root_begin w local rs size token nonce phase = mkOutcome PEAK_SOCKET_REPORT_ROOT_PREPARED (Some session) (Some agg) fb streams ->
  exists maxima n a copy mem, peak_socket_reduce_root_gather (descriptor_limit w) (gather_allocated w) (gather_polls w)
      (initial_aggregate local rs maxima size token nonce) = (true, n, a, streams) /\
    peak_report_snapshot_clone local (copy_memory w) = Some (copy, mem) /\
    session = mkSession (release_targets a) size true phase (Z.of_nat (s_hook_count local)) nonce /\ agg = aggregate_snapshot copy a.
Proof.
  unfold root_begin, falls_back. intros H. do 3 (destruct (negb _) in H; [done|]).
  destruct (maxima_initialize _ _ _) as [[] [maxima|]]; [|done..].
  destruct (peak_socket_reduce_root_gather _ _ _ _) as [[[g n] a] st] eqn:Eg. destruct g; [|done]. destruct (_ || _) in H; [done|].
  destruct (peak_report_snapshot_clone _ _) as [[copy mem]|] eqn:Ec; [|done]. unfold peak_socket_report_session_create in H.
  destruct (session_allocated w); [|done]. injection H as <- <- <- <-. by exists maxima, n, a, copy, mem.
Qed.

Lemma streams_nonneg k streams ds : mapM (stream_contribution k) streams = Some ds ->
  Forall (fun d => 0 <= h_dropped_calls (c_header d)) ds.
Proof.
  intros H. apply mapM_Some_1 in H. induction H as [|b d bs ds Hd _ IH]; constructor; [|done]. unfold stream_contribution in Hd.
  destruct (header_of _) as [h|] eqn:Hh; [|done]. cbn in Hd. injection Hd as <-. exact (header_dropped_nonneg _ _ Hh).
Qed.

(** C18: a prepared report is the sum of all reports.  [streams] are the bytes
    that came over the connections of the gather.  They are one complete report
    from every other rank of the job: a header with the job's token and the
    rank, and the records of as many hooks.  For every hook the calls and the
    threads of the aggregate are the root's own plus those of the records at
    its place in the streams, which name the same function; the dropped calls
    of the headers add up, saturating, to those of the aggregate; and the
    session will release exactly the ranks of the job, under a nonce that is
    not zero. *)
Theorem aggregate_is_the_sum w local source channel session agg fb streams :
  peak_socket_report_transport_begin_channel w (Some local) source channel =
    mkOutcome PEAK_SOCKET_REPORT_ROOT_PREPARED (Some session) (Some agg) fb streams ->
  exists size ds, peak_socket_reduce_rank_size (environment w) (mpi_world w) source = Some (0, size) /\
    mapM (stream_contribution (s_hook_count local * RECORD_SIZE)) streams = Some ds /\
    map c_rank ds ≡ₚ seqZ 1 (size - 1) /\
    Forall (fun c => h_session_token (c_header c) = peak_socket_reduce_session_token (environment w) /\
                     h_hook_count (c_header c) = Z.of_nat (s_hook_count local) /\
                     length (c_payload c) = (s_hook_count local * RECORD_SIZE)%nat) ds /\
    (forall j calls threads, (j < s_hook_count local)%nat -> s_num_calls local !! j = Some calls -> s_thread_count local !! j = Some threads ->
       exists rs, mapM (fun c => payload_record (c_payload c) j) ds = Some rs /\
         Forall (fun x => identity_hash x = peak_report_snapshot_slot_identity_hash local j) rs /\
         s_num_calls agg !! j = Some (calls + total num_calls rs) /\ s_thread_count agg !! j = Some (threads + total thread_count rs)) /\
    s_dropped_calls agg = foldl (fun n c => peak_socket_add_uint64_saturated n (h_dropped_calls (c_header c))) (s_dropped_calls local) ds /\
    s_rank_count agg = size /\ ss_session_token session <> 0 /\
    forall r, 1 <= r < size -> ss_release_targets session !! Z.to_nat r = Some true.
Proof.
  intros H. apply begin_root in H as (size & nonce & phase & rs & mem & Hrs & Hsize & Hn & Hb & H).
  destruct (build_records_spec _ _ _ _ Hb) as [Hlen Hrec].
  apply root_prepared in H as (maxima & n & a & copy & mem' & Hg & Hc & -> & ->).
  apply gather_exact in Hg as (cs & ds & Hds & Hp & Hranks & Hall & Hmerged & Hsum & Hstatic & Htargets); [|apply initial_starts; [lia|done]].
  exists size, ds. split; [done|]. split; [done|]. split; [by rewrite Hp|].
  split; [|split; [|split; [|split; [|split; [done|exact Htargets]]]]].
  - rewrite Hp. eapply Forall_impl; [exact Hall|]. cbn. intros c [(_ & _ & Ht & Hh & _) Hpl]. done.
  - intros j calls threads Hj Hcalls Hthreads. destruct (Hrec j Hj) as (r0 & Hr0 & Hbuild).
    destruct (build_record_counts _ _ _ Hbuild) as (B1 & B2 & B3). rewrite Hcalls in B1. rewrite Hthreads in B2. injection B1 as ->. injection B2 as ->.
    destruct (Hmerged j r0 Hr0) as (r & Hr & Hm). destruct (merged_counts _ _ _ _ Hm) as (xs & M1 & M2 & M3 & M4).
    destruct (mapM_permutation _ _ _ _ (symmetry Hp) M1) as (ys & N1 & N2). exists ys. split; [done|].
    split; [rewrite <- N2; by rewrite <- B3|]. cbn. rewrite !list_lookup_fmap, Hr. cbn. by rewrite M3, M4, !(total_permutation _ _ _ N2).
  - assert (Hd : a_dropped_calls a = a_dropped_calls (foldl add_contribution (initial_aggregate local rs maxima size
      (peak_socket_reduce_session_token (environment w)) nonce) cs)) by (by injection Hsum).
    cbn [aggregate_snapshot s_dropped_calls]. rewrite Hd, dropped_fold.
    2: { apply Forall_forall. intros c Hcs. assert (Hin : c_rank c ∈ seqZ 1 (size - 1)) by (rewrite <- Hranks; by apply list_elem_of_fmap_2).
         apply elem_of_seqZ in Hin. lia. }
    symmetry. apply saturated_permutation; [done|]. eapply streams_nonneg; exact Hds.
  - cbn. by injection Hstatic.
Qed.

(** ** A job of two ranks *)

Definition one : double := SpecFloat.S754_finite false 4503599627370496 (-52).
Definition demo_overhead : PeakReportOverhead :=
  mkOverhead true true false 1 0 0 one one one d0 d0 d0 d0 d0 d0 d0 d0 d0 d0 d0 maxima_reset.
Definition demo_snapshot (calls threads : Z) : PeakReportSnapshot :=
  mkSnapshot 1 (Some []) [Some (bytes "f")] [true] [false] [false] [false] [calls] [d0] [d0] [d0] [d0] [d0] [d0] [threads] 3 0 0
    empty_manifest (mkJit 0 0 0 0 0 0 0) d0 1 demo_overhead.
Definition demo_env (v : string) : option cstring := None.
Definition demo_peer_header : PeakSocketReduceHeader := rank_header 1 (peak_socket_reduce_session_token demo_env) (demo_snapshot 7 2).
Definition demo_peer_record : list byte := match build_record (demo_snapshot 7 2) 0 with Some r => record_bytes r | None => [] end.
Definition demo_confirmation : PeakSocketReduceReleaseFrame :=
  mkFrame PEAK_SOCKET_REDUCE_MAGIC PEAK_SOCKET_REDUCE_VERSION 1 1 99 PEAK_SOCKET_REDUCE_GATHER_RECEIPT_CONFIRM PEAK_SOCKET_REDUCE_GATHER_REGISTERED.
Definition quiet_events : revents := mkRevents false false false.
Definition readable : revents := mkRevents true false false.
Definition writable : revents := mkRevents false true false.
Definition demo_polls : list poll_answer :=
  [Polled readable [Accepted true; AcceptWouldBlock] (fun _ => quiet_events) (fun _ => []) (fun _ => []);
   Polled quiet_events [] (fun _ => readable) (fun _ => [Received (header_bytes demo_peer_header); Received demo_peer_record]) (fun _ => []);
   Polled quiet_events [] (fun _ => writable) (fun _ => []) (fun _ => [Written 16; SendInterrupted; Written 40]);
   Polled quiet_events [] (fun _ => readable) (fun _ => [Received (frame_bytes demo_confirmation)]) (fun _ => [])].
Definition demo_system : system :=
  mkSystem demo_env (Some (0, 2)) [Some 0; Some 99] [] true true [] true true true None demo_polls true []
    (mkPeerAnswers false false false false None []).
Definition demo_outcome : outcome :=
  peak_socket_report_transport_begin_channel demo_system (Some (demo_snapshot 5 1)) PEAK_SOCKET_REPORT_RANK_MPI_OR_ENV PEAK_SOCKET_REPORT_CHANNEL_CPU.
Definition demo_session : PeakSocketReportSession := mkSession [false; true] 2 true 60000 1 99.
Definition demo_aggregate : PeakReportSnapshot := match aggregate_out demo_outcome with Some s => s | None => demo_snapshot 0 0 end.

Lemma aggregate_is_the_sum_witness : s_num_calls demo_aggregate = [12] /\
  exists ds, mapM (stream_contribution RECORD_SIZE) [header_bytes demo_peer_header ++ demo_peer_record ++ frame_bytes demo_confirmation] = Some ds /\
    map c_rank ds ≡ₚ [1] /\ ss_release_targets demo_session !! 1%nat = Some true.
Proof.
  split; [reflexivity|].
  destruct (aggregate_is_the_sum demo_system (demo_snapshot 5 1) PEAK_SOCKET_REPORT_RANK_MPI_OR_ENV PEAK_SOCKET_REPORT_CHANNEL_CPU
              demo_session demo_aggregate None [header_bytes demo_peer_header ++ demo_peer_record ++ frame_bytes demo_confirmation]
              ltac:(vm_compute; reflexivity)) as (size & ds & E & S & A & _ & _ & _ & _ & _ & T).
  injection E as <-. exists ds. split; [exact S|]. split; [exact A|]. apply (T 1). lia.
Defined.

(** ** Order of arrival *)

Definition merge_all (m : PeakProfilerCapabilityManifest) (ms : list PeakProfilerCapabilityManifest) : PeakProfilerCapabilityManifest :=
  foldl peak_report_capability_manifest_merge m ms.
(** Everything but the partial capabilities. *)
Definition settled (m : PeakProfilerCapabilityManifest) :=
  (requested m, compiled m, Snapshot.active m, retained m, failed m, cuda_compiled_apis m, cuda_found_apis m, cuda_installed_apis m, cuda_failed_apis m).

Lemma settled_merge a b x : settled a = settled b ->
  settled (peak_report_capability_manifest_merge a x) = settled (peak_report_capability_manifest_merge b x).
Proof. unfold settled. intros [= E1 E2 E3 E4 E5 E6 E7 E8 E9]. cbn. by rewrite E1, E2, E3, E4, E5, E6, E7, E8, E9. Qed.

Lemma settled_swap m x y : settled (peak_report_capability_manifest_merge (peak_report_capability_manifest_merge m x) y) =
  settled (peak_report_capability_manifest_merge (peak_report_capability_manifest_merge m y) x).
Proof.
  assert (Ho : forall a b c, Z.lor (Z.lor a b) c = Z.lor (Z.lor a c) b) by (intros; rewrite <- !Z.lor_assoc; f_equal; apply Z.lor_comm).
  assert (Ha : forall a b c, Z.land (Z.land a b) c = Z.land (Z.land a c) b) by (intros; rewrite <- !Z.land_assoc; f_equal; apply Z.land_comm).
  unfold settled. cbn. repeat (apply pair_equal_spec; split); auto.
Qed.

Lemma settled_merge_all ms m m' : settled m = settled m' -> settled (merge_all m ms) = settled (merge_all m' ms).
Proof. revert m m'. induction ms as [|x ms IH]; intros m m' H; [done|]. cbn. apply IH. by apply settled_merge. Qed.

(** A facility that the root was built with, and two peers were not; one of them asked for it. *)
Definition built : PeakProfilerCapabilityManifest := mkManifest 0 1 0 0 0 0 0 0 0 0.
Definition plain : PeakProfilerCapabilityManifest := mkManifest 0 0 0 0 0 0 0 0 0 0.
Definition asking : PeakProfilerCapabilityManifest := mkManifest 1 0 0 0 0 0 0 0 0 0.

(** of the capabilities of an aggregate everything but the partial ones is
    independent of the order in which the peers' manifests arrive; the partial
    ones are not: when the peer that asked for a facility it was not built with
    comes last, the difference to the root is no longer seen. *)
Theorem capability_merge_order m ms ms' :
  (ms ≡ₚ ms' -> settled (merge_all m ms) = settled (merge_all m ms')) /\
  partial (merge_all built [asking; plain]) = 1 /\ partial (merge_all built [plain; asking]) = 0.
Proof.
  split; [|split; reflexivity]. intros H. revert m. induction H as [|x l l' H IH|x y l|l1 l2 l3 H1 IH1 H2 IH2]; intros m; try done.
  - apply IH.
  - cbn. apply settled_merge_all, settled_swap.
  - by rewrite IH1.
Qed.

(** ** A gather that has failed *)

(** [poll] reports a connection, or is interrupted; the listener has no event. *)
Definition listener_quiet (answer : poll_answer) : Prop :=
  match answer with
  | PollInterrupted => True
  | Polled l _ _ _ _ => pollin l = false /\ pollerr l = false
  | _ => False
  end.

Lemma serve_all_failed places ready recvs sends s : ok s = false -> serve_all places ready recvs sends s = s.
Proof. intros H. destruct places; cbn [serve_all]; by rewrite ?H. Qed.

(** once a connection has failed, the root neither serves the others nor
    leaves the loop: it calls [poll] again after every answer and does nothing
    with it, until a peer connects, [poll] fails or the deadline passes. *)
Theorem failed_gather_polls_on peers answers s : ok s = false -> (completed s < peers)%nat -> Forall listener_quiet answers ->
  gather_loop peers answers s = (length answers, s).
Proof.
  intros Hok Hc H. apply Nat.ltb_lt in Hc. induction H as [|answer answers Hq H IH]; cbn [gather_loop]; rewrite Hc; [done|].
  assert (Ht : turn peers answer s = (true, s)).
  { destruct answer as [| | |l accepts ready recvs sends]; try done. destruct Hq as [Q1 Q2]. cbn [turn]. rewrite Q1, Q2, !andb_false_r.
    cbn [andb]. by rewrite serve_all_failed. }
  rewrite Ht, IH. done.
Qed.

Definition demo_failed : root := mkRoot [Some new_connection] (initial_aggregate (demo_snapshot 5 1) [] maxima_reset 3 0 99) 1 1 0 false [].

Lemma failed_gather_polls_on_witness :
  gather_loop 2 (replicate 1000 (Polled quiet_events [] (fun _ => readable) (fun _ => [Received []]) (fun _ => []))) demo_failed = (1000%nat, demo_failed).
Proof. apply (failed_gather_polls_on 2 (replicate 1000 _) demo_failed); [reflexivity|cbn; lia|]. apply Forall_replicate. by split. Defined.

(** ** Time *)

Lemma active_limit_pos limit n : 1 <= peak_socket_reduce_gather_active_limit limit n.
Proof. unfold peak_socket_reduce_gather_active_limit. destruct (0 <? _) eqn:E; [apply Z.ltb_lt in E; lia|lia]. Qed.

Lemma admission_wait_bound rank width spacing phase remaining token salt :
  0 <= peak_socket_reduce_admission_jitter_window_ms spacing phase ->
  admission_wait_ms rank width spacing phase remaining token salt <=
  peak_socket_reduce_admission_delay_ms rank width spacing + peak_socket_reduce_admission_jitter_window_ms spacing phase.
Proof.
  intros H. unfold admission_wait_ms. set (jw := peak_socket_reduce_admission_jitter_window_ms spacing phase) in *.
  set (win := Z.min _ jw). destruct (Z.ltb_spec 0 win) as [Hw|Hw]; [|lia].
  pose proof (Z.mod_pos_bound (peak_socket_reduce_jitter_value rank token 0 salt) (win + 1)). lia.
Qed.

Lemma wave_budget getenv size :
  socket_gather_wave_budget_ms (peak_general_listener_report_timeout_budget_for_rank_count getenv size) = PEAK_SOCKET_GATHER_WAVE_BUDGET_MS.
Proof. unfold peak_general_listener_report_timeout_budget_for_rank_count. cbv zeta. by repeat case_match. Qed.

(** C34: whatever the settings, the size of the job and the limit of
    descriptors: every peer, its wave and its jitter included, may connect
    while a whole phase of the root's gather is still left; two waves follow
    each other within a phase, so that the root's no-progress deadline does not
    pass between them; and a peer waits for its release at least as long as the
    gather and two phases of publishing and releasing can take, as far as an
    [int] of milliseconds allows. *)
Theorem admission_fits_budget getenv limit rank size remaining token salt : 0 < rank < size -> size <= INT_MAX ->
  let b := peak_general_listener_report_timeout_budget_for_rank_count getenv size in
  let phase := socket_phase_timeout_ms b in
  let width := peak_socket_reduce_gather_active_limit limit (size - 1) in
  let spacing := peak_socket_reduce_admission_spacing_ms size width (socket_gather_wave_budget_ms b) phase (socket_gather_hard_timeout_ms b) in
  admission_wait_ms rank width spacing phase remaining token salt + phase <= socket_gather_hard_timeout_ms b /\
  spacing + peak_socket_reduce_admission_jitter_window_ms spacing phase < phase /\
  Z.min INT_MAX (socket_gather_hard_timeout_ms b + 2 * phase) <= socket_release_timeout_ms b.
Proof.
  intros Hr Hs b phase width spacing. destruct (budget_ordered getenv size ltac:(lia)) as (P1 & P2 & P3 & _). fold b in P1, P2, P3.
  assert (Hw : 0 <= Z.min ((Z.max (size - 1) 0 + 127) / 128 * 5000) 300000) by (assert (0 <= (Z.max (size - 1) 0 + 127) / 128) by (apply Z.div_pos; lia); lia).
  destruct (admission_in_time rank size width (socket_gather_wave_budget_ms b) phase (socket_gather_hard_timeout_ms b)) as (A & B & C & D);
    [lia|pose proof (active_limit_pos limit (size - 1)); unfold width; lia|unfold b; by rewrite wave_budget|unfold phase; lia|unfold phase; lia|].
  fold spacing in A, B, C, D. pose proof (admission_wait_bound rank width spacing phase remaining token salt D). unfold phase in *. lia.
Qed.

Lemma admission_fits_budget_witness :
  admission_wait_ms 4000 128 (peak_socket_reduce_admission_spacing_ms 4096 128 5000 60000 220000) 60000 200000 1 2 + 60000 <= 220000.
Proof. apply (admission_fits_budget demo_env None 4000 4096 200000 1 2); [lia|unfold INT_MAX; lia]. Defined.

(** ** The wire *)

(** what a rank writes to the socket is what the other end reads: the
    header, the records and the frames of both phases, with every integer of
    its width and every double and float, come back from their bytes, which
    fill exactly the sizes the two ends expect. *)
Theorem wire_round_trip h f r : header_ok h -> frame_ok f -> record_ok r ->
  header_of (header_bytes h) = Some h /\ frame_of (frame_bytes f) = Some f /\ record_of (record_bytes r) = Some r /\
  length (header_bytes h) = HEADER_SIZE /\ length (frame_bytes f) = FRAME_SIZE /\ length (record_bytes r) = RECORD_SIZE.
Proof.
  intros Hh Hf Hr. unfold header_of, frame_of, record_of. destruct (wire_sizes h f r) as (A & B & C).
  rewrite <- (app_nil_r (header_bytes h)) at 1. rewrite <- (app_nil_r (frame_bytes f)) at 1. rewrite <- (app_nil_r (record_bytes r)) at 1.
  by rewrite read_header_bytes, read_frame_bytes, read_record_bytes.
Qed.

Lemma wire_round_trip_witness : header_of (header_bytes demo_peer_header) = Some demo_peer_header.
Proof.
  apply (wire_round_trip demo_peer_header demo_confirmation (mkRecord 1 2 one one one one d0 d0 3 0 1 0)).
  - split; [|split]; repeat (apply Forall_cons; split; [vm_compute; repeat split; done|]); by apply Forall_nil.
  - repeat split; by vm_compute.
  - repeat split; by vm_compute.
Defined.

End SocketFacts.
