(* ===== verification/ParentRegistry.v ===== *)
(** * The registry of profiled processes

    [src/utils/parent_registry.c]: a per-user directory holds a lock, a file of
    process identities (pid and start time) and, while the file is replaced, a
    backup link to it.  A process registers itself and learns whether its parent
    is registered.  The directory is an explicit file system; every system call
    may fail or be the last one before the process is killed. *)

From Stdlib Require Import String.
From S2P Require Import Prelude TargetSelector EnvParser ExecMemory ExecEnv RuntimeConfig.
Import Config.

Module Registry.

Definition EPERM : Z := 1.
Definition ENOENT : Z := 2.
Definition ESRCH : Z := 3.
Definition EIO : Z := 5.
Definition ENOMEM : Z := 12.
Definition EEXIST : Z := 17.
Definition EISDIR : Z := 21.
Definition ENOTDIR : Z := 20.
Definition EINVAL : Z := 22.
Definition EFBIG : Z := 27.
Definition ELOOP : Z := 40.

(** ** The directory *)

Inductive file_kind := Regular | Directory | Symlink.
#[export] Instance kind_eq_dec : EqDecision file_kind.
Proof. solve_decision. Defined.

Record inode := mkInode { i_kind : file_kind; i_uid : Z; i_mode : Z; i_nlink : Z; i_data : cstring }.
Record directory := mkDirectory { names : gmap cstring nat; inodes : gmap nat inode; fresh : nat }.

Definition stat (n : cstring) (d : directory) : option (nat * inode) := i ← names d !! n; x ← inodes d !! i; Some (i, x).
Definition with_inode (i : nat) (f : inode -> inode) (d : directory) : directory := mkDirectory (names d) (alter f i (inodes d)) (fresh d).
Definition add_links (k : Z) (x : inode) : inode := mkInode (i_kind x) (i_uid x) (i_mode x) (i_nlink x + k) (i_data x).
Definition set_mode (m : Z) (x : inode) : inode := mkInode (i_kind x) (i_uid x) m (i_nlink x) (i_data x).
Definition append_data (s : cstring) (x : inode) : inode := mkInode (i_kind x) (i_uid x) (i_mode x) (i_nlink x) (i_data x ++ s).

(** ** System calls *)

(** What happens at a call: it does its work, it fails, or the process dies;
    a call that writes may have written a part by then. *)
Inductive answer := Works | Fails (part : nat) (errno : Z) | Dies (part : nat).
Record world := mkWorld { dir : directory; answers : list answer }.
Definition with_dir (d : directory) (w : world) : world := mkWorld d (answers w).

(** A computation; [None] when the process died. *)
Definition M (A : Type) := world -> option A * world.
Definition ret {A} (a : A) : M A := fun w => (Some a, w).
Definition bind {A B} (m : M A) (f : A -> M B) : M B :=
  fun w => match m w with (None, w) => (None, w) | (Some a, w) => f a w end.
(** The same after -1 with an errno, which is returned. *)
Definition bind_ok {A B} (m : M (Z + A)) (f : A -> M (Z + B)) : M (Z + B) :=
  bind m (fun r => match r with inl e => ret (inl e) | inr a => f a end).

Declare Scope registry_scope.
#[local] Open Scope registry_scope.
Notation "'do' x <- m ; f" := (bind m (fun x => f)) (at level 10, x name, m at level 100, f at level 200) : registry_scope.
Notation "'try' x <- m ; f" := (bind_ok m (fun x => f)) (at level 10, x name, m at level 100, f at level 200) : registry_scope.

Definition system_call {A} (part : nat -> directory -> directory) (work : directory -> Z + (A * directory)) : M (Z + A) :=
  fun w =>
    let finish w := match work (dir w) with inl e => (Some (inl e), w) | inr (a, d) => (Some (inr a), with_dir d w) end in
    match answers w with
    | [] => finish w
    | Works :: rest => finish (mkWorld (dir w) rest)
    | Fails k e :: rest => (Some (inl e), mkWorld (part k (dir w)) rest)
    | Dies k :: rest => (None, mkWorld (part k (dir w)) rest)
    end.
Definition call {A} (work : directory -> Z + (A * directory)) : M (Z + A) := system_call (fun _ d => d) work.

Section Process.
Context (uid umask : Z).

(** [openat] with O_CREAT and O_EXCL; [openat] of an existing name with O_NOFOLLOW. *)
Definition open_exclusive (n : cstring) : M (Z + nat) :=
  call (fun d =>
    match names d !! n with
    | Some _ => inl EEXIST
    | None => inr (fresh d, mkDirectory (<[n := fresh d]> (names d)) (<[fresh d := mkInode Regular uid (Z.ldiff 0x180 umask) 1 []]> (inodes d)) (S (fresh d)))
    end).
Definition open_existing (n : cstring) (writable : bool) : M (Z + nat) :=
  call (fun d =>
    match stat n d with
    | None => inl ENOENT
    | Some (i, x) =>
        if bool_decide (i_kind x = Symlink) then inl ELOOP
        else if writable && bool_decide (i_kind x = Directory) then inl EISDIR else inr (i, d)
    end).
Definition fstat (i : nat) : M (Z + inode) := call (fun d => match inodes d !! i with Some x => inr (x, d) | None => inl EIO end).
Definition fstatat (n : cstring) : M (Z + (nat * inode)) := call (fun d => match stat n d with Some s => inr (s, d) | None => inl ENOENT end).
Definition fchmod (i : nat) (m : Z) : M (Z + unit) := call (fun d => inr (tt, with_inode i (set_mode m) d)).
Definition no_effect : M (Z + unit) := call (fun d => inr (tt, d)).
Definition write (i : nat) (s : cstring) : M (Z + unit) :=
  system_call (fun k d => with_inode i (append_data (take k s)) d) (fun d => inr (tt, with_inode i (append_data s) d)).
Definition unlinkat (n : cstring) (remove_directory : bool) : M (Z + unit) :=
  call (fun d =>
    match stat n d with
    | None => inl ENOENT
    | Some (i, x) =>
        if remove_directory && negb (bool_decide (i_kind x = Directory)) then inl ENOTDIR
        else if negb remove_directory && bool_decide (i_kind x = Directory) then inl EISDIR
        else inr (tt, with_inode i (add_links (-1)) (mkDirectory (delete n (names d)) (inodes d) (fresh d)))
    end).
Definition linkat (old new : cstring) : M (Z + unit) :=
  call (fun d =>
    match stat old d with
    | None => inl ENOENT
    | Some (i, _) =>
        match names d !! new with
        | Some _ => inl EEXIST
        | None => inr (tt, with_inode i (add_links 1) (mkDirectory (<[new := i]> (names d)) (inodes d) (fresh d)))
        end
    end).
Definition renameat (old new : cstring) : M (Z + unit) :=
  call (fun d =>
    match names d !! old with
    | None => inl ENOENT
    | Some i =>
        match names d !! new with
        | Some j =>
            if (j =? i)%nat then inr (tt, d)
            else inr (tt, with_inode j (add_links (-1)) (mkDirectory (<[new := i]> (delete old (names d))) (inodes d) (fresh d)))
        | None => inr (tt, mkDirectory (<[new := i]> (delete old (names d))) (inodes d) (fresh d))
        end
    end).

(** ** Files of the registry *)

Definition PEAK_PARENT_LOCK_NAME : cstring := bytes "parent-registry.lock".
Definition PEAK_PARENT_DATA_NAME : cstring := bytes "parent-registry.data".
Definition PEAK_PARENT_BACKUP_NAME : cstring := bytes ".parent-registry.backup".
Definition PEAK_PARENT_MAX_SNAPSHOT : Z := 1024 * 1024.

Definition MODE_0600 : Z := 0x180.
Definition secure_file (x : inode) : bool := bool_decide (i_kind x = Regular) && (i_uid x =? uid) && (i_mode x =? MODE_0600).

Definition secure_open_regular_at (n : cstring) (create : bool) : M (Z + nat) :=
  do opened <- (if create then
                  do r <- open_exclusive n;
                  match r with
                  | inr i => do c <- fchmod i MODE_0600; ret (match c with inl e => inl e | inr _ => inr (Some i) end)
                  | inl e => ret (if e =? EEXIST then inr None else inl e)
                  end
                else ret (inr None));
  match opened with
  | inl e => ret (inl e)
  | inr found =>
      try i <- (match found with Some i => ret (inr i) | None => open_existing n create end);
      try x <- fstat i;
      if negb (secure_file x && (i_nlink x =? 1)) then ret (inl EPERM) else ret (inr i)
  end.

(** The content of the file, if there is one; the loop reads all of it or fails. *)
Definition read_snapshot (allocated : bool) : M (Z + option cstring) :=
  do opened <- secure_open_regular_at PEAK_PARENT_DATA_NAME false;
  match opened with
  | inl e => ret (if e =? ENOENT then inr None else inl e)
  | inr i =>
      if negb allocated then ret (inl ENOMEM)
      else
        try x <- fstat i;
        if PEAK_PARENT_MAX_SNAPSHOT <? Z.of_nat (length (i_data x)) then ret (inl EFBIG) else ret (inr (Some (i_data x)))
  end.

Definition remove_unexpected_backup (backup_st : inode) : M (Z + unit) :=
  try _ <- unlinkat PEAK_PARENT_BACKUP_NAME (bool_decide (i_kind backup_st = Directory)); no_effect.

Definition legitimate (backup data : nat * inode) : bool :=
  secure_file backup.2 && secure_file data.2 &&
  ((backup.1 =? data.1)%nat && (i_nlink backup.2 =? 2) && (i_nlink data.2 =? 2) ||
   negb (backup.1 =? data.1)%nat && (i_nlink backup.2 =? 1) && (i_nlink data.2 =? 1)).

Definition recover_snapshot_backup : M (Z + unit) :=
  do b <- fstatat PEAK_PARENT_BACKUP_NAME;
  match b with
  | inl e => ret (if e =? ENOENT then inr tt else inl e)
  | inr backup =>
      do r <- fstatat PEAK_PARENT_DATA_NAME;
      match r with
      | inl e => if e =? ENOENT then remove_unexpected_backup backup.2 else ret (inl e)
      | inr data =>
          if legitimate backup data then try _ <- unlinkat PEAK_PARENT_BACKUP_NAME false; no_effect
          else remove_unexpected_backup backup.2
      end
  end.

End Process.

(** ** Texts *)

Fixpoint split_on (c : Z) (s : cstring) : list cstring :=
  match s with
  | [] => [[]]
  | x :: s => if x =? c then [] :: split_on c s else match split_on c s with t :: ts => (x :: t) :: ts | [] => [[x]] end
  end.
(** The tokens of [strtok_r]. *)
Definition strtok_all (c : Z) (s : cstring) : list cstring := List.filter (fun t => negb (length t =? 0)%nat) (split_on c s).
(** What follows the character that [strrchr] finds. *)
Fixpoint after_last (c : Z) (s : cstring) : option cstring :=
  match s with
  | [] => None
  | x :: s => match after_last c s with Some r => Some r | None => if x =? c then Some s else None end
  end.
(** A buffer as a C string. *)
Fixpoint cut_nul (s : cstring) : cstring := match s with [] => [] | x :: s => if x =? 0 then [] else x :: cut_nul s end.

Fixpoint digits_of (fuel : nat) (n : Z) : cstring :=
  match fuel with O => [] | S fuel => if n <? 10 then [48 + n] else digits_of fuel (n / 10) ++ [48 + n mod 10] end.
(** [%ld] and [%llu] of a number that is not negative. *)
Definition decimal_text (n : Z) : cstring := digits_of 20 n.

(** ** Identities of processes *)

Record PeakParentEntry := mkEntry { pid : Z; starttime : Z }.
#[export] Instance entry_eq_dec : EqDecision PeakParentEntry.
Proof. solve_decision. Defined.

Definition STAT_LINE : nat := 4096.
Definition newline : Z := 10.

(** The file /proc/pid/stat, or the errno of opening or reading it. *)
Definition read_process_starttime (stat_file : Z + cstring) : Z + Z :=
  match stat_file with
  | inl e => inl e
  | inr text =>
      if (length text =? 0)%nat || (STAT_LINE - 1 <=? length text)%nat then inl EINVAL
      else
        match fields ← after_last (ch ")") (cut_nul text); strtok_all (ch " ") fields !! 19%nat with
        | None => inl EINVAL
        | Some token =>
            let '(value, consumed, erange) := strtoull token in
            if erange || (consumed =? 0)%nat then inl EINVAL
            else
              match drop consumed token with
              | [] => inr value
              | c :: _ => if c =? newline then inr value else inl EINVAL
              end
        end
  end.

(** [sscanf] with two numbers and nothing after them. *)
Definition parse_registry_entry (line : cstring) : option PeakParentEntry :=
  let '(p, consumed, _) := strtol line in
  if (consumed =? 0)%nat then None
  else
    let rest := drop consumed line in
    let '(start, consumed, _) := strtoull rest in
    if (consumed =? 0)%nat || negb (forallb isspace (drop consumed rest)) || (p <=? 0) || (INT_MAX <? p) then None
    else Some (mkEntry p start).

(** The array and its capacity; [None] when it cannot grow. *)
Definition append_entry (can_grow : nat -> bool) (a : list PeakParentEntry * nat) (e : PeakParentEntry) : option (list PeakParentEntry * nat) :=
  let '(entries, capacity) := a in
  if existsb (fun x => bool_decide (x = e)) entries then Some a
  else if (length entries =? capacity)%nat then
    if can_grow capacity then Some (entries ++ [e], if (capacity =? 0)%nat then 16%nat else (2 * capacity)%nat) else None
  else Some (entries ++ [e], capacity).

Fixpoint collect_loop (proc : Z -> Z + cstring) (can_grow : nat -> bool) (me parent : PeakParentEntry) (lines : list cstring)
    (a : list PeakParentEntry * nat) (found_parent : bool) : Z + (list PeakParentEntry * nat * bool) :=
  match lines with
  | [] => inr (a, found_parent)
  | line :: lines =>
      let skip := collect_loop proc can_grow me parent lines a in
      match parse_registry_entry line with
      | None => skip found_parent
      | Some e =>
          match read_process_starttime (proc (pid e)) with
          | inl errno => if (errno =? ENOENT) || (errno =? ESRCH) then skip found_parent else inl errno
          | inr current =>
              if negb (current =? starttime e) then skip found_parent
              else
                let found_parent := found_parent || bool_decide (e = parent) in
                if bool_decide (e = me) then skip found_parent
                else
                  match append_entry can_grow a e with
                  | None => inl ENOMEM
                  | Some a => collect_loop proc can_grow me parent lines a found_parent
                  end
          end
      end
  end.

Definition collect_live_entries (proc : Z -> Z + cstring) (can_grow : nat -> bool) (snapshot : cstring) (me parent : PeakParentEntry)
    : Z + (list PeakParentEntry * bool) :=
  match collect_loop proc can_grow me parent (strtok_all newline (cut_nul snapshot)) ([], 0%nat) false with
  | inl e => inl e
  | inr (a, found) => match append_entry can_grow a me with None => inl ENOMEM | Some (entries, _) => inr (entries, found) end
  end.

(** ** Replacing the file *)

Definition entry_text (e : PeakParentEntry) : cstring := decimal_text (pid e) ++ [ch " "] ++ decimal_text (starttime e) ++ [newline].

Definition temp_name (process thread : Z) (attempt : nat) : cstring :=
  bytes ".parent-registry.tmp." ++ decimal_text process ++ [ch "."] ++ decimal_text thread ++ [ch "."] ++ decimal_text (Z.of_nat attempt).

Definition ATTEMPTS : nat := 128.

Section Install.
Context (uid umask process thread : Z).

Fixpoint open_temp (todo attempt : nat) : M (Z + (nat * cstring)) :=
  match todo with
  | O => ret (inl EEXIST)
  | S todo =>
      let n := temp_name process thread attempt in
      do r <- open_exclusive uid umask n;
      match r with
      | inr i => ret (inr (i, n))
      | inl e => if e =? EEXIST then open_temp todo (S attempt) else ret (inl e)
      end
  end.

Fixpoint write_entries (i : nat) (entries : list PeakParentEntry) : M (Z + unit) :=
  match entries with
  | [] => ret (inr tt)
  | e :: entries => try _ <- write i (entry_text e); write_entries i entries
  end.

(** The label [fail_temp]: the file goes away; its removal may fail. *)
Definition fail_temp {A} (n : cstring) (e : Z) : M (Z + A) := do _ <- unlinkat n false; ret (inl e).

Definition rollback_snapshot (had_snapshot : bool) : M (Z + unit) :=
  if had_snapshot then try _ <- renameat PEAK_PARENT_BACKUP_NAME PEAK_PARENT_DATA_NAME; no_effect
  else
    do r <- unlinkat PEAK_PARENT_DATA_NAME false;
    match r with inl e => if e =? ENOENT then no_effect else ret (inl e) | inr _ => no_effect end.

(** Content, [fsync] and [close] of the temporary file. *)
Definition fill_temp (i : nat) (entries : list PeakParentEntry) : M (Z + unit) :=
  try _ <- fchmod i MODE_0600; try _ <- write_entries i entries; try _ <- no_effect; no_effect.

Definition install_snapshot (entries : list PeakParentEntry) (had_snapshot : bool) : M (Z + unit) :=
  try t <- open_temp ATTEMPTS 0;
  let '(i, n) := t in
  do f <- fill_temp i entries;
  match f with
  | inl e => fail_temp n e
  | inr _ =>
      do _ <- unlinkat PEAK_PARENT_BACKUP_NAME false;
      do l <- (if had_snapshot then linkat PEAK_PARENT_DATA_NAME PEAK_PARENT_BACKUP_NAME else ret (inr tt));
      match l with
      | inl e => fail_temp n e
      | inr _ =>
          do r <- renameat n PEAK_PARENT_DATA_NAME;
          match r with
          | inl e => do _ <- (if had_snapshot then unlinkat PEAK_PARENT_BACKUP_NAME false else ret (inr tt)); fail_temp n e
          | inr _ =>
              do s <- no_effect;
              match s with
              | inl e => do b <- rollback_snapshot had_snapshot; ret (match b with inl e' => inl e' | inr _ => inl e end)
              | inr _ => do _ <- (if had_snapshot then unlinkat PEAK_PARENT_BACKUP_NAME false else ret (inr tt)); ret (inr tt)
              end
          end
      end
  end.

(** ** The check *)

(** What the process sees: its parent, /proc when it looks for the two of them
    and when it looks at the entries, and whether memory is given. *)
Record view := mkView {
  parent_pid : Z;
  proc_self : Z -> Z + cstring;
  proc : Z -> Z + cstring;
  allocated : bool;
  can_grow : nat -> bool
}.

(** Under the lock; [flock], [strdup] and the release have no effect on the directory. *)
Definition check_parent_process_with_context (v : view) : M (Z + bool) :=
  try _ <- secure_open_regular_at uid umask PEAK_PARENT_LOCK_NAME true;
  try _ <- no_effect;
  try _ <- recover_snapshot_backup uid;
  try snapshot <- read_snapshot uid umask (allocated v);
  match read_process_starttime (proc_self v process), read_process_starttime (proc_self v (parent_pid v)) with
  | inl e, _ | _, inl e => ret (inl e)
  | inr mine, inr parents =>
      match collect_live_entries (proc v) (can_grow v) (default [] snapshot) (mkEntry process mine) (mkEntry (parent_pid v) parents) with
      | inl e => ret (inl e)
      | inr (entries, found_parent) =>
          try _ <- install_snapshot entries (bool_decide (is_Some snapshot)); ret (inr found_parent)
      end
  end.

End Install.

(** ** The directory that is used *)

Record dir_stat := mkDirStat { d_is_dir : bool; d_uid : Z; d_mode : Z }.
Definition MODE_0700 : Z := 0x1c0.
Definition validate_directory_fd (uid mode : Z) (st : option dir_stat) : bool :=
  match st with Some st => d_is_dir st && (d_uid st =? uid) && (d_mode st =? mode) | None => false end.

(** What [mkdirat] (0 or an errno), [openat], [fchmod] and [fstat] answer. *)
Record subdirectory := mkSubdirectory { mkdir_answer : Z; sub_opens : bool; chmod_works : bool; sub_stat : option dir_stat }.
Definition open_private_subdirectory (uid : Z) (a : subdirectory) : option dir_stat :=
  if negb (mkdir_answer a =? 0) && negb (mkdir_answer a =? EEXIST) then None
  else if negb (sub_opens a) then None
  else if (mkdir_answer a =? 0) && negb (chmod_works a) then None
  else if validate_directory_fd uid MODE_0700 (sub_stat a) then sub_stat a else None.

(** [xdg_stat]: XDG_RUNTIME_DIR opened; the other directory is below /tmp. *)
Definition open_parent_runtime_directory (uid : Z) (xdg : option cstring) (xdg_stat : option dir_stat) (xdg_peak : subdirectory)
    (tmp_opens : bool) (tmp_peak : subdirectory) : option dir_stat :=
  let private :=
    match xdg with
    | Some (c :: _) => if (c =? ch "/") && validate_directory_fd uid MODE_0700 xdg_stat then open_private_subdirectory uid xdg_peak else None
    | _ => None
    end in
  match private with
  | Some st => Some st
  | None => if tmp_opens then open_private_subdirectory uid tmp_peak else None
  end.

End Registry.
