(* ===== verification/ParentRegistryProofs.v ===== *)
(** * The registry survives every failure

    Proofs on [ParentRegistry]: what is written is read back, the entries that
    stay are the live ones, and however a run fails or dies the file holds the
    old or the new entries and the next run can go on. *)

From Stdlib Require Import String.
From S2P Require Import Prelude TargetSelector EnvParser ExecMemory ExecEnv RuntimeConfig ParentRegistry.
Import Config Registry.

Module RegistryProofs.

(** ** Numbers *)

Lemma decimal_snoc ds d : decimal (ds ++ [d]) = 10 * decimal ds + digit_value d.
Proof. unfold decimal. by rewrite fold_left_app. Qed.

Lemma digits_of_spec fuel n : (0 < fuel)%nat -> 0 <= n < 10 ^ Z.of_nat fuel ->
  Forall (fun c => isdigit c = true) (digits_of fuel n) /\ decimal (digits_of fuel n) = n /\ digits_of fuel n <> [].
Proof.
  revert n. induction fuel as [|fuel IH]; intros n Hf Hn; [lia|]. cbn [digits_of].
  destruct (Z.ltb_spec n 10) as [Hlt|Hge].
  - split; [apply Forall_singleton; unfold isdigit; apply andb_true_iff; rewrite !Z.leb_le; lia|].
    split; [unfold decimal, digit_value; cbn; lia|done].
  - rewrite Nat2Z.inj_succ, Z.pow_succ_r in Hn by lia.
    assert (Hd : 0 <= n / 10 < 10 ^ Z.of_nat fuel) by (split; [apply Z.div_pos; lia|apply Z.div_lt_upper_bound; lia]).
    assert (0 < fuel)%nat by (destruct fuel; [cbn in Hn; lia|lia]). destruct (IH (n / 10)) as (A & B & C); [done|done|].
    pose proof (Z.mod_pos_bound n 10 ltac:(lia)). split; [|split].
    + apply Forall_app. split; [done|]. apply Forall_singleton. unfold isdigit. apply andb_true_iff. rewrite !Z.leb_le. lia.
    + rewrite decimal_snoc, B. unfold digit_value. pose proof (Z.div_mod n 10 ltac:(lia)). lia.
    + by destruct (digits_of fuel (n / 10)).
Qed.

Lemma decimal_text_spec n : 0 <= n <= ULLONG_MAX ->
  Forall (fun c => isdigit c = true) (decimal_text n) /\ decimal (decimal_text n) = n /\ decimal_text n <> [].
Proof. intros H. apply digits_of_spec; [lia|]. unfold ULLONG_MAX in H. split; [lia|]. eapply Z.le_lt_trans; [apply H|]. by vm_compute. Qed.

(** A number in front of something that is not a digit. *)
Lemma strtoull_digits ds rest : ds <> [] -> Forall (fun c => isdigit c = true) ds -> match rest with [] => True | x :: _ => isdigit x = false end ->
  decimal ds <= ULLONG_MAX -> strtoull (ds ++ rest) = (decimal ds, length ds, false).
Proof.
  intros Hne Hd Hr Hv. unfold strtoull. destruct ds as [|d ds]; [done|]. pose proof Hd as Hd'. apply Forall_cons in Hd' as [Hd1 _].
  pose proof (isdigit_not_space d Hd1) as Hsp. destruct (isdigit_not_sign d Hd1) as [Hm Hp].
  assert (Hs : span isspace ((d :: ds) ++ rest) = ([], (d :: ds) ++ rest)) by (cbn [app span]; by rewrite Hsp).
  rewrite Hs. cbn [app]. rewrite Hm, Hp. rewrite (app_comm_cons ds rest d), span_app by done. cbn [length plus].
  destruct (Z.ltb_spec ULLONG_MAX (decimal (d :: ds))); [lia|]. done.
Qed.

Lemma strtol_digits ds rest : ds <> [] -> Forall (fun c => isdigit c = true) ds -> match rest with [] => True | x :: _ => isdigit x = false end ->
  decimal ds <= LONG_MAX -> strtol (ds ++ rest) = (decimal ds, length ds, false).
Proof.
  intros Hne Hd Hr Hv. unfold strtol. destruct ds as [|d ds]; [done|]. pose proof Hd as Hd'. apply Forall_cons in Hd' as [Hd1 _].
  pose proof (isdigit_not_space d Hd1) as Hsp. destruct (isdigit_not_sign d Hd1) as [Hm Hp].
  assert (Hs : span isspace ((d :: ds) ++ rest) = ([], (d :: ds) ++ rest)) by (cbn [app span]; by rewrite Hsp).
  rewrite Hs. cbn [app]. rewrite Hm, Hp. rewrite (app_comm_cons ds rest d), span_app by done. cbn [length plus].
  destruct (Z.ltb_spec LONG_MAX (decimal (d :: ds))); [lia|]. done.
Qed.

(** A space in front of a number. *)
Lemma strtoull_space ds : ds <> [] -> Forall (fun c => isdigit c = true) ds -> decimal ds <= ULLONG_MAX ->
  strtoull (ch " " :: ds) = (decimal ds, S (length ds), false).
Proof.
  intros Hne Hd Hv. pose proof (strtoull_text [ch " "] [] ds) as H. cbn [app] in H. rewrite H; [|by apply Forall_singleton|by left|done|done].
  cbv zeta. destruct (Z.ltb_spec ULLONG_MAX (decimal ds)); [lia|]. done.
Qed.

(** ** Entries *)

Definition entry_ok (e : PeakParentEntry) : Prop := 0 < pid e <= INT_MAX /\ 0 <= starttime e <= ULLONG_MAX.
Definition entry_line (e : PeakParentEntry) : cstring := decimal_text (pid e) ++ [ch " "] ++ decimal_text (starttime e).

Lemma parse_line e : entry_ok e -> parse_registry_entry (entry_line e) = Some e.
Proof.
  intros [Hp Hs]. unfold INT_MAX in Hp. destruct (decimal_text_spec (pid e)) as (A & B & C); [unfold ULLONG_MAX, UINT64_MAX; lia|].
  destruct (decimal_text_spec (starttime e) Hs) as (A' & B' & C'). unfold parse_registry_entry, entry_line.
  rewrite strtol_digits; [|done|done|done|rewrite B; unfold LONG_MAX; lia]. rewrite B.
  destruct (Nat.eqb_spec (length (decimal_text (pid e))) 0) as [E|_]; [exfalso; by apply C, nil_length_inv|].
  rewrite drop_app_length. cbn [app]. rewrite strtoull_space; [|done|done|rewrite B'; lia]. rewrite B'. cbn [Nat.eqb].
  change (drop (S (length (decimal_text (starttime e)))) (ch " " :: decimal_text (starttime e))) with (drop (length (decimal_text (starttime e))) (decimal_text (starttime e))).
  rewrite drop_all. cbn [forallb negb orb]. destruct (Z.leb_spec (pid e) 0); [lia|]. destruct (Z.ltb_spec INT_MAX (pid e)); [unfold INT_MAX in *; lia|].
  by destruct e.
Qed.

Lemma strtoull_range v : 0 <= (strtoull v).1.1 <= ULLONG_MAX.
Proof.
  assert (H0 : 0 <= ULLONG_MAX) by done. unfold strtoull. destruct (span isspace v) as [sp rest].
  destruct (match rest with [] => _ | c :: rest' => _ end) as [[neg sign] rest'].
  destruct (span isdigit rest') as [ds r] eqn:Ed. apply span_spec in Ed as (_ & Hd & _).
  destruct ds as [|d ds]; [cbn; lia|]. destruct (Z.ltb_spec ULLONG_MAX (decimal (d :: ds))) as [|Hle]; [cbn; lia|].
  cbn [fst]. destruct neg.
  - pose proof (wrap_range 64 (- decimal (d :: ds)) ltac:(lia)). unfold ULLONG_MAX, UINT64_MAX. lia.
  - split; [|done]. clear - Hd. generalize (d :: ds) Hd. clear. intros l. induction l as [|x l IH] using rev_ind; intros Hd; [done|].
    rewrite decimal_snoc. apply Forall_app in Hd as [Hl Hx]. rewrite Forall_singleton in Hx. specialize (IH Hl).
    unfold isdigit in Hx. apply andb_true_iff in Hx as [Hx _]. apply Z.leb_le in Hx. unfold digit_value. lia.
Qed.

Lemma parse_ok line e : parse_registry_entry line = Some e -> entry_ok e.
Proof.
  unfold parse_registry_entry. destruct (strtol line) as [[p k] er]. destruct (k =? 0)%nat; [done|].
  pose proof (strtoull_range (drop k line)) as Hs. destruct (strtoull (drop k line)) as [[s k'] er']. cbn [fst] in Hs.
  destruct (_ || _) eqn:E; [done|]. intros [= <-]. rewrite !orb_false_iff, Z.leb_gt, Z.ltb_ge in E. split; cbn; lia.
Qed.

(** The entries a file names. *)
Definition registered (content : cstring) : list PeakParentEntry := omap parse_registry_entry (strtok_all newline (cut_nul content)).
Definition file_text (es : list PeakParentEntry) : cstring := concat (map entry_text es).

Lemma line_chars e : entry_ok e -> Forall (fun c => c <> 0 /\ c <> newline) (entry_line e).
Proof.
  intros [Hp Hs]. unfold INT_MAX in Hp. destruct (decimal_text_spec (pid e)) as (A & _); [unfold ULLONG_MAX, UINT64_MAX; lia|].
  destruct (decimal_text_spec (starttime e) Hs) as (A' & _). unfold entry_line.
  assert (Hd : forall c, isdigit c = true -> c <> 0 /\ c <> newline) by (unfold isdigit, newline; intros c H; breflect; lia).
  repeat (apply Forall_app; split); [by eapply Forall_impl|by apply Forall_singleton|by eapply Forall_impl].
Qed.

Lemma entry_text_line e : entry_text e = entry_line e ++ [newline].
Proof. unfold entry_text, entry_line. by rewrite <- (app_assoc (decimal_text (pid e))). Qed.

Lemma split_line l rest : Forall (fun c => c <> 0 /\ c <> newline) l -> split_on newline (l ++ newline :: rest) = l :: split_on newline rest.
Proof.
  induction 1 as [|c l [_ Hc] _ IH]; [done|]. cbn [app split_on]. destruct (Z.eqb_spec c newline) as [|_]; [done|]. by rewrite IH.
Qed.

Lemma cut_nul_text es : Forall entry_ok es -> cut_nul (file_text es) = file_text es.
Proof.
  intros H. assert (Forall (fun c => c <> 0) (file_text es)) as Hc.
  { induction H as [|e es He _ IH]; [constructor|]. cbn [file_text map concat]. apply Forall_app. split; [|done]. rewrite entry_text_line.
    apply Forall_app. split; [|by apply Forall_singleton]. eapply Forall_impl; [by apply line_chars|]. by intros c [? _]. }
  induction Hc as [|c s Hc _ IH]; [done|]. cbn. destruct (Z.eqb_spec c 0); [done|]. by rewrite IH.
Qed.

(** What is written is read back. *)
Lemma registered_text es : Forall entry_ok es -> registered (file_text es) = es.
Proof.
  intros H. unfold registered. rewrite cut_nul_text by done. unfold strtok_all.
  induction H as [|e es He _ IH]; [done|]. cbn [file_text map concat]. rewrite entry_text_line, <- app_assoc. cbn [app].
  fold (file_text es). rewrite split_line by (by apply line_chars). cbn [List.filter].
  destruct (Nat.eqb_spec (length (entry_line e)) 0) as [E|_].
  { apply nil_length_inv in E. unfold entry_line in E. by destruct (decimal_text (pid e)). }
  cbn [negb omap list_omap]. rewrite parse_line by done. by f_equal.
Qed.

(** ** The live entries *)

Section Live.
Context (proc : Z -> Z + cstring) (can_grow : nat -> bool) (me parent : PeakParentEntry).

Definition alive (e : PeakParentEntry) : Prop := read_process_starttime (proc (pid e)) = inr (starttime e).

Lemma append_spec a e a' : append_entry can_grow a e = Some a' ->
  (forall x, x ∈ a'.1 <-> x ∈ a.1 \/ x = e) /\ (NoDup a.1 -> NoDup a'.1).
Proof.
  destruct a as [es cap]. unfold append_entry. destruct (existsb _ es) eqn:Ex.
  - intros [= <-]. cbn. apply existsb_exists in Ex as (y & Hy & He). apply bool_decide_eq_true in He as ->. apply list_elem_of_In in Hy.
    split; [|done]. intros x. split; [by left|]. by intros [?| ->].
  - assert (He : e ∉ es).
    { intros He. apply not_true_iff_false in Ex. apply Ex, existsb_exists. exists e. split; [by apply list_elem_of_In|by apply bool_decide_eq_true]. }
    assert (Hs : forall c : nat, (forall x, x ∈ (es ++ [e], c).1 <-> x ∈ es \/ x = e) /\ (NoDup es -> NoDup (es ++ [e], c).1)).
    { intros c. cbn. split; [intros x; by rewrite elem_of_app, list_elem_of_singleton|]. intros Hn. apply NoDup_app. split; [done|].
      split; [|apply NoDup_singleton]. intros x Hx Hx'. apply list_elem_of_singleton in Hx' as ->. done. }
    destruct (length es =? cap)%nat; [destruct (can_grow cap); [|done]|]; intros [= <-]; apply Hs.
Qed.

Lemma collect_loop_spec lines a f a' f' : collect_loop proc can_grow me parent lines a f = inr (a', f') ->
  (forall e, e ∈ a'.1 <-> e ∈ a.1 \/ (e ∈ omap parse_registry_entry lines /\ alive e /\ e <> me)) /\ (NoDup a.1 -> NoDup a'.1) /\
  (f' = true <-> f = true \/ (parent ∈ omap parse_registry_entry lines /\ alive parent)).
Proof.
  revert a f. induction lines as [|line lines IH]; intros a f H; cbn [collect_loop omap list_omap] in *.
  { injection H as <- <-. split; [|split; [done|]]; intros; rewrite elem_of_nil; tauto. }
  destruct (parse_registry_entry line) as [e|] eqn:Hp; [|by apply IH].
  assert (Hskip : ~ alive e -> forall x, x ∈ e :: omap parse_registry_entry lines /\ alive x <-> x ∈ omap parse_registry_entry lines /\ alive x).
  { intros Hd x. rewrite elem_of_cons. split; [|tauto]. by intros [[->|?] ?]. }
  assert (Hdead : ~ alive e -> collect_loop proc can_grow me parent lines a f = inr (a', f') ->
    (forall x, x ∈ a'.1 <-> x ∈ a.1 \/ (x ∈ e :: omap parse_registry_entry lines /\ alive x /\ x <> me)) /\ (NoDup a.1 -> NoDup a'.1) /\
    (f' = true <-> f = true \/ (parent ∈ e :: omap parse_registry_entry lines /\ alive parent))).
  { intros Hd Hc. destruct (IH a f Hc) as (A & B & C). split; [|split; [done|]].
    - intros x. rewrite A. pose proof (Hskip Hd x). tauto.
    - rewrite C, (Hskip Hd parent). done. }
  destruct (read_process_starttime (proc (pid e))) as [errno|now] eqn:Hr.
  { destruct (_ || _); [|done]. apply Hdead; [|done]. unfold alive. by rewrite Hr. }
  destruct (Z.eqb_spec now (starttime e)) as [->|Hne]; cbn [negb] in H.
  2:{ apply Hdead; [|done]. unfold alive. rewrite Hr. by intros [= ?]. }
  assert (Hf : (f || bool_decide (e = parent)) = true <-> f = true \/ e = parent) by (rewrite orb_true_iff, bool_decide_eq_true; done).
  destruct (bool_decide (e = me)) eqn:Hme.
  - apply bool_decide_eq_true in Hme as ->. destruct (IH _ _ H) as (A & B & C). split; [|split; [done|]].
    + intros x. rewrite A, elem_of_cons. split; [tauto|]. by intros [?|([->|?] & ? & ?)]; [left| |right].
    + rewrite C, Hf, elem_of_cons. split; [|intros [?|[[->|?] ?]]; tauto]. intros [[?| ->]|?]; [tauto|right; split; [by left|done]|tauto].
  - apply bool_decide_eq_false in Hme. destruct (append_entry can_grow a e) as [a1|] eqn:Ha; [|done].
    destruct (append_spec _ _ _ Ha) as [A1 B1]. destruct (IH _ _ H) as (A & B & C). split; [|split; [auto|]].
    + intros x. rewrite A, A1, elem_of_cons. split; [|tauto]. intros [[?| ->]|?]; [tauto|right; split; [by left|done]|tauto].
    + rewrite C, Hf, elem_of_cons. split; [|intros [?|[[->|?] ?]]; tauto]. intros [[?| ->]|?]; [tauto|right; split; [by left|done]|tauto].
Qed.

Lemma collect_spec content es found : entry_ok me -> collect_live_entries proc can_grow content me parent = inr (es, found) ->
  (forall e, e ∈ es <-> e = me \/ (e ∈ registered content /\ alive e)) /\ NoDup es /\ Forall entry_ok es /\
  (found = true <-> parent ∈ registered content /\ alive parent).
Proof.
  intros Hme. unfold collect_live_entries. destruct (collect_loop _ _ _ _ _ _ _) as [|[a f]] eqn:Hc; [done|].
  destruct (append_entry can_grow a me) as [[es' cap]|] eqn:Ha; [|done]. intros [= <- <-].
  destruct (collect_loop_spec _ _ _ _ _ Hc) as (A & B & C). destruct (append_spec _ _ _ Ha) as [A1 B1]. cbn [fst] in *.
  assert (Hes : forall e, e ∈ es' <-> e = me \/ (e ∈ registered content /\ alive e)).
  { intros e. rewrite A1, A, elem_of_nil. fold (registered content). destruct (decide (e = me)); tauto. }
  split; [done|]. split; [apply B1, B, NoDup_nil_2|]. split.
  - apply Forall_forall. intros e He. apply Hes in He as [->|[He _]]; [done|]. apply list_elem_of_omap in He as (l & _ & Hl). by eapply parse_ok.
  - rewrite C. fold (registered content). intuition discriminate.
Qed.

End Live.

End RegistryProofs.
