(* ===== verification/ParentRegistryCrash.v ===== *)
(** * The registry after failures and crashes

    However a run of [ParentRegistry.check_parent_process_with_context] goes:
    calls that fail at any place, a process that is killed at any place, the
    data file holds the old entries or the new ones and the directory is in a
    state from which the next run goes on. *)

From Stdlib Require Import String.
From S2P Require Import Prelude TargetSelector EnvParser ExecMemory ExecEnv RuntimeConfig ParentRegistry ParentRegistryProofs.
Import Config Registry RegistryProofs.

Module RegistryCrash.

Abbreviation LOCK := PEAK_PARENT_LOCK_NAME.
Abbreviation DATA := PEAK_PARENT_DATA_NAME.
Abbreviation BACKUP := PEAK_PARENT_BACKUP_NAME.

Definition special (n : cstring) : Prop := n = DATA \/ n = BACKUP.
Definition content (d : directory) : option cstring := x ← stat DATA d; Some (i_data x.2).

Section Directory.
Context (uid : Z).

(** Between two runs: what is registered is in a private file with one name, or
    with the backup as its second name; a backup of an older file may remain;
    nothing else is linked twice. *)
Record sound (d : directory) : Prop := mkSound {
  so_fresh : forall i x, inodes d !! i = Some x -> (i < fresh d)%nat;
  so_exists : forall n i, names d !! n = Some i -> is_Some (inodes d !! i);
  so_inj : forall n m i, names d !! n = Some i -> names d !! m = Some i -> n <> m -> special n /\ special m;
  so_data : forall i x, names d !! DATA = Some i -> inodes d !! i = Some x ->
    secure_file uid x = true /\ i_nlink x = if bool_decide (names d !! BACKUP = Some i) then 2 else 1;
  so_backup : forall i x, names d !! BACKUP = Some i -> inodes d !! i = Some x ->
    secure_file uid x = true /\ exists j, names d !! DATA = Some j /\ (j <> i -> i_nlink x = 1);
  so_lock : forall i x, names d !! LOCK = Some i -> inodes d !! i = Some x -> secure_file uid x = true /\ i_nlink x = 1
}.

Lemma content_names d d' : names d' !! DATA = names d !! DATA -> (forall i, names d !! DATA = Some i -> inodes d' !! i = inodes d !! i) ->
  content d' = content d.
Proof.
  intros Hn Hi. unfold content, stat. rewrite Hn. destruct (names d !! DATA) as [i|]; [|done]. cbn. by rewrite Hi.
Qed.

(** ** Files beside the snapshot *)

Lemma create_sound d n x : sound d -> names d !! n = None -> ~ special n -> (n = LOCK -> secure_file uid x = true /\ i_nlink x = 1) ->
  let d' := mkDirectory (<[n := fresh d]> (names d)) (<[fresh d := x]> (inodes d)) (S (fresh d)) in
  sound d' /\ content d' = content d /\ names d' !! BACKUP = names d !! BACKUP /\ names d' !! DATA = names d !! DATA.
Proof.
  intros [A B C D E F] Hn Hs Hl d'. assert (n <> DATA /\ n <> BACKUP) as [Hnd Hnb] by (unfold special in Hs; tauto).
  assert (Hold : forall m i, names d !! m = Some i -> (i < fresh d)%nat) by (intros m i H; destruct (B _ _ H) as [y Hy]; eauto).
  assert (Hdata : names d' !! DATA = names d !! DATA) by (cbn; by rewrite lookup_insert_ne).
  assert (Hback : names d' !! BACKUP = names d !! BACKUP) by (cbn; by rewrite lookup_insert_ne).
  assert (Hino : forall i, (i < fresh d)%nat -> inodes d' !! i = inodes d !! i) by (intros i Hi; cbn; rewrite lookup_insert_ne by lia; done).
  split; [|split; [|done]].
  - split.
    + intros i y H. cbn in H |- *. destruct (decide (i = fresh d)) as [->|]; [lia|]. rewrite lookup_insert_ne in H by done. apply A in H. lia.
    + intros m i H. cbn in H |- *. destruct (decide (m = n)) as [->|].
      * rewrite lookup_insert_eq in H. injection H as <-. rewrite lookup_insert_eq. eauto.
      * rewrite lookup_insert_ne in H by done. rewrite lookup_insert_ne by (apply Hold in H; lia). eauto.
    + intros m m' i H H' Hne. cbn in H, H'. destruct (decide (m = n)) as [->|], (decide (m' = n)) as [->|]; try done;
        rewrite ?lookup_insert_eq, ?lookup_insert_ne in H by done; rewrite ?lookup_insert_eq, ?lookup_insert_ne in H' by done.
      * injection H as <-. apply Hold in H'. lia.
      * injection H' as <-. apply Hold in H. lia.
      * eauto.
    + intros i y H Hy. rewrite Hdata in H. rewrite (Hino i (Hold _ _ H)) in Hy. rewrite Hback. eauto.
    + intros i y H Hy. rewrite Hback in H. rewrite (Hino i (Hold _ _ H)) in Hy. rewrite Hdata. eauto.
    + intros i y H Hy. destruct (decide (n = LOCK)) as [->|Hne].
      * cbn in H, Hy. rewrite lookup_insert_eq in H. injection H as <-. rewrite lookup_insert_eq in Hy. injection Hy as <-. auto.
      * cbn in H. rewrite lookup_insert_ne in H by done. rewrite (Hino i (Hold _ _ H)) in Hy. eauto.
  - apply content_names; [done|]. intros i H. apply Hino. eauto.
Qed.

Lemma alter_sound d n i f : sound d -> names d !! n = Some i -> ~ special n ->
  (forall x, i_nlink (f x) = i_nlink x /\ (secure_file uid x = true -> secure_file uid (f x) = true)) ->
  sound (with_inode i f d) /\ content (with_inode i f d) = content d.
Proof.
  intros [A B C D E F] Hn Hs Hf.
  assert (Hother : forall m j, special m -> names d !! m = Some j -> inodes (with_inode i f d) !! j = inodes d !! j).
  { intros m j Hm H. cbn. rewrite lookup_alter_ne; [done|]. intros ->. destruct (decide (m = n)) as [->|]; [done|]. by destruct (C n m j Hn H). }
  split.
  - split; cbn [with_inode names fresh inodes].
    + intros j x H. apply lookup_alter_Some in H as [(-> & y & H & _)|[_ H]]; eauto.
    + intros m j H. apply lookup_alter_is_Some. eauto.
    + done.
    + intros j x H Hx. change (inodes (with_inode i f d) !! j = Some x) in Hx. rewrite (Hother DATA j) in Hx by (done || by left). eauto.
    + intros j x H Hx. change (inodes (with_inode i f d) !! j = Some x) in Hx. rewrite (Hother BACKUP j) in Hx by (done || by right). eauto.
    + intros j x H Hx. apply lookup_alter_Some in Hx as [(-> & y & Hy & ->)|[_ Hy]]; [|eauto].
      destruct (F _ _ H Hy) as [F1 F2], (Hf y) as [Hf1 Hf2]. split; [auto|congruence].
  - apply content_names; [done|]. intros j H. by apply (Hother DATA); [left|].
Qed.

Lemma unlink_sound d n i : sound d -> names d !! n = Some i -> ~ special n -> n <> LOCK ->
  let d' := with_inode i (add_links (-1)) (mkDirectory (delete n (names d)) (inodes d) (fresh d)) in
  sound d' /\ content d' = content d /\ names d' !! BACKUP = names d !! BACKUP /\ names d' !! DATA = names d !! DATA.
Proof.
  intros [A B C D E F] Hn Hs Hl d'. assert (n <> DATA /\ n <> BACKUP) as [Hnd Hnb] by (unfold special in Hs; tauto).
  assert (Hkeep : forall m j, m <> n -> names d !! m = Some j -> inodes d' !! j = inodes d !! j).
  { intros m j Hm H. cbn. rewrite lookup_alter_ne; [done|]. intros ->. by destruct (C n m j Hn H). }
  assert (Hnames : forall m j, names d' !! m = Some j -> m <> n /\ names d !! m = Some j) by (intros m j H; cbn in H; apply lookup_delete_Some in H as [? ?]; done).
  assert (Hdata : names d' !! DATA = names d !! DATA) by (cbn; by rewrite lookup_delete_ne).
  assert (Hback : names d' !! BACKUP = names d !! BACKUP) by (cbn; by rewrite lookup_delete_ne).
  split; [|split; [|done]].
  - split.
    + intros j x H. cbn in H. apply lookup_alter_Some in H as [(-> & y & H & _)|[_ H]]; eauto.
    + intros m j H. apply Hnames in H as [Hm H]. rewrite (Hkeep m j Hm H). eauto.
    + intros m m' j H H'. apply Hnames in H as [_ H], H' as [_ H']. eauto.
    + intros j x H Hx. rewrite Hback. apply Hnames in H as [Hm H]. rewrite (Hkeep _ _ Hm H) in Hx. eauto.
    + intros j x H Hx. rewrite Hdata. apply Hnames in H as [Hm H]. rewrite (Hkeep _ _ Hm H) in Hx. eauto.
    + intros j x H Hx. apply Hnames in H as [Hm H]. rewrite (Hkeep _ _ Hm H) in Hx. eauto.
  - apply content_names; [done|]. intros j H. by apply (Hkeep DATA).
Qed.

(** ** The snapshot and its backup *)

Lemma unlink_backup_sound d i : sound d -> names d !! BACKUP = Some i ->
  let d' := with_inode i (add_links (-1)) (mkDirectory (delete BACKUP (names d)) (inodes d) (fresh d)) in
  sound d' /\ content d' = content d /\ names d' !! BACKUP = None /\ names d' !! DATA = names d !! DATA.
Proof.
  intros [A B C D E F] Hb d'.
  assert (Hnames : forall m j, names d' !! m = Some j -> m <> BACKUP /\ names d !! m = Some j) by (intros m j H; cbn in H; apply lookup_delete_Some in H as [? ?]; done).
  assert (Hdata : names d' !! DATA = names d !! DATA) by (cbn; by rewrite lookup_delete_ne).
  assert (Hback : names d' !! BACKUP = None) by (cbn; apply lookup_delete_eq).
  assert (Hkeep : forall m j, m <> DATA -> m <> BACKUP -> names d !! m = Some j -> inodes d' !! j = inodes d !! j).
  { intros m j Hm Hm' H. cbn. rewrite lookup_alter_ne; [done|]. intros ->. destruct (C BACKUP m j Hb H) as [_ [?|?]]; [congruence|done|done]. }
  split; [|split; [|done]].
  - split.
    + intros j x H. cbn in H. apply lookup_alter_Some in H as [(-> & y & H & _)|[_ H]]; eauto.
    + intros m j H. apply Hnames in H as [_ H]. cbn. apply lookup_alter_is_Some. eauto.
    + intros m m' j H H'. apply Hnames in H as [_ H], H' as [_ H']. eauto.
    + intros j x H Hx. rewrite Hdata in H. rewrite Hback, bool_decide_eq_false_2 by done. cbn in Hx.
      apply lookup_alter_Some in Hx as [(-> & y & Hy & ->)|[Hne Hy]]; destruct (D _ _ H Hy) as [D1 D2].
      * rewrite bool_decide_eq_true_2 in D2 by done. split; [done|]. cbn. lia.
      * split; [done|]. rewrite bool_decide_eq_false_2 in D2; [done|]. congruence.
    + intros j x H. congruence.
    + intros j x H Hx. apply Hnames in H as [Hm H]. rewrite (Hkeep LOCK j) in Hx by done. eauto.
  - unfold content, stat. rewrite Hdata. destruct (names d !! DATA) as [j|]; [|done]. cbn. destruct (decide (i = j)) as [->|].
    + rewrite lookup_alter_eq. by destruct (inodes d !! j).
    + by rewrite lookup_alter_ne.
Qed.

Lemma link_backup_sound d i : sound d -> names d !! DATA = Some i -> names d !! BACKUP = None ->
  let d' := with_inode i (add_links 1) (mkDirectory (<[BACKUP := i]> (names d)) (inodes d) (fresh d)) in
  sound d' /\ content d' = content d /\ names d' !! BACKUP = Some i /\ names d' !! DATA = Some i.
Proof.
  intros [A B C D E F] Hd Hb d'.
  assert (Hdata : names d' !! DATA = Some i) by (cbn; by rewrite lookup_insert_ne).
  assert (Hback : names d' !! BACKUP = Some i) by (cbn; apply lookup_insert_eq).
  assert (Hnames : forall m j, m <> BACKUP -> names d' !! m = Some j -> names d !! m = Some j) by (intros m j Hm H; cbn in H; by rewrite lookup_insert_ne in H).
  assert (Hkeep : forall m j, m <> DATA -> names d !! m = Some j -> inodes d' !! j = inodes d !! j).
  { intros m j Hm H. cbn. rewrite lookup_alter_ne; [done|]. intros ->. destruct (C DATA m j Hd H) as [_ [?|?]]; [congruence|done|congruence]. }
  assert (Hlink : forall x, inodes d' !! i = Some x -> secure_file uid x = true /\ i_nlink x = 2).
  { intros x Hx. cbn in Hx. apply lookup_alter_Some in Hx as [(_ & y & Hy & ->)|[? _]]; [|done]. destruct (D _ _ Hd Hy) as [D1 D2].
    rewrite bool_decide_eq_false_2 in D2 by congruence. split; [done|]. cbn. lia. }
  split; [|split; [|done]].
  - split.
    + intros j x H. cbn in H. apply lookup_alter_Some in H as [(-> & y & H & _)|[_ H]]; eauto.
    + intros m j H. cbn. apply lookup_alter_is_Some. destruct (decide (m = BACKUP)) as [->|]; [rewrite Hback in H; injection H as <-; eauto|eauto].
    + intros m m' j H H' Hne. destruct (decide (m = BACKUP)) as [->|Hm].
      * split; [by right|]. rewrite Hback in H. injection H as <-. apply (Hnames m') in H'; [|done].
        destruct (decide (m' = DATA)) as [->|]; [by left|]. by destruct (C m' DATA i H' Hd).
      * apply (Hnames m) in H; [|done]. destruct (decide (m' = BACKUP)) as [->|Hm'].
        -- split; [|by right]. rewrite Hback in H'. injection H' as <-. destruct (decide (m = DATA)) as [->|]; [by left|]. by destruct (C m DATA i H Hd).
        -- apply (Hnames m') in H'; [|done]. eauto.
    + intros j x H Hx. rewrite Hdata in H. injection H as <-. rewrite Hback, bool_decide_eq_true_2 by done. auto.
    + intros j x H Hx. rewrite Hback in H. injection H as <-. split; [by apply Hlink|]. exists i. split; [done|]. done.
    + intros j x H Hx. apply (Hnames LOCK) in H; [|done]. rewrite (Hkeep LOCK j) in Hx by done. eauto.
  - unfold content, stat. rewrite Hdata, Hd. cbn. rewrite lookup_alter_eq. by destruct (inodes d !! i).
Qed.

(** The new file takes the place of the old one. *)
Lemma rename_temp_sound d n k x : sound d -> ~ special n -> n <> LOCK -> names d !! n = Some k -> inodes d !! k = Some x ->
  secure_file uid x = true -> i_nlink x = 1 -> names d !! BACKUP = names d !! DATA ->
  let d0 := mkDirectory (<[DATA := k]> (delete n (names d))) (inodes d) (fresh d) in
  let d' := match names d !! DATA with Some j => with_inode j (add_links (-1)) d0 | None => d0 end in
  sound d' /\ content d' = Some (i_data x) /\ names d' !! BACKUP = names d !! DATA /\ names d' !! DATA = Some k /\ names d !! DATA <> Some k.
Proof.
  intros [A B C D E F] Hs Hl Hn Hk Hsec Hone Hbd d0 d'. assert (n <> DATA /\ n <> BACKUP) as [Hnd Hnb] by (unfold special in Hs; tauto).
  assert (Hnk : forall m, m <> n -> names d !! m <> Some k) by (intros m Hm H; by destruct (C n m k Hn H)).
  assert (Hpre : names d' = <[DATA := k]> (delete n (names d)) /\ fresh d' = fresh d) by (unfold d'; by destruct (names d !! DATA)).
  destruct Hpre as [Hpre Hfr].
  assert (Hdata : names d' !! DATA = Some k) by (rewrite Hpre; apply lookup_insert_eq).
  assert (Hback : names d' !! BACKUP = names d !! DATA) by (rewrite Hpre, lookup_insert_ne, lookup_delete_ne by done; done).
  assert (Hkk : inodes d' !! k = Some x).
  { unfold d'. destruct (names d !! DATA) as [j|] eqn:Ej; [|done]. cbn. rewrite lookup_alter_ne; [done|]. intros ->. by apply (Hnk DATA). }
  assert (Hnames : forall m j, m <> DATA -> names d' !! m = Some j -> m <> n /\ names d !! m = Some j).
  { intros m j Hm H. rewrite Hpre, lookup_insert_ne in H by done. apply lookup_delete_Some in H as [? ?]. done. }
  assert (Hex : forall j, is_Some (inodes d !! j) -> is_Some (inodes d' !! j)).
  { intros j Hj. unfold d'. destruct (names d !! DATA); [|done]. cbn. by apply lookup_alter_is_Some. }
  split; [|split; [|split; [done|split; [done|by apply (Hnk DATA)]]]].
  - split.
    + intros j y H. rewrite Hfr. assert (is_Some (inodes d !! j)) as [z Hz]; [|eauto]. unfold d' in H. destruct (names d !! DATA); [|by exists y].
      cbn in H. apply lookup_alter_Some in H as [(-> & z & H & _)|[_ H]]; eauto.
    + intros m j H. apply Hex. destruct (decide (m = DATA)) as [->|Hm]; [|apply Hnames in H as [_ H]; eauto]. rewrite Hdata in H. injection H as <-. eauto.
    + intros m m' j H H' Hne. destruct (decide (m = DATA)) as [->|Hm].
      * rewrite Hdata in H. injection H as <-. apply (Hnames m') in H' as [? H']; [|done]. by destruct (Hnk m').
      * apply (Hnames m) in H as [? H]; [|done]. destruct (decide (m' = DATA)) as [->|Hm'].
        -- rewrite Hdata in H'. injection H' as <-. by destruct (Hnk m).
        -- apply (Hnames m') in H' as [? H']; [|done]. eauto.
    + intros j y H Hy. rewrite Hdata in H. injection H as <-. rewrite Hkk in Hy. injection Hy as <-. split; [done|].
      rewrite Hback, bool_decide_eq_false_2; [done|]. by apply (Hnk DATA).
    + intros j y H Hy. rewrite Hback in H. unfold d' in Hy. rewrite H in Hy. cbn in Hy. rewrite lookup_alter_eq in Hy.
      destruct (inodes d !! j) as [z|] eqn:Hz; [|done]. injection Hy as <-. rewrite H in Hbd. destruct (D _ _ H Hz) as [D1 D2].
      rewrite bool_decide_eq_true_2 in D2 by done. split; [done|]. exists k. split; [done|]. intros _. cbn. lia.
    + intros j y H Hy. apply (Hnames LOCK) in H as [_ H]; [|done]. apply (F j y H). unfold d' in Hy. destruct (names d !! DATA) as [i|] eqn:Ei; [|done].
      cbn in Hy. rewrite lookup_alter_ne in Hy; [done|]. intros ->. destruct (C DATA LOCK j Ei H) as [_ [?|?]]; done.
  - unfold content, stat. rewrite Hdata. cbn. by rewrite Hkk.
Qed.

(** The rollback: the backup takes the place of the new file. *)
Lemma rename_backup_sound d j k : sound d -> names d !! BACKUP = Some j -> names d !! DATA = Some k -> k <> j ->
  let d' := with_inode k (add_links (-1)) (mkDirectory (<[DATA := j]> (delete BACKUP (names d))) (inodes d) (fresh d)) in
  sound d' /\ content d' = (x ← inodes d !! j; Some (i_data x)).
Proof.
  intros [A B C D E F] Hb Hd Hne d'.
  assert (Hdata : names d' !! DATA = Some j) by (cbn; apply lookup_insert_eq).
  assert (Hback : names d' !! BACKUP = None) by (cbn; rewrite lookup_insert_ne by done; apply lookup_delete_eq).
  assert (Hnames : forall m i, m <> DATA -> names d' !! m = Some i -> m <> BACKUP /\ names d !! m = Some i).
  { intros m i Hm H. cbn in H. rewrite lookup_insert_ne in H by done. apply lookup_delete_Some in H as [? ?]. done. }
  assert (Hj : inodes d' !! j = inodes d !! j) by (cbn; by rewrite lookup_alter_ne).
  split.
  - split.
    + intros i x H. cbn in H. apply lookup_alter_Some in H as [(-> & y & H & _)|[_ H]]; eauto.
    + intros m i H. cbn. apply lookup_alter_is_Some. destruct (decide (m = DATA)) as [->|Hm]; [rewrite Hdata in H; injection H as <-; eauto|].
      apply Hnames in H as [_ H]; eauto.
    + intros m m' i H H' Hmm. destruct (decide (m = DATA)) as [->|Hm].
      * rewrite Hdata in H. injection H as <-. apply (Hnames m') in H' as [? H']; [|done]. destruct (C BACKUP m' j Hb H') as [_ [?|?]]; [congruence|congruence|done].
      * apply (Hnames m) in H as [? H]; [|done]. destruct (decide (m' = DATA)) as [->|Hm'].
        -- rewrite Hdata in H'. injection H' as <-. destruct (C BACKUP m j Hb H) as [_ [?|?]]; [congruence|congruence|done].
        -- apply (Hnames m') in H' as [? H']; [|done]. eauto.
    + intros i x H Hx. rewrite Hdata in H. injection H as <-. rewrite Hj in Hx. destruct (E _ _ Hb Hx) as (E1 & k' & E2 & E3).
      rewrite Hback, bool_decide_eq_false_2 by done. split; [done|]. apply E3. congruence.
    + intros i x H. congruence.
    + intros i x H Hx. apply (Hnames LOCK) in H as [_ H]; [|done]. apply (F i x H). cbn in Hx. rewrite lookup_alter_ne in Hx; [done|].
      intros ->. destruct (C DATA LOCK i Hd H) as [_ [?|?]]; done.
  - unfold content, stat. rewrite Hdata. cbn [mbind option_bind]. rewrite Hj. by destruct (inodes d !! j).
Qed.

Lemma unlink_data_sound d i : sound d -> names d !! DATA = Some i -> names d !! BACKUP = None ->
  let d' := with_inode i (add_links (-1)) (mkDirectory (delete DATA (names d)) (inodes d) (fresh d)) in
  sound d' /\ content d' = None.
Proof.
  intros [A B C D E F] Hd Hb d'.
  assert (Hnames : forall m j, names d' !! m = Some j -> m <> DATA /\ names d !! m = Some j) by (intros m j H; cbn in H; apply lookup_delete_Some in H as [? ?]; done).
  assert (Hdata : names d' !! DATA = None) by (cbn; apply lookup_delete_eq).
  split.
  - split.
    + intros j x H. cbn in H. apply lookup_alter_Some in H as [(-> & y & H & _)|[_ H]]; eauto.
    + intros m j H. apply Hnames in H as [_ H]. cbn. apply lookup_alter_is_Some. eauto.
    + intros m m' j H H'. apply Hnames in H as [_ H], H' as [_ H']. eauto.
    + intros j x H. congruence.
    + intros j x H. apply Hnames in H as [_ H]. congruence.
    + intros j x H Hx. apply Hnames in H as [_ H]. apply (F j x H). cbn in Hx. rewrite lookup_alter_ne in Hx; [done|].
      intros ->. destruct (C DATA LOCK j Hd H) as [_ [?|?]]; done.
  - unfold content, stat. by rewrite Hdata.
Qed.

End Directory.
(** ** Reasoning about a run *)

Section Run.
Context (uid umask process thread : Z).
Hypothesis owner_bits : Z.ldiff 0x180 umask = 0x180.
(** Nothing fails and nobody dies. *)
Context (Quiet : Prop).

#[local] Abbreviation sound := (sound uid).

(** A call that fails does not claim that a file exists or does not. *)
Definition real (a : answer) : Prop := match a with Fails _ e => e <> ENOENT /\ e <> EEXIST | _ => True end.
Definition calm (w : world) : Prop := Forall real (answers w) /\ (Quiet -> answers w = []).

(** From [P], [m] ends in [Q], or dies in [C]. *)
Definition holds {A} (P : directory -> Prop) (m : M A) (Q : A -> directory -> Prop) (C : directory -> Prop) : Prop :=
  forall w, P (dir w) -> calm w ->
  match m w with
  | (Some a, w') => Q a (dir w') /\ calm w'
  | (None, w') => C (dir w') /\ ~ Quiet
  end.

Lemma holds_ret {A} (P : directory -> Prop) (a : A) Q C : (forall d, P d -> Q a d) -> holds P (ret a) Q C.
Proof. intros H w Hw Hq. split; auto. Qed.

Lemma holds_bind {A B} P (m : M A) (f : A -> M B) R Q C : holds P m R C -> (forall a, holds (R a) (f a) Q C) -> holds P (bind m f) Q C.
Proof.
  intros Hm Hf w Hw Hq. unfold bind. specialize (Hm w Hw Hq). destruct (m w) as [[a|] w']; [|done]. destruct Hm as [Ha Hq']. by apply Hf.
Qed.

Lemma holds_try {A B} P (m : M (Z + A)) (f : A -> M (Z + B)) R Q C : holds P m R C -> (forall e d, R (inl e) d -> Q (inl e) d) ->
  (forall a, holds (R (inr a)) (f a) Q C) -> holds P (bind_ok m f) Q C.
Proof. intros Hm He Hf. eapply holds_bind; [exact Hm|]. intros [e|a]; [|auto]. apply holds_ret. auto. Qed.

Lemma holds_weaken {A} (P P' : directory -> Prop) (m : M A) Q Q' (C C' : directory -> Prop) : holds P m Q C -> (forall d, P' d -> P d) ->
  (forall a d, Q a d -> Q' a d) -> (forall d, C d -> C' d) -> holds P' m Q' C'.
Proof. intros H HP HQ HC w Hw Hq. specialize (H w (HP _ Hw) Hq). destruct (m w) as [[a|] w']; destruct H; auto. Qed.

Lemma holds_pure {A} (X : Prop) P (m : M A) Q C : (forall d, P d -> X) -> (X -> holds P m Q C) -> holds P m Q C.
Proof. intros H1 H2 w Hw Hq. exact (H2 (H1 _ Hw) w Hw Hq). Qed.

Lemma holds_system_call {A} (P : directory -> Prop) part (work : directory -> Z + (A * directory)) Q (C : directory -> Prop) :
  (forall d, P d -> match work d with inl e => Q (inl e) d | inr (a, d') => Q (inr a) d' end) ->
  (forall d e k, P d -> e <> ENOENT -> e <> EEXIST -> ~ Quiet -> Q (inl e) (part k d)) -> (forall d k, P d -> C (part k d)) ->
  holds P (system_call part work) Q C.
Proof.
  intros Hw He Hc w HP [Hr Hq]. unfold system_call. specialize (Hw _ HP).
  assert (Hnq : answers w <> [] -> ~ Quiet) by (intros Hne q; by apply Hne, Hq).
  destruct (answers w) as [|a rest] eqn:Ea.
  { assert (calm w) by (unfold calm; by rewrite Ea). destruct (work (dir w)) as [e|[a d']]; cbn; done. }
  specialize (Hnq ltac:(done)). apply Forall_cons in Hr as [Ha Hr]. assert (Hrest : forall d, calm (mkWorld d rest)) by (intros d; split; [done|]; by intros).
  destruct a as [|k e|k]; cbn [dir answers].
  - destruct (work (dir w)) as [e|[a d']]; cbn; (split; [done|]); [exact (Hrest (dir w))|exact (Hrest d')].
  - destruct Ha. split; [by apply He|done].
  - split; [by apply Hc|done].
Qed.

Lemma holds_call {A} (P : directory -> Prop) (work : directory -> Z + (A * directory)) Q (C : directory -> Prop) :
  (forall d, P d -> match work d with inl e => Q (inl e) d | inr (a, d') => Q (inr a) d' end) ->
  (forall d e, P d -> e <> ENOENT -> e <> EEXIST -> ~ Quiet -> Q (inl e) d) -> (forall d, P d -> C d) -> holds P (call work) Q C.
Proof. intros H1 H2 H3. apply holds_system_call; auto. Qed.

Lemma holds_no_effect (P C : directory -> Prop) : (forall d, P d -> C d) ->
  holds P no_effect (fun r d => P d /\ forall e, r = inl e -> ~ Quiet) C.
Proof. intros HC. apply holds_call; auto. by intros d Hd; split. Qed.

(** ** The lock *)

Definition here (c : option cstring) (d : directory) : Prop := sound d /\ content d = c.

Lemma mode_secure x : i_kind x = Regular -> i_uid x = uid -> i_mode x = MODE_0600 -> secure_file uid x = true.
Proof. intros A B C. unfold secure_file. rewrite bool_decide_eq_true_2, B, C, Z.eqb_refl by done. done. Qed.

Lemma set_mode_keeps x : i_nlink (set_mode MODE_0600 x) = i_nlink x /\ (secure_file uid x = true -> secure_file uid (set_mode MODE_0600 x) = true).
Proof. split; [done|]. unfold secure_file. cbn. rewrite !andb_true_iff. tauto. Qed.
Lemma append_keeps t x : i_nlink (append_data t x) = i_nlink x /\ (secure_file uid x = true -> secure_file uid (append_data t x) = true).
Proof. done. Qed.

Lemma lock_not_special : ~ special LOCK.
Proof. by intros [H|H]. Qed.

Lemma create_lock c : holds (here c) (open_exclusive uid umask LOCK)
  (fun r d => here c d /\ match r with inr i => names d !! LOCK = Some i | inl e => Quiet -> e = EEXIST /\ is_Some (names d !! LOCK) end) (here c).
Proof.
  apply holds_call; [|by intros d e Hd _ _ Hq; split|done]. intros d [Hs Hc]. destruct (names d !! LOCK) as [i|] eqn:En.
  { split; [done|]. intros _. split; [done|eauto]. }
  destruct (create_sound uid d LOCK (mkInode Regular uid (Z.ldiff 0x180 umask) 1 []) Hs En lock_not_special) as (A & B & _).
  { intros _. split; [|done]. apply mode_secure; [done|done|]. exact owner_bits. }
  split; [split; [done|congruence]|]. cbn. apply lookup_insert_eq.
Qed.

Lemma chmod_here c n i : ~ special n ->
  holds (fun d => here c d /\ names d !! n = Some i) (fchmod i MODE_0600)
    (fun r d => (here c d /\ names d !! n = Some i) /\ forall e, r = inl e -> ~ Quiet) (here c).
Proof.
  intros Hs. apply holds_call; [|by intros d e Hd _ _ Hq; split|by intros d [? _]]. intros d [[Hd Hc] Hn].
  destruct (alter_sound uid d n i (set_mode MODE_0600) Hd Hn Hs set_mode_keeps) as [A B]. split; [|by intros e].
  split; [split; [exact A|exact (eq_trans B Hc)]|done].
Qed.

Lemma open_lock c : holds (here c) (secure_open_regular_at uid umask LOCK true) (fun r d => here c d /\ forall e, r = inl e -> ~ Quiet) (here c).
Proof.
  unfold secure_open_regular_at.
  apply (holds_bind _ _ _ (fun r d => here c d /\ match r with inl e => ~ Quiet | inr (Some i) => names d !! LOCK = Some i | inr None => Quiet -> is_Some (names d !! LOCK) end)).
  - eapply holds_bind; [apply create_lock|]. intros [e|i].
    + apply holds_ret. intros d [Hd He]. split; [done|]. destruct (Z.eqb_spec e EEXIST) as [->|Hne]; [by intros q; apply He|]. intros q. by destruct (He q).
    + eapply holds_bind; [apply (chmod_here c LOCK i lock_not_special)|]. intros [e|[]]; apply holds_ret; intros d [[Hd Hn] He]; split; [done|eauto|done|done].
  - intros [e|o]; [apply holds_ret; intros d [Hd He]; split; [done|]; by intros|].
    apply (holds_try _ _ _ (fun r d => here c d /\ match r with inl e => ~ Quiet | inr i => names d !! LOCK = Some i end)).
    + destruct o as [i|]; [apply holds_ret; done|]. apply holds_call; [|by intros d e [Hd _] _ _ Hq; split|by intros d [? _]]. intros d [[Hd Hc] Hn].
      unfold stat. destruct (names d !! LOCK) as [i|] eqn:En; [|split; [done|]; intros q; by destruct (Hn q)].
      destruct (so_exists _ _ Hd _ _ En) as [x Hx]. cbn. rewrite Hx. destruct (so_lock _ _ Hd _ _ En Hx) as [Hsec _].
      unfold secure_file in Hsec. rewrite !andb_true_iff in Hsec. destruct Hsec as [[Hk _] _]. apply bool_decide_eq_true in Hk. cbn. rewrite Hk. done.
    + intros e d [Hd He]. split; [done|]. by intros.
    + intros i. apply (holds_try _ _ _ (fun r d => here c d /\ match r with inl e => ~ Quiet | inr x => secure_file uid x = true /\ i_nlink x = 1 end)).
      * apply holds_call; [|by intros d e [Hd _] _ _ Hq; split|by intros d [? _]]. intros d [[Hd Hc] Hn]. destruct (so_exists _ _ Hd _ _ Hn) as [x Hx]. rewrite Hx.
        split; [done|]. by apply (so_lock _ _ Hd i).
      * intros e d [Hd He]. split; [done|]. by intros.
      * intros x. destruct (negb _) eqn:Eb; apply holds_ret; intros d [Hd [H1 H2]]; split; [done| |done|done].
        exfalso. by rewrite H1, H2 in Eb.
Qed.

(** ** Recovery and reading *)

Definition clean (c : option cstring) (d : directory) : Prop := here c d /\ names d !! BACKUP = None.

Lemma unlink_backup c P : (forall d, P d -> here c d) ->
  holds P (unlinkat BACKUP false) (fun r d => here c d /\ match r with inr _ => names d !! BACKUP = None | inl e => Quiet -> names d !! BACKUP = None end) (here c).
Proof.
  intros HP. apply holds_call; [|intros d e Hd _ _ Hq; split; [auto|by intros]|auto]. intros d Hd. destruct (HP d Hd) as [Hs Hc].
  unfold stat. destruct (names d !! BACKUP) as [i|] eqn:Eb; [|split; [by split|done]]. destruct (so_exists _ _ Hs _ _ Eb) as [x Hx]. cbn. rewrite Hx.
  destruct (so_backup _ _ Hs _ _ Eb Hx) as [Hsec _]. unfold secure_file in Hsec. rewrite !andb_true_iff in Hsec. destruct Hsec as [[Hk _] _].
  apply bool_decide_eq_true in Hk. cbn. rewrite Hk. cbn. destruct (unlink_backup_sound uid d i Hs Eb) as (A & B & C & _).
  split; [split; [exact A|exact (eq_trans B Hc)]|done].
Qed.

(** The same when there is one. *)
Lemma unlink_backup_found c i x : holds (fun d => here c d /\ names d !! BACKUP = Some i /\ inodes d !! i = Some x) (unlinkat BACKUP false)
  (fun r d => here c d /\ match r with inr _ => names d !! BACKUP = None | inl e => ~ Quiet end) (here c).
Proof.
  apply holds_call; [|by intros d e (Hd & _) _ _ Hq; split|by intros d [? _]]. intros d ([Hs Hc] & Eb & Hx). unfold stat. rewrite Eb. cbn. rewrite Hx.
  destruct (so_backup _ _ Hs _ _ Eb Hx) as [Hsec _]. unfold secure_file in Hsec. rewrite !andb_true_iff in Hsec. destruct Hsec as [[Hk _] _].
  apply bool_decide_eq_true in Hk. cbn. rewrite Hk. cbn. destruct (unlink_backup_sound uid d i Hs Eb) as (A & B & C & _).
  split; [split; [exact A|exact (eq_trans B Hc)]|done].
Qed.

Lemma recover_clean c : holds (here c) (recover_snapshot_backup uid) (fun r d => here c d /\ match r with inr _ => names d !! BACKUP = None | inl e => ~ Quiet end) (here c).
Proof.
  unfold recover_snapshot_backup.
  apply (holds_bind _ _ _ (fun r d => here c d /\ match r with inr (i, x) => names d !! BACKUP = Some i /\ inodes d !! i = Some x | inl e => if e =? ENOENT then names d !! BACKUP = None else ~ Quiet end)).
  { apply holds_call; [|by intros d e Hd He _ Hq; split; [|rewrite (proj2 (Z.eqb_neq _ _) He)]|done]. intros d [Hs Hc]. unfold stat. destruct (names d !! BACKUP) as [i|] eqn:Eb; [|by split].
    destruct (so_exists _ _ Hs _ _ Eb) as [x Hx]. cbn. rewrite Hx. done. }
  intros [e|[i x]].
  { apply holds_ret. intros d [Hd He]. split; [done|]. by destruct (e =? ENOENT). }
  apply (holds_bind _ _ _ (fun r d => here c d /\ names d !! BACKUP = Some i /\ inodes d !! i = Some x /\
    match r with inr (j, y) => legitimate uid (i, x) (j, y) = true | inl e => e <> ENOENT /\ ~ Quiet end)).
  { apply holds_call; [|by intros d e (Hd & Hb & Hx) He _ Hq|by intros d [? _]]. intros d ([Hs Hc] & Hb & Hx).
    destruct (so_backup _ _ Hs _ _ Hb Hx) as (Hsec & j & Hj & Hone). destruct (so_exists _ _ Hs _ _ Hj) as [y Hy].
    unfold stat. rewrite Hj. cbn. rewrite Hy. split; [done|]. split; [done|]. split; [done|].
    destruct (so_data _ _ Hs _ _ Hj Hy) as [Hsec' Hl]. unfold legitimate. cbn [fst snd]. rewrite Hsec, Hsec'. cbn [andb].
    rewrite Hb in Hl. destruct (Nat.eqb_spec i j) as [->|Hne]; cbn [negb andb orb].
    - rewrite Hx in Hy. injection Hy as <-. rewrite bool_decide_eq_true_2 in Hl by done. by rewrite Hl.
    - rewrite bool_decide_eq_false_2 in Hl by congruence. rewrite (Hone ltac:(done)), Hl. done. }
  intros [e|[j y]].
  { destruct (Z.eqb_spec e ENOENT) as [->|Hne]; [|apply holds_ret; intros d (Hd & _ & _ & _ & Hq); by split].
    intros w (_ & _ & _ & Hne & _). done. }
  destruct (legitimate uid (i, x) (j, y)) eqn:Hl.
  2:{ intros w (_ & _ & _ & Hne). done. }
  apply (holds_try _ _ _ (fun r d => here c d /\ match r with inr _ => names d !! BACKUP = None | inl e => ~ Quiet end)).
  - eapply holds_weaken; [apply (unlink_backup_found c i x)|by intros d (? & ? & ? & _)|done|done].
  - intros e d [Hd He]. by split.
  - intros []. eapply holds_weaken; [apply (holds_no_effect (clean c) (here c)); by intros d [? _]|by intros d [? ?]| |done].
    intros [e|[]] d [[Hd Hb] He]; split; [done|eauto|done|done].
Qed.

Definition too_long (c : option cstring) : Prop := exists t, c = Some t /\ PEAK_PARENT_MAX_SNAPSHOT < Z.of_nat (length t).

Lemma content_found c d i x : here c d -> names d !! DATA = Some i -> inodes d !! i = Some x -> c = Some (i_data x).
Proof. intros [_ <-] Hn Hx. unfold content, stat. rewrite Hn. cbn. by rewrite Hx. Qed.

Lemma open_data c : holds (clean c) (secure_open_regular_at uid umask DATA false)
  (fun r d => clean c d /\ match r with inr i => names d !! DATA = Some i | inl e => if e =? ENOENT then c = None else ~ Quiet end) (here c).
Proof.
  unfold secure_open_regular_at. apply (holds_bind _ _ _ (fun r d => clean c d /\ r = inr None)); [by apply holds_ret|].
  intros [e|o]; [by intros w [_ ?]|]. destruct o as [i|]; [by intros w [_ ?]|].
  apply (holds_try _ _ _ (fun r d => clean c d /\ match r with inr i => names d !! DATA = Some i | inl e => if e =? ENOENT then c = None else ~ Quiet end)).
  - apply holds_call; [|intros d e [Hd _] He _ Hq; by rewrite (proj2 (Z.eqb_neq _ _) He)|by intros d [[? _] _]]. intros d [[[Hs Hc] Hb] _].
    unfold stat. destruct (names d !! DATA) as [i|] eqn:En.
    + destruct (so_exists _ _ Hs _ _ En) as [x Hx]. cbn. rewrite Hx. destruct (so_data _ _ Hs _ _ En Hx) as [Hsec _].
      unfold secure_file in Hsec. rewrite !andb_true_iff in Hsec. destruct Hsec as [[Hk _] _]. apply bool_decide_eq_true in Hk. cbn. rewrite Hk. done.
    + split; [done|]. cbn. rewrite <- Hc. unfold content, stat. by rewrite En.
  - done.
  - intros i. apply (holds_try _ _ _ (fun r d => (clean c d /\ names d !! DATA = Some i) /\ match r with inl e => e <> ENOENT /\ ~ Quiet | inr x => secure_file uid x = true /\ i_nlink x = 1 end)).
    + apply holds_call; [|by intros d e Hd He _ Hq|by intros d [[? _] _]]. intros d [[[Hs Hc] Hb] Hn]. destruct (so_exists _ _ Hs _ _ Hn) as [x Hx]. rewrite Hx.
      split; [done|]. destruct (so_data _ _ Hs _ _ Hn Hx) as [A B]. rewrite Hb, bool_decide_eq_false_2 in B by done. done.
    + intros e d [[Hd _] [He Hq]]. by rewrite (proj2 (Z.eqb_neq _ _) He).
    + intros x. destruct (negb _) eqn:Eb; apply holds_ret; [intros d (_ & H1 & H2); by rewrite H1, H2 in Eb|]. by intros d [? _].
Qed.

Lemma read_clean c alloc : holds (clean c) (read_snapshot uid umask alloc)
  (fun r d => clean c d /\ match r with inr o => o = c | inl e => Quiet -> alloc = false \/ too_long c end) (here c).
Proof.
  unfold read_snapshot. eapply holds_bind; [apply open_data|]. intros [e|i].
  { apply holds_ret. intros d [Hd He]. split; [done|]. by destruct (e =? ENOENT). }
  destruct alloc; cbn [negb]; [|apply holds_ret; intros d [Hd _]; split; [done|]; by left].
  apply (holds_try _ _ _ (fun r d => clean c d /\ match r with inr x => c = Some (i_data x) | inl e => ~ Quiet end)).
  - apply holds_call; [|by intros d e [Hd _] _ _ Hq; split|by intros d [[? _] _]]. intros d [[[Hs Hc] Hb] Hn]. destruct (so_exists _ _ Hs _ _ Hn) as [x Hx]. rewrite Hx.
    split; [done|]. by apply (content_found c d i).
  - intros e d [Hd He]. by split.
  - intros x. destruct (Z.ltb_spec PEAK_PARENT_MAX_SNAPSHOT (Z.of_nat (length (i_data x)))); apply holds_ret; intros d [Hd ->]; split; try done.
    intros _. right. by exists (i_data x).
Qed.

(** ** The temporary file *)

Lemma temp_not_special k : ~ special (temp_name process thread k) /\ temp_name process thread k <> LOCK.
Proof.
  assert (Hp : take 18 (temp_name process thread k) = bytes ".parent-registry.t") by reflexivity.
  split; [intros [H|H]|intros H]; rewrite H in Hp; vm_compute in Hp; discriminate.
Qed.

(** The temporary file [n], inode [i], with the text [t]. *)
Definition temp (n : cstring) (i : nat) (P : inode -> Prop) (d : directory) : Prop :=
  names d !! n = Some i /\ exists x, inodes d !! i = Some x /\ i_kind x = Regular /\ i_uid x = uid /\ i_nlink x = 1 /\ P x.
Definition a_temp (n : cstring) : Prop := exists k, n = temp_name process thread k.

(** Every name for a temporary file is taken. *)
Definition crowded (names0 : gmap cstring nat) : Prop := forall k, (k < ATTEMPTS)%nat -> is_Some (names0 !! temp_name process thread k).

Lemma open_temp_clean c N todo attempt : (todo + attempt = ATTEMPTS)%nat -> (forall k, (k < attempt)%nat -> is_Some (N !! temp_name process thread k)) ->
  holds (fun d => clean c d /\ names d = N) (open_temp uid umask process thread todo attempt)
    (fun r d => clean c d /\ match r with inr (i, n) => a_temp n /\ temp n i (fun x => i_data x = []) d | inl e => Quiet -> crowded N end) (here c).
Proof.
  revert attempt. induction todo as [|todo IH]; intros attempt Hsum Hall; cbn [open_temp].
  { apply holds_ret. intros d [Hd Hn]. split; [done|]. intros _ k Hk. apply Hall. lia. }
  set (n := temp_name process thread attempt). destruct (temp_not_special attempt) as [Hs Hl]. fold n in Hs, Hl.
  apply (holds_bind _ _ _ (fun r d => clean c d /\ match r with
    | inr i => temp n i (fun x => i_data x = []) d | inl e => if e =? EEXIST then names d = N /\ is_Some (N !! n) else ~ Quiet end)).
  - apply holds_call; [|intros d e [Hd _] _ He Hq; by rewrite (proj2 (Z.eqb_neq _ _) He)|by intros d [[? _] _]]. intros d [[[Hd Hc] Hb] Hn].
    destruct (names d !! n) as [i|] eqn:En.
    { assert (is_Some (N !! n)) by (rewrite <- Hn, En; eauto). done. }
    destruct (create_sound uid d n (mkInode Regular uid (Z.ldiff 0x180 umask) 1 []) Hd En Hs ltac:(done)) as (A & B & C & _).
    split; [split; [split; [done|congruence]|congruence]|]. cbn. split; [apply lookup_insert_eq|]. eexists. split; [apply lookup_insert_eq|done].
  - intros [e|i]; [|apply holds_ret; intros d [Hd Ht]; split; [done|]; split; [by exists attempt|done]].
    destruct (Z.eqb_spec e EEXIST) as [->|Hne].
    + apply (holds_pure (is_Some (N !! n))); [by intros d (_ & _ & ?)|]. intros Hn.
      eapply holds_weaken; [apply (IH (S attempt)); [lia|]|by intros d (? & ? & _)|done|done]. intros k Hk.
      destruct (decide (k = attempt)) as [->|]; [done|apply Hall; lia].
    + apply holds_ret. intros d [Hd Hq]. by split.
Qed.

Lemma temp_alter c n i f (P P' : inode -> Prop) d : a_temp n -> clean c d -> temp n i P d ->
  (forall x, i_kind (f x) = i_kind x /\ i_uid (f x) = i_uid x) ->
  (forall x, i_nlink (f x) = i_nlink x /\ (secure_file uid x = true -> secure_file uid (f x) = true)) -> (forall x, P x -> P' (f x)) ->
  clean c (with_inode i f d) /\ temp n i P' (with_inode i f d).
Proof.
  intros [k ->] [[Hs Hc] Hb] (Hn & x & Hx & A & B & C & D) Hf Hf' HP. destruct (temp_not_special k) as [Hsp _].
  destruct (alter_sound uid d _ i f Hs Hn Hsp Hf') as [E F]. split; [split; [split; [done|congruence]|done]|].
  split; [done|]. exists (f x). cbn. rewrite lookup_alter_eq, Hx. destruct (Hf x) as [-> ->], (Hf' x) as [-> _]. split_and!; auto.
Qed.

Lemma temp_weaken n i (P P' : inode -> Prop) d : (forall x, P x -> P' x) -> temp n i P d -> temp n i P' d.
Proof. intros H (Hn & x & Hx & A & B & C & D). split; [done|]. exists x. split_and!; auto. Qed.

Definition private (t : cstring) (x : inode) : Prop := i_mode x = MODE_0600 /\ i_data x = t.
(** The state in which the temporary file is filled: complete, or a call failed. *)
Definition filled (c : option cstring) (n : cstring) (i : nat) (t : cstring) {A} (r : Z + A) (d : directory) : Prop :=
  clean c d /\ match r with inr _ => temp n i (private t) d | inl _ => temp n i (fun _ => True) d /\ ~ Quiet end.

Lemma write_clean c n i es t : a_temp n -> holds (fun d => clean c d /\ temp n i (private t) d) (write_entries i es) (filled c n i (t ++ file_text es)) (here c).
Proof.
  intros Hn. revert t. induction es as [|e es IH]; intros t; cbn [write_entries].
  { apply holds_ret. intros d. cbn. by rewrite app_nil_r. }
  assert (Hw : forall P k d, (forall x : inode, private t x -> P (append_data k x)) -> clean c d /\ temp n i (private t) d ->
    clean c (with_inode i (append_data k) d) /\ temp n i P (with_inode i (append_data k) d)).
  { intros P k d HP [Hd Ht]. eapply temp_alter; [done|done|exact Ht|done|apply append_keeps|done]. }
  apply (holds_try _ _ _ (filled c n i (t ++ entry_text e))).
  - apply holds_system_call.
    + intros d Hd. apply Hw; [|done]. intros x [? <-]. done.
    + intros d e' k Hd _ _ Hq. destruct (Hw (fun _ => True) (take k (entry_text e)) d ltac:(done) Hd). done.
    + intros d k Hd. by destruct (Hw (fun _ => True) (take k (entry_text e)) d ltac:(done) Hd) as [[? _] _].
  - done.
  - intros []. cbn [file_text map concat]. fold (file_text es). rewrite app_assoc. apply IH.
Qed.

Lemma fill_clean c n i es : a_temp n -> holds (fun d => clean c d /\ temp n i (fun x => i_data x = []) d) (fill_temp i es) (filled c n i (file_text es)) (here c).
Proof.
  intros Hn. unfold fill_temp. apply (holds_try _ _ _ (filled c n i [])).
  - apply holds_call; [|intros d e [Hd Ht] _ _ Hq; split; [done|]; split; [|done]; by eapply temp_weaken|by intros d [[? _] _]]. intros d [Hd Ht].
    eapply temp_alter; [done|done|exact Ht|done|apply set_mode_keeps|]. intros x Hx. by split.
  - done.
  - intros []. apply (holds_try _ _ _ (filled c n i (file_text es))); [apply (write_clean c n i es [] Hn)|done|]. intros [].
    assert (Hq : holds (filled c n i (file_text es) (inr ())) no_effect (filled c n i (file_text es)) (here c)).
    { eapply holds_weaken; [apply (holds_no_effect (filled c n i (file_text es) (inr ())) (here c)); by intros d [[? _] _]|done| |done].
      intros [e|[]] d [[Hd Ht] He]; split; [done| |done|done]. split; [by eapply temp_weaken|by apply (He e)]. }
    apply (holds_try _ _ _ (filled c n i (file_text es))); [done|done|]. intros []. done.
Qed.

(** The label [fail_temp] leaves what is registered alone. *)
Lemma fail_temp_here {A} c n i P e : a_temp n ->
  holds (fun d => here c d /\ temp n i P d) (fail_temp (A := A) n e) (fun r d => here c d /\ r = inl e) (here c).
Proof.
  intros [k ->]. destruct (temp_not_special k) as [Hs Hl]. unfold fail_temp. apply (holds_bind _ _ _ (fun _ d => here c d)); [|intros; by apply holds_ret].
  apply holds_call; [|by intros d e' [? _]|by intros d [? _]]. intros d [[Hd Hc] (Hn & x & Hx & Hk & _)]. unfold stat. rewrite Hn. cbn. rewrite Hx. cbn. rewrite Hk. cbn.
  destruct (unlink_sound uid d _ i Hd Hn Hs Hl) as (A' & B' & _). split; [exact A'|exact (eq_trans B' Hc)].
Qed.

(** ** Replacing the snapshot *)

Definition had (c : option cstring) : bool := bool_decide (is_Some c).

(** Ready to be renamed: the old file, if any, has the backup as its second name. *)
Definition linked (c : option cstring) (n : cstring) (i : nat) (t : cstring) {A} (r : Z + A) (d : directory) : Prop :=
  here c d /\ temp n i (private t) d /\ match r with inr _ => names d !! BACKUP = names d !! DATA | inl _ => ~ Quiet end.

Lemma data_absent c d : here c d -> c = None -> names d !! DATA = None.
Proof.
  intros [Hs Hc] ->. destruct (names d !! DATA) as [i|] eqn:En; [|done]. destruct (so_exists _ _ Hs _ _ En) as [x Hx].
  unfold content, stat in Hc. rewrite En in Hc. cbn in Hc. by rewrite Hx in Hc.
Qed.

Lemma link_clean c n i t : a_temp n -> holds (fun d => clean c d /\ temp n i (private t) d)
  (if had c then linkat DATA BACKUP else ret (inr tt)) (linked c n i t) (here c).
Proof.
  intros [k ->]. destruct (temp_not_special k) as [Hsp _]. unfold had. destruct c as [t0|]; cbn [bool_decide].
  - rewrite bool_decide_eq_true_2 by eauto.
    apply holds_call; [|by intros d e [[Hd _] Ht] _ _ Hq|by intros d [[? _] _]]. intros d [[[Hs Hc] Hb] Ht].
    destruct (names d !! DATA) as [j|] eqn:Ej; [|by unfold content, stat in Hc; rewrite Ej in Hc]. destruct (so_exists _ _ Hs _ _ Ej) as [y Hy].
    unfold stat. rewrite Ej. cbn [mbind option_bind]. rewrite Hy. cbn [mbind option_bind]. rewrite Hb. destruct (link_backup_sound uid d j Hs Ej Hb) as (A & B & C & D).
    destruct Ht as (Hn & x & Hx & X1 & X2 & X3 & X4). split; [split; [exact A|exact (eq_trans B Hc)]|]. split; [|by rewrite C, D].
    split; [cbn; rewrite lookup_insert_ne; [done|]; intros E; apply Hsp; right; done|]. exists x. split_and!; try done. cbn. rewrite lookup_alter_ne; [done|].
    intros ->. destruct (so_inj _ _ Hs _ _ _ Ej Hn) as [_ ?]; [|done]. intros E. apply Hsp. by left.
  - rewrite bool_decide_eq_false_2 by (by intros [? ?]). apply holds_ret. intros d [[Hd Hb] Ht]. split; [done|]. split; [done|].
    by rewrite Hb, (data_absent None d Hd).
Qed.

(** The new snapshot is in place; the old one is the backup. *)
Definition swapped (c : option cstring) (t : cstring) (d : directory) : Prop :=
  here (Some t) d /\ match c with
  | Some t0 => exists j k y, names d !! BACKUP = Some j /\ names d !! DATA = Some k /\ k <> j /\ inodes d !! j = Some y /\ i_data y = t0
  | None => names d !! BACKUP = None /\ is_Some (names d !! DATA)
  end.

Definition either (c : option cstring) (t : cstring) (d : directory) : Prop := here c d \/ here (Some t) d.

Lemma rename_swaps c n i t : a_temp n -> holds (linked c n i t (inr tt)) (renameat n DATA)
  (fun r d => match r with inr _ => swapped c t d | inl _ => here c d /\ temp n i (fun _ => True) d /\ ~ Quiet end) (either c t).
Proof.
  intros [k ->]. destruct (temp_not_special k) as [Hsp Hl].
  apply holds_call; [|intros d e (Hd & Ht & _) _ _ Hq; split_and!; [done|by eapply temp_weaken|done]|intros d (? & _); by left].
  intros d (Hd & (Hn & x & Hx & X1 & X2 & X3 & X4 & X5) & Hb). pose proof Hd as [Hs Hc]. rewrite Hn.
  destruct (rename_temp_sound uid d _ i x Hs Hsp Hl Hn Hx (mode_secure x X1 X2 X4) X3 Hb) as (A & B & C & D & E). rewrite X5 in B.
  destruct (names d !! DATA) as [j|] eqn:Ej.
  - destruct (Nat.eqb_spec j i) as [->|Hne]; [done|]. destruct (so_exists _ _ Hs _ _ Ej) as [y Hy].
    rewrite (content_found c d j y Hd Ej Hy). split; [by split|]. exists j, i, (add_links (-1) y). split_and!; try done.
    cbn. by rewrite lookup_alter_eq, Hy.
  - assert (c = None) as -> by (rewrite <- Hc; unfold content, stat; by rewrite Ej). split; [by split|]. split; [done|]. rewrite D. eauto.
Qed.

Lemma rollback_either c t : holds (fun d => swapped c t d /\ ~ Quiet) (rollback_snapshot (had c)) (fun _ d => either c t d /\ ~ Quiet) (either c t).
Proof.
  assert (Hne : holds (fun d => either c t d /\ ~ Quiet) no_effect (fun _ d => either c t d /\ ~ Quiet) (either c t)).
  { eapply holds_weaken; [apply (holds_no_effect (fun d => either c t d /\ ~ Quiet) (either c t)); by intros d [? _]|done|by intros r d [? _]|done]. }
  unfold rollback_snapshot, had. destruct c as [t0|].
  - rewrite bool_decide_eq_true_2 by eauto. apply (holds_try _ _ _ (fun _ d => either (Some t0) t d /\ ~ Quiet)); [|done|by intros []].
    apply holds_call; [|intros d e [[? _] ?] _ _ _; split; [by right|done]|intros d [[? _] _]; by right].
    intros d [[[Hs Hc] (j & k & y & Hb & Hd & Hkj & Hy & Ht)] Hq]. rewrite Hb, Hd. destruct (Nat.eqb_spec k j); [done|].
    destruct (rename_backup_sound uid d j k Hs Hb Hd Hkj) as [A B]. split; [left|done]. split; [exact A|]. etrans; [exact B|]. rewrite Hy. cbn. by rewrite Ht.
  - rewrite bool_decide_eq_false_2 by (by intros [? ?]). apply (holds_bind _ _ _ (fun _ d => either None t d /\ ~ Quiet)).
    + apply holds_call; [|intros d e [[? _] ?] _ _ _; split; [by right|done]|intros d [[? _] _]; by right].
      intros d [[[Hs Hc] [Hb [k Hd]]] Hq]. destruct (so_exists _ _ Hs _ _ Hd) as [x Hx]. unfold stat. rewrite Hd. cbn. rewrite Hx.
      destruct (so_data _ _ Hs _ _ Hd Hx) as [Hsec _]. unfold secure_file in Hsec. rewrite !andb_true_iff in Hsec. destruct Hsec as [[Hk _] _].
      apply bool_decide_eq_true in Hk. cbn. rewrite Hk. cbn. destruct (unlink_data_sound uid d k Hs Hd Hb) as [A B]. split; [left; by split|done].
    + intros [e|[]]; [|done]. destruct (e =? ENOENT); [done|]. apply holds_ret. done.
Qed.

Lemma unlink_maybe c c' (P : directory -> Prop) : (forall d, P d -> here c' d) ->
  holds P (if had c then unlinkat BACKUP false else ret (inr tt)) (fun _ d => here c' d) (here c').
Proof.
  intros HP. destruct (had c); [|by apply holds_ret]. eapply holds_weaken; [by apply (unlink_backup c' P)|done|by intros r d [? _]|done].
Qed.

Lemma install_either c N es : holds (fun d => clean c d /\ names d = N) (install_snapshot uid umask process thread es (had c))
  (fun r d => match r with inr _ => here (Some (file_text es)) d | inl _ => either c (file_text es) d /\ (Quiet -> crowded N) end) (either c (file_text es)).
Proof.
  set (t := file_text es). assert (Hl : forall d, here c d -> either c t d) by (intros d ?; by left).
  assert (Hr : forall d, here (Some t) d -> either c t d) by (intros d ?; by right).
  unfold install_snapshot.
  apply (holds_try _ _ _ (fun r d => clean c d /\ match r with inr (i, n) => a_temp n /\ temp n i (fun x => i_data x = []) d | inl e => Quiet -> crowded N end)).
  { eapply holds_weaken; [apply (open_temp_clean c N ATTEMPTS 0); [done|]|done|done|exact Hl]. intros k Hk. lia. }
  { intros e d [[Hd _] He]. by split; [left|]. }
  intros [i n]. apply (holds_pure (a_temp n)); [by intros d (_ & ? & _)|]. intros Hn.
  assert (Hfail : forall P e, holds (fun d => here c d /\ temp n i P d /\ ~ Quiet) (fail_temp n e)
    (fun (r : Z + unit) d => match r with inr _ => here (Some t) d | inl _ => either c t d /\ (Quiet -> crowded N) end) (either c t)).
  { intros P e. apply (holds_pure (~ Quiet)); [by intros d (_ & _ & ?)|]. intros Hq.
    eapply holds_weaken; [apply (fail_temp_here c n i P e Hn)|by intros d (? & ? & _)| |exact Hl]. intros r d [Hd ->]. split; [by left|done]. }
  apply (holds_bind _ _ _ (filled c n i t)).
  { eapply holds_weaken; [apply (fill_clean c n i es Hn)|by intros d (? & _ & ?)|done|exact Hl]. }
  intros [e|[]].
  { eapply holds_weaken; [apply (Hfail (fun _ => True) e)|by intros d [[? _] [? ?]]|done|done]. }
  apply (holds_bind _ _ _ (fun _ d => clean c d /\ temp n i (private t) d)).
  { apply holds_call; [|done|by intros d [[? _] _]; left]. intros d [[Hd Hb] Ht]. unfold stat. rewrite Hb. done. }
  intros _. apply (holds_bind _ _ _ (linked c n i t)).
  { eapply holds_weaken; [apply (link_clean c n i t Hn)|done|done|exact Hl]. }
  intros [e|[]].
  { eapply holds_weaken; [apply (Hfail (private t) e)|by intros d (? & ? & ?)|done|done]. }
  eapply holds_bind; [apply (rename_swaps c n i t Hn)|]. intros [e|[]].
  { apply (holds_pure (~ Quiet)); [by intros d (_ & _ & ?)|]. intros Hq. unfold had. destruct (bool_decide (is_Some c)) eqn:Hhad.
    - apply (holds_bind _ _ _ (fun _ d => here c d /\ temp n i (fun _ => True) d /\ ~ Quiet)).
      + apply holds_call; [|by intros d e' (? & ? & ?)|by intros d [? _]; left]. intros d ([Hs Hc] & Ht & Hq'). unfold stat.
        destruct (names d !! BACKUP) as [j|] eqn:Eb; [|by split_and!]. destruct (so_exists _ _ Hs _ _ Eb) as [y Hy]. cbn. rewrite Hy.
        destruct (so_backup _ _ Hs _ _ Eb Hy) as [Hsec _]. unfold secure_file in Hsec. rewrite !andb_true_iff in Hsec. destruct Hsec as [[Hk _] _].
        apply bool_decide_eq_true in Hk. cbn. rewrite Hk. cbn. destruct (unlink_backup_sound uid d j Hs Eb) as (A & B & _).
        split; [split; [exact A|exact (eq_trans B Hc)]|]. split; [|done]. destruct Hn as [k ->]. destruct (temp_not_special k) as [Hsp _].
        destruct Ht as (Hnn & x & Hx & X). split; [cbn; rewrite lookup_delete_ne; [done|]; intros E; apply Hsp; by right|]. exists x.
        split; [|done]. cbn. rewrite lookup_alter_ne; [done|]. intros ->. destruct (so_inj _ _ Hs _ _ _ Eb Hnn) as [_ ?]; [|done]. intros E. apply Hsp. by right.
      + intros _. apply Hfail.
    - apply (holds_bind _ _ _ (fun _ d => here c d /\ temp n i (fun _ => True) d /\ ~ Quiet)); [by apply holds_ret|]. intros _. apply Hfail. }
  apply (holds_bind _ _ _ (fun r d => swapped c t d /\ forall e, r = inl e -> ~ Quiet)); [apply holds_no_effect; by intros d [? _]; right|].
  intros [e|[]].
  - apply (holds_bind _ _ _ (fun _ d => either c t d /\ ~ Quiet)).
    { eapply holds_weaken; [apply (rollback_either c t)|intros d [? He]; split; [done|by apply (He e)]|done|done]. }
    intros [e'|[]]; apply holds_ret; intros d [Hd Hq]; by split.
  - apply (holds_bind _ _ _ (fun _ d => here (Some t) d)); [|intros _; by apply holds_ret].
    eapply holds_weaken; [apply (unlink_maybe c (Some t) (swapped c t)); by intros d [? _]|by intros d [? _]|done|exact Hr].
Qed.

(** ** Names that a run does not touch *)

Lemma holds_and {A} P P' (m : M A) Q Q' C C' : holds P m Q C -> holds P' m Q' C' ->
  holds (fun d => P d /\ P' d) m (fun a d => Q a d /\ Q' a d) (fun d => C d /\ C' d).
Proof. intros H H' w [Hw Hw'] Hq. specialize (H w Hw Hq). specialize (H' w Hw' Hq). destruct (m w) as [[a|] w']; destruct H, H'; done. Qed.

Section Frame.
Context (b : bool) (n : cstring) (n_temp : a_temp n).

(** The name is free, if [b] asks for it. *)
Definition free (d : directory) : Prop := b = true -> names d !! n = None.
Definition keeps_free {A} (m : M A) : Prop := holds free m (fun _ => free) (fun _ => True).

Lemma free_ret {A} (a : A) : keeps_free (ret a).
Proof. by apply holds_ret. Qed.
Lemma free_bind {A B} (m : M A) (f : A -> M B) : keeps_free m -> (forall a, keeps_free (f a)) -> keeps_free (bind m f).
Proof. intros H H'. eapply holds_bind; [exact H|exact H']. Qed.
Lemma free_try {A B} (m : M (Z + A)) (f : A -> M (Z + B)) : keeps_free m -> (forall a, keeps_free (f a)) -> keeps_free (bind_ok m f).
Proof. intros H H'. apply free_bind; [done|]. intros [e|a]; [apply free_ret|done]. Qed.
Lemma free_call {A} (work : directory -> Z + (A * directory)) : (forall d, free d -> match work d with inr (_, d') => free d' | _ => True end) -> keeps_free (call work).
Proof. intros H. apply holds_call; [|done|done]. intros d Hd. specialize (H d Hd). destruct (work d) as [e|[a d']]; done. Qed.

Lemma free_create m : m <> n -> keeps_free (open_exclusive uid umask m).
Proof. intros Hm. apply free_call. intros d Hd. destruct (names d !! m); [done|]. unfold free. cbn. by rewrite lookup_insert_ne by done. Qed.
Lemma free_open m writable : keeps_free (open_existing m writable).
Proof. apply free_call. intros d Hd. destruct (stat m d) as [[i x]|]; [|done]. by repeat case_match; simplify_eq. Qed.
Lemma free_fstat i : keeps_free (fstat i).
Proof. apply free_call. intros d Hd. by destruct (inodes d !! i). Qed.
Lemma free_fstatat m : keeps_free (fstatat m).
Proof. apply free_call. intros d Hd. by destruct (stat m d). Qed.
Lemma free_chmod i x : keeps_free (fchmod i x).
Proof. by apply free_call. Qed.
Lemma free_nothing : keeps_free no_effect.
Proof. by apply free_call. Qed.
Lemma free_unlink m rmdir : keeps_free (unlinkat m rmdir).
Proof.
  apply free_call. intros d Hd. destruct (stat m d) as [[i x]|]; [|done]. repeat case_match; simplify_eq; try done. unfold free. cbn.
  destruct (decide (m = n)) as [->|]; [intros _; apply lookup_delete_eq|by rewrite lookup_delete_ne].
Qed.

Lemma free_secure_open m create : m <> n -> keeps_free (secure_open_regular_at uid umask m create).
Proof.
  intros Hm. apply free_bind.
  - destruct create; [|apply free_ret]. apply free_bind; [by apply free_create|]. intros [e|i]; [apply free_ret|].
    apply free_bind; [apply free_chmod|]. intros; apply free_ret.
  - intros [e|o]; [apply free_ret|]. apply free_try; [destruct o; [apply free_ret|apply free_open]|]. intros i. apply free_try; [apply free_fstat|].
    intros x. destruct (negb _); apply free_ret.
Qed.

Lemma free_recover : keeps_free (recover_snapshot_backup uid).
Proof.
  assert (H : forall r, keeps_free (bind_ok (unlinkat BACKUP r) (fun _ => no_effect))) by (intros r; apply free_try; [apply free_unlink|intros; apply free_nothing]).
  apply free_bind; [apply free_fstatat|]. intros [e|k]; [apply free_ret|]. apply free_bind; [apply free_fstatat|].
  intros [e|x]; [destruct (e =? ENOENT); [apply H|apply free_ret]|]. destruct (legitimate uid k x); apply H.
Qed.

Lemma free_read alloc : keeps_free (read_snapshot uid umask alloc).
Proof.
  assert (DATA <> n) by (destruct n_temp as [k ->]; destruct (temp_not_special k) as [Hs _]; intros E; apply Hs; by left).
  apply free_bind; [by apply free_secure_open|]. intros [e|i]; [apply free_ret|]. destruct (negb alloc); [apply free_ret|].
  apply free_try; [apply free_fstat|]. intros x. destruct (_ <? _); apply free_ret.
Qed.

End Frame.

(** ** A run *)

Definition registered_in (d : directory) : list PeakParentEntry := match content d with Some t => registered t | None => [] end.
(** The entries after a registration: the live ones and this process. *)
Definition updates (v : view) (me : PeakParentEntry) (before after : list PeakParentEntry) : Prop :=
  NoDup after /\ forall e, e ∈ after <-> e = me \/ (e ∈ before /\ alive (proc v) e).
Definition identities (v : view) (me parent : PeakParentEntry) : Prop :=
  pid me = process /\ pid parent = parent_pid v /\ read_process_starttime (proc_self v process) = inr (starttime me) /\
  read_process_starttime (proc_self v (parent_pid v)) = inr (starttime parent).
(** Nothing stands in the way of a run that does not fail. *)
Definition able (v : view) (d : directory) : Prop :=
  (exists k, (k < ATTEMPTS)%nat /\ names d !! temp_name process thread k = None) /\ allocated v = true /\ ~ too_long (content d) /\
  exists me parent, identities v me parent /\ exists r, collect_live_entries (proc v) (can_grow v) (default [] (content d)) me parent = inr r.

Definition ended (v : view) (before : list PeakParentEntry) (d : directory) : Prop :=
  registered_in d = before \/ exists me parent, identities v me parent /\ updates v me before (registered_in d).

Lemma started_range text x : read_process_starttime text = inr x -> 0 <= x <= ULLONG_MAX.
Proof.
  unfold read_process_starttime. destruct text as [|t]; [done|]. destruct (_ || _); [done|]. destruct (_ ≫= _) as [token|]; [|done].
  pose proof (strtoull_range token) as Hr. destruct (strtoull token) as [[value k] er]. cbn [fst] in Hr. destruct (er || (k =? 0)%nat); [done|].
  destruct (drop k token) as [|c l]; [by intros [= <-]|]. destruct (c =? newline); [by intros [= <-]|done].
Qed.

(** The entries that a run computes, and the snapshot it installs. *)
Definition computed (v : view) (c : option cstring) (found : bool) (es : list PeakParentEntry) : Prop :=
  exists me parent, identities v me parent /\ collect_live_entries (proc v) (can_grow v) (default [] c) me parent = inr (es, found).
Definition settled (v : view) (c : option cstring) (d : directory) : Prop :=
  here c d \/ exists found es, computed v c found es /\ here (Some (file_text es)) d.

Section General.
Context (v : view) (c : option cstring) (F : directory -> Prop).
Hypothesis frame_lock : holds F (secure_open_regular_at uid umask LOCK true) (fun _ => F) (fun _ => True).
Hypothesis frame_nothing : holds F no_effect (fun _ => F) (fun _ => True).
Hypothesis frame_recover : holds F (recover_snapshot_backup uid) (fun _ => F) (fun _ => True).
Hypothesis frame_read : holds F (read_snapshot uid umask (allocated v)) (fun _ => F) (fun _ => True).

Definition obstacle : Prop := allocated v = false \/ too_long c \/ (forall found es, ~ computed v c found es) \/ exists d, F d /\ crowded (names d).

Lemma run_general : holds (fun d => here c d /\ F d) (check_parent_process_with_context uid umask process thread v)
  (fun r d => match r with
    | inr found => exists es, computed v c found es /\ here (Some (file_text es)) d
    | inl _ => settled v c d /\ (Quiet -> obstacle)
    end) (settled v c).
Proof.
  assert (Hl : forall d, here c d -> settled v c d) by (intros d ?; by left).
  unfold check_parent_process_with_context.
  eapply holds_try; [eapply holds_weaken; [apply (holds_and _ _ _ _ _ _ _ (open_lock c) frame_lock)|done|done|by intros d [? _]; auto]| |].
  { intros e d [[Hd He] _]. split; [auto|]. intros q. by destruct (He e). }
  intros i. eapply holds_try; [eapply holds_weaken; [apply (holds_and _ _ _ _ _ _ _ (holds_no_effect (here c) (here c) (fun d H => H)) frame_nothing)|by intros d [[? _] ?]|done|by intros d [? _]; auto]| |].
  { intros e d [[Hd He] _]. split; [auto|]. intros q. by destruct (He e). }
  intros []. eapply holds_try; [eapply holds_weaken; [apply (holds_and _ _ _ _ _ _ _ (recover_clean c) frame_recover)|by intros d [[? _] ?]|done|by intros d [? _]; auto]| |].
  { intros e d [[Hd He] _]. by split; [auto|]. }
  intros []. eapply holds_try; [eapply holds_weaken; [apply (holds_and _ _ _ _ _ _ _ (read_clean c (allocated v)) frame_read)|by intros d [[? ?] ?]|done|by intros d [? _]; auto]| |].
  { intros e d [[[Hd _] He] _]. split; [auto|]. intros q. destruct (He q); [by left|by right; left]. }
  intros snapshot. apply (holds_pure (snapshot = c)); [by intros d [[_ ?] _]|]. intros ->.
  assert (Hstop : forall e : Z, (forall found es, ~ computed v c found es) -> holds (fun d => (clean c d /\ c = c) /\ F d) (ret (inl e))
    (fun (r : Z + bool) d => match r with inr found => exists es, computed v c found es /\ here (Some (file_text es)) d | inl _ => settled v c d /\ (Quiet -> obstacle) end) (settled v c)).
  { intros e Hn. apply holds_ret. intros d [[[Hd _] _] _]. split; [auto|]. intros _. right. right. by left. }
  destruct (read_process_starttime (proc_self v process)) as [e|mine] eqn:Hm.
  { apply Hstop. intros f es (me & pa & (_ & _ & H & _) & _). congruence. }
  destruct (read_process_starttime (proc_self v (parent_pid v))) as [e|parents] eqn:Hp.
  { apply Hstop. intros f es (me & pa & (_ & _ & _ & H) & _). congruence. }
  destruct (collect_live_entries _ _ _ _ _) as [e|[es found]] eqn:Hc.
  { apply Hstop. intros f es ([p1 s1] & [p2 s2] & (H1 & H2 & H3 & H4) & H5). cbn in H1, H2, H3, H4. subst. rewrite Hm in H3. rewrite Hp in H4.
    injection H3 as ->. injection H4 as ->. congruence. }
  assert (Hcomp : computed v c found es) by (exists (mkEntry process mine), (mkEntry (parent_pid v) parents); by split).
  assert (Heither : forall d, either c (file_text es) d -> settled v c d) by (intros d [?|?]; [by left|right; eauto]).
  apply (holds_try _ _ _ (fun r d => match r with inr _ => here (Some (file_text es)) d | inl _ => settled v c d /\ (Quiet -> obstacle) end)); [|done|].
  - intros w [[[Hd Hb] _] HF] Hq. pose proof (install_either c (names (dir w)) es w ltac:(by split) Hq) as Hi. unfold had in Hi.
    destruct (install_snapshot uid umask process thread es (bool_decide (is_Some c)) w) as [[[e|[]]|] w'].
    + destruct Hi as [[Hi1 Hi2] Hi3]. split; [|done]. split; [auto|]. intros q. right. right. right. exists (dir w). auto.
    + done.
    + destruct Hi. split; auto.
  - intros []. apply holds_ret. intros d Hd. eauto.
Qed.

End General.

Lemma computed_updates v c found es d d' : 0 < process <= INT_MAX -> computed v c found es -> here c d -> here (Some (file_text es)) d' ->
  exists me parent, identities v me parent /\ updates v me (registered_in d) (registered_in d') /\
    (found = true <-> parent ∈ registered_in d /\ alive (proc v) parent).
Proof.
  intros Hp (me & parent & Hid & Hc) [_ Hd] [_ Hd']. pose proof Hid as (I1 & _ & I3 & _). apply started_range in I3.
  apply collect_spec in Hc as (A & B & C & D); [|split; [by rewrite I1|done]].
  assert (Hreg : registered (default [] c) = registered_in d) by (unfold registered_in; rewrite Hd; by destruct c).
  exists me, parent. split; [done|]. unfold registered_in at 2. rewrite Hd', registered_text by done. rewrite <- Hreg. by split.
Qed.

Lemma settled_ended v c d d' : 0 < process <= INT_MAX -> here c d -> settled v c d' -> sound d' /\ ended v (registered_in d) d'.
Proof.
  intros Hp Hd [Hd'|(found & es & Hc & Hd')].
  - destruct Hd as [_ Hc], Hd' as [Hs Hc']. split; [done|]. left. unfold registered_in. by rewrite Hc, Hc'.
  - destruct (computed_updates v c found es d d' Hp Hc Hd Hd') as (me & parent & A & B & _). destruct Hd' as [Hs _]. split; [done|]. right. eauto.
Qed.

End Run.

(** ** Runs one after the other *)

(** A process that registers; the lock lets one in at a time. *)
Record run := mkRun { r_process : Z; r_thread : Z; r_view : view; r_answers : list answer }.
Definition valid_run (r : run) : Prop := 0 < r_process r <= INT_MAX /\ Forall real (r_answers r).
Definition performs (uid umask : Z) (r : run) (d : directory) : option (Z + bool) * directory :=
  let '(x, w) := check_parent_process_with_context uid umask (r_process r) (r_thread r) (r_view r) (mkWorld d (r_answers r)) in (x, dir w).

Definition empty_directory : directory := mkDirectory ∅ ∅ 0.
Inductive reachable (uid umask : Z) : directory -> Prop :=
| reach_empty : reachable uid umask empty_directory
| reach_run d r : reachable uid umask d -> valid_run r -> reachable uid umask (performs uid umask r d).2.

Section History.
Context (uid umask : Z).
Hypothesis owner_bits : Z.ldiff 0x180 umask = 0x180.

Lemma run_framed b k v c w : here uid c (dir w) -> Forall real (answers w) -> forall (process thread : Z),
  free b (temp_name process thread k) (dir w) ->
  match check_parent_process_with_context uid umask process thread v w with
  | (Some (inr found), w') => exists es, computed process v c found es /\ here uid (Some (file_text es)) (dir w')
  | (Some (inl _), w') => settled uid process v c (dir w') /\ (answers w = [] -> obstacle process thread v c (free b (temp_name process thread k)))
  | (None, w') => settled uid process v c (dir w')
  end.
Proof.
  intros Hd Hr process thread Hf.
  assert (Ht : a_temp process thread (temp_name process thread k)) by (by exists k).
  assert (LOCK <> temp_name process thread k) by (destruct (temp_not_special process thread k) as [_ ?]; done).
  pose proof (run_general uid umask process thread owner_bits (answers w = []) v c (free b (temp_name process thread k))
    ltac:(by eapply free_secure_open) ltac:(eapply free_nothing) ltac:(eapply free_recover) ltac:(by eapply free_read) w) as H'.
  specialize (H' ltac:(by split) ltac:(by split)).
  destruct (check_parent_process_with_context uid umask process thread v w) as [[[e|found]|] w']; by destruct H'.
Qed.

Lemma performs_ends d r : sound uid d -> valid_run r ->
  match performs uid umask r d with
  | (Some (inr found), d') => sound uid d' /\ exists me parent, identities (r_process r) (r_view r) me parent /\
      updates (r_view r) me (registered_in d) (registered_in d') /\ (found = true <-> parent ∈ registered_in d /\ alive (proc (r_view r)) parent)
  | (_, d') => sound uid d' /\ ended (r_process r) (r_view r) (registered_in d) d'
  end.
Proof.
  intros Hs [Hp Hr]. assert (Hd : here uid (content d) d) by done. unfold performs.
  pose proof (run_framed false 0 (r_view r) (content d) (mkWorld d (r_answers r)) Hd Hr (r_process r) (r_thread r) ltac:(done)) as H.
  destruct (check_parent_process_with_context _ _ _ _ _ _) as [[[e|found]|] w'].
  - destruct H as [H _]. by eapply settled_ended.
  - destruct H as (es & Hc & Hw). split; [by destruct Hw|]. by eapply computed_updates.
  - by eapply settled_ended.
Qed.

Lemma reachable_sound d : reachable uid umask d -> sound uid d.
Proof.
  induction 1 as [|d r Hd IH Hr]; [split; intros; cbn in *; by rewrite lookup_empty in *|].
  pose proof (performs_ends d r IH Hr) as H. destruct (performs uid umask r d) as [[[e|f]|] d']; by destruct H.
Qed.

(** C20: processes register one after the other; system calls fail at any place
    and processes die at any place, with temporary files half written and
    backups left behind.  Still every successful check answers whether the
    parent, with its start time, was registered and alive, and leaves exactly
    the live entries and this process, each once; a check that fails or dies
    leaves the entries as they were or registers the process as if it had
    succeeded. *)
Theorem registry_crash_safe d r : reachable uid umask d -> valid_run r ->
  match performs uid umask r d with
  | (Some (inr found), d') => exists me parent, identities (r_process r) (r_view r) me parent /\
      updates (r_view r) me (registered_in d) (registered_in d') /\ (found = true <-> parent ∈ registered_in d /\ alive (proc (r_view r)) parent)
  | (_, d') => ended (r_process r) (r_view r) (registered_in d) d'
  end.
Proof.
  intros Hd Hr. pose proof (performs_ends d r (reachable_sound d Hd) Hr) as H. destruct (performs uid umask r d) as [[[e|f]|] d']; by destruct H.
Qed.

(** C21: whatever earlier processes left behind, a process whose own calls do
    not fail succeeds: the lock and the data file are still private files with
    one name, a backup is removed, and the answer is given; only a lack of
    memory, a file over the limit, /proc it cannot read or 128 temporary files
    of its own name can prevent it. *)
Theorem registry_recovers d r : reachable uid umask d -> valid_run r -> r_answers r = [] -> able (r_process r) (r_thread r) (r_view r) d ->
  exists found, (performs uid umask r d).1 = Some (inr found).
Proof.
  intros Hd [Hp Hr] Hq ((k & Hk & Hfree) & Halloc & Hlong & me & parent & Hid & [es f] & Hc). pose proof (reachable_sound d Hd) as Hs.
  assert (Hd' : here uid (content d) d) by done. unfold performs. rewrite Hq in *.
  pose proof (run_framed true k (r_view r) (content d) (mkWorld d []) Hd' Hr (r_process r) (r_thread r) (fun _ => Hfree)) as H.
  pose proof (run_general uid umask (r_process r) (r_thread r) owner_bits True (r_view r) (content d) (free true (temp_name (r_process r) (r_thread r) k))) as HG.
  assert (LOCK <> temp_name (r_process r) (r_thread r) k) by (destruct (temp_not_special (r_process r) (r_thread r) k) as [_ ?]; done).
  specialize (HG ltac:(by eapply free_secure_open) ltac:(eapply free_nothing) ltac:(eapply free_recover) ltac:(eapply free_read; by exists k) (mkWorld d []) (conj Hd' (fun _ => Hfree)) (conj (Forall_nil_2 _) (fun _ => eq_refl))).
  destruct (check_parent_process_with_context _ _ _ _ _ _) as [[[e|found]|] w']; [|by exists found|by destruct HG as [_ []]].
  exfalso. destruct H as [_ H]. destruct (H eq_refl) as [?|[?|[Hn|(d1 & Hf1 & Hcr)]]]; [congruence|done| |].
  - apply (Hn f es). exists me, parent. done.
  - destruct (Hcr k Hk) as [i Hi]. specialize (Hf1 eq_refl). congruence.
Qed.

End History.

(** ** A process that dies and its child *)

Definition demo_stat (comm start : string) : cstring := bytes "7 (" ++ bytes comm ++ bytes ") S 1 7 7 0 -1 41 1 2 3 4 5 6 7 8 20 0 1 0 " ++ bytes start ++ bytes " 9".
Definition demo_proc (p : Z) : Z + cstring :=
  if p =? 1 then inr (demo_stat "init" "2") else if p =? 100 then inr (demo_stat "a) (b" "777") else if p =? 200 then inr (demo_stat "c" "888") else inl ENOENT.
(** The first process is killed when its snapshot is in place, before [fsync]. *)
Definition demo_first : run := mkRun 100 100 (mkView 1 demo_proc demo_proc true (fun _ => true)) (replicate 13 Works ++ [Dies 0]).
Definition demo_child : run := mkRun 200 201 (mkView 100 demo_proc demo_proc true (fun _ => true)) [].
Definition demo_left : directory := (performs 1000 0x12 demo_first empty_directory).2.

Lemma demo_left_reachable : reachable 1000 0x12 demo_left.
Proof. apply reach_run; [apply reach_empty|]. split; [done|]. by repeat constructor. Qed.

Lemma registry_crash_safe_witness : exists me parent, identities 200 (r_view demo_child) me parent /\ parent ∈ registered_in demo_left.
Proof.
  pose proof (registry_crash_safe 1000 0x12 ltac:(reflexivity) demo_left demo_child demo_left_reachable ltac:(split; [done|apply Forall_nil_2])) as H.
  assert (E : (performs 1000 0x12 demo_child demo_left).1 = Some (inr true)) by (vm_compute; reflexivity).
  destruct (performs 1000 0x12 demo_child demo_left) as [x d']. cbn [fst] in E. subst x.
  destruct H as (me & parent & A & _ & B). exists me, parent. split; [exact A|]. by apply B.
Defined.

Lemma registry_recovers_witness : exists found, (performs 1000 0x12 demo_child demo_left).1 = Some (inr found).
Proof.
  apply (registry_recovers 1000 0x12 ltac:(reflexivity) demo_left demo_child demo_left_reachable); [split; [done|apply Forall_nil_2]|reflexivity|].
  split; [exists 0%nat; split; [apply Nat.ltb_lt; reflexivity|vm_compute; reflexivity]|]. split; [reflexivity|]. split.
  - intros (t & H & Hl). assert (Hc : content demo_left = Some (bytes "100 777" ++ [newline])) by (vm_compute; reflexivity). rewrite H in Hc. injection Hc as ->.
    vm_compute in Hl. discriminate.
  - exists (mkEntry 200 888), (mkEntry 100 777). split; [split_and!; vm_compute; reflexivity|]. eexists. vm_compute. reflexivity.
Defined.

End RegistryCrash.
