(* ===== verification/ProcessFilter.v ===== *)
(** * Which processes are profiled

    [src/utils/process_filter.c]: launchers, schedulers and shell tools that
    inherit the preloaded library are recognised by name and left alone; the
    decision is made once per process, by whichever thread comes first. *)

From Stdlib Require Import String.
From S2P Require Import Prelude TargetSelector EnvParser ExecMemory ExecEnv RuntimeConfig ParentRegistry.
Import Config Registry.

Module Filter.

(** ** Commands *)

Definition check_list : list string :=
  ["peak_detach_helper"; "ibrun"; "mpirun"; "mpiexec"; "mpiexec.hydra"; "mpirun_rsh"; "prterun"; "prted"; "orterun"; "orted";
    "prun"; "srun"; "jsrun"; "aprun"; "hydra_bstrap_proxy"; "hydra_pmi_proxy"; "pmi_proxy"; "pmi2_proxy"; "pmix_server";
    "pmix_proxy"; "tau_exec"; "mpiexec_mpt"; "oshrun"; "shmemrun"; "mpd"; "mpdboot"; "mpdallexit"; "mpdtrace"; "salloc";
    "sbatch"; "squeue"; "scancel"; "sinfo"; "scontrol"; "sreport"; "sacct"; "bsub"; "bjobs"; "bkill"; "qsub"; "qstat"; "qdel";
    "qhold"; "qalter"; "lscpu"; "hostname"; "numactl"; "sh"; "bash"; "lmod"; "ml"; "modulecmd"; "env"; "timeout"; "time"; "awk";
    "sed"; "grep"; "ls"; "cat"; "rm"; "cp"; "mv"; "ln"; "chmod"; "chown"; "find"; "pwd"; "echo"; "whoami"; "date"; "mkdir";
    "mktemp"; "rmdir"; "df"; "du"; "top"; "ps"; "kill"; "uname"; "ifconfig"; "ping"; "curl"; "wget"; "scp"; "rsync"; "zip";
    "unzip"; "tar"; "gzip"; "gunzip"; "sort"; "uniq"; "head"; "tail"; "tee"; "cut"; "tr"; "wc"; "diff"; "patch"; "make"; "node";
    "npm"; "git"; "ssh"; "sftp"; "bc"; "which"; "seq"; "stty"; "tty"; "tput"; "clear"; "basename"; "dirname"; "readlink";
    "realpath"; "xargs"; "expr"; "test"; "["; "true"; "false"]%string.

Definition get_base_name (path : cstring) : cstring := default path (after_last (ch "/") path).

(** [strcasecmp] with one of four words. *)
Definition peak_env_truthy (value : option cstring) : bool := peak_general_listener_env_value_truthy value.

Definition is_word (w : string) (s : cstring) : bool := bool_decide (s = bytes w).

Definition starts_with (s : cstring) (prefix : cstring) : bool := bool_decide (take (length prefix) s = prefix).

Definition is_versioned_command (command : cstring) (prefix : string) : bool :=
  starts_with command (bytes prefix) &&
  match drop (length (bytes prefix)) command with [] => true | c :: _ => isdigit c end.

Definition check_interpreter_command (command : option cstring) : bool :=
  match command with
  | None => false
  | Some command =>
      let base_name := get_base_name command in
      is_versioned_command base_name "lua" || is_word "luajit" base_name || is_versioned_command base_name "python" ||
      is_versioned_command base_name "perl" || is_versioned_command base_name "tclsh"
  end.

Definition peak_command_is_jit_runtime (command : option cstring) : bool :=
  match command with None => false | Some command => is_word "node" (get_base_name command) || is_word "nodejs" (get_base_name command) end.

(** [strstr(s, needle) != NULL]. *)
Fixpoint contains (s needle : cstring) : bool :=
  starts_with s needle || match s with [] => false | _ :: s => contains s needle end.
Definition arg_looks_like_module_helper (arg : cstring) : bool :=
  existsb (fun w => contains arg (bytes w)) ["lmod"; "Lmod"; "modulecmd"; "/Modules/"]%string.

Definition check_command (str : option cstring) : bool :=
  match str with None => false | Some s => existsb (fun w => is_word w (get_base_name s)) check_list end.

(** The arguments up to [argc] or the first NULL. *)
Definition check_module_helper_command (argv : list cstring) : bool :=
  match argv with [] => false | command :: _ => check_interpreter_command (Some command) && existsb arg_looks_like_module_helper argv end.

Section Environment.
Context (getenv : string -> option cstring).

Definition peak_should_profile_command (argv : list cstring) : bool :=
  match argv with
  | [] => false
  | command :: _ =>
      if check_interpreter_command (Some command) then peak_env_truthy (getenv "PEAK_PROFILE_INTERPRETERS")
      else if negb (check_command (Some command)) then true
      else peak_env_truthy (getenv "PEAK_JIT_ENABLE") && peak_command_is_jit_runtime (Some command)
  end.

Definition peak_env_nonempty (name : string) : bool := set_nonempty getenv name.

(** The expression of [peak_process_requests_work]. *)
Definition work_requested : bool :=
  peak_env_nonempty "PEAK_TARGET" || peak_env_nonempty "PEAK_TARGET_FILE" || peak_env_nonempty "PEAK_TARGET_GROUP" ||
  peak_env_nonempty "PEAK_GPU_TARGET" || peak_env_nonempty "PEAK_GPU_TARGET_FILE" || peak_env_truthy (getenv "PEAK_GPU_MONITOR_ALL") ||
  peak_env_truthy (getenv "PEAK_MEMORY_PROFILE") || peak_env_truthy (getenv "PEAK_JIT_ENABLE").

(** ** /proc *)

Definition CMDLINE_BUFFER : nat := 4096.
Definition CMDLINE_ARGS : nat := 127.

(** [None]: the decision is unknown. *)
Definition peak_process_profile_from_proc_cmdline (cmdline : option cstring) : option bool :=
  match cmdline with
  | None | Some [] => None
  | Some text =>
      match take CMDLINE_ARGS (strtok_all 0 (take (CMDLINE_BUFFER - 1) text)) with
      | [] => None
      | argv => Some (peak_should_profile_command argv)
      end
  end.

Definition peak_process_profile_from_proc_exe (exe : option cstring) : option bool :=
  match exe with
  | None | Some [] => None
  | Some text => Some (peak_should_profile_command [take (CMDLINE_BUFFER - 1) text])
  end.

(** The value that [peak_process_profile_enabled] computes. *)
Definition profile_decision (cmdline exe : option cstring) : bool :=
  match peak_process_profile_from_proc_cmdline cmdline with
  | Some enabled => enabled
  | None => default true (peak_process_profile_from_proc_exe exe)
  end.

End Environment.

Definition ARGV0_BUFFER : nat := 1024.
(** The text at the pointer; the last character that was read makes room for the terminator. *)
Definition get_argv0 (cmdline : option cstring) : cstring :=
  match cmdline with
  | None | Some [] => bytes "null"
  | Some text => cut_nul (take (length (take ARGV0_BUFFER text) - 1) text)
  end.

(** ** The cache *)

(** [peak_process_profile_enabled] and [peak_process_requests_work] in the
    threads of the process: a load, the computation of what the thread sees,
    an exchange with the unknown value; and the two setters. *)
Inductive thread := Before | Computed (value : bool) | Returned (value : bool).
Record cache := mkCache { cell : option bool; threads : nat -> thread }.
Definition set_thread (t : nat) (s : thread) (c : cache) : cache := mkCache (cell c) (fun u => if (u =? t)%nat then s else threads c u).

(** The load; with the value the thread computes when the cache is unknown. *)
Definition cache_load (t : nat) (computes : bool) (c : cache) : cache :=
  match cell c with Some cached => set_thread t (Returned cached) c | None => set_thread t (Computed computes) c end.
Definition cache_exchange (t : nat) (v : bool) (c : cache) : cache :=
  match cell c with
  | None => set_thread t (Returned v) (mkCache (Some v) (threads c))
  | Some expected => set_thread t (Returned expected) c
  end.
Definition cache_set (enabled : bool) (c : cache) : cache := mkCache (Some enabled) (threads c).

Inductive step : cache -> cache -> Prop :=
| step_load c t v : threads c t = Before -> step c (cache_load t v c)
| step_exchange c t v : threads c t = Computed v -> step c (cache_exchange t v c).
Inductive steps : cache -> cache -> Prop :=
| steps_refl c : steps c c
| steps_next c c' c'' : step c c' -> steps c' c'' -> steps c c''.

Definition unknown : cache := mkCache None (fun _ => Before).

Definition agrees (c : cache) : Prop := forall t v, threads c t = Returned v -> cell c = Some v.

Lemma set_thread_agrees t x c : agrees c -> (forall v, x = Returned v -> cell c = Some v) -> agrees (set_thread t x c).
Proof. intros H Hx u v. cbn. destruct (u =? t)%nat; [apply Hx|apply H]. Qed.

Lemma step_agrees c c' : agrees c -> step c c' -> agrees c' /\ forall v, cell c = Some v -> cell c' = Some v.
Proof.
  intros H Hs. destruct Hs as [c t v Ht|c t v Ht].
  - unfold cache_load. destruct (cell c) as [x|] eqn:Ec; (split; [apply set_thread_agrees; [done|]|by cbn; rewrite Ec]); [|done]. by intros y [= <-].
  - unfold cache_exchange. destruct (cell c) as [x|] eqn:Ec.
    + split; [|by cbn; rewrite Ec]. apply set_thread_agrees; [done|]. by intros y [= <-].
    + split; [|done]. apply set_thread_agrees; [|by intros y [= <-]]. intros u y E. specialize (H _ _ E). by rewrite Ec in H.
Qed.

Lemma steps_agree c c' : agrees c -> steps c c' -> agrees c' /\ forall v, cell c = Some v -> cell c' = Some v.
Proof.
  intros H Hs. induction Hs as [c|c c' c'' Hs Hss IH]; [done|]. destruct (step_agrees _ _ H Hs) as [A B]. destruct (IH A) as [A' B']. split; auto.
Qed.

(** however the threads of a process interleave, and whatever each of them
    sees of the environment and of /proc, all calls that return give the same
    decision, also those that return much later: a process is profiled or it
    is not. *)
Theorem decision_made_once c c' t u v v' : steps unknown c -> steps c c' -> threads c t = Returned v -> threads c' u = Returned v' -> v = v'.
Proof.
  intros H1 H2 Ht Hu. destruct (steps_agree unknown c ltac:(done) H1) as [A _]. destruct (steps_agree c c' A H2) as [A' B].
  pose proof (B _ (A _ _ Ht)) as E. rewrite (A' _ _ Hu) in E. by injection E.
Qed.

Definition demo1 : cache := cache_load 1 true unknown.
Definition demo2 : cache := cache_load 2 false demo1.
Definition demo3 : cache := cache_exchange 2 false demo2.
Definition demo4 : cache := cache_exchange 1 true demo3.

Lemma decision_made_once_witness : threads demo3 2 = Returned false /\ forall v, threads demo4 1 = Returned v -> false = v.
Proof.
  split; [reflexivity|]. intros v. apply (decision_made_once demo3 demo4 2 1 false v).
  - apply (steps_next _ demo1); [by apply step_load|]. apply (steps_next _ demo2); [by apply step_load|].
    apply (steps_next _ demo3); [by apply step_exchange|]. apply steps_refl.
  - apply (steps_next _ demo4); [by apply step_exchange|]. apply steps_refl.
  - reflexivity.
Defined.

End Filter.
