(* ===== verification/GumPrologue.v ===== *)
(** * Entries of functions that Gum must not patch

    [src/unsafe_gum_prologue.c] and [src/general_listener/attach_policy.c]: a
    target is attached to only when the five bytes that Gum writes do not run
    over its first return and when its first instructions survive relocation;
    tail jumps and calls through a PLT get a plan of their own.  Code is read
    as the bytes that follow an address. *)

From Stdlib Require Import String.
From S2P Require Import Prelude TargetSelector EnvParser ExecMemory ExecEnv RuntimeConfig.
Import Config.

Module Prologue.

(** The byte at a distance from the address. *)
Definition code := nat -> Z.
Definition advance (n : nat) (c : code) : code := fun k => c (n + k)%nat.
Definition one_of (l : list Z) (b : Z) : bool := existsb (fun x => b =? x) l.
Definition between (a b x : Z) : bool := (a <=? x) && (x <=? b).
(** The bytes from an offset on are these. *)
Fixpoint is_at (c : code) (k : nat) (l : list Z) : bool := match l with [] => true | b :: l => (c k =? b) && is_at c (S k) l end.

(** ** The policy *)

Inductive PeakUnsafeGumProloguePolicy := PEAK_UNSAFE_GUM_PROLOGUE_POLICY_DEFAULT | PEAK_UNSAFE_GUM_PROLOGUE_POLICY_CONSERVATIVE.

(** With the flag [*valid_out]. *)
Definition peak_unsafe_gum_prologue_policy_from_env (value : option cstring) : PeakUnsafeGumProloguePolicy * bool :=
  match value with
  | None | Some [] => (PEAK_UNSAFE_GUM_PROLOGUE_POLICY_DEFAULT, true)
  | _ =>
      if existsb (peak_general_listener_ascii_equal_ci value) ["default"; "audited"; "narrow"]%string then (PEAK_UNSAFE_GUM_PROLOGUE_POLICY_DEFAULT, true)
      else if existsb (peak_general_listener_ascii_equal_ci value) ["conservative"; "broad"]%string then (PEAK_UNSAFE_GUM_PROLOGUE_POLICY_CONSERVATIVE, true)
      else (PEAK_UNSAFE_GUM_PROLOGUE_POLICY_DEFAULT, false)
  end.

Definition peak_unsafe_gum_prologue_policy_name (policy : PeakUnsafeGumProloguePolicy) : string :=
  match policy with PEAK_UNSAFE_GUM_PROLOGUE_POLICY_DEFAULT => "default" | PEAK_UNSAFE_GUM_PROLOGUE_POLICY_CONSERVATIVE => "conservative" end.

(** ** x86-64: patterns *)

Definition peak_x86_match_endbr (c : code) (available : nat) : option nat :=
  if (4 <=? available)%nat && is_at c 0 [0xf3; 0x0f; 0x1e] && one_of [0xfa; 0xfb] (c 3%nat) then Some 4%nat else None.
(** What is skipped before the patterns. *)
Definition endbr_size (c : code) : nat := default 0%nat (peak_x86_match_endbr c 4%nat).

Definition peak_x86_match_zero_rdx (c : code) : option nat :=
  if one_of [0x30; 0x32; 0x28; 0x2a; 0x31; 0x33; 0x29; 0x2b] (c 0%nat) && (c 1%nat =? 0xd2) then Some 2%nat
  else if (c 0%nat =? 0x48) && one_of [0x31; 0x33; 0x29; 0x2b] (c 1%nat) && (c 2%nat =? 0xd2) then Some 3%nat
  else if is_at c 0 [0xb2; 0x00] then Some 2%nat
  else if is_at c 0 [0xba; 0x00; 0x00; 0x00; 0x00] then Some 5%nat
  else None.

Definition peak_x86_match_zero_eax (c : code) : bool := one_of [0x31; 0x33] (c 0%nat) && (c 1%nat =? 0xc0).

Definition peak_x86_match_first_indexed_load_after_zero (c : code) : bool := is_at c 0 [0x8b; 0x0c] && one_of [0x07; 0x38] (c 2%nat).

Definition peak_x86_match_rdx_counter_update_after_load (c : code) : bool :=
  is_at c 0 [0xfe; 0xc2] || is_at c 0 [0xff; 0xc2] || is_at c 0 [0x48; 0xff; 0xc2] ||
  (c 0%nat =? 0x80) && one_of [0xc2; 0xea] (c 1%nat) && negb (c 2%nat =? 0x00) ||
  (c 0%nat =? 0x83) && one_of [0xc2; 0xea] (c 1%nat) && negb (c 2%nat =? 0x00) ||
  is_at c 0 [0x48; 0x83] && one_of [0xc2; 0xea] (c 2%nat) && negb (c 3%nat =? 0x00).

Definition return_opcode (b : Z) : bool := one_of [0xc2; 0xc3; 0xca; 0xcb] b.
Definition peak_x86_immediate_contains_return_opcode (immediate : code) (size : nat) : bool := existsb (fun i => return_opcode (immediate i)) (seq 0 size).

Definition peak_x86_has_high_movabs_at_entry (c : code) : bool :=
  let c := advance (endbr_size c) c in
  between 0x40 0x4f (c 0%nat) && Z.testbit (c 0%nat) 3 && Z.testbit (c 0%nat) 0 && between 0xb8 0xbf (c 1%nat) &&
  existsb (fun i => return_opcode (c (2 + i)%nat)) (seq 0 8).

Definition peak_x86_has_rdx_prefix_prologue (c : code) : bool :=
  let c := advance (endbr_size c) c in
  match peak_x86_match_zero_rdx c with
  | None => false
  | Some zero_size =>
      peak_x86_match_zero_eax (advance zero_size c) &&
      peak_x86_match_first_indexed_load_after_zero (advance (zero_size + 2) c) &&
      peak_x86_match_rdx_counter_update_after_load (advance (zero_size + 2 + 3) c)
  end.

(** ** x86-64: sizes of instructions *)

Definition peak_x86_modrm_tail_size (c : code) (available : nat) : option nat :=
  if (available =? 0)%nat then None
  else
    let modrm := c 0%nat in
    let md := Z.shiftr modrm 6 in
    let rm := Z.land modrm 7 in
    if negb (md =? 3) && (rm =? 4) && (available <? 1 + 1)%nat then None
    else
      let size :=
        if negb (md =? 3) && (rm =? 4) then (2 + if (md =? 0)%Z && (Z.land (c 1%nat) 7 =? 5)%Z then 4 else 0)%nat
        else (1 + if (md =? 0)%Z && (rm =? 5)%Z then 4 else 0)%nat in
      let size := (size + if (md =? 1)%Z then 1 else if (md =? 2)%Z then 4 else 0)%nat in
      if (available <? size)%nat then None else Some size.

Definition skipped_prefix (b : Z) : bool := one_of [0xf0; 0xf2; 0xf3; 0x2e; 0x36; 0x3e; 0x26; 0x64; 0x65; 0x67] b.
(** The loop over prefixes while [offset] is below its bound; [rex_w] and [operand16]. *)
Fixpoint skip_prefixes (todo : nat) (c : code) (offset : nat) (rex_w operand16 : bool) : nat * bool * bool :=
  match todo with
  | O => (offset, rex_w, operand16)
  | S todo =>
      if c offset =? 0x66 then skip_prefixes todo c (S offset) rex_w true
      else if skipped_prefix (c offset) then skip_prefixes todo c (S offset) rex_w operand16
      else if between 0x40 0x4f (c offset) then skip_prefixes todo c (S offset) (Z.testbit (c offset) 3) operand16
      else (offset, rex_w, operand16)
  end.

Section Decode.
Context (c : code) (available : nat).

(** The instruction ends at the size, when so many bytes may be looked at. *)
Definition sized (size : nat) (is_return : bool) : option (nat * bool) := if (available <? size)%nat then None else Some (size, is_return).
Definition sized_modrm (offset imm_size : nat) : option (nat * bool) :=
  match peak_x86_modrm_tail_size (advance offset c) (available - offset) with
  | None => None
  | Some modrm_tail => sized (offset + modrm_tail + imm_size) false
  end.

Definition decode_two_byte (offset : nat) : option (nat * bool) :=
  if (available <=? offset)%nat then None
  else
    let op := c offset in
    let offset := S offset in
    if one_of [0x05; 0x34] op then Some (offset, false)
    else if between 0x80 0x8f op then sized (offset + 4) false
    else if between 0x90 0x9f op || between 0xb6 0xbf op then sized_modrm offset 0
    else None.

(** The size and whether it is a return. *)
Definition peak_x86_decode_instruction_size : option (nat * bool) :=
  let '(offset, rex_w, operand16) := skip_prefixes available c 0 false false in
  if (available <=? offset)%nat then None
  else
    let op := c offset in
    let offset := S offset in
    if one_of [0xc3; 0xcb] op then Some (offset, true)
    else if one_of [0xc2; 0xca] op then sized (offset + 2) true
    else if between 0xb8 0xbf op then sized (offset + if rex_w then 8 else if operand16 then 2 else 4) false
    else if one_of [0x68; 0xe8; 0xe9] op then sized (offset + 4) false
    else if one_of [0x04; 0x0c; 0x14; 0x1c; 0x24; 0x2c; 0x34; 0x3c] (Z.land op 0xfe) then
      sized (offset + if Z.testbit op 0 then if operand16 then 2 else 4 else 1) false
    else if one_of [0x6a; 0xeb] op || between 0x70 0x7f op then sized (offset + 1) false
    else if between 0x50 0x5f op || one_of [0x90; 0x9c; 0x9d; 0xcc] op then Some (offset, false)
    else if one_of [0x80; 0x82; 0x83; 0xc0; 0xc1; 0xc6] op then sized_modrm offset 1
    else if one_of [0x81; 0xc7] op then sized_modrm offset (if operand16 then 2 else 4)
    else if (op <=? 0x3b) && (Z.land op 7 <=? 3) || one_of [0x84; 0x85] op || between 0x88 0x8f op || one_of [0xfe; 0xff] op then sized_modrm offset 0
    else if op =? 0x0f then decode_two_byte offset
    else None.

End Decode.

Definition min_patch_size : nat := 5.
(** [Some true] a return, [Some false] none, [None] undecodable; the loop moves
    on by at least one byte. *)
Fixpoint return_scan (todo : nat) (c : code) (offset : nat) : option bool :=
  match todo with
  | O => Some false
  | S todo =>
      if (min_patch_size <=? offset)%nat then Some false
      else
        match peak_x86_decode_instruction_size (advance offset c) (min_patch_size - offset) with
        | None => None
        | Some (insn_size, is_return) =>
            if (insn_size =? 0)%nat then None else if is_return then Some true else return_scan todo c (offset + insn_size)
        end
  end.
Definition peak_x86_has_return_before_entry_patch (c : code) : bool * bool :=
  match return_scan min_patch_size c (endbr_size c) with None => (false, true) | Some r => (r, false) end.

Definition peak_x86_has_return_opcode_mov_immediate_at_entry (c : code) : bool :=
  let c := advance (endbr_size c) c in
  let '(offset, rex_w, operand16) := skip_prefixes 8 c 0 false false in
  between 0xb8 0xbf (c offset) &&
  peak_x86_immediate_contains_return_opcode (advance (S offset) c) (if rex_w then 8 else if operand16 then 2 else 4).

(** ** AArch64: the scratch registers *)

Definition peak_arm64_note_ip (reg : Z) (seen : bool * bool) : bool * bool :=
  if reg =? 16 then (true, seen.2) else if reg =? 17 then (seen.1, true) else seen.

Definition masked (insn mask value : Z) : bool := Z.land insn mask =? value.
Definition peak_arm64_note_prefix_operands (insn : Z) (seen : bool * bool) : bool * bool :=
  let rd := Z.land insn 0x1f in
  let rn := Z.land (Z.shiftr insn 5) 0x1f in
  let rm := Z.land (Z.shiftr insn 16) 0x1f in
  let rt := rd in
  if masked insn 0x7f800000 0x52800000 || masked insn 0x7f800000 0x12800000 || masked insn 0x7f800000 0x72800000 then peak_arm64_note_ip rd seen
  else if masked insn 0x1f000000 0x11000000 then peak_arm64_note_ip rn (peak_arm64_note_ip rd seen)
  else if masked insn 0x1f000000 0x0a000000 then peak_arm64_note_ip rm (peak_arm64_note_ip rn (peak_arm64_note_ip rd seen))
  else if masked insn 0x1f000000 0x10000000 then peak_arm64_note_ip rd seen
  else if masked insn 0x7e000000 0x34000000 then peak_arm64_note_ip rt seen
  else if masked insn 0x3b000000 0x39000000 || masked insn 0x3b200c00 0x38000400 || masked insn 0x3b200c00 0x38000c00 || masked insn 0x3b200c00 0x38200800
    then peak_arm64_note_ip rn (peak_arm64_note_ip rt seen)
  else if masked insn 0xfffffc1f 0xd65f0000 then peak_arm64_note_ip rn seen
  else seen.

(** A little-endian word. *)
Definition word (c : code) (k : nat) : Z := c k + 0x100 * c (k + 1)%nat + 0x10000 * c (k + 2)%nat + 0x1000000 * c (k + 3)%nat.
Definition peak_arm64_conservative_both_ip_registers_in_prefix (c : code) : bool :=
  let seen := foldl (fun seen i => peak_arm64_note_prefix_operands (word c (i * 4)) seen) (false, false) (seq 0 4) in seen.1 && seen.2.

(** ** The checks of a build *)

Inductive architecture := X86_64 | AArch64 | Other.
Section Architecture.
Context (arch : architecture).

(** The reason, when the entry is unsafe. *)
Definition peak_has_default_unsafe_prologue (c : code) : option string :=
  match arch with X86_64 => if peak_x86_has_rdx_prefix_prologue c then Some "x86-rdx-prefix"%string else None | _ => None end.

Definition peak_has_conservative_unsafe_prologue (c : code) : option string :=
  match arch with
  | X86_64 =>
      if peak_x86_has_high_movabs_at_entry c then Some "x86-high-movabs-entry"%string
      else if peak_x86_has_return_opcode_mov_immediate_at_entry c then Some "x86-return-immediate-entry"%string
      else None
  | AArch64 => if peak_arm64_conservative_both_ip_registers_in_prefix c then Some "arm64-both-ip-prefix-conservative"%string else None
  | Other => None
  end.

(** [None]: the address is NULL. *)
Definition peak_unsafe_gum_prologue_check (address : option code) (policy : PeakUnsafeGumProloguePolicy) : option string :=
  match address with
  | None => None
  | Some c =>
      match peak_has_default_unsafe_prologue c with
      | Some reason => Some reason
      | None => match policy with PEAK_UNSAFE_GUM_PROLOGUE_POLICY_CONSERVATIVE => peak_has_conservative_unsafe_prologue c | _ => None end
      end
  end.

Definition peak_gum_prologue_too_short_for_attach (address : option code) : option string :=
  match address, arch with
  | Some c, X86_64 => if (peak_x86_has_return_before_entry_patch c).1 then Some "x86-return-before-entry-patch"%string else None
  | _, _ => None
  end.

Definition peak_unsafe_gum_support_prologue_check (address : option code) : option string := None.

(** ** The attach policy *)

Record attach_policy := mkAttachPolicy {
  peak_attach_policy_initialized : bool;
  peak_allow_unsafe_gum_prologue : bool;
  peak_unsafe_gum_prologue_policy : PeakUnsafeGumProloguePolicy
}.
Definition initial_attach_policy : attach_policy := mkAttachPolicy false false PEAK_UNSAFE_GUM_PROLOGUE_POLICY_DEFAULT.

(** The environment is the one at the call. *)
Definition peak_general_listener_init_attach_policy_once (getenv : string -> option cstring) (s : attach_policy) : attach_policy :=
  let '(policy, policy_valid) := peak_unsafe_gum_prologue_policy_from_env (getenv "PEAK_UNSAFE_GUM_PROLOGUE_POLICY"%string) in
  mkAttachPolicy (peak_attach_policy_initialized s) (peak_general_listener_env_value_truthy (getenv "PEAK_ALLOW_UNSAFE_GUM_PROLOGUE"%string))
    (if policy_valid then policy else PEAK_UNSAFE_GUM_PROLOGUE_POLICY_DEFAULT).

(** [g_once_init_enter] lets one caller through. *)
Definition peak_general_listener_init_attach_policy (getenv : string -> option cstring) (s : attach_policy) : attach_policy :=
  if peak_attach_policy_initialized s then s
  else
    let s := peak_general_listener_init_attach_policy_once getenv s in
    mkAttachPolicy true (peak_allow_unsafe_gum_prologue s) (peak_unsafe_gum_prologue_policy s).

Definition is_none {A} (o : option A) : bool := match o with None => true | Some _ => false end.
Definition peak_general_listener_attach_target_is_supported (getenv : string -> option cstring) (s : attach_policy) (address : option code) : bool * attach_policy :=
  let s := peak_general_listener_init_attach_policy getenv s in
  (peak_allow_unsafe_gum_prologue s ||
   is_none (peak_gum_prologue_too_short_for_attach address) && is_none (peak_unsafe_gum_prologue_check address (peak_unsafe_gum_prologue_policy s)), s).

Definition peak_general_listener_support_attach_target_is_supported (getenv : string -> option cstring) (s : attach_policy) : bool * attach_policy :=
  (true, peak_general_listener_init_attach_policy getenv s).

End Architecture.

(** The names that [readdir] gives and whether it ended without an error. *)
Fixpoint count_tasks (names : list cstring) (task_count : nat) : option nat :=
  match names with
  | [] => Some task_count
  | n :: names =>
      if char_at n 0 =? ch "." then count_tasks names task_count
      else if (1 <? S task_count)%nat then None else count_tasks names (S task_count)
  end.
Definition peak_general_listener_startup_attach_can_skip_stop (task_dir : option (list cstring * bool)) : bool :=
  match task_dir with
  | None => false
  | Some (names, read_ok) => match count_tasks names 0 with None => false | Some task_count => read_ok && (task_count =? 1)%nat end
  end.

End Prologue.
