(* ===== verification/GumPrologueProofs.v ===== *)
(** * Function entries, instruction by instruction

    Instructions as the architecture encodes them: prefixes, an opcode of
    [opcode_map], operands and an immediate.  The table has the forms the decoder
    of [GumPrologue] knows, with the sizes of the architecture; where the decoder
    takes another size the instruction is [missized].  On the others it finds
    their sizes, on an instruction of any other form ([foreign]) it gives up. *)

From Stdlib Require Import String.
From S2P Require Import Prelude TargetSelector EnvParser ExecMemory ExecEnv RuntimeConfig GumPrologue.
Import Config Prologue.

Module PrologueProofs.

(** ** Operands *)

Definition optional {A} (o : option A) : list A := match o with Some a => [a] | None => [] end.
Record modrm := mkModrm { m_mod : Z; m_reg : Z; m_rm : Z; m_sib : option Z; m_disp : list Z }.
Definition modrm_bytes (m : modrm) : list Z := [64 * m_mod m + 8 * m_reg m + m_rm m] ++ optional (m_sib m) ++ m_disp m.
Definition needs_sib (m : modrm) : bool := negb (m_mod m =? 3) && (m_rm m =? 4).
Definition disp_size (m : modrm) : nat :=
  if m_mod m =? 0 then
    if m_rm m =? 5 then 4%nat else match m_sib m with Some s => if s mod 8 =? 5 then 4%nat else 0%nat | None => 0%nat end
  else if m_mod m =? 1 then 1%nat else if m_mod m =? 2 then 4%nat else 0%nat.
Record modrm_ok (m : modrm) : Prop := mkModrmOk {
  mod_range : 0 <= m_mod m <= 3;
  reg_range : 0 <= m_reg m <= 7;
  rm_range : 0 <= m_rm m <= 7;
  sib_where_needed : is_Some (m_sib m) <-> needs_sib m = true;
  disp_length : length (m_disp m) = disp_size m
}.

(** ** Opcodes of the 64-bit mode that the decoder knows *)

(** Sizes of immediates: fixed, by operand size up to 32 bits, by operand size. *)
Inductive immediate_kind := Fixed (size : nat) | UpTo32 | FullSize.
Record shape := mkShape { opcode : list Z; has_modrm : bool; immediate : immediate_kind; returns : bool }.
Definition range (first : Z) (count : nat) : list Z := map (fun k => first + Z.of_nat k) (seq 0 count).
Definition opcode_map : list shape :=
  [mkShape [0xc3] false (Fixed 0) true; mkShape [0xcb] false (Fixed 0) true; mkShape [0xc2] false (Fixed 2) true; mkShape [0xca] false (Fixed 2) true] ++
  map (fun b => mkShape [b] false FullSize false) (range 0xb8 8) ++
  [mkShape [0x68] false UpTo32 false; mkShape [0xe8] false (Fixed 4) false; mkShape [0xe9] false (Fixed 4) false] ++
  map (fun k => mkShape [8 * k + 4] false (Fixed 1) false) (range 0 8) ++
  map (fun k => mkShape [8 * k + 5] false UpTo32 false) (range 0 8) ++
  map (fun b => mkShape [b] false (Fixed 1) false) ([0x6a; 0xeb] ++ range 0x70 16) ++
  map (fun b => mkShape [b] false (Fixed 0) false) (range 0x50 16 ++ [0x90; 0x9c; 0x9d; 0xcc]) ++
  map (fun b => mkShape [b] true (Fixed 1) false) [0x80; 0x83; 0xc0; 0xc1; 0xc6] ++
  map (fun b => mkShape [b] true UpTo32 false) [0x81; 0xc7] ++
  map (fun b => mkShape [b] true (Fixed 0) false) (flat_map (fun k => range (8 * k) 4) (range 0 8) ++ [0x84; 0x85] ++ range 0x88 7 ++ [0xfe; 0xff]) ++
  map (fun b => mkShape [0x0f; b] false (Fixed 0) false) [0x05; 0x34] ++
  map (fun b => mkShape [0x0f; b] false (Fixed 4) false) (range 0x80 16) ++
  map (fun b => mkShape [0x0f; b] true (Fixed 0) false) (range 0x90 16 ++ [0xb6; 0xb7; 0xb8; 0xbb; 0xbc; 0xbd; 0xbe; 0xbf]) ++
  [mkShape [0x0f; 0xba] true (Fixed 1) false].

(** ** Instructions *)

Record instruction := mkInstruction {
  legacy : list Z;
  rex : option Z;
  form : shape;
  operands : option modrm;
  imm_bytes : list Z
}.
Definition legacy_prefix (b : Z) : bool := (b =? 0x66) || skipped_prefix b.
Definition rex_w (i : instruction) : bool := match rex i with Some b => Z.testbit b 3 | None => false end.
Definition operand16 (i : instruction) : bool := existsb (fun b => b =? 0x66) (legacy i).
Definition immediate_size (i : instruction) : nat :=
  match immediate (form i) with
  | Fixed n => n
  | UpTo32 => if rex_w i then 4 else if operand16 i then 2 else 4
  | FullSize => if rex_w i then 8 else if operand16 i then 2 else 4
  end.
Record instruction_ok (i : instruction) : Prop := mkInstructionOk {
  legacy_ok : forallb legacy_prefix (legacy i) = true;
  rex_ok : match rex i with Some b => between 0x40 0x4f b = true | None => True end;
  form_ok : In (form i) opcode_map;
  operands_ok : if has_modrm (form i) then exists m, operands i = Some m /\ modrm_ok m else operands i = None;
  immediate_ok : length (imm_bytes i) = immediate_size i
}.
Definition prefixes (i : instruction) : list Z := legacy i ++ optional (rex i).
Definition operand_bytes (i : instruction) : list Z := match operands i with Some m => modrm_bytes m | None => [] end.
Definition encode (i : instruction) : list Z := prefixes i ++ opcode (form i) ++ operand_bytes i ++ imm_bytes i.
Definition is_return (i : instruction) : bool := returns (form i).

(** What the decoder takes for another size: both prefixes of the operand size
    before a 32-bit immediate, a push of 16 bits, and bit tests by number. *)
Definition missized (i : instruction) : bool :=
  match immediate (form i) with UpTo32 => operand16 i && (rex_w i || bool_decide (opcode (form i) = [0x68])) | _ => false end ||
  bool_decide (opcode (form i) = [0x0f; 0xba]).

(** ** Code that holds bytes *)

Definition holds_at (c : code) (k : nat) (l : list Z) : Prop := forall j b, l !! j = Some b -> c (k + j)%nat = b.

Lemma holds_app c k l m : holds_at c k (l ++ m) <-> holds_at c k l /\ holds_at c (k + length l) m.
Proof.
  split.
  - intros H. split; intros j b Hj.
    + apply H. by apply lookup_app_l_Some.
    + rewrite <- Nat.add_assoc. apply H. by rewrite lookup_app_r, Nat.add_comm, Nat.add_sub by lia.
  - intros [H1 H2] j b [Hj|[Hl Hj]]%lookup_app_Some; [by apply H1|]. rewrite <- (H2 _ _ Hj). f_equal. lia.
Qed.
Lemma holds_cons c k b l : holds_at c k (b :: l) <-> c k = b /\ holds_at c (S k) l.
Proof.
  change (b :: l) with ([b] ++ l). rewrite holds_app. cbn [length]. rewrite Nat.add_1_r. split; intros [H H']; split; try done.
  - rewrite <- (H 0%nat b eq_refl). by rewrite Nat.add_0_r.
  - intros [|j] x Hx; [|done]. injection Hx as <-. by rewrite Nat.add_0_r.
Qed.
Lemma holds_advance c n k l : holds_at (advance n c) k l <-> holds_at c (n + k) l.
Proof. unfold holds_at, advance. by setoid_rewrite Nat.add_assoc. Qed.

(** ** The decoder on an instruction *)

Lemma modrm_fields m : modrm_ok m -> Z.shiftr (64 * m_mod m + 8 * m_reg m + m_rm m) 6 = m_mod m /\ Z.land (64 * m_mod m + 8 * m_reg m + m_rm m) 7 = m_rm m.
Proof.
  intros [? ? ? _ _]. split; [rewrite Z.shiftr_div_pow2 by lia; change (2 ^ 6) with 64|change 7 with (Z.ones 3); rewrite Z.land_ones by lia; change (2 ^ 3) with 8].
  - symmetry. apply (Z.div_unique _ _ _ (8 * m_reg m + m_rm m)); lia.
  - symmetry. apply (Z.mod_unique _ _ (8 * m_mod m + m_reg m)); lia.
Qed.

Definition if_fits {A} (size available : nat) (a : A) : option A := if (size <=? available)%nat then Some a else None.

Ltac compare_sizes := repeat match goal with |- context [(?a <? ?b)%nat] => destruct (Nat.ltb_spec a b) | |- context [(?a <=? ?b)%nat] => destruct (Nat.leb_spec a b) end; try done; try lia.

Lemma sized_fits available size r : sized available size r = if_fits size available (size, r).
Proof. unfold sized, if_fits. compare_sizes. Qed.

Lemma modrm_tail_exact c m available : modrm_ok m -> holds_at c 0 (modrm_bytes m) ->
  peak_x86_modrm_tail_size c available = if_fits (length (modrm_bytes m)) available (length (modrm_bytes m)).
Proof.
  intros Hm Hc. pose proof (modrm_fields m Hm) as [Hs Hl]. unfold modrm_bytes in Hc. cbn [app] in Hc. apply holds_cons in Hc as [H0 Hc].
  unfold peak_x86_modrm_tail_size. rewrite H0, Hs, Hl. clear H0 Hs Hl. unfold modrm_bytes, if_fits.
  cbn [app length]. rewrite length_app. destruct Hm as [Hmod _ Hrm [Hsib1 Hsib2] Hd]. rewrite Hd. clear Hd. unfold disp_size, needs_sib in *.
  destruct (Nat.eqb_spec available 0) as [->|Hav]; [done|].
  destruct (m_sib m) as [s|].
  - rewrite Hsib1 by (by eexists). cbn [andb optional app length] in *. apply holds_cons in Hc as [H1 _]. rewrite H1.
    change 7 with (Z.ones 3). rewrite Z.land_ones by lia. change (2 ^ 3) with 8.
    specialize (Hsib1 ltac:(by eexists)). apply andb_true_iff in Hsib1 as [Hn3 H4]. apply negb_true_iff in Hn3.
    destruct (Nat.ltb_spec available (1 + 1)) as [Hlt|].
    { destruct (_ <=? available)%nat eqn:Hle; [|done]. apply Nat.leb_le in Hle. exfalso.
      lia. }
    assert ((m_rm m =? 5) = false) as -> by (apply Z.eqb_neq; apply Z.eqb_eq in H4; lia).
    assert (m_mod m = 0 \/ m_mod m = 1 \/ m_mod m = 2) as [->|[->| ->]] by lia; cbn -[Nat.leb Nat.ltb]; [destruct (s mod 8 =? 5)| |]; cbn -[Nat.leb Nat.ltb]; compare_sizes.
  - destruct (negb (m_mod m =? 3) && (m_rm m =? 4)) eqn:En; [destruct (Hsib2 eq_refl) as [? [=]]|]. cbn [andb optional length].
    assert (m_mod m = 0 \/ m_mod m = 1 \/ m_mod m = 2 \/ m_mod m = 3) as [E|[E|[E|E]]] by lia; rewrite E; cbn -[Nat.leb Nat.ltb]; [destruct (m_rm m =? 5)| | |]; cbn -[Nat.leb Nat.ltb]; compare_sizes.
Qed.

(** The prefixes before an opcode; the loop stops early when it may not look further. *)
Lemma skip_prefixes_legacy c l : forall todo k w o, holds_at c k l -> forallb legacy_prefix l = true ->
  skip_prefixes (length l + todo) c k w o = skip_prefixes todo c (k + length l) w (o || existsb (fun b => b =? 0x66) l).
Proof.
  induction l as [|b l IH]; intros todo k w o Hc Hl; cbn [length Nat.add existsb]; [by rewrite Nat.add_0_r, orb_false_r|].
  apply holds_cons in Hc as [E Hc]. apply andb_true_iff in Hl as [Hb Hl]. cbn [skip_prefixes]. rewrite E. unfold legacy_prefix in Hb.
  rewrite <- Nat.add_succ_comm. destruct (b =? 0x66) eqn:E66.
  - rewrite (IH todo _ _ _ Hc Hl). by rewrite orb_true_r.
  - cbn [orb] in Hb. rewrite Hb, (IH todo _ _ _ Hc Hl). done.
Qed.

Lemma skip_prefixes_short c l : forall todo k w o, holds_at c k l -> forallb (fun b => legacy_prefix b || between 0x40 0x4f b) l = true -> (todo <= length l)%nat ->
  (skip_prefixes todo c k w o).1.1 = (k + todo)%nat.
Proof.
  induction l as [|b l IH]; intros [|todo] k w o Hc Hl Ht; cbn [length skip_prefixes fst] in *; try lia.
  apply holds_cons in Hc as [E Hc]. apply andb_true_iff in Hl as [Hb Hl]. rewrite E. unfold legacy_prefix in Hb. rewrite <- Nat.add_succ_comm.
  destruct (b =? 0x66), (skipped_prefix b), (between 0x40 0x4f b); try done; apply IH; try done; lia.
Qed.

Definition opcode_byte (b : Z) : bool := negb (legacy_prefix b) && negb (between 0x40 0x4f b).
Lemma skip_prefixes_stops c k todo w o : opcode_byte (c k) = true -> skip_prefixes todo c k w o = (k, w, o).
Proof.
  unfold opcode_byte, legacy_prefix. destruct todo; [done|]. cbn [skip_prefixes]. intros H. by destruct (c k =? 0x66), (skipped_prefix (c k)), (between 0x40 0x4f (c k)).
Qed.

Lemma rex_not_legacy b : between 0x40 0x4f b = true -> (b =? 0x66) = false /\ skipped_prefix b = false.
Proof.
  intros H. unfold between in H. apply andb_true_iff in H as [H1 H2]. apply Z.leb_le in H1, H2. split; [apply Z.eqb_neq; lia|].
  unfold skipped_prefix, one_of, existsb. repeat (rewrite (proj2 (Z.eqb_neq b _)) by lia). done.
Qed.

Lemma prefixes_are_prefixes i : instruction_ok i -> forallb (fun b => legacy_prefix b || between 0x40 0x4f b) (prefixes i) = true.
Proof.
  intros [Hl Hr _ _ _]. unfold prefixes. rewrite forallb_app. apply andb_true_iff. split.
  - apply forallb_forall. intros b Hb. rewrite forallb_forall in Hl. by rewrite (Hl _ Hb).
  - destruct (rex i) as [b|]; [|done]. cbn. by rewrite Hr, orb_true_r.
Qed.

Lemma skip_prefixes_exact c i todo : instruction_ok i -> holds_at c 0 (prefixes i) -> opcode_byte (c (length (prefixes i))) = true -> (length (prefixes i) <= todo)%nat ->
  skip_prefixes todo c 0 false false = (length (prefixes i), rex_w i, operand16 i).
Proof.
  intros Hi Hc Ho Ht. destruct Hi as [Hl Hr _ _ _]. unfold prefixes in *. rewrite length_app in *. apply holds_app in Hc as [Hc1 Hc2].
  replace todo with (length (legacy i) + (todo - length (legacy i)))%nat by lia. rewrite (skip_prefixes_legacy _ _ _ _ _ _ Hc1 Hl). cbn [orb Nat.add] in *.
  unfold rex_w, operand16. destruct (rex i) as [b|]; cbn [optional length] in *.
  - apply holds_cons in Hc2 as [E _]. destruct (todo - length (legacy i))%nat as [|n] eqn:En; [lia|]. cbn [skip_prefixes]. rewrite E, Hr.
    destruct (rex_not_legacy b Hr) as [-> ->]. rewrite <- Nat.add_1_r. by apply skip_prefixes_stops.
  - rewrite Nat.add_0_r in *. by apply skip_prefixes_stops.
Qed.

(** The cases of the decoder, as the operands and the immediate it assumes. *)
Definition plan_one (op : Z) : option (bool * immediate_kind * bool) :=
  if one_of [0xc3; 0xcb] op then Some (false, Fixed 0, true)
  else if one_of [0xc2; 0xca] op then Some (false, Fixed 2, true)
  else if between 0xb8 0xbf op then Some (false, FullSize, false)
  else if one_of [0x68; 0xe8; 0xe9] op then Some (false, Fixed 4, false)
  else if one_of [0x04; 0x0c; 0x14; 0x1c; 0x24; 0x2c; 0x34; 0x3c] (Z.land op 0xfe) then Some (false, if Z.testbit op 0 then UpTo32 else Fixed 1, false)
  else if one_of [0x6a; 0xeb] op || between 0x70 0x7f op then Some (false, Fixed 1, false)
  else if between 0x50 0x5f op || one_of [0x90; 0x9c; 0x9d; 0xcc] op then Some (false, Fixed 0, false)
  else if one_of [0x80; 0x82; 0x83; 0xc0; 0xc1; 0xc6] op then Some (true, Fixed 1, false)
  else if one_of [0x81; 0xc7] op then Some (true, UpTo32, false)
  else if (op <=? 0x3b) && (Z.land op 7 <=? 3) || one_of [0x84; 0x85] op || between 0x88 0x8f op || one_of [0xfe; 0xff] op then Some (true, Fixed 0, false)
  else None.
Definition plan_two (op : Z) : option (bool * immediate_kind * bool) :=
  if one_of [0x05; 0x34] op then Some (false, Fixed 0, false)
  else if between 0x80 0x8f op then Some (false, Fixed 4, false)
  else if between 0x90 0x9f op || between 0xb6 0xbf op then Some (true, Fixed 0, false)
  else None.
Definition assumed (w o : bool) (k : immediate_kind) : nat :=
  match k with Fixed n => n | UpTo32 => if o then 2 else 4 | FullSize => if w then 8 else if o then 2 else 4 end.
Definition run_plan (c : code) (available offset : nat) (w o : bool) (p : option (bool * immediate_kind * bool)) : option (nat * bool) :=
  match p with
  | None => None
  | Some (true, k, _) => sized_modrm c available offset (assumed w o k)
  | Some (false, k, r) => sized available (offset + assumed w o k) r
  end.

Lemma decode_is_plan c available offset w o : skip_prefixes available c 0 false false = (offset, w, o) -> (offset < available)%nat ->
  peak_x86_decode_instruction_size c available =
  match plan_one (c offset) with
  | Some p => run_plan c available (S offset) w o (Some p)
  | None => if c offset =? 0x0f then if (available <=? S offset)%nat then None else run_plan c available (S (S offset)) w o (plan_two (c (S offset))) else None
  end.
Proof.
  intros E Ha. unfold peak_x86_decode_instruction_size, plan_one. rewrite E. rewrite (proj2 (Nat.leb_gt _ _) Ha).
  assert (Hz : forall r, Some (S offset, r) = sized available (S offset + 0) r) by (intros r; rewrite sized_fits; unfold if_fits; rewrite Nat.add_0_r; compare_sizes).
  repeat match goal with |- (if ?b then _ else _) = _ => destruct b; [cbn [run_plan assumed]; done || apply Hz || by case_match|] end.
  destruct (c offset =? 0x0f); [|done]. unfold decode_two_byte, plan_two. destruct (Nat.leb_spec available (S offset)); [done|].
  repeat match goal with |- (if ?b then _ else _) = _ => destruct b; [cbn [run_plan assumed]; try done|] end; [|done].
  rewrite sized_fits. unfold if_fits. rewrite Nat.add_0_r. compare_sizes.
Qed.

#[export] Instance kind_eq_dec : EqDecision immediate_kind.
Proof. solve_decision. Defined.

(** The table against the cases of the decoder. *)
Definition planned (s : shape) : bool :=
  match opcode s with
  | [b] =>
      opcode_byte b && negb (b =? 0x0f) && (bool_decide (plan_one b = Some (has_modrm s, immediate s, returns s)) ||
        (b =? 0x68) && negb (has_modrm s) && negb (returns s) && bool_decide (immediate s = UpTo32))
  | [x; b] => (x =? 0x0f) && ((b =? 0xba) || bool_decide (plan_two b = Some (has_modrm s, immediate s, returns s)))
  | _ => false
  end.
Lemma opcode_map_planned s : In s opcode_map -> planned s = true.
Proof. assert (H : forallb planned opcode_map = true) by (vm_compute; reflexivity). rewrite forallb_forall in H. apply H. Qed.

(** Where the operands and the immediate of an instruction are. *)
Lemma run_plan_exact c i available offset k : instruction_ok i -> (offset <= available)%nat -> holds_at c offset (operand_bytes i ++ imm_bytes i) ->
  assumed (rex_w i) (operand16 i) k = immediate_size i ->
  run_plan c available offset (rex_w i) (operand16 i) (Some (has_modrm (form i), k, is_return i)) =
  let size := (offset + length (operand_bytes i) + length (imm_bytes i))%nat in if_fits size available (size, if has_modrm (form i) then false else is_return i).
Proof.
  intros [_ _ _ Hm Hs] Ha Hc Hk. cbn [run_plan]. unfold operand_bytes in *. destruct (has_modrm (form i)).
  - destruct Hm as (m & E & Hm). rewrite E in *. unfold sized_modrm. apply holds_app in Hc as [Hc _].
    rewrite (modrm_tail_exact _ m); [|done|by apply holds_advance; rewrite Nat.add_0_r]. rewrite Hk, <- Hs. unfold if_fits.
    destruct (Nat.leb_spec (length (modrm_bytes m)) (available - offset)); [by rewrite sized_fits|]. compare_sizes.
  - rewrite Hm in *. rewrite sized_fits, Hk, <- Hs. cbn [length app]. by rewrite Nat.add_0_r.
Qed.

Lemma assumed_size i : missized i = false -> assumed (rex_w i) (operand16 i) (immediate (form i)) = immediate_size i.
Proof. unfold missized, immediate_size, assumed. intros H. destruct (immediate (form i)), (rex_w i), (operand16 i); done. Qed.

Lemma modrm_form_never_returns s : In s opcode_map -> has_modrm s = true -> returns s = false.
Proof.
  assert (H : forallb (fun s => negb (has_modrm s && returns s)) opcode_map = true) by (vm_compute; reflexivity). rewrite forallb_forall in H.
  intros Hs Hm. specialize (H s Hs). rewrite Hm in H. by destruct (returns s).
Qed.

Lemma decode_exact c i available : instruction_ok i -> missized i = false -> holds_at c 0 (encode i) ->
  peak_x86_decode_instruction_size c available = if_fits (length (encode i)) available (length (encode i), is_return i).
Proof.
  intros Hi Hq Hc. pose proof (form_ok i Hi) as Hf. pose proof (opcode_map_planned _ Hf) as Hp. unfold encode in *.
  apply holds_app in Hc as [Hc1 Hc]. apply holds_app in Hc as [Hc2 Hc]. rewrite !length_app. cbn [Nat.add] in Hc2.
  assert (Hr : (if has_modrm (form i) then false else is_return i) = is_return i).
  { destruct (has_modrm (form i)) eqn:Em; [|done]. symmetry. by apply modrm_form_never_returns. }
  destruct (decide (length (prefixes i) < available)%nat) as [Ha|Ha].
  2: { unfold peak_x86_decode_instruction_size. pose proof (skip_prefixes_short c (prefixes i) available 0 false false Hc1 (prefixes_are_prefixes i Hi) ltac:(lia)) as E.
       destruct (skip_prefixes _ _ _ _ _) as [[n w] o]. cbn in E. subst n. unfold if_fits, planned in *. destruct (opcode (form i)); [done|cbn [length]]. compare_sizes. }
  assert (Hskip : opcode_byte (c (length (prefixes i))) = true -> skip_prefixes available c 0 false false = (length (prefixes i), rex_w i, operand16 i)) by (intros; apply skip_prefixes_exact; try done; lia).
  unfold planned in Hp. fold (is_return i) in Hp. destruct (opcode (form i)) as [|b [|b2 [|]]] eqn:Eop; try done; apply holds_cons in Hc2 as [Eb Hc2]; cbn [Nat.add] in Eb; cbn [length] in *.
  - rewrite !andb_true_iff, !orb_true_iff, !andb_true_iff, negb_true_iff in Hp. destruct Hp as [[Ho _] Hp]. rewrite Eb in Hskip.
    rewrite (decode_is_plan _ _ _ _ _ (Hskip Ho) Ha), Eb. destruct Hp as [Hp|[[[H68 Hm] Hret] Hk]].
    + apply bool_decide_eq_true in Hp. rewrite Hp, (run_plan_exact c i available (S (length (prefixes i))) (immediate (form i))); try done; [|by rewrite <- Nat.add_1_r|by apply assumed_size].
      cbn zeta. rewrite Hr. by rewrite !Nat.add_assoc, Nat.add_1_r.
    + apply Z.eqb_eq in H68. subst b. rewrite H68 in Eop |- *. apply bool_decide_eq_true in Hk. apply negb_true_iff in Hm, Hret.
      assert (Ho16 : operand16 i = false). { unfold missized in Hq. rewrite Hk, Eop in Hq. cbn in Hq. by destruct (operand16 i), (rex_w i). }
      change (plan_one 0x68) with (Some (false, Fixed 4, false)).
      assert (Hk4 : assumed (rex_w i) (operand16 i) (Fixed 4) = immediate_size i) by (unfold immediate_size; rewrite Hk, Ho16; by destruct (rex_w i)).
      pose proof (run_plan_exact c i available (S (length (prefixes i))) (Fixed 4) Hi Ha ltac:(by rewrite <- Nat.add_1_r) Hk4) as E. rewrite Hm, Hret in E. rewrite Hret.
      cbn match. rewrite E. cbn zeta. by rewrite !Nat.add_assoc, Nat.add_1_r.
  - rewrite andb_true_iff, orb_true_iff in Hp. destruct Hp as [Hx [Hb|Hp]]; apply Z.eqb_eq in Hx; rewrite Hx in Eop, Eb.
    + apply Z.eqb_eq in Hb. rewrite Hb in Eop. unfold missized in Hq. rewrite Eop, orb_comm in Hq. done.
    + apply bool_decide_eq_true in Hp. apply holds_cons in Hc2 as [Eb2 _].
      rewrite (decode_is_plan _ _ _ _ _ (Hskip ltac:(by rewrite Eb)) Ha), Eb. change (plan_one 0x0f) with (@None (bool * immediate_kind * bool)). cbn match.
      rewrite Z.eqb_refl, Eb2, Hp. destruct (Nat.leb_spec available (S (length (prefixes i)))); [unfold if_fits; compare_sizes|].
      rewrite (run_plan_exact c i available (S (S (length (prefixes i)))) (immediate (form i))); try done; [| |by apply assumed_size].
      * cbn zeta. rewrite Hr. by replace (length (prefixes i) + (2 + (length (operand_bytes i) + length (imm_bytes i))))%nat with (S (S (length (prefixes i))) + length (operand_bytes i) + length (imm_bytes i))%nat by lia.
      * by replace (S (S (length (prefixes i)))) with (length (prefixes i) + 2)%nat by lia.
Qed.

(** ** Entries *)

Definition stream (l : list instruction) : list Z := concat (map encode l).
Definition decodable (l : list instruction) : Prop := Forall (fun i => instruction_ok i /\ missized i = false) l.

(** An instruction of another form: its opcode is not in the table.  The
    decoder also knows 0x82, which is no instruction in 64-bit mode, and takes
    the operands of 0x8f and 0x0f 0xb9; these are not meant. *)
Definition is_prefix (b : Z) : bool := legacy_prefix b || between 0x40 0x4f b.
Definition in_table (ops : list Z) : bool := existsb (fun s => bool_decide (opcode s = ops)) opcode_map.
Definition foreign_opcode (ops : list Z) : bool :=
  match ops with
  | [b] => opcode_byte b && between 0 255 b && negb (in_table [b]) && negb (one_of [0x0f; 0x82; 0x8f] b)
  | [x; b] => (x =? 0x0f) && between 0 255 b && negb (in_table [x; b]) && negb (b =? 0xb9)
  | _ => false
  end.
Definition foreign (tail : list Z) : Prop :=
  exists ps ops rest, tail = ps ++ ops ++ rest /\ forallb is_prefix ps = true /\ foreign_opcode ops = true.

Lemma byte_cases (P : Z -> bool) : forallb P (range 0 256) = true -> forall b, between 0 255 b = true -> P b = true.
Proof.
  intros H b Hb. rewrite forallb_forall in H. apply H. unfold range, between in *. apply andb_true_iff in Hb as [H1 H2].
  apply Z.leb_le in H1, H2. apply in_map_iff. exists (Z.to_nat b). split; [lia|]. apply in_seq. lia.
Qed.

Lemma foreign_one b : foreign_opcode [b] = true -> plan_one b = None /\ (b =? 0x0f) = false /\ opcode_byte b = true /\ between 0xb8 0xbf b = false.
Proof.
  intros H. assert (Hb : between 0 255 b = true) by (unfold foreign_opcode in H; rewrite !andb_true_iff in H; tauto).
  assert (Hall : forallb (fun b => negb (foreign_opcode [b]) ||
    bool_decide (plan_one b = None) && negb (b =? 0x0f) && opcode_byte b && negb (between 0xb8 0xbf b)) (range 0 256) = true) by (vm_compute; reflexivity).
  pose proof (byte_cases _ Hall b Hb) as Hc.
  cbv beta in Hc. rewrite H in Hc. cbn [negb orb] in Hc. rewrite !andb_true_iff, !negb_true_iff, bool_decide_eq_true in Hc. tauto.
Qed.

Lemma foreign_two b : foreign_opcode [0x0f; b] = true -> plan_two b = None.
Proof.
  intros H. assert (Hb : between 0 255 b = true) by (unfold foreign_opcode in H; rewrite !andb_true_iff in H; tauto).
  assert (Hall : forallb (fun b => negb (foreign_opcode [0x0f; b]) || bool_decide (plan_two b = None)) (range 0 256) = true) by (vm_compute; reflexivity).
  pose proof (byte_cases _ Hall b Hb) as Hc.
  cbv beta in Hc. rewrite H in Hc. cbn [negb orb] in Hc. by apply bool_decide_eq_true in Hc.
Qed.

(** Prefixes in any order. *)
Lemma skip_prefixes_any c l : forall todo k w o, holds_at c k l -> forallb is_prefix l = true ->
  exists w' o', skip_prefixes (length l + todo) c k w o = skip_prefixes todo c (k + length l) w' o'.
Proof.
  induction l as [|b l IH]; intros todo k w o Hc Hl; cbn [length Nat.add]; [exists w, o; by rewrite Nat.add_0_r|].
  apply holds_cons in Hc as [E Hc]. apply andb_true_iff in Hl as [Hb Hl]. cbn [skip_prefixes]. rewrite E. unfold is_prefix, legacy_prefix in Hb.
  rewrite <- Nat.add_succ_comm. destruct (b =? 0x66); [by apply IH|]. destruct (skipped_prefix b); [by apply IH|]. cbn [orb] in Hb. rewrite Hb. by apply IH.
Qed.

Lemma foreign_opcode_first ops : foreign_opcode ops = true -> exists b rest, ops = b :: rest /\ opcode_byte b = true /\ between 0xb8 0xbf b = false.
Proof.
  destruct ops as [|b [|b2 [|]]]; try done; intros H.
  - destruct (foreign_one b H) as (_ & _ & ? & ?). by exists b, [].
  - unfold foreign_opcode in H. rewrite !andb_true_iff in H. destruct H as [[[H _] _] _]. apply Z.eqb_eq in H. subst b. by exists 0x0f, [b2].
Qed.

(** The decoder gives up on such an instruction. *)
Lemma foreign_undecodable c n tail : foreign tail -> holds_at c 0 tail -> peak_x86_decode_instruction_size c n = None.
Proof.
  intros (ps & ops & rest & -> & Hps & Hops) Hc. apply holds_app in Hc as [Hc1 Hc]. apply holds_app in Hc as [Hc2 _]. cbn [Nat.add] in Hc2.
  destruct (foreign_opcode_first ops Hops) as (b & l & -> & Hb & _). pose proof Hc2 as Hc3. apply holds_cons in Hc3 as [Eb Hc3].
  destruct (decide (length ps < n)%nat) as [Hn|Hn].
  2: { unfold peak_x86_decode_instruction_size. pose proof (skip_prefixes_short c ps n 0 false false Hc1 Hps ltac:(lia)) as E.
       destruct (skip_prefixes _ _ _ _ _) as [[k w] o]. cbn in E. subst k. by rewrite Nat.leb_refl. }
  destruct (skip_prefixes_any c ps (n - length ps) 0 false false Hc1 Hps) as (w & o & E). cbn [Nat.add] in E.
  rewrite (skip_prefixes_stops c (length ps)) in E by (by rewrite Eb). replace (length ps + (n - length ps))%nat with n in E by lia.
  rewrite (decode_is_plan _ _ _ _ _ E Hn), Eb. destruct l as [|b2 [|]]; [| |done].
  - destruct (foreign_one b Hops) as (-> & -> & _). done.
  - assert (b = 0x0f) as -> by (unfold foreign_opcode in Hops; rewrite !andb_true_iff in Hops; destruct Hops as [[[H _] _] _]; by apply Z.eqb_eq).
    change (plan_one 0x0f) with (@None (bool * immediate_kind * bool)). cbn match. rewrite Z.eqb_refl.
    apply holds_cons in Hc3 as [Eb2 _]. rewrite Eb2, (foreign_two b2 Hops). by destruct (_ <=? _)%nat.
Qed.

(** A return ends within the room. *)
Fixpoint returns_within (l : list instruction) (room : nat) : bool :=
  match l with
  | [] => false
  | i :: l => (length (encode i) <=? room)%nat && (is_return i || returns_within l (room - length (encode i)))
  end.

Lemma encode_nonempty i : instruction_ok i -> (0 < length (encode i))%nat.
Proof.
  intros Hi. pose proof (opcode_map_planned _ (form_ok i Hi)) as H. unfold planned in H. unfold encode. rewrite !length_app.
  destruct (opcode (form i)); [done|cbn; lia].
Qed.

Lemma scan_exact c l tail : decodable l -> forall offset todo, holds_at c offset (stream l ++ tail) -> (min_patch_size <= offset + todo)%nat ->
  (min_patch_size <= offset + length (stream l))%nat \/ foreign tail ->
  default false (return_scan todo c offset) = returns_within l (min_patch_size - offset).
Proof.
  induction 1 as [|i l [Hi Hq] Hl IH]; intros offset todo Hc Ht Hs; unfold stream in *; cbn [map concat returns_within app] in *.
  - destruct todo; [done|]. cbn [return_scan]. destruct (Nat.leb_spec min_patch_size offset); [done|]. destruct Hs as [Hs|Hs]; [cbn in Hs; unfold min_patch_size in *; lia|].
    rewrite (foreign_undecodable _ _ tail Hs); [done|]. apply holds_advance. by rewrite Nat.add_0_r.
  - rewrite length_app in Hs. pose proof (encode_nonempty i Hi) as Hne. rewrite <- app_assoc in Hc. apply holds_app in Hc as [Hc1 Hc2]. destruct todo as [|todo].
    { rewrite (proj2 (Nat.leb_gt _ _)) by (unfold min_patch_size in *; lia). done. }
    cbn [return_scan]. destruct (Nat.leb_spec min_patch_size offset); [rewrite (proj2 (Nat.leb_gt _ _)) by lia; done|].
    rewrite (decode_exact _ i); [|done|done|by apply holds_advance; rewrite Nat.add_0_r]. unfold if_fits.
    destruct (Nat.leb_spec (length (encode i)) (min_patch_size - offset)); [|done]. cbn [andb]. rewrite (proj2 (Nat.eqb_neq _ _)) by lia.
    destruct (is_return i); [done|]. cbn [orb]. rewrite IH; [f_equal; lia|done|lia|]. destruct Hs; [left; lia|by right].
Qed.

Definition endbr_bytes (e : option Z) : list Z := match e with Some b => [0xf3; 0x0f; 0x1e; b] | None => [] end.
Definition endbr_ok (e : option Z) : Prop := match e with Some b => b = 0xfa \/ b = 0xfb | None => True end.
(** [e] is the landing pad with which the code begins, if it does. *)
Definition landing_pad (c : code) (e : option Z) : Prop :=
  match e with
  | Some b => endbr_ok (Some b) /\ holds_at c 0 (endbr_bytes (Some b))
  | None => forall b, endbr_ok (Some b) -> ~ holds_at c 0 (endbr_bytes (Some b))
  end.

Lemma endbr_size_exact c e : landing_pad c e -> endbr_size c = length (endbr_bytes e).
Proof.
  intros He. unfold endbr_size, peak_x86_match_endbr. destruct e as [b|]; cbn [landing_pad] in He.
  - destruct He as [He Hc1]. do 4 (apply holds_cons in Hc1 as [? Hc1]). cbn. rewrite H, H0, H1, H2. by destruct He as [-> | ->].
  - cbn. destruct (Z.eqb_spec (c 0%nat) 0xf3), (Z.eqb_spec (c 1%nat) 0x0f), (Z.eqb_spec (c 2%nat) 0x1e); try done. cbn.
    destruct (Z.eqb_spec (c 3%nat) 0xfa); [|destruct (Z.eqb_spec (c 3%nat) 0xfb); [|done]]; exfalso;
      (eapply (He (c 3%nat)); [by (left + right)|]); cbn [endbr_bytes]; repeat (apply holds_cons; split; [done|]); intros k x Hx; by rewrite lookup_nil in Hx.
Qed.

(** ** Returns in immediates *)

(** The instruction loads an immediate in which a byte is the opcode of a return. *)
Definition loads_return (l : list instruction) : bool :=
  match l with i :: _ => bool_decide (immediate (form i) = FullSize) && existsb return_opcode (imm_bytes i) | [] => false end.

Lemma immediate_bytes c l : holds_at c 0 l -> peak_x86_immediate_contains_return_opcode c (length l) = existsb return_opcode l.
Proof.
  unfold peak_x86_immediate_contains_return_opcode. revert c. induction l as [|b l IH]; intros c Hc; [done|]. apply holds_cons in Hc as [E Hc].
  cbn [length seq existsb]. rewrite E. f_equal. rewrite <- (IH (advance 1 c)) by (by apply holds_advance).
  rewrite <- seq_shift. clear. generalize (seq 0 (length l)) as k. induction k as [|j k IH]; [done|]. cbn [map existsb]. by rewrite IH.
Qed.

Definition mov_opcode (s : shape) : bool :=
  match opcode s with b :: _ => Bool.eqb (between 0xb8 0xbf b) (bool_decide (immediate s = FullSize)) && opcode_byte b && (negb (between 0xb8 0xbf b) || negb (has_modrm s) && (length (opcode s) =? 1)%nat) | [] => false end.
Lemma opcode_map_mov s : In s opcode_map -> mov_opcode s = true.
Proof. assert (H : forallb mov_opcode opcode_map = true) by (vm_compute; reflexivity). rewrite forallb_forall in H. apply H. Qed.

Lemma mov_immediate_exact c e i l tail : landing_pad c e -> decodable (i :: l) -> (length (prefixes i) <= 8)%nat -> holds_at c 0 (endbr_bytes e ++ stream (i :: l) ++ tail) ->
  peak_x86_has_return_opcode_mov_immediate_at_entry c = loads_return (i :: l).
Proof.
  intros He Hl Hp Hc. unfold peak_x86_has_return_opcode_mov_immediate_at_entry. rewrite (endbr_size_exact c e) by done.
  apply holds_app in Hc as [_ Hc]. cbn [Nat.add] in Hc. rewrite <- (Nat.add_0_r (length (endbr_bytes e))) in Hc. apply holds_advance in Hc.
  set (c' := advance (length (endbr_bytes e)) c) in *. clearbody c'. inversion Hl as [|? ? [Hi Hq] _]; subst. unfold stream, encode in Hc. cbn [map concat] in Hc. rewrite <- !app_assoc in Hc.
  apply holds_app in Hc as [Hc1 Hc]. apply holds_app in Hc as [Hc2 Hc]. pose proof (opcode_map_mov _ (form_ok i Hi)) as Hm. unfold mov_opcode in Hm. cbn [Nat.add] in Hc2.
  destruct (opcode (form i)) as [|b bs] eqn:Eop; [done|]. apply holds_cons in Hc2 as [Eb _]. rewrite !andb_true_iff in Hm. destruct Hm as [[Hk Ho] Hs].
  apply Bool.eqb_prop in Hk. rewrite (skip_prefixes_exact c' i 8); [|done|done|by rewrite Eb|done]. unfold loads_return. rewrite Eb, Hk.
  destruct (bool_decide (immediate (form i) = FullSize)) eqn:Ek; [|done]. cbn [andb]. rewrite Hk in Hs. cbn [orb negb] in Hs.
  apply andb_true_iff in Hs as [Hm Hb]. apply negb_true_iff in Hm. apply Nat.eqb_eq in Hb. rewrite Hb in Hc. apply bool_decide_eq_true in Ek.
  destruct Hi as [_ _ _ Hops Hlen]. rewrite Hm in Hops. unfold operand_bytes in Hc. rewrite Hops in Hc. cbn [app] in Hc. apply holds_app in Hc as [Hc _].
  rewrite <- immediate_bytes with (c := advance (S (length (prefixes i))) c') by (apply holds_advance; rewrite Nat.add_0_r, <- Nat.add_1_r; done).
  f_equal. rewrite Hlen. unfold immediate_size. by rewrite Ek.
Qed.

(** An entry that begins with another instruction loads no constant. *)
Lemma foreign_loads_nothing c e tail : landing_pad c e -> foreign tail -> holds_at c 0 (endbr_bytes e ++ tail) ->
  peak_x86_has_return_opcode_mov_immediate_at_entry c = false.
Proof.
  intros He (ps & ops & rest & -> & Hps & Hops) Hc. unfold peak_x86_has_return_opcode_mov_immediate_at_entry. rewrite (endbr_size_exact c e) by done.
  apply holds_app in Hc as [_ Hc]. cbn [Nat.add] in Hc. rewrite <- (Nat.add_0_r (length (endbr_bytes e))) in Hc. apply holds_advance in Hc.
  set (c' := advance (length (endbr_bytes e)) c) in *. clearbody c'. apply holds_app in Hc as [Hc1 Hc]. apply holds_app in Hc as [Hc2 _]. cbn [Nat.add] in Hc2.
  destruct (foreign_opcode_first ops Hops) as (b & l & -> & Hb & Hmov). apply holds_cons in Hc2 as [Eb _].
  destruct (decide (length ps <= 8)%nat) as [Hn|Hn].
  - destruct (skip_prefixes_any c' ps (8 - length ps) 0 false false Hc1 Hps) as (w & o & E). cbn [Nat.add] in E.
    rewrite (skip_prefixes_stops c' (length ps)) in E by (by rewrite Eb). replace (length ps + (8 - length ps))%nat with 8%nat in E by lia. rewrite E, Eb, Hmov. done.
  - pose proof (skip_prefixes_short c' ps 8 0 false false Hc1 Hps ltac:(lia)) as E. destruct (skip_prefixes _ _ _ _ _) as [[k w] o]. cbn in E. subst k.
    destruct (lookup_lt_is_Some_2 ps 8) as [x Hx]; [lia|]. pose proof (Hc1 _ _ Hx) as Ex. cbn [Nat.add] in Ex. rewrite Ex.
    assert (Hp : is_prefix x = true) by (rewrite forallb_forall in Hps; apply Hps, list_elem_of_In; by eapply list_elem_of_lookup_2).
    assert (Hm : between 0xb8 0xbf x = false); [|by rewrite Hm]. apply not_true_iff_false. intros Hm. unfold between in Hm. apply andb_true_iff in Hm as [M1 M2].
    apply Z.leb_le in M1, M2. unfold is_prefix, legacy_prefix, skipped_prefix, one_of, between, existsb in Hp.
    repeat (rewrite (proj2 (Z.eqb_neq x _)) in Hp by lia). cbn [orb] in Hp. apply andb_true_iff in Hp as [_ Hp]. apply Z.leb_le in Hp. lia.
Qed.

(** A load with REX.W and REX.B is also a load: the narrower check adds a reason only. *)
Lemma high_movabs_covered c : peak_x86_has_high_movabs_at_entry c = true -> peak_x86_has_return_opcode_mov_immediate_at_entry c = true.
Proof.
  unfold peak_x86_has_high_movabs_at_entry, peak_x86_has_return_opcode_mov_immediate_at_entry. set (c' := advance _ c). clearbody c'.
  rewrite !andb_true_iff. intros [[[[Hr Hw] _] Hb] Hi]. destruct (rex_not_legacy _ Hr) as [E1 E2]. cbn [skip_prefixes]. rewrite E1, E2, Hr, Hw.
  assert (Ho : opcode_byte (c' 1%nat) = true).
  { unfold between in Hb. apply andb_true_iff in Hb as [H1 H2]. apply Z.leb_le in H1, H2. unfold opcode_byte, legacy_prefix, skipped_prefix, one_of, between, existsb.
    repeat (rewrite (proj2 (Z.eqb_neq (c' 1%nat) _)) by lia). by rewrite (proj2 (Z.leb_gt (c' 1%nat) 0x4f)), andb_false_r by lia. }
  pose proof (skip_prefixes_stops c' 1 7 true false Ho) as E. cbn [skip_prefixes] in E. rewrite E, Hb. exact Hi.
Qed.

End PrologueProofs.
