(* ===== verification/GumAttach.v ===== *)
(** * Plans for attaching to a target

    The rest of [src/unsafe_gum_prologue.c]: exported tail jumps keep the
    listener at their own entry, branches to a PLT entry are relocated by force.
    Gum's calls are arguments.  The theorems say when a target is attached to
    and which AArch64 entries count as branches to a PLT. *)

From Stdlib Require Import String.
From S2P Require Import Prelude TargetSelector EnvParser ExecMemory ExecEnv RuntimeConfig GumPrologue GumPrologueProofs.
Import Config Prologue PrologueProofs.

Module Attach.

Definition UINTPTR_MAX : Z := UINT64_MAX.
Definition PEAK_X86_NEAR_REDIRECT_SIZE : Z := 5.
Definition PEAK_X86_REL32_JUMP_SIZE : Z := 5.
Definition PEAK_X86_RIP_INDIRECT_JUMP_SIZE : Z := 6.
Definition GUM_PEAK_MAX_PROLOGUE_SIZE : Z := 32.

(** The fields of Gum's options that are set: PEAK's writer, the hint and the forced policy. *)
Record GumAttachOptions := mkOptions { write_redirect : bool; redirect_space_hint : Z; relocation_forced : bool }.
Record PeakGumTargetAttachPlan := mkPlan { options : GumAttachOptions; mutation_address : Z; mutation_guard_size : Z; attach_exact_entry : bool }.

Inductive GumRedirectWriteResult := GUM_REDIRECT_DECLINED | GUM_REDIRECT_WRITTEN.
(** Where the writer stands, the room it has and the target. *)
Record redirect_details := mkDetails { writer_pc : Z; capacity : Z; redirect_target : Z }.

Section Gum.
(** [gum_memory_read] with the bytes it could read; 0 is NULL. *)
Context (memory_read : Z -> nat -> option (list Z)).

Definition peak_x86_write_near_redirect (can_branch_directly_between : Z -> Z -> bool) (put_jmp_address : redirect_details -> bool)
    (details : option redirect_details) : GumRedirectWriteResult :=
  match details with
  | None => GUM_REDIRECT_DECLINED
  | Some d =>
      if capacity d <? PEAK_X86_NEAR_REDIRECT_SIZE then GUM_REDIRECT_DECLINED
      else if negb (can_branch_directly_between (writer_pc d) (redirect_target d)) || negb (put_jmp_address d) then GUM_REDIRECT_DECLINED
      else GUM_REDIRECT_WRITTEN
  end.

Definition peak_x86_target_redirect_size (address : Z) : Z :=
  if negb (address =? 0) && (address <=? UINTPTR_MAX - (PEAK_X86_REL32_JUMP_SIZE - 1)) then
    match memory_read address 5 with
    | Some [c0; c1; _; _; _] =>
        if c0 =? 0xe9 then PEAK_X86_REL32_JUMP_SIZE
        else if (c0 =? 0xff) && (c1 =? 0x25) && (address <=? UINTPTR_MAX - (PEAK_X86_RIP_INDIRECT_JUMP_SIZE - 1)) then
          match memory_read address 6 with
          | Some [c0; c1; _; _; _; _] => if (c0 =? 0xff) && (c1 =? 0x25) then PEAK_X86_RIP_INDIRECT_JUMP_SIZE else 0
          | _ => 0
          end
        else 0
    | _ => 0
    end
  else 0.

(** Words of a successful read of so many words. *)
Fixpoint words (l : list Z) : list Z :=
  match l with b0 :: b1 :: b2 :: b3 :: l => (b0 + 0x100 * b1 + 0x10000 * b2 + 0x1000000 * b3) :: words l | _ => [] end.
Definition read_words (address : Z) (count : nat) : option (list Z) :=
  match memory_read address (4 * count) with Some l => if (length l =? 4 * count)%nat then Some (words l) else None | None => None end.

(** The target of the branch, unless it leaves the address space. *)
Definition branch_target (source_address branch : Z) : option Z :=
  let displacement := Z.land branch 0x03ffffff in
  let displacement := if negb (Z.land displacement (2 ^ 25) =? 0) then displacement - 2 ^ 26 else displacement in
  let byte_displacement := displacement * 4 in
  if 0 <=? byte_displacement then
    if UINTPTR_MAX - byte_displacement <? source_address then None else Some (source_address + byte_displacement)
  else if source_address <? - byte_displacement then None else Some (source_address - - byte_displacement).

Definition plt_entry_matches (plt : list Z) : bool :=
  match plt with
  | [plt0; plt1; plt2; plt3] =>
      masked plt0 0x9f00001f 0x90000010 && masked plt1 0xffc003ff 0xf9400211 && masked plt2 0xffc003ff 0x91000210 && (plt3 =? 0xd61f0220) &&
      (Z.land (Z.shiftr plt1 10) 0xfff * 8 =? Z.land (Z.shiftr plt2 10) 0xfff)
  | _ => false
  end.

(** The address of the PLT entry. *)
Definition peak_arm64_target_branches_to_elf_plt (address : Z) : option Z :=
  if (address =? 0) || (UINTPTR_MAX - 3 <? address) then None
  else
    match read_words address 1 with
    | Some [branch] =>
        if negb (masked branch 0xfc000000 0x14000000) then None
        else
          match branch_target address branch with
          | None => None
          | Some plt_address =>
              if UINTPTR_MAX - 15 <? plt_address then None
              else match read_words plt_address 4 with Some plt => if plt_entry_matches plt then Some plt_address else None | None => None end
          end
    | _ => None
    end.

(** For a Linux build with the exact-attach interface on x86-64 and the checked
    relocation on AArch64. *)
Definition peak_gum_target_attach_plan (arch : architecture) (address : Z) : PeakGumTargetAttachPlan :=
  let plan := mkPlan (mkOptions false 0 false) address 0 false in
  match arch with
  | X86_64 =>
      let redirect_size := peak_x86_target_redirect_size address in
      if 0 <? redirect_size then mkPlan (mkOptions true redirect_size false) address redirect_size true else plan
  | AArch64 =>
      match peak_arm64_target_branches_to_elf_plt address with
      | Some plt_address => mkPlan (mkOptions false 0 true) plt_address GUM_PEAK_MAX_PROLOGUE_SIZE false
      | None => plan
      end
  | Other => plan
  end.

(** Which of Gum's calls attaches, with which options. *)
Definition peak_gum_interceptor_attach_target {R} (peak_attach_exact : Z -> GumAttachOptions -> R) (attach : Z -> option GumAttachOptions -> R)
    (address : Z) (plan : option PeakGumTargetAttachPlan) : R :=
  match plan with
  | Some p => if attach_exact_entry p then peak_attach_exact address (options p) else attach address (Some (options p))
  | None => attach address None
  end.

End Gum.

(** ** The decision about a target *)




(** ** Branches to a PLT entry *)

(** The instructions as the architecture encodes them. *)
Definition b_insn (displacement : Z) : Z := 0x14000000 + displacement mod 2 ^ 26.
Definition adrp_x16 (immlo immhi : Z) : Z := 0x90000010 + 2 ^ 29 * immlo + 2 ^ 5 * immhi.
Definition ldr_x17_x16 (scaled : Z) : Z := 0xf9400211 + 2 ^ 10 * scaled.
Definition add_x16_x16 (imm : Z) : Z := 0x91000210 + 2 ^ 10 * imm.
Definition br_x17 : Z := 0xd61f0220.

(** A field of [k] bits at bit [n], and the bits around it. *)
Lemma low_land w n : 0 <= n -> Z.land w (2 ^ n - 1) = w mod 2 ^ n.
Proof. intros. rewrite <- Z.land_ones by lia. f_equal. rewrite Z.ones_equiv. lia. Qed.

(** A word is what a mask keeps and what it drops. *)
Lemma mask_split w m : 0 <= w < 2 ^ 32 -> 0 <= m < 2 ^ 32 -> w = Z.land w m + Z.land w (2 ^ 32 - 1 - m).
Proof.
  intros Hw Hm. assert (E : 2 ^ 32 - 1 - m = Z.ldiff (Z.ones 32) m).
  { change (2 ^ 32 - 1) with (Z.ones 32). apply Z.sub_nocarry_ldiff. apply Z.bits_inj'. intros n Hn. rewrite Z.ldiff_spec, Z.testbit_0_l.
    destruct (Z.ltb_spec n 32); [by rewrite Z.ones_spec_low, andb_false_r by lia|]. rewrite <- (Z.mod_small m (2 ^ 32)), Z.mod_pow2_bits_high by lia. done. }
  rewrite E, Z.add_nocarry_lxor, Z.lxor_lor.
  - apply Z.bits_inj'. intros n Hn. rewrite Z.lor_spec, !Z.land_spec, Z.ldiff_spec. destruct (Z.ltb_spec n 32).
    + rewrite Z.ones_spec_low by lia. by destruct (Z.testbit w n), (Z.testbit m n).
    + rewrite <- (Z.mod_small w (2 ^ 32)), Z.mod_pow2_bits_high by lia. done.
  - apply Z.bits_inj'. intros n Hn. rewrite !Z.land_spec, Z.ldiff_spec, Z.testbit_0_l. by destruct (Z.testbit w n), (Z.testbit m n), (Z.testbit (Z.ones 32) n).
  - apply Z.bits_inj'. intros n Hn. rewrite !Z.land_spec, Z.ldiff_spec, Z.testbit_0_l. by destruct (Z.testbit w n), (Z.testbit m n), (Z.testbit (Z.ones 32) n).
Qed.

(** The bits of a field. *)
Lemma field_bits w n k : 0 <= n -> 0 <= k -> Z.land w (2 ^ n * (2 ^ k - 1)) = 2 ^ n * Z.land (Z.shiftr w n) (2 ^ k - 1).
Proof.
  intros Hn Hk. rewrite (Z.mul_comm (2 ^ n)), (Z.mul_comm (2 ^ n) (Z.land _ _)), <- !Z.shiftl_mul_pow2 by lia. apply Z.bits_inj'. intros j Hj.
  rewrite Z.land_spec, !Z.shiftl_spec by lia. destruct (Z.ltb_spec j n).
  - rewrite !(Z.testbit_neg_r _ (j - n)) by lia. by rewrite andb_false_r.
  - rewrite Z.land_spec, Z.shiftr_spec by lia. do 2 f_equal. lia.
Qed.

Definition field (n k : Z) : Z := 2 ^ n * (2 ^ k - 1).
Lemma field_value v n k x : 0 <= n -> 0 <= k -> Z.land v (field n k) = 0 -> 0 <= x < 2 ^ k -> Z.land (Z.shiftr (v + 2 ^ n * x) n) (2 ^ k - 1) = x.
Proof.
  intros Hn Hk Hv Hx. unfold field in Hv. rewrite field_bits, low_land, Z.shiftr_div_pow2 in Hv by lia. rewrite low_land, Z.shiftr_div_pow2 by lia.
  rewrite (Z.mul_comm (2 ^ n)), Z.div_add by lia. rewrite <- Z.add_mod_idemp_l by lia. assert (E : (v / 2 ^ n) mod 2 ^ k = 0) by nia. rewrite E. apply Z.mod_small. lia.
Qed.

(** A word that matches outside of a field is the instruction with some field. *)
Lemma field_insn w n k v : 0 <= w < 2 ^ 32 -> 0 <= n -> 0 <= k -> 0 <= field n k < 2 ^ 32 -> Z.land v (field n k) = 0 ->
  Z.land w (2 ^ 32 - 1 - field n k) = v <-> exists x, 0 <= x < 2 ^ k /\ w = v + 2 ^ n * x.
Proof.
  intros Hw Hn Hk Hf Hv. assert (Hsplit : w = Z.land w (2 ^ 32 - 1 - field n k) + 2 ^ n * Z.land (Z.shiftr w n) (2 ^ k - 1)).
  { rewrite (mask_split w (2 ^ 32 - 1 - field n k)) at 1 by lia. f_equal. rewrite <- field_bits by lia. f_equal. unfold field. lia. }
  split.
  - intros E. rewrite E in Hsplit. exists (Z.land (Z.shiftr w n) (2 ^ k - 1)). split; [|done]. rewrite low_land by lia. apply Z.mod_pos_bound. lia.
  - intros (x & Hx & E). rewrite E in Hsplit at 3. rewrite field_value in Hsplit by done. lia.
Qed.

Lemma is_branch w : 0 <= w < 2 ^ 32 -> masked w 0xfc000000 0x14000000 = true <-> exists d, - 2 ^ 25 <= d < 2 ^ 25 /\ w = b_insn d.
Proof.
  intros Hw. unfold masked. rewrite Z.eqb_eq. change 0xfc000000 with (2 ^ 32 - 1 - field 0 26). rewrite (field_insn w 0 26 0x14000000) by done.
  unfold b_insn. split.
  - intros (x & Hx & ->). destruct (decide (x < 2 ^ 25)); [exists x|exists (x - 2 ^ 26)]; (split; [lia|]); [rewrite Z.mod_small by lia; lia|].
    rewrite <- (Z.mod_add _ 1) by lia. rewrite Z.mod_small by lia. lia.
  - intros (d & Hd & ->). exists (d mod 2 ^ 26). split; [by apply Z.mod_pos_bound|lia].
Qed.

Lemma is_ldr w : 0 <= w < 2 ^ 32 -> masked w 0xffc003ff 0xf9400211 = true <-> exists x, 0 <= x < 2 ^ 12 /\ w = ldr_x17_x16 x.
Proof. intros Hw. unfold masked. rewrite Z.eqb_eq. change 0xffc003ff with (2 ^ 32 - 1 - field 10 12). rewrite (field_insn w 10 12 0xf9400211) by done. reflexivity. Qed.
Lemma is_add w : 0 <= w < 2 ^ 32 -> masked w 0xffc003ff 0x91000210 = true <-> exists x, 0 <= x < 2 ^ 12 /\ w = add_x16_x16 x.
Proof. intros Hw. unfold masked. rewrite Z.eqb_eq. change 0xffc003ff with (2 ^ 32 - 1 - field 10 12). rewrite (field_insn w 10 12 0x91000210) by done. reflexivity. Qed.

Lemma is_adrp w : 0 <= w < 2 ^ 32 -> masked w 0x9f00001f 0x90000010 = true <-> exists lo hi, 0 <= lo < 2 ^ 2 /\ 0 <= hi < 2 ^ 19 /\ w = adrp_x16 lo hi.
Proof.
  intros Hw. unfold masked. rewrite Z.eqb_eq. change 0x9f00001f with (Z.land (2 ^ 32 - 1 - field 29 2) (2 ^ 32 - 1 - field 5 19)). rewrite Z.land_assoc.
  set (u := Z.land w (2 ^ 32 - 1 - field 29 2)).
  assert (Hu : 0 <= u < 2 ^ 32).
  { split; [apply Z.land_nonneg; lia|]. pose proof (mask_split w (2 ^ 32 - 1 - field 29 2) Hw ltac:(done)) as E. fold u in E. pose proof (proj2 (Z.land_nonneg w (2 ^ 32 - 1 - (2 ^ 32 - 1 - field 29 2))) ltac:(lia)). lia. }
  rewrite (field_insn u 5 19 0x90000010) by done. unfold adrp_x16. split.
  - intros (hi & Hhi & Eu). assert (Hz : Z.land u (field 29 2) = 0) by (unfold u; rewrite <- Z.land_assoc; apply Z.land_0_r).
    destruct (proj1 (field_insn w 29 2 u Hw ltac:(lia) ltac:(lia) ltac:(done) Hz) eq_refl) as (lo & Hlo & E). exists lo, hi. split_and!; try lia.
  - intros (lo & hi & Hlo & Hhi & E). exists hi. split; [done|]. apply (field_insn w 29 2 (0x90000010 + 2 ^ 5 * hi)); try done.
    + unfold field. rewrite field_bits, low_land, Z.shiftr_div_pow2 by lia.
      rewrite <- (Z.div_unique (0x90000010 + 2 ^ 5 * hi) (2 ^ 29) 4 (0x10000010 + 2 ^ 5 * hi)) by lia. done.
    + exists lo. split; [done|lia].
Qed.

(** The branch goes where the architecture says, without leaving the address space. *)
Lemma branch_target_exact a d : 0 <= a <= UINTPTR_MAX -> - 2 ^ 25 <= d < 2 ^ 25 ->
  branch_target a (b_insn d) = if (0 <=? a + 4 * d) && (a + 4 * d <=? UINTPTR_MAX) then Some (a + 4 * d) else None.
Proof.
  intros Ha Hd. unfold branch_target. assert (El : Z.land (b_insn d) 0x03ffffff = d mod 2 ^ 26).
  { pose proof (field_value 0x14000000 0 26 (d mod 2 ^ 26) ltac:(lia) ltac:(lia) ltac:(done) ltac:(by apply Z.mod_pos_bound)) as E. unfold b_insn.
    rewrite Z.shiftr_0_r, Z.pow_0_r, Z.mul_1_l in E. exact E. }
  assert (Hm : d mod 2 ^ 26 = if 0 <=? d then d else d + 2 ^ 26).
  { destruct (Z.leb_spec 0 d); [apply Z.mod_small; lia|]. symmetry. apply (Z.mod_unique _ _ (-1)); lia. }
  rewrite El, Hm. assert (Es : forall x q, x / 2 ^ 25 = q -> Z.land x (2 ^ 25) = 2 ^ 25 * (q mod 2)).
  { intros x q <-. change (2 ^ 25) with (2 ^ 25 * (2 ^ 1 - 1)) at 1. by rewrite field_bits, low_land, Z.shiftr_div_pow2 by lia. }
  unfold UINTPTR_MAX in *. destruct (Z.leb_spec 0 d) as [H|H].
  - rewrite (Es d 0) by (apply Z.div_small; lia). change (2 ^ 25 * (0 mod 2) =? 0) with true. cbn [negb]. rewrite (proj2 (Z.leb_le 0 (d * 4))) by lia.
    destruct (Z.ltb_spec (UINT64_MAX - d * 4) a), (Z.leb_spec 0 (a + 4 * d)), (Z.leb_spec (a + 4 * d) UINT64_MAX); cbn; try done; try lia. f_equal. lia.
  - rewrite (Es (d + 2 ^ 26) 1) by (symmetry; apply (Z.div_unique _ _ _ (d + 2 ^ 25)); lia). replace (d + 2 ^ 26 - 2 ^ 26) with d by lia.
    change (2 ^ 25 * (1 mod 2) =? 0) with false. cbn [negb]. rewrite (proj2 (Z.leb_gt 0 (d * 4))) by lia.
    destruct (Z.ltb_spec a (- (d * 4))), (Z.leb_spec 0 (a + 4 * d)), (Z.leb_spec (a + 4 * d) UINT64_MAX); cbn; try done; try lia; f_equal; lia.
Qed.

Section Plt.
Context (memory_read : Z -> nat -> option (list Z)).
(** What is read is bytes. *)
Hypothesis reads_bytes : forall a n l, memory_read a n = Some l -> Forall (fun b => 0 <= b < 256) l.

Lemma words_range l : Forall (fun b => 0 <= b < 256) l -> Forall (fun w => 0 <= w < 2 ^ 32) (words l).
Proof.
  revert l. fix IH 1. intros [|b0 [|b1 [|b2 [|b3 l]]]] H; cbn [words]; try constructor.
  - inversion H as [|? ? H0 H1']; subst. inversion H1' as [|? ? H1 H2']; subst. inversion H2' as [|? ? H2 H3']; subst. inversion H3'; subst. lia.
  - apply IH. by do 4 apply Forall_inv_tail in H.
Qed.

Lemma read_words_range a n l : read_words memory_read a n = Some l -> Forall (fun w => 0 <= w < 2 ^ 32) l.
Proof.
  unfold read_words. destruct (memory_read a (4 * n)) as [b|] eqn:E; [|done]. destruct (length b =? 4 * n)%nat; [|done]. intros [= <-]. eauto using words_range.
Qed.

Lemma plt_entry_exact l : Forall (fun w => 0 <= w < 2 ^ 32) l ->
  plt_entry_matches l = true <-> exists lo hi slot, 0 <= lo < 2 ^ 2 /\ 0 <= hi < 2 ^ 19 /\ 0 <= slot < 2 ^ 9 /\ l = [adrp_x16 lo hi; ldr_x17_x16 slot; add_x16_x16 (8 * slot); br_x17].
Proof.
  intros Hl. assert (Hv : forall v x, Z.land v (field 10 12) = 0 -> 0 <= x < 2 ^ 12 -> Z.land (Z.shiftr (v + 2 ^ 10 * x) 10) 0xfff = x) by (intros; by apply (field_value v 10 12)).
  split.
  - unfold plt_entry_matches. destruct l as [|w0 [|w1 [|w2 [|w3 [|]]]]]; try done. rewrite !andb_true_iff. intros [[[[H0 H1] H2] H3] H4].
    rewrite !Forall_cons in Hl. destruct Hl as (R0 & R1 & R2 & _ & _).
    apply is_adrp in H0 as (lo & hi & Hlo & Hhi & ->); [|done]. apply is_ldr in H1 as (x & Hx & ->); [|done]. apply is_add in H2 as (y & Hy & ->); [|done].
    unfold ldr_x17_x16, add_x16_x16 in H4. rewrite !Hv in H4 by done. apply Z.eqb_eq in H3, H4. subst. exists lo, hi, x. split_and!; try lia. by rewrite (Z.mul_comm 8).
  - intros (lo & hi & slot & Hlo & Hhi & Hs & ->). rewrite !Forall_cons in Hl. destruct Hl as (R0 & R1 & R2 & _ & _). unfold plt_entry_matches.
    rewrite (proj2 (is_adrp _ R0)) by (by exists lo, hi). rewrite (proj2 (is_ldr _ R1)) by (exists slot; split; [lia|done]).
    rewrite (proj2 (is_add _ R2)) by (exists (8 * slot); split; [lia|done]). unfold ldr_x17_x16, add_x16_x16. rewrite !Hv by (done || lia).
    cbn [andb]. apply Z.eqb_eq. lia.
Qed.

(** C35: an AArch64 target is attached to through its PLT entry exactly when it
    is a branch, forwards or backwards and inside the address space, to the four
    instructions of a PLT entry that load and name the same slot; Gum is then
    told to relocate the entry at the branch's destination, and any other target
    keeps Gum's checked default. *)
Theorem plt_thunk_exact a p : 0 <= a <= UINTPTR_MAX ->
  (peak_gum_target_attach_plan memory_read AArch64 a = mkPlan (mkOptions false 0 true) p GUM_PEAK_MAX_PROLOGUE_SIZE false <->
   a <> 0 /\ a <= UINTPTR_MAX - 3 /\ exists d lo hi slot, - 2 ^ 25 <= d < 2 ^ 25 /\ 0 <= lo < 2 ^ 2 /\ 0 <= hi < 2 ^ 19 /\ 0 <= slot < 2 ^ 9 /\
     p = a + 4 * d /\ 0 <= p <= UINTPTR_MAX - 15 /\ read_words memory_read a 1 = Some [b_insn d] /\
     read_words memory_read p 4 = Some [adrp_x16 lo hi; ldr_x17_x16 slot; add_x16_x16 (8 * slot); br_x17]) /\
  (relocation_forced (options (peak_gum_target_attach_plan memory_read AArch64 a)) = false -> peak_gum_target_attach_plan memory_read AArch64 a = mkPlan (mkOptions false 0 false) a 0 false).
Proof.
  intros Ha. unfold peak_gum_target_attach_plan. split; [|by destruct (peak_arm64_target_branches_to_elf_plt memory_read a)].
  assert (E : forall x y : option Z, match x with Some q => mkPlan (mkOptions false 0 true) q GUM_PEAK_MAX_PROLOGUE_SIZE false | None => mkPlan (mkOptions false 0 false) a 0 false end
    = mkPlan (mkOptions false 0 true) p GUM_PEAK_MAX_PROLOGUE_SIZE false <-> x = Some p) by (intros [q|]; split; by intros [= ->]). rewrite (E _ None). clear E.
  unfold peak_arm64_target_branches_to_elf_plt. destruct (Z.eqb_spec a 0) as [->|Hz]; cbn [orb]; [naive_solver|].
  destruct (Z.ltb_spec (UINTPTR_MAX - 3) a); [split; [done|intros (_ & ? & _); lia]|]. split.
  - destruct (read_words memory_read a 1) as [[|w [|]]|] eqn:Er; try done. pose proof (read_words_range _ _ _ Er) as Hw. rewrite Forall_cons in Hw. destruct Hw as [Hw _].
    destruct (masked w _ _) eqn:Em; [|done]. apply (is_branch w Hw) in Em as (d & Hd & ->). cbn [negb]. rewrite branch_target_exact by done.
    destruct (Z.leb_spec 0 (a + 4 * d)), (Z.leb_spec (a + 4 * d) UINTPTR_MAX); try done. cbn [andb]. destruct (Z.ltb_spec (UINTPTR_MAX - 15) (a + 4 * d)); [done|].
    destruct (read_words memory_read (a + 4 * d) 4) as [l|] eqn:Ep; [|done]. destruct (plt_entry_matches l) eqn:El; [|done]. intros [= <-].
    apply plt_entry_exact in El as (lo & hi & slot & ? & ? & ? & ->); [|by eapply read_words_range]. split_and!; [done|done|]. exists d, lo, hi, slot. split_and!; done || lia.
  - intros (_ & _ & d & lo & hi & slot & Hd & Hlo & Hhi & Hs & Hp & Hr & Er & Ep). rewrite Er. pose proof (read_words_range _ _ _ Er) as Hw. rewrite Forall_cons in Hw. destruct Hw as [Hw _].
    rewrite (proj2 (is_branch _ Hw)) by eauto. cbn [negb]. rewrite branch_target_exact, <- Hp by done. rewrite (proj2 (Z.leb_le 0 p)), (proj2 (Z.leb_le p UINTPTR_MAX)) by lia. cbn [andb].
    rewrite (proj2 (Z.ltb_ge _ _)) by lia. rewrite Ep. assert (plt_entry_matches [adrp_x16 lo hi; ldr_x17_x16 slot; add_x16_x16 (8 * slot); br_x17] = true) as ->; [|done].
    apply plt_entry_exact; [by eapply read_words_range|]. exists lo, hi, slot. done.
Qed.

End Plt.

(** ** Examples *)

Definition code_of (l : list Z) : code := fun k => nth k l 0.




(** At 0x1000 a branch 16 bytes back, to a PLT entry. *)
Definition word_bytes (w : Z) : list Z := [w mod 256; w / 256 mod 256; w / 65536 mod 256; w / 16777216 mod 256].
Definition demo_read (a : Z) (n : nat) : option (list Z) :=
  if (a =? 0x1000) && (n =? 4)%nat then Some (word_bytes (b_insn (-4)))
  else if (a =? 0xff0) && (n =? 16)%nat then Some (flat_map word_bytes [adrp_x16 1 2; ldr_x17_x16 3; add_x16_x16 24; br_x17])
  else None.
Lemma demo_read_bytes a n l : demo_read a n = Some l -> Forall (fun b => 0 <= b < 256) l.
Proof. unfold demo_read. repeat case_match; intros [= <-]; vm_compute; repeat constructor; discriminate. Qed.

Lemma plt_thunk_exact_witness : mutation_address (peak_gum_target_attach_plan demo_read AArch64 0x1000) = 0xff0.
Proof.
  destruct (plt_thunk_exact demo_read demo_read_bytes 0x1000 0xff0 ltac:(split; discriminate)) as [[_ H] _]. rewrite H; [reflexivity|].
  split_and!; [discriminate|discriminate|]. exists (-4), 1, 2, 3. split_and!; try (vm_compute; (reflexivity || discriminate)).
Defined.

(** The decoder takes the immediate of a bit test for the next instruction: in
    [bt eax, 0xc3; nop] it sees a return. *)
Lemma bit_test_taken_for_return :
  let bt := mkInstruction [] None (mkShape [0x0f; 0xba] true (Fixed 1) false) (Some (mkModrm 3 4 0 None [])) [0xc3] in
  let nop := mkInstruction [] None (mkShape [0x90] false (Fixed 0) false) None [] in
  missized bt = true /\ returns_within [bt; nop] 5 = false /\ peak_x86_has_return_before_entry_patch (code_of (stream [bt; nop])) = (true, false).
Proof. split_and!; vm_compute; reflexivity. Qed.

End Attach.
