(* ===== verification/TargetConfig.v ===== *)
(** * The list of targets

    [src/utils/target_config.c] and the composition in [src/peak.c]: targets
    come from an environment variable, from a file and from named groups, and
    are appended to an array that is reallocated; then repeated names go.
    Allocations answer from a list; when it ends they succeed.  Whatever
    allocations fail, the array holds a prefix of what each source asks for, in
    order and in bounds, and no name twice; when none fails it holds everything. *)

From Stdlib Require Import String.
From S2P Require Import Prelude TargetSelector.

Module Targets.

(** ** The builder *)

Record TargetBuilder := mkBuilder { items : list cstring; capacity : Z; allocation_failed : bool; allocations : list bool }.
Definition count (b : TargetBuilder) : Z := Z.of_nat (length (items b)).
Definition POINTER_SIZE : Z := 8.

Definition checked_add_size (left right : Z) : option Z := if SIZE_MAX - left <? right then None else Some (left + right).
Definition checked_mul_size (left right : Z) : option Z := if negb (left =? 0) && (SIZE_MAX / left <? right) then None else Some (left * right).

(** One [malloc] or [realloc]. *)
Definition target_config_alloc (b : TargetBuilder) : bool * TargetBuilder :=
  match allocations b with [] => (true, b) | a :: rest => (a, mkBuilder (items b) (capacity b) (allocation_failed b) rest) end.

Definition target_config_warn_allocation_once (b : TargetBuilder) : TargetBuilder := mkBuilder (items b) (capacity b) true (allocations b).

Fixpoint trim_left (token : cstring) : cstring := match token with c :: rest => if isspace c then trim_left rest else token | [] => [] end.
Definition trim_token (token : cstring) : cstring := rev (trim_left (rev (trim_left token))).

(** The loop that doubles the capacity; 64 rounds overflow it. *)
Fixpoint doubled (fuel : nat) (capacity required : Z) : Z :=
  match fuel with
  | O => capacity
  | S fuel => if capacity <? required then if SIZE_MAX / 2 <? capacity then required else doubled fuel (capacity * 2) required else capacity
  end.

Definition target_builder_grow (b : TargetBuilder) (required : Z) : bool * TargetBuilder :=
  if required <=? capacity b then (true, b)
  else
    let cap := doubled 64 (if capacity b =? 0 then 8 else capacity b) required in
    match checked_mul_size cap POINTER_SIZE with
    | None => (false, target_config_warn_allocation_once b)
    | Some _ =>
        match target_config_alloc b with
        | (false, b) => (false, target_config_warn_allocation_once b)
        | (true, b) => (true, mkBuilder (items b) cap (allocation_failed b) (allocations b))
        end
    end.

Definition target_builder_append (b : TargetBuilder) (token : cstring) : bool * TargetBuilder :=
  match checked_add_size (Z.of_nat (length token)) 1, checked_add_size (count b) 1 with
  | Some _, Some required =>
      match target_config_alloc b with
      | (false, b) => (false, target_config_warn_allocation_once b)
      | (true, b) =>
          match target_builder_grow b required with
          | (false, b) => (false, b)
          | (true, b) => (true, mkBuilder (items b ++ [token]) (capacity b) (allocation_failed b) (allocations b))
          end
      end
  | _, _ => (false, target_config_warn_allocation_once b)
  end.

(** The copy of the environment's value. *)
Definition target_config_duplicate (b : TargetBuilder) (value : cstring) : bool * TargetBuilder :=
  match checked_add_size (Z.of_nat (length value)) 1 with
  | None => (false, target_config_warn_allocation_once b)
  | Some _ => match target_config_alloc b with (false, b) => (false, target_config_warn_allocation_once b) | r => r end
  end.

Definition target_builder_from_result (result : list cstring) (answers : list bool) : TargetBuilder :=
  mkBuilder result (Z.of_nat (length result)) false answers.
(** The array and the number of new entries. *)
Definition target_builder_finish (b : TargetBuilder) (initial_count : nat) : list cstring * nat := (items b, (length (items b) - initial_count)%nat).

Definition append_trimmed_token (b : TargetBuilder) (token : cstring) : bool * TargetBuilder :=
  match trim_token token with [] => (true, b) | token => target_builder_append b token end.

(** ** The sources of targets *)

Section Sources.
(** The allocations inside the scanner of selectors; the built-in groups. *)
Context (calloc_ok : bool) (realloc_ok : Z -> bool) (groups : string -> list cstring).

Definition target_config_next_delimiter (token : cstring) (delimiter : Z) : option nat :=
  match next_delimiter calloc_ok realloc_ok (Some token) delimiter true with (true, next) => next | (false, _) => None end.

(** The loop over the tokens; each round takes the rest after the delimiter. *)
Fixpoint tokens_loop (next : cstring -> option nat) (work : TargetBuilder -> cstring -> bool * TargetBuilder) (fuel : nat) (token : cstring) (b : TargetBuilder) : TargetBuilder :=
  match fuel with
  | O => b
  | S fuel =>
      match next token with
      | None => (work b token).2
      | Some p =>
          match work b (take p token) with
          | (false, b) => b
          | (true, b) => tokens_loop next work fuel (drop (S p) token) b
          end
      end
  end.

Definition parse_env_w_delim (value : option cstring) (a_delim : Z) (answers : list bool) : list cstring * nat * list bool :=
  match value with
  | None | Some [] => ([], 0%nat, answers)
  | Some v =>
      if a_delim =? 0 then ([], 0%nat, answers)
      else
        match target_config_duplicate (target_builder_from_result [] answers) v with
        | (false, b) => (target_builder_finish b 0, allocations b)
        | (true, b) =>
            let b := tokens_loop (fun t => target_config_next_delimiter t a_delim) append_trimmed_token (S (length v)) v b in
            (target_builder_finish b 0, allocations b)
        end
  end.

(** [file]: the lines that [getline] returns before the end or an error;
    [None] when there is no path or the file does not open. *)
Fixpoint lines_loop (lines : list cstring) (b : TargetBuilder) : TargetBuilder :=
  match lines with
  | [] => b
  | line :: lines => match append_trimmed_token b line with (false, b) => b | (true, b) => lines_loop lines b end
  end.
Definition load_profiling_symbols (file : option (list cstring)) (result : list cstring) (answers : list bool) : list cstring * nat * list bool :=
  match file with
  | None => (result, 0%nat, answers)
  | Some lines =>
      let b := lines_loop lines (target_builder_from_result result answers) in (target_builder_finish b (length result), allocations b)
  end.

Definition target_groups : list string := ["BLAS"; "LAPACK"; "PBLAS"; "ScaLAPACK"; "FFTW"]%string.
Definition find_target_group (name : cstring) : option (list cstring) :=
  groups <$> List.find (fun g => bool_decide (name = bytes g)) target_groups.

Fixpoint append_all (symbols : list cstring) (b : TargetBuilder) : TargetBuilder :=
  match symbols with
  | [] => b
  | s :: symbols => match target_builder_append b s with (false, b) => b | (true, b) => append_all symbols b end
  end.
(** One group; the result says that the loop goes on. *)
Definition append_group (b : TargetBuilder) (token : cstring) : bool * TargetBuilder :=
  let b := match trim_token token with [] => b | token => match find_target_group token with Some symbols => append_all symbols b | None => b end end in
  (negb (allocation_failed b), b).

Definition comma : Z := 44.
Definition load_symbols_from_array (value : option cstring) (result : list cstring) (answers : list bool) : list cstring * nat * list bool :=
  match value with
  | None | Some [] => (result, 0%nat, answers)
  | Some v =>
      match target_config_duplicate (target_builder_from_result result answers) v with
      | (false, b) => (target_builder_finish b (length result), allocations b)
      | (true, b) =>
          let b := tokens_loop (index_of comma) append_group (S (length v)) v b in (target_builder_finish b (length result), allocations b)
      end
  end.

(** Over the first [count] entries; the kept ones move to the front. *)
Fixpoint deduplicate (unique : list cstring) (targets : list cstring) : list cstring :=
  match targets with
  | [] => unique
  | t :: targets => if existsb (fun u => bool_decide (t = u)) unique then deduplicate unique targets else deduplicate (unique ++ [t]) targets
  end.
Definition peak_deduplicate_target_names (targets : list cstring) : list cstring := deduplicate [] targets.

(** The CPU targets of [peak_init]. *)
Definition configured_targets (target : option cstring) (file : option (list cstring)) (group : option cstring) (answers : list bool) : list cstring :=
  let '(l, n, answers) := parse_env_w_delim target comma answers in
  let '(l, n', answers) := load_profiling_symbols file l answers in
  let '(l, n'', answers) := load_symbols_from_array group l answers in
  peak_deduplicate_target_names (take (n + n' + n'') l).

End Sources.

End Targets.

(** ** The configured targets are the requested ones *)
Import Targets.

Module TargetProofs.

(** ** Cutting a text *)

Fixpoint join (delimiter : Z) (l : list cstring) : cstring :=
  match l with [] => [] | [t] => t | t :: l => t ++ delimiter :: join delimiter l end.
Fixpoint pieces (next : cstring -> option nat) (fuel : nat) (token : cstring) : list cstring :=
  match fuel with
  | O => []
  | S fuel => match next token with None => [token] | Some p => take p token :: pieces next fuel (drop (S p) token) end
  end.
(** A cut is at a delimiter. *)
Definition cuts_at (delimiter : Z) (next : cstring -> option nat) : Prop := forall t p, next t = Some p -> t !! p = Some delimiter.

Lemma pieces_join delimiter next fuel t : cuts_at delimiter next -> (length t < fuel)%nat -> join delimiter (pieces next fuel t) = t /\ pieces next fuel t <> [].
Proof.
  intros Hn. revert t. induction fuel as [|fuel IH]; intros t Hf; [lia|]. cbn [pieces]. destruct (next t) as [p|] eqn:E; [|done]. split; [|done].
  apply Hn in E. pose proof (lookup_lt_Some _ _ _ E). destruct (IH (drop (S p) t)) as [Hj Hne]; [rewrite length_drop; lia|].
  cbn [join]. destruct (pieces next fuel (drop (S p) t)) eqn:Ep; [done|]. rewrite Hj. by apply take_drop_middle.
Qed.

Lemma index_of_cuts c : cuts_at c (index_of c).
Proof.
  intros t. induction t as [|x t IH]; intros p; cbn; [done|]. destruct (Z.eqb_spec x c) as [->|]; [by intros [= <-]|].
  destruct (index_of c t) as [q|]; [|done]. intros [= <-]. by apply IH.
Qed.

(** A delimiter that is not part of the name of an operator. *)
Definition cut_here (delimiter : Z) (t : cstring) (p : nat) : Prop :=
  t !! p = Some delimiter /\ operator_punctuation_at t p = false /\ (delimiter = comma -> operator_token_ends_at t p = false).

Section Selector.
Context (realloc_ok : Z -> bool) (text : cstring) (delimiter : Z).
Hypothesis delimiter_nonzero : delimiter <> 0.
Definition nested_ok (s : scan_state) : Prop := forall p, nested s = Some p -> cut_here delimiter text p.

Lemma char_at_lookup p : char_at text p = delimiter -> text !! p = Some delimiter.
Proof. unfold char_at. destruct (text !! p) as [c|]; cbn; [by intros ->|]. intros E. by rewrite <- E in delimiter_nonzero. Qed.

Lemma scan_char_cut cursor s : nested_ok s ->
  match scan_char realloc_ok text delimiter cursor s with Continue s' | Invalid s' => nested_ok s' | Found => cut_here delimiter text cursor end.
Proof.
  intros Hs. unfold scan_char.
  destruct (open_bracket _); [by destruct (ensure_capacity _ _ _ _)|]. destruct (close_bracket _); [by repeat (destruct (_ : bool))|].
  destruct (_ && _ && negb (char_at text (S cursor) =? _)); [by destruct (ensure_capacity _ _ _ _)|]. destruct (_ && negb (operator_punctuation_at text cursor)) eqn:E; [by repeat (destruct (_ && _))|].
  destruct (_ && _ && _) eqn:Ed; [|done]. assert (Hcut : cut_here delimiter text cursor).
  { rewrite !andb_true_iff, !negb_true_iff in Ed. destruct Ed as [[Ed Eo] Et]. split_and!; [by apply char_at_lookup, Z.eqb_eq|done|].
    intros Ecomma. by rewrite Ecomma, Z.eqb_refl in Et. }
  destruct ((length (frames s) =? 1)%nat && _); [done|].
  intros p. cbn. destruct (nested s) eqn:En; [by rewrite <- En; apply Hs|]. by intros [= <-].
Qed.

Lemma scan_cut recover n : forall cursor s p, nested_ok s -> (scan realloc_ok text delimiter recover n cursor s).2 = Some p -> cut_here delimiter text p.
Proof.
  induction n as [|n IH]; intros cursor s p Hs; cbn [scan].
  - destruct (_ && _); [done|]. destruct recover; cbn; [apply Hs|done].
  - pose proof (scan_char_cut cursor s Hs) as Hc. destruct (scan_char _ _ _ cursor s); [by apply IH|by intros [= <-]|]. destruct recover; cbn; [apply Hc|done].
Qed.

End Selector.

Lemma next_delimiter_cut_here calloc_ok realloc_ok delimiter t p : delimiter <> 0 ->
  target_config_next_delimiter calloc_ok realloc_ok t delimiter = Some p -> cut_here delimiter t p.
Proof.
  intros Hd. unfold target_config_next_delimiter, next_delimiter. rewrite (proj2 (Z.eqb_neq _ _) Hd). destruct calloc_ok; [|done]. cbn [negb].
  pose proof (scan_cut realloc_ok t delimiter Hd true (length t) 0 initial_scan p ltac:(done)) as H. destruct (scan _ _ _ _ _ _ _) as [[] x]; [apply H|done].
Qed.

(** The variable is cut into tokens, at commas only. *)
Inductive cut_up : cstring -> list cstring -> Prop :=
| cut_end t : cut_up t [t]
| cut_next t p l : cut_here comma t p -> cut_up (drop (S p) t) l -> cut_up t (take p t :: l).

Lemma pieces_cut_up calloc_ok realloc_ok fuel : forall t, (length t < fuel)%nat ->
  cut_up t (pieces (fun t => target_config_next_delimiter calloc_ok realloc_ok t comma) fuel t).
Proof.
  induction fuel as [|fuel IH]; intros t Hf; [lia|]. cbn [pieces]. destruct (target_config_next_delimiter _ _ t comma) as [p|] eqn:E; [|constructor].
  apply next_delimiter_cut_here in E; [|done]. constructor; [done|]. destruct E as [E _]. apply lookup_lt_Some in E. apply IH. rewrite length_drop. lia.
Qed.

(** No piece of a cut at every comma has one. *)
Lemma pieces_without fuel : forall t, (length t < fuel)%nat -> Forall (fun x => comma ∉ x) (pieces (index_of comma) fuel t).
Proof.
  assert (Hfirst : forall t : cstring, match index_of comma t with Some p => comma ∉ take p t | None => comma ∉ t end).
  { induction t as [|x t IHt]; cbn; [set_solver|]. destruct (Z.eqb_spec x comma); [set_solver|]. destruct (index_of comma t); cbn; set_solver. }
  induction fuel as [|fuel IH]; intros t Hf; [lia|]. cbn [pieces]. pose proof (Hfirst t) as H.
  destruct (index_of comma t) as [p|] eqn:E; [|by constructor]. constructor; [done|].
  apply index_of_cuts, lookup_lt_Some in E. apply IH. rewrite length_drop. lia.
Qed.

(** ** Lists of selectors

    A selector in plain notation: brackets of the four kinds are closed in
    order, and commas stand only inside of them.  [inside] says whether the text
    is inside of brackets. *)
Definition bracket_pairs : list (Z * Z) := [(ch "(", ch ")"); (ch "[", ch "]"); (ch "{", ch "}"); (ch "<", ch ">")]%string.
Definition punctuation (c : Z) : bool := open_bracket c || close_bracket c || (c =? ch "<") || (c =? ch ">") || (c =? ch "=").

Inductive notation (inside : bool) : cstring -> Prop :=
| notation_nil : notation inside []
| notation_char c t : punctuation c = false -> (c = comma -> inside = true) -> notation inside t -> notation inside (c :: t)
| notation_group o cl t t' : (o, cl) ∈ bracket_pairs -> notation true t -> notation inside t' -> notation inside (o :: t ++ cl :: t').

Definition selector (t : cstring) : Prop := notation false t.
Definition no_operator (t : cstring) : Prop := forall i, prefix_at t i operator_word = false.

(** The scanner on such a text. *)
Section Scan.
Context (realloc_ok : Z -> bool) (text : cstring).
Hypothesis realloc_succeeds : forall n, realloc_ok n = true.
Hypothesis text_small : Z.of_nat (length text) < 2 ^ 58.
Hypothesis text_operators : no_operator text.
Hypothesis text_equals : ch "=" ∉ text.

Abbreviation scanned := (scan realloc_ok text comma true).

(** A state at [cursor]: capacities, and bracket numbers in use. *)
Record at_cursor (cursor : nat) (s : scan_state) : Prop := {
  ac_ok : scan_ok s;
  ac_size : (length (frames s) + length (angles s) <= S cursor)%nat;
  ac_angles : Forall (fun a => a < next_frame s)%nat (angles s);
  ac_frame : (id (top_frame s) < next_frame s)%nat
}.
Definition same_brackets (s s' : scan_state) : Prop :=
  frames s' = frames s /\ angles s' = angles s /\ (next_frame s <= next_frame s')%nat.

Lemma not_equals i : (char_at text i =? ch "=") = false.
Proof.
  apply Z.eqb_neq. unfold char_at. destruct (text !! i) as [c|] eqn:E; cbn; [|by vm_compute].
  intros ->. apply text_equals. apply list_elem_of_lookup. eauto.
Qed.

Lemma no_punctuation i : operator_punctuation_at text i = false.
Proof.
  unfold operator_punctuation_at. apply not_true_iff_false. rewrite existsb_exists. intros (w & _ & Hw).
  unfold operator_at_covers in Hw. by rewrite text_operators in Hw.
Qed.

Lemma no_operator_end i : operator_token_ends_at text i = false.
Proof. unfold operator_token_ends_at. by rewrite text_operators, andb_false_r. Qed.

Lemma room_found count capacity size : (count <= capacity)%nat -> (count <= S (length text))%nat -> (0 < size <= 16)%nat ->
  exists cap, ensure_capacity realloc_ok count capacity size = Some cap.
Proof.
  intros H1 H2 H3. unfold ensure_capacity. destruct (Nat.eqb_spec count capacity) as [->|]; [|eauto].
  unfold selector_grow. rewrite realloc_succeeds. unfold SIZE_MAX, UINT64_MAX.
  destruct (Z.gtb_spec (Z.of_nat capacity) ((2 ^ 64 - 1) / 2)) as [H|_]; [exfalso; revert H; change ((2 ^ 64 - 1) / 2) with (2 ^ 63 - 1); lia|].
  destruct (Z.gtb_spec (Z.of_nat capacity * 2) ((2 ^ 64 - 1) / Z.of_nat size)) as [H|_]; [|cbn; eauto].
  exfalso. assert (Z.of_nat capacity * 2 <= (2 ^ 64 - 1) / Z.of_nat size); [|lia]. apply Z.div_le_lower_bound; nia.
Qed.

(** The scanner goes from one place to another. *)
Definition passes (c : nat) (s : scan_state) (c' : nat) (s' : scan_state) : Prop :=
  (c <= c')%nat /\ forall n, scanned (c' - c + n) c s = scanned n c' s'.

Lemma passes_refl c s : passes c s c s.
Proof. split; [done|]. intros n. by rewrite Nat.sub_diag. Qed.

Lemma passes_char c s s' c' s'' : scan_char realloc_ok text comma c s = Continue s' -> passes (S c) s' c' s'' -> passes c s c' s''.
Proof.
  intros Hc [Hle H]. split; [lia|]. intros n. replace (c' - c + n)%nat with (S (c' - S c + n)) by lia. cbn [scan]. by rewrite Hc.
Qed.

Lemma passes_trans c s c' s' c'' s'' : passes c s c' s' -> passes c' s' c'' s'' -> passes c s c'' s''.
Proof.
  intros [H1 P1] [H2 P2]. split; [lia|]. intros n. rewrite <- P2. rewrite <- P1. f_equal. lia.
Qed.

Lemma same_brackets_trans s s' s'' : same_brackets s s' -> same_brackets s' s'' -> same_brackets s s''.
Proof. intros (A & B & C) (D & E & F). split_and!; [congruence|congruence|lia]. Qed.

(** Ordinary characters, and commas inside of brackets. *)
Definition nested_state (s : scan_state) : Prop := (length (frames s) =? 1)%nat && (length (angles s) =? 0)%nat = false.

Lemma scan_ordinary c s x : text !! c = Some x -> punctuation x = false -> (x = comma -> nested_state s) -> at_cursor c s ->
  exists s', scan_char realloc_ok text comma c s = Continue s' /\ same_brackets s s' /\ at_cursor (S c) s'.
Proof.
  intros Hx Hp Hn [Ho Hs Ha Hf]. unfold punctuation in Hp. rewrite !orb_false_iff in Hp. destruct Hp as [[[[P1 P2] P3] P4] _].
  assert (Ec : char_at text c = x) by (unfold char_at; by rewrite Hx). unfold scan_char. rewrite Ec, P1, P2, P3, P4. cbn [andb].
  rewrite no_punctuation, no_operator_end, andb_false_r. cbn [negb]. rewrite !andb_true_r.
  destruct (Z.eqb_spec x comma) as [E|_]; [rewrite (Hn E)|]; eexists; (split; [reflexivity|]); split; try (split_and!; done); split; cbn; try done; lia.
Qed.

(** A bracket is opened and closed around a text. *)
Definition closes (cl : Z) (s s1 : scan_state) : Prop :=
  forall c s2, text !! c = Some cl -> same_brackets s1 s2 -> at_cursor c s2 -> exists s3,
    scan_char realloc_ok text comma c s2 = Continue s3 /\ same_brackets s s3 /\ at_cursor (S c) s3.

Lemma char_found c x : text !! c = Some x -> char_at text c = x /\ (c < length text)%nat.
Proof. intros H. split; [unfold char_at; by rewrite H|by eapply lookup_lt_Some]. Qed.

Lemma scan_round c s o cl : text !! c = Some o -> open_bracket o = true -> close_bracket cl = true -> open_bracket cl = false ->
  (if o =? ch "(" then ch ")" else if o =? ch "[" then ch "]" else ch "}") = cl -> at_cursor c s ->
  exists s1, scan_char realloc_ok text comma c s = Continue s1 /\ nested_state s1 /\ at_cursor (S c) s1 /\ closes cl s s1.
Proof.
  intros [Hc Hl]%char_found Ho Hcl Hno Ecl [Hok Hs Ha Hf]. pose proof Hok as (K1 & K2 & K3).
  unfold scan_char. rewrite Hc, Ho. destruct (room_found (length (frames s)) (frame_capacity s) FRAME_SIZE) as [cap Ecap]; [lia|lia|unfold FRAME_SIZE; lia|].
  rewrite Ecap. apply ensure_capacity_room in Ecap; [|lia|lia]. eexists. split; [reflexivity|]. rewrite Ecl. split_and!.
  - unfold nested_state. cbn. by destruct (frames s); cbn in *; [lia|].
  - split; cbn; [unfold scan_ok; cbn; lia|lia| |lia]. eapply Forall_impl; [exact Ha|]. cbn. lia.
  - intros d s2 [Hd _]%char_found (B1 & B2 & B3) [(L1 & L2 & L3) Hs2 Ha2 Hf2]. cbn in B1, B2, B3. unfold scan_char. rewrite Hd, Hno, Hcl.
    rewrite B1 in *. cbn [length] in *. rewrite (proj2 (Nat.eqb_neq _ _)) by lia.
    assert (Et : top_frame s2 = mkFrame (if o =? ch "(" then parenthesis_is_grouping text c else true) cl (next_frame s)) by (unfold top_frame; by rewrite B1).
    rewrite Et. cbn [closer id]. rewrite Z.eqb_refl. cbn [negb].
    assert (Hfa : frame_has_angle (angles s2) (next_frame s) = false).
    { rewrite B2. destruct (angles s) as [|a l]; [done|]. cbn. apply Forall_cons in Ha as [Ha _]. by apply Nat.eqb_neq; lia. }
    rewrite Hfa. eexists. split; [reflexivity|]. split; [split_and!; cbn; [by rewrite B1|by rewrite B2|lia]|].
    split; cbn; rewrite ?B1; cbn; [unfold scan_ok; cbn; rewrite B1; cbn; lia|rewrite B2 in *; cbn in *; lia|done|].
    unfold top_frame in *. cbn. rewrite B1. cbn. lia.
Qed.

Lemma scan_angle c s : text !! c = Some (ch "<") -> at_cursor c s ->
  exists s1, scan_char realloc_ok text comma c s = Continue s1 /\ nested_state s1 /\ at_cursor (S c) s1 /\ closes (ch ">") s s1.
Proof.
  intros [Hc Hl]%char_found [Hok Hs Ha Hf]. pose proof Hok as (K1 & K2 & K3). unfold scan_char. rewrite Hc.
  change (open_bracket (ch "<")) with false. change (close_bracket (ch "<")) with false. rewrite Z.eqb_refl, no_punctuation, not_equals. cbn [andb negb].
  destruct (room_found (length (angles s)) (angle_capacity s) ANGLE_SIZE) as [cap Ecap]; [lia|lia|unfold ANGLE_SIZE; lia|].
  rewrite Ecap. apply ensure_capacity_room in Ecap; [|lia|lia]. eexists. split; [reflexivity|]. split_and!.
  - unfold nested_state. cbn. by rewrite andb_false_r.
  - split; cbn; [unfold scan_ok; cbn; lia|lia|by constructor|done].
  - intros d s2 [Hd _]%char_found (B1 & B2 & B3) [(L1 & L2 & L3) Hs2 Ha2 Hf2]. cbn in B1, B2, B3. unfold scan_char. rewrite Hd.
    change (open_bracket (ch ">")) with false. change (close_bracket (ch ">")) with false. change (ch ">" =? ch "<") with false.
    rewrite Z.eqb_refl, no_punctuation, !not_equals, andb_false_r. cbn [andb negb].
    assert (Et : top_frame s2 = top_frame s) by (unfold top_frame; by rewrite B1).
    rewrite Et, B2. cbn [frame_has_angle]. rewrite Nat.eqb_refl. eexists. split; [reflexivity|]. rewrite B2 in *. cbn in *.
    split; [by split_and!|]. split; cbn; [unfold scan_ok; cbn; lia|lia|by inversion Ha2|exact Hf2].
Qed.

Lemma scan_bracket c s o cl : text !! c = Some o -> (o, cl) ∈ bracket_pairs -> at_cursor c s ->
  exists s1, scan_char realloc_ok text comma c s = Continue s1 /\ nested_state s1 /\ at_cursor (S c) s1 /\ closes cl s s1.
Proof.
  intros Hc Hp Hs. unfold bracket_pairs in Hp. repeat (apply elem_of_cons in Hp as [Hp|Hp]); [..|by apply elem_of_nil in Hp].
  1-3: injection Hp as -> ->; by apply (scan_round c s _ _ Hc).
  injection Hp as -> ->. by apply scan_angle.
Qed.

(** A text in this notation is passed and leaves the brackets as they were. *)
Lemma scan_notation inside t : notation inside t -> forall before after s, text = before ++ t ++ after ->
  at_cursor (length before) s -> (inside = true -> nested_state s) ->
  exists s', passes (length before) s (length (before ++ t)) s' /\ same_brackets s s' /\ at_cursor (length (before ++ t)) s'.
Proof.
  assert (Hat : forall (a b : cstring) x, text = a ++ x :: b -> text !! length a = Some x) by (intros a b x ->; by apply list_lookup_middle).
  induction 1 as [inside|inside c t Hp Hn _ IH|inside o cl t t' Hpair _ IHin _ IH]; intros before after s Et Hs Hnest.
  - rewrite app_nil_r. exists s. split; [apply passes_refl|]. split; [by split_and!|done].
  - destruct (scan_ordinary _ s c (Hat _ _ _ Et) Hp ltac:(auto) Hs) as (s1 & E1 & B1 & A1).
    destruct (IH (before ++ [c]) after s1) as (s2 & P2 & B2 & A2).
    { by rewrite <- app_assoc. } { rewrite length_app, Nat.add_1_r. exact A1. }
    { intros Hi. unfold nested_state in *. destruct B1 as (-> & -> & _). auto. }
    rewrite <- app_assoc in P2, A2. cbn in P2, A2. exists s2. split; [|split; [by eapply same_brackets_trans|exact A2]].
    eapply passes_char; [exact E1|]. rewrite length_app, Nat.add_1_r in P2. exact P2.
  - cbn in Et. rewrite <- app_assoc in Et. cbn in Et. destruct (scan_bracket _ s o cl (Hat _ _ _ Et) Hpair Hs) as (s1 & E1 & N1 & A1 & Hcl).
    destruct (IHin (before ++ [o]) (cl :: t' ++ after) s1) as (s2 & P2 & B2 & A2).
    { by rewrite <- app_assoc. } { rewrite length_app, Nat.add_1_r. exact A1. } { done. }
    destruct (Hcl (length ((before ++ [o]) ++ t)) s2) as (s3 & E3 & B3 & A3).
    { apply (Hat _ (t' ++ after)). rewrite Et, <- !app_assoc. done. } { exact B2. } { exact A2. }
    destruct (IH (((before ++ [o]) ++ t) ++ [cl]) after s3) as (s4 & P4 & B4 & A4).
    { rewrite Et, <- !app_assoc. done. } { rewrite length_app, Nat.add_1_r. exact A3. }
    { intros Hi. unfold nested_state in *. destruct B3 as (-> & -> & _). auto. }
    replace ((((before ++ [o]) ++ t) ++ [cl]) ++ t') with (before ++ o :: t ++ cl :: t') in P4, A4 by (rewrite <- !app_assoc; done).
    exists s4. split; [|split; [by eapply same_brackets_trans|exact A4]]. eapply passes_char; [exact E1|].
    rewrite (length_app before [o]), Nat.add_1_r in P2. eapply passes_trans; [exact P2|]. eapply passes_char; [exact E3|].
    rewrite (length_app _ [cl]), Nat.add_1_r in P4. exact P4.
Qed.

(** The first cut of a list of selectors. *)
Lemma scan_selectors t rest : selector t -> text = t ++ rest ->
  match rest with [] => True | c :: _ => c = comma end ->
  scanned (length text) 0 initial_scan = (true, match rest with [] => None | _ => Some (length t) end).
Proof.
  intros Ht Et Hr. assert (Hi : at_cursor 0 initial_scan) by (split; cbn; [unfold scan_ok; cbn; lia|lia|constructor|lia]).
  destruct (scan_notation false t Ht [] rest initial_scan Et Hi ltac:(done)) as (s & [_ Hp] & (B1 & B2 & _) & A).
  cbn [length app] in Hp. specialize (Hp (length rest)). rewrite Nat.sub_0_r in Hp.
  assert (El : length text = (length t + length rest)%nat) by (by rewrite Et, length_app). rewrite El, Hp. clear Hp El.
  destruct rest as [|c rest]; [cbn; by rewrite B1, B2|]. subst c. cbn [length scan].
  assert (Hc : text !! length t = Some comma) by (rewrite Et; by apply list_lookup_middle). apply char_found in Hc as [Hc _].
  unfold scan_char. rewrite Hc. change (open_bracket comma) with false. change (close_bracket comma) with false.
  change (comma =? ch "<") with false. change (comma =? ch ">") with false. rewrite Z.eqb_refl, no_punctuation, no_operator_end, andb_false_r. cbn [andb negb].
  by rewrite B1, B2.
Qed.
End Scan.

Lemma notation_equals inside t : notation inside t -> ch "=" ∉ t.
Proof.
  induction 1 as [inside|inside c t Hp _ _ IH|inside o cl t t' Hp _ IH1 _ IH2]; [set_solver|..].
  - intros [E|E]%elem_of_cons; [subst c; done|done].
  - assert (ch "=" <> o /\ ch "=" <> cl) as [].
    { unfold bracket_pairs in Hp. repeat (apply elem_of_cons in Hp as [Hp|Hp]); [..|by apply elem_of_nil in Hp]; injection Hp as -> ->; done. }
    rewrite elem_of_cons, elem_of_app, elem_of_cons. naive_solver.
Qed.

Lemma join_equals l : Forall selector l -> ch "=" ∉ join comma l.
Proof.
  induction 1 as [|t l Ht _ IH]; [set_solver|]. apply notation_equals in Ht. cbn [join]. destruct l; [done|].
  rewrite elem_of_app, elem_of_cons. intros [?|[?|?]]; [done|done|done].
Qed.

Lemma prefix_at_drop word : forall k t i, prefix_at (drop k t) i word = prefix_at t (k + i) word.
Proof.
  induction word as [|c word IH]; intros k t i; cbn [prefix_at]; [done|]. rewrite IH, Nat.add_succ_r. unfold char_at. by rewrite lookup_drop.
Qed.

Section Cut.
Context (realloc_ok : Z -> bool).
Hypothesis realloc_succeeds : forall n, realloc_ok n = true.

Lemma next_of_selectors t l : Forall selector (t :: l) -> no_operator (join comma (t :: l)) -> Z.of_nat (length (join comma (t :: l))) < 2 ^ 58 ->
  target_config_next_delimiter true realloc_ok (join comma (t :: l)) comma = match l with [] => None | _ => Some (length t) end.
Proof.
  intros Hs Ho Hl. unfold target_config_next_delimiter, next_delimiter. change (comma =? 0) with false. cbn [negb].
  pose proof (join_equals _ Hs) as He. apply Forall_cons in Hs as [Ht _]. destruct l as [|u l].
  - rewrite (scan_selectors realloc_ok _ realloc_succeeds Hl Ho He t []); [done|done|by rewrite app_nil_r|done].
  - rewrite (scan_selectors realloc_ok _ realloc_succeeds Hl Ho He t (comma :: join comma (u :: l))); [done|done|done|done].
Qed.

(** A list of selectors is cut into just these. *)
Lemma pieces_selectors l : l <> [] -> Forall selector l -> forall fuel, no_operator (join comma l) ->
  Z.of_nat (length (join comma l)) < 2 ^ 58 -> (length (join comma l) < fuel)%nat ->
  pieces (fun t => target_config_next_delimiter true realloc_ok t comma) fuel (join comma l) = l.
Proof.
  intros Hne. induction l as [|t l IH]; [done|]. intros Hs fuel Ho Hl Hf. destruct fuel as [|fuel]; [lia|]. cbn [pieces].
  rewrite next_of_selectors by done. apply Forall_cons in Hs as [Ht Hs]. destruct l as [|u l]; [done|].
  set (rest := join comma (u :: l)) in *. assert (Ej : join comma (t :: u :: l) = t ++ comma :: rest) by done. rewrite Ej in *.
  assert (Ed : drop (S (length t)) (t ++ comma :: rest) = rest) by (by rewrite drop_app_length_S || (rewrite drop_app_ge by lia; by replace (S (length t) - length t)%nat with 1%nat by lia)).
  assert (El : length (t ++ comma :: rest) = S (length t + length rest)) by (rewrite length_app; cbn [length]; lia). rewrite El in Hl, Hf.
  rewrite take_app_length, Ed. f_equal. apply IH; [done|done| |lia|lia].
  intros i. rewrite <- Ed, prefix_at_drop. apply Ho.
Qed.
End Cut.

Lemma join_empty l : join comma l = [] -> l = [] \/ l = [[]].
Proof. destruct l as [|t [|u l]]; cbn; [by left| |by destruct t]. intros ->. by right. Qed.

(** ** Trimming *)

Lemma trim_left_spec t : exists sp, t = sp ++ trim_left t /\ Forall (fun c => isspace c = true) sp /\ match trim_left t with [] => True | c :: _ => isspace c = false end.
Proof.
  induction t as [|c t (sp & E & Hs & Hc)]; [by exists []|]. cbn [trim_left]. destruct (isspace c) eqn:Ec; [|by exists []].
  exists (c :: sp). split_and!; [cbn; by rewrite <- E|by constructor|done].
Qed.
(** A token is what is between blanks. *)
Lemma trim_token_spec t : exists before after, t = before ++ trim_token t ++ after /\ Forall (fun c => isspace c = true) (before ++ after) /\
  (forall c, head (trim_token t) = Some c \/ last (trim_token t) = Some c -> isspace c = false).
Proof.
  unfold trim_token. destruct (trim_left_spec t) as (sp & E & Hs & Hc). destruct (trim_left_spec (rev (trim_left t))) as (sp' & E' & Hs' & Hc').
  set (u := trim_left (rev (trim_left t))) in *. assert (Eu : trim_left t = rev u ++ rev sp') by (rewrite <- rev_app_distr, <- E', rev_involutive; done).
  exists sp, (rev sp'). split_and!.
  - rewrite <- Eu. done.
  - rewrite Forall_app. split; [done|]. apply Forall_rev. done.
  - intros c [H|H].
    + rewrite Eu in Hc. destruct (rev u) as [|x l]; [done|]. cbn in H. injection H as <-. done.
    + destruct u as [|x l]; [done|]. cbn [rev] in H. rewrite last_snoc in H. by injection H as <-.
Qed.

(** ** The builder *)

Lemma doubled_spec fuel : forall c r, 1 <= c -> r <= SIZE_MAX -> SIZE_MAX < c * 2 ^ Z.of_nat fuel -> r <= doubled fuel c r <= Z.max c (2 * r).
Proof.
  induction fuel as [|fuel IH]; intros c r Hc Hr Hf; cbn [doubled]; [lia|]. destruct (Z.ltb_spec c r); [|lia]. destruct (Z.ltb_spec (SIZE_MAX / 2) c); [lia|].
  specialize (IH (c * 2) r ltac:(lia) Hr). rewrite Nat2Z.inj_succ, Z.pow_succ_r in Hf by lia. specialize (IH ltac:(lia)). lia.
Qed.

(** The array has room for its entries and not much more than twice as much. *)
Definition in_bounds (b : TargetBuilder) : Prop := count b <= capacity b <= 2 * count b + 16.

(** An append adds the token behind the others, inside the array, or fails and is reported. *)
Lemma append_outcome b t : in_bounds b ->
  match target_builder_append b t with
  | (true, b') => items b' = items b ++ [t] /\ allocation_failed b' = allocation_failed b /\ in_bounds b'
  | (false, b') => items b' = items b /\ allocation_failed b' = true
  end.
Proof.
  intros Hb. unfold target_builder_append, checked_add_size. destruct (_ <? 1); [done|]. destruct (Z.ltb_spec (SIZE_MAX - count b) 1); [done|].
  assert (Ha : forall b, items (target_config_alloc b).2 = items b /\ capacity (target_config_alloc b).2 = capacity b /\ allocation_failed (target_config_alloc b).2 = allocation_failed b)
    by (intros b'; unfold target_config_alloc; by destruct (allocations b')).
  pose proof (Ha b) as (I1 & C1 & F1). destruct (target_config_alloc b) as [[] b1]; cbn in I1, C1, F1; [|done]. unfold target_builder_grow.
  assert (Hn : count b1 = count b) by (unfold count; by rewrite I1). unfold in_bounds in *.
  destruct (Z.leb_spec (count b + 1) (capacity b1)).
  - cbn. rewrite I1, F1. split_and!; [done|done| |]; unfold count in *; cbn; rewrite length_app; cbn; rewrite ?I1, ?C1 in *; lia.
  - set (cap := doubled _ _ _). assert (Hcap : count b + 1 <= cap <= 2 * (count b + 1) + 8).
    { pose proof (doubled_spec 64 (if capacity b1 =? 0 then 8 else capacity b1) (count b + 1)) as Hd. fold cap in Hd.
      assert (1 <= if capacity b1 =? 0 then 8 else capacity b1) as H1 by (destruct (Z.eqb_spec (capacity b1) 0); unfold count in *; lia).
      specialize (Hd H1 ltac:(lia)). assert (SIZE_MAX < (if capacity b1 =? 0 then 8 else capacity b1) * 2 ^ Z.of_nat 64) as H2 by (unfold SIZE_MAX, UINT64_MAX; lia).
      specialize (Hd H2). destruct (capacity b1 =? 0); unfold count in *; lia. }
    clearbody cap. destruct (checked_mul_size cap POINTER_SIZE); [|by cbn; rewrite I1].
    pose proof (Ha b1) as (I2 & C2 & F2). destruct (target_config_alloc b1) as [[] b2]; cbn in *; rewrite ?I2, ?I1; [|done].
    split_and!; [done|congruence| |]; unfold count in *; cbn; rewrite length_app; cbn; lia.
Qed.

(** Small enough not to overflow. *)
Definition LIMIT : Z := 2 ^ 58.
Lemma append_succeeds b t : in_bounds b -> allocations b = [] -> count b < LIMIT -> Z.of_nat (length t) < LIMIT ->
  (target_builder_append b t).1 = true /\ allocations (target_builder_append b t).2 = [].
Proof.
  intros Hb Ha Hc Ht. unfold target_builder_append, checked_add_size, LIMIT in *. rewrite !(proj2 (Z.ltb_ge _ _)) by (unfold SIZE_MAX, UINT64_MAX; lia).
  unfold target_config_alloc. rewrite Ha. cbn [fst snd]. unfold target_builder_grow, in_bounds in *. destruct (Z.leb_spec (count b + 1) (capacity b)); [by rewrite <- Ha|].
  set (c0 := if capacity b =? 0 then 8 else capacity b). assert (H0 : 1 <= c0 <= 2 * count b + 16) by (unfold c0; destruct (Z.eqb_spec (capacity b) 0); unfold count in *; lia).
  pose proof (doubled_spec 64 c0 (count b + 1) ltac:(lia) ltac:(unfold SIZE_MAX, UINT64_MAX; lia) ltac:(unfold SIZE_MAX, UINT64_MAX; lia)) as Hd.
  set (cap := doubled _ _ _) in *. clearbody cap. assert (Hm : checked_mul_size cap POINTER_SIZE = Some (cap * POINTER_SIZE)).
  { unfold checked_mul_size, POINTER_SIZE. rewrite (proj2 (Z.ltb_ge _ _)), andb_false_r; [done|]. apply Z.div_le_lower_bound; unfold count, SIZE_MAX, UINT64_MAX in *; lia. }
  rewrite Hm. unfold target_config_alloc. rewrite Ha. done.
Qed.

(** ** Sources *)

(** What a step adds to the array for a token. *)
Definition adds (work : TargetBuilder -> cstring -> bool * TargetBuilder) (contribution : cstring -> list cstring) : Prop :=
  forall b t, in_bounds b -> allocation_failed b = false ->
    match work b t with
    | (true, b') => items b' = items b ++ contribution t /\ allocation_failed b' = false /\ in_bounds b'
    | (false, b') => exists l, l `prefix_of` contribution t /\ items b' = items b ++ l /\ allocation_failed b' = true
    end.
(** It adds all of it when memory is given. *)
Definition never_fails (work : TargetBuilder -> cstring -> bool * TargetBuilder) (contribution : cstring -> list cstring) : Prop :=
  forall b t, in_bounds b -> allocation_failed b = false -> allocations b = [] -> count b + Z.of_nat (length (contribution t)) <= LIMIT -> Forall (fun x => Z.of_nat (length x) < LIMIT) (contribution t) ->
    (work b t).1 = true /\ allocations (work b t).2 = [].

(** From [b] to [b'] a part of [all] was added, and all of it unless an allocation failed. *)
Definition extends (all : list cstring) (b b' : TargetBuilder) : Prop :=
  exists l, l `prefix_of` all /\ items b' = items b ++ l /\ (allocation_failed b' = false -> l = all).
Definition complete (all : list cstring) (b b' : TargetBuilder) : Prop :=
  allocations b = [] -> count b + Z.of_nat (length all) <= LIMIT -> Forall (fun x => Z.of_nat (length x) < LIMIT) all -> allocation_failed b' = false /\ allocations b' = [].

Lemma extends_step all all' b b1 b' : items b1 = items b ++ all -> extends all' b1 b' -> extends (all ++ all') b b'.
Proof.
  intros E (l & Hl & Ei & Hf). exists (all ++ l). split_and!; [by apply prefix_app|by rewrite Ei, E, app_assoc|]. intros H. by rewrite Hf.
Qed.

Section Loop.
Context (next : cstring -> option nat) (work : TargetBuilder -> cstring -> bool * TargetBuilder) (contribution : cstring -> list cstring).
Hypothesis work_adds : adds work contribution.
Hypothesis work_succeeds : never_fails work contribution.

Lemma tokens_loop_outcome fuel : forall token b, in_bounds b -> allocation_failed b = false -> (length token < fuel)%nat -> (forall t p, next t = Some p -> (p < length t)%nat) ->
  let b' := tokens_loop next work fuel token b in let all := concat (map contribution (pieces next fuel token)) in extends all b b' /\ complete all b b'.
Proof.
  induction fuel as [|fuel IH]; intros token b Hb Hf Hl Hn; [lia|]. cbn [tokens_loop pieces]. destruct (next token) as [p|] eqn:En.
  - cbn [map concat]. pose proof (work_adds b (take p token) Hb Hf) as Hw. pose proof (work_succeeds b (take p token) Hb Hf) as Hs. apply Hn in En.
    destruct (work b (take p token)) as [[] b1].
    + destruct Hw as (Ei & Hf1 & Hb1). specialize (IH (drop (S p) token) b1 Hb1 Hf1 ltac:(rewrite length_drop; lia) Hn). destruct IH as [He Hc].
      split; [by eapply extends_step|]. intros Ha Hlim Hall. rewrite length_app in Hlim. apply Forall_app in Hall as [Hall1 Hall2].
      destruct (Hs Ha ltac:(lia) Hall1) as [_ Ha1]. apply Hc; [done| |done]. unfold count in *. rewrite Ei, length_app. lia.
    + destruct Hw as (l & Hp & Ei & Hf1). split.
      * exists l. split_and!; [by apply prefix_app_r|done|congruence].
      * intros Ha Hlim Hall. rewrite length_app in Hlim. apply Forall_app in Hall as [Hall1 _]. by destruct (Hs Ha ltac:(lia) Hall1).
  - cbn [map concat]. rewrite app_nil_r. pose proof (work_adds b token Hb Hf) as Hw. pose proof (work_succeeds b token Hb Hf) as Hs.
    destruct (work b token) as [[] b1]; cbn [fst snd] in *.
    + destruct Hw as (Ei & Hf1 & Hb1). split; [by exists (contribution token)|]. intros Ha Hlim Hall. by destruct (Hs Ha Hlim Hall).
    + destruct Hw as (l & Hp & Ei & Hf1). split; [exists l; split_and!; [done|done|congruence]|]. intros Ha Hlim Hall. by destruct (Hs Ha Hlim Hall).
Qed.

End Loop.

Definition trimmed (t : cstring) : list cstring := match trim_token t with [] => [] | x => [x] end.

Lemma append_trimmed_adds : adds append_trimmed_token trimmed.
Proof.
  intros b t Hb Hf. unfold append_trimmed_token, trimmed. destruct (trim_token t) as [|c x]; [by rewrite app_nil_r; auto|].
  pose proof (append_outcome b (c :: x) Hb) as H. destruct (target_builder_append b (c :: x)) as [[] b']; [rewrite Hf in H; tauto|].
  destruct H as [Hi Hf']. exists []. split_and!; [apply prefix_nil|by rewrite app_nil_r|done].
Qed.
Lemma append_trimmed_succeeds : never_fails append_trimmed_token trimmed.
Proof.
  intros b t Hb Hf Ha Hl Hs. unfold append_trimmed_token, trimmed in *. destruct (trim_token t) as [|c x]; [done|].
  apply append_succeeds; try done; [cbn in Hl; lia|]. by inversion Hs.
Qed.

Lemma lines_loop_outcome lines : forall b, in_bounds b -> allocation_failed b = false ->
  let all := concat (map trimmed lines) in extends all b (lines_loop lines b) /\ complete all b (lines_loop lines b).
Proof.
  induction lines as [|t lines IH]; intros b Hb Hf; cbn [lines_loop map concat].
  - split; [exists []; split_and!; [apply prefix_nil|by rewrite app_nil_r|done]|done].
  - pose proof (append_trimmed_adds b t Hb Hf) as Hw. pose proof (append_trimmed_succeeds b t Hb Hf) as Hs. destruct (append_trimmed_token b t) as [[] b1].
    + destruct Hw as (Ei & Hf1 & Hb1). destruct (IH b1 Hb1 Hf1) as [He Hc]. split; [by eapply extends_step|]. intros Ha Hlim Hall.
      rewrite length_app in Hlim. apply Forall_app in Hall as [Hall1 Hall2]. destruct (Hs Ha ltac:(lia) Hall1) as [_ Ha1]. apply Hc; [done| |done].
      unfold count in *. rewrite Ei, length_app. lia.
    + destruct Hw as (l & Hp & Ei & Hf1). split.
      * exists l. split_and!; [by apply prefix_app_r|done|congruence].
      * intros Ha Hlim Hall. rewrite length_app in Hlim. apply Forall_app in Hall as [Hall1 _]. by destruct (Hs Ha ltac:(lia) Hall1).
Qed.

Section Groups.
Context (groups : string -> list cstring).
Definition group_symbols (t : cstring) : list cstring := match trim_token t with [] => [] | x => default [] (find_target_group groups x) end.

Lemma append_all_outcome l : forall b, in_bounds b -> allocation_failed b = false ->
  let b' := append_all l b in
  extends l b b' /\ complete l b b' /\ (allocation_failed b' = false -> in_bounds b').
Proof.
  induction l as [|x l IH]; intros b Hb Hf; cbn [append_all].
  - split_and!; [exists []; split_and!; [apply prefix_nil|by rewrite app_nil_r|done]|done|done].
  - pose proof (append_outcome b x Hb) as Hw. pose proof (append_succeeds b x Hb) as Hs. destruct (target_builder_append b x) as [[] b1]; cbn [fst snd] in *.
    + destruct Hw as (Ei & Hf1 & Hb1). rewrite Hf in Hf1. destruct (IH b1 Hb1 Hf1) as (He & Hc & Hi). split_and!; [by apply (extends_step [x] l b b1)| |done].
      intros Ha Hlim Hall. inversion Hall; subst. cbn [length] in Hlim. destruct (Hs Ha ltac:(lia) ltac:(done)) as [_ Ha1]. apply Hc; [done| |done].
      unfold count in *. rewrite Ei, length_app. cbn. lia.
    + destruct Hw as [Ei Hf1]. split_and!; [exists []; split_and!; [apply prefix_nil|by rewrite app_nil_r|congruence]| |congruence].
      intros Ha Hlim Hall. inversion Hall; subst. cbn [length] in Hlim. by destruct (Hs Ha ltac:(lia) ltac:(done)).
Qed.

Lemma append_group_state b t : (append_group groups b t).2 = append_all (group_symbols t) b.
Proof. unfold append_group, group_symbols. cbn [fst snd]. destruct (trim_token t) as [|c x]; [done|]. by destruct (find_target_group groups (c :: x)). Qed.
Lemma append_group_adds : adds (append_group groups) group_symbols.
Proof.
  intros b t Hb Hf. pose proof (append_all_outcome (group_symbols t) b Hb Hf) as ((l & Hl & Ei & Hall) & _ & Hi). pose proof (append_group_state b t) as E.
  destruct (append_group groups b t) as [r b'] eqn:Eg. cbn in E. subst b'. unfold append_group in Eg. injection Eg as Er Eb. rewrite Eb in Er.
  destruct (allocation_failed (append_all (group_symbols t) b)) eqn:Ef; subst r; cbn [negb].
  - by exists l.
  - rewrite <- Hall at 2 by done. auto.
Qed.
Lemma append_group_succeeds : never_fails (append_group groups) group_symbols.
Proof.
  intros b t Hb Hf Ha Hlim Hs. pose proof (append_all_outcome (group_symbols t) b Hb Hf) as (_ & Hc & _). destruct (Hc Ha Hlim Hs) as [Hf' Ha'].
  pose proof (append_group_state b t) as E. rewrite E. split; [|done]. unfold append_group in *. cbn [fst snd] in *. by rewrite E, Hf'.
Qed.

End Groups.

(** ** Repeated names *)

Lemma deduplicate_spec l : forall u, NoDup u -> let r := deduplicate u l in NoDup r /\ (forall x, x ∈ r <-> x ∈ u \/ x ∈ l) /\ exists k, r = u ++ k /\ k `sublist_of` l.
Proof.
  induction l as [|t l IH]; intros u Hu; cbn [deduplicate].
  - split_and!; [done|set_solver|exists []; by rewrite app_nil_r].
  - assert (Hb : existsb (fun u => bool_decide (t = u)) u = true <-> t ∈ u).
    { rewrite existsb_exists. setoid_rewrite bool_decide_eq_true. rewrite list_elem_of_In. naive_solver. }
    destruct (existsb _ u).
    + destruct (IH u Hu) as (H1 & H2 & k & Hk & Hs). split_and!; [done|intros x; rewrite H2; assert (t ∈ u) by (by apply Hb); set_solver|exists k; split; [done|by constructor]].
    + assert (t ∉ u) by (intros H; by apply Hb in H). assert (Hu' : NoDup (u ++ [t])) by (apply NoDup_app; split_and!; [done|set_solver|apply NoDup_singleton]).
      destruct (IH _ Hu') as (H1 & H2 & k & Hk & Hs). split_and!; [done|intros x; rewrite H2; set_solver|]. exists (t :: k). rewrite Hk, <- app_assoc. split; [done|by constructor].
Qed.

(** ** All sources *)

(** One source: the old entries, a part of what was asked for, all of it when memory is given. *)
Definition loaded (all l : list cstring) (answers : list bool) (r : list cstring * nat * list bool) : Prop :=
  exists k, r.1.1 = l ++ k /\ r.1.2 = length k /\ k `prefix_of` all /\
    (answers = [] -> Z.of_nat (length l) + Z.of_nat (length all) <= LIMIT -> Forall (fun x => Z.of_nat (length x) < LIMIT) all -> k = all /\ r.2 = []).

Lemma finish_loaded all l answers b : extends all (target_builder_from_result l answers) b -> complete all (target_builder_from_result l answers) b ->
  loaded all l answers (target_builder_finish b (length l), allocations b).
Proof.
  intros (k & Hk & Ei & Hall) Hc. exists k. cbn in *. rewrite Ei, length_app. split_and!; [done|lia|done|]. intros -> Hl Hs.
  destruct (Hc eq_refl Hl Hs) as [Hf Ha]. split; [by apply Hall|done].
Qed.
Lemma nothing_loaded l answers : loaded [] l answers (l, 0%nat, answers).
Proof. exists []. split_and!; [by rewrite app_nil_r|done|done|done]. Qed.

Lemma from_result_in_bounds l answers : in_bounds (target_builder_from_result l answers).
Proof. unfold in_bounds, count. cbn. lia. Qed.

(** The copy of a value: the array is as before and memory is still given. *)
Lemma duplicate_outcome l answers v : Z.of_nat (length v) < SIZE_MAX ->
  match target_config_duplicate (target_builder_from_result l answers) v with
  | (true, b) => b = target_builder_from_result l (tail answers)
  | (false, b) => items b = l /\ answers <> []
  end.
Proof.
  intros Hv. unfold target_config_duplicate, checked_add_size, target_config_alloc. rewrite (proj2 (Z.ltb_ge _ _)) by lia. by destruct answers as [|[] rest].
Qed.

Lemma tokens_loaded next work contribution l answers v : adds work contribution -> never_fails work contribution -> (forall t p, next t = Some p -> (p < length t)%nat) -> Z.of_nat (length v) < SIZE_MAX ->
  loaded (concat (map contribution (pieces next (S (length v)) v))) l answers
    match target_config_duplicate (target_builder_from_result l answers) v with
    | (false, b) => (target_builder_finish b (length l), allocations b)
    | (true, b) => let b := tokens_loop next work (S (length v)) v b in (target_builder_finish b (length l), allocations b)
    end.
Proof.
  intros Ha Hn Hp Hv. pose proof (duplicate_outcome l answers v Hv) as Hd. destruct (target_config_duplicate _ _) as [[] b].
  - subst b. cbn zeta. destruct (tokens_loop_outcome next work contribution Ha Hn (S (length v)) v (target_builder_from_result l (tail answers)) (from_result_in_bounds _ _) eq_refl ltac:(lia) Hp) as [He Hc].
    destruct (finish_loaded _ l (tail answers) _ He Hc) as (k & E1 & E2 & Hk & Hall). exists k. split_and!; try done. intros ->. by apply Hall.
  - destruct Hd as [Ei Hne]. exists []. cbn. rewrite Ei. split_and!; [by rewrite app_nil_r|lia|apply prefix_nil|done].
Qed.

Section Configuration.
Context (calloc_ok : bool) (realloc_ok : Z -> bool) (groups : string -> list cstring).

(** What the variable asks for: it is cut at commas that are not part of an
    operator's name; and when it is a list of selectors in plain notation
    separated by commas, and the scanner gets its memory, these are the tokens. *)
Definition asks_tokens (v : cstring) (A : list cstring) : Prop :=
  (exists tokens, cut_up v tokens /\ A = concat (map trimmed tokens)) /\
  (calloc_ok = true -> (forall n, realloc_ok n = true) -> Z.of_nat (length v) < LIMIT -> no_operator v ->
   forall selectors, Forall selector selectors -> v = join comma selectors -> A = concat (map trimmed selectors)).

(** What the three sources ask for; the group names are cut at every comma. *)
Definition asks (target : option cstring) (file : option (list cstring)) (group : option cstring) (A B C : list cstring) : Prop :=
  asks_tokens (default [] target) A /\
  B = concat (map trimmed (default [] file)) /\
  (exists names, join comma names = default [] group /\ Forall (fun n => comma ∉ n) names /\ C = concat (map (group_symbols groups) names)).
Definition small (l : list cstring) : Prop := Z.of_nat (length l) <= LIMIT /\ Forall (fun x => Z.of_nat (length x) < LIMIT) l.
Definition value_ok (v : option cstring) : Prop := Z.of_nat (length (default [] v)) < SIZE_MAX.

Lemma nothing_asked : asks_tokens [] [].
Proof.
  split; [exists [[]]; split; [constructor|done]|]. intros _ _ _ _ l _ E. symmetry in E. by destruct (join_empty l E) as [->| ->].
Qed.

Lemma parse_loaded v answers : value_ok v -> exists A, asks_tokens (default [] v) A /\ loaded A [] answers (parse_env_w_delim calloc_ok realloc_ok v comma answers).
Proof.
  intros Hv. unfold parse_env_w_delim. destruct v as [[|c v]|]; [exists []; split; [apply nothing_asked|apply nothing_loaded]| |exists []; split; [apply nothing_asked|apply nothing_loaded]].
  set (next := fun t => target_config_next_delimiter calloc_ok realloc_ok t comma). set (w := c :: v) in *.
  exists (concat (map trimmed (pieces next (S (length w)) w))). split; [split|].
  - eexists. split; [apply pieces_cut_up, Nat.lt_succ_diag_r|done].
  - intros Hc Hr Hl Ho l Hs E. do 2 f_equal. change (w = join comma l) in E. unfold next. rewrite Hc, E. change (default [] (Some w)) with w in *. rewrite E in Hl, Ho.
    apply pieces_selectors; [done| |done|done|done|apply Nat.lt_succ_diag_r]. by intros ->.
  - change (comma =? 0) with false. cbn match. apply tokens_loaded; [apply append_trimmed_adds|apply append_trimmed_succeeds| |done].
    intros t p E. apply next_delimiter_cut_here in E; [|done]. destruct E as [E _]. by eapply lookup_lt_Some.
Qed.

Lemma groups_loaded v l answers : value_ok v -> exists names, join comma names = default [] v /\ Forall (fun n => comma ∉ n) names /\
  loaded (concat (map (group_symbols groups) names)) l answers (load_symbols_from_array groups v l answers).
Proof.
  intros Hv. unfold load_symbols_from_array.
  destruct v as [[|c v]|]; [exists []; split_and!; [done|done|apply nothing_loaded]| |exists []; split_and!; [done|done|apply nothing_loaded]].
  exists (pieces (index_of comma) (S (length (c :: v))) (c :: v)). split_and!; [apply pieces_join; [apply index_of_cuts|apply Nat.lt_succ_diag_r]|apply pieces_without, Nat.lt_succ_diag_r|].
  apply tokens_loaded; [apply append_group_adds|apply append_group_succeeds| |done]. intros t p E. apply index_of_cuts in E. by eapply lookup_lt_Some.
Qed.

Lemma file_loaded file l answers : loaded (concat (map trimmed (default [] file))) l answers (load_profiling_symbols file l answers).
Proof.
  destruct file as [lines|]; [|apply nothing_loaded]. unfold load_profiling_symbols. destruct (lines_loop_outcome lines _ (from_result_in_bounds l answers) eq_refl). by apply finish_loaded.
Qed.

(** C36: the targets are the tokens of the variable, the lines of the file and the
    symbols of the groups, trimmed, in this order and each once.  The variable is
    cut at commas outside of operator names; when it is a list, separated by
    commas, of selectors with matching brackets (round, square, curly, angle) and
    commas inside of them only, without [=] and operator names, the tokens are
    these selectors (with memory for the scanner).  The names of groups are cut at
    every comma.  When allocations fail, each source still gives a prefix of what
    it asks for and nothing else; when none fails, all of it (below 2^58 entries
    and bytes). *)
Theorem configured_targets_exact target file group answers : value_ok target -> value_ok group ->
  exists A B C a b c, asks target file group A B C /\ a `prefix_of` A /\ b `prefix_of` B /\ c `prefix_of` C /\
    (answers = [] -> small (A ++ B ++ C) -> a = A /\ b = B /\ c = C) /\
    let r := configured_targets calloc_ok realloc_ok groups target file group answers in
    NoDup r /\ r `sublist_of` a ++ b ++ c /\ forall x, x ∈ r <-> x ∈ a ++ b ++ c.
Proof.
  intros Ht Hg. unfold configured_targets. destruct (parse_loaded target answers Ht) as (A & Htok & a & Ea & Na & Pa & Fa).
  destruct (parse_env_w_delim calloc_ok realloc_ok target comma answers) as [[l n] answers1]. cbn [fst snd app] in *. subst l n.
  destruct (file_loaded file a answers1) as (b & Eb & Nb & Pb & Fb). destruct (load_profiling_symbols file a answers1) as [[l n] answers2]. cbn [fst snd] in *. subst l n.
  destruct (groups_loaded group (a ++ b) answers2 Hg) as (names & Hnames & Hcommas & c & Ec & Nc & Pc & Fc).
  destruct (load_symbols_from_array groups group (a ++ b) answers2) as [[l n] answers3]. cbn [fst snd] in *. subst l n.
  exists A, (concat (map trimmed (default [] file))), (concat (map (group_symbols groups) names)), a, b, c.
  split; [split_and!; [done|done|by exists names]|]. do 3 (split; [done|]). split.
  - intros -> [Hl Hs]. rewrite !length_app in Hl. rewrite !Forall_app in Hs. destruct Hs as (S1 & S2 & S3).
    destruct (Fa eq_refl ltac:(cbn; lia) S1) as [-> ->]. destruct (Fb eq_refl ltac:(lia) S2) as [-> ->]. destruct (Fc eq_refl ltac:(rewrite length_app; lia) S3) as [-> _]. done.
  - rewrite take_ge by (rewrite !length_app; lia). rewrite <- app_assoc. destruct (deduplicate_spec (a ++ b ++ c) [] ltac:(constructor)) as (H1 & H2 & k & Hk & Hs).
    cbn zeta. unfold peak_deduplicate_target_names. split; [done|]. split; [by rewrite Hk|]. intros x. rewrite H2. set_solver.
Qed.

End Configuration.

(** A variable, a file and a group, the second symbol of which has no memory. *)
Definition demo_groups (g : string) : list cstring := if String.eqb g "FFTW" then [bytes "fftw_plan"; bytes "fftw_execute"] else [].
Definition demo_value : cstring := bytes "f(int, int), g<a, b>::h ,,".
Definition demo_selectors : list cstring := [bytes "f(int, int)"; bytes " g<a, b>::h "; []; []].

Lemma demo_selector : Forall selector demo_selectors.
Proof.
  assert (Hp : forall t : cstring, Forall (fun c => punctuation c = false) t -> notation true t) by (intros t; induction 1; by constructor).
  assert (Ho : forall t t' : cstring, Forall (fun c => punctuation c = false /\ c <> comma) t -> selector t' -> selector (t ++ t')).
  { intros t t' H Ht'. induction H as [|c t [Hc Hne] _ IH]; [done|]. by constructor. }
  repeat apply Forall_cons_2; [| |constructor|constructor|constructor].
  - apply (Ho (bytes "f")); [repeat constructor; by vm_compute|]. apply (notation_group false (ch "(") (ch ")") (bytes "int, int") []); [set_solver| |constructor].
    apply Hp. repeat constructor.
  - apply (Ho (bytes " g")); [repeat constructor; by vm_compute|]. apply (notation_group false (ch "<") (ch ">") (bytes "a, b") (bytes "::h ")); [set_solver|apply Hp; repeat constructor|].
    rewrite <- (app_nil_r (bytes "::h ")). apply Ho; [repeat constructor; by vm_compute|constructor].
Qed.

Lemma configured_targets_exact_witness : exists A B C a b c, asks true (fun _ => true) demo_groups (Some demo_value) (Some [bytes " h"]) (Some (bytes "FFTW")) A B C /\
  A = [bytes "f(int, int)"; bytes "g<a, b>::h"] /\ c `prefix_of` C /\ bytes "f(int, int)" ∈ a ++ b ++ c /\ bytes "fftw_execute" ∉ a ++ b ++ c.
Proof.
  destruct (configured_targets_exact true (fun _ => true) demo_groups (Some demo_value) (Some [bytes " h"]) (Some (bytes "FFTW")) (replicate 9 true ++ [false]) eq_refl eq_refl)
    as (A & B & C & a & b & c & Hask & _ & _ & Hc & _ & Hn & Hsub & Hel).
  exists A, B, C, a, b, c. set (r := configured_targets _ _ _ _ _ _ _) in *.
  assert (Er : r = [bytes "f(int, int)"; bytes "g<a, b>::h"; bytes "h"; bytes "fftw_plan"]) by (vm_compute; reflexivity).
  split; [exact Hask|]. split.
  - destruct Hask as [[_ HA] _]. apply (HA eq_refl (fun _ => eq_refl) ltac:(vm_compute; reflexivity)) with (selectors := demo_selectors); [|apply demo_selector|reflexivity].
    intros i. destruct (decide (26 <= i)%nat) as [Hi|Hi]; [by apply prefix_at_out|]. do 26 (destruct i as [|i]; [reflexivity|]). lia.
  - split; [exact Hc|]. rewrite <- !Hel, Er. split; [apply list_elem_of_here|]. intros Hin. apply list_elem_of_In in Hin. vm_compute in Hin. intuition discriminate.
Defined.

End TargetProofs.
