(* ===== verification/RuntimeGate.v ===== *)
(** * Activation, checkpoints and teardown of the runtime

    [src/peak.c]: one thread activates the profiler, one thread tears it down,
    and threads about to exec write checkpoints in between; activation can be
    closed by an exit that comes first.  Every atomic access is a step of one
    thread and the threads interleave freely; waits end when what they wait
    for has happened or give up. *)

From S2P Require Import Prelude.

Module Runtime.

Inductive PeakRuntimeActivationState :=
  | PEAK_RUNTIME_ACTIVATION_NOT_READY | PEAK_RUNTIME_ACTIVATION_READY | PEAK_RUNTIME_ACTIVATION_IN_PROGRESS
  | PEAK_RUNTIME_ACTIVATION_ACTIVE | PEAK_RUNTIME_ACTIVATION_CANCELED | PEAK_RUNTIME_ACTIVATION_REJECTED
  | PEAK_RUNTIME_ACTIVATION_WAIT_TIMEOUT.
#[export] Instance activation_eq_dec : EqDecision PeakRuntimeActivationState.
Proof. solve_decision. Defined.
Inductive PeakFiniState := PEAK_FINI_NOT_STARTED | PEAK_FINI_IN_PROGRESS | PEAK_FINI_DONE.
#[export] Instance fini_eq_dec : EqDecision PeakFiniState.
Proof. solve_decision. Defined.

Definition PEAK_EXEC_CHECKPOINT_GATE_CLOSING : Z := 2 ^ 31.
Definition PEAK_EXEC_CHECKPOINT_GATE_READERS : Z := PEAK_EXEC_CHECKPOINT_GATE_CLOSING - 1.
Definition PEAK_EXIT_STATUS_VALID : Z := 2 ^ 63.
Definition PEAK_EXEC_CHECKPOINT_FINI_WAIT_TIMEOUT_MS : Z := 5000.

(** What the threads share; [lost_readers] counts releases whose lock failed and
    [teardowns] the entries of [peak_fini_impl]. *)
Record runtime := mkRuntime {
  peak_runtime_activation_state : PeakRuntimeActivationState;
  peak_runtime_activation_owner : option nat;
  peak_runtime_active : bool;
  peak_fini_state : PeakFiniState;
  peak_exec_checkpoint_gate : Z;
  peak_exec_checkpoint_counter : Z;
  peak_exit_status : Z;
  lost_readers : nat;
  teardowns : nat
}.
Definition initial_runtime : runtime := mkRuntime PEAK_RUNTIME_ACTIVATION_NOT_READY None false PEAK_FINI_NOT_STARTED 0 0 0 0 0.

Definition set_activation (x : PeakRuntimeActivationState) (s : runtime) : runtime :=
  mkRuntime x (peak_runtime_activation_owner s) (peak_runtime_active s) (peak_fini_state s) (peak_exec_checkpoint_gate s) (peak_exec_checkpoint_counter s) (peak_exit_status s) (lost_readers s) (teardowns s).
Definition set_owner (t : nat) (s : runtime) : runtime :=
  mkRuntime (peak_runtime_activation_state s) (Some t) (peak_runtime_active s) (peak_fini_state s) (peak_exec_checkpoint_gate s) (peak_exec_checkpoint_counter s) (peak_exit_status s) (lost_readers s) (teardowns s).
Definition set_active (s : runtime) : runtime :=
  mkRuntime (peak_runtime_activation_state s) (peak_runtime_activation_owner s) true (peak_fini_state s) (peak_exec_checkpoint_gate s) (peak_exec_checkpoint_counter s) (peak_exit_status s) (lost_readers s) (teardowns s).
Definition set_fini (x : PeakFiniState) (s : runtime) : runtime :=
  mkRuntime (peak_runtime_activation_state s) (peak_runtime_activation_owner s) (peak_runtime_active s) x (peak_exec_checkpoint_gate s) (peak_exec_checkpoint_counter s) (peak_exit_status s) (lost_readers s) (teardowns s).
Definition set_gate (g : Z) (s : runtime) : runtime :=
  mkRuntime (peak_runtime_activation_state s) (peak_runtime_activation_owner s) (peak_runtime_active s) (peak_fini_state s) g (peak_exec_checkpoint_counter s) (peak_exit_status s) (lost_readers s) (teardowns s).
Definition count_checkpoint (s : runtime) : runtime :=
  mkRuntime (peak_runtime_activation_state s) (peak_runtime_activation_owner s) (peak_runtime_active s) (peak_fini_state s) (peak_exec_checkpoint_gate s) (wrap 64 (peak_exec_checkpoint_counter s + 1)) (peak_exit_status s) (lost_readers s) (teardowns s).
Definition set_exit_status (x : Z) (s : runtime) : runtime :=
  mkRuntime (peak_runtime_activation_state s) (peak_runtime_activation_owner s) (peak_runtime_active s) (peak_fini_state s) (peak_exec_checkpoint_gate s) (peak_exec_checkpoint_counter s) x (lost_readers s) (teardowns s).
Definition lose_reader (s : runtime) : runtime :=
  mkRuntime (peak_runtime_activation_state s) (peak_runtime_activation_owner s) (peak_runtime_active s) (peak_fini_state s) (peak_exec_checkpoint_gate s) (peak_exec_checkpoint_counter s) (peak_exit_status s) (S (lost_readers s)) (teardowns s).
Definition begin_teardown (s : runtime) : runtime :=
  mkRuntime (peak_runtime_activation_state s) (peak_runtime_activation_owner s) (peak_runtime_active s) (peak_fini_state s) (peak_exec_checkpoint_gate s) (peak_exec_checkpoint_counter s) (peak_exit_status s) (lost_readers s) (S (teardowns s)).

(** ** Where a thread stands *)

(** [peak_fini] and [peak_exit] both close the activation. *)
Inductive caller := In_fini | In_exit (status : Z).
Inductive point :=
  (* peak_activate_runtime: the claim, the owner, the body, the flag, the publication, the wait *)
  | Activate_claim | Activate_own | Activate_body | Activate_mark | Activate_publish (x : PeakRuntimeActivationState) | Activate_wait
  (* peak_runtime_close_activation_for_teardown *)
  | Close_load (k : caller) | Close_cas (k : caller) | Close_wait (k : caller)
  (* peak_exit: the status *)
  | Exit_publish (status : Z)
  (* peak_fini *)
  | Fini_check | Fini_claim | Fini_close | Fini_drain | Fini_impl | Fini_publish | Fini_follow
  (* peak_checkpoint_for_exec: the loads of the flag and of the state before and after the gate *)
  | Ckpt_active (second : bool) | Ckpt_fini (second : bool) | Ckpt_load | Ckpt_cas (observed : Z) | Ckpt_write | Ckpt_release.

(** How a step goes: as written, a weak exchange that fails or a wait that
    wakes too early, a wait that is given up, an activation that is refused, a
    lock that cannot be taken. *)
Inductive choice := Proceed | Again | Give_up | Refuse | Lock_fails.

Section Thread.
Context (fork_child : bool) (me : nat).

(** What the thread does next; [None] when the call returns. *)
Definition next (p : point) (s : runtime) : option point * runtime := (Some p, s).
Definition return_ (s : runtime) : option point * runtime := (None, s).

(** The first points of the calls. *)
Definition peak_activate_runtime : point := Activate_claim.
Definition peak_runtime_close_activation_for_teardown (k : caller) : option point :=
  if fork_child then None else Some (Close_load k).
Definition peak_fini : option point := peak_runtime_close_activation_for_teardown In_fini.
Definition peak_exit (status : Z) : option point := peak_runtime_close_activation_for_teardown (In_exit status).
Definition peak_checkpoint_for_exec (enabled_at_startup : bool) : option point := if enabled_at_startup then Some (Ckpt_active false) else None.

(** What the caller of the close does with the result. *)
Definition closed (k : caller) (result : PeakRuntimeActivationState) (s : runtime) : option point * runtime :=
  match k with
  | In_fini => next Fini_check s
  | In_exit status =>
      if bool_decide (result = PEAK_RUNTIME_ACTIVATION_ACTIVE) then next (Exit_publish status) s
      else match peak_fini with Some p => next p s | None => return_ s end
  end.

(** [None] while it waits. *)
Definition peak_runtime_activation_wait_for_terminal (c : choice) (s : runtime) : option PeakRuntimeActivationState :=
  let state := peak_runtime_activation_state s in
  if negb (bool_decide (state = PEAK_RUNTIME_ACTIVATION_IN_PROGRESS)) then Some state
  else if bool_decide (peak_runtime_activation_owner s = Some me) then Some PEAK_RUNTIME_ACTIVATION_IN_PROGRESS
  else match c with Give_up => Some PEAK_RUNTIME_ACTIVATION_WAIT_TIMEOUT | _ => None end.

(** With and without the mutex. *)
Definition peak_runtime_activation_publish (x : PeakRuntimeActivationState) (s : runtime) : runtime := set_activation x s.

Definition peak_publish_exit_status (status : Z) (s : runtime) : runtime :=
  if peak_exit_status s =? 0 then set_exit_status (Z.lor PEAK_EXIT_STATUS_VALID (status mod 2 ^ 32)) s else s.

Definition activate_step (p : point) (c : choice) (s : runtime) : option point * runtime :=
  match p with
  | Activate_claim =>
      if bool_decide (peak_runtime_activation_state s = PEAK_RUNTIME_ACTIVATION_READY) then next Activate_own (set_activation PEAK_RUNTIME_ACTIVATION_IN_PROGRESS s)
      else if bool_decide (peak_runtime_activation_state s = PEAK_RUNTIME_ACTIVATION_IN_PROGRESS) then next Activate_wait s
      else return_ s
  | Activate_own => next Activate_body (set_owner me s)
  | Activate_body => match c with Refuse => next (Activate_publish PEAK_RUNTIME_ACTIVATION_REJECTED) s | _ => next Activate_mark s end
  | Activate_mark => next (Activate_publish PEAK_RUNTIME_ACTIVATION_ACTIVE) (set_active s)
  | Activate_publish x => return_ (peak_runtime_activation_publish x s)
  | Activate_wait => match peak_runtime_activation_wait_for_terminal c s with Some _ => return_ s | None => next Activate_wait s end
  | _ => next p s
  end.

Definition close_step (p : point) (c : choice) (s : runtime) : option point * runtime :=
  match p with
  | Close_load k =>
      if bool_decide (peak_runtime_activation_state s = PEAK_RUNTIME_ACTIVATION_READY) then next (Close_cas k) s else next (Close_wait k) s
  | Close_cas k =>
      match c with
      | Again => next (Close_load k) s
      | _ =>
          if bool_decide (peak_runtime_activation_state s = PEAK_RUNTIME_ACTIVATION_READY) then closed k PEAK_RUNTIME_ACTIVATION_CANCELED (set_activation PEAK_RUNTIME_ACTIVATION_CANCELED s)
          else next (Close_load k) s
      end
  | Close_wait k => match peak_runtime_activation_wait_for_terminal c s with Some r => closed k r s | None => next p s end
  | Exit_publish status =>
      let s := peak_publish_exit_status status s in match peak_fini with Some p => next p s | None => return_ s end
  | _ => next p s
  end.

Definition readers (s : runtime) : Z := Z.land (peak_exec_checkpoint_gate s) PEAK_EXEC_CHECKPOINT_GATE_READERS.

(** [None] while it waits; the unlock may fail after the last reader has gone. *)
Definition peak_exec_checkpoint_wait_for_readers (c : choice) (s : runtime) : option bool :=
  if readers s =? 0 then match c with Lock_fails => Some false | _ => Some true end
  else match c with Give_up | Lock_fails => Some false | _ => None end.
(** With and without the gate's mutex. *)
Definition peak_fini_publish_done (s : runtime) : runtime := set_fini PEAK_FINI_DONE s.
Definition peak_fini_wait_for_completion (c : choice) (s : runtime) : bool :=
  negb (bool_decide (peak_fini_state s = PEAK_FINI_IN_PROGRESS)) || match c with Give_up | Lock_fails => true | _ => false end.

(** A [Give_up] before the claim: cancellation cannot be disabled. *)
Definition fini_step (p : point) (c : choice) (s : runtime) : option point * runtime :=
  match p with
  | Fini_check => if negb (peak_runtime_active s) then return_ s else match c with Give_up => return_ s | _ => next Fini_claim s end
  | Fini_claim =>
      if bool_decide (peak_fini_state s = PEAK_FINI_NOT_STARTED) then next Fini_close (set_fini PEAK_FINI_IN_PROGRESS s) else next Fini_follow s
  | Fini_close => next Fini_drain (set_gate (Z.lor (peak_exec_checkpoint_gate s) PEAK_EXEC_CHECKPOINT_GATE_CLOSING) s)
  | Fini_drain =>
      match peak_exec_checkpoint_wait_for_readers c s with
      | Some true => next Fini_impl (begin_teardown s)
      | Some false => next Fini_publish s
      | None => next Fini_drain s
      end
  | Fini_impl => next Fini_publish s
  | Fini_publish => return_ (peak_fini_publish_done s)
  | Fini_follow => if peak_fini_wait_for_completion c s then return_ s else next Fini_follow s
  | _ => next p s
  end.

(** The exchange of the gate fails or loses a race and looks again. *)
Definition gate_admits (observed : Z) : bool :=
  (Z.land observed PEAK_EXEC_CHECKPOINT_GATE_CLOSING =? 0) && negb (Z.land observed PEAK_EXEC_CHECKPOINT_GATE_READERS =? PEAK_EXEC_CHECKPOINT_GATE_READERS).
Definition peak_exec_checkpoint_reader_acquire (observed : Z) (c : choice) (s : runtime) : option point * runtime :=
  if negb (gate_admits observed) then return_ s
  else
    match c with
    | Again => next (Ckpt_cas (peak_exec_checkpoint_gate s)) s
    | _ =>
        if peak_exec_checkpoint_gate s =? observed then next (Ckpt_active true) (set_gate (wrap 32 (observed + 1)) s)
        else next (Ckpt_cas (peak_exec_checkpoint_gate s)) s
    end.
Definition peak_exec_checkpoint_reader_release (c : choice) (s : runtime) : runtime :=
  match c with Lock_fails => lose_reader s | _ => set_gate (wrap 32 (peak_exec_checkpoint_gate s - 1)) s end.

Definition checkpoint_step (p : point) (c : choice) (s : runtime) : option point * runtime :=
  let inactive second := if second : bool then next Ckpt_release s else return_ s in
  match p with
  | Ckpt_active second => if peak_runtime_active s && negb fork_child then next (Ckpt_fini second) s else inactive second
  | Ckpt_fini second =>
      if negb (bool_decide (peak_fini_state s = PEAK_FINI_NOT_STARTED)) then inactive second
      else if second then next Ckpt_write (count_checkpoint s) else next Ckpt_load s
  | Ckpt_load => next (Ckpt_cas (peak_exec_checkpoint_gate s)) s
  | Ckpt_cas observed => peak_exec_checkpoint_reader_acquire observed c s
  | Ckpt_write => next Ckpt_release s
  | Ckpt_release => return_ (peak_exec_checkpoint_reader_release c s)
  | _ => next p s
  end.

Definition thread_step (p : point) (c : choice) (s : runtime) : option point * runtime :=
  match p with
  | Activate_claim | Activate_own | Activate_body | Activate_mark | Activate_publish _ | Activate_wait => activate_step p c s
  | Close_load _ | Close_cas _ | Close_wait _ | Exit_publish _ => close_step p c s
  | Fini_check | Fini_claim | Fini_close | Fini_drain | Fini_impl | Fini_publish | Fini_follow => fini_step p c s
  | _ => checkpoint_step p c s
  end.

End Thread.

(** ** The process *)

(** The calls that each thread is in, the innermost first: the body of an
    activation runs code that may itself exit, and outside of any call a
    thread may begin one. *)
Record process := mkProcess { shared : runtime; threads : list (list point) }.

Inductive call_made := Call_activate | Call_fini | Call_exit (status : Z) | Call_checkpoint (enabled_at_startup : bool).
Definition begins (fork_child : bool) (f : call_made) : option point :=
  match f with
  | Call_activate => Some peak_activate_runtime
  | Call_fini => peak_fini fork_child
  | Call_exit status => peak_exit fork_child status
  | Call_checkpoint enabled => peak_checkpoint_for_exec enabled
  end.
Definition may_call (stack : list point) : bool := match stack with [] | Activate_body :: _ => true | _ => false end.

(** [peak_init]: the state becomes READY, before anything else runs. *)
Definition publish_ready (s : runtime) : runtime := set_activation PEAK_RUNTIME_ACTIVATION_READY s.

Inductive step (fork_child : bool) : process -> process -> Prop :=
| step_ready s ts : peak_runtime_activation_state s = PEAK_RUNTIME_ACTIVATION_NOT_READY -> step fork_child (mkProcess s ts) (mkProcess (publish_ready s) ts)
| step_call s ts t stack f p : ts !! t = Some stack -> may_call stack = true -> begins fork_child f = Some p ->
    step fork_child (mkProcess s ts) (mkProcess s (<[t := p :: stack]> ts))
| step_thread s ts t p stack c s' r : ts !! t = Some (p :: stack) -> thread_step fork_child t p c s = (r, s') ->
    step fork_child (mkProcess s ts) (mkProcess s' (<[t := match r with Some p' => p' :: stack | None => stack end]> ts)).

Inductive reachable (fork_child : bool) (n : nat) : process -> Prop :=
| reach_start : reachable fork_child n (mkProcess initial_runtime (replicate n []))
| reach_step s s' : reachable fork_child n s -> step fork_child s s' -> reachable fork_child n s'.

(** ** Deadlines *)

(** Seconds and nanoseconds after a number of milliseconds. *)
Definition deadline_after (started : Z * Z) (timeout_ms : Z) : Z * Z :=
  let sec := started.1 + timeout_ms / 1000 in
  let nsec := started.2 + timeout_ms mod 1000 * 1000000 in
  if 1000000000 <=? nsec then (sec + 1, nsec - 1000000000) else (sec, nsec).

End Runtime.
