(* ===== verification/RuntimeGateProofs.v ===== *)
(** * Teardown runs once, alone, and after the activation

    The interleavings of [RuntimeGate]: how many threads stand at which points
    is tied to the shared words, which excludes a checkpoint or an activation
    beside the teardown. *)

From S2P Require Import Prelude RuntimeGate.
Import Runtime.

Module RuntimeProofs.

(** ** Counting threads *)

Definition tally (f : point -> bool) (ts : list (list point)) : nat := length (List.filter f (concat ts)).

Lemma tally_insert f ts t st st' : ts !! t = Some st -> (tally f (<[t := st']> ts) + length (List.filter f st) = tally f ts + length (List.filter f st'))%nat.
Proof.
  unfold tally. revert t. induction ts as [|x ts IH]; intros t H; [done|]. destruct t as [|t].
  - injection H as <-. change (<[0%nat := st']> (x :: ts)) with (st' :: ts). cbn [concat]. rewrite !List.filter_app, !length_app. lia.
  - change (ts !! t = Some st) in H. change (<[S t := st']> (x :: ts)) with (x :: <[t := st']> ts). cbn [concat]. specialize (IH t H). rewrite !List.filter_app, !length_app. lia.
Qed.
Lemma tally_replicate f n : tally f (replicate n []) = 0%nat.
Proof. unfold tally. by induction n. Qed.
Lemma tally_zero f ts t st p : tally f ts = 0%nat -> ts !! t = Some st -> p ∈ st -> f p = false.
Proof.
  intros H Ht Hp. destruct (f p) eqn:E; [|done]. exfalso. assert (Hin : In p (List.filter f (concat ts))).
  { apply filter_In. split; [|done]. apply in_concat. exists st. split; apply list_elem_of_In; [by eapply list_elem_of_lookup_2|done]. }
  unfold tally in H. apply nil_length_inv in H. by rewrite H in Hin.
Qed.

Definition building (p : point) : bool := match p with Activate_own | Activate_body | Activate_mark => true | _ => false end.
Definition publishing_active (p : point) : bool := match p with Activate_publish PEAK_RUNTIME_ACTIVATION_ACTIVE => true | _ => false end.
Definition publishing_rejected (p : point) : bool := match p with Activate_publish PEAK_RUNTIME_ACTIVATION_REJECTED => true | _ => false end.
Definition publishing_other (p : point) : bool := match p with Activate_publish PEAK_RUNTIME_ACTIVATION_ACTIVE | Activate_publish PEAK_RUNTIME_ACTIVATION_REJECTED => false | Activate_publish _ => true | _ => false end.
Definition claiming (p : point) : bool := match p with Fini_claim => true | _ => false end.
Definition closing (p : point) : bool := match p with Fini_close => true | _ => false end.
Definition draining (p : point) : bool := match p with Fini_drain => true | _ => false end.
Definition ending (p : point) : bool := match p with Fini_impl | Fini_publish => true | _ => false end.
(** Between the acquisition of the gate and its release. *)
Definition holding (p : point) : bool := match p with Ckpt_active true | Ckpt_fini true | Ckpt_write | Ckpt_release => true | _ => false end.

Definition b2n (b : bool) : nat := if b then 1%nat else 0%nat.
Definition activating (s : runtime) : bool := match peak_runtime_activation_state s with PEAK_RUNTIME_ACTIVATION_IN_PROGRESS => true | _ => false end.
Definition activated (s : runtime) : bool := match peak_runtime_activation_state s with PEAK_RUNTIME_ACTIVATION_ACTIVE => true | _ => false end.
Definition finalizing (s : runtime) : bool := match peak_fini_state s with PEAK_FINI_IN_PROGRESS => true | _ => false end.
Definition fini_begun (s : runtime) : bool := match peak_fini_state s with PEAK_FINI_NOT_STARTED => false | _ => true end.

(** ** The invariant *)

Record ties (P : process) : Prop := mkTies {
  one_activator : let s := shared P in let c f := tally f (threads P) in
    (c building + c publishing_active + c publishing_rejected = b2n (activating s))%nat;
  active_after_building : let s := shared P in let c f := tally f (threads P) in
    (c building * b2n (peak_runtime_active s) = 0 /\
     c publishing_rejected * b2n (peak_runtime_active s) = 0 /\
     c publishing_active * b2n (negb (peak_runtime_active s)) = 0 /\
     c publishing_other = 0)%nat;
  active_states : let s := shared P in
    (b2n (peak_runtime_active s) <= b2n (activating s) + b2n (activated s) /\
     b2n (activated s) <= b2n (peak_runtime_active s))%nat;
  one_finalizer : let s := shared P in let c f := tally f (threads P) in
    (c closing + c draining + c ending = b2n (finalizing s))%nat;
  finalizer_after_active : let s := shared P in let c f := tally f (threads P) in
    (c claiming * b2n (negb (peak_runtime_active s)) = 0 /\ b2n (fini_begun s) <= b2n (peak_runtime_active s))%nat;
  gate_counts : let s := shared P in let c f := tally f (threads P) in
    peak_exec_checkpoint_gate s = Z.of_nat (c holding + lost_readers s) + (if negb (fini_begun s) || negb (c closing =? 0)%nat then 0 else PEAK_EXEC_CHECKPOINT_GATE_CLOSING) /\
    Z.of_nat (c holding + lost_readers s) <= PEAK_EXEC_CHECKPOINT_GATE_READERS;
  teardown_alone : let s := shared P in let c f := tally f (threads P) in
    (teardowns s <= b2n (fini_begun s) /\ teardowns s * c closing = 0 /\ teardowns s * c draining = 0 /\
     teardowns s * (c holding + lost_readers s) = 0)%nat
}.

Lemma ties_start n : ties (mkProcess initial_runtime (replicate n [])).
Proof. split; cbn -[tally]; rewrite ?tally_replicate; try lia; split; done. Qed.

Lemma ties_ready s ts : peak_runtime_activation_state s = PEAK_RUNTIME_ACTIVATION_NOT_READY -> ties (mkProcess s ts) -> ties (mkProcess (publish_ready s) ts).
Proof.
  intros E [H1 H2 H3 H4 H5 H6 H7]. cbn -[tally] in *. unfold activating, activated in *. rewrite E in *. cbn in H1, H3. split; cbn -[tally]; unfold activating, activated; cbn -[tally]; try done; lia.
Qed.

(** The effect of a step of thread [t], from [p] to [q], on every count. *)
Definition moved (r : option point) (stack : list point) : list point := match r with Some q => q :: stack | None => stack end.
Definition weight (f : point -> bool) (r : option point) : nat := match r with Some q => b2n (f q) | None => 0%nat end.
Lemma tally_move f ts t p r stack : ts !! t = Some (p :: stack) -> (tally f (<[t := moved r stack]> ts) + b2n (f p) = tally f ts + weight f r)%nat.
Proof.
  intros H. pose proof (tally_insert f ts t _ (moved r stack) H) as E. cbn [List.filter] in E. destruct r as [q|]; cbn [moved weight List.filter] in *.
  - destruct (f p), (f q); cbn in *; lia.
  - destruct (f p); cbn in *; lia.
Qed.
Record effect (ts ts' : list (list point)) (p : point) (r : option point) : Prop := mkEffect {
  e_building : (tally building ts' + b2n (building p) = tally building ts + weight building r)%nat;
  e_other : (tally publishing_other ts' + b2n (publishing_other p) = tally publishing_other ts + weight publishing_other r)%nat;
  e_act : (tally publishing_active ts' + b2n (publishing_active p) = tally publishing_active ts + weight publishing_active r)%nat;
  e_rej : (tally publishing_rejected ts' + b2n (publishing_rejected p) = tally publishing_rejected ts + weight publishing_rejected r)%nat;
  e_claiming : (tally claiming ts' + b2n (claiming p) = tally claiming ts + weight claiming r)%nat;
  e_closing : (tally closing ts' + b2n (closing p) = tally closing ts + weight closing r)%nat;
  e_draining : (tally draining ts' + b2n (draining p) = tally draining ts + weight draining r)%nat;
  e_ending : (tally ending ts' + b2n (ending p) = tally ending ts + weight ending r)%nat;
  e_holding : (tally holding ts' + b2n (holding p) = tally holding ts + weight holding r)%nat
}.
Lemma move_effect ts t p r stack : ts !! t = Some (p :: stack) -> effect ts (<[t := moved r stack]> ts) p r.
Proof. intros H. split; by apply tally_move. Qed.

(** A point that is in none of the counts. *)
Definition neutral (p : point) : bool :=
  negb (building p || publishing_active p || publishing_rejected p || publishing_other p || claiming p || closing p || draining p || ending p || holding p).
Ltac not_counted := let p := fresh in intros p Hp; destruct p; cbn in Hp |- *; try done; repeat match goal with b : bool |- _ => destruct b | x : PeakRuntimeActivationState |- _ => destruct x end; done.
Lemma ties_same s ts ts' : (forall f, (forall p, neutral p = true -> f p = false) -> tally f ts' = tally f ts) -> ties (mkProcess s ts) -> ties (mkProcess s ts').
Proof.
  intros E [H1 H2 H3 H4 H5 H6 H7].
  assert (Hn : forall f, (forall p, neutral p = true -> f p = false) -> tally f ts' = tally f ts) by done.
  pose proof (Hn building (ltac:(not_counted))) as E1. pose proof (Hn publishing_other (ltac:(not_counted))) as E2.
  pose proof (Hn publishing_active (ltac:(not_counted))) as E3. pose proof (Hn publishing_rejected (ltac:(not_counted))) as E4.
  pose proof (Hn claiming (ltac:(not_counted))) as E5. pose proof (Hn closing (ltac:(not_counted))) as E6. pose proof (Hn draining (ltac:(not_counted))) as E7.
  pose proof (Hn ending (ltac:(not_counted))) as E8. pose proof (Hn holding (ltac:(not_counted))) as E9.
  split; cbn -[tally] in *; by rewrite ?E1, ?E2, ?E3, ?E4, ?E5, ?E6, ?E7, ?E8, ?E9.
Qed.

(** ** The gate word *)

Lemma gate_readers n b : 0 <= n <= PEAK_EXEC_CHECKPOINT_GATE_READERS -> Z.land (n + if b : bool then PEAK_EXEC_CHECKPOINT_GATE_CLOSING else 0) PEAK_EXEC_CHECKPOINT_GATE_READERS = n.
Proof.
  unfold PEAK_EXEC_CHECKPOINT_GATE_READERS, PEAK_EXEC_CHECKPOINT_GATE_CLOSING. intros Hn. change (2 ^ 31 - 1) with (Z.ones 31). rewrite Z.land_ones by lia.
  destruct b; [|rewrite Z.add_0_r; apply Z.mod_small; lia]. rewrite <- (Z.mul_1_l (2 ^ 31)) at 1. rewrite Z.mod_add by lia. apply Z.mod_small. lia.
Qed.
Lemma gate_closing n : 0 <= n <= PEAK_EXEC_CHECKPOINT_GATE_READERS -> Z.lor n PEAK_EXEC_CHECKPOINT_GATE_CLOSING = n + PEAK_EXEC_CHECKPOINT_GATE_CLOSING.
Proof.
  unfold PEAK_EXEC_CHECKPOINT_GATE_READERS, PEAK_EXEC_CHECKPOINT_GATE_CLOSING. intros Hn. rewrite <- Z.lxor_lor, <- Z.add_nocarry_lxor; [done| |].
  all: apply Z.bits_inj'; intros k Hk; rewrite Z.land_spec, Z.bits_0, Z.pow2_bits_eqb by lia; destruct (Z.eqb_spec 31 k) as [<-|]; [|by rewrite andb_false_r].
  all: rewrite <- (Z.mod_small n (2 ^ 31)) by lia; by rewrite Z.mod_pow2_bits_high by lia.
Qed.
Lemma gate_closed_refuses n : 0 <= n <= PEAK_EXEC_CHECKPOINT_GATE_READERS -> gate_admits (n + PEAK_EXEC_CHECKPOINT_GATE_CLOSING) = false.
Proof.
  intros Hn. unfold gate_admits. rewrite <- (gate_closing n Hn), Z.land_lor_distr_l, Z.land_diag. apply andb_false_iff. left. apply Z.eqb_neq. intros E.
  apply Z.lor_eq_0_iff in E as [_ E]. done.
Qed.

(** ** Every step keeps the ties *)

(** The counts and the shared words as numbers. *)
Ltac split_eqb a b := let E := fresh in destruct (a =? b)%nat eqn:E; [apply Nat.eqb_eq in E|apply Nat.eqb_neq in E].
Ltac by_counting := repeat match goal with |- context [(?a =? ?b)%nat] => split_eqb a b | H : context [(?a =? ?b)%nat] |- _ => split_eqb a b end; cbn [negb orb andb] in *; try discriminate; lia.
Ltac tie :=
  lazymatch goal with HT : ties (mkProcess ?s ?ts), HE : effect ?ts ?ts' _ _ |- _ =>
    destruct HT as [? ? ? ? ? Hgate ?]; destruct HE as [? ? ? ? ? ? ? ? ?]; destruct s as [st ow ac fi g cn ex lo td]; unfold activating, activated, finalizing, fini_begun in *; cbn -[tally Z.add Z.of_nat wrap] in *;
    unfold PEAK_EXEC_CHECKPOINT_GATE_READERS, PEAK_EXEC_CHECKPOINT_GATE_CLOSING in *;
    revert Hgate; assert (td = 0%nat \/ td = 1%nat) as [?|?] by (destruct fi; cbn -[tally] in *; lia); subst td;
    destruct st; try done; cbn -[tally Z.add Z.of_nat wrap] in *; try (exfalso; lia);
    destruct ac; cbn -[tally Z.add Z.of_nat wrap] in *; try (exfalso; lia);
    destruct fi; try done; cbn -[tally Z.add Z.of_nat wrap] in *; try (exfalso; lia);
    intros Hgate; (split; [clear Hgate|clear Hgate|clear Hgate|clear Hgate|clear Hgate| |clear Hgate]); cbn -[tally Z.add Z.of_nat wrap]; unfold activating, activated, finalizing, fini_begun; cbn -[tally Z.add Z.of_nat wrap]; try lia; unfold PEAK_EXEC_CHECKPOINT_GATE_READERS, PEAK_EXEC_CHECKPOINT_GATE_CLOSING; try by_counting
  end.

Lemma ties_move s ts t p q stack : ts !! t = Some (p :: stack) -> neutral p = true -> match q with Some q => neutral q = true | None => True end ->
  ties (mkProcess s ts) -> ties (mkProcess s (<[t := moved q stack]> ts)).
Proof.
  intros H Hp Hq. apply ties_same. intros f Hf. pose proof (tally_move f ts t p q stack H) as E. rewrite (Hf p Hp) in E.
  destruct q as [q|]; cbn [weight] in E; [rewrite (Hf q Hq) in E|]; cbn [b2n] in E; lia.
Qed.

(** A neutral step that leaves what the ties speak of. *)
Lemma ties_shared s s' ts : ties (mkProcess s ts) ->
  peak_runtime_activation_state s' = peak_runtime_activation_state s -> peak_runtime_active s' = peak_runtime_active s -> peak_fini_state s' = peak_fini_state s ->
  peak_exec_checkpoint_gate s' = peak_exec_checkpoint_gate s -> lost_readers s' = lost_readers s -> teardowns s' = teardowns s -> ties (mkProcess s' ts).
Proof. intros [H1 H2 H3 H4 H5 H6 H7] E1 E2 E3 E4 E5 E6. unfold activating, activated, finalizing, fini_begun in *. split; cbn -[tally] in *; unfold activating, activated, finalizing, fini_begun in *; rewrite ?E1, ?E2, ?E3, ?E4, ?E5, ?E6; done. Qed.

Lemma activate_ties ts ts' t p c s r s' : effect ts ts' p r -> activate_step t p c s = (r, s') ->
  match p with Activate_own | Activate_body | Activate_mark | Activate_publish _ => True | Activate_claim => peak_runtime_activation_state s = PEAK_RUNTIME_ACTIVATION_READY | _ => False end ->
  ties (mkProcess s ts) -> ties (mkProcess s' ts').
Proof.
  intros HE E Hp HT. destruct p; try done; cbn [activate_step] in E.
  - rewrite bool_decide_true in E by done. injection E as <- <-. tie.
  - injection E as <- <-. tie.
  - destruct c; injection E as <- <-; tie.
  - injection E as <- <-. tie.
  - injection E as <- <-. destruct x; tie.
Qed.

Lemma fini_ties ts ts' p c s r s' : effect ts ts' p r -> fini_step p c s = (r, s') ->
  match p with Fini_check => peak_runtime_active s = true /\ r = Some Fini_claim | Fini_claim | Fini_close | Fini_drain | Fini_impl | Fini_publish => True | _ => False end ->
  ties (mkProcess s ts) -> ties (mkProcess s' ts').
Proof.
  intros HE E Hp HT. destruct p; try done; cbn [fini_step] in E.
  - destruct Hp as [Ha ->]. rewrite Ha in E. assert (s' = s) as -> by (cbn in E; unfold next, return_ in E; destruct c; congruence). clear E. tie.
  - destruct (bool_decide_reflect (peak_fini_state s = PEAK_FINI_NOT_STARTED)) as [Ef|Ef]; injection E as <- <-; tie.
  - injection E as <- E. pose proof (gate_counts _ HT) as [Hg Hl]. pose proof (e_closing _ _ _ _ HE) as Hc. cbn -[tally] in Hg, Hl, Hc.
    replace (tally closing ts =? 0)%nat with false in Hg by (symmetry; apply Nat.eqb_neq; lia). cbn [negb] in Hg. rewrite orb_true_r, Z.add_0_r in Hg.
    rewrite Hg, gate_closing in E by lia. subst s'. tie.
  - pose proof (gate_counts _ HT) as [Hg Hl]. cbn -[tally] in Hg, Hl. assert (Hr : readers s = Z.of_nat (tally holding ts + lost_readers s)).
    { unfold readers. rewrite Hg. destruct (_ || _); [apply (gate_readers _ false)|apply (gate_readers _ true)]; lia. }
    unfold peak_exec_checkpoint_wait_for_readers in E. rewrite Hr in E. destruct (Z.eqb_spec (Z.of_nat (tally holding ts + lost_readers s)) 0); destruct c; injection E as <- <-; tie.
  - injection E as <- <-. tie.
  - injection E as <- <-. tie.
Qed.

Lemma checkpoint_ties fork ts ts' p c s r s' : effect ts ts' p r -> checkpoint_step fork p c s = (r, s') -> holding p = true \/ (exists o, p = Ckpt_cas o /\ r = Some (Ckpt_active true)) ->
  ties (mkProcess s ts) -> ties (mkProcess s' ts').
Proof.
  intros HE E Hp HT. destruct p as [| | | |?| |?|?|?|?| | | | | | | |[]|[]| |o| |]; cbn [checkpoint_step] in E; try (by destruct Hp as [Hp|(? & ? & ?)]).
  - destruct (_ && _); injection E as <- <-; tie.
  - destruct (negb _); injection E as <- <-; tie.
  - destruct Hp as [?|(? & _ & ->)]; [done|]. unfold peak_exec_checkpoint_reader_acquire in E. destruct (gate_admits o) eqn:Eg; [|done].
    assert (Ho : peak_exec_checkpoint_gate s = o /\ s' = set_gate (wrap 32 (o + 1)) s) by (cbn [negb] in E; unfold next, return_ in E; destruct (Z.eqb_spec (peak_exec_checkpoint_gate s) o), c; split; congruence).
    clear E. destruct Ho as [<- ->]. pose proof (gate_counts _ HT) as [Hg Hl]. cbn -[tally] in Hg, Hl.
    destruct (negb (fini_begun s) || negb (tally closing ts =? 0)%nat) eqn:Ec; [|rewrite Hg, gate_closed_refuses in Eg by lia; done]. rewrite Z.add_0_r in Hg.
    assert (Hlt : peak_exec_checkpoint_gate s < PEAK_EXEC_CHECKPOINT_GATE_READERS).
    { unfold gate_admits in Eg. apply andb_true_iff in Eg as [_ Eg]. apply negb_true_iff, Z.eqb_neq in Eg. pose proof (gate_readers (peak_exec_checkpoint_gate s) false) as Hr. rewrite Z.add_0_r in Hr. rewrite Hr in Eg; lia. }
    assert (Hw : wrap 32 (peak_exec_checkpoint_gate s + 1) = peak_exec_checkpoint_gate s + 1) by (unfold wrap, PEAK_EXEC_CHECKPOINT_GATE_READERS, PEAK_EXEC_CHECKPOINT_GATE_CLOSING in *; apply Z.mod_small; lia).
    rewrite Hw. clear Hw Eg. unfold fini_begun in Ec. tie.
  - injection E as <- <-. tie.
  - injection E as <- <-. pose proof (gate_counts _ HT) as [Hg Hl]. pose proof (e_holding _ _ _ _ HE) as Hh. cbn -[tally] in *.
    assert (Hw : wrap 32 (peak_exec_checkpoint_gate s - 1) = peak_exec_checkpoint_gate s - 1).
    { rewrite Hg. unfold wrap, PEAK_EXEC_CHECKPOINT_GATE_READERS, PEAK_EXEC_CHECKPOINT_GATE_CLOSING in *. apply Z.mod_small. destruct (_ || _); lia. }
    destruct c; cbn [peak_exec_checkpoint_reader_release]; rewrite ?Hw; clear Hw; tie.
Qed.

End RuntimeProofs.

(** ** Every interleaving *)
Import RuntimeProofs.

Module RuntimeTheorems.

(** A step between points that are not counted, on words that are as before. *)
Definition agree (s s' : runtime) : Prop :=
  peak_runtime_activation_state s' = peak_runtime_activation_state s /\ peak_runtime_active s' = peak_runtime_active s /\ peak_fini_state s' = peak_fini_state s /\
  peak_exec_checkpoint_gate s' = peak_exec_checkpoint_gate s /\ lost_readers s' = lost_readers s /\ teardowns s' = teardowns s.
Lemma neutral_ties ts t p r stack s s' : ts !! t = Some (p :: stack) -> neutral p = true -> match r with Some q => neutral q = true | None => True end -> agree s s' ->
  ties (mkProcess s ts) -> ties (mkProcess s' (<[t := moved r stack]> ts)).
Proof. intros H Hp Hr (?&?&?&?&?&?) HT. eapply ties_shared; [by eapply ties_move| | | | | |]; done. Qed.

Lemma closed_neutral fork k x s r s' : closed fork k x s = (r, s') -> s' = s /\ match r with Some q => neutral q = true | None => True end.
Proof. unfold closed, peak_fini, peak_runtime_close_activation_for_teardown, next, return_. destruct k; [by intros [= <- <-]|]. destruct (bool_decide _), fork; by intros [= <- <-]. Qed.

Lemma close_ties fork ts t p c s r s' stack : ts !! t = Some (p :: stack) -> close_step fork t p c s = (r, s') ->
  match p with Close_load _ | Close_cas _ | Close_wait _ | Exit_publish _ => True | _ => False end -> ties (mkProcess s ts) -> ties (mkProcess s' (<[t := moved r stack]> ts)).
Proof.
  intros H E Hp HT. destruct p; try done; cbn [close_step] in E.
  - eapply neutral_ties; try done; destruct (bool_decide _); by injection E as <- <-.
  - assert (Hcancel : peak_runtime_activation_state s = PEAK_RUNTIME_ACTIVATION_READY -> ties (mkProcess (set_activation PEAK_RUNTIME_ACTIVATION_CANCELED s) ts)).
    { intros Es. destruct HT as [H1 H2 H3 H4 H5 H6 H7]. unfold activating, activated in *. split; cbn -[tally] in *; unfold activating, activated; cbn -[tally]; rewrite ?Es in *; done. }
    assert (Hag : forall x, agree x x) by (intros; by split_and!).
    destruct (bool_decide_reflect (peak_runtime_activation_state s = PEAK_RUNTIME_ACTIVATION_READY)) as [Es|]; [|by eapply neutral_ties; try done; destruct c; injection E as <- <-].
    destruct c; try (apply closed_neutral in E as [-> Hr]; eapply neutral_ties; [done|done|exact Hr|apply Hag|by apply Hcancel]). injection E as <- <-. by eapply neutral_ties.
  - destruct (peak_runtime_activation_wait_for_terminal _ _ _); [apply closed_neutral in E as [-> Hr]; by eapply neutral_ties; [done|done|exact Hr|by split_and!|]|].
    injection E as <- <-. by eapply neutral_ties.
  - assert (Ha : agree s (peak_publish_exit_status status s)) by (unfold peak_publish_exit_status; destruct (_ =? 0); by split_and!).
    unfold peak_fini, peak_runtime_close_activation_for_teardown in E. destruct fork; injection E as <- <-; by eapply neutral_ties.
Qed.

Lemma thread_ties fork ts t p c s r s' stack : ts !! t = Some (p :: stack) -> thread_step fork t p c s = (r, s') -> ties (mkProcess s ts) -> ties (mkProcess s' (<[t := moved r stack]> ts)).
Proof.
  intros H E HT. pose proof (move_effect ts t p r stack H) as HE. destruct p; cbn [thread_step] in E; try (by eapply close_ties; eauto); try (by eapply activate_ties; eauto); try (by eapply fini_ties; eauto).
  - destruct (decide (peak_runtime_activation_state s = PEAK_RUNTIME_ACTIVATION_READY)); [by eapply activate_ties; eauto|]. cbn [activate_step] in E. rewrite bool_decide_false in E by done.
    eapply neutral_ties; try done; destruct (bool_decide _); by injection E as <- <-.
  - cbn [activate_step] in E. eapply neutral_ties; try done; destruct (peak_runtime_activation_wait_for_terminal _ _ _); by injection E as <- <-.
  - destruct (peak_runtime_active s) eqn:Ea; [|cbn [fini_step] in E; rewrite Ea in E; injection E as <- <-; by eapply neutral_ties].
    destruct r as [q|] eqn:Er.
    + eapply fini_ties; eauto. split; [done|]. cbn [fini_step] in E. rewrite Ea in E. unfold next, return_ in E. cbn in E. destruct c; congruence.
    + cbn [fini_step] in E. rewrite Ea in E. unfold next, return_ in E. cbn in E. assert (s' = s) as -> by (destruct c; congruence). by eapply (neutral_ties ts t Fini_check None).
  - cbn [fini_step] in E. eapply neutral_ties; try done; destruct (peak_fini_wait_for_completion c s); by injection E as <- <-.
  - destruct second; [by eapply checkpoint_ties; eauto|]. cbn [checkpoint_step] in E. eapply neutral_ties; try done; destruct (_ && _); by injection E as <- <-.
  - destruct second; [by eapply checkpoint_ties; eauto|]. cbn [checkpoint_step] in E. eapply neutral_ties; try done; destruct (negb _); by injection E as <- <-.
  - injection E as <- <-. by eapply neutral_ties.
  - assert (Hcase : r = Some (Ckpt_active true) \/ (match r with Some q => neutral q = true | None => True end /\ s' = s)).
    { cbn [checkpoint_step] in E. unfold peak_exec_checkpoint_reader_acquire, next, return_ in E. destruct (negb (gate_admits observed)), c, (peak_exec_checkpoint_gate s =? observed); injection E as <- <-; auto. }
    destruct Hcase as [Er|[Er ->]]; [eapply checkpoint_ties; eauto|]. by eapply neutral_ties.
  - by eapply checkpoint_ties; eauto.
  - by eapply checkpoint_ties; eauto.
Qed.

Lemma step_ties fork P P' : step fork P P' -> ties P -> ties P'.
Proof.
  intros [s ts Es|s ts t stack f p Ht Hm Hb|s ts t p stack c s' r Ht E] HT.
  - by apply ties_ready.
  - revert HT. apply ties_same. intros g Hg. pose proof (tally_insert g ts t _ (p :: stack) Ht) as E. cbn [List.filter] in E.
    assert (neutral p = true) as Hp. { unfold begins, peak_fini, peak_exit, peak_runtime_close_activation_for_teardown, peak_checkpoint_for_exec in Hb. destruct f as [| | |[]], fork; try discriminate; by injection Hb as <-. }
    rewrite (Hg p Hp) in E. lia.
  - by eapply thread_ties.
Qed.

Lemma reachable_ties fork n P : reachable fork n P -> ties P.
Proof. induction 1 as [|P P' _ IH Hs]; [apply ties_start|by eapply step_ties]. Qed.

(** ** What it gives *)

(** No thread of the process stands at such a point. *)
Definition nowhere (f : point -> bool) (P : process) : Prop := forall t stack p, threads P !! t = Some stack -> p ∈ stack -> f p = false.
Definition at_teardown (p : point) : bool := match p with Fini_impl => true | _ => false end.

(** C15: however the threads of a process interleave and whichever waits are
    given up: the teardown is entered at most once; from then on the profiler is
    active, no activation is being built and no thread is between the
    acquisition of the checkpoint gate and its release, now or later; an
    activation that an exit has cancelled never becomes active; and the gate
    word counts its readers without reaching the closing bit. *)
Theorem teardown_runs_alone fork n P : reachable fork n P ->
  (teardowns (shared P) <= 1)%nat /\
  (teardowns (shared P) = 1%nat -> nowhere holding P /\ nowhere building P /\ peak_runtime_active (shared P) = true) /\
  (peak_runtime_activation_state (shared P) = PEAK_RUNTIME_ACTIVATION_CANCELED -> peak_runtime_active (shared P) = false /\ nowhere building P /\ teardowns (shared P) = 0%nat) /\
  readers (shared P) = Z.of_nat (tally holding (threads P) + lost_readers (shared P)) /\
  0 <= peak_exec_checkpoint_gate (shared P) < 2 ^ 32.
Proof.
  intros H. apply reachable_ties in H. destruct H as [H1 H2 H3 H4 H5 H6 H7].
  assert (Hn : forall f, tally f (threads P) = 0%nat -> nowhere f P) by (intros f E t stack p Ht Hp; by eapply tally_zero).
  destruct P as [s ts]. cbn [shared threads] in *. unfold activating, activated, finalizing, fini_begun in *.
  split_and!.
  - destruct (peak_fini_state s); cbn [b2n] in *; lia.
  - intros Et. assert (Ha : peak_runtime_active s = true) by (destruct (peak_fini_state s), (peak_runtime_active s); cbn [b2n] in *; lia || done). rewrite Ha in *. cbn [b2n negb] in *.
    split_and!; [apply Hn; lia|apply Hn; lia|done].
  - intros Ec. rewrite Ec in *. assert (Ha : peak_runtime_active s = false) by (destruct (peak_runtime_active s); cbn [b2n] in *; lia || done). rewrite Ha in *. cbn [b2n negb] in *.
    split_and!; [done|apply Hn; lia|destruct (peak_fini_state s); cbn [b2n] in *; lia].
  - unfold readers. destruct H6 as [-> Hl]. destruct (_ || _); [apply (gate_readers _ false)|apply (gate_readers _ true)]; lia.
  - destruct H6 as [-> Hl]. unfold PEAK_EXEC_CHECKPOINT_GATE_READERS, PEAK_EXEC_CHECKPOINT_GATE_CLOSING in *. destruct (_ || _); lia.
  - destruct H6 as [-> Hl]. unfold PEAK_EXEC_CHECKPOINT_GATE_READERS, PEAK_EXEC_CHECKPOINT_GATE_CLOSING in *. destruct (_ || _); lia.
Qed.

(** A deadline is the start and the milliseconds, with nanoseconds below a second. *)
Lemma deadline_exact started ms : 0 <= started.2 < 1000000000 -> 0 <= ms -> let d := deadline_after started ms in
  d.1 * 1000000000 + d.2 = started.1 * 1000000000 + started.2 + ms * 1000000 /\ 0 <= d.2 < 1000000000.
Proof.
  intros Hs Hm. unfold deadline_after. pose proof (Z.div_mod ms 1000 ltac:(lia)). pose proof (Z.mod_pos_bound ms 1000 ltac:(lia)).
  destruct (Z.leb_spec 1000000000 (started.2 + ms mod 1000 * 1000000)); cbn; lia.
Qed.

(** ** A run *)

Definition advance (fork : bool) (t : nat) (c : choice) (P : process) : process :=
  match threads P !! t with
  | Some (p :: stack) => let '(r, s') := thread_step fork t p c (shared P) in mkProcess s' (<[t := moved r stack]> (threads P))
  | _ => P
  end.
Definition enter (fork : bool) (t : nat) (f : call_made) (P : process) : process :=
  match threads P !! t, begins fork f with
  | Some stack, Some p => if may_call stack then mkProcess (shared P) (<[t := p :: stack]> (threads P)) else P
  | _, _ => P
  end.
Definition ready (P : process) : process :=
  if bool_decide (peak_runtime_activation_state (shared P) = PEAK_RUNTIME_ACTIVATION_NOT_READY) then mkProcess (publish_ready (shared P)) (threads P) else P.

Lemma advance_reachable fork n t c P : reachable fork n P -> reachable fork n (advance fork t c P).
Proof.
  intros H. unfold advance. destruct P as [s ts]. cbn. destruct (ts !! t) as [[|p stack]|] eqn:E; [done| |done].
  destruct (thread_step fork t p c s) as [r s'] eqn:Et. eapply reach_step; [done|]. by eapply step_thread.
Qed.
Lemma enter_reachable fork n t f P : reachable fork n P -> reachable fork n (enter fork t f P).
Proof.
  intros H. unfold enter. destruct P as [s ts]. cbn. destruct (ts !! t) as [stack|] eqn:E; [|done]. destruct (begins fork f) eqn:Eb; [|done].
  destruct (may_call stack) eqn:Em; [|done]. eapply reach_step; [done|]. by eapply step_call.
Qed.
Lemma ready_reachable fork n P : reachable fork n P -> reachable fork n (ready P).
Proof. intros H. unfold ready. case_bool_decide; [|done]. destruct P. eapply reach_step; [done|]. by apply step_ready. Qed.

Definition proceed (t k : nat) (P : process) : process := Nat.iter k (advance false t Proceed) P.
Lemma proceed_reachable t k n P : reachable false n P -> reachable false n (proceed t k P).
Proof. intros H. unfold proceed. induction k as [|k IH]; [done|]. by apply advance_reachable. Qed.

(** Thread 0 activates, thread 1 takes the checkpoint gate, thread 0 exits and
    waits, thread 1 releases, and the teardown begins. *)
Definition demo_checkpoint : process := proceed 1 6 (enter false 1 (Call_checkpoint true) (proceed 0 5 (enter false 0 Call_activate (ready (mkProcess initial_runtime (replicate 2 [])))))).
Definition demo_teardown : process := proceed 0 1 (proceed 1 2 (proceed 0 11 (enter false 0 (Call_exit 3) demo_checkpoint))).
Lemma demo_teardown_reachable : reachable false 2 demo_teardown.
Proof. do 3 apply proceed_reachable. apply enter_reachable. apply proceed_reachable, enter_reachable, proceed_reachable, enter_reachable, ready_reachable, reach_start. Qed.

Lemma teardown_runs_alone_witness : readers (shared demo_checkpoint) = 1 /\ teardowns (shared demo_teardown) = 1%nat /\ nowhere holding demo_teardown.
Proof.
  split; [vm_compute; reflexivity|]. split; [vm_compute; reflexivity|].
  destruct (teardown_runs_alone false 2 demo_teardown demo_teardown_reachable) as (_ & H & _). apply H. vm_compute. reflexivity.
Defined.

End RuntimeTheorems.
